(* ===== verification/_CoqProject ===== *)
-Q . S2P
Prelude.v
CxxString.v
MemoryLocation.v
StoreTypes.v
ReplicaPolicy.v
Samples.v
PutPath.v
BatchPut.v
BatchPutFacts.v
BatchPutSpec.v
BatchUpsertSpec.v
GetPath.v
GetSpec.v
Segments.v
SegmentsSpec.v
RdmaTransport.v
RdmaTransportSpec.v
Accounting.v
RdmaContext.v
RdmaContextFacts.v
RdmaContextSpec.v
GpuDmabuf.v
GpuDmabufSpec.v
RdmaRegister.v
RdmaRegisterSpec.v
HttpMetadata.v
Tasks.v
TasksSpec.v
Leader.v
LeaderSpec.v
ClientCreate.v
ClientCreateSpec.v
DummyMap.v
RangedRead.v
RangedPrepare.v
RangedReadSpec.v
RangedDelivery.v
RealWrite.v
RealWriteSpec.v
RealGetInto.v
RealGetSafe.v
RealGetSound.v
RealSegments.v
RealSegmentsSpec.v
RealChunks.v
RealShm.v
RealShmSpec.v
RealBuffers.v
RealBuffersSpec.v
RealBuffersSound.v
DummyRpc.v
DummyBuffers.v
DummyBuffersSpec.v
DummyClient.v
DummyClientSpec.v
DummyResources.v
RealSetup.v
RealSetupSpec.v
RealTeardown.v
RealTeardownOrder.v
StorePy.v
StorePySpec.v
RealServers.v
RealServersSpec.v
PyProcess.v
PyProcessSpec.v
Bindings.v
BindingsSpec.v
RealPublic.v
RealPublicSpec.v
Probe.v
Ascend.v
AscendSpec.v
DummyAscend.v
DummyAscendSpec.v
KernelProbe.v
PeerReads.v
