(* ===== verification/Prelude.v ===== *)
(** * Verification of the Mooncake store client, its RDMA transport and the SPDK GPU dma-buf domain

    ** The program

    Mooncake is a distributed key/value store for tensors.  A {e client}
    ([mooncake-store/src/client_service.cpp]) stores an object in two phases: it
    asks the {e master} for replicas, writes them, and then ends (publishes) or
    revokes them on the master.  Data moves through a {e transfer engine} whose
    RDMA transport ([mooncake-transfer-engine/src/transport/rdma_transport]) cuts
    requests into slices, posts them to one {e context} per RDMA device and
    registers memory with all of them.  GPU memory reaches NVMe-oF targets through
    an SPDK memory domain ([spdk/lib/dma/gpu_dmabuf.c]).  A small HTTP server
    ([mooncake-store/src/http_metadata_server.cpp]) keeps the metadata with which
    transfer engines find each other.

    Applications use the store through a {e real client}
    ([mooncake-store/src/real_client.cpp]), which owns a store client, allocates and
    mounts memory and reads into and writes from the caller's buffers, or through a
    {e dummy client} ([dummy_client.cpp]) in another process, which shares its memory
    with a real client and sends it requests.

    ** How the code is modelled

    Code with effects is a program of the monad [comp Ev A] below: a function of
    the history of external calls made so far, which returns the calls it makes
    and its value ([let! x := m in k], [m ;;; k]).  Everything that is not part of
    the sources (master, transfer submitter, verbs, CUDA, metadata service, clock,
    environment) is a class of operations whose answers may depend on the whole
    history; a call is recorded as an event together with its answer.  Theorems
    quantify over all instances, so they hold for every behaviour of the outside
    world, failures included; [Samples.v] and the witnesses give concrete ones.
    [tl::expected] is [result]; 64-bit arithmetic is [Z] with its wrap-around
    written out ([u64]); maps are [gmap] or, where their order matters, sorted
    lists.  Objects that the code mutates in place are passed as state.

    ** Files

    - [Prelude.v]: results, 64-bit integers, the monad, its laws and traversals.
    - [CxxString.v]: [std::to_string], [stoull], [strtoull], [find] and the like.
    - [MemoryLocation.v]: [memory_location.cpp].
    - [StoreTypes.v]: the data of the store client and the services it calls;
      [Samples.v]: concrete services.
    - [ReplicaPolicy.v]: replica counts, transfer summary and finalize decision.
    - [PutPath.v]: [Put], [Upsert], [TransferWrite], [PutToLocalFile].
    - [BatchPut.v]: the [PutOperation] state machine of [BatchPut] and
      [BatchUpsert]; [BatchPutFacts.v], [BatchPutSpec.v], [BatchUpsertSpec.v].
    - [GetPath.v], [GetSpec.v]: [Query], [Get], [BatchGet], hot cache, removal.
    - [Segments.v], [SegmentsSpec.v]: mounting, (graceful) unmounting, buffers.
    - [Tasks.v], [TasksSpec.v]: [Copy], [Move], task polling and execution.
    - [Leader.v], [LeaderSpec.v]: connection, leader monitor, heartbeat.
    - [RdmaTransport.v], [RdmaTransportSpec.v]: submission and status.
    - [Accounting.v]: a program logic for acquired and released resources.
    - [RdmaContext.v], [RdmaContextFacts.v], [RdmaContextSpec.v]: [rdma_context.cpp].
    - [RdmaRegister.v], [RdmaRegisterSpec.v]: installation and registration of the
      transport, against the interface [RdmaDevice] that [RdmaContext] implements.
    - [GpuDmabuf.v], [GpuDmabufSpec.v]: [gpu_dmabuf.c].
    - [HttpMetadata.v]: [http_metadata_server.cpp].
    - [ClientCreate.v], [ClientCreateSpec.v]: [Client::Create] and the local hot cache.
    - [DummyMap.v]: a dummy client's addresses in the real client's mappings.
    - [RangedRead.v], [RangedPrepare.v], [RangedReadSpec.v], [RangedDelivery.v]: memory
      as bytes, [get_into_ranges] and reads from memory, NoF, file and SSD replicas.
    - [RealWrite.v], [RealWriteSpec.v]: puts, upserts and removal of the real client.
    - [RealGetInto.v], [RealGetSafe.v], [RealGetSound.v]: [batch_get_into] and its
      multi-buffer variant: safety of the writes, and the bytes they deliver.
    - [RealSegments.v], [RealSegmentsSpec.v], [RealChunks.v]: segments mounted from
      files and allocated memory, their records and roll back.
    - [RealShm.v], [RealShmSpec.v]: shared memory of dummy clients and its monitor.
    - [RealBuffers.v], [RealBuffersSpec.v], [RealBuffersSound.v]: buffers handed out
      by [get_buffer], hot cache blocks of dummy clients, queries.
    - [DummyRpc.v]: the requests of a dummy client over a transport that may lose them;
      [DummyBuffers.v], [DummyBuffersSpec.v]: its buffer handles.
    - [DummyClient.v], [DummyClientSpec.v], [DummyResources.v]: connection, registration
      of memory, ping thread and what they acquire.
    - [RealSetup.v], [RealSetupSpec.v], [RealTeardown.v], [RealTeardownOrder.v]: set-up,
      tear-down and destructor of the real client.
    - [StorePy.v], [StorePySpec.v]: the tensor operations of the Python wrapper.
    - [RealServers.v], [RealServersSpec.v]: the IPC server, the monitor thread's start and
      stop, and the HTTP status server of the real client.
    - [PyProcess.v], [PyProcessSpec.v]: clients, wrappers and capsules of a Python process,
      the resource tracker and its signal thread.
    - [Bindings.v], [BindingsSpec.v]: the methods [store_py.cpp] gives to Python, with
      the interpreter lock and the requested buffers.
    - [RealPublic.v], [RealPublicSpec.v]: the public methods of the real client (timing,
      conversion of results) over the internal ones.
    - [Ascend.v], [AscendSpec.v], [DummyAscend.v], [DummyAscendSpec.v]: device memory of
      dummy clients in a build with Ascend support, on both sides.
    - [PeerReads.v]: reads of objects from the SSD of another client.
    - [KernelProbe.v]: [isKernelDmabufSupported] of [rdma_context.cpp]; [Probe.v]:
      [tools/maca_dmabuf_rdma_probe.cpp].

    ** What the theorems show

    - Writing: a success of [Put], [Upsert] or [BatchPut] means that the object was
      there already, or that the master started it, the replicas the policy counts were
      transferred and the object was ended, in that order; a failure after the
      start revokes; when the master answers for each key of a batch, no allocated
      key is left without an end or a revoke, and no replica type is both ended and
      revoked.
    - Reading: a success read a complete replica within the lease, and every hot
      cache block that was used is released.
    - Segments, connection, tasks: invariants over all reachable states, the
      graceful unmount ends after at most four timer runs, every task is reported
      exactly once as long as the pool takes what it is given, the leader view only
      moves forward.
    - RDMA: slices partition a request and are posted exactly once; registration
      publishes the keys of every context and unregistration restores them;
      every resource a context acquires is released exactly once.
    - GPU dma-buf: translation only returns keys of memory regions that cover the
      range; invalidation removes exactly the overlapping ones; resources balance.
    - HTTP: the server refines a log of accepted writes; rpc_meta keys never change.
    - Creation: a client that is returned is connected and has a transport, and the
      memory of the hot cache follows its protocol of registration, in which the engine
      is asked to give it up before it is freed.
    - Real client, reads: a read writes only inside the buffers it was given (or
      temporary ones it allocated), whatever the replies, and a success has delivered
      the bytes of the object.
    - Real client, memory: segment memory, mappings, buffers handed out, ports and the
      store client are released as often as they are acquired; set-up mounts the whole
      segment; tear-down unmounts before it frees.
    - Dummy client: a request reaches the real client at most once, its registered
      segments are mapped there, a failed ping leads to reconnection, a buffer it
      returns holds the object, and a failed set-up leaves no segment behind.
    - Python wrapper: a tensor that is stored and read again is the same, and the results
      of a batch of sharded tensors are those of their shards; every method
      forwarded to a client returns with the interpreter lock held and its buffers
      released, and a value that is put has reached the replicas the master allocated.
    - Processes: every client is destroyed once, when nothing refers to it any more, and
      the exit handler closes every client that is still alive; the IPC server ends when it is stopped and
      has closed every socket it accepted; a peer's staging buffers are released after a
      read; device memory that is imported is given back (in agent mode), and a
      reconnection maps the device buffers again.
    - Probes: the kernel probe finds exactly the configurations that support dma-buf; the
      probe tool releases what it acquires.

    Some theorems record behaviour the code should not have (for instance
    [GetSpec.size_mismatch_leaks_pin]); each says so.

    ** Bounds and fuel

    Loops over data are structural.  The other loops need fuel: the slicing loop of
    the transport ([slice_fuel], the number of slices of the request, shown to be
    enough by [slice_offsets_spec]), the printing of decimals ([dec_fuel_enough])
    and the parsing of node lists ([parse_nodes_fuel]).  The real client's loops over
    chunks and pieces of a segment take [chunk_fuel] and [global_fuel] rounds, at least
    one more than the quotient of the sizes, which is shown to suffice where they are
    used.  The accept loop of the IPC server takes a number of rounds, and ends within any
    number that exceeds the rounds before it is stopped ([server_ends]).  Timers, retries
    and threads are steps of state machines.

    ** Not modelled

    Logging, metrics and tracing (no influence on results); the mutexes: each
    model runs an operation from lock to unlock without interruption, which is
    what the locks enforce; thread pools, which are run in some order.
    The enum and field declarations of the pybind11 module; the parallelism manifests
    of [store_py.cpp] and the parallel reads and writes of its headers, which are not
    part of the sources; accessors of [RdmaContext] and methods of [client_service.cpp]
    that only forward their arguments to the master client (offload, promotion and
    task queries); the NoF registration client and the host allocator, of which only
    declarations are part of the sources; build scripts and the Python sources. *)

From stdpp Require Import base gmap strings list sorting fin_maps.
From Stdlib Require Import ZArith Lia.

#[global] Open Scope Z_scope.

(** ** Results: [tl::expected<T, E>] *)

Inductive result (E A : Type) : Type :=
| Ok (a : A)
| Err (e : E).
Arguments Ok {E A} a.
Arguments Err {E A} e.

Declare Scope mooncake_scope.
Delimit Scope mooncake_scope with mooncake.

#[export] Instance result_eq_dec {E A} `{EqDecision E, EqDecision A} :
  EqDecision (result E A).
Proof. solve_decision. Defined.

(** [r.has_value()] *)
Definition has_value {E A} (r : result E A) : bool :=
  match r with Ok _ => true | Err _ => false end.

(** [tl::unexpected(r.error())] at another value type. *)
Definition result_map {E A B} (f : A → B) (r : result E A) : result E B :=
  match r with Ok a => Ok (f a) | Err e => Err e end.

(** ** Unsigned 64-bit arithmetic ([size_t], [uint64_t], [uintptr_t]) *)

Definition u64_modulus : Z := 2 ^ 64.
Definition u64 (z : Z) : Z := z mod u64_modulus.
Definition u64_add (a b : Z) : Z := u64 (a + b).
Definition u64_sub (a b : Z) : Z := u64 (a - b).
Definition u64_max : Z := u64_modulus - 1.
Definition in_u64 (z : Z) : Prop := 0 ≤ z < u64_modulus.

Lemma u64_small z : in_u64 z → u64 z = z.
Proof. intros H. by apply Z.mod_small. Qed.

Lemma u64_range z : in_u64 (u64 z).
Proof. apply Z.mod_pos_bound. done. Qed.

Lemma u64_add_small a b : 0 ≤ a → 0 ≤ b → a + b < u64_modulus → u64_add a b = a + b.
Proof. intros. apply u64_small. unfold in_u64. lia. Qed.

(** When the addition of two in-range values wraps, the result is exactly
    one modulus below the true sum. *)
Lemma u64_add_wrap a b :
  in_u64 a → in_u64 b → u64_modulus ≤ a + b → u64_add a b = a + b - u64_modulus.
Proof.
  unfold in_u64, u64_add, u64. intros. symmetry.
  apply Z.mod_unique with (q := 1); lia.
Qed.

Lemma u64_sub_small a b : 0 ≤ b ≤ a → a < u64_modulus → u64_sub a b = a - b.
Proof. intros. apply u64_small. unfold in_u64. lia. Qed.

Create HintDb mooncake.
#[export] Hint Resolve u64_range : mooncake.

(** Case analysis on an in-range 64-bit sum: it is exact, or it wrapped. *)
Ltac u64_cases a b :=
  let H := fresh "Hwrap" in
  destruct (Z.lt_ge_cases (a + b) u64_modulus) as [H|H];
  [ rewrite (u64_add_small a b) in * by lia
  | rewrite (u64_add_wrap a b) in * by (unfold in_u64 in *; lia) ].

(** Split the [if]s and [match]es of a definition, remembering each test. *)
Ltac split_match :=
  match goal with
  | |- context [match ?x with _ => _ end] => destruct x eqn:?
  | H : context [match ?x with _ => _ end] |- _ => destruct x eqn:?
  end.
Ltac split_matches := repeat (split_match; simplify_eq/=).

(** Turn boolean comparisons of the code into propositions. *)
Ltac bool_to_prop :=
  repeat match goal with
  | H : _ && _ = true |- _ => apply andb_true_iff in H; destruct H
  | H : _ || _ = false |- _ => apply orb_false_iff in H; destruct H
  | H : negb _ = true |- _ => apply negb_true_iff in H
  | H : negb _ = false |- _ => apply negb_false_iff in H
  | H : (_ <? _) = true |- _ => apply Z.ltb_lt in H
  | H : (_ <? _) = false |- _ => apply Z.ltb_ge in H
  | H : (_ <=? _) = true |- _ => apply Z.leb_le in H
  | H : (_ <=? _) = false |- _ => apply Z.leb_gt in H
  | H : (_ =? _) = true |- _ => apply Z.eqb_eq in H
  | H : (_ =? _) = false |- _ => apply Z.eqb_neq in H
  | H : (_ =? _)%nat = true |- _ => apply Nat.eqb_eq in H
  | H : (_ =? _)%nat = false |- _ => apply Nat.eqb_neq in H
  | H : bool_decide _ = true |- _ => apply bool_decide_eq_true in H
  | H : bool_decide _ = false |- _ => apply bool_decide_eq_false in H
  end.

(** ** Computations against an external environment

    The client talks to code that is not part of this repository: the master
    service, the transfer engine, the hot cache, the storage backend, the GPU
    runtime.  A computation sees the whole history of external calls, every
    answer of the environment may depend on that history, and it emits the
    calls it makes itself, in order. *)

Section Comp.
Context {Ev : Type}.

Definition comp (A : Type) : Type := list Ev → A * list Ev.

Definition ret {A} (a : A) : comp A := λ _, (a, []).

Definition bind {A B} (m : comp A) (k : A → comp B) : comp B := λ h,
  let '(a, e1) := m h in
  let '(b, e2) := k a (h ++ e1) in
  (b, e1 ++ e2).

(** One external call: [f] is the environment's answer, [ev] records it. *)
Definition call {A} (f : list Ev → A) (ev : A → Ev) : comp A := λ h, (f h, [ev (f h)]).

(** [for (auto& x : l) st = body(st, x)] *)
Fixpoint mfold {S A} (body : S → A → comp S) (st : S) (l : list A) : comp S :=
  match l with
  | [] => ret st
  | x :: l' => bind (body st x) (λ st', mfold body st' l')
  end.

(** [for (auto& x : l) out.push_back(body(x))] *)
Fixpoint mmap {A B} (body : A → comp B) (l : list A) : comp (list B) :=
  match l with
  | [] => ret []
  | x :: l' => bind (body x) (λ y, bind (mmap body l') (λ ys, ret (y :: ys)))
  end.

(** The same loop with a state that the iterations pass on. *)
Fixpoint mscan {S A B} (body : S → A → comp (S * B)) (st : S) (l : list A)
  : comp (S * list B) :=
  match l with
  | [] => ret (st, [])
  | x :: l' =>
      bind (body st x) (λ r, bind (mscan body r.1 l') (λ rs, ret (rs.1, r.2 :: rs.2)))
  end.

Definition emitted {A} (m : comp A) (h : list Ev) : list Ev := (m h).2.
Definition value_of {A} (m : comp A) (h : list Ev) : A := (m h).1.

(** Equality of computations on every history. *)
Definition comp_eq {A} : relation (comp A) := λ m m', ∀ h, m h = m' h.

#[export] Instance comp_eq_equivalence {A} : Equivalence (@comp_eq A).
Proof.
  split.
  - by intros m h.
  - intros m m' H h. by rewrite H.
  - intros m m' m'' H1 H2 h. by rewrite H1.
Qed.

#[export] Instance bind_proper {A B} :
  Proper (comp_eq ==> pointwise_relation A comp_eq ==> comp_eq) (@bind A B).
Proof.
  intros m m' Hm k k' Hk h. unfold bind. rewrite Hm.
  destruct (m' h) as [a e]. by rewrite (Hk a (h ++ e)).
Qed.

Lemma bind_ret_l {A B} (a : A) (k : A → comp B) : comp_eq (bind (ret a) k) (k a).
Proof. intros h. unfold bind, ret. rewrite app_nil_r. by destruct (k a h). Qed.

Lemma bind_ret_r {A} (m : comp A) : comp_eq (bind m ret) m.
Proof. intros h. unfold bind, ret. destruct (m h). by rewrite app_nil_r. Qed.

Lemma bind_assoc {A B C} (m : comp A) (k : A → comp B) (k' : B → comp C) :
  comp_eq (bind (bind m k) k') (bind m (λ a, bind (k a) k')).
Proof.
  intros h. unfold bind. destruct (m h) as [a e1].
  destruct (k a (h ++ e1)) as [b e2]. rewrite app_assoc.
  destruct (k' b ((h ++ e1) ++ e2)) as [c e3]. by rewrite app_assoc.
Qed.

Lemma bind_run {A B} (m : comp A) (k : A → comp B) h :
  bind m k h =
  ((k (m h).1 (h ++ (m h).2)).1, (m h).2 ++ (k (m h).1 (h ++ (m h).2)).2).
Proof.
  unfold bind. destruct (m h) as [a e]; simpl.
  by destruct (k a (h ++ e)).
Qed.

Lemma bind_inv {A B} (m : comp A) (k : A → comp B) h b evs :
  bind m k h = (b, evs) →
  ∃ a e1 e2, m h = (a, e1) ∧ k a (h ++ e1) = (b, e2) ∧ evs = e1 ++ e2.
Proof.
  unfold bind. destruct (m h) as [a e1]. destruct (k a (h ++ e1)) as [b' e2] eqn:E.
  intros [= <- <-]. by exists a, e1, e2.
Qed.

Lemma ret_inv {A} (a b : A) (h evs : list Ev) : ret a h = (b, evs) → b = a ∧ evs = [].
Proof. by intros [= <- <-]. Qed.

Lemma call_inv {A} (f : list Ev → A) (ev : A → Ev) h b evs :
  call f ev h = (b, evs) → b = f h ∧ evs = [ev b].
Proof. by intros [= <- <-]. Qed.

Lemma run_emitted {A} (m : comp A) h v evs : m h = (v, evs) → emitted m h = evs.
Proof. unfold emitted. by intros ->. Qed.

Lemma run_value {A} (m : comp A) h v evs : m h = (v, evs) → value_of m h = v.
Proof. unfold value_of. by intros ->. Qed.

(** Composition of what holds of each iteration of a loop. *)
Lemma mfold_outcome {S A} (body : S → A → comp S) (R : list A → S → S → list Ev → Prop) :
  (∀ s, R [] s s []) →
  (∀ s x s1 e1 l s2 e2 h, body s x h = (s1, e1) → R l s1 s2 e2 → R (x :: l) s s2 (e1 ++ e2)) →
  ∀ l s h s' evs, mfold body s l h = (s', evs) → R l s s' evs.
Proof.
  intros Hnil Hcons l. induction l as [|x l IH]; intros s h s' evs H.
  - simpl in H. apply ret_inv in H as [-> ->]. by apply Hnil.
  - apply bind_inv in H as (s1 & e1 & e2 & H1 & H2 & ->).
    eapply Hcons; [exact H1|]. by eapply IH.
Qed.

Lemma value_of_bind {A B} (m : comp A) (k : A → comp B) h :
  value_of (bind m k) h = value_of (k (value_of m h)) (h ++ emitted m h).
Proof. unfold value_of, emitted. by rewrite bind_run. Qed.

Lemma emitted_bind {A B} (m : comp A) (k : A → comp B) h :
  emitted (bind m k) h =
  emitted m h ++ emitted (k (value_of m h)) (h ++ emitted m h).
Proof. unfold value_of, emitted. by rewrite bind_run. Qed.

Lemma mmap_length {A B} (body : A → comp B) l h :
  length (value_of (mmap body l) h) = length l.
Proof.
  revert h. induction l as [|x l IH]; intros h; [done|]; simpl.
  rewrite !value_of_bind. simpl. by rewrite IH.
Qed.

(** A loop preserves what one iteration preserves. *)
Lemma mfold_inv {S A} (body : S → A → comp S) (P : S → Prop) l st h :
  P st → (∀ s x h', x ∈ l → P s → P (value_of (body s x) h')) →
  P (value_of (mfold body st l) h).
Proof.
  revert st h. induction l as [|x l IH]; intros st h HP Hstep; [done|]; simpl.
  rewrite value_of_bind. apply IH.
  - apply Hstep; [by left|done].
  - intros s y h' Hy. apply Hstep. by right.
Qed.

(** Every call a loop makes is a call of one of its iterations. *)
Lemma mfold_emitted {S A} (body : S → A → comp S) (P : Ev → Prop) l st h :
  (∀ s x h', x ∈ l → Forall P (emitted (body s x) h')) →
  Forall P (emitted (mfold body st l) h).
Proof.
  revert st h. induction l as [|x l IH]; intros st h Hstep; [by constructor|]; simpl.
  rewrite emitted_bind. apply Forall_app; split.
  - apply Hstep. by left.
  - apply IH. intros s y h' Hy. apply Hstep. by right.
Qed.

Lemma mmap_emitted {A B} (body : A → comp B) (P : Ev → Prop) l h :
  (∀ x h', x ∈ l → Forall P (emitted (body x) h')) →
  Forall P (emitted (mmap body l) h).
Proof.
  revert h. induction l as [|x l IH]; intros h Hstep; [by constructor|]; simpl.
  rewrite emitted_bind. apply Forall_app; split; [apply Hstep; by left|].
  rewrite emitted_bind. apply Forall_app; split.
  - apply IH. intros y h' Hy. apply Hstep. by right.
  - by constructor.
Qed.

Lemma mmap_forall {A B} (body : A → comp B) (P : B → Prop) l h :
  (∀ x h', x ∈ l → P (value_of (body x) h')) →
  Forall P (value_of (mmap body l) h).
Proof.
  revert h. induction l as [|x l IH]; intros h Hstep; [by constructor|]; simpl.
  rewrite !value_of_bind. unfold value_of at 1; simpl.
  constructor; [apply Hstep; by left|].
  apply IH. intros y h' Hy. apply Hstep. by right.
Qed.

End Comp.

Arguments comp : clear implicits.

(** A component's computation inside a larger system: [inj] embeds its calls,
    [prj] finds them in the history. *)
Definition lift_comp {E1 E2 A} (inj : E1 → E2) (prj : E2 → option E1) (m : comp E1 A)
  : comp E2 A := λ h, let '(a, evs) := m (omap prj h) in (a, inj <$> evs).

Lemma lift_inv {E1 E2 A} (inj : E1 → E2) prj (m : comp E1 A) h a evs :
  lift_comp inj prj m h = (a, evs) → ∃ evs', m (omap prj h) = (a, evs') ∧ evs = inj <$> evs'.
Proof.
  unfold lift_comp. destruct (m (omap prj h)) as [b evs'] eqn:E. intros [= <- <-]. by exists evs'.
Qed.

Notation "'let!' x := m 'in' k" := (bind m (λ x, k))
  (at level 10, x pattern, m at level 100, k at level 200,
   format "'[v' 'let!'  x  :=  m  'in' '/' k ']'") : mooncake_scope.
Notation "m ;;; k" := (bind m (λ _, k))
  (at level 100, k at level 200, right associativity) : mooncake_scope.
#[global] Open Scope mooncake_scope.

Create Rewrite HintDb mooncake.
(** Symbolic execution: split a run into the runs of its parts. *)
Ltac run_inv :=
  repeat match goal with
  | H : bind _ _ _ = (_, _) |- _ =>
      let a := fresh "v" in let e1 := fresh "evs" in let e2 := fresh "evs" in
      let H1 := fresh "Hrun" in let H2 := fresh "Hrun" in
      apply bind_inv in H as (a & e1 & e2 & H1 & H2 & ?); subst
  | H : ret _ _ = (_, _) |- _ => apply ret_inv in H as [? ?]; subst
  | H : call _ _ _ = (_, _) |- _ => apply call_inv in H as [? ?]; subst
  | p : _ * _ |- _ => destruct p
  end; simpl in *.

#[export] Hint Rewrite @value_of_bind @emitted_bind : mooncake.

(** ** Lists *)

(** [indexed l] pairs each element with its position, as the [size_t i] loops
    of the code do. *)
Definition indexed {A} (l : list A) : list (nat * A) := imap pair l.

Lemma lookup_indexed {A} (l : list A) i : indexed l !! i = (pair i) <$> l !! i.
Proof. unfold indexed. by rewrite list_lookup_imap. Qed.

Lemma length_indexed {A} (l : list A) : length (indexed l) = length l.
Proof. apply length_imap. Qed.

(** Number of elements satisfying a boolean test. *)
Definition count {A} (f : A → bool) (l : list A) : nat := length (List.filter f l).

Lemma count_nil {A} (f : A → bool) : count f [] = 0%nat.
Proof. done. Qed.

Lemma count_app {A} (f : A → bool) l1 l2 :
  count f (l1 ++ l2) = (count f l1 + count f l2)%nat.
Proof. unfold count. by rewrite List.filter_app, length_app. Qed.

Lemma count_cons {A} (f : A → bool) x l :
  count f (x :: l) = ((if f x then 1 else 0) + count f l)%nat.
Proof. unfold count. simpl. by destruct (f x). Qed.

Lemma count_zero {A} (f : A → bool) l :
  count f l = 0%nat ↔ Forall (λ x, f x = false) l.
Proof.
  induction l as [|x l IH]; [done|].
  rewrite count_cons, Forall_cons, <- IH. destruct (f x); intuition lia.
Qed.

#[export] Hint Rewrite @count_nil @count_app @count_cons : mooncake.

(** [infix l l']: [l] occurs contiguously in [l']. *)
Definition infix {A} (l l' : list A) : Prop := ∃ a b, l' = a ++ l ++ b.

Lemma infix_refl {A} (l : list A) : infix l l.
Proof. exists [], []. by rewrite app_nil_r. Qed.

Lemma infix_trans {A} (l1 l2 l3 : list A) : infix l1 l2 → infix l2 l3 → infix l1 l3.
Proof.
  intros (a & b & ->) (a' & b' & ->). exists (a' ++ a), (b ++ b'). by rewrite <- !app_assoc.
Qed.

Lemma infix_app_l {A} (l l1 l2 : list A) : infix l l2 → infix l (l1 ++ l2).
Proof. intros (a & b & ->). exists (l1 ++ a), b. by rewrite <- app_assoc. Qed.

Lemma infix_app_r {A} (l l1 l2 : list A) : infix l l1 → infix l (l1 ++ l2).
Proof. intros (a & b & ->). exists a, (b ++ l2). by rewrite <- !app_assoc. Qed.

Lemma infix_cons {A} (l l2 : list A) x : infix l l2 → infix l (x :: l2).
Proof. apply (infix_app_l l [x]). Qed.

#[export] Hint Resolve infix_refl infix_app_l infix_app_r infix_cons : mooncake.

Lemma infix_subseteq {A} (l l' : list A) : infix l l' → l ⊆ l'.
Proof. intros (a & b & ->). set_solver. Qed.

(** Each element of a loop's result comes from one iteration, whose calls are a
    contiguous part of the loop's calls. *)
Lemma mmap_outcome {Ev A B} (body : A → comp Ev B) (R : A → B → list Ev → Prop) l h ys evs :
  (∀ x h' y e, body x h' = (y, e) → R x y e) →
  mmap body l h = (ys, evs) →
  Forall2 (λ x y, ∃ e, infix e evs ∧ R x y e) l ys.
Proof.
  intros Hbody. revert h ys evs. induction l as [|x l IH]; intros h ys evs Hrun.
  { cbn [mmap] in Hrun. apply ret_inv in Hrun as [-> ->]. constructor. }
  apply bind_inv in Hrun as (y & e1 & ? & Hx & Hrun & ->).
  apply bind_inv in Hrun as (ys' & e2 & ? & Hl & Hrun & ->).
  apply ret_inv in Hrun as [-> ->]. rewrite app_nil_r. constructor.
  - exists e1. split; [auto with mooncake|]. by eapply Hbody.
  - eapply Forall2_impl; [by eapply IH|]. intros a b (e & He & HR). exists e.
    split; [auto with mooncake|done].
Qed.

(** A loop that updates distinct positions of a vector, seen at one position. *)
Lemma fold_alter_lookup {A B} (idx : B → nat) (f : B → A → A) (l : list B) (xs : list A) i :
  NoDup (idx <$> l) →
  (i ∉ idx <$> l → fold_left (λ xs b, alter (f b) (idx b) xs) l xs !! i = xs !! i) ∧
  (∀ b, b ∈ l → idx b = i →
     fold_left (λ xs b, alter (f b) (idx b) xs) l xs !! i = f b <$> xs !! i).
Proof.
  revert xs. induction l as [|b l IH]; intros xs Hnd; [split; set_solver|].
  cbn in Hnd. apply NoDup_cons in Hnd as [Hb Hnd].
  cbn [fold_left]. destruct (IH (alter (f b) (idx b) xs) Hnd) as [IHout IHin]. split.
  - intros [Hi Hil]%not_elem_of_cons. rewrite IHout by done. by rewrite list_lookup_alter_ne.
  - intros b' [->|Hin]%elem_of_cons <-.
    + rewrite IHout by done. by rewrite list_lookup_alter_eq.
    + rewrite (IHin _ Hin eq_refl). rewrite list_lookup_alter_ne; [done|].
      intros Heq. apply Hb. rewrite Heq. by apply list_elem_of_fmap_2.
Qed.

Lemma fold_alter_length {A B} (idx : B → nat) (f : B → A → A) (l : list B) (xs : list A) :
  length (fold_left (λ xs b, alter (f b) (idx b) xs) l xs) = length xs.
Proof.
  revert xs. induction l as [|b l IH]; intros xs; [done|].
  cbn [fold_left]. by rewrite IH, length_alter.
Qed.

(** Entries picked from a vector, each carrying its position, carry distinct
    positions. *)
Lemma omap_from_nodup {A B} (g : A → option B) (idx : B → nat) (l : list A) k :
  (∀ j x y, l !! j = Some x → g x = Some y → idx y = (k + j)%nat) →
  NoDup (idx <$> omap g l) ∧ Forall (λ i, (k ≤ i)%nat) (idx <$> omap g l).
Proof.
  revert k. induction l as [|x l IH]; intros k Hg; [by repeat constructor|].
  destruct (IH (S k)) as [IH1 IH2].
  { intros j x' y Hj Hy. rewrite (Hg (S j) x' y Hj Hy). lia. }
  rewrite Forall_forall in IH2. cbn [omap list_omap].
  destruct (g x) as [y|] eqn:E.
  - apply (Hg 0%nat x y eq_refl) in E. cbn [fmap list_fmap]. rewrite E.
    split; constructor; try done; [|lia|].
    + intros Hin. apply IH2 in Hin. lia.
    + apply Forall_forall. intros i Hi. apply IH2 in Hi. lia.
  - split; [done|]. apply Forall_forall. intros i Hi. apply IH2 in Hi. lia.
Qed.

Lemma omap_indexed_nodup {A B} (f : nat * A → option (B * nat)) (l : list A) :
  (∀ i x y, f (i, x) = Some y → y.2 = i) → NoDup (omap f (indexed l)).*2.
Proof.
  intros Hf. apply (omap_from_nodup f snd (indexed l) 0). intros j [i x] y Hj Hy.
  rewrite lookup_indexed in Hj. destruct (l !! j); simplify_eq/=. by eapply Hf.
Qed.

Lemma elem_of_indexed {A} (l : list A) i x : (i, x) ∈ indexed l ↔ l !! i = Some x.
Proof.
  rewrite list_elem_of_lookup. setoid_rewrite lookup_indexed. split.
  - intros [j Hj]. destruct (l !! j) eqn:E; by simplify_eq/=.
  - intros Hi. exists i. by rewrite Hi.
Qed.

Lemma indexed_snd {A} (l : list A) : (indexed l).*2 = l.
Proof. apply list_eq. intros i. rewrite list_lookup_fmap, lookup_indexed. by destruct (l !! i). Qed.

(** Two elements of consecutive parts of a list occur in that order. *)
Lemma in_order {A} (x y : A) pre l1 l2 post :
  x ∈ l1 → y ∈ l2 → ∃ a b, pre ++ l1 ++ l2 ++ post = a ++ x :: b ∧ y ∈ b.
Proof.
  intros Hx Hy. apply list_elem_of_split in Hx as (a & b & ->).
  exists (pre ++ a), (b ++ l2 ++ post). split; [by rewrite <- !app_assoc|set_solver].
Qed.
