(* ===== verification/CxxString.v ===== *)
(** * The parts of the C++ string and number library the sources use

    [std::to_string], [std::stoull], [std::stoi], [strtoull], [strtol],
    [std::string::find], [std::string::rfind(p, 0)], and the trimming helpers.
    Unsigned conversions are 64 bits wide, [int] is 32 bits wide. *)

From S2P Require Import Prelude.
From stdpp Require Import base strings list sets.
From Stdlib Require Import ZArith Lia Ascii.
From Stdlib Require String.

#[local] Open Scope Z_scope.

(** ** Characters *)

Definition char_code (c : ascii) : Z := Z.of_nat (nat_of_ascii c).

(** [std::isspace] in the "C" locale: blank, \t, \n, \v, \f, \r. *)
Definition isspace (c : ascii) : bool :=
  (char_code c =? 32) || ((9 <=? char_code c) && (char_code c <=? 13)).

Definition isdigit (c : ascii) : bool :=
  (48 <=? char_code c) && (char_code c <=? 57).

Definition digit_val (c : ascii) : Z := char_code c - 48.
Definition digit_char (d : Z) : ascii := ascii_of_nat (Z.to_nat (48 + d)).

(** ** [std::to_string] *)

Fixpoint dec_aux (fuel : nat) (n : Z) (acc : string) : string :=
  match fuel with
  | O => acc
  | S f =>
      let acc' := String (digit_char (n mod 10)) acc in
      if n <? 10 then acc' else dec_aux f (n / 10) acc'
  end.

(** A number has at most as many decimal as binary digits, so the fuel is
    always enough. *)
Definition dec_fuel (n : Z) : nat := S (Z.to_nat (Z.log2 n)).

Definition to_string (z : Z) : string :=
  if z <? 0 then String "-" (dec_aux (dec_fuel (- z)) (- z) "")
  else dec_aux (dec_fuel z) z "".

(** ** [strtoull], [strtol] in base 10 *)

Fixpoint skip_spaces (s : string) : string :=
  match s with
  | String c s' => if isspace c then skip_spaces s' else s
  | EmptyString => EmptyString
  end.

(** Read the longest run of digits: accumulated value and rest. *)
Fixpoint span_digits (s : string) (acc : Z) : Z * string :=
  match s with
  | String c s' => if isdigit c then span_digits s' (acc * 10 + digit_val c) else (acc, s)
  | EmptyString => (acc, EmptyString)
  end.

(** Optional sign: [true] for a minus. *)
Definition split_sign (s : string) : bool * string :=
  match s with
  | String c s' =>
      if Ascii.eqb c "-" then (true, s')
      else if Ascii.eqb c "+" then (false, s') else (false, s)
  | EmptyString => (false, EmptyString)
  end.

Definition starts_with_digit (s : string) : bool :=
  match s with String c _ => isdigit c | EmptyString => false end.

(** Outcome of a [strto*] call: [converted] is [end_ptr != value], [erange] is
    [errno == ERANGE], [rest] is what [end_ptr] points at. *)
Record strto_result := StrTo { converted : bool; erange : bool; parsed : Z; rest : string }.

Definition strtoull (s : string) : strto_result :=
  let '(neg, body) := split_sign (skip_spaces s) in
  if starts_with_digit body then
    let '(n, r) := span_digits body 0 in
    if u64_max <? n then StrTo true true u64_max r
    else StrTo true false (if neg then u64 (- n) else n) r
  else StrTo false false 0 s.

Definition long_max : Z := 2 ^ 63 - 1.
Definition long_min : Z := - 2 ^ 63.
Definition int_max : Z := 2 ^ 31 - 1.
Definition int_min : Z := - 2 ^ 31.

Definition strtol (s : string) : strto_result :=
  let '(neg, body) := split_sign (skip_spaces s) in
  if starts_with_digit body then
    let '(n, r) := span_digits body 0 in
    let v := if neg then - n else n in
    if long_max <? v then StrTo true true long_max r
    else if v <? long_min then StrTo true true long_min r
    else StrTo true false v r
  else StrTo false false 0 s.

(** [std::stoull] and [std::stoi]: [None] is a thrown
    [std::invalid_argument] or [std::out_of_range]; trailing characters are
    accepted. *)
Definition stoull (s : string) : option Z :=
  let r := strtoull s in
  if converted r && negb (erange r) then Some (parsed r) else None.

Definition stoi (s : string) : option Z :=
  let r := strtol s in
  if converted r && negb (erange r) && (int_min <=? parsed r) && (parsed r <=? int_max)
  then Some (parsed r) else None.

(** ** Searching *)

(** [s.rfind(p, 0) == 0] *)
Definition starts_with (p s : string) : bool := String.prefix p s.

(** [s.find(p) != npos] *)
Definition contains (s p : string) : bool :=
  match String.index 0 p s with Some _ => true | None => false end.

(** [s.find(c)], splitting around the first occurrence. *)
Fixpoint split_at_char (c : ascii) (s : string) : option (string * string) :=
  match s with
  | EmptyString => None
  | String a s' =>
      if Ascii.eqb a c then Some (EmptyString, s')
      else match split_at_char c s' with
           | Some (l, r) => Some (String a l, r)
           | None => None
           end
  end.

(** [s.substr(p.size())] *)
Fixpoint str_drop (n : nat) (s : string) : string :=
  match n, s with
  | S n', String _ s' => str_drop n' s'
  | _, _ => s
  end.

Definition str_empty (s : string) : bool :=
  match s with EmptyString => true | _ => false end.

(** ** Facts *)

Lemma str_empty_true s : str_empty s = true ↔ s = EmptyString.
Proof. by destruct s. Qed.

Lemma digit_char_code d : 0 ≤ d < 10 → char_code (digit_char d) = 48 + d.
Proof.
  intros H. unfold char_code, digit_char.
  rewrite nat_ascii_embedding by lia. lia.
Qed.

Lemma isdigit_digit_char d : 0 ≤ d < 10 → isdigit (digit_char d) = true.
Proof. intros H. unfold isdigit. rewrite digit_char_code by done. lia. Qed.

Lemma digit_val_digit_char d : 0 ≤ d < 10 → digit_val (digit_char d) = d.
Proof. intros H. unfold digit_val. rewrite digit_char_code by done. lia. Qed.

Lemma span_digits_dec fuel n acc :
  0 ≤ n < 10 ^ Z.of_nat fuel →
  fuel ≠ O →
  span_digits (dec_aux fuel n acc) 0 = span_digits acc n.
Proof.
  revert n acc. induction fuel as [|f IH]; intros n acc Hn Hf; [done|].
  simpl. pose proof (Z.mod_pos_bound n 10 ltac:(lia)) as Hm.
  destruct (Z.ltb_spec n 10).
  - cbn [span_digits]. rewrite isdigit_digit_char, digit_val_digit_char by done.
    f_equal. rewrite Z.mod_small by lia. lia.
  - rewrite IH.
    + cbn [span_digits]. rewrite isdigit_digit_char, digit_val_digit_char by done.
      f_equal. pose proof (Z.div_mod n 10). lia.
    + rewrite Nat2Z.inj_succ, Z.pow_succ_r in Hn by lia.
      split; [apply Z.div_pos; lia|]. apply Z.div_lt_upper_bound; lia.
    + destruct f; [|done]. change (10 ^ Z.of_nat 1) with 10 in Hn. lia.
Qed.

Lemma dec_fuel_enough n : 0 ≤ n → n < 10 ^ Z.of_nat (dec_fuel n).
Proof.
  intros Hn. unfold dec_fuel.
  rewrite Nat2Z.inj_succ, Z2Nat.id by apply Z.log2_nonneg.
  destruct (Z.eq_dec n 0) as [->|Hnz]; [vm_compute; done|].
  apply Z.lt_le_trans with (2 ^ Z.succ (Z.log2 n)).
  - apply Z.log2_spec. lia.
  - apply Z.pow_le_mono_l. lia.
Qed.

Lemma dec_aux_head_digit fuel n acc :
  fuel ≠ O → starts_with_digit (dec_aux fuel n acc) = true.
Proof.
  revert n acc. induction fuel as [|f IH]; intros n acc Hf; [done|]. simpl.
  pose proof (Z.mod_pos_bound n 10 ltac:(lia)).
  destruct (n <? 10); [by apply isdigit_digit_char|].
  destruct f; [by apply isdigit_digit_char|]. by apply IH.
Qed.

Lemma isdigit_not_space c : isdigit c = true → isspace c = false.
Proof. unfold isdigit, isspace. lia. Qed.

Lemma isdigit_not_sign c : isdigit c = true → Ascii.eqb c "-" = false ∧ Ascii.eqb c "+" = false.
Proof.
  intros H. split; apply Ascii.eqb_neq; intros ->; vm_compute in H; done.
Qed.

Lemma digit_head_prefix s :
  starts_with_digit s = true → split_sign (skip_spaces s) = (false, s).
Proof.
  destruct s as [|c s]; [done|]. simpl. intros H.
  rewrite (isdigit_not_space _ H). simpl.
  destruct (isdigit_not_sign _ H) as [-> ->]. done.
Qed.

Lemma to_string_nonneg n : 0 ≤ n → to_string n = dec_aux (dec_fuel n) n "".
Proof. intros H. unfold to_string. destruct (Z.ltb_spec n 0); [lia|done]. Qed.

Lemma to_string_digit_head n :
  0 ≤ n → starts_with_digit (to_string n) = true.
Proof. intros H. rewrite to_string_nonneg by done. by apply dec_aux_head_digit. Qed.

Lemma span_to_string n : 0 ≤ n → span_digits (to_string n) 0 = (n, "").
Proof.
  intros H. rewrite to_string_nonneg by done. rewrite span_digits_dec; [done| |done].
  split; [done|]. by apply dec_fuel_enough.
Qed.

(** Reading back what [to_string] printed. *)
Lemma strtoull_to_string n :
  in_u64 n → strtoull (to_string n) = StrTo true false n "".
Proof.
  intros [H1 H2]. unfold strtoull.
  rewrite digit_head_prefix, to_string_digit_head, span_to_string
    by (try apply to_string_digit_head; done).
  unfold u64_max. destruct (Z.ltb_spec (u64_modulus - 1) n); [lia|done].
Qed.

Lemma stoull_to_string n : in_u64 n → stoull (to_string n) = Some n.
Proof. intros H. unfold stoull. by rewrite strtoull_to_string. Qed.

Lemma stoi_to_string_nonneg n : 0 ≤ n ≤ int_max → stoi (to_string n) = Some n.
Proof.
  intros [H1 H2]. unfold stoi, strtol.
  rewrite digit_head_prefix, to_string_digit_head, span_to_string
    by (try apply to_string_digit_head; done).
  unfold long_max, long_min, int_max, int_min in *.
  destruct (Z.ltb_spec (2 ^ 63 - 1) n); [lia|].
  destruct (Z.ltb_spec n (- 2 ^ 63)); [lia|]. simpl.
  destruct (Z.leb_spec (- 2 ^ 31) n); [|lia].
  destruct (Z.leb_spec n (2 ^ 31 - 1)); [done|lia].
Qed.

Lemma stoi_to_string n : int_min ≤ n ≤ int_max → stoi (to_string n) = Some n.
Proof.
  intros [H1 H2]. destruct (Z.lt_ge_cases n 0) as [Hneg|Hpos];
    [|by apply stoi_to_string_nonneg].
  unfold to_string. destruct (Z.ltb_spec n 0); [|lia].
  assert (Hs : dec_aux (dec_fuel (- n)) (- n) "" = to_string (- n))
    by (by rewrite to_string_nonneg by lia).
  rewrite Hs. unfold stoi, strtol. cbn [skip_spaces].
  replace (isspace "-") with false by done. cbn [split_sign].
  replace (Ascii.eqb "-" "-") with true by done.
  rewrite to_string_digit_head, span_to_string by lia.
  unfold long_max, long_min, int_max, int_min in *. rewrite Z.opp_involutive.
  destruct (Z.ltb_spec (2 ^ 63 - 1) n); [lia|].
  destruct (Z.ltb_spec n (- 2 ^ 63)); [lia|]. simpl.
  destruct (Z.leb_spec (- 2 ^ 31) n); [|lia].
  destruct (Z.leb_spec n (2 ^ 31 - 1)); [done|lia].
Qed.

#[export] Hint Resolve stoull_to_string stoi_to_string : mooncake.

(** ** Splitting printed numbers *)

Fixpoint str_forall (f : ascii → bool) (s : string) : bool :=
  match s with
  | String c s' => f c && str_forall f s'
  | EmptyString => true
  end.

Definition number_char (c : ascii) : bool := isdigit c || Ascii.eqb c "-".

Lemma dec_aux_number_chars fuel n acc :
  str_forall number_char acc = true → str_forall number_char (dec_aux fuel n acc) = true.
Proof.
  revert n acc. induction fuel as [|f IH]; intros n acc Hacc; [done|]. simpl.
  pose proof (Z.mod_pos_bound n 10 ltac:(lia)).
  assert (Hc : str_forall number_char (String (digit_char (n mod 10)) acc) = true).
  { cbn [str_forall]. rewrite Hacc. unfold number_char. by rewrite isdigit_digit_char. }
  destruct (n <? 10); [done|]. by apply IH.
Qed.

Lemma to_string_number_chars n : str_forall number_char (to_string n) = true.
Proof.
  unfold to_string. destruct (n <? 0); [cbn [str_forall]|];
    by rewrite dec_aux_number_chars.
Qed.

Lemma split_at_char_app c l r :
  str_forall number_char l = true → number_char c = false →
  split_at_char c (l +:+ String c r)%string = Some (l, r).
Proof.
  intros Hl Hc. induction l as [|a l IH]; simpl in *.
  - by rewrite Ascii.eqb_refl.
  - apply andb_true_iff in Hl as [Ha Hl].
    destruct (Ascii.eqb_spec a c) as [->|]; [congruence|]. by rewrite IH.
Qed.

Lemma split_at_char_none c l :
  str_forall number_char l = true → number_char c = false → split_at_char c l = None.
Proof.
  intros Hl Hc. induction l as [|a l IH]; simpl in *; [done|].
  apply andb_true_iff in Hl as [Ha Hl].
  destruct (Ascii.eqb_spec a c) as [->|]; [congruence|]. by rewrite IH.
Qed.

Lemma to_string_not_empty n : to_string n ≠ EmptyString.
Proof.
  unfold to_string. destruct (n <? 0); [done|]. intros H.
  pose proof (dec_aux_head_digit (dec_fuel n) n "" ltac:(done)) as Hd.
  by rewrite H in Hd.
Qed.

Lemma str_drop_app p s : str_drop (String.length p) (p +:+ s)%string = s.
Proof. by induction p. Qed.

Lemma starts_with_app p s : starts_with p (p +:+ s)%string = true.
Proof.
  unfold starts_with. induction p as [|c p IH]; simpl.
  - by destruct s.
  - by destruct (ascii_dec c c).
Qed.

Lemma str_length_app s1 s2 :
  String.length (s1 +:+ s2)%string = (String.length s1 + String.length s2)%nat.
Proof. induction s1 as [|c s1 IH]; simpl; [done|]. by rewrite <- IH. Qed.

Lemma split_at_char_length c s l r :
  split_at_char c s = Some (l, r) → (String.length r < String.length s)%nat.
Proof.
  revert l r. induction s as [|a s IH]; intros l r H; simpl in *; [done|].
  destruct (Ascii.eqb a c); [naive_solver lia|].
  destruct (split_at_char c s) as [[l' r']|] eqn:E; [|done].
  simplify_eq. specialize (IH _ _ eq_refl). lia.
Qed.
