(* ===== verification/MemoryLocation.v ===== *)
(** * Memory locations ([mooncake-transfer-engine/src/memory_location.cpp])

    The NUMA location of a registered buffer ([getMemoryLocation]) and the
    ["segments:<page_size>:<n0>,<n1>,..."] encoding of buffers whose regions are
    bound to several NUMA nodes ([buildSegmentsLocation],
    [parseSegmentsLocation], [resolveSegmentsLocation]).  The GPU runtime and
    libnuma are parameters. *)

From S2P Require Import Prelude CxxString.
From stdpp Require Import base strings list sets.
From Stdlib Require Import ZArith Lia Ascii.
From Stdlib Require String.

#[local] Open Scope Z_scope.

Definition pagesize : Z := 4096.

Definition alignPage (address : Z) : Z := Z.land address (Z.lnot (pagesize - 1)).

Definition kWildcardLocation : string := "*".
Definition kSegmentsLocationPrefix : string := "segments:".

Definition genCpuNodeName (node : Z) : string :=
  if 0 <=? node then ("cpu:" +:+ to_string node)%string else kWildcardLocation.

(** [GPU_PREFIX] comes from the GPU runtime header. *)
Definition genGpuNodeName (GPU_PREFIX : string) (node : Z) : string :=
  if 0 <=? node then (GPU_PREFIX +:+ to_string node)%string else kWildcardLocation.

Record MemoryLocationEntry := MkEntry { me_start : Z; me_len : Z; me_location : string }.

(** ** [getMemoryLocation] *)

(** Result of [cudaPointerGetAttributes]: an error, device memory of a device,
    or any other kind of memory. *)
Inductive pointer_attributes :=
| AttrError
| AttrDevice (device : Z)
| AttrOther.

(** Number of pages asked for. *)
Definition page_count (start len : Z) (only_first_page : bool) : Z :=
  if only_first_page then 1
  else u64 (start - alignPage start + len + pagesize - 1) / pagesize.

Definition page_addresses (start : Z) (n : Z) : list Z :=
  (λ i, alignPage start + Z.of_nat i * pagesize) <$> seq 0 (Z.to_nat n).

(** The merge loop over [status[i]], [status[i+1]], ...: close the open entry
    whenever the node changes, and push the last entry at the end. *)
Fixpoint merge_pages (start len : Z) (i : Z) (status : list Z) (node start_addr : Z)
  : list MemoryLocationEntry :=
  match status with
  | [] => [MkEntry start_addr (u64_sub (u64_add start len) start_addr) (genCpuNodeName node)]
  | st :: status' =>
      if st =? node then merge_pages start len (i + 1) status' node start_addr
      else
        let new_start_addr := u64_add (alignPage start) (i * pagesize) in
        MkEntry start_addr (u64_sub new_start_addr start_addr) (genCpuNodeName node)
          :: merge_pages start len (i + 1) status' st new_start_addr
  end.

(** [gpu_runtime] says whether the library is built with a GPU runtime,
    [attributes] is its answer for a pointer, [numa_move_pages] the page status
    array ([None] is a non-zero return code).  The outer [None] is the read of
    [status[0]] from an empty array. *)
Definition getMemoryLocation
    (GPU_PREFIX : string) (gpu_runtime : bool) (attributes : Z → pointer_attributes)
    (numa_move_pages : list Z → option (list Z))
    (start len : Z) (only_first_page probe_gpu : bool)
  : option (list MemoryLocationEntry) :=
  let on_cpu :=
    let n := page_count start len only_first_page in
    match numa_move_pages (page_addresses start n) with
    | None => Some [MkEntry start len kWildcardLocation]
    | Some [] => None
    | Some (node :: status) => Some (merge_pages start len 1 status node start)
    end in
  if gpu_runtime && probe_gpu then
    match attributes start with
    | AttrError => Some [MkEntry start len kWildcardLocation]
    | AttrDevice device => Some [MkEntry start len (genGpuNodeName GPU_PREFIX device)]
    | AttrOther => on_cpu
    end
  else on_cpu.

(** ** Segments encoding *)

Record SegmentsLocationInfo := MkSegments { seg_page_size : Z; numa_nodes : list Z }.

Fixpoint join_nodes (nodes : list Z) : string :=
  match nodes with
  | [] => ""
  | [n] => to_string n
  | n :: nodes' => (to_string n +:+ "," +:+ join_nodes nodes')%string
  end.

Definition buildSegmentsLocation (page_size : Z) (nodes : list Z) : string :=
  (kSegmentsLocationPrefix +:+ to_string page_size +:+ ":" +:+ join_nodes nodes)%string.

(** The token loop.  [false] is a thrown conversion error; the nodes pushed
    before it stay pushed. *)
Fixpoint parse_nodes (fuel : nat) (s : string) (acc : list Z) : bool * list Z :=
  match fuel with
  | O => (true, acc)
  | S f =>
      if str_empty s then (true, acc)
      else
        let '(tok, s') := match split_at_char "," s with
                          | Some p => p
                          | None => (s, EmptyString)
                          end in
        if str_empty tok then parse_nodes f s' acc
        else match stoi tok with
             | Some v => parse_nodes f s' (acc ++ [v])
             | None => (false, acc)
             end
  end.

Definition parseSegmentsLocation (name : string) (info : SegmentsLocationInfo)
  : bool * SegmentsLocationInfo :=
  if negb (starts_with kSegmentsLocationPrefix name) then (false, info)
  else
    let body := str_drop (String.length kSegmentsLocationPrefix) name in
    match split_at_char ":" body with
    | None => (false, info)
    | Some (size_str, nodes_str) =>
        match stoull size_str with
        | None => (false, info)
        | Some page_size =>
            let '(ok, nodes) := parse_nodes (String.length nodes_str) nodes_str [] in
            (ok && negb (bool_decide (nodes = [])), MkSegments page_size nodes)
        end
    end.

(** [None] would be an out-of-bounds read of [numa_nodes]. *)
Definition resolveSegmentsLocation (info : SegmentsLocationInfo) (buffer_length offset : Z)
  : option string :=
  let n := Z.of_nat (length (numa_nodes info)) in
  if n =? 0 then Some kWildcardLocation
  else
    let region_size := buffer_length / n in
    if region_size =? 0 then Some kWildcardLocation
    else
      let idx := offset / region_size in
      let idx := if n <=? idx then n - 1 else idx in
      node ← numa_nodes info !! Z.to_nat idx;
      Some ("cpu:" +:+ to_string node)%string.

(** ** Facts on pages *)

Lemma alignPage_mod a : alignPage a = a - a mod pagesize.
Proof.
  unfold alignPage, pagesize. change (4096 - 1) with (Z.ones 12).
  rewrite <- Z.ldiff_land, Z.ldiff_ones_r by lia.
  rewrite Z.shiftl_mul_pow2, Z.shiftr_div_pow2 by lia.
  change (2 ^ 12) with 4096. pose proof (Z.div_mod a 4096). lia.
Qed.

Lemma alignPage_bounds a : 0 ≤ a → 0 ≤ alignPage a ≤ a ∧ a < alignPage a + pagesize.
Proof.
  intros H. rewrite alignPage_mod. unfold pagesize.
  pose proof (Z.mod_pos_bound a 4096 ltac:(lia)).
  pose proof (Z.mod_le a 4096 H ltac:(lia)). lia.
Qed.

(** Entries that follow each other without gap from [a] to [b]. *)
Fixpoint entries_cover (a : Z) (es : list MemoryLocationEntry) (b : Z) : Prop :=
  match es with
  | [] => a = b
  | e :: es' => me_start e = a ∧ 0 < me_len e ∧ entries_cover (a + me_len e) es' b
  end.

(** Every byte of the entry lies on a page whose status names the entry. *)
Definition entry_on_pages (start : Z) (status : list Z) (e : MemoryLocationEntry) : Prop :=
  ∀ x, me_start e ≤ x < me_start e + me_len e →
    ∃ node, status !! Z.to_nat ((x - alignPage start) / pagesize) = Some node ∧
            me_location e = genCpuNodeName node.

Section Merge.
Variables (start len : Z).
Hypothesis Hstart : 0 ≤ start.
Hypothesis Hlen : 0 < len.
Hypothesis Hfit : start + len < u64_modulus.

(** What the loop knows when it looks at page [i]: the open entry started at
    [start] or at the beginning of a page before [i]. *)
Definition open_entry (i start_addr : Z) : Prop :=
  1 ≤ i ∧ start ≤ start_addr < alignPage start + i * pagesize.

Lemma merge_pages_cover i rest node start_addr :
  open_entry i start_addr →
  alignPage start + (i + Z.of_nat (length rest) - 1) * pagesize < start + len →
  start_addr < start + len →
  entries_cover start_addr (merge_pages start len i rest node start_addr) (start + len).
Proof.
  pose proof (alignPage_bounds start Hstart) as [Ha1 Ha2].
  revert i node start_addr. induction rest as [|st rest IH];
    intros i node start_addr [Hi Ho] Hend Hlt; simpl.
  - rewrite u64_add_small, u64_sub_small by lia. repeat split; lia.
  - simpl in Hend. destruct (st =? node).
    + apply IH; unfold open_entry, pagesize in *; lia.
    + unfold pagesize in *.
      rewrite u64_add_small, u64_sub_small by lia. simpl. repeat split; [lia|].
      replace (start_addr + _) with (alignPage start + i * 4096) by lia.
      apply IH; unfold open_entry, pagesize; lia.
Qed.

Lemma merge_pages_on_pages done rest node start_addr :
  open_entry (Z.of_nat (length done)) start_addr →
  alignPage start + (Z.of_nat (length (done ++ rest)) - 1) * pagesize < start + len →
  start + len ≤ alignPage start + Z.of_nat (length (done ++ rest)) * pagesize →
  start_addr < start + len →
  (∀ x, start_addr ≤ x < alignPage start + Z.of_nat (length done) * pagesize →
     done !! Z.to_nat ((x - alignPage start) / pagesize) = Some node) →
  Forall (entry_on_pages start (done ++ rest))
    (merge_pages start len (Z.of_nat (length done)) rest node start_addr).
Proof.
  pose proof (alignPage_bounds start Hstart) as [Ha1 Ha2].
  revert done node start_addr. induction rest as [|st rest IH];
    intros done node start_addr [Hi Ho] Hend Hcov Hlt Hnode; simpl.
  - rewrite u64_add_small, u64_sub_small by lia. constructor; [|done].
    intros x Hx. simpl in Hx. exists node. split; [|done].
    rewrite app_nil_r in *. apply Hnode. lia.
  - rewrite length_app in Hend, Hcov. simpl in Hend, Hcov.
    assert (Hpage : ∀ x, alignPage start + Z.of_nat (length done) * pagesize ≤ x <
        alignPage start + Z.of_nat (length (done ++ [st])) * pagesize →
        (done ++ [st]) !! Z.to_nat ((x - alignPage start) / pagesize) = Some st).
    { intros x Hx. rewrite length_app in Hx. simpl in Hx.
      replace ((x - alignPage start) / pagesize) with (Z.of_nat (length done)).
      - rewrite Nat2Z.id. by apply list_lookup_middle.
      - unfold pagesize in *.
        apply Z.div_unique with (r := x - alignPage start - 4096 * Z.of_nat (length done)); lia. }
    replace (done ++ st :: rest) with ((done ++ [st]) ++ rest) by (by rewrite <- app_assoc).
    replace (Z.of_nat (length done) + 1) with (Z.of_nat (length (done ++ [st])))
      by (rewrite length_app; simpl; lia).
    destruct (Z.eqb_spec st node) as [->|Hne].
    + apply IH; [| | |done|].
      * unfold open_entry, pagesize in *. rewrite length_app. simpl. lia.
      * rewrite !length_app. simpl. unfold pagesize in *. lia.
      * rewrite !length_app. simpl. unfold pagesize in *. lia.
      * intros x Hx.
        destruct (Z.lt_ge_cases x (alignPage start + Z.of_nat (length done) * pagesize)).
        -- rewrite lookup_app_l; [apply Hnode; lia|].
           assert (0 ≤ (x - alignPage start) / pagesize < Z.of_nat (length done)).
           { unfold pagesize in *. split; [apply Z.div_pos; lia|].
             apply Z.div_lt_upper_bound; lia. }
           lia.
        -- apply Hpage. lia.
    + constructor.
      * intros x Hx. simpl in Hx. unfold pagesize in *.
        rewrite u64_add_small, u64_sub_small in Hx by lia.
        exists node. split; [|done]. rewrite <- app_assoc.
        rewrite lookup_app_l; [apply Hnode; lia|].
        assert (0 ≤ (x - alignPage start) / 4096 < Z.of_nat (length done)).
        { split; [apply Z.div_pos; lia|]. apply Z.div_lt_upper_bound; lia. }
        lia.
      * unfold pagesize in *. rewrite u64_add_small by lia.
        apply IH; unfold open_entry, pagesize; rewrite ?length_app; simpl; try lia.
        intros x Hx. apply Hpage. rewrite length_app. simpl. lia.
Qed.

Lemma page_count_spec :
  let n := page_count start len false in
  1 ≤ n ∧ alignPage start + (n - 1) * pagesize < start + len ≤ alignPage start + n * pagesize
  ∨ u64_modulus ≤ start - alignPage start + len + pagesize - 1.
Proof.
  pose proof (alignPage_bounds start Hstart) as [Ha1 Ha2]. unfold page_count. simpl.
  destruct (Z.lt_ge_cases (start - alignPage start + len + pagesize - 1) u64_modulus)
    as [Hs|Hs]; [left|by right].
  rewrite !u64_small by (unfold in_u64, pagesize in *; lia).
  set (q := start - alignPage start + len + pagesize - 1) in *.
  pose proof (Z.div_mod q pagesize) as Hdm. unfold pagesize in *.
  pose proof (Z.mod_pos_bound q 4096 ltac:(lia)). specialize (Hdm ltac:(lia)).
  subst q. lia.
Qed.

End Merge.

(** ** Segments encoding *)

(** The token loop has enough fuel: any larger bound gives the same answer. *)
Lemma parse_nodes_fuel fuel s acc :
  (String.length s ≤ fuel)%nat →
  parse_nodes fuel s acc = parse_nodes (String.length s) s acc.
Proof.
  revert s acc. induction fuel as [fuel IH] using lt_wf_ind; intros s acc Hle.
  destruct s as [|a s]; [by destruct fuel|].
  destruct fuel as [|f]; [simpl in Hle; lia|]. cbn [parse_nodes String.length str_empty].
  assert (Hrec : ∀ s' acc', (String.length s' ≤ String.length s)%nat →
    parse_nodes f s' acc' = parse_nodes (String.length s) s' acc').
  { intros s' acc' Hs'. simpl in Hle. rewrite (IH f ltac:(lia)) by lia.
    destruct (Nat.eq_dec (String.length s) f) as [->|]; [by rewrite (IH f ltac:(lia)) by lia|].
    by rewrite (IH (String.length s) ltac:(lia)) by lia. }
  destruct (split_at_char "," (String a s)) as [[tok s']|] eqn:E.
  - apply split_at_char_length in E. simpl in E.
    destruct (str_empty tok); [apply Hrec; lia|].
    destruct (stoi tok); [apply Hrec; lia|done].
  - destruct (str_empty (String a s)); [apply Hrec; simpl; lia|].
    destruct (stoi (String a s)); [apply Hrec; simpl; lia|done].
Qed.

Lemma parse_nodes_step tok s acc fuel v :
  str_forall number_char tok = true → tok ≠ EmptyString → stoi tok = Some v →
  parse_nodes (S fuel) (tok +:+ String "," s)%string acc = parse_nodes fuel s (acc ++ [v]).
Proof.
  intros Hc Hne Hv. cbn [parse_nodes].
  rewrite split_at_char_app by done.
  destruct tok; [done|]. cbn. by rewrite Hv.
Qed.

Lemma parse_nodes_join nodes acc fuel :
  Forall (λ n, int_min ≤ n ≤ int_max) nodes →
  (String.length (join_nodes nodes) ≤ fuel)%nat →
  parse_nodes fuel (join_nodes nodes) acc = (true, acc ++ nodes).
Proof.
  revert acc fuel. induction nodes as [|n nodes IH]; intros acc fuel Hr Hf.
  { rewrite app_nil_r. by destruct fuel. }
  apply Forall_cons in Hr as [Hn Hr].
  pose proof (to_string_not_empty n) as Hne.
  destruct fuel as [|fuel].
  { destruct nodes; simpl in Hf; rewrite ?str_length_app in Hf;
      destruct (to_string n) eqn:E; simpl in Hf; congruence || lia. }
  destruct nodes as [|n' nodes].
  - simpl. destruct (str_empty (to_string n)) eqn:E; [by apply str_empty_true in E|].
    rewrite split_at_char_none by (apply to_string_number_chars || done).
    rewrite E, stoi_to_string by done. by destruct fuel.
  - change (join_nodes (n :: n' :: nodes))
      with (to_string n +:+ String "," (join_nodes (n' :: nodes)))%string in *.
    rewrite parse_nodes_step with (v := n)
      by (apply to_string_number_chars || done || by apply stoi_to_string).
    rewrite IH; [by rewrite <- app_assoc|done|].
    rewrite str_length_app in Hf. simpl in Hf |- *.
    destruct (to_string n); [done|]. simpl in Hf. lia.
Qed.

Lemma resolve_in_bounds info L offset :
  0 ≤ offset → 0 ≤ L → resolveSegmentsLocation info L offset ≠ None.
Proof.
  intros Ho HL. unfold resolveSegmentsLocation.
  set (n := Z.of_nat (length (numa_nodes info))).
  destruct (Z.eqb_spec n 0) as [|Hn]; [done|].
  destruct (Z.eqb_spec (L / n) 0) as [|Hr]; [done|].
  assert (0 ≤ offset / (L / n)).
  { apply Z.div_pos; [done|]. pose proof (Z.div_pos L n HL). lia. }
  destruct (numa_nodes info !! Z.to_nat _) eqn:E; [done|].
  apply lookup_ge_None in E. destruct (Z.leb_spec n (offset / (L / n))); lia.
Qed.

(** * Properties *)

(** for host memory, [getMemoryLocation] splits the whole buffer
    [[start, start+len)] into consecutive non-empty entries without gap or
    overlap, and every byte of an entry lies on a page whose NUMA node is the
    one the entry names. *)
Theorem getMemoryLocation_partition
    GPU_PREFIX gpu_runtime attributes numa_move_pages start len probe_gpu status :
  0 ≤ start → 0 < len → start + len + pagesize ≤ u64_modulus →
  (gpu_runtime && probe_gpu = true → attributes start = AttrOther) →
  numa_move_pages (page_addresses start (page_count start len false)) = Some status →
  length status = Z.to_nat (page_count start len false) →
  ∃ es,
    getMemoryLocation GPU_PREFIX gpu_runtime attributes numa_move_pages
      start len false probe_gpu = Some es ∧
    entries_cover start es (start + len) ∧
    Forall (entry_on_pages start status) es.
Proof.
  intros Hs Hl Hfit Hattr Hnuma Hlen.
  pose proof (alignPage_bounds start Hs) as [Ha1 Ha2].
  destruct (page_count_spec start len Hs Hl)
    as [[Hn Hcov]|Hbad]; [|unfold pagesize in *; lia].
  set (n := page_count start len false) in *.
  destruct status as [|node rest]; [simpl in Hlen; lia|].
  exists (merge_pages start len 1 rest node start). simpl in Hlen. split; [|split].
  - unfold getMemoryLocation. fold n. rewrite Hnuma.
    destruct (gpu_runtime && probe_gpu); [by rewrite Hattr|done].
  - apply merge_pages_cover; unfold open_entry, pagesize in *; lia.
  - apply (merge_pages_on_pages start len Hs Hl ltac:(unfold pagesize in *; lia) [node]);
      unfold open_entry, pagesize in *; simpl; try lia.
    intros x Hx. replace ((x - alignPage start) / 4096) with 0; [done|].
    symmetry. apply Z.div_small. lia.
Qed.

Lemma getMemoryLocation_partition_witness :
  ∃ es,
    getMemoryLocation "cuda:" true (λ _, AttrOther) (λ _, Some [0; 0; 1])
      4100 8192 false true = Some es ∧
    entries_cover 4100 es (4100 + 8192) ∧
    Forall (entry_on_pages 4100 [0; 0; 1]) es.
Proof.
  apply (getMemoryLocation_partition "cuda:" true (λ _, AttrOther) (λ _, Some [0; 0; 1])
    4100 8192 true [0; 0; 1]); try done; vm_compute; done.
Defined.

(** a location string built for a page size and a non-empty list of NUMA
    nodes parses back to exactly that page size and those nodes, whatever the
    output structure held before. *)
Theorem segments_roundtrip page_size nodes info :
  in_u64 page_size → nodes ≠ [] → Forall (λ n, int_min ≤ n ≤ int_max) nodes →
  parseSegmentsLocation (buildSegmentsLocation page_size nodes) info =
    (true, MkSegments page_size nodes).
Proof.
  intros Hp Hne Hr. unfold parseSegmentsLocation, buildSegmentsLocation.
  rewrite starts_with_app, str_drop_app. cbn [negb].
  change (":" +:+ join_nodes nodes)%string with (String ":" (join_nodes nodes)).
  rewrite split_at_char_app by (apply to_string_number_chars || done).
  rewrite stoull_to_string by done.
  rewrite parse_nodes_join by done. simpl. by rewrite bool_decide_false.
Qed.

Lemma segments_roundtrip_witness :
  parseSegmentsLocation (buildSegmentsLocation 4096 [1; 3; 5; 7]) (MkSegments 0 [])
  = (true, MkSegments 4096 [1; 3; 5; 7]).
Proof.
  apply segments_roundtrip; [by vm_compute|done|].
  repeat constructor; by vm_compute.
Defined.

(** [resolveSegmentsLocation] maps every offset of region [i] (each region
    has [buffer_length / n] bytes) to the [i]-th NUMA node, and the tail bytes
    left over by the division to the last node. *)
Theorem resolve_region info L offset i node :
  numa_nodes info !! i = Some node →
  let n := Z.of_nat (length (numa_nodes info)) in
  let region := L / n in
  0 < region → 0 ≤ offset < L →
  (Z.of_nat i * region ≤ offset < (Z.of_nat i + 1) * region ∨
   Z.of_nat i = n - 1 ∧ Z.of_nat i * region ≤ offset) →
  resolveSegmentsLocation info L offset = Some ("cpu:" +:+ to_string node)%string.
Proof.
  intros Hi n region Hr Ho Hreg. pose proof (lookup_lt_Some _ _ _ Hi) as Hlt.
  unfold resolveSegmentsLocation. fold n region.
  destruct (Z.eqb_spec n 0); [lia|]. destruct (Z.eqb_spec region 0); [lia|].
  assert (Hidx : (if n <=? offset / region then n - 1 else offset / region) = Z.of_nat i).
  { destruct Hreg as [Hreg|[Hlast Hreg]].
    - replace (offset / region) with (Z.of_nat i).
      + destruct (Z.leb_spec n (Z.of_nat i)); lia.
      + apply Z.div_unique with (r := offset - region * Z.of_nat i); lia.
    - assert (Z.of_nat i ≤ offset / region) by (apply Z.div_le_lower_bound; lia).
      destruct (Z.leb_spec n (offset / region)); lia. }
  rewrite Hidx, Nat2Z.id, Hi. done.
Qed.

Lemma resolve_region_witness :
  resolveSegmentsLocation (MkSegments 4096 [1; 3]) 9 8 = Some "cpu:3".
Proof.
  apply (resolve_region (MkSegments 4096 [1; 3]) 9 8 1 3); try done; simpl.
  right. vm_compute. done.
Defined.
