(* ===== verification/StoreTypes.v ===== *)
(** * Data of the store client, and the services it calls

    The records and enumerations [client_service.cpp] works on, the calls it
    makes to code outside this repository (master service, transfer
    submitter, local hot cache, transfer engine, storage backend, GPU
    staging), and one class of operations per service.  Every answer of a
    service may depend on all calls made before it. *)

From S2P Require Import Prelude CxxString.
From stdpp Require Import base strings list gmap.
From Stdlib Require Import ZArith Lia.

#[local] Open Scope Z_scope.

(** ** Error codes, replicas, configuration *)

(** The codes the sources name; [OtherError] stands for the remaining ones. *)
Inductive ErrorCode :=
| OK | INTERNAL_ERROR | INVALID_PARAMS | INVALID_REPLICA | LEASE_EXPIRED
| NO_AVAILABLE_HANDLE | OBJECT_ALREADY_EXISTS | OBJECT_HAS_LEASE | OBJECT_NOT_FOUND
| REPLICA_IS_NOT_READY | REPLICA_NOT_IN_LOCAL_MEMORY | RPC_FAIL | SEGMENT_NOT_FOUND
| TRANSFER_FAIL | UNAVAILABLE_IN_CURRENT_STATUS | OtherError (code : Z).

#[export] Instance ErrorCode_eq_dec : EqDecision ErrorCode.
Proof. solve_decision. Defined.

Abbreviation expected A := (result ErrorCode A).

Inductive ReplicaType := ALL | MEMORY | DISK | LOCAL_DISK | NOF_SSD.

#[export] Instance ReplicaType_eq_dec : EqDecision ReplicaType.
Proof. solve_decision. Defined.

Inductive ReplicaStatus := COMPLETE | OtherStatus (code : Z).

#[export] Instance ReplicaStatus_eq_dec : EqDecision ReplicaStatus.
Proof. solve_decision. Defined.

Abbreviation ObjectKey := string.
Abbreviation UUID := (Z * Z)%type.

Record Slice := MkSlice { slice_ptr : Z; slice_size : Z }.

#[export] Instance Slice_eq_dec : EqDecision Slice.
Proof. solve_decision. Defined.

Record BufferDescriptor := MkBuffer {
  size_ : Z;
  buffer_address_ : Z;
  transport_endpoint_ : string }.

#[export] Instance BufferDescriptor_eq_dec : EqDecision BufferDescriptor.
Proof. solve_decision. Defined.

(** The alternatives of a [Replica::Descriptor]. *)
Inductive ReplicaData :=
| MemoryReplica (buffer_descriptor : BufferDescriptor)
| NofReplica (buffer_descriptor : BufferDescriptor)
| DiskReplica (file_path : string) (object_size : Z)
| LocalDiskReplica (transport_endpoint : string) (object_size : Z).

#[export] Instance ReplicaData_eq_dec : EqDecision ReplicaData.
Proof. solve_decision. Defined.

Record Descriptor := MkDescriptor { status : ReplicaStatus; data : ReplicaData }.

#[export] Instance Descriptor_eq_dec : EqDecision Descriptor.
Proof. solve_decision. Defined.

Definition is_memory_replica (d : Descriptor) : bool :=
  match data d with MemoryReplica _ => true | _ => false end.
Definition is_nof_replica (d : Descriptor) : bool :=
  match data d with NofReplica _ => true | _ => false end.
Definition is_disk_replica (d : Descriptor) : bool :=
  match data d with DiskReplica _ _ => true | _ => false end.
Definition is_local_disk_replica (d : Descriptor) : bool :=
  match data d with LocalDiskReplica _ _ => true | _ => false end.

Record ReplicateConfig := MkConfig {
  replica_num : Z;
  nof_replica_num : Z;
  preferred_segment : string;
  prefer_alloc_in_same_node : bool }.

#[export] Instance ReplicateConfig_eq_dec : EqDecision ReplicateConfig.
Proof. solve_decision. Defined.

Definition with_preferred_segment (s : string) (cfg : ReplicateConfig) : ReplicateConfig :=
  MkConfig (replica_num cfg) (nof_replica_num cfg) s (prefer_alloc_in_same_node cfg).
Definition with_replica_nums (mem nof : Z) (cfg : ReplicateConfig) : ReplicateConfig :=
  MkConfig mem nof (preferred_segment cfg) (prefer_alloc_in_same_node cfg).

Inductive OpCode := READ | WRITE.

#[export] Instance OpCode_eq_dec : EqDecision OpCode.
Proof. solve_decision. Defined.

(** Handle of a submitted transfer. *)
Abbreviation TransferFuture := Z.

Record QueryResult := MkQueryResult { replicas : list Descriptor; lease_timeout : Z }.

(** [GetReplicaList] response: replicas and lease in milliseconds. *)
Record GetReplicaListResponse := MkReplicaList { rl_replicas : list Descriptor; lease_ttl_ms : Z }.

Record HotMemBlock := MkHotBlock { hot_addr : Z; hot_size : Z }.

(** ** Calls to the services *)

Inductive master_call :=
| PutStart (key : ObjectKey) (lens : list Z) (cfg : ReplicateConfig)
    (r : expected (list Descriptor))
| PutEnd (key : ObjectKey) (t : ReplicaType) (r : expected unit)
| PutRevoke (key : ObjectKey) (t : ReplicaType) (r : expected unit)
| UpsertStart (key : ObjectKey) (lens : list Z) (cfg : ReplicateConfig)
    (r : expected (list Descriptor))
| UpsertEnd (key : ObjectKey) (t : ReplicaType) (r : expected unit)
| UpsertRevoke (key : ObjectKey) (t : ReplicaType) (r : expected unit)
| BatchPutStart (keys : list ObjectKey) (lens : list (list Z)) (cfg : ReplicateConfig)
    (rs : list (expected (list Descriptor)))
| BatchPutEnd (keys : list ObjectKey) (t : ReplicaType) (rs : list (expected unit))
| BatchPutRevoke (keys : list ObjectKey) (t : ReplicaType) (rs : list (expected unit))
| BatchUpsertStart (keys : list ObjectKey) (lens : list (list Z)) (cfg : ReplicateConfig)
    (rs : list (expected (list Descriptor)))
| BatchUpsertEnd (keys : list ObjectKey) (rs : list (expected unit))
| BatchUpsertRevoke (keys : list ObjectKey) (rs : list (expected unit))
| GetReplicaList (key : ObjectKey) (r : expected GetReplicaListResponse)
| BatchGetReplicaList (keys : list ObjectKey) (rs : list (expected GetReplicaListResponse))
| RemoveObject (key : ObjectKey) (force : bool) (r : expected unit)
| RemoveObjectsByRegex (str : string) (force : bool) (r : expected Z)
| RemoveAllObjects (force : bool) (r : expected Z)
| BatchRemoveObjects (keys : list ObjectKey) (force : bool) (rs : list (expected unit))
| BatchEvictDiskReplica (keys : list ObjectKey) (t : ReplicaType) (rs : list (expected unit)).

Inductive transfer_call :=
| Submit (d : Descriptor) (slices : list Slice) (op : OpCode) (f : option TransferFuture)
| SubmitBatch (ds : list Descriptor) (slices : list (list Slice)) (op : OpCode)
    (f : option TransferFuture)
| SubmitRangeRead (d : Descriptor) (slices : list Slice) (src_offset : Z)
    (f : option TransferFuture)
| FutureGet (f : TransferFuture) (r : ErrorCode).

Inductive cache_call :=
| RemoveHotKey (key : ObjectKey)
| RemoveHotKeys (keys : list ObjectKey)
| RemoveHotKeysByRegex (str : string)
| RemoveAllHotKeys
| BumpKeyGeneration (key : ObjectKey)
| BumpKeyGenerations (keys : list ObjectKey)
| BumpCacheEpoch
| GetHotKey (key : ObjectKey) (r : option HotMemBlock)
| ReleaseHotKey (key : ObjectKey)
| SketchIncrement (key : ObjectKey) (count : Z)
| SubmitPutTask (key : ObjectKey) (slice : Slice) (r : bool).

Inductive storage_call :=
| CopyDeviceToHost (ptr size : Z) (r : option string)
| ReadHostMemory (ptr size : Z) (r : string)
| EnqueueStore (key : ObjectKey) (value path : string)
| StoreObject (path value : string) (key : ObjectKey) (r : expected (list ObjectKey))
| BackendRemoveAll.

Inductive clock_call := Now (t : Z).

Inductive event :=
| EMaster (c : master_call)
| ETransfer (c : transfer_call)
| ECache (c : cache_call)
| EStorage (c : storage_call)
| EClock (c : clock_call).

#[export] Instance QueryResult_eq_dec : EqDecision QueryResult.
Proof. solve_decision. Defined.
#[export] Instance GetReplicaListResponse_eq_dec : EqDecision GetReplicaListResponse.
Proof. solve_decision. Defined.
#[export] Instance HotMemBlock_eq_dec : EqDecision HotMemBlock.
Proof. solve_decision. Defined.
#[export] Instance master_call_eq_dec : EqDecision master_call.
Proof. solve_decision. Defined.
#[export] Instance transfer_call_eq_dec : EqDecision transfer_call.
Proof. solve_decision. Defined.
#[export] Instance cache_call_eq_dec : EqDecision cache_call.
Proof. solve_decision. Defined.
#[export] Instance storage_call_eq_dec : EqDecision storage_call.
Proof. solve_decision. Defined.
#[export] Instance clock_call_eq_dec : EqDecision clock_call.
Proof. solve_decision. Defined.
#[export] Instance event_eq_dec : EqDecision event.
Proof. solve_decision. Defined.

Abbreviation history := (list event).
Abbreviation io A := (comp event A).

(** ** Services *)

Class MasterClient := {
  m_put_start : history → ObjectKey → list Z → ReplicateConfig → expected (list Descriptor);
  m_put_end : history → ObjectKey → ReplicaType → expected unit;
  m_put_revoke : history → ObjectKey → ReplicaType → expected unit;
  m_upsert_start : history → ObjectKey → list Z → ReplicateConfig → expected (list Descriptor);
  m_upsert_end : history → ObjectKey → ReplicaType → expected unit;
  m_upsert_revoke : history → ObjectKey → ReplicaType → expected unit;
  m_batch_put_start :
    history → list ObjectKey → list (list Z) → ReplicateConfig → list (expected (list Descriptor));
  m_batch_put_end : history → list ObjectKey → ReplicaType → list (expected unit);
  m_batch_put_revoke : history → list ObjectKey → ReplicaType → list (expected unit);
  m_batch_upsert_start :
    history → list ObjectKey → list (list Z) → ReplicateConfig → list (expected (list Descriptor));
  m_batch_upsert_end : history → list ObjectKey → list (expected unit);
  m_batch_upsert_revoke : history → list ObjectKey → list (expected unit);
  m_get_replica_list : history → ObjectKey → expected GetReplicaListResponse;
  m_batch_get_replica_list : history → list ObjectKey → list (expected GetReplicaListResponse);
  m_remove : history → ObjectKey → bool → expected unit;
  m_remove_by_regex : history → string → bool → expected Z;
  m_remove_all : history → bool → expected Z;
  m_batch_remove : history → list ObjectKey → bool → list (expected unit);
  m_batch_evict : history → list ObjectKey → ReplicaType → list (expected unit) }.

(** The errors of a put are errors: [OK] is not sent as one. *)
Class MasterErrors `{!MasterClient} : Prop := {
  put_start_error h k lens cfg e : m_put_start h k lens cfg = Err e → e ≠ OK;
  put_end_error h k t e : m_put_end h k t = Err e → e ≠ OK;
  put_revoke_error h k t e : m_put_revoke h k t = Err e → e ≠ OK }.

Class TransferSubmitter := {
  t_submit : history → Descriptor → list Slice → OpCode → option TransferFuture;
  t_submit_batch :
    history → list Descriptor → list (list Slice) → OpCode → option TransferFuture;
  t_submit_range : history → Descriptor → list Slice → Z → option TransferFuture;
  t_get : history → TransferFuture → ErrorCode }.

Class HotCache := {
  h_get : history → ObjectKey → option HotMemBlock;
  h_sketch_increment : history → ObjectKey → Z;
  h_submit_put : history → ObjectKey → Slice → bool }.

Class StorageBackend := {
  s_device_pointer : Z → bool;
  s_copy_d2h : history → Z → Z → option string;
  s_read_host : history → Z → Z → string;
  s_store_object : history → string → string → ObjectKey → expected (list ObjectKey) }.

Class Clock := { c_now : history → Z }.

Section Calls.
Context `{MasterClient, TransferSubmitter, HotCache, StorageBackend, Clock}.

Definition master_put_start k lens cfg : io (expected (list Descriptor)) :=
  call (λ h, m_put_start h k lens cfg) (λ r, EMaster (PutStart k lens cfg r)).
Definition master_put_end k t : io (expected unit) :=
  call (λ h, m_put_end h k t) (λ r, EMaster (PutEnd k t r)).
Definition master_put_revoke k t : io (expected unit) :=
  call (λ h, m_put_revoke h k t) (λ r, EMaster (PutRevoke k t r)).
Definition master_upsert_start k lens cfg : io (expected (list Descriptor)) :=
  call (λ h, m_upsert_start h k lens cfg) (λ r, EMaster (UpsertStart k lens cfg r)).
Definition master_upsert_end k t : io (expected unit) :=
  call (λ h, m_upsert_end h k t) (λ r, EMaster (UpsertEnd k t r)).
Definition master_upsert_revoke k t : io (expected unit) :=
  call (λ h, m_upsert_revoke h k t) (λ r, EMaster (UpsertRevoke k t r)).
Definition master_batch_put_start ks lens cfg : io (list (expected (list Descriptor))) :=
  call (λ h, m_batch_put_start h ks lens cfg) (λ r, EMaster (BatchPutStart ks lens cfg r)).
Definition master_batch_put_end ks t : io (list (expected unit)) :=
  call (λ h, m_batch_put_end h ks t) (λ r, EMaster (BatchPutEnd ks t r)).
Definition master_batch_put_revoke ks t : io (list (expected unit)) :=
  call (λ h, m_batch_put_revoke h ks t) (λ r, EMaster (BatchPutRevoke ks t r)).
Definition master_batch_upsert_start ks lens cfg : io (list (expected (list Descriptor))) :=
  call (λ h, m_batch_upsert_start h ks lens cfg) (λ r, EMaster (BatchUpsertStart ks lens cfg r)).
Definition master_batch_upsert_end ks : io (list (expected unit)) :=
  call (λ h, m_batch_upsert_end h ks) (λ r, EMaster (BatchUpsertEnd ks r)).
Definition master_batch_upsert_revoke ks : io (list (expected unit)) :=
  call (λ h, m_batch_upsert_revoke h ks) (λ r, EMaster (BatchUpsertRevoke ks r)).
Definition master_get_replica_list k : io (expected GetReplicaListResponse) :=
  call (λ h, m_get_replica_list h k) (λ r, EMaster (GetReplicaList k r)).
Definition master_batch_get_replica_list ks : io (list (expected GetReplicaListResponse)) :=
  call (λ h, m_batch_get_replica_list h ks) (λ r, EMaster (BatchGetReplicaList ks r)).
Definition master_remove k force : io (expected unit) :=
  call (λ h, m_remove h k force) (λ r, EMaster (RemoveObject k force r)).
Definition master_remove_by_regex str force : io (expected Z) :=
  call (λ h, m_remove_by_regex h str force) (λ r, EMaster (RemoveObjectsByRegex str force r)).
Definition master_remove_all force : io (expected Z) :=
  call (λ h, m_remove_all h force) (λ r, EMaster (RemoveAllObjects force r)).
Definition master_batch_remove ks force : io (list (expected unit)) :=
  call (λ h, m_batch_remove h ks force) (λ r, EMaster (BatchRemoveObjects ks force r)).
Definition master_batch_evict ks t : io (list (expected unit)) :=
  call (λ h, m_batch_evict h ks t) (λ r, EMaster (BatchEvictDiskReplica ks t r)).

Definition transfer_submit d ss op : io (option TransferFuture) :=
  call (λ h, t_submit h d ss op) (λ r, ETransfer (Submit d ss op r)).
Definition transfer_submit_batch ds sss op : io (option TransferFuture) :=
  call (λ h, t_submit_batch h ds sss op) (λ r, ETransfer (SubmitBatch ds sss op r)).
Definition transfer_submit_range d ss off : io (option TransferFuture) :=
  call (λ h, t_submit_range h d ss off) (λ r, ETransfer (SubmitRangeRead d ss off r)).
Definition future_get f : io ErrorCode :=
  call (λ h, t_get h f) (λ r, ETransfer (FutureGet f r)).

(** Calls to the hot cache that return nothing. *)
Definition cache_do (c : cache_call) : io unit := call (λ _, tt) (λ _, ECache c).
Definition cache_get k : io (option HotMemBlock) :=
  call (λ h, h_get h k) (λ r, ECache (GetHotKey k r)).
Definition cache_sketch_increment k : io Z :=
  call (λ h, h_sketch_increment h k) (λ r, ECache (SketchIncrement k r)).
Definition cache_submit_put k s : io bool :=
  call (λ h, h_submit_put h k s) (λ r, ECache (SubmitPutTask k s r)).

Definition storage_copy_d2h p n : io (option string) :=
  call (λ h, s_copy_d2h h p n) (λ r, EStorage (CopyDeviceToHost p n r)).
Definition storage_read_host p n : io string :=
  call (λ h, s_read_host h p n) (λ r, EStorage (ReadHostMemory p n r)).
Definition storage_enqueue k v path : io unit :=
  call (λ _, tt) (λ _, EStorage (EnqueueStore k v path)).
Definition storage_store_object path v k : io (expected (list ObjectKey)) :=
  call (λ h, s_store_object h path v k) (λ r, EStorage (StoreObject path v k r)).
Definition storage_remove_all : io unit := call (λ _, tt) (λ _, EStorage BackendRemoveAll).

Definition clock_now : io Z := call c_now (λ t, EClock (Now t)).
End Calls.

(** Run [m] only under a condition ([if (cond) m;]). *)
Definition when (b : bool) (m : io unit) : io unit := if b then m else ret tt.

(** ** Members of [Client] that its data-path operations read *)

Record Client := MkClient {
  use_nof : bool;                 (* built with USE_NOF *)
  has_hot_cache : bool;           (* hot_cache_ != nullptr *)
  has_admission_sketch : bool;    (* admission_sketch_ != nullptr *)
  admission_threshold_ : Z;
  hot_cache_is_shm : bool;        (* hot_cache_->IsShm() *)
  has_storage_backend : bool;     (* storage_backend_ != nullptr *)
  has_transfer_submitter : bool;  (* transfer_submitter_ != nullptr *)
  protocol_ : string;
  local_hostname_ : string;
  p2p_handshake : bool;           (* metadata_connstring_ == P2PHANDSHAKE *)
  transport_endpoint : string;    (* GetTransportEndpoint() *)
  getenv : string → option string }.

(** The endpoint under which this client's own memory is reachable. *)
Definition own_endpoint (c : Client) : string :=
  if p2p_handshake c then transport_endpoint c else local_hostname_ c.

(** [CalculateSliceSize]: the sum wraps like [size_t]. *)
Definition CalculateSliceSize (slices : list Slice) : Z :=
  fold_left (λ acc s, u64_add acc (slice_size s)) slices 0.

(** ** Classification of emitted calls *)

Definition is_master (e : event) : bool :=
  match e with EMaster _ => true | _ => false end.
