(* ===== verification/ReplicaPolicy.v ===== *)
(** * Replica policy of the store client
      ([mooncake-store/src/client_service.cpp], anonymous namespace)

    The replica counts taken from the environment, the bookkeeping of replica
    transfers and the decision which replicas to end and which to revoke. *)

From S2P Require Import Prelude CxxString StoreTypes.
From stdpp Require Import base strings list sets.
From Stdlib Require Import ZArith Lia Ascii.

#[local] Open Scope Z_scope.

(** ** Environment overrides *)

Section Environment.
Context (env : string → option string).

(** [raw_value] set and not empty. *)
Definition getenv_nonempty (name : string) : option string :=
  match env name with
  | Some v => if str_empty v then None else Some v
  | None => None
  end.

Definition GetConfiguredNumaSocketId : option Z :=
  raw_value ← getenv_nonempty "MC_STORE_NUMA_SOCKET_ID";
  let r := strtol raw_value in
  if erange r || negb (converted r) || negb (str_empty (rest r)) ||
     (parsed r <? 0) || (int_max <? parsed r)
  then None else Some (parsed r).

Definition IsSpdkGpuDmabufRequested : bool :=
  match getenv_nonempty "MC_SPDK_GPU_DMABUF" with
  | None => false
  | Some value =>
      let r := strtoull value in
      negb (erange r) && converted r && str_empty (rest r) && negb (parsed r =? 0)
  end.

Definition tolower (c : ascii) : ascii :=
  if (65 <=? char_code c) && (char_code c <=? 90)
  then ascii_of_nat (Z.to_nat (char_code c + 32)) else c.

Fixpoint str_tolower (s : string) : string :=
  match s with
  | String c s' => String (tolower c) (str_tolower s')
  | EmptyString => EmptyString
  end.

Definition IsNofBoundaryLogEnabled : bool :=
  match getenv_nonempty "MC_NOF_DEBUG" with
  | None => false
  | Some value =>
      let normalized := str_tolower value in
      bool_decide (normalized = "1") || bool_decide (normalized = "true") ||
      bool_decide (normalized = "yes") || bool_decide (normalized = "on")
  end.

(** [Some v]: returned true and wrote [v] to [out]. *)
Definition ParseEnvSize (name : string) : option Z :=
  value ← getenv_nonempty name;
  let r := strtoull value in
  if erange r || negb (converted r) || negb (str_empty (rest r)) || (u64_max <? parsed r)
  then None else Some (parsed r).

Definition ApplyStoreReplicaOverrideFromEnv (config : ReplicateConfig) : ReplicateConfig :=
  if negb (replica_num config =? 1) || negb (nof_replica_num config =? 0) then config
  else
    let replica_override := ParseEnvSize "MC_STORE_REPLICA_NUM" in
    let nof_override := ParseEnvSize "MC_STORE_NOF_REPLICA_NUM" in
    match replica_override, nof_override with
    | None, None => config
    | _, _ =>
        let mem := default (replica_num config) replica_override in
        let nof := default (nof_replica_num config) nof_override in
        if (mem =? 0) && (nof =? 0) then config
        else with_replica_nums mem nof config
    end.
End Environment.

(** ** Transfer bookkeeping *)

Record ReplicaTransferSummary := MkSummary {
  allocated_memory_replicas : Z;
  allocated_nof_replicas : Z;
  successful_memory_transfers : Z;
  successful_nof_transfers : Z;
  failed_memory_transfers : Z;
  failed_nof_transfers : Z;
  first_error : ErrorCode }.

Definition empty_summary : ReplicaTransferSummary := MkSummary 0 0 0 0 0 0 OK.

Definition RecordAllocatedReplica (s : ReplicaTransferSummary) (replica : Descriptor)
  : ReplicaTransferSummary :=
  let '(MkSummary am an sm sn fm fn e) := s in
  if is_memory_replica replica then MkSummary (am + 1) an sm sn fm fn e
  else if is_nof_replica replica then MkSummary am (an + 1) sm sn fm fn e
  else s.

Definition RecordSuccess (s : ReplicaTransferSummary) (t : ReplicaType)
  : ReplicaTransferSummary :=
  let '(MkSummary am an sm sn fm fn e) := s in
  match t with
  | MEMORY => MkSummary am an (sm + 1) sn fm fn e
  | NOF_SSD => MkSummary am an sm (sn + 1) fm fn e
  | _ => s
  end.

Definition RecordFailure (s : ReplicaTransferSummary) (t : ReplicaType) (error : ErrorCode)
  : ReplicaTransferSummary :=
  let '(MkSummary am an sm sn fm fn e) := s in
  let e' := if bool_decide (e = OK) then error else e in
  match t with
  | MEMORY => MkSummary am an sm sn (fm + 1) fn e'
  | NOF_SSD => MkSummary am an sm sn fm (fn + 1) e'
  | _ => MkSummary am an sm sn fm fn e'
  end.

(** ** Finalization *)

(** The write modes; only the flexible one is treated specially. *)
Inductive ReplicaWriteMode := FLEXIBLE_DUAL_REPLICA | ReliableMode (code : Z).

#[export] Instance ReplicaWriteMode_eq_dec : EqDecision ReplicaWriteMode.
Proof. solve_decision. Defined.

Record FinalizeDecision := MkDecision {
  end_type : option ReplicaType;
  revoke_type : option ReplicaType;
  success : bool;
  error : ErrorCode }.

Section Decision.
(** [DetermineReplicaWriteMode] is defined with the configuration type. *)
Context (DetermineReplicaWriteMode : ReplicateConfig → ReplicaWriteMode).

Definition flexible (config : ReplicateConfig) : bool :=
  bool_decide (DetermineReplicaWriteMode config = FLEXIBLE_DUAL_REPLICA).

Definition HasExpectedReplicaAllocation (config : ReplicateConfig)
    (summary : ReplicaTransferSummary) : bool :=
  if nof_replica_num config =? 0 then 0 <? allocated_memory_replicas summary
  else if flexible config
  then 0 <? allocated_memory_replicas summary + allocated_nof_replicas summary
  else (allocated_memory_replicas summary =? replica_num config) &&
       (allocated_nof_replicas summary =? nof_replica_num config).

Definition all_transfers_succeeded (summary : ReplicaTransferSummary) : bool :=
  (successful_memory_transfers summary =? allocated_memory_replicas summary) &&
  (successful_nof_transfers summary =? allocated_nof_replicas summary) &&
  (failed_memory_transfers summary =? 0) &&
  (failed_nof_transfers summary =? 0).

Definition error_or (summary : ReplicaTransferSummary) (e : ErrorCode) : ErrorCode :=
  if bool_decide (first_error summary = OK) then e else first_error summary.

Definition DetermineFinalizeDecision (config : ReplicateConfig)
    (summary : ReplicaTransferSummary) : FinalizeDecision :=
  let allocation_satisfied := HasExpectedReplicaAllocation config summary in
  if negb (flexible config) then
    if allocation_satisfied && all_transfers_succeeded summary
    then MkDecision (Some ALL) None true OK
    else MkDecision None (Some ALL) false
           (if allocation_satisfied then error_or summary TRANSFER_FAIL
            else NO_AVAILABLE_HANDLE)
  else
    let memory_succeeded := 0 <? successful_memory_transfers summary in
    let nof_succeeded := 0 <? successful_nof_transfers summary in
    if memory_succeeded && nof_succeeded then MkDecision (Some ALL) None true OK
    else if memory_succeeded then MkDecision (Some MEMORY) (Some NOF_SSD) true OK
    else if nof_succeeded then MkDecision (Some NOF_SSD) (Some MEMORY) true OK
    else MkDecision None (Some ALL) false (error_or summary NO_AVAILABLE_HANDLE).

(** ** Facts *)

(** A finalize action of type [o] applies to the replicas of type [t]. *)
Definition covers (o : option ReplicaType) (t : ReplicaType) : bool :=
  match o with
  | Some ALL => true
  | Some t' => bool_decide (t' = t)
  | None => false
  end.

Lemma error_or_not_OK s e : e ≠ OK → error_or s e ≠ OK.
Proof. intros H. unfold error_or. case_bool_decide; done. Qed.

Lemma decision_types config s :
  let d := DetermineFinalizeDecision config s in
  (end_type d = None ∨ end_type d = Some ALL ∨ end_type d = Some MEMORY ∨
   end_type d = Some NOF_SSD) ∧
  (revoke_type d = None ∨ revoke_type d = Some ALL ∨ revoke_type d = Some MEMORY ∨
   revoke_type d = Some NOF_SSD).
Proof. unfold DetermineFinalizeDecision. repeat case_match; simpl; tauto. Qed.

Lemma decision_success_end config s :
  success (DetermineFinalizeDecision config s) = true ↔
  end_type (DetermineFinalizeDecision config s) ≠ None.
Proof. unfold DetermineFinalizeDecision. repeat case_match; simpl; naive_solver. Qed.

Lemma decision_error config s :
  error (DetermineFinalizeDecision config s) = OK ↔
  success (DetermineFinalizeDecision config s) = true.
Proof.
  unfold DetermineFinalizeDecision. repeat case_match; simpl; try naive_solver.
  - pose proof (error_or_not_OK s TRANSFER_FAIL). naive_solver.
  - pose proof (error_or_not_OK s NO_AVAILABLE_HANDLE). naive_solver.
Qed.

(** The end and revoke actions of a decision partition the replica types. *)
Lemma decision_partitions config s t :
  t = MEMORY ∨ t = NOF_SSD →
  covers (end_type (DetermineFinalizeDecision config s)) t =
  negb (covers (revoke_type (DetermineFinalizeDecision config s)) t).
Proof.
  intros [-> | ->]; unfold DetermineFinalizeDecision; repeat case_match; done.
Qed.

(** What a decision to succeed rests on. *)
Lemma decision_success_inv config s :
  let d := DetermineFinalizeDecision config s in
  success d = true →
  (flexible config = false →
     HasExpectedReplicaAllocation config s = true ∧ all_transfers_succeeded s = true ∧
     end_type d = Some ALL) ∧
  (flexible config = true →
     (0 < successful_memory_transfers s ∧ covers (end_type d) MEMORY = true) ∨
     (0 < successful_nof_transfers s ∧ covers (end_type d) NOF_SSD = true)).
Proof.
  unfold DetermineFinalizeDecision.
  destruct (flexible config); simpl; intros Hs.
  - split; [done|]. intros _. revert Hs.
    repeat case_match; simpl; intros; try done; bool_to_prop; [left|left|right]; done.
  - split; [|done]. intros _. case_match; [|done]. by bool_to_prop.
Qed.

(** outside the flexible mode the whole put succeeds exactly when the
    allocation matches the request and every allocated replica was
    transferred without a failure; then everything is ended, otherwise
    everything is revoked and the error is never [OK]. *)
Theorem reliable_all_or_nothing config s :
  flexible config = false →
  let d := DetermineFinalizeDecision config s in
  (success d = true ↔
   HasExpectedReplicaAllocation config s = true ∧ all_transfers_succeeded s = true) ∧
  (success d = true → end_type d = Some ALL ∧ revoke_type d = None ∧ error d = OK) ∧
  (success d = false → end_type d = None ∧ revoke_type d = Some ALL ∧ error d ≠ OK).
Proof.
  intros Hm d.
  assert (Herr : error d = OK ↔ success d = true) by apply decision_error.
  unfold d, DetermineFinalizeDecision in *. rewrite Hm in *. cbn [negb] in *.
  destruct (HasExpectedReplicaAllocation config s), (all_transfers_succeeded s);
    simpl in *; intuition congruence.
Qed.
End Decision.

Arguments covers !o t.

Lemma reliable_all_or_nothing_witness :
  let d := DetermineFinalizeDecision (λ _, ReliableMode 0)
    (MkConfig 2 0 "" false) (MkSummary 2 0 1 0 1 0 TRANSFER_FAIL) in
  end_type d = None ∧ revoke_type d = Some ALL ∧ error d ≠ OK.
Proof. apply (reliable_all_or_nothing (λ _, ReliableMode 0)); by vm_compute. Defined.

(** the environment never changes an explicit replica configuration and
    never turns a request into one without any replica, and leaves the
    placement fields alone. *)
Theorem env_override_safe env config :
  let resolved := ApplyStoreReplicaOverrideFromEnv env config in
  (replica_num config ≠ 1 ∨ nof_replica_num config ≠ 0 → resolved = config) ∧
  (replica_num resolved = 0 ∧ nof_replica_num resolved = 0 →
   replica_num config = 0 ∧ nof_replica_num config = 0) ∧
  preferred_segment resolved = preferred_segment config ∧
  prefer_alloc_in_same_node resolved = prefer_alloc_in_same_node config.
Proof.
  intros resolved. unfold resolved, ApplyStoreReplicaOverrideFromEnv.
  destruct (Z.eqb_spec (replica_num config) 1) as [H1|H1];
    destruct (Z.eqb_spec (nof_replica_num config) 0) as [H2|H2]; simpl; try done.
  split; [lia|].
  destruct (ParseEnvSize env "MC_STORE_REPLICA_NUM"),
    (ParseEnvSize env "MC_STORE_NOF_REPLICA_NUM"); simpl;
    try case_match; simpl; bool_to_prop; repeat split; try done; try lia.
  all: apply andb_false_iff in H; destruct H; bool_to_prop; lia.
Qed.

(** A negative override is not rejected: [strtoull] wraps it to a huge count. *)
Example negative_replica_override_accepted :
  replica_num (ApplyStoreReplicaOverrideFromEnv
    (λ n, if bool_decide (n = "MC_STORE_REPLICA_NUM") then Some "-1" else None)
    (MkConfig 1 0 "" false)) = u64_max.
Proof. by vm_compute. Qed.
