(* ===== verification/Samples.v ===== *)
(** * Concrete services

    Simple closed instances of the services of [StoreTypes], on which the
    theorems of the data-path files are evaluated. *)

From S2P Require Import Prelude CxxString StoreTypes.
From stdpp Require Import base strings list sets.
From Stdlib Require Import ZArith.

#[local] Open Scope Z_scope.

(** A master that allocates [rs] for every key and accepts everything. *)
Definition sample_master (rs : list Descriptor) : MasterClient := {|
  m_put_start := λ _ _ _ _, Ok rs;
  m_put_end := λ _ _ _, Ok tt;
  m_put_revoke := λ _ _ _, Ok tt;
  m_upsert_start := λ _ _ _ _, Ok rs;
  m_upsert_end := λ _ _ _, Ok tt;
  m_upsert_revoke := λ _ _ _, Ok tt;
  m_batch_put_start := λ _ ks _ _, (λ _, Ok rs) <$> ks;
  m_batch_put_end := λ _ ks _, (λ _, Ok tt) <$> ks;
  m_batch_put_revoke := λ _ ks _, (λ _, Ok tt) <$> ks;
  m_batch_upsert_start := λ _ ks _ _, (λ _, Ok rs) <$> ks;
  m_batch_upsert_end := λ _ ks, (λ _, Ok tt) <$> ks;
  m_batch_upsert_revoke := λ _ ks, (λ _, Ok tt) <$> ks;
  m_get_replica_list := λ _ _, Ok (MkReplicaList rs 1000);
  m_batch_get_replica_list := λ _ ks, (λ _, Ok (MkReplicaList rs 1000)) <$> ks;
  m_remove := λ _ _ _, Ok tt;
  m_remove_by_regex := λ _ _ _, Ok 1;
  m_remove_all := λ _ _, Ok 1;
  m_batch_remove := λ _ ks _, (λ _, Ok tt) <$> ks;
  m_batch_evict := λ _ ks _, (λ _, Ok tt) <$> ks |}.

Definition sample_address (d : Descriptor) : Z :=
  match data d with
  | MemoryReplica b | NofReplica b => buffer_address_ b
  | _ => 0
  end.

(** A transfer engine whose futures are replica addresses and whose
    transfers to the addresses in [broken] fail. *)
Definition sample_submitter (broken : list Z) : TransferSubmitter := {|
  t_submit := λ _ d _ _, Some (sample_address d);
  t_submit_batch := λ _ ds _ _, match ds with d :: _ => Some (sample_address d) | [] => None end;
  t_submit_range := λ _ d _ _, Some (sample_address d);
  t_get := λ _ f, if bool_decide (f ∈ broken) then TRANSFER_FAIL else OK |}.

Definition sample_cache (block : option HotMemBlock) : HotCache := {|
  h_get := λ _ _, block;
  h_sketch_increment := λ _ _, 1;
  h_submit_put := λ _ _ _, true |}.

Definition sample_storage : StorageBackend := {|
  s_device_pointer := λ _, false;
  s_copy_d2h := λ _ _ _, None;
  s_read_host := λ _ _ _, "";
  s_store_object := λ _ _ _ _, Ok [] |}.

Definition sample_clock (t : Z) : Clock := {| c_now := λ _, t |}.

Definition sample_client : Client :=
  MkClient true true false 2 false true true "rdma" "host-a:1" false "host-a:2" (λ _, None).

Definition memory_at (address : Z) : Descriptor :=
  MkDescriptor COMPLETE (MemoryReplica (MkBuffer 8 address "host-b:1")).

Definition sample_slices : list Slice := [MkSlice 4096 8].

Definition sample_config : ReplicateConfig := MkConfig 2 0 "" false.

Definition two_replicas : list Descriptor := [memory_at 100; memory_at 200].

(** Decide a closed proposition by evaluation. *)
Ltac evaluate := apply (bool_decide_unpack _); vm_compute; exact I.
