(* ===== verification/PutPath.v ===== *)
(** * Storing one object: [Client::Put], [Client::Upsert]
      ([mooncake-store/src/client_service.cpp])

    The two-phase write protocol: start on the master, write every memory and
    NoF replica, then end or revoke, with the disk replica staged on the side
    by [PutToLocalFile]. *)

From S2P Require Import Prelude CxxString StoreTypes ReplicaPolicy Samples.
From stdpp Require Import base strings list sets.
From Stdlib Require Import ZArith Lia.

#[local] Open Scope Z_scope.
#[local] Set Default Proof Using "Type".

Section Put.
Context `{!MasterClient, !TransferSubmitter, !HotCache, !StorageBackend, !Clock}.
Context (DetermineReplicaWriteMode : ReplicateConfig → ReplicaWriteMode).
Context (c : Client).

(** ** Transfers *)

Definition TransferData (replica : Descriptor) (slices : list Slice) (op : OpCode)
  : io ErrorCode :=
  if negb (has_transfer_submitter c) then ret INVALID_PARAMS
  else
    let! future := transfer_submit replica slices op in
    match future with
    | None => ret TRANSFER_FAIL
    | Some f => future_get f
    end.

Definition TransferWrite (replica : Descriptor) (slices : list Slice) : io ErrorCode :=
  TransferData replica slices WRITE.

(** Size the reader has to provide room for. *)
Definition replica_total_size (replica : Descriptor) : Z :=
  match data replica with
  | MemoryReplica b | NofReplica b => size_ b
  | DiskReplica _ n | LocalDiskReplica _ n => n
  end.

Definition TransferRead (replica : Descriptor) (slices : list Slice) : io ErrorCode :=
  if CalculateSliceSize slices <? replica_total_size replica then ret INVALID_PARAMS
  else TransferData replica slices READ.

Definition TransferReadInternal (replica : Descriptor) (slices : list Slice) (src_offset : Z)
  : io ErrorCode :=
  if negb (has_transfer_submitter c) then ret INVALID_PARAMS
  else
    let! future := transfer_submit_range replica slices src_offset in
    match future with
    | None => ret TRANSFER_FAIL
    | Some f => future_get f
    end.

Definition TransferReadRange := TransferReadInternal.

(** ** The disk replica *)

(** Synchronous staging of all slices into one string.  [None]: a device copy
    failed and the disk replica has been revoked. *)
Fixpoint stage_slices (key : ObjectKey) (slices : list Slice) (value : string)
  : io (option string) :=
  match slices with
  | [] => ret (Some value)
  | slice :: slices' =>
      if s_device_pointer (slice_ptr slice) then
        let! buf := storage_copy_d2h (slice_ptr slice) (slice_size slice) in
        match buf with
        | None => master_put_revoke key DISK ;;; ret None
        | Some bytes => stage_slices key slices' (value +:+ bytes)%string
        end
      else
        let! bytes := storage_read_host (slice_ptr slice) (slice_size slice) in
        stage_slices key slices' (value +:+ bytes)%string
  end.

Definition PutToLocalFile (key : ObjectKey) (slices : list Slice) (file_path : string)
  : io unit :=
  if negb (has_storage_backend c) then ret tt
  else
    let! value := stage_slices key slices "" in
    match value with
    | None => ret tt
    | Some v => storage_enqueue key v file_path
    end.

(** The task [PutToLocalFile] hands to the writer pool. *)
Definition store_task (key : ObjectKey) (value path : string) : io unit :=
  let! store_result := storage_store_object path value key in
  match store_result with
  | Err _ => master_put_revoke key DISK ;;; ret tt
  | Ok evicted_keys =>
      (match evicted_keys with
       | [] => ret tt
       | _ => master_batch_evict evicted_keys DISK ;;; ret tt
       end) ;;;
      master_put_end key DISK ;;; ret tt
  end.

(** The last disk replica of the list, if any, is written first. *)
Definition put_disk_replica (key : ObjectKey) (slices : list Slice) (rs : list Descriptor)
  : io unit :=
  if has_storage_backend c then
    match List.find is_disk_replica (rev rs) with
    | Some (MkDescriptor _ (DiskReplica file_path _)) => PutToLocalFile key slices file_path
    | _ => ret tt
    end
  else ret tt.

(** ** Put *)

Definition needs_transfer (d : Descriptor) : bool := is_memory_replica d || is_nof_replica d.

Definition replica_type_of (d : Descriptor) : ReplicaType :=
  if is_memory_replica d then MEMORY else NOF_SSD.

(** Body of the transfer loop of [Put]. *)
Definition put_replica (slices : list Slice) (s : ReplicaTransferSummary) (d : Descriptor)
  : io ReplicaTransferSummary :=
  if needs_transfer d then
    let! transfer_err := TransferWrite d slices in
    if bool_decide (transfer_err = OK) then ret (RecordSuccess s (replica_type_of d))
    else ret (RecordFailure s (replica_type_of d) transfer_err)
  else ret s.

(** The end and revoke RPCs and the final result. *)
Definition finalize_put (key : ObjectKey) (d : FinalizeDecision) : io (expected unit) :=
  let! end_result := (match end_type d with
                | Some t => master_put_end key t
                | None => ret (Ok tt)
                end) in
  match end_result with
  | Err e => ret (Err e)
  | Ok _ =>
      let! revoke_result := (match revoke_type d with
                       | Some t => master_put_revoke key t
                       | None => ret (Ok tt)
                       end) in
      match revoke_result with
      | Err e => ret (Err e)
      | Ok _ => ret (if success d then Ok tt else Err (error d))
      end
  end.

(** Configuration sent to the master. *)
Definition put_config (config : ReplicateConfig) : ReplicateConfig :=
  let cfg := if use_nof c then ApplyStoreReplicaOverrideFromEnv (getenv c) config else config in
  if bool_decide (protocol_ c = "cxl") then with_preferred_segment (local_hostname_ c) cfg
  else cfg.

Definition Put (key : ObjectKey) (slices : list Slice) (config : ReplicateConfig)
  : io (expected unit) :=
  let client_cfg := put_config config in
  when (has_hot_cache c) (cache_do (RemoveHotKey key)) ;;;
  let! start_result := master_put_start key (slice_size <$> slices) client_cfg in
  match start_result with
  | Err e => ret (if bool_decide (e = OBJECT_ALREADY_EXISTS) then Ok tt else Err e)
  | Ok rs =>
      let transfer_summary := fold_left RecordAllocatedReplica rs empty_summary in
      put_disk_replica key slices rs ;;;
      let! transfer_summary := mfold (put_replica slices) transfer_summary rs in
      finalize_put key
        (DetermineFinalizeDecision DetermineReplicaWriteMode client_cfg transfer_summary)
  end.

(** ** Upsert *)

Definition upsert_config (config : ReplicateConfig) : ReplicateConfig :=
  if bool_decide (protocol_ c = "cxl") then with_preferred_segment (local_hostname_ c) config
  else config.

(** The transfer loop of [Upsert] stops at the first failed memory replica and
    revokes; [None] means all memory replicas were written. *)
Fixpoint upsert_replicas (key : ObjectKey) (slices : list Slice) (rs : list Descriptor)
  : io (option ErrorCode) :=
  match rs with
  | [] => ret None
  | d :: rs' =>
      if is_memory_replica d then
        let! transfer_err := TransferWrite d slices in
        if bool_decide (transfer_err = OK) then upsert_replicas key slices rs'
        else
          let! revoke_result := master_upsert_revoke key MEMORY in
          match revoke_result with
          | Err e => ret (Some e)
          | Ok _ => ret (Some transfer_err)
          end
      else upsert_replicas key slices rs'
  end.

Definition Upsert (key : ObjectKey) (slices : list Slice) (config : ReplicateConfig)
  : io (expected unit) :=
  let client_cfg := upsert_config config in
  when (has_hot_cache c) (cache_do (RemoveHotKey key)) ;;;
  let! start_result := master_upsert_start key (slice_size <$> slices) client_cfg in
  match start_result with
  | Err e => ret (Err e)
  | Ok rs =>
      put_disk_replica key slices rs ;;;
      let! failed := upsert_replicas key slices rs in
      match failed with
      | Some e => ret (Err e)
      | None =>
          let! end_result := master_upsert_end key MEMORY in
          match end_result with
          | Err e => ret (Err e)
          | Ok _ =>
              when (has_hot_cache c) (cache_do (RemoveHotKey key)) ;;;
              ret (Ok tt)
          end
      end
  end.

(** ** Facts on one transfer *)

(** Within the calls [evs] the data of [slices] was submitted to replica [d]
    and the transfer was waited for and reported success. *)
Definition replica_written (slices : list Slice) (evs : list event) (d : Descriptor) : Prop :=
  ∃ f, infix [ETransfer (Submit d slices WRITE (Some f)); ETransfer (FutureGet f OK)] evs.

Lemma replica_written_mono slices evs evs' d :
  infix evs evs' → replica_written slices evs d → replica_written slices evs' d.
Proof. intros Hsub (f & Hf). exists f. by eapply infix_trans. Qed.

Lemma TransferWrite_OK d slices h :
  value_of (TransferWrite d slices) h = OK →
  replica_written slices (emitted (TransferWrite d slices) h) d.
Proof.
  unfold TransferWrite, TransferData. case_match; [done|].
  rewrite value_of_bind, emitted_bind. cbn.
  destruct (t_submit h d slices WRITE) as [f|] eqn:E; [|done]. cbn. intros Hok.
  exists f. rewrite Hok. apply infix_refl.
Qed.

Definition is_transfer_event (e : event) : bool :=
  match e with ETransfer _ => true | _ => false end.

Lemma TransferData_emitted d slices op h :
  Forall (λ e, is_transfer_event e = true) (emitted (TransferData d slices op) h).
Proof.
  unfold TransferData. case_match; [by constructor|].
  rewrite emitted_bind. cbn. destruct (t_submit h d slices op); cbn;
    repeat constructor.
Qed.

(** ** The transfer loop of Put *)

Definition count_mem (rs : list Descriptor) : Z := Z.of_nat (count is_memory_replica rs).
Definition count_nof (rs : list Descriptor) : Z := Z.of_nat (count is_nof_replica rs).

Lemma memory_not_nof d : is_memory_replica d = true → is_nof_replica d = false.
Proof. unfold is_memory_replica, is_nof_replica. by destruct (data d). Qed.

Lemma recorded_allocation rs s :
  fold_left RecordAllocatedReplica rs s =
  MkSummary (allocated_memory_replicas s + count_mem rs) (allocated_nof_replicas s + count_nof rs)
    (successful_memory_transfers s) (successful_nof_transfers s)
    (failed_memory_transfers s) (failed_nof_transfers s) (first_error s).
Proof.
  unfold count_mem, count_nof. revert s. induction rs as [|d rs IH]; intros s; simpl.
  - rewrite !count_nil. destruct s; simpl. f_equal; lia.
  - rewrite IH, !count_cons. pose proof (memory_not_nof d) as Hd.
    destruct s; unfold RecordAllocatedReplica.
    destruct (is_memory_replica d); [rewrite Hd by done|destruct (is_nof_replica d)];
      simpl; f_equal; lia.
Qed.

(** What the loop does to the summary: allocations stay, every memory and NoF
    replica is counted once as success or failure, and if no failure was
    added, every such replica has been written. *)
Definition transfer_outcome (slices : list Slice) (rs : list Descriptor)
    (s s' : ReplicaTransferSummary) (evs : list event) : Prop :=
  allocated_memory_replicas s' = allocated_memory_replicas s ∧
  allocated_nof_replicas s' = allocated_nof_replicas s ∧
  successful_memory_transfers s' + failed_memory_transfers s' =
    successful_memory_transfers s + failed_memory_transfers s + count_mem rs ∧
  successful_nof_transfers s' + failed_nof_transfers s' =
    successful_nof_transfers s + failed_nof_transfers s + count_nof rs ∧
  failed_memory_transfers s ≤ failed_memory_transfers s' ∧
  failed_nof_transfers s ≤ failed_nof_transfers s' ∧
  (failed_memory_transfers s' = failed_memory_transfers s →
   ∀ d, d ∈ rs → is_memory_replica d = true → replica_written slices evs d) ∧
  (failed_nof_transfers s' = failed_nof_transfers s →
   ∀ d, d ∈ rs → is_nof_replica d = true → replica_written slices evs d) ∧
  (successful_memory_transfers s < successful_memory_transfers s' →
   ∃ d, d ∈ rs ∧ is_memory_replica d = true ∧ replica_written slices evs d) ∧
  (successful_nof_transfers s < successful_nof_transfers s' →
   ∃ d, d ∈ rs ∧ is_nof_replica d = true ∧ replica_written slices evs d) ∧
  successful_memory_transfers s ≤ successful_memory_transfers s' ∧
  successful_nof_transfers s ≤ successful_nof_transfers s'.

Lemma put_replica_run slices s d h :
  put_replica slices s d h =
  (if needs_transfer d then
     ((if bool_decide (value_of (TransferWrite d slices) h = OK)
       then RecordSuccess s (replica_type_of d)
       else RecordFailure s (replica_type_of d) (value_of (TransferWrite d slices) h)),
      emitted (TransferWrite d slices) h)
   else (s, [])).
Proof.
  unfold put_replica. case_match; [|done]. unfold bind.
  unfold value_of, emitted. destruct (TransferWrite d slices h) as [e evs]. simpl.
  by case_bool_decide; simpl; rewrite app_nil_r.
Qed.

Lemma put_replica_outcome slices s d h s' evs :
  put_replica slices s d h = (s', evs) → transfer_outcome slices [d] s s' evs.
Proof.
  rewrite put_replica_run. unfold needs_transfer, replica_type_of.
  pose proof (memory_not_nof d) as Hexcl.
  pose proof (TransferWrite_OK d slices h) as Hok.
  intros Hrun. unfold transfer_outcome, count_mem, count_nof.
  rewrite !count_cons, !count_nil.
  destruct (is_memory_replica d) eqn:Em;
    [rewrite (Hexcl eq_refl)|destruct (is_nof_replica d) eqn:En];
    simpl in Hrun; try case_bool_decide; destruct s; simplify_eq/=;
    repeat split; try lia; try (intros _ d' ->%list_elem_of_singleton);
    intros; try lia; try congruence; try (by apply Hok);
    try (exists d; rewrite list_elem_of_singleton; auto).
  specialize (Hexcl eq_refl). congruence.
Qed.

Lemma transfer_outcome_cons slices d rs s s1 s2 e1 e2 :
  transfer_outcome slices [d] s s1 e1 → transfer_outcome slices rs s1 s2 e2 →
  transfer_outcome slices (d :: rs) s s2 (e1 ++ e2).
Proof.
  unfold transfer_outcome, count_mem, count_nof. rewrite !count_cons, !count_nil.
  setoid_rewrite list_elem_of_singleton. setoid_rewrite elem_of_cons.
  intros (?&?&?&?&?&?&Hm1&Hn1&Hsm1&Hsn1&?&?) (?&?&?&?&?&?&Hm2&Hn2&Hsm2&Hsn2&?&?).
  assert (Hl : ∀ d', replica_written slices e1 d' → replica_written slices (e1 ++ e2) d')
    by (intros d'; apply replica_written_mono; eauto 10 with mooncake).
  assert (Hr : ∀ d', replica_written slices e2 d' → replica_written slices (e1 ++ e2) d')
    by (intros d'; apply replica_written_mono; eauto 10 with mooncake).
  repeat split; try lia.
  - intros Hf d' [->|Hd'] Hk; [apply Hl, Hm1; auto; lia|apply Hr, Hm2; auto; lia].
  - intros Hf d' [->|Hd'] Hk; [apply Hl, Hn1; auto; lia|apply Hr, Hn2; auto; lia].
  - intros Hs. destruct (Z.lt_ge_cases (successful_memory_transfers s)
      (successful_memory_transfers s1)) as [Hlt|Hge].
    + destruct (Hsm1 Hlt) as (d' & ? & ? & ?). exists d'. auto.
    + destruct (Hsm2 ltac:(lia)) as (d' & ? & ? & ?). exists d'. auto.
  - intros Hs. destruct (Z.lt_ge_cases (successful_nof_transfers s)
      (successful_nof_transfers s1)) as [Hlt|Hge].
    + destruct (Hsn1 Hlt) as (d' & ? & ? & ?). exists d'. auto.
    + destruct (Hsn2 ltac:(lia)) as (d' & ? & ? & ?). exists d'. auto.
Qed.

Lemma put_transfers_outcome slices rs s h s' evs :
  mfold (put_replica slices) s rs h = (s', evs) → transfer_outcome slices rs s s' evs.
Proof.
  apply (mfold_outcome _ (transfer_outcome slices)).
  - intros s0. unfold transfer_outcome, count_mem, count_nof. rewrite !count_nil.
    repeat split; try lia; set_solver.
  - intros. eapply transfer_outcome_cons; [by eapply put_replica_outcome|done].
Qed.

Lemma put_replica_emitted slices s d h :
  Forall (λ e, is_transfer_event e = true) (emitted (put_replica slices s d) h).
Proof.
  unfold emitted. rewrite put_replica_run. case_match; [|by constructor].
  apply TransferData_emitted.
Qed.

(** ** The disk side never touches the other replicas *)

Definition is_disk_event (e : event) : bool :=
  match e with
  | EStorage _ => true
  | EMaster (PutRevoke _ DISK _) => true
  | _ => false
  end.

Lemma stage_slices_emitted key slices value h :
  Forall (λ e, is_disk_event e = true) (emitted (stage_slices key slices value) h).
Proof.
  revert value h. induction slices as [|s slices IH]; intros value h; [by constructor|].
  cbn [stage_slices]. case_match; rewrite emitted_bind; cbn.
  - constructor; [done|]. destruct (s_copy_d2h _ _ _); [apply IH|by repeat constructor].
  - constructor; [done|]. apply IH.
Qed.

Lemma put_disk_replica_emitted key slices rs h :
  Forall (λ e, is_disk_event e = true) (emitted (put_disk_replica key slices rs) h).
Proof.
  unfold put_disk_replica, PutToLocalFile. repeat case_match; try by constructor.
  rewrite emitted_bind. apply Forall_app. split; [apply stage_slices_emitted|].
  case_match; by repeat constructor.
Qed.

Lemma put_transfers_emitted slices rs s h :
  Forall (λ e, is_transfer_event e = true) (emitted (mfold (put_replica slices) s rs) h).
Proof. apply mfold_emitted. intros. apply put_replica_emitted. Qed.

(** ** Runs of Put *)

(** One run of [Put], split into its stages. *)
Inductive put_run (key : ObjectKey) (slices : list Slice) (cfg : ReplicateConfig)
  : expected unit → list event → Prop :=
| put_not_started pre e :
    Forall (λ ev, ev = ECache (RemoveHotKey key)) pre →
    put_run key slices cfg
      (if bool_decide (e = OBJECT_ALREADY_EXISTS) then Ok tt else Err e)
      (pre ++ [EMaster (PutStart key (slice_size <$> slices) cfg (Err e))])
| put_started pre rs disk xfer fin s r h :
    Forall (λ ev, ev = ECache (RemoveHotKey key)) pre →
    Forall (λ ev, is_disk_event ev = true) disk →
    Forall (λ ev, is_transfer_event ev = true) xfer →
    transfer_outcome slices rs (fold_left RecordAllocatedReplica rs empty_summary) s xfer →
    finalize_put key (DetermineFinalizeDecision DetermineReplicaWriteMode cfg s) h = (r, fin) →
    put_run key slices cfg r
      (pre ++ EMaster (PutStart key (slice_size <$> slices) cfg (Ok rs)) :: disk ++ xfer ++ fin).

Lemma when_cache_emitted b ev h v evs :
  when b (cache_do ev) h = (v, evs) → Forall (λ e, e = ECache ev) evs.
Proof. destruct b; intros [= <- <-]; by repeat constructor. Qed.

Lemma Put_run key slices config h r evs :
  Put key slices config h = (r, evs) → put_run key slices (put_config config) r evs.
Proof.
  unfold Put. intros Hrun.
  apply bind_inv in Hrun as (? & pre & ? & Hpre & Hrun & ->).
  apply when_cache_emitted in Hpre.
  apply bind_inv in Hrun as (res & ? & ? & Hstart & Hrun & ->).
  apply call_inv in Hstart as [_ ->]. destruct res as [rs|e].
  - apply bind_inv in Hrun as (? & disk & ? & Hdisk & Hrun & ->).
    apply bind_inv in Hrun as (s & xfer & fin & Hx & Hfin & ->). simpl.
    eapply put_started; [done| | | |done].
    + rewrite <- (run_emitted _ _ _ _ Hdisk). apply put_disk_replica_emitted.
    + rewrite <- (run_emitted _ _ _ _ Hx). apply put_transfers_emitted.
    + by eapply put_transfers_outcome.
  - apply ret_inv in Hrun as [-> ->]. simpl. by apply put_not_started.
Qed.

(** What the finalization sends and returns. *)
Definition end_events (key : ObjectKey) (d : FinalizeDecision) : list event :=
  match end_type d with Some t => [EMaster (PutEnd key t (Ok tt))] | None => [] end.

Definition decided (d : FinalizeDecision) : expected unit :=
  if success d then Ok tt else Err (error d).

Lemma finalize_put_run key d h r fin :
  finalize_put key d h = (r, fin) →
  (∃ e t, end_type d = Some t ∧ r = Err e ∧ fin = [EMaster (PutEnd key t (Err e))]) ∨
  (revoke_type d = None ∧ r = decided d ∧ fin = end_events key d) ∨
  (∃ t rr, revoke_type d = Some t ∧ fin = end_events key d ++ [EMaster (PutRevoke key t rr)] ∧
           r = match rr with Ok _ => decided d | Err e => Err e end).
Proof.
  unfold finalize_put, end_events. intros Hrun.
  apply bind_inv in Hrun as (er & ev1 & ev2 & He & Hrun & ->).
  assert (Hev : (∃ e t, end_type d = Some t ∧ er = Err e ∧ ev1 = [EMaster (PutEnd key t (Err e))]) ∨
    (er = Ok tt ∧
     ev1 = match end_type d with Some t => [EMaster (PutEnd key t (Ok tt))] | None => [] end)).
  { destruct (end_type d) as [t|].
    - apply call_inv in He as [_ ->]. destruct er as [[]|e]; [by right|left; eauto].
    - apply ret_inv in He as [-> ->]. by right. }
  destruct Hev as [(e & t & Ht & -> & ->)|[-> ->]].
  { apply ret_inv in Hrun as [-> ->]. left. eauto. }
  right. apply bind_inv in Hrun as (rr & ev3 & ev4 & Hr & Hrun & ->).
  destruct (revoke_type d) as [t|].
  - apply call_inv in Hr as [_ ->]. right. exists t, rr.
    destruct rr as [[]|e]; apply ret_inv in Hrun as [-> ->]; by rewrite app_nil_r.
  - apply ret_inv in Hr as [-> ->]. apply ret_inv in Hrun as [-> ->].
    left. by rewrite app_nil_r.
Qed.

Lemma finalize_put_Ok key d h fin :
  finalize_put key d h = (Ok tt, fin) →
  success d = true ∧ end_events key d ⊆ fin.
Proof.
  intros [(?&?&_&?&_)|[(_&Hd&->)|(t&[[]|]&_&->&Hd)]]%finalize_put_run; try done;
    unfold decided in Hd; (split; [by destruct (success d)|set_solver]).
Qed.

Lemma finalize_put_emitted key d h r fin e :
  finalize_put key d h = (r, fin) → e ∈ fin →
  (∃ t er, end_type d = Some t ∧ e = EMaster (PutEnd key t er)) ∨
  (∃ t rr, revoke_type d = Some t ∧ e = EMaster (PutRevoke key t rr)).
Proof.
  intros Hrun He.
  assert (Hends : e ∈ end_events key d →
    ∃ t er, end_type d = Some t ∧ e = EMaster (PutEnd key t er)).
  { unfold end_events. destruct (end_type d); set_solver. }
  apply finalize_put_run in Hrun as [(?&?&?&?&->)|[(_&_&->)|(t&rr&?&->&_)]];
    set_solver.
Qed.

(** The master has an object with this key already: nothing is transferred. *)
Definition put_existed (key : ObjectKey) (slices : list Slice) (cfg : ReplicateConfig)
    (evs : list event) : Prop :=
  EMaster (PutStart key (slice_size <$> slices) cfg (Err OBJECT_ALREADY_EXISTS)) ∈ evs ∧
  Forall (λ ev, is_transfer_event ev = false) evs.

(** What a put that wrote the object has done. *)
Definition put_written (key : ObjectKey) (slices : list Slice) (cfg : ReplicateConfig)
    (evs : list event) : Prop :=
  ∃ rs,
    EMaster (PutStart key (slice_size <$> slices) cfg (Ok rs)) ∈ evs ∧
    (flexible DetermineReplicaWriteMode cfg = false →
       EMaster (PutEnd key ALL (Ok tt)) ∈ evs ∧
       (nof_replica_num cfg = 0 → 0 < count_mem rs) ∧
       (nof_replica_num cfg ≠ 0 →
          count_mem rs = replica_num cfg ∧ count_nof rs = nof_replica_num cfg) ∧
       ∀ d, d ∈ rs → needs_transfer d = true → replica_written slices evs d) ∧
    (flexible DetermineReplicaWriteMode cfg = true →
       ∃ t d, EMaster (PutEnd key t (Ok tt)) ∈ evs ∧
              d ∈ rs ∧ covers (Some t) (replica_type_of d) = true ∧
              replica_written slices evs d).

Lemma put_ok_stored key slices config h evs :
  Put key slices config h = (Ok tt, evs) →
  put_existed key slices (put_config config) evs ∨ put_written key slices (put_config config) evs.
Proof.
  intros Hrun%Put_run. unfold put_existed, put_written. set (cfg := put_config config) in *.
  inversion Hrun as [pre e Hpre Hr Hev|pre rs disk xfer fin s r h' Hpre Hd Hx Hout Hfin Hr Hev].
  { left. case_bool_decide; [subst e|done]. split; [set_solver|]. apply Forall_app.
    split; [|by repeat constructor]. eapply Forall_impl; [exact Hpre|]. by intros ? ->. }
  right. subst r evs. exists rs. split; [set_solver|].
  apply finalize_put_Ok in Hfin as [Hsucc Hend].
  assert (Hw : ∀ d, replica_written slices xfer d →
    replica_written slices
      (pre ++ EMaster (PutStart key (slice_size <$> slices) cfg (Ok rs)) :: disk ++ xfer ++ fin) d)
    by (intros d; apply replica_written_mono; eauto 10 with mooncake).
  rewrite recorded_allocation in Hout. destruct Hout as
    (Ham & Han & Hcm & Hcn & _ & _ & Hallm & Halln & Hsm & Hsn & _ & _). simpl in *.
  unfold end_events, DetermineFinalizeDecision in Hend, Hsucc.
  split; intros Hmode; rewrite Hmode in Hend, Hsucc; cbn [negb] in Hend, Hsucc.
  - destruct (HasExpectedReplicaAllocation DetermineReplicaWriteMode cfg s &&
      all_transfers_succeeded s) eqn:Hdec; [|done]. simpl in Hend.
    apply andb_true_iff in Hdec as [Halloc Hall].
    unfold HasExpectedReplicaAllocation in Halloc. rewrite Hmode, Ham, Han in Halloc.
    unfold all_transfers_succeeded in Hall. bool_to_prop.
    split; [set_solver|]. split; [|split].
    + intros Hz. rewrite Hz in Halloc. simpl in Halloc. by bool_to_prop.
    + intros Hz. destruct (Z.eqb_spec (nof_replica_num cfg) 0); [done|]. bool_to_prop. lia.
    + intros d Hin [Hm|Hn]%orb_true_iff; apply Hw; [apply Hallm|apply Halln]; auto; lia.
  - repeat case_match; try done; simpl in Hend; bool_to_prop.
    + destruct (Hsm ltac:(lia)) as (d & ? & Hk & ?). exists ALL, d.
      split; [set_solver|]. auto.
    + destruct (Hsm ltac:(lia)) as (d & ? & Hk & ?). exists MEMORY, d.
      split; [set_solver|]. unfold replica_type_of. rewrite Hk. auto.
    + destruct (Hsn ltac:(lia)) as (d & ? & Hk & ?). exists NOF_SSD, d.
      split; [set_solver|]. unfold replica_type_of.
      destruct (is_memory_replica d) eqn:Hm; [|auto].
      apply memory_not_nof in Hm. congruence.
Qed.

(** C1: when [Put] returns success, either the master already had the object and nothing
    was transferred, or replicas were allocated and the data really reached them.  Outside
    the flexible mode every memory and NoF replica the master allocated was written and the
    object was ended as a whole; if NoF replicas were requested the numbers of memory and
    NoF replicas are those of the request, otherwise there is at least one memory replica
    (fewer than requested are accepted).  In the flexible mode at least one replica of an
    ended type was written. *)
Theorem put_ok_sound key slices config h evs :
  Put key slices config h = (Ok tt, evs) →
  let cfg := put_config config in
  (EMaster (PutStart key (slice_size <$> slices) cfg (Err OBJECT_ALREADY_EXISTS)) ∈ evs ∧
   Forall (λ ev, is_transfer_event ev = false) evs) ∨
  ∃ rs,
    EMaster (PutStart key (slice_size <$> slices) cfg (Ok rs)) ∈ evs ∧
    (flexible DetermineReplicaWriteMode cfg = false →
       EMaster (PutEnd key ALL (Ok tt)) ∈ evs ∧
       (nof_replica_num cfg = 0 → 0 < count_mem rs) ∧
       (nof_replica_num cfg ≠ 0 →
          count_mem rs = replica_num cfg ∧ count_nof rs = nof_replica_num cfg) ∧
       ∀ d, d ∈ rs → needs_transfer d = true → replica_written slices evs d) ∧
    (flexible DetermineReplicaWriteMode cfg = true →
       ∃ t d, EMaster (PutEnd key t (Ok tt)) ∈ evs ∧
              d ∈ rs ∧ covers (Some t) (replica_type_of d) = true ∧
              replica_written slices evs d).
Proof. intros Hrun cfg. exact (put_ok_stored _ _ _ _ _ Hrun). Qed.

(** An error of [Put] is never [OK] when those of the master are not. *)
Lemma Put_error key slices config h e evs :
  MasterErrors → Put key slices config h = (Err e, evs) → e ≠ OK.
Proof.
  intros [Hs He Hr] R. unfold Put in R.
  apply bind_inv in R as (? & pre & ? & _ & R & ->).
  apply bind_inv in R as (res & ? & ? & [-> _]%call_inv & R & ->).
  destruct (m_put_start _ _ _ _) as [rs|e'] eqn:E.
  2:{ apply ret_inv in R as [R _]. case_bool_decide; [done|]. injection R as ->. by eapply Hs. }
  apply bind_inv in R as (? & ? & ? & _ & R & ->).
  apply bind_inv in R as (s & ? & ? & _ & R & ->). unfold finalize_put in R.
  apply bind_inv in R as (er & ? & ? & Re & R & ->).
  destruct er as [[]|e1].
  2:{ apply ret_inv in R as [[= ->] _]. destruct (end_type _).
      - apply call_inv in Re as [Re _]. by eapply He.
      - by apply ret_inv in Re as [? _]. }
  apply bind_inv in R as (rr & ? & ? & Rr & R & ->). destruct rr as [[]|e1].
  2:{ apply ret_inv in R as [[= ->] _]. destruct (revoke_type _).
      - apply call_inv in Rr as [Rr _]. by eapply Hr.
      - by apply ret_inv in Rr as [? _]. }
  apply ret_inv in R as [R _]. destruct (success _) eqn:Es; [done|]. injection R as ->.
  rewrite decision_error. by rewrite Es.
Qed.

(** The end and revoke calls of a started run are those of its finalization. *)
Definition is_finalize_of (k : ObjectKey) (e : event) : Prop :=
  (∃ t r, e = EMaster (PutEnd k t r)) ∨ (∃ t r, t ≠ DISK ∧ e = EMaster (PutRevoke k t r)).

Lemma finalize_calls_in_fin key slices cfg pre rs disk xfer fin k e :
  Forall (λ ev, ev = ECache (RemoveHotKey key)) pre →
  Forall (λ ev, is_disk_event ev = true) disk →
  Forall (λ ev, is_transfer_event ev = true) xfer →
  is_finalize_of k e →
  e ∈ pre ++ EMaster (PutStart key (slice_size <$> slices) cfg (Ok rs)) :: disk ++ xfer ++ fin →
  e ∈ fin.
Proof.
  rewrite !Forall_forall, !elem_of_app, elem_of_cons, !elem_of_app.
  intros Hpre Hd Hx Hf [Hin|[ ->|[Hin|[Hin|Hin]]]]; [| | | |done]; exfalso.
  - apply Hpre in Hin. destruct Hf as [(?&?&->)|(?&?&?&->)]; done.
  - destruct Hf as [(? & ? & [=])|(? & ? & ? & [=])].
  - apply Hd in Hin. destruct Hf as [(t&r&->)|(t&r&Ht&->)]; simpl in Hin; [done|by destruct t].
  - apply Hx in Hin. destruct Hf as [(t&r&->)|(t&r&Ht&->)]; done.
Qed.

Lemma not_started_no_finalize key slices cfg pre r k e :
  Forall (λ ev, ev = ECache (RemoveHotKey key)) pre →
  is_finalize_of k e →
  e ∉ pre ++ [EMaster (PutStart key (slice_size <$> slices) cfg r)].
Proof.
  rewrite Forall_forall, elem_of_app, list_elem_of_singleton.
  intros Hpre Hf [Hin| ->].
  - apply Hpre in Hin. destruct Hf as [(?&?&->)|(?&?&?&->)]; done.
  - destruct Hf as [(? & ? & [=])|(? & ? & ? & [=])].
Qed.

(** within one [Put], the end call and the revoke call (the disk replica
    aside) never cover the same replica type: no replica is both published and
    revoked. *)
Theorem put_end_revoke_disjoint key slices config h r evs t1 r1 t2 r2 t :
  Put key slices config h = (r, evs) →
  EMaster (PutEnd key t1 r1) ∈ evs → EMaster (PutRevoke key t2 r2) ∈ evs → t2 ≠ DISK →
  t = MEMORY ∨ t = NOF_SSD →
  covers (Some t1) t = true → covers (Some t2) t = false.
Proof.
  intros Hrun He Hr Ht2 Ht Hc. apply Put_run in Hrun.
  inversion Hrun as [pre e Hpre Hres Hev|pre rs disk xfer fin s ? h' Hpre Hd Hx _ Hfin Hres Hev];
    subst.
  { eapply not_started_no_finalize in He; [done|done|left; eauto]. }
  eapply finalize_calls_in_fin with (k := key) in He as Hfe; [|try done..|left; eauto].
  eapply finalize_calls_in_fin with (k := key) in Hr as Hfr; [|try done..|right; eauto].
  eapply finalize_put_emitted in Hfe as [(t1' & ? & Hd1 & [=])|(? & ? & _ & [=])]; [|done].
  eapply finalize_put_emitted in Hfr as [(? & ? & _ & [=])|(t2' & ? & Hd2 & [=])]; [|done].
  subst. pose proof (decision_partitions DetermineReplicaWriteMode (put_config config) s t Ht)
    as Hp. rewrite Hd1, Hd2, Hc in Hp. by destruct (covers (Some t2') t).
Qed.

(** a [Put] that fails after the master allocated replicas either could not
    end them (the end call itself failed), or it sent a revoke; outside the
    flexible mode that revoke covers every replica, so a failed put leaves
    nothing published. *)
Theorem put_err_revokes key slices config h e evs rs :
  Put key slices config h = (Err e, evs) →
  EMaster (PutStart key (slice_size <$> slices) (put_config config) (Ok rs)) ∈ evs →
  (∃ t, EMaster (PutEnd key t (Err e)) ∈ evs) ∨
  (∃ t rr, EMaster (PutRevoke key t rr) ∈ evs ∧ t ≠ DISK ∧
     (flexible DetermineReplicaWriteMode (put_config config) = false →
        t = ALL ∧ ∀ t' r', EMaster (PutEnd key t' r') ∉ evs)).
Proof.
  intros Hrun Hstart. apply Put_run in Hrun.
  inversion Hrun as [pre e' Hpre Hres Hev|pre rs' disk xfer fin s ? h' Hpre Hd Hx _ Hfin Hres Hev];
    subst.
  { exfalso. rewrite elem_of_app, list_elem_of_singleton, Forall_forall in *. naive_solver. }
  set (d := DetermineFinalizeDecision DetermineReplicaWriteMode (put_config config) s) in *.
  apply finalize_put_run in Hfin as [(e0 & t & _ & [= <-] & ->)|Hfin].
  { left. exists t. set_solver. }
  pose proof (decision_types DetermineReplicaWriteMode (put_config config) s) as Htypes.
  fold d in Htypes.
  destruct Hfin as [(Hrev & Hr & ->)|(t & rr & Hrev & -> & Hr)].
  { exfalso. unfold decided in Hr. destruct (success d) eqn:Hs; [done|].
    clear -Hrev Hs. subst d. unfold DetermineFinalizeDecision in *.
    repeat case_match; done. }
  right. exists t, rr. split; [set_solver|]. split; [naive_solver|]. intros Hmode.
  assert (Hall : t = ALL ∧ end_type d = None).
  { clear -Hrev Hmode. subst d. unfold DetermineFinalizeDecision in *.
    rewrite Hmode in *. simpl in *. case_match; naive_solver. }
  destruct Hall as [-> Hend]. split; [done|]. intros t' r' Hin.
  eapply finalize_calls_in_fin with (k := key) in Hin; [|done..|left; eauto].
  unfold end_events in Hin. rewrite Hend in Hin. set_solver.
Qed.

(** ** Runs of Upsert *)

Lemma upsert_replicas_run key slices rs h o evs :
  upsert_replicas key slices rs h = (o, evs) →
  ∃ xfer rev,
    evs = xfer ++ rev ∧ Forall (λ e, is_transfer_event e = true) xfer ∧
    match o with
    | None => rev = [] ∧
        ∀ d, d ∈ rs → is_memory_replica d = true → replica_written slices xfer d
    | Some _ => ∃ rr, rev = [EMaster (UpsertRevoke key MEMORY rr)]
    end.
Proof.
  revert h evs. induction rs as [|d rs IH]; intros h evs Hrun; cbn [upsert_replicas] in Hrun.
  { apply ret_inv in Hrun as [-> ->]. exists [], []. repeat split; [done|set_solver]. }
  destruct (is_memory_replica d) eqn:Hm.
  2: { apply IH in Hrun as (xfer & rev & -> & Hx & Ho). exists xfer, rev.
       repeat split; try done. destruct o; [done|]. destruct Ho as [-> Ho].
       split; [done|]. intros d' [->|Hd']%elem_of_cons; [congruence|by apply Ho]. }
  apply bind_inv in Hrun as (err & e1 & e2 & Hw & Hrun & ->).
  assert (Hx1 : Forall (λ e, is_transfer_event e = true) e1)
    by (rewrite <- (run_emitted _ _ _ _ Hw); apply TransferData_emitted).
  case_bool_decide as Herr.
  - apply IH in Hrun as (xfer & rev & -> & Hx & Ho). exists (e1 ++ xfer), rev.
    split; [by rewrite app_assoc|]. split; [by apply Forall_app|].
    destruct o; [done|]. destruct Ho as [-> Ho]. split; [done|].
    intros d' [->|Hd']%elem_of_cons Hm'.
    + eapply replica_written_mono with (evs := e1); [eauto 10 with mooncake|].
      rewrite <- (run_emitted _ _ _ _ Hw). apply TransferWrite_OK.
      by rewrite (run_value _ _ _ _ Hw).
    + eapply replica_written_mono with (evs := xfer); [eauto 10 with mooncake|]. by apply Ho.
  - apply bind_inv in Hrun as (rr & e3 & e4 & Hr & Hrun & ->).
    apply call_inv in Hr as [_ ->].
    destruct rr; apply ret_inv in Hrun as [-> ->]; eauto 10.
Qed.

(** when [Upsert] returns success, every memory replica the master handed
    out has been written, the master ended the upsert, and the hot cache entry
    was dropped after that end call, so a stale value cannot survive there. *)
Theorem upsert_ok_sound key slices config h evs :
  Upsert key slices config h = (Ok tt, evs) →
  ∃ rs pre post,
    evs = pre ++ EMaster (UpsertEnd key MEMORY (Ok tt)) :: post ∧
    EMaster (UpsertStart key (slice_size <$> slices) (upsert_config config) (Ok rs)) ∈ pre ∧
    (∀ d, d ∈ rs → is_memory_replica d = true → replica_written slices pre d) ∧
    post = (if has_hot_cache c then [ECache (RemoveHotKey key)] else []).
Proof.
  clear DetermineReplicaWriteMode.
  unfold Upsert. intros Hrun.
  apply bind_inv in Hrun as (? & pre & ? & Hpre & Hrun & ->).
  apply bind_inv in Hrun as (res & ? & ? & Hstart & Hrun & ->).
  apply call_inv in Hstart as [_ ->]. destruct res as [rs|e];
    [|by apply ret_inv in Hrun as [? _]].
  apply bind_inv in Hrun as (? & disk & ? & _ & Hrun & ->).
  apply bind_inv in Hrun as (o & xfer & ? & Hx & Hrun & ->).
  apply upsert_replicas_run in Hx as (xf & rev & -> & _ & Ho).
  destruct o as [e|]; [by apply ret_inv in Hrun as [? _]|]. destruct Ho as [-> Ho].
  apply bind_inv in Hrun as (er & ? & ? & He & Hrun & ->).
  apply call_inv in He as [_ ->]. destruct er as [[]|e];
    [|by apply ret_inv in Hrun as [? _]].
  apply bind_inv in Hrun as (? & post & ? & Hpost & Hrun & ->).
  apply ret_inv in Hrun as [_ ->].
  exists rs, (pre ++ EMaster (UpsertStart key (slice_size <$> slices) (upsert_config config) (Ok rs))
    :: disk ++ xf), post.
  rewrite !app_nil_r. split; [by rewrite <- !app_assoc; simpl; rewrite <- !app_assoc|].
  split; [set_solver|]. split.
  - intros d Hd Hm. eapply replica_written_mono with (evs := xf); [eauto 10 with mooncake|]. by apply Ho.
  - unfold when in Hpost. destruct (has_hot_cache c); by injection Hpost as <-.
Qed.

(** an [Upsert] whose transfer failed revokes and never ends the object;
    any error after the start is either that or a failed end call. *)
Theorem upsert_err_revokes key slices config h e evs rs :
  Upsert key slices config h = (Err e, evs) →
  EMaster (UpsertStart key (slice_size <$> slices) (upsert_config config) (Ok rs)) ∈ evs →
  EMaster (UpsertEnd key MEMORY (Err e)) ∈ evs ∨
  (∃ rr, EMaster (UpsertRevoke key MEMORY rr) ∈ evs) ∧
  ∀ t r, EMaster (UpsertEnd key t r) ∉ evs.
Proof.
  clear DetermineReplicaWriteMode.
  unfold Upsert. intros Hrun Hin.
  apply bind_inv in Hrun as (? & pre & ? & Hpre & Hrun & ->).
  apply when_cache_emitted in Hpre.
  apply bind_inv in Hrun as (res & ? & ? & Hstart & Hrun & ->).
  apply call_inv in Hstart as [_ ->]. destruct res as [rs'|e'].
  2: { apply ret_inv in Hrun as [_ ->]. exfalso. rewrite Forall_forall in Hpre.
       rewrite !elem_of_app, list_elem_of_singleton in Hin. set_solver. }
  apply bind_inv in Hrun as (? & disk & ? & Hdisk & Hrun & ->).
  pose proof (put_disk_replica_emitted key slices rs'
    ((h ++ pre) ++ [EMaster (UpsertStart key (slice_size <$> slices) (upsert_config config) (Ok rs'))]))
    as Hd. rewrite (run_emitted _ _ _ _ Hdisk) in Hd.
  apply bind_inv in Hrun as (o & xfer & ? & Hx & Hrun & ->).
  apply upsert_replicas_run in Hx as (xf & rev & -> & Hx & Ho).
  destruct o as [e'|].
  - apply ret_inv in Hrun as [_ ->]. destruct Ho as [rr ->]. right. split.
    + exists rr. set_solver.
    + intros t r Hin'. rewrite Forall_forall in Hpre, Hd, Hx.
      rewrite !elem_of_app, !list_elem_of_singleton, elem_of_nil in Hin'.
      destruct Hin' as [Hi|[Hi|[Hi|[[Hi|Hi]|Hi]]]]; try done.
      * by apply Hpre in Hi.
      * by apply Hd in Hi.
      * by apply Hx in Hi.
  - left. apply bind_inv in Hrun as (er & ? & ? & He & Hrun & ->).
    apply call_inv in He as [_ ->]. destruct er as [[]|e'].
    + apply bind_inv in Hrun as (? & ? & ? & _ & Hrun & ->).
      by apply ret_inv in Hrun as [? _].
    + apply ret_inv in Hrun as [[= ->] ->]. set_solver.
Qed.
End Put.

(** ** Witnesses *)

(** A reliable-mode client whose master allocates two memory replicas and
    whose transfers to the addresses in [broken] fail. *)
Definition sample_put (broken : list Z) : io (expected unit) :=
  @Put (sample_master two_replicas) (sample_submitter broken) sample_storage
    (λ _, ReliableMode 0) sample_client "k" sample_slices sample_config.
Definition sample_upsert (broken : list Z) : io (expected unit) :=
  @Upsert (sample_master two_replicas) (sample_submitter broken) sample_storage
    sample_client "k" sample_slices sample_config.

(** Both replicas work: the object is ended as a whole. *)
Lemma put_ok_sound_witness : EMaster (PutEnd "k" ALL (Ok tt)) ∈ emitted (sample_put []) [].
Proof.
  destruct (@put_ok_sound (sample_master two_replicas) (sample_submitter []) sample_storage
    (λ _, ReliableMode 0) sample_client "k" sample_slices sample_config []
    (emitted (sample_put []) []))
    as [Hno|(rs & _ & Hrel & _)].
  - by vm_compute.
  - exfalso. revert Hno. evaluate.
  - apply Hrel. by vm_compute.
Defined.

(** One replica in flexible mode fails: memory is ended, NoF revoked. *)
Definition flexible_put : io (expected unit) :=
  @Put (sample_master [memory_at 100; MkDescriptor COMPLETE (NofReplica (MkBuffer 8 200 "ssd"))])
    (sample_submitter [200]) sample_storage (λ _, FLEXIBLE_DUAL_REPLICA)
    sample_client "k" sample_slices (MkConfig 1 1 "" false).

Lemma put_end_revoke_disjoint_witness : covers (Some NOF_SSD) MEMORY = false.
Proof.
  apply (@put_end_revoke_disjoint
    (sample_master [memory_at 100; MkDescriptor COMPLETE (NofReplica (MkBuffer 8 200 "ssd"))])
    (sample_submitter [200]) sample_storage (λ _, FLEXIBLE_DUAL_REPLICA) sample_client
    "k" sample_slices (MkConfig 1 1 "" false) [] (value_of flexible_put [])
    (emitted flexible_put []) MEMORY (Ok tt) NOF_SSD (Ok tt) MEMORY).
  - by vm_compute.
  - evaluate.
  - evaluate.
  - done.
  - by left.
  - done.
Defined.

(** The second replica fails: everything is revoked. *)
Lemma put_err_revokes_witness :
  ∃ t, (∃ e, EMaster (PutEnd "k" t (Err e)) ∈ emitted (sample_put [200]) []) ∨
       (∃ rr, EMaster (PutRevoke "k" t rr) ∈ emitted (sample_put [200]) []).
Proof.
  destruct (@put_err_revokes (sample_master two_replicas) (sample_submitter [200]) sample_storage
    (λ _, ReliableMode 0) sample_client "k" sample_slices sample_config [] TRANSFER_FAIL
    (emitted (sample_put [200]) []) two_replicas) as [(t & Ht)|(t & rr & Ht & _)].
  - by vm_compute.
  - evaluate.
  - exists t. left. by eexists.
  - exists t. right. by eexists.
Defined.

Lemma upsert_ok_sound_witness :
  ∃ (rs : list Descriptor) evs1 evs2,
    emitted (sample_upsert []) [] = evs1 ++ EMaster (UpsertEnd "k" MEMORY (Ok tt)) :: evs2 ∧
    (∀ d, d ∈ rs → is_memory_replica d = true → replica_written sample_slices evs1 d).
Proof.
  destruct (@upsert_ok_sound (sample_master two_replicas) (sample_submitter []) sample_storage
    sample_client "k" sample_slices sample_config []
    (emitted (sample_upsert []) [])) as (rs & evs1 & evs2 & Hev & _ & Hw & _).
  - by vm_compute.
  - by exists rs, evs1, evs2.
Defined.

Lemma upsert_err_revokes_witness :
  EMaster (UpsertEnd "k" MEMORY (Err TRANSFER_FAIL)) ∈ emitted (sample_upsert [200]) [] ∨
  (∃ rr, EMaster (UpsertRevoke "k" MEMORY rr) ∈ emitted (sample_upsert [200]) []).
Proof.
  destruct (@upsert_err_revokes (sample_master two_replicas) (sample_submitter [200]) sample_storage
    sample_client "k" sample_slices sample_config [] TRANSFER_FAIL
    (emitted (sample_upsert [200]) []) two_replicas) as [He|[Hr _]].
  - by vm_compute.
  - evaluate.
  - by left.
  - by right.
Defined.
