(* ===== verification/BatchPut.v ===== *)
(** * Storing many objects: [Client::BatchPut], [Client::BatchUpsert]
      ([mooncake-store/src/client_service.cpp])

    The batch operations run a small state machine per key
    ([PutOperation]): start on the master, submit all transfers, wait for
    them, finalize on the master in groups, collect the results. *)

From S2P Require Import Prelude CxxString StoreTypes ReplicaPolicy Samples PutPath.
From stdpp Require Import base strings list sets gmap fin_maps.
From Stdlib Require Import ZArith Lia.

#[local] Open Scope Z_scope.

(** ** One operation of a batch *)

Inductive PutOperationState :=
| PENDING | MASTER_FAILED | TRANSFER_FAILED | FINALIZE_FAILED | SUCCESS.

#[export] Instance PutOperationState_eq_dec : EqDecision PutOperationState.
Proof. solve_decision. Defined.

Record PendingTransferRecord := MkPending { pt_type : ReplicaType; pt_future : TransferFuture }.

#[export] Instance PendingTransferRecord_eq_dec : EqDecision PendingTransferRecord.
Proof. solve_decision. Defined.

Record PutOperation := MkOp {
  op_key : ObjectKey;
  op_slices : list Slice;
  op_batched_slices : list (list Slice);
  op_state : PutOperationState;
  op_result : expected unit;
  op_replicas : list Descriptor;
  pending_transfers : list PendingTransferRecord;
  requested_memory_replicas : Z;
  requested_nof_replicas : Z;
  transfer_summary : ReplicaTransferSummary;
  failure_context : option string }.

Definition new_op (k : ObjectKey) (s : list Slice) : PutOperation :=
  MkOp k s [] PENDING (Err INTERNAL_ERROR) [] [] 0 0 empty_summary None.

(** Field updates. *)
Definition set_state st r ctx (op : PutOperation) : PutOperation :=
  MkOp (op_key op) (op_slices op) (op_batched_slices op) st r (op_replicas op)
    (pending_transfers op) (requested_memory_replicas op) (requested_nof_replicas op)
    (transfer_summary op) ctx.
Definition set_context ctx (op : PutOperation) : PutOperation :=
  set_state (op_state op) (op_result op) ctx op.
Definition set_replicas rs (op : PutOperation) : PutOperation :=
  MkOp (op_key op) (op_slices op) (op_batched_slices op) (op_state op) (op_result op) rs
    (pending_transfers op) (requested_memory_replicas op) (requested_nof_replicas op)
    (transfer_summary op) (failure_context op).
Definition set_transfers pts s (op : PutOperation) : PutOperation :=
  MkOp (op_key op) (op_slices op) (op_batched_slices op) (op_state op) (op_result op)
    (op_replicas op) pts (requested_memory_replicas op) (requested_nof_replicas op)
    s (failure_context op).
Definition set_summary s (op : PutOperation) : PutOperation :=
  set_transfers (pending_transfers op) s op.
Definition set_batched bs (op : PutOperation) : PutOperation :=
  MkOp (op_key op) (op_slices op) bs (op_state op) (op_result op)
    (op_replicas op) (pending_transfers op) (requested_memory_replicas op)
    (requested_nof_replicas op) (transfer_summary op) (failure_context op).

Definition SetSuccess (op : PutOperation) : PutOperation := set_state SUCCESS (Ok tt) None op.

Definition SetTerminalError (e : ErrorCode) (terminal_state : PutOperationState)
    (context : string) (op : PutOperation) : PutOperation :=
  set_state terminal_state (Err e)
    (if str_empty context then failure_context op else Some context) op.

Definition AppendFailureContext (context : string) (op : PutOperation) : PutOperation :=
  if str_empty context then op
  else
    match failure_context op with
    | None => set_context (Some context) op
    | Some old => set_context (Some (old +:+ "; " +:+ context)%string) op
    end.

Definition InitializeRequestedReplicas (config : ReplicateConfig) (op : PutOperation)
  : PutOperation :=
  MkOp (op_key op) (op_slices op) (op_batched_slices op) (op_state op) (op_result op)
    (op_replicas op) (pending_transfers op) (replica_num config) (nof_replica_num config)
    (transfer_summary op) (failure_context op).

Definition RecordAllocatedReplicas (op : PutOperation) : PutOperation :=
  set_summary (fold_left RecordAllocatedReplica (op_replicas op) empty_summary) op.

Definition IsResolved (op : PutOperation) : bool := negb (bool_decide (op_state op = PENDING)).

Definition IsSuccessful (op : PutOperation) : bool :=
  bool_decide (op_state op = SUCCESS) && has_value (op_result op).

(** [default_config] is the default-constructed [ReplicateConfig]. *)
Definition ToReplicateConfig (default_config : ReplicateConfig) (op : PutOperation)
  : ReplicateConfig :=
  with_replica_nums (requested_memory_replicas op) (requested_nof_replicas op) default_config.

(** [batched_slices] has one entry per key; the code reads no other. *)
Definition CreatePutOperations (keys : list ObjectKey) (batched_slices : list (list Slice))
  : list PutOperation :=
  imap (λ i k, new_op k (default [] (batched_slices !! i))) keys.

Section Batch.
Context `{!MasterClient, !TransferSubmitter, !HotCache, !StorageBackend, !Clock}.
Context (DetermineReplicaWriteMode : ReplicateConfig → ReplicaWriteMode).
Context (toString : ErrorCode → string).
Context (default_config : ReplicateConfig).
Context (c : Client).

Definition SetError (e : ErrorCode) (context : string) (op : PutOperation) : PutOperation :=
  set_state
    (match op_replicas op, pending_transfers op with
     | [], _ => MASTER_FAILED
     | _, [] => TRANSFER_FAILED
     | _, _ => FINALIZE_FAILED
     end)
    (Err e)
    (if str_empty context then failure_context op
     else Some (toString e +:+ ": " +:+ context +:+ "; " +:+ default "" (failure_context op))%string)
    op.

(** ** Start *)

Definition start_put_response (config : ReplicateConfig) (op : PutOperation)
    (response : expected (list Descriptor)) : PutOperation :=
  let op := InitializeRequestedReplicas config op in
  match response with
  | Err e => SetTerminalError e MASTER_FAILED "Master failed to start put operation" op
  | Ok rs =>
      let op := RecordAllocatedReplicas (set_replicas rs op) in
      if HasExpectedReplicaAllocation DetermineReplicaWriteMode config (transfer_summary op)
      then op
      else SetTerminalError NO_AVAILABLE_HANDLE MASTER_FAILED
             "Allocated replicas do not satisfy requested replica policy" op
  end.

Definition StartBatchPut (ops : list PutOperation) (config : ReplicateConfig)
  : io (list PutOperation) :=
  when (has_hot_cache c) (cache_do (RemoveHotKeys (op_key <$> ops))) ;;;
  let! start_responses :=
    master_batch_put_start (op_key <$> ops) ((λ op, slice_size <$> op_slices op) <$> ops) config in
  if negb (length start_responses =? length ops)%nat
  then ret (SetError RPC_FAIL "BatchPutStart response size mismatch" <$> ops)
  else ret (zip_with (start_put_response config) ops start_responses).

Definition start_upsert_response (op : PutOperation) (response : expected (list Descriptor))
  : PutOperation :=
  match response with
  | Err e => SetError e "Master failed to start upsert operation" op
  | Ok rs => set_replicas rs op
  end.

Definition StartBatchUpsert (ops : list PutOperation) (config : ReplicateConfig)
  : io (list PutOperation) :=
  when (has_hot_cache c) (cache_do (RemoveHotKeys (op_key <$> ops))) ;;;
  let! start_responses :=
    master_batch_upsert_start (op_key <$> ops) ((λ op, slice_size <$> op_slices op) <$> ops)
      config in
  if negb (length start_responses =? length ops)%nat
  then ret (SetError RPC_FAIL "BatchUpsertStart response size mismatch" <$> ops)
  else ret (zip_with start_upsert_response ops start_responses).

(** ** Transfers *)

Definition submit_replica (op : PutOperation) (ir : nat * Descriptor) : io PutOperation :=
  let '(replica_idx, replica) := ir in
  if needs_transfer replica then
    let! submit_result := transfer_submit replica (op_slices op) WRITE in
    match submit_result with
    | None =>
        ret (AppendFailureContext
               ("Failed to submit transfer for replica " +:+ to_string (Z.of_nat replica_idx))%string
               (set_summary (RecordFailure (transfer_summary op) (replica_type_of replica)
                               TRANSFER_FAIL) op))
    | Some f =>
        ret (set_transfers (pending_transfers op ++ [MkPending (replica_type_of replica) f])
               (transfer_summary op) op)
    end
  else ret op.

Definition submit_op (op : PutOperation) : io PutOperation :=
  if IsResolved op then ret op
  else
    match op_replicas op with
    | [] => ret (SetTerminalError INTERNAL_ERROR MASTER_FAILED
                   "No replicas available for transfer" op)
    | rs =>
        put_disk_replica c (op_key op) (op_slices op) rs ;;;
        mfold submit_replica op (indexed rs)
    end.

Definition SubmitTransfers (ops : list PutOperation) : io (list PutOperation) :=
  if negb (has_transfer_submitter c)
  then ret (SetTerminalError INVALID_PARAMS TRANSFER_FAILED
              "TransferSubmitter not initialized" <$> ops)
  else mmap submit_op ops.

Definition wait_transfer (op : PutOperation) (ip : nat * PendingTransferRecord)
  : io PutOperation :=
  let '(i, p) := ip in
  let! transfer_result := future_get (pt_future p) in
  if bool_decide (transfer_result = OK)
  then ret (set_summary (RecordSuccess (transfer_summary op) (pt_type p)) op)
  else ret (AppendFailureContext ("Transfer " +:+ to_string (Z.of_nat i) +:+ " failed")%string
              (set_summary (RecordFailure (transfer_summary op) (pt_type p) transfer_result) op)).

Definition wait_op (op : PutOperation) : io PutOperation :=
  if IsResolved op then ret op
  else mfold wait_transfer op (indexed (pending_transfers op)).

Definition WaitForTransfers (ops : list PutOperation) : io (list PutOperation) :=
  mmap wait_op ops.

(** ** Finalization of a batch put *)

(** What [FinalizeBatchPut] keeps per operation: entry [i] of its vectors
    [ops], [pending_finalize_actions], [should_succeed], [terminal_errors] and
    [finalize_rpc_errors]. *)
Record FinalizeSlot := MkSlot {
  slot_op : PutOperation;
  pending_finalize_actions : nat;
  should_succeed : bool;
  terminal_error : ErrorCode;
  finalize_rpc_error : option ErrorCode }.

Definition with_rpc_error (e : ErrorCode) (s : FinalizeSlot) : FinalizeSlot :=
  MkSlot (slot_op s) (pending_finalize_actions s) (should_succeed s) (terminal_error s) (Some e).

(** The six groups, by action (end or revoke) and replica type; an entry is a
    key and the index of its operation. *)
Definition BatchFinalizeGroups : Type := bool → ReplicaType → list (ObjectKey * nat).

Definition no_groups : BatchFinalizeGroups := λ _ _, [].

Definition add_group_entry (is_end : bool) (t : ReplicaType) (entry : ObjectKey * nat)
    (g : BatchFinalizeGroups) : BatchFinalizeGroups := λ e' t',
  if bool_decide (e' = is_end ∧ t' = t) then g e' t' ++ [entry] else g e' t'.

Definition add_finalize_action (replica_type : option ReplicaType) (is_end : bool) (index : nat)
    (sg : FinalizeSlot * BatchFinalizeGroups) : FinalizeSlot * BatchFinalizeGroups :=
  let '(s, g) := sg in
  match replica_type with
  | None => (s, g)
  | Some (DISK | LOCAL_DISK) => (with_rpc_error INVALID_PARAMS s, g)
  | Some t =>
      (MkSlot (slot_op s) (S (pending_finalize_actions s)) (should_succeed s) (terminal_error s)
         (finalize_rpc_error s),
       add_group_entry is_end t (op_key (slot_op s), index) g)
  end.

Definition complete_finalize_action (s : FinalizeSlot) : FinalizeSlot :=
  MkSlot (slot_op s) (pred (pending_finalize_actions s)) (should_succeed s) (terminal_error s)
    (finalize_rpc_error s).

(** Body of the first loop. *)
Definition collect_actions (index : nat) (op : PutOperation) (g : BatchFinalizeGroups)
  : FinalizeSlot * BatchFinalizeGroups :=
  if IsResolved op then
    if negb (IsSuccessful op) && negb (bool_decide (op_replicas op = []))
    then
      add_finalize_action (Some ALL) false index
        (MkSlot op 0 false
           (match op_result op with Ok _ => INTERNAL_ERROR | Err e => e end) None, g)
    else (MkSlot op 0 false OK None, g)
  else if bool_decide (op_replicas op = [])
  then (MkSlot (SetTerminalError INTERNAL_ERROR MASTER_FAILED
                  "Operation has no replicas to finalize" op) 0 false OK None, g)
  else
    let decision := DetermineFinalizeDecision DetermineReplicaWriteMode
                      (ToReplicateConfig default_config op) (transfer_summary op) in
    add_finalize_action (revoke_type decision) false index
      (add_finalize_action (end_type decision) true index
         (MkSlot op 0 (success decision) (error decision) None, g)).

Definition collect_step (acc : list FinalizeSlot * BatchFinalizeGroups) (io : nat * PutOperation)
  : list FinalizeSlot * BatchFinalizeGroups :=
  let '(slots, g) := acc in
  let '(slot, g') := collect_actions io.1 io.2 g in
  (slots ++ [slot], g').

Definition finalize_call (is_end : bool) (keys : list ObjectKey) (t : ReplicaType)
  : io (list (expected unit)) :=
  if is_end then master_batch_put_end keys t else master_batch_put_revoke keys t.

(** One response of a group, for the operation at index [ki.2]. *)
Definition apply_response (slots : list FinalizeSlot)
    (kr : (ObjectKey * nat) * expected unit) : list FinalizeSlot :=
  let '((_, idx), response) := kr in
  alter (λ s, complete_finalize_action
                (match response with Ok _ => s | Err e => with_rpc_error e s end)) idx slots.

(** [process_end_group] and [process_revoke_group]. *)
Definition process_group (g : BatchFinalizeGroups) (slots : list FinalizeSlot)
    (action : bool * ReplicaType) : io (list FinalizeSlot) :=
  let '(is_end, t) := action in
  let group := g is_end t in
  if bool_decide (group = []) then ret slots
  else
    let! responses := finalize_call is_end group.*1 t in
    if negb (length responses =? length group)%nat
    then ret (fold_left apply_response (zip group (replicate (length group) (Err RPC_FAIL))) slots)
    else ret (fold_left apply_response (zip group responses) slots).

Definition group_order : list (bool * ReplicaType) :=
  [(true, ALL); (true, MEMORY); (true, NOF_SSD); (false, ALL); (false, MEMORY); (false, NOF_SSD)].

Definition append_finalize_error_context (s : FinalizeSlot) (op : PutOperation) : PutOperation :=
  let op := match finalize_rpc_error s with
            | Some e => AppendFailureContext
                ("Batch finalization RPC failed: " +:+ toString e)%string op
            | None => op
            end in
  if (pending_finalize_actions s =? 0)%nat then op
  else AppendFailureContext "Operation has unfinished finalize actions" op.

Definition transfer_failed (e : ErrorCode) (op : PutOperation) : PutOperation :=
  SetTerminalError e TRANSFER_FAILED
    (default "Replica transfer failed before finalize" (failure_context op)) op.

(** Body of the last loop. *)
Definition conclude (s : FinalizeSlot) : PutOperation :=
  let op := slot_op s in
  if IsResolved op then
    if IsSuccessful op then op else append_finalize_error_context s op
  else if (match finalize_rpc_error s with Some _ => true | None => false end) ||
          negb (pending_finalize_actions s =? 0)%nat
  then
    if negb (should_succeed s) && negb (bool_decide (terminal_error s = OK))
    then transfer_failed (terminal_error s) (append_finalize_error_context s op)
    else
      match finalize_rpc_error s with
      | Some e => SetTerminalError e FINALIZE_FAILED "Batch finalization RPC failed" op
      | None => SetTerminalError INTERNAL_ERROR FINALIZE_FAILED
                  "Operation has unfinished finalize actions" op
      end
  else if should_succeed s then SetSuccess op
  else transfer_failed (terminal_error s) op.

Definition FinalizeBatchPut (ops : list PutOperation) : io (list PutOperation) :=
  let '(slots, g) := fold_left collect_step (indexed ops) ([], no_groups) in
  let! slots := mfold (process_group g) slots group_order in
  ret (conclude <$> slots).

(** ** Finalization of a batch upsert *)

(** Keys and indices of the operations to end and to revoke. *)
Definition upsert_to_end (op : PutOperation) : bool :=
  negb (IsResolved op) && negb (bool_decide (op_replicas op = [])) &&
  negb (bool_decide (pending_transfers op = [])).

Definition upsert_to_revoke (op : PutOperation) : bool :=
  negb (upsert_to_end op) &&
  negb (bool_decide (op_state op = PENDING)) && negb (bool_decide (op_replicas op = [])).

Definition select_ops (p : PutOperation → bool) (ops : list PutOperation)
  : list (ObjectKey * nat) :=
  omap (λ io : nat * PutOperation, if p io.2 then Some (op_key io.2, io.1) else None)
    (indexed ops).

Definition upsert_end_response (ops : list PutOperation)
    (kr : (ObjectKey * nat) * expected unit) : list PutOperation :=
  let '((_, idx), response) := kr in
  alter (match response with
         | Ok _ => SetSuccess
         | Err e => SetError e "BatchUpsertEnd failed"
         end) idx ops.

Definition upsert_revoke_response (ops : list PutOperation)
    (kr : (ObjectKey * nat) * expected unit) : list PutOperation :=
  let '((_, idx), response) := kr in
  match response with
  | Ok _ => ops
  | Err _ =>
      alter (λ op, set_context
        (Some (default "unknown error" (failure_context op) +:+ "; revoke also failed")%string) op)
        idx ops
  end.

Definition upsert_size_mismatch (context : string) (ops : list PutOperation)
    (ki : ObjectKey * nat) : list PutOperation :=
  alter (SetError RPC_FAIL context) ki.2 ops.

Definition finalized (kr : (ObjectKey * nat) * expected unit) : option ObjectKey :=
  match kr.2 with Ok _ => Some kr.1.1 | Err _ => None end.

(** Ends the successful operations; also returns the finalized keys. *)
Definition end_upserts (ops : list PutOperation) : io (list PutOperation * list ObjectKey) :=
  let successful := select_ops upsert_to_end ops in
  if bool_decide (successful = []) then ret (ops, [])
  else
    let! responses := master_batch_upsert_end successful.*1 in
    if negb (length responses =? length successful)%nat
    then ret (fold_left (upsert_size_mismatch "BatchUpsertEnd response size mismatch")
                successful ops, [])
    else ret (fold_left upsert_end_response (zip successful responses) ops,
              omap finalized (zip successful responses)).

(** [failed] was selected before the end calls. *)
Definition revoke_upserts (failed : list (ObjectKey * nat)) (ops : list PutOperation)
  : io (list PutOperation) :=
  if bool_decide (failed = []) then ret ops
  else
    let! responses := master_batch_upsert_revoke failed.*1 in
    if negb (length responses =? length failed)%nat
    then ret (fold_left (upsert_size_mismatch "BatchUpsertRevoke response size mismatch")
                failed ops)
    else ret (fold_left upsert_revoke_response (zip failed responses) ops).

Definition resolve_leftover (op : PutOperation) : PutOperation :=
  if IsResolved op then op
  else SetError INTERNAL_ERROR "Operation not resolved after finalization" op.

Definition FinalizeBatchUpsert (ops : list PutOperation) : io (list PutOperation) :=
  let failed := select_ops upsert_to_revoke ops in
  let! ended := end_upserts ops in
  when (has_hot_cache c && negb (bool_decide (ended.2 = [])))
    (cache_do (RemoveHotKeys ended.2)) ;;;
  let! ops := revoke_upserts failed ended.1 in
  ret (resolve_leftover <$> ops).

(** ** The batch operations *)

Definition collect_result (op : PutOperation) : expected unit :=
  match op_result op with
  | Err OBJECT_ALREADY_EXISTS => Ok tt
  | r => r
  end.

Definition CollectResults (ops : list PutOperation) : list (expected unit) :=
  collect_result <$> ops.

(** The common pipeline, with all operations at the end. *)
Definition batch_put_ops (ops : list PutOperation) (config : ReplicateConfig)
  : io (list PutOperation) :=
  let! ops := StartBatchPut ops config in
  let! ops := SubmitTransfers ops in
  let! ops := WaitForTransfers ops in
  FinalizeBatchPut ops.

Definition batch_upsert_ops (ops : list PutOperation) (config : ReplicateConfig)
  : io (list PutOperation) :=
  let! ops := StartBatchUpsert ops config in
  let! ops := SubmitTransfers ops in
  let! ops := WaitForTransfers ops in
  FinalizeBatchUpsert ops.

Definition BatchUpsert (keys : list ObjectKey) (batched_slices : list (list Slice))
    (config : ReplicateConfig) : io (list (expected unit)) :=
  let client_cfg := upsert_config c config in
  if prefer_alloc_in_same_node client_cfg
  then ret (replicate (length keys) (Err INVALID_PARAMS))
  else
    let! ops := batch_upsert_ops (CreatePutOperations keys batched_slices) client_cfg in
    ret (CollectResults ops).

(** ** The same-node variant *)

(** The iteration order of the [std::unordered_map] [seg_to_ops]. *)
Context (iteration : gmap string PutOperation → list (string * PutOperation)).

Definition first_memory_buffer (op : PutOperation) : option BufferDescriptor :=
  match op_replicas op with
  | MkDescriptor _ (MemoryReplica b) :: _ => Some b
  | _ => None
  end.

(** Entry of one operation into the merged operation of its segment. *)
Definition merge_into_segment (seg : string) (op : PutOperation) (replica : Descriptor)
    (m : gmap string PutOperation) : gmap string PutOperation :=
  let base := default (new_op (op_key op) (op_slices op)) (m !! seg) in
  <[seg := set_replicas (op_replicas base ++ [replica])
             (set_batched (op_batched_slices base ++ [op_slices op]) base)]> m.

Definition group_by_segment (acc : list PutOperation * gmap string PutOperation)
    (op : PutOperation) : list PutOperation * gmap string PutOperation :=
  let '(ops, m) := acc in
  if IsResolved op then (ops ++ [op], m)
  else
    match op_replicas op with
    | [] => (ops ++ [SetError INTERNAL_ERROR "No replicas available for transfer" op], m)
    | MkDescriptor st (MemoryReplica b) :: _ =>
        if size_ b =? 0
        then (ops ++ [SetError INVALID_PARAMS "buffer size is 0." op], m)
        else (ops ++ [op],
              merge_into_segment (transport_endpoint_ b) op (MkDescriptor st (MemoryReplica b)) m)
    | _ :: _ => (ops ++ [SetError INVALID_PARAMS "only memory is supported." op], m)
    end.

(** One [submit_batch] per segment. *)
Definition submit_segment (seg_op : string * PutOperation) : io PutOperation :=
  let op := seg_op.2 in
  let merged := set_summary (MkSummary 1 0 0 0 0 0 OK)
                  (set_replicas (op_replicas op) (new_op (op_key op) (op_slices op))) in
  let! submit_result := transfer_submit_batch (op_replicas op) (op_batched_slices op) WRITE in
  match submit_result with
  | Some f => ret (set_transfers [MkPending MEMORY f] (transfer_summary merged) merged)
  | None =>
      ret (set_context (Some "Failed to submit batch transfer")
             (set_transfers [] (RecordFailure (transfer_summary merged) MEMORY TRANSFER_FAIL)
                merged))
  end.

Definition store_segment (m : gmap string PutOperation) (op : PutOperation)
  : gmap string PutOperation :=
  match first_memory_buffer op with
  | Some b => alter (λ seg_op, set_context (failure_context op)
                                 (set_summary (transfer_summary op) seg_op))
                (transport_endpoint_ b) m
  | None => m
  end.

(** The outcome of its segment becomes the outcome of the operation. *)
Definition load_segment (m : gmap string PutOperation) (op : PutOperation) : PutOperation :=
  if IsResolved op then op
  else
    match b ← first_memory_buffer op; m !! transport_endpoint_ b with
    | Some seg_op =>
        let s := transfer_summary op in
        let ss := transfer_summary seg_op in
        set_context (failure_context seg_op)
          (set_summary
             (MkSummary (allocated_memory_replicas s) (allocated_nof_replicas s)
                (if 0 <? successful_memory_transfers ss then 1 else 0)
                (successful_nof_transfers s)
                (if 0 <? failed_memory_transfers ss then 1 else 0)
                (failed_nof_transfers s) (first_error ss)) op)
    | None => op
    end.

Definition same_node_ops (ops : list PutOperation) : io (list PutOperation) :=
  let '(ops, seg_to_ops) := fold_left group_by_segment ops ([], ∅) in
  let! merged_ops := mmap submit_segment (iteration seg_to_ops) in
  let! merged_ops := WaitForTransfers merged_ops in
  let seg_to_ops := fold_left store_segment merged_ops seg_to_ops in
  FinalizeBatchPut (load_segment seg_to_ops <$> ops).

Definition BatchPutWhenPreferSameNode (ops : list PutOperation) : io (list (expected unit)) :=
  let! ops := same_node_ops ops in
  ret (CollectResults ops).

Definition BatchPut (keys : list ObjectKey) (batched_slices : list (list Slice))
    (config : ReplicateConfig) : io (list (expected unit)) :=
  let client_cfg := put_config c config in
  let ops := CreatePutOperations keys batched_slices in
  if prefer_alloc_in_same_node client_cfg then
    if (0 <? nof_replica_num client_cfg) || negb (replica_num client_cfg =? 1)
    then ret (replicate (length keys) (Err INVALID_PARAMS))
    else
      let! ops := StartBatchPut ops client_cfg in
      BatchPutWhenPreferSameNode ops
  else
    let! ops := batch_put_ops ops client_cfg in
    ret (CollectResults ops).
End Batch.
