(* ===== verification/BatchPutFacts.v ===== *)
(** * Correctness of the batch write operations

    Every operation of a batch is resolved, its result says what happened,
    and every allocated object is ended or revoked on the master. *)

From S2P Require Import Prelude CxxString StoreTypes ReplicaPolicy Samples PutPath BatchPut.
From stdpp Require Import base strings list sets gmap fin_maps.
From Stdlib Require Import ZArith Lia.

#[local] Open Scope Z_scope.
#[local] Set Default Proof Using "Type".

(** ** Fields of an operation *)

Lemma IsResolved_false op : IsResolved op = false ↔ op_state op = PENDING.
Proof. unfold IsResolved. case_bool_decide; simpl; naive_solver. Qed.

Lemma AppendFailureContext_fields ctx op :
  op_key (AppendFailureContext ctx op) = op_key op ∧
  op_state (AppendFailureContext ctx op) = op_state op ∧
  op_result (AppendFailureContext ctx op) = op_result op.
Proof. unfold AppendFailureContext. by repeat case_match. Qed.

(** ** Grouping *)

Section Finalize.
Context `{!MasterClient, !TransferSubmitter, !HotCache, !StorageBackend, !Clock}.
Context (DetermineReplicaWriteMode : ReplicateConfig → ReplicaWriteMode).
Context (toString : ErrorCode → string).
Context (default_config : ReplicateConfig).
Context (c : Client).

#[local] Abbreviation decision_of op :=
  (DetermineFinalizeDecision DetermineReplicaWriteMode
     (ToReplicateConfig default_config op) (transfer_summary op)).

Definition action_of (is_end : bool) (o : option ReplicaType) : list (bool * ReplicaType) :=
  match o with Some t => [(is_end, t)] | None => [] end.

(** The end and revoke actions an operation needs. *)
Definition actions (op : PutOperation) : list (bool * ReplicaType) :=
  if IsResolved op then
    if negb (IsSuccessful op) && negb (bool_decide (op_replicas op = []))
    then [(false, ALL)] else []
  else if bool_decide (op_replicas op = []) then []
  else action_of true (end_type (decision_of op)) ++ action_of false (revoke_type (decision_of op)).

(** What the first loop leaves for an operation. *)
Definition initial_slot (op : PutOperation) : FinalizeSlot :=
  (collect_actions DetermineReplicaWriteMode default_config 0 op no_groups).1.

(** The entry of operation [i] in the group of action [a]. *)
Definition group_entry (a : bool * ReplicaType) (iop : nat * PutOperation)
  : option (ObjectKey * nat) :=
  if bool_decide (a ∈ actions iop.2) then Some (op_key iop.2, iop.1) else None.

Definition group_of (ops : list PutOperation) (a : bool * ReplicaType) : list (ObjectKey * nat) :=
  omap (group_entry a) (indexed ops).

Lemma decision_type_cases op :
  let d := decision_of op in
  (end_type d = Some ALL ∧ revoke_type d = None) ∨
  (end_type d = None ∧ revoke_type d = Some ALL) ∨
  (end_type d = Some MEMORY ∧ revoke_type d = Some NOF_SSD) ∨
  (end_type d = Some NOF_SSD ∧ revoke_type d = Some MEMORY).
Proof. unfold DetermineFinalizeDecision. repeat case_match; simpl; tauto. Qed.

Lemma actions_cases op :
  actions op = [] ∨ actions op = [(true, ALL)] ∨ actions op = [(false, ALL)] ∨
  actions op = [(true, MEMORY); (false, NOF_SSD)] ∨
  actions op = [(true, NOF_SSD); (false, MEMORY)].
Proof.
  unfold actions. case_match; [case_match; tauto|]. case_match; [tauto|].
  destruct (decision_type_cases op) as [[-> ->]|[[-> ->]|[[-> ->]|[-> ->]]]]; simpl; tauto.
Qed.

Lemma collect_actions_spec i op g :
  (collect_actions DetermineReplicaWriteMode default_config i op g).1 = initial_slot op ∧
  ∀ e t, (collect_actions DetermineReplicaWriteMode default_config i op g).2 e t =
         g e t ++ option_list (group_entry (e, t) (i, op)).
Proof.
  unfold initial_slot, collect_actions, group_entry, actions. cbn [fst snd].
  destruct (IsResolved op).
  { destruct (negb (IsSuccessful op) && _); simpl; (split; [done|]); intros e t.
    - unfold add_group_entry. destruct e, t; simpl; by rewrite ?app_nil_r.
    - by rewrite app_nil_r. }
  case_bool_decide as Hr; simpl.
  { split; [done|]. intros e t. by rewrite app_nil_r. }
  destruct (decision_type_cases op) as [[-> ->]|[[-> ->]|[[-> ->]|[-> ->]]]];
    (split; [done|]); intros e t; unfold add_group_entry;
    destruct e, t; simpl; by rewrite ?app_nil_r.
Qed.

Lemma collect_fold l slots g :
  let r := fold_left (collect_step DetermineReplicaWriteMode default_config) l (slots, g) in
  r.1 = slots ++ (initial_slot ∘ snd <$> l) ∧
  ∀ e t, r.2 e t = g e t ++ omap (group_entry (e, t)) l.
Proof.
  revert slots g. induction l as [|[i op] l IH]; intros slots g.
  { simpl. split; [by rewrite app_nil_r|]. intros. by rewrite app_nil_r. }
  cbn [fold_left collect_step fst snd].
  destruct (collect_actions _ _ i op g) as [slot g'] eqn:E.
  destruct (collect_actions_spec i op g) as [Hs Hg]. rewrite E in Hs, Hg. simpl in Hs, Hg.
  destruct (IH (slots ++ [slot]) g') as [IH1 IH2]. split.
  - rewrite IH1, <- app_assoc. by rewrite Hs.
  - intros e t. rewrite IH2, Hg, <- app_assoc. f_equal.
    cbn [omap list_omap]. by destruct (group_entry (e, t) (i, op)).
Qed.

Lemma collect_groups ops :
  let r := fold_left (collect_step DetermineReplicaWriteMode default_config) (indexed ops)
             ([], no_groups) in
  r.1 = initial_slot <$> ops ∧ ∀ e t, r.2 e t = group_of ops (e, t).
Proof.
  destruct (collect_fold (indexed ops) [] no_groups) as [Hc1 Hc2]. split; [|done].
  rewrite Hc1. simpl. rewrite list_fmap_compose. f_equal.
  unfold indexed. clear. apply list_eq. intros i.
  by rewrite list_lookup_fmap, list_lookup_imap; destruct (ops !! i).
Qed.

Lemma initial_slot_pending op :
  pending_finalize_actions (initial_slot op) = length (actions op) ∧
  finalize_rpc_error (initial_slot op) = None ∧
  op_key (slot_op (initial_slot op)) = op_key op.
Proof.
  unfold initial_slot, collect_actions, actions.
  destruct (IsResolved op); [by case_match|]. case_bool_decide; [done|].
  by destruct (decision_type_cases op) as [[-> ->]|[[-> ->]|[[-> ->]|[-> ->]]]].
Qed.

(** Membership and uniqueness in a group. *)
Lemma elem_of_group ops a k i :
  (k, i) ∈ group_of ops a ↔ ∃ op, ops !! i = Some op ∧ op_key op = k ∧ a ∈ actions op.
Proof.
  unfold group_of, group_entry. rewrite list_elem_of_omap. split.
  - intros ([j op] & Hin & Hsome). case_bool_decide; [|done]. simplify_eq/=.
    apply elem_of_indexed in Hin. eauto.
  - intros (op & Hi & <- & Ha). exists (i, op). split.
    + by apply elem_of_indexed.
    + by rewrite bool_decide_true.
Qed.

Lemma group_of_nodup ops a : NoDup (group_of ops a).*2.
Proof.
  apply omap_indexed_nodup. intros i op y. unfold group_entry.
  case_bool_decide; by intros [= <-].
Qed.

(** ** Answers of the master *)

Definition finalize_event (a : bool * ReplicaType) (keys : list ObjectKey)
    (rs : list (expected unit)) : event :=
  if a.1 then EMaster (BatchPutEnd keys a.2 rs) else EMaster (BatchPutRevoke keys a.2 rs).

(** Action [a] for [key] was sent to the master. *)
Definition asked (evs : list event) (a : bool * ReplicaType) (key : ObjectKey) : Prop :=
  ∃ keys rs, finalize_event a keys rs ∈ evs ∧ key ∈ keys.

(** Action [a] for [key] was sent and the master answered [r] to it. *)
Definition answered (evs : list event) (a : bool * ReplicaType) (key : ObjectKey)
    (r : expected unit) : Prop :=
  ∃ keys rs j, finalize_event a keys rs ∈ evs ∧ length rs = length keys ∧
    keys !! j = Some key ∧ rs !! j = Some r.

Lemma answered_mono evs evs' a k r : evs ⊆ evs' → answered evs a k r → answered evs' a k r.
Proof. intros Hs (ks & rs & j & Hin & ?). exists ks, rs, j. split; [by apply Hs|done]. Qed.

Lemma asked_mono evs evs' a k : evs ⊆ evs' → asked evs a k → asked evs' a k.
Proof. intros Hs (ks & rs & Hin & ?). exists ks, rs. split; [by apply Hs|done]. Qed.

Lemma answered_asked evs a k r : answered evs a k r → asked evs a k.
Proof.
  intros (ks & rs & j & ? & _ & Hj & _). exists ks, rs. split; [done|].
  by eapply list_elem_of_lookup_2.
Qed.

(** Effect of one answer on the bookkeeping of an operation. *)
Definition apply_answer (r : expected unit) (s : FinalizeSlot) : FinalizeSlot :=
  complete_finalize_action (match r with Ok _ => s | Err e => with_rpc_error e s end).

Lemma apply_response_alter l slots :
  fold_left apply_response l slots =
  fold_left (λ xs b, alter (apply_answer b.2) b.1.2 xs) l slots.
Proof.
  clear default_config DetermineReplicaWriteMode.
  revert slots. induction l as [|[[k j] r] l IH]; intros slots; [done|]. apply IH.
Qed.

Lemma apply_responses_lookup l slots i :
  NoDup l.*1.*2 →
  (i ∉ l.*1.*2 → fold_left apply_response l slots !! i = slots !! i) ∧
  (∀ k r, ((k, i), r) ∈ l → fold_left apply_response l slots !! i = apply_answer r <$> slots !! i).
Proof.
  clear default_config DetermineReplicaWriteMode.
  rewrite apply_response_alter, <- list_fmap_compose. intros Hnd.
  destruct (fold_alter_lookup (λ b : (ObjectKey * nat) * expected unit, b.1.2)
    (λ b, apply_answer b.2) l slots i) as [Hout Hin].
  { exact Hnd. }
  split.
  - exact Hout.
  - intros k r Hkr. by apply (Hin _ Hkr).
Qed.

Lemma apply_responses_length l slots :
  length (fold_left apply_response l slots) = length slots.
Proof. rewrite apply_response_alter. apply fold_alter_length. Qed.

(** One group, seen from one operation. *)
Definition group_step (op : PutOperation) (a : bool * ReplicaType) (evs : list event)
    (s s' : FinalizeSlot) : Prop :=
  ((a ∉ actions op) ∧ s' = s) ∨
  (a ∈ actions op ∧ asked evs a (op_key op) ∧
   ((∃ r, answered evs a (op_key op) r ∧ s' = apply_answer r s) ∨
    s' = apply_answer (Err RPC_FAIL) s)).

Lemma process_group_step ops g slots a h slots' evs :
  (∀ e t, g e t = group_of ops (e, t)) →
  process_group g slots a h = (slots', evs) →
  (∀ i op s, ops !! i = Some op → slots !! i = Some s →
     ∃ s', slots' !! i = Some s' ∧ group_step op a evs s s') ∧
  Forall (λ e, ∃ rs, e = finalize_event a (group_of ops a).*1 rs) evs ∧
  length slots' = length slots.
Proof.
  intros Hg Hrun. destruct a as [e t]. unfold process_group in Hrun. rewrite Hg in Hrun.
  set (grp := group_of ops (e, t)) in *.
  assert (Hmem : ∀ i op, ops !! i = Some op → (e, t) ∈ actions op → (op_key op, i) ∈ grp)
    by (intros i op Hi Ha; apply elem_of_group; eauto).
  assert (Hidx : ∀ i op, ops !! i = Some op → i ∈ grp.*2 → (e, t) ∈ actions op).
  { intros i op Hi ([k j] & -> & Hin)%list_elem_of_fmap. simpl in Hi.
    apply elem_of_group in Hin as (op' & Hop' & _ & Ha). congruence. }
  case_bool_decide as Hempty.
  { apply ret_inv in Hrun as [-> ->]. split; [|by repeat constructor].
    intros i op s Hi Hs. exists s. split; [done|]. left. split; [|done].
    intros Ha. apply (Hmem i op Hi) in Ha. rewrite Hempty in Ha. set_solver. }
  apply bind_inv in Hrun as (rs & e1 & e2 & Hcall & Hrun & ->).
  assert (He1 : e1 = [finalize_event (e, t) grp.*1 rs])
    by (unfold finalize_call in Hcall; destruct e; by apply call_inv in Hcall as [_ ->]).
  assert (Hrs : e2 = [] ∧ ∃ rs', length rs' = length grp ∧
      slots' = fold_left apply_response (zip grp rs') slots ∧
      (rs' = rs ∨ rs' = replicate (length grp) (Err RPC_FAIL))).
  { destruct (Nat.eqb_spec (length rs) (length grp)); simpl in Hrun;
      apply ret_inv in Hrun as [-> ->]; (split; [done|]); eexists; split_and!;
      [|reflexivity|tauto| |reflexivity|tauto]; [done|by rewrite length_replicate]. }
  destruct Hrs as (-> & rs' & Hlen & -> & Hor). rewrite He1, app_nil_r.
  split; [|split; [by repeat constructor; eauto|apply apply_responses_length]].
  intros i op s Hi Hs.
  assert (Hz : (zip grp rs').*1 = grp) by (apply fst_zip; lia).
  destruct (apply_responses_lookup (zip grp rs') slots i) as [Hout Hin].
  { rewrite Hz. apply group_of_nodup. }
  rewrite Hz in Hout. destruct (decide ((e, t) ∈ actions op)) as [Ha|Ha].
  2: { exists s. split; [|by left]. rewrite Hout; [done|]. eauto. }
  pose proof (Hmem i op Hi Ha) as Hk.
  apply list_elem_of_lookup in Hk as [j Hj].
  assert (is_Some (rs' !! j)) as [r Hr]
    by (apply lookup_lt_is_Some; rewrite Hlen; by eapply lookup_lt_Some).
  exists (apply_answer r s). split.
  - rewrite (Hin (op_key op) r); [by rewrite Hs|].
    apply list_elem_of_lookup. exists j. by rewrite lookup_zip_with, Hj; simpl; rewrite Hr.
  - right. split; [done|]. split.
    + exists grp.*1, rs. split; [set_solver|].
      apply list_elem_of_fmap. exists (op_key op, i). split; [done|].
      by eapply list_elem_of_lookup_2.
    + destruct Hor as [-> | ->].
      * left. exists r. split; [|done]. exists grp.*1, rs, j. rewrite length_fmap.
        split; [set_solver|]. split; [done|]. by rewrite list_lookup_fmap, Hj.
      * right. apply lookup_replicate in Hr as [-> _]. done.
Qed.

Definition needs (op : PutOperation) (a : bool * ReplicaType) : bool :=
  bool_decide (a ∈ actions op).

(** The groups of [l], seen from one operation. *)
Definition group_steps (op : PutOperation) (l : list (bool * ReplicaType)) (evs : list event)
    (s s' : FinalizeSlot) : Prop :=
  slot_op s' = slot_op s ∧ should_succeed s' = should_succeed s ∧
  terminal_error s' = terminal_error s ∧
  (pending_finalize_actions s' = pending_finalize_actions s - count (needs op) l)%nat ∧
  (finalize_rpc_error s' = None →
     finalize_rpc_error s = None ∧
     ∀ a, a ∈ l → a ∈ actions op → answered evs a (op_key op) (Ok tt)) ∧
  (∀ a, a ∈ l → a ∈ actions op → asked evs a (op_key op)).

Lemma group_step_steps op a l evs1 evs2 s s1 s2 :
  group_step op a evs1 s s1 → group_steps op l evs2 s1 s2 →
  group_steps op (a :: l) (evs1 ++ evs2) s s2.
Proof.
  intros Hstep (Hop & Hsh & Hte & Hpe & Hok & Hask).
  assert (Hmono : ∀ b, b ∈ l → b ∈ actions op → asked (evs1 ++ evs2) b (op_key op))
    by (intros b Hb Hb'; eapply asked_mono; [|by apply Hask]; set_solver).
  unfold group_steps. rewrite count_cons. unfold needs at 1.
  destruct Hstep as [[Hna ->]|(Ha & Hasked & Hans)].
  - rewrite (bool_decide_false _ Hna).
    split_and!; try done.
    + intros Hn. destruct (Hok Hn) as [? Hall]. split; [done|].
      intros b [->|Hb]%elem_of_cons Hb'; [done|].
      eapply answered_mono; [|by apply Hall]. set_solver.
    + intros b [->|Hb]%elem_of_cons Hb'; [done|auto].
  - rewrite (bool_decide_true _ Ha).
    assert (Hs1 : slot_op s1 = slot_op s ∧ should_succeed s1 = should_succeed s ∧
        terminal_error s1 = terminal_error s ∧
        pending_finalize_actions s1 = pred (pending_finalize_actions s) ∧
        (finalize_rpc_error s1 = None →
         finalize_rpc_error s = None ∧ answered evs1 a (op_key op) (Ok tt))).
    { destruct Hans as [([[]|e] & Hr & ->)| ->]; by split_and!. }
    destruct Hs1 as (Hop1 & Hsh1 & Hte1 & Hpe1 & Hok1).
    split_and!; try congruence.
    + rewrite Hpe, Hpe1. lia.
    + intros Hn. destruct (Hok Hn) as [Hn1 Hall]. destruct (Hok1 Hn1) as [? Hansa].
      split; [done|]. intros b [->|Hb]%elem_of_cons Hb'.
      * eapply answered_mono; [|exact Hansa]. set_solver.
      * eapply answered_mono; [|by apply Hall]. set_solver.
    + intros b [->|Hb]%elem_of_cons Hb'; [|auto].
      eapply asked_mono; [|exact Hasked]. set_solver.
Qed.

Lemma process_groups_steps ops g l slots h slots' evs :
  (∀ e t, g e t = group_of ops (e, t)) →
  mfold (process_group g) slots l h = (slots', evs) →
  (∀ i op s, ops !! i = Some op → slots !! i = Some s →
     ∃ s', slots' !! i = Some s' ∧ group_steps op l evs s s') ∧
  Forall (λ e, ∃ a rs, a ∈ l ∧ e = finalize_event a (group_of ops a).*1 rs) evs ∧
  length slots' = length slots.
Proof.
  intros Hg. revert slots h slots' evs.
  induction l as [|a l IH]; intros slots h slots' evs Hrun; cbn [mfold] in Hrun.
  { apply ret_inv in Hrun as [-> ->]. split; [|by repeat constructor].
    intros i op s _ Hs. exists s. split; [done|].
    unfold group_steps. rewrite count_nil, Nat.sub_0_r. split_and!; set_solver. }
  apply bind_inv in Hrun as (slots1 & e1 & e2 & Hstep & Hrun & ->).
  apply (process_group_step ops) in Hstep as (Hstep & Hev & Hlen); [|done].
  apply IH in Hrun as (Hsteps & Hevs & Hlen').
  split; [|split; [|congruence]].
  - intros i op s Hi Hs. destruct (Hstep i op s Hi Hs) as (s1 & Hs1 & Hg1).
    destruct (Hsteps i op s1 Hi Hs1) as (s2 & Hs2 & Hg2).
    exists s2. split; [done|]. by eapply group_step_steps.
  - apply Forall_app. split.
    + eapply Forall_impl; [exact Hev|]. intros e (rs & ->). exists a, rs. set_solver.
    + eapply Forall_impl; [exact Hevs|]. intros e (b & rs & ? & ->). exists b, rs. set_solver.
Qed.

Lemma needs_all op : count (needs op) group_order = length (actions op).
Proof.
  unfold needs, count, group_order.
  destruct (actions_cases op) as [->|[->|[->|[->| ->]]]]; reflexivity.
Qed.

Lemma actions_ordered op a : a ∈ actions op → a ∈ group_order.
Proof.
  unfold group_order. destruct (actions_cases op) as [->|[->|[->|[->| ->]]]]; set_solver.
Qed.

(** ** What finalization does to one operation *)

(** The operation keeps its identity; it is resolved; it is successful exactly
    when it already was, or the decision was to end it and the master accepted
    all its actions; all its actions were sent. *)
Definition finalize_outcome (evs : list event) (op op' : PutOperation) : Prop :=
  op_key op' = op_key op ∧
  IsResolved op' = true ∧
  (op_state op' = SUCCESS →
     op_state op = SUCCESS ∨
     (op_state op = PENDING ∧ op_replicas op ≠ [] ∧ success (decision_of op) = true ∧
      ∀ a, a ∈ actions op → answered evs a (op_key op) (Ok tt))) ∧
  (∀ a, a ∈ actions op → asked evs a (op_key op)) ∧
  (IsResolved op = true → op_state op' = op_state op ∧ op_result op' = op_result op) ∧
  (op_state op = PENDING → bool_decide (op_state op' = SUCCESS) = has_value (op_result op')).

Lemma append_finalize_error_context_fields s op :
  op_key (append_finalize_error_context toString s op) = op_key op ∧
  op_state (append_finalize_error_context toString s op) = op_state op ∧
  op_result (append_finalize_error_context toString s op) = op_result op.
Proof.
  unfold append_finalize_error_context.
  repeat case_match;
    repeat match goal with
    | |- context [AppendFailureContext ?a ?b] =>
        destruct (AppendFailureContext_fields a b) as (-> & -> & ->)
    end; done.
Qed.

Lemma conclude_resolved s :
  IsResolved (slot_op s) = true →
  op_key (conclude toString s) = op_key (slot_op s) ∧
  op_state (conclude toString s) = op_state (slot_op s) ∧
  op_result (conclude toString s) = op_result (slot_op s).
Proof.
  intros Hr. unfold conclude. rewrite Hr. case_match; [done|].
  apply append_finalize_error_context_fields.
Qed.

Lemma conclude_pending s :
  op_state (slot_op s) = PENDING →
  op_key (conclude toString s) = op_key (slot_op s) ∧
  IsResolved (conclude toString s) = true ∧
  bool_decide (op_state (conclude toString s) = SUCCESS) =
    has_value (op_result (conclude toString s)) ∧
  (op_state (conclude toString s) = SUCCESS →
     finalize_rpc_error s = None ∧ should_succeed s = true).
Proof.
  intros Hp%IsResolved_false. unfold conclude. rewrite Hp.
  pose proof (append_finalize_error_context_fields s (slot_op s)) as (Hk & _ & _).
  destruct (finalize_rpc_error s); simpl; repeat case_match; simpl; by split_and!.
Qed.

Lemma finalize_outcome_of evs op s :
  group_steps op group_order evs (initial_slot op) s →
  finalize_outcome evs op (conclude toString s).
Proof.
  intros (Hop & Hsh & Hte & _ & Hok & Hask).
  assert (Hask' : ∀ a, a ∈ actions op → asked evs a (op_key op))
    by (intros a Ha; apply Hask; [by eapply actions_ordered|done]).
  unfold initial_slot, collect_actions in Hop, Hsh.
  destruct (IsResolved op) eqn:Hr.
  - assert (Hop' : slot_op s = op) by (rewrite Hop; by case_match).
    destruct (conclude_resolved s) as (Hk & Hst & Hre); [by rewrite Hop'|].
    rewrite Hop' in *. unfold finalize_outcome. rewrite Hk, Hre.
    assert (IsResolved (conclude toString s) = true) by (unfold IsResolved in *; by rewrite Hst).
    split_and!; try done; [rewrite Hst; tauto|].
    intros Hp. apply IsResolved_false in Hp. congruence.
  - apply IsResolved_false in Hr as Hp.
    case_bool_decide as Hrs.
    + simpl in Hop. destruct (conclude_resolved s) as (Hk & Hst & Hre); [by rewrite Hop|].
      rewrite Hop in *. simpl in Hk, Hst, Hre.
      unfold finalize_outcome, IsSuccessful. rewrite Hk, Hre, Hst, Hr.
      split_and!; try done. unfold IsResolved. by rewrite Hst.
    + assert (Hini : slot_op s = op ∧ should_succeed s = success (decision_of op)).
      { rewrite Hop, Hsh.
        by destruct (decision_type_cases op) as [[-> ->]|[[-> ->]|[[-> ->]|[-> ->]]]]. }
      destruct Hini as [Hop' Hsh']. rewrite <- Hop' in Hp.
      destruct (conclude_pending s Hp) as (Hk & Hres & Hsu & Hok').
      rewrite Hop' in *. unfold finalize_outcome. split_and!; try done; [|congruence].
      intros Hs. destruct (Hok' Hs) as [Hnone Hsucc]. right. split_and!; try done; [congruence|].
      intros a Ha. apply Hok; [done|by eapply actions_ordered|done].
Qed.

Lemma FinalizeBatchPut_outcome ops h ops' evs :
  FinalizeBatchPut DetermineReplicaWriteMode toString default_config ops h = (ops', evs) →
  length ops' = length ops ∧
  (∀ i op, ops !! i = Some op → ∃ op', ops' !! i = Some op' ∧ finalize_outcome evs op op') ∧
  Forall (λ e, ∃ a rs, e = finalize_event a (group_of ops a).*1 rs) evs.
Proof.
  unfold FinalizeBatchPut. destruct (collect_groups ops) as [Hslots Hg].
  destruct (fold_left _ _ _) as [slots g]. simpl in Hslots, Hg. intros Hrun.
  apply bind_inv in Hrun as (slots' & e1 & e2 & Hrun & Hret & ->).
  apply ret_inv in Hret as [-> ->]. rewrite app_nil_r.
  apply (process_groups_steps ops) in Hrun as (Hsteps & Hev & Hlen); [|done].
  subst slots. rewrite length_fmap in Hlen. split; [by rewrite length_fmap|]. split.
  - intros i op Hi. destruct (Hsteps i op (initial_slot op) Hi) as (s & Hs & Hgs).
    { by rewrite list_lookup_fmap, Hi. }
    exists (conclude toString s). split; [by rewrite list_lookup_fmap, Hs|].
    by apply finalize_outcome_of.
  - eapply Forall_impl; [exact Hev|]. intros e (a & rs & _ & ->). eauto.
Qed.

(** ** Properties of the finalization *)

(** finalizing a batch put leaves no unfinished action behind: the counters
    of outstanding finalize actions are all zero when the results are
    computed, so no operation ever fails with "unfinished finalize actions". *)
Theorem no_unfinished_actions ops g slots h slots' evs i s :
  fold_left (collect_step DetermineReplicaWriteMode default_config) (indexed ops)
    ([], no_groups) = (slots, g) →
  mfold (process_group g) slots group_order h = (slots', evs) →
  slots' !! i = Some s → pending_finalize_actions s = 0%nat.
Proof.
  intros Hcol Hrun Hs. destruct (collect_groups ops) as [Hslots Hg].
  rewrite Hcol in Hslots, Hg. simpl in Hslots, Hg.
  apply (process_groups_steps ops) in Hrun as (Hsteps & _ & Hlen); [|done].
  assert (is_Some (ops !! i)) as [op Hi].
  { apply lookup_lt_is_Some. apply lookup_lt_Some in Hs.
    by rewrite Hlen, Hslots, length_fmap in Hs. }
  destruct (Hsteps i op (initial_slot op) Hi) as (s' & Hs' & Hgs).
  { by rewrite Hslots, list_lookup_fmap, Hi. }
  assert (s' = s) as -> by congruence.
  destruct Hgs as (_ & _ & _ & -> & _ & _).
  rewrite needs_all. destruct (initial_slot_pending op) as (-> & _ & _). lia.
Qed.

Lemma actions_pending op :
  op_state op = PENDING → op_replicas op ≠ [] →
  ∀ t, t = MEMORY ∨ t = NOF_SSD →
    (∃ t', (true, t') ∈ actions op ∧ covers (Some t') t = true) ∧
      (∀ t', (false, t') ∈ actions op → covers (Some t') t = false) ∨
    (∃ t', (false, t') ∈ actions op ∧ covers (Some t') t = true) ∧
      (∀ t', (true, t') ∈ actions op → covers (Some t') t = false).
Proof.
  intros Hp%IsResolved_false Hr t Ht. unfold actions. rewrite Hp, bool_decide_false by done.
  destruct (decision_type_cases op) as [[-> ->]|[[-> ->]|[[-> ->]|[-> ->]]]];
    destruct Ht as [-> | ->]; simpl; set_unfold; naive_solver.
Qed.
End Finalize.

(** ** Transfers of one operation *)

Definition failed (t : ReplicaType) (s : ReplicaTransferSummary) : Z :=
  match t with
  | MEMORY => failed_memory_transfers s | NOF_SSD => failed_nof_transfers s | _ => 0
  end.
Definition succeeded (t : ReplicaType) (s : ReplicaTransferSummary) : Z :=
  match t with
  | MEMORY => successful_memory_transfers s | NOF_SSD => successful_nof_transfers s | _ => 0
  end.
Definition allocated (t : ReplicaType) (s : ReplicaTransferSummary) : Z :=
  match t with
  | MEMORY => allocated_memory_replicas s | NOF_SSD => allocated_nof_replicas s | _ => 0
  end.
Definition transferable (t : ReplicaType) : bool :=
  match t with MEMORY | NOF_SSD => true | _ => false end.
Definition of_type (t : ReplicaType) (d : Descriptor) : bool :=
  needs_transfer d && bool_decide (replica_type_of d = t).
Definition pending_of_type (t : ReplicaType) (p : PendingTransferRecord) : bool :=
  bool_decide (pt_type p = t).

Lemma record_failure t t' s e :
  transferable t = true →
  failed t (RecordFailure s t' e) = failed t s + (if bool_decide (t' = t) then 1 else 0) ∧
  succeeded t (RecordFailure s t' e) = succeeded t s ∧
  allocated t (RecordFailure s t' e) = allocated t s.
Proof. destruct s, t; try done; destruct t'; simpl; intros _; split_and!; lia. Qed.

Lemma record_success t t' s :
  transferable t = true →
  succeeded t (RecordSuccess s t') = succeeded t s + (if bool_decide (t' = t) then 1 else 0) ∧
  failed t (RecordSuccess s t') = failed t s ∧
  allocated t (RecordSuccess s t') = allocated t s.
Proof. destruct s, t; try done; destruct t'; simpl; intros _; split_and!; lia. Qed.

Lemma count_of_type rs :
  Z.of_nat (count (of_type MEMORY) rs) = count_mem rs ∧
  Z.of_nat (count (of_type NOF_SSD) rs) = count_nof rs.
Proof.
  unfold count_mem, count_nof. induction rs as [|d rs [IH1 IH2]]; [done|].
  rewrite !count_cons. unfold of_type at 1 3, needs_transfer, replica_type_of.
  pose proof (memory_not_nof d) as Hd.
  destruct (is_memory_replica d); [rewrite Hd by done|destruct (is_nof_replica d)]; simpl; lia.
Qed.

(** The fields transfers never change. *)
Definition same_op (op op' : PutOperation) : Prop :=
  op_key op' = op_key op ∧ op_slices op' = op_slices op ∧ op_replicas op' = op_replicas op ∧
  op_state op' = op_state op ∧ op_result op' = op_result op ∧
  requested_memory_replicas op' = requested_memory_replicas op ∧
  requested_nof_replicas op' = requested_nof_replicas op.

#[export] Instance same_op_preorder : PreOrder same_op.
Proof.
  split; [by intros op|].
  intros o1 o2 o3 (?&?&?&?&?&?&?) (?&?&?&?&?&?&?). unfold same_op. split_and!; congruence.
Qed.

Lemma same_op_append ctx op : same_op op (AppendFailureContext ctx op).
Proof. unfold AppendFailureContext. by repeat case_match. Qed.

Lemma append_context_transfers ctx op :
  pending_transfers (AppendFailureContext ctx op) = pending_transfers op ∧
  transfer_summary (AppendFailureContext ctx op) = transfer_summary op.
Proof. unfold AppendFailureContext. by repeat case_match. Qed.

Section Transfers.
Context `{!MasterClient, !TransferSubmitter, !HotCache, !StorageBackend, !Clock}.
Context (c : Client).

(** After submitting to the replicas [ds]: per type, every replica is a new
    pending transfer or a recorded failure, and pending transfers were
    accepted by the transfer engine. *)
Definition submit_outcome (ds : list Descriptor) (op op' : PutOperation) (evs : list event)
  : Prop :=
  same_op op op' ∧
  ∃ new, pending_transfers op' = pending_transfers op ++ new ∧
  Forall (λ p, transferable (pt_type p) = true) new ∧
  ∀ t, transferable t = true →
    let s := transfer_summary op in let s' := transfer_summary op' in
    allocated t s' = allocated t s ∧ succeeded t s' = succeeded t s ∧ failed t s ≤ failed t s' ∧
    failed t s' + Z.of_nat (count (pending_of_type t) new) =
      failed t s + Z.of_nat (count (of_type t) ds) ∧
    (∀ p, p ∈ new → pt_type p = t → ∃ d, d ∈ ds ∧ of_type t d = true ∧
       ETransfer (Submit d (op_slices op) WRITE (Some (pt_future p))) ∈ evs) ∧
    (failed t s' = failed t s → ∀ d, d ∈ ds → of_type t d = true →
       ∃ p, p ∈ new ∧ pt_type p = t ∧
         ETransfer (Submit d (op_slices op) WRITE (Some (pt_future p))) ∈ evs).

Lemma submit_outcome_skip d op :
  needs_transfer d = false → submit_outcome [d] op op [].
Proof.
  intros Hd. split; [done|]. exists []. split; [by rewrite app_nil_r|]. split; [done|]. intros t Ht.
  rewrite count_cons, !count_nil. unfold of_type. rewrite Hd. simpl.
  split_and!; try done; try lia; [set_solver|].
  intros _ d' ->%list_elem_of_singleton. by rewrite Hd.
Qed.

Lemma submit_replica_outcome op i d h op' evs :
  submit_replica op (i, d) h = (op', evs) → submit_outcome [d] op op' evs.
Proof.
  unfold submit_replica. destruct (needs_transfer d) eqn:Hd; intros Hrun.
  2: { apply ret_inv in Hrun as [-> ->]. by apply submit_outcome_skip. }
  apply bind_inv in Hrun as (o & e1 & e2 & Hcall & Hrun & ->).
  apply call_inv in Hcall as [_ ->].
  destruct o as [f|]; apply ret_inv in Hrun as [-> ->].
  - split; [done|]. exists [MkPending (replica_type_of d) f]. split; [done|].
    split; [repeat constructor; unfold replica_type_of; simpl; by case_match|]. intros t Ht.
    rewrite !count_cons, !count_nil. unfold of_type, pending_of_type. rewrite Hd. simpl.
    split_and!; try done.
    + intros p ->%list_elem_of_singleton <-. exists d. rewrite Hd, bool_decide_true by done.
      set_solver.
    + intros _ d' ->%list_elem_of_singleton Hk. rewrite Hd in Hk. bool_to_prop.
      exists (MkPending (replica_type_of d) f). set_solver.
  - rewrite app_nil_r. split; [etrans; [|apply same_op_append]; done|]. exists [].
    destruct (append_context_transfers
      ("Failed to submit transfer for replica " +:+ to_string (Z.of_nat i))%string
      (set_summary (RecordFailure (transfer_summary op) (replica_type_of d) TRANSFER_FAIL) op))
      as [-> ->].
    split; [by rewrite app_nil_r|]. split; [done|]. intros t Ht. simpl.
    destruct (record_failure t (replica_type_of d) (transfer_summary op) TRANSFER_FAIL Ht)
      as (-> & -> & ->).
    rewrite !count_cons, !count_nil. unfold of_type. rewrite Hd. simpl.
    split_and!; try done; try (case_bool_decide; lia); [set_solver|].
    case_bool_decide; [lia|]. intros _ d' ->%list_elem_of_singleton Hk.
    rewrite Hd in Hk. by bool_to_prop.
Qed.

Lemma submit_outcome_nil op : submit_outcome [] op op [].
Proof.
  split; [done|]. exists []. split; [by rewrite app_nil_r|]. split; [done|]. intros t Ht.
  rewrite !count_nil. split_and!; try done; set_solver.
Qed.

Lemma submit_outcome_cons d ds op op1 op2 e1 e2 :
  submit_outcome [d] op op1 e1 → submit_outcome ds op1 op2 e2 →
  submit_outcome (d :: ds) op op2 (e1 ++ e2).
Proof.
  intros (Hs1 & new1 & Hp1 & Hty1 & Hr1) (Hs2 & new2 & Hp2 & Hty2 & Hr2).
  split; [by etrans|]. exists (new1 ++ new2). split; [by rewrite Hp2, Hp1, app_assoc|].
  split; [by apply Forall_app|].
  intros t Ht. destruct (Hr1 t Ht) as (?&?&?&Hc1&Ha1&Hb1).
  destruct (Hr2 t Ht) as (?&?&?&Hc2&Ha2&Hb2).
  rewrite count_cons, count_nil in Hc1. rewrite count_cons, count_app.
  destruct Hs1 as (_ & Hsl & _). rewrite Hsl in Ha2, Hb2.
  split_and!; try congruence; try lia.
  - intros p [Hp|Hp]%elem_of_app Hpt.
    + destruct (Ha1 p Hp Hpt) as (d' & ? & ? & ?). exists d'. set_solver.
    + destruct (Ha2 p Hp Hpt) as (d' & ? & ? & ?). exists d'. set_solver.
  - intros Hf d' [->|Hd']%elem_of_cons Hk.
    + destruct (Hb1 ltac:(lia) d ltac:(set_solver) Hk) as (p & ? & ? & ?). exists p. set_solver.
    + destruct (Hb2 ltac:(lia) d' Hd' Hk) as (p & ? & ? & ?). exists p. set_solver.
Qed.

Lemma submit_replicas_outcome l op h op' evs :
  mfold submit_replica op l h = (op', evs) → submit_outcome l.*2 op op' evs.
Proof.
  apply (mfold_outcome submit_replica (λ l op op' evs, submit_outcome l.*2 op op' evs)).
  - apply submit_outcome_nil.
  - intros op0 [i d] op1 e1 l0 op2 e2 h0 Hrun Hrest.
    eapply submit_outcome_cons; [by eapply submit_replica_outcome|done].
Qed.

(** Weakening of the calls. *)
Lemma submit_outcome_mono ds op op' e evs :
  e ⊆ evs → submit_outcome ds op op' e → submit_outcome ds op op' evs.
Proof.
  intros Hsub (Hs & new & Hp & Hty & Hr). split; [done|]. exists new. split; [done|].
  split; [done|].
  intros t Ht. destruct (Hr t Ht) as (?&?&?&?&Ha&Hb). split_and!; try done.
  - intros p Hin Hpt. destruct (Ha p Hin Hpt) as (d & ? & ? & Hd). exists d. auto.
  - intros Hf d Hd Hk. destruct (Hb Hf d Hd Hk) as (p & ? & ? & ?). exists p. auto.
Qed.

(** After waiting for the transfers [ps]: every one of them is a success or a
    failure. *)
Definition wait_outcome (ps : list PendingTransferRecord) (op op' : PutOperation)
    (evs : list event) : Prop :=
  same_op op op' ∧ pending_transfers op' = pending_transfers op ∧
  ∀ t, transferable t = true →
    let s := transfer_summary op in let s' := transfer_summary op' in
    allocated t s' = allocated t s ∧ failed t s ≤ failed t s' ∧ succeeded t s ≤ succeeded t s' ∧
    succeeded t s' + failed t s' =
      succeeded t s + failed t s + Z.of_nat (count (pending_of_type t) ps) ∧
    (failed t s' = failed t s → ∀ p, p ∈ ps → pt_type p = t →
       ETransfer (FutureGet (pt_future p) OK) ∈ evs) ∧
    (succeeded t s < succeeded t s' → ∃ p, p ∈ ps ∧ pt_type p = t ∧
       ETransfer (FutureGet (pt_future p) OK) ∈ evs).

Lemma wait_transfer_outcome op i p h op' evs :
  wait_transfer op (i, p) h = (op', evs) → wait_outcome [p] op op' evs.
Proof.
  unfold wait_transfer. intros Hrun.
  apply bind_inv in Hrun as (r & e1 & e2 & Hcall & Hrun & ->).
  apply call_inv in Hcall as [_ ->].
  case_bool_decide as Hr; apply ret_inv in Hrun as [-> ->].
  - subst r. split; [done|]. split; [done|]. intros t Ht. simpl.
    destruct (record_success t (pt_type p) (transfer_summary op) Ht) as (-> & -> & ->).
    rewrite count_cons, count_nil. unfold pending_of_type.
    split_and!; try done; try (case_bool_decide; lia).
    + intros _ p' ->%list_elem_of_singleton _. set_solver.
    + intros Hlt. exists p. case_bool_decide; [|lia]. set_solver.
  - split; [etrans; [|apply same_op_append]; done|].
    destruct (append_context_transfers
      ("Transfer " +:+ to_string (Z.of_nat i) +:+ " failed")%string
      (set_summary (RecordFailure (transfer_summary op) (pt_type p) r) op)) as [-> ->].
    split; [done|]. intros t Ht. simpl.
    destruct (record_failure t (pt_type p) (transfer_summary op) r Ht) as (-> & -> & ->).
    rewrite count_cons, count_nil. unfold pending_of_type.
    split_and!; try done; try (case_bool_decide; lia); [|lia].
    case_bool_decide; [lia|]. intros _ p' ->%list_elem_of_singleton. done.
Qed.

Lemma wait_outcome_nil op : wait_outcome [] op op [].
Proof.
  split; [done|]. split; [done|]. intros t Ht. rewrite count_nil.
  split_and!; try done; try lia; set_solver.
Qed.

Lemma wait_outcome_cons p ps op op1 op2 e1 e2 :
  wait_outcome [p] op op1 e1 → wait_outcome ps op1 op2 e2 →
  wait_outcome (p :: ps) op op2 (e1 ++ e2).
Proof.
  intros (Hs1 & Hp1 & Hr1) (Hs2 & Hp2 & Hr2).
  split; [by etrans|]. split; [congruence|].
  intros t Ht. destruct (Hr1 t Ht) as (?&?&?&Hc1&Ha1&Hb1).
  destruct (Hr2 t Ht) as (?&?&?&Hc2&Ha2&Hb2).
  rewrite count_cons, count_nil in Hc1. rewrite count_cons.
  split_and!; try congruence; try lia.
  - intros Hf p' [->|Hp']%elem_of_cons Hk; apply elem_of_app.
    + left. apply Ha1; [lia|set_solver|done].
    + right. apply Ha2; [lia|done|done].
  - intros Hlt. destruct (Z.lt_ge_cases (succeeded t (transfer_summary op))
      (succeeded t (transfer_summary op1))) as [Hl|Hge].
    + destruct (Hb1 Hl) as (q & ? & ? & ?). exists q. set_solver.
    + destruct (Hb2 ltac:(lia)) as (q & ? & ? & ?). exists q. set_solver.
Qed.

Lemma wait_transfers_outcome l op h op' evs :
  mfold wait_transfer op l h = (op', evs) → wait_outcome l.*2 op op' evs.
Proof.
  apply (mfold_outcome wait_transfer (λ l op op' evs, wait_outcome l.*2 op op' evs)).
  - apply wait_outcome_nil.
  - intros op0 [i p] op1 e1 l0 op2 e2 h0 Hrun Hrest.
    eapply wait_outcome_cons; [by eapply wait_transfer_outcome|done].
Qed.

Lemma wait_outcome_mono ps op op' e evs :
  e ⊆ evs → wait_outcome ps op op' e → wait_outcome ps op op' evs.
Proof.
  intros Hsub (Hs & Hp & Hr). split; [done|]. split; [done|].
  intros t Ht. destruct (Hr t Ht) as (?&?&?&?&Ha&Hb). split_and!; try done.
  - intros Hf p Hin Hpt. apply Hsub. by apply Ha.
  - intros Hlt. destruct (Hb Hlt) as (p & ? & ? & ?). exists p. auto.
Qed.

(** ** Transfers of a whole batch *)

Definition submit_relation (op op' : PutOperation) (e : list event) : Prop :=
  (IsResolved op = true → op' = op) ∧
  (op_state op = PENDING → op_replicas op = [] → op_state op' = MASTER_FAILED) ∧
  (op_state op = PENDING → op_replicas op ≠ [] → submit_outcome (op_replicas op) op op' e) ∧
  op_replicas op' = op_replicas op ∧ op_key op' = op_key op ∧
  (has_value (op_result op) = false → has_value (op_result op') = false).

Lemma submit_op_relation op h op' e : submit_op c op h = (op', e) → submit_relation op op' e.
Proof.
  unfold submit_op, submit_relation. destruct (IsResolved op) eqn:Hr.
  { intros [-> ->]%ret_inv. split_and!; try done; intros Hp%IsResolved_false; congruence. }
  destruct (op_replicas op) as [|d rs] eqn:Hrs; intros Hrun.
  { apply ret_inv in Hrun as [-> ->]. split_and!; done. }
  apply bind_inv in Hrun as (? & e1 & e2 & _ & Hrun & ->).
  apply submit_replicas_outcome in Hrun. rewrite indexed_snd in Hrun.
  pose proof Hrun as (Hsame & _). destruct Hsame as (Hk & _ & Hreps & _ & Hre & _).
  split_and!; try done; [|congruence|congruence].
  intros _ _. eapply submit_outcome_mono; [|exact Hrun]. set_solver.
Qed.

Definition wait_relation (op op' : PutOperation) (e : list event) : Prop :=
  (IsResolved op = true → op' = op) ∧
  (op_state op = PENDING → wait_outcome (pending_transfers op) op op' e).

Lemma wait_op_relation op h op' e : wait_op op h = (op', e) → wait_relation op op' e.
Proof.
  unfold wait_op, wait_relation. destruct (IsResolved op) eqn:Hr.
  { intros [-> ->]%ret_inv. split; [done|]. intros Hp%IsResolved_false. congruence. }
  intros Hrun%wait_transfers_outcome. rewrite indexed_snd in Hrun. done.
Qed.

(** The data of [slices] was submitted to [d], and later the transfer was
    reported successful. *)
Definition batch_written (slices : list Slice) (evs : list event) (d : Descriptor) : Prop :=
  ∃ f before after,
    evs = before ++ ETransfer (Submit d slices WRITE (Some f)) :: after ∧
    ETransfer (FutureGet f OK) ∈ after.

Lemma batch_written_intro slices pre e1 e2 post d f :
  ETransfer (Submit d slices WRITE (Some f)) ∈ e1 → ETransfer (FutureGet f OK) ∈ e2 →
  batch_written slices (pre ++ e1 ++ e2 ++ post) d.
Proof.
  intros Hin1 Hin2. destruct (in_order _ _ pre e1 e2 post Hin1 Hin2) as (a & b & -> & Hb).
  by exists f, a, b.
Qed.

(** Outcome of submitting and waiting for a freshly started operation. *)
Definition transferred (evs : list event) (op op' : PutOperation) : Prop :=
  same_op op op' ∧
  (∀ p, p ∈ pending_transfers op' → ∃ d, d ∈ op_replicas op ∧ needs_transfer d = true ∧
     ETransfer (Submit d (op_slices op) WRITE (Some (pt_future p))) ∈ evs) ∧
  ∀ t, transferable t = true →
    let s' := transfer_summary op' in
    allocated t s' = allocated t (transfer_summary op) ∧
    0 ≤ failed t s' ∧ 0 ≤ succeeded t s' ∧
    succeeded t s' + failed t s' = Z.of_nat (count (of_type t) (op_replicas op)) ∧
    (failed t s' = 0 → ∀ d, d ∈ op_replicas op → of_type t d = true →
       batch_written (op_slices op) evs d) ∧
    (0 < succeeded t s' → ∃ d, d ∈ op_replicas op ∧ of_type t d = true ∧
       batch_written (op_slices op) evs d).

Lemma transferred_intro op op1 op2 pre e1 e2 post :
  pending_transfers op = [] →
  (∀ t, failed t (transfer_summary op) = 0 ∧ succeeded t (transfer_summary op) = 0) →
  submit_outcome (op_replicas op) op op1 e1 →
  wait_outcome (pending_transfers op1) op1 op2 e2 →
  transferred (pre ++ e1 ++ e2 ++ post) op op2.
Proof.
  intros Hnone Hzero (Hs1 & new & Hnew & Hty & Hr1) (Hs2 & Hkeep & Hr2).
  split; [by etrans|]. split.
  { rewrite Hkeep, Hnew, Hnone. simpl. intros p Hp. rewrite Forall_forall in Hty.
    destruct (Hr1 _ (Hty p Hp)) as (_ & _ & _ & _ & Ha & _).
    destruct (Ha p Hp eq_refl) as (d & Hd & Hk & Hsub). exists d. unfold of_type in Hk.
    bool_to_prop. split_and!; try done. set_solver. }
  intros t Ht. destruct (Hzero t) as [Hf0 Hs0].
  rewrite Hnew, Hnone in Hr2. simpl in Hr2.
  destruct (Hr1 t Ht) as (?&?&?&Hc1&Ha1&Hb1). destruct (Hr2 t Ht) as (?&?&?&Hc2&Ha2&Hb2).
  split_and!; try congruence; try lia.
  - intros Hf d Hd Hk. destruct (Hb1 ltac:(lia) d Hd Hk) as (p & Hp & Hpt & Hsub).
    eapply batch_written_intro; [exact Hsub|]. apply Ha2; [lia|done|done].
  - intros Hlt. destruct (Hb2 ltac:(lia)) as (p & Hp & Hpt & Hget).
    destruct (Ha1 p Hp Hpt) as (d & Hd & Hk & Hsub). exists d. split_and!; try done.
    eapply batch_written_intro; [exact Hsub|exact Hget].
Qed.
End Transfers.

(** ** The whole pipeline *)

Section Pipeline.
Context `{!MasterClient, !TransferSubmitter, !HotCache, !StorageBackend, !Clock}.
Context (DetermineReplicaWriteMode : ReplicateConfig → ReplicaWriteMode).
Context (toString : ErrorCode → string).
Context (default_config : ReplicateConfig).
Context (c : Client).

#[local] Abbreviation started rs cfg op :=
  (RecordAllocatedReplicas (set_replicas rs (InitializeRequestedReplicas cfg op))).
#[local] Abbreviation slice_lengths ops := ((λ op, slice_size <$> op_slices op) <$> ops).

(** The response of the master to entry [i] of the start call. *)
Definition start_answer (evs : list event) (ops : list PutOperation) (cfg : ReplicateConfig)
    (i : nat) (r : expected (list Descriptor)) : Prop :=
  ∃ rs, EMaster (BatchPutStart (op_key <$> ops) (slice_lengths ops) cfg rs) ∈ evs ∧
        length rs = length ops ∧ rs !! i = Some r.

Lemma StartBatchPut_run ops cfg h ops' evs i op' :
  StartBatchPut DetermineReplicaWriteMode toString c ops cfg h = (ops', evs) →
  ops' !! i = Some op' →
  ∃ op, ops !! i = Some op ∧
    (op' = SetError toString RPC_FAIL "BatchPutStart response size mismatch" op ∧
     (∀ r, ¬ start_answer evs ops cfg i r) ∨
     ∃ r, start_answer evs ops cfg i r ∧
          op' = start_put_response DetermineReplicaWriteMode cfg op r).
Proof.
  unfold StartBatchPut. intros Hrun Hi.
  apply bind_inv in Hrun as (? & pre & ? & Hpre & Hrun & ->).
  apply when_cache_emitted in Hpre.
  apply bind_inv in Hrun as (rs & ? & ? & Hcall & Hrun & ->).
  apply call_inv in Hcall as [_ ->].
  destruct (Nat.eqb_spec (length rs) (length ops)) as [Hlen|Hlen]; simpl in Hrun;
    apply ret_inv in Hrun as [-> ->].
  - rewrite lookup_zip_with in Hi. destruct (ops !! i) as [op|] eqn:Hop; [|done].
    destruct (rs !! i) as [r|] eqn:Hr; [|done]. simplify_eq/=. exists op. split; [done|].
    right. exists r. split; [|done]. exists rs. split; [set_solver|done].
  - rewrite list_lookup_fmap in Hi. destruct (ops !! i) as [op|] eqn:Hop; [|done].
    simplify_eq/=. exists op. split; [done|]. left. split; [done|].
    intros r (rs' & Hin & Hl & _). rewrite Forall_forall in Hpre.
    rewrite ?app_nil_r in Hin. apply elem_of_app in Hin as [Hin|Hin%list_elem_of_singleton].
    + by apply Hpre in Hin.
    + injection Hin as ->. congruence.
Qed.

(** No transfer was attempted yet. *)
Definition untransferred (op : PutOperation) : Prop :=
  pending_transfers op = [] ∧
  ∀ t, failed t (transfer_summary op) = 0 ∧ succeeded t (transfer_summary op) = 0.

Definition xfer_relation (evs : list event) (op op' : PutOperation) : Prop :=
  op_replicas op' = op_replicas op ∧ op_key op' = op_key op ∧
  (op_state op' = SUCCESS → op_state op = SUCCESS) ∧
  (has_value (op_result op) = false → has_value (op_result op') = false) ∧
  (op_state op' = PENDING →
     op_state op = PENDING ∧ op_replicas op ≠ [] ∧
     (untransferred op → transferred evs op op')).

Lemma SubmitTransfers_wait ops h1 ops1 e1 h2 ops2 e2 pre post i op2 :
  SubmitTransfers c ops h1 = (ops1, e1) → WaitForTransfers ops1 h2 = (ops2, e2) →
  ops2 !! i = Some op2 →
  ∃ op, ops !! i = Some op ∧ xfer_relation (pre ++ e1 ++ e2 ++ post) op op2.
Proof.
  clear default_config DetermineReplicaWriteMode.
  unfold SubmitTransfers, WaitForTransfers. intros Hsub Hwait Hi.
  apply (mmap_outcome _ wait_relation) in Hwait; [|intros; by eapply wait_op_relation].
  eapply Forall2_lookup_r in Hwait as (op1 & Hi1 & e2' & Hinf2 & Hw); [|exact Hi].
  destruct (has_transfer_submitter c); simpl in Hsub.
  - apply (mmap_outcome _ submit_relation) in Hsub; [|intros; by eapply submit_op_relation].
    eapply Forall2_lookup_r in Hsub as (op & Hi0 & e1' & Hinf1 & Hs); [|exact Hi1].
    exists op. split; [done|].
    destruct Hs as (Hres & Hempty & Hsub & Hreps & Hkey & Herr). destruct Hw as (Hres2 & Hwait).
    destruct (decide (op_state op1 = PENDING)) as [Hp1|Hp1].
    + specialize (Hwait Hp1). pose proof Hwait as ((Hk & _ & Hr & Hst & Hre & _) & _).
      assert (Hp : op_state op = PENDING).
      { destruct (decide (op_state op = PENDING)) as [|Hn]; [done|].
        rewrite Hres in Hp1; [done|]. unfold IsResolved. by rewrite bool_decide_false. }
      assert (Hne : op_replicas op ≠ []) by (intros He; rewrite Hempty in Hp1 by done; done).
      split; [congruence|]. split; [congruence|]. split; [congruence|].
      split; [by rewrite Hre|].
      intros _. split_and!; try done. intros (Hnone & Hzero).
      destruct Hinf1 as (a1 & b1 & ->). destruct Hinf2 as (a2 & b2 & ->).
      specialize (Hsub Hp Hne).
      assert (Hsub' : submit_outcome (op_replicas op) op op1 (a1 ++ e1' ++ b1))
        by (eapply submit_outcome_mono; [|exact Hsub]; set_solver).
      pose proof (transferred_intro op op1 op2 pre (a1 ++ e1' ++ b1) (a2 ++ e2' ++ b2) post) as Ht.
      apply Ht; try done. eapply wait_outcome_mono; [|exact Hwait]. set_solver.
    + assert (op2 = op1) as -> by (apply Hres2; unfold IsResolved; by rewrite bool_decide_false).
      split_and!; try done. intros Hs1.
      destruct (decide (op_state op = PENDING)) as [Hp|Hp].
      * destruct (decide (op_replicas op = [])) as [He|He].
        { rewrite Hempty in Hs1 by done. done. }
        destruct (Hsub Hp He) as ((_ & _ & _ & Hst & _) & _). congruence.
      * rewrite Hres in Hs1; [done|]. unfold IsResolved. by rewrite bool_decide_false.
  - apply ret_inv in Hsub as [-> ->]. rewrite list_lookup_fmap in Hi1.
    destruct (ops !! i) as [op|] eqn:Hop; [|done]. simplify_eq/=.
    destruct Hw as (Hres2 & _). rewrite Hres2 by done. exists op. split; [done|].
    unfold xfer_relation. by split_and!.
Qed.

Lemma start_response_facts cfg op r :
  op_state op = PENDING → op_replicas op = [] → untransferred op →
  let op' := start_put_response DetermineReplicaWriteMode cfg op r in
  op_state op' ≠ SUCCESS ∧ op_key op' = op_key op ∧ op_slices op' = op_slices op ∧
  (has_value (op_result op) = false → has_value (op_result op') = false) ∧
  untransferred op' ∧
  (∀ rs, r = Ok rs → op_replicas op' = rs) ∧
  (op_state op' = PENDING → ∃ rs, r = Ok rs ∧ op' = started rs cfg op ∧
     HasExpectedReplicaAllocation DetermineReplicaWriteMode cfg (transfer_summary op') = true).
Proof.
  intros Hp Hr (Hn & Hz) op'. unfold op', start_put_response. destruct r as [rs|e].
  - destruct (HasExpectedReplicaAllocation _ _ _) eqn:Ha; simpl.
    + rewrite Hp. split_and!; try done.
      * split; [done|]. intros t. unfold RecordAllocatedReplicas; simpl.
        rewrite recorded_allocation. by destruct t.
      * by intros rs' [= ->].
      * intros _. exists rs. split_and!; try done.
    + split_and!; try done.
      * split; [done|]. intros t. unfold RecordAllocatedReplicas; simpl.
        rewrite recorded_allocation. by destruct t.
      * by intros rs' [= ->].
  - by split_and!.
Qed.

(** ** Which calls each stage makes *)

Definition is_start_event (e : event) : bool :=
  match e with EMaster (BatchPutStart _ _ _ _) => true | _ => false end.
Definition is_finalize_event (e : event) : bool :=
  match e with
  | EMaster (BatchPutEnd _ _ _) | EMaster (BatchPutRevoke _ _ _) => true
  | _ => false
  end.

Definition is_data_event (e : event) : bool := is_transfer_event e || is_disk_event e.

Lemma data_not_control e :
  is_data_event e = true → is_start_event e = false ∧ is_finalize_event e = false.
Proof. by destruct e as [[]| | | |]. Qed.

Lemma submit_op_emitted op h : Forall (λ e, is_data_event e = true) (emitted (submit_op c op) h).
Proof.
  unfold submit_op. case_match; [constructor|].
  destruct (op_replicas op) as [|d rs]; [constructor|].
  rewrite emitted_bind. apply Forall_app. split.
  - eapply Forall_impl; [apply put_disk_replica_emitted|]. intros e He.
    unfold is_data_event. by rewrite He, orb_true_r.
  - apply mfold_emitted. intros op' [i d'] h' _. unfold submit_replica.
    case_match; [|constructor]. rewrite emitted_bind. cbn.
    destruct (t_submit _ _ _ _); by repeat constructor.
Qed.

Lemma SubmitTransfers_emitted ops h :
  Forall (λ e, is_data_event e = true) (emitted (SubmitTransfers c ops) h).
Proof.
  unfold SubmitTransfers. case_match; [constructor|].
  apply mmap_emitted. intros. apply submit_op_emitted.
Qed.

Lemma WaitForTransfers_emitted ops h :
  Forall (λ e, is_data_event e = true) (emitted (WaitForTransfers ops) h).
Proof.
  apply mmap_emitted. intros op h' _. unfold wait_op. case_match; [constructor|].
  apply mfold_emitted. intros op' [i p] h'' _. unfold wait_transfer.
  rewrite emitted_bind. cbn. case_bool_decide; by repeat constructor.
Qed.

Lemma StartBatchPut_emitted ops cfg h :
  Forall (λ e, is_finalize_event e = false)
    (emitted (StartBatchPut DetermineReplicaWriteMode toString c ops cfg) h).
Proof.
  unfold StartBatchPut, when. destruct (has_hot_cache c);
    rewrite !emitted_bind; cbn; case_match; by repeat constructor.
Qed.

Lemma finalize_event_start a ks rs : is_start_event (finalize_event a ks rs) = false.
Proof. by destruct a as [[] t]. Qed.

(** ** One operation through the pipeline *)

(** The run of a batch put, split into its stages. *)
Lemma batch_put_run ops cfg h ops' evs :
  batch_put_ops DetermineReplicaWriteMode toString default_config c ops cfg h = (ops', evs) →
  ∃ h2 h3 ops1 ops2 ops3 e1 e2 e3 e4,
    evs = e1 ++ e2 ++ e3 ++ e4 ∧
    StartBatchPut DetermineReplicaWriteMode toString c ops cfg h = (ops1, e1) ∧
    SubmitTransfers c ops1 h2 = (ops2, e2) ∧ WaitForTransfers ops2 h3 = (ops3, e3) ∧
    length ops' = length ops3 ∧
    (∀ i op, ops3 !! i = Some op → ∃ op', ops' !! i = Some op' ∧
       finalize_outcome DetermineReplicaWriteMode default_config e4 op op') ∧
    Forall (λ e, ∃ a rs, e = finalize_event a
      (group_of DetermineReplicaWriteMode default_config ops3 a).*1 rs) e4 ∧
    Forall (λ e, is_finalize_event e = false) (e1 ++ e2 ++ e3) ∧
    Forall (λ e, is_start_event e = false) (e2 ++ e3 ++ e4).
Proof.
  unfold batch_put_ops. intros Hrun.
  apply bind_inv in Hrun as (ops1 & e1 & ? & Hstart & Hrun & ->).
  apply bind_inv in Hrun as (ops2 & e2 & ? & Hsub & Hrun & ->).
  apply bind_inv in Hrun as (ops3 & e3 & e4 & Hwait & Hrun & ->).
  apply FinalizeBatchPut_outcome in Hrun as (Hlen & Hfin & Hev).
  exists (h ++ e1), ((h ++ e1) ++ e2), ops1, ops2, ops3, e1, e2, e3, e4.
  pose proof (StartBatchPut_emitted ops cfg h) as H1'. rewrite (run_emitted _ _ _ _ Hstart) in H1'.
  pose proof (SubmitTransfers_emitted ops1 (h ++ e1)) as H2'.
  rewrite (run_emitted _ _ _ _ Hsub) in H2'.
  pose proof (WaitForTransfers_emitted ops2 ((h ++ e1) ++ e2)) as H3'.
  rewrite (run_emitted _ _ _ _ Hwait) in H3'.
  split_and!; try done.
  - rewrite !Forall_app. split_and!; [done| |]; (eapply Forall_impl; [eassumption|]);
      intros e He; by apply data_not_control.
  - rewrite !Forall_app. split_and!; (eapply Forall_impl; [eassumption|]); intros e He;
      [by apply data_not_control..|].
    destruct He as (a & rs & ->). apply finalize_event_start.
Qed.

Lemma start_answer_before evs1 evs2 ops cfg i r :
  Forall (λ e, is_start_event e = false) evs2 →
  start_answer (evs1 ++ evs2) ops cfg i r ↔ start_answer evs1 ops cfg i r.
Proof.
  clear DetermineReplicaWriteMode.
  intros Hno. rewrite Forall_forall in Hno. split.
  - intros (rs & [Hin|Hin]%elem_of_app & Hrest); [by exists rs|]. by apply Hno in Hin.
  - intros (rs & Hin & Hrest). exists rs. split; [set_solver|done].
Qed.
End Pipeline.

(** ** Witness *)

(** One operation whose flexible put needs both an end and a revoke. *)
Definition half_written : PutOperation :=
  set_summary (MkSummary 1 1 1 0 0 1 TRANSFER_FAIL) (set_replicas two_replicas (new_op "k" [])).

Lemma no_unfinished_actions_witness :
  let col := fold_left (collect_step (λ _, FLEXIBLE_DUAL_REPLICA) sample_config)
    (indexed [half_written]) ([], no_groups) in
  let run := mfold (@process_group (sample_master two_replicas) col.2) col.1 group_order [] in
  pending_finalize_actions
    (default (initial_slot (λ _, FLEXIBLE_DUAL_REPLICA) sample_config half_written)
       (run.1 !! 0%nat)) = 0%nat.
Proof.
  intros col run.
  apply (@no_unfinished_actions (sample_master two_replicas) (λ _, FLEXIBLE_DUAL_REPLICA)
    sample_config [half_written] col.2 col.1 [] run.1 run.2 0).
  - apply surjective_pairing.
  - by vm_compute.
  - by vm_compute.
Defined.
