(* ===== verification/BatchPutSpec.v ===== *)
(** * What [Client::BatchPut] and [Client::BatchUpsert] guarantee *)

From S2P Require Import Prelude CxxString StoreTypes ReplicaPolicy Samples PutPath BatchPut.
From S2P Require Import BatchPutFacts.
From stdpp Require Import base strings list sets gmap fin_maps.
From Stdlib Require Import ZArith Lia.

#[local] Open Scope Z_scope.
#[local] Set Default Proof Using "Type".

Section BatchPutSpec.
Context `{!MasterClient, !TransferSubmitter, !HotCache, !StorageBackend, !Clock}.
Context (DetermineReplicaWriteMode : ReplicateConfig → ReplicaWriteMode).
Context (toString : ErrorCode → string).
Context (default_config : ReplicateConfig).
Context (c : Client).

#[local] Abbreviation started rs cfg op :=
  (RecordAllocatedReplicas (set_replicas rs (InitializeRequestedReplicas cfg op))).
#[local] Abbreviation run keys bs cfg :=
  (batch_put_ops DetermineReplicaWriteMode toString default_config c
     (CreatePutOperations keys bs) cfg).
#[local] Abbreviation actions := (actions DetermineReplicaWriteMode default_config).
#[local] Abbreviation finalize_outcome :=
  (finalize_outcome DetermineReplicaWriteMode default_config).

(** The operation at index [i] after the start call. *)
Definition start_stage (keys : list ObjectKey) (bs : list (list Slice)) (cfg : ReplicateConfig)
    (evs : list event) (i : nat) (op : PutOperation) : Prop :=
  keys !! i = Some (op_key op) ∧ op_slices op = default [] (bs !! i) ∧
  op_state op ≠ SUCCESS ∧ has_value (op_result op) = false ∧
  (∀ rs, start_answer evs (CreatePutOperations keys bs) cfg i (Ok rs) → op_replicas op = rs) ∧
  (op_state op = PENDING → ∃ rs,
     start_answer evs (CreatePutOperations keys bs) cfg i (Ok rs) ∧
     op = started rs cfg (new_op (op_key op) (op_slices op)) ∧ untransferred op).

(** The master's answer to the start call. *)
Definition start_call (evs : list event) (keys : list ObjectKey) (bs : list (list Slice))
    (cfg : ReplicateConfig) (answers : list (expected (list Descriptor))) : Prop :=
  EMaster (BatchPutStart (op_key <$> CreatePutOperations keys bs)
    ((λ op, slice_size <$> op_slices op) <$> CreatePutOperations keys bs) cfg answers) ∈ evs.

(** The start call is made once. *)
Lemma start_put_run keys bs cfg h ops1 e1 :
  StartBatchPut DetermineReplicaWriteMode toString c (CreatePutOperations keys bs) cfg h =
    (ops1, e1) →
  ∃ answers, (∀ l, start_call e1 keys bs cfg l → l = answers) ∧
    (length answers ≠ length keys →
     ops1 = SetError toString RPC_FAIL "BatchPutStart response size mismatch" <$>
              CreatePutOperations keys bs).
Proof.
  unfold StartBatchPut, start_call. intros R.
  apply bind_inv in R as (? & pre & ? & Hpre%when_cache_emitted & R & ->).
  rewrite Forall_forall in Hpre.
  apply bind_inv in R as (rs & ? & e3 & [_ ->]%call_inv & R & ->).
  assert (e3 = []) as -> by (case_match; by apply ret_inv in R as [_ ->]).
  exists rs. split.
  - intros l [Hin|[Hin|Hin]%elem_of_app]%elem_of_app.
    + by apply Hpre in Hin.
    + apply list_elem_of_singleton in Hin. by injection Hin.
    + by apply elem_of_nil in Hin.
  - intros Hlen. unfold CreatePutOperations in R at 1. rewrite length_imap in R.
    destruct (Nat.eqb_spec (length rs) (length keys)); [done|]. by apply ret_inv in R as [-> _].
Qed.

Lemma start_call_before e1 e2 keys bs cfg l :
  Forall (λ e, is_start_event e = false) e2 →
  start_call (e1 ++ e2) keys bs cfg l → start_call e1 keys bs cfg l.
Proof.
  rewrite Forall_forall. intros Hns [Hin|Hin]%elem_of_app; [done|]. by apply Hns in Hin.
Qed.

Lemma start_answer_functional keys bs cfg h ops1 e1 i r r' :
  StartBatchPut DetermineReplicaWriteMode toString c (CreatePutOperations keys bs) cfg h =
    (ops1, e1) →
  start_answer e1 (CreatePutOperations keys bs) cfg i r →
  start_answer e1 (CreatePutOperations keys bs) cfg i r' → r = r'.
Proof.
  intros (rs & Hu & _)%start_put_run (r1 & Hin1 & _ & Hr1) (r2 & Hin2 & _ & Hr2).
  rewrite (Hu _ Hin1) in Hr1. rewrite (Hu _ Hin2) in Hr2. congruence.
Qed.

Lemma start_stage_intro keys bs cfg h ops1 e1 i op :
  StartBatchPut DetermineReplicaWriteMode toString c (CreatePutOperations keys bs) cfg h =
    (ops1, e1) →
  ops1 !! i = Some op → start_stage keys bs cfg e1 i op.
Proof.
  intros Hstart Hi.
  pose proof (λ r r', start_answer_functional keys bs cfg h ops1 e1 i r r' Hstart) as Hfun.
  apply (StartBatchPut_run _ _ _ _ _ _ _ _ i op) in Hstart as (op0 & Hi0 & Hop); [|done].
  unfold CreatePutOperations in Hi0. rewrite list_lookup_imap in Hi0.
  destruct (keys !! i) as [key|] eqn:Hkey; [|done]. simpl in Hi0. injection Hi0 as <-.
  destruct Hop as [[-> Hno]|(r & Hans & ->)].
  - unfold start_stage. simpl. split_and!; try done. intros rs Hr. by apply Hno in Hr.
  - destruct (start_response_facts DetermineReplicaWriteMode cfg
      (new_op key (default [] (bs !! i))) r) as (Hns & Hk & Hsl & Herr & Hun & Hrs & Hpend); try done.
    { split; [done|]. by destruct t. }
    unfold start_stage. rewrite Hk, Hsl. simpl. split_and!; try done.
    + by apply Herr.
    + intros rs Hr. apply Hrs. by apply Hfun.
    + intros Hp. destruct (Hpend Hp) as (rs & -> & Heq & _). exists rs. auto.
Qed.

(** The stages one operation of a batch put goes through. *)
Lemma batch_put_stages keys bs cfg h ops' evs i op' :
  run keys bs cfg h = (ops', evs) → ops' !! i = Some op' →
  ∃ op1 op2 evs1 evs2,
    evs = evs1 ++ evs2 ∧ start_stage keys bs cfg evs i op1 ∧ xfer_relation evs op1 op2 ∧
    finalize_outcome evs2 op2 op'.
Proof.
  intros Hrun Hi.
  apply batch_put_run in Hrun as (h2 & h3 & ops1 & ops2 & ops3 & e1 & e2 & e3 & e4 & -> &
    Hstart & Hsub & Hwait & Hlen & Hfin & _ & _ & Hns).
  assert (is_Some (ops3 !! i)) as [op3 Hi3]
    by (apply lookup_lt_is_Some; rewrite <- Hlen; by eapply lookup_lt_Some).
  destruct (Hfin i op3 Hi3) as (op'' & Hi' & Hout). assert (op'' = op') as -> by congruence.
  destruct (SubmitTransfers_wait c _ _ _ _ _ _ _ e1 e4 i op3 Hsub Hwait Hi3)
    as (op1 & Hi1 & Hx).
  exists op1, op3, (e1 ++ e2 ++ e3), e4.
  split; [by rewrite <- !app_assoc|]. split; [|by split].
  destruct (start_stage_intro _ _ _ _ _ _ _ _ Hstart Hi1) as (?&?&?&?&Hr&Hp).
  unfold start_stage. setoid_rewrite (start_answer_before e1 _ _ _ _ _ Hns).
  by split_and!.
Qed.

Lemma batch_put_length keys bs cfg h ops' evs :
  run keys bs cfg h = (ops', evs) → length ops' = length keys.
Proof.
  intros Hrun.
  apply batch_put_run in Hrun as (h2 & h3 & ops1 & ops2 & ops3 & e1 & e2 & e3 & e4 & -> &
    Hstart & Hsub & Hwait & -> & _).
  pose proof (mmap_length wait_op ops2 h3) as Hl3. unfold WaitForTransfers in Hwait.
  rewrite (run_value _ _ _ _ Hwait) in Hl3. rewrite Hl3.
  assert (Hl2 : length ops2 = length ops1).
  { unfold SubmitTransfers in Hsub. case_match.
    - apply ret_inv in Hsub as [-> _]. by rewrite length_fmap.
    - pose proof (mmap_length (submit_op c) ops1 h2) as Hl.
      by rewrite (run_value _ _ _ _ Hsub) in Hl. }
  rewrite Hl2. unfold StartBatchPut in Hstart.
  apply bind_inv in Hstart as (? & ? & ? & _ & Hstart & ->).
  apply bind_inv in Hstart as (rs & ? & ? & _ & Hstart & ->).
  destruct (Nat.eqb_spec (length rs) (length (CreatePutOperations keys bs))) as [Hrs|Hrs];
    simpl in Hstart; apply ret_inv in Hstart as [-> _].
  - rewrite length_zip_with, Hrs. unfold CreatePutOperations. rewrite length_imap. lia.
  - rewrite length_fmap. unfold CreatePutOperations. apply length_imap.
Qed.

(** The configuration [ToReplicateConfig] rebuilds at finalization. *)
Definition mode_config (cfg : ReplicateConfig) : ReplicateConfig :=
  with_replica_nums (replica_num cfg) (nof_replica_num cfg) default_config.

(** What success of a key means: outside the flexible mode all its replicas were
    allocated as requested and written, and the master ended it; in the
    flexible mode at least one replica of an ended type was written. *)
Definition stored (evs : list event) (cfg : ReplicateConfig) (key : ObjectKey)
    (slices : list Slice) (rs : list Descriptor) : Prop :=
  (flexible DetermineReplicaWriteMode (mode_config cfg) = false →
     answered evs (true, ALL) key (Ok tt) ∧
     (nof_replica_num cfg = 0 → 0 < count_mem rs) ∧
     (nof_replica_num cfg ≠ 0 →
        count_mem rs = replica_num cfg ∧ count_nof rs = nof_replica_num cfg) ∧
     ∀ d, d ∈ rs → needs_transfer d = true → batch_written slices evs d) ∧
  (flexible DetermineReplicaWriteMode (mode_config cfg) = true →
     ∃ t d, answered evs (true, t) key (Ok tt) ∧ d ∈ rs ∧
            covers (Some t) (replica_type_of d) = true ∧ batch_written slices evs d).

Lemma needs_transfer_type d :
  needs_transfer d = true → of_type MEMORY d = true ∨ of_type NOF_SSD d = true.
Proof.
  unfold of_type, replica_type_of. intros ->. destruct (is_memory_replica d); auto.
Qed.

Lemma transferred_alloc evs op1 op2 rs cfg key slices :
  op1 = started rs cfg (new_op key slices) → transferred evs op1 op2 →
  allocated_memory_replicas (transfer_summary op2) = count_mem rs ∧
  allocated_nof_replicas (transfer_summary op2) = count_nof rs ∧
  op_replicas op1 = rs ∧ op_slices op1 = slices ∧
  ToReplicateConfig default_config op2 = mode_config cfg.
Proof.
  intros -> (Hsame & _ & Htr). destruct (Htr MEMORY eq_refl) as (Ham & _).
  destruct (Htr NOF_SSD eq_refl) as (Han & _). simpl in Ham, Han.
  unfold RecordAllocatedReplicas in Ham, Han. simpl in Ham, Han.
  rewrite recorded_allocation in Ham, Han. simpl in Ham, Han.
  rewrite Ham, Han. destruct Hsame as (_&_&_&_&_&Hm&Hn). simpl in Hm, Hn.
  unfold ToReplicateConfig, mode_config. rewrite Hm, Hn. by split_and!.
Qed.

Lemma success_stored evs op1 op2 rs cfg key slices :
  op1 = started rs cfg (new_op key slices) → transferred evs op1 op2 →
  let d := DetermineFinalizeDecision DetermineReplicaWriteMode
             (ToReplicateConfig default_config op2) (transfer_summary op2) in
  success d = true →
  (∀ t, end_type d = Some t → answered evs (true, t) key (Ok tt)) →
  stored evs cfg key slices rs.
Proof.
  intros Hop Htr d Hs Hans.
  destruct (transferred_alloc _ _ _ _ _ _ _ Hop Htr) as (Ham & Han & Hrs & Hsl & Hcfg).
  destruct Htr as (_ & _ & Htr). rewrite Hrs, Hsl in Htr.
  destruct (Htr MEMORY eq_refl) as (_ & _ & _ & _ & Hallm & Hexm).
  destruct (Htr NOF_SSD eq_refl) as (_ & _ & _ & _ & Halln & Hexn).
  simpl in Hallm, Hexm, Halln, Hexn.
  destruct (decision_success_inv _ _ _ Hs) as [Hrel Hflex]. fold d in Hrel, Hflex.
  rewrite Hcfg in Hrel, Hflex. split; intros Hmode.
  - destruct (Hrel Hmode) as (Halloc & Hall & Hend).
    unfold all_transfers_succeeded in Hall. unfold HasExpectedReplicaAllocation in Halloc.
    rewrite Hmode, Ham, Han in Halloc. bool_to_prop. simpl in Halloc.
    split_and!; [by apply Hans| | |].
    + intros Hz. rewrite Hz in Halloc. simpl in Halloc. by bool_to_prop.
    + intros Hz. destruct (Z.eqb_spec (nof_replica_num cfg) 0); [done|]. by bool_to_prop.
    + intros r Hr [Hm|Hn]%needs_transfer_type; auto.
  - destruct (Hflex Hmode) as [[Hlt Hc]|[Hlt Hc]].
    + destruct (Hexm Hlt) as (r & ? & Hk & ?). destruct (end_type d) as [t|] eqn:He; [|done].
      exists t, r. unfold of_type in Hk. bool_to_prop. split_and!; auto. congruence.
    + destruct (Hexn Hlt) as (r & ? & Hk & ?). destruct (end_type d) as [t|] eqn:He; [|done].
      exists t, r. unfold of_type in Hk. bool_to_prop. split_and!; auto. congruence.
Qed.

(** C2: when a key of a batch put ends in state [SUCCESS], the master had
    allocated replicas for it, its data was written to them as the replica
    policy demands, and the master accepted the end of the put. *)
Theorem batch_put_success_sound keys bs cfg h ops' evs i op' :
  run keys bs cfg h = (ops', evs) → ops' !! i = Some op' → op_state op' = SUCCESS →
  ∃ key rs,
    keys !! i = Some key ∧
    start_answer evs (CreatePutOperations keys bs) cfg i (Ok rs) ∧
    stored evs cfg key (default [] (bs !! i)) rs.
Proof.
  intros Hrun Hi Hs.
  destruct (batch_put_stages _ _ _ _ _ _ _ _ Hrun Hi)
    as (op1 & op2 & e1 & e2 & Hev & (Hkey & Hsl & Hns & _ & _ & Hstart) & Hx & Hout).
  destruct Hx as (_ & Hk2 & Hsucc & _ & Hpend). destruct Hout as (_ & _ & Hfin & _).
  destruct (Hfin Hs) as [Hbad|(Hp2 & _ & Hdec & Hans)]; [by apply Hsucc in Hbad|].
  destruct (Hpend Hp2) as (Hp1 & Hne & Htr).
  destruct (Hstart Hp1) as (rs & Hans1 & Hop1 & Hun). specialize (Htr Hun).
  exists (op_key op1), rs. split_and!; try done. rewrite <- Hsl.
  eapply success_stored; [exact Hop1|exact Htr|exact Hdec|].
  intros t Ht. eapply answered_mono; [|rewrite <- Hk2; apply Hans].
  - rewrite Hev. set_solver.
  - assert (op_replicas op2 ≠ []) by (destruct Htr as ((_&_&->&_)&_); done).
    apply IsResolved_false in Hp2. unfold BatchPutFacts.actions.
    rewrite Hp2, bool_decide_false, Ht by done. set_solver.
Qed.

(** a batch put produces exactly one result per key, every operation ends
    resolved, and [SUCCESS] and an error result never occur together. *)
Theorem batch_put_resolves keys bs cfg h ops' evs :
  run keys bs cfg h = (ops', evs) →
  length (CollectResults ops') = length keys ∧
  Forall (λ op, IsResolved op = true ∧
    (op_state op = SUCCESS ↔ op_result op = Ok tt)) ops'.
Proof.
  intros Hrun. split.
  { unfold CollectResults. rewrite length_fmap. by eapply batch_put_length. }
  apply Forall_lookup. intros i op' Hi.
  destruct (batch_put_stages _ _ _ _ _ _ _ _ Hrun Hi)
    as (op1 & op2 & e1 & e2 & _ & (_ & _ & Hns & Herr & _) & (_ & _ & Hsucc & Herr2 & _) & Hout).
  destruct Hout as (_ & Hres & _ & _ & Hkeep & Hpend). split; [done|].
  destruct (IsResolved op2) eqn:Hr2.
  - destruct (Hkeep eq_refl) as [-> Hre]. rewrite Hre. specialize (Herr2 Herr). split.
    + by intros Hs%Hsucc.
    + intros He. by rewrite He in Herr2.
  - apply IsResolved_false in Hr2. specialize (Hpend Hr2).
    clear -Hpend.
    destruct (op_result op') as [[]|e]; case_bool_decide; simpl in Hpend; by split.
Qed.

(** With an answer for every key, the replicas of each allocated key are ended or revoked. *)
Lemma answered_not_orphaned keys bs cfg h ops' evs i key rs t :
  run keys bs cfg h = (ops', evs) → keys !! i = Some key →
  start_answer evs (CreatePutOperations keys bs) cfg i (Ok rs) → rs ≠ [] →
  t = MEMORY ∨ t = NOF_SSD →
  ∃ is_end t', asked evs (is_end, t') key ∧ covers (Some t') t = true.
Proof.
  intros Hrun Hkey Hans Hrs Ht.
  assert (is_Some (ops' !! i)) as [op' Hi].
  { apply lookup_lt_is_Some. rewrite (batch_put_length _ _ _ _ _ _ Hrun).
    by eapply lookup_lt_Some. }
  destruct (batch_put_stages _ _ _ _ _ _ _ _ Hrun Hi)
    as (op1 & op2 & e1 & e2 & -> & (Hk1 & _ & Hns & _ & Hr1 & _) & (Hr2 & Hk2 & Hsucc & _) & Hout).
  destruct Hout as (_ & _ & _ & Hask & _).
  assert (Hne : op_replicas op2 ≠ []) by (rewrite Hr2, (Hr1 rs Hans); done).
  assert (Hkey2 : op_key op2 = key) by congruence. rewrite Hkey2 in Hask.
  assert (Hact : ∃ is_end t', (is_end, t') ∈ actions op2 ∧ covers (Some t') t = true).
  { destruct (IsResolved op2) eqn:Hr.
    - exists false, ALL. split; [|done]. unfold BatchPutFacts.actions. rewrite Hr.
      assert (IsSuccessful op2 = false) as ->.
      { unfold IsSuccessful. rewrite bool_decide_false; [done|]. tauto. }
      rewrite bool_decide_false by done. set_solver.
    - apply IsResolved_false in Hr.
      destruct (actions_pending DetermineReplicaWriteMode default_config op2 Hr Hne t Ht)
        as [[(t' & ? & ?) _]|[(t' & ? & ?) _]]; eauto. }
  destruct Hact as (is_end & t' & Hin & Hc). exists is_end, t'. split; [|done].
  eapply asked_mono; [|by apply Hask]. set_solver.
Qed.

(** An operation that needs it stands behind every finalize call. *)
Lemma asked_by_group ops3 pre e4 a key :
  Forall (λ e, ∃ a rs, e = finalize_event a
    (group_of DetermineReplicaWriteMode default_config ops3 a).*1 rs) e4 →
  Forall (λ e, is_finalize_event e = false) pre → asked (pre ++ e4) a key →
  ∃ i op, ops3 !! i = Some op ∧ op_key op = key ∧ a ∈ actions op.
Proof.
  intros Hfin Hnf (ks & rs & Hin & Hk). rewrite Forall_forall in Hnf, Hfin.
  apply elem_of_app in Hin as [Hin|Hin].
  - apply Hnf in Hin. by destruct a as [[] t].
  - apply Hfin in Hin as (a' & rs' & Heq).
    assert (a' = a ∧ ks = (group_of DetermineReplicaWriteMode default_config ops3 a').*1)
      as [-> ->] by (destruct a as [[] t], a' as [[] t']; by simplify_eq/=).
    apply list_elem_of_fmap in Hk as ([k i] & -> & Hg).
    apply elem_of_group in Hg as (op & ? & ? & ?). eauto.
Qed.

Lemma start_call_unique keys bs cfg h ops' evs answers answers' :
  run keys bs cfg h = (ops', evs) →
  start_call evs keys bs cfg answers → start_call evs keys bs cfg answers' → answers = answers'.
Proof.
  intros (h2 & h3 & ops1 & ops2 & ops3 & e1 & e2 & e3 & e4 & -> & R & _ & _ & _ & _ & _ & _ & Hns)
    %batch_put_run.
  apply start_put_run in R as (rs & Hu & _).
  intros H1'%start_call_before%Hu H2'%start_call_before%Hu; [congruence|done..].
Qed.

Lemma mismatch_orphans keys bs cfg h ops' evs answers :
  run keys bs cfg h = (ops', evs) → start_call evs keys bs cfg answers →
  length answers ≠ length keys →
  (∀ a key, ¬ asked evs a key) ∧ Forall (λ op', has_value (op_result op') = false) ops'.
Proof.
  intros Hrun Hcall Hlen. split.
  - intros a key Hask.
    apply batch_put_run in Hrun as (h2 & h3 & ops1 & ops2 & ops3 & e1 & e2 & e3 & e4 & -> &
      Hstart & Hsub & Hwait & _ & _ & Hfin & Hnf & Hns).
    destruct (start_put_run _ _ _ _ _ _ Hstart) as (rs & Hu & Hfail).
    rewrite <- (Hu answers) in Hfail by (by eapply start_call_before).
    specialize (Hfail Hlen) as ->.
    rewrite (app_assoc e2), (app_assoc e1) in Hask.
    destruct (asked_by_group _ _ _ _ _ Hfin Hnf Hask) as (i & op & Hi & _ & Ha).
    eapply (SubmitTransfers_wait c _ _ _ _ _ _ _ [] []) in Hi
      as (op1 & Hi1 & Hr & _ & Hsu & _ & Hp); [|exact Hsub|exact Hwait].
    rewrite list_lookup_fmap in Hi1. unfold CreatePutOperations in Hi1.
    rewrite list_lookup_imap in Hi1. destruct (keys !! i); [|done]. simplify_eq/=.
    unfold BatchPutFacts.actions in Ha. rewrite Hr, (bool_decide_true (_ = [])) in Ha by done.
    rewrite andb_false_r in Ha. destruct (IsResolved op); by apply elem_of_nil in Ha.
  - apply Forall_lookup. intros i op' Hi.
    destruct (batch_put_stages _ _ _ _ _ _ _ _ Hrun Hi)
      as (op1 & op2 & e1 & e2 & -> & (_ & _ & _ & Herr & _ & Hpend) & (_ & _ & _ & Herr2 & Hp2) & Hout).
    destruct Hout as (_ & _ & _ & _ & Hkeep & _). destruct (IsResolved op2) eqn:Hres.
    + destruct (Hkeep eq_refl) as [_ ->]. auto.
    + apply IsResolved_false in Hres. destruct (Hp2 Hres) as (Hp1 & _).
      destruct (Hpend Hp1) as (rs & (answers' & Hin & Hl & _) & _). exfalso. apply Hlen.
      rewrite (start_call_unique _ _ _ _ _ _ _ _ Hrun Hcall Hin), Hl. apply length_imap.
Qed.

(** C3: no allocated object is left behind when the master answers the start call with one
    entry per key: for every key it allocated replicas for, and for both transferable
    replica types, the batch put asks the master to end or to revoke the replicas of that
    type.  When the number of answers is wrong the whole batch fails and nothing is ended
    or revoked, so what the master did allocate stays with it. *)
Theorem batch_put_no_orphan keys bs cfg h ops' evs answers i key rs t :
  run keys bs cfg h = (ops', evs) → keys !! i = Some key →
  start_call evs keys bs cfg answers → answers !! i = Some (Ok rs) → rs ≠ [] →
  t = MEMORY ∨ t = NOF_SSD →
  (length answers = length keys ∧
   ∃ is_end t', asked evs (is_end, t') key ∧ covers (Some t') t = true) ∨
  (length answers ≠ length keys ∧ (∀ a k, ¬ asked evs a k) ∧
   Forall (λ op', has_value (op_result op') = false) ops').
Proof.
  intros Hrun Hkey Hcall Ha Hrs Ht. destruct (decide (length answers = length keys)) as [Hl|Hl].
  - left. split; [done|]. eapply answered_not_orphaned; [done..| |done|done].
    exists answers. split; [done|]. split; [|done]. rewrite Hl. symmetry. apply length_imap.
  - right. split; [done|]. by eapply mismatch_orphans.
Qed.

(** With distinct keys, one operation stands behind all finalize calls of a
    key, and it needs each of them. *)
Lemma asked_by_one keys bs cfg h ops' evs key :
  run keys bs cfg h = (ops', evs) → NoDup keys →
  ∃ op, ∀ a, asked evs a key → a ∈ actions op.
Proof.
  intros Hrun Hnd.
  apply batch_put_run in Hrun as (h2 & h3 & ops1 & ops2 & ops3 & e1 & e2 & e3 & e4 & -> &
    Hstart & Hsub & Hwait & _ & _ & Hfin & Hnf & _).
  assert (Hkeys : ∀ i op, ops3 !! i = Some op → keys !! i = Some (op_key op)).
  { intros i op Hi. eapply (SubmitTransfers_wait c _ _ _ _ _ _ _ [] []) in Hi
      as (op1 & Hi1 & _ & Hk & _); [|exact Hsub|exact Hwait].
    destruct (start_stage_intro _ _ _ _ _ _ _ _ Hstart Hi1) as (Hkey & _). congruence. }
  assert (Hop : ∀ a, asked (e1 ++ e2 ++ e3 ++ e4) a key →
    ∃ i op, ops3 !! i = Some op ∧ op_key op = key ∧ a ∈ actions op).
  { intros a Ha. rewrite (app_assoc e2), (app_assoc e1) in Ha. by eapply asked_by_group. }
  destruct (list_find (λ k, k = key) keys) as [[i k]|] eqn:Hf.
  - apply list_find_Some in Hf as (Hi & -> & _).
    destruct (ops3 !! i) as [op|] eqn:Hop3.
    + exists op. intros a Ha. destruct (Hop a Ha) as (j & op' & Hj & Hk & Hact).
      assert (j = i) as -> by (eapply NoDup_lookup; [exact Hnd| |exact Hi];
        rewrite (Hkeys j op' Hj); by f_equal).
      congruence.
    + exists (new_op "" []). intros a Ha. exfalso.
      destruct (Hop a Ha) as (j & op' & Hj & Hk & _).
      assert (j = i) as -> by (eapply NoDup_lookup; [exact Hnd| |exact Hi];
        rewrite (Hkeys j op' Hj); by f_equal).
      congruence.
  - exists (new_op "" []). intros a Ha. exfalso. apply list_find_None in Hf.
    destruct (Hop a Ha) as (j & op' & Hj & Hk & _). apply Hkeys in Hj. rewrite Hk in Hj.
    rewrite Forall_forall in Hf. by eapply (Hf key); [eapply list_elem_of_lookup_2|].
Qed.

(** C8: with distinct keys, a batch put never asks the master both to end and to
    revoke the same replicas of a key. *)
Theorem batch_put_end_revoke_exclusive keys bs cfg h ops' evs key t1 t2 t :
  run keys bs cfg h = (ops', evs) → NoDup keys →
  asked evs (true, t1) key → asked evs (false, t2) key →
  t = MEMORY ∨ t = NOF_SSD →
  covers (Some t1) t = true → covers (Some t2) t = false.
Proof.
  intros Hrun Hnd He Hr Ht Hc.
  destruct (asked_by_one _ _ _ _ _ _ key Hrun Hnd) as (op & Hop).
  apply Hop in He, Hr. revert He Hr Hc. clear -Ht.
  destruct (actions_cases DetermineReplicaWriteMode default_config op)
    as [->|[->|[->|[->| ->]]]]; rewrite ?elem_of_cons, ?elem_of_nil;
    destruct Ht as [-> | ->]; naive_solver.
Qed.
End BatchPutSpec.

(** ** Witnesses *)

Definition dual_replicas : list Descriptor :=
  [memory_at 100; MkDescriptor COMPLETE (NofReplica (MkBuffer 8 200 "ssd"))].
Definition dual_config : ReplicateConfig := MkConfig 1 1 "" false.

(** Two keys, a memory and a NoF replica each, in the flexible mode; the
    transfers to the addresses in [broken] fail. *)
Definition sample_batch (broken : list Z) : list PutOperation * list event :=
  @batch_put_ops (sample_master dual_replicas) (sample_submitter broken) sample_storage
    (λ _, FLEXIBLE_DUAL_REPLICA) (λ _, "") dual_config sample_client
    (CreatePutOperations ["a"; "b"] [sample_slices; sample_slices]) dual_config [].

Definition sample_op (i : nat) (broken : list Z) : PutOperation :=
  default (new_op "" []) ((sample_batch broken).1 !! i).

Lemma sample_asked_end broken :
  broken = [200] → asked (sample_batch broken).2 (true, MEMORY) "b".
Proof. intros ->. exists ["a"; "b"], [Ok tt; Ok tt]. split; evaluate. Qed.

Lemma sample_asked_revoke broken :
  broken = [200] → asked (sample_batch broken).2 (false, NOF_SSD) "b".
Proof. intros ->. exists ["a"; "b"], [Ok tt; Ok tt]. split; evaluate. Qed.

Lemma batch_put_success_sound_witness :
  ∃ key rs, ["a"; "b"] !! 1%nat = Some key ∧
    stored (λ _, FLEXIBLE_DUAL_REPLICA) dual_config (sample_batch [200]).2 dual_config key
      sample_slices rs.
Proof.
  destruct (@batch_put_success_sound (sample_master dual_replicas) (sample_submitter [200])
    sample_storage (λ _, FLEXIBLE_DUAL_REPLICA) (λ _, "") dual_config sample_client
    ["a"; "b"] [sample_slices; sample_slices] dual_config [] (sample_batch [200]).1
    (sample_batch [200]).2 1 (sample_op 1 [200])) as (key & rs & Hk & _ & Hst).
  - by vm_compute.
  - by vm_compute.
  - by vm_compute.
  - by exists key, rs.
Defined.

Lemma batch_put_resolves_witness :
  Forall (λ op, IsResolved op = true ∧ (op_state op = SUCCESS ↔ op_result op = Ok tt))
    (sample_batch [100; 200]).1.
Proof.
  apply (@batch_put_resolves (sample_master dual_replicas) (sample_submitter [100; 200])
    sample_storage (λ _, FLEXIBLE_DUAL_REPLICA) (λ _, "") dual_config sample_client
    ["a"; "b"] [sample_slices; sample_slices] dual_config [] (sample_batch [100; 200]).1
    (sample_batch [100; 200]).2). by vm_compute.
Defined.

Lemma batch_put_no_orphan_witness :
  ∃ is_end t', asked (sample_batch [200]).2 (is_end, t') "b" ∧ covers (Some t') NOF_SSD = true.
Proof.
  destruct (@batch_put_no_orphan (sample_master dual_replicas) (sample_submitter [200])
    sample_storage (λ _, FLEXIBLE_DUAL_REPLICA) (λ _, "") dual_config sample_client
    ["a"; "b"] [sample_slices; sample_slices] dual_config [] (sample_batch [200]).1
    (sample_batch [200]).2 [Ok dual_replicas; Ok dual_replicas] 1 "b" dual_replicas NOF_SSD)
    as [[_ Hok]|[Hl _]].
  - by vm_compute.
  - done.
  - apply list_elem_of_In. by vm_compute; auto 20.
  - done.
  - done.
  - by right.
  - exact Hok.
  - done.
Defined.

Lemma batch_put_end_revoke_exclusive_witness : covers (Some NOF_SSD) MEMORY = false.
Proof.
  apply (@batch_put_end_revoke_exclusive (sample_master dual_replicas) (sample_submitter [200])
    sample_storage (λ _, FLEXIBLE_DUAL_REPLICA) (λ _, "") dual_config sample_client
    ["a"; "b"] [sample_slices; sample_slices] dual_config [] (sample_batch [200]).1
    (sample_batch [200]).2 "b" MEMORY NOF_SSD MEMORY).
  - by vm_compute.
  - evaluate.
  - by apply sample_asked_end.
  - by apply sample_asked_revoke.
  - by left.
  - done.
Defined.
