(* ===== verification/BatchUpsertSpec.v ===== *)
(** * What [Client::BatchUpsert] guarantees, and what it does not *)

From S2P Require Import Prelude CxxString StoreTypes ReplicaPolicy Samples PutPath BatchPut.
From S2P Require Import BatchPutFacts.
From stdpp Require Import base strings list sets gmap fin_maps.
From Stdlib Require Import ZArith Lia.

#[local] Open Scope Z_scope.
#[local] Set Default Proof Using "Type".

Section UpsertSpec.
Context `{!MasterClient, !TransferSubmitter, !HotCache, !StorageBackend, !Clock}.
Context (toString : ErrorCode → string).
Context (c : Client).

(** The master accepted the end of the upsert of [key]. *)
Definition upsert_ended (evs : list event) (key : ObjectKey) : Prop :=
  ∃ keys rs j, EMaster (BatchUpsertEnd keys rs) ∈ evs ∧ length rs = length keys ∧
    keys !! j = Some key ∧ rs !! j = Some (Ok tt).

Lemma elem_of_select p ops k i :
  (k, i) ∈ select_ops p ops ↔ ∃ op, ops !! i = Some op ∧ op_key op = k ∧ p op = true.
Proof.
  unfold select_ops. rewrite list_elem_of_omap. split.
  - intros ([j op] & Hin & Hsome). simpl in Hsome. destruct (p op) eqn:Hp; [|done].
    apply elem_of_indexed in Hin. simplify_eq/=. eauto.
  - intros (op & Hi & <- & Hp). exists (i, op). simpl. rewrite Hp. split; [|done].
    by apply elem_of_indexed.
Qed.

Lemma select_nodup p ops : NoDup (select_ops p ops).*2.
Proof.
  apply omap_indexed_nodup. intros i op y. simpl. case_match; by intros [= <-].
Qed.

(** The update an end response makes. *)
Definition end_update (r : expected unit) : PutOperation → PutOperation :=
  match r with Ok _ => SetSuccess | Err e => SetError toString e "BatchUpsertEnd failed" end.

Lemma end_responses_alter l ops :
  fold_left (upsert_end_response toString) l ops =
  fold_left (λ xs b, alter (end_update b.2) b.1.2 xs) l ops.
Proof. revert ops. induction l as [|[[k j] [[]|e]] l IH]; intros ops; [done|apply IH..]. Qed.

Lemma SetError_not_success e ctx op : op_state (SetError toString e ctx op) ≠ SUCCESS.
Proof. unfold SetError. simpl. by repeat case_match. Qed.

(** An update that sets errors, at the positions [sel]. *)
Lemma mismatch_lookup ctx sel ops i op1 :
  NoDup sel.*2 →
  fold_left (upsert_size_mismatch toString ctx) sel ops !! i = Some op1 →
  ∃ op, ops !! i = Some op ∧ op_key op1 = op_key op ∧
    (op_state op1 = SUCCESS → op_state op = SUCCESS).
Proof.
  intros Hnd Hi.
  destruct (fold_alter_lookup (snd : ObjectKey * nat → nat)
    (λ _, SetError toString RPC_FAIL ctx) sel ops i Hnd) as [Hout Hin].
  change (fold_left (λ xs b, alter (SetError toString RPC_FAIL ctx) b.2 xs) sel ops)
    with (fold_left (upsert_size_mismatch toString ctx) sel ops) in Hout, Hin.
  destruct (decide (i ∈ sel.*2)) as [Hs|Hs].
  - apply list_elem_of_fmap in Hs as ([k j] & Heq & Hkj). simpl in Heq. subst j.
    rewrite (Hin _ Hkj eq_refl) in Hi. destruct (ops !! i) as [op|]; [|done].
    simplify_eq/=. exists op. split_and!; try done. intros Hbad.
    exfalso. by apply (SetError_not_success RPC_FAIL ctx op).
  - rewrite Hout in Hi by done. by exists op1.
Qed.

Lemma end_upserts_lookup ops h ops1 fin evs i op1 :
  end_upserts toString ops h = ((ops1, fin), evs) → ops1 !! i = Some op1 →
  ∃ op, ops !! i = Some op ∧ op_key op1 = op_key op ∧
    (op_state op1 = SUCCESS → op_state op ≠ SUCCESS →
       upsert_to_end op = true ∧ upsert_ended evs (op_key op)).
Proof.
  unfold end_upserts. set (sel := select_ops upsert_to_end ops). intros Hrun Hi.
  case_bool_decide as Hsel.
  { apply ret_inv in Hrun as [[= -> ->] ->]. exists op1. by split_and!. }
  apply bind_inv in Hrun as (rs & e1 & e2 & Hcall & Hrun & ->).
  apply call_inv in Hcall as [_ ->].
  destruct (Nat.eqb_spec (length rs) (length sel)) as [Hlen|Hlen]; simpl in Hrun;
    apply ret_inv in Hrun as [[= -> ->] ->].
  2: { apply mismatch_lookup in Hi as (op & ? & ? & Hs); [|apply select_nodup].
       exists op. split_and!; try done. intros Hs1 Hs2. by apply Hs in Hs1. }
  rewrite end_responses_alter in Hi.
  assert (Hz : (λ b : (ObjectKey * nat) * expected unit, b.1.2) <$> zip sel rs = sel.*2)
    by (etrans; [apply (list_fmap_compose fst snd)|]; by rewrite fst_zip by lia).
  destruct (fold_alter_lookup (λ b : (ObjectKey * nat) * expected unit, b.1.2)
    (λ b, end_update b.2) (zip sel rs) ops i) as [Hout Hin].
  { rewrite Hz. apply select_nodup. }
  rewrite Hz in Hout. destruct (decide (i ∈ sel.*2)) as [Hs|Hs].
  2: { rewrite Hout in Hi by done. by exists op1. }
  apply list_elem_of_fmap in Hs as ([k j] & Heq & Hkj). simpl in Heq. subst j.
  pose proof (proj1 (elem_of_select _ _ _ _) Hkj) as (op & Hop & Hk & Hend).
  apply list_elem_of_lookup in Hkj as [n Hn].
  assert (is_Some (rs !! n)) as [r Hr]
    by (apply lookup_lt_is_Some; rewrite Hlen; by eapply lookup_lt_Some).
  rewrite (Hin ((k, i), r)), Hop in Hi; [|apply list_elem_of_lookup; exists n;
    by rewrite lookup_zip_with, Hn; simpl; rewrite Hr|done].
  simplify_eq/=. exists op. destruct r as [[]|e]; simpl.
  - split_and!; try done. intros _ _. split; [done|].
    exists sel.*1, rs, n. rewrite length_fmap, list_lookup_fmap, Hn.
    split_and!; try done. set_solver.
  - split_and!; try done. intros Hbad. exfalso.
    by apply (SetError_not_success e "BatchUpsertEnd failed" op).
Qed.

Lemma revoke_upserts_lookup failed ops h ops1 evs i op1 :
  NoDup failed.*2 →
  revoke_upserts toString failed ops h = (ops1, evs) → ops1 !! i = Some op1 →
  ∃ op, ops !! i = Some op ∧ op_key op1 = op_key op ∧
    (op_state op1 = SUCCESS → op_state op = SUCCESS).
Proof.
  unfold revoke_upserts. intros Hnd Hrun Hi. case_bool_decide.
  { apply ret_inv in Hrun as [-> ->]. by exists op1. }
  apply bind_inv in Hrun as (rs & e1 & e2 & _ & Hrun & ->).
  destruct (length rs =? length failed)%nat; simpl in Hrun; apply ret_inv in Hrun as [-> ->];
    [|by eapply mismatch_lookup].
  revert Hi. generalize (zip failed rs) as l. clear. intros l. revert ops op1.
  induction l as [|[[k j] [[]|e]] l IH]; intros ops op1 Hi; cbn [fold_left] in Hi.
  - by exists op1.
  - by apply IH.
  - apply IH in Hi as (op & Hop & Hk & Hs). unfold upsert_revoke_response in Hop.
    destruct (decide (i = j)) as [->|Hij].
    + rewrite list_lookup_alter_eq in Hop. destruct (ops !! j) as [op0|]; [|done].
      simplify_eq/=. exists op0. by split_and!.
    + rewrite list_lookup_alter_ne in Hop by done. exists op. by split_and!.
Qed.

Lemma FinalizeBatchUpsert_success ops h ops' evs i op' :
  FinalizeBatchUpsert toString c ops h = (ops', evs) → ops' !! i = Some op' →
  ∃ op, ops !! i = Some op ∧ op_key op' = op_key op ∧ IsResolved op' = true ∧
    (op_state op' = SUCCESS → op_state op ≠ SUCCESS →
       upsert_to_end op = true ∧ upsert_ended evs (op_key op)).
Proof.
  unfold FinalizeBatchUpsert. intros Hrun Hi.
  apply bind_inv in Hrun as ([ops1 fin] & e1 & ? & Hend & Hrun & ->).
  apply bind_inv in Hrun as (? & e2 & ? & _ & Hrun & ->).
  apply bind_inv in Hrun as (ops2 & e3 & ? & Hrev & Hrun & ->).
  apply ret_inv in Hrun as [-> ->]. rewrite list_lookup_fmap in Hi.
  destruct (ops2 !! i) as [op2|] eqn:Hi2; [|done]. injection Hi as <-.
  eapply revoke_upserts_lookup in Hi2 as (op1 & Hi1 & Hk1 & Hs1);
    [|apply select_nodup|exact Hrev].
  eapply end_upserts_lookup in Hi1 as (op & Hi0 & Hk0 & Hs0); [|exact Hend].
  exists op. unfold resolve_leftover. destruct (IsResolved op2) eqn:Hr.
  - split_and!; try done; [congruence|]. intros Hs Hn. destruct (Hs0 (Hs1 Hs) Hn) as [Ht Hu].
    split; [done|]. destruct Hu as (ks & rs & j & Hin & Hrest). exists ks, rs, j.
    split; [set_solver|done].
  - split_and!; try done; [simpl; congruence| |].
    + unfold IsResolved, SetError. simpl. by repeat case_match.
    + intros Hbad. exfalso. by eapply SetError_not_success.
Qed.

(** The master's answer to entry [i] of the start call. *)
Definition upsert_start_answer (evs : list event) (ops : list PutOperation)
    (cfg : ReplicateConfig) (i : nat) (r : expected (list Descriptor)) : Prop :=
  ∃ rs, EMaster (BatchUpsertStart (op_key <$> ops) ((λ op, slice_size <$> op_slices op) <$> ops)
          cfg rs) ∈ evs ∧ length rs = length ops ∧ rs !! i = Some r.

Lemma StartBatchUpsert_lookup keys bs cfg h ops1 evs i op1 :
  StartBatchUpsert toString c (CreatePutOperations keys bs) cfg h = (ops1, evs) →
  ops1 !! i = Some op1 →
  keys !! i = Some (op_key op1) ∧ op_slices op1 = default [] (bs !! i) ∧
  op_state op1 ≠ SUCCESS ∧ untransferred op1 ∧
  (op_state op1 = PENDING →
     upsert_start_answer evs (CreatePutOperations keys bs) cfg i (Ok (op_replicas op1))).
Proof.
  unfold StartBatchUpsert. intros Hrun Hi.
  apply bind_inv in Hrun as (? & pre & ? & _ & Hrun & ->).
  apply bind_inv in Hrun as (rs & ? & ? & Hcall & Hrun & ->).
  apply call_inv in Hcall as [_ ->].
  assert (Hop : ∀ op0, CreatePutOperations keys bs !! i = Some op0 →
    ∃ key, keys !! i = Some key ∧ op0 = new_op key (default [] (bs !! i))).
  { intros op0 Hop0. unfold CreatePutOperations in Hop0. rewrite list_lookup_imap in Hop0.
    destruct (keys !! i) as [key|]; [|done]. simplify_eq/=. eauto. }
  assert (Hun : ∀ key sl st r ctx rs', untransferred
    (set_state st r ctx (set_replicas rs' (new_op key sl)))) by (split; [done|by destruct t]).
  destruct (Nat.eqb_spec (length rs) (length (CreatePutOperations keys bs))) as [Hlen|Hlen];
    simpl in Hrun; apply ret_inv in Hrun as [-> ->].
  - rewrite lookup_zip_with in Hi.
    destruct (CreatePutOperations keys bs !! i) as [op0|] eqn:E; [|done].
    destruct (rs !! i) as [r|] eqn:Hr; [|done]. simplify_eq/=.
    destruct (Hop op0 eq_refl) as (key & -> & ->). destruct r as [reps|e]; simpl.
    + split_and!; try done; [split; [done|by destruct t]|].
      intros _. exists rs. split; [set_solver|done].
    + split_and!; try done. apply Hun.
  - rewrite list_lookup_fmap in Hi.
    destruct (CreatePutOperations keys bs !! i) as [op0|] eqn:E; [|done].
    simplify_eq/=. destruct (Hop op0 eq_refl) as (key & -> & ->).
    split_and!; try done. apply Hun.
Qed.

(** when a key of a batch upsert ends in state [SUCCESS], the master had
    allocated replicas for it and accepted its end, and at least one of its
    replicas was handed to the transfer engine.  This is all that success of
    a batch upsert says: see [batch_upsert_reports_failed_transfer]. *)
Theorem batch_upsert_success keys bs cfg h ops' evs i op' :
  batch_upsert_ops toString c (CreatePutOperations keys bs) cfg h = (ops', evs) →
  ops' !! i = Some op' → op_state op' = SUCCESS →
  ∃ key rs d f,
    keys !! i = Some key ∧
    upsert_start_answer evs (CreatePutOperations keys bs) cfg i (Ok rs) ∧
    upsert_ended evs key ∧
    d ∈ rs ∧ needs_transfer d = true ∧
    ETransfer (Submit d (default [] (bs !! i)) WRITE (Some f)) ∈ evs.
Proof.
  unfold batch_upsert_ops. intros Hrun Hi Hs.
  apply bind_inv in Hrun as (ops1 & e1 & ? & Hstart & Hrun & ->).
  apply bind_inv in Hrun as (ops2 & e2 & ? & Hsub & Hrun & ->).
  apply bind_inv in Hrun as (ops3 & e3 & e4 & Hwait & Hrun & ->).
  eapply FinalizeBatchUpsert_success in Hrun as (op3 & Hi3 & Hk & _ & Hfin); [|exact Hi].
  destruct (SubmitTransfers_wait c _ _ _ _ _ _ _ e1 e4 i op3 Hsub Hwait Hi3)
    as (op1 & Hi1 & Hr3 & Hk3 & Hs3 & _ & Hp3).
  destruct (StartBatchUpsert_lookup _ _ _ _ _ _ _ _ Hstart Hi1) as (Hkey & Hsl & Hns & Hun & Hans).
  destruct (Hfin Hs) as [Hend Hended]; [tauto|]. unfold upsert_to_end in Hend. bool_to_prop.
  destruct (Hp3 ltac:(by apply IsResolved_false)) as (Hp1 & _ & Htr).
  destruct (Htr Hun) as (_ & Hpend & _).
  destruct (pending_transfers op3) as [|p ps]; [done|].
  destruct (Hpend p ltac:(set_solver)) as (d & Hd & Hn & Hsubm).
  exists (op_key op1), (op_replicas op1), d, (pt_future p). rewrite <- Hsl. split_and!; try done.
  - destruct (Hans Hp1) as (rs & Hin & Hrest). exists rs. split; [set_solver|done].
  - rewrite <- Hk3. destruct Hended as (ks & rs & j & Hin & Hrest). exists ks, rs, j.
    split; [set_solver|done].
Qed.
End UpsertSpec.

(** ** A failed transfer reported as success *)

Definition sample_batch_upsert (broken : list Z) : io (list (expected unit)) :=
  @BatchUpsert (sample_master [memory_at 100]) (sample_submitter broken) sample_storage
    (λ _, "") sample_client ["k"] [sample_slices] sample_config.

(** a batch upsert whose only transfer failed is ended on the master and
    reported as successful, while the single-object [Upsert] in the same
    environment revokes and returns the transfer error. *)
Theorem batch_upsert_reports_failed_transfer :
  value_of (sample_batch_upsert [100]) [] = [Ok tt] ∧
  ETransfer (FutureGet 100 TRANSFER_FAIL) ∈ emitted (sample_batch_upsert [100]) [] ∧
  (ETransfer (FutureGet 100 OK) ∉ emitted (sample_batch_upsert [100]) []) ∧
  EMaster (BatchUpsertEnd ["k"] [Ok tt]) ∈ emitted (sample_batch_upsert [100]) [] ∧
  value_of (@Upsert (sample_master [memory_at 100]) (sample_submitter [100]) sample_storage
    sample_client "k" sample_slices sample_config) [] = Err TRANSFER_FAIL.
Proof. evaluate. Qed.

Lemma batch_upsert_success_witness :
  let run := @batch_upsert_ops (sample_master two_replicas) (sample_submitter []) sample_storage
    (λ _, "") sample_client (CreatePutOperations ["k"] [sample_slices]) sample_config [] in
  ∃ key d f, ["k"] !! 0%nat = Some key ∧ upsert_ended run.2 key ∧
    ETransfer (Submit d sample_slices WRITE (Some f)) ∈ run.2.
Proof.
  intros run.
  destruct (@batch_upsert_success (sample_master two_replicas) (sample_submitter [])
    sample_storage (λ _, "") sample_client ["k"] [sample_slices] sample_config []
    run.1 run.2 0
    (default (new_op "" []) (run.1 !! 0%nat))) as (key & rs & d & f & Hk & _ & He & _ & _ & Hs).
  - by vm_compute.
  - by vm_compute.
  - by vm_compute.
  - by exists key, d, f.
Defined.
