(* ===== verification/GetPath.v ===== *)
(** * Reading objects ([mooncake-store/src/client_service.cpp])

    [Query], [Get], [BatchGet] and their helpers: choice of the replica,
    redirection to the local hot cache (which pins a block until it is
    released), the transfer, the admission to the hot cache, and the lease
    check at the end.  Also the removal operations, which keep the hot cache
    coherent. *)

From S2P Require Import Prelude CxxString StoreTypes ReplicaPolicy Samples PutPath.
From stdpp Require Import base strings list sets gmap fin_maps.
From Stdlib Require Import ZArith Lia.

#[local] Open Scope Z_scope.
#[local] Set Default Proof Using "Type".

(** ** Choice of a replica *)

Definition is_complete (d : Descriptor) : bool := bool_decide (status d = COMPLETE).

(** [Some r]: returns [OK] and writes [r]; [None]: [INVALID_REPLICA]. *)
Definition FindFirstCompleteReplica (replica_list : list Descriptor) : option Descriptor :=
  List.find is_complete replica_list.

Definition memory_endpoint (d : Descriptor) : option string :=
  match data d with MemoryReplica b => Some (transport_endpoint_ b) | _ => None end.
Definition nof_endpoint (d : Descriptor) : option string :=
  match data d with NofReplica b => Some (transport_endpoint_ b) | _ => None end.

Definition is_local (endpoint : Descriptor → option string) (local_endpoints : list string)
    (d : Descriptor) : bool :=
  match endpoint d with Some e => bool_decide (e ∈ local_endpoints) | None => false end.

(** [mounted] holds the [te_endpoint] of every mounted segment. *)
Definition GetPreferredReplica (mounted : list string) (replica_list : list Descriptor)
  : expected Descriptor :=
  match replica_list with
  | [] => Err INVALID_PARAMS
  | first :: rest =>
      if bool_decide (mounted = []) || bool_decide (rest = []) then Ok first
      else
        match List.find (is_local memory_endpoint mounted) replica_list with
        | Some rep => Ok rep
        | None =>
            match List.find (is_local nof_endpoint mounted) replica_list with
            | Some rep => Ok rep
            | None => Ok first
            end
        end
  end.

Section Get.
Context `{!MasterClient, !TransferSubmitter, !HotCache, !StorageBackend, !Clock}.
Context (c : Client).

(** ** Queries *)

Definition IsLeaseExpired (q : QueryResult) (now : Z) : bool := lease_timeout q <=? now.

Definition Query (key : ObjectKey) : io (expected QueryResult) :=
  let! start_time := clock_now in
  let! result := master_get_replica_list key in
  match result with
  | Err e => ret (Err e)
  | Ok r => ret (Ok (MkQueryResult (rl_replicas r) (start_time + lease_ttl_ms r)))
  end.

Definition query_of_response (start_time : Z) (r : expected GetReplicaListResponse)
  : expected QueryResult :=
  result_map (λ r, MkQueryResult (rl_replicas r) (start_time + lease_ttl_ms r)) r.

Definition BatchQuery (keys : list ObjectKey) : io (list (expected QueryResult)) :=
  let! start_time := clock_now in
  let! response := master_batch_get_replica_list keys in
  if negb (length response =? length keys)%nat
  then ret (replicate (length keys) (Err RPC_FAIL))
  else ret (query_of_response start_time <$> response).

(** ** Hot cache *)

(** [Some r]: the replica now describes the local cache block. *)
Definition RedirectToHotCache (key : ObjectKey) (replica : Descriptor)
  : io (option Descriptor) :=
  match data replica with
  | MemoryReplica b =>
      if negb (has_hot_cache c) then ret None
      else
        let! blk := cache_get key in
        match blk with
        | None => ret None
        | Some blk =>
            if negb (size_ b =? hot_size blk) then ret None
            else ret (Some (MkDescriptor (status replica)
                   (MemoryReplica (MkBuffer (size_ b) (hot_addr blk) (own_endpoint c)))))
        end
  | _ => ret None
  end.

(** [replica] and [cache_used] after the cache lookup. *)
Definition lookup_cache (key : ObjectKey) (replica : Descriptor) : io (Descriptor * bool) :=
  if has_hot_cache c && is_memory_replica replica then
    let! redirected := RedirectToHotCache key replica in
    match redirected with
    | Some r => ret (r, true)
    | None => ret (replica, false)
    end
  else ret (replica, false).

Definition release_cache (key : ObjectKey) (cache_used : bool) : io unit :=
  when (has_hot_cache c && cache_used) (cache_do (ReleaseHotKey key)).

Definition ShouldAdmitToHotCache (key : ObjectKey) (cache_used : bool) : io bool :=
  if negb (has_hot_cache c && negb cache_used) then ret false
  else if negb (has_admission_sketch c) then ret true
  else
    let! n := cache_sketch_increment key in
    ret (admission_threshold_ c <=? n).

Definition IsReplicaOnLocalMemory (replica : Descriptor) : bool :=
  match data replica with
  | MemoryReplica b => bool_decide (transport_endpoint_ b = own_endpoint c)
  | _ => false
  end.

Fixpoint submit_put_tasks (key : ObjectKey) (slices : list Slice) : io unit :=
  match slices with
  | [] => ret tt
  | s :: slices' =>
      let! ok := cache_submit_put key s in
      if ok then submit_put_tasks key slices' else ret tt
  end.

Definition ProcessSlicesAsync (key : ObjectKey) (slices : list Slice) (replica : Descriptor)
  : io unit :=
  if negb (has_hot_cache c && is_memory_replica replica) then ret tt
  else if negb (hot_cache_is_shm c) && IsReplicaOnLocalMemory replica then ret tt
  else submit_put_tasks key slices.

Definition promote_to_cache (key : ObjectKey) (slices : list Slice) (replica : Descriptor)
    (cache_used : bool) : io unit :=
  let! ok := ShouldAdmitToHotCache key cache_used in
  when ok (ProcessSlicesAsync key slices replica).

(** ** Get *)

(** [Get(object_key, query_result, slices)] *)
Definition Get_query (key : ObjectKey) (query_result : QueryResult) (slices : list Slice)
  : io (expected unit) :=
  match FindFirstCompleteReplica (replicas query_result) with
  | None => ret (Err INVALID_REPLICA)
  | Some replica =>
      let! lookup := lookup_cache key replica in
      let replica := lookup.1 in
      let cache_used := lookup.2 in
      let! err := TransferRead c replica slices in
      release_cache key cache_used ;;;
      if negb (bool_decide (err = OK)) then ret (Err err)
      else
        promote_to_cache key slices replica cache_used ;;;
        let! now := clock_now in
        ret (if IsLeaseExpired query_result now then Err LEASE_EXPIRED else Ok tt)
  end.

(** [Get(object_key, query_result, slices, src_offset)] *)
Definition Get_range (key : ObjectKey) (query_result : QueryResult) (slices : list Slice)
    (src_offset : Z) : io (expected unit) :=
  match FindFirstCompleteReplica (replicas query_result) with
  | None => ret (Err INVALID_REPLICA)
  | Some replica =>
      if negb (is_memory_replica replica) then ret (Err INVALID_REPLICA)
      else
        let! err := TransferReadRange c replica slices src_offset in
        if negb (bool_decide (err = OK)) then ret (Err err)
        else
          let! now := clock_now in
          ret (if IsLeaseExpired query_result now then Err LEASE_EXPIRED else Ok tt)
  end.

(** [Get(object_key, slices)] *)
Definition Get (key : ObjectKey) (slices : list Slice) : io (expected unit) :=
  let! query_result := Query key in
  match query_result with
  | Err e => ret (Err e)
  | Ok q => Get_query key q slices
  end.

(** ** BatchGet *)

Record pending_get := MkPendingGet {
  pg_index : nat;
  pg_key : ObjectKey;
  pg_future : TransferFuture;
  pg_replica : Descriptor;
  pg_cache_used : bool }.

(** Submission for one key: its provisional result and pending transfer. *)
Definition submit_get (slices : gmap string (list Slice))
    (ikq : nat * (ObjectKey * QueryResult)) : io (expected unit * option pending_get) :=
  let '(i, (key, query_result)) := ikq in
  match slices !! key with
  | None => ret (Err INVALID_PARAMS, None)
  | Some ss =>
      match FindFirstCompleteReplica (replicas query_result) with
      | None => ret (Err INVALID_REPLICA, None)
      | Some replica =>
          let! lookup := lookup_cache key replica in
          let! future := transfer_submit lookup.1 ss READ in
          match future with
          | None => release_cache key lookup.2 ;;; ret (Err TRANSFER_FAIL, None)
          | Some f => ret (Ok tt, Some (MkPendingGet i key f lookup.1 lookup.2))
          end
      end
  end.

Definition wait_get (slices : gmap string (list Slice)) (results : list (expected unit))
    (p : pending_get) : io (list (expected unit)) :=
  let! result := future_get (pg_future p) in
  release_cache (pg_key p) (pg_cache_used p) ;;;
  if negb (bool_decide (result = OK)) then ret (<[pg_index p := Err result]> results)
  else
    (match slices !! pg_key p with
     | Some ss => when (has_hot_cache c) (promote_to_cache (pg_key p) ss (pg_replica p) (pg_cache_used p))
     | None => ret tt
     end) ;;;
    ret (<[pg_index p := Ok tt]> results).

Definition check_lease (now : Z) (r : expected unit) (q : QueryResult) : expected unit :=
  match r with
  | Ok _ => if IsLeaseExpired q now then Err LEASE_EXPIRED else r
  | Err _ => r
  end.

Definition batch_get_parallel (keys : list ObjectKey) (query_results : list QueryResult)
    (slices : gmap string (list Slice)) : io (list (expected unit)) :=
  let! submitted := mmap (submit_get slices) (indexed (zip keys query_results)) in
  let! results := mfold (wait_get slices) submitted.*1 (omap snd submitted) in
  let! now := clock_now in
  ret (zip_with (check_lease now) results query_results).

(** ** The same-node variant *)

Record BatchGetOperation := MkGetOp {
  go_replicas : list Descriptor;
  go_batched_slices : list (list Slice);
  go_key_indexes : list nat;
  go_cache_used : list bool;
  go_futures : list TransferFuture }.

Definition empty_get_op : BatchGetOperation := MkGetOp [] [] [] [] [].

(** The iteration order of the [std::unordered_map] [seg_to_op_map]. *)
Context (iteration : gmap string BatchGetOperation → list (string * BatchGetOperation)).

Definition same_node_state : Type :=
  list (expected unit) * gmap string BatchGetOperation.

Definition group_get (slices : gmap string (list Slice)) (st : same_node_state)
    (ikq : nat * (ObjectKey * QueryResult)) : io same_node_state :=
  let '(results, m) := st in
  let '(i, (key, query_result)) := ikq in
  let fail e := (<[i := Err e]> results, m) in
  match slices !! key with
  | None => ret (fail INVALID_PARAMS)
  | Some ss =>
      match FindFirstCompleteReplica (replicas query_result) with
      | None => ret (fail INVALID_REPLICA)
      | Some replica =>
          if negb (is_memory_replica replica) then ret (fail INVALID_REPLICA)
          else
            let! lookup := lookup_cache key replica in
            match data lookup.1 with
            | MemoryReplica b =>
                if size_ b =? 0 then ret (fail INVALID_REPLICA)
                else
                  let seg := transport_endpoint_ b in
                  let op := default empty_get_op (m !! seg) in
                  ret (results,
                       <[seg := MkGetOp (go_replicas op ++ [lookup.1])
                                  (go_batched_slices op ++ [ss]) (go_key_indexes op ++ [i])
                                  (go_cache_used op ++ [lookup.2]) (go_futures op)]> m)
            | _ => ret (results, m)
            end
      end
  end.

(** Failure of a whole segment: release the pinned blocks, set the error. *)
Definition fail_segment_key (keys : list ObjectKey) (op : BatchGetOperation)
    (results : list (expected unit)) (idx_index : nat * nat) : io (list (expected unit)) :=
  let '(idx, index) := idx_index in
  release_cache (default "" (keys !! index)) (default false (go_cache_used op !! idx)) ;;;
  ret (<[index := Err TRANSFER_FAIL]> results).

Definition submit_segment_read (keys : list ObjectKey)
    (acc : list (expected unit) * list BatchGetOperation) (seg_op : string * BatchGetOperation)
  : io (list (expected unit) * list BatchGetOperation) :=
  let '(results, ops) := acc in
  let op := seg_op.2 in
  let! future := transfer_submit_batch (go_replicas op) (go_batched_slices op) READ in
  match future with
  | None =>
      let! results := mfold (fail_segment_key keys op) results (indexed (go_key_indexes op)) in
      ret (results, ops ++ [op])
  | Some f =>
      ret (results, ops ++ [MkGetOp (go_replicas op) (go_batched_slices op) (go_key_indexes op)
                              (go_cache_used op) (go_futures op ++ [f])])
  end.

Definition complete_segment_key (keys : list ObjectKey) (op : BatchGetOperation)
    (results : list (expected unit)) (idx_index : nat * nat) : io (list (expected unit)) :=
  let '(idx, index) := idx_index in
  let key := default "" (keys !! index) in
  let cache_used := default false (go_cache_used op !! idx) in
  release_cache key cache_used ;;;
  (match go_replicas op !! idx, go_batched_slices op !! idx with
   | Some replica, Some ss => promote_to_cache key ss replica cache_used
   | _, _ => ret tt
   end) ;;;
  ret (<[index := Ok tt]> results).

Definition wait_segment (keys : list ObjectKey) (results : list (expected unit))
    (op : BatchGetOperation) : io (list (expected unit)) :=
  match go_futures op with
  | [] => ret results
  | f :: _ =>
      let! result := future_get f in
      if negb (bool_decide (result = OK))
      then mfold (fail_segment_key keys op) results (indexed (go_key_indexes op))
      else mfold (complete_segment_key keys op) results (indexed (go_key_indexes op))
  end.

Definition BatchGetWhenPreferSameNode (keys : list ObjectKey) (query_results : list QueryResult)
    (slices : gmap string (list Slice)) : io (list (expected unit)) :=
  let! grouped := mfold (group_get slices) (replicate (length keys) (Ok tt), ∅)
                    (indexed (zip keys query_results)) in
  let! submitted := mfold (submit_segment_read keys) (grouped.1, []) (iteration grouped.2) in
  mfold (wait_segment keys) submitted.1 submitted.2.

(** [BatchGet(object_keys, query_results, slices, prefer_alloc_in_same_node)] *)
Definition BatchGet_query (keys : list ObjectKey) (query_results : list QueryResult)
    (slices : gmap string (list Slice)) (prefer_same_node : bool)
  : io (list (expected unit)) :=
  if negb (has_transfer_submitter c) then ret (replicate (length keys) (Err INVALID_PARAMS))
  else if negb (length query_results =? length keys)%nat
  then ret (replicate (length keys) (Err INVALID_PARAMS))
  else if prefer_same_node then BatchGetWhenPreferSameNode keys query_results slices
  else batch_get_parallel keys query_results slices.

(** The valid queries: index, key and result. *)
Definition valid_query (ikq : nat * (ObjectKey * expected QueryResult))
  : option (nat * (ObjectKey * QueryResult)) :=
  match ikq.2.2 with
  | Ok q => Some (ikq.1, (ikq.2.1, q))
  | Err _ => None
  end.

Definition merge_result (results : list (expected unit)) (ir : nat * expected unit)
  : list (expected unit) := <[ir.1 := ir.2]> results.

Definition only_keys (keys : list ObjectKey) (slices : gmap string (list Slice))
  : gmap string (list Slice) :=
  filter (λ kv : string * list Slice, kv.1 ∈ keys) slices.

(** [BatchGet(object_keys, slices)] *)
Definition BatchGet (keys : list ObjectKey) (slices : gmap string (list Slice))
  : io (list (expected unit)) :=
  let! queries := BatchQuery keys in
  let results := result_map (λ _, tt) <$> queries in
  let valid := omap valid_query (indexed (zip keys queries)) in
  let valid_keys := valid.*2.*1 in
  if bool_decide (valid = []) then ret results
  else
    let! valid_results :=
      BatchGet_query valid_keys valid.*2.*2 (only_keys valid_keys slices) false in
    ret (fold_left merge_result (zip valid.*1 valid_results) results).

(** ** Removal *)

Definition Remove (key : ObjectKey) (force : bool) : io (expected unit) :=
  when (has_hot_cache c) (cache_do (BumpKeyGeneration key)) ;;;
  let! result := master_remove key force in
  match result with
  | Err e => ret (Err e)
  | Ok _ =>
      when (has_hot_cache c) (cache_do (RemoveHotKey key)) ;;;
      ret (Ok tt)
  end.

Definition RemoveByRegex (str : string) (force : bool) : io (expected Z) :=
  when (has_hot_cache c) (cache_do BumpCacheEpoch) ;;;
  let! result := master_remove_by_regex str force in
  match result with
  | Err e => ret (Err e)
  | Ok n =>
      when ((0 <? n) && has_hot_cache c)
        (cache_do BumpCacheEpoch ;;; cache_do (RemoveHotKeysByRegex str)) ;;;
      ret (Ok n)
  end.

Definition RemoveAll (force : bool) : io (expected Z) :=
  when (has_hot_cache c) (cache_do BumpCacheEpoch) ;;;
  let! result := master_remove_all force in
  match result with
  | Err e => ret (Err e)
  | Ok n =>
      when (has_storage_backend c) storage_remove_all ;;;
      when ((0 <? n) && has_hot_cache c) (cache_do RemoveAllHotKeys) ;;;
      ret (Ok n)
  end.

(** The keys whose removal the master confirmed. *)
Definition removed_keys (keys : list ObjectKey) (results : list (expected unit))
  : list ObjectKey :=
  omap (λ kr : ObjectKey * expected unit, if has_value kr.2 then Some kr.1 else None)
    (zip keys results).

Definition BatchRemove (keys : list ObjectKey) (force : bool) : io (list (expected unit)) :=
  when (has_hot_cache c) (cache_do (BumpKeyGenerations keys)) ;;;
  let! results := master_batch_remove keys force in
  when (has_hot_cache c && negb (bool_decide (removed_keys keys results = [])))
    (cache_do (RemoveHotKeys (removed_keys keys results))) ;;;
  ret results.
End Get.
