(* ===== verification/GetSpec.v ===== *)
(** * What the read operations guarantee *)

From S2P Require Import Prelude CxxString StoreTypes ReplicaPolicy Samples PutPath GetPath.
From stdpp Require Import base strings list sets gmap fin_maps.
From Stdlib Require Import ZArith Lia.

#[local] Open Scope Z_scope.
#[local] Set Default Proof Using "Type".

(** ** Choice of a replica *)

Lemma find_first_complete rs r :
  FindFirstCompleteReplica rs = Some r →
  ∃ before after, rs = before ++ r :: after ∧ status r = COMPLETE ∧
    Forall (λ d, status d ≠ COMPLETE) before.
Proof.
  unfold FindFirstCompleteReplica. induction rs as [|d rs IH]; [done|]. simpl.
  unfold is_complete at 1. case_bool_decide as Hd.
  - intros [= ->]. exists [], rs. by split_and!.
  - intros Hf. destruct (IH Hf) as (before & after & -> & Hr & Hb).
    exists (d :: before), after. split_and!; try done. by constructor.
Qed.

Lemma list_find_some {A} (f : A → bool) l x :
  List.find f l = Some x → x ∈ l ∧ f x = true.
Proof. intros Hf. apply List.find_some in Hf as [Hin ?]. by rewrite list_elem_of_In. Qed.

Lemma list_find_none {A} (f : A → bool) l :
  List.find f l = None → Forall (λ x, f x = false) l.
Proof.
  intros Hf. apply Forall_forall. intros x Hx. apply (List.find_none f l Hf).
  by rewrite <- list_elem_of_In.
Qed.

(** the preferred replica is one of the given replicas; with a choice to
    make, a local memory replica wins, then a local NoF replica, and only
    without local replicas the first one of the list is taken. *)
Theorem preferred_replica_local mounted rs r :
  GetPreferredReplica mounted rs = Ok r →
  r ∈ rs ∧
  (mounted ≠ [] → (2 ≤ length rs)%nat →
   (∃ d, d ∈ rs ∧ is_local memory_endpoint mounted d = true) →
     is_local memory_endpoint mounted r = true) ∧
  (mounted ≠ [] → (2 ≤ length rs)%nat →
   Forall (λ d, is_local memory_endpoint mounted d = false) rs →
   (∃ d, d ∈ rs ∧ is_local nof_endpoint mounted d = true) →
     is_local nof_endpoint mounted r = true).
Proof.
  unfold GetPreferredReplica. destruct rs as [|first rest]; [done|].
  case_bool_decide as Hm; simpl; [intros [= ->]; set_solver|].
  case_bool_decide as Hr; simpl; [subst; intros [= ->]; simpl; set_solver by lia|].
  change (if is_local memory_endpoint mounted first then Some first
    else List.find (is_local memory_endpoint mounted) rest)
    with (List.find (is_local memory_endpoint mounted) (first :: rest)).
  change (if is_local nof_endpoint mounted first then Some first
    else List.find (is_local nof_endpoint mounted) rest)
    with (List.find (is_local nof_endpoint mounted) (first :: rest)).
  destruct (List.find (is_local memory_endpoint mounted) (first :: rest)) as [r1|] eqn:E1.
  { apply list_find_some in E1 as [Hin1 Hl1]. intros [= ->].
    split_and!; try done. intros _ _ Hall. rewrite Forall_forall in Hall.
    apply Hall in Hin1. congruence. }
  apply list_find_none in E1. rewrite Forall_forall in E1.
  destruct (List.find (is_local nof_endpoint mounted) (first :: rest)) as [r2|] eqn:E2.
  { apply list_find_some in E2 as [Hin2 Hl2]. intros [= ->]. split_and!; try done.
    intros _ _ (d & Hd & Hl). apply E1 in Hd. congruence. }
  apply list_find_none in E2. rewrite Forall_forall in E2. intros [= ->].
  split_and!; [set_solver| |].
  - intros _ _ (d & Hd & Hl). apply E1 in Hd. congruence.
  - intros _ _ _ (d & Hd & Hl). apply E2 in Hd. congruence.
Qed.

Lemma preferred_replica_local_witness :
  ∃ r, GetPreferredReplica ["host-b:1"]
         [MkDescriptor COMPLETE (NofReplica (MkBuffer 8 1 "host-b:1")); memory_at 5] = Ok r ∧
       is_local memory_endpoint ["host-b:1"] r = true.
Proof.
  exists (memory_at 5). split; [by vm_compute|].
  destruct (preferred_replica_local ["host-b:1"]
    [MkDescriptor COMPLETE (NofReplica (MkBuffer 8 1 "host-b:1")); memory_at 5] (memory_at 5))
    as (_ & Hmem & _); [by vm_compute|].
  apply Hmem; [done|done|]. exists (memory_at 5). split; evaluate.
Defined.

(** ** Reads *)

Section GetSpec.
Context `{!MasterClient, !TransferSubmitter, !HotCache, !StorageBackend, !Clock}.
Context (c : Client).

(** [replica] was read into [slices]: submitted, waited for, successful. *)
Definition replica_read (slices : list Slice) (evs : list event) (replica : Descriptor) : Prop :=
  ∃ f, infix [ETransfer (Submit replica slices READ (Some f)); ETransfer (FutureGet f OK)] evs.

Lemma TransferRead_OK replica slices h evs :
  TransferRead c replica slices h = (OK, evs) →
  replica_total_size replica ≤ CalculateSliceSize slices ∧ replica_read slices evs replica.
Proof.
  unfold TransferRead, TransferData. case_match; [by intros [? _]%ret_inv|]. bool_to_prop.
  case_match; [by intros [? _]%ret_inv|]. intros Hrun.
  apply bind_inv in Hrun as (o & e1 & e2 & Hs & Hrun & ->). apply call_inv in Hs as [_ ->].
  destruct o as [f|]; [|by apply ret_inv in Hrun as [? _]].
  apply call_inv in Hrun as [_ ->]. split; [done|]. exists f.
  apply infix_refl.
Qed.

(** [r] is [replica] itself, or the same object in the local hot cache. *)
Definition serves (evs : list event) (key : ObjectKey) (replica r : Descriptor) : Prop :=
  r = replica ∨
  ∃ b blk, data replica = MemoryReplica b ∧ hot_size blk = size_ b ∧
    ECache (GetHotKey key (Some blk)) ∈ evs ∧
    r = MkDescriptor (status replica)
          (MemoryReplica (MkBuffer (size_ b) (hot_addr blk) (own_endpoint c))).

Lemma lookup_cache_run key replica h r used evs :
  lookup_cache c key replica h = ((r, used), evs) →
  serves evs key replica r ∧
  (used = false → r = replica) ∧
  replica_total_size r = replica_total_size replica ∧
  (evs = [] ∧ used = false ∨
   ∃ o, evs = [ECache (GetHotKey key o)] ∧ has_hot_cache c = true ∧ is_memory_replica replica = true ∧
     o = h_get h key ∧
     (used = true ↔ ∃ blk, o = Some blk ∧ hot_size blk = replica_total_size replica)).
Proof.
  unfold lookup_cache. destruct (has_hot_cache c && is_memory_replica replica) eqn:Hc.
  2: { intros [[= -> ->] ->]%ret_inv. split_and!; try done; by left. }
  apply andb_true_iff in Hc as [Hc Hm]. intros Hrun.
  apply bind_inv in Hrun as (o & e1 & e2 & Hr & Hrun & ->).
  unfold RedirectToHotCache in Hr. rewrite Hc in Hr.
  unfold is_memory_replica in *. unfold replica_total_size in *.
  destruct replica as [st d]; simpl in *. destruct d as [b| | |]; try done.
  apply bind_inv in Hr as (blk & e3 & e4 & Hg & Hr & ->). apply call_inv in Hg as [Hblk ->].
  destruct blk as [blk|]; [destruct (Z.eqb_spec (size_ b) (hot_size blk)) as [Hsz|Hsz];
    simpl in Hr|]; apply ret_inv in Hr as [-> ->]; apply ret_inv in Hrun as [[= -> ->] ->].
  - split_and!; try done.
    + right. exists b, blk. split_and!; try done. set_solver.
    + right. exists (Some blk). split_and!; try done. split; [eauto|done].
  - split_and!; try done; [by left|]. right. exists (Some blk). split_and!; try done.
    split; [done|]. by intros (blk' & [= <-] & ?).
  - split_and!; try done; [by left|]. right. exists None. split_and!; try done.
    split; [done|]. by intros (blk' & ? & ?).
Qed.

(** ** Pins on hot cache blocks *)

Definition is_pin (e : event) : bool :=
  match e with ECache (GetHotKey _ (Some _)) => true | _ => false end.
Definition is_release (e : event) : bool :=
  match e with ECache (ReleaseHotKey _) => true | _ => false end.
Definition pins (evs : list event) : nat := count is_pin evs.
Definition releases (evs : list event) : nat := count is_release evs.

(** No pin is taken or released. *)
Definition pin_neutral (evs : list event) : Prop :=
  Forall (λ e, is_pin e = false ∧ is_release e = false) evs.

Lemma pins_app a b : pins (a ++ b) = (pins a + pins b)%nat.
Proof. apply count_app. Qed.
Lemma releases_app a b : releases (a ++ b) = (releases a + releases b)%nat.
Proof. apply count_app. Qed.

Lemma pin_neutral_counts evs : pin_neutral evs → pins evs = 0%nat ∧ releases evs = 0%nat.
Proof.
  intros Hn. unfold pins, releases. rewrite !count_zero.
  split; (eapply Forall_impl; [exact Hn|]); by intros e [? ?].
Qed.

Lemma release_cache_counts key used h v evs :
  release_cache c key used h = (v, evs) →
  pins evs = 0%nat ∧ releases evs = (if has_hot_cache c && used then 1 else 0)%nat.
Proof.
  unfold release_cache, when. destruct (has_hot_cache c && used); by intros [= <- <-].
Qed.

Lemma transfer_events_neutral evs :
  Forall (λ e, is_transfer_event e = true) evs → pin_neutral evs.
Proof. intros Hall. eapply Forall_impl; [exact Hall|]. by intros []. Qed.

Lemma TransferRead_neutral replica slices h err evs :
  TransferRead c replica slices h = (err, evs) → pin_neutral evs.
Proof.
  intros Hrun. apply transfer_events_neutral. rewrite <- (run_emitted _ _ _ _ Hrun).
  unfold TransferRead. case_match; [constructor|]. apply TransferData_emitted.
Qed.

Lemma submit_put_tasks_neutral key slices h v evs :
  submit_put_tasks key slices h = (v, evs) → pin_neutral evs.
Proof.
  revert h v evs. induction slices as [|s slices IH]; intros h v evs Hrun; cbn [submit_put_tasks] in Hrun.
  { apply ret_inv in Hrun as [_ ->]. constructor. }
  apply bind_inv in Hrun as (ok & e1 & e2 & Hs & Hrun & ->). apply call_inv in Hs as [_ ->].
  constructor; [done|]. destruct ok; [by eapply IH|].
  apply ret_inv in Hrun as [_ ->]. constructor.
Qed.

Lemma promote_neutral key slices replica used h v evs :
  promote_to_cache c key slices replica used h = (v, evs) → pin_neutral evs.
Proof.
  unfold promote_to_cache. intros Hrun.
  apply bind_inv in Hrun as (ok & e1 & e2 & Hok & Hrun & ->). apply Forall_app. split.
  - unfold ShouldAdmitToHotCache in Hok. case_match; [by apply ret_inv in Hok as [_ ->]|].
    case_match; [by apply ret_inv in Hok as [_ ->]|].
    apply bind_inv in Hok as (n & e3 & e4 & Hn & Hok & ->). apply call_inv in Hn as [_ ->].
    apply ret_inv in Hok as [_ ->]. by repeat constructor.
  - unfold when, ProcessSlicesAsync in Hrun. destruct ok;
      [|apply ret_inv in Hrun as [_ ->]; constructor].
    case_match; [apply ret_inv in Hrun as [_ ->]; constructor|].
    case_match; [apply ret_inv in Hrun as [_ ->]; constructor|].
    by eapply submit_put_tasks_neutral.
Qed.

(** The cached block of [key] has the size of the object the query found. *)
Definition cache_size_ok (key : ObjectKey) (q : QueryResult) : Prop :=
  ∀ h blk replica, h_get h key = Some blk →
    FindFirstCompleteReplica (replicas q) = Some replica →
    hot_size blk = replica_total_size replica.

Lemma lookup_cache_counts key q replica h r used evs :
  cache_size_ok key q → FindFirstCompleteReplica (replicas q) = Some replica →
  lookup_cache c key replica h = ((r, used), evs) →
  pins evs = (if has_hot_cache c && used then 1 else 0)%nat ∧ releases evs = 0%nat.
Proof.
  intros Hok Hf Hrun. apply lookup_cache_run in Hrun as (_ & _ & _ & [[-> ->]|Hev]).
  { by rewrite andb_false_r. }
  destruct Hev as (o & -> & Hc & _ & Ho & Hused). rewrite Hc. split; [|done].
  destruct o as [blk|]; simpl.
  - assert (used = true) as ->; [|done]. apply Hused. exists blk. split; [done|].
    by eapply Hok.
  - destruct used; [|done]. by destruct Hused as [(? & ? & ?) _].
Qed.

(** ** Get *)

(** The stages of [Get] on a query result. *)
Lemma Get_query_run key q slices h r evs :
  Get_query c key q slices h = (r, evs) →
  (FindFirstCompleteReplica (replicas q) = None ∧ r = Err INVALID_REPLICA ∧ evs = []) ∨
  ∃ replica d used err h2 e1 e2 e3 e4,
    FindFirstCompleteReplica (replicas q) = Some replica ∧
    lookup_cache c key replica h = ((d, used), e1) ∧
    TransferRead c d slices h2 = (err, e2) ∧
    pins e3 = 0%nat ∧ releases e3 = (if has_hot_cache c && used then 1 else 0)%nat ∧
    evs = e1 ++ e2 ++ e3 ++ e4 ∧
    (err ≠ OK ∧ r = Err err ∧ e4 = [] ∨
     err = OK ∧ ∃ e5 t, pin_neutral e5 ∧ e4 = e5 ++ [EClock (Now t)] ∧
       r = if IsLeaseExpired q t then Err LEASE_EXPIRED else Ok tt).
Proof.
  unfold Get_query. destruct (FindFirstCompleteReplica (replicas q)) as [replica|].
  2: { intros [-> ->]%ret_inv. by left. }
  intros Hrun. right.
  apply bind_inv in Hrun as ([d used] & e1 & ? & Hl & Hrun & ->). simpl in Hrun.
  apply bind_inv in Hrun as (err & e2 & ? & Ht & Hrun & ->).
  apply bind_inv in Hrun as (? & e3 & e4 & Hre & Hrun & ->).
  apply release_cache_counts in Hre as [Hp Hr].
  exists replica, d, used, err, (h ++ e1), e1, e2, e3, e4. split_and!; try done.
  case_bool_decide as Herr; simpl in Hrun.
  - right. split; [done|]. apply bind_inv in Hrun as (? & e5 & ? & Hpr & Hrun & ->).
    apply bind_inv in Hrun as (t & ? & ? & Hn & Hrun & ->). apply call_inv in Hn as [_ ->].
    apply ret_inv in Hrun as [-> ->]. apply promote_neutral in Hpr.
    exists e5, t. by rewrite app_nil_r.
  - left. by apply ret_inv in Hrun as [-> ->].
Qed.

(** C28: when [Get] returns success, it read the first complete replica the
    master listed (or the same object from the local hot cache, with the same
    size), the destination slices were large enough, the transfer succeeded,
    and the lease the master granted was still valid after the transfer. *)
Theorem get_ok_sound key slices h evs :
  Get c key slices h = (Ok tt, evs) →
  ∃ t0 resp mid t replica d,
    evs = EClock (Now t0) :: EMaster (GetReplicaList key (Ok resp)) :: mid ++ [EClock (Now t)] ∧
    FindFirstCompleteReplica (rl_replicas resp) = Some replica ∧
    serves mid key replica d ∧
    replica_total_size replica ≤ CalculateSliceSize slices ∧
    replica_read slices mid d ∧
    t < t0 + lease_ttl_ms resp.
Proof.
  unfold Get, Query. intros Hrun.
  apply bind_inv in Hrun as (qr & ? & ? & Hq & Hrun & ->).
  apply bind_inv in Hq as (t0 & ? & ? & Hn & Hq & ->). apply call_inv in Hn as [_ ->].
  apply bind_inv in Hq as (resp & ? & ? & Hm & Hq & ->). apply call_inv in Hm as [_ ->].
  destruct resp as [resp|e]; apply ret_inv in Hq as [-> ->];
    [|by apply ret_inv in Hrun as [? _]].
  apply Get_query_run in Hrun as [(_ & ? & _)|Hrun]; [done|].
  destruct Hrun as (replica & d & used & err & h2 & e1 & e2 & e3 & e4 & Hf & Hl & Ht & _ & _ & ->
    & [(_ & ? & _)|(-> & e5 & t & _ & -> & Hr)]); [done|].
  apply lookup_cache_run in Hl as (Hs & _ & Hsz & _).
  apply TransferRead_OK in Ht as [Hle Hread]. rewrite Hsz in Hle.
  exists t0, resp, (e1 ++ e2 ++ e3 ++ e5), t, replica, d. split_and!; try done.
  - simpl. by rewrite <- !app_assoc.
  - destruct Hs as [->|(b & blk & ? & ? & ? & ->)]; [by left|].
    right. exists b, blk. split_and!; try done. set_solver.
  - destruct Hread as [f Hin]. exists f. eapply infix_trans; [exact Hin|].
    eauto with mooncake.
  - unfold IsLeaseExpired in Hr. simpl in Hr. case_match; [done|]. by bool_to_prop.
Qed.

(** every hot cache block [Get] pins is released again, whatever the
    outcome, as long as cached blocks have the size of their object. *)
Theorem get_pins_balanced key q slices h r evs :
  Get_query c key q slices h = (r, evs) → cache_size_ok key q → pins evs = releases evs.
Proof.
  intros Hrun Hok.
  apply Get_query_run in Hrun as [(_ & _ & ->)|Hrun]; [done|].
  destruct Hrun as (replica & d & used & err & h2 & e1 & e2 & e3 & e4 & Hf & Hl & Ht & Hp3 & Hr3 &
    -> & Hend).
  apply (lookup_cache_counts _ q) in Hl as [Hp1 Hr1]; [|done|done].
  apply TransferRead_neutral, pin_neutral_counts in Ht as [Hp2 Hr2].
  assert (pins e4 = 0%nat ∧ releases e4 = 0%nat) as [Hp4 Hr4].
  { destruct Hend as [(_ & _ & ->)|(_ & e5 & t & Hn & -> & _)]; [done|].
    apply pin_neutral_counts. apply Forall_app. by split; [|repeat constructor]. }
  rewrite !pins_app, !releases_app. lia.
Qed.

(** ** BatchGet *)

Definition used_count (ps : list pending_get) : nat :=
  count (λ p, has_hot_cache c && pg_cache_used p) ps.

(** What one submission leaves behind. *)
Definition submit_get_outcome (slices : gmap string (list Slice))
    (ikq : nat * (ObjectKey * QueryResult)) (ro : expected unit * option pending_get)
    (evs : list event) : Prop :=
  match ro.2 with
  | None => has_value ro.1 = false
  | Some p =>
      pg_index p = ikq.1 ∧ pg_key p = ikq.2.1 ∧
      ∃ ss replica, slices !! ikq.2.1 = Some ss ∧
        FindFirstCompleteReplica (replicas ikq.2.2) = Some replica ∧
        serves evs ikq.2.1 replica (pg_replica p) ∧
        ETransfer (Submit (pg_replica p) ss READ (Some (pg_future p))) ∈ evs
  end.

Lemma submit_get_run slices ikq h ro evs :
  submit_get c slices ikq h = (ro, evs) →
  submit_get_outcome slices ikq ro evs ∧
  (cache_size_ok ikq.2.1 ikq.2.2 →
     pins evs = (releases evs + used_count (option_list ro.2))%nat).
Proof.
  destruct ikq as [i [key q]]. unfold submit_get.
  destruct (slices !! key) as [ss|] eqn:Hss; [|by intros [-> ->]%ret_inv].
  destruct (FindFirstCompleteReplica (replicas q)) as [replica|] eqn:Hf;
    [|by intros [-> ->]%ret_inv].
  intros Hrun. apply bind_inv in Hrun as ([d used] & e1 & ? & Hl & Hrun & ->). simpl in Hrun.
  apply bind_inv in Hrun as (o & ? & e2 & Ht & Hrun & ->). apply call_inv in Ht as [_ ->].
  pose proof (lookup_cache_run key replica h d used e1 Hl) as (Hs & _).
  pose proof (λ Hok, lookup_cache_counts key q replica h d used e1 Hok Hf Hl) as Hcnt.
  destruct o as [f|].
  - apply ret_inv in Hrun as [-> ->]. split.
    + unfold submit_get_outcome. simpl. split_and!; try done. exists ss, replica.
      split_and!; try done; [|set_solver].
      destruct Hs as [->|(b & blk & ? & ? & ? & ->)]; [by left|].
      right. exists b, blk. split_and!; try done. set_solver.
    + simpl. intros Hok. destruct (Hcnt Hok) as [Hp Hr].
      rewrite !pins_app, !releases_app, Hp, Hr. unfold used_count, pins, releases.
      cbn [option_list snd]. rewrite !count_cons, !count_nil. simpl. lia.
  - apply bind_inv in Hrun as (? & e3 & ? & Hre & Hrun & ->).
    apply ret_inv in Hrun as [-> ->]. apply release_cache_counts in Hre as [Hp3 Hr3].
    split; [done|]. intros Hok. destruct (Hcnt Hok) as [Hp Hr].
    rewrite !pins_app, !releases_app, Hp, Hr, Hp3, Hr3. unfold used_count, pins, releases.
    unfold count. simpl. lia.
Qed.

Lemma wait_get_run slices results p h results' evs :
  wait_get c slices results p h = (results', evs) →
  ∃ r, results' = <[pg_index p := r]> results ∧
    (r = Ok tt → ETransfer (FutureGet (pg_future p) OK) ∈ evs) ∧
    pins evs = 0%nat ∧ releases evs = used_count [p].
Proof.
  unfold wait_get. intros Hrun.
  apply bind_inv in Hrun as (err & ? & ? & Hg & Hrun & ->). apply call_inv in Hg as [_ ->].
  apply bind_inv in Hrun as (? & e2 & e3 & Hre & Hrun & ->).
  apply release_cache_counts in Hre as [Hp Hr].
  assert (Hcnt : ∀ e, pin_neutral e →
    pins ([ETransfer (FutureGet (pg_future p) err)] ++ e2 ++ e) = 0%nat ∧
    releases ([ETransfer (FutureGet (pg_future p) err)] ++ e2 ++ e) = used_count [p]).
  { intros e [Hpe Hre]%pin_neutral_counts. rewrite !pins_app, !releases_app, Hp, Hr, Hpe, Hre.
    unfold used_count, pins, releases, count. simpl.
    by destruct (has_hot_cache c && pg_cache_used p). }
  case_bool_decide as Herr; simpl in Hrun.
  - apply bind_inv in Hrun as (? & e4 & e5 & Hpr & Hrun & ->).
    apply ret_inv in Hrun as [-> ->]. rewrite app_nil_r.
    exists (Ok tt). split; [done|]. split; [intros _; subst err; set_solver|].
    apply Hcnt. destruct (slices !! pg_key p) as [ss|];
      [|apply ret_inv in Hpr as [_ ->]; constructor].
    unfold when in Hpr. destruct (has_hot_cache c);
      [by eapply promote_neutral|apply ret_inv in Hpr as [_ ->]; constructor].
  - apply ret_inv in Hrun as [-> ->]. exists (Err err). split_and!; try done; apply Hcnt; constructor.
Qed.

Lemma wait_gets_run slices l results h results' evs :
  mfold (wait_get c slices) results l h = (results', evs) →
  NoDup (pg_index <$> l) →
  length results' = length results ∧
  (∀ i, i ∉ pg_index <$> l → results' !! i = results !! i) ∧
  (∀ p, p ∈ l → results' !! pg_index p = Some (Ok tt) →
     ETransfer (FutureGet (pg_future p) OK) ∈ evs) ∧
  pins evs = 0%nat ∧ releases evs = used_count l.
Proof.
  revert results h results' evs.
  induction l as [|p l IH]; intros results h results' evs Hrun Hnd; cbn [mfold] in Hrun.
  { apply ret_inv in Hrun as [-> ->]. split_and!; try done. set_solver. }
  apply bind_inv in Hrun as (r1 & e1 & e2 & Hw & Hrun & ->).
  cbn in Hnd. apply NoDup_cons in Hnd as [Hp Hnd].
  apply wait_get_run in Hw as (r & -> & Hok & Hp1 & Hr1).
  apply IH in Hrun as (Hlen & Hout & Hin & Hp2 & Hr2); [|done].
  rewrite length_insert in Hlen. split_and!; try done.
  - intros i [Hi Hil]%not_elem_of_cons. rewrite Hout by done. by rewrite list_lookup_insert_ne.
  - intros p' [->|Hin']%elem_of_cons Hr.
    + rewrite Hout in Hr by done. apply elem_of_app. left. apply Hok.
      destruct (decide (pg_index p < length results)%nat) as [Hlt|Hge].
      * rewrite list_lookup_insert_eq in Hr by done. by injection Hr.
      * rewrite list_insert_ge in Hr by lia. apply lookup_lt_Some in Hr. lia.
    + apply elem_of_app. right. by apply Hin.
  - rewrite pins_app. lia.
  - rewrite releases_app, Hr1, Hr2. unfold used_count. by rewrite !count_cons, count_nil, Nat.add_0_r.
Qed.

Lemma submit_gets_counts slices l h ros evs :
  mmap (submit_get c slices) l h = (ros, evs) →
  Forall (λ ikq : nat * (ObjectKey * QueryResult), cache_size_ok ikq.2.1 ikq.2.2) l →
  pins evs = (releases evs + used_count (omap snd ros))%nat.
Proof.
  revert h ros evs. induction l as [|x l IH]; intros h ros evs Hrun Hok; cbn [mmap] in Hrun.
  { by apply ret_inv in Hrun as [-> ->]. }
  apply bind_inv in Hrun as (ro & e1 & ? & Hx & Hrun & ->).
  apply bind_inv in Hrun as (ros' & e2 & ? & Hl & Hrun & ->).
  apply ret_inv in Hrun as [-> ->]. rewrite app_nil_r.
  apply Forall_cons in Hok as [Hokx Hok].
  apply submit_get_run in Hx as [_ Hx]. specialize (Hx Hokx).
  apply IH in Hl; [|done]. rewrite pins_app, releases_app, Hx, Hl.
  assert (used_count (omap snd (ro :: ros')) =
    used_count (option_list ro.2) + used_count (omap snd ros'))%nat as ->; [|lia].
  unfold used_count. rewrite <- count_app. f_equal. by destruct ro as [r [p|]].
Qed.

(** The run of the parallel batch read. *)
Lemma batch_get_run keys qs slices h results evs :
  batch_get_parallel c keys qs slices h = (results, evs) →
  length qs = length keys →
  ∃ ros results1 e1 e2 t,
    evs = e1 ++ e2 ++ [EClock (Now t)] ∧
    Forall2 (λ ikq ro, ∃ e, infix e e1 ∧ submit_get_outcome slices ikq ro e)
      (indexed (zip keys qs)) ros ∧
    (∀ j r p, ros !! j = Some (r, Some p) → pg_index p = j) ∧
    length results1 = length keys ∧
    results = zip_with (check_lease t) results1 qs ∧
    (∀ i, i ∉ pg_index <$> omap snd ros → results1 !! i = ros.*1 !! i) ∧
    (∀ p, p ∈ omap snd ros → results1 !! pg_index p = Some (Ok tt) →
       ETransfer (FutureGet (pg_future p) OK) ∈ e2) ∧
    (Forall (λ kq : ObjectKey * QueryResult, cache_size_ok kq.1 kq.2) (zip keys qs) →
       pins evs = releases evs).
Proof.
  unfold batch_get_parallel. intros Hrun Hlen.
  apply bind_inv in Hrun as (ros & e1 & ? & Hs & Hrun & ->).
  apply bind_inv in Hrun as (results1 & e2 & ? & Hw & Hrun & ->).
  apply bind_inv in Hrun as (t & ? & ? & Hn & Hrun & ->). apply call_inv in Hn as [_ ->].
  apply ret_inv in Hrun as [-> ->]. rewrite app_nil_r.
  pose proof (λ Hok, submit_gets_counts _ _ _ _ _ Hs Hok) as Hcnt.
  apply (mmap_outcome _ (submit_get_outcome slices)) in Hs;
    [|intros ikq h' ro e Hr; by apply submit_get_run in Hr as [? _]].
  assert (Hpos : ∀ j r p, ros !! j = Some (r, Some p) → pg_index p = j).
  { intros j r p Hj. eapply Forall2_lookup_r in Hs as (x & Hx & e & _ & Hout); [|exact Hj].
    rewrite lookup_indexed in Hx. destruct (zip keys qs !! j); simplify_eq/=.
    by destruct Hout as (-> & _). }
  assert (Hidx : NoDup (pg_index <$> omap snd ros)).
  { apply (omap_from_nodup snd pg_index ros 0). intros j [r o] p Hj Hp. simpl in Hp. subst o.
    by eapply Hpos. }
  apply wait_gets_run in Hw as (Hl1 & Hout & Hin & Hp2 & Hr2); [|done].
  exists ros, results1, e1, e2, t. split_and!; try done.
  - rewrite Hl1, length_fmap. apply Forall2_length in Hs. rewrite <- Hs, length_indexed.
    rewrite length_zip_with. lia.
  - intros Hok. rewrite !pins_app, !releases_app, Hp2, Hr2. rewrite Hcnt.
    + unfold pins, releases. rewrite !(count_cons _ (EClock (Now t))). simpl. unfold count. simpl. lia.
    + apply Forall_lookup. intros i x Hi. rewrite lookup_indexed in Hi.
      destruct (zip keys qs !! i) as [kq|] eqn:E; simplify_eq/=.
      rewrite Forall_lookup in Hok. by apply (Hok i).
Qed.

(** What a successful result of [batch_get_parallel] means. *)
Lemma batch_get_reads keys qs slices h results evs :
  batch_get_parallel c keys qs slices h = (results, evs) → length qs = length keys →
  length results = length keys ∧
  ∀ i, results !! i = Some (Ok tt) →
    ∃ key q ss replica d f before after t,
      keys !! i = Some key ∧ qs !! i = Some q ∧ slices !! key = Some ss ∧
      FindFirstCompleteReplica (replicas q) = Some replica ∧
      serves evs key replica d ∧
      evs = before ++ ETransfer (Submit d ss READ (Some f)) :: after ++ [EClock (Now t)] ∧
      ETransfer (FutureGet f OK) ∈ after ∧ t < lease_timeout q.
Proof.
  intros Hrun Hlen.
  destruct (batch_get_run _ _ _ _ _ _ Hrun Hlen)
    as (ros & results1 & e1 & e2 & t & -> & Hall & Hpos & Hl1 & -> & Hout & Hin & _).
  split; [rewrite length_zip_with; lia|]. intros i Hi.
  rewrite lookup_zip_with in Hi. destruct (results1 !! i) as [r1|] eqn:Hr1; [|done].
  destruct (qs !! i) as [q|] eqn:Hq; [|done]. simpl in Hi.
  assert (Hlease : r1 = Ok tt ∧ t < lease_timeout q).
  { unfold check_lease, IsLeaseExpired in Hi. destruct r1 as [[]|]; [|done].
    destruct (Z.leb_spec (lease_timeout q) t); [done|]. done. }
  destruct Hlease as [-> Hlt].
  assert (is_Some (keys !! i)) as [key Hkey]
    by (apply lookup_lt_is_Some; rewrite <- Hlen; by eapply lookup_lt_Some).
  assert (Hx : indexed (zip keys qs) !! i = Some (i, (key, q)))
    by (rewrite lookup_indexed, lookup_zip_with, Hkey; simpl; by rewrite Hq).
  eapply Forall2_lookup_l in Hall as ([r o] & Hro & e & Hinf & Hsub); [|exact Hx].
  unfold submit_get_outcome in Hsub. simpl in Hsub. destruct o as [p|].
  - destruct Hsub as (Hpi & Hpk & ss & replica & Hss & Hf & Hs & Hsubm). subst i.
    assert (Hp : p ∈ omap snd ros).
    { apply list_elem_of_omap. exists (r, Some p). split; [|done].
      by eapply list_elem_of_lookup_2. }
    pose proof (Hin p Hp Hr1) as Hget.
    destruct (in_order (ETransfer (Submit (pg_replica p) ss READ (Some (pg_future p))))
      (ETransfer (FutureGet (pg_future p) OK)) [] e1 e2 []) as (before & after & Heq & Hafter);
      [by apply (infix_subseteq _ _ Hinf)|done|].
    rewrite app_nil_r in Heq. simpl in Heq.
    exists key, q, ss, replica, (pg_replica p), (pg_future p), before, after, t.
    split_and!; try done.
    + destruct Hs as [->|(b & blk & ? & ? & ? & ->)]; [by left|].
      right. exists b, blk. split_and!; try done.
      apply elem_of_app. left. by apply (infix_subseteq _ _ Hinf).
    + by rewrite app_assoc, Heq, <- app_assoc.
  - assert (Hni : i ∉ pg_index <$> omap snd ros).
    { intros (p & -> & Hp)%list_elem_of_fmap.
      apply list_elem_of_omap in Hp as ([r' o'] & Hin' & Ho'). simpl in Ho'. subst o'.
      apply list_elem_of_lookup in Hin' as [j Hj]. pose proof (Hpos _ _ _ Hj). congruence. }
    rewrite Hout in Hr1 by done. rewrite list_lookup_fmap, Hro in Hr1. by simplify_eq/=.
Qed.

(** [BatchGet] returns one result per key; a key reported as read was read
    from its first complete replica (or its hot cache copy) into the slices
    given for it, the transfer completed after its submission, and its lease
    was still valid when all transfers were done. *)
Theorem batch_get_ok_sound keys qs slices h results evs :
  batch_get_parallel c keys qs slices h = (results, evs) → length qs = length keys →
  length results = length keys ∧
  ∀ i, results !! i = Some (Ok tt) →
    ∃ key q ss replica d f before after t,
      keys !! i = Some key ∧ qs !! i = Some q ∧ slices !! key = Some ss ∧
      FindFirstCompleteReplica (replicas q) = Some replica ∧
      serves evs key replica d ∧
      evs = before ++ ETransfer (Submit d ss READ (Some f)) :: after ++ [EClock (Now t)] ∧
      ETransfer (FutureGet f OK) ∈ after ∧ t < lease_timeout q.
Proof. apply batch_get_reads. Qed.

(** every hot cache block a batch read pins is released again, whatever the
    outcomes of the transfers, as long as cached blocks have the size of
    their object. *)
Theorem batch_get_pins_balanced keys qs slices h results evs :
  batch_get_parallel c keys qs slices h = (results, evs) → length qs = length keys →
  Forall (λ kq : ObjectKey * QueryResult, cache_size_ok kq.1 kq.2) (zip keys qs) →
  pins evs = releases evs.
Proof.
  intros Hrun Hlen Hok.
  destruct (batch_get_run _ _ _ _ _ _ Hrun Hlen)
    as (ros & results1 & e1 & e2 & t & _ & _ & _ & _ & _ & _ & _ & Hbal).
  by apply Hbal.
Qed.
End GetSpec.

(** ** Witnesses *)

(** Reads of an 8-byte object at two replicas; the hot cache holds [block]. *)
Definition sample_get (block : option HotMemBlock) (now : Z) : io (expected unit) :=
  @Get (sample_master two_replicas) (sample_submitter []) (sample_cache block) (sample_clock now)
    sample_client "k" sample_slices.
Definition sample_query : QueryResult := MkQueryResult two_replicas 1000.
Definition sample_slice_map : gmap string (list Slice) :=
  {[ "a" := sample_slices; "b" := sample_slices ]}.
Definition hot_8 : option HotMemBlock := Some (MkHotBlock 64 8).

Lemma hot_8_size_ok key :
  @cache_size_ok (sample_cache hot_8) key sample_query.
Proof. intros h blk replica [= <-] [= <-]. done. Qed.

Lemma get_ok_sound_witness :
  ∃ resp replica d mid, FindFirstCompleteReplica (rl_replicas resp) = Some replica ∧
    @replica_read sample_slices mid d ∧
    @serves sample_client mid "k" replica d.
Proof.
  destruct (@get_ok_sound (sample_master two_replicas) (sample_submitter []) (sample_cache hot_8)
    (sample_clock 0) sample_client "k" sample_slices [] (emitted (sample_get hot_8 0) []))
    as (t0 & resp & mid & t & replica & d & Hev & Hf & Hs & _ & Hr & _).
  - by vm_compute.
  - by exists resp, replica, d, mid.
Defined.

Lemma get_pins_balanced_witness :
  let run := @Get_query (sample_submitter []) (sample_cache hot_8) (sample_clock 0) sample_client
    "k" sample_query sample_slices [] in
  pins run.2 = releases run.2 ∧ pins run.2 = 1%nat.
Proof.
  intros run. split; [|by vm_compute].
  apply (@get_pins_balanced (sample_submitter []) (sample_cache hot_8) (sample_clock 0)
    sample_client "k" sample_query sample_slices [] run.1 run.2).
  - apply surjective_pairing.
  - apply hot_8_size_ok.
Defined.

Definition sample_batch_get (block : option HotMemBlock) (now : Z)
  : list (expected unit) * list event :=
  @batch_get_parallel (sample_submitter []) (sample_cache block) (sample_clock now) sample_client
    ["a"; "b"] [sample_query; sample_query] sample_slice_map [].

Lemma batch_get_ok_sound_witness :
  ∃ key q t, ["a"; "b"] !! 1%nat = Some key ∧
    [sample_query; sample_query] !! 1%nat = Some q ∧ t < lease_timeout q.
Proof.
  destruct (@batch_get_ok_sound (sample_submitter []) (sample_cache hot_8) (sample_clock 0)
    sample_client ["a"; "b"] [sample_query; sample_query] sample_slice_map []
    (sample_batch_get hot_8 0).1 (sample_batch_get hot_8 0).2) as [_ Hok].
  - apply surjective_pairing.
  - done.
  - destruct (Hok 1%nat) as (key & q & ss & rep & d & f & b & a & t & Hk & Hq & _ & _ & _ & _ & _ & Ht).
    + by vm_compute.
    + by exists key, q, t.
Defined.

Lemma batch_get_pins_balanced_witness :
  pins (sample_batch_get hot_8 0).2 = releases (sample_batch_get hot_8 0).2.
Proof.
  apply (@batch_get_pins_balanced (sample_submitter []) (sample_cache hot_8) (sample_clock 0)
    sample_client ["a"; "b"] [sample_query; sample_query] sample_slice_map []
    (sample_batch_get hot_8 0).1 (sample_batch_get hot_8 0).2).
  - apply surjective_pairing.
  - done.
  - repeat constructor; apply hot_8_size_ok.
Defined.

(** ** Two places where the read path is not careful *)

(** a cached block of the wrong size stays pinned: [RedirectToHotCache]
    gives up on the block without releasing it, and so does every caller. *)
Theorem size_mismatch_leaks_pin :
  let run := @Get_query (sample_submitter []) (sample_cache (Some (MkHotBlock 64 16)))
    (sample_clock 0) sample_client "k" sample_query sample_slices [] in
  run.1 = Ok tt ∧ pins run.2 = 1%nat ∧ releases run.2 = 0%nat.
Proof. by vm_compute. Qed.

(** [BatchGet] rejects data whose lease expired during the transfer, but its
    same-node variant never looks at the lease and reports success. *)
Theorem same_node_ignores_lease :
  (sample_batch_get None 5000).1 = [Err LEASE_EXPIRED; Err LEASE_EXPIRED] ∧
  (@BatchGet_query (sample_submitter []) (sample_cache None) (sample_clock 5000) sample_client
     map_to_list ["a"; "b"] [sample_query; sample_query] sample_slice_map true []).1 =
  [Ok tt; Ok tt].
Proof. by vm_compute. Qed.
