(* ===== verification/Segments.v ===== *)
(** * Segments of the store client ([mooncake-store/src/client_service.cpp])

    Mounting and unmounting of memory segments, the graceful unmount with its
    timer, and the registration of plain buffers.  The state is the segment
    part of [Client]; the master, the transfer engine and the SPDK wrapper
    are external. *)

From S2P Require Import Prelude CxxString StoreTypes ReplicaPolicy.
From stdpp Require Import base strings list sets gmap fin_maps.
From Stdlib Require Import ZArith Lia.

#[local] Open Scope Z_scope.
#[local] Set Default Proof Using "Type".

Record Segment := MkSegment {
  seg_id : UUID;
  seg_name : string;
  seg_base : Z;
  seg_size : Z;
  seg_protocol : string;
  te_endpoint : string }.

#[export] Instance Segment_eq_dec : EqDecision Segment.
Proof. solve_decision. Defined.

(** [SegmentStatus]; only [UNDEFINED] is named by the code. *)
Inductive SegmentStatus := UNDEFINED | OtherSegmentStatus (code : Z).

#[export] Instance SegmentStatus_eq_dec : EqDecision SegmentStatus.
Proof. solve_decision. Defined.

(** ** Calls *)

Inductive seg_event :=
| TERegister (base size : Z) (location : string) (rc : Z)
| TEUnregister (base : Z) (rc : Z)
| GenerateUuid (id : UUID)
| MasterMount (s : Segment) (r : expected unit)
| MasterUnmount (id : UUID) (r : expected unit)
| MasterGracefulUnmount (id : UUID) (grace_period_ms : Z) (r : expected unit)
| MasterQueryStatus (id : UUID) (r : expected SegmentStatus)
| CleanupCallback (id : UUID)
| SpdkInitEnv (r : bool)
| SpdkDmabufEnabled (r : bool)
| SpdkRegister (addr len : Z) (rc : Z)
| SpdkUnregister (addr : Z)
| MasterMountLocalDisk (enable_offloading : bool) (r : expected unit)
| StartThreads.

#[export] Instance seg_event_eq_dec : EqDecision seg_event.
Proof. solve_decision. Defined.

Abbreviation sio A := (comp seg_event A).

Class SegmentServices := {
  te_register : list seg_event → Z → Z → string → Z;
  te_unregister : list seg_event → Z → Z;
  generate_uuid : list seg_event → UUID;
  m_mount : list seg_event → Segment → expected unit;
  m_unmount : list seg_event → UUID → expected unit;
  m_graceful_unmount : list seg_event → UUID → Z → expected unit;
  m_query_status : list seg_event → UUID → expected SegmentStatus;
  spdk_init_env : list seg_event → bool;
  spdk_dmabuf_enabled : list seg_event → bool;
  spdk_register : list seg_event → Z → Z → Z }.

(** ** State *)

Record SegState := MkSegState {
  mounted_segments_ : gmap UUID Segment;
  gracefully_unmounting_segments_ : gmap UUID Segment;
  graceful_unmount_cleanup_callbacks_ : gset UUID;
  storage_started : bool;                  (* heartbeat and task poll threads *)
  timers : list (UUID * nat) }.            (* queued timer tasks, with retry_left *)

Definition with_mounted m (s : SegState) : SegState :=
  MkSegState m (gracefully_unmounting_segments_ s) (graceful_unmount_cleanup_callbacks_ s)
    (storage_started s) (timers s).

Section Segments.
Context `{!SegmentServices}.
Context (c : Client).
(** [globalConfig().max_mr_size], [ERR_ADDRESS_NOT_REGISTERED], [GPU_PREFIX]. *)
Context (max_mr_size ERR_ADDRESS_NOT_REGISTERED : Z) (GPU_PREFIX : string).

Definition call_te_register b n loc : sio Z :=
  call (λ h, te_register h b n loc) (TERegister b n loc).
Definition call_te_unregister b : sio Z := call (λ h, te_unregister h b) (TEUnregister b).
Definition call_spdk_unregister a : sio unit := call (λ _, tt) (λ _, SpdkUnregister a).

Definition CheckRegisterMemoryParams (addr length : Z) : expected unit :=
  if addr =? 0 then Err INVALID_PARAMS
  else if length =? 0 then Err INVALID_PARAMS
  else if max_mr_size <? length then Err INVALID_PARAMS
  else Ok tt.

(** ** Mount *)

(** The overlap test of [MountSegmentAndGetId]; ends wrap like [uintptr_t]. *)
Definition overlaps (buffer size : Z) (mtseg : Segment) : bool :=
  let l1 := seg_base mtseg in
  let r1 := u64_add (seg_size mtseg) l1 in
  let l2 := buffer in
  let r2 := u64_add size l2 in
  Z.max l1 l2 <? Z.min r1 r2.

Definition EnsureStorageControlPlaneStarted (s : SegState) : sio SegState :=
  if storage_started s then ret s
  else
    call (λ _, tt) (λ _, StartThreads) ;;;
    ret (MkSegState (mounted_segments_ s) (gracefully_unmounting_segments_ s)
           (graceful_unmount_cleanup_callbacks_ s) true (timers s)).

Definition MountSegmentAndGetId (buffer size : Z) (protocol location : string) (s : SegState)
  : sio (expected UUID * SegState) :=
  match CheckRegisterMemoryParams buffer size with
  | Err e => ret (Err e, s)
  | Ok _ =>
      if existsb (overlaps buffer size) (map_to_list (mounted_segments_ s)).*2
      then ret (Err INVALID_PARAMS, s)
      else
        let! rc := call_te_register buffer size location in
        if negb (rc =? 0) then ret (Err INVALID_PARAMS, s)
        else
          let! id := call generate_uuid GenerateUuid in
          let segment := MkSegment id (local_hostname_ c) buffer size protocol
                           (if p2p_handshake c then transport_endpoint c
                            else local_hostname_ c) in
          let! mount_result := call (λ h, m_mount h segment) (MasterMount segment) in
          match mount_result with
          | Err e => ret (Err e, s)
          | Ok _ =>
              let! s := EnsureStorageControlPlaneStarted
                          (with_mounted (<[id := segment]> (mounted_segments_ s)) s) in
              ret (Ok id, s)
          end
  end.

Definition MountSegment (buffer size : Z) (protocol location : string) (s : SegState)
  : sio (expected unit * SegState) :=
  let! r := MountSegmentAndGetId buffer size protocol location s in
  ret (result_map (λ _, tt) r.1, r.2).

(** A segment on the local disk; the master's answer is an argument. *)
Definition MountLocalDiskSegment (m_mount_local_disk : list seg_event → bool → expected unit)
    (enable_offloading : bool) (s : SegState) : sio (expected unit * SegState) :=
  let! response := call (λ h, m_mount_local_disk h enable_offloading)
                     (MasterMountLocalDisk enable_offloading) in
  match response with
  | Err e => ret (Err e, s)
  | Ok _ => let! s := EnsureStorageControlPlaneStarted s in ret (Ok tt, s)
  end.

(** ** Unmount *)

Definition UnmountSegmentImpl (id : UUID) (segment : Segment) (s : SegState)
  : sio (expected unit * SegState) :=
  let! unmount_result := call (λ h, m_unmount h (seg_id segment)) (MasterUnmount (seg_id segment)) in
  match unmount_result with
  | Err e => ret (Err e, s)
  | Ok _ =>
      let! rc := call_te_unregister (seg_base segment) in
      if negb (rc =? 0) && negb (rc =? ERR_ADDRESS_NOT_REGISTERED)
      then ret (Err INTERNAL_ERROR, s)
      else ret (Ok tt, with_mounted (delete id (mounted_segments_ s)) s)
  end.

Definition is_segment (buffer size : Z) (entry : UUID * Segment) : bool :=
  (seg_base entry.2 =? buffer) && (seg_size entry.2 =? size).

Definition UnmountSegment (buffer size : Z) (s : SegState) : sio (expected unit * SegState) :=
  match List.find (is_segment buffer size) (map_to_list (mounted_segments_ s)) with
  | None => ret (Err INVALID_PARAMS, s)
  | Some (id, segment) => UnmountSegmentImpl id segment s
  end.

(** [retry_left] of the first timer task. *)
Definition graceful_retries : nat := 3.

Definition UnmountSegmentById (id : UUID) (grace_period_ms : Z) (has_callback : bool)
    (s : SegState) : sio (expected unit * SegState) :=
  match mounted_segments_ s !! id with
  | None => ret (Err INVALID_PARAMS, s)
  | Some segment =>
      if grace_period_ms =? 0 then UnmountSegmentImpl id segment s
      else
        let! result := call (λ h, m_graceful_unmount h id grace_period_ms)
                         (MasterGracefulUnmount id grace_period_ms) in
        match result with
        | Err e => ret (Err e, s)
        | Ok _ =>
            ret (Ok tt,
                 MkSegState (delete id (mounted_segments_ s))
                   (match gracefully_unmounting_segments_ s !! id with
                    | Some _ => gracefully_unmounting_segments_ s
                    | None => <[id := segment]> (gracefully_unmounting_segments_ s)
                    end)
                   (if has_callback then {[ id ]} ∪ graceful_unmount_cleanup_callbacks_ s
                    else graceful_unmount_cleanup_callbacks_ s)
                   (storage_started s) (timers s ++ [(id, graceful_retries)]))
        end
  end.

(** Whether the master no longer knows the segment. *)
Definition removed_on_master (status : expected SegmentStatus) : bool :=
  match status with
  | Err e => bool_decide (e = SEGMENT_NOT_FOUND)
  | Ok st => bool_decide (st = UNDEFINED)
  end.

(** Local cleanup of a segment the master has dropped. *)
Definition finish_graceful_unmount (id : UUID) (s : SegState) : sio SegState :=
  (match gracefully_unmounting_segments_ s !! id with
   | Some segment => call_te_unregister (seg_base segment) ;;; ret tt
   | None => ret tt
   end) ;;;
  let s' := MkSegState (mounted_segments_ s) (delete id (gracefully_unmounting_segments_ s))
              (graceful_unmount_cleanup_callbacks_ s ∖ {[ id ]}) (storage_started s) (timers s) in
  if bool_decide (id ∈ graceful_unmount_cleanup_callbacks_ s)
  then call (λ _, tt) (λ _, CleanupCallback id) ;;; ret s'
  else ret s'.

(** [enqueue_ok]: the thread pool still accepts tasks. *)
Definition OnGracefulUnmountTimer (enqueue_ok : bool) (id : UUID) (retry_left : nat)
    (s : SegState) : sio SegState :=
  match gracefully_unmounting_segments_ s !! id with
  | None => ret s
  | Some _ =>
      let! status := call (λ h, m_query_status h id) (MasterQueryStatus id) in
      if removed_on_master status then finish_graceful_unmount id s
      else
        match retry_left with
        | O => ret s
        | S retry => ret (if enqueue_ok
                          then MkSegState (mounted_segments_ s)
                                 (gracefully_unmounting_segments_ s)
                                 (graceful_unmount_cleanup_callbacks_ s)
                                 (storage_started s) (timers s ++ [(id, retry)])
                          else s)
        end
  end.

(** The segment part of the destructor: timers are stopped first, mounted
    segments are unmounted, unmounting ones unregistered, callbacks run. *)
Definition destroy_mounted (s : SegState) (entry : UUID * Segment) : sio SegState :=
  let! r := UnmountSegment (seg_base entry.2) (seg_size entry.2) s in
  ret r.2.

Definition destroy_segments (s : SegState) : sio SegState :=
  let callbacks := graceful_unmount_cleanup_callbacks_ s in
  let unmounting := gracefully_unmounting_segments_ s in
  let! s1 := mfold destroy_mounted
               (MkSegState (mounted_segments_ s) unmounting ∅ (storage_started s) [])
               (map_to_list (mounted_segments_ s)) in
  mmap (λ entry : UUID * Segment, call_te_unregister (seg_base entry.2))
    (map_to_list unmounting) ;;;
  mmap (λ id : UUID, call (λ _, tt) (λ _, CleanupCallback id)) (elements callbacks) ;;;
  ret (MkSegState ∅ ∅ ∅ (storage_started s1) []).

(** ** Plain buffers *)

Definition IsGpuLocationForSpdk (location : string) : bool := starts_with GPU_PREFIX location.

Definition RegisterLocalMemory (addr length : Z) (location : string)
  : sio (expected unit) :=
  match CheckRegisterMemoryParams addr length with
  | Err e => ret (Err e)
  | Ok _ =>
      let! rc := call_te_register addr length location in
      if negb (rc =? 0) then ret (Err INVALID_PARAMS)
      else if use_nof c && IsGpuLocationForSpdk location && IsSpdkGpuDmabufRequested (getenv c)
      then
        let! env := call spdk_init_env SpdkInitEnv in
        if negb env then call_te_unregister addr ;;; ret (Err INVALID_PARAMS)
        else
          let! spdk_rc := call (λ h, spdk_register h addr length) (SpdkRegister addr length) in
          if negb (spdk_rc =? 0)
          then
            call_spdk_unregister addr ;;;
            call_te_unregister addr ;;;
            ret (Err INVALID_PARAMS)
          else ret (Ok tt)
      else ret (Ok tt)
  end.

Definition unregisterLocalMemory (addr : Z) : sio (expected unit) :=
  let! rc := call_te_unregister addr in
  if negb (rc =? 0) then ret (Err INVALID_PARAMS)
  else
    (if use_nof c then call_spdk_unregister addr else ret tt) ;;;
    ret (Ok tt).

Definition RegisterSpdkGpuMemory (addr length : Z) : sio (expected unit) :=
  if (addr =? 0) || (length =? 0) then ret (Err INVALID_PARAMS)
  else if negb (use_nof c) then ret (Err INVALID_PARAMS)
  else if negb (IsSpdkGpuDmabufRequested (getenv c)) then ret (Err INVALID_PARAMS)
  else
    let! env := call spdk_init_env SpdkInitEnv in
    if negb env then ret (Err INVALID_PARAMS)
    else
      let! enabled := call spdk_dmabuf_enabled SpdkDmabufEnabled in
      if negb enabled then ret (Err INVALID_PARAMS)
      else
        let! rc := call (λ h, spdk_register h addr length) (SpdkRegister addr length) in
        ret (if rc =? 0 then Ok tt else Err INVALID_PARAMS).

Definition UnregisterSpdkGpuMemory (addr : Z) : sio (expected unit) :=
  if addr =? 0 then ret (Err INVALID_PARAMS)
  else if use_nof c then call_spdk_unregister addr ;;; ret (Ok tt)
  else ret (Err INVALID_PARAMS).
End Segments.
