(* ===== verification/SegmentsSpec.v ===== *)
(** * Invariants of the segment state machine *)

From S2P Require Import Prelude CxxString StoreTypes ReplicaPolicy Samples Segments.
From stdpp Require Import base strings list sets gmap fin_maps relations.
From Stdlib Require Import ZArith Lia.

#[local] Open Scope Z_scope.
#[local] Set Default Proof Using "Type".

Definition disjoint_segments (a b : Segment) : Prop :=
  seg_base a + seg_size a ≤ seg_base b ∨ seg_base b + seg_size b ≤ seg_base a.

(** A buffer that lies in the address space. *)
Definition valid_range (base size : Z) : Prop := 0 ≤ base ∧ 0 ≤ size ∧ base + size < u64_modulus.

Record seg_inv (s : SegState) : Prop := {
  inv_ids : ∀ id seg, mounted_segments_ s !! id = Some seg →
    seg_id seg = id ∧ 0 < seg_size seg ∧ valid_range (seg_base seg) (seg_size seg);
  inv_disjoint : ∀ id1 id2 seg1 seg2,
    mounted_segments_ s !! id1 = Some seg1 → mounted_segments_ s !! id2 = Some seg2 →
    id1 ≠ id2 → disjoint_segments seg1 seg2;
  inv_apart : mounted_segments_ s ##ₘ gracefully_unmounting_segments_ s;
  inv_callbacks : ∀ id, id ∈ graceful_unmount_cleanup_callbacks_ s →
    is_Some (gracefully_unmounting_segments_ s !! id);
  inv_timers : Forall (λ t : UUID * nat, (t.2 ≤ graceful_retries)%nat) (timers s);
  inv_started : ∀ id,
    is_Some (mounted_segments_ s !! id) ∨ is_Some (gracefully_unmounting_segments_ s !! id) →
    storage_started s = true }.

Definition initial_segments : SegState := MkSegState ∅ ∅ ∅ false [].

Section SegmentsSpec.
Context `{!SegmentServices}.
Context (c : Client).
Context (max_mr_size ERR_ADDRESS_NOT_REGISTERED : Z) (GPU_PREFIX : string).

(** One operation of the client or one firing of a queued timer.  UUIDs are
    unique, and mounted buffers lie in the address space. *)
Inductive seg_step (s : SegState) : SegState → Prop :=
| step_mount buffer size protocol location h r s' evs :
    MountSegmentAndGetId c max_mr_size buffer size protocol location s h = ((r, s'), evs) →
    valid_range buffer size →
    (∀ id, r = Ok id →
       mounted_segments_ s !! id = None ∧ gracefully_unmounting_segments_ s !! id = None) →
    seg_step s s'
| step_mount_local_disk answer enable_offloading h r s' evs :
    MountLocalDiskSegment answer enable_offloading s h = ((r, s'), evs) →
    seg_step s s'
| step_unmount buffer size h r s' evs :
    UnmountSegment ERR_ADDRESS_NOT_REGISTERED buffer size s h = ((r, s'), evs) →
    seg_step s s'
| step_unmount_by_id id grace cb h r s' evs :
    UnmountSegmentById ERR_ADDRESS_NOT_REGISTERED id grace cb s h = ((r, s'), evs) →
    seg_step s s'
| step_timer before id retry after enqueue_ok h s' evs :
    timers s = before ++ (id, retry) :: after →
    OnGracefulUnmountTimer enqueue_ok id retry
      (MkSegState (mounted_segments_ s) (gracefully_unmounting_segments_ s)
         (graceful_unmount_cleanup_callbacks_ s) (storage_started s) (before ++ after)) h =
      (s', evs) →
    seg_step s s'.

Lemma overlaps_spec buffer size seg :
  valid_range buffer size → valid_range (seg_base seg) (seg_size seg) →
  0 < size → 0 < seg_size seg →
  overlaps buffer size seg = false ↔
  seg_base seg + seg_size seg ≤ buffer ∨ buffer + size ≤ seg_base seg.
Proof.
  intros (?&?&?) (?&?&?) ? ?. unfold overlaps.
  rewrite !u64_add_small by lia. rewrite Z.ltb_ge. lia.
Qed.

Lemma check_params_ok addr length :
  CheckRegisterMemoryParams max_mr_size addr length = Ok tt →
  addr ≠ 0 ∧ length ≠ 0 ∧ length ≤ max_mr_size.
Proof. unfold CheckRegisterMemoryParams. repeat case_match; try done. bool_to_prop. lia. Qed.

Lemma ensure_run s h s' evs :
  EnsureStorageControlPlaneStarted s h = (s', evs) →
  s' = MkSegState (mounted_segments_ s) (gracefully_unmounting_segments_ s)
         (graceful_unmount_cleanup_callbacks_ s) true (timers s).
Proof.
  unfold EnsureStorageControlPlaneStarted. destruct s as [m g cb st ts]. cbn. destruct st.
  - by intros [-> _]%ret_inv.
  - by intros (? & ? & ? & _ & [-> _]%ret_inv & _)%bind_inv.
Qed.

(** Outcome of a mount: nothing changes on error; on success the segment is
    added, and it was tested against every mounted one. *)
Lemma mount_run buffer size protocol location s h r s' evs :
  MountSegmentAndGetId c max_mr_size buffer size protocol location s h = ((r, s'), evs) →
  match r with
  | Err _ => s' = s
  | Ok id => ∃ seg, seg_id seg = id ∧ seg_base seg = buffer ∧ seg_size seg = size ∧ size ≠ 0 ∧
      (∀ id' seg', mounted_segments_ s !! id' = Some seg' → overlaps buffer size seg' = false) ∧
      s' = MkSegState (<[id := seg]> (mounted_segments_ s)) (gracefully_unmounting_segments_ s)
             (graceful_unmount_cleanup_callbacks_ s) true (timers s)
  end.
Proof.
  unfold MountSegmentAndGetId. intros Hrun.
  destruct (CheckRegisterMemoryParams max_mr_size buffer size) as [[]|e] eqn:Hc;
    [|by apply ret_inv in Hrun as [[= -> ->] _]].
  apply check_params_ok in Hc as (_ & Hsz & _).
  destruct (existsb _ _) eqn:Hov; [by apply ret_inv in Hrun as [[= -> ->] _]|].
  apply bind_inv in Hrun as (rc & ? & ? & _ & Hrun & ->).
  case_match; [by apply ret_inv in Hrun as [[= -> ->] _]|].
  apply bind_inv in Hrun as (id & ? & ? & _ & Hrun & ->).
  apply bind_inv in Hrun as (mr & ? & ? & _ & Hrun & ->).
  destruct mr as [[]|e]; [|by apply ret_inv in Hrun as [[= -> ->] _]].
  apply bind_inv in Hrun as (s1 & ? & ? & Hen & Hrun & ->).
  apply ret_inv in Hrun as [[= -> ->] _].
  apply ensure_run in Hen as ->. cbn.
  exists (MkSegment id (local_hostname_ c) buffer size protocol
    (if p2p_handshake c then transport_endpoint c else local_hostname_ c)).
  split_and!; try done.
  intros id' seg' Hin. apply not_true_iff_false. intros Ho.
  apply not_true_iff_false in Hov. apply Hov, existsb_exists. exists seg'. split; [|done].
  apply list_elem_of_In, list_elem_of_fmap. exists (id', seg'). split; [done|].
  by apply elem_of_map_to_list.
Qed.

(** A mounted segment leaves the state or nothing changes. *)
Lemma unmount_impl_run id seg s h r s' evs :
  UnmountSegmentImpl ERR_ADDRESS_NOT_REGISTERED id seg s h = ((r, s'), evs) →
  s' = s ∨ s' = with_mounted (delete id (mounted_segments_ s)) s.
Proof.
  unfold UnmountSegmentImpl. intros Hrun.
  apply bind_inv in Hrun as (ur & ? & ? & _ & Hrun & ->).
  destruct ur; [|apply ret_inv in Hrun as [[= -> ->] _]; by left].
  apply bind_inv in Hrun as (rc & ? & ? & _ & Hrun & ->).
  case_match; apply ret_inv in Hrun as [[= -> ->] _]; tauto.
Qed.

Lemma seg_inv_delete id s :
  seg_inv s → seg_inv (with_mounted (delete id (mounted_segments_ s)) s).
Proof.
  intros [Hids Hdis Hap Hcb Ht Hst]. split; simpl; try done.
  - intros id' seg Hin. apply lookup_delete_Some in Hin as [_ Hin]. auto.
  - intros id1 id2 seg1 seg2 Hin1 Hin2. apply lookup_delete_Some in Hin1 as [_ Hin1].
    apply lookup_delete_Some in Hin2 as [_ Hin2]. eauto.
  - by apply map_disjoint_delete_l.
  - intros id' [[seg [_ Hin]%lookup_delete_Some]|Hin]; apply (Hst id'); eauto.
Qed.

Lemma seg_inv_mount buffer size protocol location s h r s' evs :
  MountSegmentAndGetId c max_mr_size buffer size protocol location s h = ((r, s'), evs) →
  valid_range buffer size →
  (∀ id, r = Ok id →
     mounted_segments_ s !! id = None ∧ gracefully_unmounting_segments_ s !! id = None) →
  seg_inv s → seg_inv s'.
Proof.
  intros Hrun Hv Hfresh Hinv. apply mount_run in Hrun. destruct r as [id|e]; [|by subst].
  destruct Hrun as (seg & Hid & Hb & Hn & Hsz & Hno & ->).
  destruct (Hfresh id eq_refl) as [Hf1 Hf2]. destruct Hinv as [Hids Hdis Hap Hcb Ht _].
  assert (Hseg : 0 < seg_size seg ∧ valid_range (seg_base seg) (seg_size seg))
    by (rewrite Hb, Hn; destruct Hv as (?&?&?); split; [lia|by split_and!]).
  assert (Hdisj : ∀ id' seg', mounted_segments_ s !! id' = Some seg' → disjoint_segments seg seg').
  { intros id' seg' Hin. destruct (Hids id' seg' Hin) as (_ & Hp & Hv').
    pose proof (Hno id' seg' Hin) as Ho. apply overlaps_spec in Ho; try done; [|lia].
    unfold disjoint_segments. lia. }
  split; simpl; try done.
  - intros id' seg' [[<- <-]|[? Hin]]%lookup_insert_Some; [|auto]. by destruct Hseg.
  - intros id1 id2 seg1 seg2 [[<- <-]|[? Hin1]]%lookup_insert_Some
      [[<- <-]|[? Hin2]]%lookup_insert_Some Hne; try done; [by eapply Hdisj| |by eapply Hdis].
    destruct (Hdisj _ _ Hin1); [right|left]; lia.
  - apply map_disjoint_insert_l. done.
Qed.

Lemma seg_inv_unmount_by_id id grace cb s h r s' evs :
  UnmountSegmentById ERR_ADDRESS_NOT_REGISTERED id grace cb s h = ((r, s'), evs) →
  seg_inv s → seg_inv s'.
Proof.
  unfold UnmountSegmentById. intros Hrun Hinv.
  destruct (mounted_segments_ s !! id) as [seg|] eqn:Hm;
    [|by apply ret_inv in Hrun as [[= -> ->] _]].
  case_match.
  { apply unmount_impl_run in Hrun as [-> | ->]; [done|]. by apply seg_inv_delete. }
  apply bind_inv in Hrun as (gr & ? & ? & _ & Hrun & ->).
  destruct gr; apply ret_inv in Hrun as [[= -> ->] _]; [|done].
  destruct (seg_inv_delete id s Hinv) as [Hids Hdis Hap _ _ _].
  destruct Hinv as [_ _ Hap0 Hcb Ht Hst]. simpl in *.
  assert (Hum : gracefully_unmounting_segments_ s !! id = None)
    by (eapply map_disjoint_Some_l; [exact Hap0|exact Hm]).
  split; simpl; try done; rewrite ?Hum.
  - apply map_disjoint_insert_r. split; [by rewrite lookup_delete_eq|done].
  - intros id' Hin. destruct (decide (id' = id)) as [->|Hne].
    + rewrite lookup_insert_eq. eauto.
    + rewrite lookup_insert_ne by done. apply Hcb. destruct cb; set_solver.
  - apply Forall_app. split; [done|]. repeat constructor.
  - intros _ _. apply (Hst id). left. by rewrite Hm.
Qed.

Lemma seg_inv_local_disk answer enable_offloading s h r s' evs :
  MountLocalDiskSegment answer enable_offloading s h = ((r, s'), evs) → seg_inv s → seg_inv s'.
Proof.
  intros (a & ? & ? & _ & R & _)%bind_inv Hinv.
  destruct a; [|by apply ret_inv in R as [[= _ ->] _]]. destruct Hinv as [Hids Hdis Hap Hcb Ht _].
  apply bind_inv in R as (s1 & ? & ? & ->%ensure_run & R & _). by apply ret_inv in R as [[= _ ->] _].
Qed.

(** Dropping a timer or adding one with fewer retries keeps the invariant. *)
Lemma seg_inv_timers s ts :
  seg_inv s → Forall (λ t : UUID * nat, (t.2 ≤ graceful_retries)%nat) ts →
  seg_inv (MkSegState (mounted_segments_ s) (gracefully_unmounting_segments_ s)
    (graceful_unmount_cleanup_callbacks_ s) (storage_started s) ts).
Proof. by intros [Hids Hdis Hap Hcb _ Hst] Ht. Qed.

Lemma finish_run id s h s' evs :
  finish_graceful_unmount id s h = (s', evs) →
  s' = MkSegState (mounted_segments_ s) (delete id (gracefully_unmounting_segments_ s))
         (graceful_unmount_cleanup_callbacks_ s ∖ {[ id ]}) (storage_started s) (timers s) ∧
  (∀ seg, gracefully_unmounting_segments_ s !! id = Some seg →
     ∃ rc, evs = TEUnregister (seg_base seg) rc ::
       (if bool_decide (id ∈ graceful_unmount_cleanup_callbacks_ s)
        then [CleanupCallback id] else [])).
Proof.
  unfold finish_graceful_unmount. intros Hrun.
  apply bind_inv in Hrun as (? & e1 & e2 & Hte & Hrun & ->).
  assert (Hse : s' = MkSegState (mounted_segments_ s) (delete id (gracefully_unmounting_segments_ s))
         (graceful_unmount_cleanup_callbacks_ s ∖ {[ id ]}) (storage_started s) (timers s) ∧
    e2 = if bool_decide (id ∈ graceful_unmount_cleanup_callbacks_ s)
         then [CleanupCallback id] else []).
  { case_bool_decide; [|by apply ret_inv in Hrun as [-> ->]].
    apply bind_inv in Hrun as (? & ? & ? & Hc & Hrun & ->).
    apply call_inv in Hc as [_ ->]. by apply ret_inv in Hrun as [-> ->]. }
  destruct Hse as [-> ->]. split; [done|]. intros seg Hseg. rewrite Hseg in Hte.
  apply bind_inv in Hte as (rc & ? & ? & Hc & Hte & ->).
  apply call_inv in Hc as [_ ->]. apply ret_inv in Hte as [_ ->]. by exists rc.
Qed.

Lemma seg_inv_finish id s h s' evs :
  finish_graceful_unmount id s h = (s', evs) → seg_inv s → seg_inv s'.
Proof.
  intros [-> _]%finish_run [Hids Hdis Hap Hcb Ht Hst]. split; simpl; try done.
  - by apply map_disjoint_delete_r.
  - intros id' [Hin Hne]%elem_of_difference. rewrite lookup_delete_ne; [auto|set_solver].
  - intros id' [Hin|[seg [_ Hin]%lookup_delete_Some]]; apply (Hst id'); eauto.
Qed.

Lemma seg_inv_timer_step before id retry after enqueue_ok s h s' evs :
  timers s = before ++ (id, retry) :: after →
  OnGracefulUnmountTimer enqueue_ok id retry
    (MkSegState (mounted_segments_ s) (gracefully_unmounting_segments_ s)
       (graceful_unmount_cleanup_callbacks_ s) (storage_started s) (before ++ after)) h =
    (s', evs) →
  seg_inv s → seg_inv s'.
Proof.
  intros Htm Hrun Hinv. pose proof (inv_timers s Hinv) as Ht. rewrite Htm in Ht.
  apply Forall_app in Ht as [Hb [Hr Ha]%Forall_cons]. simpl in Hr.
  assert (Hinv1 : seg_inv (MkSegState (mounted_segments_ s) (gracefully_unmounting_segments_ s)
       (graceful_unmount_cleanup_callbacks_ s) (storage_started s) (before ++ after)))
    by (apply seg_inv_timers; [done|by apply Forall_app]).
  unfold OnGracefulUnmountTimer in Hrun. simpl in Hrun.
  destruct (gracefully_unmounting_segments_ s !! id);
    [|by apply ret_inv in Hrun as [-> _]].
  apply bind_inv in Hrun as (st & ? & ? & _ & Hrun & ->).
  destruct (removed_on_master st); [by eapply seg_inv_finish|].
  destruct retry as [|retry]; apply ret_inv in Hrun as [-> _]; [done|].
  destruct enqueue_ok; [|done]. apply seg_inv_timers; [done|].
  rewrite !Forall_app. split_and!; try done. apply Forall_singleton. simpl. lia.
Qed.

Lemma seg_inv_step s s' : seg_step s s' → seg_inv s → seg_inv s'.
Proof.
  intros [b n p l h r s1 evs Hrun Hv Hf|a e h r s1 evs Hrun|b n h r s1 evs Hrun|id g cb h r s1 evs Hrun|
    before id retry after q h s1 evs Htm Hrun] Hinv.
  - by eapply seg_inv_mount.
  - by eapply seg_inv_local_disk.
  - unfold UnmountSegment in Hrun. case_match eqn:Hf.
    + destruct p as [id seg]. apply unmount_impl_run in Hrun as [-> | ->]; [done|].
      by apply seg_inv_delete.
    + by apply ret_inv in Hrun as [[= -> ->] _].
  - by eapply seg_inv_unmount_by_id.
  - by eapply seg_inv_timer_step.
Qed.

(** C38: in every state the client can reach, mounted segments are pairwise
    disjoint and non-empty, a segment is never mounted and gracefully
    unmounting at once, every pending cleanup callback belongs to a segment
    that is still unmounting, no timer has more than three retries left, and the heartbeat
    and task threads run as soon as there is a segment. *)
Theorem segments_invariant s : rtc seg_step initial_segments s → seg_inv s.
Proof.
  intros Hsteps.
  assert (Hgen : ∀ s0, rtc seg_step s0 s → seg_inv s0 → seg_inv s).
  { intros s0 H0. induction H0; [done|]. intros Hi. eauto using seg_inv_step. }
  apply (Hgen _ Hsteps). split; simpl; try done. by intros id [[? ?]|[? ?]].
Qed.

(** ** Unmount *)

(** At most one mounted segment has a given base and size. *)
Lemma is_segment_unique s id seg e :
  seg_inv s → mounted_segments_ s !! id = Some seg →
  e ∈ map_to_list (mounted_segments_ s) → is_segment (seg_base seg) (seg_size seg) e = true →
  e = (id, seg).
Proof.
  intros Hinv Hm Hin He. destruct e as [id' seg']. apply elem_of_map_to_list in Hin.
  unfold is_segment in He. simpl in He. bool_to_prop.
  destruct (decide (id' = id)) as [->|Hne]; [congruence|]. exfalso.
  destruct (inv_ids s Hinv id seg Hm) as (_ & Hpos & _).
  destruct (inv_disjoint s Hinv id' id seg' seg Hin Hm Hne); lia.
Qed.

(** [UnmountSegment] removes the very segment it is asked for: whatever the
    iteration order of the map, the segment with the given base and size is
    found, and after success exactly that entry is gone, the master was asked
    to unmount it and its memory was handed back to the transfer engine. *)
Theorem unmount_removes_segment s id seg h s' evs :
  seg_inv s → mounted_segments_ s !! id = Some seg →
  UnmountSegment ERR_ADDRESS_NOT_REGISTERED (seg_base seg) (seg_size seg) s h = ((Ok tt, s'), evs) →
  mounted_segments_ s' = delete id (mounted_segments_ s) ∧
  gracefully_unmounting_segments_ s' = gracefully_unmounting_segments_ s ∧
  ∃ rc, evs = [MasterUnmount id (Ok tt); TEUnregister (seg_base seg) rc] ∧
    (rc = 0 ∨ rc = ERR_ADDRESS_NOT_REGISTERED).
Proof.
  intros Hinv Hm Hrun. unfold UnmountSegment in Hrun.
  destruct (List.find _ _) as [[id' seg']|] eqn:Hf; [|by apply ret_inv in Hrun as [? _]].
  apply List.find_some in Hf as [Hin He]. apply list_elem_of_In in Hin.
  pose proof (is_segment_unique s id seg _ Hinv Hm Hin He) as [= -> ->].
  destruct (inv_ids s Hinv id seg Hm) as (Hid & _). unfold UnmountSegmentImpl in Hrun.
  apply bind_inv in Hrun as (ur & ? & ? & Hc & Hrun & ->). apply call_inv in Hc as [_ ->].
  destruct ur as [[]|e]; [|by apply ret_inv in Hrun as [? _]].
  apply bind_inv in Hrun as (rc & ? & ? & Hc & Hrun & ->). apply call_inv in Hc as [_ ->].
  destruct (Z.eqb_spec rc 0); [|destruct (Z.eqb_spec rc ERR_ADDRESS_NOT_REGISTERED)];
    simpl in Hrun; apply ret_inv in Hrun as [Hr ->]; simplify_eq/=;
    (split; [done|split; [done|]]); eauto.
Qed.

(** A mounted segment is always found by its base and size. *)
Lemma unmount_finds_segment s id seg h :
  seg_inv s → mounted_segments_ s !! id = Some seg →
  value_of (UnmountSegment ERR_ADDRESS_NOT_REGISTERED (seg_base seg) (seg_size seg) s) h =
  value_of (UnmountSegmentImpl ERR_ADDRESS_NOT_REGISTERED id seg s) h.
Proof.
  intros Hinv Hm. unfold UnmountSegment.
  destruct (List.find _ _) as [[id' seg']|] eqn:Hf.
  - apply List.find_some in Hf as [Hin He]. apply list_elem_of_In in Hin.
    by pose proof (is_segment_unique s id seg _ Hinv Hm Hin He) as [= -> ->].
  - exfalso. assert (Hin : In (id, seg) (map_to_list (mounted_segments_ s)))
      by (apply list_elem_of_In; by apply elem_of_map_to_list).
    apply (List.find_none _ _ Hf) in Hin. unfold is_segment in Hin. simpl in Hin.
    by rewrite !Z.eqb_refl in Hin.
Qed.

(** ** Graceful unmount timers *)

Definition timer_weight (ts : list (UUID * nat)) : nat := sum_list ((λ t, S t.2) <$> ts).

Lemma timer_weight_cons t ts : timer_weight (t :: ts) = (S t.2 + timer_weight ts)%nat.
Proof. done. Qed.

Lemma timer_weight_app a b : timer_weight (a ++ b) = (timer_weight a + timer_weight b)%nat.
Proof.
  induction a as [|t a IH]; [done|]. cbn [app]. rewrite !timer_weight_cons, IH. lia.
Qed.

Definition is_status_query (e : seg_event) : bool :=
  match e with MasterQueryStatus _ _ => true | _ => false end.

(** [n] firings of queued timers, in any order. *)
Inductive timer_run : SegState → list seg_event → nat → SegState → Prop :=
| timer_done s : timer_run s [] 0 s
| timer_fire s before id retry after enqueue_ok h s1 e1 e2 n s2 :
    timers s = before ++ (id, retry) :: after →
    OnGracefulUnmountTimer enqueue_ok id retry
      (MkSegState (mounted_segments_ s) (gracefully_unmounting_segments_ s)
         (graceful_unmount_cleanup_callbacks_ s) (storage_started s) (before ++ after)) h =
      (s1, e1) →
    timer_run s1 e2 n s2 → timer_run s (e1 ++ e2) (S n) s2.

Lemma timer_fire_weight before id retry after q s h s1 e1 :
  OnGracefulUnmountTimer q id retry
    (MkSegState (mounted_segments_ s) (gracefully_unmounting_segments_ s)
       (graceful_unmount_cleanup_callbacks_ s) (storage_started s) (before ++ after)) h =
    (s1, e1) →
  (timer_weight (timers s1) < timer_weight (before ++ (id, retry) :: after))%nat ∧
  (count is_status_query e1 ≤ 1)%nat.
Proof.
  intros Hrun. rewrite timer_weight_app, timer_weight_cons. simpl.
  assert (Hba : timer_weight (before ++ after) = (timer_weight before + timer_weight after)%nat)
    by apply timer_weight_app.
  unfold OnGracefulUnmountTimer in Hrun. simpl in Hrun.
  destruct (gracefully_unmounting_segments_ s !! id) as [seg|] eqn:Hu.
  2: { apply ret_inv in Hrun as [-> ->]. simpl. rewrite Hba, count_nil. lia. }
  apply bind_inv in Hrun as (st & ? & e2 & Hc & Hrun & ->). apply call_inv in Hc as [_ ->].
  destruct (removed_on_master st).
  - apply finish_run in Hrun as [-> Hev]. simpl in Hev |- *.
    destruct (Hev seg Hu) as [rc ->]. rewrite Hba, !count_cons.
    split; [lia|]. case_bool_decide; simpl; unfold count; simpl; lia.
  - destruct retry as [|retry]; apply ret_inv in Hrun as [-> ->]; simpl;
      rewrite count_cons, count_nil; simpl.
    + lia.
    + destruct q; simpl; [|lia]. rewrite timer_weight_app, Hba, timer_weight_cons. simpl.
      change (timer_weight []) with 0%nat. lia.
Qed.

(** graceful unmounts terminate: every firing of a timer uses up one unit of
    the work queued with it, so a graceful unmount, which queues four units,
    leads to at most four status queries on the master. *)
Theorem graceful_unmount_bounded s evs n s' :
  timer_run s evs n s' →
  (n + timer_weight (timers s') ≤ timer_weight (timers s))%nat ∧
  (count is_status_query evs ≤ n)%nat.
Proof.
  induction 1 as [s|s before id retry after q h s1 e1 e2 n s2 Htm Hrun _ [IH1 IH2]];
    [rewrite count_nil; lia|].
  apply timer_fire_weight in Hrun as [Hw Hq]. rewrite Htm, count_app. lia.
Qed.

Lemma graceful_unmount_work id grace cb s h s' evs :
  grace ≠ 0 →
  UnmountSegmentById ERR_ADDRESS_NOT_REGISTERED id grace cb s h = ((Ok tt, s'), evs) →
  timer_weight (timers s') = (timer_weight (timers s) + 4)%nat.
Proof.
  intros Hg. unfold UnmountSegmentById.
  destruct (mounted_segments_ s !! id) as [seg|]; [|by intros [? _]%ret_inv].
  rewrite (proj2 (Z.eqb_neq _ _) Hg). intros Hrun.
  apply bind_inv in Hrun as (gr & ? & ? & _ & Hrun & ->).
  destruct gr; apply ret_inv in Hrun as [Hr ->]; simplify_eq/=. by rewrite timer_weight_app.
Qed.

(** when the master confirms that a gracefully unmounting segment is gone,
    the timer hands its memory back to the transfer engine, runs its cleanup
    callback if there is one, and forgets both, so neither happens twice. *)
Theorem graceful_cleanup_once q id retry s seg h s' evs :
  gracefully_unmounting_segments_ s !! id = Some seg →
  removed_on_master (m_query_status h id) = true →
  OnGracefulUnmountTimer q id retry s h = (s', evs) →
  gracefully_unmounting_segments_ s' !! id = None ∧
  (id ∉ graceful_unmount_cleanup_callbacks_ s') ∧
  mounted_segments_ s' = mounted_segments_ s ∧ timers s' = timers s ∧
  ∃ st rc, evs = MasterQueryStatus id st :: TEUnregister (seg_base seg) rc ::
    (if bool_decide (id ∈ graceful_unmount_cleanup_callbacks_ s)
     then [CleanupCallback id] else []).
Proof.
  intros Hu Hrem Hrun. unfold OnGracefulUnmountTimer in Hrun. rewrite Hu in Hrun.
  apply bind_inv in Hrun as (st & ? & e2 & Hc & Hrun & ->). apply call_inv in Hc as [-> ->].
  rewrite Hrem in Hrun. apply finish_run in Hrun as [-> Hev].
  destruct (Hev seg Hu) as [rc ->]. simpl. split_and!; try done.
  - apply lookup_delete_eq.
  - set_solver.
  - by eexists _, rc.
Qed.

(** ** Registration of buffers *)

(** registering a buffer is all or nothing: on success the transfer engine
    holds the buffer and, for a GPU buffer with the dma-buf path requested,
    SPDK holds it too; on failure after the transfer engine had accepted the
    buffer, it was handed back last. *)
Theorem register_local_all_or_nothing addr length location h r evs :
  RegisterLocalMemory c max_mr_size GPU_PREFIX addr length location h = (r, evs) →
  (r = Ok tt →
     ∃ rest, evs = TERegister addr length location 0 :: rest ∧
       (∀ rc, TEUnregister addr rc ∉ rest) ∧
       (use_nof c && IsGpuLocationForSpdk GPU_PREFIX location &&
          IsSpdkGpuDmabufRequested (getenv c) = true →
        SpdkRegister addr length 0 ∈ rest)) ∧
  (∀ e, r = Err e →
     TERegister addr length location 0 ∈ evs →
     ∃ before rc, evs = before ++ [TEUnregister addr rc] ∧
       (∀ a n src, SpdkRegister a n src ∈ evs → a = addr ∧ SpdkUnregister addr ∈ evs)).
Proof.
  unfold RegisterLocalMemory. intros Hrun.
  destruct (CheckRegisterMemoryParams max_mr_size addr length) as [[]|e0];
    [|apply ret_inv in Hrun as [-> ->]; split; [done|set_solver]].
  apply bind_inv in Hrun as (rc & ? & rest & Hc & Hrun & ->). apply call_inv in Hc as [_ ->].
  destruct (Z.eqb_spec rc 0) as [->|Hrc]; simpl in Hrun.
  2: { apply ret_inv in Hrun as [-> ->]. split; [done|]. intros e _ Hin.
       apply list_elem_of_singleton in Hin. congruence. }
  destruct (use_nof c && _ && _) eqn:Hgpu.
  2: { apply ret_inv in Hrun as [-> ->]. split; [|done]. intros _. exists [].
       split_and!; try done. set_solver. }
  apply bind_inv in Hrun as (env & ? & ? & Hc & Hrun & ->). apply call_inv in Hc as [_ ->].
  destruct env; simpl in Hrun.
  2: { apply bind_inv in Hrun as (urc & ? & ? & Hc & Hrun & ->). apply call_inv in Hc as [_ ->].
       apply ret_inv in Hrun as [-> ->]. split; [done|]. intros e _ _.
       exists [TERegister addr length location 0; SpdkInitEnv false], urc. set_solver. }
  apply bind_inv in Hrun as (src & ? & ? & Hc & Hrun & ->). apply call_inv in Hc as [_ ->].
  destruct (Z.eqb_spec src 0) as [->|Hsrc]; simpl in Hrun.
  { apply ret_inv in Hrun as [-> ->]. split; [|done]. intros _. eexists. split; [done|].
    set_solver. }
  apply bind_inv in Hrun as (? & ? & ? & Hc & Hrun & ->). apply call_inv in Hc as [_ ->].
  apply bind_inv in Hrun as (urc & ? & ? & Hc & Hrun & ->). apply call_inv in Hc as [_ ->].
  apply ret_inv in Hrun as [-> ->]. split; [done|]. intros e _ _.
  exists [TERegister addr length location 0; SpdkInitEnv true; SpdkRegister addr length src;
    SpdkUnregister addr], urc. set_solver.
Qed.

(** a mount that the master refuses leaves the buffer registered with the
    transfer engine: nothing is recorded in the client, nothing hands the
    buffer back, and [UnmountSegment] will not find it. *)
Theorem refused_mount_stays_registered buffer size protocol location s h e s' evs seg :
  MountSegmentAndGetId c max_mr_size buffer size protocol location s h = ((Err e, s'), evs) →
  MasterMount seg (Err e) ∈ evs →
  s' = s ∧ TERegister buffer size location 0 ∈ evs ∧ ∀ b rc, TEUnregister b rc ∉ evs.
Proof.
  unfold MountSegmentAndGetId. intros Hrun Hin.
  destruct (CheckRegisterMemoryParams max_mr_size buffer size) as [[]|e0];
    [|apply ret_inv in Hrun as [_ ->]; set_solver].
  destruct (existsb _ _); [apply ret_inv in Hrun as [_ ->]; set_solver|].
  apply bind_inv in Hrun as (rc & ? & ? & Hc & Hrun & ->). apply call_inv in Hc as [_ ->].
  destruct (Z.eqb_spec rc 0) as [->|]; simpl in Hrun;
    [|apply ret_inv in Hrun as [_ ->]; set_solver].
  apply bind_inv in Hrun as (id & ? & ? & Hc & Hrun & ->). apply call_inv in Hc as [_ ->].
  apply bind_inv in Hrun as (mr & ? & ? & Hc & Hrun & ->). apply call_inv in Hc as [_ ->].
  destruct mr as [[]|e1].
  - apply bind_inv in Hrun as (s1 & ? & ? & _ & Hrun & ->). by apply ret_inv in Hrun as [? _].
  - apply ret_inv in Hrun as [[= -> ->] ->]. split; [done|]. split; [set_solver|].
    intros b rc. set_solver.
Qed.
End SegmentsSpec.

(** ** Witnesses *)

(** Services that accept everything, except that the master refuses mounts
    when [refuse] is set; segments the master is asked about are gone. *)
Definition sample_segments (refuse : bool) : SegmentServices := {|
  te_register := λ _ _ _ _, 0;
  te_unregister := λ _ _, 0;
  generate_uuid := λ h, (Z.of_nat (length h), 7);
  m_mount := λ _ _, if refuse then Err NO_AVAILABLE_HANDLE else Ok tt;
  m_unmount := λ _ _, Ok tt;
  m_graceful_unmount := λ _ _ _, Ok tt;
  m_query_status := λ _ _, Err SEGMENT_NOT_FOUND;
  spdk_init_env := λ _, true;
  spdk_dmabuf_enabled := λ _, true;
  spdk_register := λ _ _ _, -1 |}.

Definition one_segment : Segment := MkSegment (1, 7) "host-a:1" 4096 8192 "rdma" "host-a:1".
Definition one_mounted : SegState := MkSegState {[ (1, 7) := one_segment ]} ∅ ∅ true [].
Definition one_unmounting : SegState :=
  MkSegState ∅ {[ (1, 7) := one_segment ]} {[ (1, 7) ]} true [((1, 7), graceful_retries)].

Lemma one_mounted_reachable :
  rtc (@seg_step (sample_segments false) sample_client 65536 (-1)) initial_segments one_mounted.
Proof.
  eapply rtc_l; [|apply rtc_refl].
  apply (@step_mount (sample_segments false) sample_client 65536 (-1) initial_segments 4096 8192
    "rdma" "cpu:0" [] (Ok (1, 7)) one_mounted
    (@MountSegmentAndGetId (sample_segments false) sample_client 65536 4096 8192 "rdma" "cpu:0"
       initial_segments []).2).
  - by vm_compute.
  - unfold valid_range, u64_modulus. lia.
  - by intros id [= <-].
Qed.

Lemma one_mounted_inv : seg_inv one_mounted.
Proof.
  split; simpl.
  - intros id seg [<- <-]%lookup_singleton_Some. unfold valid_range, u64_modulus. simpl. split; [done|lia].
  - intros id1 id2 seg1 seg2 [<- <-]%lookup_singleton_Some [<- <-]%lookup_singleton_Some. done.
  - apply map_disjoint_empty_r.
  - set_solver.
  - done.
  - done.
Qed.

Lemma segments_invariant_witness : seg_inv one_mounted.
Proof.
  apply (@segments_invariant (sample_segments false) sample_client 65536 (-1)).
  apply one_mounted_reachable.
Defined.

Lemma unmount_removes_segment_witness :
  let run := @UnmountSegment (sample_segments false) (-1) 4096 8192 one_mounted [] in
  mounted_segments_ run.1.2 = delete (1, 7) (mounted_segments_ one_mounted).
Proof.
  intros run.
  apply (@unmount_removes_segment (sample_segments false) (-1) one_mounted (1, 7) one_segment []
    run.1.2 run.2).
  - apply one_mounted_inv.
  - by vm_compute.
  - by vm_compute.
Defined.

Lemma graceful_unmount_bounded_witness :
  let run := @OnGracefulUnmountTimer (sample_segments false) true (1, 7) graceful_retries
    (MkSegState ∅ {[ (1, 7) := one_segment ]} {[ (1, 7) ]} true []) [] in
  (1 + timer_weight (timers run.1) ≤ timer_weight (timers one_unmounting))%nat.
Proof.
  intros run.
  apply (@graceful_unmount_bounded (sample_segments false) one_unmounting (run.2 ++ []) 1 run.1).
  apply (@timer_fire (sample_segments false) one_unmounting [] (1, 7) graceful_retries [] true []
    run.1 run.2 [] 0 run.1).
  - done.
  - apply surjective_pairing.
  - apply timer_done.
Defined.

Lemma graceful_cleanup_once_witness :
  let run := @OnGracefulUnmountTimer (sample_segments false) true (1, 7) 3 one_unmounting [] in
  gracefully_unmounting_segments_ run.1 !! (1, 7) = None.
Proof.
  intros run.
  apply (@graceful_cleanup_once (sample_segments false) true (1, 7) 3 one_unmounting one_segment []
    run.1 run.2).
  - by vm_compute.
  - by vm_compute.
  - apply surjective_pairing.
Defined.

(** SPDK refuses the GPU buffer, so the transfer engine gets it back. *)
Definition gpu_client : Client :=
  MkClient true false false 0 false false true "rdma" "host-a:1" false "host-a:2" (λ _, Some "1").

Lemma register_local_all_or_nothing_witness :
  let run := @RegisterLocalMemory (sample_segments false) gpu_client 65536 "cuda:" 4096 8192
    "cuda:0" [] in
  ∃ before rc, run.2 = before ++ [TEUnregister 4096 rc].
Proof.
  intros run.
  destruct (@register_local_all_or_nothing (sample_segments false) gpu_client 65536 "cuda:" 4096
    8192 "cuda:0" [] run.1 run.2) as [_ Herr].
  - apply surjective_pairing.
  - destruct (Herr INVALID_PARAMS) as (before & rc & Hev & _).
    + by vm_compute.
    + evaluate.
    + by exists before, rc.
Defined.

Lemma refused_mount_stays_registered_witness :
  let run := @MountSegmentAndGetId (sample_segments true) sample_client 65536 4096 8192 "rdma"
    "cpu:0" initial_segments [] in
  run.1.2 = initial_segments ∧ TERegister 4096 8192 "cpu:0" 0 ∈ run.2.
Proof.
  intros run.
  destruct (@refused_mount_stays_registered (sample_segments true) sample_client 65536 4096 8192
    "rdma" "cpu:0" initial_segments [] NO_AVAILABLE_HANDLE run.1.2 run.2
    (MkSegment (1, 7) "host-a:1" 4096 8192 "rdma" "host-a:1")) as (Hs & Hin & _).
  - by vm_compute.
  - evaluate.
  - done.
Defined.
