(* ===== verification/RdmaTransport.v ===== *)
(** * RDMA transport
      ([mooncake-transfer-engine/src/transport/rdma_transport/rdma_transport.cpp])

    Submission of transfers: choice of buffer and device, splitting of a
    request into slices, posting to the RDMA contexts; completion status.  The
    topology, the contexts, the slice cache and the metadata service are external;
    registration of memory is in [RdmaRegister.v]. *)

From S2P Require Import Prelude CxxString MemoryLocation.
From stdpp Require Import base strings list sets gmap fin_maps.
From Stdlib Require Import ZArith Lia.

#[local] Open Scope Z_scope.
#[local] Set Default Proof Using "Type".

(** ** Data *)

Record BufferDesc := MkBufferDesc {
  bd_name : string;
  bd_addr : Z;
  bd_length : Z;
  bd_lkey : list Z;
  bd_rkey : list Z }.

Record TransferRequest := MkRequest {
  rq_opcode : Z;
  rq_source : Z;
  rq_target_id : Z;
  rq_target_offset : Z;
  rq_length : Z;
  rq_advise_retry_cnt : Z }.

Record RSlice := MkRSlice {
  sl_id : Z;                       (* identity of the cache object *)
  sl_task : nat;
  sl_source_addr : Z;
  sl_length : Z;
  sl_opcode : Z;
  sl_dest_addr : Z;
  sl_retry_cnt : Z;
  sl_max_retry_cnt : Z;
  sl_target_id : Z;
  sl_source_lkey : Z }.

#[export] Instance RSlice_eq_dec : EqDecision RSlice.
Proof. solve_decision. Defined.

Record TransferTask := MkTask {
  tk_request : option TransferRequest;
  tk_slice_list : list RSlice;
  tk_total_bytes : Z;
  tk_slice_count : Z;
  tk_transferred_bytes : Z;
  tk_success_slice_count : Z;
  tk_failed_slice_count : Z;
  tk_is_finished : bool }.

Definition fresh_task : TransferTask := MkTask None [] 0 0 0 0 0 false.

(** The values of [globalConfig()] the transport reads. *)
Record RdmaConfig := MkRdmaConfig {
  slice_size : Z;
  retry_cnt : Z;
  fragment_limit : Z;
  max_wr : Z;
  num_qp_per_ep : Z }.

Inductive TransferStatusEnum := WAITING | COMPLETED | FAILED.

#[export] Instance TransferStatusEnum_eq_dec : EqDecision TransferStatusEnum.
Proof. solve_decision. Defined.

Inductive Status := StatusOK | AddressNotRegistered (addr : Z) | InvalidArgument.

#[export] Instance Status_eq_dec : EqDecision Status.
Proof. solve_decision. Defined.

(** ** Splitting a request *)

(** [offset], [length] and whether this is the last slice. *)
Definition merge_final_slice (cfg : RdmaConfig) (length offset : Z) : bool :=
  u64_sub length offset <=? u64_add (slice_size cfg) (fragment_limit cfg).

Definition slice_length (cfg : RdmaConfig) (length offset : Z) : Z :=
  if merge_final_slice cfg length offset then u64_sub length offset else slice_size cfg.

(** The loop [for (offset = 0; offset < length; offset += kBlockSize)] with its
    [break], without the work it does per slice; [None]: out of fuel. *)
Fixpoint slice_offsets (cfg : RdmaConfig) (fuel : nat) (length offset : Z)
  : option (list (Z * Z)) :=
  match fuel with
  | O => None
  | S fuel =>
      if offset <? length then
        let piece := (offset, slice_length cfg length offset) in
        if merge_final_slice cfg length offset then Some [piece]
        else
          rest ← slice_offsets cfg fuel length (u64_add offset (slice_size cfg));
          Some (piece :: rest)
      else Some []
  end.

(** Enough iterations for every request. *)
Definition slice_fuel (cfg : RdmaConfig) (length : Z) : nat :=
  S (S (Z.to_nat (length / slice_size cfg))).

(** [pieces] cover [[a, b)] without gaps. *)
Fixpoint pieces_cover (a : Z) (pieces : list (Z * Z)) (b : Z) : Prop :=
  match pieces with
  | [] => a = b
  | (o, n) :: rest => o = a ∧ 0 < n ∧ pieces_cover (a + n) rest b
  end.

(** Block and fragment sizes as the configuration sets them: positive, and
    their sum is a [size_t]. *)
Definition sane_config (cfg : RdmaConfig) : Prop :=
  0 < slice_size cfg ∧ 0 ≤ fragment_limit cfg ∧
  slice_size cfg + fragment_limit cfg < u64_modulus.

Lemma merge_final_spec cfg len off :
  sane_config cfg → 0 ≤ off < len → len < u64_modulus →
  merge_final_slice cfg len off = (len - off <=? slice_size cfg + fragment_limit cfg) ∧
  slice_length cfg len off =
    if len - off <=? slice_size cfg + fragment_limit cfg then len - off else slice_size cfg.
Proof.
  intros (?&?&?) ? ?. unfold slice_length, merge_final_slice.
  rewrite u64_sub_small by lia. by rewrite u64_add_small by lia.
Qed.

Lemma slice_offsets_spec cfg fuel len off :
  sane_config cfg → 0 ≤ off < len → len < u64_modulus →
  (Z.to_nat ((len - off) / slice_size cfg) < fuel)%nat →
  ∃ pieces, slice_offsets cfg fuel len off = Some pieces ∧ pieces ≠ [] ∧
    pieces_cover off pieces len ∧
    Forall (λ p, p.2 ≤ slice_size cfg + fragment_limit cfg) pieces ∧
    ∃ init final, pieces = init ++ [final] ∧ Forall (λ p, p.2 = slice_size cfg) init.
Proof.
  intros Hcfg. pose proof Hcfg as (Hb & Hf & Hs). revert off.
  induction fuel as [|fuel IH]; intros off Hoff Hlen Hfuel; [lia|]. cbn [slice_offsets].
  rewrite (proj2 (Z.ltb_lt off len)) by lia.
  destruct (merge_final_spec cfg len off Hcfg Hoff Hlen) as [-> ->].
  destruct (Z.leb_spec (len - off) (slice_size cfg + fragment_limit cfg)) as [Hle|Hgt].
  - exists [(off, len - off)]. split_and!; try done; simpl.
    + lia.
    + repeat constructor. simpl. lia.
    + by exists [], (off, len - off).
  - rewrite u64_add_small by lia.
    assert (Hdiv : (len - (off + slice_size cfg)) / slice_size cfg =
      (len - off) / slice_size cfg - 1).
    { replace (len - (off + slice_size cfg)) with (len - off + (-1) * slice_size cfg) by lia.
      rewrite Z.div_add by lia. lia. }
    assert (1 ≤ (len - off) / slice_size cfg) by (apply Z.div_le_lower_bound; lia).
    destruct (IH (off + slice_size cfg)) as (ps & Hps & Hne & Hcov & Hmax & init & fin & -> & Hinit).
    { lia. } { lia. } { rewrite Hdiv. lia. }
    rewrite Hps. simpl. exists ((off, slice_size cfg) :: init ++ [fin]).
    split_and!; try done.
    + constructor; [simpl; lia|done].
    + exists ((off, slice_size cfg) :: init), fin. split; [done|]. by constructor.
Qed.

(** ** Calls *)

Inductive rdma_event :=
| TopologySelect (location hint : string) (retry : Z) (device : Z)
| AllocateSlice (id : Z) (from_cache : bool)
| DeallocateSlice (s : RSlice)
| ContextActive (device : nat) (r : bool)
| SubmitPostSend (device : nat) (slices : list RSlice).

Abbreviation tio A := (comp rdma_event A).

Class RdmaServices := {
  topology_select : list rdma_event → string → string → Z → Z;
  slice_allocate : list rdma_event → Z * bool;
  context_active : list rdma_event → nat → bool }.

Section Submit.
Context `{!RdmaServices}.
Context (cfg : RdmaConfig).
(** The iteration order of the [std::unordered_map] [slices_to_post]. *)
Context (post_order : list (nat * list RSlice) → list (nat * list RSlice)).

Definition call_topology loc hint retry : tio Z :=
  call (λ h, topology_select h loc hint retry) (TopologySelect loc hint retry).
Definition call_active dev : tio bool := call (λ h, context_active h dev) (ContextActive dev).
Definition call_allocate : tio (Z * bool) :=
  call slice_allocate (λ r, AllocateSlice r.1 r.2).
Definition call_deallocate s : tio unit := call (λ _, tt) (λ _, DeallocateSlice s).
Definition call_post (entry : nat * list RSlice) : tio unit :=
  call (λ _, tt) (λ _, SubmitPostSend entry.1 entry.2).

(** ** Choice of buffer and device *)

Definition in_buffer (offset length : Z) (b : BufferDesc) : bool :=
  negb ((offset <? bd_addr b) || (bd_length b <? length) ||
        (bd_length b - length <? offset - bd_addr b)).

(** The location a buffer is searched under; [resolveSegmentsLocation] never
    reads out of bounds here ([resolve_in_bounds]). *)
Definition buffer_location (b : BufferDesc) (offset : Z) : string :=
  let '(segmented, info) := parseSegmentsLocation (bd_name b) (MkSegments 0 []) in
  if segmented
  then default kWildcardLocation (resolveSegmentsLocation info (bd_length b) (offset - bd_addr b))
  else bd_name b.

Fixpoint select_in (buffers : list BufferDesc) (buffer_id : nat) (offset length : Z)
    (hint : string) (retry_count : Z) : tio (option (nat * Z)) :=
  match buffers with
  | [] => ret None
  | b :: buffers' =>
      if negb (in_buffer offset length b)
      then select_in buffers' (S buffer_id) offset length hint retry_count
      else
        let! device_id := call_topology (buffer_location b offset) hint retry_count in
        if 0 <=? device_id then ret (Some (buffer_id, device_id))
        else
          let! device_id := call_topology kWildcardLocation hint retry_count in
          if 0 <=? device_id then ret (Some (buffer_id, device_id))
          else select_in buffers' (S buffer_id) offset length hint retry_count
  end.

(** [None]: [ERR_ADDRESS_NOT_REGISTERED]; [desc] may be null. *)
Definition selectDevice (desc : option (list BufferDesc)) (offset length : Z) (hint : string)
    (retry_count : Z) : tio (option (nat * Z)) :=
  match desc with
  | None => ret None
  | Some buffers => select_in buffers 0 offset length hint retry_count
  end.

(** [while (retry_cnt < kMaxRetryCount && !found_device)]; [n] bounds the
    remaining iterations. *)
Fixpoint retry_device (n : nat) (buffers : list BufferDesc) (addr len retry : Z)
  : tio (option (nat * Z)) :=
  match n with
  | O => ret None
  | S n =>
      if retry <? retry_cnt cfg then
        let! sel := selectDevice (Some buffers) addr len "" retry in
        match sel with
        | None => retry_device n buffers addr len (retry + 1)
        | Some (buffer_id, device_id) =>
            let! active := call_active (Z.to_nat device_id) in
            if active then ret (Some (buffer_id, device_id))
            else retry_device n buffers addr len (retry + 1)
        end
      else ret None
  end.

(** ** Submission *)

Record SubmitState := MkSubmit {
  su_tasks : list TransferTask;
  slices_to_post : list (nat * list RSlice);
  nr_slices : Z }.

Fixpoint push_slice (device : nat) (s : RSlice) (m : list (nat * list RSlice))
  : list (nat * list RSlice) :=
  match m with
  | [] => [(device, [s])]
  | (d, ss) :: m' =>
      if (d =? device)%nat then (d, ss ++ [s]) :: m' else (d, ss) :: push_slice device s m'
  end.

Definition list_slice (s : RSlice) (t : TransferTask) : TransferTask :=
  MkTask (tk_request t) (tk_slice_list t ++ [s]) (tk_total_bytes t) (tk_slice_count t)
    (tk_transferred_bytes t) (tk_success_slice_count t) (tk_failed_slice_count t)
    (tk_is_finished t).

Definition count_slice (s : RSlice) (t : TransferTask) : TransferTask :=
  MkTask (tk_request t) (tk_slice_list t ++ [s]) (u64_add (tk_total_bytes t) (sl_length s))
    (u64_add (tk_slice_count t) 1) (tk_transferred_bytes t) (tk_success_slice_count t)
    (tk_failed_slice_count t) (tk_is_finished t).

Definition make_slice (id : Z) (index : nat) (rq : TransferRequest) (offset lkey : Z) : RSlice :=
  MkRSlice id index (u64_add (rq_source rq) offset) (slice_length cfg (rq_length rq) offset)
    (rq_opcode rq) (u64_add (rq_target_offset rq) offset) (rq_advise_retry_cnt rq)
    (retry_cnt cfg) (rq_target_id rq) lkey.

Definition submit_watermark : Z := max_wr cfg * num_qp_per_ep cfg.

Definition flush_at_watermark (st : SubmitState) : tio SubmitState :=
  if submit_watermark <=? nr_slices st then
    mmap call_post (post_order (slices_to_post st)) ;;;
    ret (MkSubmit (su_tasks st) [] 0)
  else ret st.

(** One iteration of the slice loop. *)
Definition submit_slice (buffers : list BufferDesc) (index : nat) (rq : TransferRequest)
    (request_device : option (nat * Z)) (offset : Z) (st : SubmitState)
  : tio (result (Status * list TransferTask) SubmitState) :=
  let! alloc := call_allocate in
  let nr := if alloc.2 then nr_slices st else nr_slices st + 1 in
  let bare := make_slice alloc.1 index rq offset 0 in
  let! found :=
    (match request_device with
     | Some d => ret (Some d)
     | None => retry_device (Z.to_nat (retry_cnt cfg - rq_advise_retry_cnt rq)) buffers
                 (sl_source_addr bare) (sl_length bare) (rq_advise_retry_cnt rq)
     end) in
  match found with
  | None =>
      mmap call_deallocate (mjoin (post_order (slices_to_post st)).*2) ;;;
      ret (Err (AddressNotRegistered (sl_source_addr bare),
                alter (list_slice bare) index (su_tasks st)))
  | Some (buffer_id, device_id) =>
      let! active := call_active (Z.to_nat device_id) in
      if negb active
      then ret (Err (InvalidArgument, alter (list_slice bare) index (su_tasks st)))
      else
        let lkey := default 0 (b ← buffers !! buffer_id; bd_lkey b !! Z.to_nat device_id) in
        let slice := make_slice alloc.1 index rq offset lkey in
        let! st' := flush_at_watermark
                     (MkSubmit (alter (count_slice slice) index (su_tasks st))
                        (push_slice (Z.to_nat device_id) slice (slices_to_post st)) nr) in
        ret (Ok st')
  end.

(** The slice loop; [fuel] bounds the iterations ([slice_fuel] is enough). *)
Fixpoint submit_slices (fuel : nat) (buffers : list BufferDesc) (index : nat)
    (rq : TransferRequest) (request_device : option (nat * Z)) (offset : Z) (st : SubmitState)
  : tio (result (Status * list TransferTask) SubmitState) :=
  match fuel with
  | O => ret (Ok st)
  | S fuel =>
      if offset <? rq_length rq then
        let! r := submit_slice buffers index rq request_device offset st in
        match r with
        | Err e => ret (Err e)
        | Ok st =>
            if merge_final_slice cfg (rq_length rq) offset then ret (Ok st)
            else submit_slices fuel buffers index rq request_device
                   (u64_add offset (slice_size cfg)) st
        end
      else ret (Ok st)
  end.

(** One task; [None] for its request is the failed [assert(task.request)]. *)
Definition submit_one (buffers : list BufferDesc) (index : nat) (st : SubmitState)
  : tio (option (result (Status * list TransferTask) SubmitState)) :=
  match su_tasks st !! index ≫= tk_request with
  | None => ret None
  | Some rq =>
      let st := MkSubmit (su_tasks st) (slices_to_post st) 0 in
      let! request_device := selectDevice (Some buffers) (rq_source rq) (rq_length rq) "" 0 in
      let! r := submit_slices (slice_fuel cfg (rq_length rq)) buffers index rq request_device 0 st in
      ret (Some r)
  end.

Fixpoint submit_all (buffers : list BufferDesc) (indices : list nat) (st : SubmitState)
  : tio (option (result (Status * list TransferTask) SubmitState)) :=
  match indices with
  | [] => ret (Some (Ok st))
  | index :: indices' =>
      let! r := submit_one buffers index st in
      match r with
      | Some (Ok st) => submit_all buffers indices' st
      | r => ret r
      end
  end.

Definition post_entry (entry : nat * list RSlice) : tio unit :=
  if bool_decide (entry.2 = []) then ret tt else call_post entry.

(** [None]: an assertion failed. *)
Definition submitTransferTask (buffers : list BufferDesc) (tasks : list TransferTask)
  : tio (option (Status * list TransferTask)) :=
  let! r := submit_all buffers (seq 0 (length tasks)) (MkSubmit tasks [] 0) in
  match r with
  | None => ret None
  | Some (Err e) => ret (Some e)
  | Some (Ok st) =>
      mmap post_entry (post_order (slices_to_post st)) ;;;
      ret (Some (StatusOK, su_tasks st))
  end.

(** [submitTransfer]: all tasks of the batch are submitted, the new ones with
    no request. *)
Definition submitTransfer (buffers : list BufferDesc) (batch_size : Z)
    (task_list : list TransferTask) (entries : list TransferRequest)
  : tio (option (Status * list TransferTask)) :=
  if batch_size <? Z.of_nat (length task_list) + Z.of_nat (length entries)
  then ret (Some (InvalidArgument, task_list))
  else submitTransferTask buffers (task_list ++ replicate (length entries) fresh_task).
End Submit.

(** ** Completion status *)

Definition task_status (t : TransferTask) : TransferStatusEnum * TransferTask :=
  if u64_add (tk_success_slice_count t) (tk_failed_slice_count t) =? tk_slice_count t then
    ((if tk_failed_slice_count t =? 0 then COMPLETED else FAILED),
     MkTask (tk_request t) (tk_slice_list t) (tk_total_bytes t) (tk_slice_count t)
       (tk_transferred_bytes t) (tk_success_slice_count t) (tk_failed_slice_count t) true)
  else (WAITING, t).

(** [getTransferStatus(batch_id, status)]: status and transferred bytes. *)
Definition getTransferStatus_all (tasks : list TransferTask)
  : list (TransferStatusEnum * Z) * list TransferTask :=
  ((λ t, ((task_status t).1, tk_transferred_bytes t)) <$> tasks, (λ t, (task_status t).2) <$> tasks).

(** [getTransferStatus(batch_id, task_id, status)]; [None]: invalid argument. *)
Definition getTransferStatus (tasks : list TransferTask) (task_id : nat)
  : option ((TransferStatusEnum * Z) * list TransferTask) :=
  t ← tasks !! task_id;
  Some (((task_status t).1, tk_transferred_bytes t),
        <[task_id := (task_status t).2]> tasks).
