(* ===== verification/RdmaTransportSpec.v ===== *)
(** * What the RDMA transport guarantees *)

From S2P Require Import Prelude CxxString MemoryLocation RdmaTransport.
From stdpp Require Import base strings list sets gmap fin_maps.
From Stdlib Require Import ZArith Lia.

#[local] Open Scope Z_scope.
#[local] Set Default Proof Using "Type".

(** ** Splitting *)

(** for every request the slice loop terminates and produces consecutive
    slices that cover the request exactly; all slices but the last have the
    block size, and the last is at most one fragment larger. *)
Theorem slices_partition_request cfg len :
  sane_config cfg → 0 < len < u64_modulus →
  ∃ init last_off last_len,
    slice_offsets cfg (slice_fuel cfg len) len 0 = Some (init ++ [(last_off, last_len)]) ∧
    pieces_cover 0 (init ++ [(last_off, last_len)]) len ∧
    Forall (λ p, p.2 = slice_size cfg) init ∧
    0 < last_len ≤ slice_size cfg + fragment_limit cfg.
Proof.
  intros Hcfg Hlen.
  destruct (slice_offsets_spec cfg (slice_fuel cfg len) len 0 Hcfg) as
    (ps & Hps & _ & Hcov & Hmax & init & [lo ll] & -> & Hinit); [lia|lia| |].
  { unfold slice_fuel. rewrite Z.sub_0_r. lia. }
  exists init, lo, ll. split_and!; try done.
  - assert (Hpos : ∀ a, pieces_cover a (init ++ [(lo, ll)]) len → 0 < ll); [|by eapply Hpos].
    clear. induction init as [|[o n] init IH]; simpl; intros a.
    + by intros (_ & ? & _).
    + intros (_ & _ & Hc). by eapply IH.
  - apply Forall_app in Hmax as [_ Hmax]. rewrite Forall_singleton in Hmax. simpl in Hmax. lia.
Qed.

Lemma slices_partition_request_witness :
  ∃ init last_off last_len,
    slice_offsets (MkRdmaConfig 4 9 1 16 2) (slice_fuel (MkRdmaConfig 4 9 1 16 2) 13) 13 0 =
      Some (init ++ [(last_off, last_len)]) ∧ 0 < last_len ≤ 4 + 1.
Proof.
  destruct (slices_partition_request (MkRdmaConfig 4 9 1 16 2) 13)
    as (init & lo & ll & Hs & _ & _ & Hl).
  - unfold sane_config, u64_modulus. simpl. lia.
  - unfold u64_modulus. lia.
  - by exists init, lo, ll.
Defined.

Section SubmitSpec.
Context `{!RdmaServices}.
Context (cfg : RdmaConfig).
Context (post_order : list (nat * list RSlice) → list (nat * list RSlice)).

(** ** Choice of buffer and device *)

Lemma in_buffer_spec offset len b :
  in_buffer offset len b = true ↔
  bd_addr b ≤ offset ∧ len ≤ bd_length b ∧ offset + len ≤ bd_addr b + bd_length b.
Proof. unfold in_buffer. rewrite negb_true_iff, !orb_false_iff, !Z.ltb_ge. lia. Qed.

Lemma select_in_run buffers id offset len hint retry h r evs :
  select_in buffers id offset len hint retry h = (r, evs) →
  match r with
  | Some (bid, dev) => ∃ b loc,
      (id ≤ bid)%nat ∧ buffers !! (bid - id)%nat = Some b ∧ in_buffer offset len b = true ∧ 0 ≤ dev ∧
      TopologySelect loc hint retry dev ∈ evs ∧
      (loc = buffer_location b offset ∨ loc = kWildcardLocation)
  | None => Forall (λ b, in_buffer offset len b = true →
      ∃ d, d < 0 ∧ TopologySelect kWildcardLocation hint retry d ∈ evs) buffers
  end ∧ Forall (λ e, ∃ loc d, e = TopologySelect loc hint retry d) evs.
Proof.
  revert id h r evs. induction buffers as [|b buffers IH]; intros id h r evs Hrun;
    cbn [select_in] in Hrun.
  { apply ret_inv in Hrun as [-> ->]. by split. }
  destruct (in_buffer offset len b) eqn:Hb; simpl in Hrun.
  2: { apply IH in Hrun as [Hr Hev]. split; [|done]. destruct r as [[bid dev]|].
       - destruct Hr as (b' & loc & Hle & Hl & Hrest). exists b', loc.
         split; [lia|]. split; [|done].
         replace (bid - id)%nat with (S (bid - S id)) by lia. done.
       - constructor; [by rewrite Hb|done]. }
  apply bind_inv in Hrun as (d1 & ? & ? & Hc & Hrun & ->). apply call_inv in Hc as [_ ->].
  destruct (Z.leb_spec 0 d1).
  { apply ret_inv in Hrun as [-> ->]. split; [|repeat constructor; by eexists _, _].
    exists b, (buffer_location b offset). rewrite Nat.sub_diag. split_and!; try done; [set_solver|tauto]. }
  apply bind_inv in Hrun as (d2 & ? & e2 & Hc & Hrun & ->). apply call_inv in Hc as [_ ->].
  destruct (Z.leb_spec 0 d2).
  { apply ret_inv in Hrun as [-> ->]. split; [|repeat constructor; by eexists _, _].
    exists b, kWildcardLocation. rewrite Nat.sub_diag. split_and!; try done; [set_solver|tauto]. }
  apply IH in Hrun as [Hr Hev]. split.
  - destruct r as [[bid dev]|].
    + destruct Hr as (b' & loc & Hle & Hl & ? & ? & ? & ?). exists b', loc.
      replace (bid - id)%nat with (S (bid - S id)) by lia.
      split_and!; try done; [lia|set_solver].
    + constructor; [intros _; exists d2; set_solver|].
      eapply Forall_impl; [exact Hr|]. intros b' Hb' Hin. destruct (Hb' Hin) as (d & ? & ?).
      exists d. set_solver.
  - constructor; [by eexists _, _|]. constructor; [by eexists _, _|done].
Qed.

(** a selected buffer contains the whole requested range, and the selected
    device is one the topology offered for the buffer's location (for
    segmented buffers: the NUMA node of the range's first byte) or for the
    wildcard; if nothing is selected, every buffer that contains the range was
    refused by the topology. *)
Theorem select_device_sound buffers offset len hint retry h r evs :
  selectDevice (Some buffers) offset len hint retry h = (r, evs) →
  match r with
  | Some (bid, dev) => ∃ b loc,
      buffers !! bid = Some b ∧
      bd_addr b ≤ offset ∧ offset + len ≤ bd_addr b + bd_length b ∧ 0 ≤ dev ∧
      TopologySelect loc hint retry dev ∈ evs ∧
      (loc = buffer_location b offset ∨ loc = kWildcardLocation)
  | None => Forall (λ b, in_buffer offset len b = true →
      ∃ d, d < 0 ∧ TopologySelect kWildcardLocation hint retry d ∈ evs) buffers
  end.
Proof.
  intros Hrun. apply select_in_run in Hrun as [Hr _]. destruct r as [[bid dev]|]; [|done].
  destruct Hr as (b & loc & _ & Hl & Hb & ? & ? & ?). rewrite Nat.sub_0_r in Hl.
  apply in_buffer_spec in Hb as (? & ? & ?). exists b, loc. by split_and!.
Qed.

(** ** Posting *)

Definition posted_of (e : rdma_event) : list RSlice :=
  match e with SubmitPostSend _ ss => ss | _ => [] end.

(** All slices handed to the contexts. *)
Definition posted (evs : list rdma_event) : list RSlice := evs ≫= posted_of.

Definition waiting (m : list (nat * list RSlice)) : list RSlice := mjoin m.*2.

Lemma posted_app a b : posted (a ++ b) = posted a ++ posted b.
Proof. apply bind_app. Qed.

Lemma waiting_push d s m : waiting (push_slice d s m) ≡ₚ waiting m ++ [s].
Proof.
  unfold waiting. induction m as [|[d' ss] m IH]; [done|]. cbn [push_slice].
  destruct (d' =? d)%nat; simpl.
  - rewrite <- !app_assoc. apply Permutation_app_head. apply Permutation_app_comm.
  - rewrite IH. by rewrite app_assoc.
Qed.

Lemma waiting_permutation m m' : m ≡ₚ m' → waiting m ≡ₚ waiting m'.
Proof. intros Hp. unfold waiting. by rewrite Hp. Qed.

Lemma post_all_run l h v evs :
  mmap call_post l h = (v, evs) → posted evs = waiting l.
Proof.
  revert h v evs. induction l as [|x l IH]; intros h v evs Hrun; cbn [mmap] in Hrun.
  { by apply ret_inv in Hrun as [_ ->]. }
  apply bind_inv in Hrun as (? & ? & ? & Hc & Hrun & ->). apply call_inv in Hc as [_ ->].
  apply bind_inv in Hrun as (? & e2 & ? & Hl & Hrun & ->). apply ret_inv in Hrun as [_ ->].
  rewrite !posted_app, (IH _ _ _ Hl). unfold posted, waiting. simpl. by rewrite !app_nil_r.
Qed.

Lemma post_entries_run l h v evs :
  mmap post_entry l h = (v, evs) → posted evs = waiting l.
Proof.
  revert h v evs. induction l as [|x l IH]; intros h v evs Hrun; cbn [mmap] in Hrun.
  { by apply ret_inv in Hrun as [_ ->]. }
  apply bind_inv in Hrun as (? & e1 & ? & Hc & Hrun & ->).
  apply bind_inv in Hrun as (? & e2 & ? & Hl & Hrun & ->). apply ret_inv in Hrun as [_ ->].
  rewrite !posted_app, (IH _ _ _ Hl). unfold waiting. simpl. rewrite app_nil_r. f_equal.
  unfold post_entry in Hc. case_bool_decide as He.
  - apply ret_inv in Hc as [_ ->]. by rewrite He.
  - apply call_inv in Hc as [_ ->]. unfold posted. simpl. by rewrite app_nil_r.
Qed.

Lemma not_posted evs :
  Forall (λ e, ∃ loc hint retry d, e = TopologySelect loc hint retry d) evs → posted evs = [].
Proof.
  intros Hall. unfold posted. induction Hall as [|e evs (?&?&?&?&->) _ IH]; [done|]. apply IH.
Qed.

Lemma select_device_posted buffers offset len hint retry h r evs :
  selectDevice (Some buffers) offset len hint retry h = (r, evs) → posted evs = [].
Proof.
  intros Hrun. apply select_in_run in Hrun as [_ Hev]. apply not_posted.
  eapply Forall_impl; [exact Hev|]. intros e (loc & d & ->). by eexists _, _, _, _.
Qed.

Lemma retry_device_run n buffers addr len retry h r evs :
  retry_device cfg n buffers addr len retry h = (r, evs) →
  posted evs = [] ∧
  (∀ bid dev, r = Some (bid, dev) → ∃ b, buffers !! bid = Some b ∧ 0 ≤ dev ∧
     bd_addr b ≤ addr ∧ addr + len ≤ bd_addr b + bd_length b).
Proof.
  revert retry h r evs. induction n as [|n IH]; intros retry h r evs Hrun;
    cbn [retry_device] in Hrun; [by apply ret_inv in Hrun as [-> ->]|].
  case_match; [|by apply ret_inv in Hrun as [-> ->]].
  apply bind_inv in Hrun as (sel & e1 & e2 & Hs & Hrun & ->).
  pose proof (select_device_posted _ _ _ _ _ _ _ _ Hs) as Hp1.
  apply select_in_run in Hs as [Hs _].
  destruct sel as [[bid dev]|].
  - apply bind_inv in Hrun as (act & ? & e3 & Hc & Hrun & ->). apply call_inv in Hc as [_ ->].
    rewrite !posted_app, Hp1. destruct act.
    + apply ret_inv in Hrun as [-> ->]. split; [done|]. intros bid' dev' [= <- <-].
      destruct Hs as (b & loc & _ & Hl & Hb & ? & _ & _). rewrite Nat.sub_0_r in Hl.
      apply in_buffer_spec in Hb as (? & ? & ?). by exists b.
    + apply IH in Hrun as [-> Hr]. by split.
  - apply IH in Hrun as [Hp Hr]. by rewrite posted_app, Hp1, Hp.
Qed.

Hypothesis post_order_permutes : ∀ m, post_order m ≡ₚ m.

Lemma flush_run st h st' evs :
  flush_at_watermark cfg post_order st h = (st', evs) →
  su_tasks st' = su_tasks st ∧
  posted evs ++ waiting (slices_to_post st') ≡ₚ waiting (slices_to_post st).
Proof using post_order_permutes.
  unfold flush_at_watermark. case_match.
  - intros Hrun. apply bind_inv in Hrun as (? & e1 & ? & Hp & Hrun & ->).
    apply ret_inv in Hrun as [-> ->]. apply post_all_run in Hp. split; [done|].
    rewrite posted_app, Hp. simpl. rewrite !app_nil_r. apply waiting_permutation.
    apply post_order_permutes.
  - intros [-> ->]%ret_inv. done.
Qed.

Lemma submit_slice_run buffers index rq dev off st h st' evs :
  submit_slice cfg post_order buffers index rq dev off st h = (Ok st', evs) →
  ∃ id lkey,
    su_tasks st' = alter (count_slice (make_slice cfg id index rq off lkey)) index (su_tasks st) ∧
    posted evs ++ waiting (slices_to_post st') ≡ₚ
      waiting (slices_to_post st) ++ [make_slice cfg id index rq off lkey].
Proof using post_order_permutes.
  unfold submit_slice. intros Hrun.
  apply bind_inv in Hrun as ([id cached] & ? & ? & Hc & Hrun & ->). apply call_inv in Hc as [_ ->].
  apply bind_inv in Hrun as (found & e2 & ? & Hf & Hrun & ->).
  assert (Hp2 : posted e2 = []).
  { destruct dev; [by apply ret_inv in Hf as [_ ->]|]. by apply retry_device_run in Hf as [? _]. }
  destruct found as [[bid d]|].
  2: { apply bind_inv in Hrun as (? & ? & ? & _ & Hrun & ->). by apply ret_inv in Hrun as [? _]. }
  apply bind_inv in Hrun as (act & ? & ? & Hc & Hrun & ->). apply call_inv in Hc as [_ ->].
  destruct act; simpl in Hrun; [|by apply ret_inv in Hrun as [? _]].
  apply bind_inv in Hrun as (st1 & e3 & ? & Hfl & Hrun & ->).
  apply ret_inv in Hrun as [[= ->] ->]. apply flush_run in Hfl as [Ht Hp]. simpl in Ht, Hp.
  eexists id, _. split; [exact Ht|]. rewrite !posted_app, Hp2. simpl. rewrite app_nil_r.
  rewrite Hp. apply waiting_push.
Qed.

(** The slices [new] of one request: one per piece. *)
Definition request_slices (index : nat) (rq : TransferRequest) (pieces : list (Z * Z))
    (new : list RSlice) : Prop :=
  Forall2 (λ p s, ∃ id lkey, s = make_slice cfg id index rq p.1 lkey ∧ sl_length s = p.2)
    pieces new.

Definition add_slices (new : list RSlice) (t : TransferTask) : TransferTask :=
  fold_left (λ t s, count_slice s t) new t.

Lemma submit_slices_run fuel buffers index rq dev off st h st' evs :
  submit_slices cfg post_order fuel buffers index rq dev off st h = (Ok st', evs) →
  ∃ new,
    (∀ pieces, slice_offsets cfg fuel (rq_length rq) off = Some pieces →
       request_slices index rq pieces new) ∧
    su_tasks st' = alter (add_slices new) index (su_tasks st) ∧
    posted evs ++ waiting (slices_to_post st') ≡ₚ waiting (slices_to_post st) ++ new.
Proof using post_order_permutes.
  revert off st h evs. induction fuel as [|fuel IH]; intros off st h evs Hrun;
    cbn [submit_slices] in Hrun.
  { apply ret_inv in Hrun as [[= ->] ->]. exists []. split_and!; [done| |by rewrite app_nil_r].
    by rewrite list_alter_id. }
  cbn [slice_offsets]. destruct (off <? rq_length rq) eqn:Hlt.
  2: { apply ret_inv in Hrun as [[= ->] ->]. exists []. split_and!.
       - intros ps [= <-]. constructor.
       - by rewrite list_alter_id.
       - by rewrite app_nil_r. }
  apply bind_inv in Hrun as (r & e1 & e2 & Hs & Hrun & ->).
  destruct r as [st1|e]; [|by apply ret_inv in Hrun as [? _]].
  apply submit_slice_run in Hs as (id & lkey & Ht1 & Hp1).
  set (s := make_slice cfg id index rq off lkey) in *.
  assert (Hpiece : ∃ id' lkey', s = make_slice cfg id' index rq off lkey' ∧
    sl_length s = slice_length cfg (rq_length rq) off) by (by exists id, lkey).
  destruct (merge_final_slice cfg (rq_length rq) off).
  - apply ret_inv in Hrun as [[= ->] ->]. exists [s]. split_and!.
    + intros ps [= <-]. repeat constructor. done.
    + exact Ht1.
    + by rewrite app_nil_r.
  - apply IH in Hrun as (new & Hnew & Ht2 & Hp2). exists (s :: new). split_and!.
    + intros ps Hps. destruct (slice_offsets cfg fuel _ _) as [ps'|]; [|done].
      simplify_eq/=. constructor; [done|by apply Hnew].
    + rewrite Ht2, Ht1. by rewrite list_alter_alter_eq.
    + rewrite posted_app, <- app_assoc, Hp2, app_assoc, Hp1. by rewrite <- app_assoc.
Qed.

Definition bytes (new : list RSlice) : Z := foldr (λ s n, sl_length s + n) 0 new.

Lemma add_slices_fields new t :
  tk_request (add_slices new t) = tk_request t ∧
  tk_slice_list (add_slices new t) = tk_slice_list t ++ new ∧
  (in_u64 (tk_total_bytes t) →
     tk_total_bytes (add_slices new t) = u64_add (tk_total_bytes t) (bytes new)) ∧
  (in_u64 (tk_slice_count t) →
     tk_slice_count (add_slices new t) = u64_add (tk_slice_count t) (Z.of_nat (length new))).
Proof.
  revert t. induction new as [|s new IH]; intros t.
  - cbn. rewrite app_nil_r. unfold u64_add. rewrite !Z.add_0_r.
    split_and!; try done; intros; by rewrite u64_small.
  - cbn [add_slices fold_left]. destruct (IH (count_slice s t)) as (Hr & Hl & Hb & Hc).
    unfold add_slices in *. rewrite Hr, Hl, Hb, Hc by apply u64_range. simpl. rewrite <- app_assoc.
    unfold u64_add, u64. rewrite !Zplus_mod_idemp_l.
    split_and!; try done; intros _; f_equal; lia.
Qed.

Lemma submit_one_run buffers index st h st' evs :
  submit_one cfg post_order buffers index st h = (Some (Ok st'), evs) →
  ∃ rq new,
    su_tasks st !! index ≫= tk_request = Some rq ∧
    (∀ pieces, slice_offsets cfg (slice_fuel cfg (rq_length rq)) (rq_length rq) 0 = Some pieces →
       request_slices index rq pieces new) ∧
    su_tasks st' = alter (add_slices new) index (su_tasks st) ∧
    posted evs ++ waiting (slices_to_post st') ≡ₚ waiting (slices_to_post st) ++ new.
Proof using post_order_permutes.
  unfold submit_one. destruct (su_tasks st !! index ≫= tk_request) as [rq|];
    [|by intros [? _]%ret_inv].
  intros Hrun. apply bind_inv in Hrun as (dev & e1 & ? & Hd & Hrun & ->).
  apply select_device_posted in Hd.
  apply bind_inv in Hrun as (r & e2 & ? & Hs & Hrun & ->). apply ret_inv in Hrun as [[= <-] ->].
  apply submit_slices_run in Hs as (new & Hnew & Ht & Hp). simpl in Ht, Hp.
  exists rq, new. split_and!; try done. by rewrite !posted_app, Hd, app_nil_r.
Qed.

(** What the submission of the tasks [indices] does. *)
Lemma submit_all_run buffers indices st h st' evs :
  submit_all cfg post_order buffers indices st h = (Some (Ok st'), evs) →
  NoDup indices →
  ∃ news,
    length news = length indices ∧
    (∀ k i new, indices !! k = Some i → news !! k = Some new →
       ∃ rq, su_tasks st !! i ≫= tk_request = Some rq ∧
       (∀ pieces, slice_offsets cfg (slice_fuel cfg (rq_length rq)) (rq_length rq) 0 = Some pieces →
          request_slices i rq pieces new) ∧
       su_tasks st' !! i = add_slices new <$> su_tasks st !! i) ∧
    (∀ i, i ∉ indices → su_tasks st' !! i = su_tasks st !! i) ∧
    posted evs ++ waiting (slices_to_post st') ≡ₚ waiting (slices_to_post st) ++ mjoin news.
Proof using post_order_permutes.
  revert st h evs. induction indices as [|i indices IH]; intros st h evs Hrun Hnd;
    cbn [submit_all] in Hrun.
  { apply ret_inv in Hrun as [[= ->] ->]. exists []. split_and!; [done|done|done|].
    simpl. by rewrite app_nil_r. }
  apply NoDup_cons in Hnd as [Hi Hnd].
  apply bind_inv in Hrun as (r & e1 & e2 & Hone & Hrun & ->).
  destruct r as [[st1|e]|]; [|by apply ret_inv in Hrun as [? _]..].
  apply submit_one_run in Hone as (rq & new & Hrq & Hnew & Ht1 & Hp1).
  apply IH in Hrun as (news & Hlen & Hall & Hout & Hp2); [|done].
  exists (new :: news). split_and!.
  - simpl. by rewrite Hlen.
  - intros [|k] j new' Hj Hnews; simpl in Hj, Hnews.
    + injection Hj as <-. injection Hnews as <-. exists rq. split_and!; try done.
      rewrite Hout, Ht1 by done. apply list_lookup_alter_eq.
    + destruct (Hall k j new' Hj Hnews) as (rq' & Hrq' & Hnew' & Ht').
      assert (Hne : i ≠ j) by (intros ->; apply Hi; by eapply list_elem_of_lookup_2).
      rewrite Ht1, list_lookup_alter_ne in Hrq', Ht' by done. eauto.
  - intros j [Hj1 Hj2]%not_elem_of_cons. rewrite Hout, Ht1 by done.
    by apply list_lookup_alter_ne.
  - rewrite posted_app, <- app_assoc, Hp2, app_assoc, Hp1. simpl. by rewrite <- app_assoc.
Qed.

Lemma pieces_cover_sum a pieces b :
  pieces_cover a pieces b → foldr (λ p n, p.2 + n) 0 pieces = b - a.
Proof.
  revert a. induction pieces as [|[o n] ps IH]; intros a; simpl; [lia|].
  intros (_ & _ & Hc). rewrite (IH _ Hc). lia.
Qed.

Lemma request_slices_bytes i rq ps new :
  request_slices i rq ps new → bytes new = foldr (λ p n, p.2 + n) 0 ps.
Proof.
  unfold request_slices. induction 1 as [|p s ps new (id & lkey & _ & Hl) _ IH]; [done|].
  simpl. by rewrite IH, Hl.
Qed.

Lemma slice_offsets_total len :
  sane_config cfg → 0 ≤ len < u64_modulus →
  ∃ ps, slice_offsets cfg (slice_fuel cfg len) len 0 = Some ps ∧ pieces_cover 0 ps len.
Proof.
  intros Hcfg Hlen. destruct (decide (len = 0)) as [->|Hne].
  - by exists [].
  - destruct (slice_offsets_spec cfg (slice_fuel cfg len) len 0 Hcfg) as
      (ps & Hps & _ & Hcov & _); [lia|lia| |by exists ps].
    unfold slice_fuel. rewrite Z.sub_0_r. lia.
Qed.

(** A failed submission never reports [StatusOK]. *)
Lemma submit_slices_error fuel buffers index rq dev off st h e evs :
  submit_slices cfg post_order fuel buffers index rq dev off st h = (Err e, evs) →
  e.1 ≠ StatusOK.
Proof.
  revert off st h evs. induction fuel as [|fuel IH]; intros off st h evs Hrun;
    cbn [submit_slices] in Hrun; [by apply ret_inv in Hrun as [? _]|].
  case_match; [|by apply ret_inv in Hrun as [? _]].
  apply bind_inv in Hrun as (r & e1 & e2 & Hs & Hrun & ->). destruct r as [st1|e'].
  - case_match; [by apply ret_inv in Hrun as [? _]|]. by eapply IH.
  - apply ret_inv in Hrun as [[= ->] _]. unfold submit_slice in Hs.
    apply bind_inv in Hs as (al & ? & ? & _ & Hs & ->).
    apply bind_inv in Hs as (found & ? & ? & _ & Hs & ->). destruct found as [[bid d]|].
    + apply bind_inv in Hs as (act & ? & ? & _ & Hs & ->).
      destruct act; simpl in Hs; [|by apply ret_inv in Hs as [[= ->] _]].
      apply bind_inv in Hs as (? & ? & ? & _ & Hs & ->). by apply ret_inv in Hs as [? _].
    + apply bind_inv in Hs as (? & ? & ? & _ & Hs & ->). by apply ret_inv in Hs as [[= ->] _].
Qed.

Lemma submit_all_error buffers indices st h e evs :
  submit_all cfg post_order buffers indices st h = (Some (Err e), evs) → e.1 ≠ StatusOK.
Proof.
  revert st h evs. induction indices as [|i indices IH]; intros st h evs Hrun;
    cbn [submit_all] in Hrun; [by apply ret_inv in Hrun as [? _]|].
  apply bind_inv in Hrun as (r & e1 & e2 & Hone & Hrun & ->).
  destruct r as [[st1|e']|]; [by eapply IH| |by apply ret_inv in Hrun as [? _]].
  apply ret_inv in Hrun as [[= ->] _]. unfold submit_one in Hone.
  destruct (su_tasks st !! i ≫= tk_request); [|by apply ret_inv in Hone as [? _]].
  apply bind_inv in Hone as (dev & ? & ? & _ & Hone & ->).
  apply bind_inv in Hone as (r & ? & ? & Hs & Hone & ->).
  apply ret_inv in Hone as [[= <-] _]. by eapply submit_slices_error.
Qed.

(** C9: when a batch of tasks is submitted successfully, every request is cut
    into slices that cover it exactly, the task's 64-bit byte and slice counters
    grow by exactly the request, and the slices handed to the RDMA contexts are
    exactly the slices of the tasks, each of them once. *)
Theorem submit_posts_every_slice_once buffers tasks h tasks' evs :
  sane_config cfg →
  (∀ i t rq, tasks !! i = Some t → tk_request t = Some rq → 0 ≤ rq_length rq < u64_modulus) →
  submitTransferTask cfg post_order buffers tasks h = (Some (StatusOK, tasks'), evs) →
  ∃ news,
    posted evs ≡ₚ mjoin news ∧ length news = length tasks ∧
    ∀ i t, tasks !! i = Some t → ∃ rq pieces new t',
      tk_request t = Some rq ∧ news !! i = Some new ∧ tasks' !! i = Some t' ∧
      pieces_cover 0 pieces (rq_length rq) ∧ request_slices i rq pieces new ∧
      tk_slice_list t' = tk_slice_list t ++ new ∧
      (in_u64 (tk_total_bytes t) →
         tk_total_bytes t' = u64_add (tk_total_bytes t) (rq_length rq)) ∧
      (in_u64 (tk_slice_count t) →
         tk_slice_count t' = u64_add (tk_slice_count t) (Z.of_nat (length new))).
Proof using post_order_permutes.
  intros Hcfg Hreq. unfold submitTransferTask. intros Hrun.
  apply bind_inv in Hrun as (r & e1 & ? & Hall & Hrun & ->).
  destruct r as [[st|e]|]; [| |by apply ret_inv in Hrun as [? _]].
  2: { apply submit_all_error in Hall. apply ret_inv in Hrun as [[= <-] _]. done. }
  apply bind_inv in Hrun as (? & e2 & ? & Hpost & Hrun & ->).
  apply ret_inv in Hrun as [[= ->] ->]. apply post_entries_run in Hpost.
  apply submit_all_run in Hall as (news & Hlen & Hnews & _ & Hp); [|apply NoDup_seq].
  rewrite length_seq in Hlen. simpl in Hp, Hnews. exists news. split_and!; [|done|].
  - rewrite !posted_app, app_nil_r, Hpost.
    rewrite (waiting_permutation _ _ (post_order_permutes (slices_to_post st))). exact Hp.
  - intros i t Hi. assert (Hseq : seq 0 (length tasks) !! i = Some i)
      by (apply lookup_seq; split; [lia|by eapply lookup_lt_Some]).
    assert (is_Some (news !! i)) as [new Hnew]
      by (apply lookup_lt_is_Some; rewrite Hlen; by eapply lookup_lt_Some).
    destruct (Hnews i i new Hseq Hnew) as (rq & Hrq & Hps & Ht). rewrite Hi in Hrq, Ht.
    simpl in Hrq, Ht.
    destruct (slice_offsets_total (rq_length rq) Hcfg (Hreq i t rq Hi Hrq)) as (ps & Heq & Hcov).
    specialize (Hps ps Heq). destruct (add_slices_fields new t) as (_ & Hl & Hb & Hc).
    exists rq, ps, new, (add_slices new t). split_and!; try done.
    rewrite (request_slices_bytes _ _ _ _ Hps), (pieces_cover_sum _ _ _ Hcov), Z.sub_0_r in Hb.
    exact Hb.
Qed.

(** [submitTransfer] never looks at the requests it is given: only their
    number matters, and since the new tasks carry no request, a non-empty
    submission within capacity never succeeds (it stops at
    [assert(task.request)]). *)
Theorem submit_transfer_drops_requests buffers batch_size task_list entries h tasks' evs :
  (∀ entries', length entries' = length entries →
     submitTransfer cfg post_order buffers batch_size task_list entries' h =
     submitTransfer cfg post_order buffers batch_size task_list entries h) ∧
  (entries ≠ [] →
     submitTransfer cfg post_order buffers batch_size task_list entries h ≠
       (Some (StatusOK, tasks'), evs)).
Proof using post_order_permutes.
  split; [intros es' Hl; unfold submitTransfer; by rewrite Hl|].
  intros Hne. unfold submitTransfer. case_match; [by intros [? _]%ret_inv|].
  unfold submitTransferTask. intros Hrun.
  apply bind_inv in Hrun as (r & e1 & ? & Hall & Hrun & ->).
  destruct r as [[st|e]|]; [| |by apply ret_inv in Hrun as [? _]].
  2: { apply submit_all_error in Hall. apply ret_inv in Hrun as [[= <-] _]. done. }
  apply submit_all_run in Hall as (news & Hlen & Hnews & _ & _); [|apply NoDup_seq].
  rewrite length_seq in Hlen. set (i := length task_list).
  assert (Hi : (i < length (task_list ++ replicate (length entries) fresh_task))%nat)
    by (rewrite length_app, length_replicate; destruct entries; [done|simpl; lia]).
  assert (is_Some (news !! i)) as [new Hnew] by (apply lookup_lt_is_Some; by rewrite Hlen).
  destruct (Hnews i i new) as (rq & Hrq & _); [by apply lookup_seq|done|].
  simpl in Hrq. unfold i in Hrq. rewrite lookup_app_r, Nat.sub_diag in Hrq by lia.
  destruct entries as [|en es]; [done|]. by simpl in Hrq.
Qed.
End SubmitSpec.

(** ** Completion *)

(** with the counters of a task within its number of slices, the reported
    status is [COMPLETED] exactly when all slices succeeded, [FAILED] exactly
    when all are done and one failed, and [WAITING] otherwise; the task is
    marked finished exactly in the first two cases. *)
Theorem status_reflects_slices t :
  0 ≤ tk_success_slice_count t → 0 ≤ tk_failed_slice_count t →
  tk_success_slice_count t + tk_failed_slice_count t ≤ tk_slice_count t →
  tk_slice_count t < u64_modulus →
  ((task_status t).1 = COMPLETED ↔
     tk_success_slice_count t = tk_slice_count t ∧ tk_failed_slice_count t = 0) ∧
  ((task_status t).1 = FAILED ↔
     tk_success_slice_count t + tk_failed_slice_count t = tk_slice_count t ∧
     0 < tk_failed_slice_count t) ∧
  (tk_is_finished t = false →
     (tk_is_finished (task_status t).2 = true ↔ (task_status t).1 ≠ WAITING)).
Proof.
  intros. unfold task_status. rewrite u64_add_small by lia.
  destruct (Z.eqb_spec (tk_success_slice_count t + tk_failed_slice_count t) (tk_slice_count t));
    [destruct (Z.eqb_spec (tk_failed_slice_count t) 0)|]; simpl;
    split_and!; try (split; intros; try done; lia); intros Hf; split; intros; try done; congruence.
Qed.

Lemma status_reflects_slices_witness :
  (task_status (MkTask None [] 8 2 4 1 1 false)).1 = FAILED.
Proof.
  destruct (status_reflects_slices (MkTask None [] 8 2 4 1 1 false)) as (_ & Hf & _);
    try (unfold u64_modulus; simpl; lia).
  apply Hf. simpl. lia.
Defined.

(** ** Witnesses *)

(** One device; the topology serves every location. *)
Definition sample_rdma : RdmaServices := {|
  topology_select := λ _ _ _ _, 0;
  slice_allocate := λ h, (Z.of_nat (length h), false);
  context_active := λ _ _, true |}.
Definition sample_rdma_config : RdmaConfig := MkRdmaConfig 4 3 1 16 2.
Definition sample_buffer (len : Z) : BufferDesc := MkBufferDesc "cpu:0" 4096 len [77] [78].
Definition sample_task (len : Z) : TransferTask :=
  MkTask (Some (MkRequest 1 4096 9 0 len 0)) [] 0 0 0 0 0 false.

Definition sample_submit (buffer_len : Z) : option (Status * list TransferTask) * list rdma_event :=
  @submitTransferTask sample_rdma sample_rdma_config id [sample_buffer buffer_len]
    [sample_task 13; sample_task 2] [].

Lemma submit_posts_every_slice_once_witness :
  ∃ news, posted (sample_submit 64).2 ≡ₚ mjoin news ∧ length news = 2%nat.
Proof.
  destruct (@submit_posts_every_slice_once sample_rdma sample_rdma_config id (λ m, reflexivity m)
    [sample_buffer 64] [sample_task 13; sample_task 2] []
    (default [] (snd <$> (sample_submit 64).1)) (sample_submit 64).2)
    as (news & Hp & Hl & _).
  - unfold sane_config, u64_modulus. simpl. lia.
  - intros [|[|i]] t rq; simpl; intros Ht Hr; simplify_eq/=; unfold u64_modulus; lia.
  - by vm_compute.
  - by exists news.
Defined.

Lemma submit_transfer_drops_requests_witness :
  (@submitTransfer sample_rdma sample_rdma_config id [sample_buffer 64] 8 []
     [MkRequest 1 4096 9 0 13 0] []).1 ≠ Some (StatusOK, []).
Proof.
  intros Heq.
  destruct (@submit_transfer_drops_requests sample_rdma sample_rdma_config id (λ m, reflexivity m)
    [sample_buffer 64] 8 [] [MkRequest 1 4096 9 0 13 0] [] []
    (@submitTransfer sample_rdma sample_rdma_config id [sample_buffer 64] 8 []
     [MkRequest 1 4096 9 0 13 0] []).2) as [_ Hno].
  apply Hno; [done|]. rewrite <- Heq. apply surjective_pairing.
Defined.

Lemma select_device_sound_witness :
  ∃ b, [sample_buffer 64] !! 0%nat = Some b ∧ bd_addr b ≤ 4100 ∧
       4100 + 8 ≤ bd_addr b + bd_length b.
Proof.
  pose proof (@select_device_sound sample_rdma [sample_buffer 64] 4100 8 "" 0 []
    (Some (0%nat, 0))
    (@selectDevice sample_rdma (Some [sample_buffer 64]) 4100 8 "" 0 []).2) as Hsel.
  destruct Hsel as (b & loc & Hb & H1 & H2 & _).
  - by vm_compute.
  - by exists b.
Defined.

(** when a slice finds no device, the slices waiting to be posted are given
    back to the slice cache but stay in the slice list of their task: the
    failed submission leaves a task that refers to a freed slice. *)
Theorem failed_submit_keeps_freed_slices :
  ∃ s t, (sample_submit 4).1 = Some (AddressNotRegistered 4100, [t; sample_task 2]) ∧
    DeallocateSlice s ∈ (sample_submit 4).2 ∧ s ∈ tk_slice_list t.
Proof.
  exists (make_slice sample_rdma_config 0 0 (MkRequest 1 4096 9 0 13 0) 0 77).
  eexists. split; [by vm_compute|]. split; vm_compute; repeat (first [by left|right]).
Qed.
