(* ===== verification/Accounting.v ===== *)
(** * Accounting for acquired resources

    What a program acquires and releases through its external calls, as a
    small program logic: [owns pre m post] says that [m], started while [pre]
    is held, holds [post v] when it returns [v], and has released everything
    else it acquired. *)

From S2P Require Import Prelude.
From stdpp Require Import base list.
From Stdlib Require Import ZArith Lia.

#[local] Open Scope Z_scope.
#[local] Set Default Proof Using "Type".

(** How the calls of a component acquire and release its resources. *)
Class Resources (Ev Res : Type) := {
  acquires : Ev → list Res;
  (* the resource a release call is about, and the call's return code *)
  release_of : Ev → option (Res * Z) }.
#[export] Hint Mode Resources ! - : typeclass_instances.

Definition of_option {A Res} (f : A → Res) (o : option A) : list Res :=
  match o with Some x => [f x] | None => [] end.

Section Accounting.
Context {Ev Res : Type} `{!EqDecision Res, !Resources Ev Res}.

Definition releases (e : Ev) : list Res :=
  match release_of e with Some (r, rc) => if rc =? 0 then [r] else [] | None => [] end.

Definition refuses (e : Ev) : list Res :=
  match release_of e with Some (r, rc) => if rc =? 0 then [] else [r] | None => [] end.

(** How often [r] is acquired, released, and refused by its release call. *)
Definition times (f : Ev → list Res) (evs : list Ev) (r : Res) : nat :=
  count (λ x, bool_decide (x = r)) (evs ≫= f).

Definition holds (l : list Res) (r : Res) : nat :=
  count (λ x, bool_decide (x = r)) l.

(** Starting from [pre], the calls [evs] leave [post]: everything acquired is
    released or in [post], except what a failed release call lost. *)
Definition accounts (pre : list Res) (evs : list Ev) (post : list Res) : Prop :=
  ∀ r, (holds post r + times releases evs r ≤ holds pre r + times acquires evs r)%nat ∧
       (holds pre r + times acquires evs r ≤
        holds post r + times releases evs r + times refuses evs r)%nat.

Lemma times_app f e1 e2 r : times f (e1 ++ e2) r = (times f e1 r + times f e2 r)%nat.
Proof. unfold times. by rewrite bind_app, count_app. Qed.

Lemma holds_app l1 l2 r : holds (l1 ++ l2) r = (holds l1 r + holds l2 r)%nat.
Proof. apply count_app. Qed.

Lemma holds_nil r : holds [] r = 0%nat.
Proof. apply count_nil. Qed.

Lemma holds_cons x l r :
  holds (x :: l) r = ((if bool_decide (x = r) then 1 else 0) + holds l r)%nat.
Proof. unfold holds. by rewrite count_cons. Qed.

Lemma accounts_nil pre : accounts pre [] pre.
Proof. intros r. unfold times. simpl. rewrite count_nil. lia. Qed.

Lemma accounts_app pre e1 mid e2 post :
  accounts pre e1 mid → accounts mid e2 post → accounts pre (e1 ++ e2) post.
Proof. intros H1 H2 r. specialize (H1 r). specialize (H2 r). rewrite !times_app. lia. Qed.

Lemma accounts_frame l pre evs post :
  accounts pre evs post → accounts (l ++ pre) evs (l ++ post).
Proof. intros H1 r. specialize (H1 r). rewrite !holds_app. lia. Qed.

#[export] Instance holds_proper : Proper ((≡ₚ) ==> (=) ==> (=)) holds.
Proof.
  intros l l' Hl ? r ->. unfold holds. induction Hl; rewrite ?count_cons in *; lia.
Qed.

#[export] Instance accounts_proper : Proper ((≡ₚ) ==> (=) ==> (≡ₚ) ==> iff) accounts.
Proof.
  intros a a' Ha evs ? <- b b' Hb. unfold accounts. split; intros H r; specialize (H r).
  - by rewrite <- Ha, <- Hb.
  - by rewrite Ha, Hb.
Qed.

(** A program that, started with [pre], leaves [post v] when it returns [v]. *)
Definition owns {A} (pre : list Res) (m : comp Ev A) (post : A → list Res) : Prop :=
  ∀ h v evs, m h = (v, evs) → accounts pre evs (post v).

(** What every result of a program satisfies. *)
Definition returns {A} (m : comp Ev A) (P : A → Prop) : Prop := ∀ h v evs, m h = (v, evs) → P v.

Lemma owns_ret {A} (a : A) pre post : pre ≡ₚ post a → owns pre (ret a) post.
Proof. intros Hp h v evs [-> ->]%ret_inv. rewrite Hp. apply accounts_nil. Qed.

Lemma owns_bind {A B} (m : comp Ev A) (k : A → comp Ev B) pre mid post (P : A → Prop) :
  owns pre m mid → returns m P → (∀ a, P a → owns (mid a) (k a) post) →
  owns pre (bind m k) post.
Proof.
  intros Hm HP Hk h v evs (a & e1 & e2 & H1 & H2 & ->)%bind_inv.
  eapply accounts_app; [by eapply Hm|]. eapply Hk; [by eapply HP|done].
Qed.

Lemma returns_true {A} (m : comp Ev A) : returns m (λ _, True).
Proof. done. Qed.

Lemma returns_ret {A} (a : A) (P : A → Prop) : P a → returns (ret a) P.
Proof. by intros Ha h v evs [-> _]%ret_inv. Qed.

Lemma returns_bind {A B} (m : comp Ev A) (k : A → comp Ev B) (P : B → Prop) :
  (∀ a, returns (k a) P) → returns (bind m k) P.
Proof. intros Hk h v evs (a & e1 & e2 & _ & H2 & _)%bind_inv. by eapply Hk. Qed.

Lemma returns_seq {A B} (m : comp Ev A) (k : A → comp Ev B) (P : A → Prop) (Q : B → Prop) :
  returns m P → (∀ a, P a → returns (k a) Q) → returns (bind m k) Q.
Proof.
  intros Hm Hk h v evs (a & e1 & e2 & H1 & H2 & _)%bind_inv. eapply Hk; [by eapply Hm|done].
Qed.

Lemma owns_seq {A B} (m : comp Ev A) (k : A → comp Ev B) pre mid post :
  owns pre m mid → (∀ a, owns (mid a) (k a) post) → owns pre (bind m k) post.
Proof. intros Hm Hk. eapply owns_bind; [done|apply returns_true|]. auto. Qed.

Lemma owns_call {A} (f : list Ev → A) (ev : A → Ev) pre post :
  (∀ v r, (holds (post v) r + holds (releases (ev v)) r ≤
           holds pre r + holds (acquires (ev v)) r)%nat ∧
          (holds pre r + holds (acquires (ev v)) r ≤
           holds (post v) r + holds (releases (ev v)) r + holds (refuses (ev v)) r)%nat) →
  owns pre (call f ev) post.
Proof.
  intros Hv h v evs [-> ->]%call_inv r. specialize (Hv (f h) r).
  unfold times. cbn [mbind list_bind]. by rewrite !app_nil_r.
Qed.

(** A program chosen by the history. *)
Lemma owns_chosen {A} (m : list Ev → comp Ev A) pre post :
  (∀ h, owns pre (m h) post) → owns pre (λ h, m h h) post.
Proof. intros Hm h v evs R. by eapply Hm. Qed.

Lemma owns_frame {A} l (m : comp Ev A) pre post :
  owns pre m post → owns (l ++ pre) m (λ v, l ++ post v).
Proof. intros Hm h v evs Hrun. apply accounts_frame. by eapply Hm. Qed.

Lemma owns_conseq {A} (m : comp Ev A) pre pre' post post' :
  owns pre m post → pre ≡ₚ pre' → (∀ v, post v ≡ₚ post' v) → owns pre' m post'.
Proof. intros Hm Hpre Hpost h v evs Hrun. rewrite <- Hpre, <- Hpost. by eapply Hm. Qed.

Lemma owns_pre {A} (m : comp Ev A) pre pre' post :
  owns pre m post → pre ≡ₚ pre' → owns pre' m post.
Proof. intros Hm Hpre. by eapply owns_conseq. Qed.

Lemma owns_mmap {A B} (f : A → list Res) (body : A → comp Ev B) l :
  (∀ x, owns (f x) (body x) (λ _, [])) → owns (l ≫= f) (mmap body l) (λ _, []).
Proof.
  intros Hbody. induction l as [|x l IH]; simpl.
  - apply owns_ret. done.
  - apply owns_seq with (mid := λ _, l ≫= f).
    + eapply owns_conseq; [apply (owns_frame (l ≫= f)), Hbody| |]; intros; solve_Permutation.
    + intros y. apply owns_seq with (mid := λ _, []); [done|]. intros ys. by apply owns_ret.
Qed.

Lemma owns_mmap_neutral {A B} l (body : A → comp Ev B) xs :
  (∀ x, owns l (body x) (λ _, l)) → owns l (mmap body xs) (λ _, l).
Proof.
  intros Hbody. induction xs as [|x xs IH]; [by apply owns_ret|].
  eapply owns_seq; [apply Hbody|]. intros y. cbn beta.
  eapply owns_seq; [apply IH|]. intros ys. by apply owns_ret.
Qed.

(** Run a part that consumes [l1] of [l1 ++ l2]. *)
Lemma owns_consume {A B} (m : comp Ev A) (k : A → comp Ev B) l1 l2 post :
  owns l1 m (λ _, []) → (∀ a, owns l2 (k a) post) → owns (l1 ++ l2) (bind m k) post.
Proof.
  intros Hm Hk. apply owns_pre with (pre := l2 ++ l1); [|apply Permutation_app_comm].
  eapply owns_seq; [by apply owns_frame|]. intros a. cbn beta. rewrite app_nil_r. apply Hk.
Qed.

(** The same for one history. *)
Definition owns_at {A} (h : list Ev) (pre : list Res) (m : comp Ev A) (post : A → list Res)
  : Prop := ∀ v evs, m h = (v, evs) → accounts pre evs (post v).

Lemma owns_owns_at {A} h pre (m : comp Ev A) post : owns pre m post → owns_at h pre m post.
Proof. intros Hm v evs. apply Hm. Qed.

Lemma owns_at_ret {A} h (a : A) pre post : pre ≡ₚ post a → owns_at h pre (ret a) post.
Proof. intros Hp. by apply owns_owns_at, owns_ret. Qed.

Lemma owns_at_bind {A B} h (m : comp Ev A) (k : A → comp Ev B) pre mid post :
  owns pre m mid → (∀ a evs, m h = (a, evs) → owns_at (h ++ evs) (mid a) (k a) post) →
  owns_at h pre (bind m k) post.
Proof.
  intros Hm Hk v evs (a & e1 & e2 & H1 & H2 & ->)%bind_inv.
  eapply accounts_app; [by eapply Hm|]. by eapply Hk.
Qed.

Lemma owns_framed {A} l (m : comp Ev A) post :
  owns [] m post → owns l m (λ v, l ++ post v).
Proof. intros Hm. rewrite <- (app_nil_r l) at 1. by apply owns_frame. Qed.

Lemma owns_released {A} l l' (m : comp Ev A) :
  owns l m (λ _, []) → owns (l' ++ l) m (λ _, l').
Proof.
  intros Hm. eapply owns_conseq; [exact (owns_frame l' m l (λ _, []) Hm)|done|].
  intros v. cbn beta. by rewrite app_nil_r.
Qed.

End Accounting.

(** ** Losses

    Programs that may lose what is [lossable], and only after a call that [failed]. *)

Section Losing.
Context {Ev Res : Type} `{!EqDecision Res, !Resources Ev Res}.
Context (lossable : Res → Prop) (failed : Ev → Prop).

Definition loses (evs : list Ev) (lost : list Res) : Prop :=
  Forall lossable lost ∧ (lost = [] ∨ Exists failed evs).

Definition owns_but {A} (pre : list Res) (m : comp Ev A) (post : A → list Res) : Prop :=
  ∀ h v evs, m h = (v, evs) → ∃ lost, accounts pre evs (lost ++ post v) ∧ loses evs lost.

Lemma loses_nil evs : loses evs [].
Proof using Type. split; [constructor|by left]. Qed.

Lemma loses_app e1 e2 l1 l2 : loses e1 l1 → loses e2 l2 → loses (e1 ++ e2) (l1 ++ l2).
Proof using Type.
  intros [Hl1 Hf1] [Hl2 Hf2]. split; [by apply Forall_app|]. rewrite Exists_app.
  destruct Hf1 as [->|]; [|by right; left]. destruct Hf2 as [->|]; [by left|by right; right].
Qed.

Lemma owns_owns_but {A} pre (m : comp Ev A) post : owns pre m post → owns_but pre m post.
Proof using Type. intros Hm h v evs R. exists []. split; [by eapply Hm|apply loses_nil]. Qed.

Lemma owns_but_seq {A B} (m : comp Ev A) (k : A → comp Ev B) pre mid post :
  owns_but pre m mid → (∀ a, owns_but (mid a) (k a) post) → owns_but pre (bind m k) post.
Proof using Type.
  intros Hm Hk h v evs (a & e1 & e2 & R1 & R2 & ->)%bind_inv.
  destruct (Hm _ _ _ R1) as (l1 & A1 & L1). destruct (Hk a _ _ _ R2) as (l2 & A2 & L2).
  exists (l1 ++ l2). split; [|by apply loses_app].
  eapply accounts_app; [exact A1|]. rewrite <- app_assoc. by apply accounts_frame.
Qed.

Lemma owns_but_frame {A} l (m : comp Ev A) pre post :
  owns_but pre m post → owns_but (l ++ pre) m (λ v, l ++ post v).
Proof using Type.
  intros Hm h v evs R. destruct (Hm _ _ _ R) as (lost & Ha & Hl). exists lost. split; [|done].
  apply (accounts_frame l) in Ha. eapply accounts_proper; [reflexivity..| |exact Ha].
  solve_Permutation.
Qed.

Lemma owns_but_pre {A} (m : comp Ev A) pre pre' post :
  owns_but pre m post → pre ≡ₚ pre' → owns_but pre' m post.
Proof using Type.
  intros Hm Hp h v evs R. destruct (Hm _ _ _ R) as (lost & Ha & Hl). exists lost.
  by rewrite <- Hp.
Qed.

Lemma owns_but_mfold {S X} (f : S → X → comp Ev S) (res : S → list Res) xs s :
  (∀ s x, owns_but (res s) (f s x) res) → owns_but (res s) (mfold f s xs) res.
Proof using Type.
  intros Hf. revert s. induction xs as [|x xs IH]; intros s; cbn [mfold].
  - by apply owns_owns_but, owns_ret.
  - eapply owns_but_seq; [apply Hf|apply IH].
Qed.
End Losing.

(** ** A component inside another *)

Section Lift.
Context {Ev Res Ev' Res' : Type}.
Context `{!EqDecision Res, !Resources Ev Res, !EqDecision Res', !Resources Ev' Res'}.
Context (inj : Ev → Ev') (prj : Ev' → option Ev) (rinj : Res → Res') `{!Inj (=) (=) rinj}.
Context (acquires_inj : ∀ e, acquires (inj e) = rinj <$> acquires e).
Context (release_inj : ∀ e, release_of (inj e) = option_map (λ x, (rinj x.1, x.2)) (release_of e)).

Lemma holds_inj l r : holds (rinj <$> l) (rinj r) = holds l r.
Proof using Inj0.
  induction l as [|x l IH]; [done|]. rewrite fmap_cons, !holds_cons, IH.
  f_equal. rewrite (bool_decide_ext (rinj x = rinj r) (x = r)); [done|].
  split; [apply (base.inj rinj)|by intros ->].
Qed.

Lemma holds_other l r : (∀ x, r ≠ rinj x) → holds (rinj <$> l) r = 0%nat.
Proof using Type.
  intros Hr. induction l as [|x l IH]; [done|]. rewrite fmap_cons, holds_cons, IH.
  rewrite bool_decide_eq_false_2; [done|]. intros E. by destruct (Hr x).
Qed.

Lemma releases_inj e : releases (inj e) = rinj <$> releases e.
Proof using release_inj.
  unfold releases. rewrite release_inj. destruct (release_of e) as [[r rc]|]; [|done].
  cbn. by destruct (rc =? 0).
Qed.

Lemma refuses_inj e : refuses (inj e) = rinj <$> refuses e.
Proof using release_inj.
  unfold refuses. rewrite release_inj. destruct (release_of e) as [[r rc]|]; [|done].
  cbn. by destruct (rc =? 0).
Qed.

Lemma times_inj (f : Ev' → list Res') (g : Ev → list Res) evs r :
  (∀ e, f (inj e) = rinj <$> g e) → times f (inj <$> evs) r = holds (rinj <$> (evs ≫= g)) r.
Proof using Type.
  intros Hf. unfold times, holds. f_equal.
  induction evs as [|e evs IH]; [done|]. cbn. by rewrite Hf, IH, fmap_app.
Qed.

Lemma lift_accounts pre evs post :
  (∀ r, (∃ x, r = rinj x) ∨ ∀ x, r ≠ rinj x) →
  accounts pre evs post → accounts (rinj <$> pre) (inj <$> evs) (rinj <$> post).
Proof using Type*.
  intros Hdec Hm r.
  rewrite (times_inj acquires acquires), (times_inj releases releases), (times_inj refuses refuses)
    by (apply acquires_inj || apply releases_inj || apply refuses_inj).
  destruct (Hdec r) as [[x ->]|Hr].
  - rewrite !holds_inj. apply Hm.
  - rewrite !holds_other by done. lia.
Qed.

(** What a program owns, it owns inside the other component. *)
Lemma lift_owns {A} pre (m : comp Ev A) post l :
  (∀ r, (∃ x, r = rinj x) ∨ ∀ x, r ≠ rinj x) →
  owns pre m post →
  owns (l ++ (rinj <$> pre)) (lift_comp inj prj m) (λ v, l ++ (rinj <$> post v)).
Proof using Type*.
  intros Hdec Hm. apply owns_frame. intros h v evs (evs' & R & ->)%lift_inv.
  apply lift_accounts; [done|]. by eapply Hm.
Qed.

Lemma lift_owns_but (P : Res → Prop) (P' : Res' → Prop) (F : Ev → Prop) (F' : Ev' → Prop)
    {A} pre (m : comp Ev A) post l :
  (∀ r, (∃ x, r = rinj x) ∨ ∀ x, r ≠ rinj x) →
  (∀ x, P x → P' (rinj x)) → (∀ e, F e → F' (inj e)) →
  owns_but P F pre m post →
  owns_but P' F' (l ++ (rinj <$> pre)) (lift_comp inj prj m) (λ v, l ++ (rinj <$> post v)).
Proof using Type*.
  intros Hdec HP HF Hm. apply owns_but_frame. intros h v evs (evs' & R & ->)%lift_inv.
  destruct (Hm _ _ _ R) as (lost & Ha & Hl & Hf). exists (rinj <$> lost). split; [|split].
  - rewrite <- fmap_app. by apply lift_accounts.
  - apply Forall_fmap. eapply Forall_impl; [exact Hl|]. done.
  - destruct Hf as [->|Hf]; [by left|right]. apply Exists_exists in Hf as (e & He & Hfe).
    apply Exists_exists. exists (inj e). split; [by apply list_elem_of_fmap_2|auto].
Qed.
End Lift.

#[export] Hint Rewrite @times_app @holds_app : mooncake.

#[global] Arguments holds : simpl never.

(** One external call. *)
Ltac owned_call :=
  let v := fresh "v" in let r := fresh "r" in
  apply owns_call; intros v r; cbn; unfold releases, refuses; cbn [release_of];
  rewrite ?holds_app, ?holds_cons, ?holds_nil;
  repeat match goal with |- context [holds (if ?b then _ else _) _] => destruct b end;
  rewrite ?holds_cons, ?holds_nil; lia.

(** A call that neither acquires nor releases. *)
Ltac neutral :=
  let v := fresh "v" in let r := fresh "r" in
  apply owns_call; intros v r; cbn; rewrite ?holds_cons, !holds_nil; lia.
(** Results of a program whose result does not depend on what it calls. *)
Ltac frame_run :=
  repeat first [apply returns_ret; done | apply returns_bind; intros | case_match].
