(* ===== verification/RdmaContext.v ===== *)
(** * Resources of one RDMA device: [RdmaContext]
      ([mooncake-transfer-engine/src/transport/rdma_transport/rdma_context.cpp])

    Opening and closing of a device, the memory regions registered on it, and
    the choice of its GID.  The verbs, CUDA, HIP and system calls are external:
    a class of operations whose answers may depend on all calls made before.
    Every call is an event, so that what is acquired and what is released can
    be compared. *)

From S2P Require Import Prelude CxxString.
From stdpp Require Import base strings list sets gmap sorting.
From Stdlib Require Import ZArith Lia.

#[local] Open Scope Z_scope.

(** ** Data *)

(** [ibv_mr]: the fields the code reads, and the identity of the object. *)
Record ibv_mr := MkMr { mr_handle : Z; mr_length : Z; mr_rkey : Z; mr_lkey : Z }.

Record MemoryRegionMeta := MkMeta { meta_addr : Z; meta_mr : ibv_mr }.

(** A [MemoryRegionMeta] variable as the code passes it by reference: its
    [mr] may be null, and before the first assignment holds any value. *)
Record RawMeta := MkRaw { raw_addr : Z; raw_mr : option ibv_mr }.

(** [std::map<uintptr_t, MemoryRegionMeta>]: entries by increasing key. *)
Definition MemoryRegionMap : Type := list (Z * MemoryRegionMeta).

Inductive CUmemorytype := CU_HOST | CU_DEVICE | CU_OTHER (code : Z).
Inductive hipMemoryType :=
| HIP_HOST | HIP_UNREGISTERED | HIP_MANAGED | HIP_DEVICE | HIP_OTHER (code : Z).

(** The GPU support the code is compiled with. *)
Inductive GpuBuild := USE_CUDA | USE_MACA | USE_MLU | USE_HIP_DMABUF | NO_GPU.

Record ibv_port_attr := MkPort { port_active : bool; port_lid : Z; gid_tbl_len : nat }.

(** A GID: its sixteen raw bytes. *)
Abbreviation ibv_gid := (list Z).

Record ibv_gid_entry := MkGidEntry { entry_gid : ibv_gid; gid_type : Z }.

#[export] Instance ibv_mr_eq_dec : EqDecision ibv_mr.
Proof. solve_decision. Defined.
#[export] Instance MemoryRegionMeta_eq_dec : EqDecision MemoryRegionMeta.
Proof. solve_decision. Defined.
#[export] Instance CUmemorytype_eq_dec : EqDecision CUmemorytype.
Proof. solve_decision. Defined.
#[export] Instance hipMemoryType_eq_dec : EqDecision hipMemoryType.
Proof. solve_decision. Defined.
#[export] Instance GpuBuild_eq_dec : EqDecision GpuBuild.
Proof. solve_decision. Defined.
#[export] Instance ibv_port_attr_eq_dec : EqDecision ibv_port_attr.
Proof. solve_decision. Defined.
#[export] Instance ibv_gid_entry_eq_dec : EqDecision ibv_gid_entry.
Proof. solve_decision. Defined.

(** ** Calls *)

Inductive verbs_event :=
| RegMr (addr length access : Z) (r : option ibv_mr)
| RegDmabufMr (offset length iova fd access : Z) (r : option ibv_mr)
| DeregMr (mr : ibv_mr) (rc : Z)
| PointerMemType (addr : Z) (r : option CUmemorytype)
| PointerOrdinal (addr : Z) (ordinal : Z)
| PrimaryCtxRetain (dev : Z)
| CtxSetCurrent (dev : Z)
| PrimaryCtxRelease (dev : Z)
| AddressRange (addr : Z) (r : option (Z * Z))
| ExportDmabuf (base size : Z) (r : option Z)
| HipPointerAttributes (addr : Z) (r : option (hipMemoryType * Z))
| HipGetDevice (r : option Z)
| HipSetDevice (dev : Z) (ok : bool)
| HsaExportDmabuf (base size : Z) (r : option (Z * Z))
| CloseFd (fd rc : Z)
| GetDeviceList (r : option (list string))
| FreeDeviceList
| OpenDevice (name : string) (r : option Z)
| CloseDevice (ctx rc : Z)
| QueryPort (ctx port : Z) (r : option ibv_port_attr)
| QueryDevice (ctx rc : Z)
| CuInit (ok : bool)
| CuDeviceGet (ordinal : Z) (r : option Z)
| CuDmabufSupported (dev : Z) (r : option bool)
| UpdateGlobalConfig
| QueryGidEx (ctx port index : Z) (r : option ibv_gid_entry)
| ReadGidNdev (port index : Z) (ndev : string)
| QueryGid (ctx port index : Z) (r : option ibv_gid)
| RefreshLocalDeviceDesc (lid : Z) (gid : string) (rc : Z)
| AllocPd (ctx : Z) (r : option Z)
| DeallocPd (pd rc : Z)
| CreateCompChannel (ctx : Z) (r : option Z)
| DestroyCompChannel (ch rc : Z)
| EpollCreate (fd : Z)
| FcntlGetFl (fd flags : Z)
| FcntlSetNonblock (fd flags rc : Z)
| EpollCtlAdd (efd fd rc : Z)
| CreateCq (ctx max_cqe : Z) (ch : option Z) (vector : Z) (r : option Z)
| DestroyCq (cq rc : Z)
| PollCq (cq : option Z) (num_entries nr : Z)
| StartWorkerPool
| StopWorkerPool
| DestroyQPs
| GetEndpoint (peer : string) (r : option Z)
| InsertEndpoint (peer : string) (r : option Z)
| ReclaimEndpoint.

Abbreviation vio A := (comp verbs_event A).
Abbreviation vhist := (list verbs_event).

Class Verbs := {
  v_reg_mr : vhist → Z → Z → Z → option ibv_mr;
  v_reg_dmabuf_mr : vhist → Z → Z → Z → Z → Z → option ibv_mr;
  v_dereg_mr : vhist → ibv_mr → Z;
  v_pointer_type : vhist → Z → option CUmemorytype;
  v_pointer_ordinal : vhist → Z → Z;
  v_address_range : vhist → Z → option (Z * Z);
  v_export_dmabuf : vhist → Z → Z → option Z;
  v_hip_attributes : vhist → Z → option (hipMemoryType * Z);
  v_hip_get_device : vhist → option Z;
  v_hip_set_device : vhist → Z → bool;
  v_hsa_export : vhist → Z → Z → option (Z * Z);
  v_close : vhist → Z → Z;
  v_device_list : vhist → option (list string);
  v_open_device : vhist → string → option Z;
  v_close_device : vhist → Z → Z;
  v_query_port : vhist → Z → Z → option ibv_port_attr;
  v_query_device : vhist → Z → Z;
  v_cu_init : vhist → bool;
  v_cu_device_get : vhist → Z → option Z;
  v_cu_dmabuf_supported : vhist → Z → option bool;
  v_query_gid_ex : vhist → Z → Z → Z → option ibv_gid_entry;
  v_read_ndev : vhist → Z → Z → string;
  v_query_gid : vhist → Z → Z → Z → option ibv_gid;
  v_refresh : vhist → Z → string → Z;
  v_alloc_pd : vhist → Z → option Z;
  v_dealloc_pd : vhist → Z → Z;
  v_create_channel : vhist → Z → option Z;
  v_destroy_channel : vhist → Z → Z;
  v_epoll_create : vhist → Z;
  v_getfl : vhist → Z → Z;
  v_setfl : vhist → Z → Z → Z;
  v_epoll_add : vhist → Z → Z → Z;
  v_create_cq : vhist → Z → Z → option Z → Z → option Z;
  v_destroy_cq : vhist → Z → Z;
  v_poll_cq : vhist → option Z → Z → Z;
  v_get_endpoint : vhist → string → option Z;
  v_insert_endpoint : vhist → string → option Z;
  (* fields of the verbs objects *)
  async_fd : Z → Z;
  num_comp_vectors : Z → Z;
  channel_fd : Z → Z }.

(** ** The map of memory regions *)

Fixpoint map_assign (k : Z) (v : MemoryRegionMeta) (m : MemoryRegionMap) : MemoryRegionMap :=
  match m with
  | [] => [(k, v)]
  | (k', v') :: m' =>
      if k <? k' then (k, v) :: m
      else if k =? k' then (k, v) :: m'
      else (k', v') :: map_assign k v m'
  end.

Definition map_erase (k : Z) (m : MemoryRegionMap) : MemoryRegionMap :=
  List.filter (λ e : Z * MemoryRegionMeta, negb (e.1 =? k)) m.

(** The entries before [upper_bound(addr)]. *)
Fixpoint before_upper_bound (addr : Z) (m : MemoryRegionMap) : MemoryRegionMap :=
  match m with
  | [] => []
  | e :: m' => if e.1 <=? addr then e :: before_upper_bound addr m' else []
  end.

(** [addr - region_start] is computed after the comparison, hence not negative. *)
Definition containsAddress (region : MemoryRegionMeta) (addr : Z) : bool :=
  (meta_addr region <=? addr) && (addr - meta_addr region <? mr_length (meta_mr region)).

Definition findMemoryRegionContaining (addr : Z) (m : MemoryRegionMap)
  : option (Z * MemoryRegionMeta) :=
  match last (before_upper_bound addr m) with
  | None => None
  | Some candidate => if containsAddress candidate.2 addr then Some candidate else None
  end.

Definition rkey (addr : Z) (m : MemoryRegionMap) : Z :=
  match findMemoryRegionContaining addr m with
  | Some e => mr_rkey (meta_mr e.2)
  | None => 0
  end.

Definition lkey (addr : Z) (m : MemoryRegionMap) : Z :=
  match findMemoryRegionContaining addr m with
  | Some e => mr_lkey (meta_mr e.2)
  | None => 0
  end.

(** ** State *)

Record RdmaContext := MkContext {
  context_ : option Z;
  pd_ : option Z;
  event_fd_ : Z;
  comp_channel_ : option (list (option Z));   (* of length [num_comp_channel_] *)
  port_ : Z;
  lid_ : Z;
  gid_index_ : Z;
  gid_ : ibv_gid;
  auto_gid_selection_enabled_ : bool;
  memory_region_map_ : MemoryRegionMap;
  cq_list_ : list (option Z);
  next_comp_channel_index_ : Z;
  next_comp_vector_index_ : Z;
  next_cq_list_index_ : Z;
  worker_pool_ : bool;
  active_ : bool }.

(** The constructor; [gid_] has no initialiser. *)
Definition new_context (gid : ibv_gid) : RdmaContext :=
  MkContext None None (-1) None 0 0 (-1) gid false [] [] 0 0 0 false true.

Definition set_handles ctx pd fd chs (s : RdmaContext) : RdmaContext :=
  MkContext ctx pd fd chs (port_ s) (lid_ s) (gid_index_ s) (gid_ s)
    (auto_gid_selection_enabled_ s) (memory_region_map_ s) (cq_list_ s)
    (next_comp_channel_index_ s) (next_comp_vector_index_ s) (next_cq_list_index_ s)
    (worker_pool_ s) (active_ s).
Definition set_event_fd fd (s : RdmaContext) : RdmaContext :=
  set_handles (context_ s) (pd_ s) fd (comp_channel_ s) s.
Definition set_regions m (s : RdmaContext) : RdmaContext :=
  MkContext (context_ s) (pd_ s) (event_fd_ s) (comp_channel_ s) (port_ s) (lid_ s)
    (gid_index_ s) (gid_ s) (auto_gid_selection_enabled_ s) m (cq_list_ s)
    (next_comp_channel_index_ s) (next_comp_vector_index_ s) (next_cq_list_index_ s)
    (worker_pool_ s) (active_ s).
Definition set_cqs cqs ch_ix vec_ix (s : RdmaContext) : RdmaContext :=
  MkContext (context_ s) (pd_ s) (event_fd_ s) (comp_channel_ s) (port_ s) (lid_ s)
    (gid_index_ s) (gid_ s) (auto_gid_selection_enabled_ s) (memory_region_map_ s) cqs
    ch_ix vec_ix (next_cq_list_index_ s) (worker_pool_ s) (active_ s).
Definition set_cq_index ix (s : RdmaContext) : RdmaContext :=
  MkContext (context_ s) (pd_ s) (event_fd_ s) (comp_channel_ s) (port_ s) (lid_ s)
    (gid_index_ s) (gid_ s) (auto_gid_selection_enabled_ s) (memory_region_map_ s) (cq_list_ s)
    (next_comp_channel_index_ s) (next_comp_vector_index_ s) ix (worker_pool_ s) (active_ s).
Definition set_worker_pool b (s : RdmaContext) : RdmaContext :=
  MkContext (context_ s) (pd_ s) (event_fd_ s) (comp_channel_ s) (port_ s) (lid_ s)
    (gid_index_ s) (gid_ s) (auto_gid_selection_enabled_ s) (memory_region_map_ s) (cq_list_ s)
    (next_comp_channel_index_ s) (next_comp_vector_index_ s) (next_cq_list_index_ s)
    b (active_ s).
Definition set_gid gid ix auto (s : RdmaContext) : RdmaContext :=
  MkContext (context_ s) (pd_ s) (event_fd_ s) (comp_channel_ s) (port_ s) (lid_ s)
    ix gid auto (memory_region_map_ s) (cq_list_ s)
    (next_comp_channel_index_ s) (next_comp_vector_index_ s) (next_cq_list_index_ s)
    (worker_pool_ s) (active_ s).
Definition set_device ctx port lid (s : RdmaContext) : RdmaContext :=
  MkContext ctx (pd_ s) (event_fd_ s) (comp_channel_ s) port lid
    (gid_index_ s) (gid_ s) (auto_gid_selection_enabled_ s) (memory_region_map_ s) (cq_list_ s)
    (next_comp_channel_index_ s) (next_comp_vector_index_ s) (next_cq_list_index_ s)
    (worker_pool_ s) (active_ s).

(** ** GIDs *)

Definition isNullGid (gid : ibv_gid) : bool := forallb (λ b, b =? 0) (take 16 gid).

(** [s6_addr32[i]] of the address whose bytes are [gid], in host order. *)
Definition s6_word (gid : ibv_gid) (i : nat) : Z :=
  let b j := default 0 (gid !! (4 * i + j)%nat) in
  b 0%nat * 2 ^ 24 + b 1%nat * 2 ^ 16 + b 2%nat * 2 ^ 8 + b 3%nat.

Definition ipv6_addr_v4mapped (gid : ibv_gid) : bool :=
  (Z.lor (Z.lor (s6_word gid 0) (s6_word gid 1)) (Z.lxor (s6_word gid 2) 0x0000ffff) =? 0) ||
  ((s6_word gid 0 =? 0xff0e0000) &&
   (Z.lor (s6_word gid 1) (Z.lxor (s6_word gid 2) 0x0000ffff) =? 0)).

Definition isOverlayNetwork (ndev : string) : bool :=
  starts_with "flannel" ndev || starts_with "cni" ndev || starts_with "calico" ndev ||
  starts_with "vxlan" ndev || starts_with "docker" ndev || bool_decide (ndev = "tunl0"%string).

Definition isOverlayIPv4 (gid : ibv_gid) : bool :=
  if negb (ipv6_addr_v4mapped gid) then false
  else
    let ipv4 := s6_word gid 3 in
    let octet1 := Z.land (Z.shiftr ipv4 24) 0xFF in
    let octet2 := Z.land (Z.shiftr ipv4 16) 0xFF in
    if octet1 =? 10 then true
    else if (octet1 =? 172) && (16 <=? octet2) && (octet2 <=? 31) then true
    else if (octet1 =? 100) && (64 <=? octet2) && (octet2 <=? 127) then true
    else false.

(** [IN6_IS_ADDR_LINKLOCAL]: the prefix fe80::/10. *)
Definition isLinkLocalIpv6 (gid : ibv_gid) : bool :=
  Z.land (s6_word gid 0) 0xffc00000 =? 0xfe800000.

Definition hex_digit (n : Z) : Ascii.ascii :=
  if n <? 10 then Ascii.ascii_of_nat (Z.to_nat (48 + n)) else Ascii.ascii_of_nat (Z.to_nat (87 + n)).

(** ["%02x"] of a byte. *)
Definition hex_byte (b : Z) : string :=
  String (hex_digit (b / 16)) (String (hex_digit (b mod 16)) "").

Definition gidBytesToString (raw : ibv_gid) : string :=
  match take 16 raw with
  | [] => ""
  | b :: bs => fold_left (λ s b, s +:+ ":" +:+ hex_byte b) bs (hex_byte b)
  end%string.

(** [AutoGidCandidate], [AutoGidSelection] and their functions come from
    [rdma_gid_probe.h], which is not part of the sources. *)
Record AutoGidCandidate := MkCandidate {
  cand_gid_index : Z;
  query_succeeded : bool;
  cand_gid : string;
  cand_gid_type : Z;
  has_network_device : bool;
  is_ipv4_mapped : bool;
  is_link_local_ipv6 : bool;
  is_overlay_network : bool;
  is_overlay_ipv4 : bool;
  is_null_gid : bool }.

Inductive AutoGidCandidateClass :=
| kNetworkRoutable | kNetworkDegraded | kNoNetworkRoutable | kNoNetworkDegraded
| kFallbackNonzero.

Record AutoGidSelection := MkSelection {
  sel_gid_index : Z; candidate_class : AutoGidCandidateClass }.

Inductive GidNetworkState := GID_WITH_NETWORK | GID_WITHOUT_NETWORK | GID_NOT_FOUND.

Definition autoGidStateFromSelection (selection : AutoGidSelection) : GidNetworkState :=
  match candidate_class selection with
  | kNetworkRoutable | kNetworkDegraded => GID_WITH_NETWORK
  | kNoNetworkRoutable | kNoNetworkDegraded | kFallbackNonzero => GID_WITHOUT_NETWORK
  end.

Section Context_ops.
Context `{!Verbs}.
Context (build : GpuBuild).
(** Configuration: [globalConfig().max_mr_size], [ERR_CONTEXT],
    [ERR_DEVICE_NOT_FOUND], [IBV_ACCESS_LOCAL_WRITE], [GPU_PREFIX],
    [WITH_NVIDIA_PEERMEM], the kernel's dmabuf support, and whether the null
    GID check is compiled out. *)
Context (max_mr_size ERR_CONTEXT ERR_DEVICE_NOT_FOUND IBV_ACCESS_LOCAL_WRITE : Z).
Context (GPU_PREFIX : string).
Context (with_nvidia_peermem isKernelDmabufSupported skip_null_gid_check : bool).
(** The GID probe. *)
Context (default_candidate : AutoGidCandidate).
Context (selectBestAutoGidCandidate : list AutoGidCandidate → option AutoGidSelection).
Context (AutoGidSelectionIdentity : Type).
Context (reselectAutoGidCandidate :
  list AutoGidCandidate → Z → string → list AutoGidSelectionIdentity → option AutoGidSelection).

Definition do_reg_mr a n acc : vio (option ibv_mr) := call (λ h, v_reg_mr h a n acc) (RegMr a n acc).
Definition do_dereg_mr mr : vio Z := call (λ h, v_dereg_mr h mr) (DeregMr mr).
Definition do_close fd : vio Z := call (λ h, v_close h fd) (CloseFd fd).
Definition do_close_device ctx : vio Z := call (λ h, v_close_device h ctx) (CloseDevice ctx).
Definition do_note (e : verbs_event) : vio unit := call (λ _, tt) (λ _, e).

(** *** Registration *)

(** The verbs registration shared by the dmabuf branches: register, then close
    the file descriptor whatever the outcome. *)
Definition reg_dmabuf (offset length addr fd access : Z) : vio (option ibv_mr) :=
  let! mr := call (λ h, v_reg_dmabuf_mr h offset length addr fd access)
               (RegDmabufMr offset length addr fd access) in
  do_close fd ;;;
  ret mr.

(** [Some m]: fall through to the final check with [mrMeta = m];
    [None]: [return ERR_CONTEXT]. *)
Definition register_host (addr length access : Z) : vio (option RawMeta) :=
  let! mr := do_reg_mr addr length access in
  ret (Some (MkRaw addr mr)).

(** Device of a pointer (two queries whose return codes the code ignores), and
    its primary context made current. *)
Definition retain_ctx (addr : Z) : vio Z :=
  let! dev := call (λ h, v_pointer_ordinal h addr) (PointerOrdinal addr) in
  do_note (PrimaryCtxRetain dev) ;;;
  do_note (CtxSetCurrent dev) ;;;
  ret dev.

Definition release_ctx (dev : option Z) : vio unit :=
  match dev with
  | Some d => do_note (PrimaryCtxRelease d)
  | None => ret tt
  end.

Definition register_cuda_device (addr length access : Z) : vio (option RawMeta) :=
  let! dev := (if bool_decide (build = USE_CUDA)
               then let! d := retain_ctx addr in ret (Some d)
               else ret None) in
  let! range := call (λ h, v_address_range h addr) (AddressRange addr) in
  match range with
  | None => release_ctx dev ;;; ret None
  | Some (allocBase, allocSize) =>
      let! handle := call (λ h, v_export_dmabuf h allocBase allocSize)
                       (ExportDmabuf allocBase allocSize) in
      match handle with
      | None => release_ctx dev ;;; ret None
      | Some fd =>
          let! mr := reg_dmabuf (u64 (addr - allocBase)) length addr fd access in
          release_ctx dev ;;;
          ret (Some (MkRaw addr mr))
      end
  end.

Definition register_cuda (addr length access : Z) (allow_gpu_dmabuf : bool) (mrMeta : RawMeta)
  : vio (option RawMeta) :=
  if negb allow_gpu_dmabuf then register_host addr length access
  else
    let! memType := call (λ h, v_pointer_type h addr) (PointerMemType addr) in
    match memType with
    | None | Some CU_HOST => register_host addr length access
    | Some CU_DEVICE =>
        if bool_decide (build = USE_CUDA) && with_nvidia_peermem
        then register_host addr length access
        else register_cuda_device addr length access
    | Some (CU_OTHER _) => ret (Some mrMeta)
    end.

(** The body of the device branch between construction and destruction of the
    [HipDeviceGuard]. *)
Definition register_hip_device (addr length access : Z) : vio (option RawMeta) :=
  let! range := call (λ h, v_address_range h addr) (AddressRange addr) in
  match range with
  | None => ret None
  | Some (allocBase, allocSize) =>
      let! handle := call (λ h, v_hsa_export h allocBase allocSize)
                       (HsaExportDmabuf allocBase allocSize) in
      match handle with
      | None => ret None
      | Some (fd, hsa_dmabuf_offset) =>
          let! mr := reg_dmabuf (u64 (addr - allocBase + hsa_dmabuf_offset)) length addr fd
                       access in
          ret (Some (MkRaw addr mr))
      end
  end.

Definition with_hip_device {A} (target : Z) (on_failure : A) (body : vio A) : vio A :=
  let! prev := call v_hip_get_device HipGetDevice in
  let! set_ok := call (λ h, v_hip_set_device h target) (HipSetDevice target) in
  let! r := (if set_ok then body else ret on_failure) in
  (match prev with
   | Some prev_device =>
       if negb (prev_device =? target)
       then let! _ := call (λ h, v_hip_set_device h prev_device) (HipSetDevice prev_device) in
            ret tt
       else ret tt
   | None => ret tt
   end) ;;;
  ret r.

Definition register_hip (addr length access : Z) (mrMeta : RawMeta) : vio (option RawMeta) :=
  let! attr := call (λ h, v_hip_attributes h addr) (HipPointerAttributes addr) in
  match attr with
  | None | Some (HIP_HOST, _) | Some (HIP_UNREGISTERED, _) => register_host addr length access
  | Some (HIP_MANAGED, _) => register_host addr length access
  | Some (HIP_DEVICE, device) =>
      if negb isKernelDmabufSupported then register_host addr length access
      else with_hip_device device None (register_hip_device addr length access)
  | Some (HIP_OTHER _, _) => ret (Some mrMeta)
  end.

(** Returns the code and the final value of [mrMeta]. *)
Definition registerMemoryRegionInternal (addr length access : Z) (allow_gpu_dmabuf : bool)
    (mrMeta : RawMeta) : vio (Z * RawMeta) :=
  let length := if max_mr_size <? length then max_mr_size else length in
  let! outcome :=
    match build with
    | USE_CUDA | USE_MACA | USE_MLU => register_cuda addr length access allow_gpu_dmabuf mrMeta
    | USE_HIP_DMABUF => register_hip addr length access mrMeta
    | NO_GPU => register_host addr length access
    end in
  match outcome with
  | None => ret (ERR_CONTEXT, mrMeta)
  | Some m => ret (match raw_mr m with None => ERR_CONTEXT | Some _ => 0 end, m)
  end.

(** [uninit] is the value of the local [mrMeta] before any assignment. *)
Definition registerMemoryRegion (addr length access : Z) (allow_gpu_dmabuf : bool)
    (uninit : RawMeta) (s : RdmaContext) : vio (Z * RdmaContext) :=
  let! r := registerMemoryRegionInternal addr length access allow_gpu_dmabuf uninit in
  if negb (r.1 =? 0) then ret (r.1, s)
  else
    match raw_mr r.2 with
    | Some mr =>
        ret (0, set_regions (map_assign (raw_addr r.2) (MkMeta (raw_addr r.2) mr)
                               (memory_region_map_ s)) s)
    | None => ret (0, s)       (* not reached: the code is 0 only with a region *)
    end.

Definition unregisterMemoryRegion (addr : Z) (s : RdmaContext) : vio (Z * RdmaContext) :=
  match findMemoryRegionContaining addr (memory_region_map_ s) with
  | None => ret (0, s)
  | Some (k, meta) =>
      let! rc := do_dereg_mr (meta_mr meta) in
      if negb (rc =? 0) then ret (ERR_CONTEXT, s)
      else ret (0, set_regions (map_erase k (memory_region_map_ s)) s)
  end.

Definition preTouchMemory (addr length : Z) (allow_gpu_dmabuf : bool) (uninit : RawMeta)
  : vio Z :=
  let! r := registerMemoryRegionInternal addr length IBV_ACCESS_LOCAL_WRITE allow_gpu_dmabuf
              uninit in
  if negb (r.1 =? 0) then ret r.1
  else
    match raw_mr r.2 with
    | Some mr => do_dereg_mr mr
    | None => ret 0
    end.

(** *** GID selection *)

(** Iteration [i] of the candidate loops of [findBestGidIndex] and
    [reprobeAutoGid]. *)
Definition gid_candidate (ctx port : Z) (i : nat) : vio AutoGidCandidate :=
  let index := Z.of_nat i in
  let! entry := call (λ h, v_query_gid_ex h ctx port index) (QueryGidEx ctx port index) in
  match entry with
  | None =>
      ret (MkCandidate index false (cand_gid default_candidate) (cand_gid_type default_candidate)
             (has_network_device default_candidate) (is_ipv4_mapped default_candidate)
             (is_link_local_ipv6 default_candidate) (is_overlay_network default_candidate)
             (is_overlay_ipv4 default_candidate) (is_null_gid default_candidate))
  | Some e =>
      let gid := entry_gid e in
      let! ndev := call (λ h, v_read_ndev h port index) (ReadGidNdev port index) in
      let has_ndev := negb (str_empty ndev) in
      ret (MkCandidate index (query_succeeded default_candidate) (gidBytesToString gid)
             (gid_type e) has_ndev (ipv6_addr_v4mapped gid) (isLinkLocalIpv6 gid)
             (has_ndev && isOverlayNetwork ndev)
             (ipv6_addr_v4mapped gid && isOverlayIPv4 gid) (isNullGid gid))
  end.

(** Returns the state and the out parameter [gid_index]. *)
Definition findBestGidIndex (ctx : Z) (attr : ibv_port_attr) (port : Z)
  : vio (GidNetworkState * Z) :=
  let! candidates := mmap (gid_candidate ctx port) (seq 0 (gid_tbl_len attr)) in
  match selectBestAutoGidCandidate candidates with
  | None => ret (GID_NOT_FOUND, -1)
  | Some selection => ret (autoGidStateFromSelection selection, sel_gid_index selection)
  end.

(** [expected_selection] is a GID index and a GID string. *)
Definition reprobeAutoGid (expected_selection : Z * string)
    (tried : list AutoGidSelectionIdentity) (s : RdmaContext) : vio (bool * RdmaContext) :=
  match auto_gid_selection_enabled_ s, context_ s with
  | true, Some ctx =>
      let current_gid := gidBytesToString (gid_ s) in
      if negb (gid_index_ s =? expected_selection.1) ||
         negb (bool_decide (current_gid = expected_selection.2))
      then ret (false, s)
      else
        let! port_attr := call (λ h, v_query_port h ctx (port_ s)) (QueryPort ctx (port_ s)) in
        match port_attr with
        | None => ret (false, s)
        | Some attr =>
            let! candidates := mmap (gid_candidate ctx (port_ s)) (seq 0 (gid_tbl_len attr)) in
            match reselectAutoGidCandidate candidates (gid_index_ s) current_gid tried with
            | None => ret (false, s)
            | Some selection =>
                let index := sel_gid_index selection in
                let! gid := call (λ h, v_query_gid h ctx (port_ s) index)
                              (QueryGid ctx (port_ s) index) in
                match gid with
                | None => ret (false, s)
                | Some new_gid =>
                    if isNullGid new_gid then ret (false, s)
                    else
                      let next_gid := gidBytesToString new_gid in
                      let! publish_ret := call (λ h, v_refresh h (lid_ s) next_gid)
                                            (RefreshLocalDeviceDesc (lid_ s) next_gid) in
                      if negb (publish_ret =? 0) then ret (false, s)
                      else
                        let s := set_gid new_gid index (auto_gid_selection_enabled_ s) s in
                        ret (negb (str_empty next_gid), s)
                end
            end
        end
  | _, _ => ret (false, s)
  end.

(** *** Opening the device *)

Definition matched_gpu (device_name : string)
    (entry : string * (list string * list string)) : option Z :=
  let '(name, (preferred_hca, avail_hca)) := entry in
  if negb (starts_with GPU_PREFIX name) then None
  else if bool_decide (device_name ∈ preferred_hca) || bool_decide (device_name ∈ avail_hca)
  then stoi (str_drop (String.length GPU_PREFIX) name)
  else None.

(** [std::unique] on a sorted vector. *)
Fixpoint unique_adjacent (l : list Z) : list Z :=
  match l with
  | x :: ((y :: _) as l') => if x =? y then unique_adjacent l' else x :: unique_adjacent l'
  | _ => l
  end.

(** [topology] is the matrix of the local topology, in iteration order:
    location, preferred and available devices. *)
Definition mapped_gpu_devices (device_name : string)
    (topology : list (string * (list string * list string))) : list Z :=
  unique_adjacent (merge_sort Z.le (omap (matched_gpu device_name) topology)).

(** The DMA-BUF check of one GPU, and of all; [false] is
    [goto cleanup_context_and_devices]. *)
Fixpoint validate_gpus (gpus : list Z) : vio bool :=
  match gpus with
  | [] => ret true
  | gpu :: gpus' =>
      let! dev := call (λ h, v_cu_device_get h gpu) (CuDeviceGet gpu) in
      match dev with
      | None => ret false
      | Some d =>
          let! supported := call (λ h, v_cu_dmabuf_supported h d) (CuDmabufSupported d) in
          match supported with
          | Some true => validate_gpus gpus'
          | _ => ret false
          end
      end
  end.

Definition validate_dmabuf (gpus : list Z) : vio bool :=
  if with_nvidia_peermem then ret true
  else if bool_decide (gpus = []) then ret true
  else if bool_decide (build = USE_CUDA) then
    let! ok := call v_cu_init CuInit in
    if ok then validate_gpus gpus else ret false
  else validate_gpus gpus.

Definition close_and_fail (ctx : Z) (s : RdmaContext) : vio (Z * RdmaContext) :=
  do_close_device ctx ;;;
  do_note FreeDeviceList ;;;
  ret (ERR_CONTEXT, s).

(** From [updateGlobalConfig] on: choice and validation of the GID. *)
Definition open_with_gid (ctx port gid_index : Z) (attr port_attr : ibv_port_attr)
    (s : RdmaContext) : vio (Z * RdmaContext) :=
  do_note UpdateGlobalConfig ;;;
  let s := set_gid (gid_ s) (gid_index_ s) (gid_index <? 0) s in
  let! chosen :=
    (if gid_index <? 0 then
       let! found := findBestGidIndex ctx port_attr port in
       ret (match found.1 with GID_NOT_FOUND => None | _ => Some found.2 end)
     else
       let! _ := call (λ h, v_read_ndev h port gid_index) (ReadGidNdev port gid_index) in
       ret (Some gid_index)) in
  match chosen with
  | None => close_and_fail ctx s
  | Some index =>
      let! gid := call (λ h, v_query_gid h ctx port index) (QueryGid ctx port index) in
      match gid with
      | None => close_and_fail ctx s
      | Some g =>
          let s := set_gid g (gid_index_ s) (auto_gid_selection_enabled_ s) s in
          if negb skip_null_gid_check && isNullGid g then close_and_fail ctx s
          else
            do_note FreeDeviceList ;;;
            ret (0, set_gid g index (auto_gid_selection_enabled_ s)
                      (set_device (Some ctx) port (port_lid attr) s))
      end
  end.

Definition gpu_checks_compiled : bool :=
  bool_decide (build = USE_CUDA) || bool_decide (build = USE_MACA).

Definition open_matched (ctx port gid_index : Z) (gpus : list Z) (s : RdmaContext)
  : vio (Z * RdmaContext) :=
  let! attr := call (λ h, v_query_port h ctx port) (QueryPort ctx port) in
  match attr with
  | None => close_and_fail ctx s
  | Some attr =>
      if negb (port_active attr) then close_and_fail ctx s
      else
        let! rc := call (λ h, v_query_device h ctx) (QueryDevice ctx) in
        if negb (rc =? 0) then close_and_fail ctx s
        else
          let! valid := (if gpu_checks_compiled then validate_dmabuf gpus else ret true) in
          if negb valid then close_and_fail ctx s
          else
            let! port_attr := call (λ h, v_query_port h ctx port) (QueryPort ctx port) in
            match port_attr with
            | None => close_and_fail ctx s
            | Some port_attr => open_with_gid ctx port gid_index attr port_attr s
            end
  end.

Definition openRdmaDevice (device_name : string)
    (topology : list (string * (list string * list string))) (port gid_index : Z)
    (s : RdmaContext) : vio (Z * RdmaContext) :=
  let! devices := call v_device_list GetDeviceList in
  match devices with
  | None => ret (ERR_DEVICE_NOT_FOUND, s)
  | Some names =>
      if negb (bool_decide (device_name ∈ names))       (* also when there is no device *)
      then do_note FreeDeviceList ;;; ret (ERR_DEVICE_NOT_FOUND, s)
      else
        let! opened := call (λ h, v_open_device h device_name) (OpenDevice device_name) in
        match opened with
        | None => do_note FreeDeviceList ;;; ret (ERR_CONTEXT, s)
        | Some ctx =>
            open_matched ctx port gid_index (mapped_gpu_devices device_name topology) s
        end
  end.

(** *** Construction and destruction *)

Definition joinNonblockingPollList (event_fd data_fd : Z) : vio Z :=
  let! flags := call (λ h, v_getfl h data_fd) (FcntlGetFl data_fd) in
  if flags =? -1 then ret ERR_CONTEXT
  else
    let! rc := call (λ h, v_setfl h data_fd flags) (FcntlSetNonblock data_fd flags) in
    if rc =? -1 then ret ERR_CONTEXT
    else
      let! rc := call (λ h, v_epoll_add h event_fd data_fd) (EpollCtlAdd event_fd data_fd) in
      ret (if negb (rc =? 0) then ERR_CONTEXT else 0).

(** Fills the zero-initialised array of [n] channels. *)
Fixpoint create_channels (ctx : Z) (n : nat) : vio (bool * list (option Z)) :=
  match n with
  | O => ret (true, [])
  | S n' =>
      let! ch := call (λ h, v_create_channel h ctx) (CreateCompChannel ctx) in
      match ch with
      | None => ret (false, replicate n None)
      | Some _ =>
          let! r := create_channels ctx n' in
          ret (r.1, ch :: r.2)
      end
  end.

(** The code dereferences every channel here; none is null. *)
Fixpoint join_channels (event_fd : Z) (chs : list (option Z)) : vio bool :=
  match chs with
  | [] => ret true
  | ch :: chs' =>
      let! rc := joinNonblockingPollList event_fd (channel_fd (default 0 ch)) in
      if negb (rc =? 0) then ret false else join_channels event_fd chs'
  end.

(** [std::atomic<int>::operator++] wraps. *)
Definition int_succ (n : Z) : Z := (n + 1 + 2 ^ 31) mod 2 ^ 32 - 2 ^ 31.

(** [next % size] with a [size_t] divisor. *)
Definition size_index (next : Z) (size : nat) : nat := Z.to_nat (u64 next mod Z.of_nat size).

(** [compChannel()] and [compVector()] of each queue; the state is the pair of
    indices. *)
Fixpoint create_cqs (ctx max_cqe : Z) (chs : list (option Z)) (n : nat) (ch_ix vec_ix : Z)
  : vio (bool * list (option Z) * (Z * Z)) :=
  match n with
  | O => ret (true, [], (ch_ix, vec_ix))
  | S n' =>
      let channel := default None (chs !! size_index ch_ix (length chs)) in
      let vector := Z.rem vec_ix (num_comp_vectors ctx) in
      let! cq := call (λ h, v_create_cq h ctx max_cqe channel vector)
                   (CreateCq ctx max_cqe channel vector) in
      match cq with
      | None => ret (false, replicate n None, (int_succ ch_ix, int_succ vec_ix))
      | Some _ =>
          let! r := create_cqs ctx max_cqe chs n' (int_succ ch_ix) (int_succ vec_ix) in
          ret (r.1.1, cq :: r.1.2, r.2)
      end
  end.

Definition close_epoll (s : RdmaContext) : vio (Z * RdmaContext) :=
  do_close (event_fd_ s) ;;;
  ret (ERR_CONTEXT, set_event_fd (-1) s).

Definition construct_queues (ctx : Z) (num_cq_list : nat) (max_cqe : Z)
    (chs : list (option Z)) (s : RdmaContext) : vio (Z * RdmaContext) :=
  let! rc := joinNonblockingPollList (event_fd_ s) (async_fd ctx) in
  if negb (rc =? 0) then close_epoll s
  else
    let! joined := join_channels (event_fd_ s) chs in
    if negb joined then close_epoll s
    else
      let! r := create_cqs ctx max_cqe chs num_cq_list (next_comp_channel_index_ s)
                  (next_comp_vector_index_ s) in
      let s := set_cqs r.1.2 r.2.1 r.2.2 s in
      if negb r.1.1 then close_epoll s
      else
        do_note StartWorkerPool ;;;
        ret (0, set_worker_pool true s).

Definition construct (device_name : string)
    (topology : list (string * (list string * list string)))
    (num_cq_list num_comp_channels : nat) (port gid_index max_cqe : Z) (s : RdmaContext)
  : vio (Z * RdmaContext) :=
  let! opened := openRdmaDevice device_name topology port gid_index s in
  let s := opened.2 in
  if negb (opened.1 =? 0) then ret (ERR_CONTEXT, s)
  else
    match context_ s with
    | None => ret (ERR_CONTEXT, s)           (* not reached: set on success *)
    | Some ctx =>
        let! pd := call (λ h, v_alloc_pd h ctx) (AllocPd ctx) in
        let s := set_handles (context_ s) pd (event_fd_ s) (comp_channel_ s) s in
        match pd with
        | None => ret (ERR_CONTEXT, s)
        | Some _ =>
            let! chs := create_channels ctx num_comp_channels in
            let s := set_handles (context_ s) (pd_ s) (event_fd_ s) (Some chs.2) s in
            if negb chs.1 then ret (ERR_CONTEXT, s)
            else
              let! fd := call v_epoll_create EpollCreate in
              let s := set_event_fd fd s in
              if fd <? 0 then ret (ERR_CONTEXT, s)
              else construct_queues ctx num_cq_list max_cqe chs.2 s
        end
    end.

Definition destroy_cq (cq : option Z) : vio unit :=
  match cq with
  | Some q => let! _ := call (λ h, v_destroy_cq h q) (DestroyCq q) in ret tt
  | None => ret tt
  end.

Definition destroy_channel (ch : option Z) : vio unit :=
  match ch with
  | Some q => let! _ := call (λ h, v_destroy_channel h q) (DestroyCompChannel q) in ret tt
  | None => ret tt
  end.

Definition deconstruct (s : RdmaContext) : vio RdmaContext :=
  do_note StopWorkerPool ;;;
  do_note DestroyQPs ;;;
  mmap (λ e : Z * MemoryRegionMeta, do_dereg_mr (meta_mr e.2)) (memory_region_map_ s) ;;;
  mmap destroy_cq (cq_list_ s) ;;;
  (if 0 <=? event_fd_ s then let! _ := do_close (event_fd_ s) in ret tt else ret tt) ;;;
  mmap destroy_channel (default [] (comp_channel_ s)) ;;;
  (match pd_ s with
   | Some pd => let! _ := call (λ h, v_dealloc_pd h pd) (DeallocPd pd) in ret tt
   | None => ret tt
   end) ;;;
  (match context_ s with
   | Some ctx => let! _ := do_close_device ctx in ret tt
   | None => ret tt
   end) ;;;
  ret (set_worker_pool false
         (set_cqs [] (next_comp_channel_index_ s) (next_comp_vector_index_ s)
            (set_regions [] (set_handles None None (-1) None s)))).

(** [~RdmaContext] *)
Definition destroy_context (s : RdmaContext) : vio RdmaContext :=
  match context_ s with
  | Some _ => deconstruct s
  | None => ret s
  end.

(** *** Endpoints and completion queues *)

(** [cq()]: the queue and the advanced index. *)
Definition next_cq (s : RdmaContext) : option Z * RdmaContext :=
  (default None (cq_list_ s !! size_index (next_cq_list_index_ s) (length (cq_list_ s))),
   set_cq_index (int_succ (next_cq_list_index_ s)) s).

Definition endpoint (peer_nic_path : string) (s : RdmaContext) : vio (option Z) :=
  if negb (active_ s) then ret None
  else if str_empty peer_nic_path then ret None
  else
    let! found := call (λ h, v_get_endpoint h peer_nic_path) (GetEndpoint peer_nic_path) in
    match found with
    | Some e => ret (Some e)
    | None =>
        let! inserted := call (λ h, v_insert_endpoint h peer_nic_path)
                           (InsertEndpoint peer_nic_path) in
        do_note ReclaimEndpoint ;;;
        ret inserted
    end.

Definition poll (num_entries : Z) (cq_index : nat) (s : RdmaContext) : vio Z :=
  let cq := default None (cq_list_ s !! cq_index) in
  let! nr_poll := call (λ h, v_poll_cq h cq num_entries) (PollCq cq num_entries) in
  ret (if nr_poll <? 0 then ERR_CONTEXT else nr_poll).
End Context_ops.
