(* ===== verification/RdmaContextFacts.v ===== *)
(** * Facts on the pure parts of [RdmaContext]

    The ordered map of memory regions and its lookup, and the printing of
    GIDs. *)

From S2P Require Import Prelude CxxString RdmaContext.
From stdpp Require Import base strings list sets gmap sorting.
From Stdlib Require Import ZArith Lia.

#[local] Open Scope Z_scope.

(** ** The map of memory regions *)

(** Keys increase, and every entry is stored under its own address. *)
Definition mr_wf (m : MemoryRegionMap) : Prop :=
  StronglySorted (λ a b : Z * MemoryRegionMeta, a.1 < b.1) m ∧
  Forall (λ e : Z * MemoryRegionMeta, e.1 = meta_addr e.2) m.

Lemma map_assign_elem k v m e : e ∈ map_assign k v m → e = (k, v) ∨ e ∈ m.
Proof.
  induction m as [|[k' v'] m IH]; cbn; [set_solver|]. repeat case_match; set_solver.
Qed.

Lemma map_assign_wf m v : mr_wf m → mr_wf (map_assign (meta_addr v) v m).
Proof.
  intros [Hs Hk]. split.
  - clear Hk. induction Hs as [|[k' v'] m Hs IH Hlt]; cbn; [by repeat constructor|].
    rewrite Forall_forall in Hlt.
    destruct (Z.ltb_spec (meta_addr v) k'); [|destruct (Z.eqb_spec (meta_addr v) k') as [->|]].
    + constructor; [by constructor; [|apply Forall_forall]|].
      apply Forall_cons. split; [done|]. apply Forall_forall. intros e He.
      apply Hlt in He. cbn in *. lia.
    + constructor; [done|]. by apply Forall_forall.
    + constructor; [done|]. apply Forall_forall. intros e [->|He]%map_assign_elem.
      * cbn. lia.
      * by apply Hlt.
  - rewrite Forall_forall in *. intros e [->|He]%map_assign_elem; [done|auto].
Qed.

Lemma map_assign_fresh k v m : k ∉ m.*1 → map_assign k v m ≡ₚ (k, v) :: m.
Proof.
  induction m as [|[k' v'] m IH]; cbn; [done|]. intros [Hne Hnin]%not_elem_of_cons.
  destruct (k <? k'); [done|]. destruct (Z.eqb_spec k k'); [done|].
  rewrite IH by done. constructor.
Qed.

Lemma before_upper_bound_elem a m e : e ∈ before_upper_bound a m → e ∈ m ∧ e.1 <= a.
Proof.
  induction m as [|e' m IH]; cbn; [set_solver|].
  destruct (Z.leb_spec e'.1 a); [|set_solver].
  intros [->|He]%elem_of_cons; [split; [by left|done]|].
  destruct (IH He). split; [by right|done].
Qed.

Lemma find_region_elem a m e :
  findMemoryRegionContaining a m = Some e → e ∈ m ∧ containsAddress e.2 a = true.
Proof.
  unfold findMemoryRegionContaining. case_match eqn:E; [|done].
  apply last_Some_elem_of, before_upper_bound_elem in E as [? _].
  case_match; [|done]. by intros [= <-].
Qed.

Lemma map_erase_cons k e m :
  map_erase k (e :: m) = if e.1 =? k then map_erase k m else e :: map_erase k m.
Proof. unfold map_erase. cbn. by destruct (e.1 =? k). Qed.

Lemma map_erase_fresh k m : k ∉ m.*1 → map_erase k m = m.
Proof.
  induction m as [|e m IH]; [done|]. rewrite map_erase_cons, fmap_cons.
  intros [Hne Hnin]%not_elem_of_cons.
  destruct (Z.eqb_spec e.1 k); [congruence|]. f_equal. by apply IH.
Qed.

Lemma mr_wf_cons e m : mr_wf (e :: m) → mr_wf m ∧ (e.1 ∉ m.*1).
Proof.
  intros [Hs Hk]. inversion Hs as [|? ? Hs' Hlt]; subst. inversion Hk; subst.
  split; [done|]. rewrite Forall_forall in Hlt.
  intros (e' & Heq & He')%list_elem_of_fmap. apply Hlt in He'. lia.
Qed.

Lemma map_erase_perm m e : mr_wf m → e ∈ m → m ≡ₚ e :: map_erase e.1 m.
Proof.
  induction m as [|e' m IH]; intros Hwf He; [set_solver|].
  apply mr_wf_cons in Hwf as [Hwf Hnin]. rewrite map_erase_cons.
  apply elem_of_cons in He as [->|He].
  - rewrite Z.eqb_refl. by rewrite map_erase_fresh.
  - destruct (Z.eqb_spec e'.1 e.1) as [Heq|].
    { destruct Hnin. rewrite Heq. by apply list_elem_of_fmap_2. }
    rewrite (IH Hwf He) at 1. constructor.
Qed.

Lemma map_erase_elem k m e : e ∈ map_erase k m ↔ e ∈ m ∧ e.1 ≠ k.
Proof.
  unfold map_erase. rewrite !list_elem_of_In, filter_In, negb_true_iff, Z.eqb_neq. done.
Qed.

Lemma map_erase_wf k m : mr_wf m → mr_wf (map_erase k m).
Proof.
  intros [Hs Hk]. split.
  - clear Hk. induction Hs as [|e m Hs IH Hlt]; [constructor|].
    rewrite map_erase_cons. case_match; [done|]. constructor; [done|]. rewrite Forall_forall in *.
    intros x [Hx _]%map_erase_elem. auto.
  - rewrite Forall_forall in *. intros x [Hx _]%map_erase_elem. auto.
Qed.

(** Registered ranges do not overlap. *)
Definition disjoint_regions (m : MemoryRegionMap) : Prop :=
  ∀ e1 e2, e1 ∈ m → e2 ∈ m → e1.1 < e2.1 → e1.1 + mr_length (meta_mr e1.2) <= e2.1.

Lemma before_upper_bound_complete a m e :
  StronglySorted (λ a b : Z * MemoryRegionMeta, a.1 < b.1) m →
  e ∈ m → e.1 <= a → e ∈ before_upper_bound a m.
Proof.
  induction 1 as [|e' m Hs IH Hlt]; intros He Ha; [done|]. cbn. rewrite Forall_forall in Hlt.
  destruct (Z.leb_spec e'.1 a).
  - apply elem_of_cons in He as [->|He]; [by left|]. right. auto.
  - apply elem_of_cons in He as [->|He]; [lia|]. apply Hlt in He. lia.
Qed.

Lemma before_upper_bound_sorted a m :
  StronglySorted (λ a b : Z * MemoryRegionMeta, a.1 < b.1) m →
  StronglySorted (λ a b : Z * MemoryRegionMeta, a.1 < b.1) (before_upper_bound a m).
Proof.
  induction 1 as [|e' m Hs IH Hlt]; cbn; [constructor|]. case_match; constructor; [done|].
  rewrite Forall_forall in *. intros x [Hx _]%before_upper_bound_elem. auto.
Qed.

Lemma sorted_last_greatest (m : MemoryRegionMap) e c :
  StronglySorted (λ a b : Z * MemoryRegionMeta, a.1 < b.1) m →
  last m = Some c → e ∈ m → e = c ∨ e.1 < c.1.
Proof.
  induction 1 as [|e' m Hs IH Hlt]; intros Hl He; [done|]. rewrite Forall_forall in Hlt.
  destruct m as [|e'' m].
  - cbn in Hl. simplify_eq. left. set_solver.
  - rewrite last_cons_cons in Hl. apply elem_of_cons in He as [->|He]; [|by apply IH].
    right. apply Hlt. by apply last_Some_elem_of.
Qed.

(** The ordered lookup finds exactly the region a scan of the map would. *)
Lemma find_region_iff m a e :
  mr_wf m → disjoint_regions m →
  findMemoryRegionContaining a m = Some e ↔ e ∈ m ∧ containsAddress e.2 a = true.
Proof.
  intros [Hs Hk] Hd. split; [apply find_region_elem|]. intros [He Hc].
  assert (e.1 <= a ∧ a < e.1 + mr_length (meta_mr e.2)) as [Hle Hlt].
  { rewrite Forall_forall in Hk. unfold containsAddress in Hc. rewrite (Hk _ He). lia. }
  pose proof (before_upper_bound_complete _ _ _ Hs He Hle) as Hin.
  unfold findMemoryRegionContaining. destruct (last _) as [c|] eqn:E.
  2:{ apply last_None in E. rewrite E in Hin. set_solver. }
  destruct (sorted_last_greatest _ _ _ (before_upper_bound_sorted a m Hs) E Hin) as [->|Hlt'].
  - by rewrite Hc.
  - apply last_Some_elem_of, before_upper_bound_elem in E as [Hcm Hca].
    specialize (Hd _ _ He Hcm Hlt'). lia.
Qed.

(** A range of [n] bytes from [addr] overlaps no region of [m]. *)
Definition free_range (addr n : Z) (m : MemoryRegionMap) : Prop :=
  ∀ e, e ∈ m → (e.1 < addr ∧ e.1 + mr_length (meta_mr e.2) <= addr) ∨
               (addr < e.1 ∧ addr + n <= e.1).

Lemma free_range_fresh addr n m : free_range addr n m → addr ∉ m.*1.
Proof. intros Hf (e & -> & He)%list_elem_of_fmap. destruct (Hf _ He); lia. Qed.

(** Lookup after an assignment. *)
Lemma find_assigned m v a :
  let addr := meta_addr v in let n := mr_length (meta_mr v) in
  mr_wf m → disjoint_regions m → free_range addr n m →
  findMemoryRegionContaining a (map_assign addr v m) =
  if containsAddress v a then Some (addr, v) else findMemoryRegionContaining a m.
Proof.
  intros addr n Hwf Hd Hf. pose proof (map_assign_wf _ v Hwf) as Hwf'. fold addr in Hwf'.
  pose proof (map_assign_fresh addr v _ (free_range_fresh _ _ _ Hf)) as Hperm.
  assert (disjoint_regions (map_assign addr v m)) as Hd'.
  { intros x1 x2. rewrite Hperm, !elem_of_cons. intros [->|H1] [->|H2] Hlt; cbn in *; [lia| | |].
    - destruct (Hf _ H2); lia.
    - destruct (Hf _ H1); lia.
    - by apply Hd. }
  destruct (containsAddress v a) eqn:Hc.
  - apply find_region_iff; [done..|]. rewrite Hperm. split; [by left|done].
  - apply option_eq. intros e. rewrite !find_region_iff by done. rewrite Hperm, elem_of_cons.
    split; [|tauto]. intros [[->|He] Hce]; [cbn in Hce; congruence|done].
Qed.

(** ** GIDs *)

(** The sixteen bytes of a GID. *)
Definition gid_wf (g : ibv_gid) : Prop := length g = 16%nat ∧ Forall (λ b, 0 <= b < 256) g.

Lemma string_app_nil_r s : (s +:+ "")%string = s.
Proof.
  induction s as [|c s IH]; [done|]. change (String c (s +:+ "") = String c s)%string.
  by rewrite IH.
Qed.

Lemma string_app_assoc s t u : (s +:+ (t +:+ u) = (s +:+ t) +:+ u)%string.
Proof.
  induction s as [|c s IH]; [done|].
  change (String c (s +:+ (t +:+ u)) = String c ((s +:+ t) +:+ u))%string. by rewrite IH.
Qed.

Lemma hex_digit_inj m n :
  0 <= m < 16 → 0 <= n < 16 → hex_digit m = hex_digit n → m = n.
Proof.
  intros Hm Hn Heq.
  assert (∀ k, 0 <= k < 16 → k = 0 ∨ k = 1 ∨ k = 2 ∨ k = 3 ∨ k = 4 ∨ k = 5 ∨ k = 6 ∨ k = 7 ∨
    k = 8 ∨ k = 9 ∨ k = 10 ∨ k = 11 ∨ k = 12 ∨ k = 13 ∨ k = 14 ∨ k = 15) as Hcases by lia.
  apply (f_equal Ascii.nat_of_ascii) in Heq.
  assert (∀ k, 0 <= k < 16 → Ascii.nat_of_ascii (hex_digit k) =
            if k <? 10 then Z.to_nat (48 + k) else Z.to_nat (87 + k)) as Hcode.
  { intros k Hk. apply Hcases in Hk. by intuition subst. }
  rewrite !Hcode in Heq by done.
  destruct (Z.ltb_spec m 10), (Z.ltb_spec n 10); lia.
Qed.

Lemma hex_byte_inj a b s t :
  0 <= a < 256 → 0 <= b < 256 →
  (hex_byte a +:+ s = hex_byte b +:+ t)%string → a = b ∧ s = t.
Proof.
  intros Ha Hb. unfold hex_byte. intros [= H1 H2 H3]. split; [|exact H3].
  apply hex_digit_inj in H1;
    [|split; [apply Z.div_pos|apply Z.div_lt_upper_bound]; lia..].
  apply hex_digit_inj in H2; [|apply Z.mod_pos_bound; lia..].
  rewrite (Z.div_mod a 16), (Z.div_mod b 16) by lia. congruence.
Qed.

(** The string of the bytes after the first. *)
Fixpoint gid_tail (bs : list Z) : string :=
  match bs with
  | [] => ""
  | b :: bs' => ":" +:+ hex_byte b +:+ gid_tail bs'
  end.

Lemma gid_string_fold bs s :
  fold_left (λ s b, s +:+ ":" +:+ hex_byte b)%string bs s = (s +:+ gid_tail bs)%string.
Proof.
  revert s. induction bs as [|b bs IH]; intros s; cbn [fold_left gid_tail].
  - by rewrite string_app_nil_r.
  - rewrite IH. by rewrite <- string_app_assoc.
Qed.

Lemma gid_tail_inj bs cs :
  Forall (λ b, 0 <= b < 256) bs → Forall (λ b, 0 <= b < 256) cs →
  gid_tail bs = gid_tail cs → bs = cs.
Proof.
  revert cs. induction bs as [|b bs IH]; intros [|c cs] Hb Hc; cbn; try done.
  inversion Hb; inversion Hc; subst. intros Heq. apply (f_equal (str_drop 1)) in Heq.
  change (hex_byte b +:+ gid_tail bs = hex_byte c +:+ gid_tail cs)%string in Heq.
  apply (hex_byte_inj b c) in Heq as [-> Heq]; [|done..]. f_equal. by apply IH.
Qed.

Lemma gid_string_inj g g' :
  gid_wf g → gid_wf g' → gidBytesToString g = gidBytesToString g' → g = g'.
Proof.
  intros [Hl Hb] [Hl' Hb']. unfold gidBytesToString. rewrite !take_ge by lia.
  destruct g as [|b bs], g' as [|c cs]; try done. rewrite !gid_string_fold.
  inversion Hb; inversion Hb'; subst.
  intros [-> Heq]%(hex_byte_inj b c); [|done..]. f_equal. by apply gid_tail_inj.
Qed.
