(* ===== verification/RdmaContextSpec.v ===== *)
(** * What [RdmaContext] guarantees

    Resource accounting over the whole life of a context, the lookup of memory
    regions, and the choice of GIDs. *)

From S2P Require Import Prelude CxxString Accounting RdmaContext RdmaContextFacts.
From stdpp Require Import base strings list sets gmap sorting.
From Stdlib Require Import ZArith Lia.

#[local] Open Scope Z_scope.
#[local] Set Default Proof Using "Type".

(** ** Accounting *)

Inductive resource :=
| RDeviceList | RDevice (ctx : Z) | RPd (pd : Z) | RChannel (ch : Z) | RFd (fd : Z)
| RCq (cq : Z) | RMr (mr : ibv_mr) | RPrimaryCtx (dev : Z).

#[export] Instance resource_eq_dec : EqDecision resource.
Proof. solve_decision. Defined.

Definition verbs_acquires (e : verbs_event) : list resource :=
  match e with
  | RegMr _ _ _ r | RegDmabufMr _ _ _ _ _ r => of_option RMr r
  | PrimaryCtxRetain dev => [RPrimaryCtx dev]
  | ExportDmabuf _ _ r => of_option RFd r
  | HsaExportDmabuf _ _ r => of_option (λ p, RFd p.1) r
  | GetDeviceList r => of_option (λ _, RDeviceList) r
  | OpenDevice _ r => of_option RDevice r
  | AllocPd _ r => of_option RPd r
  | CreateCompChannel _ r => of_option RChannel r
  | EpollCreate fd => if 0 <=? fd then [RFd fd] else []
  | CreateCq _ _ _ _ r => of_option RCq r
  | _ => []
  end.

Definition verbs_release_of (e : verbs_event) : option (resource * Z) :=
  match e with
  | DeregMr mr rc => Some (RMr mr, rc)
  | PrimaryCtxRelease dev => Some (RPrimaryCtx dev, 0)
  | CloseFd fd rc => Some (RFd fd, rc)
  | FreeDeviceList => Some (RDeviceList, 0)
  | CloseDevice ctx rc => Some (RDevice ctx, rc)
  | DeallocPd pd rc => Some (RPd pd, rc)
  | DestroyCompChannel ch rc => Some (RChannel ch, rc)
  | DestroyCq cq rc => Some (RCq cq, rc)
  | _ => None
  end.

#[export] Instance verbs_resources : Resources verbs_event resource := {|
  acquires := verbs_acquires;
  release_of := verbs_release_of |}.

Section Specs.
Context `{!Verbs}.
Context (build : GpuBuild).
Context (max_mr_size ERR_CONTEXT ERR_DEVICE_NOT_FOUND IBV_ACCESS_LOCAL_WRITE : Z).
Context (GPU_PREFIX : string).
Context (with_nvidia_peermem isKernelDmabufSupported skip_null_gid_check : bool).
Context (default_candidate : AutoGidCandidate).
Context (selectBestAutoGidCandidate : list AutoGidCandidate → option AutoGidSelection).
Context (AutoGidSelectionIdentity : Type).
Context (reselectAutoGidCandidate :
  list AutoGidCandidate → Z → string → list AutoGidSelectionIdentity → option AutoGidSelection).
(** Error codes are not zero. *)
Context (ERR_CONTEXT_nonzero : ERR_CONTEXT ≠ 0).
(** The memory of a pointer is host or device memory (the CUDA driver reports
    no other physical type), and HIP reports one of its four documented types. *)
Context (cuda_types : ∀ h a c, v_pointer_type h a ≠ Some (CU_OTHER c)).
Context (hip_types : ∀ h a c d, v_hip_attributes h a ≠ Some (HIP_OTHER c, d)).

(** *** Registration *)

Definition registered (o : option RawMeta) : list resource :=
  match o with Some m => of_option RMr (raw_mr m) | None => [] end.

Lemma reg_dmabuf_owns off len addr fd acc :
  owns [RFd fd] (reg_dmabuf off len addr fd acc) (of_option RMr).
Proof.
  unfold reg_dmabuf. eapply owns_seq with (mid := λ mr, of_option RMr mr ++ [RFd fd]).
  { owned_call. }
  intros mr. eapply owns_seq with (mid := λ _, of_option RMr mr); [owned_call|].
  intros ?. by apply owns_ret.
Qed.

Lemma register_host_owns addr len acc : owns [] (register_host addr len acc) registered.
Proof.
  eapply owns_seq with (mid := of_option RMr); [owned_call|]. intros mr. by apply owns_ret.
Qed.

Lemma release_ctx_owns dev : owns (of_option RPrimaryCtx dev) (release_ctx dev) (λ _, []).
Proof. destruct dev; cbn; [owned_call|by apply owns_ret]. Qed.

Lemma retain_ctx_owns addr : owns [] (retain_ctx addr) (λ d, [RPrimaryCtx d]).
Proof.
  eapply owns_seq with (mid := λ _, []); [owned_call|]. intros d.
  eapply owns_seq with (mid := λ _, [RPrimaryCtx d]); [owned_call|]. intros _.
  eapply owns_seq with (mid := λ _, [RPrimaryCtx d]); [owned_call|]. intros ?. by apply owns_ret.
Qed.

Lemma register_cuda_device_owns addr len acc :
  owns [] (register_cuda_device build addr len acc) registered.
Proof.
  unfold register_cuda_device.
  eapply owns_seq with (mid := of_option RPrimaryCtx).
  { case_match; [|by apply owns_ret].
    eapply owns_seq; [apply retain_ctx_owns|]. intros d. by apply owns_ret. }
  intros dev. eapply owns_seq with (mid := λ _, of_option RPrimaryCtx dev); [neutral|].
  intros [[base size]|].
  2:{ eapply owns_seq; [apply release_ctx_owns|]. intros ?. by apply owns_ret. }
  eapply owns_seq with (mid := λ fd, of_option RPrimaryCtx dev ++ of_option RFd fd).
  { owned_call. }
  intros [fd|]; cbn [of_option]; rewrite ?app_nil_r.
  2:{ eapply owns_seq; [apply release_ctx_owns|]. intros ?. by apply owns_ret. }
  eapply owns_seq; [apply owns_frame, reg_dmabuf_owns|]. intros mr. cbn beta.
  eapply owns_seq with (mid := λ _, of_option RMr mr).
  { eapply owns_conseq; [apply (owns_frame (of_option RMr mr)), release_ctx_owns| |].
    - solve_Permutation.
    - intros ?. solve_Permutation. }
  intros ?. by apply owns_ret.
Qed.

Lemma register_cuda_owns addr len acc dmabuf m :
  owns [] (register_cuda build with_nvidia_peermem addr len acc dmabuf m) registered.
Proof using cuda_types.
  unfold register_cuda. destruct dmabuf; cbn [negb]; [|apply register_host_owns].
  eapply owns_bind with (mid := λ _, []) (P := λ t, ∀ c, t ≠ Some (CU_OTHER c)).
  - neutral.
  - intros h v evs [-> _]%call_inv. intros c. apply cuda_types.
  - intros [[| |c]|] Ht; [apply register_host_owns|case_match|by destruct (Ht c)|].
    + apply register_host_owns.
    + apply register_cuda_device_owns.
    + apply register_host_owns.
Qed.

Lemma register_hip_device_owns addr len acc :
  owns [] (register_hip_device addr len acc) registered.
Proof.
  eapply owns_seq with (mid := λ _, []); [neutral|].
  intros [[base size]|]; [|by apply owns_ret].
  eapply owns_seq with (mid := λ o, of_option (λ p, RFd p.1) o); [owned_call|].
  intros [[fd off]|]; [|by apply owns_ret].
  eapply owns_seq; [apply reg_dmabuf_owns|]. intros mr. by apply owns_ret.
Qed.

Lemma with_hip_device_owns {A} target (x : A) body post :
  post x ≡ₚ [] → owns [] body post → owns [] (with_hip_device target x body) post.
Proof.
  intros Hx Hbody. unfold with_hip_device.
  eapply owns_seq with (mid := λ _, []); [neutral|]. intros prev.
  eapply owns_seq with (mid := λ _, []); [neutral|]. intros ok.
  eapply owns_seq with (mid := post).
  { destruct ok; [done|]. by apply owns_ret. }
  intros v. eapply owns_seq with (mid := λ _, post v); [|intros ?; by apply owns_ret].
  destruct prev as [p|]; [|by apply owns_ret].
  case_match; [|by apply owns_ret].
  eapply owns_seq with (mid := λ _, post v); [neutral|]. intros ?. by apply owns_ret.
Qed.

Lemma register_hip_owns addr len acc m :
  owns [] (register_hip isKernelDmabufSupported addr len acc m) registered.
Proof using hip_types.
  unfold register_hip.
  eapply owns_bind with (mid := λ _, []) (P := λ t, ∀ c d, t ≠ Some (HIP_OTHER c, d)).
  - neutral.
  - intros h v evs [-> _]%call_inv. intros c d. apply hip_types.
  - intros [[[| | | |c] d]|] Ht; try apply register_host_owns; [|by destruct (Ht c d)].
    destruct isKernelDmabufSupported; cbn [negb]; [|apply register_host_owns].
    apply with_hip_device_owns; [done|]. apply register_hip_device_owns.
Qed.

(** The outcome of a registration: a region, or nothing. *)
Lemma register_internal_owns addr len acc dmabuf m :
  owns [] (registerMemoryRegionInternal build max_mr_size ERR_CONTEXT with_nvidia_peermem
             isKernelDmabufSupported addr len acc dmabuf m)
    (λ r, if r.1 =? 0 then of_option RMr (raw_mr r.2) else []).
Proof using cuda_types hip_types ERR_CONTEXT_nonzero.
  unfold registerMemoryRegionInternal. eapply owns_seq with (mid := registered).
  { assert (∀ n, owns [] (register_cuda build with_nvidia_peermem addr n acc dmabuf m) registered)
      as Hcuda by (intros; apply register_cuda_owns).
    destruct build; first [apply Hcuda|apply register_hip_owns|apply register_host_owns]. }
  assert ((ERR_CONTEXT =? 0) = false) as Herr by (by apply Z.eqb_neq).
  intros [[a [mr|]]|]; apply owns_ret; cbn; by rewrite ?Herr.
Qed.

(** *** Opening *)

Definition channels (l : list (option Z)) : list resource := l ≫= of_option RChannel.
Definition queues (l : list (option Z)) : list resource := l ≫= of_option RCq.
Definition regions (m : MemoryRegionMap) : list resource :=
  (λ e : Z * MemoryRegionMeta, RMr (meta_mr e.2)) <$> m.

#[local] Arguments channels : simpl never.
#[local] Arguments queues : simpl never.
#[local] Arguments regions : simpl never.

(** What a context owns. *)
Definition owned (s : RdmaContext) : list resource :=
  of_option RDevice (context_ s) ++ of_option RPd (pd_ s) ++
  (if 0 <=? event_fd_ s then [RFd (event_fd_ s)] else []) ++
  channels (default [] (comp_channel_ s)) ++ queues (cq_list_ s) ++
  regions (memory_region_map_ s).

Lemma close_and_fail_owns ctx s :
  owns (RDevice ctx :: RDeviceList :: owned s) (close_and_fail ERR_CONTEXT ctx s)
    (λ r, owned r.2).
Proof.
  eapply owns_seq with (mid := λ _, RDeviceList :: owned s).
  { owned_call. }
  intros ?. eapply owns_seq with (mid := λ _, owned s).
  { owned_call. }
  intros ?. by apply owns_ret.
Qed.

Lemma gid_candidate_owns l ctx port i :
  owns l (gid_candidate default_candidate ctx port i) (λ _, l).
Proof.
  eapply owns_seq with (mid := λ _, l); [neutral|]. intros [e|]; [|by apply owns_ret].
  eapply owns_seq with (mid := λ _, l); [neutral|]. intros ndev. by apply owns_ret.
Qed.

Lemma findBestGidIndex_owns l ctx attr port :
  owns l (findBestGidIndex default_candidate selectBestAutoGidCandidate ctx attr port) (λ _, l).
Proof.
  eapply owns_seq; [apply owns_mmap_neutral, gid_candidate_owns|].
  intros cs. cbn beta. case_match; by apply owns_ret.
Qed.

Lemma validate_gpus_owns l gpus : owns l (validate_gpus gpus) (λ _, l).
Proof.
  induction gpus as [|gpu gpus IH]; [by apply owns_ret|].
  eapply owns_seq with (mid := λ _, l); [neutral|]. intros [d|]; [|by apply owns_ret].
  eapply owns_seq with (mid := λ _, l); [neutral|].
  intros [[]|]; [done| |]; by apply owns_ret.
Qed.

Lemma validate_dmabuf_owns l gpus :
  owns l (validate_dmabuf build with_nvidia_peermem gpus) (λ _, l).
Proof.
  unfold validate_dmabuf. repeat case_match; try (by apply owns_ret).
  - eapply owns_seq with (mid := λ _, l); [neutral|].
    intros []; [apply validate_gpus_owns|by apply owns_ret].
  - apply validate_gpus_owns.
Qed.

(** [set_gid] changes no resource. *)
Lemma owned_set_gid gid ix auto s : owned (set_gid gid ix auto s) = owned s.
Proof. done. Qed.

Lemma open_with_gid_owns ctx port ix attr pattr s :
  context_ s = None →
  owns (RDevice ctx :: RDeviceList :: owned s)
    (open_with_gid ERR_CONTEXT skip_null_gid_check default_candidate selectBestAutoGidCandidate
       ctx port ix attr pattr s) (λ r, owned r.2).
Proof.
  intros Hs. unfold open_with_gid.
  eapply owns_seq with (mid := λ _, RDevice ctx :: RDeviceList :: owned s); [neutral|].
  intros ?. eapply owns_seq with (mid := λ _, RDevice ctx :: RDeviceList :: owned s).
  { case_match.
    - eapply owns_seq; [apply findBestGidIndex_owns|]. intros found. by apply owns_ret.
    - eapply owns_seq with (mid := λ _, RDevice ctx :: RDeviceList :: owned s); [neutral|].
      intros ndev. by apply owns_ret. }
  intros [index|]; [|by eapply owns_conseq; [apply close_and_fail_owns| |]].
  eapply owns_seq with (mid := λ _, RDevice ctx :: RDeviceList :: owned s); [neutral|].
  intros [g|]; [|by eapply owns_conseq; [apply close_and_fail_owns| |]].
  case_match; [by eapply owns_conseq; [apply close_and_fail_owns| |]|].
  eapply owns_seq with (mid := λ _, RDevice ctx :: owned s); [owned_call|].
  intros ?. apply owns_ret. unfold owned. rewrite Hs. done.
Qed.

Lemma open_matched_owns ctx port ix gpus s :
  context_ s = None →
  owns (RDevice ctx :: RDeviceList :: owned s)
    (open_matched build ERR_CONTEXT with_nvidia_peermem skip_null_gid_check default_candidate
       selectBestAutoGidCandidate ctx port ix gpus s) (λ r, owned r.2).
Proof.
  intros Hs. unfold open_matched. set (l := RDevice ctx :: RDeviceList :: owned s).
  eapply owns_seq with (mid := λ _, l); [neutral|].
  intros [attr|]; [|apply close_and_fail_owns]. case_match; [apply close_and_fail_owns|].
  eapply owns_seq with (mid := λ _, l); [neutral|]. intros rc.
  case_match; [apply close_and_fail_owns|]. eapply owns_seq with (mid := λ _, l).
  { case_match; [apply validate_dmabuf_owns|by apply owns_ret]. }
  intros valid. case_match; [apply close_and_fail_owns|].
  eapply owns_seq with (mid := λ _, l); [neutral|].
  intros [pattr|]; [|apply close_and_fail_owns]. by apply open_with_gid_owns.
Qed.

Lemma openRdmaDevice_owns name topology port ix s :
  context_ s = None →
  owns (owned s)
    (openRdmaDevice build ERR_CONTEXT ERR_DEVICE_NOT_FOUND GPU_PREFIX with_nvidia_peermem
       skip_null_gid_check default_candidate selectBestAutoGidCandidate name topology port ix s)
    (λ r, owned r.2).
Proof.
  intros Hs. unfold openRdmaDevice.
  eapply owns_seq with (mid := λ o, of_option (λ _, RDeviceList) o ++ owned s); [owned_call|].
  intros [names|]; [|by apply owns_ret]. cbn [of_option app]. case_match.
  { eapply owns_seq with (mid := λ _, owned s); [owned_call|]. intros ?. by apply owns_ret. }
  eapply owns_seq with (mid := λ o, of_option RDevice o ++ RDeviceList :: owned s); [owned_call|].
  intros [ctx|]; [by apply open_matched_owns|]. cbn [of_option app].
  eapply owns_seq with (mid := λ _, owned s); [owned_call|]. intros ?. by apply owns_ret.
Qed.

(** What opening leaves alone. *)
Definition later_handles (s : RdmaContext) :=
  (pd_ s, event_fd_ s, comp_channel_ s, cq_list_ s, memory_region_map_ s).


Lemma openRdmaDevice_frame name topology port ix s :
  returns (openRdmaDevice build ERR_CONTEXT ERR_DEVICE_NOT_FOUND GPU_PREFIX with_nvidia_peermem
       skip_null_gid_check default_candidate selectBestAutoGidCandidate name topology port ix s)
    (λ r, later_handles r.2 = later_handles s).
Proof. unfold openRdmaDevice, open_matched, open_with_gid, close_and_fail. frame_run. Qed.

(** *** Construction *)

Lemma joinNonblockingPollList_owns l efd fd :
  owns l (joinNonblockingPollList ERR_CONTEXT efd fd) (λ _, l).
Proof.
  unfold joinNonblockingPollList. eapply owns_seq with (mid := λ _, l); [neutral|]. intros fl.
  case_match; [by apply owns_ret|]. eapply owns_seq with (mid := λ _, l); [neutral|]. intros rc.
  case_match; [by apply owns_ret|]. eapply owns_seq with (mid := λ _, l); [neutral|]. intros rc'.
  by apply owns_ret.
Qed.

Lemma join_channels_owns l efd chs : owns l (join_channels ERR_CONTEXT efd chs) (λ _, l).
Proof.
  induction chs as [|ch chs IH]; [by apply owns_ret|].
  eapply owns_seq; [apply joinNonblockingPollList_owns|]. intros rc. cbn beta.
  case_match; [by apply owns_ret|done].
Qed.

Lemma bind_replicate_none (f : Z → resource) n : replicate n None ≫= of_option f = [].
Proof. by induction n. Qed.

Lemma create_channels_owns l ctx n :
  owns l (create_channels ctx n) (λ r, l ++ channels r.2).
Proof.
  revert l. induction n as [|n IH]; intros l; cbn [create_channels].
  { apply owns_ret. cbn. by rewrite app_nil_r. }
  eapply owns_seq with (mid := λ o, l ++ of_option RChannel o); [owned_call|].
  intros [ch|]; cbn [of_option].
  - eapply owns_seq; [apply IH|]. intros r. apply owns_ret. cbn. by rewrite <- app_assoc.
  - apply owns_ret. cbn [snd]. unfold channels. by rewrite bind_replicate_none.
Qed.

Lemma create_cqs_owns l ctx max_cqe chs n ch_ix vec_ix :
  owns l (create_cqs ctx max_cqe chs n ch_ix vec_ix) (λ r, l ++ queues r.1.2).
Proof.
  revert l ch_ix vec_ix. induction n as [|n IH]; intros l ch_ix vec_ix; cbn [create_cqs].
  { apply owns_ret. cbn. by rewrite app_nil_r. }
  eapply owns_seq with (mid := λ o, l ++ of_option RCq o); [owned_call|].
  intros [cq|]; cbn [of_option].
  - eapply owns_seq; [apply IH|]. intros r. apply owns_ret. cbn. by rewrite <- app_assoc.
  - apply owns_ret. cbn [fst snd]. unfold queues. by rewrite bind_replicate_none.
Qed.

Lemma close_epoll_owns s :
  0 <= event_fd_ s → owns (owned s) (close_epoll ERR_CONTEXT s) (λ r, owned r.2).
Proof.
  intros Hfd. apply Z.leb_le in Hfd.
  eapply owns_seq with (mid := λ _, owned (set_event_fd (-1) s)).
  { apply owns_call. intros v r. unfold owned. cbn. rewrite Hfd. unfold releases, refuses.
    cbn [release_of]. case_match; rewrite ?holds_app, ?holds_cons, ?holds_nil; lia. }
  intros ?. by apply owns_ret.
Qed.

Lemma construct_queues_owns ctx n max_cqe chs s :
  0 <= event_fd_ s → cq_list_ s = [] →
  owns (owned s) (construct_queues ERR_CONTEXT ctx n max_cqe chs s) (λ r, owned r.2).
Proof.
  intros Hfd Hcq. unfold construct_queues.
  eapply owns_seq; [apply joinNonblockingPollList_owns|]. intros rc. cbn beta.
  case_match; [by apply close_epoll_owns|].
  eapply owns_seq; [apply join_channels_owns|]. intros joined. cbn beta.
  case_match; [by apply close_epoll_owns|].
  eapply owns_seq; [apply create_cqs_owns|]. intros r. cbn beta.
  apply owns_pre with (pre := owned (set_cqs r.1.2 r.2.1 r.2.2 s)).
  2:{ unfold owned. rewrite Hcq. cbn. change (queues []) with (@nil resource). solve_Permutation. }
  case_match; [by apply close_epoll_owns|].
  eapply owns_seq with (mid := λ _, owned (set_cqs r.1.2 r.2.1 r.2.2 s)); [neutral|].
  intros ?. by apply owns_ret.
Qed.

Definition run_construct device_name topology num_cq num_ch port ix max_cqe
  : RdmaContext → vio (Z * RdmaContext) :=
  construct build ERR_CONTEXT ERR_DEVICE_NOT_FOUND GPU_PREFIX with_nvidia_peermem
    skip_null_gid_check default_candidate selectBestAutoGidCandidate device_name topology
    num_cq num_ch port ix max_cqe.

Lemma construct_owns name topology num_cq num_ch port ix max_cqe gid :
  owns [] (run_construct name topology num_cq num_ch port ix max_cqe (new_context gid))
    (λ r, owned r.2).
Proof.
  unfold run_construct, construct.
  eapply owns_bind; [by apply (openRdmaDevice_owns _ _ _ _ (new_context gid))
                    |apply openRdmaDevice_frame|].
  intros [rc s] Hrest. cbn in *. unfold later_handles in Hrest. cbn in Hrest.
  injection Hrest as Hpd Hfd Hch Hcq Hmr.
  case_match; [by apply owns_ret|]. destruct (context_ s) as [ctx|] eqn:Hctx; [|by apply owns_ret].
  eapply owns_seq with (mid := λ o, RDevice ctx :: of_option RPd o).
  { apply owns_pre with (pre := [RDevice ctx]); [owned_call|].
    unfold owned. by rewrite Hctx, Hpd, Hfd, Hch, Hcq, Hmr. }
  intros pd.
  destruct pd as [pd|].
  2:{ apply owns_ret. unfold owned. cbn. by rewrite Hfd, Hch, Hcq, Hmr. }
  eapply owns_seq; [apply create_channels_owns|]. intros [ok chs]. cbn.
  case_match.
  { apply owns_ret. unfold owned. cbn. rewrite Hfd, Hcq, Hmr. cbn. by rewrite !app_nil_r. }
  eapply owns_seq with (mid := λ fd, [RDevice ctx; RPd pd] ++ channels chs ++
                                     if 0 <=? fd then [RFd fd] else []).
  { apply owns_call. intros fd r. cbn. change (releases (EpollCreate fd)) with (@nil resource).
    change (refuses (EpollCreate fd)) with (@nil resource).
    rewrite ?holds_cons, ?holds_app, ?holds_cons, ?holds_nil. lia. }
  intros fd.
  set (s' := set_event_fd fd _).
  apply owns_pre with (pre := owned s').
  2:{ unfold owned. cbn. rewrite Hcq, Hmr. cbn. rewrite !app_nil_r. solve_Permutation. }
  destruct (Z.ltb_spec fd 0).
  - apply owns_ret. done.
  - apply construct_queues_owns; [cbn; lia|done].
Qed.

(** *** Destruction *)

Lemma destroy_cq_owns q : owns (of_option RCq q) (destroy_cq q) (λ _, []).
Proof.
  destruct q; cbn; [|by apply owns_ret].
  eapply owns_seq with (mid := λ _, []); [owned_call|]. intros ?. by apply owns_ret.
Qed.

Lemma destroy_channel_owns ch : owns (of_option RChannel ch) (destroy_channel ch) (λ _, []).
Proof.
  destruct ch; cbn; [|by apply owns_ret].
  eapply owns_seq with (mid := λ _, []); [owned_call|]. intros ?. by apply owns_ret.
Qed.

Lemma regions_bind m : regions m = m ≫= λ e : Z * MemoryRegionMeta, [RMr (meta_mr e.2)].
Proof. induction m as [|e m IH]; [done|]. cbn. by rewrite <- IH. Qed.

Lemma deconstruct_owns s : owns (owned s) (deconstruct s) owned.
Proof.
  unfold deconstruct. eapply owns_seq with (mid := λ _, owned s); [neutral|]. intros ?.
  eapply owns_seq with (mid := λ _, owned s); [neutral|]. intros ?.
  apply owns_pre with (pre := regions (memory_region_map_ s) ++ queues (cq_list_ s) ++
    (if 0 <=? event_fd_ s then [RFd (event_fd_ s)] else []) ++
    channels (default [] (comp_channel_ s)) ++ of_option RPd (pd_ s) ++
    of_option RDevice (context_ s)); [|unfold owned; solve_Permutation].
  apply owns_consume.
  { rewrite regions_bind. apply owns_mmap. intros e. owned_call. }
  intros ?. apply owns_consume; [apply owns_mmap, destroy_cq_owns|].
  intros ?. apply owns_consume.
  { case_match; [|by apply owns_ret].
    eapply owns_seq with (mid := λ _, []); [owned_call|]. intros ?. by apply owns_ret. }
  intros ?. apply owns_consume; [apply owns_mmap, destroy_channel_owns|].
  intros ?. apply owns_consume.
  { destruct (pd_ s); [|by apply owns_ret].
    eapply owns_seq with (mid := λ _, []); [owned_call|]. intros ?. by apply owns_ret. }
  intros ?. rewrite <- (app_nil_r (of_option RDevice _)). apply owns_consume.
  { destruct (context_ s); [|by apply owns_ret].
    eapply owns_seq with (mid := λ _, []); [owned_call|]. intros ?. by apply owns_ret. }
  intros ?. by apply owns_ret.
Qed.

(** A context without a device owns nothing. *)
Lemma construct_unopened name topology num_cq num_ch port ix max_cqe gid :
  returns (run_construct name topology num_cq num_ch port ix max_cqe (new_context gid))
    (λ r, context_ r.2 = None → r.1 ≠ 0 ∧ owned r.2 = []).
Proof using ERR_CONTEXT_nonzero.
  unfold run_construct, construct. eapply returns_seq; [apply openRdmaDevice_frame|].
  intros [rc s] Hrest. unfold later_handles in Hrest. cbn in *.
  injection Hrest as Hpd Hfd Hch Hcq Hmr.
  assert (context_ s = None → owned s = []) as Hnone.
  { intros Hn. unfold owned. by rewrite Hn, Hpd, Hfd, Hch, Hcq, Hmr. }
  case_match; [apply returns_ret; auto|].
  destruct (context_ s) as [ctx|] eqn:Hctx; [|apply returns_ret; auto].
  unfold construct_queues, close_epoll. cbn. frame_run.
Qed.

(** *** Operations on an open context *)

(** What holds of every region the registration calls may return holds of the
    result of a registration. *)
Section Registered.
Context (addr acc : Z) (P : RawMeta → Prop).

Definition produces (o : option RawMeta) : Prop := ∀ m, o = Some m → P m.

Lemma register_host_produces n :
  (∀ h, P (MkRaw addr (v_reg_mr h addr n acc))) →
  returns (register_host addr n acc) produces.
Proof.
  intros Hp. eapply returns_seq with (P := λ mr, P (MkRaw addr mr)).
  - intros h v evs [-> _]%call_inv. apply Hp.
  - intros mr Hmr. apply returns_ret. by intros m [= <-].
Qed.

Lemma reg_dmabuf_produces off n fd :
  (∀ h off fd, P (MkRaw addr (v_reg_dmabuf_mr h off n addr fd acc))) →
  returns (reg_dmabuf off n addr fd acc) (λ mr, P (MkRaw addr mr)).
Proof.
  intros Hp. eapply returns_seq with (P := λ mr, P (MkRaw addr mr)).
  - intros h v evs [-> _]%call_inv. apply Hp.
  - intros mr Hmr. apply returns_bind. intros rc. by apply returns_ret.
Qed.

Lemma register_cuda_device_produces n :
  (∀ h off fd, P (MkRaw addr (v_reg_dmabuf_mr h off n addr fd acc))) →
  returns (register_cuda_device build addr n acc) produces.
Proof.
  intros Hp. unfold register_cuda_device. do 2 (apply returns_bind; intros).
  case_match; [case_match|frame_run]. apply returns_bind. intros [fd|]; [|frame_run].
  eapply returns_seq; [by apply reg_dmabuf_produces|]. intros mr Hmr.
  apply returns_bind. intros ?. apply returns_ret. by intros m [= <-].
Qed.

Lemma register_hip_device_produces n :
  (∀ h off fd, P (MkRaw addr (v_reg_dmabuf_mr h off n addr fd acc))) →
  returns (register_hip_device addr n acc) produces.
Proof.
  intros Hp. unfold register_hip_device. apply returns_bind. intros [[base size]|]; [|frame_run].
  apply returns_bind. intros [[fd off]|]; [|frame_run].
  eapply returns_seq; [by apply reg_dmabuf_produces|]. intros mr Hmr.
  apply returns_ret. by intros m [= <-].
Qed.

Lemma register_cuda_produces n dmabuf m :
  (∀ h, P (MkRaw addr (v_reg_mr h addr n acc))) →
  (∀ h off fd, P (MkRaw addr (v_reg_dmabuf_mr h off n addr fd acc))) →
  returns (register_cuda build with_nvidia_peermem addr n acc dmabuf m) produces.
Proof using cuda_types.
  intros Hp Hd. unfold register_cuda. case_match; [by apply register_host_produces|].
  eapply returns_seq with (P := λ t, ∀ c, t ≠ Some (CU_OTHER c)).
  { intros h v evs [-> _]%call_inv c. apply cuda_types. }
  intros [[| |c]|] Ht; [| |by destruct (Ht c)|]; try by apply register_host_produces.
  case_match; [by apply register_host_produces|by apply register_cuda_device_produces].
Qed.

Lemma register_hip_produces n m :
  (∀ h, P (MkRaw addr (v_reg_mr h addr n acc))) →
  (∀ h off fd, P (MkRaw addr (v_reg_dmabuf_mr h off n addr fd acc))) →
  returns (register_hip isKernelDmabufSupported addr n acc m) produces.
Proof using hip_types.
  intros Hp Hd. unfold register_hip.
  eapply returns_seq with (P := λ t, ∀ c d, t ≠ Some (HIP_OTHER c, d)).
  { intros h v evs [-> _]%call_inv c d. apply hip_types. }
  intros [[[| | | |c] d]|] Ht; try (by apply register_host_produces); [|by destruct (Ht c d)].
  case_match; [by apply register_host_produces|]. unfold with_hip_device.
  do 2 (apply returns_bind; intros). eapply returns_seq with (P := produces).
  { case_match; [by apply register_hip_device_produces|by apply returns_ret]. }
  intros o Ho. apply returns_bind. intros ?. by apply returns_ret.
Qed.

Lemma register_internal_produces len dmabuf m :
  let n := if max_mr_size <? len then max_mr_size else len in
  (∀ h, P (MkRaw addr (v_reg_mr h addr n acc))) →
  (∀ h off fd, P (MkRaw addr (v_reg_dmabuf_mr h off n addr fd acc))) →
  returns (registerMemoryRegionInternal build max_mr_size ERR_CONTEXT with_nvidia_peermem
             isKernelDmabufSupported addr len acc dmabuf m)
    (λ r, r.1 = 0 → P r.2 ∧ ∃ mr, raw_mr r.2 = Some mr).
Proof using cuda_types hip_types ERR_CONTEXT_nonzero.
  intros n Hp Hd. eapply returns_seq with (P := produces).
  - pose proof (register_cuda_produces n dmabuf m Hp Hd) as Hcuda. fold n.
    destruct build; try apply Hcuda; [by apply register_hip_produces|
                                      by apply register_host_produces].
  - intros [m'|] Hm'; apply returns_ret; cbn; [|done].
    destruct (raw_mr m') as [mr|]; [|done]. intros _. split; [by apply Hm'|by eexists].
Qed.
End Registered.

Lemma register_internal_addr addr len acc dmabuf m :
  returns (registerMemoryRegionInternal build max_mr_size ERR_CONTEXT with_nvidia_peermem
             isKernelDmabufSupported addr len acc dmabuf m)
    (λ r, r.1 = 0 → raw_addr r.2 = addr).
Proof using cuda_types hip_types ERR_CONTEXT_nonzero.
  intros h v evs Hrun Hrc.
  by destruct (register_internal_produces addr acc (λ m, raw_addr m = addr) len dmabuf m
                 (λ _, eq_refl) (λ _ _ _, eq_refl) _ _ _ Hrun Hrc).
Qed.

Definition run_register (addr len acc : Z) (dmabuf : bool) (uninit : RawMeta)
  : RdmaContext → vio (Z * RdmaContext) :=
  registerMemoryRegion build max_mr_size ERR_CONTEXT with_nvidia_peermem isKernelDmabufSupported
    addr len acc dmabuf uninit.

Definition run_pretouch (addr len : Z) (dmabuf : bool) (uninit : RawMeta) : vio Z :=
  preTouchMemory build max_mr_size ERR_CONTEXT IBV_ACCESS_LOCAL_WRITE with_nvidia_peermem
    isKernelDmabufSupported addr len dmabuf uninit.

Definition run_reprobe expected tried : RdmaContext → vio (bool * RdmaContext) :=
  reprobeAutoGid default_candidate AutoGidSelectionIdentity reselectAutoGidCandidate expected tried.

Lemma register_owns addr len acc dmabuf uninit s :
  addr ∉ (memory_region_map_ s).*1 →
  owns (owned s) (run_register addr len acc dmabuf uninit s) (λ r, owned r.2).
Proof using cuda_types hip_types ERR_CONTEXT_nonzero.
  intros Hfresh. eapply owns_bind.
  - apply owns_pre with (pre := owned s ++ []); [|by rewrite app_nil_r].
    apply owns_frame, register_internal_owns.
  - apply register_internal_addr.
  - intros [rc m] Haddr. cbn in *. destruct (Z.eqb_spec rc 0) as [->|]; cbn.
    + rewrite (Haddr eq_refl). destruct (raw_mr m) as [mr|]; apply owns_ret; cbn.
      * unfold owned, regions. cbn. rewrite (map_assign_fresh _ _ _ Hfresh). cbn.
        solve_Permutation.
      * by rewrite app_nil_r.
    + apply owns_ret. by rewrite app_nil_r.
Qed.

Lemma unregister_owns addr s :
  mr_wf (memory_region_map_ s) →
  owns (owned s) (unregisterMemoryRegion ERR_CONTEXT addr s) (λ r, owned r.2).
Proof.
  intros Hwf. unfold unregisterMemoryRegion.
  destruct (findMemoryRegionContaining _ _) as [[k meta]|] eqn:Hfind; [|by apply owns_ret].
  apply find_region_elem in Hfind as [Hin _].
  pose proof (map_erase_perm _ _ Hwf Hin) as Hperm. cbn in Hperm.
  set (s' := set_regions (map_erase k (memory_region_map_ s)) s).
  assert (owned s ≡ₚ RMr (meta_mr meta) :: owned s') as Hs.
  { unfold owned, regions. cbn. rewrite Hperm at 1. cbn. solve_Permutation. }
  eapply owns_seq with (mid := λ rc, if rc =? 0 then owned s' else owned s).
  - apply owns_pre with (pre := RMr (meta_mr meta) :: owned s'); [|done].
    apply owns_call. intros rc r. unfold releases, refuses. cbn.
    destruct (rc =? 0); rewrite ?Hs, ?holds_cons, ?holds_nil; lia.
  - intros rc. cbn beta. destruct (rc =? 0); by apply owns_ret.
Qed.

Lemma pretouch_owns addr len dmabuf uninit :
  owns [] (run_pretouch addr len dmabuf uninit) (λ _, []).
Proof using cuda_types hip_types ERR_CONTEXT_nonzero.
  eapply owns_seq; [apply register_internal_owns|]. intros [rc m]. cbn.
  destruct (rc =? 0); cbn; [|by apply owns_ret].
  destruct (raw_mr m); cbn; [owned_call|by apply owns_ret].
Qed.

Lemma reprobe_owns l expected tried s : owns l (run_reprobe expected tried s) (λ _, l).
Proof.
  unfold run_reprobe, reprobeAutoGid. repeat case_match; try (by apply owns_ret).
  eapply owns_seq with (mid := λ _, l); [neutral|]. intros [attr|]; [|by apply owns_ret].
  eapply owns_seq; [apply owns_mmap_neutral, gid_candidate_owns|]. intros cs. cbn beta.
  case_match; [|by apply owns_ret].
  eapply owns_seq with (mid := λ _, l); [neutral|]. intros [g|]; [|by apply owns_ret].
  case_match; [by apply owns_ret|]. eapply owns_seq with (mid := λ _, l); [neutral|].
  intros rc. case_match; by apply owns_ret.
Qed.

(** The operations on an open context.  A region is registered at an address
    that is not the start of a registered one. *)
Inductive context_step (s : RdmaContext) (h : vhist) : vhist → RdmaContext → Prop :=
| step_register addr len acc dmabuf uninit rc s' evs :
    addr ∉ (memory_region_map_ s).*1 →
    run_register addr len acc dmabuf uninit s h = ((rc, s'), evs) → context_step s h evs s'
| step_unregister addr rc s' evs :
    unregisterMemoryRegion ERR_CONTEXT addr s h = ((rc, s'), evs) → context_step s h evs s'
| step_pretouch addr len dmabuf uninit rc evs :
    run_pretouch addr len dmabuf uninit h = (rc, evs) → context_step s h evs s
| step_reprobe expected tried r s' evs :
    run_reprobe expected tried s h = ((r, s'), evs) → context_step s h evs s'
| step_cq : context_step s h [] (next_cq s).2.

Inductive context_steps (s : RdmaContext) (h : vhist) : vhist → RdmaContext → Prop :=
| steps_none : context_steps s h [] s
| steps_more e1 s1 e2 s2 :
    context_step s h e1 s1 → context_steps s1 (h ++ e1) e2 s2 → context_steps s h (e1 ++ e2) s2.

(** What every operation keeps. *)
Definition keeps (s s' : RdmaContext) : Prop :=
  context_ s' = context_ s ∧ mr_wf (memory_region_map_ s').

Lemma register_keeps addr len acc dmabuf uninit s :
  mr_wf (memory_region_map_ s) →
  returns (run_register addr len acc dmabuf uninit s) (λ r, keeps s r.2).
Proof.
  intros Hwf. apply returns_bind. intros r. repeat case_match; apply returns_ret; try done.
  split; [done|]. cbn. by apply (map_assign_wf _ (MkMeta _ _)).
Qed.

Lemma unregister_keeps addr s :
  mr_wf (memory_region_map_ s) →
  returns (unregisterMemoryRegion ERR_CONTEXT addr s) (λ r, keeps s r.2).
Proof.
  intros Hwf. unfold unregisterMemoryRegion. case_match; [|by apply returns_ret].
  case_match. apply returns_bind. intros rc. case_match; apply returns_ret; [done|].
  split; [done|]. by apply map_erase_wf.
Qed.

Lemma reprobe_keeps expected tried s :
  mr_wf (memory_region_map_ s) → returns (run_reprobe expected tried s)
    (λ r, keeps s r.2 ∧ owned r.2 = owned s).
Proof. intros Hwf. unfold run_reprobe, reprobeAutoGid. frame_run. Qed.

(** A step keeps the device, keeps the map ordered, and accounts for what it
    acquires. *)
Lemma context_step_sound s h evs s' :
  context_step s h evs s' → mr_wf (memory_region_map_ s) →
  keeps s s' ∧ accounts (owned s) evs (owned s').
Proof using cuda_types hip_types ERR_CONTEXT_nonzero.
  intros Hstep Hwf. destruct Hstep as
    [? ? ? ? ? ? ? ? Hf Hrun|? ? ? ? Hrun|? ? ? ? ? ? Hrun|? ? ? ? ? Hrun|].
  - split; [by apply (register_keeps _ _ _ _ _ _ Hwf _ _ _ Hrun)|].
    apply (register_owns _ _ _ _ _ _ Hf _ _ _ Hrun).
  - split; [by apply (unregister_keeps _ _ Hwf _ _ _ Hrun)|].
    apply (unregister_owns _ _ Hwf _ _ _ Hrun).
  - split; [done|]. rewrite <- (app_nil_r (owned s)). apply accounts_frame.
    apply (pretouch_owns _ _ _ _ _ _ _ Hrun).
  - destruct (reprobe_keeps _ _ _ Hwf _ _ _ Hrun) as [Hk Ho]. split; [done|].
    cbn in Ho. rewrite Ho. apply (reprobe_owns _ _ _ _ _ _ _ Hrun).
  - split; [done|]. apply accounts_nil.
Qed.

Lemma context_steps_sound s h evs s' :
  context_steps s h evs s' → mr_wf (memory_region_map_ s) →
  keeps s s' ∧ accounts (owned s) evs (owned s').
Proof using cuda_types hip_types ERR_CONTEXT_nonzero.
  induction 1 as [|s h e1 s1 e2 s2 H1 _ IH]; intros Hwf; [split; [done|apply accounts_nil]|].
  destruct (context_step_sound _ _ _ _ H1 Hwf) as [[Hc1 Hw1] Ha1].
  destruct (IH Hw1) as [[Hc2 Hw2] Ha2].
  split; [split; [congruence|done]|]. by eapply accounts_app.
Qed.

Lemma construct_regions name topology num_cq num_ch port ix max_cqe gid :
  returns (run_construct name topology num_cq num_ch port ix max_cqe (new_context gid))
    (λ r, memory_region_map_ r.2 = []).
Proof.
  unfold run_construct, construct. eapply returns_seq; [apply openRdmaDevice_frame|].
  intros [rc s] Hrest. unfold later_handles in Hrest. cbn in *.
  injection Hrest as _ _ _ _ Hmr. unfold construct_queues, close_epoll. frame_run.
Qed.

(** C7: Over the whole life of a context - construction, which may fail at any
    point, any sequence of registrations (at fresh addresses), unregistrations,
    pre-touches and GID reprobes, and destruction - every device list, device,
    protection domain, channel, file descriptor, completion queue, memory
    region and CUDA context that was acquired is released exactly as often,
    except where the release call itself failed. *)
Theorem context_lifetime_balanced name topology num_cq num_ch port ix max_cqe gid
    h rc s e1 e2 s' e3 s'' :
  run_construct name topology num_cq num_ch port ix max_cqe (new_context gid) h = ((rc, s), e1) →
  (if rc =? 0 then context_steps s (h ++ e1) e2 s' else e2 = [] ∧ s' = s) →
  destroy_context s' (h ++ e1 ++ e2) = (s'', e3) →
  ∀ r, (times releases (e1 ++ e2 ++ e3) r ≤ times acquires (e1 ++ e2 ++ e3) r)%nat ∧
       (times acquires (e1 ++ e2 ++ e3) r ≤
        times releases (e1 ++ e2 ++ e3) r + times refuses (e1 ++ e2 ++ e3) r)%nat.
Proof using cuda_types hip_types ERR_CONTEXT_nonzero.
  intros H1 H2 H3.
  pose proof (construct_owns _ _ _ _ _ _ _ _ _ _ _ H1) as A1.
  pose proof (construct_unopened _ _ _ _ _ _ _ _ _ _ _ H1) as Hnone.
  pose proof (construct_regions _ _ _ _ _ _ _ _ _ _ _ H1) as Hwf. cbn [fst snd] in *.
  assert (context_ s' = context_ s ∧ (context_ s = None → s' = s) ∧
          accounts (owned s) e2 (owned s')) as (Hc & Hs & A2).
  { destruct (Z.eqb_spec rc 0) as [->|].
    - destruct (context_steps_sound _ _ _ _ H2) as [[Hc _] A2].
      { rewrite Hwf. split; constructor. }
      split_and!; [done| |done]. intros Hn. by destruct (Hnone Hn).
    - destruct H2 as [-> ->]. split_and!; [done|done|apply accounts_nil]. }
  assert (accounts (owned s') e3 []) as A3.
  { unfold destroy_context in H3. destruct (context_ s') eqn:E.
    - pose proof (deconstruct_owns _ _ _ _ H3) as A3.
      replace (owned s'') with (@nil resource) in A3; [done|].
      clear -H3. unfold deconstruct in H3. by run_inv.
    - apply ret_inv in H3 as [-> ->]. rewrite Hs by congruence.
      destruct Hnone as [_ ->]; [congruence|]. apply accounts_nil. }
  pose proof (accounts_app _ _ _ _ _ A1 (accounts_app _ _ _ _ _ A2 A3)) as A.
  intros r. specialize (A r). rewrite holds_nil in A. lia.
Qed.

(** The ordered lookup by [upper_bound] finds exactly the region that contains
    an address, as a scan of all regions would, as long as the registered
    ranges are disjoint. *)
Theorem region_lookup_exact m a :
  mr_wf m → disjoint_regions m →
  findMemoryRegionContaining a m = List.find (λ e, containsAddress e.2 a) m.
Proof.
  intros Hwf Hd. destruct (List.find _ m) as [e|] eqn:E.
  - apply find_some in E as [He Hc]. apply find_region_iff; [done..|].
    by rewrite list_elem_of_In.
  - destruct (findMemoryRegionContaining a m) as [e|] eqn:F; [|done].
    apply find_region_elem in F as [He Hc]. apply list_elem_of_In in He.
    pose proof (find_none _ _ E _ He). congruence.
Qed.

(** The documented behaviour of the verbs: the region reports the requested length. *)
Context (reg_length : ∀ h a n acc mr, v_reg_mr h a n acc = Some mr → mr_length mr = n).
Context (dmabuf_length : ∀ h off n a fd acc mr,
  v_reg_dmabuf_mr h off n a fd acc = Some mr → mr_length mr = n).

Lemma register_ok_map addr len acc dmabuf uninit s h s' evs :
  run_register addr len acc dmabuf uninit s h = ((0, s'), evs) →
  ∃ mr, mr_length mr = Z.min len max_mr_size ∧
    s' = set_regions (map_assign addr (MkMeta addr mr) (memory_region_map_ s)) s.
Proof using cuda_types hip_types ERR_CONTEXT_nonzero reg_length dmabuf_length.
  intros Hrun. apply bind_inv in Hrun as ([rc m] & e1 & e2 & Hreg & Hrun & ->). cbn in Hrun.
  destruct (Z.eqb_spec rc 0) as [->|Hrc]; cbn in Hrun.
  2:{ apply ret_inv in Hrun as [[= ? ?] ?]. done. }
  destruct (register_internal_produces addr acc
    (λ m, raw_addr m = addr ∧ ∀ mr, raw_mr m = Some mr → mr_length mr = Z.min len max_mr_size)
    len dmabuf uninit) with (h := h) (v := (0, m)) (evs := e1)
    as [[Ha Hlen] [mr Hmr]]; [| |done..|].
  { intros h'. split; [done|]. cbn. intros mr ->%reg_length.
    destruct (Z.ltb_spec max_mr_size len); lia. }
  { intros h' off fd. split; [done|]. cbn. intros mr ->%dmabuf_length.
    destruct (Z.ltb_spec max_mr_size len); lia. }
  cbn in Ha, Hlen, Hmr. rewrite Hmr, Ha in Hrun. apply ret_inv in Hrun as [[= ->] ->].
  exists mr. auto.
Qed.

(** After a successful registration of a range that overlaps no registered
    one, the keys of exactly the addresses of that range (clipped to the
    largest region) are those of the new memory region, and the keys of all
    other addresses are unchanged. *)
Theorem register_then_lookup addr len acc dmabuf uninit s h s' evs :
  run_register addr len acc dmabuf uninit s h = ((0, s'), evs) →
  mr_wf (memory_region_map_ s) → disjoint_regions (memory_region_map_ s) →
  free_range addr (Z.min len max_mr_size) (memory_region_map_ s) →
  ∃ mr, RMr mr ∈ owned s' ∧ mr_length mr = Z.min len max_mr_size ∧
    ∀ a,
      if (addr <=? a) && (a <? addr + Z.min len max_mr_size)
      then lkey a (memory_region_map_ s') = mr_lkey mr ∧
           rkey a (memory_region_map_ s') = mr_rkey mr
      else lkey a (memory_region_map_ s') = lkey a (memory_region_map_ s) ∧
           rkey a (memory_region_map_ s') = rkey a (memory_region_map_ s).
Proof using cuda_types hip_types ERR_CONTEXT_nonzero reg_length dmabuf_length.
  intros Hrun Hwf Hd Hf. apply register_ok_map in Hrun as (mr & Hlen & ->).
  exists mr. rewrite <- Hlen in *. split_and!; [|done|].
  - unfold owned, regions. cbn. rewrite !elem_of_app. do 5 right.
    rewrite (map_assign_fresh _ _ _ (free_range_fresh _ _ _ Hf)). cbn. by left.
  - intros a. unfold lkey, rkey. cbn.
    rewrite (find_assigned _ (MkMeta addr mr)) by done.
    replace (containsAddress (MkMeta addr mr) a) with ((addr <=? a) && (a <? addr + mr_length mr))
      by (unfold containsAddress; cbn; lia).
    by destruct (_ && _).
Qed.

(** *** GID reprobing *)

Definition published (e : verbs_event) : Prop := ∃ lid gid, e = RefreshLocalDeviceDesc lid gid 0.

Lemma candidates_publish_nothing ctx port l h cs evs :
  mmap (gid_candidate default_candidate ctx port) l h = (cs, evs) →
  Forall (λ e, ¬ published e) evs.
Proof.
  intros Hrun. apply run_emitted in Hrun as <-. apply mmap_emitted. intros x h' _.
  destruct (gid_candidate default_candidate ctx port x h') as [v e] eqn:E.
  rewrite (run_emitted _ _ _ _ E). unfold gid_candidate in E. run_inv.
  destruct (v_query_gid_ex _ _ _ _); run_inv; by repeat constructor; intros (? & ? & ?).
Qed.

(** Every GID table entry has sixteen bytes. *)
Context (query_gid_wf : ∀ h ctx port ix g, v_query_gid h ctx port ix = Some g → gid_wf g).

Lemma gid_string_nonempty g : gid_wf g → str_empty (gidBytesToString g) = false.
Proof.
  intros [Hl _]. unfold gidBytesToString. rewrite take_ge by lia.
  destruct g as [|b bs]; [done|]. by rewrite gid_string_fold.
Qed.

(** A run that ends without publishing. *)
Ltac unpublished :=
  simpl in *; run_inv; simplify_eq; split; [done|];
  repeat match goal with
  | |- Forall _ [] => constructor
  | |- Forall _ (_ :: _) => constructor
  | |- Forall _ (_ ++ _) => apply Forall_app; split
  | |- ¬ published _ => intros (? & ? & ?); congruence
  end.

(** A GID reprobe that was asked to replace the GID [g0] switches only if the
    context still uses [g0] at that index, and only after the new GID has been
    published; otherwise the context is unchanged and nothing was published. *)
Theorem reprobe_publishes_first index g0 tried s h r s' evs :
  run_reprobe (index, gidBytesToString g0) tried s h = ((r, s'), evs) →
  gid_wf g0 → gid_wf (gid_ s) →
  if r then
    gid_index_ s = index ∧ gid_ s = g0 ∧
    ∃ g ix evs', isNullGid g = false ∧ s' = set_gid g ix true s ∧
      evs = evs' ++ [RefreshLocalDeviceDesc (lid_ s) (gidBytesToString g) 0]
  else s' = s ∧ Forall (λ e, ¬ published e) evs.
Proof using query_gid_wf.
  unfold run_reprobe, reprobeAutoGid. intros Hrun Hg0 Hgs.
  destruct (auto_gid_selection_enabled_ s) eqn:Hauto; [|by unpublished].
  destruct (context_ s) as [ctx|]; [|by unpublished]. cbn [fst snd] in Hrun.
  destruct (Z.eqb_spec (gid_index_ s) index) as [Hix|]; [|by unpublished].
  destruct (bool_decide_reflect (gidBytesToString (gid_ s) = gidBytesToString g0)) as [Hg|];
    [|by unpublished]. cbn [negb orb] in Hrun. apply gid_string_inj in Hg; [|done..].
  apply bind_inv in Hrun as (pattr & e1 & ? & [-> ->]%call_inv & Hrun & ->).
  destruct (v_query_port _ _ _) as [attr|]; [|by unpublished].
  apply bind_inv in Hrun as (cs & e2 & ? & Hcs%candidates_publish_nothing & Hrun & ->).
  destruct (reselectAutoGidCandidate _ _ _ _) as [sel|]; [|by unpublished].
  apply bind_inv in Hrun as (og & e3 & ? & [-> ->]%call_inv & Hrun & ->).
  destruct (v_query_gid _ _ _ _) as [g|] eqn:Hq; [|by unpublished].
  destruct (isNullGid g) eqn:Hnull; [by unpublished|].
  apply bind_inv in Hrun as (rc & e4 & ? & [-> ->]%call_inv & Hrun & ->).
  destruct (Z.eqb_spec (v_refresh (((h ++ [QueryPort ctx (port_ s) (Some attr)]) ++ e2) ++
    [QueryGid ctx (port_ s) (sel_gid_index sel) (Some g)]) (lid_ s) (gidBytesToString g)) 0)
    as [Hrc|Hrc].
  - rewrite Hrc in Hrun |- *. cbn [negb Z.eqb] in Hrun. apply ret_inv in Hrun as [Hrun ->].
    rewrite gid_string_nonempty in Hrun by (by eapply query_gid_wf). simplify_eq/=.
    split_and!; [done..|]. exists g, (sel_gid_index sel), ([QueryPort ctx (port_ s) (Some attr)] ++
      e2 ++ [QueryGid ctx (port_ s) (sel_gid_index sel) (Some g)]).
    split_and!; [done..|]. by rewrite <- !app_assoc.
  - by unpublished.
Qed.
End Specs.

(** *** Overlay addresses *)

(** The dotted address [a.b.c.d]. *)
Definition ipv4 (a b c d : Z) : Z := a * 2 ^ 24 + b * 2 ^ 16 + c * 2 ^ 8 + d.

Lemma s6_word_range g i : Forall (λ b, 0 <= b < 256) g → 0 <= s6_word g i < 2 ^ 32.
Proof.
  intros Hg. unfold s6_word.
  assert (∀ j, 0 <= default 0 (g !! j) < 256) as Hb.
  { intros j. destruct (g !! j) eqn:E; cbn; [|lia]. rewrite Forall_forall in Hg.
    eapply Hg, list_elem_of_lookup_2; done. }
  pose proof (Hb (4 * i + 0)%nat). pose proof (Hb (4 * i + 1)%nat).
  pose proof (Hb (4 * i + 2)%nat). pose proof (Hb (4 * i + 3)%nat). lia.
Qed.

Lemma octet_shift w n : 0 <= n → Z.land (Z.shiftr w n) 0xFF = (w / 2 ^ n) mod 256.
Proof.
  intros Hn. rewrite Z.shiftr_div_pow2 by lia. change 0xFF with (Z.ones 8).
  by rewrite Z.land_ones by lia.
Qed.

Lemma v4mapped_words g :
  ipv6_addr_v4mapped g = true ↔
  (s6_word g 0 = 0 ∨ s6_word g 0 = 0xff0e0000) ∧ s6_word g 1 = 0 ∧ s6_word g 2 = 0xffff.
Proof.
  unfold ipv6_addr_v4mapped.
  rewrite orb_true_iff, andb_true_iff, !Z.eqb_eq, !Z.lor_eq_0_iff, !Z.lxor_eq_0_iff. tauto.
Qed.

(** An address counts as an overlay address exactly when it is a v4-mapped
    (or v4 multicast) address in 10.0.0.0/8, 172.16.0.0/12 or 100.64.0.0/10. *)
Theorem overlay_ipv4_ranges g :
  gid_wf g →
  isOverlayIPv4 g = true ↔
  ((s6_word g 0 = 0 ∨ s6_word g 0 = 0xff0e0000) ∧ s6_word g 1 = 0 ∧ s6_word g 2 = 0xffff) ∧
  (ipv4 10 0 0 0 <= s6_word g 3 <= ipv4 10 255 255 255 ∨
   ipv4 172 16 0 0 <= s6_word g 3 <= ipv4 172 31 255 255 ∨
   ipv4 100 64 0 0 <= s6_word g 3 <= ipv4 100 127 255 255).
Proof.
  intros [_ Hb]. rewrite <- v4mapped_words. unfold isOverlayIPv4, ipv4.
  pose proof (s6_word_range g 3 Hb) as Hw. set (w := s6_word g 3) in *.
  rewrite !octet_shift by lia.
  destruct (ipv6_addr_v4mapped g); cbn [negb]; [|by split; [|intros []]].
  assert (w / 2 ^ 24 mod 256 = w / 2 ^ 24) as ->.
  { apply Z.mod_small. split; [apply Z.div_pos; lia|apply Z.div_lt_upper_bound; lia]. }
  replace (w / 2 ^ 16 mod 256) with (w / 2 ^ 16 - 256 * (w / 2 ^ 24)).
  2:{ rewrite Z.mod_eq by lia. rewrite Z.div_div by lia. done. }
  pose proof (Z.div_mod w (2 ^ 24) ltac:(lia)). pose proof (Z.mod_pos_bound w (2 ^ 24) ltac:(lia)).
  pose proof (Z.div_mod w (2 ^ 16) ltac:(lia)). pose proof (Z.mod_pos_bound w (2 ^ 16) ltac:(lia)).
  set (o1 := w / 2 ^ 24) in *. set (o2 := w / 2 ^ 16) in *.
  destruct (Z.eqb_spec o1 10); [split; [intros _; split; [done|lia]|done]|].
  destruct (Z.eqb_spec o1 172), (Z.eqb_spec o1 100); cbn [andb]; try lia.
  - destruct (Z.leb_spec 16 (o2 - 256 * o1)), (Z.leb_spec (o2 - 256 * o1) 31); cbn [andb];
      (split; [intros E; first [discriminate E|split; [done|lia]]|intros [_ ?]; first [done|lia]]).
  - destruct (Z.leb_spec 64 (o2 - 256 * o1)), (Z.leb_spec (o2 - 256 * o1) 127); cbn [andb];
      (split; [intros E; first [discriminate E|split; [done|lia]]|intros [_ ?]; first [done|lia]]).
Qed.

(** ** Evaluation *)

(** A device whose calls all succeed; handles number the calls. *)
Definition sample_verbs : Verbs := {|
  v_reg_mr := λ h _ n _, Some (MkMr (Z.of_nat (length h)) n (100 + Z.of_nat (length h)) (200 + Z.of_nat (length h)));
  v_reg_dmabuf_mr := λ h _ n _ _ _, Some (MkMr (Z.of_nat (length h)) n 7 8);
  v_dereg_mr := λ _ _, 0;
  v_pointer_type := λ _ a, if a <? 1000 then Some CU_HOST else Some CU_DEVICE;
  v_pointer_ordinal := λ _ _, 0;
  v_address_range := λ _ a, Some (a, 64);
  v_export_dmabuf := λ h _ _, Some (Z.of_nat (length h));
  v_hip_attributes := λ _ _, None;
  v_hip_get_device := λ _, None;
  v_hip_set_device := λ _ _, true;
  v_hsa_export := λ _ _ _, None;
  v_close := λ _ _, 0;
  v_device_list := λ _, Some ["mlx5_0"%string];
  v_open_device := λ _ _, Some 1;
  v_close_device := λ _ _, 0;
  v_query_port := λ _ _ _, Some (MkPort true 5 1);
  v_query_device := λ _ _, 0;
  v_cu_init := λ _, true;
  v_cu_device_get := λ _ d, Some d;
  v_cu_dmabuf_supported := λ _ _, Some true;
  v_query_gid_ex := λ _ _ _ _, Some (MkGidEntry (replicate 16 1) 2);
  v_read_ndev := λ _ _ _, "eth0"%string;
  v_query_gid := λ _ _ _ _, Some (replicate 16 1);
  v_refresh := λ _ _ _, 0;
  v_alloc_pd := λ _ _, Some 2;
  v_dealloc_pd := λ _ _, 0;
  v_create_channel := λ h _, Some (Z.of_nat (length h));
  v_destroy_channel := λ _ _, 0;
  v_epoll_create := λ _, 3;
  v_getfl := λ _ _, 0;
  v_setfl := λ _ _ _, 0;
  v_epoll_add := λ _ _ _, 0;
  v_create_cq := λ h _ _ _ _, Some (Z.of_nat (length h));
  v_destroy_cq := λ _ _, 0;
  v_poll_cq := λ _ _ _, 0;
  v_get_endpoint := λ _ _, None;
  v_insert_endpoint := λ _ _, Some 1;
  async_fd := λ _, 40;
  num_comp_vectors := λ _, 4;
  channel_fd := λ c, 50 + c |}.

Definition sample_candidate : AutoGidCandidate :=
  MkCandidate 0 true "" 0 false false false false false false.
Definition sample_select (cs : list AutoGidCandidate) : option AutoGidSelection :=
  match cs with [] => None | c :: _ => Some (MkSelection (cand_gid_index c) kNetworkRoutable) end.

#[local] Abbreviation sample_construct :=
  (@run_construct sample_verbs USE_CUDA (-2) (-3) "cuda:" false false sample_candidate sample_select
     "mlx5_0" [("cuda:0", (["mlx5_0"], []))]%string 2 1 1 (-1) 128 (new_context [])).

Definition sample_context : RdmaContext := (value_of sample_construct []).2.

#[local] Abbreviation sample_register addr :=
  (@run_register sample_verbs USE_CUDA 4096 (-2) false false addr 64 7 true (MkRaw 0 None)).

Lemma sample_construct_run :
  sample_construct [] = ((0, sample_context), emitted sample_construct []).
Proof. by vm_compute. Qed.

Lemma sample_regions : memory_region_map_ sample_context = [].
Proof. by vm_compute. Qed.

Definition registered_context (h : vhist) : RdmaContext :=
  (value_of (sample_register 4096 sample_context) h).2.

Lemma sample_register_run h :
  h = [] ∨ h = emitted sample_construct [] →
  sample_register 4096 sample_context h =
  ((0, registered_context h), emitted (sample_register 4096 sample_context) h).
Proof. intros [->| ->]; by vm_compute. Qed.

Lemma sample_cuda_types h a c : v_pointer_type (Verbs := sample_verbs) h a ≠ Some (CU_OTHER c).
Proof. cbn. by destruct (a <? 1000). Qed.

(** Construction, registration of a device buffer, destruction. *)
Lemma context_lifetime_balanced_witness :
  let e1 := emitted sample_construct [] in
  let s1 := registered_context e1 in
  let e2 := emitted (sample_register 4096 sample_context) e1 in
  let e3 := (destroy_context (H := sample_verbs) s1 ([] ++ e1 ++ e2)).2 in
  times acquires (e1 ++ e2 ++ e3) (RDevice 1) = 1%nat ∧
  ∀ r, (times releases (e1 ++ e2 ++ e3) r ≤ times acquires (e1 ++ e2 ++ e3) r)%nat ∧
       (times acquires (e1 ++ e2 ++ e3) r ≤
        times releases (e1 ++ e2 ++ e3) r + times refuses (e1 ++ e2 ++ e3) r)%nat.
Proof.
  intros e1 s1 e2 e3. split; [by vm_compute|].
  apply (@context_lifetime_balanced sample_verbs USE_CUDA 4096 (-2) (-3) 1 "cuda:" false false
    false sample_candidate sample_select unit (λ _ _ _ _, None) ltac:(done) sample_cuda_types
    ltac:(done) "mlx5_0" [("cuda:0", (["mlx5_0"], []))]%string 2 1 1 (-1) 128 [] [] 0
    sample_context e1 e2 s1 e3 (destroy_context (H := sample_verbs) s1 ([] ++ e1 ++ e2)).1
    sample_construct_run).
  - rewrite <- (app_nil_r e2). eapply steps_more; [|apply steps_none].
    eapply (step_register _ _ _ _ _ _ _ _ _ _ _ 4096 64 7 true (MkRaw 0 None) 0).
    + rewrite sample_regions. apply not_elem_of_nil.
    + apply (sample_register_run e1). by right.
  - apply surjective_pairing.
Defined.

Lemma region_lookup_exact_witness :
  let m := [(4096, MkMeta 4096 (MkMr 1 64 7 8)); (8192, MkMeta 8192 (MkMr 2 64 9 10))] in
  findMemoryRegionContaining 8200 m = Some (8192, MkMeta 8192 (MkMr 2 64 9 10)) ∧
  findMemoryRegionContaining 8200 m = List.find (λ e, containsAddress e.2 8200) m.
Proof.
  intros m. split; [by vm_compute|]. apply region_lookup_exact.
  - split; unfold m; repeat constructor.
  - intros e1 e2 [->|[->|[]%not_elem_of_nil]%elem_of_cons]%elem_of_cons
      [->|[->|[]%not_elem_of_nil]%elem_of_cons]%elem_of_cons; cbn; lia.
Defined.

Lemma register_then_lookup_witness :
  ∃ s' evs, sample_register 4096 sample_context [] = ((0, s'), evs) ∧
  ∃ mr, RMr mr ∈ owned s' ∧ mr_length mr = 64 ∧
    ∀ a,
      if (4096 <=? a) && (a <? 4096 + 64)
      then lkey a (memory_region_map_ s') = mr_lkey mr ∧ rkey a (memory_region_map_ s') = mr_rkey mr
      else lkey a (memory_region_map_ s') = lkey a (memory_region_map_ sample_context) ∧
           rkey a (memory_region_map_ s') = rkey a (memory_region_map_ sample_context).
Proof.
  eexists _, _. split; [apply sample_register_run; by left|].
  pose proof sample_regions as Hm.
  eapply (@register_then_lookup sample_verbs USE_CUDA 4096 (-2) false false) with
    (h := []) (addr := 4096) (len := 64) (acc := 7) (dmabuf := true) (uninit := MkRaw 0 None).
  - done.
  - apply sample_cuda_types.
  - done.
  - cbn. by intros h a n acc mr [= <-].
  - cbn. by intros h off n a fd acc mr [= <-].
  - apply sample_register_run. by left.
  - rewrite Hm. split; constructor.
  - rewrite Hm. by intros e1 e2 []%not_elem_of_nil.
  - rewrite Hm. by intros e []%not_elem_of_nil.
Defined.

(** The automatically selected GID is replaced. *)
Lemma reprobe_publishes_first_witness :
  ∃ s' evs,
    @run_reprobe sample_verbs sample_candidate unit (λ cs _ _ _, sample_select cs)
      (0, gidBytesToString (replicate 16 1)) [] sample_context [] = ((true, s'), evs) ∧
    gid_index_ sample_context = 0 ∧ gid_ sample_context = replicate 16 1 ∧
    ∃ g ix evs', isNullGid g = false ∧ s' = set_gid g ix true sample_context ∧
      evs = evs' ++ [RefreshLocalDeviceDesc (lid_ sample_context) (gidBytesToString g) 0].
Proof.
  eexists _, _. split; [by vm_compute|].
  eapply (@reprobe_publishes_first sample_verbs sample_candidate unit (λ cs _ _ _, sample_select cs))
    with (tried := []) (h := []) (r := true).
  - cbn. intros h ctx port ix g [= <-]. split; [done|]. repeat constructor; lia.
  - by vm_compute.
  - split; [done|]. repeat constructor; lia.
  - replace (gid_ sample_context) with (replicate 16 1) by (by vm_compute).
    split; [done|]. repeat constructor; lia.
Defined.

Lemma overlay_ipv4_ranges_witness :
  let g := replicate 10 0 ++ [255; 255; 172; 20; 0; 1] in
  isOverlayIPv4 g = true ∧
  ((s6_word g 0 = 0 ∨ s6_word g 0 = 0xff0e0000) ∧ s6_word g 1 = 0 ∧ s6_word g 2 = 0xffff).
Proof.
  intros g. assert (isOverlayIPv4 g = true) as Hg by by vm_compute. split; [done|].
  apply (overlay_ipv4_ranges g); [|done]. split; [done|]. unfold g. cbn. repeat constructor; lia.
Defined.

(** Registering a buffer again at the same address overwrites its map entry: the
    first memory region is never deregistered. *)
Theorem reregistration_leaks_region :
  ∃ e1 s1 e2 s2 e3 s3 mr,
    sample_register 4096 sample_context [] = ((0, s1), e1) ∧
    sample_register 4096 s1 e1 = ((0, s2), e2) ∧
    destroy_context (H := sample_verbs) s2 (e1 ++ e2) = (s3, e3) ∧
    times acquires (e1 ++ e2 ++ e3) (RMr mr) = 1%nat ∧
    times releases (e1 ++ e2 ++ e3) (RMr mr) = 0%nat ∧
    times refuses (e1 ++ e2 ++ e3) (RMr mr) = 0%nat.
Proof.
  eexists _, _, _, _, _, _, (MkMr 6 64 7 8). split_and!; [by vm_compute..].
Qed.
