(* ===== verification/GpuDmabuf.v ===== *)
(** * GPU memory for NVMe-oF: the SPDK GPU dma-buf memory domain
      ([spdk/lib/dma/gpu_dmabuf.c])

    A domain remembers the GPU ranges registered with it and, per device and
    RDMA protection domain, the memory regions exported for them.  The two
    red-black trees are sorted lists.  The GPU driver (behind the [gpu_*]
    wrappers of the file), the verbs library, the allocator and SPDK's
    memory-domain API are external.  Addresses and lengths are 64-bit; their
    sums wrap. *)

From S2P Require Import Prelude CxxString RdmaContext.
From stdpp Require Import base strings list sets gmap.
From Stdlib Require Import ZArith Lia.

#[local] Open Scope Z_scope.

(** ** Data *)

Record gpu_dmabuf_mr := MkGMr {
  m_addr : Z;
  m_len : Z;
  m_device : Z;
  m_pd : Z;
  m_mr : ibv_mr }.

Record gpu_dmabuf_region := MkRegion { r_addr : Z; r_len : Z; r_device : Z }.

(** Contexts are pointers; 0 is [NULL]. *)
Record gpu_dmabuf_domain := MkDomain {
  gd_domain : Z;                       (* the [spdk_memory_domain] *)
  mr_cache : list gpu_dmabuf_mr;
  gd_regions : list gpu_dmabuf_region;
  cuda_ctxs : list (Z * Z);            (* device id, context *)
  cuda_device_id : Z;
  cuda_ctx : Z;
  owns_cuda_ctx : bool;
  rdma_access_flags : Z }.

Definition with_cache c (gd : gpu_dmabuf_domain) : gpu_dmabuf_domain :=
  MkDomain (gd_domain gd) c (gd_regions gd) (cuda_ctxs gd) (cuda_device_id gd) (cuda_ctx gd)
    (owns_cuda_ctx gd) (rdma_access_flags gd).
Definition with_regions rs (gd : gpu_dmabuf_domain) : gpu_dmabuf_domain :=
  MkDomain (gd_domain gd) (mr_cache gd) rs (cuda_ctxs gd) (cuda_device_id gd) (cuda_ctx gd)
    (owns_cuda_ctx gd) (rdma_access_flags gd).
Definition with_ctxs cs (gd : gpu_dmabuf_domain) : gpu_dmabuf_domain :=
  MkDomain (gd_domain gd) (mr_cache gd) (gd_regions gd) cs (cuda_device_id gd) (cuda_ctx gd)
    (owns_cuda_ctx gd) (rdma_access_flags gd).

(** What the code reads of the destination memory domain. *)
Record rdma_domain := MkRdmaDomain {
  is_rdma : bool;
  has_user_ctx : bool;
  ctx_has_pd : bool;                   (* the context is large enough for [ibv_pd] *)
  ibv_pd : Z }.

Record translation_result := MkTranslation {
  iov_base : Z; iov_len : Z; res_lkey : Z; res_rkey : Z }.

Record gpu_dmabuf_opts := MkOpts {
  opt_id : option string;
  opt_cuda_device_id : Z;
  opt_cuda_context : Z;
  opt_rdma_access_flags : Z }.

(** Which fields of the caller's options lie within its [size]. *)
Record opts_fields := MkFields {
  has_id : bool; has_device : bool; has_context : bool; has_flags : bool }.

#[export] Instance gpu_dmabuf_mr_eq_dec : EqDecision gpu_dmabuf_mr.
Proof. solve_decision. Defined.
#[export] Instance gpu_dmabuf_region_eq_dec : EqDecision gpu_dmabuf_region.
Proof. solve_decision. Defined.
#[export] Instance gpu_dmabuf_domain_eq_dec : EqDecision gpu_dmabuf_domain.
Proof. solve_decision. Defined.
#[export] Instance translation_result_eq_dec : EqDecision translation_result.
Proof. solve_decision. Defined.

(** Negated errno values. *)
Inductive gerr := ENOTSUP | EINVAL | EFAULT | ENOMEM | ENODEV | EEXIST | ErrnoOf (e : Z).

#[export] Instance gerr_eq_dec : EqDecision gerr.
Proof. solve_decision. Defined.

Abbreviation gres A := (result gerr A).

(** ** Ranges *)

Definition range_contains (start_e len_e addr len : Z) : bool :=
  let end_e := u64_add start_e len_e in
  let end_ := u64_add addr len in
  (start_e <=? addr) && (addr <=? end_) && (end_ <=? end_e).

Definition range_overlaps (start_e len_e addr len : Z) : bool :=
  let end_e := u64_add start_e len_e in
  let end_ := u64_add addr len in
  (addr <? end_) && (start_e <? end_e) && (addr <? end_e) && (start_e <? end_).

Definition gpu_dmabuf_range_contains (e : gpu_dmabuf_mr) (addr len : Z) : bool :=
  range_contains (m_addr e) (m_len e) addr len.
Definition gpu_dmabuf_range_overlaps (e : gpu_dmabuf_mr) (addr len : Z) : bool :=
  range_overlaps (m_addr e) (m_len e) addr len.
Definition gpu_dmabuf_region_contains (r : gpu_dmabuf_region) (addr len : Z) : bool :=
  range_contains (r_addr r) (r_len r) addr len.
Definition gpu_dmabuf_region_overlaps (r : gpu_dmabuf_region) (addr len : Z) : bool :=
  range_overlaps (r_addr r) (r_len r) addr len.

(** ** The trees *)

(** Order of the MR tree: device, protection domain, address. *)
Definition mr_key (e : gpu_dmabuf_mr) : Z * Z * Z := (m_device e, m_pd e, m_addr e).

Definition gpu_dmabuf_mr_compare (a b : Z * Z * Z) : comparison :=
  let '(d1, p1, a1) := a in
  let '(d2, p2, a2) := b in
  match d1 ?= d2 with
  | Eq => match p1 ?= p2 with Eq => a1 ?= a2 | c => c end
  | c => c
  end.

Definition gpu_dmabuf_region_compare (a b : Z) : comparison := a ?= b.

Section Tree.
Context {K V : Type} (compare : K → K → comparison) (key : V → K).

Fixpoint below (k : K) (t : list V) : list V :=
  match t with
  | [] => []
  | v :: t' => match compare (key v) k with Lt => v :: below k t' | _ => [] end
  end.

(** [RB_NFIND]: the first entry not less than [k]. *)
Fixpoint rb_nfind (k : K) (t : list V) : option V :=
  match t with
  | [] => None
  | v :: t' => match compare (key v) k with Lt => rb_nfind k t' | _ => Some v end
  end.

(** The entry before it, or the last one ([RB_PREV], [RB_MAX]). *)
Definition rb_prev (k : K) (t : list V) : option V := last (below k t).

(** [RB_INSERT]: [None] if an equal entry is present. *)
Fixpoint rb_insert (v : V) (t : list V) : option (list V) :=
  match t with
  | [] => Some [v]
  | v' :: t' =>
      match compare (key v) (key v') with
      | Lt => Some (v :: t)
      | Eq => None
      | Gt => cons v' <$> rb_insert v t'
      end
  end.

(** The lookups of the code: the entry at or after [k], then the one before. *)
Definition checked (p : V → bool) (o : option V) : option V :=
  match o with
  | Some v => if p v then Some v else None
  | None => None
  end.

Definition find_near (k : K) (p : V → bool) (t : list V) : option V :=
  match checked p (rb_nfind k t) with
  | Some v => Some v
  | None => checked p (rb_prev k t)
  end.
End Tree.

Definition mr_for (device pd : Z) (p : gpu_dmabuf_mr → bool) (e : gpu_dmabuf_mr) : bool :=
  (m_device e =? device) && (m_pd e =? pd) && p e.

Definition gpu_dmabuf_find_mr (gd : gpu_dmabuf_domain) (device pd addr len : Z)
  : option gpu_dmabuf_mr :=
  find_near gpu_dmabuf_mr_compare mr_key (device, pd, addr)
    (mr_for device pd (λ e, gpu_dmabuf_range_contains e addr len)) (mr_cache gd).

Definition gpu_dmabuf_find_overlapping_mr (gd : gpu_dmabuf_domain) (device pd addr len : Z)
  : option gpu_dmabuf_mr :=
  find_near gpu_dmabuf_mr_compare mr_key (device, pd, addr)
    (mr_for device pd (λ e, gpu_dmabuf_range_overlaps e addr len)) (mr_cache gd).

Definition gpu_dmabuf_find_region (gd : gpu_dmabuf_domain) (addr len : Z)
  : option gpu_dmabuf_region :=
  find_near gpu_dmabuf_region_compare r_addr addr
    (λ r, gpu_dmabuf_region_contains r addr len) (gd_regions gd).

Definition gpu_dmabuf_find_overlapping_region (gd : gpu_dmabuf_domain) (addr len : Z)
  : option gpu_dmabuf_region :=
  find_near gpu_dmabuf_region_compare r_addr addr
    (λ r, gpu_dmabuf_region_overlaps r addr len) (gd_regions gd).

(** ** External calls *)

Inductive gpu_event :=
| GCalloc (ok : bool)
| GInit (ok : bool)
| GPointerOrdinal (addr : Z) (r : option Z)
| GDeviceGet (id : Z) (r : option Z)
| GPrimaryCtxRetain (dev : Z) (r : option Z)
| GPrimaryCtxRelease (id : Z)
| GCtxGetCurrent (r : option Z)
| GCtxSetCurrent (ctx : Z) (ok : bool)
| GAddressRange (addr : Z) (r : option (Z * Z))
| GExport (base size : Z) (r : option Z)
| GRegDmabufMr (pd offset len iova fd flags : Z) (r : option ibv_mr) (errno : Z)
| GCloseFd (fd : Z)
| GDeregMr (mr : ibv_mr)
| GDomainCreate (id : string) (r : result gerr Z)
| GDomainDestroy (domain : Z).

Abbreviation gio A := (comp gpu_event A).
Abbreviation ghist := (list gpu_event).

Class GpuApi := {
  g_calloc : ghist → bool;
  g_init : ghist → bool;
  g_pointer_ordinal : ghist → Z → option Z;
  g_device_get : ghist → Z → option Z;
  g_ctx_retain : ghist → Z → option Z;
  g_ctx_get_current : ghist → option Z;
  g_ctx_set_current : ghist → Z → bool;
  g_address_range : ghist → Z → option (Z * Z);
  g_export : ghist → Z → Z → option Z;
  g_reg_dmabuf_mr : ghist → Z → Z → Z → Z → Z → Z → option ibv_mr * Z;
  g_domain_create : ghist → string → result gerr Z }.

(** The MACA versions of the [gpu_*] wrappers, over the MACA runtime. *)
Definition maca_api (verbs : GpuApi) (mcSetDevice : ghist → Z → bool)
    (mcMemGetAddressRange : ghist → Z → option (Z * Z))
    (mcMemGetHandleForAddressRange : ghist → Z → Z → option Z) : GpuApi := {|
  g_calloc := @g_calloc verbs;
  g_init := λ _, true;
  g_pointer_ordinal := λ _ _, None;
  g_device_get := λ _ id, Some id;
  g_ctx_retain := λ h dev, if mcSetDevice h dev then Some 0 else None;
  g_ctx_get_current := λ _, Some 0;
  g_ctx_set_current := λ _ _, true;
  g_address_range := mcMemGetAddressRange;
  g_export := mcMemGetHandleForAddressRange;
  g_reg_dmabuf_mr := @g_reg_dmabuf_mr verbs;
  g_domain_create := @g_domain_create verbs |}.

Section Domain.
Context `{!GpuApi}.
(** [SPDK_GPU_DMABUF_DMA_DEVICE] and the default access flags. *)
Context (default_id : string) (gpu_dmabuf_default_access_flags : Z).

Definition do_gpu (e : gpu_event) : gio unit := call (λ _, tt) (λ _, e).
Definition do_calloc : gio bool := call g_calloc GCalloc.
Definition do_set_current ctx : gio bool := call (λ h, g_ctx_set_current h ctx) (GCtxSetCurrent ctx).

(** ** Helpers *)

Definition gpu_dmabuf_get_rdma_pd (dst : rdma_domain) : gres Z :=
  if negb (is_rdma dst) then Err ENOTSUP
  else if negb (has_user_ctx dst) then Err EINVAL
  else if negb (ctx_has_pd dst) then Err EINVAL
  else if ibv_pd dst =? 0 then Err EINVAL
  else Ok (ibv_pd dst).

Definition gpu_dmabuf_get_ptr_device_id (gd : gpu_dmabuf_domain) (addr : Z) : gio (gres Z) :=
  if 0 <=? cuda_device_id gd then ret (Ok (cuda_device_id gd))
  else
    let! r := call (λ h, g_pointer_ordinal h addr) (GPointerOrdinal addr) in
    ret (match r with Some d => Ok d | None => Err EFAULT end).

Definition gpu_dmabuf_get_cuda_ctx (gd : gpu_dmabuf_domain) (device : Z)
  : gio (gres Z * gpu_dmabuf_domain) :=
  if negb (cuda_ctx gd =? 0) then ret (Ok (cuda_ctx gd), gd)
  else if device <? 0 then ret (Err EINVAL, gd)
  else
    match List.find (λ c, c.1 =? device) (cuda_ctxs gd) with
    | Some c => ret (Ok c.2, gd)
    | None =>
        let! ok := do_calloc in
        if negb ok then ret (Err ENOMEM, gd)
        else
          let! dev := call (λ h, g_device_get h device) (GDeviceGet device) in
          match dev with
          | None => ret (Err ENODEV, gd)
          | Some d =>
              let! ctx := call (λ h, g_ctx_retain h d) (GPrimaryCtxRetain d) in
              match ctx with
              | None => ret (Err ENODEV, gd)
              | Some c => ret (Ok c, with_ctxs (cuda_ctxs gd ++ [(device, c)]) gd)
              end
          end
    end.

(** [prev_ctx] and [changed]. *)
Definition gpu_dmabuf_set_cuda_ctx (ctx : Z) : gio (gres (Z * bool)) :=
  if ctx =? 0 then ret (Ok (0, false))
  else
    let! cur := call g_ctx_get_current GCtxGetCurrent in
    match cur with
    | None => ret (Err EFAULT)
    | Some prev =>
        if prev =? ctx then ret (Ok (prev, false))
        else
          let! ok := do_set_current ctx in
          ret (if ok then Ok (prev, true) else Err EFAULT)
    end.

Definition gpu_dmabuf_restore_cuda_ctx (prev : Z * bool) : gio unit :=
  if prev.2 then let! _ := do_set_current prev.1 in ret tt else ret tt.

(** ** Registration *)

Definition gpu_dmabuf_add_region (gd : gpu_dmabuf_domain) (addr len device : Z)
  : gio (gres gpu_dmabuf_region * gpu_dmabuf_domain) :=
  match gpu_dmabuf_find_region gd addr len with
  | Some region =>
      ret (if negb (r_device region =? device) then Err EINVAL else Ok region, gd)
  | None =>
      match gpu_dmabuf_find_overlapping_region gd addr len with
      | Some _ => ret (Err EINVAL, gd)
      | None =>
          let! ok := do_calloc in
          if negb ok then ret (Err ENOMEM, gd)
          else
            let region := MkRegion addr len device in
            match rb_insert gpu_dmabuf_region_compare r_addr region (gd_regions gd) with
            | None => ret (Err EEXIST, gd)
            | Some rs => ret (Ok region, with_regions rs gd)
            end
      end
  end.

(** From the address range query to the exported handle: the file descriptor and
    the offset of [addr] in the allocation. *)
Definition export_range (addr len : Z) (prev : Z * bool) : gio (gres (Z * Z)) :=
  let! range := call (λ h, g_address_range h addr) (GAddressRange addr) in
  match range with
  | None => gpu_dmabuf_restore_cuda_ctx prev ;;; ret (Err EFAULT)
  | Some (alloc_base, alloc_size) =>
      if addr <? alloc_base then gpu_dmabuf_restore_cuda_ctx prev ;;; ret (Err EINVAL)
      else
        let alloc_offset := addr - alloc_base in
        if (alloc_size <? alloc_offset) || (alloc_size - alloc_offset <? len)
        then gpu_dmabuf_restore_cuda_ctx prev ;;; ret (Err EINVAL)
        else
          let! fd := call (λ h, g_export h alloc_base alloc_size) (GExport alloc_base alloc_size) in
          gpu_dmabuf_restore_cuda_ctx prev ;;;
          ret (match fd with None => Err EFAULT | Some f => Ok (f, alloc_offset) end)
  end.

(** Registration of the exported handle and insertion into the cache. *)
Definition register_exported (gd : gpu_dmabuf_domain) (device pd addr len fd offset : Z)
  : gio (gres gpu_dmabuf_mr * gpu_dmabuf_domain) :=
  let! r := call (λ h, g_reg_dmabuf_mr h pd offset len addr fd (rdma_access_flags gd))
              (λ r, GRegDmabufMr pd offset len addr fd (rdma_access_flags gd) r.1 r.2) in
  do_gpu (GCloseFd fd) ;;;
  match r.1 with
  | None => ret (Err (if negb (r.2 =? 0) then ErrnoOf r.2 else EFAULT), gd)
  | Some mr =>
      let entry := MkGMr addr len device pd mr in
      match rb_insert gpu_dmabuf_mr_compare mr_key entry (mr_cache gd) with
      | None => do_gpu (GDeregMr mr) ;;; ret (Err EEXIST, gd)
      | Some c => ret (Ok entry, with_cache c gd)
      end
  end.

Definition gpu_dmabuf_register_mr (gd : gpu_dmabuf_domain) (device pd addr len : Z)
  : gio (gres gpu_dmabuf_mr * gpu_dmabuf_domain) :=
  match gpu_dmabuf_find_overlapping_mr gd device pd addr len with
  | Some _ => ret (Err EEXIST, gd)
  | None =>
      let! ok := do_calloc in
      if negb ok then ret (Err ENOMEM, gd)
      else
        let! c := gpu_dmabuf_get_cuda_ctx gd device in
        let gd := c.2 in
        match c.1 with
        | Err e => ret (Err e, gd)
        | Ok ctx =>
            let! prev := gpu_dmabuf_set_cuda_ctx ctx in
            match prev with
            | Err e => ret (Err e, gd)
            | Ok p =>
                let! exported := export_range addr len p in
                match exported with
                | Err e => ret (Err e, gd)
                | Ok (fd, offset) => register_exported gd device pd addr len fd offset
                end
            end
        end
  end.

(** From the point where [gpu_dmabuf_domain_find] has returned [gd]. *)
Definition spdk_gpu_dmabuf_memory_domain_register (gd : gpu_dmabuf_domain) (dst : rdma_domain)
    (addr len : Z) : gio (gres unit * gpu_dmabuf_domain) :=
  if (addr =? 0) || (len =? 0) then ret (Err EINVAL, gd)
  else
    match gpu_dmabuf_get_rdma_pd dst with
    | Err e => ret (Err e, gd)
    | Ok pd =>
        let! device := gpu_dmabuf_get_ptr_device_id gd addr in
        match device with
        | Err e => ret (Err e, gd)
        | Ok d =>
            let! added := gpu_dmabuf_add_region gd addr len d in
            let gd := added.2 in
            match added.1 with
            | Err e => ret (Err e, gd)
            | Ok region =>
                match gpu_dmabuf_find_mr gd (r_device region) pd (r_addr region) (r_len region) with
                | Some _ => ret (Ok tt, gd)
                | None =>
                    let! r := gpu_dmabuf_register_mr gd (r_device region) pd (r_addr region)
                                (r_len region) in
                    ret (result_map (λ _, tt) r.1, r.2)
                end
            end
        end
    end.

Definition translation (addr len : Z) (e : gpu_dmabuf_mr) : translation_result :=
  MkTranslation addr len (mr_lkey (m_mr e)) (mr_rkey (m_mr e)).

Definition gpu_dmabuf_translate (gd : gpu_dmabuf_domain) (dst : rdma_domain) (addr len : Z)
  : gio (gres translation_result * gpu_dmabuf_domain) :=
  match gpu_dmabuf_get_rdma_pd dst with
  | Err e => ret (Err e, gd)
  | Ok pd =>
      match gpu_dmabuf_find_region gd addr len with
      | None => ret (Err EINVAL, gd)
      | Some region =>
          match gpu_dmabuf_find_mr gd (r_device region) pd addr len with
          | Some e => ret (Ok (translation addr len e), gd)
          | None =>
              let! r := gpu_dmabuf_register_mr gd (r_device region) pd (r_addr region)
                          (r_len region) in
              ret (result_map (translation addr len) r.1, r.2)
          end
      end
  end.

(** ** Invalidation *)

Definition gpu_dmabuf_dereg_mr (e : gpu_dmabuf_mr) : gio unit := do_gpu (GDeregMr (m_mr e)).

Definition gpu_dmabuf_invalidate_range (gd : gpu_dmabuf_domain) (addr len : Z)
  : gio gpu_dmabuf_domain :=
  if (addr =? 0) || (len =? 0) then ret gd
  else
    mmap gpu_dmabuf_dereg_mr
      (List.filter (λ e, gpu_dmabuf_range_overlaps e addr len) (mr_cache gd)) ;;;
    ret (with_regions (List.filter (λ r, negb (gpu_dmabuf_region_overlaps r addr len))
                         (gd_regions gd))
           (with_cache (List.filter (λ e, negb (gpu_dmabuf_range_overlaps e addr len))
                          (mr_cache gd)) gd)).

(** ** Creation and destruction *)

Definition get_opts : gpu_dmabuf_opts := MkOpts None (-1) 0 gpu_dmabuf_default_access_flags.

(** [opts] with the fields its [size] covers; [None] is [NULL]. *)
Definition merge_opts (opts : option (gpu_dmabuf_opts * opts_fields)) : gpu_dmabuf_opts :=
  match opts with
  | None => get_opts
  | Some (o, f) =>
      MkOpts (if has_id f then opt_id o else opt_id get_opts)
        (if has_device f then opt_cuda_device_id o else opt_cuda_device_id get_opts)
        (if has_context f then opt_cuda_context o else opt_cuda_context get_opts)
        (if has_flags f && negb (opt_rdma_access_flags o =? 0)
         then opt_rdma_access_flags o else opt_rdma_access_flags get_opts)
  end.

(** The context of a new domain: the one given, or the primary context of the
    given device; the flag is [owns_cuda_ctx]. *)
Definition create_ctx (o : gpu_dmabuf_opts) : gio (gres (Z * bool)) :=
  if (opt_cuda_context o =? 0) && (0 <=? opt_cuda_device_id o) then
    let! dev := call (λ h, g_device_get h (opt_cuda_device_id o)) (GDeviceGet (opt_cuda_device_id o)) in
    match dev with
    | None => ret (Err ENODEV)
    | Some d =>
        let! ctx := call (λ h, g_ctx_retain h d) (GPrimaryCtxRetain d) in
        ret (match ctx with None => Err ENODEV | Some c => Ok (c, true) end)
    end
  else ret (Ok (opt_cuda_context o, false)).

(** [size_zero]: the caller's [opts->size] is 0. *)
Definition spdk_gpu_dmabuf_memory_domain_create
    (opts : option (gpu_dmabuf_opts * opts_fields)) (size_zero : bool)
  : gio (gres gpu_dmabuf_domain) :=
  if (match opts with Some _ => size_zero | None => false end) then ret (Err EINVAL)
  else
    let o := merge_opts opts in
    if opt_cuda_device_id o <? -1 then ret (Err EINVAL)
    else
      let! ok := do_calloc in
      if negb ok then ret (Err ENOMEM)
      else
        let! ok := call g_init GInit in
        if negb ok then ret (Err ENODEV)
        else
          let! c := create_ctx o in
          match c with
          | Err e => ret (Err e)
          | Ok (ctx, owns) =>
              let id := match opt_id o with Some id => id | None => default_id end in
              let! created := call (λ h, g_domain_create h id) (GDomainCreate id) in
              match created with
              | Err e =>
                  (if owns then do_gpu (GPrimaryCtxRelease (opt_cuda_device_id o)) else ret tt) ;;;
                  ret (Err e)
              | Ok domain =>
                  ret (Ok (MkDomain domain [] [] [] (opt_cuda_device_id o) ctx owns
                             (opt_rdma_access_flags o)))
              end
          end.

Definition gpu_dmabuf_release_cuda_ctxs (gd : gpu_dmabuf_domain) : gio (list unit) :=
  mmap (λ c : Z * Z, do_gpu (GPrimaryCtxRelease c.1)) (cuda_ctxs gd).

Definition spdk_gpu_dmabuf_memory_domain_destroy (gd : gpu_dmabuf_domain) : gio unit :=
  mmap gpu_dmabuf_dereg_mr (mr_cache gd) ;;;
  do_gpu (GDomainDestroy (gd_domain gd)) ;;;
  (if owns_cuda_ctx gd then do_gpu (GPrimaryCtxRelease (cuda_device_id gd)) else ret tt) ;;;
  gpu_dmabuf_release_cuda_ctxs gd ;;;
  ret tt.
End Domain.

(** ** The global list of domains *)

Definition gpu_dmabuf_domain_find (domain : Z) (domains : list gpu_dmabuf_domain)
  : option gpu_dmabuf_domain :=
  List.find (λ gd, gd_domain gd =? domain) domains.

(** Run an operation on a domain of the list; an unknown domain is [-EINVAL]. *)
Fixpoint on_domain {A} (domain : Z) (domains : list gpu_dmabuf_domain)
    (f : gpu_dmabuf_domain → gio (gres A * gpu_dmabuf_domain))
  : gio (gres A * list gpu_dmabuf_domain) :=
  match domains with
  | [] => ret (Err EINVAL, [])
  | gd :: domains' =>
      if gd_domain gd =? domain
      then let! r := f gd in ret (r.1, r.2 :: domains')
      else let! r := on_domain domain domains' f in ret (r.1, gd :: r.2)
  end.

(** The entry points on the list of domains. *)
Section Api.
Context `{!GpuApi}.

Definition register_in (domains : list gpu_dmabuf_domain) (domain : Z) (dst : rdma_domain)
    (addr len : Z) : gio (gres unit * list gpu_dmabuf_domain) :=
  on_domain domain domains (λ gd, spdk_gpu_dmabuf_memory_domain_register gd dst addr len).

Definition translate_in (domains : list gpu_dmabuf_domain) (domain : Z) (dst : rdma_domain)
    (addr len : Z) : gio (gres translation_result * list gpu_dmabuf_domain) :=
  on_domain domain domains (λ gd, gpu_dmabuf_translate gd dst addr len).

Definition invalidate_in (domains : list gpu_dmabuf_domain) (domain addr len : Z)
  : gio (list gpu_dmabuf_domain) :=
  let! r := on_domain domain domains
              (λ gd, let! gd' := gpu_dmabuf_invalidate_range gd addr len in ret (Ok tt, gd')) in
  ret r.2.

(** [TAILQ_REMOVE] of the entry that was found. *)
Fixpoint remove_domain (domain : Z) (domains : list gpu_dmabuf_domain) : list gpu_dmabuf_domain :=
  match domains with
  | [] => []
  | gd :: domains' =>
      if gd_domain gd =? domain then domains' else gd :: remove_domain domain domains'
  end.

Definition destroy_in (domains : list gpu_dmabuf_domain) (domain : Z)
  : gio (list gpu_dmabuf_domain) :=
  match gpu_dmabuf_domain_find domain domains with
  | None => ret domains
  | Some gd => spdk_gpu_dmabuf_memory_domain_destroy gd ;;; ret (remove_domain domain domains)
  end.
End Api.
