(* ===== verification/GpuDmabufSpec.v ===== *)
(** * What the GPU dma-buf memory domain guarantees

    Lookup in the two trees, translation, registration, invalidation, and the
    accounting of memory regions, file descriptors and contexts. *)

From S2P Require Import Prelude CxxString Accounting RdmaContext GpuDmabuf.
From stdpp Require Import base strings list sets gmap sorting.
From Stdlib Require Import ZArith Lia.

#[local] Open Scope Z_scope.
#[local] Set Default Proof Using "Type".

(** ** Ranges *)

(** A non-empty range whose end does not wrap. *)
Definition fits (addr len : Z) : Prop := 0 <= addr ∧ 0 < len ∧ addr + len < u64_modulus.

Lemma fits_end addr len : fits addr len → u64_add addr len = addr + len.
Proof. intros (?&?&?). apply Z.mod_small. lia. Qed.

Lemma range_contains_iff s m a n :
  fits s m → fits a n → range_contains s m a n = true ↔ s <= a ∧ a + n <= s + m.
Proof.
  intros Hs Ha. unfold range_contains. rewrite !fits_end by done.
  destruct Ha as (?&?&?). rewrite !andb_true_iff, !Z.leb_le. lia.
Qed.

Lemma range_overlaps_iff s m a n :
  fits s m → fits a n → range_overlaps s m a n = true ↔ s < a + n ∧ a < s + m.
Proof.
  intros Hs Ha. unfold range_overlaps. rewrite !fits_end by done.
  destruct Hs as (?&?&?), Ha as (?&?&?). rewrite !andb_true_iff, !Z.ltb_lt. lia.
Qed.

(** ** Trees *)

Section Tree.
Context {K V : Type} (compare : K → K → comparison) (key : V → K).

(** A total order. *)
Class TotalCompare := {
  compare_eq : ∀ a b, compare a b = Eq ↔ a = b;
  compare_anti : ∀ a b, compare a b = CompOpp (compare b a);
  compare_trans : ∀ a b c, compare a b = Lt → compare b c = Lt → compare a c = Lt }.
Context {total : TotalCompare}.
#[local] Set Default Proof Using "All".

Definition tree_wf : list V → Prop := StronglySorted (λ a b, compare (key a) (key b) = Lt).

Lemma rb_insert_elem v t t' : rb_insert compare key v t = Some t' → t' ≡ₚ v :: t.
Proof.
  revert t'. induction t as [|w t IH]; intros t'; cbn; [by intros [= <-]|].
  destruct (compare _ _); try done; [by intros [= <-]|].
  destruct (rb_insert _ _ _ t) eqn:E; [|done]. intros [= <-]. rewrite (IH _ eq_refl). constructor.
Qed.

Lemma rb_insert_wf v t t' : rb_insert compare key v t = Some t' → tree_wf t → tree_wf t'.
Proof.
  intros Hins Hwf. revert t' Hins. induction Hwf as [|w t Hs IH Hlt]; intros t'; cbn.
  { intros [= <-]. repeat constructor. }
  rewrite Forall_forall in Hlt. destruct (compare (key v) (key w)) eqn:E; try done.
  - intros [= <-]. constructor; [constructor; [done|by apply Forall_forall]|].
    constructor; [done|]. apply Forall_forall. intros x Hx. eapply compare_trans; eauto.
  - destruct (rb_insert _ _ _ t) as [t''|] eqn:E'; [|done]. intros [= <-].
    constructor; [by apply IH|]. apply Forall_forall. intros x.
    rewrite (rb_insert_elem _ _ _ E'), elem_of_cons. intros [->|Hx]; [|by apply Hlt].
    rewrite compare_anti, E. done.
Qed.

Lemma rb_insert_some v t : (∀ w, w ∈ t → key w ≠ key v) → is_Some (rb_insert compare key v t).
Proof.
  induction t as [|w t IH]; intros Hne; cbn; [by eexists|].
  destruct (compare (key v) (key w)) eqn:E; [|by eexists|].
  - apply compare_eq in E. destruct (Hne w); [by left|done].
  - destruct IH as [t' ->]; [|by eexists]. intros x Hx. apply Hne. by right.
Qed.

Lemma below_elem k t v : v ∈ below compare key k t → v ∈ t ∧ compare (key v) k = Lt.
Proof.
  induction t as [|w t IH]; cbn; [set_solver|].
  destruct (compare (key w) k) eqn:E; [by intros []%not_elem_of_nil| |by intros []%not_elem_of_nil].
  intros [->|Hv]%elem_of_cons; [split; [by left|done]|].
  destruct (IH Hv). split; [by right|done].
Qed.

Lemma below_complete k t v :
  tree_wf t → v ∈ t → compare (key v) k = Lt → v ∈ below compare key k t.
Proof.
  induction 1 as [|w t Hs IH Hlt]; intros Hv Hk; [done|]. cbn. rewrite Forall_forall in Hlt.
  apply elem_of_cons in Hv as [->|Hv].
  - rewrite Hk. by left.
  - rewrite (compare_trans _ _ _ (Hlt _ Hv) Hk). right. auto.
Qed.

Lemma below_wf k t : tree_wf t → tree_wf (below compare key k t).
Proof.
  induction 1 as [|w t Hs IH Hlt]; cbn; [constructor|]. destruct (compare (key w) k);
    try constructor; [done|]. rewrite Forall_forall in *. intros x [Hx _]%below_elem. auto.
Qed.

(** The entry before [k] is the greatest one less than [k]. *)
Lemma rb_prev_greatest k t v :
  tree_wf t → v ∈ t → compare (key v) k = Lt →
  ∃ p, rb_prev compare key k t = Some p ∧ (v = p ∨ compare (key v) (key p) = Lt).
Proof.
  intros Hwf Hv Hk. pose proof (below_complete _ _ _ Hwf Hv Hk) as Hin.
  pose proof (below_wf k t Hwf) as Hb. unfold rb_prev.
  induction Hb as [|w l Hs IH Hlt]; [set_solver|]. rewrite Forall_forall in Hlt.
  destruct l as [|w' l].
  - exists w. split; [done|]. left. set_solver.
  - rewrite last_cons_cons. apply elem_of_cons in Hin as [->|Hin]; [|by apply IH].
    destruct (last (w' :: l)) as [p|] eqn:E; [|by apply last_None in E].
    exists p. split; [done|]. right. apply Hlt. by apply last_Some_elem_of.
Qed.

Lemma rb_prev_elem k t p :
  rb_prev compare key k t = Some p → p ∈ t ∧ compare (key p) k = Lt.
Proof. intros Hp%last_Some_elem_of. by apply below_elem. Qed.

Lemma rb_nfind_elem k t v :
  rb_nfind compare key k t = Some v → v ∈ t ∧ compare (key v) k ≠ Lt.
Proof.
  induction t as [|w t IH]; cbn; [done|]. destruct (compare (key w) k) eqn:E.
  - intros [= <-]. split; [by left|congruence].
  - intros Hv. destruct (IH Hv). split; [by right|done].
  - intros [= <-]. split; [by left|congruence].
Qed.

(** The entry at or after [k] is the least one not less than [k]. *)
Lemma rb_nfind_least k t v :
  tree_wf t → v ∈ t → compare (key v) k ≠ Lt →
  ∃ n, rb_nfind compare key k t = Some n ∧ (v = n ∨ compare (key n) (key v) = Lt).
Proof.
  induction 1 as [|w t Hs IH Hlt]; intros Hv Hk; [set_solver|]. cbn. rewrite Forall_forall in Hlt.
  apply elem_of_cons in Hv as [->|Hv].
  - destruct (compare (key w) k) eqn:E; [|done|]; exists w; auto.
  - destruct (compare (key w) k) eqn:E; [|by apply IH|]; exists w; auto.
Qed.

Lemma find_near_elem k p t v : find_near compare key k p t = Some v → v ∈ t ∧ p v = true.
Proof.
  unfold find_near, checked. destruct (rb_nfind _ _ k t) as [n|] eqn:E.
  - destruct (p n) eqn:Hp.
    + intros [= <-]. split; [by apply rb_nfind_elem in E as []|done].
    + destruct (rb_prev _ _ k t) as [q|] eqn:E'; [|done]. destruct (p q) eqn:Hq; [|done].
      intros [= <-]. split; [by apply rb_prev_elem in E' as []|done].
  - destruct (rb_prev _ _ k t) as [q|] eqn:E'; [|done]. destruct (p q) eqn:Hq; [|done].
    intros [= <-]. split; [by apply rb_prev_elem in E' as []|done].
Qed.

(** The two neighbours of [k] suffice for [p] when every entry that satisfies
    [p] makes one of them satisfy it. *)
Lemma find_near_complete k p t v :
  tree_wf t → v ∈ t → p v = true →
  (∀ n, n ∈ t → compare (key v) k ≠ Lt → compare (key n) k ≠ Lt →
        compare (key n) (key v) = Lt → p n = true) →
  (∀ q, q ∈ t → compare (key v) (key q) = Lt → compare (key q) k = Lt → p q = true) →
  is_Some (find_near compare key k p t).
Proof.
  intros Hwf Hv Hp Hafter Hbefore. unfold find_near.
  destruct (decide (compare (key v) k = Lt)) as [Hlt|Hge].
  - destruct (checked p (rb_nfind _ _ k t)); [by eexists|].
    destruct (rb_prev_greatest _ _ _ Hwf Hv Hlt) as (q & Hprev & Hq). rewrite Hprev. cbn.
    apply rb_prev_elem in Hprev as [Hin Hqk].
    replace (p q) with true; [by eexists|]. destruct Hq as [->|Hq]; [done|].
    symmetry. by apply Hbefore.
  - destruct (rb_nfind_least _ _ _ Hwf Hv Hge) as (n & Hn & Hnv). rewrite Hn. cbn.
    apply rb_nfind_elem in Hn as [Hin Hnk].
    replace (p n) with true; [by eexists|]. destruct Hnv as [->|Hnv]; [done|].
    symmetry. by apply Hafter.
Qed.
End Tree.

#[local] Set Default Proof Using "Type".

#[export] Instance region_compare_total : TotalCompare gpu_dmabuf_region_compare.
Proof.
  unfold gpu_dmabuf_region_compare. split; intros a b.
  - apply Z.compare_eq_iff.
  - apply Z.compare_antisym.
  - intros c. rewrite !Z.compare_lt_iff. lia.
Qed.

#[export] Instance mr_compare_total : TotalCompare gpu_dmabuf_mr_compare.
Proof.
  split.
  - intros [[d1 p1] a1] [[d2 p2] a2]. cbn.
    destruct (Z.compare_spec d1 d2), (Z.compare_spec p1 p2), (Z.compare_spec a1 a2);
      split; intros E; simplify_eq; try done; lia.
  - intros [[d1 p1] a1] [[d2 p2] a2]. cbn.
    rewrite (Z.compare_antisym d2 d1), (Z.compare_antisym p2 p1), (Z.compare_antisym a2 a1).
    by destruct (d2 ?= d1), (p2 ?= p1), (a2 ?= a1).
  - intros [[d1 p1] a1] [[d2 p2] a2] [[d3 p3] a3]. cbn.
    destruct (Z.compare_spec d1 d2), (Z.compare_spec d2 d3), (Z.compare_spec d1 d3); try done; try lia;
    destruct (Z.compare_spec p1 p2), (Z.compare_spec p2 p3), (Z.compare_spec p1 p3); try done; try lia;
    rewrite ?Z.compare_lt_iff; try done; lia.
Qed.

(** ** The invariant of a domain *)

(** Registered ranges are sorted, fit into the address space and are disjoint;
    every cached memory region is the export of one registered range. *)
Record gd_inv (gd : gpu_dmabuf_domain) : Prop := {
  inv_regions : tree_wf gpu_dmabuf_region_compare r_addr (gd_regions gd);
  inv_fits : ∀ r, r ∈ gd_regions gd → fits (r_addr r) (r_len r);
  inv_disjoint : ∀ r1 r2, r1 ∈ gd_regions gd → r2 ∈ gd_regions gd →
    r_addr r1 < r_addr r2 → r_addr r1 + r_len r1 <= r_addr r2;
  inv_cache : tree_wf gpu_dmabuf_mr_compare mr_key (mr_cache gd);
  inv_exported : ∀ e, e ∈ mr_cache gd →
    MkRegion (m_addr e) (m_len e) (m_device e) ∈ gd_regions gd }.

(** [a..a+n] lies in / meets [s..s+m]. *)
Definition inside (s m a n : Z) : Prop := s <= a ∧ a + n <= s + m.
Definition meets (s m a n : Z) : Prop := s < a + n ∧ a < s + m.

Section Lookup.
Context (gd : gpu_dmabuf_domain) (Hinv : gd_inv gd).
#[local] Set Default Proof Using "All".

Lemma region_key_inj r1 r2 :
  r1 ∈ gd_regions gd → r2 ∈ gd_regions gd → r_addr r1 = r_addr r2 → r1 = r2.
Proof.
  pose proof (inv_regions _ Hinv) as Hs. clear Hinv.
  induction Hs as [|r rs Hs IH Hlt]; [set_solver|]. rewrite Forall_forall in Hlt.
  unfold gpu_dmabuf_region_compare in *. setoid_rewrite Z.compare_lt_iff in Hlt.
  intros [->|H1]%elem_of_cons [->|H2]%elem_of_cons Heq; [done| | |by apply IH].
  - apply Hlt in H2. lia.
  - apply Hlt in H1. lia.
Qed.

Lemma regions_meet_once r1 r2 :
  r1 ∈ gd_regions gd → r2 ∈ gd_regions gd →
  meets (r_addr r1) (r_len r1) (r_addr r2) (r_len r2) → r1 = r2.
Proof.
  intros H1 H2 [Hm1 Hm2]. apply region_key_inj; [done..|].
  destruct (Z.lt_trichotomy (r_addr r1) (r_addr r2)) as [Hlt|[?|Hlt]]; [|done|].
  - pose proof (inv_disjoint _ Hinv _ _ H1 H2 Hlt). lia.
  - pose proof (inv_disjoint _ Hinv _ _ H2 H1 Hlt). lia.
Qed.

Lemma find_region_inside a n r :
  fits a n → r ∈ gd_regions gd → inside (r_addr r) (r_len r) a n →
  gpu_dmabuf_find_region gd a n = Some r.
Proof.
  intros Hf Hr Hin. pose proof (inv_fits _ Hinv _ Hr) as Hfr.
  assert (is_Some (gpu_dmabuf_find_region gd a n)) as [w Hw].
  { apply find_near_complete with (v := r); [apply _|apply Hinv|done| | |].
    - by apply range_contains_iff.
    - unfold gpu_dmabuf_region_compare. intros q Hq.
      rewrite !Z.compare_lt_iff. intros. destruct Hin. lia.
    - unfold gpu_dmabuf_region_compare. intros q Hq. rewrite !Z.compare_lt_iff. intros H1 H2.
      pose proof (inv_disjoint _ Hinv _ _ Hr Hq H1). destruct Hin, Hf. lia. }
  rewrite Hw. f_equal. apply find_near_elem in Hw as [Hin' Hc]; [|apply _].
  apply range_contains_iff in Hc; [|by apply Hinv|done].
  apply regions_meet_once; [done..|]. destruct Hin, Hf as (?&?&?). split; lia.
Qed.

Lemma find_region_sound a n r :
  fits a n → gpu_dmabuf_find_region gd a n = Some r →
  r ∈ gd_regions gd ∧ inside (r_addr r) (r_len r) a n.
Proof.
  intros Hf [Hr Hc]%find_near_elem; [|apply _]. split; [done|].
  apply range_contains_iff in Hc; [done|by apply Hinv|done].
Qed.

Lemma no_overlapping_region a n r :
  fits a n → gpu_dmabuf_find_overlapping_region gd a n = None →
  r ∈ gd_regions gd → ¬ meets (r_addr r) (r_len r) a n.
Proof.
  intros Hf Hnone Hr Hm. pose proof (inv_fits _ Hinv _ Hr) as Hfr.
  assert (is_Some (gpu_dmabuf_find_overlapping_region gd a n)) as [w Hw]; [|congruence].
  apply find_near_complete with (v := r); [apply _|apply Hinv|done| | |].
  - by apply range_overlaps_iff.
  - unfold gpu_dmabuf_region_compare. intros q Hq. rewrite !Z.compare_lt_iff. intros H1 H2 H3.
    pose proof (inv_fits _ Hinv _ Hq) as Hfq. apply range_overlaps_iff; [done..|].
    destruct Hm, Hfq as (?&?&?). lia.
  - unfold gpu_dmabuf_region_compare. intros q Hq. rewrite !Z.compare_lt_iff. intros H1 H2.
    pose proof (inv_disjoint _ Hinv _ _ Hr Hq H1). destruct Hm. lia.
Qed.

(** Memory regions of one device and protection domain. *)
Lemma mr_key_inj e1 e2 : e1 ∈ mr_cache gd → e2 ∈ mr_cache gd → mr_key e1 = mr_key e2 → e1 = e2.
Proof.
  pose proof (inv_cache _ Hinv) as Hs. clear Hinv.
  induction Hs as [|r rs Hs IH Hlt]; [set_solver|]. rewrite Forall_forall in Hlt.
  assert (∀ x, x ∈ rs → mr_key r ≠ mr_key x) as Hne.
  { intros x Hx Heq. specialize (Hlt _ Hx). rewrite Heq in Hlt.
    by rewrite (proj2 (compare_eq gpu_dmabuf_mr_compare _ _) eq_refl) in Hlt. }
  intros [->|H1]%elem_of_cons [->|H2]%elem_of_cons Heq; [done| | |by apply IH].
  - by destruct (Hne _ H2).
  - by destruct (Hne _ H1).
Qed.

Lemma mr_fits e : e ∈ mr_cache gd → fits (m_addr e) (m_len e).
Proof. intros He. apply (inv_fits _ Hinv (MkRegion _ _ _) (inv_exported _ Hinv _ He)). Qed.

Lemma mr_lt_disjoint e1 e2 :
  e1 ∈ mr_cache gd → e2 ∈ mr_cache gd → m_addr e1 < m_addr e2 →
  m_addr e1 + m_len e1 <= m_addr e2.
Proof.
  intros H1 H2 Hlt. apply (inv_disjoint _ Hinv _ _ (inv_exported _ Hinv _ H1)
    (inv_exported _ Hinv _ H2) Hlt).
Qed.

Lemma find_mr_inside d p a n e :
  fits a n → e ∈ mr_cache gd → m_device e = d → m_pd e = p →
  inside (m_addr e) (m_len e) a n → gpu_dmabuf_find_mr gd d p a n = Some e.
Proof.
  intros Hf He Hd Hp Hin. pose proof (mr_fits _ He) as Hfe.
  assert (mr_for d p (λ e, gpu_dmabuf_range_contains e a n) e = true) as Hpe.
  { unfold mr_for. rewrite Hd, Hp, !Z.eqb_refl. by apply range_contains_iff. }
  assert (is_Some (gpu_dmabuf_find_mr gd d p a n)) as [w Hw].
  { apply find_near_complete with (v := e); [apply _|apply Hinv|done|done| |].
    - intros q Hq Hge Hqk Hqe. destruct Hqk.
      replace (d, p, a) with (mr_key e); [done|]. unfold mr_key. subst. f_equal.
      unfold mr_key in Hge. cbn in Hge. rewrite !Z.compare_refl in Hge.
      destruct Hin. rewrite Z.compare_lt_iff in Hge. lia.
    - intros q Hq. unfold mr_key. cbn. subst. intros H1 H2.
      destruct (Z.compare_spec (m_device e) (m_device q)),
        (Z.compare_spec (m_device q) (m_device e)); try done; try lia.
      destruct (Z.compare_spec (m_pd e) (m_pd q)),
        (Z.compare_spec (m_pd q) (m_pd e)); try done; try lia.
      rewrite Z.compare_lt_iff in H1, H2. pose proof (mr_lt_disjoint _ _ He Hq H1).
      destruct Hin, Hf. lia. }
  rewrite Hw. f_equal. apply find_near_elem in Hw as [Hin' Hc]; [|apply _].
  unfold mr_for in Hc. apply andb_true_iff in Hc as [[Hcd Hcp]%andb_true_iff Hc].
  apply Z.eqb_eq in Hcd, Hcp. apply range_contains_iff in Hc; [|by apply mr_fits|done].
  apply mr_key_inj; [done..|]. unfold mr_key. rewrite Hcd, Hcp, Hd, Hp. f_equal.
  destruct (Z.lt_trichotomy (m_addr e) (m_addr w)) as [Hlt|[?|Hlt]]; [|done|].
  - pose proof (mr_lt_disjoint _ _ He Hin' Hlt). destruct Hin, Hf. lia.
  - pose proof (mr_lt_disjoint _ _ Hin' He Hlt). destruct Hin, Hf. lia.
Qed.

Lemma find_mr_sound d p a n e :
  fits a n → gpu_dmabuf_find_mr gd d p a n = Some e →
  e ∈ mr_cache gd ∧ m_device e = d ∧ m_pd e = p ∧ inside (m_addr e) (m_len e) a n.
Proof.
  intros Hf [He Hc]%find_near_elem; [|apply _].
  unfold mr_for in Hc. apply andb_true_iff in Hc as [[Hcd Hcp]%andb_true_iff Hc].
  apply Z.eqb_eq in Hcd, Hcp. apply range_contains_iff in Hc; [done|by apply mr_fits|done].
Qed.
End Lookup.

#[local] Set Default Proof Using "Type".

(** ** Resources *)

Inductive gpu_resource :=
| GMr (mr : ibv_mr) | GFd (fd : Z) | GCtx (device : Z) | GDomain (domain : Z).

#[export] Instance gpu_resource_eq_dec : EqDecision gpu_resource.
Proof. solve_decision. Defined.

Definition gpu_acquires (e : gpu_event) : list gpu_resource :=
  match e with
  | GRegDmabufMr _ _ _ _ _ _ r _ => of_option GMr r
  | GExport _ _ r => of_option GFd r
  | GPrimaryCtxRetain dev r => of_option (λ _, GCtx dev) r
  | GDomainCreate _ (Ok d) => [GDomain d]
  | _ => []
  end.

(** The release calls of this file have no result the code looks at. *)
Definition gpu_release_of (e : gpu_event) : option (gpu_resource * Z) :=
  match e with
  | GDeregMr mr => Some (GMr mr, 0)
  | GCloseFd fd => Some (GFd fd, 0)
  | GPrimaryCtxRelease id => Some (GCtx id, 0)
  | GDomainDestroy d => Some (GDomain d, 0)
  | _ => None
  end.

#[export] Instance gpu_resources : Resources gpu_event gpu_resource := {|
  acquires := gpu_acquires;
  release_of := gpu_release_of |}.

(** ** Operations *)

Section Operations.
Context `{!GpuApi}.

Lemma get_cuda_ctx_frame gd d :
  returns (gpu_dmabuf_get_cuda_ctx gd d)
    (λ r, gd_regions r.2 = gd_regions gd ∧ mr_cache r.2 = mr_cache gd).
Proof. unfold gpu_dmabuf_get_cuda_ctx. frame_run. Qed.

Lemma inv_frame gd gd' :
  gd_regions gd' = gd_regions gd → mr_cache gd' = mr_cache gd → gd_inv gd → gd_inv gd'.
Proof. intros Hr Hc []. by split; rewrite ?Hr, ?Hc. Qed.

(** What a registration of a memory region leaves behind. *)
Definition registered_mr (gd : gpu_dmabuf_domain) (d p a n : Z)
    (r : gres gpu_dmabuf_mr * gpu_dmabuf_domain) : Prop :=
  gd_inv r.2 ∧ gd_regions r.2 = gd_regions gd ∧ mr_cache gd ⊆ mr_cache r.2 ∧
  ∀ e, r.1 = Ok e → e ∈ mr_cache r.2 ∧ m_device e = d ∧ m_pd e = p ∧ m_addr e = a ∧ m_len e = n.

Lemma register_exported_sound gd d p a n fd off :
  gd_inv gd → MkRegion a n d ∈ gd_regions gd →
  returns (register_exported gd d p a n fd off) (registered_mr gd d p a n).
Proof.
  intros Hinv Hr. apply returns_bind. intros [[mr|] err]; cbn; apply returns_bind; intros ?.
  2:{ by apply returns_ret. }
  destruct (rb_insert _ _ _ (mr_cache gd)) as [c|] eqn:E.
  2:{ apply returns_bind. intros ?. by apply returns_ret. }
  apply returns_ret. pose proof (rb_insert_elem _ _ _ _ _ E) as Hperm.
  split_and!; cbn; [|done|intros x; rewrite Hperm; set_solver|].
  - split; cbn; try apply Hinv.
    + eapply rb_insert_wf; [apply _|done|apply Hinv].
    + intros e. rewrite Hperm, elem_of_cons. intros [->|He]; [done|by apply Hinv].
  - intros e [= <-]. rewrite Hperm. split_and!; [by left|done..].
Qed.

Lemma register_mr_sound gd d p a n :
  gd_inv gd → MkRegion a n d ∈ gd_regions gd →
  returns (gpu_dmabuf_register_mr gd d p a n) (registered_mr gd d p a n).
Proof.
  intros Hinv Hr. unfold gpu_dmabuf_register_mr. case_match; [by apply returns_ret|].
  apply returns_bind. intros ok. case_match; [by apply returns_ret|].
  eapply returns_seq; [apply get_cuda_ctx_frame|]. intros [c gd'] [Hreg Hcache]. cbn in *.
  pose proof (inv_frame _ _ Hreg Hcache Hinv) as Hinv'.
  assert (∀ x : gerr, registered_mr gd d p a n (Err x, gd')) as Herr.
  { intros x. split_and!; cbn; [done|done|by rewrite Hcache|done]. }
  destruct c; [|by apply returns_ret]. apply returns_bind. intros [prev|]; [|by apply returns_ret].
  apply returns_bind. intros [[fd off]|]; [|by apply returns_ret].
  intros h v evs Hrun. apply register_exported_sound in Hrun as (Hi & Hrs & Hc & He);
    [|done|by rewrite Hreg]. split_and!; [done|by rewrite Hrs|by rewrite <- Hcache|done].
Qed.

Lemma add_region_sound gd a n d :
  gd_inv gd → fits a n →
  returns (gpu_dmabuf_add_region gd a n d)
    (λ r, gd_inv r.2 ∧ mr_cache r.2 = mr_cache gd ∧ gd_regions gd ⊆ gd_regions r.2 ∧
       ∀ region, r.1 = Ok region → region ∈ gd_regions r.2 ∧ r_device region = d ∧
         inside (r_addr region) (r_len region) a n).
Proof.
  intros Hinv Hf. unfold gpu_dmabuf_add_region.
  destruct (gpu_dmabuf_find_region gd a n) as [region|] eqn:Hfind.
  { apply find_region_sound in Hfind as [Hr Hin]; [|done..]. apply returns_ret.
    split_and!; [done..|]. intros region'. cbn. case_match eqn:E; [done|]. intros [= <-].
    apply negb_false_iff, Z.eqb_eq in E. done. }
  destruct (gpu_dmabuf_find_overlapping_region gd a n) eqn:Hover; [by apply returns_ret|].
  apply returns_bind. intros ok. case_match; [by apply returns_ret|].
  destruct (rb_insert _ _ _ (gd_regions gd)) as [rs|] eqn:E; [|by apply returns_ret].
  apply returns_ret. pose proof (rb_insert_elem _ _ _ _ _ E) as Hperm.
  assert (∀ r, r ∈ gd_regions gd → ¬ meets (r_addr r) (r_len r) a n) as Hno
    by (intros r; by apply no_overlapping_region).
  split_and!; cbn; [|done|intros x; rewrite Hperm; set_solver|].
  - split; cbn; try apply Hinv.
    + eapply rb_insert_wf; [apply _|done|apply Hinv].
    + intros r. rewrite Hperm, elem_of_cons. intros [->|Hr]; [done|by apply Hinv].
    + intros r1 r2. rewrite Hperm, !elem_of_cons.
      intros [->|Hr1] [->|Hr2] Hlt; cbn in *; [lia| | |by apply Hinv].
      * specialize (Hno _ Hr2). destruct (inv_fits _ Hinv _ Hr2) as (?&?&?). unfold meets in Hno. lia.
      * specialize (Hno _ Hr1). destruct (inv_fits _ Hinv _ Hr1) as (?&?&?).
        destruct Hf as (?&?&?). unfold meets in Hno. lia.
    + intros e He. rewrite Hperm. right. by apply Hinv.
  - intros region [= <-]. rewrite Hperm. split_and!; [by left|done|]. unfold inside. cbn. lia.
Qed.

Lemma get_rdma_pd_ok dst pd : gpu_dmabuf_get_rdma_pd dst = Ok pd → pd = ibv_pd dst.
Proof. unfold gpu_dmabuf_get_rdma_pd. repeat case_match; congruence. Qed.

Lemma translate_correct gd dst a n h r gd' evs :
  gpu_dmabuf_translate gd dst a n h = ((r, gd'), evs) → gd_inv gd → fits a n →
  gd_inv gd' ∧
  ∀ t, r = Ok t → ∃ e, e ∈ mr_cache gd' ∧ t = translation a n e ∧
    m_pd e = ibv_pd dst ∧ m_addr e <= a ∧ a + n <= m_addr e + m_len e.
Proof.
  intros Hrun Hinv Hf. unfold gpu_dmabuf_translate in Hrun.
  destruct (gpu_dmabuf_get_rdma_pd dst) as [pd|] eqn:Hpd; [|run_inv; by simplify_eq].
  apply get_rdma_pd_ok in Hpd as ->.
  destruct (gpu_dmabuf_find_region gd a n) as [region|] eqn:Hreg; [|run_inv; by simplify_eq].
  apply find_region_sound in Hreg as [Hr Hin]; [|done..].
  destruct (gpu_dmabuf_find_mr _ _ _ a n) as [e|] eqn:Hmr.
  - run_inv. simplify_eq. split; [done|]. intros t [= <-].
    apply find_mr_sound in Hmr as (He & _ & Hp & Hine); [|done..]. by exists e.
  - apply bind_inv in Hrun as ([r' gd''] & e1 & e2 & Hrun & Hret & ->).
    apply ret_inv in Hret as [[= -> ->] ->]. cbn.
    destruct (register_mr_sound gd (r_device region) (ibv_pd dst) (r_addr region) (r_len region) Hinv
      ltac:(by destruct region) _ _ _ Hrun) as (Hi & _ & _ & Hok). split; [done|].
    intros t Ht. destruct r' as [e|x]; simplify_eq/=.
    destruct (Hok e eq_refl) as (He & _ & Hp & Ha & Hl). destruct Hin.
    exists e. rewrite Ha, Hl. split_and!; done.
Qed.

(** What a successful registration of [a..a+n] for [dst] leaves behind. *)
Lemma register_sound gd dst a n h r gd' evs :
  spdk_gpu_dmabuf_memory_domain_register gd dst a n h = ((r, gd'), evs) →
  gd_inv gd → fits a n →
  gd_inv gd' ∧ gd_regions gd ⊆ gd_regions gd' ∧ mr_cache gd ⊆ mr_cache gd' ∧
  (r = Ok tt →
   gpu_dmabuf_get_rdma_pd dst = Ok (ibv_pd dst) ∧
   ∃ e, e ∈ mr_cache gd' ∧ m_pd e = ibv_pd dst ∧ inside (m_addr e) (m_len e) a n).
Proof.
  intros Hrun Hinv Hf. unfold spdk_gpu_dmabuf_memory_domain_register in Hrun.
  case_match; [run_inv; by simplify_eq|].
  destruct (gpu_dmabuf_get_rdma_pd dst) as [pd|] eqn:Hpd; [|run_inv; by simplify_eq].
  pose proof (get_rdma_pd_ok _ _ Hpd) as ->.
  apply bind_inv in Hrun as (dev & e0 & ? & _ & Hrun & ->).
  destruct dev as [d|]; [|run_inv; by simplify_eq].
  apply bind_inv in Hrun as ([ro gd1] & e1 & ? & Hadd & Hrun & ->).
  apply add_region_sound in Hadd as (Hi1 & Hc1 & Hr1 & Hok1); [|done..]. cbn in *.
  destruct ro as [region|]; [|by run_inv; simplify_eq; rewrite Hc1].
  destruct (Hok1 region eq_refl) as (Hreg & _ & Hin).
  pose proof (inv_fits _ Hi1 _ Hreg) as Hfr.
  destruct (gpu_dmabuf_find_mr gd1 _ _ _ _) as [e|] eqn:Hmr.
  - run_inv. simplify_eq. apply find_mr_sound in Hmr as (He & _ & Hp & Hine); [|done..].
    split_and!; [done|done|by rewrite Hc1|]. intros _. split; [done|]. exists e.
    split_and!; [done|done|]. destruct Hin, Hine. split; lia.
  - apply bind_inv in Hrun as ([r2 gd2] & e3 & ? & Hrun & Hret & ->).
    apply ret_inv in Hret as [[= -> ->] ->]. cbn.
    destruct (register_mr_sound gd1 (r_device region) (ibv_pd dst) (r_addr region) (r_len region) Hi1
      ltac:(by destruct region) _ _ _ Hrun) as (Hi & Hrs & Hcs & Hok). cbn in *.
    split_and!; [done|by rewrite Hrs|by rewrite <- Hc1|]. intros Hr. destruct r2 as [e|]; [|done].
    split; [done|]. destruct (Hok e eq_refl) as (He & _ & Hp & Ha & Hl).
    exists e. by rewrite Ha, Hl.
Qed.

Lemma register_translate_correct gd dst a n h gd' evs :
  spdk_gpu_dmabuf_memory_domain_register gd dst a n h = ((Ok tt, gd'), evs) →
  gd_inv gd → fits a n →
  ∃ e, e ∈ mr_cache gd' ∧ m_pd e = ibv_pd dst ∧
    ∀ b m h', 0 < m → a <= b → b + m <= a + n →
      gpu_dmabuf_translate gd' dst b m h' = ((Ok (translation b m e), gd'), []).
Proof.
  intros Hrun Hinv Hf.
  destruct (register_sound _ _ _ _ _ _ _ _ Hrun Hinv Hf) as (Hi & _ & _ & Hok).
  destruct (Hok eq_refl) as (Hpd & e & He & Hp & Hin). exists e. split_and!; [done..|].
  intros b m h' Hm Hab Hbn.
  assert (fits b m) as Hfb by (destruct Hf as (?&?&?); unfold fits; lia).
  assert (inside (m_addr e) (m_len e) b m) as Hinb by (destruct Hin; unfold inside; lia).
  unfold gpu_dmabuf_translate. rewrite Hpd.
  rewrite (find_region_inside gd' Hi b m (MkRegion (m_addr e) (m_len e) (m_device e)) Hfb
             (inv_exported _ Hi _ He) Hinb). cbn [r_device].
  by rewrite (find_mr_inside gd' Hi _ _ b m e Hfb He eq_refl Hp Hinb).
Qed.

(** ** Invalidation *)

Lemma filter_tree_wf {K V} (compare : K → K → comparison) (key : V → K) (f : V → bool) t :
  tree_wf compare key t → tree_wf compare key (List.filter f t).
Proof.
  induction 1 as [|v t Hs IH Hlt]; cbn; [constructor|]. case_match; [|done].
  constructor; [done|]. rewrite Forall_forall in *. intros x Hx.
  apply Hlt. apply list_elem_of_In, filter_In in Hx as [Hx _]. by apply list_elem_of_In.
Qed.

Lemma elem_of_list_filter {A} (f : A → bool) l (x : A) : x ∈ List.filter f l ↔ x ∈ l ∧ f x = true.
Proof. by rewrite !list_elem_of_In, filter_In. Qed.

Lemma dereg_all_run l h v evs :
  mmap gpu_dmabuf_dereg_mr l h = (v, evs) → evs = (λ e, GDeregMr (m_mr e)) <$> l.
Proof.
  revert h v evs. induction l as [|e l IH]; intros h v evs Hrun.
  { cbn [mmap] in Hrun. by apply ret_inv in Hrun as [_ ->]. }
  apply bind_inv in Hrun as (y & e1 & ? & [-> ->]%call_inv & Hrun & ->).
  apply bind_inv in Hrun as (ys & e2 & ? & Hl & Hrun & ->). run_inv.
  apply IH in Hl as ->. by rewrite app_nil_r.
Qed.

Lemma invalidate_correct gd a n h gd' evs :
  gpu_dmabuf_invalidate_range gd a n h = (gd', evs) → gd_inv gd → fits a n → a ≠ 0 →
  gd_inv gd' ∧
  evs = (λ e, GDeregMr (m_mr e)) <$>
          List.filter (λ e, gpu_dmabuf_range_overlaps e a n) (mr_cache gd) ∧
  (∀ e, e ∈ mr_cache gd' ↔ e ∈ mr_cache gd ∧ ¬ meets (m_addr e) (m_len e) a n) ∧
  (∀ dst b m h' pd, fits b m → meets b m a n → gpu_dmabuf_get_rdma_pd dst = Ok pd →
     gpu_dmabuf_translate gd' dst b m h' = ((Err EINVAL, gd'), [])).
Proof.
  intros Hrun Hinv Hf Ha. unfold gpu_dmabuf_invalidate_range in Hrun.
  rewrite (proj2 (Z.eqb_neq a 0) Ha) in Hrun.
  rewrite (proj2 (Z.eqb_neq n 0)) in Hrun by (destruct Hf; lia). cbn [orb] in Hrun.
  apply bind_inv in Hrun as (v & e1 & ? & Hd%dereg_all_run & Hrun & ->).
  apply ret_inv in Hrun as [-> ->]. rewrite app_nil_r.
  assert (∀ e, e ∈ mr_cache gd →
    gpu_dmabuf_range_overlaps e a n = true ↔ meets (m_addr e) (m_len e) a n) as Hmr.
  { intros e He. apply range_overlaps_iff; [by eapply mr_fits|done]. }
  assert (∀ r, r ∈ gd_regions gd →
    gpu_dmabuf_region_overlaps r a n = true ↔ meets (r_addr r) (r_len r) a n) as Hrg.
  { intros r Hr. apply range_overlaps_iff; [by apply Hinv|done]. }
  assert (gd_inv (with_regions (List.filter (λ r, negb (gpu_dmabuf_region_overlaps r a n))
    (gd_regions gd)) (with_cache (List.filter (λ e, negb (gpu_dmabuf_range_overlaps e a n))
      (mr_cache gd)) gd))) as Hi.
  { split; cbn.
    - apply filter_tree_wf, Hinv.
    - intros r [Hr _]%elem_of_list_filter. by apply Hinv.
    - intros r1 r2 [Hr1 _]%elem_of_list_filter [Hr2 _]%elem_of_list_filter. by apply Hinv.
    - apply filter_tree_wf, Hinv.
    - intros e [He Ho]%elem_of_list_filter. apply elem_of_list_filter.
      split; [by apply Hinv|done]. }
  split_and!; [done|done| |].
  - intros e. cbn. rewrite elem_of_list_filter. split; intros [He Hno]; split; try done.
    + rewrite <- Hmr by done. by destruct (gpu_dmabuf_range_overlaps e a n).
    + rewrite <- Hmr in Hno by done. by destruct (gpu_dmabuf_range_overlaps e a n).
  - intros dst b m h' pd Hfb Hm Hpd. unfold gpu_dmabuf_translate. rewrite Hpd.
    destruct (gpu_dmabuf_find_region _ b m) as [region|] eqn:E; [|done].
    apply (find_region_sound _ Hi) in E as [Hr Hin]; [|done]. cbn in Hr.
    apply elem_of_list_filter in Hr as [Hr Hno]. exfalso.
    apply negb_true_iff, not_true_iff_false in Hno. apply Hno, Hrg; [done|].
    destruct Hin, Hm. split; lia.
Qed.

(** ** Accounting *)

(** What a domain owns. *)
Definition cached (c : list gpu_dmabuf_mr) : list gpu_resource := c ≫= λ e, [GMr (m_mr e)].
Definition retained (cs : list (Z * Z)) : list gpu_resource := cs ≫= λ c, [GCtx c.1].
Definition domain_owned (gd : gpu_dmabuf_domain) : list gpu_resource :=
  GDomain (gd_domain gd) :: (if owns_cuda_ctx gd then [GCtx (cuda_device_id gd)] else []) ++
  retained (cuda_ctxs gd) ++ cached (mr_cache gd).
#[local] Arguments cached : simpl never.
#[local] Arguments retained : simpl never.

Lemma cached_perm c c' : c ≡ₚ c' → cached c ≡ₚ cached c'.
Proof. intros Hp. unfold cached. by rewrite Hp. Qed.

(** The device handle of an ordinal is the ordinal. *)
Context (device_handles : ∀ h id d, g_device_get h id = Some d → d = id).

Lemma device_get_returns id :
  returns (call (λ h, g_device_get h id) (GDeviceGet id)) (λ o, ∀ d, o = Some d → d = id).
Proof using device_handles.
  intros h v evs [-> _]%call_inv d Hd. by eapply device_handles.
Qed.

Lemma get_cuda_ctx_owns gd d :
  owns (domain_owned gd) (gpu_dmabuf_get_cuda_ctx gd d) (λ r, domain_owned r.2).
Proof using device_handles.
  unfold gpu_dmabuf_get_cuda_ctx. repeat case_match; try (by apply owns_ret).
  eapply owns_seq with (mid := λ _, domain_owned gd); [neutral|]. intros ok.
  case_match; [by apply owns_ret|].
  eapply owns_bind with (mid := λ _, domain_owned gd); [neutral|apply device_get_returns|].
  intros [dev|] Hdev; [|by apply owns_ret]. rewrite (Hdev dev eq_refl).
  eapply owns_seq with (mid := λ o, of_option (λ _, GCtx d) o ++ domain_owned gd); [owned_call|].
  intros [c|]; apply owns_ret; [|done]. unfold domain_owned. cbn. unfold retained.
  rewrite bind_app. cbn. solve_Permutation.
Qed.

Lemma restore_ctx_owns l prev : owns l (gpu_dmabuf_restore_cuda_ctx prev) (λ _, l).
Proof.
  unfold gpu_dmabuf_restore_cuda_ctx. case_match; [|by apply owns_ret].
  eapply owns_seq with (mid := λ _, l); [neutral|]. intros ok. by apply owns_ret.
Qed.

Lemma set_ctx_owns l ctx : owns l (gpu_dmabuf_set_cuda_ctx ctx) (λ _, l).
Proof.
  unfold gpu_dmabuf_set_cuda_ctx. case_match; [by apply owns_ret|].
  eapply owns_seq with (mid := λ _, l); [neutral|]. intros [prev|]; [|by apply owns_ret].
  case_match; [by apply owns_ret|]. eapply owns_seq with (mid := λ _, l); [neutral|].
  intros ok. by apply owns_ret.
Qed.

Definition exported (r : gres (Z * Z)) : list gpu_resource :=
  match r with Ok p => [GFd p.1] | Err _ => [] end.

Lemma export_range_owns l a n prev : owns l (export_range a n prev) (λ r, exported r ++ l).
Proof.
  unfold export_range. eapply owns_seq with (mid := λ _, l); [neutral|].
  assert (∀ e, owns l (gpu_dmabuf_restore_cuda_ctx prev ;;; ret (Err e))
                 (λ r, exported r ++ l)) as Herr.
  { intros e. eapply owns_seq; [apply restore_ctx_owns|]. intros ?. by apply owns_ret. }
  intros [[base size]|]; [|apply Herr]. case_match; [apply Herr|]. case_match; [apply Herr|].
  eapply owns_seq with (mid := λ o, of_option GFd o ++ l); [owned_call|]. intros fd.
  eapply owns_seq; [apply restore_ctx_owns|]. intros ?. apply owns_ret. by destruct fd.
Qed.

Lemma register_exported_owns gd d p a n fd off :
  owns (GFd fd :: domain_owned gd) (register_exported gd d p a n fd off) (λ r, domain_owned r.2).
Proof.
  unfold register_exported.
  eapply owns_seq with (mid := λ r, of_option GMr r.1 ++ GFd fd :: domain_owned gd); [owned_call|].
  intros [[mr|] err]; cbn [of_option fst app].
  - eapply owns_seq with (mid := λ _, GMr mr :: domain_owned gd); [owned_call|]. intros ?.
    destruct (rb_insert _ _ _ _) as [c|] eqn:E.
    + apply owns_ret. apply rb_insert_elem in E; [|apply _]. unfold domain_owned. cbn.
      rewrite (cached_perm _ _ E). cbn. unfold cached. cbn. solve_Permutation.
    + eapply owns_seq with (mid := λ _, domain_owned gd); [owned_call|]. intros ?. by apply owns_ret.
  - eapply owns_seq with (mid := λ _, domain_owned gd); [owned_call|]. intros ?. by apply owns_ret.
Qed.

Lemma register_mr_owns gd d p a n :
  owns (domain_owned gd) (gpu_dmabuf_register_mr gd d p a n) (λ r, domain_owned r.2).
Proof using device_handles.
  unfold gpu_dmabuf_register_mr. case_match; [by apply owns_ret|].
  eapply owns_seq with (mid := λ _, domain_owned gd); [neutral|]. intros ok.
  case_match; [by apply owns_ret|]. eapply owns_seq; [apply get_cuda_ctx_owns|].
  intros [[c|e] gd']; [|by apply owns_ret]. cbn [fst snd].
  eapply owns_seq; [apply set_ctx_owns|]. intros [prev|e]; [|by apply owns_ret].
  eapply owns_seq; [apply export_range_owns|]. intros [[fd off]|e]; [|by apply owns_ret].
  apply register_exported_owns.
Qed.

Lemma add_region_owns gd a n d :
  owns (domain_owned gd) (gpu_dmabuf_add_region gd a n d) (λ r, domain_owned r.2).
Proof.
  unfold gpu_dmabuf_add_region. repeat case_match; try (by apply owns_ret).
  all: eapply owns_seq with (mid := λ _, domain_owned gd); [neutral|]; intros ok;
    repeat case_match; by apply owns_ret.
Qed.

Lemma ptr_device_owns l gd a : owns l (gpu_dmabuf_get_ptr_device_id gd a) (λ _, l).
Proof.
  unfold gpu_dmabuf_get_ptr_device_id. case_match; [by apply owns_ret|].
  eapply owns_seq with (mid := λ _, l); [neutral|]. intros ok. by apply owns_ret.
Qed.

Lemma gpu_register_owns gd dst a n :
  owns (domain_owned gd) (spdk_gpu_dmabuf_memory_domain_register gd dst a n)
    (λ r, domain_owned r.2).
Proof using device_handles.
  unfold spdk_gpu_dmabuf_memory_domain_register. repeat case_match; try (by apply owns_ret).
  eapply owns_seq; [apply ptr_device_owns|]. intros [d|e]; [|by apply owns_ret].
  eapply owns_seq; [apply add_region_owns|]. intros [[r|e] gd']; [|by apply owns_ret].
  cbn [fst snd]. case_match; [by apply owns_ret|].
  eapply owns_seq; [apply register_mr_owns|]. intros r'. by apply owns_ret.
Qed.

Lemma translate_owns gd dst a n :
  owns (domain_owned gd) (gpu_dmabuf_translate gd dst a n) (λ r, domain_owned r.2).
Proof using device_handles.
  unfold gpu_dmabuf_translate. repeat case_match; try (by apply owns_ret).
  eapply owns_seq; [apply register_mr_owns|]. intros r'. by apply owns_ret.
Qed.

Lemma filter_split {A} (f : A → bool) l :
  l ≡ₚ List.filter f l ++ List.filter (λ x, negb (f x)) l.
Proof.
  induction l as [|x l IH]; [done|]. cbn. destruct (f x); cbn; rewrite IH at 1; solve_Permutation.
Qed.

Lemma dereg_all_owns c : owns (cached c) (mmap gpu_dmabuf_dereg_mr c) (λ _, []).
Proof. apply owns_mmap. intros e. owned_call. Qed.

Lemma invalidate_owns gd a n :
  owns (domain_owned gd) (gpu_dmabuf_invalidate_range gd a n) domain_owned.
Proof.
  unfold gpu_dmabuf_invalidate_range. case_match; [by apply owns_ret|].
  set (f := λ e, gpu_dmabuf_range_overlaps e a n).
  set (gd' := with_regions _ _).
  apply owns_pre with (pre := cached (List.filter f (mr_cache gd)) ++ domain_owned gd').
  - apply owns_consume; [apply dereg_all_owns|]. intros ?. by apply owns_ret.
  - unfold domain_owned. cbn. rewrite (cached_perm _ _ (filter_split f (mr_cache gd))).
    unfold cached. rewrite bind_app. solve_Permutation.
Qed.

(** The operations on a domain. *)
Inductive domain_step (gd : gpu_dmabuf_domain) (h : ghist) : ghist → gpu_dmabuf_domain → Prop :=
| step_gpu_register dst a n r gd' evs :
    spdk_gpu_dmabuf_memory_domain_register gd dst a n h = ((r, gd'), evs) →
    domain_step gd h evs gd'
| step_translate dst a n r gd' evs :
    gpu_dmabuf_translate gd dst a n h = ((r, gd'), evs) → domain_step gd h evs gd'
| step_invalidate a n gd' evs :
    gpu_dmabuf_invalidate_range gd a n h = (gd', evs) → domain_step gd h evs gd'.

Inductive domain_steps (gd : gpu_dmabuf_domain) (h : ghist)
  : ghist → gpu_dmabuf_domain → Prop :=
| domain_none : domain_steps gd h [] gd
| domain_more e1 gd1 e2 gd2 :
    domain_step gd h e1 gd1 → domain_steps gd1 (h ++ e1) e2 gd2 →
    domain_steps gd h (e1 ++ e2) gd2.

Lemma domain_steps_accounts gd h evs gd' :
  domain_steps gd h evs gd' → accounts (domain_owned gd) evs (domain_owned gd').
Proof using device_handles.
  induction 1 as [|gd h e1 gd1 e2 gd2 Hstep _ IH]; [apply accounts_nil|].
  eapply accounts_app; [|done]. destruct Hstep as [? ? ? ? ? ? Hrun|? ? ? ? ? ? Hrun|? ? ? ? Hrun].
  - apply (gpu_register_owns _ _ _ _ _ _ _ Hrun).
  - apply (translate_owns _ _ _ _ _ _ _ Hrun).
  - apply (invalidate_owns _ _ _ _ _ _ Hrun).
Qed.

(** The initial domain owns what its creation acquired; a failed creation owns nothing. *)
Definition created (r : gres gpu_dmabuf_domain) : list gpu_resource :=
  match r with Ok gd => domain_owned gd | Err _ => [] end.

Definition primary_ctx (device : Z) (r : gres (Z * bool)) : list gpu_resource :=
  match r with Ok (_, true) => [GCtx device] | _ => [] end.

Lemma create_ctx_owns o : owns [] (create_ctx o) (primary_ctx (opt_cuda_device_id o)).
Proof using device_handles.
  unfold create_ctx. case_match; [|by apply owns_ret].
  eapply owns_bind with (mid := λ _, []); [neutral|apply device_get_returns|].
  intros [dev|] Hdev; [|by apply owns_ret]. rewrite (Hdev dev eq_refl).
  eapply owns_seq with (mid := of_option (λ _, GCtx (opt_cuda_device_id o))); [owned_call|].
  intros [c|]; by apply owns_ret.
Qed.

Lemma create_owns did flags opts z :
  owns [] (spdk_gpu_dmabuf_memory_domain_create did flags opts z) created.
Proof using device_handles.
  unfold spdk_gpu_dmabuf_memory_domain_create.
  destruct (match opts with Some _ => z | None => false end); [by apply owns_ret|].
  case_match; [by apply owns_ret|].
  eapply owns_seq with (mid := λ _, []); [neutral|]. intros ok. case_match; [by apply owns_ret|].
  eapply owns_seq with (mid := λ _, []); [neutral|]. intros ok'. case_match; [by apply owns_ret|].
  eapply owns_seq; [apply create_ctx_owns|]. set (o := merge_opts flags opts).
  intros [[ctx own]|]; [|by apply owns_ret]. set (id := match opt_id o with _ => _ end).
  eapply owns_seq with (mid := λ r : result gerr Z,
    match r with Ok d => [GDomain d] | Err _ => [] end ++
    primary_ctx (opt_cuda_device_id o) (Ok (ctx, own))).
  { apply owns_call. intros [d|e] r; destruct own; cbn; unfold releases, refuses; cbn;
      rewrite ?holds_cons, ?holds_nil; lia. }
  intros [d|e].
  - apply owns_ret. by destruct own.
  - destruct own; cbn [primary_ctx app].
    + eapply owns_seq with (mid := λ _, []); [owned_call|]. intros ?. by apply owns_ret.
    + eapply owns_seq with (mid := λ _, []); [by apply owns_ret|]. intros ?. by apply owns_ret.
Qed.

Lemma destroy_owns gd :
  owns (domain_owned gd) (spdk_gpu_dmabuf_memory_domain_destroy gd) (λ _, []).
Proof.
  unfold spdk_gpu_dmabuf_memory_domain_destroy.
  set (own := if owns_cuda_ctx gd then [GCtx (cuda_device_id gd)] else []).
  apply owns_pre with (pre := cached (mr_cache gd) ++ [GDomain (gd_domain gd)] ++ own ++
    retained (cuda_ctxs gd) ++ []).
  2:{ unfold domain_owned. fold own. solve_Permutation. }
  apply owns_consume; [apply dereg_all_owns|]. intros ?.
  apply owns_consume; [owned_call|]. intros ?.
  apply owns_consume; [unfold own; case_match; [owned_call|by apply owns_ret]|]. intros ?.
  apply owns_consume; [apply owns_mmap; intros c; owned_call|]. intros ?. by apply owns_ret.
Qed.

(** Over the whole life of a domain, from its creation (also one that fails)
    through any sequence of registrations, translations and invalidations (also
    failing ones) to its destruction, every memory region, exported file
    descriptor, retained GPU context and memory domain is released exactly as
    often as it was acquired. *)
Theorem domain_lifetime_balanced did flags opts z h r e1 :
  spdk_gpu_dmabuf_memory_domain_create did flags opts z h = (r, e1) →
  match r with
  | Err _ => ∀ x, times acquires e1 x = times releases e1 x
  | Ok gd => ∀ e2 gd' u e3, domain_steps gd (h ++ e1) e2 gd' →
      spdk_gpu_dmabuf_memory_domain_destroy gd' (h ++ e1 ++ e2) = (u, e3) →
      ∀ x, times acquires (e1 ++ e2 ++ e3) x = times releases (e1 ++ e2 ++ e3) x
  end.
Proof using device_handles.
  intros Hc. assert (∀ (evs : ghist) (x : gpu_resource), times refuses evs x = 0%nat) as Hno.
  { intros evs x. unfold times. induction evs as [|e evs IH]; [done|]. cbn.
    unfold refuses at 1. by destruct e. }
  pose proof (create_owns did flags opts z h r e1 Hc) as H1. destruct r as [gd|].
  - intros e2 gd' u e3 H2%domain_steps_accounts H3%destroy_owns x.
    pose proof (accounts_app _ _ _ _ _ H1 (accounts_app _ _ _ _ _ H2 H3) x) as Hx.
    rewrite Hno, !holds_nil in Hx. lia.
  - intros x. specialize (H1 x). unfold created in H1. rewrite Hno, !holds_nil in H1.
    lia.
Qed.

(** Sequences of operations whose ranges do not wrap keep the invariant. *)
Inductive fitting_steps (gd : gpu_dmabuf_domain) (h : ghist) : ghist → gpu_dmabuf_domain → Prop :=
| fitting_none : fitting_steps gd h [] gd
| fitting_register dst a n r gd1 e1 e2 gd2 :
    fits a n → spdk_gpu_dmabuf_memory_domain_register gd dst a n h = ((r, gd1), e1) →
    fitting_steps gd1 (h ++ e1) e2 gd2 → fitting_steps gd h (e1 ++ e2) gd2
| fitting_translate dst a n r gd1 e1 e2 gd2 :
    fits a n → gpu_dmabuf_translate gd dst a n h = ((r, gd1), e1) →
    fitting_steps gd1 (h ++ e1) e2 gd2 → fitting_steps gd h (e1 ++ e2) gd2
| fitting_invalidate a n gd1 e1 e2 gd2 :
    fits a n → gpu_dmabuf_invalidate_range gd a n h = (gd1, e1) →
    fitting_steps gd1 (h ++ e1) e2 gd2 → fitting_steps gd h (e1 ++ e2) gd2.

Lemma create_empty did flags opts z :
  returns (spdk_gpu_dmabuf_memory_domain_create did flags opts z)
    (λ r, ∀ gd, r = Ok gd → gd_regions gd = [] ∧ mr_cache gd = []).
Proof.
  unfold spdk_gpu_dmabuf_memory_domain_create.
  frame_run; try (apply returns_ret; by intros ? [= <-]).
Qed.

Lemma empty_inv gd : gd_regions gd = [] → mr_cache gd = [] → gd_inv gd.
Proof. intros Hr Hc. clear -Hr Hc. split; rewrite ?Hr, ?Hc; try constructor; set_solver. Qed.

Lemma fitting_steps_inv gd h evs gd' : fitting_steps gd h evs gd' → gd_inv gd → gd_inv gd'.
Proof.
  induction 1 as [| ? ? ? ? ? ? ? ? ? ? Hf Hrun _ IH | ? ? ? ? ? ? ? ? ? ? Hf Hrun _ IH
    | ? ? a ? ? ? ? ? Hf Hrun _ IH]; intros Hinv; [done|apply IH..].
  - by eapply register_sound.
  - by eapply translate_correct.
  - destruct (decide (a = 0)) as [->|]; [|by eapply invalidate_correct].
    by apply ret_inv in Hrun as [-> _].
Qed.

(** The domains that creation and such operations produce. *)
Definition reachable (gd : gpu_dmabuf_domain) : Prop :=
  ∃ did flags opts z h gd0 e1 e2,
    spdk_gpu_dmabuf_memory_domain_create did flags opts z h = (Ok gd0, e1) ∧
    fitting_steps gd0 (h ++ e1) e2 gd.

Lemma reachable_inv gd : reachable gd → gd_inv gd.
Proof.
  intros (did & flags & opts & z & h & gd0 & e1 & e2 & Hc & Hs).
  eapply fitting_steps_inv; [done|].
  destruct (create_empty _ _ _ _ _ _ _ Hc gd0 eq_refl). by apply empty_inv.
Qed.

(** C12: Whenever an address range is translated, the result is that range itself
    with the keys of a cached memory region that contains the whole range and
    belongs to the destination's protection domain; and the translation keeps
    the domain's invariant. *)
Theorem translate_sound gd dst a n h r gd' evs :
  gpu_dmabuf_translate gd dst a n h = ((r, gd'), evs) → reachable gd → fits a n →
  gd_inv gd' ∧
  ∀ t, r = Ok t → ∃ e, e ∈ mr_cache gd' ∧ t = translation a n e ∧
    m_pd e = ibv_pd dst ∧ m_addr e <= a ∧ a + n <= m_addr e + m_len e.
Proof.
  intros Hrun Hreach%reachable_inv. by eapply translate_correct.
Qed.

(** After a successful registration of a range for an RDMA domain, every
    part of the range translates for that domain, always with the same keys,
    without any call to the GPU driver or the verbs library, and leaves the
    domain unchanged. *)
Theorem register_then_translate gd dst a n h gd' evs :
  spdk_gpu_dmabuf_memory_domain_register gd dst a n h = ((Ok tt, gd'), evs) →
  reachable gd → fits a n →
  ∃ e, e ∈ mr_cache gd' ∧ m_pd e = ibv_pd dst ∧
    ∀ b m h', 0 < m → a <= b → b + m <= a + n →
      gpu_dmabuf_translate gd' dst b m h' = ((Ok (translation b m e), gd'), []).
Proof.
  intros Hrun Hreach%reachable_inv. by eapply register_translate_correct.
Qed.

(** Invalidating a range deregisters exactly the memory regions that meet it,
    each once, keeps all others with their keys, and keeps the invariant; no
    range that meets it translates afterwards until it is registered again. *)
Theorem invalidate_exact gd a n h gd' evs :
  gpu_dmabuf_invalidate_range gd a n h = (gd', evs) → reachable gd → fits a n → a ≠ 0 →
  gd_inv gd' ∧
  evs = (λ e, GDeregMr (m_mr e)) <$>
          List.filter (λ e, gpu_dmabuf_range_overlaps e a n) (mr_cache gd) ∧
  (∀ e, e ∈ mr_cache gd' ↔ e ∈ mr_cache gd ∧ ¬ meets (m_addr e) (m_len e) a n) ∧
  (∀ dst b m h' pd, fits b m → meets b m a n → gpu_dmabuf_get_rdma_pd dst = Ok pd →
     gpu_dmabuf_translate gd' dst b m h' = ((Err EINVAL, gd'), [])).
Proof.
  intros Hrun Hreach%reachable_inv. by eapply invalidate_correct.
Qed.

End Operations.

(** ** A sample system *)

(** One GPU allocation of two pages at 4096; every call succeeds. *)
Definition sample_gpu : GpuApi := {|
  g_calloc := λ _, true;
  g_init := λ _, true;
  g_pointer_ordinal := λ _ _, Some 0;
  g_device_get := λ _ id, Some id;
  g_ctx_retain := λ _ _, Some 77;
  g_ctx_get_current := λ _, Some 0;
  g_ctx_set_current := λ _ _, true;
  g_address_range := λ _ _, Some (4096, 8192);
  g_export := λ _ _ _, Some 5;
  g_reg_dmabuf_mr := λ h _ _ len _ _ _, (Some (MkMr (Z.of_nat (length h)) len 1 2), 0);
  g_domain_create := λ _ _, Ok 1 |}.

Definition sample_rdma : rdma_domain := MkRdmaDomain true true true 9.
Definition sample_mr : gpu_dmabuf_mr := MkGMr 4096 4096 0 9 (MkMr 14 4096 1 2).
Definition sample_domain : gpu_dmabuf_domain := MkDomain 1 [] [] [] (-1) 0 false 7.
Definition sample_registered : gpu_dmabuf_domain :=
  MkDomain 1 [sample_mr] [MkRegion 4096 4096 0] [(0, 77)] (-1) 0 false 7.

Abbreviation sample_create :=
  (@spdk_gpu_dmabuf_memory_domain_create sample_gpu "gpu" 7 None false).
Abbreviation sample_gpu_register :=
  (@spdk_gpu_dmabuf_memory_domain_register sample_gpu sample_domain sample_rdma 4096 4096).

Lemma sample_create_run :
  sample_create [] = (Ok sample_domain, [GCalloc true; GInit true; GDomainCreate "gpu" (Ok 1)]).
Proof. by vm_compute. Qed.

Lemma sample_gpu_register_run :
  sample_gpu_register [GCalloc true; GInit true; GDomainCreate "gpu" (Ok 1)] =
  ((Ok tt, sample_registered),
   (sample_gpu_register [GCalloc true; GInit true; GDomainCreate "gpu" (Ok 1)]).2).
Proof. by vm_compute. Qed.

Lemma sample_fits : fits 4096 4096.
Proof. unfold fits. by vm_compute. Qed.

Lemma sample_domain_reachable : @reachable sample_gpu sample_domain.
Proof.
  eexists _, _, _, _, [], _, _, _. split; [apply sample_create_run|]. apply fitting_none.
Qed.

Lemma sample_registered_reachable : @reachable sample_gpu sample_registered.
Proof.
  eexists _, _, _, _, [], _, _, _. split; [apply sample_create_run|].
  eapply fitting_register; [apply sample_fits|apply sample_gpu_register_run|apply fitting_none].
Qed.

Lemma translate_sound_witness :
  let '((r, gd'), evs) := @gpu_dmabuf_translate sample_gpu sample_registered sample_rdma 4100 64 [] in
  r = Ok (MkTranslation 4100 64 2 1) ∧ gd_inv gd' ∧
  ∀ t, r = Ok t → ∃ e, e ∈ mr_cache gd' ∧ t = translation 4100 64 e ∧
    m_pd e = 9 ∧ m_addr e <= 4100 ∧ 4100 + 64 <= m_addr e + m_len e.
Proof.
  split; [by vm_compute|].
  eapply (@translate_sound sample_gpu sample_registered sample_rdma 4100 64 []).
  - by vm_compute.
  - apply sample_registered_reachable.
  - unfold fits. by vm_compute.
Defined.

Lemma register_then_translate_witness :
  ∃ evs e,
    sample_gpu_register [GCalloc true; GInit true; GDomainCreate "gpu" (Ok 1)] =
      ((Ok tt, sample_registered), evs) ∧
    e ∈ mr_cache sample_registered ∧ m_pd e = 9 ∧
    ∀ b m h', 0 < m → 4096 <= b → b + m <= 4096 + 4096 →
      @gpu_dmabuf_translate sample_gpu sample_registered sample_rdma b m h' =
        ((Ok (translation b m e), sample_registered), []).
Proof.
  destruct (@register_then_translate sample_gpu sample_domain sample_rdma 4096 4096 _ _ _
    sample_gpu_register_run sample_domain_reachable sample_fits) as (e & He & Hp & Ht).
  eexists _, e. split_and!; [apply sample_gpu_register_run|done|done|done].
Defined.

Lemma invalidate_exact_witness :
  let '(gd', evs) := @gpu_dmabuf_invalidate_range sample_registered 4000 200 [] in
  evs = [GDeregMr (m_mr sample_mr)] ∧ mr_cache gd' = [] ∧
  (∀ dst b m h' pd, fits b m → meets b m 4000 200 → gpu_dmabuf_get_rdma_pd dst = Ok pd →
     @gpu_dmabuf_translate sample_gpu gd' dst b m h' = ((Err EINVAL, gd'), [])).
Proof.
  split_and!; [by vm_compute..|].
  apply (@invalidate_exact sample_gpu sample_registered 4000 200 [] _ [GDeregMr (m_mr sample_mr)]).
  - by vm_compute.
  - apply sample_registered_reachable.
  - unfold fits. by vm_compute.
  - done.
Defined.

Lemma domain_lifetime_balanced_witness :
  let e1 := [GCalloc true; GInit true; GDomainCreate "gpu" (Ok 1)] in
  let e2 := (sample_gpu_register e1).2 in
  let e3 := (spdk_gpu_dmabuf_memory_domain_destroy sample_registered (e1 ++ e2 ++ [])).2 in
  times acquires (e1 ++ (e2 ++ []) ++ e3) (GMr (m_mr sample_mr)) = 1%nat ∧
  (∀ x, times acquires (e1 ++ (e2 ++ []) ++ e3) x = times releases (e1 ++ (e2 ++ []) ++ e3) x).
Proof.
  split; [by vm_compute|].
  eapply (@domain_lifetime_balanced sample_gpu ltac:(by intros ? ? ? [= <-]) "gpu" 7 None false []
    (Ok sample_domain)).
  - apply sample_create_run.
  - eapply domain_more; [eapply step_gpu_register; apply sample_gpu_register_run|apply domain_none].
  - by vm_compute.
Defined.

(** Registering a range that wraps around the address space fails but leaves its
    region in the tree, where it hides the region below it: parts of a registered
    range no longer translate. *)
Theorem failed_registration_hides_region :
  ∃ gd' evs,
    @spdk_gpu_dmabuf_memory_domain_register sample_gpu sample_registered sample_rdma
      4106 (u64_modulus - 8) [] = ((Err EINVAL, gd'), evs) ∧
    (@gpu_dmabuf_translate sample_gpu sample_registered sample_rdma 4116 10 []).1.1 =
      Ok (translation 4116 10 sample_mr) ∧
    (@gpu_dmabuf_translate sample_gpu gd' sample_rdma 4116 10 []).1.1 = Err EINVAL.
Proof. eexists _, _. repeat (split; [by vm_compute|]). by vm_compute. Qed.

(** A registration whose export fails keeps the region: a later registration of a
    larger range that contains it is refused. *)
Theorem failed_registration_keeps_region :
  ∃ gd' evs,
    @spdk_gpu_dmabuf_memory_domain_register sample_gpu sample_domain sample_rdma
      12280 4096 [] = ((Err EINVAL, gd'), evs) ∧
    mr_cache gd' = [] ∧ gd_regions gd' = [MkRegion 12280 4096 0] ∧
    (@spdk_gpu_dmabuf_memory_domain_register sample_gpu gd' sample_rdma 4096 8192 []).1.1 =
      Err EINVAL.
Proof. eexists _, _. repeat (split; [by vm_compute|]). by vm_compute. Qed.

(** On MACA the device of a pointer cannot be queried: a domain created without a
    device refuses every registration. *)
Theorem maca_needs_device verbs mcSet mcRange mcHandle gd dst a n h :
  cuda_device_id gd < 0 →
  ∃ e, (@spdk_gpu_dmabuf_memory_domain_register (maca_api verbs mcSet mcRange mcHandle)
          gd dst a n h).1 = (Err e, gd).
Proof.
  intros Hd. unfold spdk_gpu_dmabuf_memory_domain_register.
  case_match; [by eexists|]. case_match; [|by eexists].
  unfold gpu_dmabuf_get_ptr_device_id. rewrite (proj2 (Z.leb_gt 0 (cuda_device_id gd)) Hd).
  by eexists.
Qed.
