(* ===== verification/RdmaRegister.v ===== *)
(** * RDMA transport: installation and memory registration
      ([mooncake-transfer-engine/src/transport/rdma_transport/rdma_transport.cpp])

    The transport owns one context per usable device.  Installing it constructs
    the contexts and publishes the local segment; registering a buffer registers
    it with every context and publishes its keys.  The transport uses a context
    through the interface [RdmaDevice]; the metadata service, the topology and
    the NUMA and GPU queries are external.  Threads and asynchronous tasks run in
    the order in which the code starts them. *)

From S2P Require Import Prelude CxxString MemoryLocation RdmaTransport.
From stdpp Require Import base strings list sets gmap fin_maps.
From Stdlib Require Import ZArith Lia.

#[local] Open Scope Z_scope.
#[local] Set Default Proof Using "Type".

(** ** The interface of a device context *)

Class RdmaDevice (Ctx Ev : Type) := {
  dev_construct : string → comp Ev (Z * Ctx);
  dev_destroy : Ctx → comp Ev Ctx;
  dev_register : Z → Z → Z → bool → Ctx → comp Ev (Z * Ctx);
  dev_unregister : Z → Ctx → comp Ev (Z * Ctx);
  dev_pretouch : Z → Z → bool → Ctx → comp Ev Z;
  dev_endpoint : string → Ctx → comp Ev (option Z);
  dev_lkey : Z → Ctx → Z;
  dev_rkey : Z → Ctx → Z;
  dev_lid : Ctx → Z;
  dev_gid : Ctx → string }.
#[export] Hint Mode RdmaDevice ! - : typeclass_instances.

(** ** Data *)

Record DeviceDesc := MkDevice { dd_name : string; dd_lid : Z; dd_gid : string }.

#[export] Instance DeviceDesc_eq_dec : EqDecision DeviceDesc.
Proof. solve_decision. Defined.

(** [SegmentDesc]: the fields the transport writes, and the others. *)
Record SegmentDesc (Topo Rest : Type) := MkSegmentDesc {
  sd_name : string;
  sd_rdma_server_name : string;
  sd_protocol : string;
  sd_devices : list DeviceDesc;
  sd_topology : Topo;
  sd_rest : Rest }.
#[global] Arguments MkSegmentDesc {_ _}.
#[global] Arguments sd_name {_ _}.
#[global] Arguments sd_rdma_server_name {_ _}.
#[global] Arguments sd_protocol {_ _}.
#[global] Arguments sd_devices {_ _}.
#[global] Arguments sd_topology {_ _}.
#[global] Arguments sd_rest {_ _}.

Definition with_devices {Topo Rest} ds (d : SegmentDesc Topo Rest) : SegmentDesc Topo Rest :=
  MkSegmentDesc (sd_name d) (sd_rdma_server_name d) (sd_protocol d) ds (sd_topology d) (sd_rest d).

Record Transport (Ctx : Type) := MkTransport {
  local_server_name_ : string;
  rdma_server_name_ : string;
  context_list_ : list (string * Ctx) }.       (* device name, context *)
#[global] Arguments MkTransport {_}.
#[global] Arguments local_server_name_ {_}.
#[global] Arguments rdma_server_name_ {_}.
#[global] Arguments context_list_ {_}.

Definition with_contexts {Ctx} cs (t : Transport Ctx) : Transport Ctx :=
  MkTransport (local_server_name_ t) (rdma_server_name_ t) cs.

(** Configuration and constants. *)
Record TransportConfig := MkTransportConfig {
  use_maca : bool;
  use_cuda_without_peermem : bool;      (* built with CUDA, [WITH_NVIDIA_PEERMEM] unset *)
  multi_protocol : bool;
  gpu_runtime : bool;
  GPU_PREFIX : string;
  hardware_concurrency : Z;
  cfg_max_mr_size : Z;
  parallel_reg_mr : Z;
  relaxed_ordering_enabled : bool;
  kBaseAccessRights : Z;
  IBV_ACCESS_RELAXED_ORDERING : Z;
  ERR_INVALID_ARGUMENT : Z;
  ERR_NOT_REGISTERED : Z;
  ERR_NO_DEVICE : Z;
  ERR_ENDPOINT : Z }.

(** ** Relaxed ordering *)

Definition getIbRelaxedOrderingMode (val : Z) : Z :=
  if (val <? 0) || (2 <? val) then 2 else val.

(** [MCIbRelaxedOrderingEnabled] after the constructor. *)
Definition relaxed_ordering (mode : Z) (has_ibv_reg_mr_iova2 : bool) : bool :=
  if getIbRelaxedOrderingMode mode =? 0 then false else has_ibv_reg_mr_iova2.

(** ** External calls *)

Inductive transport_event (Ev Topo Rest : Type) :=
| TDevice (e : Ev)
| TDisableDevice (name : string)
| TTopologyEmpty (r : bool)
| TGetHcaList (r : list string)
| TAddBuffer (desc : BufferDesc) (update_metadata : bool) (rc : Z)
| TRemoveBuffer (addr : Z) (update_metadata : bool) (rc : Z)
| TGetLocalDesc (r : option (SegmentDesc Topo Rest))
| TAddLocalSegment (name : string) (desc : SegmentDesc Topo Rest)
| TUpdateLocalDesc (rc : Z)
| TRemoveSegmentDesc (name : string)
| TStartDaemon (rc : Z)
| TSetupPassive (endpoint : Z) (rc : Z).
#[global] Arguments TDevice {_ _ _}.
#[global] Arguments TDisableDevice {_ _ _}.
#[global] Arguments TTopologyEmpty {_ _ _}.
#[global] Arguments TGetHcaList {_ _ _}.
#[global] Arguments TAddBuffer {_ _ _}.
#[global] Arguments TRemoveBuffer {_ _ _}.
#[global] Arguments TGetLocalDesc {_ _ _}.
#[global] Arguments TAddLocalSegment {_ _ _}.
#[global] Arguments TUpdateLocalDesc {_ _ _}.
#[global] Arguments TRemoveSegmentDesc {_ _ _}.
#[global] Arguments TStartDaemon {_ _ _}.
#[global] Arguments TSetupPassive {_ _ _}.

Definition device_event {Ev Topo Rest} (e : transport_event Ev Topo Rest) : option Ev :=
  match e with TDevice e => Some e | _ => None end.

(** ** Pre-touching *)

Definition pretouch_threads (hwc : Z) : Z := if 64 <? hwc then 16 else Z.min hwc 8.

(** The blocks given to the threads: address and size. *)
Definition pretouch_blocks (hwc max_mr_size addr length : Z) : list (Z * Z) :=
  let num_threads := pretouch_threads hwc in
  let length := if max_mr_size <? length then max_mr_size else length in
  let block_size := length / num_threads in
  if block_size =? 0 then []
  else (λ i : nat, (u64 (addr + Z.of_nat i * block_size), block_size)) <$>
         seq 0 (Z.to_nat num_threads).

(** The first code that is not zero, or zero. *)
Definition first_error (codes : list Z) : Z :=
  match List.find (λ c, negb (c =? 0)) codes with Some c => c | None => 0 end.

Section Register.
Context {Ctx Ev Topo Rest : Type} `{!RdmaDevice Ctx Ev}.
Context (cfg : TransportConfig).

Abbreviation event := (transport_event Ev Topo Rest).
Abbreviation desc := (SegmentDesc Topo Rest).
Abbreviation tio A := (comp event A).

Class TransportApi := {
  m_add_buffer : list event → BufferDesc → bool → Z;
  m_remove_buffer : list event → Z → bool → Z;
  m_local_desc : list event → option desc;
  m_update : list event → Z;
  m_start_daemon : list event → Z;
  m_setup_passive : list event → Z → Z;
  t_hca_list : list event → list string;
  t_empty : list event → bool;
  t_pointer_attributes : list event → Z → pointer_attributes;
  t_move_pages : list event → list Z → option (list Z);
  t_topology : list event → Topo;
  default_desc : desc;
  host_port : string → string * Z;             (* [parseHostNameWithPort] *)
  nic_name_of_path : string → string }.        (* [getNicNameFromNicPath] *)
Context `{!TransportApi}.

(** A call of a device context. *)
Definition on_device {A} (m : comp Ev A) : tio A := lift_comp TDevice device_event m.

Definition note (e : event) : tio unit := call (λ _, tt) (λ _, e).

(** [preTouchMemory]: all blocks are touched on the first context. *)
Definition preTouchMemory_all (t : Transport Ctx) (addr length : Z) (allow_gpu_dmabuf : bool)
  : tio Z :=
  match context_list_ t with
  | [] => ret 0
  | (_, c) :: _ =>
      let! codes := mmap (λ b : Z * Z, on_device (dev_pretouch b.1 b.2 allow_gpu_dmabuf c))
                      (pretouch_blocks (hardware_concurrency cfg) (cfg_max_mr_size cfg) addr
                         length) in
      ret (first_error codes)
  end.

(** ** Registration with the contexts *)

(** One context at a time; the first error stops the loop. *)
Fixpoint each_seq (f : Ctx → comp Ev (Z * Ctx)) (cs : list (string * Ctx))
  : tio (Z * list (string * Ctx)) :=
  match cs with
  | [] => ret (0, [])
  | (name, c) :: cs' =>
      let! r := on_device (f c) in
      if negb (r.1 =? 0) then ret (r.1, (name, r.2) :: cs')
      else
        let! rest := each_seq f cs' in
        ret (rest.1, (name, r.2) :: rest.2)
  end.

(** One thread per context; all run, the first error is returned. *)
Definition each_par (f : Ctx → comp Ev (Z * Ctx)) (cs : list (string * Ctx))
  : tio (Z * list (string * Ctx)) :=
  let! rs := mmap (λ nc : string * Ctx,
                     let! r := on_device (f nc.2) in ret (r.1, (nc.1, r.2))) cs in
  ret (first_error rs.*1, rs.*2).

Definition access_rights : Z :=
  if relaxed_ordering_enabled cfg
  then Z.lor (kBaseAccessRights cfg) (IBV_ACCESS_RELAXED_ORDERING cfg)
  else kBaseAccessRights cfg.

Definition allow_dmabuf (name : string) : bool :=
  if use_maca cfg then starts_with (GPU_PREFIX cfg) name else true.

(** [None]: [entries.empty()]. *)
Definition buffer_name (name : string) (addr length : Z) : list event → option string := λ h,
  if bool_decide (name = kWildcardLocation) then
    let probe_gpu := if use_maca cfg then allow_dmabuf name else true in
    match getMemoryLocation (GPU_PREFIX cfg) (gpu_runtime cfg) (t_pointer_attributes h)
            (t_move_pages h) addr length true probe_gpu with
    | Some (e :: _) => Some (me_location e)
    | _ => None
    end
  else Some name.

Definition use_parallel (force_sequential by_default : bool) : bool :=
  if force_sequential then false
  else if parallel_reg_mr cfg =? -1 then by_default
  else negb (parallel_reg_mr cfg =? 0).

Definition do_pre_touch (t : Transport Ctx) (length : Z) : bool :=
  (0 <? Z.of_nat (List.length (context_list_ t))) && (4 <=? hardware_concurrency cfg) &&
  (4 * 1024 * 1024 * 1024 <=? length).

Definition several_contexts (t : Transport Ctx) : bool :=
  (1 <? Z.of_nat (List.length (context_list_ t))).

(** Collection of the keys and publication of the buffer. *)
Definition publish_buffer (t : Transport Ctx) (addr length : Z) (name : string)
    (update_metadata : bool) : tio Z := λ h,
  match buffer_name name addr length h with
  | None => ret (-1) h
  | Some n =>
      let d := MkBufferDesc n addr length ((λ nc, dev_lkey addr nc.2) <$> context_list_ t)
                 ((λ nc, dev_rkey addr nc.2) <$> context_list_ t) in
      call (λ h, m_add_buffer h d update_metadata) (TAddBuffer d update_metadata) h
  end.

Definition registerLocalMemoryInternal (t : Transport Ctx) (addr length : Z) (name : string)
    (update_metadata force_sequential : bool) : tio (Z * Transport Ctx) :=
  let dmabuf := allow_dmabuf name in
  let touch := do_pre_touch t length in
  let! touched := (if touch then preTouchMemory_all t addr length dmabuf else ret 0) in
  if negb (touched =? 0) then ret (touched, t)
  else
    let each := if use_parallel force_sequential (several_contexts t && touch)
                then each_par else each_seq in
    let! r := each (dev_register addr length access_rights dmabuf) (context_list_ t) in
    let t := with_contexts r.2 t in
    if negb (r.1 =? 0) then ret (r.1, t)
    else
      let! rc := publish_buffer t addr length name update_metadata in
      ret (rc, t).

Definition registerLocalMemory (t : Transport Ctx) (addr length : Z) (name : string)
    (update_metadata : bool) : tio (Z * Transport Ctx) :=
  registerLocalMemoryInternal t addr length name update_metadata false.

Definition unregisterLocalMemoryInternal (t : Transport Ctx) (addr : Z)
    (update_metadata force_sequential : bool) : tio (Z * Transport Ctx) :=
  let! rc := call (λ h, m_remove_buffer h addr update_metadata) (TRemoveBuffer addr update_metadata) in
  if negb (rc =? 0) then ret (rc, t)
  else
    let each := if use_parallel force_sequential (several_contexts t) then each_par else each_seq in
    let! r := each (dev_unregister addr) (context_list_ t) in
    ret (r.1, with_contexts r.2 t).

Definition unregisterLocalMemory (t : Transport Ctx) (addr : Z) (update_metadata : bool)
  : tio (Z * Transport Ctx) :=
  unregisterLocalMemoryInternal t addr update_metadata false.

Definition do_update : tio Z := call m_update TUpdateLocalDesc.

(** A failed registration is only logged. *)
Definition registerLocalMemoryBatch (t : Transport Ctx) (buffers : list (Z * Z))
    (location : string) : tio (Z * Transport Ctx) :=
  let force_sequential := negb (use_cuda_without_peermem cfg) in
  let! t := mfold (λ t (b : Z * Z),
                     let! r := registerLocalMemoryInternal t b.1 b.2 location false
                                 force_sequential in
                     ret r.2) t buffers in
  let! rc := do_update in
  ret (rc, t).

Definition unregisterLocalMemoryBatch (t : Transport Ctx) (addrs : list Z)
  : tio (Z * Transport Ctx) :=
  let! t := mfold (λ t addr,
                     let! r := unregisterLocalMemoryInternal t addr false true in
                     ret r.2) t addrs in
  let! rc := do_update in
  ret (rc, t).

(** ** The local segment *)

Definition device_desc (nc : string * Ctx) : DeviceDesc :=
  MkDevice nc.1 (dev_lid nc.2) (dev_gid nc.2).

Definition allocateLocalSegmentID (t : Transport Ctx) : tio Z :=
  let! d := call m_local_desc TGetLocalDesc in
  let d := default default_desc d in
  λ h,
  let rdma := if bool_decide (rdma_server_name_ t = local_server_name_ t)
              then sd_rdma_server_name d else rdma_server_name_ t in
  let protocol :=
    if multi_protocol cfg then
      (if str_empty (sd_protocol d) then "rdma" else sd_protocol d +:+ "," +:+ "rdma")%string
    else "rdma"%string in
  let d := MkSegmentDesc (local_server_name_ t) rdma protocol
             (sd_devices d ++ (device_desc <$> context_list_ t)) (t_topology h) (sd_rest d) in
  (note (TAddLocalSegment (local_server_name_ t) d) ;;; ret 0) h.

(** The devices with the first one named [name] updated; [None] if there is none. *)
Fixpoint refresh_device (name : string) (lid : Z) (gid : string) (ds : list DeviceDesc)
  : option (list DeviceDesc) :=
  match ds with
  | [] => None
  | d :: ds' =>
      if negb (bool_decide (dd_name d = name)) then cons d <$> refresh_device name lid gid ds'
      else Some (MkDevice (dd_name d) lid gid :: ds')
  end.

Definition refreshLocalDeviceDesc (t : Transport Ctx) (name : string) (lid : Z) (gid : string)
  : tio Z :=
  let! original := call m_local_desc TGetLocalDesc in
  match original with
  | None => ret (ERR_NOT_REGISTERED cfg)
  | Some original_desc =>
      match refresh_device name lid gid (sd_devices original_desc) with
      | None => ret (ERR_NO_DEVICE cfg)
      | Some ds =>
          note (TAddLocalSegment (local_server_name_ t) (with_devices ds original_desc)) ;;;
          let! rc := do_update in
          (if negb (rc =? 0)
           then note (TAddLocalSegment (local_server_name_ t) original_desc) else ret tt) ;;;
          ret rc
      end
  end.

(** ** Installation *)

(** Construct a context per device; one that fails is destroyed and its device
    disabled. *)
Fixpoint construct_contexts (names : list string) : tio (list (string * Ctx)) :=
  match names with
  | [] => ret []
  | name :: names' =>
      let! r := on_device (dev_construct name) in
      if negb (r.1 =? 0) then
        note (TDisableDevice name) ;;;
        let! _ := on_device (dev_destroy r.2) in
        construct_contexts names'
      else
        let! rest := construct_contexts names' in
        ret ((name, r.2) :: rest)
  end.

Definition initializeRdmaResources (t : Transport Ctx) : tio (Z * Transport Ctx) :=
  let! names := call t_hca_list TGetHcaList in
  let! cs := construct_contexts names in
  let t := with_contexts (context_list_ t ++ cs) t in
  let! none := call t_empty TTopologyEmpty in
  ret (if none then ERR_NO_DEVICE cfg else 0, t).

Definition rdma_name (local_server_name : string) (rdma_bind_addr : option string) : string :=
  match rdma_bind_addr with
  | Some a =>
      if str_empty a then local_server_name
      else (a +:+ ":" +:+ to_string (host_port local_server_name).2)%string
  | None => local_server_name
  end.

(** [topo]: whether a topology is given; [rdma_bind_addr]: [MC_RDMA_BIND_ADDRESS]. *)
Definition install (local_server_name : string) (topo : bool) (rdma_bind_addr : option string)
    (t : Transport Ctx) : tio (Z * Transport Ctx) :=
  if negb topo then ret (ERR_INVALID_ARGUMENT cfg, t)
  else
    let t := MkTransport local_server_name (rdma_name local_server_name rdma_bind_addr)
               (context_list_ t) in
    let! r := initializeRdmaResources t in
    let t := r.2 in
    if negb (r.1 =? 0) then ret (r.1, t)
    else
      let! rc := allocateLocalSegmentID t in
      if negb (rc =? 0) then ret (rc, t)
      else
        let! rc := call m_start_daemon TStartDaemon in
        if negb (rc =? 0) then ret (rc, t)
        else
          let! rc := do_update in
          ret (rc, t).

(** [~RdmaTransport] *)
Definition destroy_transport (t : Transport Ctx) : tio unit :=
  note (TRemoveSegmentDesc (local_server_name_ t)) ;;;
  mmap (λ nc : string * Ctx, on_device (dev_destroy nc.2)) (context_list_ t) ;;;
  ret tt.

(** ** Handshakes *)

(** Position of a device in the device list of the topology. *)
Fixpoint hca_index (name : string) (names : list string) : option nat :=
  match names with
  | [] => None
  | n :: names' => if bool_decide (n = name) then Some 0%nat else S <$> hca_index name names'
  end.

(** [None]: the index is beyond [context_list_], which the code does not check. *)
Definition onSetupRdmaConnections (t : Transport Ctx) (peer_nic_path local_nic_path : string)
  : tio (option Z) :=
  let local_nic_name := nic_name_of_path peer_nic_path in
  if str_empty local_nic_name then ret (Some (ERR_INVALID_ARGUMENT cfg))
  else
    let! names := call t_hca_list TGetHcaList in
    match hca_index local_nic_name names with
    | None => ret (Some (ERR_INVALID_ARGUMENT cfg))
    | Some i =>
        match context_list_ t !! i with
        | None => ret None
        | Some (_, c) =>
            let! ep := on_device (dev_endpoint local_nic_path c) in
            match ep with
            | None => ret (Some (ERR_ENDPOINT cfg))
            | Some e =>
                let! rc := call (λ h, m_setup_passive h e) (TSetupPassive e) in
                ret (Some rc)
            end
        end
    end.
End Register.
