(* ===== verification/RdmaRegisterSpec.v ===== *)
(** * What installation and memory registration of the RDMA transport guarantee

    The theorems about the transport are proved against [RdmaDeviceLaws], what
    a device context promises; [rdma_context_device] is the context of
    [RdmaContext.v], and [rdma_context_laws] shows that it keeps the promise. *)

From S2P Require Import Prelude CxxString MemoryLocation Accounting RdmaTransport RdmaContext RdmaContextFacts RdmaContextSpec RdmaRegister.
From stdpp Require Import base strings list sets gmap fin_maps sorting.
From Stdlib Require Import ZArith Lia.

#[local] Open Scope Z_scope.
#[local] Set Default Proof Using "Type".

(** ** What a device context promises *)

(** A registered range and its keys. *)
Record device_region := MkDeviceRegion { rg_addr : Z; rg_len : Z; rg_lkey : Z; rg_rkey : Z }.

Definition covers (r : device_region) (a : Z) : Prop := rg_addr r <= a < rg_addr r + rg_len r.

(** [a, a + n) meets no region and starts none. *)
Definition free_of (a n : Z) (rs : list device_region) : Prop :=
  ∀ r, r ∈ rs → (rg_addr r < a ∧ rg_addr r + rg_len r <= a) ∨ (a < rg_addr r ∧ a + n <= rg_addr r).

Class RdmaDeviceLaws (Ctx Ev : Type) `{!RdmaDevice Ctx Ev} (limit : Z) := {
  dev_regions : Ctx → list device_region;
  dev_wf : Ctx → Prop;
  law_register_ok a n acc dmabuf (c : Ctx) h c' evs :
    dev_register a n acc dmabuf c h = ((0, c'), evs) → dev_wf c →
    free_of a (Z.min n limit) (dev_regions c) →
    dev_wf c' ∧ ∃ lk rk,
      dev_regions c' ≡ₚ MkDeviceRegion a (Z.min n limit) lk rk :: dev_regions c;
  law_register_err a n acc dmabuf (c : Ctx) h rc c' evs :
    dev_register a n acc dmabuf c h = ((rc, c'), evs) → rc ≠ 0 → c' = c;
  law_lookup (c : Ctx) r a :
    dev_wf c → r ∈ dev_regions c → covers r a →
    dev_lkey a c = rg_lkey r ∧ dev_rkey a c = rg_rkey r;
  law_unregister_ok a (c : Ctx) h c' evs r :
    dev_unregister a c h = ((0, c'), evs) → dev_wf c → r ∈ dev_regions c → covers r a →
    dev_wf c' ∧ dev_regions c ≡ₚ r :: dev_regions c';
  law_unregister_err a (c : Ctx) h rc c' evs :
    dev_unregister a c h = ((rc, c'), evs) → rc ≠ 0 → c' = c }.

(** ** Loops over the contexts *)

Lemma first_error_zero codes : first_error codes = 0 → Forall (λ c, c = 0) codes.
Proof.
  unfold first_error. case_match eqn:E.
  - apply find_some in E as [_ Hne%negb_true_iff%Z.eqb_neq]. done.
  - intros _. apply Forall_forall. intros c Hc%list_elem_of_In.
    apply (find_none _ _ E), negb_false_iff, Z.eqb_eq in Hc. done.
Qed.

Section Loops.
Context {Ctx Ev Topo Rest : Type}.
Abbreviation event := (transport_event Ev Topo Rest).

Definition from_device (e : event) : Prop := ∃ d, e = TDevice d.

Lemma on_device_emitted {A} (m : comp Ev A) (h : list event) :
  Forall from_device (emitted (on_device m) h).
Proof.
  unfold emitted, on_device, lift_comp. destruct (m _) as [v evs].
  apply Forall_fmap, Forall_forall. intros e _. by exists e.
Qed.

Lemma on_device_events {A} (m : comp Ev A) (h : list event) v evs :
  on_device m h = (v, evs) → Forall from_device evs.
Proof. intros <-%run_emitted. apply on_device_emitted. Qed.

(** What the loops do to one context. *)
Definition ran (f : Ctx → comp Ev (Z * Ctx)) (nc nc' : string * Ctx) : Prop :=
  nc'.1 = nc.1 ∧ ∃ h evs, f nc.2 h = ((0, nc'.2), evs).

Lemma each_seq_ok f cs (h : list event) cs' evs :
  each_seq f cs h = ((0, cs'), evs) → Forall2 (ran f) cs cs'.
Proof.
  revert h cs' evs. induction cs as [|[name c] cs IH]; intros h cs' evs Hrun; cbn in Hrun.
  { apply ret_inv in Hrun as [[= ->] _]. constructor. }
  apply bind_inv in Hrun as ([rc c'] & e1 & ? & (e1' & Hc & _)%lift_inv & Hrun & _).
  cbn in Hrun. destruct (Z.eqb_spec rc 0) as [->|]; cbn in Hrun.
  - apply bind_inv in Hrun as ([rc cs''] & e2 & ? & Hl & Hrun & _).
    apply ret_inv in Hrun as [[= <- ->] _]. constructor; [|by eapply IH].
    split; [done|]. by eexists _, _.
  - by apply ret_inv in Hrun as [[= ? ?] _].
Qed.

Lemma each_par_ok f cs (h : list event) cs' evs :
  each_par f cs h = ((0, cs'), evs) → Forall2 (ran f) cs cs'.
Proof.
  intros (rs & e1 & ? & Hl & [[= Hz ->] _]%ret_inv & _)%bind_inv.
  apply eq_sym, first_error_zero in Hz.
  apply (mmap_outcome _ (λ nc r _, r.2.1 = nc.1 ∧ ∃ h e, f nc.2 h = ((r.1, r.2.2), e))) in Hl.
  - induction Hl as [|nc r cs rs (e & _ & Hn & h' & e' & Hf) _ IH]; [constructor|].
    cbn in Hz. apply Forall_cons in Hz as [Hr Hz]. constructor; [|by apply IH].
    rewrite Hr in Hf. split; [done|]. by eexists _, _.
  - intros nc h' r e Hrun. apply bind_inv in Hrun as ([rc c] & e2 & ? & (e' & Hc & _)%lift_inv & Hrun & _).
    apply ret_inv in Hrun as [-> _]. split; [done|]. by eexists _, _.
Qed.

Lemma each_seq_events (f : Ctx → comp Ev (Z * Ctx)) cs (h : list event) r evs :
  each_seq f cs h = (r, evs) → Forall from_device evs.
Proof.
  revert h r evs. induction cs as [|[name c] cs IH]; intros h r evs Hrun; cbn in Hrun.
  { by apply ret_inv in Hrun as [_ ->]. }
  apply bind_inv in Hrun as ([rc c'] & e1 & ? & Hc%on_device_events & Hrun & ->).
  apply Forall_app. split; [done|]. case_match; [by apply ret_inv in Hrun as [_ ->]|].
  apply bind_inv in Hrun as (rest & e2 & ? & Hl%IH & [_ ->]%ret_inv & ->). by rewrite app_nil_r.
Qed.

Lemma each_par_events (f : Ctx → comp Ev (Z * Ctx)) cs (h : list event) r evs :
  each_par f cs h = (r, evs) → Forall from_device evs.
Proof.
  intros (rs & e1 & ? & Hl & [_ ->]%ret_inv & ->)%bind_inv. rewrite app_nil_r.
  apply run_emitted in Hl as <-. apply mmap_emitted. intros nc h' _.
  rewrite emitted_bind, app_nil_r. apply on_device_emitted.
Qed.
End Loops.

(** ** Registration *)

Section Registration.
Context {Ctx Ev Topo Rest : Type} (cfg : TransportConfig) `{!RdmaDevice Ctx Ev}.
Context `{!TransportApi (Ev := Ev) (Topo := Topo) (Rest := Rest)}.
Abbreviation event := (transport_event Ev Topo Rest).
Abbreviation limit := (cfg_max_mr_size cfg).

Lemma pretouch_events (t : Transport Ctx) a n g (h : list event) rc evs :
  preTouchMemory_all cfg t a n g h = (rc, evs) → Forall from_device evs.
Proof.
  unfold preTouchMemory_all. case_match; [by intros [_ ->]%ret_inv|]. case_match.
  intros (rs & e1 & ? & Hl & [_ ->]%ret_inv & ->)%bind_inv. rewrite app_nil_r.
  apply run_emitted in Hl as <-. apply mmap_emitted. intros b h' _. apply on_device_emitted.
Qed.

Lemma each_ok (par : bool) (f : Ctx → comp Ev (Z * Ctx)) cs (h : list event) cs' evs :
  (if par then each_par else each_seq) f cs h = ((0, cs'), evs) → Forall2 (ran f) cs cs'.
Proof. destruct par; [apply each_par_ok|apply each_seq_ok]. Qed.

Lemma each_events (par : bool) (f : Ctx → comp Ev (Z * Ctx)) cs (h : list event) r evs :
  (if par then each_par else each_seq) f cs h = (r, evs) → Forall (from_device (Ev := Ev)) evs.
Proof. destruct par; [apply each_par_events|apply each_seq_events]. Qed.

Definition descriptor (t : Transport Ctx) (a n : Z) (name : string) : BufferDesc :=
  MkBufferDesc name a n ((λ nc, dev_lkey a nc.2) <$> context_list_ t)
    ((λ nc, dev_rkey a nc.2) <$> context_list_ t).

(** The runs of a registration. *)
Inductive register_run (t : Transport Ctx) (a n : Z) (name : string) (up : bool)
  : Z → Transport Ctx → list event → Prop :=
| run_failed rc t' evs :
    rc ≠ 0 → Forall from_device evs → register_run t a n name up rc t' evs
| run_published t' evs rc n' :
    Forall2 (ran (dev_register a n (access_rights cfg) (allow_dmabuf cfg name)))
      (context_list_ t) (context_list_ t') →
    Forall from_device evs →
    register_run t a n name up rc t' (evs ++ [TAddBuffer (descriptor t' a n n') up rc]).

Lemma register_run_intro t a n name up fs h rc t' evs :
  registerLocalMemoryInternal cfg t a n name up fs h = ((rc, t'), evs) →
  register_run t a n name up rc t' evs.
Proof.
  unfold registerLocalMemoryInternal. intros (rc0 & e0 & ? & H0 & Hrun & ->)%bind_inv.
  assert (Forall (from_device (Topo := Topo) (Rest := Rest)) e0) as Hd0.
  { destruct (do_pre_touch cfg t n); [by eapply pretouch_events|by apply ret_inv in H0 as [_ ->]]. }
  destruct (Z.eqb_spec rc0 0) as [->|]; cbn [negb] in Hrun.
  2:{ apply ret_inv in Hrun as [[= -> ->] ->]. rewrite app_nil_r. by apply run_failed. }
  apply bind_inv in Hrun as ([rc1 cs] & e1 & ? & H1 & Hrun & ->). cbn [fst snd] in Hrun.
  pose proof (each_events _ _ _ _ _ _ H1) as Hd1.
  destruct (Z.eqb_spec rc1 0) as [->|]; cbn [negb] in Hrun.
  2:{ apply ret_inv in Hrun as [[= -> ->] ->]. rewrite app_nil_r.
      apply run_failed; [done|]. by apply Forall_app. }
  apply each_ok in H1.
  apply bind_inv in Hrun as (rc2 & e2 & ? & H2 & [[= -> ->] ->]%ret_inv & ->).
  rewrite app_nil_r, app_assoc. unfold publish_buffer in H2. case_match.
  - apply call_inv in H2 as [-> ->]. apply run_published; [done|by apply Forall_app].
  - apply ret_inv in H2 as [-> ->]. rewrite app_nil_r. apply run_failed; [done|].
    by apply Forall_app.
Qed.

Context `{!RdmaDeviceLaws Ctx Ev limit}.

(** Every context is well formed and has the range free. *)
Definition ready (a n : Z) (cs : list (string * Ctx)) : Prop :=
  Forall (λ nc, dev_wf nc.2 ∧ free_of a (Z.min n limit) (dev_regions nc.2)) cs.

(** A buffer descriptor with the keys of the regions the contexts hold for it. *)
Definition valid_keys (a n : Z) (d : BufferDesc) (cs : list (string * Ctx)) : Prop :=
  bd_addr d = a ∧ bd_length d = n ∧
  length (bd_lkey d) = length cs ∧ length (bd_rkey d) = length cs ∧
  ∀ i nc, cs !! i = Some nc → ∃ r, r ∈ dev_regions nc.2 ∧
    rg_addr r = a ∧ rg_len r = Z.min n limit ∧
    bd_lkey d !! i = Some (rg_lkey r) ∧ bd_rkey d !! i = Some (rg_rkey r).

Lemma registered_contexts a n acc g cs cs' :
  Forall2 (ran (dev_register a n acc g)) cs cs' → ready a n cs →
  Forall2 (λ nc nc', nc'.1 = nc.1 ∧ dev_wf nc'.2 ∧ ∃ lk rk,
    dev_regions nc'.2 ≡ₚ MkDeviceRegion a (Z.min n limit) lk rk :: dev_regions nc.2) cs cs'.
Proof.
  induction 1 as [|nc nc' cs cs' (Hn & h & evs & Hrun) _ IH]; intros Hr; [constructor|].
  apply Forall_cons in Hr as [[Hwf Hf] Hr]. constructor; [|by apply IH].
  split; [done|]. by eapply law_register_ok.
Qed.

(** C11: A successful registration of a buffer with the transport publishes exactly one
    buffer descriptor, after all device calls, with the keys each device's context answers
    for the buffer's address afterwards.  When the buffer is not empty (nor the size limit
    of the devices 0) and overlaps no region registered before, these are, device by device,
    the local and remote keys of the memory region that context now holds for the buffer.
    A failed registration publishes none. *)
Theorem register_publishes_keys t a n name up fs h rc t' evs :
  registerLocalMemoryInternal cfg t a n name up fs h = ((rc, t'), evs) →
  (rc = 0 → ∃ name' evs', evs = evs' ++ [TAddBuffer (descriptor t' a n name') up 0] ∧
     Forall from_device evs' ∧
     length (context_list_ t') = length (context_list_ t) ∧
     (0 < n → 0 < limit → ready a n (context_list_ t) →
      valid_keys a n (descriptor t' a n name') (context_list_ t'))) ∧
  (rc ≠ 0 → ∀ d up', TAddBuffer d up' 0 ∉ evs).
Proof.
  intros Hrun%register_run_intro.
  assert (∀ l d u, Forall from_device l → (TAddBuffer d u 0 : event) ∉ l) as Hno.
  { intros l d u Hl Hin. rewrite Forall_forall in Hl. destruct (Hl _ Hin) as [? [=]]. }
  destruct Hrun as [rc t' evs Hrc Hev|t' evs rc n' Hran Hev]; split; intros Hz; [done|auto| |].
  - subst rc. eexists _, _. split; [done|]. split; [done|].
    split; [symmetry; by eapply Forall2_length|]. intros Hn Hlim Hready.
    apply registered_contexts in Hran; [|done].
    split_and!; [done|done|by (cbn; rewrite length_fmap)..|]. intros i nc' Hi.
    destruct (Forall2_lookup_r _ _ _ _ _ Hran Hi) as (nc & _ & _ & Hwf & lk & rk & Hp).
    assert (MkDeviceRegion a (Z.min n limit) lk rk ∈ dev_regions nc'.2) as Hin
      by (rewrite Hp; by left).
    destruct (law_lookup nc'.2 _ a Hwf Hin) as [Hlk Hrk]; [unfold covers; cbn; lia|].
    exists (MkDeviceRegion a (Z.min n limit) lk rk). cbn in *.
    rewrite !list_lookup_fmap, Hi. cbn. rewrite Hlk, Hrk. done.
  - intros d u [Hin|Heq%list_elem_of_singleton]%elem_of_app; [by eapply Hno|congruence].
Qed.

(** Unregistering a buffer right after registering it restores the regions of
    every context. *)
Theorem register_unregister_restores t a n name up fs h t1 e1 up' fs' h' t2 e2 :
  registerLocalMemoryInternal cfg t a n name up fs h = ((0, t1), e1) →
  unregisterLocalMemoryInternal cfg t1 a up' fs' h' = ((0, t2), e2) →
  0 < n → 0 < limit → ready a n (context_list_ t) →
  Forall2 (λ nc nc', nc'.1 = nc.1 ∧ dev_wf nc'.2 ∧ dev_regions nc'.2 ≡ₚ dev_regions nc.2)
    (context_list_ t) (context_list_ t2).
Proof.
  intros Hreg%register_run_intro Hunreg Hn Hlim Hready.
  inversion Hreg as [|? ? ? ? Hran]; subst; [done|].
  apply registered_contexts in Hran; [|done].
  apply bind_inv in Hunreg as (rc & e3 & ? & _ & Hrun & _).
  destruct (Z.eqb_spec rc 0); cbn [negb] in Hrun; [|by apply ret_inv in Hrun as [[= ? ?] _]].
  apply bind_inv in Hrun as ([rc' cs] & e4 & ? & Hun & [[= <- ->] _]%ret_inv & _).
  apply each_ok in Hun. cbn [with_contexts context_list_]. clear -Hran Hun Hn Hlim.
  revert cs Hun. induction Hran as [|nc nc1 cs0 cs1 (Hname & Hwf & lk & rk & Hp) _ IH]; intros cs Hun.
  { inversion Hun. constructor. }
  inversion Hun as [|? nc2 ? ? (Hn2 & h2 & ev2 & Hrun2)]; subst. constructor; [|by apply IH].
  destruct (law_unregister_ok a nc1.2 h2 nc2.2 ev2 (MkDeviceRegion a (Z.min n limit) lk rk))
    as [Hwf2 Hp2]; [done|done|rewrite Hp; by left|unfold covers; cbn; lia|].
  split; [congruence|]. split; [done|]. rewrite Hp in Hp2. symmetry. by eapply Permutation_cons_inv.
Qed.
End Registration.

(** ** Pre-touching *)

Lemma pretouch_threads_range hwc : 0 < hwc → 0 < pretouch_threads hwc <= 16.
Proof. intros Hh. unfold pretouch_threads. case_match; bool_to_prop; lia. Qed.

(** The blocks that the pre-touching threads register lie side by side from the
    start of the buffer, do not reach beyond its end (clipped to the largest
    region), and leave fewer bytes untouched than there are threads. *)
Theorem pretouch_blocks_cover hwc max a n :
  0 < hwc → 0 <= n → 0 <= max → 0 <= a → a + n < u64_modulus →
  let len := Z.min n max in
  let size := len / pretouch_threads hwc in
  let blocks := pretouch_blocks hwc max a n in
  (∀ i b, blocks !! i = Some b →
     b = (a + Z.of_nat i * size, size) ∧ 0 < size ∧ a <= b.1 ∧ b.1 + b.2 <= a + len) ∧
  len - Z.of_nat (length blocks) * size < pretouch_threads hwc.
Proof.
  intros Hh Hn Hm Ha Hfit len size blocks. pose proof (pretouch_threads_range hwc Hh) as Ht.
  assert (blocks = if size =? 0 then [] else
    (λ i : nat, (u64 (a + Z.of_nat i * size), size)) <$> seq 0 (Z.to_nat (pretouch_threads hwc)))
    as Hb.
  { unfold blocks, pretouch_blocks. replace (if max <? n then max else n) with len; [done|].
    unfold len. destruct (Z.ltb_spec max n); lia. }
  assert (0 <= len <= n) as Hlen by (unfold len; lia).
  pose proof (Z.div_mod len (pretouch_threads hwc) ltac:(lia)) as Hdiv.
  pose proof (Z.mod_pos_bound len (pretouch_threads hwc) ltac:(lia)) as Hmod. fold size in Hdiv.
  assert (0 <= size) as Hs by (apply Z.div_pos; lia). clearbody blocks size. subst blocks.
  destruct (Z.eqb_spec size 0) as [->|Hne]; [split; [done|cbn; lia]|].
  split; [|rewrite length_fmap, length_seq; nia].
  intros i b Hi. apply list_lookup_fmap_Some in Hi as (j & -> & Hj).
  apply lookup_seq in Hj as [-> Hlt]. cbn.
  assert (Z.of_nat i * size + size <= len) by nia.
  rewrite u64_small by (unfold in_u64; nia). split_and!; [done|lia|nia|lia].
Qed.

Lemma pretouch_blocks_cover_witness :
  let len := Z.min 100 90 in
  let size := len / pretouch_threads 4 in
  let blocks := pretouch_blocks 4 90 4096 100 in
  blocks = [(4096, 22); (4118, 22); (4140, 22); (4162, 22)] ∧
  (∀ i b, blocks !! i = Some b →
     b = (4096 + Z.of_nat i * size, size) ∧ 0 < size ∧ 4096 <= b.1 ∧ b.1 + b.2 <= 4096 + len) ∧
  len - Z.of_nat (length blocks) * size < pretouch_threads 4.
Proof.
  intros len size blocks. split; [by vm_compute|].
  apply (pretouch_blocks_cover 4 90 4096 100); try lia. by vm_compute.
Defined.

(** ** The local segment *)

Section Segment.
Context {Ctx Ev Topo Rest : Type} (cfg : TransportConfig) `{!RdmaDevice Ctx Ev}.
Context `{!TransportApi (Ev := Ev) (Topo := Topo) (Rest := Rest)}.
Abbreviation event := (transport_event Ev Topo Rest).
Abbreviation desc := (SegmentDesc Topo Rest).

(** The local segment after the calls [evs], if it was [d] before. *)
Fixpoint local_segment (d : option desc) (evs : list event) : option desc :=
  match evs with
  | [] => d
  | TAddLocalSegment _ d' :: evs' => local_segment (Some d') evs'
  | _ :: evs' => local_segment d evs'
  end.

Lemma refresh_device_spec name lid gid ds ds' :
  refresh_device name lid gid ds = Some ds' →
  ∃ pre d post, ds = pre ++ d :: post ∧ dd_name d = name ∧
    Forall (λ d, dd_name d ≠ name) pre ∧ ds' = pre ++ MkDevice name lid gid :: post.
Proof.
  revert ds'. induction ds as [|d ds IH]; intros ds'; cbn; [done|].
  case_bool_decide as Hd; cbn.
  - intros [= <-]. exists [], d, ds. by rewrite Hd.
  - destruct (refresh_device name lid gid ds) as [ds1|] eqn:E; [|done]. intros [= <-].
    destruct (IH _ eq_refl) as (pre & d' & post & -> & Hn & Hpre & ->).
    exists (d :: pre), d', post. split_and!; [done..|by constructor|done].
Qed.

(** Refreshing the published description of a device changes exactly the first
    device of that name, and the change survives only when it was published:
    whenever the call fails, the local segment is afterwards what it was before. *)
Theorem refresh_rolls_back (t : Transport Ctx) name lid gid h rc evs :
  refreshLocalDeviceDesc cfg t name lid gid h = (rc, evs) →
  ERR_NOT_REGISTERED cfg ≠ 0 → ERR_NO_DEVICE cfg ≠ 0 →
  let before := m_local_desc h in
  (rc ≠ 0 → local_segment before evs = before) ∧
  (rc = 0 → ∃ d pre dev post, before = Some d ∧
     sd_devices d = pre ++ dev :: post ∧ dd_name dev = name ∧
     Forall (λ d, dd_name d ≠ name) pre ∧
     local_segment before evs = Some (with_devices (pre ++ MkDevice name lid gid :: post) d) ∧
     TUpdateLocalDesc 0 ∈ evs).
Proof.
  intros Hrun Hn1 Hn2 before. apply bind_inv in Hrun as (d & e1 & ? & [-> ->]%call_inv & Hrun & ->).
  fold before in Hrun |- *. destruct before as [d|]; [|by apply ret_inv in Hrun as [-> ->]].
  destruct (refresh_device _ _ _ _) as [ds|] eqn:E; [|by apply ret_inv in Hrun as [-> ->]].
  apply refresh_device_spec in E as (pre & dev & post & Hds & Hname & Hpre & ->).
  apply bind_inv in Hrun as (u & e2 & ? & [_ ->]%call_inv & Hrun & ->).
  apply bind_inv in Hrun as (rc' & e3 & ? & [_ ->]%call_inv & Hrun & ->).
  apply bind_inv in Hrun as (u' & e4 & ? & Hroll & [-> ->]%ret_inv & ->).
  destruct (Z.eqb_spec rc' 0) as [->|]; cbn [negb] in Hroll.
  - apply ret_inv in Hroll as [-> ->]. split; [done|]. intros _. exists d, pre, dev, post.
    split_and!; try done. cbn. set_solver.
  - apply call_inv in Hroll as [_ ->]. split; [done|]. by intros ->.
Qed.

(** ** Installation *)

(** Each device of the list has a context, or was disabled. *)
Definition disabled (evs : list event) (name : string) : Prop := TDisableDevice name ∈ evs.

Definition setup_event (e : event) : Prop :=
  match e with
  | TDevice _ | TDisableDevice _ | TGetHcaList _ | TTopologyEmpty _ => True
  | _ => False
  end.

Lemma on_device_setup {A} (m : comp Ev A) (h : list event) v evs :
  on_device m h = (v, evs) → Forall setup_event evs.
Proof.
  intros Hev%on_device_events. eapply Forall_impl; [done|]. by intros e [d ->].
Qed.

Lemma construct_contexts_run names (h : list event) (cs : list (string * Ctx)) evs :
  construct_contexts names h = (cs, evs) →
  Forall setup_event evs ∧ sublist cs.*1 names ∧
  (∀ name, name ∈ names → name ∈ cs.*1 ∨ disabled evs name) ∧
  Forall (λ nc, ∃ h e, dev_construct nc.1 h = ((0, nc.2), e)) cs.
Proof.
  revert h cs evs. induction names as [|name names IH]; intros h cs evs Hrun; cbn in Hrun.
  { apply ret_inv in Hrun as [-> ->]. split_and!; [constructor|constructor|set_solver|constructor]. }
  apply bind_inv in Hrun as ([rc c] & e1 & ? & H1 & Hrun & ->).
  pose proof (on_device_setup _ _ _ _ H1) as Hs1. cbn [fst snd] in Hrun.
  destruct (Z.eqb_spec rc 0) as [->|]; cbn [negb] in Hrun.
  - apply bind_inv in Hrun as (cs' & e2 & ? & H2 & [-> ->]%ret_inv & ->). rewrite app_nil_r.
    apply IH in H2 as (Hs & Hsub & Hall & Hc). apply lift_inv in H1 as (e1' & H1 & _).
    split_and!; [by apply Forall_app|by constructor| |].
    + intros dev [->|Hx]%elem_of_cons; [left; by left|].
      destruct (Hall _ Hx); [left; by right|right]. apply elem_of_app. by right.
    + constructor; [by eexists _, _|done].
  - apply bind_inv in Hrun as (u & e2 & ? & [_ ->]%call_inv & Hrun & ->).
    apply bind_inv in Hrun as (c' & e3 & ? & H3 & H4 & ->).
    apply IH in H4 as (Hs & Hsub & Hall & Hc). apply on_device_setup in H3.
    split_and!; [|by constructor| |done].
    + repeat (apply Forall_app; split); try done. by repeat constructor.
    + unfold disabled. intros dev [->|Hx]%elem_of_cons; [right|].
      * apply elem_of_app. right. by left.
      * destruct (Hall _ Hx); [by left|right]. rewrite !elem_of_app. auto.
Qed.

(** A successful installation gives every device of the topology a constructed
    context, or disables it, in the order of the device list; it then sets the
    local segment, describing exactly those contexts, starts the handshake
    daemon and publishes the segment last. *)
Theorem install_publishes_contexts name bind_addr (t : Transport Ctx) h t' evs :
  install cfg name true bind_addr t h = ((0, t'), evs) →
  ERR_NO_DEVICE cfg ≠ 0 → context_list_ t = [] →
  ∃ e1 d seg,
    evs = e1 ++ [TGetLocalDesc d; TAddLocalSegment name seg; TStartDaemon 0; TUpdateLocalDesc 0] ∧
    Forall setup_event e1 ∧
    sd_name seg = name ∧
    sd_devices seg = sd_devices (default default_desc d) ++ (device_desc <$> context_list_ t') ∧
    sublist (context_list_ t').*1 (t_hca_list h) ∧
    (∀ dev, dev ∈ t_hca_list h → dev ∈ (context_list_ t').*1 ∨ disabled e1 dev) ∧
    Forall (λ nc, ∃ h e, dev_construct nc.1 h = ((0, nc.2), e)) (context_list_ t').
Proof.
  intros Hrun Hne Hempty. unfold install in Hrun. cbn [negb] in Hrun.
  apply bind_inv in Hrun as ([rc t1] & e1 & ? & Hinit & Hrun & ->). cbn [fst snd] in Hrun.
  apply bind_inv in Hinit as (names & ? & ? & [-> ->]%call_inv & Hinit & ->).
  apply bind_inv in Hinit as (cs & e2 & ? & Hc & Hinit & ->).
  apply bind_inv in Hinit as (none & e3 & ? & [_ ->]%call_inv & [[= -> ->] ->]%ret_inv & ->).
  apply construct_contexts_run in Hc as (Hs & Hsub & Hall & Hok).
  destruct none; [by rewrite (proj2 (Z.eqb_neq _ _) Hne) in Hrun; apply ret_inv in Hrun as [[= ? ?] _]|].
  cbn [negb Z.eqb] in Hrun. rewrite Hempty in Hrun.
  apply bind_inv in Hrun as (rc & e4 & ? & Halloc & Hrun & ->).
  apply bind_inv in Halloc as (d & ? & ? & [-> ->]%call_inv & Halloc & ->).
  cbv beta in Halloc. apply bind_inv in Halloc as (u & e5 & ? & [_ ->]%call_inv & [-> ->]%ret_inv & ->).
  cbn [negb Z.eqb] in Hrun.
  apply bind_inv in Hrun as (rc & e6 & ? & [_ ->]%call_inv & Hrun & ->).
  destruct (Z.eqb_spec rc 0) as [->|]; cbn [negb] in Hrun; [|by apply ret_inv in Hrun as [[= ? ?] _]].
  apply bind_inv in Hrun as (rc & e7 & ? & [_ ->]%call_inv & [[= <- ->] ->]%ret_inv & ->).
  cbn [with_contexts context_list_ app local_server_name_].
  eexists ([_] ++ e2 ++ [_]), _, _. split; [by rewrite <- !app_assoc|].
  split_and!; try done.
  - repeat (apply Forall_app; split); by repeat constructor.
  - intros dev Hdev. destruct (Hall _ Hdev); [by left|right]. unfold disabled.
    rewrite !elem_of_app. auto.
Qed.

(** ** Handshakes *)

Lemma hca_index_lookup name names i :
  hca_index name names = Some i → names !! i = Some name.
Proof.
  revert i. induction names as [|n names IH]; intros i; cbn; [done|].
  case_bool_decide as Hn; [by intros [= <-]; subst|].
  destruct (hca_index name names); [|done]. intros [= <-]. cbn. by apply IH.
Qed.

(** While the topology lists exactly the devices with a context, a handshake never
    reads beyond the contexts, and it is served by the context of the device
    named in the path. *)
Theorem setup_uses_named_context (t : Transport Ctx) peer local h r evs :
  onSetupRdmaConnections cfg t peer local h = (r, evs) →
  (∀ h, t_hca_list h = (context_list_ t).*1) →
  is_Some r ∧
  ∀ e rc, TSetupPassive e rc ∈ evs → ∃ c h' ev,
    (nic_name_of_path peer, c) ∈ context_list_ t ∧ dev_endpoint local c h' = (Some e, ev).
Proof.
  intros Hrun Hlist. unfold onSetupRdmaConnections in Hrun.
  case_match; [apply ret_inv in Hrun as [-> ->]; split; [done|set_solver]|].
  apply bind_inv in Hrun as (names & ? & ? & [-> ->]%call_inv & Hrun & ->).
  destruct (hca_index _ _) as [i|] eqn:Hi; [|apply ret_inv in Hrun as [-> ->]; split; [done|set_solver]].
  apply hca_index_lookup in Hi. rewrite Hlist in Hi.
  apply list_lookup_fmap_Some in Hi as ([n c] & Hn & Hi). cbn in Hn. rewrite Hi in Hrun.
  apply bind_inv in Hrun as (ep & e1 & ? & H1 & Hrun & ->).
  pose proof (on_device_setup _ _ _ _ H1) as Hs. apply lift_inv in H1 as (e1' & H1 & ->).
  assert (∀ e rc, (TSetupPassive e rc : event) ∉ TDevice <$> e1') as Hno.
  { intros e rc (? & ? & _)%list_elem_of_fmap. done. }
  destruct ep as [ep|].
  - apply bind_inv in Hrun as (rc & e2 & ? & [_ ->]%call_inv & [-> ->]%ret_inv & ->).
    split; [done|]. intros e rc'. rewrite !elem_of_app. intros [Hx|[Hx|[Hx|Hx]]].
    + set_solver.
    + by destruct (Hno _ _ Hx).
    + apply list_elem_of_singleton in Hx. injection Hx as -> ->. exists c. subst n.
      eexists _, _. split; [by eapply list_elem_of_lookup_2|done].
    + set_solver.
  - apply ret_inv in Hrun as [-> ->]. split; [done|]. intros e rc. rewrite !elem_of_app.
    intros [Hx|[Hx|Hx]]; [set_solver|by destruct (Hno _ _ Hx)|set_solver].
Qed.
End Segment.

(** ** The contexts of [RdmaContext.v] keep the promise *)

Section Instance.
Context `{!Verbs}.
Context (build : GpuBuild).
Context (max_mr_size ERR_CONTEXT ERR_DEVICE_NOT_FOUND IBV_ACCESS_LOCAL_WRITE : Z).
Context (gpu_prefix : string).
Context (with_nvidia_peermem isKernelDmabufSupported skip_null_gid_check : bool).
Context (default_candidate : AutoGidCandidate).
Context (selectBestAutoGidCandidate : list AutoGidCandidate → option AutoGidSelection).
(** The topology, the configuration, and the values of uninitialised variables. *)
Context (topology : list (string * (list string * list string))).
Context (num_cq_list num_comp_channels : nat) (port gid_index max_cqe : Z).
Context (gid0 : ibv_gid) (uninit : RawMeta).

Definition rdma_context_device : RdmaDevice RdmaContext verbs_event := {|
  dev_construct := λ name,
    construct build ERR_CONTEXT ERR_DEVICE_NOT_FOUND gpu_prefix with_nvidia_peermem
      skip_null_gid_check default_candidate selectBestAutoGidCandidate name topology num_cq_list
      num_comp_channels port gid_index max_cqe (new_context gid0);
  dev_destroy := destroy_context;
  dev_register := λ a n acc dmabuf,
    registerMemoryRegion build max_mr_size ERR_CONTEXT with_nvidia_peermem isKernelDmabufSupported
      a n acc dmabuf uninit;
  dev_unregister := unregisterMemoryRegion ERR_CONTEXT;
  dev_pretouch := λ a n dmabuf _,
    preTouchMemory build max_mr_size ERR_CONTEXT IBV_ACCESS_LOCAL_WRITE with_nvidia_peermem
      isKernelDmabufSupported a n dmabuf uninit;
  dev_endpoint := endpoint;
  dev_lkey := λ a c, lkey a (memory_region_map_ c);
  dev_rkey := λ a c, rkey a (memory_region_map_ c);
  dev_lid := lid_;
  dev_gid := λ c, gidBytesToString (gid_ c) |}.

Definition region_of (e : Z * MemoryRegionMeta) : device_region :=
  MkDeviceRegion e.1 (mr_length (meta_mr e.2)) (mr_lkey (meta_mr e.2)) (mr_rkey (meta_mr e.2)).

Definition context_wf (c : RdmaContext) : Prop :=
  mr_wf (memory_region_map_ c) ∧ disjoint_regions (memory_region_map_ c).

Lemma free_of_free_range a n m : free_of a n (region_of <$> m) → free_range a n m.
Proof. intros Hf e He. apply (Hf (region_of e)). by apply list_elem_of_fmap_2. Qed.

Lemma disjoint_assign a n v m :
  meta_addr v = a → mr_length (meta_mr v) = n → free_range a n m → disjoint_regions m →
  disjoint_regions (map_assign a v m).
Proof.
  intros Ha Hn Hf Hd e1 e2 [->|H1]%map_assign_elem [->|H2]%map_assign_elem Hlt; cbn in *.
  - lia.
  - destruct (Hf _ H2); [lia|]. rewrite Hn. lia.
  - destruct (Hf _ H1); lia.
  - by apply Hd.
Qed.

Lemma region_found (c : RdmaContext) r a :
  context_wf c → r ∈ region_of <$> memory_region_map_ c → covers r a →
  ∃ e, r = region_of e ∧ e ∈ memory_region_map_ c ∧
    findMemoryRegionContaining a (memory_region_map_ c) = Some e.
Proof.
  intros [Hwf Hd] (e & -> & He)%list_elem_of_fmap Hc. exists e. split_and!; [done..|].
  apply find_region_iff; [done..|]. split; [done|]. destruct Hwf as [_ Hk].
  rewrite Forall_forall in Hk. specialize (Hk _ He). unfold covers in Hc. cbn in Hc.
  unfold containsAddress. lia.
Qed.

Context (ERR_CONTEXT_nonzero : ERR_CONTEXT ≠ 0).
Context (cuda_types : ∀ h a c, v_pointer_type h a ≠ Some (CU_OTHER c)).
Context (hip_types : ∀ h a c d, v_hip_attributes h a ≠ Some (HIP_OTHER c, d)).
Context (reg_length : ∀ h a n acc mr, v_reg_mr h a n acc = Some mr → mr_length mr = n).
Context (dmabuf_length : ∀ h off n a fd acc mr,
  v_reg_dmabuf_mr h off n a fd acc = Some mr → mr_length mr = n).

Lemma context_register_ok a n acc dmabuf c h c' evs :
  dev_register (RdmaDevice := rdma_context_device) a n acc dmabuf c h = ((0, c'), evs) →
  context_wf c → free_of a (Z.min n max_mr_size) (region_of <$> memory_region_map_ c) →
  context_wf c' ∧ ∃ lk rk, region_of <$> memory_region_map_ c' ≡ₚ
    MkDeviceRegion a (Z.min n max_mr_size) lk rk :: (region_of <$> memory_region_map_ c).
Proof using cuda_types hip_types ERR_CONTEXT_nonzero reg_length dmabuf_length.
  intros (mr & Hlen & ->)%register_ok_map [Hwf Hd] Hf%free_of_free_range; [|done..]. cbn. split.
  - split; [by apply (map_assign_wf _ (MkMeta a mr))|]. by eapply disjoint_assign.
  - exists (mr_lkey mr), (mr_rkey mr).
    rewrite (map_assign_fresh _ _ _ (free_range_fresh _ _ _ Hf)), fmap_cons.
    unfold region_of at 1. cbn. by rewrite Hlen.
Qed.

Lemma context_unregister_ok a c h c' evs r :
  dev_unregister (RdmaDevice := rdma_context_device) a c h = ((0, c'), evs) →
  context_wf c → r ∈ region_of <$> memory_region_map_ c → covers r a →
  context_wf c' ∧
  region_of <$> memory_region_map_ c ≡ₚ r :: (region_of <$> memory_region_map_ c').
Proof using ERR_CONTEXT_nonzero.
  intros Hrun Hwf Hr Hc. destruct (region_found _ _ _ Hwf Hr Hc) as ([k m] & -> & He & Hfind).
  cbn in Hrun. unfold unregisterMemoryRegion in Hrun. rewrite Hfind in Hrun.
  apply bind_inv in Hrun as (rc & e1 & ? & _ & Hrun & _).
  destruct (Z.eqb_spec rc 0); cbn [negb] in Hrun; [|by apply ret_inv in Hrun as [[= ? ?] _]].
  apply ret_inv in Hrun as [[= ->] _]. destruct Hwf as [Hwf Hd]. cbn. split.
  - split; [by apply map_erase_wf|].
    intros x1 x2 [H1 _]%map_erase_elem [H2 _]%map_erase_elem. by apply Hd.
  - rewrite <- fmap_cons. by rewrite (map_erase_perm _ _ Hwf He) at 1.
Qed.

Lemma context_register_err a n acc dmabuf c h rc c' evs :
  dev_register (RdmaDevice := rdma_context_device) a n acc dmabuf c h = ((rc, c'), evs) →
  rc ≠ 0 → c' = c.
Proof.
  intros ([rc1 m] & e1 & ? & _ & Hrun & _)%bind_inv Hne. cbn in Hrun.
  destruct (Z.eqb_spec rc1 0); cbn [negb] in Hrun; [|by apply ret_inv in Hrun as [[= ? ?] _]].
  case_match; by apply ret_inv in Hrun as [[= ? ?] _].
Qed.

Lemma context_unregister_err a c h rc c' evs :
  dev_unregister (RdmaDevice := rdma_context_device) a c h = ((rc, c'), evs) → rc ≠ 0 → c' = c.
Proof.
  cbn. unfold unregisterMemoryRegion. intros Hrun Hne.
  case_match; [|by apply ret_inv in Hrun as [[= ? ?] _]]. case_match.
  apply bind_inv in Hrun as (rc1 & e1 & ? & _ & Hrun & _).
  case_match; by apply ret_inv in Hrun as [[= ? ?] _].
Qed.

Definition rdma_context_laws :
  RdmaDeviceLaws RdmaContext verbs_event (RdmaDevice0 := rdma_context_device) max_mr_size.
Proof using cuda_types hip_types ERR_CONTEXT_nonzero reg_length dmabuf_length.
  refine {| dev_regions := λ c, region_of <$> memory_region_map_ c; dev_wf := context_wf |}.
  - intros *. apply context_register_ok.
  - intros *. apply context_register_err.
  - intros c r a Hwf Hr Hc. cbn. unfold lkey, rkey.
    by destruct (region_found _ _ _ Hwf Hr Hc) as (e & -> & _ & ->).
  - intros *. apply context_unregister_ok.
  - intros *. apply context_unregister_err.
Defined.
End Instance.

(** ** Failed registrations *)

Lemma on_device_run {Ev Topo Rest A} (m : comp Ev A) (h : list (transport_event Ev Topo Rest)) v evs :
  m (omap device_event h) = (v, evs) → on_device m h = (v, TDevice <$> evs).
Proof. unfold on_device, lift_comp. by intros ->. Qed.

Lemma device_events {Ev Topo Rest} (h : list (transport_event Ev Topo Rest)) (evs : list Ev) :
  omap device_event (h ++ (TDevice <$> evs)) = omap device_event h ++ evs.
Proof. rewrite omap_app. f_equal. induction evs as [|e l IH]; cbn; [done|by f_equal]. Qed.

(** When a later device refuses a buffer, the earlier devices keep it registered:
    the transport returns the error without undoing their registrations. *)
Theorem partial_registration_stays {Ctx Ev Topo Rest} `{!RdmaDevice Ctx Ev}
    `{!TransportApi (Ev := Ev) (Topo := Topo) (Rest := Rest)} cfg (t : Transport Ctx) a n
    name up n1 (c1 c1' : Ctx) n2 (c2 c2' : Ctx) rc e1 e2 h :
  context_list_ t = [(n1, c1); (n2, c2)] → n < 4 * 1024 * 1024 * 1024 → rc ≠ 0 →
  dev_register a n (access_rights cfg) (allow_dmabuf cfg name) c1 (omap device_event h) =
    ((0, c1'), e1) →
  dev_register a n (access_rights cfg) (allow_dmabuf cfg name) c2 (omap device_event h ++ e1) =
    ((rc, c2'), e2) →
  (registerLocalMemoryInternal cfg t a n name up true h).1 =
    (rc, with_contexts [(n1, c1'); (n2, c2')] t).
Proof.
  intros Hcs Hn Hrc H1 H2. unfold registerLocalMemoryInternal, do_pre_touch.
  rewrite (proj2 (Z.leb_gt _ n) Hn), andb_false_r, Hcs.
  apply Z.eqb_neq in Hrc. unfold bind at 1, ret at 1. cbn [negb Z.eqb]. rewrite app_nil_r.
  unfold use_parallel, bind at 1. cbn [each_seq]. unfold bind at 1.
  rewrite (on_device_run _ _ _ _ H1). cbn [fst snd Z.eqb negb]. unfold bind at 1 2.
  rewrite <- device_events in H2. rewrite (on_device_run _ _ _ _ H2). cbn [fst snd].
  rewrite Hrc. cbn. by rewrite Hrc.
Qed.

(** ** A sample system *)

Definition sample_device : RdmaDevice RdmaContext verbs_event :=
  @rdma_context_device sample_verbs USE_CUDA 4096 (-2) (-3) 1 "cuda:" false false false
    sample_candidate sample_select [("cuda:0", (["mlx5_0"], []))]%string 2 1 1 (-1) 128 []
    (MkRaw 0 None).

Definition sample_laws : RdmaDeviceLaws RdmaContext verbs_event (RdmaDevice0 := sample_device) 4096 :=
  @rdma_context_laws sample_verbs USE_CUDA 4096 (-2) (-3) 1 "cuda:" false false false
    sample_candidate sample_select [("cuda:0", (["mlx5_0"], []))]%string 2 1 1 (-1) 128 []
    (MkRaw 0 None) ltac:(done) sample_cuda_types ltac:(done)
    ltac:(by intros ? ? ? ? ? [= <-]) ltac:(by intros ? ? ? ? ? ? ? [= <-]).

Definition sample_tcfg : TransportConfig :=
  MkTransportConfig false false false true "cuda:" 8 4096 (-1) true 7 1048576 (-1) (-4) (-5) (-6).

Definition sample_desc : SegmentDesc unit unit :=
  MkSegmentDesc "node" "" "rdma" [MkDevice "mlx5_0" 5 "old"] tt tt.

(** [update] is the answer of the metadata service to an update. *)
Definition sample_tapi (update : Z) : @TransportApi verbs_event unit unit := {|
  m_add_buffer := λ _ _ _, 0;
  m_remove_buffer := λ _ _ _, 0;
  m_local_desc := λ _, Some sample_desc;
  m_update := λ _, update;
  m_start_daemon := λ _, 0;
  m_setup_passive := λ _ _, 0;
  t_hca_list := λ _, ["mlx5_0"%string];
  t_empty := λ _, false;
  t_pointer_attributes := λ _ _, AttrOther;
  t_move_pages := λ _ l, Some ((λ _, 0) <$> l);
  t_topology := λ _, tt;
  default_desc := sample_desc;
  host_port := λ s, (s, 12345);
  nic_name_of_path := λ s, s |}.

Definition sample_transport : Transport RdmaContext :=
  MkTransport "node" "node" [("mlx5_0"%string, sample_context)].

#[local] Abbreviation sample_reg :=
  (@registerLocalMemoryInternal RdmaContext verbs_event unit unit sample_device sample_tcfg
     (sample_tapi 0) sample_transport 4096 64 "*" true false).
#[local] Abbreviation sample_unreg t :=
  (@unregisterLocalMemoryInternal RdmaContext verbs_event unit unit sample_device sample_tcfg
     (sample_tapi 0) t 4096 true false).

Definition transport_registered : Transport RdmaContext := (value_of sample_reg []).2.

Lemma sample_reg_run : sample_reg [] = ((0, transport_registered), emitted sample_reg []).
Proof. by vm_compute. Qed.

Lemma sample_ready : @ready RdmaContext verbs_event sample_tcfg sample_device sample_laws 4096 64
  (context_list_ sample_transport).
Proof.
  constructor; [|constructor]. cbn [snd dev_wf dev_regions sample_laws rdma_context_laws].
  unfold context_wf. rewrite sample_regions. split; [|by intros r ?%not_elem_of_nil].
  split; [by repeat constructor|]. by intros e1 e2 ?%not_elem_of_nil.
Qed.

Lemma register_publishes_keys_witness :
  (∃ d evs', emitted sample_reg [] = evs' ++ [TAddBuffer d true 0] ∧ Forall from_device evs' ∧
     @valid_keys RdmaContext verbs_event sample_tcfg sample_device sample_laws 4096 64 d
       (context_list_ transport_registered)) ∧
  length (context_list_ transport_registered) = 1%nat.
Proof.
  destruct (@register_publishes_keys RdmaContext verbs_event unit unit sample_tcfg sample_device
    (sample_tapi 0) sample_laws sample_transport 4096 64 "*" true false [] 0 transport_registered _
    sample_reg_run) as [Hok _].
  destruct (Hok eq_refl) as (n & evs' & He & Hd & Hl & Hk). split; [|done].
  eexists _, evs'. split; [exact He|]. split; [exact Hd|].
  apply Hk; [lia|by vm_compute|apply sample_ready].
Defined.

Lemma register_unregister_restores_witness :
  let t2 := (value_of (sample_unreg transport_registered) []).2 in
  context_list_ transport_registered ≠ context_list_ sample_transport ∧
  Forall2 (λ nc nc', nc'.1 = nc.1 ∧
      @dev_wf _ _ sample_device 4096 sample_laws nc'.2 ∧
      @dev_regions _ _ sample_device 4096 sample_laws nc'.2 ≡ₚ
      @dev_regions _ _ sample_device 4096 sample_laws nc.2)
    (context_list_ sample_transport) (context_list_ t2).
Proof.
  intros t2. split; [by vm_compute|].
  apply (@register_unregister_restores RdmaContext verbs_event unit unit sample_tcfg sample_device
    (sample_tapi 0) sample_laws sample_transport 4096 64 "*" true false [] transport_registered
    (emitted sample_reg []) true false [] t2 (emitted (sample_unreg transport_registered) [])).
  - apply sample_reg_run.
  - by vm_compute.
  - lia.
  - by vm_compute.
  - apply sample_ready.
Defined.

#[local] Abbreviation sample_refresh :=
  (@refreshLocalDeviceDesc RdmaContext verbs_event unit unit sample_tcfg (sample_tapi (-1))
     sample_transport "mlx5_0" 9 "new").

(** The sample metadata service refuses the update. *)
Lemma refresh_rolls_back_witness :
  value_of sample_refresh [] = -1 ∧
  local_segment (Some sample_desc) (emitted sample_refresh []) = Some sample_desc.
Proof.
  split; [by vm_compute|].
  apply (@refresh_rolls_back RdmaContext verbs_event unit unit sample_tcfg (sample_tapi (-1))
    sample_transport "mlx5_0" 9 "new" [] (-1)); done.
Defined.

#[local] Abbreviation sample_install :=
  (@install RdmaContext verbs_event unit unit sample_device sample_tcfg (sample_tapi 0) "node" true
     None (MkTransport "" "" [])).

Lemma install_publishes_contexts_witness :
  let t' := (value_of sample_install []).2 in
  context_list_ t' = [("mlx5_0"%string, sample_context)] ∧
  ∃ e1 d seg,
    emitted sample_install [] = e1 ++
      [TGetLocalDesc d; TAddLocalSegment "node" seg; TStartDaemon 0; TUpdateLocalDesc 0] ∧
    sd_devices seg = sd_devices (default sample_desc d) ++
      ((@device_desc RdmaContext verbs_event sample_device) <$> context_list_ t').
Proof.
  intros t'. split; [by vm_compute|].
  destruct (@install_publishes_contexts RdmaContext verbs_event unit unit sample_tcfg sample_device
    (sample_tapi 0) "node" None (MkTransport "" "" []) [] t' (emitted sample_install []))
    as (e1 & d & seg & He & _ & _ & Hd & _); [by vm_compute|done|done|].
  exists e1, d, seg. split; [exact He|exact Hd].
Defined.

(** A handshake for the only device. *)
Lemma setup_uses_named_context_witness :
  let run := @onSetupRdmaConnections RdmaContext verbs_event unit unit sample_device sample_tcfg
               (sample_tapi 0) sample_transport "mlx5_0" "peer" in
  value_of run [] = Some 0 ∧ is_Some (value_of run []).
Proof.
  intros run. split; [by vm_compute|].
  apply (@setup_uses_named_context RdmaContext verbs_event unit unit sample_tcfg sample_device
    (sample_tapi 0) sample_transport "mlx5_0" "peer" [] (value_of run []) (emitted run [])); done.
Defined.
