(* ===== verification/HttpMetadata.v ===== *)
(** * The HTTP metadata server
      ([mooncake-store/src/http_metadata_server.cpp])

    The handlers of the key/value endpoints and the life cycle of the server.
    Each handler holds [store_mutex_] while it looks at the store, so requests
    are served one after the other.  The HTTP library (parsing, routing, the
    listening socket) is external: a request is the method, the decoded [key]
    parameter and the body. *)

From S2P Require Import Prelude CxxString.
From stdpp Require Import base strings list sets gmap fin_maps.
From Stdlib Require Import ZArith Lia.

(** ** Model *)

Inductive status_type := ok | bad_request | not_found.

#[export] Instance status_type_eq_dec : EqDecision status_type.
Proof. solve_decision. Defined.

Record response := MkResponse { rs_status : status_type; rs_content : string; rs_json : bool }.

#[export] Instance response_eq_dec : EqDecision response.
Proof. solve_decision. Defined.

Inductive request :=
| GetMetadata (key : string)
| PutMetadata (key body : string)
| DeleteMetadata (key : string)
| GetHealth.

Inductive KVPoll := KVFailed | KVSuccess.

#[export] Instance KVPoll_eq_dec : EqDecision KVPoll.
Proof. solve_decision. Defined.

Record HttpMetadataServer := MkServer { store_ : gmap string string; running_ : bool }.

Definition with_store (m : gmap string string) (s : HttpMetadataServer) : HttpMetadataServer :=
  MkServer m (running_ s).

Definition new_server : HttpMetadataServer := MkServer ∅ false.

Definition is_rpc_meta (key : string) : bool := contains key "rpc_meta".

Definition reply (st : status_type) (content : string) : response := MkResponse st content false.

Definition handle_get (key : string) (s : HttpMetadataServer) : response :=
  if str_empty key then reply bad_request "Missing key parameter"
  else
    match store_ s !! key with
    | None => reply not_found "metadata not found"
    | Some v => MkResponse ok v true
    end.

Definition handle_put (key body : string) (s : HttpMetadataServer)
  : response * HttpMetadataServer :=
  if str_empty key then (reply bad_request "Missing key parameter", s)
  else
    let update := (reply ok "metadata updated", with_store (<[key := body]> (store_ s)) s) in
    if is_rpc_meta key then
      match store_ s !! key with
      | Some v =>
          if bool_decide (v = body) then (reply ok "metadata unchanged", s)
          else (reply bad_request "Duplicate rpc_meta key not allowed", s)
      | None => update
      end
    else update.

Definition handle_delete (key : string) (s : HttpMetadataServer)
  : response * HttpMetadataServer :=
  if str_empty key then (reply bad_request "Missing key parameter", s)
  else
    match store_ s !! key with
    | None => (reply not_found "metadata not found", s)
    | Some _ => (reply ok "metadata deleted", with_store (delete key (store_ s)) s)
    end.

Definition handle_health : response := reply ok "OK".

Definition serve (r : request) (s : HttpMetadataServer) : response * HttpMetadataServer :=
  match r with
  | GetMetadata key => (handle_get key s, s)
  | PutMetadata key body => handle_put key body s
  | DeleteMetadata key => handle_delete key s
  | GetHealth => (handle_health, s)
  end.

Fixpoint serve_all (rs : list request) (s : HttpMetadataServer)
  : list response * HttpMetadataServer :=
  match rs with
  | [] => ([], s)
  | r :: rs' =>
      let (resp, s) := serve r s in
      let (resps, s) := serve_all rs' s in
      (resp :: resps, s)
  end.

(** Life cycle; the first component counts the calls to the HTTP library. *)
Definition start (s : HttpMetadataServer) : nat * bool * HttpMetadataServer :=
  if running_ s then (0%nat, true, s) else (1%nat, true, MkServer (store_ s) true).

Definition stop (s : HttpMetadataServer) : nat * HttpMetadataServer :=
  if negb (running_ s) then (0%nat, s) else (1%nat, MkServer (store_ s) false).

Definition poll (s : HttpMetadataServer) : KVPoll :=
  if negb (running_ s) then KVFailed else KVSuccess.

(** ** Specification: a log of accepted changes *)

Module Log.
Inductive change := Written (key value : string) | Erased (key : string).

(** Latest change first. *)
Abbreviation log := (list change).

Fixpoint value_of_key (key : string) (l : log) : option string :=
  match l with
  | [] => None
  | Written k v :: l' => if bool_decide (k = key) then Some v else value_of_key key l'
  | Erased k :: l' => if bool_decide (k = key) then None else value_of_key key l'
  end.

(** A key that names an RPC endpoint has one owner at a time: a different value
    is refused while the key is present. *)
Definition accepts (key body : string) (l : log) : bool :=
  negb (is_rpc_meta key) || bool_decide (value_of_key key l = None).

Definition respond (r : request) (l : log) : response * log :=
  match r with
  | GetHealth => (reply ok "OK", l)
  | GetMetadata "" | PutMetadata "" _ | DeleteMetadata "" =>
      (reply bad_request "Missing key parameter", l)
  | GetMetadata key =>
      (match value_of_key key l with
       | Some v => MkResponse ok v true
       | None => reply not_found "metadata not found"
       end, l)
  | PutMetadata key body =>
      if accepts key body l then (reply ok "metadata updated", Written key body :: l)
      else if bool_decide (value_of_key key l = Some body)
           then (reply ok "metadata unchanged", l)
           else (reply bad_request "Duplicate rpc_meta key not allowed", l)
  | DeleteMetadata key =>
      match value_of_key key l with
      | Some _ => (reply ok "metadata deleted", Erased key :: l)
      | None => (reply not_found "metadata not found", l)
      end
  end.

Fixpoint respond_all (rs : list request) (l : log) : list response * log :=
  match rs with
  | [] => ([], l)
  | r :: rs' =>
      let (resp, l) := respond r l in
      let (resps, l) := respond_all rs' l in
      (resp :: resps, l)
  end.
End Log.

(** ** Refinement *)

Definition represents (s : HttpMetadataServer) (l : Log.log) : Prop :=
  ∀ key, store_ s !! key = Log.value_of_key key l.

Lemma represents_write s l key body :
  represents s l → represents (with_store (<[key := body]> (store_ s)) s) (Log.Written key body :: l).
Proof.
  intros Hr k. cbn. rewrite lookup_insert. case_decide; case_bool_decide; first [done|congruence|apply Hr].
Qed.

Lemma represents_erase s l key :
  represents s l → represents (with_store (delete key (store_ s)) s) (Log.Erased key :: l).
Proof.
  intros Hr k. cbn. rewrite lookup_delete. case_decide; case_bool_decide; first [done|congruence|apply Hr].
Qed.

Lemma serve_refines r s l :
  represents s l →
  (serve r s).1 = (Log.respond r l).1 ∧ represents (serve r s).2 (Log.respond r l).2.
Proof.
  intros Hr. destruct r as [key|key body|key|]; cbn; [| | |done].
  - unfold handle_get. destruct key as [|c key]; [done|]. cbn -[is_rpc_meta].
    rewrite Hr. split; [by destruct (Log.value_of_key _ l)|done].
  - unfold handle_put, Log.accepts. destruct key as [|c key]; [done|].
    cbn [str_empty]. generalize (String c key). clear c key. intros key. rewrite Hr.
    destruct (is_rpc_meta key); cbn [negb orb]; [|split; [done|by apply represents_write]].
    destruct (Log.value_of_key key l) as [v|]; repeat case_bool_decide; simplify_eq; split; try done;
      by apply represents_write.
  - unfold handle_delete. destruct key as [|c key]; [done|]. cbn [str_empty].
    generalize (String c key). clear c key. intros key. rewrite Hr.
    destruct (Log.value_of_key key l); split; try done. by apply represents_erase.
Qed.

(** C13: The metadata server refines a log of accepted changes: for every sequence
    of requests its responses are those of a server that answers from the latest
    change of each key, where a key naming an RPC endpoint accepts a new value
    only while it has none. *)
Theorem http_server_refines_log rs s l :
  represents s l →
  (serve_all rs s).1 = (Log.respond_all rs l).1 ∧
  represents (serve_all rs s).2 (Log.respond_all rs l).2.
Proof.
  revert s l. induction rs as [|r rs IH]; intros s l Hr; [done|]. cbn.
  destruct (serve_refines r s l Hr) as [Hresp Hr']. destruct (serve r s) as [resp s'],
    (Log.respond r l) as [resp' l']. cbn in Hresp, Hr'. subst resp'.
  destruct (IH _ _ Hr') as [Hresps Hr'']. destruct (serve_all rs s'), (Log.respond_all rs l').
  cbn in *. by subst.
Qed.

Lemma http_server_refines_log_witness :
  let rs := [PutMetadata "mooncake/rpc_meta/a" "x"; PutMetadata "mooncake/rpc_meta/a" "y";
             GetMetadata "mooncake/rpc_meta/a"; DeleteMetadata "mooncake/rpc_meta/a";
             PutMetadata "mooncake/rpc_meta/a" "y"; GetMetadata ""]%string in
  rs_status <$> (serve_all rs new_server).1 = [ok; bad_request; ok; ok; ok; bad_request] ∧
  (serve_all rs new_server).1 = (Log.respond_all rs []).1.
Proof.
  intros rs. split; [by vm_compute|].
  apply (http_server_refines_log rs new_server []). done.
Defined.

(** ** RPC endpoint entries *)

Definition deletes (key : string) (r : request) : bool :=
  match r with DeleteMetadata k => bool_decide (k = key) | _ => false end.

Lemma rpc_meta_step key v r s :
  is_rpc_meta key = true → store_ s !! key = Some v → deletes key r = false →
  store_ (serve r s).2 !! key = Some v.
Proof.
  intros Hk Hv Hd. destruct r as [k|k body|k|]; cbn in *; try done.
  - unfold handle_put. destruct (str_empty k); [done|].
    destruct (decide (k = key)) as [->|Hne].
    + rewrite Hk, Hv. by case_bool_decide.
    + case_match; [case_match; [by case_bool_decide|]|]; cbn; by rewrite lookup_insert_ne.
  - unfold handle_delete. case_bool_decide; [done|]. destruct (str_empty k); [done|].
    case_match; [|done]. cbn. by rewrite lookup_delete_ne.
Qed.

(** An RPC endpoint entry keeps its value through every sequence of requests
    that does not delete it, whoever writes to its key. *)
Theorem rpc_meta_stable key v rs s :
  is_rpc_meta key = true → store_ s !! key = Some v → Forall (λ r, deletes key r = false) rs →
  store_ (serve_all rs s).2 !! key = Some v.
Proof.
  intros Hk. revert s. induction rs as [|r rs IH]; intros s Hv Hd; [done|]. cbn.
  apply Forall_cons in Hd as [Hr Hd]. pose proof (rpc_meta_step _ _ _ _ Hk Hv Hr) as Hv'.
  destruct (serve r s) as [resp s']. specialize (IH s' Hv' Hd). by destruct (serve_all rs s').
Qed.

Lemma rpc_meta_stable_witness :
  let s := MkServer {[ "rpc_meta/a" := "x" ]} true in
  store_ (serve_all [PutMetadata "rpc_meta/a" "y"; DeleteMetadata "other"] s).2 !! "rpc_meta/a" =
    Some "x".
Proof.
  intros s. apply (rpc_meta_stable "rpc_meta/a" "x"); [by vm_compute|by vm_compute|].
  by repeat constructor.
Defined.

(** The server answers polls while it runs; starting and stopping are idempotent. *)
Lemma lifecycle s :
  poll (start s).2 = KVSuccess ∧ poll (stop s).2 = KVFailed ∧
  (start (start s).2).1.1 = 0%nat ∧ (stop (stop s).2).1 = 0%nat.
Proof. destruct s as [m []]; done. Qed.
