(* ===== verification/Tasks.v ===== *)
(** * Replica tasks: copying and moving replicas, task execution
      ([mooncake-store/src/client_service.cpp])

    The master assigns tasks to a client; a pool of threads executes them.  A
    task copies or moves a replica with a two-phase protocol of its own, is
    retried when the master has no space, and is reported back to the master.
    The JSON decoder and [split_into_slices] are not part of the sources. *)

From S2P Require Import Prelude CxxString StoreTypes ReplicaPolicy Samples PutPath GetPath.
From stdpp Require Import base strings list sets gmap.
From Stdlib Require Import ZArith Lia.

#[local] Open Scope Z_scope.
#[local] Set Default Proof Using "Type".

(** ** Data *)

Inductive TaskType := REPLICA_COPY | REPLICA_MOVE | OtherTask (code : Z).
Inductive TaskStatus := TASK_SUCCESS | TASK_FAILED.

#[export] Instance TaskStatus_eq_dec : EqDecision TaskStatus.
Proof. solve_decision. Defined.

Record TaskAssignment := MkAssignment {
  ta_id : Z;
  ta_type : TaskType;
  ta_payload : string;
  ta_max_retry_attempts : Z }.

Record ClientTask := MkClientTask { ct_assignment : TaskAssignment; ct_retry_count : Z }.

(** [retry_count++] on a [uint32_t]. *)
Definition increment_retry (t : ClientTask) : ClientTask :=
  MkClientTask (ct_assignment t) ((ct_retry_count t + 1) mod 2 ^ 32).

Record ReplicaCopyPayload := MkCopyPayload {
  cp_key : string; cp_tenant : string; cp_source : string; cp_targets : list string }.
Record ReplicaMovePayload := MkMovePayload {
  mp_key : string; mp_tenant : string; mp_source : string; mp_target : string }.

Record CopyStartResponse := MkCopyStart { cs_source : Descriptor; cs_targets : list Descriptor }.
Record MoveStartResponse := MkMoveStart { ms_source : Descriptor; ms_target : option Descriptor }.

(** ** Calls *)

Inductive task_event :=
| TStore (e : event)
| CopyStart (key tenant source : string) (targets : list string) (r : expected CopyStartResponse)
| CopyEnd (key tenant : string) (r : expected unit)
| CopyRevoke (key tenant : string) (r : expected unit)
| MoveStart (key tenant source target : string) (r : expected MoveStartResponse)
| MoveEnd (key tenant : string) (r : expected unit)
| MoveRevoke (key tenant : string) (r : expected unit)
| MarkTaskToComplete (id : Z) (st : TaskStatus) (message : string) (r : expected unit)
| FetchTasks (batch : Z) (r : expected (list TaskAssignment))
| SleepFor (ms : Z)
| Enqueue (t : ClientTask) (accepted : bool).

Definition store_event (e : task_event) : option event :=
  match e with TStore e => Some e | _ => None end.

Abbreviation kio A := (comp task_event A).
Abbreviation khist := (list task_event).

Class TaskMaster := {
  k_copy_start : khist → string → string → string → list string → expected CopyStartResponse;
  k_copy_end : khist → string → string → expected unit;
  k_copy_revoke : khist → string → string → expected unit;
  k_move_start : khist → string → string → string → string → expected MoveStartResponse;
  k_move_end : khist → string → string → expected unit;
  k_move_revoke : khist → string → string → expected unit;
  k_mark_complete : khist → Z → TaskStatus → string → expected unit;
  k_fetch : khist → Z → expected (list TaskAssignment) }.

Section Tasks.
Context `{!TransferSubmitter, !TaskMaster}.
Context (c : Client).
Context (split_into_slices : Z → Z → list Slice).
(** [struct_json::from_json]; [None] is an exception. *)
Context (copy_from_json : string → option ReplicaCopyPayload).
Context (move_from_json : string → option ReplicaMovePayload).
Context (error_string : ErrorCode → string).      (* [toString] *)
(** [task_thread_pool_.enqueue] throws [std::runtime_error] when this is [false]: the pool
    was stopped. *)
Context (pool_accepts : khist → bool).

Definition in_store {A} (m : io A) : kio A := lift_comp TStore store_event m.
Definition tell (e : task_event) : kio unit := call (λ _, tt) (λ _, e).

Definition copy_end key tenant : kio (expected unit) :=
  call (λ h, k_copy_end h key tenant) (CopyEnd key tenant).
Definition copy_revoke key tenant : kio (expected unit) :=
  call (λ h, k_copy_revoke h key tenant) (CopyRevoke key tenant).
Definition move_end key tenant : kio (expected unit) :=
  call (λ h, k_move_end h key tenant) (MoveEnd key tenant).
Definition move_revoke key tenant : kio (expected unit) :=
  call (λ h, k_move_revoke h key tenant) (MoveRevoke key tenant).

(** ** Transfer of a replica *)

(** [true]: every target was written. *)
Fixpoint write_targets (slices : list Slice) (targets : list Descriptor) : kio bool :=
  match targets with
  | [] => ret true
  | target :: targets' =>
      let! err := in_store (TransferWrite c target slices) in
      if negb (bool_decide (err = OK)) then ret false else write_targets slices targets'
  end.

(** The result of the revoke call is only logged. *)
Definition revoke_and_fail (revoke_fn : kio (expected unit)) (e : ErrorCode)
  : kio (expected unit) :=
  revoke_fn ;;; ret (Err e).

Definition ExecuteReplicaTransfer (end_fn revoke_fn : kio (expected unit)) (source : Descriptor)
    (targets : list Descriptor) : kio (expected unit) :=
  match data source with
  | MemoryReplica buffer_descriptor =>
      if negb (IsReplicaOnLocalMemory c source)
      then revoke_and_fail revoke_fn REPLICA_NOT_IN_LOCAL_MEMORY
      else
        let slices := split_into_slices (buffer_address_ buffer_descriptor)
                        (size_ buffer_descriptor) in
        let! written := write_targets slices targets in
        if negb written then revoke_and_fail revoke_fn TRANSFER_FAIL
        else
          let! end_result := end_fn in
          match end_result with
          | Err e => revoke_and_fail revoke_fn e
          | Ok _ => ret (Ok tt)
          end
  | _ => revoke_and_fail revoke_fn INVALID_PARAMS
  end.

Definition Copy (key tenant_id source : string) (targets : list string) : kio (expected unit) :=
  let! start_result := call (λ h, k_copy_start h key tenant_id source targets)
                         (CopyStart key tenant_id source targets) in
  match start_result with
  | Err e => ret (Err e)
  | Ok response =>
      match cs_targets response with
      | [] => copy_end key tenant_id
      | _ => ExecuteReplicaTransfer (copy_end key tenant_id) (copy_revoke key tenant_id)
               (cs_source response) (cs_targets response)
      end
  end.

Definition Move (key tenant_id source target : string) : kio (expected unit) :=
  let! start_result := call (λ h, k_move_start h key tenant_id source target)
                         (MoveStart key tenant_id source target) in
  match start_result with
  | Err e => ret (Err e)
  | Ok response =>
      match ms_target response with
      | None => move_end key tenant_id
      | Some t => ExecuteReplicaTransfer (move_end key tenant_id) (move_revoke key tenant_id)
                    (ms_source response) [t]
      end
  end.

(** ** Execution of tasks *)

Definition code_of (r : expected unit) : ErrorCode := match r with Ok _ => OK | Err e => e end.

(** The [try] block. *)
Definition run_task (a : TaskAssignment) : kio ErrorCode :=
  match ta_type a with
  | REPLICA_COPY =>
      match copy_from_json (ta_payload a) with
      | None => ret INTERNAL_ERROR
      | Some p => let! r := Copy (cp_key p) (cp_tenant p) (cp_source p) (cp_targets p) in
                  ret (code_of r)
      end
  | REPLICA_MOVE =>
      match move_from_json (ta_payload a) with
      | None => ret INTERNAL_ERROR
      | Some p => let! r := Move (mp_key p) (mp_tenant p) (mp_source p) (mp_target p) in
                  ret (code_of r)
      end
  | OtherTask _ => ret INVALID_PARAMS
  end.

Definition mark_complete (id : Z) (st : TaskStatus) (message : string) : kio unit :=
  let! _ := call (λ h, k_mark_complete h id st message) (MarkTaskToComplete id st message) in
  ret tt.

Definition should_retry (result : ErrorCode) (t : ClientTask) : bool :=
  bool_decide (result = NO_AVAILABLE_HANDLE) &&
  (ct_retry_count t <? ta_max_retry_attempts (ct_assignment t)).

(** [50 * (current_retry_count + 1)] in [uint32_t]. *)
Definition retry_delay (t : ClientTask) : Z := (50 * (ct_retry_count t + 1)) mod 2 ^ 32.

Definition failure_message (result : ErrorCode) (a : TaskAssignment) : string :=
  (error_string result +:+ " (max retries reached: " +:+ to_string (ta_max_retry_attempts a)
     +:+ ")")%string.

(** [true]: the pool took the task; [false]: [enqueue] threw. *)
Definition enqueue (t : ClientTask) : kio bool := call pool_accepts (Enqueue t).

(** [false]: the exception of [enqueue] leaves the function. *)
Definition ExecuteTask (t : ClientTask) : kio bool :=
  let a := ct_assignment t in
  let! result := run_task a in
  if bool_decide (result = OK)
  then mark_complete (ta_id a) TASK_SUCCESS "Task completed successfully" ;;; ret true
  else if should_retry result t then
    tell (SleepFor (retry_delay t)) ;;;
    enqueue (increment_retry t)
  else mark_complete (ta_id a) TASK_FAILED (failure_message result a) ;;; ret true.

(** [task_running_] is loaded before each hand-over; [stop] may come in between. *)
Context (task_running : khist → bool).

Definition SubmitTask (a : TaskAssignment) : kio bool :=
  λ h, (if negb (task_running h) then ret true else enqueue (MkClientTask a 0)) h.

(** An exception ends the loop, and with it the polling thread. *)
Fixpoint submit_all (tasks : list TaskAssignment) : kio bool :=
  match tasks with
  | [] => ret true
  | a :: tasks' =>
      let! ok := SubmitTask a in
      if ok then submit_all tasks' else ret false
  end.

Definition PollAndDispatchTasks (kTaskBatchSize : Z) : kio bool :=
  λ h, (if task_running h then
    let! fetch_result := call (λ h, k_fetch h kTaskBatchSize) (FetchTasks kTaskBatchSize) in
    match fetch_result with
    | Ok tasks => submit_all tasks
    | Err _ => ret true
    end
  else ret true) h.

(** ** The pool *)

(** What the pool took, and what it refused. *)
Definition enqueued (evs : khist) : list ClientTask :=
  omap (λ e, match e with Enqueue t true => Some t | _ => None end) evs.
Definition refused (evs : khist) : list ClientTask :=
  omap (λ e, match e with Enqueue t false => Some t | _ => None end) evs.

(** A thread of the pool takes any waiting task and executes it. *)
Inductive pool_step (q : list ClientTask) (h : khist) : ClientTask → khist → list ClientTask → Prop :=
| pool_execute q1 t q2 ok evs :
    q = q1 ++ t :: q2 → ExecuteTask t h = (ok, evs) →
    pool_step q h t evs (q1 ++ q2 ++ enqueued evs).

(** Executions of the tasks [ts], in this order; between them the polling thread hands
    over the tasks [new] that it fetched, which the pool may refuse. *)
Inductive pool_steps (q : list ClientTask) (h : khist)
  : list ClientTask → list ClientTask → khist → list ClientTask → Prop :=
| pool_done : pool_steps q h [] [] [] q
| pool_more t e1 q1 new ts e2 q2 :
    pool_step q h t e1 q1 → pool_steps q1 (h ++ e1) new ts e2 q2 →
    pool_steps q h new (t :: ts) (e1 ++ e2) q2
| pool_poll batch ok e1 new ts e2 q2 :
    PollAndDispatchTasks batch h = (ok, e1) →
    pool_steps (q ++ enqueued e1) (h ++ e1) new ts e2 q2 →
    pool_steps q h (enqueued e1 ++ refused e1 ++ new) ts (e1 ++ e2) q2.
End Tasks.
