(* ===== verification/TasksSpec.v ===== *)
(** * What replica tasks guarantee

    The two-phase protocol of [Copy] and [Move], and the fate of every task
    handed to the pool. *)

From S2P Require Import Prelude CxxString StoreTypes ReplicaPolicy Samples PutPath GetPath Tasks.
From stdpp Require Import base strings list sets gmap.
From Stdlib Require Import ZArith Lia.

#[local] Open Scope Z_scope.
#[local] Set Default Proof Using "Type".

Section Specs.
Context `{!TransferSubmitter, !TaskMaster}.
Context (c : Client).
Context (split_into_slices : Z → Z → list Slice).
Context (copy_from_json : string → option ReplicaCopyPayload).
Context (move_from_json : string → option ReplicaMovePayload).
Context (error_string : ErrorCode → string).
Context (pool_accepts task_running : khist → bool).

(** ** Transfers *)

Definition data_call (e : task_event) : Prop := ∃ e', e = TStore e'.

(** The data of [slices] was submitted to [d] and the transfer succeeded. *)
Definition written_to (slices : list Slice) (evs : khist) (d : Descriptor) : Prop :=
  ∃ f, infix [TStore (ETransfer (Submit d slices WRITE (Some f)));
              TStore (ETransfer (FutureGet f OK))] evs.

Lemma in_store_data {A} (m : io A) h v evs : in_store m h = (v, evs) → Forall data_call evs.
Proof.
  intros (evs' & _ & ->)%lift_inv. apply Forall_fmap, Forall_forall. intros e _. by exists e.
Qed.

Lemma infix_fmap {A B} (f : A → B) l l' : infix l l' → infix (f <$> l) (f <$> l').
Proof. intros (a & b & ->). exists (f <$> a), (f <$> b). by rewrite !fmap_app. Qed.

Lemma write_targets_run slices targets h ok evs :
  write_targets c slices targets h = (ok, evs) →
  Forall data_call evs ∧ (ok = true → ∀ d, d ∈ targets → written_to slices evs d).
Proof.
  revert h ok evs. induction targets as [|t targets IH]; intros h ok evs Hrun; cbn in Hrun.
  { apply ret_inv in Hrun as [-> ->]. split; [constructor|set_solver]. }
  apply bind_inv in Hrun as (err & e1 & e2 & H1 & Hrun & ->).
  pose proof (in_store_data _ _ _ _ H1) as Hd1. apply lift_inv in H1 as (e1' & H1 & ->).
  case_bool_decide as Herr; cbn in Hrun.
  2:{ apply ret_inv in Hrun as [-> ->]. rewrite app_nil_r. by split. }
  apply IH in Hrun as [Hd2 Hok]. split; [by apply Forall_app|]. intros Hok' d [->|Hd]%elem_of_cons.
  - assert (value_of (TransferWrite c t slices) (omap store_event h) = OK) as Hv
      by (by rewrite (run_value _ _ _ _ H1)).
    apply TransferWrite_OK in Hv as (f & Hf). rewrite (run_emitted _ _ _ _ H1) in Hf.
    exists f. apply infix_app_r. apply (infix_fmap TStore) in Hf. done.
  - destruct (Hok Hok' d Hd) as (f & Hf). exists f. by apply infix_app_l.
Qed.

(** The outcome of a transfer whose end and revoke calls are [ee] and [er]. *)
Lemma replica_transfer_run fe ee fr er source targets h r evs :
  ExecuteReplicaTransfer c split_into_slices (call fe ee) (call fr er) source targets h = (r, evs) →
  match r with
  | Ok _ => ∃ e1 b, evs = e1 ++ [ee (Ok tt)] ∧ Forall data_call e1 ∧
      data source = MemoryReplica b ∧ IsReplicaOnLocalMemory c source = true ∧
      ∀ d, d ∈ targets →
        written_to (split_into_slices (buffer_address_ b) (size_ b)) e1 d
  | Err _ => ∃ e1 r', evs = e1 ++ [er r'] ∧ Forall (λ e, data_call e ∨ ∃ x, e = ee x) e1
  end.
Proof.
  assert (∀ e h r evs, revoke_and_fail (call fr er) e h = (r, evs) →
    ∃ r', r = Err e ∧ evs = [er r']) as Hrev.
  { intros e h' r' evs' (v & ? & ? & [_ ->]%call_inv & [-> ->]%ret_inv & ->)%bind_inv.
    by exists v. }
  unfold ExecuteReplicaTransfer. intros Hrun. destruct (data source) as [b|b| |] eqn:Hsrc.
  2-4: apply Hrev in Hrun as (r' & -> & ->); by exists [], r'.
  destruct (IsReplicaOnLocalMemory c source) eqn:Hloc; cbn [negb] in Hrun.
  2:{ apply Hrev in Hrun as (r' & -> & ->). by exists [], r'. }
  apply bind_inv in Hrun as (ok & e1 & e2 & Hw%write_targets_run & Hrun & ->).
  destruct Hw as [Hd Hw]. assert (Forall (λ e, data_call e ∨ ∃ x, e = ee x) e1) as Hd'.
  { eapply Forall_impl; [done|]. auto. }
  destruct ok; cbn [negb] in Hrun.
  2:{ apply Hrev in Hrun as (r' & -> & ->). by exists e1, r'. }
  apply bind_inv in Hrun as (er' & e3 & ? & [_ ->]%call_inv & Hrun & ->). destruct er' as [[]|e].
  - apply ret_inv in Hrun as [-> ->]. rewrite app_nil_r. exists e1, b. split_and!; auto.
  - apply Hrev in Hrun as (r' & -> & ->). exists (e1 ++ [ee (Err e)]), r'.
    rewrite <- app_assoc. split; [done|]. apply Forall_app. split; [done|].
    constructor; [right; by eexists|constructor].
Qed.

(** A copy that succeeds was started on the master, read its data from a
    memory replica on this client, wrote every target the master allocated, and
    ended after the last write, without a revoke; one that fails after targets
    were allocated ends with a revoke, and one that was not started does nothing. *)
Theorem copy_sound key tenant source targets h r evs :
  Copy c split_into_slices key tenant source targets h = (r, evs) →
  ∃ started rest, evs = CopyStart key tenant source targets started :: rest ∧
  match started, r with
  | Err e, _ => r = Err e ∧ rest = []
  | Ok resp, Ok _ => ∃ e1, rest = e1 ++ [CopyEnd key tenant (Ok tt)] ∧ Forall data_call e1 ∧
      (cs_targets resp ≠ [] → ∃ b, data (cs_source resp) = MemoryReplica b ∧
         IsReplicaOnLocalMemory c (cs_source resp) = true ∧
         ∀ d, d ∈ cs_targets resp →
           written_to (split_into_slices (buffer_address_ b) (size_ b)) e1 d)
  | Ok resp, Err _ => cs_targets resp ≠ [] →
      ∃ e1 r', rest = e1 ++ [CopyRevoke key tenant r'] ∧
        Forall (λ e, data_call e ∨ ∃ x, e = CopyEnd key tenant x) e1
  end.
Proof.
  intros (started & e0 & rest & [_ ->]%call_inv & Hrun & ->)%bind_inv. exists started, rest.
  split; [done|]. destruct started as [resp|e]; [|by apply ret_inv in Hrun as [-> ->]].
  destruct (cs_targets resp) as [|t ts] eqn:Ht.
  - apply call_inv in Hrun as [-> ->]. destruct (k_copy_end _ _ _) as [[]|]; [|done].
    exists []. split_and!; [done|constructor|done].
  - rewrite <- Ht in *. apply replica_transfer_run in Hrun. destruct r as [u|e]; [|done].
    destruct Hrun as (e1 & b & -> & Hd & Hsrc & Hloc & Hw). exists e1. split_and!; [done..|].
    intros _. by exists b.
Qed.

(** The same for a move. *)
Theorem move_sound key tenant source target h r evs :
  Move c split_into_slices key tenant source target h = (r, evs) →
  ∃ started rest, evs = MoveStart key tenant source target started :: rest ∧
  match started, r with
  | Err e, _ => r = Err e ∧ rest = []
  | Ok resp, Ok _ => ∃ e1, rest = e1 ++ [MoveEnd key tenant (Ok tt)] ∧ Forall data_call e1 ∧
      (∀ t, ms_target resp = Some t → ∃ b, data (ms_source resp) = MemoryReplica b ∧
         IsReplicaOnLocalMemory c (ms_source resp) = true ∧
         written_to (split_into_slices (buffer_address_ b) (size_ b)) e1 t)
  | Ok resp, Err _ => is_Some (ms_target resp) →
      ∃ e1 r', rest = e1 ++ [MoveRevoke key tenant r'] ∧
        Forall (λ e, data_call e ∨ ∃ x, e = MoveEnd key tenant x) e1
  end.
Proof.
  intros (started & e0 & rest & [_ ->]%call_inv & Hrun & ->)%bind_inv. exists started, rest.
  split; [done|]. destruct started as [resp|e]; [|by apply ret_inv in Hrun as [-> ->]].
  destruct (ms_target resp) as [t|] eqn:Ht.
  - apply replica_transfer_run in Hrun. destruct r as [u|e]; [|done].
    destruct Hrun as (e1 & b & -> & Hd & Hsrc & Hloc & Hw). exists e1. split_and!; [done..|].
    intros ? [= <-]. exists b. split_and!; [done..|]. apply Hw. by left.
  - apply call_inv in Hrun as [-> ->]. destruct (k_move_end _ _ _) as [[]|]; [|by intros []].
    exists []. split_and!; [done|constructor|done].
Qed.

(** ** The pool *)

Definition completes (id : Z) (e : task_event) : bool :=
  match e with MarkTaskToComplete i _ _ _ => i =? id | _ => false end.

Definition has_id (id : Z) (t : ClientTask) : bool := ta_id (ct_assignment t) =? id.

(** Retries are counted in 32 bits and stay below the limit. *)
Definition task_wf (t : ClientTask) : Prop :=
  0 <= ct_retry_count t <= ta_max_retry_attempts (ct_assignment t) ∧
  ta_max_retry_attempts (ct_assignment t) < 2 ^ 32.

(** Executions a task can still have. *)
Definition attempts_left (t : ClientTask) : nat :=
  Z.to_nat (ta_max_retry_attempts (ct_assignment t) - ct_retry_count t + 1).

(** Executions the tasks with an id can still have. *)
Definition attempts_of (id : Z) (q : list ClientTask) : nat :=
  sum_list_with (λ t, if has_id id t then attempts_left t else 0%nat) q.

Abbreviation exec t := (ExecuteTask c split_into_slices copy_from_json move_from_json error_string pool_accepts t).

(** Calls of the protocol: neither completion nor hand-over to the pool. *)
Definition protocol_call (e : task_event) : Prop :=
  (∀ id, completes id e = false) ∧ (∀ t ok, e ≠ Enqueue t ok).

Lemma data_protocol e : data_call e → protocol_call e.
Proof. by intros [e' ->]. Qed.

Lemma transfer_protocol fe ee fr er source targets h r evs :
  (∀ x, protocol_call (ee x)) → (∀ x, protocol_call (er x)) →
  ExecuteReplicaTransfer c split_into_slices (call fe ee) (call fr er) source targets h = (r, evs) →
  Forall protocol_call evs.
Proof.
  intros Hee Her Hrun%replica_transfer_run. destruct r as [u|e].
  - destruct Hrun as (e1 & b & -> & Hd & _). apply Forall_app. split; [|by constructor].
    eapply Forall_impl; [done|]. apply data_protocol.
  - destruct Hrun as (e1 & r' & -> & Hd). apply Forall_app. split; [|by constructor].
    eapply Forall_impl; [done|]. intros x [Hx|[y ->]]; [by apply data_protocol|done].
Qed.

Lemma run_task_protocol a h r evs :
  run_task c split_into_slices copy_from_json move_from_json a h = (r, evs) →
  Forall protocol_call evs.
Proof.
  unfold run_task. destruct (ta_type a).
  - destruct (copy_from_json _); [|by intros [_ ->]%ret_inv].
    intros (v & e1 & ? & Hrun & [_ ->]%ret_inv & ->)%bind_inv. rewrite app_nil_r.
    apply bind_inv in Hrun as (st & ? & ? & [_ ->]%call_inv & Hrun & ->).
    apply Forall_app. split; [by repeat constructor|].
    destruct st as [resp|]; [|by apply ret_inv in Hrun as [_ ->]].
    destruct (cs_targets resp); [|by eapply (transfer_protocol _ (CopyEnd _ _) _ (CopyRevoke _ _))].
    apply call_inv in Hrun as [_ ->]. by repeat constructor.
  - destruct (move_from_json _); [|by intros [_ ->]%ret_inv].
    intros (v & e1 & ? & Hrun & [_ ->]%ret_inv & ->)%bind_inv. rewrite app_nil_r.
    apply bind_inv in Hrun as (st & ? & ? & [_ ->]%call_inv & Hrun & ->).
    apply Forall_app. split; [by repeat constructor|].
    destruct st as [resp|]; [|by apply ret_inv in Hrun as [_ ->]].
    destruct (ms_target resp); [by eapply (transfer_protocol _ (MoveEnd _ _) _ (MoveRevoke _ _))|].
    apply call_inv in Hrun as [_ ->]. by repeat constructor.
  - by intros [_ ->]%ret_inv.
Qed.

Lemma protocol_counts evs :
  Forall protocol_call evs →
  (∀ id, count (completes id) evs = 0%nat) ∧ enqueued evs = [] ∧ refused evs = [].
Proof.
  intros Hp. split.
  - intros id. apply count_zero. eapply Forall_impl; [done|]. by intros e [He _].
  - induction Hp as [|e evs [_ He] _ [IH1 IH2]]; [done|]. unfold enqueued, refused. cbn.
    destruct e; try by split. by destruct (He t accepted).
Qed.

Lemma enqueued_app e1 e2 : enqueued (e1 ++ e2) = enqueued e1 ++ enqueued e2.
Proof. apply omap_app. Qed.

Lemma refused_app e1 e2 : refused (e1 ++ e2) = refused e1 ++ refused e2.
Proof. apply omap_app. Qed.

(** One execution completes the task, or hands it to the pool for its next attempt, which
    the pool takes or refuses. *)
Lemma execute_run t h ok evs :
  exec t h = (ok, evs) → task_wf t →
  (enqueued evs = [] ∧ refused evs = [] ∧
   ∀ id, count (completes id) evs = (if has_id id t then 1 else 0)%nat) ∨
  (∃ t', (enqueued evs = [t'] ∧ refused evs = [] ∨ enqueued evs = [] ∧ refused evs = [t']) ∧
     ct_assignment t' = ct_assignment t ∧ task_wf t' ∧
     (attempts_left t = S (attempts_left t'))%nat ∧
     ∀ id, count (completes id) evs = 0%nat).
Proof.
  intros (res & e1 & e2 & Hp%run_task_protocol & Hrun & ->)%bind_inv Hwf.
  destruct (protocol_counts _ Hp) as (Hc & Hq & Hf).
  assert (∀ st m h u e, (mark_complete (ta_id (ct_assignment t)) st m ;;; ret true) h = (u, e) →
    enqueued (e1 ++ e) = [] ∧ refused (e1 ++ e) = [] ∧
    ∀ id, count (completes id) (e1 ++ e) = (if has_id id t then 1 else 0)%nat) as Hmark.
  { intros st m h' u' e (x & ? & ? & Hm & [_ ->]%ret_inv & ->)%bind_inv.
    apply bind_inv in Hm as (y & ? & ? & [_ ->]%call_inv & [_ ->]%ret_inv & ->).
    rewrite enqueued_app, refused_app, Hq, Hf. split_and!; [done..|]. intros id.
    rewrite count_app, Hc. unfold has_id, count. cbn. by destruct (_ =? id). }
  case_bool_decide; [left; by eapply Hmark|].
  destruct (should_retry res t) eqn:Hr; [right|left; by eapply Hmark].
  apply andb_true_iff in Hr as [_ Hlt%Z.ltb_lt].
  apply bind_inv in Hrun as (x & ? & ? & [_ ->]%call_inv & [_ ->]%call_inv & ->).
  exists (increment_retry t). rewrite !enqueued_app, !refused_app, Hq, Hf.
  destruct Hwf as [Hle Hmax]. assert ((ct_retry_count t + 1) mod 2 ^ 32 = ct_retry_count t + 1) as Hm
    by (apply Z.mod_small; lia).
  split_and!; [|done| | |].
  - destruct ok; [by left|by right].
  - unfold task_wf. cbn. rewrite Hm. lia.
  - unfold attempts_left. cbn. rewrite Hm. lia.
  - intros id. by rewrite !count_app, Hc.
Qed.

(** The polling thread reports nothing. *)
Lemma submit_tasks_run tasks h ok evs :
  submit_all pool_accepts task_running tasks h = (ok, evs) →
  ∀ id, count (completes id) evs = 0%nat.
Proof.
  revert h ok evs. induction tasks as [|a tasks IH]; intros h ok evs R id.
  { by apply ret_inv in R as [_ ->]. }
  apply bind_inv in R as (ok1 & e1 & e2 & R1 & R & ->). rewrite count_app.
  assert (count (completes id) e1 = 0%nat) as ->.
  { unfold SubmitTask in R1. destruct (task_running h); cbn [negb] in R1.
    - by apply call_inv in R1 as [_ ->].
    - by apply ret_inv in R1 as [_ ->]. }
  destruct ok1; [by rewrite (IH _ _ _ R)|by apply ret_inv in R as [_ ->]].
Qed.

Lemma poll_run batch h ok evs :
  PollAndDispatchTasks pool_accepts task_running batch h = (ok, evs) →
  ∀ id, count (completes id) evs = 0%nat.
Proof.
  unfold PollAndDispatchTasks. destruct (task_running h); [|by intros [_ ->]%ret_inv].
  intros (r & e1 & e2 & [_ ->]%call_inv & R & ->)%bind_inv id. rewrite count_app.
  destruct r; [by rewrite (submit_tasks_run _ _ _ _ R)|by apply ret_inv in R as [_ ->]].
Qed.

Abbreviation pool_run :=
  (pool_steps c split_into_slices copy_from_json move_from_json error_string pool_accepts task_running).
Abbreviation pool_can_step :=
  (pool_step c split_into_slices copy_from_json move_from_json error_string pool_accepts).

Lemma attempts_app id q1 q2 :
  attempts_of id (q1 ++ q2) = (attempts_of id q1 + attempts_of id q2)%nat.
Proof. apply sum_list_with_app. Qed.

Lemma attempts_cons id t q :
  attempts_of id (t :: q) = ((if has_id id t then attempts_left t else 0) + attempts_of id q)%nat.
Proof. done. Qed.

Lemma pool_step_run q h t evs q' :
  pool_can_step q h t evs q' → Forall task_wf q →
  Forall task_wf q' ∧
  (∀ id, (count (has_id id) [t] + attempts_of id q' <= attempts_of id q)%nat) ∧
  ∀ id, (count (completes id) evs + count (has_id id) (refused evs) + count (has_id id) q' =
         count (has_id id) q)%nat.
Proof.
  intros [q1 t' q2 ok e -> Hrun] Hwf.
  apply Forall_app in Hwf as [Hwf1 [Hwft Hwf2]%Forall_cons].
  assert (0 < attempts_left t')%nat as Hpos by (unfold attempts_left, task_wf in *; lia).
  destruct (execute_run _ _ _ _ Hrun Hwft) as [(-> & -> & Hc)|(t1 & Hfate & Ha & Hwf' & Hleft & Hc)].
  - rewrite app_nil_r. split_and!; [by apply Forall_app|intros id..].
    + rewrite !attempts_app, attempts_cons, count_cons, count_nil. destruct (has_id id t'); lia.
    + rewrite Hc, !count_app, count_cons, count_nil. lia.
  - assert (∀ id, has_id id t1 = has_id id t') as Hid by (intros id; unfold has_id; by rewrite Ha).
    destruct Hfate as [[-> ->]|[-> ->]]; split_and!; try (intros id).
    + repeat (apply Forall_app; split); try done. by constructor.
    + rewrite !attempts_app, !attempts_cons, count_cons, count_nil, Hid.
      change (attempts_of id []) with 0%nat. destruct (has_id id t'); lia.
    + rewrite Hc, !count_app, !count_cons, count_nil, Hid. lia.
    + rewrite app_nil_r. by apply Forall_app.
    + rewrite app_nil_r, !attempts_app, !attempts_cons, count_cons, count_nil.
      destruct (has_id id t'); lia.
    + rewrite app_nil_r, Hc, !count_app, !count_cons, count_nil, Hid. lia.
Qed.

(** C39: However the threads of the pool and the polling thread interleave, and whether or
    not the pool is stopped in between: a task that was handed to the pool is executed at
    most once more than its retry limit (for each id, at most as often as the tasks with
    that id can be together); and each task is either reported to the master, once, or
    still waiting, or was refused by the pool, which has been stopped - a task whose retry
    is refused is never reported.  As long as the pool takes what it is given every task is
    therefore reported exactly once, and the pool never gets stuck with a task waiting. *)
Theorem tasks_complete_once q h new ts evs q' :
  pool_run q h new ts evs q' → Forall task_wf (q ++ new) →
  (∀ id, (count (has_id id) ts + attempts_of id q' <= attempts_of id (q ++ new))%nat) ∧
  (∀ id, (count (completes id) evs + count (has_id id) (refused evs) + count (has_id id) q' =
          count (has_id id) (q ++ new))%nat) ∧
  (q' = [] ∨ ∃ t e'' q'', pool_can_step q' (h ++ evs) t e'' q'').
Proof.
  induction 1 as [q h|q h t e1 q1 new ts e2 q2 Hstep _ IH|q h b ok e1 new ts e2 q2 Hp _ IH]; intros Hwf.
  - rewrite !app_nil_r. split_and!; [intros id; rewrite count_nil; lia|done|].
    destruct q as [|t q]; [by left|]. right. destruct (exec t h) as [ok e] eqn:E.
    eexists _, _, _. by apply (pool_execute _ _ _ _ _ _ _ _ [] t q ok e).
  - apply Forall_app in Hwf as [Hwf Hnew].
    destruct (pool_step_run _ _ _ _ _ Hstep Hwf) as (Hwf1 & Hlt & Hc).
    destruct IH as (Hn & Hc2 & Hpr); [by apply Forall_app|]. rewrite app_assoc.
    split_and!; [intros id..|done]; specialize (Hlt id); specialize (Hc id);
      specialize (Hn id); specialize (Hc2 id).
    + rewrite count_cons, count_nil in Hlt. rewrite count_cons. rewrite attempts_app in Hn |- *. lia.
    + rewrite refused_app. rewrite !count_app in *. lia.
  - destruct IH as (Hn & Hc2 & Hpr). { rewrite !Forall_app in *. tauto. }
    rewrite (app_assoc h). split_and!; [intros id..|done]; specialize (Hn id); specialize (Hc2 id);
      rewrite ?attempts_app in *; [lia|].
    rewrite refused_app. rewrite !count_app in *. rewrite (poll_run _ _ _ _ Hp id). lia.
Qed.
End Specs.

(** ** A sample master *)

Definition local_memory : Descriptor :=
  MkDescriptor COMPLETE (MemoryReplica (MkBuffer 8 100 "host-a:1")).

(** It refuses the first start of every task for lack of space. *)
Definition sample_tasks : TaskMaster := {|
  k_copy_start := λ h _ _ _ _,
    match h with [] => Err NO_AVAILABLE_HANDLE | _ => Ok (MkCopyStart local_memory [memory_at 200]) end;
  k_copy_end := λ _ _ _, Ok tt;
  k_copy_revoke := λ _ _ _, Ok tt;
  k_move_start := λ _ _ _ _ _, Ok (MkMoveStart local_memory None);
  k_move_end := λ _ _ _, Ok tt;
  k_move_revoke := λ _ _ _, Ok tt;
  k_mark_complete := λ _ _ _ _, Ok tt;
  k_fetch := λ _ _, Ok [] |}.

Definition sample_task : ClientTask := MkClientTask (MkAssignment 7 REPLICA_COPY "p" 3) 0.

#[local] Abbreviation sample_copy :=
  (@Copy (sample_submitter []) sample_tasks sample_client (λ a n, [MkSlice a n]) "k" "t" "s" ["d"%string]).
(** The pool takes [n] tasks and is stopped then. *)
Definition takes (n : nat) (h : khist) : bool := (length (enqueued h) <? n)%nat.

#[local] Abbreviation sample_exec taken t :=
  (@ExecuteTask (sample_submitter []) sample_tasks sample_client (λ a n, [MkSlice a n])
     (λ _, Some (MkCopyPayload "k" "t" "s" ["d"%string])) (λ _, None) (λ _, "") (takes taken) t).

(** A retry that comes after [stop]: the exception leaves the function and the master never
    hears of the task. *)
Example refused_retry_unreported :
  let r := sample_exec 0 sample_task [] in
  r.1 = false ∧ refused r.2 = [increment_retry sample_task] ∧ count (completes 7) r.2 = 0%nat.
Proof. by vm_compute. Qed.

Lemma copy_sound_witness :
  let h := [SleepFor 0] in
  ∃ rest e1,
    sample_copy h = (Ok tt, CopyStart "k" "t" "s" ["d"%string]
      (Ok (MkCopyStart local_memory [memory_at 200])) :: rest) ∧
    rest = e1 ++ [CopyEnd "k" "t" (Ok tt)] ∧
    written_to [MkSlice 100 8] e1 (memory_at 200).
Proof.
  intros h. destruct (@copy_sound (sample_submitter []) sample_tasks sample_client
    (λ a n, [MkSlice a n]) "k" "t" "s" ["d"%string] h (Ok tt) (emitted sample_copy h))
    as (started & rest & He & Hs); [by vm_compute|].
  assert (started = Ok (MkCopyStart local_memory [memory_at 200])) as ->.
  { vm_compute in He. injection He as <- _. done. }
  destruct Hs as (e1 & Hr & _ & Hw). destruct Hw as (b & Hb & _ & Hw); [done|].
  exists rest, e1. split; [|split; [done|]].
  - rewrite <- He. by vm_compute.
  - injection Hb as <-. apply (Hw (memory_at 200)). by left.
Defined.

Lemma tasks_complete_once_witness :
  let e1 := emitted (sample_exec 1 sample_task) [] in
  let e2 := emitted (sample_exec 1 (increment_retry sample_task)) ([] ++ e1) in
  (count (completes 7) (e1 ++ e2 ++ []) = 1)%nat ∧
  (2 <= attempts_of 7 [sample_task])%nat.
Proof.
  intros e1 e2. destruct (@tasks_complete_once (sample_submitter []) sample_tasks sample_client
    (λ a n, [MkSlice a n]) (λ _, Some (MkCopyPayload "k" "t" "s" ["d"%string])) (λ _, None)
    (λ _, ""%string) (takes 1) (λ _, true) [sample_task] [] []
    [sample_task; increment_retry sample_task] (e1 ++ e2 ++ []) []) as (Hn & Hc & _).
  - eapply pool_more; [by eapply (pool_execute _ _ _ _ _ _ _ _ [] sample_task [] true e1)|].
    eapply pool_more; [by eapply (pool_execute _ _ _ _ _ _ _ _ [] (increment_retry sample_task) [] true e2)|].
    apply pool_done.
  - repeat constructor; cbn; lia.
  - split; [by vm_compute|]. exact (Hn 7).
Defined.
