(* ===== verification/Leader.v ===== *)
(** * Connection to the master: leader switching, heartbeat, remounting
      ([mooncake-store/src/client_service.cpp])

    A client reaches the master at a fixed address, or through a high-availability
    backend that publishes the current leader.  A heartbeat thread pings the
    master and reconnects, a monitor thread follows the published leader, and a
    remount thread re-announces the client's segments.  The steps of the three
    threads between which the code holds no lock interleave freely; a switch of
    the leader, which the code performs under [leader_switch_mutex_], is one step. *)

From S2P Require Import Prelude CxxString StoreTypes.
From stdpp Require Import base strings list sets gmap.
From Stdlib Require Import ZArith Lia.

#[local] Open Scope Z_scope.
#[local] Set Default Proof Using "Type".

(** ** Data *)

Record MasterView := MkView { view_version : Z; leader_address : string }.

#[export] Instance MasterView_eq_dec : EqDecision MasterView.
Proof. solve_decision. Defined.

Inductive ClientStatus := CLIENT_OK | NEED_REMOUNT | OtherClientStatus (code : Z).

Record HABackendSpec (T : Type) := MkBackend {
  ha_type : T; connstring : string; cluster_namespace : string }.
#[global] Arguments MkBackend {_}.
#[global] Arguments ha_type {_}.
#[global] Arguments connstring {_}.
#[global] Arguments cluster_namespace {_}.

(** The future of the remount thread: not valid, running, or ready. *)
Inductive RemountState := NoRemount | Remounting | Remounted.

#[export] Instance RemountState_eq_dec : EqDecision RemountState.
Proof. solve_decision. Defined.

(** Where the heartbeat thread is in its loop body. *)
Inductive HeartbeatPc := AtPing | AtReconnect | AtSwitch (v : MasterView).
(** Where the monitor thread is. *)
Inductive MonitorPc := AtWait | AtMonitorSwitch (v : MasterView).

Record Connection := MkConnection {
  current_master_view_ : option MasterView;
  last_ping_success_ : bool;
  direct_master_address_ : string;
  leader_coordinator_ : bool;                  (* not null *)
  segment_desc_publish_pending_ : bool;
  rpc_meta_publish_pending_ : bool;
  remount_future : RemountState;
  ping_fail_count : Z;
  heartbeat_pc : HeartbeatPc;
  monitor_pc : MonitorPc }.

Definition new_connection : Connection :=
  MkConnection None false "" false false false NoRemount 0 AtPing AtWait.

Definition set_view v ping (s : Connection) : Connection :=
  MkConnection v ping (direct_master_address_ s) (leader_coordinator_ s)
    (segment_desc_publish_pending_ s) (rpc_meta_publish_pending_ s) (remount_future s)
    (ping_fail_count s) (heartbeat_pc s) (monitor_pc s).
Definition set_ping ping (s : Connection) : Connection := set_view (current_master_view_ s) ping s.
Definition set_mode direct coord (s : Connection) : Connection :=
  MkConnection (current_master_view_ s) (last_ping_success_ s) direct coord
    (segment_desc_publish_pending_ s) (rpc_meta_publish_pending_ s) (remount_future s)
    (ping_fail_count s) (heartbeat_pc s) (monitor_pc s).
Definition set_pending desc rpc (s : Connection) : Connection :=
  MkConnection (current_master_view_ s) (last_ping_success_ s) (direct_master_address_ s)
    (leader_coordinator_ s) desc rpc (remount_future s) (ping_fail_count s) (heartbeat_pc s)
    (monitor_pc s).
Definition set_remount r (s : Connection) : Connection :=
  MkConnection (current_master_view_ s) (last_ping_success_ s) (direct_master_address_ s)
    (leader_coordinator_ s) (segment_desc_publish_pending_ s) (rpc_meta_publish_pending_ s) r
    (ping_fail_count s) (heartbeat_pc s) (monitor_pc s).
Definition set_heartbeat count pc (s : Connection) : Connection :=
  MkConnection (current_master_view_ s) (last_ping_success_ s) (direct_master_address_ s)
    (leader_coordinator_ s) (segment_desc_publish_pending_ s) (rpc_meta_publish_pending_ s)
    (remount_future s) count pc (monitor_pc s).
Definition set_monitor pc (s : Connection) : Connection :=
  MkConnection (current_master_view_ s) (last_ping_success_ s) (direct_master_address_ s)
    (leader_coordinator_ s) (segment_desc_publish_pending_ s) (rpc_meta_publish_pending_ s)
    (remount_future s) (ping_fail_count s) (heartbeat_pc s) pc.

(** ** Calls *)

Inductive conn_event :=
| Connect (address : string) (r : ErrorCode)
| CreateCoordinator (r : expected unit)
| ReadCurrentView (r : expected (option MasterView))
| WaitForViewChange (known : option Z) (r : expected (bool * option MasterView))
| Ping (r : expected ClientStatus)
| ReMountSegment (segments : list Z) (r : expected unit)
| UpdateLocalSegmentDesc (rc : Z)
| RePublishRpcMetaEntry (rc : Z)
| StartMonitor
| Sleep.

Abbreviation cio A := (comp conn_event A).
Abbreviation chist := (list conn_event).

Class MasterApi := {
  a_connect : chist → string → ErrorCode;
  a_create_coordinator : chist → expected unit;
  a_read_view : chist → expected (option MasterView);
  a_wait_view : chist → option Z → expected (bool * option MasterView);
  a_ping : chist → expected ClientStatus;
  a_remount : chist → list Z → expected unit;
  a_has_metadata : chist → bool;              (* [getMetadata() != nullptr] *)
  a_update_desc : chist → Z;
  a_republish_rpc : chist → Z }.

(** ** Address of the master *)

Section Backend.
Context {T : Type}.
Context (ParseHABackendType : string → option T) (ValidateHABackendAvailability : T → ErrorCode).

Definition ParseHABackendSpec (entry : string) : expected (option (HABackendSpec T)) :=
  match String.index 0 "://" entry with
  | None => Ok None
  | Some pos =>
      match ParseHABackendType (String.substring 0 pos entry) with
      | None => Err INVALID_PARAMS
      | Some t =>
          let availability := ValidateHABackendAvailability t in
          if negb (bool_decide (availability = OK)) then Err availability
          else Ok (Some (MkBackend t (str_drop (pos + 3) entry) ""))
      end
  end.
End Backend.

Section Threads.
Context `{!MasterApi}.

Definition do_connect (address : string) : cio ErrorCode :=
  call (λ h, a_connect h address) (Connect address).
Definition do_sleep : cio unit := call (λ _, tt) (λ _, Sleep).

(** ** Switching the leader (under [leader_switch_mutex_]) *)

Definition up_to_date (target : MasterView) (s : Connection) : bool :=
  match current_master_view_ s with
  | None => false
  | Some current =>
      (view_version target <? view_version current) ||
      ((view_version target =? view_version current) &&
       bool_decide (leader_address target = leader_address current) && last_ping_success_ s)
  end.

Definition SwitchLeader (target : MasterView) (s : Connection) : cio (ErrorCode * Connection) :=
  if up_to_date target s then ret (OK, s)
  else
    let! err := do_connect (leader_address target) in
    if negb (bool_decide (err = OK)) then ret (err, set_ping false s)
    else ret (OK, set_view (Some target) true s).

(** ** Connecting *)

Definition connect_ha (s : Connection) : cio (ErrorCode * Connection) :=
  let! coordinator := call a_create_coordinator CreateCoordinator in
  match coordinator with
  | Err e => ret (e, s)
  | Ok _ =>
      let! current_view := call a_read_view ReadCurrentView in
      match current_view with
      | Err e => ret (e, s)
      | Ok None => ret (UNAVAILABLE_IN_CURRENT_STATUS, s)
      | Ok (Some master_view) =>
          let! r := SwitchLeader master_view s in
          if negb (bool_decide (r.1 = OK)) then ret r
          else
            call (λ _, tt) (λ _, StartMonitor) ;;;
            ret (OK, set_mode "" true r.2)
      end
  end.

Definition ConnectToMaster {T} (parse : string → option T) (validate : T → ErrorCode)
    (entry : string) (s : Connection) : cio (ErrorCode * Connection) :=
  match ParseHABackendSpec parse validate entry with
  | Err e => ret (e, s)
  | Ok (Some _) => connect_ha s
  | Ok None =>
      let! err := do_connect entry in
      if negb (bool_decide (err = OK)) then ret (err, s)
      else ret (OK, set_view None true (set_mode entry (leader_coordinator_ s) s))
  end.

(** ** Remounting *)

(** [remount_segment], on its own thread; [segments] are the mounted ones. *)
Definition remount_segment (segments : list Z) (s : Connection) : cio Connection :=
  let! _ := call (λ h, a_remount h segments) (ReMountSegment segments) in
  λ h,
  (if a_has_metadata h then
     let! rc := call a_update_desc UpdateLocalSegmentDesc in
     let! rc' := call a_republish_rpc RePublishRpcMetaEntry in
     ret (set_remount Remounted (set_pending (negb (rc =? 0)) (negb (rc' =? 0)) s))
   else ret (set_remount Remounted s)) h.

(** ** The heartbeat thread *)

Definition max_ping_fail_count : Z := 3.

Definition future_valid (s : Connection) : bool := negb (bool_decide (remount_future s = NoRemount)).

(** The retries of publications that failed during a remount. *)
Definition retry_publication (s : Connection) : cio Connection := λ h,
  (if segment_desc_publish_pending_ s && negb (future_valid s) then
     if a_has_metadata h then
       let! rc := call a_update_desc UpdateLocalSegmentDesc in
       ret (if negb (rc =? 0) then s else set_pending false (rpc_meta_publish_pending_ s) s)
     else ret s
   else if rpc_meta_publish_pending_ s && negb (future_valid s) then
     if a_has_metadata h then
       let! rc := call a_republish_rpc RePublishRpcMetaEntry in
       ret (if negb (rc =? 0) then s else set_pending (segment_desc_publish_pending_ s) false s)
     else ret s
   else ret s) h.

Definition ping_succeeded (st : ClientStatus) (s : Connection) : cio Connection :=
  let s := set_ping true (set_heartbeat 0 AtPing s) in
  let! s := (match st, future_valid s with
             | NEED_REMOUNT, false => ret (set_remount Remounting s)
             | _, _ => retry_publication s
             end) in
  do_sleep ;;;
  ret s.

(** From the top of the loop to the reconnection branch. *)
Definition heartbeat_ping (s : Connection) : cio Connection :=
  let s := match remount_future s with Remounted => set_remount NoRemount s | _ => s end in
  let! ping_result := call a_ping Ping in
  match ping_result with
  | Ok st => ping_succeeded st s
  | Err _ =>
      let count := ping_fail_count s + 1 in
      let s := set_ping false (set_heartbeat count AtPing s) in
      if count <? max_ping_fail_count then do_sleep ;;; ret s
      else ret (set_heartbeat count AtReconnect s)
  end.

(** The reconnection branch up to the switch. *)
Definition heartbeat_reconnect (s : Connection) : cio Connection :=
  let back := set_heartbeat (ping_fail_count s) AtPing s in
  if leader_coordinator_ s then
    let! current_view := call a_read_view ReadCurrentView in
    match current_view with
    | Ok (Some next_view) => ret (set_heartbeat (ping_fail_count s) (AtSwitch next_view) s)
    | _ => do_sleep ;;; ret back
    end
  else
    let! err := do_connect (direct_master_address_ s) in
    if negb (bool_decide (err = OK)) then do_sleep ;;; ret back
    else ret (set_ping true (set_heartbeat 0 AtPing s)).

Definition failed (err : ErrorCode) : bool := negb (bool_decide (err = OK)).

Definition heartbeat_switch (v : MasterView) (s : Connection) : cio Connection :=
  let! r := SwitchLeader v s in
  (if failed r.1 then do_sleep else ret tt) ;;;
  ret (set_heartbeat (if failed r.1 then ping_fail_count s else 0) AtPing r.2).

(** ** The monitor thread *)

Definition monitor_wait (s : Connection) : cio Connection :=
  let known_version := view_version <$> current_master_view_ s in
  let! view_change := call (λ h, a_wait_view h known_version) (WaitForViewChange known_version) in
  match view_change with
  | Err _ => do_sleep ;;; ret s
  | Ok (true, Some v) => ret (set_monitor (AtMonitorSwitch v) s)
  | Ok _ => ret s
  end.

Definition monitor_switch (v : MasterView) (s : Connection) : cio Connection :=
  let! r := SwitchLeader v s in
  (if failed r.1 then do_sleep else ret tt) ;;;
  ret (set_monitor AtWait r.2).

(** ** Interleaving *)

Definition heartbeat_step (s : Connection) : cio Connection :=
  match heartbeat_pc s with
  | AtPing => heartbeat_ping s
  | AtReconnect => heartbeat_reconnect s
  | AtSwitch v => heartbeat_switch v s
  end.

Definition monitor_step (s : Connection) : cio Connection :=
  match monitor_pc s with
  | AtWait => monitor_wait s
  | AtMonitorSwitch v => monitor_switch v s
  end.

Inductive conn_step (s : Connection) (h : chist) : chist → Connection → Prop :=
| step_heartbeat s' evs : heartbeat_step s h = (s', evs) → conn_step s h evs s'
| step_monitor s' evs :
    leader_coordinator_ s = true → monitor_step s h = (s', evs) → conn_step s h evs s'
| step_remount segments s' evs :
    remount_future s = Remounting → remount_segment segments s h = (s', evs) →
    conn_step s h evs s'.

Inductive conn_steps (s : Connection) (h : chist) : chist → Connection → Prop :=
| conn_none : conn_steps s h [] s
| conn_more e1 s1 e2 s2 :
    conn_step s h e1 s1 → conn_steps s1 (h ++ e1) e2 s2 → conn_steps s h (e1 ++ e2) s2.
End Threads.
