(* ===== verification/LeaderSpec.v ===== *)
(** * What the connection threads guarantee

    The view of the leader only moves forward, the client is connected to the
    leader it believes in, failed publications stay pending until they succeed,
    and a reconnection needs three failed pings in a row. *)

From S2P Require Import Prelude CxxString StoreTypes Accounting Leader.
From stdpp Require Import base strings list sets gmap.
From Stdlib Require Import ZArith Lia.

#[local] Open Scope Z_scope.
#[local] Set Default Proof Using "Type".

(** ** Facts of a history *)

(** The address of the last successful connection. *)
Fixpoint connected_to (h : chist) (before : option string) : option string :=
  match h with
  | [] => before
  | Connect a OK :: h' => connected_to h' (Some a)
  | _ :: h' => connected_to h' before
  end.

(** Whether the last publication of the segment description failed. *)
Fixpoint desc_failed (h : chist) (before : bool) : bool :=
  match h with
  | [] => before
  | UpdateLocalSegmentDesc rc :: h' => desc_failed h' (negb (rc =? 0))
  | _ :: h' => desc_failed h' before
  end.

Fixpoint rpc_failed (h : chist) (before : bool) : bool :=
  match h with
  | [] => before
  | RePublishRpcMetaEntry rc :: h' => rpc_failed h' (negb (rc =? 0))
  | _ :: h' => rpc_failed h' before
  end.

(** Failed pings since the last successful one. *)
Fixpoint failed_pings (h : chist) (before : Z) : Z :=
  match h with
  | [] => before
  | Ping (Ok _) :: h' => failed_pings h' 0
  | Ping (Err _) :: h' => failed_pings h' (before + 1)
  | _ :: h' => failed_pings h' before
  end.

Lemma connected_to_app h1 h2 b : connected_to (h1 ++ h2) b = connected_to h2 (connected_to h1 b).
Proof.
  revert b. induction h1 as [|e h1 IH]; intros b; [done|].
  destruct e as [a []| | | | | | | | |]; apply IH.
Qed.
Lemma desc_failed_app h1 h2 b : desc_failed (h1 ++ h2) b = desc_failed h2 (desc_failed h1 b).
Proof. revert b. induction h1 as [|[] h1 IH]; intros b; [done|apply IH..]. Qed.
Lemma rpc_failed_app h1 h2 b : rpc_failed (h1 ++ h2) b = rpc_failed h2 (rpc_failed h1 b).
Proof. revert b. induction h1 as [|[] h1 IH]; intros b; [done|apply IH..]. Qed.
Lemma failed_pings_app h1 h2 n : failed_pings (h1 ++ h2) n = failed_pings h2 (failed_pings h1 n).
Proof.
  revert n. induction h1 as [|e h1 IH]; intros n; [done|].
  destruct e as [| | | |[]| | | | |]; apply IH.
Qed.

(** What the threads maintain. *)
Record conn_inv (s : Connection) (h : chist) : Prop := {
  (* the client is connected to the leader of its view, or to its fixed address *)
  inv_connected : match current_master_view_ s with
                  | Some v => leader_coordinator_ s = true ∧
                              connected_to h None = Some (leader_address v)
                  | None => leader_coordinator_ s = false ∧
                            connected_to h None = Some (direct_master_address_ s)
                  end;
  (* exactly the publications that failed are pending *)
  inv_desc : segment_desc_publish_pending_ s = desc_failed h false;
  inv_rpc : rpc_meta_publish_pending_ s = rpc_failed h false;
  (* failed pings are counted, and three of them precede a reconnection *)
  inv_count : 0 <= ping_fail_count s <= failed_pings h 0;
  inv_reconnect : heartbeat_pc s ≠ AtPing → max_ping_fail_count <= ping_fail_count s }.

(** The view only moves forward. *)
Definition view_le (a b : option MasterView) : Prop :=
  match a, b with
  | None, _ => True
  | Some v, Some w => view_version v <= view_version w
  | Some _, None => False
  end.

#[export] Instance view_le_preorder : PreOrder view_le.
Proof.
  split; [by intros [v|]; cbn|]. intros [a|] [b|] [d|]; cbn; try done. lia.
Qed.

Section Specs.
Context `{!MasterApi}.

(** Parts of the state a switch of the leader leaves alone. *)
Definition same_threads (s s' : Connection) : Prop :=
  direct_master_address_ s' = direct_master_address_ s ∧
  leader_coordinator_ s' = leader_coordinator_ s ∧
  segment_desc_publish_pending_ s' = segment_desc_publish_pending_ s ∧
  rpc_meta_publish_pending_ s' = rpc_meta_publish_pending_ s ∧
  ping_fail_count s' = ping_fail_count s ∧ heartbeat_pc s' = heartbeat_pc s.

Lemma switch_run v s h err s' evs :
  SwitchLeader v s h = ((err, s'), evs) →
  same_threads s s' ∧ view_le (current_master_view_ s) (current_master_view_ s') ∧
  ((current_master_view_ s' = current_master_view_ s ∧
    (evs = [] ∨ ∃ e, e ≠ OK ∧ evs = [Connect (leader_address v) e])) ∨
   (err = OK ∧ current_master_view_ s' = Some v ∧ evs = [Connect (leader_address v) OK])).
Proof.
  unfold SwitchLeader. intros Hrun. destruct (up_to_date v s) eqn:Hup.
  { apply ret_inv in Hrun as [[= -> ->] ->]. split_and!; [done|done|]. left. auto. }
  apply bind_inv in Hrun as (e & ? & ? & [_ ->]%call_inv & Hrun & ->).
  case_bool_decide as He; cbn in Hrun; apply ret_inv in Hrun as [[= -> ->] ->]; cbn.
  - split_and!; [done| |right; by rewrite He].
    unfold up_to_date in Hup. destruct (current_master_view_ s) as [w|]; [|done]. cbn.
    apply orb_false_iff in Hup as [Hlt%Z.ltb_ge _]. done.
  - split_and!; [done|done|]. left. split; [done|]. right. by exists e.
Qed.

Lemma inv_frame_connected s h evs s' :
  match current_master_view_ s with
  | Some v => leader_coordinator_ s = true ∧ connected_to h None = Some (leader_address v)
  | None => leader_coordinator_ s = false ∧ connected_to h None = Some (direct_master_address_ s)
  end →
  current_master_view_ s' = current_master_view_ s →
  leader_coordinator_ s' = leader_coordinator_ s →
  direct_master_address_ s' = direct_master_address_ s →
  connected_to evs (connected_to h None) = connected_to h None →
  match current_master_view_ s' with
  | Some v => leader_coordinator_ s' = true ∧ connected_to (h ++ evs) None = Some (leader_address v)
  | None => leader_coordinator_ s' = false ∧
            connected_to (h ++ evs) None = Some (direct_master_address_ s')
  end.
Proof. intros Hc Hv Hl Hd He. by rewrite connected_to_app, He, Hv, Hl, Hd. Qed.

Lemma inv_switch v s h err s' evs :
  SwitchLeader v s h = ((err, s'), evs) → leader_coordinator_ s = true → conn_inv s h →
  conn_inv s' (h ++ evs).
Proof.
  intros ((Hd & Hl & Hdp & Hrp & Hpc & Hhb) & _ & Hcases)%switch_run Hco [Hc Hdesc Hrpc Hcnt Hrec].
  assert (∀ evs', (evs' = [] ∨ ∃ a e, evs' = [Connect a e]) →
    (∀ b, desc_failed evs' b = b) ∧ (∀ b, rpc_failed evs' b = b) ∧ ∀ n, failed_pings evs' n = n)
    as Hneutral by (by intros evs' [->|(a & e & ->)]).
  assert (evs = [] ∨ ∃ a e, evs = [Connect a e]) as Hevs.
  { destruct Hcases as [[_ [->|(e & _ & ->)]]|(_ & _ & ->)]; eauto. }
  destruct (Hneutral _ Hevs) as (H1 & H2 & H3).
  split; rewrite ?desc_failed_app, ?rpc_failed_app, ?failed_pings_app, ?H1, ?H2, ?H3;
    [|congruence|congruence|lia|by rewrite Hhb, Hpc].
  destruct Hcases as [[Hv He]|(_ & Hv & ->)].
  - apply (inv_frame_connected s); [done..|].
    destruct He as [->|(e & Hne & ->)]; [done|]. by destruct e.
  - rewrite Hv, connected_to_app, Hl. split; [done|]. done.
Qed.
(** Steps that connect to nothing: the remaining parts of the invariant. *)
Lemma inv_step s h evs s' :
  conn_inv s h →
  current_master_view_ s' = current_master_view_ s →
  leader_coordinator_ s' = leader_coordinator_ s →
  direct_master_address_ s' = direct_master_address_ s →
  (∀ b, connected_to evs b = b) →
  segment_desc_publish_pending_ s' = desc_failed evs (segment_desc_publish_pending_ s) →
  rpc_meta_publish_pending_ s' = rpc_failed evs (rpc_meta_publish_pending_ s) →
  0 <= ping_fail_count s' <= failed_pings evs (failed_pings h 0) →
  (heartbeat_pc s' ≠ AtPing → max_ping_fail_count <= ping_fail_count s') →
  conn_inv s' (h ++ evs).
Proof.
  intros [Hc Hd Hr Hn Hp] Hv Hl Hdir He Hd' Hr' Hn' Hp'. split.
  - by eapply inv_frame_connected.
  - by rewrite desc_failed_app, <- Hd.
  - by rewrite rpc_failed_app, <- Hr.
  - by rewrite failed_pings_app.
  - done.
Qed.

Lemma retry_publication_run s h s' evs :
  retry_publication s h = (s', evs) →
  s' = set_pending (desc_failed evs (segment_desc_publish_pending_ s))
         (rpc_failed evs (rpc_meta_publish_pending_ s)) s ∧
  (evs = [] ∨ (∃ rc, evs = [UpdateLocalSegmentDesc rc]) ∨ (∃ rc, evs = [RePublishRpcMetaEntry rc])).
Proof.
  assert (s = set_pending (segment_desc_publish_pending_ s) (rpc_meta_publish_pending_ s) s) as Hs
    by by destruct s.
  unfold retry_publication. intros Hrun.
  destruct (segment_desc_publish_pending_ s) eqn:Hd, (rpc_meta_publish_pending_ s) eqn:Hr,
    (future_valid s); cbn [andb negb] in Hrun;
    try destruct (a_has_metadata h);
    try (apply ret_inv in Hrun as [-> ->]; split; [done|by left]);
    apply bind_inv in Hrun as (rc & ? & ? & [_ ->]%call_inv & [-> ->]%ret_inv & ->);
    (split; [|eauto]); cbn; by destruct (rc =? 0).
Qed.

Lemma inv_ping s h s' evs :
  heartbeat_ping s h = (s', evs) → conn_inv s h → conn_inv s' (h ++ evs).
Proof.
  intros Hrun Hinv. unfold heartbeat_ping in Hrun.
  set (s0 := match remount_future s with Remounted => set_remount NoRemount s | _ => s end) in *.
  assert (conn_inv s0 h) as [Hc Hd Hr Hn Hp].
  { destruct Hinv. unfold s0. by destruct (remount_future s). }
  clearbody s0. apply bind_inv in Hrun as (res & ? & e2 & [_ ->]%call_inv & Hrun & ->).
  destruct res as [st|e].
  - apply bind_inv in Hrun as (s1 & e3 & ? & Hrun & Hsleep & ->).
    apply bind_inv in Hsleep as (? & ? & ? & [_ ->]%call_inv & [-> ->]%ret_inv & ->).
    set (t := set_ping true (set_heartbeat 0 AtPing s0)) in *.
    assert ((s1 = set_remount Remounting t ∧ e3 = []) ∨ retry_publication t (h ++ [Ping (Ok st)]) = (s1, e3))
      as [[-> ->]|Hpub].
    { destruct st, (future_valid t); auto. left. by apply ret_inv in Hrun as [-> ->]. }
    + eapply (inv_step s0); [by split|done..|cbn; lia|done].
    + apply retry_publication_run in Hpub as [-> He].
      destruct He as [->|[[rc ->]|[rc ->]]]; (eapply (inv_step s0); [by split|done..|cbn; lia|done]).
  - assert (∀ x evs', (x = set_ping false (set_heartbeat (ping_fail_count s0 + 1) AtPing s0) ∨
        max_ping_fail_count <= ping_fail_count s0 + 1 ∧
        x = set_heartbeat (ping_fail_count s0 + 1) AtReconnect
              (set_ping false (set_heartbeat (ping_fail_count s0 + 1) AtPing s0))) →
      (evs' = [] ∨ evs' = [Sleep]) → conn_inv x (h ++ [Ping (Err e)] ++ evs')) as Hfail.
    { intros x evs' Hx He. destruct Hx as [->|[? ->]], He as [->| ->];
        (eapply (inv_step s0); [by split|done..|cbn; lia|done]). }
    destruct (_ <? _) eqn:Hlt.
    + apply bind_inv in Hrun as (? & ? & ? & [_ ->]%call_inv & [-> ->]%ret_inv & ->).
      apply Hfail; auto.
    + apply ret_inv in Hrun as [-> ->]. apply Z.ltb_ge in Hlt. apply Hfail; auto.
Qed.

Lemma inv_reconnect_step s h s' evs :
  heartbeat_reconnect s h = (s', evs) → heartbeat_pc s = AtReconnect → conn_inv s h →
  conn_inv s' (h ++ evs).
Proof.
  intros Hrun Hpc [Hc Hd Hr Hn Hp]. unfold heartbeat_reconnect in Hrun.
  assert (max_ping_fail_count <= ping_fail_count s) as Hthree by (apply Hp; by rewrite Hpc).
  destruct (leader_coordinator_ s) eqn:Hco.
  - apply bind_inv in Hrun as (r & ? & ? & [_ ->]%call_inv & Hrun & ->).
    destruct r as [[v|]|]; [apply ret_inv in Hrun as [-> ->]|
      apply bind_inv in Hrun as (? & ? & ? & [_ ->]%call_inv & [-> ->]%ret_inv & ->)..];
      (eapply (inv_step s); [by split; rewrite ?Hco|done..|cbn; lia|done]).
  - apply bind_inv in Hrun as (err & ? & ? & [_ ->]%call_inv & Hrun & ->).
    case_bool_decide as He; cbn [negb] in Hrun.
    + subst err. apply ret_inv in Hrun as [-> ->].
      destruct (current_master_view_ s) as [v|] eqn:Hv; [by destruct Hc; congruence|].
      split; rewrite ?connected_to_app, ?desc_failed_app, ?rpc_failed_app, ?failed_pings_app; cbn;
        try done; [|lia]. by rewrite Hv, Hco.
    + apply bind_inv in Hrun as (? & ? & ? & [_ ->]%call_inv & [-> ->]%ret_inv & ->).
      eapply (inv_step s); [by split; rewrite ?Hco|done..| |done|done|cbn; lia|done].
      intros b. cbn. by destruct err.
Qed.

Lemma inv_weaken_pc s h s' :
  conn_inv s h →
  current_master_view_ s' = current_master_view_ s → leader_coordinator_ s' = leader_coordinator_ s →
  direct_master_address_ s' = direct_master_address_ s →
  segment_desc_publish_pending_ s' = segment_desc_publish_pending_ s →
  rpc_meta_publish_pending_ s' = rpc_meta_publish_pending_ s →
  0 <= ping_fail_count s' <= ping_fail_count s →
  (heartbeat_pc s' ≠ AtPing → max_ping_fail_count <= ping_fail_count s') → conn_inv s' h.
Proof.
  intros Hinv Hv Hl Hdir Hd Hr Hn Hp. rewrite <- (app_nil_r h). destruct Hinv.
  eapply (inv_step s); [done..|cbn; lia|done].
Qed.

Lemma inv_switch_step v s h s' evs (k : ErrorCode → Connection → Connection) :
  bind (SwitchLeader v s) (λ r, (if failed r.1 then do_sleep else ret tt) ;;; ret (k r.1 r.2)) h =
    (s', evs) →
  leader_coordinator_ s = true → conn_inv s h →
  (∀ e t h', same_threads s t → conn_inv t h' → conn_inv (k e t) h') →
  conn_inv s' (h ++ evs).
Proof.
  intros ([err t] & e1 & ? & Hsw & Hrun & ->)%bind_inv Hco Hinv Hk.
  pose proof (inv_switch _ _ _ _ _ _ Hsw Hco Hinv) as Ht.
  apply switch_run in Hsw as [Hsame _].
  apply bind_inv in Hrun as (? & e2 & ? & Hs & [-> ->]%ret_inv & ->).
  cbn [fst snd] in *. apply Hk; [done|]. rewrite app_nil_r, app_assoc. destruct (failed err).
  - apply call_inv in Hs as [_ ->]. eapply (inv_step t); [done..| |apply Ht].
    destruct Ht. cbn. lia.
  - apply ret_inv in Hs as [_ ->]. by rewrite app_nil_r.
Qed.

(** Threads that take part in leader switching exist only with a coordinator. *)
Definition switching (s : Connection) : Prop :=
  (∀ v, heartbeat_pc s = AtSwitch v → leader_coordinator_ s = true) ∧
  (∀ v, monitor_pc s = AtMonitorSwitch v → leader_coordinator_ s = true).

Lemma inv_conn_step s h evs s' :
  conn_step s h evs s' → switching s → conn_inv s h → conn_inv s' (h ++ evs).
Proof.
  intros [s1 e Hrun|s1 e Hco Hrun|segs s1 e Hrem Hrun] [Hsw _] Hinv.
  - unfold heartbeat_step in Hrun. destruct (heartbeat_pc s) as [| |v] eqn:Hpc.
    + by eapply inv_ping.
    + by eapply inv_reconnect_step.
    + eapply (inv_switch_step v s h s1 e (λ e t,
        set_heartbeat (if failed e then ping_fail_count s else 0) AtPing t)); [done|by eapply Hsw|done|].
      intros err t h' (? & ? & ? & ? & Hcnt & ?) Ht. eapply (inv_weaken_pc t); try done.
      destruct Ht. cbn. rewrite <- Hcnt. destruct (failed err); lia.
  - unfold monitor_step in Hrun. destruct (monitor_pc s) as [|v].
    + apply bind_inv in Hrun as (r & ? & ? & [_ ->]%call_inv & Hrun & ->). destruct Hinv.
      destruct r as [[[] [v|]]|];
        [apply ret_inv in Hrun as [-> ->]..|
         apply bind_inv in Hrun as (? & ? & ? & [_ ->]%call_inv & [-> ->]%ret_inv & ->)];
        (eapply (inv_step s); [by split|done..|cbn; lia|done]).
    + eapply (inv_switch_step v s h s1 e (λ _ t, set_monitor AtWait t)); [done..|].
      intros err t h' _ Ht. destruct (Ht) as [_ _ _ ? ?]. eapply (inv_weaken_pc t); try done. cbn. lia.
  - apply bind_inv in Hrun as (r & ? & ? & [_ ->]%call_inv & Hrun & ->). cbv beta in Hrun.
    destruct Hinv. destruct (a_has_metadata _).
    + apply bind_inv in Hrun as (rc & ? & ? & [_ ->]%call_inv & Hrun & ->).
      apply bind_inv in Hrun as (rc' & ? & ? & [_ ->]%call_inv & [-> ->]%ret_inv & ->).
      eapply (inv_step s); [by split|done..|cbn; lia|done].
    + apply ret_inv in Hrun as [-> ->]. eapply (inv_step s); [by split|done..|cbn; lia|done].
Qed.

(** How a step changes the view and the mode. *)
Definition advances (s s' : Connection) : Prop :=
  leader_coordinator_ s' = leader_coordinator_ s ∧
  view_le (current_master_view_ s) (current_master_view_ s') ∧ switching s'.

Ltac advance_run :=
  repeat first
    [ apply returns_bind; intros
    | progress case_match
    | apply returns_ret; unfold advances, switching in *; cbn in *; split_and!; naive_solver ].

Lemma switch_advances v s : switching s → returns (SwitchLeader v s) (λ r, advances s r.2).
Proof.
  intros Hs h [err s'] evs Hrun. destruct (switch_run _ _ _ _ _ _ Hrun) as ((_ & Hl & _ & _ & _ & Hh) & Hv & _).
  split_and!; [done|done|]. assert (monitor_pc s' = monitor_pc s) as Hm.
  { unfold SwitchLeader in Hrun. case_match; [by apply ret_inv in Hrun as [[= -> ->] _]|].
    apply bind_inv in Hrun as (e & ? & ? & _ & Hrun & _).
    case_match; by apply ret_inv in Hrun as [[= -> ->] _]. }
  unfold switching in *. cbn. by rewrite Hh, Hm, Hl.
Qed.

Lemma ping_advances s : switching s → returns (heartbeat_ping s) (advances s).
Proof.
  intros Hs h s' evs Hrun. unfold heartbeat_ping in Hrun.
  set (s0 := match remount_future s with Remounted => set_remount NoRemount s | _ => s end) in *.
  assert (advances s s0) as Ha by (unfold advances, s0; by destruct (remount_future s)).
  clearbody s0. apply bind_inv in Hrun as (res & ? & ? & _ & Hrun & _).
  destruct res as [st|].
  - apply bind_inv in Hrun as (s1 & e3 & ? & Hrun & Hsleep & _).
    apply bind_inv in Hsleep as (? & ? & ? & _ & [-> _]%ret_inv & _).
    assert (s1 = set_remount Remounting (set_ping true (set_heartbeat 0 AtPing s0)) ∨
      ∃ h, retry_publication (set_ping true (set_heartbeat 0 AtPing s0)) h = (s1, e3))
      as [->|[h' [-> _]%retry_publication_run]].
    { destruct st, (future_valid (set_ping true (set_heartbeat 0 AtPing s0))); eauto. left. by apply ret_inv in Hrun as [-> _]. }
    all: unfold advances, switching in *; cbn; naive_solver.
  - case_match; [apply bind_inv in Hrun as (? & ? & ? & _ & Hrun & _)|];
      apply ret_inv in Hrun as [-> _]; unfold advances, switching in *; cbn; naive_solver.
Qed.

Lemma step_advances s h evs s' : conn_step s h evs s' → switching s → advances s s'.
Proof.
  intros [s1 e Hrun|s1 e Hco Hrun|segs s1 e _ Hrun] Hs.
  - unfold heartbeat_step in Hrun. destruct (heartbeat_pc s) as [| |v] eqn:Hpc.
    + by eapply ping_advances.
    + revert Hrun. apply (λ p : returns (heartbeat_reconnect s) (advances s), p h s1 e).
      unfold heartbeat_reconnect. advance_run.
    + apply bind_inv in Hrun as (r & ? & ? & Hsw%switch_advances & Hrun & _); [|done].
      apply bind_inv in Hrun as (? & ? & ? & _ & [-> _]%ret_inv & _).
      unfold advances, switching in *; cbn; naive_solver.
  - unfold monitor_step in Hrun. destruct (monitor_pc s) as [|v] eqn:Hpc.
    + revert Hrun. apply (λ p : returns (monitor_wait s) (advances s), p h s1 e).
      unfold monitor_wait. advance_run.
    + apply bind_inv in Hrun as (r & ? & ? & Hsw%switch_advances & Hrun & _); [|done].
      apply bind_inv in Hrun as (? & ? & ? & _ & [-> _]%ret_inv & _).
      unfold advances, switching in *; cbn; naive_solver.
  - apply bind_inv in Hrun as (r & ? & ? & _ & Hrun & _). cbv beta in Hrun. case_match.
    + apply bind_inv in Hrun as (? & ? & ? & _ & Hrun & _).
      apply bind_inv in Hrun as (? & ? & ? & _ & [-> _]%ret_inv & _).
      unfold advances, switching in *; cbn; naive_solver.
    + apply ret_inv in Hrun as [-> _]. unfold advances, switching in *; cbn; naive_solver.
Qed.

Lemma steps_sound s h evs s' :
  conn_steps s h evs s' → switching s →
  advances s s' ∧ (conn_inv s h → conn_inv s' (h ++ evs)).
Proof.
  induction 1 as [s h|s h e1 s1 e2 s2 Hstep _ IH]; intros Hs.
  - rewrite app_nil_r. split; [|done]. by split_and!.
  - destruct (step_advances _ _ _ _ Hstep Hs) as (Hl & Hv & Hs1).
    destruct (IH Hs1) as [(Hl2 & Hv2 & Hs2) Hinv]. rewrite app_assoc. split.
    + split_and!; [congruence|by etrans|done].
    + intros Hi. apply Hinv. by eapply inv_conn_step.
Qed.

(** Whatever the order in which the heartbeat and the monitor thread see leader
    views, the client's view of the leader never goes back to an older version
    and never disappears. *)
Theorem leader_view_monotone s h evs s' :
  conn_steps s h evs s' → switching s →
  view_le (current_master_view_ s) (current_master_view_ s').
Proof. intros Hsteps Hs. by destruct (steps_sound _ _ _ _ Hsteps Hs) as [(_ & Hv & _) _]. Qed.

(** An error is never reported as [OK]. *)
Context (coordinator_error : ∀ h, a_create_coordinator h ≠ Err OK).
Context (view_error : ∀ h, a_read_view h ≠ Err OK).

Lemma connect_inv {T} (parse : string → option T) validate entry s evs :
  ConnectToMaster parse validate entry new_connection [] = ((OK, s), evs) →
  conn_inv s evs ∧ switching s.
Proof using coordinator_error view_error.
  unfold ConnectToMaster. intros Hrun. destruct (ParseHABackendSpec _ _ _) as [[spec|]|e] eqn:Hp.
  - apply bind_inv in Hrun as (co & ? & ? & [Hco ->]%call_inv & Hrun & ->).
    destruct co as [u|e]; [|apply ret_inv in Hrun as [[= <- _] _]; by destruct (coordinator_error [])].
    apply bind_inv in Hrun as (r & ? & ? & [Hr ->]%call_inv & Hrun & ->).
    destruct r as [[v|]|e]; [|by apply ret_inv in Hrun as [[= ?] _]|
      apply ret_inv in Hrun as [[= <- _] _]; by destruct (view_error _ (eq_sym Hr))].
    apply bind_inv in Hrun as ([err s1] & e1 & ? & Hsw & Hrun & ->). cbn [fst snd] in Hrun.
    case_bool_decide as He; cbn [negb] in Hrun; [|by apply ret_inv in Hrun as [[= ? ?] _]].
    apply bind_inv in Hrun as (? & ? & ? & [_ ->]%call_inv & [[= ->] ->]%ret_inv & ->).
    unfold SwitchLeader, up_to_date in Hsw. cbn [new_connection current_master_view_] in Hsw.
    apply bind_inv in Hsw as (err' & ? & ? & [_ ->]%call_inv & Hsw & ->).
    case_bool_decide as He'; cbn [negb] in Hsw; apply ret_inv in Hsw as [[= -> ->] ->]; [|done].
    subst err'. by split; [split|split].
  - apply bind_inv in Hrun as (err & ? & ? & [_ ->]%call_inv & Hrun & ->).
    case_bool_decide as He; cbn [negb] in Hrun; [|by apply ret_inv in Hrun as [[= ? ?] _]].
    apply ret_inv in Hrun as [[= ->] ->]. subst err. by split; [split|split].
  - apply ret_inv in Hrun as [[= <- _] _]. unfold ParseHABackendSpec in Hp.
    case_match; [|done]. case_match; [|done]. case_bool_decide as Hv; cbn in Hp; [done|]. by injection Hp.
Qed.

(** After a successful connection, in every interleaving of the heartbeat, monitor
    and remount threads: the client is connected to the leader of its current view
    (or, without a backend, to its fixed address); a publication is pending exactly
    when its last attempt failed; and the heartbeat reconnects only after three
    failed pings in a row. *)
Theorem connection_invariant {T} (parse : string → option T) validate entry s0 e0 evs s :
  ConnectToMaster parse validate entry new_connection [] = ((OK, s0), e0) →
  conn_steps s0 e0 evs s → conn_inv s (e0 ++ evs).
Proof using coordinator_error view_error.
  intros [Hinv Hs]%connect_inv Hsteps. by apply (steps_sound _ _ _ _ Hsteps Hs).
Qed.
End Specs.

(** ** A sample backend *)

(** The published leader changes with every call; pings fail. *)
Definition sample_backend : MasterApi := {|
  a_connect := λ _ _, OK;
  a_create_coordinator := λ _, Ok tt;
  a_read_view := λ h, Ok (Some (MkView (Z.of_nat (length h)) "m1"));
  a_wait_view := λ h _, Ok (true, Some (MkView (Z.of_nat (length h)) "m2"));
  a_ping := λ _, Err RPC_FAIL;
  a_remount := λ _ _, Ok tt;
  a_has_metadata := λ _, true;
  a_update_desc := λ _, 0;
  a_republish_rpc := λ _, 0 |}.

#[local] Abbreviation sample_connect :=
  (@ConnectToMaster sample_backend unit (λ _, Some tt) (λ _, OK) "etcd://host:1" new_connection).

Definition sample_conn : Connection := (value_of sample_connect []).2.
Definition sample_conn_events : chist := emitted sample_connect [].

Lemma sample_connect_run : sample_connect [] = ((OK, sample_conn), sample_conn_events).
Proof. by vm_compute. Qed.

(** The monitor sees a newer leader and switches to it. *)
Definition sample_waited : Connection := (monitor_step (H := sample_backend) sample_conn sample_conn_events).1.
Definition sample_wait_events : chist := (monitor_step (H := sample_backend) sample_conn sample_conn_events).2.
Definition sample_switched : Connection :=
  (monitor_step (H := sample_backend) sample_waited (sample_conn_events ++ sample_wait_events)).1.
Definition sample_switch_events : chist :=
  (monitor_step (H := sample_backend) sample_waited (sample_conn_events ++ sample_wait_events)).2.

Lemma sample_conn_steps :
  @conn_steps sample_backend sample_conn sample_conn_events
    (sample_wait_events ++ sample_switch_events ++ []) sample_switched.
Proof.
  eapply conn_more; [apply (step_monitor _ _ sample_waited sample_wait_events); by vm_compute|].
  eapply conn_more; [apply (step_monitor _ _ sample_switched sample_switch_events); by vm_compute|].
  apply conn_none.
Qed.

Lemma sample_switching : switching sample_conn.
Proof. by split; vm_compute. Qed.

Lemma leader_view_monotone_witness :
  current_master_view_ sample_conn = Some (MkView 1 "m1") ∧
  current_master_view_ sample_switched = Some (MkView 4 "m2") ∧
  view_le (current_master_view_ sample_conn) (current_master_view_ sample_switched).
Proof.
  split_and!; [by vm_compute..|].
  exact (@leader_view_monotone sample_backend sample_conn sample_conn_events
    (sample_wait_events ++ sample_switch_events ++ []) sample_switched sample_conn_steps
    sample_switching).
Defined.

Lemma connection_invariant_witness :
  connected_to (sample_conn_events ++ sample_wait_events ++ sample_switch_events ++ []) None =
    Some "m2"%string ∧
  conn_inv sample_switched (sample_conn_events ++ sample_wait_events ++ sample_switch_events ++ []).
Proof.
  split; [by vm_compute|].
  exact (@connection_invariant sample_backend ltac:(done) ltac:(done) unit (λ _, Some tt) (λ _, OK)
    "etcd://host:1" sample_conn sample_conn_events
    (sample_wait_events ++ sample_switch_events ++ []) sample_switched sample_connect_run
    sample_conn_steps).
Defined.
