(* ===== verification/ClientCreate.v ===== *)
(** * Creation of the store client ([mooncake-store/src/client_service.cpp])

    [Client::Create] connects to the master, prepares the storage backend the master
    asks for, brings up the transfer engine with the transport of the protocol, and
    sets up the local hot cache, whose memory is registered with the engine.  The
    connection is that of [Leader.v]; the transfer engine, the storage backend, the
    hot cache and its handler, and the environment are external. *)

From S2P Require Import Prelude CxxString StoreTypes Leader.
From stdpp Require Import base strings list sets gmap.
From Stdlib Require Import ZArith Lia Ascii.

#[local] Open Scope Z_scope.
#[local] Set Default Proof Using "Type".

(** ** Data *)

Record StorageConfig := MkStorageConfig {
  fsdir : string; enable_disk_eviction : bool; quota_bytes : Z }.

(** [LocalHotCache]: its memory and number of blocks. *)
Record HotCache := MkHotCache { hc_base : Z; hc_total : Z; hc_blocks : Z }.

Inductive install_result := Installed | NoTransport | InstallThrows.

(** How the process leaves the code other than by returning. *)
Inductive crash := Exception | NullPointer.

Abbreviation outcome A := (result crash A).

Inductive create_event :=
| NConn (e : conn_event)
| NStorageConfig (r : expected StorageConfig)
| NFsdir (r : expected string)
| NStorageCreate (root subdir : string) (eviction created : bool)
| NStorageInit (quota : Z) (r : expected unit)
| NAutoDiscover (on : bool)
| NWhitelist (filters : list string)
| NFabricMem
| NEngineInit (metadata local_hostname host : string) (port rc : Z)
| NDiscover (devices : list string)
| NInstall (protocol : string) (r : install_result)
| NSubmitter
| NNewCache (total block : Z) (shm : bool) (c : HotCache)
| NFreeCache (base : Z)
| NRegister (base size rc : Z)
| NUnregister (base rc : Z)
| NStartHandler (threads : Z)
| NStopHandler.

Abbreviation nio A := (comp create_event A).

Definition conn_event_of (e : create_event) : option conn_event :=
  match e with NConn e => Some e | _ => None end.

Class CreateServices := {
  n_storage_config : list create_event → expected StorageConfig;
  n_fsdir : list create_event → expected string;
  n_storage_create : list create_event → string → string → bool → bool;
  n_storage_init : list create_event → Z → expected unit;
  n_engine_init : list create_event → string → string → string → Z → Z;
  n_install : list create_event → string → install_result;
  n_new_cache : list create_event → Z → Z → bool → HotCache;
  n_register : list create_event → Z → Z → Z;
  n_unregister : list create_event → Z → Z }.

(** ** State *)

Inductive engine_source := NoEngine | OwnEngine | GivenEngine.

Record NewClient := MkNewClient {
  nc_conn : Connection;
  nc_storage : bool;                         (* storage_backend_ is set *)
  nc_engine : engine_source;
  nc_submitter : bool;
  hot_cache_ : option HotCache;
  hot_cache_memory_registered_ : bool;
  hot_cache_handler_ : bool;
  admission_sketch_ : bool;
  admission_threshold_ : Z }.

Definition unconnected_client : NewClient :=
  MkNewClient new_connection false NoEngine false None false false false 2.

Definition set_conn (x : Connection) (s : NewClient) : NewClient :=
  MkNewClient x (nc_storage s) (nc_engine s) (nc_submitter s) (hot_cache_ s)
    (hot_cache_memory_registered_ s) (hot_cache_handler_ s) (admission_sketch_ s)
    (admission_threshold_ s).
Definition set_storage (x : bool) (s : NewClient) : NewClient :=
  MkNewClient (nc_conn s) x (nc_engine s) (nc_submitter s) (hot_cache_ s)
    (hot_cache_memory_registered_ s) (hot_cache_handler_ s) (admission_sketch_ s)
    (admission_threshold_ s).
Definition set_engine (x : engine_source) (submitter : bool) (s : NewClient) : NewClient :=
  MkNewClient (nc_conn s) (nc_storage s) x submitter (hot_cache_ s)
    (hot_cache_memory_registered_ s) (hot_cache_handler_ s) (admission_sketch_ s)
    (admission_threshold_ s).
Definition set_cache (c : option HotCache) (reg handler sketch : bool) (s : NewClient) : NewClient :=
  MkNewClient (nc_conn s) (nc_storage s) (nc_engine s) (nc_submitter s) c reg handler sketch
    (admission_threshold_ s).
Definition set_threshold (x : Z) (s : NewClient) : NewClient :=
  MkNewClient (nc_conn s) (nc_storage s) (nc_engine s) (nc_submitter s) (hot_cache_ s)
    (hot_cache_memory_registered_ s) (hot_cache_handler_ s) (admission_sketch_ s) x.

(** ** Strings *)

Definition ltrim (s : string) : string := skip_spaces s.

Fixpoint rtrim (s : string) : string :=
  match s with
  | EmptyString => EmptyString
  | String c s' =>
      let r := rtrim s' in
      if isspace c && str_empty r then EmptyString else String c r
  end.

(** The pieces between the commas; there is always a last one ([start != end + 1]). *)
Fixpoint split_commas (s : string) : list string :=
  match s with
  | EmptyString => [EmptyString]
  | String c s' =>
      if Ascii.eqb c "," then EmptyString :: split_commas s'
      else match split_commas s' with
           | piece :: rest => String c piece :: rest
           | [] => [String c EmptyString]
           end
  end.

(** [find_last_of('/')]: what is before and after it. *)
Fixpoint split_last_slash (s : string) : option (string * string) :=
  match s with
  | EmptyString => None
  | String c s' =>
      match split_last_slash s' with
      | Some (l, r) => Some (String c l, r)
      | None => if Ascii.eqb c "/" then Some (EmptyString, s') else None
      end
  end.

Section Create.
Context `{!MasterApi, !CreateServices}.
Context (env : string → option string).
(** Helpers of other files, and whether the engine has a topology. *)
Context (parseHostNameWithPort : string → string * Z) (splitString : string → list string).
Context (has_topology : bool).

Definition env_set (name : string) : bool :=
  match env name with Some _ => true | None => false end.

(** ** Auto discovery *)

(** [None]: [std::stoi] throws. *)
Definition get_auto_discover : option (option bool) :=
  match env "MC_MS_AUTO_DISC" with
  | None => Some None
  | Some ev_ad =>
      match stoi ev_ad with
      | None => None
      | Some iv => Some (if iv =? 1 then Some true else if iv =? 0 then Some false else None)
      end
  end.

Definition get_auto_discover_filters : list string :=
  match env "MC_MS_FILTERS" with
  | None => []
  | Some ev_ad => (λ piece, rtrim (ltrim piece)) <$> split_commas ev_ad
  end.

(** ** The transfer engine *)

(** [caught]: inside a try block. *)
Definition install_transport (protocol : string) (caught : bool) : nio (outcome ErrorCode) :=
  let! r := call (λ h, n_install h protocol) (NInstall protocol) in
  ret (match r with
       | Installed => Ok OK
       | NoTransport => Ok INTERNAL_ERROR
       | InstallThrows => if caught then Ok INTERNAL_ERROR else Err Exception
       end).

Definition discover (devices : list string) : nio unit :=
  if has_topology then call (λ _, tt) (λ _, NDiscover devices) else ret tt.

Definition install_protocol (protocol : string) (device_names : option string)
  : nio (outcome ErrorCode) :=
  if String.eqb protocol "rdma" || String.eqb protocol "efa" then
    match device_names with
    | None | Some EmptyString => ret (Ok INVALID_PARAMS)
    | Some names => discover (splitString names) ;;; install_transport protocol false
    end
  else if String.eqb protocol "tcp" then install_transport "tcp" true
  else if String.eqb protocol "ascend" || String.eqb protocol "ubshmem" then install_transport protocol true
  else if String.eqb protocol "cxl" then install_transport "cxl" true
  else if String.eqb protocol "ub" then
    discover (splitString (default "bonding_dev_0" device_names)) ;;; install_transport "ub" false
  else ret (Ok INVALID_PARAMS).

Definition use_tent : bool := env_set "MC_USE_TENT" || env_set "MC_USE_TEV1".

(** Whether transports are discovered. *)
Definition configure_discovery (protocol : string) (device_names : option string)
  : nio (outcome bool) :=
  if use_tent then ret (Ok false)
  else
    match get_auto_discover with
    | None => ret (Err Exception)
    | Some env_auto_discover =>
        let auto_discover :=
          match env_auto_discover with
          | Some b => b
          | None => (String.eqb protocol "rdma" || String.eqb protocol "efa") &&
                    match device_names with Some _ => false | None => true end
          end in
        call (λ _, tt) (λ _, NAutoDiscover auto_discover) ;;;
        (if auto_discover then call (λ _, tt) (λ _, NWhitelist get_auto_discover_filters)
         else ret tt) ;;;
        ret (Ok auto_discover)
    end.

Definition InitTransferEngine (local_hostname metadata_connstring protocol : string)
    (device_names : option string) : nio (outcome ErrorCode) :=
  let! configured := configure_discovery protocol device_names in
  match configured with
  | Err e => ret (Err e)
  | Ok auto_discover =>
      (if (String.eqb protocol "ascend" || String.eqb protocol "ubshmem") &&
          env_set "ASCEND_ENABLE_USE_FABRIC_MEM"
       then call (λ _, tt) (λ _, NFabricMem) else ret tt) ;;;
      let '(hostname, port) := parseHostNameWithPort local_hostname in
      let! rc := call (λ h, n_engine_init h metadata_connstring local_hostname hostname port)
                   (NEngineInit metadata_connstring local_hostname hostname port) in
      if negb (rc =? 0) then ret (Ok INTERNAL_ERROR)
      else if use_tent then ret (Ok OK)
      else if negb auto_discover then install_protocol protocol device_names
      else ret (Ok OK)
  end.

(** ** The storage backend *)

(** A backend that was not created is used all the same. *)
Definition PrepareStorageBackend (storage_root_dir fs_subdir : string) (enable_eviction : bool)
    (quota : Z) (s : NewClient) : nio (outcome NewClient) :=
  let! created := call (λ h, n_storage_create h storage_root_dir fs_subdir enable_eviction)
                    (NStorageCreate storage_root_dir fs_subdir enable_eviction) in
  if negb created then ret (Err NullPointer)
  else
    call (λ h, n_storage_init h quota) (NStorageInit quota) ;;;
    ret (Ok (set_storage true s)).

Definition storage_from_dir (dir : string) (eviction : bool) (quota : Z) (s : NewClient)
  : nio (outcome NewClient) :=
  if str_empty dir then ret (Ok s)
  else
    match split_last_slash dir with
    | Some (storage_root_dir, fs_subdir) =>
        PrepareStorageBackend storage_root_dir fs_subdir eviction quota s
    | None => ret (Ok s)
    end.

Definition setup_storage (s : NewClient) : nio (outcome NewClient) :=
  let! config_response := call n_storage_config NStorageConfig in
  match config_response with
  | Err _ =>
      let! response := call n_fsdir NFsdir in
      match response with
      | Err _ => ret (Ok s)
      | Ok dir_string => storage_from_dir dir_string true 0 s
      end
  | Ok config =>
      storage_from_dir (fsdir config) (enable_disk_eviction config) (quota_bytes config) s
  end.

(** ** The local hot cache *)

Definition starts_with_minus (s : string) : bool :=
  match s with String c _ => Ascii.eqb c "-" | EmptyString => false end.

(** A positive size, or the given default. *)
Definition size_from_env (name : string) (default_value : Z) : Z :=
  match env name with
  | None => default_value
  | Some ev =>
      if starts_with_minus ev then default_value
      else match stoull ev with
           | Some v => if 0 <? v then v else default_value
           | None => default_value
           end
  end.

Definition GetLocalHotCacheSizeFromEnv : Z := size_from_env "MC_STORE_LOCAL_HOT_CACHE_SIZE" 0.
Definition GetLocalHotBlockSizeFromEnv (default_value : Z) : Z :=
  size_from_env "MC_STORE_LOCAL_HOT_BLOCK_SIZE" default_value.

Definition stop_handler (s : NewClient) : nio NewClient :=
  if hot_cache_handler_ s
  then call (λ _, tt) (λ _, NStopHandler) ;;;
       ret (set_cache (hot_cache_ s) (hot_cache_memory_registered_ s) false (admission_sketch_ s) s)
  else ret s.

Definition UnregisterLocalHotCacheMemory (s : NewClient) : nio NewClient :=
  let off := set_cache (hot_cache_ s) false (hot_cache_handler_ s) (admission_sketch_ s) s in
  match hot_cache_ s, hot_cache_memory_registered_ s with
  | Some c, true =>
      match nc_engine s with
      | NoEngine => ret off
      | _ => call (λ h, n_unregister h (hc_base c)) (NUnregister (hc_base c)) ;;; ret off
      end
  | _, _ => ret s
  end.

(** [hot_cache_.reset()]; the handler that shares it is gone. *)
Definition free_cache (s : NewClient) : nio NewClient :=
  match hot_cache_ s with
  | Some c => call (λ _, tt) (λ _, NFreeCache (hc_base c)) ;;;
              ret (set_cache None (hot_cache_memory_registered_ s) (hot_cache_handler_ s)
                     (admission_sketch_ s) s)
  | None => ret s
  end.

(** The destructor's part after the segments. *)
Definition destroy_hot_cache (s : NewClient) : nio NewClient :=
  let! s := stop_handler s in
  let! s := UnregisterLocalHotCacheMemory s in
  free_cache s.

Definition threshold_from_env (old : Z) : Z :=
  match env "MC_STORE_LOCAL_HOT_ADMISSION_THRESHOLD" with
  | None => old
  | Some ev =>
      match stoull ev with
      | Some v => if (0 <? v) && (v <=? 255) then v else old
      | None => old
      end
  end.

Definition use_shm : bool :=
  match env "MC_STORE_LOCAL_HOT_CACHE_USE_SHM" with Some ev => String.eqb ev "1" | None => false end.

Definition InitLocalHotCache (s : NewClient) : nio (ErrorCode * NewClient) :=
  let! s := destroy_hot_cache s in
  let s := set_cache (hot_cache_ s) (hot_cache_memory_registered_ s) (hot_cache_handler_ s) false s in
  let total_cache := GetLocalHotCacheSizeFromEnv in
  if total_cache =? 0 then ret (OK, s)
  else
    let block_size := GetLocalHotBlockSizeFromEnv 16777216 in
    let! c := call (λ h, n_new_cache h total_cache block_size use_shm)
                (NNewCache total_cache block_size use_shm) in
    let s := set_cache (Some c) (hot_cache_memory_registered_ s) (hot_cache_handler_ s) false s in
    if hc_blocks c =? 0
    then let! s := free_cache s in ret (INVALID_PARAMS, s)
    else
      let! rc := call (λ h, n_register h (hc_base c) (hc_total c))
                   (NRegister (hc_base c) (hc_total c)) in
      if negb (rc =? 0)
      then let! s := free_cache s in
           ret (INVALID_PARAMS, set_cache (hot_cache_ s) false false false s)
      else
        call (λ _, tt) (λ _, NStartHandler 2) ;;;
        ret (OK, set_threshold (threshold_from_env (admission_threshold_ s))
                   (set_cache (Some c) true true true s)).

(** ** [Client::Create]; [Ok None]: no client *)

Definition Create {T} (parse : string → option T) (validate : T → ErrorCode)
    (local_hostname metadata_connstring protocol : string) (device_names : option string)
    (master_server_entry : string) (engine_given : bool) : nio (outcome (option NewClient)) :=
  let! r := lift_comp NConn conn_event_of
              (ConnectToMaster parse validate master_server_entry (nc_conn unconnected_client)) in
  let client := set_conn r.2 unconnected_client in
  if negb (bool_decide (r.1 = OK)) then ret (Ok None)
  else
    let! st := setup_storage client in
    match st with
    | Err e => ret (Err e)
    | Ok client =>
        if String.eqb protocol "rpc_only" then ret (Ok (Some client))
        else
          let! init := (if engine_given then ret (Ok OK)
                        else InitTransferEngine local_hostname metadata_connstring protocol
                               device_names) in
          match init with
          | Err e => ret (Err e)
          | Ok err =>
              if negb (bool_decide (err = OK)) then ret (Ok None)
              else
                call (λ _, tt) (λ _, NSubmitter) ;;;
                let! hot := InitLocalHotCache
                              (set_engine (if engine_given then GivenEngine else OwnEngine) true
                                 client) in
                ret (Ok (Some hot.2))
          end
    end.
End Create.
