(* ===== verification/ClientCreateSpec.v ===== *)
(** * What creation of the store client guarantees

    The memory of the local hot cache follows a protocol: it is registered with the
    transfer engine before it is used, and before it is freed the engine is asked to
    give it up, over any number of initializations and on every error path.  A client that is returned is
    connected and, unless it only performs RPCs, has an engine that is up. *)

From S2P Require Import Prelude CxxString StoreTypes Accounting Leader LeaderSpec ClientCreate.
From stdpp Require Import base strings list sets gmap.
From Stdlib Require Import ZArith Lia Ascii.

#[local] Open Scope Z_scope.
#[local] Set Default Proof Using "Type".

(** ** The protocol of the hot cache's memory *)

Inductive HotPhase :=
| NoCache
| Allocated (base : Z)
| Registered (base : Z)
| Serving (base : Z)
| Refused (base : Z).        (* the engine did not unregister it; it may still use it *)

(** The steps that are allowed; [None]: the protocol is violated.  The result of an
    unregistration is only logged, so that memory in the phase [Refused] is freed too. *)
Definition hot_step (p : HotPhase) (e : create_event) : option HotPhase :=
  match e with
  | NNewCache _ _ _ c => match p with NoCache => Some (Allocated (hc_base c)) | _ => None end
  | NFreeCache b =>
      match p with
      | Allocated b' | Refused b' => if b =? b' then Some NoCache else None
      | _ => None
      end
  | NRegister b _ rc =>
      match p with
      | Allocated b' => if b =? b' then Some (if rc =? 0 then Registered b else p) else None
      | _ => None
      end
  | NUnregister b rc =>
      match p with
      | Registered b' =>
          if b =? b' then Some (if rc =? 0 then Allocated b else Refused b) else None
      | _ => None
      end
  | NStartHandler _ => match p with Registered b => Some (Serving b) | _ => None end
  | NStopHandler => match p with Serving b => Some (Registered b) | _ => None end
  | _ => Some p
  end.

Fixpoint hot_run (p : HotPhase) (evs : list create_event) : option HotPhase :=
  match evs with
  | [] => Some p
  | e :: evs => p' ← hot_step p e; hot_run p' evs
  end.

Lemma hot_run_app p e1 e2 : hot_run p (e1 ++ e2) = (p' ← hot_run p e1; hot_run p' e2).
Proof.
  revert p. induction e1 as [|e e1 IH]; intros p; [done|]. cbn.
  destruct (hot_step p e); [apply IH|done].
Qed.

(** Events the hot cache has no part in. *)
Definition cold (e : create_event) : Prop := ∀ p, hot_step p e = Some p.

Lemma hot_run_cold p evs : Forall cold evs → hot_run p evs = Some p.
Proof. induction 1 as [|e evs He _ IH]; [done|]. cbn. rewrite (He p). exact IH. Qed.

(** The phase of a client between its operations. *)
Definition phase_of (s : NewClient) : HotPhase :=
  match hot_cache_ s with Some c => Serving (hc_base c) | None => NoCache end.

Record hot_wf (s : NewClient) : Prop := {
  wf_used : hot_cache_memory_registered_ s = bool_decide (is_Some (hot_cache_ s)) ∧
            hot_cache_handler_ s = bool_decide (is_Some (hot_cache_ s)) ∧
            admission_sketch_ s = bool_decide (is_Some (hot_cache_ s));
  wf_engine : is_Some (hot_cache_ s) → nc_engine s ≠ NoEngine;
  wf_threshold : 0 < admission_threshold_ s ≤ 255 }.

Section Spec.
Context `{!MasterApi, !CreateServices}.
Context (env : string → option string).
Context (parseHostNameWithPort : string → string * Z) (splitString : string → list string).
Context (has_topology : bool).

Lemma destroy_hot_run s h s' evs :
  hot_wf s → destroy_hot_cache s h = (s', evs) →
  hot_run (phase_of s) evs = Some NoCache ∧
  s' = set_cache None false false (admission_sketch_ s) s.
Proof.
  intros [(Hr & Hh & Hk) He _] R. unfold destroy_hot_cache in R.
  apply bind_inv in R as (s1 & e1 & e2 & R1 & R & ->).
  apply bind_inv in R as (s2 & e3 & e4 & R2 & R3 & ->).
  unfold phase_of. destruct s as [conn st eng sub cache reg handler sketch thr]; cbn in *.
  destruct cache as [c|]; cbn in *; subst.
  - cbn in R1. injection R1 as <- <-. unfold UnregisterLocalHotCacheMemory in R2. cbn in R2.
    destruct eng; [exfalso; apply He; [by eexists|done]|..];
      (injection R2 as <- <-; cbn in R3; injection R3 as <- <-;
       cbn; rewrite Z.eqb_refl; cbn; destruct (_ =? 0); cbn; rewrite Z.eqb_refl; done).
  - cbn in R1. injection R1 as <- <-. cbn in R2. injection R2 as <- <-.
    cbn in R3. by injection R3 as <- <-.
Qed.

Lemma threshold_bounds old :
  0 < old ≤ 255 → 0 < threshold_from_env env old ≤ 255.
Proof.
  intros Hold. unfold threshold_from_env. destruct (env _) as [ev|]; [|done].
  destruct (stoull ev) as [v|]; [|done].
  destruct (Z.ltb_spec 0 v), (Z.leb_spec v 255); cbn; lia.
Qed.

Lemma init_hot_run s h e s' evs :
  hot_wf s → nc_engine s ≠ NoEngine → InitLocalHotCache env s h = ((e, s'), evs) →
  hot_run (phase_of s) evs = Some (phase_of s') ∧ hot_wf s' ∧ nc_engine s' = nc_engine s ∧
  nc_submitter s' = nc_submitter s.
Proof.
  intros Hwf Heng R. unfold InitLocalHotCache in R.
  apply bind_inv in R as (s1 & e1 & e2 & R1 & R & ->). pose proof Hwf as [_ _ Hthr].
  apply destroy_hot_run in R1 as [R1 ->]; [|done]. rewrite hot_run_app, R1. cbn [mbind option_bind].
  assert (Hoff : hot_wf (set_cache None false false false s)) by (split; [done|by intros []|done]).
  cbn [hot_cache_ set_cache hot_cache_memory_registered_ hot_cache_handler_] in R.
  destruct (_ =? 0) in R; [by apply ret_inv in R as [[= -> ->] ->]|].
  apply bind_inv in R as (c & ? & e3 & [_ ->]%call_inv & R & ->).
  destruct (hc_blocks c =? 0).
  { cbn in R. injection R as <- <- <-. cbn. rewrite Z.eqb_refl. done. }
  apply bind_inv in R as (rc & ? & e4 & [_ ->]%call_inv & R & ->). destruct (Z.eqb_spec rc 0) as [->|Hrc].
  - apply bind_inv in R as (? & ? & ? & [_ ->]%call_inv & [[= -> ->] ->]%ret_inv & ->).
    cbn. rewrite Z.eqb_refl. cbn. split_and!; [done| |done..].
    split; cbn; [done|done|by apply threshold_bounds].
  - cbn in R. injection R as <- <- <-. apply Z.eqb_neq in Hrc.
    cbn. rewrite Z.eqb_refl, Hrc. cbn. rewrite Z.eqb_refl. done.
Qed.

(** ** Everything before the hot cache is cold *)

Lemma call_cold {A} (f : list create_event → A) ev h v evs :
  (∀ a, cold (ev a)) → call f ev h = (v, evs) → Forall cold evs.
Proof. intros Hc [_ ->]%call_inv. by constructor. Qed.

Definition cold_run {A} (m : nio A) : Prop := ∀ h v evs, m h = (v, evs) → Forall cold evs.

Lemma cold_ret {A} (a : A) : cold_run (ret a).
Proof. intros h v evs [_ ->]%ret_inv. constructor. Qed.

Lemma cold_call {A} (f : list create_event → A) ev : (∀ a, cold (ev a)) → cold_run (call f ev).
Proof. intros Hc h v evs. by apply call_cold. Qed.

Lemma cold_bind {A B} (m : nio A) (k : A → nio B) :
  cold_run m → (∀ a, cold_run (k a)) → cold_run (bind m k).
Proof.
  intros Hm Hk h v evs (a & e1 & e2 & R1 & R2 & ->)%bind_inv.
  apply Forall_app. split; [by eapply Hm|by eapply Hk].
Qed.

Lemma cold_lift {A} (m : cio A) : cold_run (lift_comp NConn conn_event_of m).
Proof. intros h v evs (e & _ & ->)%lift_inv. by apply Forall_fmap, Forall_true. Qed.

Ltac cold :=
  repeat first [apply cold_ret | apply cold_call; done | apply cold_bind; intros | apply cold_lift
               | case_match].

Lemma storage_cold s : cold_run (setup_storage s).
Proof. unfold setup_storage, storage_from_dir, PrepareStorageBackend. cold. Qed.

Lemma engine_cold local metadata protocol devices :
  cold_run (InitTransferEngine env parseHostNameWithPort splitString has_topology local metadata
              protocol devices).
Proof.
  unfold InitTransferEngine, configure_discovery, install_protocol, install_transport, discover. cold.
Qed.

(** ** The life of a client *)

Context {T : Type} (parse : string → option T) (validate : T → ErrorCode).

Abbreviation run_create := (Create env parseHostNameWithPort splitString has_topology parse validate).

Inductive client_life : NewClient → list create_event → Prop :=
| life_created local metadata protocol devices master given s evs :
    run_create local metadata protocol devices master given [] = (Ok (Some s), evs) →
    client_life s evs
| life_reinitialized s h e s' evs :
    client_life s h → nc_engine s ≠ NoEngine → InitLocalHotCache env s h = ((e, s'), evs) →
    client_life s' (h ++ evs).

Lemma storage_keeps s h r evs :
  setup_storage s h = (r, evs) → ∀ s', r = Ok s' → s' = s ∨ s' = set_storage true s.
Proof.
  assert (Hd : ∀ dir ev q h s' evs, storage_from_dir dir ev q s h = (Ok s', evs) →
    s' = s ∨ s' = set_storage true s).
  { clear. intros dir ev q h s' evs R. unfold storage_from_dir, PrepareStorageBackend in R.
    destruct (str_empty dir); [apply ret_inv in R as [[= ->] _]; by left|].
    destruct (split_last_slash dir) as [[root sub]|]; [|apply ret_inv in R as [[= ->] _]; by left].
    apply bind_inv in R as (created & ? & ? & _ & R & _).
    destruct (negb created); [by apply ret_inv in R as [? _]|].
    apply bind_inv in R as (? & ? & ? & _ & [[= ->] _]%ret_inv & _). by right. }
  intros R s' ->. apply bind_inv in R as ([config|e] & ? & ? & _ & R & _); [by eapply Hd|].
  apply bind_inv in R as ([dir|e'] & ? & ? & _ & R & _); [by eapply Hd|].
  apply ret_inv in R as [[= ->] _]. by left.
Qed.

Lemma fresh_wf conn : hot_wf (set_conn conn unconnected_client).
Proof. split; [done|by intros []|cbn; lia]. Qed.

Lemma created_run local metadata protocol devices master given h s evs :
  run_create local metadata protocol devices master given h = (Ok (Some s), evs) →
  hot_run NoCache evs = Some (phase_of s) ∧ hot_wf s.
Proof.
  intros R. apply bind_inv in R as ([err conn] & e1 & e2 & R1 & R & ->).
  apply cold_lift in R1. rewrite hot_run_app, (hot_run_cold _ e1) by done. cbn [mbind option_bind fst snd] in *.
  destruct (negb _); [by apply ret_inv in R as [? _]|].
  apply bind_inv in R as ([client|e] & e3 & e4 & R3 & R & ->); [|by apply ret_inv in R as [? _]].
  pose proof (storage_keeps _ _ _ _ R3 client eq_refl) as Hc. apply storage_cold in R3.
  rewrite hot_run_app, (hot_run_cold _ e3) by done. cbn [mbind option_bind].
  assert (Hwf : hot_wf client ∧ phase_of client = NoCache).
  { destruct (fresh_wf conn) as [Hu He Ht]. by destruct Hc as [->| ->]; (split; [split|]). }
  destruct Hwf as [Hwf Hph].
  destruct (String.eqb _ _); [apply ret_inv in R as [[= ->] ->]; by rewrite Hph|].
  apply bind_inv in R as ([err'|e] & e5 & e6 & R5 & R & ->); [|by apply ret_inv in R as [? _]].
  assert (Forall cold e5) as Hc5.
  { destruct given; [by apply ret_inv in R5 as [_ ->]|by apply engine_cold in R5]. }
  rewrite hot_run_app, (hot_run_cold _ e5) by done. cbn [mbind option_bind].
  destruct (negb _); [by apply ret_inv in R as [? _]|].
  apply bind_inv in R as (? & ? & e7 & [_ ->]%call_inv & R & ->). cbn [hot_run hot_step app mbind option_bind].
  apply bind_inv in R as ([e s2] & e8 & e9 & R8 & [[= ->] ->]%ret_inv & ->). rewrite app_nil_r.
  set (ready := set_engine _ true client) in R8.
  assert (hot_wf ready) by (destruct Hwf as [? ? ?]; split; [done|by destruct given|done]).
  apply init_hot_run in R8 as (R8 & ? & _); [|done|by destruct given].
  change (phase_of ready) with (phase_of client) in R8. by rewrite Hph in R8.
Qed.

(** C36: Over the life of a store client, whatever its services answer, the memory of the
    local hot cache follows its protocol: it is registered with the transfer engine right
    after it is allocated, the handler runs only while it is registered, and it is freed
    only when the handler is stopped and, if it was registered, the engine was asked once
    to unregister it: from then on it is either handed back or, when the engine refused,
    freed all the same, which is the only way registered memory is freed.  This holds for
    repeated initialization and every failure.  Between operations the cache is absent,
    or registered and served with an admission threshold in 1..255, and the destructor
    ends without a cache. *)
Theorem hot_cache_protocol s h :
  client_life s h →
  hot_run NoCache h = Some (phase_of s) ∧ hot_wf s ∧
  (∀ s' evs, destroy_hot_cache s h = (s', evs) → hot_run NoCache (h ++ evs) = Some NoCache).
Proof.
  intros Hl. assert (hot_run NoCache h = Some (phase_of s) ∧ hot_wf s) as [Hrun Hwf].
  { induction Hl as [local metadata protocol devices master given s evs R
                    |s h e s' evs _ [IH1 IH2] Heng R]; [by eapply created_run|].
    apply init_hot_run in R as (R & Hwf & _); [|done..]. split; [|done].
    rewrite hot_run_app, IH1. exact R. }
  split_and!; [done|done|]. intros s' evs R. rewrite hot_run_app, Hrun.
  by apply destroy_hot_run in R as [R _].
Qed.

(** ** A client that is returned is ready *)

(** The engine was initialized, and the transport of [protocol] is there: TENT or auto
    discovery provide it, or it was installed. *)
Definition engine_up (protocol : string) (evs : list create_event) : Prop :=
  ∃ metadata local host port e1 e2,
    evs = e1 ++ NEngineInit metadata local host port 0 :: e2 ∧
    (use_tent env = true ∨ NAutoDiscover true ∈ e1 ∨ NInstall protocol Installed ∈ e2).

Lemma install_ready protocol caught h evs :
  install_transport protocol caught h = (Ok OK, evs) → evs = [NInstall protocol Installed].
Proof.
  intros R. apply bind_inv in R as (r & ? & ? & [_ ->]%call_inv & R & ->).
  destruct r; [|by apply ret_inv in R as [? _]|].
  - by apply ret_inv in R as [_ ->].
  - destruct caught; by apply ret_inv in R as [? _].
Qed.

Lemma install_protocol_ready protocol devices h evs :
  install_protocol splitString has_topology protocol devices h = (Ok OK, evs) →
  NInstall protocol Installed ∈ evs.
Proof.
  assert (Hd : ∀ names p h evs,
    (discover has_topology names ;;; install_transport p false) h = (Ok OK, evs) → NInstall p Installed ∈ evs).
  { clear. intros names p h evs R. apply bind_inv in R as (? & ? & e2 & _ & R & ->).
    apply install_ready in R as ->. apply elem_of_app. right. by left. }
  unfold install_protocol. intros R. destruct (_ || _).
  { destruct devices as [[|c d]|]; [by apply ret_inv in R as [? _]|by eapply Hd|
      by apply ret_inv in R as [? _]]. }
  destruct (String.eqb_spec protocol "tcp") as [->|].
  { apply install_ready in R as ->. by left. }
  destruct (String.eqb protocol "ascend" || _).
  { apply install_ready in R as ->. by left. }
  destruct (String.eqb_spec protocol "cxl") as [->|].
  { apply install_ready in R as ->. by left. }
  destruct (String.eqb_spec protocol "ub") as [->|]; [by eapply Hd|by apply ret_inv in R as [? _]].
Qed.

Lemma discovery_recorded protocol devices h b evs :
  configure_discovery env protocol devices h = (Ok b, evs) →
  b = true → NAutoDiscover true ∈ evs.
Proof.
  intros R ->. unfold configure_discovery in R. destruct (use_tent env); [by apply ret_inv in R as [? _]|].
  destruct (get_auto_discover env) as [o|]; [|by apply ret_inv in R as [? _]]. cbv zeta in R.
  apply bind_inv in R as (? & ? & e2 & [_ ->]%call_inv & R & ->).
  apply bind_inv in R as (? & ? & ? & _ & [[= <-] ->]%ret_inv & ->). by left.
Qed.

Lemma engine_ready local metadata protocol devices h evs :
  InitTransferEngine env parseHostNameWithPort splitString has_topology local metadata protocol
    devices h = (Ok OK, evs) → engine_up protocol evs.
Proof.
  intros R. apply bind_inv in R as ([b|e] & e1 & e2 & R1 & R & ->); [|by apply ret_inv in R as [? _]].
  apply bind_inv in R as (? & e3 & e4 & _ & R & ->).
  destruct (parseHostNameWithPort local) as [host port].
  apply bind_inv in R as (rc & ? & e5 & [_ ->]%call_inv & R & ->).
  destruct (Z.eqb_spec rc 0) as [->|]; [|by apply ret_inv in R as [? _]]. cbn [negb] in R.
  exists metadata, local, host, port, (e1 ++ e3), e5. split; [by rewrite <- app_assoc|].
  destruct (use_tent env); [by left|]. right. destruct b; cbn [negb] in R.
  - left. apply elem_of_app. left. by eapply discovery_recorded.
  - right. by eapply install_protocol_ready.
Qed.

Lemma engine_up_app protocol e1 e2 e3 : engine_up protocol e2 → engine_up protocol (e1 ++ e2 ++ e3).
Proof.
  intros (m & l & ho & p & a & b & -> & Hup). exists m, l, ho, p, (e1 ++ a), (b ++ e3).
  split; [by rewrite <- !app_assoc|]. destruct Hup as [?|[?|?]]; [by left|right; left|right; right];
    apply elem_of_app; [by right|by left].
Qed.

(** The hot cache changes nothing else. *)
Definition kept (s s' : NewClient) : Prop :=
  nc_conn s' = nc_conn s ∧ nc_engine s' = nc_engine s ∧ nc_submitter s' = nc_submitter s.

Lemma kept_trans s1 s2 s3 : kept s1 s2 → kept s2 s3 → kept s1 s3.
Proof. intros (? & ? & ?) (? & ? & ?). unfold kept. split_and!; congruence. Qed.

Lemma free_keeps s : returns (free_cache s) (kept s).
Proof. unfold free_cache. frame_run. Qed.

Lemma destroy_keeps s : returns (destroy_hot_cache s) (kept s).
Proof.
  unfold destroy_hot_cache. apply returns_seq with (P := kept s).
  { unfold stop_handler. frame_run. }
  intros s1 H1'. apply returns_seq with (P := kept s).
  { unfold UnregisterLocalHotCacheMemory. cbv zeta. frame_run. }
  intros s2 H2' h v evs R. apply free_keeps in R. by eapply kept_trans.
Qed.

Lemma init_keeps s h e s' evs : InitLocalHotCache env s h = ((e, s'), evs) → kept s s'.
Proof.
  intros R. apply bind_inv in R as (s1 & ? & ? & R1 & R & _). apply destroy_keeps in R1.
  eapply kept_trans; [exact R1|]. clear R1. cbv zeta in R.
  destruct (_ =? 0) in R; [by apply ret_inv in R as [[= -> ->] _]|].
  apply bind_inv in R as (c & ? & ? & _ & R & _). destruct (hc_blocks c =? 0).
  { apply bind_inv in R as (s2 & ? & ? & R2 & [[= -> ->] _]%ret_inv & _).
    exact (free_keeps _ _ _ _ R2). }
  apply bind_inv in R as (rc & ? & ? & _ & R & _). destruct (negb _).
  - apply bind_inv in R as (s2 & ? & ? & R2 & [[= -> ->] _]%ret_inv & _).
    exact (free_keeps _ _ _ _ R2).
  - by apply bind_inv in R as (? & ? & ? & _ & [[= -> ->] _]%ret_inv & _).
Qed.

(** An error of the backend is not the code for success. *)
Context (backend_errors : ∀ h, a_create_coordinator h ≠ Err OK ∧ a_read_view h ≠ Err OK).

Lemma connected_ping entry h conn evs :
  ConnectToMaster parse validate entry new_connection h = ((OK, conn), evs) →
  last_ping_success_ conn = true.
Proof using backend_errors.
  intros R. unfold ConnectToMaster in R.
  destruct (ParseHABackendSpec parse validate entry) as [[sp|]|e] eqn:Hp.
  - apply bind_inv in R as ([?|e] & ? & ? & [Hv _]%call_inv & R & _).
    2: { apply ret_inv in R as [[= <- ->] _]. by destruct (proj1 (backend_errors h)). }
    apply bind_inv in R as ([[v|]|e] & ? & ? & [Hv' _]%call_inv & R & _);
      [|by apply ret_inv in R as [? _]|].
    2: { apply ret_inv in R as [[= <- ->] _]. symmetry in Hv'. by apply backend_errors in Hv'. }
    apply bind_inv in R as ([r c] & ? & ? & R2 & R & _). cbn [fst snd] in R.
    destruct (bool_decide_reflect (r = OK)) as [->|]; [|apply ret_inv in R as [[= ? ?] _]; congruence].
    cbn [negb] in R. apply bind_inv in R as (? & ? & ? & _ & [[= ->] _]%ret_inv & _). cbn.
    unfold SwitchLeader in R2. cbn [up_to_date current_master_view_ new_connection] in R2.
    apply bind_inv in R2 as (err & ? & ? & _ & R2 & _).
    destruct (negb _) eqn:E; [|by apply ret_inv in R2 as [[= ->] _]].
    apply ret_inv in R2 as [[= <- ->] _]. by rewrite bool_decide_true in E.
  - apply bind_inv in R as (err & ? & ? & _ & R & _).
    destruct (negb _) eqn:E; [|by apply ret_inv in R as [[= ->] _]].
    apply ret_inv in R as [[= <- ->] _]. by rewrite bool_decide_true in E.
  - apply ret_inv in R as [[= <- ->] _]. unfold ParseHABackendSpec in Hp.
    destruct (String.index _ _ _); [|done]. destruct (parse _) as [t|]; [|done].
    destruct (bool_decide_reflect (validate t = OK)); [done|]. by injection Hp.
Qed.

(** A client that [Create] returns is connected to the master; unless it only performs
    RPCs it has a submitter, and unless the engine was given to it the engine was
    initialized successfully and the transport of its protocol is installed (or left to
    TENT or auto discovery), for a supported protocol.  No engine is touched for a client
    that only performs RPCs. *)
Theorem created_client_ready local metadata protocol devices master given h s evs :
  run_create local metadata protocol devices master given h = (Ok (Some s), evs) →
  last_ping_success_ (nc_conn s) = true ∧
  (protocol = "rpc_only" → nc_engine s = NoEngine ∧ nc_submitter s = false) ∧
  (protocol ≠ "rpc_only" → nc_submitter s = true ∧
     if given then nc_engine s = GivenEngine
     else nc_engine s = OwnEngine ∧ engine_up protocol evs).
Proof using backend_errors.
  intros R. apply bind_inv in R as ([err conn] & e1 & e2 & R1 & R & ->). cbn [fst snd] in *.
  destruct (bool_decide_reflect (err = OK)) as [->|]; [|by apply ret_inv in R as [? _]].
  cbn [negb] in R. apply lift_inv in R1 as (ec & R1 & ->).
  assert (Hping : last_ping_success_ conn = true) by (by eapply connected_ping in R1).
  apply bind_inv in R as ([client|e] & e3 & e4 & R3 & R & ->); [|by apply ret_inv in R as [? _]].
  assert (Hc : nc_conn client = conn ∧ nc_engine client = NoEngine ∧ nc_submitter client = false).
  { by destruct (storage_keeps _ _ _ _ R3 client eq_refl) as [->| ->]. }
  destruct Hc as (Hcc & Hce & Hcs).
  destruct (String.eqb_spec protocol "rpc_only") as [Hp|Hp].
  { apply ret_inv in R as [[= ->] _]. by rewrite Hcc. }
  apply bind_inv in R as ([err'|e] & e5 & e6 & R5 & R & ->); [|by apply ret_inv in R as [? _]].
  destruct (bool_decide_reflect (err' = OK)) as [->|]; [|by apply ret_inv in R as [? _]].
  cbn [negb] in R. apply bind_inv in R as (? & ? & e7 & _ & R & ->).
  apply bind_inv in R as ([e s2] & e8 & e9 & R8 & [[= ->] ->]%ret_inv & ->). cbn [snd].
  apply init_keeps in R8 as (Hk1 & Hk2 & Hk3). rewrite Hk1, Hk2, Hk3. cbn. rewrite Hcc.
  split_and!; [done|done|]. intros _. split; [done|]. destruct given; [done|]. split; [done|].
  apply engine_ready in R5. rewrite app_assoc. by apply engine_up_app.
Qed.
End Spec.

(** ** Strings *)

Fixpoint join_commas (l : list string) : string :=
  match l with
  | [] => EmptyString
  | [s] => s
  | s :: l => (s ++ String "," (join_commas l))%string
  end.

Lemma split_commas_cons s : ∃ p l, split_commas s = p :: l.
Proof.
  induction s as [|c s (p & l & IH)]; [by eexists _, _|]. cbn.
  destruct (Ascii.eqb c ","); [by eexists _, _|]. rewrite IH. by eexists _, _.
Qed.

(** The pieces are those between the commas: none contains one, and joined they are the
    string. *)
Theorem split_commas_exact s :
  join_commas (split_commas s) = s ∧
  Forall (λ p, str_forall (λ c, negb (Ascii.eqb c ",")) p = true) (split_commas s).
Proof.
  induction s as [|c s [IH1 IH2]]; [split; [done|by repeat constructor]|]. cbn [split_commas].
  destruct (split_commas_cons s) as (p & l & Hs). destruct (Ascii.eqb_spec c ",") as [->|Hc].
  - rewrite Hs in *. split; [|by constructor]. cbn. by rewrite <- IH1.
  - rewrite Hs in *. apply Forall_cons in IH2 as [Hp Hl]. split.
    + rewrite <- IH1. by destruct l.
    + constructor; [|done]. cbn. rewrite Hp. apply Ascii.eqb_neq in Hc. by rewrite Hc.
Qed.

Lemma split_last_slash_exact s :
  match split_last_slash s with
  | Some (l, r) => s = (l ++ String "/" r)%string ∧ split_last_slash r = None
  | None => str_forall (λ c, negb (Ascii.eqb c "/")) s = true
  end.
Proof.
  induction s as [|c s IH]; [done|]. cbn. destruct (split_last_slash s) as [[l r]|] eqn:E.
  - destruct IH as [-> Hr]. by rewrite Hr.
  - destruct (Ascii.eqb_spec c "/") as [->|Hc]; [by rewrite E|].
    cbn. exact IH.
Qed.

(** ** Runs *)

Definition sample_create (storage_ok : bool) : CreateServices := {|
  n_storage_config := λ _, Ok (MkStorageConfig "/mnt/data/cluster" true 0);
  n_fsdir := λ _, Ok "";
  n_storage_create := λ _ _ _ _, storage_ok;
  n_storage_init := λ _ _, Ok tt;
  n_engine_init := λ _ _ _ _ _, 0;
  n_install := λ _ _, Installed;
  n_new_cache := λ _ total block _, MkHotCache 4096 total (total / block);
  n_register := λ _ _ _, 0;
  n_unregister := λ _ _, 0 |}.

Definition sample_env (pairs : list (string * string)) (name : string) : option string :=
  snd <$> List.find (λ p, String.eqb p.1 name) pairs.

Definition hot_env := sample_env
  [("MC_STORE_LOCAL_HOT_CACHE_SIZE", "33554432"); ("MC_STORE_LOCAL_HOT_ADMISSION_THRESHOLD", "3")].

Abbreviation creation ok e :=
  (@Create sample_backend (sample_create ok) e (λ h, (h, 1)) (λ s, [s]) true unit
     (λ _, Some tt) (λ _, OK) "host-a:1" "P2PHANDSHAKE" "tcp" None "etcd://host:1" false []).

Definition hot_client : NewClient :=
  match (creation true hot_env).1 with Ok (Some s) => s | _ => unconnected_client end.
Definition hot_events : list create_event := (creation true hot_env).2.

Lemma hot_created : creation true hot_env = (Ok (Some hot_client), hot_events).
Proof. by vm_compute. Qed.

Lemma hot_cache_protocol_witness :
  hot_run NoCache hot_events = Some (Serving 4096) ∧ 0 < admission_threshold_ hot_client ≤ 255.
Proof.
  destruct (@hot_cache_protocol sample_backend (sample_create true) hot_env (λ h, (h, 1))
    (λ s, [s]) true unit (λ _, Some tt) (λ _, OK) hot_client hot_events) as (Hrun & [_ _ Ht] & _).
  - eapply life_created. exact hot_created.
  - split; [exact Hrun|exact Ht].
Defined.

Lemma created_client_ready_witness : engine_up hot_env "tcp" hot_events.
Proof.
  refine (proj2 (proj2 (proj2 (proj2 (@created_client_ready sample_backend (sample_create true) hot_env
    (λ h, (h, 1)) (λ s, [s]) true unit (λ _, Some tt) (λ _, OK) _ "host-a:1" "P2PHANDSHAKE" "tcp" None
    "etcd://host:1" false [] hot_client hot_events hot_created)) _))).
  - done.
  - done.
Defined.

(** The engine refuses to unregister the memory of the hot cache: it is freed while the
    engine still has it. *)
Theorem refused_cache_freed :
  let refusing := {|
    n_storage_config := @n_storage_config (sample_create true);
    n_fsdir := @n_fsdir (sample_create true);
    n_storage_create := @n_storage_create (sample_create true);
    n_storage_init := @n_storage_init (sample_create true);
    n_engine_init := @n_engine_init (sample_create true);
    n_install := @n_install (sample_create true);
    n_new_cache := @n_new_cache (sample_create true);
    n_register := @n_register (sample_create true);
    n_unregister := λ _ _, -1 |} in
  (@destroy_hot_cache refusing hot_client hot_events).2
    = [NStopHandler; NUnregister 4096 (-1); NFreeCache 4096].
Proof. by vm_compute. Qed.

(** A storage backend that cannot be created is used all the same: creation of the client
    dereferences a null pointer. *)
Theorem missing_backend_dereferenced : (creation false hot_env).1 = Err NullPointer.
Proof. by vm_compute. Qed.

(** A value of [MC_MS_AUTO_DISC] that is not a number throws, while other numbers than 0
    and 1 are reported and ignored. *)
Theorem discovery_variable_throws :
  (creation true (sample_env [("MC_MS_AUTO_DISC", "on")])).1 = Err Exception ∧
  get_auto_discover (sample_env [("MC_MS_AUTO_DISC", "7")]) = Some None.
Proof. by vm_compute. Qed.

(** The check for negative sizes looks at the first character only: a space before the
    sign makes a size of almost 2^64. *)
Theorem spaced_negative_size_accepted :
  GetLocalHotCacheSizeFromEnv (sample_env [("MC_STORE_LOCAL_HOT_CACHE_SIZE", " -1")])
    = u64_max ∧
  GetLocalHotCacheSizeFromEnv (sample_env [("MC_STORE_LOCAL_HOT_CACHE_SIZE", "-1")]) = 0.
Proof. by vm_compute. Qed.

(** An empty filter variable is one empty filter, not none: the guard of the last piece
    always holds. *)
Theorem empty_filters_filter :
  get_auto_discover_filters (sample_env [("MC_MS_FILTERS", "")]) = [""].
Proof. by vm_compute. Qed.
