(* ===== verification/DummyMap.v ===== *)
(** * Addresses of dummy clients ([mooncake-store/src/real_client.cpp])

    A dummy client is another process that shares memory with the real client.
    It names buffers by its own addresses; the real client finds the shared
    mapping that holds the range and rebases the address.  A loop over many
    buffers remembers the mapping of the last hit and tries it first. *)

From S2P Require Import Prelude CxxString StoreTypes.
From stdpp Require Import base strings list sets gmap.
From Stdlib Require Import ZArith Lia.

#[local] Open Scope Z_scope.
#[local] Set Default Proof Using "Type".

(** The members of [MappedShm] that address translation uses; the Ascend
    members only matter for unmapping. *)
Record MappedShm := MkShm {
  shm_name : string;
  shm_addr_offset : Z;     (* real base - dummy base, as uintptr_t *)
  shm_buffer : Z;
  shm_size : Z;
  dummy_base_addr : Z }.

#[export] Instance MappedShm_eq_dec : EqDecision MappedShm.
Proof. solve_decision. Defined.

(** [Some p]: returns true and sets [out_real] to [p]. *)
Definition map_dummy_range_in_shm (shm : MappedShm) (dummy_addr offset size : Z) : option Z :=
  if dummy_addr <? dummy_base_addr shm then None
  else
    let base_offset := u64_sub dummy_addr (dummy_base_addr shm) in
    if (shm_size shm <? base_offset) || (u64_sub (shm_size shm) base_offset <? offset) then None
    else
      let write_offset := u64_add base_offset offset in
      if (write_offset <? base_offset) || (shm_size shm <? write_offset)
         || (u64_sub (shm_size shm) write_offset <? size)
      then None
      else Some (u64_add (u64_add dummy_addr (shm_addr_offset shm)) offset).

(** The scan of [mapped_shms]: the first mapping that holds the range. *)
Fixpoint scan_shms (shms : list MappedShm) (dummy_addr offset size : Z)
  : option (MappedShm * Z) :=
  match shms with
  | [] => None
  | shm :: shms' =>
      match map_dummy_range_in_shm shm dummy_addr offset size with
      | Some real => Some (shm, real)
      | None => scan_shms shms' dummy_addr offset size
      end
  end.

(** The pointer, and [last_hit_shm] afterwards. *)
Definition map_dummy_buffer_to_real (mapped_shms : list MappedShm) (dummy_addr buf_size : Z)
    (last_hit_shm : option MappedShm) : option Z * option MappedShm :=
  let scan :=
    match scan_shms mapped_shms dummy_addr 0 buf_size with
    | Some (shm, real) => (Some real, Some shm)
    | None => (None, last_hit_shm)
    end in
  match last_hit_shm with
  | Some shm =>
      match map_dummy_range_in_shm shm dummy_addr 0 buf_size with
      | Some real => (Some real, last_hit_shm)
      | None => scan
      end
  | None => scan
  end.

Definition map_dummy_buffer_range_to_real (mapped_shms : list MappedShm)
    (dummy_addr dst_offset size : Z) : option Z :=
  snd <$> scan_shms mapped_shms dummy_addr dst_offset size.

(** The loop over the buffers of a request; [None] ends it with an error.
    Returns [last_hit_shm] too, which the nested variant carries across rows. *)
Fixpoint map_row (mapped_shms : list MappedShm) (last_hit_shm : option MappedShm)
    (row : list (Z * Z)) : option (list Z) * option MappedShm :=
  match row with
  | [] => (Some [], last_hit_shm)
  | (addr, size) :: row' =>
      let '(real, last) := map_dummy_buffer_to_real mapped_shms addr size last_hit_shm in
      match real with
      | None => (None, last)
      | Some real_ptr =>
          let '(rest, last') := map_row mapped_shms last row' in
          (cons real_ptr <$> rest, last')
      end
  end.

Definition map_dummy_addrs_to_real_ptrs (mapped_shms : list MappedShm)
    (dummy_addrs sizes : list Z) : expected (list Z) :=
  if negb (length dummy_addrs =? length sizes)%nat then Err INVALID_PARAMS
  else
    match (map_row mapped_shms None (zip dummy_addrs sizes)).1 with
    | Some buffers => Ok buffers
    | None => Err INVALID_PARAMS
    end.

Fixpoint map_rows (mapped_shms : list MappedShm) (last_hit_shm : option MappedShm)
    (rows : list (list Z * list Z)) : option (list (list Z)) :=
  match rows with
  | [] => Some []
  | (row_addrs, row_sizes) :: rows' =>
      if negb (length row_addrs =? length row_sizes)%nat then None
      else
        let '(row_real, last) := map_row mapped_shms last_hit_shm (zip row_addrs row_sizes) in
        match row_real with
        | None => None
        | Some row_real => cons row_real <$> map_rows mapped_shms last rows'
        end
  end.

Definition map_dummy_nested_addrs_to_real_ptrs (mapped_shms : list MappedShm)
    (dummy_all_buffers all_sizes : list (list Z)) (keys : list string)
  : expected (list (list Z)) :=
  if negb (length keys =? length dummy_all_buffers)%nat
     || negb (length keys =? length all_sizes)%nat
  then Err INVALID_PARAMS
  else
    match map_rows mapped_shms None (zip dummy_all_buffers all_sizes) with
    | Some real_all_buffers => Ok real_all_buffers
    | None => Err INVALID_PARAMS
    end.

(** ** Well-formed mappings *)

(** What [map_shm_internal] establishes: a mapping lies inside the address
    spaces of both processes, and the offset is the difference of its bases. *)
Definition wf_shm (s : MappedShm) : Prop :=
  0 ≤ dummy_base_addr s ∧ 0 ≤ shm_size s ∧ 0 ≤ shm_buffer s ∧
  dummy_base_addr s + shm_size s < u64_modulus ∧
  shm_buffer s + shm_size s < u64_modulus ∧
  shm_addr_offset s = u64_sub (shm_buffer s) (dummy_base_addr s).

(** The range [[addr, addr + size)] of the dummy process lies in the mapping. *)
Definition holds_range (s : MappedShm) (addr size : Z) : Prop :=
  dummy_base_addr s ≤ addr ∧ addr + size ≤ dummy_base_addr s + shm_size s.

#[export] Instance holds_range_dec s addr size : Decision (holds_range s addr size).
Proof. unfold holds_range. apply _. Defined.

Definition disjoint_shm (s t : MappedShm) : Prop :=
  dummy_base_addr s + shm_size s ≤ dummy_base_addr t ∨
  dummy_base_addr t + shm_size t ≤ dummy_base_addr s.

(** The real address of a dummy address, as the mapping defines it. *)
Definition rebase (s : MappedShm) (addr : Z) : Z := shm_buffer s + (addr - dummy_base_addr s).

(** ** One mapping *)

Lemma u64_rebase s addr offset :
  wf_shm s → holds_range s (addr + offset) 0 → 0 ≤ addr → 0 ≤ offset →
  u64_add (u64_add addr (shm_addr_offset s)) offset = rebase s (addr + offset).
Proof.
  intros (Hb & Hs & Hr & Hd & He & ->) [H1 H2] Ha Ho.
  unfold u64_add, u64_sub, u64, rebase.
  rewrite Zplus_mod_idemp_r, Zplus_mod_idemp_l, Z.mod_small; lia.
Qed.

(** The guards of the code accept exactly the ranges inside the mapping, for
    all 64-bit inputs, and the address they return is the rebased one. *)
Lemma map_range_exact s addr offset size :
  wf_shm s → in_u64 addr → in_u64 offset → in_u64 size →
  map_dummy_range_in_shm s addr offset size =
    if bool_decide (dummy_base_addr s ≤ addr ∧ holds_range s (addr + offset) size)
    then Some (rebase s (addr + offset)) else None.
Proof.
  intros Hwf Ha Ho Hz. pose proof Hwf as (Hb & Hs & Hr & Hd & He & _).
  unfold in_u64 in *. unfold map_dummy_range_in_shm.
  destruct (addr <? dummy_base_addr s) eqn:E1; bool_to_prop.
  { rewrite bool_decide_false; [done|]. unfold holds_range. lia. }
  rewrite (u64_sub_small addr) by lia.
  destruct (shm_size s <? addr - dummy_base_addr s) eqn:E2; cbn [orb]; bool_to_prop.
  { rewrite bool_decide_false; [done|]. unfold holds_range. lia. }
  rewrite (u64_sub_small (shm_size s) (addr - _)) by lia.
  destruct (shm_size s - (addr - dummy_base_addr s) <? offset) eqn:E3; bool_to_prop.
  { rewrite bool_decide_false; [done|]. unfold holds_range. lia. }
  rewrite (u64_add_small (addr - _)) by lia.
  rewrite (proj2 (Z.ltb_ge _ _)) by lia. cbn [orb].
  rewrite (proj2 (Z.ltb_ge (shm_size s) _)) by lia. cbn [orb].
  rewrite (u64_sub_small (shm_size s)) by lia.
  destruct (_ <? size) eqn:E4; bool_to_prop.
  { rewrite bool_decide_false; [done|]. unfold holds_range. lia. }
  rewrite bool_decide_true by (unfold holds_range; lia).
  f_equal. apply u64_rebase; [done| |lia|lia]. unfold holds_range. lia.
Qed.

(** ** All mappings of a client *)

Section Context.
Context (shms : list MappedShm).
Context (Hwf : Forall wf_shm shms).
#[local] Set Default Proof Using "Hwf".

(** Reference: the rebased address of the first mapping that holds the range. *)
Definition translate (addr size : Z) : option Z :=
  (λ s, rebase s addr) <$> List.find (λ s, bool_decide (holds_range s addr size)) shms.

Lemma wf_in s : s ∈ shms → wf_shm s.
Proof. intros Hin. exact (proj1 (Forall_forall _ _) Hwf s Hin). Qed.

(** The range is the translation of the range of some mapping. *)
Definition maps_to (addr size real : Z) : Prop :=
  ∃ s, s ∈ shms ∧ holds_range s addr size ∧ real = rebase s addr.

Lemma map_range_maps_to s addr offset size real :
  s ∈ shms → in_u64 addr → in_u64 offset → in_u64 size →
  map_dummy_range_in_shm s addr offset size = Some real → maps_to (addr + offset) size real.
Proof.
  intros Hin Ha Ho Hz. rewrite map_range_exact by auto using wf_in.
  case_bool_decide as H; intros [= <-]. destruct H as [_ H]. by exists s.
Qed.

Lemma scan_spec l addr offset size :
  l ⊆ shms → in_u64 addr → in_u64 offset → in_u64 size →
  match scan_shms l addr offset size with
  | Some (s, real) =>
      s ∈ l ∧ maps_to (addr + offset) size real ∧ holds_range s (addr + offset) size ∧
      real = rebase s (addr + offset)
  | None => ∀ s, s ∈ l → dummy_base_addr s ≤ addr → ¬ holds_range s (addr + offset) size
  end.
Proof.
  intros Hl Ha Ho Hz. induction l as [|s l IH]; cbn [scan_shms].
  { intros s Hs. by apply elem_of_nil in Hs. }
  assert (Hs : s ∈ shms) by (apply Hl; by left).
  assert (IH' : l ⊆ shms) by set_solver. specialize (IH IH').
  rewrite map_range_exact by auto using wf_in. case_bool_decide as H.
  - destruct H as [Hb H]. split; [by left|]. split; [by exists s|done].
  - destruct (scan_shms l addr offset size) as [[t real]|].
    + destruct IH as (Ht & IH). split; [by right|done].
    + intros t Ht Hb. apply elem_of_cons in Ht as [->|Ht]; [naive_solver|eauto].
Qed.

Lemma map_buffer_spec addr size last :
  (∀ s, last = Some s → s ∈ shms) → in_u64 addr → in_u64 size →
  let '(real, last') := map_dummy_buffer_to_real shms addr size last in
  (∀ s, last' = Some s → s ∈ shms) ∧
  match real with
  | Some p => maps_to addr size p
  | None => ∀ s, s ∈ shms → ¬ holds_range s addr size
  end.
Proof.
  intros Hlast Ha Hz. unfold map_dummy_buffer_to_real.
  pose proof (scan_spec shms addr 0 size (reflexivity shms) Ha ltac:(done) Hz) as Hscan.
  rewrite Z.add_0_r in Hscan.
  assert (Hs : let '(real, last') := match scan_shms shms addr 0 size with
                | Some (shm, real) => (Some real, Some shm) | None => (None, last) end in
    (∀ s, last' = Some s → s ∈ shms) ∧
    match real with
    | Some p => maps_to addr size p
    | None => ∀ s, s ∈ shms → ¬ holds_range s addr size
    end).
  { destruct (scan_shms shms addr 0 size) as [[s real]|].
    - destruct Hscan as (Hs & Hm & _). split; [by intros ? [= <-]|done].
    - split; [done|]. intros s Hs Hh. apply (Hscan s Hs); [apply Hh|done]. }
  destruct last as [s|]; [|done].
  destruct (map_dummy_range_in_shm s addr 0 size) as [real|] eqn:E; [|done].
  split; [done|]. rewrite <-(Z.add_0_r addr). eapply map_range_maps_to; eauto. done.
Qed.

Lemma map_row_sound row last ptrs :
  Forall (λ an, in_u64 an.1 ∧ in_u64 an.2) row → (∀ s, last = Some s → s ∈ shms) →
  (map_row shms last row).1 = Some ptrs → Forall2 (λ an p, maps_to an.1 an.2 p) row ptrs.
Proof.
  intros Hrow. revert last ptrs.
  induction Hrow as [|[a n] row [Ha Hn] _ IH]; intros last ptrs Hl; cbn [map_row].
  { intros [= <-]. constructor. }
  cbn in Ha, Hn. pose proof (map_buffer_spec a n last Hl Ha Hn) as Hb.
  destruct (map_dummy_buffer_to_real shms a n last) as [[p|] last']; destruct Hb as [Hl' Hb];
    [|done].
  specialize (IH last'). destruct (map_row shms last' row) as [[rest|] last'']; cbn; [|done].
  intros [= <-]. constructor; [done|]. by apply IH.
Qed.

(** ** Disjoint mappings: the remembered mapping makes no difference *)

Context (Hdisj : ∀ s t, s ∈ shms → t ∈ shms → s = t ∨ disjoint_shm s t).

Lemma holds_unique s t addr size :
  s ∈ shms → t ∈ shms → 0 < size → holds_range s addr size → holds_range t addr size → s = t.
Proof using Hdisj.
  intros Hs Ht Hz [] []. destruct (Hdisj s t Hs Ht) as [?|[?|?]]; [done|lia|lia].
Qed.

Lemma translate_spec addr size :
  0 < size →
  match translate addr size with
  | Some p => maps_to addr size p
  | None => ∀ s, s ∈ shms → ¬ holds_range s addr size
  end.
Proof using Type.
  intros Hz. unfold translate. destruct (List.find _ shms) as [s|] eqn:E; cbn.
  - apply find_some in E as [Hin Hh]. exists s. split; [by apply list_elem_of_In|].
    split; [by apply bool_decide_eq_true in Hh|done].
  - intros s Hs Hh. apply list_elem_of_In in Hs.
    pose proof (find_none _ _ E s Hs) as H. cbn in H. by apply bool_decide_eq_false in H.
Qed.

Lemma map_buffer_translate addr size last :
  (∀ s, last = Some s → s ∈ shms) → in_u64 addr → in_u64 size → 0 < size →
  (map_dummy_buffer_to_real shms addr size last).1 = translate addr size.
Proof using Hwf Hdisj.
  intros Hlast Ha Hs Hz. pose proof (map_buffer_spec addr size last Hlast Ha Hs) as H.
  destruct (map_dummy_buffer_to_real shms addr size last) as [real last']. cbn [fst].
  destruct H as [_ H]. pose proof (translate_spec addr size Hz) as Ht.
  destruct real as [p|], (translate addr size) as [q|]; [| | |done].
  - destruct H as (s & Hin & Hh & ->), Ht as (t & Hin' & Hh' & ->).
    by rewrite (holds_unique s t addr size).
  - destruct H as (s & Hin & Hh & _). by destruct (Ht s Hin).
  - destruct Ht as (s & Hin & Hh & _). by destruct (H s Hin).
Qed.

(** Every range of a request is a non-empty 64-bit range. *)
Definition good_row (row : list (Z * Z)) : Prop :=
  Forall (λ an, in_u64 an.1 ∧ in_u64 an.2 ∧ 0 < an.2) row.

Lemma map_row_translate row last :
  good_row row → (∀ s, last = Some s → s ∈ shms) →
  (map_row shms last row).1 = mapM (λ an, translate an.1 an.2) row ∧
  (∀ s, (map_row shms last row).2 = Some s → s ∈ shms).
Proof using Hwf Hdisj.
  intros Hrow. revert last. induction Hrow as [|[a n] row (Ha & Hn & Hz) _ IH]; intros last Hl.
  { split; [done|exact Hl]. }
  cbn [map_row mapM]. cbn in Ha, Hn, Hz.
  pose proof (map_buffer_translate a n last Hl Ha Hn Hz) as Ht.
  pose proof (map_buffer_spec a n last Hl Ha Hn) as Hb.
  destruct (map_dummy_buffer_to_real shms a n last) as [real last'].
  cbn [fst snd] in Ht |- *. rewrite <-Ht. destruct Hb as [Hl' _].
  destruct real as [p|]; [|split; [done|exact Hl']].
  destruct (IH last' Hl') as [E IH2].
  destruct (map_row shms last' row) as [rest last'']. cbn [fst snd] in *.
  split; [|done]. by rewrite E.
Qed.

Lemma map_rows_translate rows last :
  Forall (λ r, length r.1 = length r.2 ∧ good_row (zip r.1 r.2)) rows →
  (∀ s, last = Some s → s ∈ shms) →
  map_rows shms last rows = mapM (λ r, mapM (λ an, translate an.1 an.2) (zip r.1 r.2)) rows.
Proof using Hwf Hdisj.
  intros Hrows. revert last. induction Hrows as [|[ra rs] rows [Hlen Hrow] _ IH]; intros last Hl;
    [done|].
  cbn [map_rows mapM]. cbn [fst snd] in *.
  rewrite (proj2 (Nat.eqb_eq _ _) Hlen). cbn [negb].
  destruct (map_row_translate (zip ra rs) last Hrow Hl) as [E Hl'].
  destruct (map_row shms last (zip ra rs)) as [real last']. cbn [fst snd] in *.
  rewrite <-E. destruct real as [real|]; [|done].
  rewrite (IH last' Hl'). cbn. by destruct (mapM _ rows).
Qed.

Lemma map_rows_mismatch rows last :
  Exists (λ r, length r.1 ≠ length r.2) rows → map_rows shms last rows = None.
Proof using Type.
  intros Hex. revert last. induction Hex as [[ra rs] rows Hr|[ra rs] rows _ IH]; intros last;
    cbn [map_rows].
  - cbn in Hr. rewrite (proj2 (Nat.eqb_neq _ _) Hr). done.
  - destruct (negb _); [done|]. destruct (map_row _ _ _) as [[real|] last']; [|done].
    by rewrite IH.
Qed.

(** The translation of a dummy client's buffers, with its remembered last mapping,
    equals the reference: every range is rebased by the mapping that holds it,
    and the request fails if its shape is wrong or some range is in no mapping. *)
Theorem dummy_pointers_exact dummy_all_buffers all_sizes keys :
  Forall (λ r, good_row (zip r.1 r.2)) (zip dummy_all_buffers all_sizes) →
  map_dummy_nested_addrs_to_real_ptrs shms dummy_all_buffers all_sizes keys =
    if bool_decide (length keys = length dummy_all_buffers ∧ length keys = length all_sizes ∧
                    Forall (λ r, length r.1 = length r.2) (zip dummy_all_buffers all_sizes))
    then match mapM (λ r, mapM (λ an, translate an.1 an.2) (zip r.1 r.2))
                 (zip dummy_all_buffers all_sizes) with
         | Some real_all_buffers => Ok real_all_buffers
         | None => Err INVALID_PARAMS
         end
    else Err INVALID_PARAMS.
Proof using Hwf Hdisj.
  intros Hgood. unfold map_dummy_nested_addrs_to_real_ptrs.
  destruct (Nat.eqb_spec (length keys) (length dummy_all_buffers)) as [E1|E1]; cbn [negb orb];
    [|rewrite bool_decide_false by tauto; done].
  destruct (Nat.eqb_spec (length keys) (length all_sizes)) as [E2|E2]; cbn [negb orb];
    [|rewrite bool_decide_false by tauto; done].
  case_bool_decide as Hshape.
  - destruct Hshape as (_ & _ & Hshape). rewrite map_rows_translate; [done| |done].
    by apply Forall_and.
  - rewrite map_rows_mismatch; [done|].
    apply not_Forall_Exists; [intros r; apply _|]. tauto.
Qed.
End Context.

Lemma zip_u64 addrs sizes :
  Forall in_u64 addrs → Forall in_u64 sizes →
  Forall (λ an, in_u64 an.1 ∧ in_u64 an.2) (zip addrs sizes).
Proof.
  intros Ha Hn. apply Forall_forall. intros [a n] Hin. split.
  - apply (proj1 (Forall_forall _ _) Ha). by eapply elem_of_zip_l.
  - apply (proj1 (Forall_forall _ _) Hn). by eapply elem_of_zip_r.
Qed.

(** A translated request only names memory of the client's mappings: each pointer has
    the offset in the real mapping that the address had in the dummy one, and its whole
    range lies inside that mapping. *)
Theorem dummy_pointers_safe shms dummy_addrs sizes ptrs i addr size p :
  Forall wf_shm shms → Forall in_u64 dummy_addrs → Forall in_u64 sizes →
  map_dummy_addrs_to_real_ptrs shms dummy_addrs sizes = Ok ptrs →
  dummy_addrs !! i = Some addr → sizes !! i = Some size → ptrs !! i = Some p →
  ∃ s, s ∈ shms ∧ p - shm_buffer s = addr - dummy_base_addr s ∧
       shm_buffer s ≤ p ∧ p + size ≤ shm_buffer s + shm_size s.
Proof.
  intros Hwf Ha Hn. unfold map_dummy_addrs_to_real_ptrs. destruct (negb _); [done|].
  destruct (map_row shms None (zip dummy_addrs sizes)).1 as [l|] eqn:E; [|done].
  intros [= ->] Ea En Ep.
  pose proof (map_row_sound shms Hwf _ None _ (zip_u64 _ _ Ha Hn) ltac:(done) E) as H2.
  destruct (Forall2_lookup_r _ _ _ _ _ H2 Ep) as ([a n] & Elookup & s & Hs & [H3 H4] & ->).
  apply lookup_zip_Some in Elookup as [Ea' En']. simplify_eq.
  cbn [fst snd] in *. exists s. unfold rebase. split; [done|]. lia.
Qed.

(** ** A concrete pair of mappings *)

Definition sample_shms : list MappedShm :=
  [MkShm "a" 4096 8192 4096 4096; MkShm "b" (u64_sub 4096 65536) 4096 4096 65536].

Lemma sample_shms_wf : Forall wf_shm sample_shms.
Proof. apply Forall_fold_right. unfold wf_shm. vm_compute. intuition congruence. Qed.

Lemma sample_shms_disjoint s t :
  s ∈ sample_shms → t ∈ sample_shms → s = t ∨ disjoint_shm s t.
Proof.
  unfold sample_shms. intros Hs Ht. rewrite !elem_of_cons, elem_of_nil in Hs, Ht.
  destruct Hs as [->|[->|[]]], Ht as [->|[->|[]]]; unfold disjoint_shm; cbn; auto; lia.
Qed.

Lemma dummy_pointers_exact_witness :
  map_dummy_nested_addrs_to_real_ptrs sample_shms [[4100; 65540]; [8190]] [[10; 20]; [2]] ["k"; "l"]
    = Ok [[8196; 4100]; [12286]].
Proof.
  etrans; [apply (dummy_pointers_exact sample_shms sample_shms_wf sample_shms_disjoint)|].
  - repeat constructor; done.
  - by vm_compute.
Defined.

Lemma dummy_pointers_safe_witness :
  ∃ s, s ∈ sample_shms ∧ 4100 - shm_buffer s = 65540 - dummy_base_addr s ∧
       shm_buffer s ≤ 4100 ∧ 4100 + 20 ≤ shm_buffer s + shm_size s.
Proof.
  apply (dummy_pointers_safe sample_shms [4100; 65540] [10; 20] [8196; 4100] 1 65540 20 4100
           sample_shms_wf); try reflexivity; repeat constructor; done.
Defined.
