(* ===== verification/RangedRead.v ===== *)
(** * Reads into caller memory: [get_into], [get_into_ranges] and their variant for
      dummy clients ([mooncake-store/src/real_client.cpp], [pyclient.h])

    A ranged read copies fragments of stored objects to offsets of buffers the
    caller owns.  The request is checked for its shape, every fragment for its
    bounds; a replica is chosen, and the bytes arrive by a transfer into the
    caller's memory, through a temporary buffer, or from the SSD of a peer.
    The buffer allocator, the GPU copies, the peer's RPC service and the address
    arithmetic of [client_buffer.hpp] are external. *)

From S2P Require Import Prelude CxxString StoreTypes ReplicaPolicy Samples PutPath GetPath DummyMap.
From stdpp Require Import base strings list sets gmap.
From Stdlib Require Import ZArith Lia.

#[local] Open Scope Z_scope.
#[local] Set Default Proof Using "Type".

(** [static_cast<int64_t>] *)
Definition to_i64 (z : Z) : Z := let u := u64 z in if u <? 2 ^ 63 then u else u - u64_modulus.

(** ** Events and services *)

(** Answer of a peer's [batch_get_offload_object]. *)
Record OffloadResponse := MkOffload {
  ol_batch_id : Z;
  ol_pointers : list Z;
  ol_transfer_engine_addr : string;
  ol_gc_ttl_ms : Z }.

(** A map from keys to slices, in its iteration order. *)
Abbreviation objects_map := (list (string * list Slice)).

Inductive real_event :=
| RClient (e : event)                            (* a call made by the store client *)
| RAllocate (size : Z) (ptr : option Z)          (* client_buffer_allocator_->allocate *)
| RFree (ptr : Z)                                (* ~BufferHandle *)
| RSetDevice (device_id : Z)
| RCopyHostToDevice (dst src size : Z) (ok : bool)
| RMemcpy (dst src size : Z)
| RStoreBytes (dst : Z) (value : string)         (* memcpy of a value of the caller *)
| ROffloadGet (addr : string) (keys : list string) (sizes : list Z) (r : expected OffloadResponse)
| ROffloadSubmit (addr : string) (keys : list string) (pointers : list Z) (objects : objects_map)
    (f : option TransferFuture)
| ROffloadRelease (addr : string) (batch_id : Z).

Abbreviation rio A := (comp real_event A).

Definition client_event (e : real_event) : option event :=
  match e with RClient e => Some e | _ => None end.

(** A call of the store client, seen from the real client. *)
Definition on_client {A} (m : io A) : rio A := lift_comp RClient client_event m.

Class RealServices := {
  r_allocate : list real_event → Z → option Z;
  r_device_of : Z → option Z;               (* IsDevicePointer and the device *)
  r_is_host : Z → bool;                     (* IsHostPointer *)
  r_copy_h2d : list real_event → Z → Z → Z → bool;
  r_offload_get : list real_event → string → list string → list Z → expected OffloadResponse;
  r_offload_submit :
    list real_event → string → list string → list Z → objects_map → option TransferFuture;
  r_local_endpoints : list real_event → list string;  (* of the mounted segments *)
  r_storage_key : string → string;          (* MakeTenantScopedStorageKey(tenant_id, _) *)
  calculate_total_size : Descriptor → Z;
  allocateSlices : Descriptor → Z → list Slice;
  split_into_slices : Z → Z → list Slice;   (* of a buffer handle: address, size *)
  kMaxSliceSize : Z }.

(** ** Checking the shape of a request *)

Record PreparedRangedReadRequest := MkPrepared {
  results : list (list (list (expected Z)));
  valid_fragments : list (list (list bool));
  required_buffer_sizes : list Z;
  top_level_valid : bool;
  has_any_valid_fragment : bool }.

Section Results.
Context (buffer_count : nat) (all_keys : list (list string))
  (all_dst_offsets : list (list (list Z))).

Definition build_ranged_read_results_like {R} (make_error : R) : list (list (list R)) :=
  (λ i, (λ j,
     let fragment_count :=
       match all_dst_offsets !! i with
       | Some rows => match rows !! j with Some row => length row | None => 1%nat end
       | None => 1%nat
       end in
     replicate (max fragment_count 1) make_error)
   <$> seq 0 (match all_keys !! i with Some keys => length keys | None => 1%nat end))
  <$> seq 0 buffer_count.

Definition build_ranged_read_internal_error_results (error : ErrorCode)
  : list (list (list (expected Z))) := build_ranged_read_results_like (Err error).
End Results.

Definition fill_ranged_read_results_with_error (rs : list (list (list (expected Z))))
    (error : ErrorCode) : list (list (list (expected Z))) :=
  (λ key_rows : list (list (expected Z)),
     (λ row : list (expected Z), (λ _, Err error) <$> row) <$> key_rows) <$> rs.

(** One fragment: its validity, [has_any_valid_fragment], [max_required]. *)
Definition check_fragment (st : list bool * bool * Z) (ds : Z * Z) : list bool * bool * Z :=
  let '(valid, any, max_required) := st in
  let '(dst_offset, fragment_size) := ds in
  if u64_sub u64_max fragment_size <? dst_offset then (valid ++ [false], any, max_required)
  else (valid ++ [true], true, Z.max max_required (u64_add dst_offset fragment_size)).

(** The fragments of one key. *)
Definition check_key (st : list (list (expected Z)) * list (list bool) * bool * Z)
    (row : list Z * list Z * list Z) : list (list (expected Z)) * list (list bool) * bool * Z :=
  let '(res, val, any, max_required) := st in
  let '(dsts, srcs, sizes) := row in
  let fragment_count := length dsts in
  let res := res ++ [replicate fragment_count (Err INVALID_PARAMS)] in
  if negb (fragment_count =? length srcs)%nat || negb (fragment_count =? length sizes)%nat
  then (res, val ++ [replicate fragment_count false], any, max_required)
  else
    let '(valid, any, max_required) :=
      fold_left check_fragment (zip dsts sizes) ([], any, max_required) in
    (res, val ++ [valid], any, max_required).

(** The keys of one buffer: results, validity, required size. *)
Definition check_buffer (any : bool) (keys : list string) (dsts srcs sizes : list (list Z))
  : list (list (expected Z)) * list (list bool) * bool * Z :=
  let key_count := length keys in
  if negb (key_count =? length dsts)%nat || negb (key_count =? length srcs)%nat
     || negb (key_count =? length sizes)%nat
  then (replicate key_count [Err INVALID_PARAMS], replicate key_count [false], any, 0)
  else fold_left check_key (zip (zip dsts srcs) sizes) ([], [], any, 0).

Fixpoint check_buffers (all_keys : list (list string))
    (all_dst_offsets all_src_offsets all_sizes : list (list (list Z)))
    (p : PreparedRangedReadRequest) : PreparedRangedReadRequest :=
  match all_keys, all_dst_offsets, all_src_offsets, all_sizes with
  | keys :: all_keys, dsts :: all_dsts, srcs :: all_srcs, sizes :: all_sizes =>
      let '(res, val, any, req) :=
        check_buffer (has_any_valid_fragment p) keys dsts srcs sizes in
      check_buffers all_keys all_dsts all_srcs all_sizes
        (MkPrepared (results p ++ [res]) (valid_fragments p ++ [val])
           (required_buffer_sizes p ++ [req]) true any)
  | _, _, _, _ => p
  end.

Definition prepare_ranged_read_request (buffer_count : nat) (all_keys : list (list string))
    (all_dst_offsets all_src_offsets all_sizes : list (list (list Z)))
  : PreparedRangedReadRequest :=
  if negb (buffer_count =? length all_keys)%nat
     || negb (buffer_count =? length all_dst_offsets)%nat
     || negb (buffer_count =? length all_src_offsets)%nat
     || negb (buffer_count =? length all_sizes)%nat
  then MkPrepared
         (build_ranged_read_internal_error_results buffer_count all_keys all_dst_offsets
            INVALID_PARAMS)
         (replicate buffer_count []) (replicate buffer_count 0) false false
  else check_buffers all_keys all_dst_offsets all_src_offsets all_sizes
         (MkPrepared [] [] [] true false).

(** ** Choice of the replica *)

(** The first loop: [inl r] returns the local replica [r]. *)
Fixpoint scan_memory (local_endpoints : list string) (rs : list Descriptor)
    (first_memory first_nof : option Descriptor)
  : Descriptor + option Descriptor * option Descriptor :=
  match rs with
  | [] => inr (first_memory, first_nof)
  | r :: rs' =>
      if negb (is_complete r) then scan_memory local_endpoints rs' first_memory first_nof
      else if is_memory_replica r then
        if is_local memory_endpoint local_endpoints r then inl r
        else scan_memory local_endpoints rs'
               (match first_memory with None => Some r | m => m end) first_nof
      else if is_nof_replica r then
        if is_local nof_endpoint local_endpoints r then inl r
        else scan_memory local_endpoints rs' first_memory
               (match first_nof with None => Some r | m => m end)
      else scan_memory local_endpoints rs' first_memory first_nof
  end.

Definition better_disk (best : option Descriptor) (r : Descriptor) : option Descriptor :=
  if negb (is_complete r) then best
  else if is_local_disk_replica r then Some r
  else if is_disk_replica r && bool_decide (best = None) then Some r
  else best.

Definition SelectBestReplica (rs : list Descriptor) (local_endpoints : list string)
  : option Descriptor :=
  match scan_memory local_endpoints rs None None with
  | inl r => Some r
  | inr (Some m, _) => Some m
  | inr (None, Some n) => Some n
  | inr (None, None) => fold_left better_disk rs None
  end.

Definition FilterQueryResult (qr : QueryResult) (replica : Descriptor) : QueryResult :=
  MkQueryResult [replica] (lease_timeout qr).

Record RangedReadMetadata := MkMetadata {
  rm_query_result : QueryResult;
  rm_replica : Descriptor;
  rm_total_size : Z }.

(** ** Writable buffers *)

Record WritableBufferRegion := MkRegion { wr_base : Z; wr_size : Z; wr_offset : Z }.

(** A [ClientBufferAllocator]: what [allocate(size)] returns. *)
Definition Allocator : Type := list real_event → Z → option Z.

(** A [BufferHandle]: address and size of an allocated buffer. *)
Abbreviation BufferHandle := (Z * Z)%type.

Record ShmContext := MkShmContext {
  mapped_shms : list MappedShm;
  client_buffer_allocator : option Allocator;
  active_handles : gmap Z BufferHandle }.                (* by dummy address *)

(** The state of [RealClient] that reads and writes use. *)
Record RealClient := MkRealClient {
  client_ : option Client;                               (* client_ != nullptr *)
  registered_buffer_sizes_ : list (Z * Z);               (* in iteration order *)
  local_buffer_region_ : option WritableBufferRegion;
  client_buffer_allocator_ : option Allocator;
  shm_contexts_ : gmap UUID ShmContext }.                (* by client id *)

(** The loop over the registered buffers. *)
Fixpoint find_registered (buffers : list (Z * Z)) (target : Z) : option WritableBufferRegion :=
  match buffers with
  | [] => None
  | (base, size) :: buffers' =>
      if target <? base then find_registered buffers' target
      else
        let offset := u64_sub target base in
        if offset <? size then Some (MkRegion base size offset)
        else find_registered buffers' target
  end.

Definition resolve_writable_buffer_region (c : RealClient) (buffer : Z)
  : option WritableBufferRegion :=
  match find_registered (registered_buffer_sizes_ c) buffer with
  | Some r => Some r
  | None =>
      match local_buffer_region_ c with
      | Some r =>
          if wr_base r <=? buffer then
            let offset := u64_sub buffer (wr_base r) in
            if offset <? wr_size r then Some (MkRegion (wr_base r) (wr_size r) offset) else None
          else None
      | None => None
      end
  end.

Section Reads.
Context `{!MasterClient, !TransferSubmitter, !HotCache, !StorageBackend, !Clock, !RealServices}.

(** ** Temporary buffers and copies *)

(** Scope of a [BufferHandle]: allocate, use, free. *)
Definition with_handle {A} (allocate : Allocator) (size : Z) (fail : A) (body : Z → rio A)
  : rio A :=
  let! alloc_result := call (λ h, allocate h size) (RAllocate size) in
  match alloc_result with
  | None => ret fail
  | Some tmp =>
      let! r := body tmp in
      call (λ _, tt) (λ _, RFree tmp) ;;;
      ret r
  end.

Definition with_buffer : Z → (Z → rio (expected Z)) → rio (expected Z) :=
  λ size body, with_handle r_allocate size (Err NO_AVAILABLE_HANDLE) body.

Definition scatter_host_to_maybe_device (dst src size : Z) : rio (expected unit) :=
  match r_device_of dst with
  | Some device_id =>
      call (λ _, tt) (λ _, RSetDevice device_id) ;;;
      let! ok := call (λ h, r_copy_h2d h dst src size) (RCopyHostToDevice dst src size) in
      ret (if negb ok then Err TRANSFER_FAIL else Ok tt)
  | None =>
      if r_is_host dst then call (λ _, tt) (λ _, RMemcpy dst src size) ;;; ret (Ok tt)
      else ret (Err INVALID_PARAMS)
  end.

(** ** Reads from the SSD of a peer

    [offload_rpc_read_count_] is the number of [ROffloadGet] events. *)

Definition Client_BatchGetOffloadObject (addr : string) (keys : list string)
    (pointers : list Z) (objects : objects_map) : rio (expected unit) :=
  let! future := call (λ h, r_offload_submit h addr keys pointers objects)
                   (ROffloadSubmit addr keys pointers objects) in
  match future with
  | None => ret (Err TRANSFER_FAIL)
  | Some f =>
      let! result := on_client (future_get f) in
      ret (if negb (bool_decide (result = OK)) then Err result else Ok tt)
  end.

(** [sizes] of the request: an [int64_t] sum per key. *)
Definition total_slices (ss : list Slice) : Z :=
  fold_left (λ total s, to_i64 (total + slice_size s)) ss 0.

Definition batch_get_into_offload_object_internal (addr : string) (objects : objects_map)
  : rio (expected unit) :=
  let! start_time := on_client clock_now in
  let keys := objects.*1 in
  let storage_keys := r_storage_key <$> keys in
  let sizes := total_slices <$> objects.*2 in
  let! resp := call (λ h, r_offload_get h addr storage_keys sizes)
                 (ROffloadGet addr storage_keys sizes) in
  match resp with
  | Err e => ret (Err e)
  | Ok resp =>
      if negb (length (ol_pointers resp) =? length keys)%nat then ret (Err INVALID_PARAMS)
      else
        let! result := Client_BatchGetOffloadObject (ol_transfer_engine_addr resp) keys
                         (ol_pointers resp) objects in
        let! end_time := on_client clock_now in
        call (λ _, tt) (λ _, ROffloadRelease addr (ol_batch_id resp)) ;;;
        match result with
        | Err e => ret (Err e)
        | Ok _ =>
            ret (if ol_gc_ttl_ms resp <=? u64 (end_time - start_time)
                 then Err OBJECT_HAS_LEASE else Ok tt)
        end
  end.

(** ** One ranged read *)

Section Client.
Context (c : Client).

(** [partial_disk_read]: read into a temporary buffer, copy the range out. *)
Definition partial_disk_read (dst src_offset size : Z) (read_op : Z → rio (expected unit))
    (buf_size : Z) : rio (expected Z) :=
  with_buffer buf_size (λ tmp,
    let! read_result := read_op tmp in
    match read_result with
    | Err e => ret (Err e)
    | Ok _ =>
        let! r := scatter_host_to_maybe_device dst (u64_add tmp src_offset) size in
        ret (result_map (λ _, to_i64 size) r)
    end).

(** The size that is read: [None] is the [INVALID_PARAMS] exit. *)
Definition effective_size (src_offset size total_size : Z) (size_is_buffer_capacity : bool)
  : option Z :=
  if size_is_buffer_capacity then if size <? total_size then None else Some total_size
  else if (total_size <? size) || (u64_sub total_size size <? src_offset) then None
  else Some size.

Definition read_full (key : ObjectKey) (dst size : Z) (metadata : RangedReadMetadata)
  : rio (expected Z) :=
  let replica := rm_replica metadata in
  let total_size := rm_total_size metadata in
  let filtered_qr := FilterQueryResult (rm_query_result metadata) replica in
  match data replica with
  | LocalDiskReplica endpoint _ =>
      let! result := batch_get_into_offload_object_internal endpoint [(key, [MkSlice dst size])] in
      ret (result_map (λ _, to_i64 total_size) result)
  | DiskReplica _ _ =>
      with_buffer total_size (λ tmp,
        let! get_result := on_client (Get_query c key filtered_qr (allocateSlices replica tmp)) in
        match get_result with
        | Err e => ret (Err e)
        | Ok _ =>
            let! r := scatter_host_to_maybe_device dst tmp total_size in
            ret (result_map (λ _, to_i64 total_size) r)
        end)
  | _ =>
      let! get_result := on_client (Get_query c key filtered_qr (allocateSlices replica dst)) in
      ret (result_map (λ _, to_i64 total_size) get_result)
  end.

Definition read_partial (key : ObjectKey) (dst src_offset size : Z)
    (metadata : RangedReadMetadata) : rio (expected Z) :=
  let replica := rm_replica metadata in
  match data replica with
  | LocalDiskReplica endpoint _ =>
      partial_disk_read dst src_offset size
        (λ tmp, batch_get_into_offload_object_internal endpoint
                  [(key, [MkSlice tmp (u64_add src_offset size)])])
        (u64_add src_offset size)
  | DiskReplica _ _ =>
      partial_disk_read dst src_offset size
        (λ tmp, on_client (Get_query c key (FilterQueryResult (rm_query_result metadata) replica)
                             (allocateSlices replica tmp)))
        (rm_total_size metadata)
  | NofReplica _ => ret (Err INVALID_REPLICA)
  | MemoryReplica _ =>
      let! get_result := on_client (Get_range c key (rm_query_result metadata)
                                      [MkSlice dst size] src_offset) in
      ret (result_map (λ _, to_i64 size) get_result)
  end.

Definition execute_ranged_read (key : ObjectKey) (buffer dst_offset src_offset size : Z)
    (metadata : RangedReadMetadata) (size_is_buffer_capacity : bool) : rio (expected Z) :=
  match effective_size src_offset size (rm_total_size metadata) size_is_buffer_capacity with
  | None => ret (Err INVALID_PARAMS)
  | Some size =>
      let dst := u64_add buffer dst_offset in
      if (src_offset =? 0) && (size =? rm_total_size metadata)
      then read_full key dst size metadata
      else read_partial key dst src_offset size metadata
  end.

Definition build_ranged_read_metadata_from_query_result (query_result : expected QueryResult)
  : rio (expected RangedReadMetadata) := λ h,
  match query_result with
  | Err e => ret (Err e) h
  | Ok q =>
      if bool_decide (replicas q = []) then ret (Err INVALID_PARAMS) h
      else
        match SelectBestReplica (replicas q) (r_local_endpoints h) with
        | None => ret (Err INVALID_REPLICA) h
        | Some r => ret (Ok (MkMetadata q r (calculate_total_size r))) h
        end
  end.
End Client.

Definition resolve_ranged_read_metadata (rc : RealClient) (key : ObjectKey)
  : rio (expected RangedReadMetadata) :=
  match client_ rc with
  | None => ret (Err INVALID_PARAMS)
  | Some _ =>
      let! q := on_client (Query key) in
      build_ranged_read_metadata_from_query_result q
  end.

Definition get_into_range_internal (rc : RealClient) (key : ObjectKey)
    (buffer dst_offset src_offset size : Z) (size_is_buffer_capacity : bool)
  : rio (expected Z) :=
  let! metadata_result := resolve_ranged_read_metadata rc key in
  match metadata_result, client_ rc with
  | Ok metadata, Some c =>
      execute_ranged_read c key buffer dst_offset src_offset size metadata size_is_buffer_capacity
  | Err e, _ => ret (Err e)
  | Ok _, None => ret (Err INVALID_PARAMS)
  end.

(** ** Many fragments *)

Abbreviation metadata_cache := (gmap string (expected RangedReadMetadata)).

(** [v[i][j][k]] *)
Definition at3 {A} (d : A) (v : list (list (list A))) (i j k : nat) : A :=
  default d (rows ← v !! i; row ← rows !! j; row !! k).

Record RangedRequest := MkRequest {
  q_buffers : list Z;
  q_keys : list (list string);
  q_dst_offsets : list (list (list Z));
  q_src_offsets : list (list (list Z));
  q_sizes : list (list (list Z)) }.

(** [metadata_cache] from the caller's query results that are still leased. *)
Definition cache_query_result (now : Z) (cache : metadata_cache)
    (kq : string * expected QueryResult) : rio metadata_cache :=
  let '(key, query_result) := kq in
  match query_result with
  | Err e => ret (match cache !! key with Some _ => cache | None => <[key := Err e]> cache end)
  | Ok q =>
      if IsLeaseExpired q now then ret cache
      else
        let! m := build_ranged_read_metadata_from_query_result query_result in
        ret (match cache !! key with Some _ => cache | None => <[key := m]> cache end)
  end.

(** [metadata_cache] entry of a key, queried when it is not there yet. *)
Definition lookup_metadata (cache : metadata_cache) (key : string)
  : rio (metadata_cache * expected RangedReadMetadata) :=
  match cache !! key with
  | Some m => ret (cache, m)
  | None =>
      let! q := on_client (Query key) in
      let! m := build_ranged_read_metadata_from_query_result q in
      ret (<[key := m]> cache, m)
  end.

Section Fragments.
Context (c : Client) (req : RangedRequest) (prepared : PreparedRangedReadRequest).

(** Body of the innermost loop: the new [prepared.results[i][j][k]]. *)
Definition read_fragment (i j : nat) (buffer buffer_size : Z) (key : string)
    (metadata_result : expected RangedReadMetadata) (k : nat) : rio (expected Z) :=
  let unchanged := at3 (Err INVALID_PARAMS) (results prepared) i j k in
  let size := at3 0 (q_sizes req) i j k in
  let dst_offset := at3 0 (q_dst_offsets req) i j k in
  if negb (at3 false (valid_fragments prepared) i j k) then ret unchanged
  else if (0 <? size)
          && ((buffer_size <? dst_offset) || (u64_sub buffer_size dst_offset <? size))
  then ret unchanged
  else
    match metadata_result with
    | Err e => ret (Err e)
    | Ok metadata =>
        execute_ranged_read c key buffer dst_offset (at3 0 (q_src_offsets req) i j k) size
          metadata false
    end.

Definition read_key (i : nat) (buffer buffer_size : Z) (cache : metadata_cache)
    (j : nat * list (expected Z)) : rio (metadata_cache * list (expected Z)) :=
  let key := default "" (keys ← q_keys req !! i; keys !! j.1) in
  let! cm := lookup_metadata cache key in
  let! row := mmap (read_fragment i j.1 buffer buffer_size key cm.2) (seq 0 (length j.2)) in
  ret (cm.1, row).

Definition read_buffer (explicit_capacities : bool) (capacities : list Z)
    (cache : metadata_cache) (i : nat * list (list (expected Z)))
  : rio (metadata_cache * list (list (expected Z))) :=
  let buffer := default 0 (q_buffers req !! i.1) in
  let buffer_size := default 0 (capacities !! i.1) in
  if (buffer_size =? 0) && bool_decide (i.2 ≠ []) && negb explicit_capacities
  then ret (cache, i.2)
  else mscan (read_key i.1 buffer buffer_size) cache (indexed i.2).
End Fragments.

(** [resolved_buffer_capacities]; [None] is the exit for a wrong number of them. *)
Definition resolve_capacities (rc : RealClient) (buffers : list Z)
    (buffer_capacities : option (list Z)) : option (list Z) :=
  match buffer_capacities with
  | Some caps => if negb (length caps =? length buffers)%nat then None else Some caps
  | None =>
      Some ((λ b, match resolve_writable_buffer_region rc b with
                  | None => 0
                  | Some region => u64_sub (wr_size region) (wr_offset region)
                  end) <$> buffers)
  end.

(** [prepared_in]: [prepared_results] and [valid_fragments] given by the caller. *)
Definition get_into_ranges_internal (rc : RealClient) (req : RangedRequest)
    (buffer_capacities : option (list Z))
    (prepared_in : option (list (list (list (expected Z))) * list (list (list bool))))
    (query_result_cache : option (list (string * expected QueryResult)))
  : rio (list (list (list (expected Z)))) :=
  let buffer_count := length (q_buffers req) in
  let fail := build_ranged_read_internal_error_results buffer_count (q_keys req)
                (q_dst_offsets req) INVALID_PARAMS in
  match client_ rc with
  | None => ret fail
  | Some c =>
      let prepared :=
        match prepared_in with
        | Some (rs, vs) => MkPrepared rs vs (replicate buffer_count 0) true false
        | None => prepare_ranged_read_request buffer_count (q_keys req) (q_dst_offsets req)
                    (q_src_offsets req) (q_sizes req)
        end in
      if negb (top_level_valid prepared) then ret (results prepared)
      else
        match resolve_capacities rc (q_buffers req) buffer_capacities with
        | None => ret fail
        | Some capacities =>
            let! now := on_client clock_now in
            let! cache := mfold (cache_query_result now) ∅ (default [] query_result_cache) in
            let! r := mscan (read_buffer c req prepared
                               (match buffer_capacities with Some _ => true | None => false end)
                               capacities)
                        cache (indexed (results prepared)) in
            ret r.2
        end
  end.

(** [from_cached_query_result_response] of a successful response, and the
    entries that are kept: a lease of zero has expired at once. *)
Definition build_query_result_cache_from_cached_results
    (cached : list (string * expected GetReplicaListResponse))
  : rio (list (string * expected QueryResult)) :=
  let! now := on_client clock_now in
  ret (omap (λ kr : string * expected GetReplicaListResponse,
         match kr.2 with
         | Err _ => None
         | Ok r =>
             let q := MkQueryResult (rl_replicas r) (now + lease_ttl_ms r) in
             if IsLeaseExpired q now then None else Some (kr.1, Ok q)
         end) cached).

(** ** Requests of dummy clients *)

Definition get_into_range_shm_helper (rc : RealClient) (key : ObjectKey)
    (dummy_buffer dst_offset src_offset size : Z) (client_id : UUID) : rio (expected Z) :=
  match shm_contexts_ rc !! client_id with
  | None => ret (Err INVALID_PARAMS)
  | Some context =>
      match map_dummy_buffer_range_to_real (mapped_shms context) dummy_buffer dst_offset size with
      | None => ret (Err INVALID_PARAMS)
      | Some real_buffer => get_into_range_internal rc key real_buffer 0 src_offset size false
      end
  end.

Definition get_into_ranges_shm_helper (rc : RealClient) (req : RangedRequest)
    (cached : list (string * expected GetReplicaListResponse)) (client_id : UUID)
  : rio (list (list (list (expected Z)))) :=
  let prepared := prepare_ranged_read_request (length (q_buffers req)) (q_keys req)
                    (q_dst_offsets req) (q_src_offsets req) (q_sizes req) in
  if negb (top_level_valid prepared) then ret (results prepared)
  else
    match shm_contexts_ rc !! client_id with
    | None => ret (fill_ranged_read_results_with_error (results prepared) INVALID_PARAMS)
    | Some context =>
        if negb (has_any_valid_fragment prepared) then ret (results prepared)
        else
          match map_dummy_addrs_to_real_ptrs (mapped_shms context) (q_buffers req)
                  (required_buffer_sizes prepared) with
          | Err e => ret (fill_ranged_read_results_with_error (results prepared) e)
          | Ok real_buffers =>
              let! cache := build_query_result_cache_from_cached_results cached in
              get_into_ranges_internal rc
                (MkRequest real_buffers (q_keys req) (q_dst_offsets req) (q_src_offsets req)
                   (q_sizes req))
                (Some (required_buffer_sizes prepared))
                (Some (results prepared, valid_fragments prepared))
                (if bool_decide (cache = []) then None else Some cache)
          end
    end.
End Reads.
