(* ===== verification/RangedPrepare.v ===== *)
(** * Checking a ranged-read request

    The nested loops of [prepare_ranged_read_request] compute, fragment by
    fragment, exactly which fragments have a well-formed shape and a destination
    range that does not overflow, and per buffer the size they need. *)

From S2P Require Import Prelude CxxString StoreTypes ReplicaPolicy Samples PutPath GetPath DummyMap RangedRead.
From stdpp Require Import base strings list sets gmap.
From Stdlib Require Import ZArith Lia.

#[local] Open Scope Z_scope.
#[local] Set Default Proof Using "Type".

(** ** The checks of a request *)

(** A fragment whose destination range does not overflow. *)
Definition fits (ds : Z * Z) : bool := ds.1 + ds.2 <? u64_modulus.
Definition grow (m : Z) (ds : Z * Z) : Z := if fits ds then Z.max m (ds.1 + ds.2) else m.

Definition u64_pairs (l : list (Z * Z)) : Prop := Forall (λ ds, in_u64 ds.1 ∧ in_u64 ds.2) l.

Lemma check_fragments l v any m :
  u64_pairs l →
  fold_left check_fragment l (v, any, m) =
    (v ++ (fits <$> l), any || existsb fits l, fold_left grow l m).
Proof.
  intros Hl. revert v any m. induction Hl as [|[d s] l [Hd Hs] _ IH]; intros v any m.
  { cbn. by rewrite app_nil_r, orb_false_r. }
  unfold in_u64 in *. cbn [fst snd] in *. cbn [fold_left].
  assert (Hc : check_fragment (v, any, m) (d, s) =
               (v ++ [fits (d, s)], any || fits (d, s), grow m (d, s))).
  { unfold check_fragment, grow, fits. cbn [fst snd].
    rewrite u64_sub_small by (unfold u64_max; lia). unfold u64_max.
    destruct (d + s <? u64_modulus) eqn:E; bool_to_prop.
    - rewrite (proj2 (Z.ltb_ge _ _)) by lia. by rewrite u64_add_small, orb_true_r by lia.
    - rewrite (proj2 (Z.ltb_lt _ _)) by lia. by rewrite orb_false_r. }
  rewrite Hc, IH, <-app_assoc, <-orb_assoc. done.
Qed.

Lemma grow_spec l m :
  u64_pairs l → in_u64 m →
  in_u64 (fold_left grow l m) ∧ m ≤ fold_left grow l m ∧
  Forall (λ ds, fits ds = true → ds.1 + ds.2 ≤ fold_left grow l m) l.
Proof.
  intros Hl. revert m. induction Hl as [|ds l [Hd Hs] _ IH]; intros m Hm; [done|].
  cbn [fold_left]. assert (Hg : in_u64 (grow m ds) ∧ m ≤ grow m ds).
  { unfold grow, fits. destruct (_ <? _) eqn:E; [|done]. bool_to_prop. unfold in_u64 in *. lia. }
  destruct (IH (grow m ds)) as (H1 & H2 & H3); [apply Hg|].
  split_and!; [exact H1|lia|]. constructor; [|done].
  intros Hf. etrans; [|exact H2]. unfold grow. rewrite Hf. lia.
Qed.

(** The three rows of a key have one entry per fragment. *)
Definition row_shape (row : list Z * list Z * list Z) : bool :=
  (length row.1.1 =? length row.1.2)%nat && (length row.1.1 =? length row.2)%nat.
Definition row_fragments (row : list Z * list Z * list Z) : list (Z * Z) :=
  if row_shape row then zip row.1.1 row.2 else [].
Definition row_valid (row : list Z * list Z * list Z) : list bool :=
  if row_shape row then fits <$> zip row.1.1 row.2 else replicate (length row.1.1) false.

Lemma check_keys rows res val any m :
  Forall (λ row, u64_pairs (zip row.1.1 row.2)) rows →
  fold_left check_key rows (res, val, any, m) =
    (res ++ ((λ row, replicate (length row.1.1) (Err INVALID_PARAMS)) <$> rows),
     val ++ (row_valid <$> rows),
     any || existsb (existsb fits ∘ row_fragments) rows,
     fold_left grow (rows ≫= row_fragments) m).
Proof.
  intros Hrows. revert res val any m.
  induction Hrows as [|[[ds ss] zs] rows Hrow _ IH]; intros res val any m.
  { cbn. by rewrite !app_nil_r, orb_false_r. }
  set (row := (ds, ss, zs)) in *.
  assert (Hc : check_key (res, val, any, m) row =
    (res ++ [replicate (length ds) (Err INVALID_PARAMS)], val ++ [row_valid row],
     any || existsb fits (row_fragments row), fold_left grow (row_fragments row) m)).
  { subst row. unfold check_key. rewrite <-negb_andb.
    change (_ && _) with (row_shape (ds, ss, zs)). unfold row_valid, row_fragments.
    destruct (row_shape (ds, ss, zs)); cbn [negb fst snd].
    - cbn [fst snd] in Hrow. by rewrite check_fragments.
    - cbn. by rewrite orb_false_r. }
  cbn [fold_left]. rewrite Hc, IH, <-!app_assoc, <-orb_assoc.
  cbn [fmap list_fmap existsb mbind list_bind]. by rewrite fold_left_app.
Qed.

Lemma at3_cons_0 {A} (d : A) v x j k :
  at3 d (x :: v) 0 j k = default d (row ← x !! j; row !! k).
Proof. done. Qed.

Lemma at3_cons_S {A} (d : A) v x i j k : at3 d (x :: v) (S i) j k = at3 d v i j k.
Proof. done. Qed.

(** One buffer of a request: its keys and the rows of its keys. *)
Abbreviation buffer_request := (list string * (list (list Z) * list (list Z) * list (list Z)))%type.

Definition buffer_shape (b : buffer_request) : bool :=
  (length b.1 =? length b.2.1.1)%nat && (length b.1 =? length b.2.1.2)%nat
  && (length b.1 =? length b.2.2)%nat.
Definition buffer_rows (b : buffer_request) : list (list Z * list Z * list Z) :=
  if buffer_shape b then zip (zip b.2.1.1 b.2.1.2) b.2.2 else [].
Definition buffer_valid (b : buffer_request) : list (list bool) :=
  if buffer_shape b then row_valid <$> buffer_rows b else replicate (length b.1) [false].
Definition buffer_results (b : buffer_request) : list (list (expected Z)) :=
  if buffer_shape b
  then (λ row, replicate (length row.1.1) (Err INVALID_PARAMS)) <$> buffer_rows b
  else replicate (length b.1) [Err INVALID_PARAMS].
Definition buffer_required (b : buffer_request) : Z :=
  fold_left grow (buffer_rows b ≫= row_fragments) 0.
Definition buffer_any (b : buffer_request) : bool :=
  existsb (existsb fits ∘ row_fragments) (buffer_rows b).

(** All offsets and sizes are [size_t] values. *)
Definition u64_buffer (b : buffer_request) : Prop :=
  Forall (λ row : list Z * list Z * list Z, u64_pairs (zip row.1.1 row.2))
    (zip (zip b.2.1.1 b.2.1.2) b.2.2).

Lemma check_buffer_spec any keys ds ss zs :
  let b := (keys, (ds, ss, zs)) in u64_buffer b →
  check_buffer any keys ds ss zs =
    (buffer_results b, buffer_valid b, any || buffer_any b, buffer_required b).
Proof.
  intros b Hb. unfold check_buffer. rewrite <-!negb_andb.
  change (_ && _) with (buffer_shape b).
  unfold buffer_results, buffer_valid, buffer_any, buffer_required, buffer_rows.
  destruct (buffer_shape b); cbn [negb existsb mbind list_bind fold_left].
  - rewrite check_keys by exact Hb. done.
  - by rewrite orb_false_r.
Qed.

Lemma check_buffers_spec ks ds ss zs p :
  length ks = length ds → length ks = length ss → length ks = length zs →
  let l := zip ks (zip (zip ds ss) zs) in
  Forall u64_buffer l → top_level_valid p = true →
  check_buffers ks ds ss zs p =
    MkPrepared (results p ++ (buffer_results <$> l)) (valid_fragments p ++ (buffer_valid <$> l))
      (required_buffer_sizes p ++ (buffer_required <$> l)) true
      (has_any_valid_fragment p || existsb buffer_any l).
Proof.
  revert ds ss zs p. induction ks as [|k ks IH]; intros [|d ds] [|s ss] [|z zs] p;
    intros E1 E2 E3; try discriminate; cbn [check_buffers zip zip_with].
  { intros _ Hp. destruct p. cbn in *. subst. by rewrite !app_nil_r, orb_false_r. }
  intros Hl Hp. apply Forall_cons in Hl as [Hb Hl].
  rewrite (check_buffer_spec _ _ _ _ _ Hb).
  rewrite IH; [|naive_solver..]. cbn. by rewrite <-!app_assoc, orb_assoc.
Qed.

Lemma zip_buffers {ks : list (list string)} {ds ss zs : list (list (list Z))} i :
  zip ks (zip (zip ds ss) zs) !! i =
    (k ← ks !! i; d ← ds !! i; s ← ss !! i; z ← zs !! i; Some (k, (d, s, z))).
Proof.
  rewrite !lookup_zip_with.
  destruct (ks !! i), (ds !! i), (ss !! i), (zs !! i); done.
Qed.

Lemma zip_rows {ds ss zs : list (list Z)} j :
  zip (zip ds ss) zs !! j = (d ← ds !! j; s ← ss !! j; z ← zs !! j; Some (d, s, z)).
Proof. rewrite !lookup_zip_with. destruct (ds !! j), (ss !! j), (zs !! j); done. Qed.

Lemma buffer_fragments_u64 b : u64_buffer b → u64_pairs (buffer_rows b ≫= row_fragments).
Proof.
  intros Hb. unfold buffer_rows. destruct (buffer_shape b); [|constructor].
  apply Forall_bind. eapply Forall_impl; [exact Hb|]. intros row Hrow.
  unfold compose, row_fragments. destruct (row_shape row); [exact Hrow|constructor].
Qed.

(** Nested vectors of [size_t]. *)
Definition u64_nested (v : list (list (list Z))) : Prop := Forall (Forall (Forall in_u64)) v.

Lemma u64_nested_at3 v i j k : u64_nested v → in_u64 (at3 0 v i j k).
Proof.
  intros Hv. unfold at3.
  destruct (v !! i) as [rows|] eqn:E1; [|done]; cbn [mbind option_bind].
  destruct (rows !! j) as [row|] eqn:E2; [|done]; cbn [mbind option_bind].
  destruct (row !! k) as [x|] eqn:E3; [|done]; cbn.
  eapply Forall_lookup_1 in Hv; [|done]. eapply Forall_lookup_1 in Hv; [|done].
  by eapply Forall_lookup_1 in Hv.
Qed.

Lemma u64_nested_buffers ks ds ss zs :
  u64_nested ds → u64_nested zs → Forall u64_buffer (zip ks (zip (zip ds ss) zs)).
Proof.
  intros Hd Hz. apply Forall_lookup_2. intros i b. rewrite zip_buffers.
  destruct (ks !! i) as [k|], (ds !! i) as [d|] eqn:Ed, (ss !! i) as [s|],
    (zs !! i) as [z|] eqn:Ez; cbn; try done. intros [= <-].
  apply Forall_lookup_2. intros j row. cbn [fst snd]. rewrite zip_rows.
  destruct (d !! j) as [dr|] eqn:Edr, (s !! j), (z !! j) as [zr|] eqn:Ezr; cbn; try done.
  intros [= <-]. cbn [fst snd]. apply Forall_lookup_2. intros q [x y].
  rewrite lookup_zip_Some. intros [Ex Ey]. split.
  - eapply Forall_lookup_1 in Hd; [|exact Ed]. eapply Forall_lookup_1 in Hd; [|exact Edr].
    by eapply Forall_lookup_1 in Hd.
  - eapply Forall_lookup_1 in Hz; [|exact Ez]. eapply Forall_lookup_1 in Hz; [|exact Ezr].
    by eapply Forall_lookup_1 in Hz.
Qed.

(** Fragment [k] of key [j] of buffer [i] has destination offset [x] and size [y],
    and the vectors around it have matching lengths. *)
Definition shaped_fragment (ks : list (list string)) (ds ss zs : list (list (list Z)))
    (i j k : nat) (x y : Z) : Prop :=
  ∃ keys dr sr zr d s z,
    ks !! i = Some keys ∧ ds !! i = Some dr ∧ ss !! i = Some sr ∧ zs !! i = Some zr ∧
    length keys = length dr ∧ length keys = length sr ∧ length keys = length zr ∧
    dr !! j = Some d ∧ sr !! j = Some s ∧ zr !! j = Some z ∧
    length d = length s ∧ length d = length z ∧ d !! k = Some x ∧ z !! k = Some y.

Lemma shaped_rows ks ds ss zs i j k x y :
  shaped_fragment ks ds ss zs i j k x y ↔
  ∃ b row, zip ks (zip (zip ds ss) zs) !! i = Some b ∧ buffer_shape b = true ∧
    buffer_rows b !! j = Some row ∧ row_shape row = true ∧
    zip row.1.1 row.2 !! k = Some (x, y).
Proof.
  split.
  - intros (keys & dr & sr & zr & d & s & z & E1 & E2 & E3 & E4 & L1 & L2 & L3 & E5 & E6 & E7
            & L4 & L5 & E8 & E9).
    assert (Hb : buffer_shape (keys, (dr, sr, zr)) = true).
    { unfold buffer_shape. cbn [fst snd]. by rewrite <-L1, <-L2, <-L3, Nat.eqb_refl. }
    exists (keys, (dr, sr, zr)), (d, s, z).
    rewrite zip_buffers, E1, E2, E3, E4. unfold buffer_rows. rewrite Hb. cbn [fst snd].
    rewrite zip_rows, E5, E6, E7. unfold row_shape. cbn [fst snd].
    rewrite <-L4, <-L5, Nat.eqb_refl. split_and!; try done. by apply lookup_zip_Some.
  - intros (b & row & Hb & Hs & Hr & Hrs & Hk). rewrite zip_buffers in Hb.
    unfold buffer_rows in Hr. rewrite Hs in Hr.
    destruct (ks !! i) as [keys|] eqn:E1, (ds !! i) as [dr|] eqn:E2, (ss !! i) as [sr|] eqn:E3,
      (zs !! i) as [zr|] eqn:E4; cbn in Hb; try done. injection Hb as <-. cbn [fst snd] in Hr. rewrite zip_rows in Hr.
    destruct (dr !! j) as [d|] eqn:Ed, (sr !! j) as [s|] eqn:Es, (zr !! j) as [z|] eqn:Ez;
      cbn in Hr; try done. injection Hr as <-.
    unfold buffer_shape, row_shape in *. cbn [fst snd] in *. bool_to_prop.
    apply lookup_zip_Some in Hk as [? ?].
    exists keys, dr, sr, zr, d, s, z. tauto.
Qed.

Section Prepare.
Context (ks : list (list string)) (ds ss zs : list (list (list Z))) (n : nat).
Context (Hds : u64_nested ds) (Hzs : u64_nested zs).
#[local] Set Default Proof Using "Hds Hzs".

Lemma prepare_explicit :
  let p := prepare_ranged_read_request n ks ds ss zs in
  top_level_valid p = true →
  let l := zip ks (zip (zip ds ss) zs) in
  length l = n ∧
  p = MkPrepared (buffer_results <$> l) (buffer_valid <$> l) (buffer_required <$> l) true
        (existsb buffer_any l).
Proof.
  unfold prepare_ranged_read_request. rewrite <-!negb_andb.
  destruct (_ && _) eqn:E; cbn [negb]; [|done]. intros _. bool_to_prop. subst n.
  pose proof (check_buffers_spec ks ds ss zs (MkPrepared [] [] [] true false)) as H.
  split.
  - rewrite !length_zip_with. lia.
  - rewrite H; [done|congruence..| |done]. by apply u64_nested_buffers.
Qed.

Lemma prepare_required :
  let p := prepare_ranged_read_request n ks ds ss zs in
  top_level_valid p = true →
  length (required_buffer_sizes p) = n ∧ Forall in_u64 (required_buffer_sizes p).
Proof.
  intros p Hp. destruct (prepare_explicit Hp) as [Hlen E]. unfold p. rewrite E. cbn.
  split; [by rewrite length_fmap|]. apply Forall_fmap.
  eapply Forall_impl; [apply (u64_nested_buffers ks ds ss zs Hds Hzs)|].
  intros b Hb. unfold compose, buffer_required. apply grow_spec; [|by split].
  by apply buffer_fragments_u64.
Qed.

Lemma valid_shaped i j k :
  at3 false (buffer_valid <$> zip ks (zip (zip ds ss) zs)) i j k = true ↔
  ∃ x y, shaped_fragment ks ds ss zs i j k x y ∧ x + y < u64_modulus.
Proof using Type.
  setoid_rewrite shaped_rows. unfold at3. rewrite list_lookup_fmap.
  destruct (zip ks _ !! i) as [b|]; cbn; [|split; [done|naive_solver]].
  unfold buffer_valid. destruct (buffer_shape b) eqn:Hb; cycle 1.
  { split; [|intros (x & y & (b' & row & [= <-] & Hb' & _) & _); congruence].
    destruct (replicate _ [false] !! j) as [r|] eqn:Hj; [|done].
    apply lookup_replicate_1 in Hj as [-> _]. by destruct k. }
  rewrite list_lookup_fmap. destruct (buffer_rows b !! j) as [row|] eqn:Hr; cbn; cycle 1.
  { split; [done|]. intros (x & y & (b' & row & [= <-] & _ & Hr' & _) & _). congruence. }
  unfold row_valid. destruct (row_shape row) eqn:Hrs; cycle 1.
  { split.
    - destruct (replicate _ false !! k) eqn:Hk; [|done].
      by apply lookup_replicate_1 in Hk as [-> _].
    - intros (x & y & (b' & row' & [= <-] & _ & Hr' & Hrs' & _) & _). congruence. }
  rewrite list_lookup_fmap. destruct (zip row.1.1 row.2 !! k) as [[x y]|] eqn:Hk; cbn.
  - unfold fits. cbn [fst snd]. rewrite Z.ltb_lt. split.
    + intros Hxy. exists x, y. split; [|done]. by exists b, row.
    + intros (x' & y' & (b' & row' & [= <-] & _ & Hr' & _ & Hk') & Hxy). congruence.
  - split; [done|]. intros (x & y & (b' & row' & [= <-] & _ & Hr' & _ & Hk') & _). congruence.
Qed.

(** The checks of a ranged-read request accept exactly the fragments whose vectors have
    matching lengths and whose destination range does not overflow 64 bits, and the
    size required of a buffer covers every accepted fragment. *)
Theorem prepare_exact :
  let p := prepare_ranged_read_request n ks ds ss zs in
  top_level_valid p = true →
  ∀ i j k,
    (at3 false (valid_fragments p) i j k = true ↔
       ∃ x y, shaped_fragment ks ds ss zs i j k x y ∧ x + y < u64_modulus) ∧
    (∀ x y, shaped_fragment ks ds ss zs i j k x y → x + y < u64_modulus →
       ∃ r, required_buffer_sizes p !! i = Some r ∧ x + y ≤ r ∧ in_u64 r).
Proof.
  intros p Hp i j k. destruct (prepare_explicit Hp) as [Hlen E].
  pose proof (prepare_required Hp) as [_ Hreq]. fold p in Hreq.
  assert (Hv : at3 false (valid_fragments p) i j k = true ↔
    ∃ x y, shaped_fragment ks ds ss zs i j k x y ∧ x + y < u64_modulus).
  { unfold p. rewrite E. apply valid_shaped. }
  split; [exact Hv|]. intros x y Hs Hxy. apply shaped_rows in Hs as (b & row & Hb & Hbs & Hr & Hrs & Hk).
  exists (buffer_required b). unfold p in *. rewrite E in *. cbn [required_buffer_sizes] in *.
  rewrite list_lookup_fmap, Hb. split; [done|].
  assert (Hin : u64_buffer b) by (eapply Forall_lookup_1; [exact (u64_nested_buffers ks ds ss zs Hds Hzs)|exact Hb]).
  split; [|eapply Forall_lookup_1; [exact Hreq|by rewrite list_lookup_fmap, Hb]].
  destruct (grow_spec _ 0 (buffer_fragments_u64 b Hin)) as (_ & _ & Hall); [by split|].
  apply (proj1 (Forall_forall _ _) Hall (x, y)); [|by apply Z.ltb_lt].
  apply list_elem_of_bind. exists row. split; [|by eapply list_elem_of_lookup_2].
  unfold row_fragments. rewrite Hrs. by eapply list_elem_of_lookup_2.
Qed.
End Prepare.

Lemma prepare_exact_witness :
  let p := prepare_ranged_read_request 1 [["a"]] [[[0; 5]]] [[[1; 2]]] [[[4; u64_max]]] in
  top_level_valid p = true ∧
  (at3 false (valid_fragments p) 0 0 1 = true ↔
     ∃ x y, shaped_fragment [["a"]] [[[0; 5]]] [[[1; 2]]] [[[4; u64_max]]] 0 0 1 x y ∧
            x + y < u64_modulus) ∧
  ∃ r, required_buffer_sizes p !! 0%nat = Some r ∧ 0 + 4 ≤ r ∧ in_u64 r.
Proof.
  intros p. assert (Hp : top_level_valid p = true) by reflexivity.
  assert (H1 : u64_nested [[[0; 5]]]) by (repeat constructor; done).
  assert (H2 : u64_nested [[[4; u64_max]]]) by (repeat constructor; done).
  split; [done|]. split.
  - apply (prepare_exact _ _ [[[1; 2]]] _ 1 H1 H2 Hp).
  - apply (proj2 (prepare_exact _ _ [[[1; 2]]] _ 1 H1 H2 Hp 0%nat 0%nat 0%nat) 0 4); [|done].
    exists ["a"], [[0; 5]], [[1; 2]], [[4; u64_max]], [0; 5], [1; 2], [4; u64_max].
    repeat (split; [reflexivity|]). reflexivity.
Defined.
