(* ===== verification/RangedReadSpec.v ===== *)
(** * What ranged reads guarantee

    Memory safety: every byte a request writes lies in the destination range it
    asked for, or in a temporary buffer that is live at that moment; temporary
    buffers are only read inside their bounds and are all freed.  The choice of
    the replica, the checks of a request, and what a successful fragment means. *)

From S2P Require Import Prelude CxxString StoreTypes ReplicaPolicy Samples PutPath GetPath DummyMap RangedRead RangedPrepare.
From stdpp Require Import base strings list sets gmap.
From Stdlib Require Import ZArith Lia.

#[local] Open Scope Z_scope.
#[local] Set Default Proof Using "Type".

(** ** Memory accesses of a run *)

(** Memory ranges are pairs of address and length; an empty one is inside any. *)
Definition inside (w r : Z * Z) : Prop :=
  w.2 ≤ 0 ∨ (r.1 ≤ w.1 ∧ w.1 + w.2 ≤ r.1 + r.2).

Lemma inside_refl w : inside w w.
Proof. unfold inside. lia. Qed.

Lemma inside_trans w r t : inside w r → inside r t → inside w t.
Proof. unfold inside. lia. Qed.

#[export] Hint Resolve inside_refl : mooncake.

Definition slice_range (s : Slice) : Z * Z := (slice_ptr s, slice_size s).

Definition client_writes (e : event) : list (Z * Z) :=
  match e with
  | ETransfer (Submit _ ss READ _) => slice_range <$> ss
  | ETransfer (SubmitBatch _ sss READ _) => slice_range <$> mjoin sss
  | ETransfer (SubmitRangeRead _ ss _ _) => slice_range <$> ss
  | _ => []
  end.

Definition mem_writes (e : real_event) : list (Z * Z) :=
  match e with
  | RClient e => client_writes e
  | RCopyHostToDevice dst _ n _ => [(dst, n)]
  | RMemcpy dst _ n => [(dst, n)]
  | RStoreBytes dst value => [(dst, Z.of_nat (String.length value))]
  | ROffloadSubmit _ _ _ objects _ => slice_range <$> mjoin objects.*2
  | _ => []
  end.

Definition mem_reads (e : real_event) : list (Z * Z) :=
  match e with
  | RCopyHostToDevice _ src n _ => [(src, n)]
  | RMemcpy _ src n => [(src, n)]
  | _ => []
  end.

(** Temporary buffers that are live, most recent first. *)
Fixpoint free_first (p : Z) (live : list (Z * Z)) : list (Z * Z) :=
  match live with
  | [] => []
  | b :: live' => if b.1 =? p then live' else b :: free_first p live'
  end.

Definition live_step (live : list (Z * Z)) (e : real_event) : list (Z * Z) :=
  match e with
  | RAllocate n (Some p) => (p, n) :: live
  | RFree p => free_first p live
  | _ => live
  end.

Definition live_after (live : list (Z * Z)) (evs : list real_event) : list (Z * Z) :=
  fold_left live_step evs live.

(** Every write is allowed by [R] or goes to a live temporary buffer; every
    read of the copies comes from a live one. *)
Fixpoint safe_trace (R : Z * Z → Prop) (live : list (Z * Z)) (evs : list real_event) : Prop :=
  match evs with
  | [] => True
  | e :: evs' =>
      Forall (λ w, R w ∨ Exists (inside w) live) (mem_writes e) ∧
      Forall (λ w, Exists (inside w) live) (mem_reads e) ∧
      safe_trace R (live_step live e) evs'
  end.

Lemma safe_trace_app R live e1 e2 :
  safe_trace R live (e1 ++ e2) ↔ safe_trace R live e1 ∧ safe_trace R (live_after live e1) e2.
Proof.
  revert live. induction e1 as [|e e1 IH]; intros live; cbn [app safe_trace live_after fold_left].
  - tauto.
  - rewrite IH. unfold live_after. tauto.
Qed.

Lemma safe_trace_mono (R R' : Z * Z → Prop) live evs :
  (∀ w, R w → R' w) → safe_trace R live evs → safe_trace R' live evs.
Proof.
  intros HR. revert live. induction evs as [|e evs IH]; intros live; cbn [safe_trace]; [done|].
  intros (Hw & Hr & Hs). split_and!; [|done|by apply IH].
  eapply Forall_impl; [exact Hw|]. intros w [?|?]; auto.
Qed.

(** ** A program logic for memory safety *)

Section Logic.
Context (R : Z * Z → Prop).

Definition safe {A} (live : list (Z * Z)) (m : rio A) (Q : A → Prop) : Prop :=
  ∀ h v evs, m h = (v, evs) → safe_trace R live evs ∧ live_after live evs = live ∧ Q v.

Lemma safe_ret {A} live (a : A) (Q : A → Prop) : Q a → safe live (ret a) Q.
Proof. intros HQ h v evs H. apply ret_inv in H as [-> ->]. done. Qed.

Lemma safe_bind {A B} live (m : rio A) (k : A → rio B) Q Q' :
  safe live m Q → (∀ a, Q a → safe live (k a) Q') → safe live (bind m k) Q'.
Proof.
  intros Hm Hk h v evs H. apply bind_inv in H as (a & e1 & e2 & H1 & H2 & ->).
  destruct (Hm _ _ _ H1) as (S1 & L1 & HQ). destruct (Hk a HQ _ _ _ H2) as (S2 & L2 & HQ').
  split_and!; [|by unfold live_after in *; rewrite fold_left_app, L1|done].
  apply safe_trace_app. split; [done|]. by rewrite L1.
Qed.

Lemma safe_weaken {A} live (m : rio A) (Q Q' : A → Prop) :
  safe live m Q → (∀ a, Q a → Q' a) → safe live m Q'.
Proof. intros Hm HQ h v evs H. destruct (Hm h v evs H) as (? & ? & ?). auto. Qed.

(** A call that allocates and frees nothing. *)
Lemma safe_call {A} live (f : list real_event → A) (ev : A → real_event) (Q : A → Prop) :
  (∀ a, Forall (λ w, R w ∨ Exists (inside w) live) (mem_writes (ev a)) ∧
        Forall (λ w, Exists (inside w) live) (mem_reads (ev a)) ∧ live_step live (ev a) = live) →
  (∀ h, Q (f h)) → safe live (call f ev) Q.
Proof.
  intros Hev HQ h v evs H. apply call_inv in H as [-> ->].
  destruct (Hev (f h)) as (? & ? & ?). cbn. auto.
Qed.

Lemma safe_on_client {A} live (m : io A) (Q : A → Prop) :
  (∀ h v evs, m h = (v, evs) →
     Forall (λ e, Forall (λ w, R w ∨ Exists (inside w) live) (client_writes e)) evs ∧ Q v) →
  safe live (on_client m) Q.
Proof.
  intros Hm h v evs H. apply lift_inv in H as (evs' & H & ->).
  destruct (Hm _ _ _ H) as [HF HQ]. clear H. induction HF as [|e evs' He _ IH]; [done|].
  destruct IH as (S & L & _). cbn. split_and!; [done|constructor|done|done|done].
Qed.

Lemma safe_mmap {A B} live (body : A → rio B) l :
  (∀ x, x ∈ l → safe live (body x) (λ _, True)) → safe live (mmap body l) (λ _, True).
Proof.
  induction l as [|x l IH]; intros Hl; cbn [mmap]; [by apply safe_ret|].
  eapply safe_bind; [apply Hl; by left|]. intros y _.
  eapply safe_bind; [apply IH; intros z Hz; apply Hl; by right|].
  intros ys _. by apply safe_ret.
Qed.

Lemma safe_mscan {S A B} live (body : S → A → rio (S * B)) (I : S → Prop) l st :
  I st → (∀ s x, x ∈ l → I s → safe live (body s x) (λ r, I r.1)) →
  safe live (mscan body st l) (λ r, I r.1).
Proof.
  revert st. induction l as [|x l IH]; intros st Hst Hl; cbn [mscan]; [by apply safe_ret|].
  eapply safe_bind; [apply Hl; [by left|done]|]. intros r Hr.
  eapply safe_bind; [apply IH; [done|]; intros s z Hz; apply Hl; by right|].
  intros rs Hrs. by apply safe_ret.
Qed.

Lemma safe_mfold {S A} live (body : S → A → rio S) (I : S → Prop) l st :
  I st → (∀ s x, x ∈ l → I s → safe live (body s x) I) → safe live (mfold body st l) I.
Proof.
  revert st. induction l as [|x l IH]; intros st Hst Hl; cbn [mfold]; [by apply safe_ret|].
  eapply safe_bind; [apply Hl; [by left|done]|]. intros s Hs.
  apply IH; [done|]. intros s' z Hz. apply Hl. by right.
Qed.
End Logic.

Lemma safe_mono {A} (R R' : Z * Z → Prop) live (m : rio A) Q :
  (∀ w, R w → R' w) → safe R live m Q → safe R' live m Q.
Proof.
  intros HR Hm h v evs H. destruct (Hm h v evs H) as (S & ? & ?).
  split; [|done]. by eapply safe_trace_mono.
Qed.

(** ** What the store client writes *)

Section ClientWrites.
Context `{!MasterClient, !TransferSubmitter, !HotCache, !StorageBackend, !Clock}.
Context (c : Client) (P : Z * Z → Prop).

Definition client_safe {A} (m : io A) : Prop :=
  ∀ h v evs, m h = (v, evs) → Forall (λ e, Forall P (client_writes e)) evs.

Lemma client_safe_ret {A} (a : A) : client_safe (ret a).
Proof. intros h v evs E. apply ret_inv in E as [_ ->]. constructor. Qed.

Lemma client_safe_bind {A B} (m : io A) (k : A → io B) :
  client_safe m → (∀ a, client_safe (k a)) → client_safe (bind m k).
Proof.
  intros Hm Hk h v evs E. apply bind_inv in E as (a & e1 & e2 & E1 & E2 & ->).
  apply Forall_app. split; [by eapply Hm|by eapply Hk].
Qed.

Lemma client_safe_call {A} (f : history → A) (ev : A → event) :
  (∀ a, Forall P (client_writes (ev a))) → client_safe (call f ev).
Proof. intros Hev h v evs E. apply call_inv in E as [_ ->]. constructor; [apply Hev|constructor]. Qed.

(** Runs through a program whose calls write nothing. *)
Ltac client_quiet :=
  repeat (cbn [fst snd]; lazymatch goal with
    | |- ∀ _, _ => intro
    | |- client_safe (ret _) => apply client_safe_ret
    | |- client_safe (bind _ _) => apply client_safe_bind
    | |- client_safe (call _ _) => apply client_safe_call; intro; by constructor
    | |- client_safe (match ?x with _ => _ end) => destruct x
    end).

Lemma submit_put_tasks_quiet key ss : client_safe (submit_put_tasks key ss).
Proof.
  induction ss as [|s ss IH]; cbn [submit_put_tasks]; unfold cache_submit_put; client_quiet.
  done.
Qed.

Lemma promote_quiet key ss r b : client_safe (promote_to_cache c key ss r b).
Proof.
  unfold promote_to_cache, ShouldAdmitToHotCache, ProcessSlicesAsync, when,
    cache_sketch_increment; client_quiet; apply submit_put_tasks_quiet.
Qed.

Lemma query_quiet key : client_safe (Query key).
Proof. unfold Query, clock_now, master_get_replica_list. client_quiet. Qed.

Lemma get_query_safe key q ss :
  Forall (λ s, P (slice_range s)) ss → client_safe (Get_query c key q ss).
Proof.
  intros Hss. unfold Get_query, lookup_cache, RedirectToHotCache, release_cache, when, cache_do,
    cache_get, TransferRead, TransferData, future_get, clock_now.
  client_quiet; try apply promote_quiet; unfold transfer_submit.
  all: apply client_safe_call; intros; cbn; by apply Forall_fmap.
Qed.

Lemma get_range_safe key q ss off :
  Forall (λ s, P (slice_range s)) ss → client_safe (Get_range c key q ss off).
Proof.
  intros Hss. unfold Get_range, TransferReadRange, TransferReadInternal, future_get, clock_now.
  client_quiet. unfold transfer_submit_range. apply client_safe_call; intros; cbn.
  by apply Forall_fmap.
Qed.
End ClientWrites.

(** ** Memory safety of one ranged read *)

(** What the allocator and [client_buffer.hpp] promise: buffers lie in the address
    space, sizes are 64 bits wide, the slices of a replica at an address lie in
    the range of its size there. *)
Class RealServicesLaws `{!RealServices} : Prop := {
  allocate_valid h n p : r_allocate h n = Some p → 0 ≤ p ∧ p + n < u64_modulus;
  total_size_range d : in_u64 (calculate_total_size d);
  slices_in d p s : s ∈ allocateSlices d p → inside (slice_range s) (p, calculate_total_size d) }.

Section Safety.
Context `{!MasterClient, !TransferSubmitter, !HotCache, !StorageBackend, !Clock}.
Context `{!RealServices} {laws : RealServicesLaws}.

Lemma with_handle_safe {A} R live (allocate : Allocator) n (fail : A) body (Q : A → Prop) :
  (∀ h p, allocate h n = Some p → safe R ((p, n) :: live) (body p) Q) →
  Q fail → safe R live (with_handle allocate n fail body) Q.
Proof.
  intros Hbody HQ h v evs E. unfold with_handle in E.
  apply bind_inv in E as (a & e1 & e2 & E1 & E2 & ->). apply call_inv in E1 as [-> ->].
  destruct (allocate h n) as [p|] eqn:Ea; cycle 1.
  { apply ret_inv in E2 as [-> ->]. cbn. auto. }
  apply bind_inv in E2 as (r & e3 & e4 & E3 & E4 & ->).
  apply bind_inv in E4 as (u & e5 & e6 & E5 & E6 & ->).
  apply call_inv in E5 as [-> ->]. apply ret_inv in E6 as [-> ->].
  destruct (Hbody h p Ea _ _ _ E3) as (S & L & HQr). rewrite app_nil_r.
  cbn [app safe_trace mem_writes mem_reads live_step].
  assert (HL : live_after ((p, n) :: live) (e3 ++ [RFree p]) = live).
  { unfold live_after in *. rewrite fold_left_app, L. cbn. by rewrite Z.eqb_refl. }
  split_and!; [done|done| |exact HL|done].
  apply safe_trace_app. split; [done|]. rewrite L. cbn. auto.
Qed.

Lemma with_buffer_safe R live n body (Q : expected Z → Prop) :
  (∀ h p, r_allocate h n = Some p → safe R ((p, n) :: live) (body p) Q) →
  Q (Err NO_AVAILABLE_HANDLE) → safe R live (with_buffer n body) Q.
Proof. apply with_handle_safe. Qed.

Lemma scatter_safe R live dst src n :
  R (dst, n) → Exists (inside (src, n)) live →
  safe R live (scatter_host_to_maybe_device dst src n) (λ _, True).
Proof.
  intros HR Hl. unfold scatter_host_to_maybe_device.
  destruct (r_device_of dst) as [id|].
  - eapply safe_bind with (Q := λ _, True); [by apply safe_call|]. intros _ _.
    eapply safe_bind with (Q := λ _, True).
    + apply safe_call; [|done]. intros ok. cbn. split_and!; [|constructor; [done|constructor]|done].
      constructor; [by left|constructor].
    + intros ok _. by apply safe_ret.
  - destruct (r_is_host dst); [|by apply safe_ret].
    eapply safe_bind with (Q := λ _, True); [|intros; by apply safe_ret].
    apply safe_call; [|done]. intros _. cbn. split_and!; [|constructor; [done|constructor]|done].
    constructor; [by left|constructor].
Qed.

Lemma on_client_quiet {A} R live (m : io A) (P : Z * Z → Prop) :
  client_safe P m → (∀ w, P w → R w ∨ Exists (inside w) live) →
  safe R live (on_client m) (λ _, True).
Proof.
  intros Hm HP. apply safe_on_client. intros h v evs E. split; [|done].
  eapply Forall_impl; [by eapply Hm|]. intros e He. eapply Forall_impl; [exact He|exact HP].
Qed.

Lemma clock_safe R live : safe R live (on_client clock_now) (λ _, True).
Proof.
  eapply (on_client_quiet _ _ _ (λ _, False)); [|done]. apply client_safe_call; intros; constructor.
Qed.

Lemma offload_safe R live addr objs :
  Forall (λ w, R w ∨ Exists (inside w) live) (slice_range <$> mjoin objs.*2) →
  safe R live (batch_get_into_offload_object_internal addr objs) (λ _, True).
Proof.
  intros Hobjs. unfold batch_get_into_offload_object_internal.
  eapply safe_bind; [apply clock_safe|]. intros t0 _.
  eapply safe_bind with (Q := λ _, True); [by apply safe_call|]. intros [resp|e] _;
    [|by apply safe_ret].
  destruct (negb _); [by apply safe_ret|].
  eapply safe_bind with (Q := λ _, True).
  { unfold Client_BatchGetOffloadObject. eapply safe_bind with (Q := λ _, True).
    - apply safe_call; [|done]. intros f. by split_and!.
    - intros [f|] _; [|by apply safe_ret].
      eapply safe_bind; [|intros; by apply safe_ret].
      eapply (on_client_quiet _ _ _ (λ _, False)); [|done]. apply client_safe_call; intros; constructor. }
  intros result _. eapply safe_bind; [apply clock_safe|]. intros t1 _.
  eapply safe_bind with (Q := λ _, True); [by apply safe_call|]. intros _ _.
  destruct result; by apply safe_ret.
Qed.

(** The size recorded with the chosen replica is the size of that replica. *)
Definition wf_metadata (m : RangedReadMetadata) : Prop :=
  rm_total_size m = calculate_total_size (rm_replica m).

(** A fragment that is reported as read has the size that was asked for. *)
Definition reports_size (n : Z) (r : expected Z) : Prop := ∀ v, r = Ok v → v = to_i64 n.

Lemma reports_map n (r : expected unit) : reports_size n (result_map (λ _, to_i64 n) r).
Proof. intros v. destruct r; cbn; congruence. Qed.

Lemma get_slices_safe R live c key q d p r :
  inside (p, calculate_total_size d) r → (R r ∨ r ∈ live) →
  (∀ w, inside w r → R r → R w) →
  safe R live (on_client (Get_query c key q (allocateSlices d p))) (λ _, True).
Proof using laws.
  intros Hp Hr HR. eapply (on_client_quiet _ _ _ (λ w, inside w r)).
  - apply get_query_safe. apply Forall_forall. intros s Hs.
    eapply inside_trans; [by apply slices_in|done].
  - intros w Hw. destruct Hr as [Hr|Hr]; [left; by apply HR|right].
    apply Exists_exists. by exists r.
Qed.

Lemma slice_allowed (R : Z * Z → Prop) live p n :
  R (p, n) ∨ Exists (inside (p, n)) live →
  Forall (λ w, R w ∨ Exists (inside w) live) (slice_range <$> mjoin [("", [MkSlice p n])].*2).
Proof. intros Hp. cbn. constructor; [exact Hp|constructor]. Qed.

Lemma read_full_safe live c key dst metadata :
  wf_metadata metadata →
  let n := rm_total_size metadata in
  safe (λ w, inside w (dst, n)) live (read_full c key dst n metadata) (reports_size n).
Proof using laws.
  intros Hwf n. unfold read_full, wf_metadata in *. fold n in Hwf |- *.
  assert (Hget : safe (λ w, inside w (dst, n)) live
    (let! get_result := on_client (Get_query c key
           (FilterQueryResult (rm_query_result metadata) (rm_replica metadata))
           (allocateSlices (rm_replica metadata) dst)) in
      ret (result_map (λ _, to_i64 n) get_result)) (reports_size n)).
  { eapply safe_bind; [|intros r _; apply safe_ret, reports_map].
    rewrite Hwf. eapply get_slices_safe; [apply inside_refl|left; apply inside_refl|done]. }
  destruct (data (rm_replica metadata)) as [b|b|path m|ep m]; [exact Hget|exact Hget| |].
  - apply with_buffer_safe; [|done]. intros h p Hp.
    eapply safe_bind.
    { eapply (get_slices_safe _ _ _ _ _ _ _ (p, n)); [by rewrite Hwf; apply inside_refl| |].
      - right. by left.
      - intros w Hw Hr. by eapply inside_trans. }
    intros [[]|e] _; [|by apply safe_ret].
    eapply safe_bind; [|intros r _; apply safe_ret, reports_map].
    apply scatter_safe; [apply inside_refl|]. left. apply inside_refl.
  - eapply safe_bind; [|intros r _; apply safe_ret, reports_map].
    apply offload_safe. apply slice_allowed. left. apply inside_refl.
Qed.

Lemma partial_disk_read_safe live dst src_offset n read_op buf_size :
  0 ≤ src_offset → 0 ≤ n → src_offset + n ≤ buf_size →
  (∀ h p, r_allocate h buf_size = Some p →
     safe (λ w, inside w (dst, n)) ((p, buf_size) :: live) (read_op p) (λ _, True)) →
  safe (λ w, inside w (dst, n)) live (partial_disk_read dst src_offset n read_op buf_size)
    (reports_size n).
Proof using laws.
  intros Ho Hn Hb Hop. apply with_buffer_safe; [|done]. intros h p Hp.
  eapply safe_bind; [by eapply Hop|]. intros [[]|e] _; [|by apply safe_ret].
  eapply safe_bind; [|intros r _; apply safe_ret, reports_map].
  apply scatter_safe; [apply inside_refl|]. left.
  destruct (allocate_valid _ _ _ Hp). rewrite u64_add_small by lia. unfold inside. cbn. lia.
Qed.

Lemma read_partial_safe live c key dst src_offset n metadata :
  wf_metadata metadata → 0 ≤ src_offset → 0 ≤ n → src_offset + n ≤ rm_total_size metadata →
  safe (λ w, inside w (dst, n)) live (read_partial c key dst src_offset n metadata)
    (reports_size n).
Proof using laws.
  intros Hwf Ho Hn Ht. pose proof (total_size_range (rm_replica metadata)) as Hr.
  rewrite <-Hwf in Hr. unfold in_u64 in Hr. unfold read_partial.
  destruct (data (rm_replica metadata)) as [b|b|path m|ep m].
  - eapply safe_bind; [|intros r _; apply safe_ret, reports_map].
    eapply (on_client_quiet _ _ _ (λ w, w = (dst, n))).
    + apply get_range_safe. by repeat constructor.
    + intros w ->. left. apply inside_refl.
  - by apply safe_ret.
  - apply partial_disk_read_safe; [done..|]. intros h p Hp.
    eapply (get_slices_safe _ _ _ _ _ _ _ (p, rm_total_size metadata)).
    + rewrite Hwf. apply inside_refl.
    + right. by left.
    + intros w Hw Hi. by eapply inside_trans.
  - rewrite u64_add_small by lia. apply partial_disk_read_safe; [lia..|]. intros h p Hp.
    apply offload_safe, slice_allowed. right. left. apply inside_refl.
Qed.

Lemma effective_size_spec src_offset size total cap n :
  in_u64 total → in_u64 size → in_u64 src_offset → (cap = true → src_offset = 0) →
  effective_size src_offset size total cap = Some n →
  src_offset + n ≤ total ∧ 0 ≤ n ≤ size ∧ (cap = false → n = size).
Proof.
  unfold in_u64, effective_size. intros Ht Hs Ho Hcap. destruct cap.
  - rewrite Hcap by done. destruct (size <? total) eqn:E; [done|]. intros [= <-].
    bool_to_prop. split_and!; [lia..|done].
  - destruct (total <? size) eqn:E; cbn [orb]; [done|]. bool_to_prop.
    rewrite u64_sub_small by lia.
    destruct (total - size <? src_offset) eqn:E2; [done|]. intros [= <-]. bool_to_prop.
    split_and!; [lia..|done].
Qed.

(** All writes go to the destination range, or to live temporary buffers. *)
Lemma execute_safe live c key buffer dst_offset src_offset size metadata cap :
  wf_metadata metadata → in_u64 size → in_u64 src_offset → (cap = true → src_offset = 0) →
  safe (λ w, inside w (u64_add buffer dst_offset, size)) live
    (execute_ranged_read c key buffer dst_offset src_offset size metadata cap)
    (λ r, ∀ v, r = Ok v →
       src_offset + (if cap then rm_total_size metadata else size) ≤ rm_total_size metadata ∧
       v = to_i64 (if cap then rm_total_size metadata else size)).
Proof using laws.
  intros Hwf Hs Ho Hcap. unfold execute_ranged_read.
  pose proof (total_size_range (rm_replica metadata)) as Ht. rewrite <-Hwf in Ht.
  destruct (effective_size _ _ _ _) as [n|] eqn:E; [|by apply safe_ret].
  destruct (effective_size_spec _ _ _ _ _ Ht Hs Ho Hcap E) as (Hle & Hn & Hf).
  assert (Hn' : n = if cap then rm_total_size metadata else size).
  { destruct cap; [|auto]. unfold effective_size in E. by destruct (size <? _); simplify_eq. }
  rewrite <-Hn'.
  assert (Hsub : ∀ w, inside w (u64_add buffer dst_offset, n) →
                      inside w (u64_add buffer dst_offset, size)).
  { intros w Hw. eapply inside_trans; [exact Hw|]. unfold inside. cbn. lia. }
  eapply safe_mono; [exact Hsub|]. eapply safe_weaken with (Q := reports_size n).
  - destruct (_ && _) eqn:Ef.
    + apply andb_true_iff in Ef as [_ En]. apply Z.eqb_eq in En. rewrite En.
      by apply read_full_safe.
    + apply read_partial_safe; [done|apply Ho|lia|done].
  - intros r Hr v Hv. split; [done|]. by apply Hr.
Qed.

(** ** Many fragments *)

Definition wf_cached (r : expected RangedReadMetadata) : Prop := ∀ m, r = Ok m → wf_metadata m.

Lemma build_metadata_safe R live q :
  safe R live (build_ranged_read_metadata_from_query_result q) wf_cached.
Proof.
  intros h v evs. unfold build_ranged_read_metadata_from_query_result.
  destruct q as [q|e]; [|intros E; apply ret_inv in E as [-> ->]; done].
  case_bool_decide; [intros E; apply ret_inv in E as [-> ->]; done|].
  destruct (SelectBestReplica _ _) as [d|]; intros E; apply ret_inv in E as [-> ->];
    (split_and!; [done|done|]); [|done].
  intros m [= <-]. done.
Qed.

Lemma query_safe R live key : safe R live (on_client (Query key)) (λ _, True).
Proof. eapply (on_client_quiet _ _ _ (λ _, False)); [apply query_quiet|done]. Qed.

Definition wf_cache (cache : gmap string (expected RangedReadMetadata)) : Prop :=
  map_Forall (λ _, wf_cached) cache.

Lemma lookup_metadata_safe R live cache key :
  wf_cache cache →
  safe R live (lookup_metadata cache key) (λ r, wf_cache r.1 ∧ wf_cached r.2).
Proof.
  intros Hc. unfold lookup_metadata. destruct (cache !! key) as [m|] eqn:E.
  { apply safe_ret. split; [done|]. by eapply Hc. }
  eapply safe_bind; [apply query_safe|]. intros q _.
  eapply safe_bind; [apply build_metadata_safe|]. intros m Hm.
  apply safe_ret. split; [|done]. by apply map_Forall_insert_2.
Qed.

Lemma cache_query_result_safe R live now cache kq :
  wf_cache cache → safe R live (cache_query_result now cache kq) wf_cache.
Proof.
  intros Hc. destruct kq as [key [q|e]]; cbn [cache_query_result].
  - destruct (IsLeaseExpired q now); [by apply safe_ret|].
    eapply safe_bind; [apply build_metadata_safe|]. intros m Hm. apply safe_ret.
    destruct (cache !! key); [done|]. by apply map_Forall_insert_2.
  - apply safe_ret. destruct (cache !! key); [done|]. by apply map_Forall_insert_2.
Qed.

(** The offsets and sizes of a request are [size_t] values. *)
Definition wf_request (req : RangedRequest) : Prop :=
  u64_nested (q_dst_offsets req) ∧ u64_nested (q_src_offsets req) ∧ u64_nested (q_sizes req).

(** A buffer of the address space. *)
Definition valid_buffer (b n : Z) : Prop := 0 ≤ b ∧ 0 ≤ n ∧ b + n < u64_modulus.

Section Fragments.
Context (c : Client) (req : RangedRequest) (prepared : PreparedRangedReadRequest).
Context (Hreq : wf_request req).

Lemma read_fragment_safe live i j b n key m k :
  valid_buffer b n → wf_cached m →
  safe (λ w, inside w (b, n)) live (read_fragment c req prepared i j b n key m k) (λ _, True).
Proof using laws Hreq.
  intros (Hb & Hn & Hbn) Hm. destruct Hreq as (Hd & Hsrc & Hs).
  apply (u64_nested_at3 _ i j k) in Hd, Hsrc, Hs.
  unfold read_fragment. destruct (negb _); [by apply safe_ret|].
  destruct (_ && _) eqn:E; [by apply safe_ret|].
  destruct m as [m|e]; [|by apply safe_ret].
  eapply safe_mono; [|eapply safe_weaken; [by apply execute_safe; [apply Hm| | |]|done]].
  intros w Hw. eapply inside_trans; [exact Hw|]. unfold inside. cbn [fst snd].
  apply andb_false_iff in E as [E|E]; [apply Z.ltb_ge in E; left; unfold in_u64 in *; lia|].
  right. apply orb_false_iff in E as [E1 E2]. apply Z.ltb_ge in E1, E2. unfold in_u64 in *.
  rewrite u64_sub_small in E2 by lia. rewrite u64_add_small by lia. lia.
Qed.

Lemma read_key_safe live i b n cache jr :
  valid_buffer b n → wf_cache cache →
  safe (λ w, inside w (b, n)) live (read_key c req prepared i b n cache jr) (λ r, wf_cache r.1).
Proof using laws Hreq.
  intros Hb Hc. unfold read_key.
  eapply safe_bind; [by apply lookup_metadata_safe|]. intros cm [Hc' Hm].
  eapply safe_bind; [apply safe_mmap; intros k _; by apply read_fragment_safe|].
  intros row _. by apply safe_ret.
Qed.

(** The write goes to one of the request's buffers, within its capacity. *)
Definition in_buffers (buffers capacities : list Z) (w : Z * Z) : Prop :=
  w.2 ≤ 0 ∨ ∃ i b n, buffers !! i = Some b ∧ capacities !! i = Some n ∧ inside w (b, n).

Lemma read_buffer_safe live explicit capacities cache ir :
  length capacities = length (q_buffers req) →
  (∀ i b n, q_buffers req !! i = Some b → capacities !! i = Some n → valid_buffer b n) →
  wf_cache cache →
  safe (in_buffers (q_buffers req) capacities) live
    (read_buffer c req prepared explicit capacities cache ir) (λ r, wf_cache r.1).
Proof using laws Hreq.
  intros Hlen Hval Hc. unfold read_buffer. destruct (_ && _); [by apply safe_ret|].
  set (b := default 0 _). set (n := default 0 _).
  assert (Hb : valid_buffer b n ∧ (∀ w, inside w (b, n) → in_buffers (q_buffers req) capacities w)).
  { subst b n. destruct (q_buffers req !! ir.1) as [b|] eqn:Eb.
    - destruct (lookup_lt_is_Some_2 capacities ir.1) as [n En];
        [rewrite Hlen; by eapply lookup_lt_Some|].
      rewrite En. cbn. split; [by eapply Hval|]. intros w Hw. right. by exists ir.1, b, n.
    - rewrite lookup_ge_None_2 by (rewrite Hlen; by apply lookup_ge_None).
      cbn. split; [done|]. intros w [Hw|Hw]; left; cbn in *; lia. }
  destruct Hb as [Hb Hin]. eapply safe_mono; [exact Hin|].
  apply safe_mscan; [done|]. intros s x _ Hs. by apply read_key_safe.
Qed.
End Fragments.

Lemma get_into_ranges_internal_safe live rc req caps prepared_in cache :
  wf_request req →
  (∀ capacities i b n, resolve_capacities rc (q_buffers req) caps = Some capacities →
     q_buffers req !! i = Some b → capacities !! i = Some n → valid_buffer b n) →
  safe (λ w, ∃ capacities, resolve_capacities rc (q_buffers req) caps = Some capacities ∧
                           in_buffers (q_buffers req) capacities w) live
    (get_into_ranges_internal rc req caps prepared_in cache) (λ _, True).
Proof using laws.
  intros Hreq Hval. unfold get_into_ranges_internal.
  destruct (client_ rc) as [c|]; [|by apply safe_ret].
  set (prepared := match prepared_in with Some _ => _ | None => _ end).
  destruct (negb _); [by apply safe_ret|].
  destruct (resolve_capacities rc (q_buffers req) caps) as [capacities|] eqn:Ec;
    [|by apply safe_ret].
  assert (Hlen : length capacities = length (q_buffers req)).
  { unfold resolve_capacities in Ec. destruct caps as [caps|].
    - destruct (Nat.eqb_spec (length caps) (length (q_buffers req))); cbn in Ec; congruence.
    - injection Ec as <-. by rewrite length_fmap. }
  eapply safe_bind; [apply clock_safe|]. intros now _.
  eapply safe_bind; [apply (safe_mfold _ _ _ wf_cache)|].
  { apply map_Forall_empty. }
  { intros s x _ Hs. by apply cache_query_result_safe. }
  intros cache' Hc. eapply safe_bind; [|intros; by apply safe_ret].
  eapply safe_mono; [intros w Hw; exists capacities; split; [done|exact Hw]|].
  apply safe_mscan; [done|]. intros s x _ Hs. apply read_buffer_safe; [exact Hreq|exact Hlen| |]. { intros i b n. by apply Hval. }
  exact Hs.
Qed.

(** ** Buffers of the caller *)

(** The regions the real client may write for its own process. *)
Definition writable (rc : RealClient) (w : Z * Z) : Prop :=
  w.2 ≤ 0 ∨ (∃ b n, (b, n) ∈ registered_buffer_sizes_ rc ∧ inside w (b, n)) ∨
  (∃ r, local_buffer_region_ rc = Some r ∧ inside w (wr_base r, wr_size r)).

(** Registered buffers and the local buffer are ranges of the address space. *)
Definition wf_real_client (rc : RealClient) : Prop :=
  Forall (λ bn, valid_buffer bn.1 bn.2) (registered_buffer_sizes_ rc) ∧
  (∀ r, local_buffer_region_ rc = Some r → valid_buffer (wr_base r) (wr_size r)).

Lemma find_registered_spec bs target r :
  Forall (λ bn, valid_buffer bn.1 bn.2) bs → in_u64 target →
  find_registered bs target = Some r →
  (wr_base r, wr_size r) ∈ bs ∧ target = wr_base r + wr_offset r ∧
  0 ≤ wr_offset r < wr_size r ∧ valid_buffer (wr_base r) (wr_size r).
Proof.
  intros Hbs Ht. induction Hbs as [|[b n] bs Hb _ IH]; cbn [find_registered]; [done|].
  assert (Hrec : find_registered bs target = Some r →
    (wr_base r, wr_size r) ∈ (b, n) :: bs ∧ target = wr_base r + wr_offset r ∧
    0 ≤ wr_offset r < wr_size r ∧ valid_buffer (wr_base r) (wr_size r)).
  { intros E. destruct (IH E) as [? ?]. split; [by right|done]. }
  destruct (target <? b) eqn:E1; [done|]. unfold valid_buffer, in_u64 in *. cbn [fst snd] in Hb.
  bool_to_prop. rewrite u64_sub_small by lia.
  destruct (target - b <? n) eqn:E2; [|done]. intros [= <-]. bool_to_prop. cbn.
  split; [by left|]. lia.
Qed.

Lemma resolve_region_spec rc target r :
  wf_real_client rc → in_u64 target → resolve_writable_buffer_region rc target = Some r →
  target = wr_base r + wr_offset r ∧ 0 ≤ wr_offset r < wr_size r ∧
  valid_buffer (wr_base r) (wr_size r) ∧ (∀ w, inside w (wr_base r, wr_size r) → writable rc w).
Proof.
  intros [Hreg Hloc] Ht. unfold resolve_writable_buffer_region.
  destruct (find_registered _ target) as [r'|] eqn:E.
  { intros [= ->]. destruct (find_registered_spec _ _ _ Hreg Ht E) as (Hin & ? & ? & ?).
    do 3 (split; [done|]). intros w Hw. right. left. eauto. }
  destruct (local_buffer_region_ rc) as [l|] eqn:El; [|done].
  specialize (Hloc l eq_refl). unfold valid_buffer, in_u64 in *.
  destruct (wr_base l <=? target) eqn:E1; [|done]. bool_to_prop. rewrite u64_sub_small by lia.
  destruct (target - wr_base l <? wr_size l) eqn:E2; [|done]. intros [= <-]. bool_to_prop. cbn.
  do 3 (split; [lia|]). intros w Hw. right. right. eauto.
Qed.

(** C4: [get_into_ranges] is memory safe: every byte it writes lies in a registered buffer, in
    the client's local buffer or in a temporary buffer that is live at that moment, every
    copy reads from a live temporary buffer, and all temporary buffers are freed. *)
Theorem get_into_ranges_safe rc req cache h rs evs :
  wf_real_client rc → wf_request req → Forall in_u64 (q_buffers req) →
  get_into_ranges_internal rc req None None cache h = (rs, evs) →
  safe_trace (writable rc) [] evs ∧ live_after [] evs = [].
Proof using laws.
  intros Hrc Hreq Hbufs E.
  assert (Hcap : ∀ b n, b ∈ q_buffers req →
    match resolve_writable_buffer_region rc b with
    | None => 0 | Some region => u64_sub (wr_size region) (wr_offset region) end = n →
    valid_buffer b n ∧ (∀ w, inside w (b, n) → writable rc w)).
  { intros b n Hb <-. apply (proj1 (Forall_forall _ _) Hbufs) in Hb.
    destruct (resolve_writable_buffer_region rc b) as [r|] eqn:Er.
    - destruct (resolve_region_spec _ _ _ Hrc Hb Er) as (-> & Ho & Hv & Hw).
      unfold valid_buffer in *. rewrite u64_sub_small by lia. split; [lia|].
      intros w Hin. apply Hw. eapply inside_trans; [exact Hin|]. unfold inside. cbn. lia.
    - split; [unfold valid_buffer, in_u64 in *; lia|]. intros w Hin. left.
      unfold inside in Hin. cbn in Hin. lia. }
  assert (Hval : ∀ capacities i b n,
    resolve_capacities rc (q_buffers req) None = Some capacities →
    q_buffers req !! i = Some b → capacities !! i = Some n →
    valid_buffer b n ∧ (∀ w, inside w (b, n) → writable rc w)).
  { intros capacities i b n [= <-] Hb Hn.
    apply list_lookup_fmap_Some in Hn as (b' & Hn & Hb'). simplify_eq.
    eapply Hcap; [by eapply list_elem_of_lookup_2|done]. }
  destruct (get_into_ranges_internal_safe [] rc req None None cache Hreq
              (λ cs i b n H1 H2 H3, proj1 (Hval cs i b n H1 H2 H3)) h rs evs E) as (Hs & Hl & _).
  split; [|done]. eapply safe_trace_mono; [|exact Hs].
  intros w (capacities & Hcaps & [Hw|(i & b & n & Hb & Hn & Hw)]); [by left|].
  by eapply Hval.
Qed.

(** ** Buffers of a dummy client *)

Definition in_shms (shms : list MappedShm) (w : Z * Z) : Prop :=
  w.2 ≤ 0 ∨ ∃ s, s ∈ shms ∧ inside w (shm_buffer s, shm_size s).

Lemma map_addrs_spec shms addrs sizes ptrs :
  Forall wf_shm shms → Forall in_u64 addrs → Forall in_u64 sizes →
  map_dummy_addrs_to_real_ptrs shms addrs sizes = Ok ptrs →
  length ptrs = length sizes ∧
  (∀ i b n, ptrs !! i = Some b → sizes !! i = Some n →
     valid_buffer b n ∧ ∃ s, s ∈ shms ∧ inside (b, n) (shm_buffer s, shm_size s)).
Proof.
  intros Hwf Ha Hn. unfold map_dummy_addrs_to_real_ptrs.
  destruct (Nat.eqb_spec (length addrs) (length sizes)) as [Hlen|]; cbn [negb]; [|done].
  destruct (map_row shms None (zip addrs sizes)).1 as [l|] eqn:E; [|done]. intros [= ->].
  pose proof (map_row_sound shms Hwf _ None _ (zip_u64 _ _ Ha Hn) ltac:(done) E) as Hptrs.
  split; [apply Forall2_length in Hptrs; rewrite length_zip_with in Hptrs; lia|].
  intros i b n Eb En.
  destruct (Forall2_lookup_r _ _ _ _ _ Hptrs Eb) as ([a n'] & Elookup & s & Hs & [Hlo Hhi] & ->).
  apply lookup_zip_Some in Elookup as [Ea' En']. simplify_eq. cbn [fst snd] in *.
  destruct (proj1 (Forall_forall _ _) Hwf s Hs) as (? & ? & ? & ? & ? & _).
  apply (Forall_lookup_1 _ _ _ _ Hn) in En. unfold in_u64, valid_buffer, rebase in *.
  split; [lia|]. exists s. split; [done|]. unfold inside. cbn. lia.
Qed.

(** A ranged read for a dummy client is memory safe: every byte it writes lies in memory
    that this client shared, or in a temporary buffer that is live at that moment, and all
    temporary buffers are freed. *)
Theorem get_into_ranges_shm_safe rc req cached client_id context h rs evs :
  let shms := mapped_shms context in
  shm_contexts_ rc !! client_id = Some context → Forall wf_shm shms →
  wf_request req → Forall in_u64 (q_buffers req) →
  get_into_ranges_shm_helper rc req cached client_id h = (rs, evs) →
  safe_trace (in_shms shms) [] evs ∧ live_after [] evs = [].
Proof using laws.
  intros shms Hctx Hwf Hreq Hbufs.
  assert (Hsafe : safe (in_shms shms) [] (get_into_ranges_shm_helper rc req cached client_id)
                    (λ _, True)); [|intros E; by destruct (Hsafe _ _ _ E) as (? & ? & _)].
  unfold get_into_ranges_shm_helper.
  set (p := prepare_ranged_read_request _ _ _ _ _).
  destruct (top_level_valid p) eqn:Hp; cbn [negb]; [|by apply safe_ret].
  rewrite Hctx. destruct (negb _); [by apply safe_ret|].
  destruct (map_dummy_addrs_to_real_ptrs _ _ _) as [ptrs|e] eqn:Em; [|by apply safe_ret].
  pose proof Hreq as (Hd & _ & Hz).
  destruct (prepare_required _ _ _ _ _ Hd Hz Hp) as [Hlen Hu]. fold p in Hlen, Hu.
  destruct (map_addrs_spec _ _ _ _ Hwf Hbufs Hu Em) as [Hl Hval].
  unfold build_query_result_cache_from_cached_results.
  eapply safe_bind with (Q := λ _, True).
  { eapply safe_bind; [apply clock_safe|]. intros; by apply safe_ret. }
  intros cache _. eapply safe_mono; [|apply get_into_ranges_internal_safe; [exact Hreq|]].
  - intros w (caps & Hcaps & Hw). cbn [resolve_capacities q_buffers] in *.
    destruct (negb _); [done|]. injection Hcaps as <-.
    destruct Hw as [Hw|(i & b & n & Hb & Hn & Hw)]; [by left|]. right.
    destruct (Hval i b n Hb Hn) as (_ & s & Hs & Hin). exists s. split; [done|].
    by eapply inside_trans.
  - intros caps i b n Hcaps Hb Hn. cbn [resolve_capacities q_buffers] in *.
    destruct (negb _); [done|]. injection Hcaps as <-. by apply (Hval i).
Qed.
End Safety.

(** ** A concrete real client *)

(** Allocations of up to 4 KiB succeed, at one address; objects are one slice. *)
Definition sample_real (endpoints : list string) : RealServices := {|
  r_allocate := λ _ n, if bool_decide (0 ≤ n ≤ 4096) then Some 1048576 else None;
  r_device_of := λ _, None;
  r_is_host := λ _, true;
  r_copy_h2d := λ _ _ _ _, true;
  r_offload_get := λ _ _ ks _, Ok (MkOffload 1 ((λ _, 0) <$> ks) "peer:1" 1000);
  r_offload_submit := λ _ _ _ _ _, Some 7;
  r_local_endpoints := λ _, endpoints;
  r_storage_key := λ k, k;
  calculate_total_size := λ d, u64 (replica_total_size d);
  allocateSlices := λ d p, [MkSlice p (u64 (replica_total_size d))];
  split_into_slices := λ p n, [MkSlice p n];
  kMaxSliceSize := 16 |}.

#[export] Instance sample_real_laws endpoints : @RealServicesLaws (sample_real endpoints).
Proof.
  split; cbn.
  - intros _ n p. case_bool_decide; [|done]. intros [= <-]. unfold u64_modulus. lia.
  - intros d. apply u64_range.
  - intros d p s Hs. apply list_elem_of_singleton in Hs as ->. apply inside_refl.
Qed.

Definition disk_object : Descriptor := MkDescriptor COMPLETE (DiskReplica "/f" 8).

(** One registered buffer of 64 bytes; client 1 shares 4 KiB with us. *)
Definition sample_real_client : RealClient :=
  MkRealClient (Some sample_client) [(8192, 64)] None (Some (@r_allocate (sample_real [])))
    {[ (1, 1) := MkShmContext [MkShm "a" 4096 8192 4096 4096] None ∅ ]}.

(** The whole object at offset 0 of the buffer, bytes 2 to 5 at offset 16, and a
    fragment that does not fit. *)
Definition sample_request (buffer : Z) : RangedRequest :=
  MkRequest [buffer] [["k"]] [[[0; 16; 62]]] [[[0; 2; 0]]] [[[8; 4; 8]]].

Lemma sample_request_wf buffer : wf_request (sample_request buffer).
Proof. repeat constructor; done. Qed.

Abbreviation sample_ranges :=
  (@get_into_ranges_internal (sample_master [disk_object]) (sample_submitter [])
     (sample_cache None) (sample_clock 0) (sample_real []) sample_real_client
     (sample_request 8192) None None None []).

Lemma get_into_ranges_safe_witness :
  sample_ranges.1 = [[[Ok 8; Ok 4; Err INVALID_PARAMS]]] ∧
  safe_trace (writable sample_real_client) [] sample_ranges.2 ∧
  live_after [] sample_ranges.2 = [].
Proof.
  split; [by vm_compute|].
  apply (@get_into_ranges_safe (sample_master [disk_object]) (sample_submitter [])
           (sample_cache None) (sample_clock 0) (sample_real []) (sample_real_laws [])
           sample_real_client (sample_request 8192) None []
           [[[Ok 8; Ok 4; Err INVALID_PARAMS]]]).
  - split; [|done]. repeat constructor; done.
  - apply sample_request_wf.
  - repeat constructor; done.
  - by vm_compute.
Defined.

Abbreviation sample_shm_ranges :=
  (@get_into_ranges_shm_helper (sample_master [disk_object]) (sample_submitter [])
     (sample_cache None) (sample_clock 0) (sample_real []) sample_real_client
     (sample_request 4096) [] (1, 1) []).

Lemma get_into_ranges_shm_safe_witness :
  sample_shm_ranges.1 = [[[Ok 8; Ok 4; Ok 8]]] ∧
  safe_trace (in_shms [MkShm "a" 4096 8192 4096 4096]) [] sample_shm_ranges.2 ∧
  live_after [] sample_shm_ranges.2 = [].
Proof.
  split; [by vm_compute|].
  apply (@get_into_ranges_shm_safe (sample_master [disk_object]) (sample_submitter [])
           (sample_cache None) (sample_clock 0) (sample_real []) (sample_real_laws [])
           sample_real_client (sample_request 4096) [] (1, 1)
           (MkShmContext [MkShm "a" 4096 8192 4096 4096] None ∅) [] [[[Ok 8; Ok 4; Ok 8]]]).
  - reflexivity.
  - constructor; [unfold wf_shm; vm_compute; intuition congruence|constructor].
  - apply sample_request_wf.
  - repeat constructor; done.
  - by vm_compute.
Defined.
