(* ===== verification/RangedDelivery.v ===== *)
(** * What a ranged read delivers

    The replica a read uses, what it means that a fragment was read, and how
    often the master is asked. *)

From S2P Require Import Prelude CxxString StoreTypes ReplicaPolicy Samples PutPath GetPath GetSpec DummyMap RangedRead RangedPrepare RangedReadSpec.
From stdpp Require Import base strings list sets gmap.
From Stdlib Require Import ZArith Lia.

#[local] Open Scope Z_scope.
#[local] Set Default Proof Using "Type".

(** ** The best replica *)

Section Select.
Context (local_endpoints : list string).

(** Preference of a replica, lower is better: on this host, in memory, on an
    NVMe-oF target, on the SSD of a peer, in a file. *)
Definition rank (r : Descriptor) : nat :=
  if is_local memory_endpoint local_endpoints r || is_local nof_endpoint local_endpoints r then 0
  else match data r with
       | MemoryReplica _ => 1
       | NofReplica _ => 2
       | LocalDiskReplica _ _ => 3
       | DiskReplica _ _ => 4
       end.

Definition usable (p : Descriptor → bool) (r : Descriptor) : bool := is_complete r && p r.

Lemma scan_memory_inl rs m n r :
  scan_memory local_endpoints rs m n = inl r → r ∈ rs ∧ is_complete r = true ∧ rank r = 0%nat.
Proof.
  revert m n. induction rs as [|x rs IH]; intros m n; cbn [scan_memory]; [done|].
  assert (Hrec : ∀ m n, scan_memory local_endpoints rs m n = inl r →
                        r ∈ x :: rs ∧ is_complete r = true ∧ rank r = 0%nat).
  { intros m' n' E. destruct (IH m' n' E) as (? & ? & ?). split; [by right|done]. }
  destruct (is_complete x) eqn:Hx; cbn [negb]; [|apply Hrec].
  destruct (is_memory_replica x); [destruct (is_local memory_endpoint _ x) eqn:Hl|
    destruct (is_nof_replica x); [destruct (is_local nof_endpoint _ x) eqn:Hl|]]; try apply Hrec.
  all: intros [= <-]; split_and!; [by left|done|]; unfold rank; rewrite Hl;
    by rewrite ?orb_true_r.
Qed.

Lemma rank_positive r :
  is_local memory_endpoint local_endpoints r = false →
  is_local nof_endpoint local_endpoints r = false → (0 < rank r)%nat.
Proof. intros H1 H2. unfold rank. rewrite H1, H2. cbn. destruct (data r); lia. Qed.

Lemma scan_memory_inr rs m n m' n' :
  scan_memory local_endpoints rs m n = inr (m', n') →
  Forall (λ r, is_complete r = true → (0 < rank r)%nat) rs ∧
  m' = (match m with Some x => Some x | None => List.find (usable is_memory_replica) rs end) ∧
  n' = (match n with Some x => Some x | None => List.find (usable is_nof_replica) rs end).
Proof.
  revert m n. induction rs as [|x rs IH]; intros m n; cbn [scan_memory List.find].
  { intros [= <- <-]. split; [constructor|]. by destruct m, n. }
  rewrite Forall_cons.
  assert (Hx : ∀ p, usable p x = is_complete x && p x) by done. rewrite !Hx. clear Hx.
  assert (Hd : ∀ (f : Descriptor → option string), f x = None → is_local f local_endpoints x = false)
    by (intros f Hf; unfold is_local; by rewrite Hf).
  destruct (is_complete x) eqn:Hc; cbn [negb andb]; cycle 1.
  { intros E. apply IH in E as (HF & -> & ->). split; [|done]. done. }
  pose proof (Hd memory_endpoint) as Hm. pose proof (Hd nof_endpoint) as Hn. clear Hd.
  assert (Hem : is_memory_replica x = false → memory_endpoint x = None)
    by (unfold is_memory_replica, memory_endpoint; by destruct (data x)).
  assert (Hen : is_nof_replica x = false → nof_endpoint x = None)
    by (unfold is_nof_replica, nof_endpoint; by destruct (data x)).
  destruct (is_memory_replica x) eqn:Em; [|destruct (is_nof_replica x) eqn:En].
  - destruct (is_local memory_endpoint _ x) eqn:Hl; [done|].
    assert (En : is_nof_replica x = false)
      by (unfold is_memory_replica, is_nof_replica in *; by destruct (data x)).
    rewrite En.
    intros E. apply IH in E as (HF & -> & ->). split.
    + split; [|done]. intros _. apply rank_positive; auto.
    + by destruct m, n.
  - destruct (is_local nof_endpoint _ x) eqn:Hl; [done|].
    intros E. apply IH in E as (HF & -> & ->). split.
    + split; [|done]. intros _. apply rank_positive; auto.
    + by destruct m, n.
  - intros E. apply IH in E as (HF & -> & ->). split; [|by destruct m, n].
    split; [|done]. intros _. apply rank_positive; auto.
Qed.

(** The second loop takes the last local-disk replica, else the first file. *)
Lemma better_disk_fold rs best :
  fold_left better_disk rs best =
    match last (List.filter (usable is_local_disk_replica) rs) with
    | Some r => Some r
    | None => match best with Some b => Some b | None => List.find (usable is_disk_replica) rs end
    end.
Proof.
  revert best. induction rs as [|x rs IH]; intros best; cbn [fold_left List.filter List.find].
  { by destruct best. }
  rewrite IH. unfold better_disk.
  assert (Hx : ∀ p, usable p x = is_complete x && p x) by done. rewrite !Hx. clear Hx.
  destruct (is_complete x); cbn [negb andb]; [|done].
  destruct (is_local_disk_replica x) eqn:El.
  - rewrite last_cons. by destruct (last _).
  - destruct (last _); [done|]. destruct (is_disk_replica x); cbn [andb]; [|done].
    by destruct best.
Qed.

(** Bounds on the rank by the kind of the replica. *)
Lemma rank_kind r :
  (is_memory_replica r = true → (rank r ≤ 1)%nat) ∧
  (is_nof_replica r = true → (rank r ≤ 2)%nat) ∧
  (is_local_disk_replica r = true → rank r = 3%nat) ∧
  (is_disk_replica r = true → rank r = 4%nat).
Proof.
  unfold rank, is_memory_replica, is_nof_replica, is_local_disk_replica, is_disk_replica,
    is_local, memory_endpoint, nof_endpoint.
  destruct (data r); cbn; repeat split; intros; try discriminate; try reflexivity.
  all: repeat (case_bool_decide; cbn); lia.
Qed.

Lemma rank_least r :
  (0 < rank r)%nat → (is_memory_replica r = false → (2 ≤ rank r)%nat) ∧
  (is_memory_replica r = false → is_nof_replica r = false → (3 ≤ rank r)%nat) ∧
  (is_memory_replica r = false → is_nof_replica r = false → is_local_disk_replica r = false →
   rank r = 4%nat).
Proof.
  unfold rank. destruct (_ || _); [lia|].
  unfold is_memory_replica, is_nof_replica, is_local_disk_replica.
  destruct (data r); repeat split; intros; lia || discriminate.
Qed.

Lemma usable_none p rs r :
  List.find (usable p) rs = None → r ∈ rs → is_complete r = true → p r = false.
Proof.
  intros E Hr Hc. apply list_elem_of_In in Hr. pose proof (find_none _ _ E r Hr) as H.
  unfold usable in H. by rewrite Hc in H.
Qed.

Lemma usable_some p rs r :
  List.find (usable p) rs = Some r → r ∈ rs ∧ is_complete r = true ∧ p r = true.
Proof.
  intros E. apply find_some in E as [Hin Hu]. unfold usable in Hu. apply andb_true_iff in Hu.
  split; [by apply list_elem_of_In|done].
Qed.

(** What [SelectBestReplica] returns. *)
Lemma select_best_spec rs :
  match SelectBestReplica rs local_endpoints with
  | Some r => r ∈ rs ∧ is_complete r = true ∧
              ∀ r', r' ∈ rs → is_complete r' = true → (rank r ≤ rank r')%nat
  | None => ∀ r, r ∈ rs → is_complete r = false
  end.
Proof.
  unfold SelectBestReplica. destruct (scan_memory local_endpoints rs None None) as [r|[m n]] eqn:E.
  { apply scan_memory_inl in E as (? & ? & Hr). split_and!; [done..|]. intros. lia. }
  apply scan_memory_inr in E as (Hpos & -> & ->). rewrite Forall_forall in Hpos.
  destruct (List.find (usable is_memory_replica) rs) as [r|] eqn:Em.
  { apply usable_some in Em as (? & ? & Hm). split_and!; [done..|]. intros r' Hr' Hc'.
    pose proof (Hpos r' Hr' Hc'). pose proof (proj1 (rank_kind r) Hm). lia. }
  destruct (List.find (usable is_nof_replica) rs) as [r|] eqn:En.
  { apply usable_some in En as (? & ? & Hn). split_and!; [done..|]. intros r' Hr' Hc'.
    destruct (rank_least r' (Hpos r' Hr' Hc')) as [H2 _].
    pose proof (proj1 (proj2 (rank_kind r)) Hn). specialize (H2 (usable_none _ _ _ Em Hr' Hc')). lia. }
  rewrite better_disk_fold.
  assert (Hfil : ∀ r, r ∈ List.filter (usable is_local_disk_replica) rs ↔
                      r ∈ rs ∧ is_complete r = true ∧ is_local_disk_replica r = true).
  { intros r. rewrite !list_elem_of_In, filter_In. unfold usable. rewrite andb_true_iff. tauto. }
  assert (H3 : ∀ r', r' ∈ rs → is_complete r' = true → (3 ≤ rank r')%nat ∧
                (is_local_disk_replica r' = false → rank r' = 4%nat)).
  { intros r' Hr' Hc'. destruct (rank_least r' (Hpos r' Hr' Hc')) as (_ & H3 & H4).
    pose proof (usable_none _ _ _ Em Hr' Hc'). pose proof (usable_none _ _ _ En Hr' Hc'). auto. }
  destruct (last _) as [r|] eqn:El.
  { apply last_Some_elem_of, Hfil in El as (? & ? & Hl). split_and!; [done..|].
    intros r' Hr' Hc'. destruct (rank_kind r) as (_ & _ & Hk & _). rewrite (Hk Hl).
    by apply H3. }
  assert (Hnl : ∀ r', r' ∈ rs → is_complete r' = true → is_local_disk_replica r' = false).
  { intros r' Hr' Hc'. apply last_None in El. destruct (is_local_disk_replica r') eqn:Er; [|done].
    assert (Hin : r' ∈ List.filter (usable is_local_disk_replica) rs) by (by apply Hfil).
    rewrite El in Hin. by apply elem_of_nil in Hin. }
  destruct (List.find (usable is_disk_replica) rs) as [r|] eqn:Ed.
  { apply usable_some in Ed as (? & ? & Hd). split_and!; [done..|]. intros r' Hr' Hc'.
    destruct (rank_kind r) as (_ & _ & _ & Hk). rewrite (Hk Hd).
    destruct (H3 r' Hr' Hc') as [_ H4]. by rewrite H4 by auto. }
  intros r Hr. destruct (is_complete r) eqn:Hc; [|done].
  pose proof (usable_none _ _ _ Em Hr Hc) as E1. pose proof (usable_none _ _ _ En Hr Hc) as E2.
  pose proof (usable_none _ _ _ Ed Hr Hc) as E3. pose proof (Hnl r Hr Hc) as E4.
  unfold is_memory_replica, is_nof_replica, is_disk_replica, is_local_disk_replica in *.
  by destruct (data r).
Qed.

(** [SelectBestReplica] returns a complete replica of the list that no other complete
    replica outranks, and returns nothing only if the list has no complete replica. *)
Theorem select_best_rank rs :
  match SelectBestReplica rs local_endpoints with
  | Some r => r ∈ rs ∧ is_complete r = true ∧
              ∀ r', r' ∈ rs → is_complete r' = true → (rank r ≤ rank r')%nat
  | None => ∀ r, r ∈ rs → is_complete r = false
  end.
Proof. apply select_best_spec. Qed.
End Select.

(** ** What a successful fragment means *)

Section Delivery.
Context `{!MasterClient, !TransferSubmitter, !HotCache, !StorageBackend, !Clock, !RealServices}.
Context (c : Client).

Definition client_trace (evs : list real_event) : list event := omap client_event evs.

(** The store client read [replica] (or its copy in the hot cache) into [slices]. *)
Definition got (key : ObjectKey) (slices : list Slice) (replica : Descriptor)
    (evs : list real_event) : Prop :=
  ∃ d, serves c (client_trace evs) key replica d ∧ replica_read slices (client_trace evs) d.

(** The store client read a range of [replica] into one slice. *)
Definition got_range (slice : Slice) (src_offset : Z) (replica : Descriptor)
    (evs : list real_event) : Prop :=
  ∃ f, infix [ETransfer (SubmitRangeRead replica [slice] src_offset (Some f));
              ETransfer (FutureGet f OK)] (client_trace evs).

(** A peer's SSD copy of [key] was transferred into [slices]. *)
Definition fetched (key : ObjectKey) (slices : list Slice) (evs : list real_event) : Prop :=
  ∃ addr pointers f, ROffloadSubmit addr [key] pointers [(key, slices)] (Some f) ∈ evs ∧
    RClient (ETransfer (FutureGet f OK)) ∈ evs.

Definition copied (dst src n : Z) (evs : list real_event) : Prop :=
  RMemcpy dst src n ∈ evs ∨ RCopyHostToDevice dst src n true ∈ evs.

(** Bytes [src_offset, src_offset + n) of the object arrived at [dst]. *)
Definition delivered (key : ObjectKey) (dst src_offset n : Z) (m : RangedReadMetadata)
    (evs : list real_event) : Prop :=
  let r := rm_replica m in
  let full := (src_offset =? 0) && (n =? rm_total_size m) in
  match data r with
  | MemoryReplica _ =>
      if full then got key (allocateSlices r dst) r evs
      else ∃ d, FindFirstCompleteReplica (replicas (rm_query_result m)) = Some d ∧
                is_memory_replica d = true ∧ got_range (MkSlice dst n) src_offset d evs
  | NofReplica _ => full = true ∧ got key (allocateSlices r dst) r evs
  | DiskReplica _ _ =>
      ∃ tmp, RAllocate (rm_total_size m) (Some tmp) ∈ evs ∧
             got key (allocateSlices r tmp) r evs ∧ copied dst (u64_add tmp src_offset) n evs
  | LocalDiskReplica _ _ =>
      if full then fetched key [MkSlice dst n] evs
      else ∃ tmp, RAllocate (u64_add src_offset n) (Some tmp) ∈ evs ∧
             fetched key [MkSlice tmp (u64_add src_offset n)] evs ∧
             copied dst (u64_add tmp src_offset) n evs
  end.

(** *** Delivery survives the calls around it *)

Lemma client_trace_app e1 e2 : client_trace (e1 ++ e2) = client_trace e1 ++ client_trace e2.
Proof. apply omap_app. Qed.

Lemma serves_app key r d e1 e e2 : serves c e key r d → serves c (e1 ++ e ++ e2) key r d.
Proof.
  intros [->|(b & blk & H5 & H6 & H7 & ->)]; [by left|]. right. exists b, blk.
  split_and!; [done|done|set_solver|done].
Qed.

Lemma got_app key ss r e1 e e2 : got key ss r e → got key ss r (e1 ++ e ++ e2).
Proof.
  intros (d & Hs & f & Hf). exists d. rewrite !client_trace_app.
  split; [by apply serves_app|]. exists f. auto with mooncake.
Qed.

Lemma fetched_app key ss e1 e e2 : fetched key ss e → fetched key ss (e1 ++ e ++ e2).
Proof. intros (a & p & f & H5 & H6). exists a, p, f. set_solver. Qed.

Lemma copied_app dst src n e1 e e2 : copied dst src n e → copied dst src n (e1 ++ e ++ e2).
Proof. unfold copied. set_solver. Qed.

(** *** The parts of a read *)

Lemma with_buffer_ok n body h v evs :
  with_buffer n body h = (Ok v, evs) →
  ∃ p h' e, r_allocate h n = Some p ∧ body p h' = (Ok v, e) ∧
            evs = RAllocate n (Some p) :: e ++ [RFree p].
Proof.
  unfold with_buffer, with_handle. intros E. apply bind_inv in E as (a & ? & ? & E1 & E2 & ->).
  apply call_inv in E1 as [-> ->]. destruct (r_allocate h n) as [p|] eqn:Ea;
    [|by apply ret_inv in E2 as [? _]].
  apply bind_inv in E2 as (r & e3 & ? & E3 & E4 & ->).
  apply bind_inv in E4 as (u & ? & ? & E5 & E6 & ->).
  apply call_inv in E5 as [_ ->]. apply ret_inv in E6 as [-> ->].
  eexists p, _, e3. split_and!; [done|exact E3|done].
Qed.

Lemma scatter_ok dst src n h u evs :
  scatter_host_to_maybe_device dst src n h = (Ok u, evs) → copied dst src n evs.
Proof.
  unfold scatter_host_to_maybe_device. destruct (r_device_of dst) as [id|].
  - intros E. apply bind_inv in E as (? & ? & ? & E1 & E2 & ->). apply call_inv in E1 as [_ ->].
    apply bind_inv in E2 as (ok & ? & ? & E3 & E4 & ->). apply call_inv in E3 as [_ ->].
    apply ret_inv in E4 as [E5 ->]. destruct ok; [|done]. right. set_solver.
  - destruct (r_is_host dst); intros E; [|by apply ret_inv in E as [? _]].
    apply bind_inv in E as (? & ? & ? & E1 & E2 & ->). apply call_inv in E1 as [_ ->]. left.
    set_solver.
Qed.

Lemma offload_ok addr key ss h u evs :
  batch_get_into_offload_object_internal addr [(key, ss)] h = (Ok u, evs) → fetched key ss evs.
Proof.
  unfold batch_get_into_offload_object_internal. intros E.
  apply bind_inv in E as (t0 & ? & ? & E1 & E2 & ->).
  apply bind_inv in E2 as (resp & ? & ? & E3 & E4 & ->). apply call_inv in E3 as [_ ->].
  destruct resp as [resp|e]; [|by apply ret_inv in E4 as [? _]].
  destruct (negb _); [by apply ret_inv in E4 as [? _]|].
  apply bind_inv in E4 as (r & ? & ? & E5 & E6 & ->).
  apply bind_inv in E6 as (t1 & ? & ? & E7 & E8 & ->).
  apply bind_inv in E8 as (? & ? & ? & E9 & E10 & ->).
  destruct r as [[]|e]; [|by apply ret_inv in E10 as [? _]].
  unfold Client_BatchGetOffloadObject in E5.
  apply bind_inv in E5 as (fo & ? & ? & E11 & E12 & ->). apply call_inv in E11 as [_ ->].
  destruct fo as [f|]; [|by apply ret_inv in E12 as [? _]].
  apply bind_inv in E12 as (res & ? & ? & E13 & E14 & ->).
  apply lift_inv in E13 as (? & E13 & ->). apply call_inv in E13 as [_ ->].
  apply ret_inv in E14 as [E15 ->]. case_bool_decide as Hok; [|done]. subst res.
  exists (ol_transfer_engine_addr resp), (ol_pointers resp), f. set_solver.
Qed.

Lemma client_trace_lift evs : client_trace (RClient <$> evs) = evs.
Proof. unfold client_trace. induction evs as [|e evs IH]; [done|]. cbn. by rewrite IH. Qed.

Lemma get_ok key q r ss h u evs :
  is_complete r = true →
  on_client (Get_query c key (FilterQueryResult q r) ss) h = (Ok u, evs) → got key ss r evs.
Proof.
  intros Hc E. apply lift_inv in E as (evs' & E & ->). unfold got. rewrite client_trace_lift.
  assert (Hfind : FindFirstCompleteReplica (replicas (FilterQueryResult q r)) = Some r).
  { unfold FindFirstCompleteReplica. cbn. by rewrite Hc. }
  apply Get_query_run in E as [(E & _)|E]; [congruence|].
  destruct E as (r' & d & used & err & h2 & e1 & e2 & e3 & e4 & Hf & Hl & Ht & _ & _ & ->
    & [(_ & ? & _)|(-> & _)]); [done|].
  rewrite Hfind in Hf. injection Hf as <-.
  apply lookup_cache_run in Hl as (Hs & _). apply TransferRead_OK in Ht as [_ [f Hf]].
  exists d. split; [apply (serves_app _ _ _ [] e1 _), Hs|]. exists f. auto with mooncake.
Qed.

Lemma get_range_ok key q ss off h u evs :
  on_client (Get_range c key q [ss] off) h = (Ok u, evs) →
  ∃ d, FindFirstCompleteReplica (replicas q) = Some d ∧ is_memory_replica d = true ∧
       got_range ss off d evs.
Proof.
  intros E. apply lift_inv in E as (evs' & E & ->). unfold got_range, Get_range in *.
  rewrite client_trace_lift.
  destruct (FindFirstCompleteReplica (replicas q)) as [d|]; [|by apply ret_inv in E as [? _]].
  exists d. split; [done|]. destruct (is_memory_replica d); cbn [negb] in E;
    [|by apply ret_inv in E as [? _]]. split; [done|].
  apply bind_inv in E as (err & e1 & e2 & E1 & E2 & ->).
  case_bool_decide as Herr; cbn [negb] in E2; [|by apply ret_inv in E2 as [? _]]. subst err.
  unfold TransferReadRange, TransferReadInternal in E1.
  destruct (negb _); [by apply ret_inv in E1 as [? _]|].
  apply bind_inv in E1 as (fo & ? & ? & E3 & E4 & ->). apply call_inv in E3 as [_ ->].
  destruct fo as [f|]; [|by apply ret_inv in E4 as [? _]].
  apply call_inv in E4 as [_ ->]. exists f. auto with mooncake.
Qed.

Lemma result_map_ok {A B} (f : A → B) (r : expected A) v :
  Ok v = result_map f r → ∃ a, r = Ok a ∧ v = f a.
Proof. destruct r as [a|e]; [intros [= ->]; eauto|done]. Qed.

Lemma partial_disk_read_ok dst src_offset n read_op buf_size h v evs :
  partial_disk_read dst src_offset n read_op buf_size h = (Ok v, evs) →
  ∃ tmp h' e1 e2, RAllocate buf_size (Some tmp) ∈ evs ∧ read_op tmp h' = (Ok tt, e1) ∧
    copied dst (u64_add tmp src_offset) n e2 ∧
    evs = [RAllocate buf_size (Some tmp)] ++ e1 ++ e2 ++ [RFree tmp].
Proof.
  intros E. apply with_buffer_ok in E as (tmp & h' & e & _ & E & ->).
  apply bind_inv in E as (r & e1 & e2 & E1 & E2 & ->).
  destruct r as [[]|e]; [|by apply ret_inv in E2 as [? _]].
  apply bind_inv in E2 as (r & e3 & e4 & E3 & E4 & ->).
  apply ret_inv in E4 as [E4 ->]. apply result_map_ok in E4 as (a & -> & _).
  exists tmp, h', e1, e3. split_and!; [by left|done|by eapply scatter_ok|].
  rewrite app_nil_r. cbn. by rewrite <-app_assoc.
Qed.

Context {laws : RealServicesLaws}.

Lemma read_full_delivers key dst m h v evs :
  wf_metadata m → is_complete (rm_replica m) = true →
  read_full c key dst (rm_total_size m) m h = (Ok v, evs) →
  delivered key dst 0 (rm_total_size m) m evs.
Proof using laws.
  intros Hwf Hc. pose proof (total_size_range (rm_replica m)) as Ht. rewrite <-Hwf in Ht.
  unfold read_full, delivered. rewrite !Z.eqb_refl. cbn [andb].
  destruct (data (rm_replica m)) as [b|b|path sz|ep sz]; intros E.
  - apply bind_inv in E as (r & e1 & ? & E & E2 & ->). apply ret_inv in E2 as [E2 ->].
    apply result_map_ok in E2 as (a & -> & _). rewrite app_nil_r. by eapply get_ok.
  - apply bind_inv in E as (r & e1 & ? & E & E2 & ->). apply ret_inv in E2 as [E2 ->].
    apply result_map_ok in E2 as (a & -> & _). rewrite app_nil_r. split; [done|]. by eapply get_ok.
  - apply with_buffer_ok in E as (tmp & h' & e & Ha & E & ->). exists tmp.
    split; [by left|].
    apply bind_inv in E as (r & e1 & e2 & E1 & E2 & ->).
    destruct r as [[]|]; [|by apply ret_inv in E2 as [? _]].
    apply bind_inv in E2 as (r & e3 & e4 & E3 & E4 & ->).
    apply ret_inv in E4 as [E4 ->]. apply result_map_ok in E4 as (a & -> & _).
    rewrite app_nil_r, <-app_assoc. split.
    + apply (got_app _ _ _ [RAllocate _ (Some tmp)]). by eapply get_ok.
    + destruct (allocate_valid _ _ _ Ha). unfold in_u64 in Ht.
      rewrite u64_add_small, Z.add_0_r by lia. apply (copied_app _ _ _ (RAllocate _ (Some tmp) :: e1)). by eapply scatter_ok.
  - apply bind_inv in E as (r & e1 & ? & E & E2 & ->). apply ret_inv in E2 as [E2 ->].
    apply result_map_ok in E2 as (a & -> & _). rewrite app_nil_r. by eapply offload_ok.
Qed.

Lemma read_partial_delivers key dst src_offset n m h v evs :
  is_complete (rm_replica m) = true →
  (src_offset =? 0) && (n =? rm_total_size m) = false →
  read_partial c key dst src_offset n m h = (Ok v, evs) →
  delivered key dst src_offset n m evs.
Proof.
  intros Hc Hf. unfold read_partial, delivered. rewrite Hf.
  destruct (data (rm_replica m)) as [b|b|path sz|ep sz]; intros E.
  - apply bind_inv in E as (r & e1 & ? & E & E2 & ->). apply ret_inv in E2 as [E2 ->].
    apply result_map_ok in E2 as (a & -> & _). rewrite app_nil_r. by eapply get_range_ok.
  - by apply ret_inv in E as [? _].
  - apply partial_disk_read_ok in E as (tmp & h' & e1 & e2 & Ha & E & Hcp & ->).
    exists tmp. split; [done|]. split.
    + apply got_app. by eapply get_ok.
    + rewrite (app_assoc _ e1). by apply copied_app.
  - apply partial_disk_read_ok in E as (tmp & h' & e1 & e2 & Ha & E & Hcp & ->).
    exists tmp. split; [done|]. split.
    + apply fetched_app. by eapply offload_ok.
    + rewrite (app_assoc _ e1). by apply copied_app.
Qed.

(** A fragment that is reported as read was read: the range lies inside the object, the
    reported size is the requested one, and the bytes arrived at the destination from the
    chosen replica, by a successful transfer or through a temporary buffer and a copy. *)
Theorem ranged_read_delivers key buffer dst_offset src_offset size m h v evs :
  wf_metadata m → is_complete (rm_replica m) = true → in_u64 size → in_u64 src_offset →
  execute_ranged_read c key buffer dst_offset src_offset size m false h = (Ok v, evs) →
  src_offset + size ≤ rm_total_size m ∧ v = to_i64 size ∧
  delivered key (u64_add buffer dst_offset) src_offset size m evs.
Proof using laws.
  intros Hwf Hc Hs Ho E.
  destruct (execute_safe [] c key buffer dst_offset src_offset size m false Hwf Hs Ho
              ltac:(done) h (Ok v) evs E) as (_ & _ & Hv).
  destruct (Hv v eq_refl) as [Hle ->]. split_and!; [done|done|].
  unfold execute_ranged_read in E.
  destruct (effective_size _ _ _ _) as [n|] eqn:En; [|by apply ret_inv in E as [? _]].
  assert (n = size) as ->.
  { unfold effective_size in En. by destruct (_ || _); simplify_eq. }
  destruct (_ && _) eqn:Ef; [|by eapply read_partial_delivers].
  apply andb_true_iff in Ef as [E0 E1]. apply Z.eqb_eq in E0, E1. subst src_offset size.
  by eapply read_full_delivers.
Qed.
End Delivery.

(** ** Concrete reads *)

Definition sample_metadata (rs : list Descriptor) (r : Descriptor) : RangedReadMetadata :=
  MkMetadata (MkQueryResult rs 1000) r 8.

Abbreviation sample_execute rs r src n :=
  (@execute_ranged_read (sample_submitter []) (sample_cache None) (sample_clock 0) (sample_real [])
     sample_client "k" 8192 16 src n (sample_metadata rs r) false []).

Lemma ranged_read_delivers_witness :
  2 + 4 ≤ 8 ∧ 4 = to_i64 4 ∧
  @delivered (sample_real []) sample_client "k" (u64_add 8192 16) 2 4
    (sample_metadata [disk_object] disk_object) (sample_execute [disk_object] disk_object 2 4).2.
Proof.
  apply (@ranged_read_delivers (sample_submitter []) (sample_cache None) (sample_clock 0)
    (sample_real []) sample_client (sample_real_laws []) "k" 8192 16 2 4
    (sample_metadata [disk_object] disk_object) []).
  - by vm_compute.
  - by vm_compute.
  - by split.
  - by split.
  - by vm_compute.
Defined.

(** A partial read of a memory replica uses the first complete replica of the whole list
    instead of the chosen one: with a file listed first the read fails, although a memory
    replica was chosen, and a read of the whole object succeeds. *)
Theorem partial_read_ignores_choice :
  let rs := [disk_object; memory_at 100] in
  SelectBestReplica rs [] = Some (memory_at 100) ∧
  (sample_execute rs (memory_at 100) 2 4).1 = Err INVALID_REPLICA ∧
  (sample_execute rs (memory_at 100) 0 8).1 = Ok 8 ∧
  (sample_execute [memory_at 100; disk_object] (memory_at 100) 2 4).1 = Ok 4.
Proof. by vm_compute. Qed.
