(* ===== verification/RealWrite.v ===== *)
(** * Writing values through the real client ([mooncake-store/src/real_client.cpp])

    [put], [put_batch], [put_parts], their zero-copy and upsert variants, and the
    entry points for dummy clients.  A value is copied into a buffer of the
    client's allocator, cut into slices and handed to the store client; the
    buffer is released when the call returns.  The zero-copy variants cut the
    caller's own buffer. *)

From S2P Require Import Prelude CxxString StoreTypes ReplicaPolicy Samples PutPath BatchPut GetPath DummyMap RangedRead.
From stdpp Require Import base strings list sets gmap.
From Stdlib Require Import ZArith Lia.

#[local] Open Scope Z_scope.
#[local] Set Default Proof Using "Type".

(** [std::span<const char>::size_bytes()] *)
Definition size_bytes (value : string) : Z := Z.of_nat (String.length value).

Section Writes.
Context `{!MasterClient, !TransferSubmitter, !HotCache, !StorageBackend, !Clock, !RealServices}.
Context (DetermineReplicaWriteMode : ReplicateConfig → ReplicaWriteMode).
Context (toString : ErrorCode → string) (default_config : ReplicateConfig).
Context (iteration : gmap string PutOperation → list (string * PutOperation)).

Definition store_bytes (dst : Z) (value : string) : rio unit :=
  call (λ _, tt) (λ _, RStoreBytes dst value).

(** ** One value *)

(** The guards all writes of values start with. *)
Definition checked {A} (rc : RealClient) (config : ReplicateConfig) (alloc : option Allocator)
    (fail : A) (body : Client → Allocator → rio A) : rio A :=
  if prefer_alloc_in_same_node config then ret fail
  else
    match client_ rc, alloc with
    | Some c, Some a => body c a
    | _, _ => ret fail
    end.

(** Copy [value] into a fresh buffer and run [op] on its slices. *)
Definition write_value (a : Allocator) (value : string)
    (op : list Slice → io (expected unit)) : rio (expected unit) :=
  with_handle a (size_bytes value) (Err INVALID_PARAMS) (λ p,
    store_bytes p value ;;;
    on_client (op (split_into_slices p (size_bytes value)))).

Definition put_internal (rc : RealClient) (key : ObjectKey) (value : string)
    (config : ReplicateConfig) (alloc : option Allocator) : rio (expected unit) :=
  checked rc config alloc (Err INVALID_PARAMS) (λ c a,
    write_value a value (λ ss, Put DetermineReplicaWriteMode c key ss config)).

Definition upsert_internal (rc : RealClient) (key : ObjectKey) (value : string)
    (config : ReplicateConfig) (alloc : option Allocator) : rio (expected unit) :=
  checked rc config alloc (Err INVALID_PARAMS) (λ c a,
    write_value a value (λ ss, Upsert c key ss config)).

(** ** One value in parts *)

Definition copy_part (p : Z) (offset : Z) (value : string) : rio Z :=
  store_bytes (u64_add p offset) value ;;;
  ret (u64_add offset (size_bytes value)).

Definition total_size (values : list string) : Z :=
  fold_left (λ total value, u64_add total (size_bytes value)) values 0.

Definition write_parts (a : Allocator) (values : list string)
    (op : list Slice → io (expected unit)) : rio (expected unit) :=
  let n := total_size values in
  if n =? 0 then ret (Ok tt)
  else
    with_handle a n (Err INVALID_PARAMS) (λ p,
      mfold (copy_part p) 0 values ;;;
      on_client (op (split_into_slices p n))).

Definition put_parts_internal (rc : RealClient) (key : ObjectKey) (values : list string)
    (config : ReplicateConfig) (alloc : option Allocator) : rio (expected unit) :=
  checked rc config alloc (Err INVALID_PARAMS) (λ c a,
    write_parts a values (λ ss, Put DetermineReplicaWriteMode c key ss config)).

Definition upsert_parts_internal (rc : RealClient) (key : ObjectKey) (values : list string)
    (config : ReplicateConfig) (alloc : option Allocator) : rio (expected unit) :=
  checked rc config alloc (Err INVALID_PARAMS) (λ c a,
    write_parts a values (λ ss, Upsert c key ss config)).

(** ** Many values *)

(** [buffer_handles] and [batched_slices] so far. *)
Abbreviation batch_state := (list Z * gmap string (list Slice))%type.

(** The loop over keys and values; [false] ends it with an error. *)
Fixpoint store_batch (a : Allocator) (kvs : list (string * string)) (st : batch_state)
  : rio (bool * batch_state) :=
  match kvs with
  | [] => ret (true, st)
  | (key, value) :: kvs' =>
      let! alloc_result := call (λ h, a h (size_bytes value)) (RAllocate (size_bytes value)) in
      match alloc_result with
      | None => ret (false, st)
      | Some p =>
          store_bytes p value ;;;
          let slices := split_into_slices p (size_bytes value) in
          store_batch a kvs'
            (st.1 ++ [p],
             match st.2 !! key with Some _ => st.2 | None => <[key := slices]> st.2 end)
      end
  end.

Fixpoint first_failure (results : list (expected unit)) : expected unit :=
  match results with
  | [] => Ok tt
  | Ok _ :: results' => first_failure results'
  | Err e :: _ => Err e
  end.

Definition write_batch (a : Allocator) (keys values : list string)
    (op : list (list Slice) → io (list (expected unit))) : rio (expected unit) :=
  let! stored := store_batch a (zip keys values) ([], ∅) in
  let! result :=
    (if negb stored.1 then ret (Err INVALID_PARAMS)
     else
       match mapM (λ key, stored.2.2 !! key) keys with
       | None => ret (Err INVALID_PARAMS)
       | Some ordered_batched_slices =>
           let! results := on_client (op ordered_batched_slices) in
           ret (first_failure results)
       end) in
  mmap (λ p, call (λ _, tt) (λ _, RFree p)) stored.2.1 ;;;
  ret result.

Definition put_batch_internal (rc : RealClient) (keys values : list string)
    (config : ReplicateConfig) (alloc : option Allocator) : rio (expected unit) :=
  checked rc config alloc (Err INVALID_PARAMS) (λ c a,
    if negb (length keys =? length values)%nat then ret (Err INVALID_PARAMS)
    else write_batch a keys values (λ sss,
           BatchPut DetermineReplicaWriteMode toString default_config c iteration keys sss config)).

Definition upsert_batch_internal (rc : RealClient) (keys values : list string)
    (config : ReplicateConfig) (alloc : option Allocator) : rio (expected unit) :=
  checked rc config alloc (Err INVALID_PARAMS) (λ c a,
    if negb (length keys =? length values)%nat then ret (Err INVALID_PARAMS)
    else write_batch a keys values (λ sss, BatchUpsert toString c keys sss config)).

(** ** Zero copy: the caller's buffer is cut into slices *)

(** The [while (offset < size)] loop; [fuel] bounds its iterations. *)
Fixpoint cut_slices (fuel : nat) (buffer size offset : Z) : list Slice :=
  match fuel with
  | O => []
  | S fuel =>
      if offset <? size then
        let chunk_size := Z.min (u64_sub size offset) kMaxSliceSize in
        MkSlice (u64_add buffer offset) chunk_size
          :: cut_slices fuel buffer size (u64_add offset chunk_size)
      else []
  end.

Definition buffer_slices (buffer size : Z) : list Slice :=
  cut_slices (S (Z.to_nat (size / kMaxSliceSize))) buffer size 0.

Definition put_from_internal (rc : RealClient) (key : ObjectKey) (buffer size : Z)
    (config : ReplicateConfig) : rio (expected unit) :=
  if prefer_alloc_in_same_node config then ret (Err INVALID_PARAMS)
  else
    match client_ rc with
    | None => ret (Err INVALID_PARAMS)
    | Some c =>
        if size =? 0 then ret (Ok tt)
        else on_client (Put DetermineReplicaWriteMode c key (buffer_slices buffer size) config)
    end.

Definition upsert_from_internal (rc : RealClient) (key : ObjectKey) (buffer size : Z)
    (config : ReplicateConfig) : rio (expected unit) :=
  if prefer_alloc_in_same_node config then ret (Err INVALID_PARAMS)
  else
    match client_ rc with
    | None => ret (Err INVALID_PARAMS)
    | Some c =>
        if size =? 0 then ret (Ok tt)
        else on_client (Upsert c key (buffer_slices buffer size) config)
    end.

(** [all_slices[key] = slices] for every key, in order. *)
Definition set_slices (m : gmap string (list Slice)) (kbs : string * (Z * Z))
  : gmap string (list Slice) := <[kbs.1 := buffer_slices kbs.2.1 kbs.2.2]> m.
Definition all_slices (keys : list string) (buffers sizes : list Z)
  : gmap string (list Slice) := fold_left set_slices (zip keys (zip buffers sizes)) ∅.

Definition batch_put_from_internal (rc : RealClient) (keys : list string)
    (buffers sizes : list Z) (config : ReplicateConfig) : rio (list (expected unit)) :=
  let fail := replicate (length keys) (Err INVALID_PARAMS) in
  if prefer_alloc_in_same_node config then ret fail
  else
    match client_ rc with
    | None => ret fail
    | Some c =>
        if negb (length keys =? length buffers)%nat || negb (length keys =? length sizes)%nat
        then ret fail
        else
          match mapM (λ key, all_slices keys buffers sizes !! key) keys with
          | None => ret fail
          | Some ordered_batched_slices =>
              on_client (BatchPut DetermineReplicaWriteMode toString default_config c iteration
                           keys ordered_batched_slices config)
          end
    end.

Definition batch_upsert_from_internal (rc : RealClient) (keys : list string)
    (buffers sizes : list Z) (config : ReplicateConfig) : rio (list (expected unit)) :=
  let fail := replicate (length keys) (Err INVALID_PARAMS) in
  if prefer_alloc_in_same_node config then ret fail
  else
    match client_ rc with
    | None => ret fail
    | Some c =>
        if negb (length keys =? length buffers)%nat || negb (length keys =? length sizes)%nat
        then ret fail
        else on_client (BatchUpsert toString c keys
                          (zip_with buffer_slices buffers sizes) config)
    end.

(** ** Entry points of dummy clients *)

(** [shm_contexts_.find(client_id)] *)
Definition with_context {A} (rc : RealClient) (client_id : UUID) (fail : A)
    (body : ShmContext → rio A) : rio A :=
  match shm_contexts_ rc !! client_id with
  | None => ret fail
  | Some context => body context
  end.

Definition put_dummy_helper (rc : RealClient) (key : ObjectKey) (value : string)
    (config : ReplicateConfig) (client_id : UUID) : rio (expected unit) :=
  with_context rc client_id (Err INVALID_PARAMS) (λ context,
    put_internal rc key value config (client_buffer_allocator context)).

Definition upsert_dummy_helper (rc : RealClient) (key : ObjectKey) (value : string)
    (config : ReplicateConfig) (client_id : UUID) : rio (expected unit) :=
  with_context rc client_id (Err INVALID_PARAMS) (λ context,
    upsert_internal rc key value config (client_buffer_allocator context)).

Definition put_parts_dummy_helper (rc : RealClient) (key : ObjectKey) (values : list string)
    (config : ReplicateConfig) (client_id : UUID) : rio (expected unit) :=
  with_context rc client_id (Err INVALID_PARAMS) (λ context,
    put_parts_internal rc key values config (client_buffer_allocator context)).

Definition upsert_parts_dummy_helper (rc : RealClient) (key : ObjectKey) (values : list string)
    (config : ReplicateConfig) (client_id : UUID) : rio (expected unit) :=
  with_context rc client_id (Err INVALID_PARAMS) (λ context,
    upsert_parts_internal rc key values config (client_buffer_allocator context)).

Definition put_batch_dummy_helper (rc : RealClient) (keys values : list string)
    (config : ReplicateConfig) (client_id : UUID) : rio (expected unit) :=
  with_context rc client_id (Err INVALID_PARAMS) (λ context,
    put_batch_internal rc keys values config (client_buffer_allocator context)).

Definition upsert_batch_dummy_helper (rc : RealClient) (keys values : list string)
    (config : ReplicateConfig) (client_id : UUID) : rio (expected unit) :=
  with_context rc client_id (Err INVALID_PARAMS) (λ context,
    upsert_batch_internal rc keys values config (client_buffer_allocator context)).

Definition batch_put_from_dummy_helper (rc : RealClient) (keys : list string)
    (dummy_buffers sizes : list Z) (config : ReplicateConfig) (client_id : UUID)
  : rio (list (expected unit)) :=
  with_context rc client_id (replicate (length keys) (Err INVALID_PARAMS)) (λ context,
    match map_dummy_addrs_to_real_ptrs (mapped_shms context) dummy_buffers sizes with
    | Err e => ret (replicate (length keys) (Err e))
    | Ok buffers => batch_put_from_internal rc keys buffers sizes config
    end).

Definition upsert_from_dummy_helper (rc : RealClient) (key : ObjectKey)
    (dummy_buffer size : Z) (config : ReplicateConfig) (client_id : UUID) : rio (expected unit) :=
  with_context rc client_id (Err INVALID_PARAMS) (λ context,
    match (map_dummy_buffer_to_real (mapped_shms context) dummy_buffer size None).1 with
    | None => ret (Err INVALID_PARAMS)
    | Some real_buffer => upsert_from_internal rc key real_buffer size config
    end).

(** [sizes[i]] is read for every buffer, without a check of the length of
    [sizes]; [None] stands for the read outside the vector. *)
Definition batch_upsert_from_dummy_helper (rc : RealClient) (keys : list string)
    (dummy_buffers sizes : list Z) (config : ReplicateConfig) (client_id : UUID)
  : rio (option (list (expected unit))) :=
  let fail := Some (replicate (length keys) (Err INVALID_PARAMS)) in
  with_context rc client_id fail (λ context,
    match map_row (mapped_shms context) None (zip dummy_buffers sizes) with
    | (None, _) => ret fail
    | (Some buffers, _) =>
        if (length sizes <? length dummy_buffers)%nat then ret None
        else let! r := batch_upsert_from_internal rc keys buffers sizes config in ret (Some r)
    end).

(** ** Removal and size *)

Definition remove_internal (rc : RealClient) (key : ObjectKey) (force : bool)
  : rio (expected unit) :=
  match client_ rc with
  | None => ret (Err INVALID_PARAMS)
  | Some c => on_client (Remove c key force)
  end.

Definition removeByRegex_internal (rc : RealClient) (str : string) (force : bool)
  : rio (expected Z) :=
  match client_ rc with
  | None => ret (Err INVALID_PARAMS)
  | Some c => on_client (RemoveByRegex c str force)
  end.

Definition removeAll_internal (rc : RealClient) (force : bool) : rio (expected Z) :=
  match client_ rc with
  | None => ret (Err INVALID_PARAMS)
  | Some c => on_client (RemoveAll c force)
  end.

Definition batchRemove_internal (rc : RealClient) (keys : list string) (force : bool)
  : rio (list (expected unit)) :=
  match client_ rc with
  | None => ret (replicate (length keys) (Err INVALID_PARAMS))
  | Some c => on_client (BatchRemove c keys force)
  end.

Definition getSize_internal (rc : RealClient) (key : ObjectKey) : rio (expected Z) :=
  match client_ rc with
  | None => ret (Err INVALID_PARAMS)
  | Some c =>
      let! query_result := on_client (Query key) in
      match query_result with
      | Err e => ret (Err e)
      | Ok q =>
          match replicas q with
          | [] => ret (Err INVALID_PARAMS)
          | replica :: _ => ret (Ok (to_i64 (calculate_total_size replica)))
          end
      end
  end.
End Writes.
