(* ===== verification/RealWriteSpec.v ===== *)
(** * What writing values guarantees

    When the store client is called, the slices it is given hold exactly the
    bytes of the caller's value; buffers are released on every path; zero-copy
    slices tile the caller's buffer. *)

From S2P Require Import Prelude CxxString StoreTypes ReplicaPolicy Samples PutPath BatchPut GetPath DummyMap RangedRead RangedReadSpec RealWrite.
From stdpp Require Import base strings list numbers sets gmap.
From Stdlib Require Import ZArith Lia.

#[local] Open Scope Z_scope.
#[local] Set Default Proof Using "Type".

(** ** Memory *)

Abbreviation bytes := String.list_ascii_of_string.
Abbreviation memory := (Z → option Ascii.ascii).

Definition store (m : memory) (p : Z) (value : string) : memory := λ a,
  if bool_decide (p ≤ a < p + size_bytes value) then bytes value !! Z.to_nat (a - p) else m a.

(** Known contents after a call; transfers into memory leave it unknown. *)
Definition mem_step (m : memory) (e : real_event) : memory :=
  match e with
  | RStoreBytes p value => store m p value
  | _ => λ a, if existsb (λ w, bool_decide (w.1 ≤ a < w.1 + w.2)) (mem_writes e) then None else m a
  end.

Definition mem_after (m : memory) (evs : list real_event) : memory := fold_left mem_step evs m.

Definition read_memory (m : memory) (p n : Z) : list (option Ascii.ascii) := m <$> seqZ p n.

Definition read_slices (m : memory) (ss : list Slice) : list (option Ascii.ascii) :=
  ss ≫= λ s, read_memory m (slice_ptr s) (slice_size s).

(** The slices hold the bytes of [value], in order. *)
Definition holds_value (m : memory) (ss : list Slice) (value : string) : Prop :=
  read_slices m ss = Some <$> bytes value.

Lemma length_bytes s : Z.of_nat (length (bytes s)) = size_bytes s.
Proof. unfold size_bytes. induction s as [|c s IH]; [done|]. cbn [bytes length String.length]. lia. Qed.

Lemma size_bytes_nonneg s : 0 ≤ size_bytes s.
Proof. unfold size_bytes. lia. Qed.
#[local] Hint Resolve size_bytes_nonneg : mooncake.

Lemma read_stored m p s : read_memory (store m p s) p (size_bytes s) = Some <$> bytes s.
Proof.
  unfold read_memory. apply list_eq. intros i. rewrite !list_lookup_fmap.
  destruct (decide (Z.of_nat i < size_bytes s)) as [Hi|Hi].
  - rewrite lookup_seqZ_lt by done. cbn. unfold store.
    rewrite bool_decide_true by lia.
    replace (Z.to_nat (p + Z.of_nat i - p)) with i by lia.
    destruct (lookup_lt_is_Some_2 (bytes s) i) as [c Hc]; [|by rewrite Hc].
    pose proof (length_bytes s). lia.
  - rewrite lookup_seqZ_ge by lia. cbn. rewrite lookup_ge_None_2; [done|].
    pose proof (length_bytes s). lia.
Qed.

Lemma read_memory_ext m m' p n :
  (∀ a, p ≤ a < p + n → m a = m' a) → read_memory m p n = read_memory m' p n.
Proof.
  intros H. unfold read_memory. apply list_fmap_ext. intros i a Ha.
  apply lookup_seqZ in Ha as [-> Hi]. apply H. lia.
Qed.

Lemma store_other m p s a : ¬ (p ≤ a < p + size_bytes s) → store m p s a = m a.
Proof. intros H. unfold store. by rewrite bool_decide_false. Qed.

Lemma read_memory_app m p n1 n2 :
  0 ≤ n1 → 0 ≤ n2 →
  read_memory m p (n1 + n2) = read_memory m p n1 ++ read_memory m (p + n1) n2.
Proof. intros. unfold read_memory. by rewrite <-fmap_app, seqZ_app. Qed.

(** ** Slices that tile a range *)

Fixpoint tiles (ss : list Slice) (p n : Z) : Prop :=
  match ss with
  | [] => n = 0
  | s :: ss' => slice_ptr s = p ∧ 0 ≤ slice_size s ∧ 0 ≤ n - slice_size s ∧
                tiles ss' (p + slice_size s) (n - slice_size s)
  end.

Lemma read_tiles m ss p n : tiles ss p n → read_slices m ss = read_memory m p n.
Proof.
  revert p n. induction ss as [|s ss IH]; intros p n; cbn [tiles].
  - intros ->. done.
  - intros (<- & H1 & H2 & Ht). unfold read_slices in *. cbn [mbind list_bind].
    rewrite (IH _ _ Ht), <-read_memory_app by lia. f_equal. lia.
Qed.

(** What [split_into_slices] promises, and the maximal slice size. *)
Class SliceLaws `{!RealServices} : Prop := {
  split_tiles p n : 0 ≤ n → tiles (split_into_slices p n) p n;
  max_slice_positive : 0 < kMaxSliceSize }.

Section Writes.
Context `{!MasterClient, !TransferSubmitter, !HotCache, !StorageBackend, !Clock, !RealServices}.
Context {laws : SliceLaws}.
Context (DetermineReplicaWriteMode : ReplicateConfig → ReplicaWriteMode).
Context (toString : ErrorCode → string) (default_config : ReplicateConfig).
Context (iteration : gmap string PutOperation → list (string * PutOperation)).

(** ** One value *)

(** The client was called on slices that hold the value, and the buffer was
    released afterwards. *)
Definition wrote (op : list Slice → io (expected unit)) (value : string) (r : expected unit)
    (evs : list real_event) : Prop :=
  ∃ before ss h e p, evs = before ++ (RClient <$> e) ++ [RFree p] ∧ op ss h = (r, e) ∧
    holds_value (mem_after (λ _, None) before) ss value ∧
    tiles ss p (size_bytes value) ∧ omap client_event before = [].

(** Nothing reached the store client, and nothing stays allocated. *)
Definition refused (r : expected unit) (evs : list real_event) : Prop :=
  r = Err INVALID_PARAMS ∧ omap client_event evs = [] ∧ ∀ live, live_after live evs = live.

Lemma with_handle_run {A} (a : Allocator) n (fail : A) body h r evs :
  with_handle a n fail body h = (r, evs) →
  (r = fail ∧ evs = [RAllocate n None]) ∨
  ∃ p e, a h n = Some p ∧ body p (h ++ [RAllocate n (Some p)]) = (r, e) ∧
         evs = RAllocate n (Some p) :: e ++ [RFree p].
Proof.
  unfold with_handle. intros E. apply bind_inv in E as (o & ? & ? & E1 & E2 & ->).
  apply call_inv in E1 as [-> ->]. destruct (a h n) as [p|]; cycle 1.
  { left. by apply ret_inv in E2 as [-> ->]. }
  right. apply bind_inv in E2 as (x & e & ? & E3 & E4 & ->).
  apply bind_inv in E4 as (u & ? & ? & E5 & E6 & ->).
  apply call_inv in E5 as [_ ->]. apply ret_inv in E6 as [-> ->].
  exists p, e. split_and!; [done|exact E3|done].
Qed.

Lemma write_value_run a value op h r evs :
  write_value a value op h = (r, evs) → refused r evs ∨ wrote op value r evs.
Proof using laws.
  intros E. apply with_handle_run in E as [[-> ->]|(p & e & _ & E & ->)]; [left; by split_and!|].
  right. apply bind_inv in E as (u & ? & e2 & E1 & E2 & ->). apply call_inv in E1 as [_ ->].
  apply lift_inv in E2 as (e' & E2 & ->).
  exists [RAllocate (size_bytes value) (Some p); RStoreBytes p value].
  eexists _, _, e', p. split_and!; [done|exact E2| | |done].
  - unfold holds_value. erewrite read_tiles by (apply split_tiles, size_bytes_nonneg).
    apply read_stored.
  - apply split_tiles, size_bytes_nonneg.
Qed.

Lemma checked_run rc config alloc body h (r : expected unit) evs :
  checked rc config alloc (Err INVALID_PARAMS) body h = (r, evs) →
  (r = Err INVALID_PARAMS ∧ evs = []) ∨
  ∃ c a, client_ rc = Some c ∧ alloc = Some a ∧ prefer_alloc_in_same_node config = false ∧
         body c a h = (r, evs).
Proof.
  unfold checked. destruct (prefer_alloc_in_same_node config).
  { intros E. left. by apply ret_inv in E as [-> ->]. }
  destruct (client_ rc) as [c|]; [destruct alloc as [a|]|]; intros E;
    try (left; by apply ret_inv in E as [-> ->]).
  right. by exists c, a.
Qed.

(** A [put] of a value either is refused before the store client is called, leaving
    nothing allocated, or calls [Client::Put] on slices that tile a fresh buffer and hold
    exactly the bytes of the value at that moment, returns the client's result and
    releases the buffer. *)
Theorem put_stores_value rc key value config alloc h r evs :
  put_internal DetermineReplicaWriteMode rc key value config alloc h = (r, evs) →
  refused r evs ∨
  ∃ c, client_ rc = Some c ∧
       wrote (λ ss, Put DetermineReplicaWriteMode c key ss config) value r evs.
Proof using laws.
  intros E. apply checked_run in E as [[-> ->]|(c & a & Hc & _ & _ & E)];
    [left; by split_and!|].
  apply write_value_run in E as [E|E]; [by left|]. right. by exists c.
Qed.

(** The same for an upsert. *)
Theorem upsert_stores_value rc key value config alloc h r evs :
  upsert_internal rc key value config alloc h = (r, evs) →
  refused r evs ∨
  ∃ c, client_ rc = Some c ∧ wrote (λ ss, Upsert c key ss config) value r evs.
Proof using laws.
  intros E. apply checked_run in E as [[-> ->]|(c & a & Hc & _ & _ & E)];
    [left; by split_and!|].
  apply write_value_run in E as [E|E]; [by left|]. right. by exists c.
Qed.

(** ** One value in parts *)

(** The concatenation of the parts. *)
Definition joined (values : list string) : string := String.concat "" values.

Lemma joined_cons v vs : joined (v :: vs) = v +:+ joined vs.
Proof.
  destruct vs as [|w vs]; [|done]. unfold joined. cbn [String.concat].
  induction v as [|c v IH]; [done|]. change (String c v +:+ "") with (String c (v +:+ "")). by rewrite <-IH.
Qed.

Lemma bytes_app s t : bytes (s +:+ t) = bytes s ++ bytes t.
Proof.
  induction s as [|c s IH]; [done|].
  change (String c s +:+ t) with (String c (s +:+ t)). cbn [bytes]. by rewrite IH.
Qed.

Lemma size_bytes_app s t : size_bytes (s +:+ t) = size_bytes s + size_bytes t.
Proof.
  rewrite <-!length_bytes, bytes_app, length_app. lia.
Qed.

Lemma total_size_exact values acc :
  0 ≤ acc → acc + size_bytes (joined values) < u64_modulus →
  fold_left (λ total value, u64_add total (size_bytes value)) values acc =
    acc + size_bytes (joined values).
Proof.
  revert acc. induction values as [|v vs IH]; intros acc Ha Hlt.
  { change (size_bytes (joined [])) with 0. cbn [fold_left]. lia. }
  rewrite joined_cons, size_bytes_app in *. cbn [fold_left].
  pose proof (size_bytes_nonneg v). pose proof (size_bytes_nonneg (joined vs)).
  rewrite u64_add_small by lia. rewrite IH by lia. lia.
Qed.

Fixpoint part_stores (p : Z) (values : list string) : list real_event :=
  match values with
  | [] => []
  | v :: vs => RStoreBytes p v :: part_stores (p + size_bytes v) vs
  end.

Lemma copy_parts_run p offset values h r evs :
  0 ≤ p → 0 ≤ offset → p + offset + size_bytes (joined values) < u64_modulus →
  mfold (copy_part p) offset values h = (r, evs) → evs = part_stores (p + offset) values.
Proof.
  revert offset h r evs. induction values as [|v vs IH]; intros offset h r evs Hp Ho Hlt E.
  { by apply ret_inv in E as [_ ->]. }
  rewrite joined_cons, size_bytes_app in Hlt.
  pose proof (size_bytes_nonneg v). pose proof (size_bytes_nonneg (joined vs)).
  apply bind_inv in E as (off' & e1 & e2 & E1 & E2 & ->).
  apply bind_inv in E1 as (u & ? & ? & E3 & E4 & ->).
  apply call_inv in E3 as [_ ->]. apply ret_inv in E4 as [-> ->].
  rewrite !u64_add_small in * by lia. apply IH in E2; [|lia..]. rewrite E2.
  cbn. by rewrite Z.add_assoc.
Qed.

Lemma part_stores_below values p m a :
  a < p → mem_after m (part_stores p values) a = m a.
Proof.
  revert p m. induction values as [|v vs IH]; intros p m Ha; [done|].
  pose proof (size_bytes_nonneg v). cbn [part_stores].
  change (mem_after (store m p v) (part_stores (p + size_bytes v) vs) a = m a).
  rewrite IH by lia. apply store_other. lia.
Qed.

Lemma read_part_stores values p m :
  read_memory (mem_after m (part_stores p values)) p (size_bytes (joined values)) =
    Some <$> bytes (joined values).
Proof.
  revert p m. induction values as [|v vs IH]; intros p m; [done|].
  rewrite joined_cons, size_bytes_app, bytes_app, fmap_app.
  rewrite read_memory_app by apply size_bytes_nonneg. cbn [part_stores]. f_equal.
  - rewrite <-(read_stored m p v). apply read_memory_ext. intros a Ha.
    change (mem_after (store m p v) (part_stores (p + size_bytes v) vs) a = store m p v a).
    apply part_stores_below. lia.
  - apply IH.
Qed.

Lemma part_stores_quiet p values : omap client_event (part_stores p values) = [].
Proof. revert p. induction values as [|v vs IH]; intros p; [done|]. apply IH. Qed.

(** Buffers lie in the address space. *)
Definition valid_allocator (a : Allocator) : Prop :=
  ∀ h n p, a h n = Some p → 0 ≤ p ∧ p + n < u64_modulus.

(** A [put] of a value in parts stores the concatenation of its parts; parts without any
    byte are accepted without calling the store client. *)
Theorem put_parts_stores_value rc key values config alloc h r evs :
  (∀ a, alloc = Some a → valid_allocator a) →
  size_bytes (joined values) < u64_modulus →
  put_parts_internal DetermineReplicaWriteMode rc key values config alloc h = (r, evs) →
  refused r evs ∨ (joined values = "" ∧ r = Ok tt ∧ evs = []) ∨
  ∃ c, client_ rc = Some c ∧
       wrote (λ ss, Put DetermineReplicaWriteMode c key ss config) (joined values) r evs.
Proof using laws.
  intros Hval Hlt E. apply checked_run in E as [[-> ->]|(c & a & Hc & -> & _ & E)];
    [left; by split_and!|].
  unfold write_parts, total_size in E. rewrite total_size_exact in E by lia.
  rewrite Z.add_0_l in E. destruct (Z.eqb_spec (size_bytes (joined values)) 0) as [Hz|Hz].
  { apply ret_inv in E as [-> ->]. right. left. split; [|done].
    destruct (joined values); [done|]. unfold size_bytes in Hz. cbn [String.length] in Hz. lia. }
  apply with_handle_run in E as [[-> ->]|(p & e & Ha & E & ->)]; [left; by split_and!|].
  right. right. exists c. split; [done|].
  destruct (Hval a eq_refl _ _ _ Ha) as [Hp Hpn].
  apply bind_inv in E as (u & e1 & e2 & E1 & E2 & ->).
  apply copy_parts_run in E1; [|lia..]. rewrite Z.add_0_r in E1. subst e1.
  apply lift_inv in E2 as (e' & E2 & ->).
  exists (RAllocate (size_bytes (joined values)) (Some p) :: part_stores p values).
  eexists _, _, e', p. split_and!; [by rewrite <-app_assoc|exact E2| | |apply part_stores_quiet].
  - unfold holds_value. erewrite read_tiles by (apply split_tiles, size_bytes_nonneg).
    apply read_part_stores.
  - apply split_tiles, size_bytes_nonneg.
Qed.

(** ** Many values *)

Definition apart (w r : Z * Z) : Prop :=
  w.2 ≤ 0 ∨ r.2 ≤ 0 ∨ w.1 + w.2 ≤ r.1 ∨ r.1 + r.2 ≤ w.1.

(** A new buffer overlaps no live one. *)
Definition fresh_allocator (a : Allocator) : Prop :=
  ∀ h n p, a h n = Some p → Forall (apart (p, n)) (live_after [] h).

(** A value and the buffer it was copied to. *)
Definition stored_at (m : memory) (vp : string * Z) : Prop :=
  read_memory m vp.2 (size_bytes vp.1) = Some <$> bytes vp.1.

Definition allocated (evs : list real_event) : list Z :=
  omap (λ e, match e with RAllocate _ p => p | _ => None end) evs.

Lemma stored_store m vp p value :
  apart (p, size_bytes value) (vp.2, size_bytes vp.1) → stored_at m vp →
  stored_at (store m p value) vp.
Proof.
  unfold stored_at, apart. cbn. intros Hap <-. apply read_memory_ext. intros a Ha.
  apply store_other. lia.
Qed.

Lemma live_after_app live e1 e2 : live_after live (e1 ++ e2) = live_after (live_after live e1) e2.
Proof. apply fold_left_app. Qed.

(** The loop of the batch: every value copied so far stays where it was put. *)
Lemma store_batch_run a kvs st h ok st' evs m old :
  fresh_allocator a → NoDup kvs.*1 → (∀ k, k ∈ kvs.*1 → st.2 !! k = None) →
  Forall (λ vp, (vp.2, size_bytes vp.1) ∈ live_after [] h) old → Forall (stored_at m) old →
  store_batch a kvs st h = ((ok, st'), evs) →
  ∃ new,
    st'.1 = st.1 ++ new.*2 ∧ allocated evs = new.*2 ∧ omap client_event evs = [] ∧
    Forall (stored_at (mem_after m evs)) (old ++ new) ∧
    (∀ k, k ∉ kvs.*1 → st'.2 !! k = st.2 !! k) ∧
    (ok = true →
     Forall2 (λ kv vp, vp.1 = kv.2 ∧
       st'.2 !! kv.1 = Some (split_into_slices vp.2 (size_bytes kv.2))) kvs new).
Proof.
  clear laws DetermineReplicaWriteMode toString default_config iteration.
  intros Hfresh. revert st h st' evs m old.
  induction kvs as [|[key value] kvs IH]; intros st h st' evs m old Hnd Hnone Hlive Hold E;
    cbn [store_batch] in E.
  { apply ret_inv in E as [[= -> ->] ->]. exists []. rewrite !app_nil_r.
    split_and!; try done. }
  apply NoDup_cons in Hnd as [Hkey Hnd].
  apply bind_inv in E as (o & ? & e2 & E1 & E2 & ->). apply call_inv in E1 as [-> ->].
  destruct (a h (size_bytes value)) as [p|] eqn:Ea; cycle 1.
  { apply ret_inv in E2 as [[= -> ->] ->]. exists []. rewrite !app_nil_r. cbn.
    split_and!; try done. }
  apply bind_inv in E2 as (u & ? & e3 & E3 & E4 & ->). apply call_inv in E3 as [_ ->].
  pose proof (Hfresh _ _ _ Ea) as Hap.
  rewrite (Hnone key) in E4 by (by left).
  apply (IH _ _ _ _ (store m p value) (old ++ [(value, p)])) in E4; clear IH.
  - destruct E4 as (new & H5 & H6 & H7 & H8 & H9 & H10). exists ((value, p) :: new).
    split_and!.
    + rewrite H5. cbn. by rewrite <-app_assoc.
    + cbn. unfold allocated in H6. by rewrite H6.
    + cbn. by rewrite H7.
    + rewrite <-app_assoc in H8. exact H8.
    + intros k Hk. rewrite H9 by set_solver. cbn [snd]. apply lookup_insert_ne. set_solver.
    + intros Hok. constructor; [|by apply H10]. cbn [fst snd]. split; [done|].
      rewrite H9 by done. cbn [snd]. apply lookup_insert_eq.
  - done.
  - intros k Hk. cbn [snd]. rewrite lookup_insert_ne; [apply Hnone; by right|]. set_solver.
  - rewrite <-app_assoc. apply Forall_app. split; [|constructor; [|constructor]].
    + eapply Forall_impl; [exact Hlive|]. intros vp Hvp. rewrite live_after_app. cbn. by right.
    + rewrite live_after_app. cbn. by left.
  - apply Forall_app. split; [|constructor; [apply read_stored|constructor]].
    apply Forall_forall. intros vp Hvp. apply stored_store.
    + rewrite Forall_forall in Hap. apply Hap. rewrite Forall_forall in Hlive. by apply Hlive.
    + rewrite Forall_forall in Hold. by apply Hold.
Qed.

Lemma mmap_free handles h v evs :
  mmap (λ p, call (λ _ : list real_event, tt) (λ _, RFree p)) handles h = (v, evs) →
  evs = RFree <$> handles.
Proof.
  revert h v evs. induction handles as [|p ps IH]; intros h v evs E.
  { by apply ret_inv in E as [_ ->]. }
  apply bind_inv in E as (? & ? & ? & E1 & E2 & ->). apply call_inv in E1 as [_ ->].
  apply bind_inv in E2 as (? & ? & ? & E3 & E4 & ->). apply ret_inv in E4 as [_ ->].
  apply IH in E3 as ->. by rewrite app_nil_r.
Qed.

(** The slices found for every key, in the order of the keys. *)
Lemma ordered_slices (slices_of : gmap string (list Slice)) m keys values new :
  length keys = length values → Forall (stored_at m) new →
  Forall2 (λ kv vp, vp.1 = kv.2 ∧
    slices_of !! kv.1 = Some (split_into_slices vp.2 (size_bytes kv.2))) (zip keys values) new →
  ∃ sss, mapM (λ key, slices_of !! key) keys = Some sss ∧ Forall2 (holds_value m) sss values.
Proof using laws.
  revert values new. induction keys as [|k keys IH]; intros [|v values] new Hlen Hst Hnew;
    try discriminate.
  { exists []. split; [done|constructor]. }
  cbn in Hnew. apply Forall2_cons_inv_l in Hnew as ([v' p] & new' & [Hv Hk] & Hnew & ->).
  cbn [fst snd] in *. subst v'. apply Forall_cons in Hst as [Hp Hst].
  destruct (IH values new' ltac:(cbn in Hlen; lia) Hst Hnew) as (sss & E & HF).
  exists (split_into_slices p (size_bytes v) :: sss). cbn. rewrite Hk, E. split; [done|].
  constructor; [|done]. unfold holds_value.
  erewrite read_tiles by (apply split_tiles, size_bytes_nonneg). exact Hp.
Qed.

(** C10: [put_batch] with distinct keys calls [Client::BatchPut] on slices that hold, key by key,
    the bytes of the given values, and reports the first failure; on every path, refused
    requests included, the buffers it allocated are released. *)
Theorem put_batch_stores_values rc keys values config alloc h r evs :
  (∀ a, alloc = Some a → fresh_allocator a) → NoDup keys →
  put_batch_internal DetermineReplicaWriteMode toString default_config iteration
    rc keys values config alloc h = (r, evs) →
  ∃ before called,
    evs = before ++ called ++ (RFree <$> allocated before) ∧ omap client_event before = [] ∧
    ((r = Err INVALID_PARAMS ∧ called = []) ∨
     ∃ c sss h' e rs, client_ rc = Some c ∧ called = RClient <$> e ∧
       BatchPut DetermineReplicaWriteMode toString default_config c iteration keys sss config h'
         = (rs, e) ∧
       r = first_failure rs ∧
       Forall2 (holds_value (mem_after (λ _, None) before)) sss values).
Proof using laws.
  intros Hal Hnd E. apply checked_run in E as [[-> ->]|(c & a & Hc & -> & _ & E)].
  { exists [], []. split_and!; [done..|]. by left. }
  destruct (Nat.eqb_spec (length keys) (length values)) as [Hlen|Hlen]; cbn [negb] in E; cycle 1.
  { apply ret_inv in E as [-> ->]. exists [], []. split_and!; [done..|]. by left. }
  unfold write_batch in E. apply bind_inv in E as ([ok st] & before & ? & E1 & E & ->).
  apply bind_inv in E as (r' & called & ? & E2 & E & ->).
  apply bind_inv in E as (? & frees & ? & E3 & E & ->). apply ret_inv in E as [-> ->].
  apply mmap_free in E3 as ->. cbn [fst snd] in *. rewrite app_nil_r.
  assert (Hkeys : (zip keys values).*1 = keys) by (apply fst_zip; lia).
  eapply (store_batch_run _ _ _ _ _ _ _ (λ _, None) []) in E1;
    [|by apply Hal|by rewrite Hkeys|done|constructor|constructor].
  destruct E1 as (new & Hst & Hall & Hq & Hholds & _ & Hmap).
  exists before, called. rewrite Hst, Hall. split_and!; [done..|].
  destruct ok; cbn [negb] in E2; [|apply ret_inv in E2 as [-> ->]; by left].
  destruct (ordered_slices st.2 _ keys values new Hlen Hholds (Hmap eq_refl)) as (sss & Es & HF).
  rewrite Es in E2. right. apply bind_inv in E2 as (rs & ? & ? & E2 & E4 & ->).
  apply ret_inv in E4 as [-> ->]. apply lift_inv in E2 as (e & E2 & ->). rewrite app_nil_r.
  exists c, sss. eexists _, e, rs. by split_and!.
Qed.

(** ** Zero copy *)

Lemma cut_slices_spec fuel buffer size offset :
  0 ≤ buffer → 0 ≤ offset ≤ size → buffer + size < u64_modulus →
  size - offset ≤ Z.of_nat fuel * kMaxSliceSize →
  let ss := cut_slices fuel buffer size offset in
  tiles ss (buffer + offset) (size - offset) ∧
  Forall (λ s, 0 < slice_size s ≤ kMaxSliceSize) ss ∧
  Z.of_nat (length ss) = (size - offset + kMaxSliceSize - 1) / kMaxSliceSize.
Proof using laws.
  pose proof max_slice_positive as Hk.
  revert offset. induction fuel as [|fuel IH]; intros offset Hb Ho Hsum Hf; cbn [cut_slices].
  { replace offset with size by lia. split_and!; [cbn; lia|constructor|].
    rewrite Z.sub_diag, Z.div_small by lia. done. }
  destruct (Z.ltb_spec offset size) as [Hlt|Hge]; cycle 1.
  { replace offset with size by lia. split_and!; [cbn; lia|constructor|].
    rewrite Z.sub_diag, Z.div_small by lia. done. }
  rewrite u64_sub_small, u64_add_small by lia.
  set (chunk := Z.min (size - offset) kMaxSliceSize).
  assert (Hc : 0 < chunk ≤ kMaxSliceSize ∧ chunk ≤ size - offset) by lia.
  rewrite u64_add_small by lia.
  destruct (IH (offset + chunk)) as (Ht & HF & Hl); [lia..| |].
  { subst chunk. rewrite Nat2Z.inj_succ, Z.mul_succ_l in Hf. lia. }
  split_and!.
  - cbn [tiles slice_ptr slice_size]. split_and!; [done|lia|lia|].
    replace (buffer + offset + chunk) with (buffer + (offset + chunk)) by lia.
    replace (size - offset - chunk) with (size - (offset + chunk)) by lia. exact Ht.
  - constructor; [cbn; lia|done].
  - cbn [length]. rewrite Nat2Z.inj_succ, Hl. subst chunk.
    destruct (Z.le_gt_cases (size - offset) kMaxSliceSize) as [Hs|Hs].
    + rewrite Z.min_l by lia. replace (size - (offset + (size - offset))) with 0 by lia.
      rewrite (Z.div_small (0 + kMaxSliceSize - 1)) by lia.
      replace (size - offset + kMaxSliceSize - 1)
        with (1 * kMaxSliceSize + (size - offset - 1)) by lia.
      rewrite Z.div_add_l, Z.div_small by lia. done.
    + rewrite Z.min_r by lia.
      replace (size - offset + kMaxSliceSize - 1)
        with (1 * kMaxSliceSize + (size - (offset + kMaxSliceSize) + kMaxSliceSize - 1)) by lia.
      rewrite Z.div_add_l by lia. lia.
Qed.

(** The slices of a caller's buffer tile it exactly, in order, are non-empty and no larger
    than the maximal slice size, and there are no more of them than needed. *)
Theorem buffer_slices_tile buffer size :
  0 ≤ buffer → 0 ≤ size → buffer + size < u64_modulus →
  let ss := buffer_slices buffer size in
  tiles ss buffer size ∧ Forall (λ s, 0 < slice_size s ≤ kMaxSliceSize) ss ∧
  Z.of_nat (length ss) = (size + kMaxSliceSize - 1) / kMaxSliceSize.
Proof using laws.
  intros Hb Hs Hsum. pose proof max_slice_positive as Hk. unfold buffer_slices.
  assert (Hq : 0 ≤ size / kMaxSliceSize) by (apply Z.div_pos; lia).
  pose proof (Z.mul_succ_div_gt size kMaxSliceSize Hk) as Hgt.
  destruct (cut_slices_spec (S (Z.to_nat (size / kMaxSliceSize))) buffer size 0) as (Ht & HF & Hl);
    [lia|lia|lia|rewrite Nat2Z.inj_succ, Z2Nat.id by lia; lia|].
  rewrite Z.add_0_r, Z.sub_0_r in *. done.
Qed.

Lemma all_slices_lookup keys buffers sizes m k :
  k ∉ keys →
  fold_left set_slices (zip keys (zip buffers sizes)) m !! k = m !! k.
Proof.
  clear laws DetermineReplicaWriteMode toString default_config iteration.
  revert buffers sizes m. induction keys as [|k' keys IH]; intros buffers sizes m Hk; [done|].
  destruct buffers as [|b buffers], sizes as [|s sizes]; [done..|].
  cbn [zip zip_with fold_left]. rewrite IH by set_solver. apply lookup_insert_ne.
  cbn [fst]. set_solver.
Qed.

Lemma set_slices_key m k b n : set_slices m (k, (b, n)) !! k = Some (buffer_slices b n).
Proof. apply lookup_insert_eq. Qed.

(** With distinct keys the map of [batch_put_from] gives every key the slices of its own
    buffer, as [batch_upsert_from] does without a map. *)
Lemma batch_from_slices keys buffers sizes m :
  NoDup keys → length keys = length buffers → length keys = length sizes →
  mapM (λ key, fold_left set_slices (zip keys (zip buffers sizes)) m !! key) keys =
    Some (zip_with buffer_slices buffers sizes).
Proof.
  revert buffers sizes m. induction keys as [|k keys IH];
    intros [|b buffers] [|s sizes] m Hnd E1 E2; try discriminate; [done|].
  apply NoDup_cons in Hnd as [Hk Hnd]. cbn [mapM zip zip_with fold_left].
  rewrite all_slices_lookup, set_slices_key by done. cbn [mbind option_bind].
  rewrite IH by (done || cbn in *; lia). done.
Qed.
End Writes.

(** ** Concrete writes *)

#[export] Instance sample_slice_laws endpoints : @SliceLaws (sample_real endpoints).
Proof.
  split; [|done]. intros p n Hn. cbn. split_and!; [done|done|lia|lia].
Qed.

(** An allocator that places every buffer behind all live ones. *)
Definition top_allocator : Allocator := λ h n,
  let p := foldr (λ b top, Z.max (b.1 + b.2) top) 1048576 (live_after [] h) in
  if bool_decide (0 ≤ n ∧ p + n < u64_modulus) then Some p else None.

Lemma below_top live :
  Forall (λ b : Z * Z, b.1 + b.2 ≤ foldr (λ b top, Z.max (b.1 + b.2) top) 1048576 live) live.
Proof.
  induction live as [|b live IH]; [constructor|]. cbn [foldr]. constructor; [lia|].
  eapply Forall_impl; [exact IH|]. cbn. lia.
Qed.

Lemma top_allocator_fresh : fresh_allocator top_allocator.
Proof.
  intros h n p. unfold top_allocator. case_bool_decide; [|done]. intros [= <-].
  eapply Forall_impl; [apply below_top|]. intros b Hb. unfold apart. cbn in *. lia.
Qed.

Lemma top_allocator_valid : valid_allocator top_allocator.
Proof.
  intros h n p. unfold top_allocator. case_bool_decide as Hn; [|done]. intros [= <-].
  split; [|by destruct Hn]. clear. induction (live_after [] h); cbn; lia.
Qed.

Abbreviation sample_put_value :=
  (@put_internal (sample_master two_replicas) (sample_submitter []) sample_storage (sample_real [])
     (λ _, ReliableMode 0) sample_real_client "k" "abcdefgh" sample_config (Some top_allocator) []).

Lemma put_stores_value_witness :
  sample_put_value.1 = Ok tt ∧
  wrote (λ ss, @Put (sample_master two_replicas) (sample_submitter []) sample_storage
                 (λ _, ReliableMode 0) sample_client "k" ss sample_config)
    "abcdefgh" (Ok tt) sample_put_value.2.
Proof.
  assert (E : sample_put_value = (Ok tt, sample_put_value.2)) by (by vm_compute).
  split; [by vm_compute|].
  destruct (@put_stores_value (sample_master two_replicas) (sample_submitter []) sample_storage
    (sample_real []) (sample_slice_laws []) (λ _, ReliableMode 0) sample_real_client "k" "abcdefgh"
    sample_config (Some top_allocator) [] (Ok tt) sample_put_value.2 E)
    as [[Hr _]|(c & [= <-] & Hw)]; [discriminate|exact Hw].
Defined.

Abbreviation sample_put_parts :=
  (@put_parts_internal (sample_master two_replicas) (sample_submitter []) sample_storage
     (sample_real []) (λ _, ReliableMode 0) sample_real_client "k" ["abc"; ""; "defgh"]
     sample_config (Some top_allocator) []).

Lemma put_parts_stores_value_witness :
  sample_put_parts.1 = Ok tt ∧
  wrote (λ ss, @Put (sample_master two_replicas) (sample_submitter []) sample_storage
                 (λ _, ReliableMode 0) sample_client "k" ss sample_config)
    "abcdefgh" (Ok tt) sample_put_parts.2.
Proof.
  assert (E : sample_put_parts = (Ok tt, sample_put_parts.2)) by (by vm_compute).
  split; [by vm_compute|].
  destruct (@put_parts_stores_value (sample_master two_replicas) (sample_submitter [])
    sample_storage (sample_real []) (sample_slice_laws []) (λ _, ReliableMode 0)
    sample_real_client "k" ["abc"; ""; "defgh"] sample_config (Some top_allocator) [] (Ok tt)
    sample_put_parts.2) as [[Hr _]|[[Hr _]|(c & [= <-] & Hw)]].
  - intros a [= <-]. apply top_allocator_valid.
  - by vm_compute.
  - exact E.
  - discriminate.
  - discriminate.
  - exact Hw.
Defined.

Abbreviation sample_put_batch keys values :=
  (@put_batch_internal (sample_master two_replicas) (sample_submitter []) sample_storage
     (sample_real []) (λ _, ReliableMode 0) (λ _, "") sample_config map_to_list
     sample_real_client keys values sample_config (Some top_allocator) []).

Abbreviation sample_two_puts := (sample_put_batch ["k"; "l"] ["abcdefgh"; "ijklmnop"]).

Lemma sample_two_puts_run : sample_two_puts = (Ok tt, sample_two_puts.2).
Proof. by vm_compute. Qed.

Lemma put_batch_stores_values_witness :
  ∃ before called sss,
    sample_two_puts.2 = before ++ called ++ (RFree <$> allocated before) ∧
    Forall2 (holds_value (mem_after (λ _, None) before)) sss ["abcdefgh"; "ijklmnop"].
Proof.
  destruct (@put_batch_stores_values (sample_master two_replicas) (sample_submitter [])
    sample_storage (sample_real []) (sample_slice_laws []) (λ _, ReliableMode 0) (λ _, "")
    sample_config map_to_list sample_real_client ["k"; "l"] ["abcdefgh"; "ijklmnop"] sample_config
    (Some top_allocator) [] (Ok tt) sample_two_puts.2) as (before & called & Hev & Hq & Hr).
  - intros a [= <-]. apply top_allocator_fresh.
  - apply (bool_decide_unpack _). by vm_compute.
  - exact sample_two_puts_run.
  - destruct Hr as [[Hr _]|(c & sss & h' & e & rs & _ & _ & _ & _ & HF)]; [discriminate|].
    exists before, called, sss. split; [exact Hev|exact HF].
Defined.

Lemma buffer_slices_tile_witness :
  let ss := @buffer_slices (sample_real []) 4096 40 in
  tiles ss 4096 40 ∧ Forall (λ s, 0 < slice_size s ≤ 16) ss ∧ Z.of_nat (length ss) = (40 + 16 - 1) / 16.
Proof.
  apply (@buffer_slices_tile (sample_real []) (sample_slice_laws []) 4096 40); [done|done|done].
Defined.

(** With a repeated key, [put_batch] stores the first value under it twice, and
    [batch_put_from] the last buffer twice. *)
Theorem duplicate_keys_lose_values :
  let stored := @store_batch (sample_real []) top_allocator [("k", "a"); ("k", "b")] ([], ∅) [] in
  mapM (λ key, stored.1.2.2 !! key) ["k"; "k"] =
    Some [[MkSlice 1048576 1]; [MkSlice 1048576 1]] ∧
  mapM (λ key, @all_slices (sample_real []) ["k"; "k"] [100; 200] [8; 8] !! key) ["k"; "k"] =
    Some [[MkSlice 200 8]; [MkSlice 200 8]].
Proof. by vm_compute. Qed.

(** A dummy client's batched upsert with fewer sizes than buffers reads outside the
    vector of sizes; the batched put refuses the same request. *)
Theorem batch_upsert_sizes_unchecked :
  (@batch_upsert_from_dummy_helper (sample_master two_replicas) (sample_submitter [])
     sample_storage (sample_real []) (λ _, "") sample_real_client ["k"] [4096] [] sample_config
     (1, 1) []).1 = None ∧
  (@batch_put_from_dummy_helper (sample_master two_replicas) (sample_submitter []) sample_storage
     (sample_real []) (λ _, ReliableMode 0) (λ _, "") sample_config map_to_list sample_real_client
     ["k"] [4096] [] sample_config (1, 1) []).1 = [Err INVALID_PARAMS].
Proof. by vm_compute. Qed.
