(* ===== verification/RealGetInto.v ===== *)
(** * Batched reads into caller memory ([mooncake-store/src/real_client.cpp])

    [batch_get_into] reads whole objects into one buffer each,
    [batch_get_into_multi_buffers] into a list of buffers each.  Every key is
    classified by its best replica: memory and NoF replicas are transferred
    straight into the buffers, file replicas through temporary buffers of the
    client, replicas on a peer's SSD through the peer.  The writes from lists of
    buffers and the entry points of dummy clients are here too. *)

From S2P Require Import Prelude CxxString StoreTypes ReplicaPolicy Samples PutPath BatchPut GetPath DummyMap RangedRead RealWrite.
From stdpp Require Import base strings list sets gmap.
From Stdlib Require Import ZArith Lia.

#[local] Open Scope Z_scope.
#[local] Set Default Proof Using "Type".

Record ValidKeyInfo := MkValidKey {
  vk_key : string;
  vk_index : nat;
  vk_query_result : QueryResult;
  vk_slices : list Slice;
  vk_total_size : Z }.

Record DiskKeyInfo := MkDiskKey {
  dk_key : string;
  dk_index : nat;
  dk_query_result : QueryResult;
  dk_dst_buffer : Z;
  dk_total_size : Z }.

Record MultiDiskKeyInfo := MkMultiDiskKey {
  mk_key : string;
  mk_index : nat;
  mk_query_result : QueryResult;
  mk_buffers : list Z;
  mk_sizes : list Z;
  mk_total_size : Z;
  mk_is_local_disk : bool }.

(** [results], [valid_operations], [valid_local_disk_operations],
    [disk_operations]. *)
Record IntoState := MkIntoState {
  is_results : list (expected Z);
  is_valid : list ValidKeyInfo;
  is_local_disk : gmap string ValidKeyInfo;
  is_disk : list DiskKeyInfo }.

(** [results], [valid_operations], [valid_local_disk_ops], and whether a size
    was read outside its vector. *)
Record MultiState := MkMultiState {
  ms_results : list (expected Z);
  ms_valid : list ValidKeyInfo;
  ms_disk : gmap string MultiDiskKeyInfo;
  ms_undefined : bool }.

(** [m.emplace(key, v)] *)
Definition emplace {A} (key : string) (v : A) (m : gmap string A) : gmap string A :=
  match m !! key with Some _ => m | None => <[key := v]> m end.

(** [batch_slices[op.key] = op.slices] for every operation, in order. *)
Definition batch_slices (ops : list ValidKeyInfo) : gmap string (list Slice) :=
  fold_left (λ m op, <[vk_key op := vk_slices op]> m) ops ∅.

(** [results[index] = unexpected(error)] for every operation that failed. *)
Definition merge_failures (results : list (expected Z))
    (outcomes : list (nat * expected unit)) : list (expected Z) :=
  fold_left (λ rs o, match o.2 with Err e => <[o.1 := Err e]> rs | Ok _ => rs end) outcomes results.

(** [offload_objects]: per endpoint, the slices of its keys. *)
Abbreviation offload_map := (gmap string (gmap string (list Slice))).

Definition add_offload (endpoint key : string) (ss : list Slice) (m : offload_map) : offload_map :=
  <[endpoint := emplace key ss (default ∅ (m !! endpoint))]> m.

Definition local_disk_endpoint (r : Descriptor) : string :=
  match data r with LocalDiskReplica endpoint _ => endpoint | _ => "" end.

Section Reads.
Context `{!MasterClient, !TransferSubmitter, !HotCache, !StorageBackend, !Clock, !RealServices}.
(** The iteration order of the [std::unordered_map]s. *)
Context (iteration : ∀ A : Type, gmap string A → list (string * A)).

Definition GetLocalEndpoints : rio (list string) := λ h, (r_local_endpoints h, []).
Definition free_handle (p : Z) : rio unit := call (λ _, tt) (λ _, RFree p).

(** ** Classification of the keys *)

(** The replica a key is read from, or the error of the key. *)
Definition choose_replica (eps : list string) (query_result : expected QueryResult)
  : expected (QueryResult * Descriptor) :=
  match query_result with
  | Err e => Err e
  | Ok q =>
      if bool_decide (replicas q = []) then Err INVALID_REPLICA
      else
        match SelectBestReplica (replicas q) eps with
        | None => Err INVALID_REPLICA
        | Some replica => Ok (q, replica)
        end
  end.

(** One iteration of the loop of [batch_get_into_internal]. *)
Definition classify_key (eps : list string) (st : IntoState)
    (ix : nat * (string * (Z * Z) * expected QueryResult)) : IntoState :=
  let '(i, (key, (buffer, size), query_result)) := ix in
  let fail e := MkIntoState (<[i := Err e]> (is_results st)) (is_valid st) (is_local_disk st)
                  (is_disk st) in
  match choose_replica eps query_result with
  | Err e => fail e
  | Ok (q, replica) =>
      let total_size := calculate_total_size replica in
      if size <? total_size then fail INVALID_PARAMS
      else
        let rs := <[i := Ok (to_i64 total_size)]> (is_results st) in
        match data replica with
        | LocalDiskReplica _ _ =>
            MkIntoState rs (is_valid st)
              (emplace key (MkValidKey key i q (allocateSlices replica buffer) total_size)
                 (is_local_disk st)) (is_disk st)
        | DiskReplica _ _ =>
            MkIntoState rs (is_valid st) (is_local_disk st)
              (is_disk st ++ [MkDiskKey key i q buffer total_size])
        | _ =>
            MkIntoState rs
              (is_valid st ++ [MkValidKey key i (FilterQueryResult q replica)
                                 (allocateSlices replica buffer) total_size])
              (is_local_disk st) (is_disk st)
        end
  end.

(** ** Memory and NoF replicas *)

Definition read_valid (c : Client) (prefer_same_node : bool) (ops : list ValidKeyInfo)
    (results : list (expected Z)) : rio (list (expected Z)) :=
  if bool_decide (ops = []) then ret results
  else
    let! rs := on_client (BatchGet_query c (iteration _) (vk_key <$> ops) (vk_query_result <$> ops)
                            (batch_slices ops) prefer_same_node) in
    ret (merge_failures results (zip (vk_index <$> ops) rs)).

(** ** File replicas, through temporary buffers *)

Record DiskBatch := MkDiskBatch {
  db_results : list (expected Z);
  db_ops : list (DiskKeyInfo * QueryResult);           (* in batch order *)
  db_slices : gmap string (list Slice);
  db_handles : gmap string Z }.

Definition prepare_disk (st : DiskBatch) (op : DiskKeyInfo) : rio DiskBatch :=
  let fail e := MkDiskBatch (<[dk_index op := Err e]> (db_results st)) (db_ops st) (db_slices st)
                  (db_handles st) in
  match List.find is_disk_replica (replicas (dk_query_result op)) with
  | None => ret (fail INVALID_REPLICA)
  | Some replica =>
      let! alloc_result := call (λ h, r_allocate h (dk_total_size op))
                             (RAllocate (dk_total_size op)) in
      match alloc_result with
      | None => ret (fail NO_AVAILABLE_HANDLE)
      | Some p =>
          (* emplace destroys the handle when the key is already there *)
          (match db_handles st !! dk_key op with
           | Some _ => free_handle p
           | None => ret tt
           end) ;;;
          ret (MkDiskBatch (db_results st)
                 (db_ops st ++ [(op, FilterQueryResult (dk_query_result op) replica)])
                 (<[dk_key op := allocateSlices replica p]> (db_slices st))
                 (emplace (dk_key op) p (db_handles st)))
      end
  end.

Definition finish_disk (handles : gmap string Z) (results : list (expected Z))
    (x : DiskKeyInfo * expected unit) : rio (list (expected Z)) :=
  let '(op, disk_result) := x in
  match disk_result with
  | Err e => ret (<[dk_index op := Err e]> results)
  | Ok _ =>
      let! r := scatter_host_to_maybe_device (dk_dst_buffer op)
                  (default 0 (handles !! dk_key op)) (dk_total_size op) in
      ret (match r with Err e => <[dk_index op := Err e]> results | Ok _ => results end)
  end.

Definition read_disk (c : Client) (ops : list DiskKeyInfo) (results : list (expected Z))
  : rio (list (expected Z)) :=
  if bool_decide (ops = []) then ret results
  else
    let! st := mfold prepare_disk (MkDiskBatch results [] ∅ ∅) ops in
    let! results :=
      (if bool_decide (db_ops st = []) then ret (db_results st)
       else
         let! rs := on_client (BatchGet_query c (iteration _) (dk_key <$> (db_ops st).*1)
                                 (db_ops st).*2 (db_slices st) false) in
         mfold (finish_disk (db_handles st)) (db_results st) (zip (db_ops st).*1 rs)) in
    mmap free_handle (iteration _ (db_handles st)).*2 ;;;
    ret results.

(** ** Replicas on the SSD of a peer *)

Definition group_offload (m : offload_map) (op : string * ValidKeyInfo) : offload_map :=
  match List.find is_local_disk_replica (replicas (vk_query_result op.2)) with
  | None => m
  | Some replica => add_offload (local_disk_endpoint replica) op.1 (vk_slices op.2) m
  end.

(** One endpoint; [index] is [original_index] of a key. *)
Definition read_offload (index : string → nat) (results : list (expected Z))
    (x : string * gmap string (list Slice)) : rio (list (expected Z)) :=
  let objects := iteration _ x.2 in
  let! r := batch_get_into_offload_object_internal x.1 objects in
  ret (match r with
       | Ok _ => results
       | Err e => fold_left (λ rs key, <[index key := Err e]> rs) objects.*1 results
       end).

Definition index_in (ops : gmap string ValidKeyInfo) (key : string) : nat :=
  match ops !! key with Some op => vk_index op | None => O end.

(** ** [batch_get_into] *)

Definition batch_get_into_internal (rc : RealClient) (keys : list string)
    (buffers sizes : list Z) : rio (list (expected Z)) :=
  let fail := replicate (length keys) (Err INVALID_PARAMS) in
  match client_ rc with
  | None => ret fail
  | Some c =>
      if negb (length keys =? length buffers)%nat || negb (length keys =? length sizes)%nat
      then ret fail
      else if bool_decide (keys = []) then ret []
      else
        let! query_results := on_client (BatchQuery keys) in
        let! eps := GetLocalEndpoints in
        (* a value-initialized expected<int64_t> holds 0 *)
        let st := fold_left (classify_key eps)
                    (indexed (zip (zip keys (zip buffers sizes)) query_results))
                    (MkIntoState (replicate (length keys) (Ok 0)) [] ∅ []) in
        if bool_decide (is_valid st = []) && bool_decide (is_local_disk st = ∅)
           && bool_decide (is_disk st = [])
        then ret (is_results st)
        else
          let! results := read_valid c false (is_valid st) (is_results st) in
          let! results := read_disk c (is_disk st) results in
          let offload_objects := fold_left group_offload (iteration _ (is_local_disk st)) ∅ in
          mfold (read_offload (index_in (is_local_disk st))) results (iteration _ offload_objects)
  end.

(** ** [batch_get_into_multi_buffers] *)

(** The buffers of a key with their sizes. *)
Definition multi_slices (buffers sizes : list Z) : list Slice := zip_with MkSlice buffers sizes.

(** The loop over the buffers reads [sizes[j]] without a check of its length. *)
Definition short_sizes (buffers sizes : list Z) : bool := (length sizes <? length buffers)%nat.

(** [dst_total_size], a [uint64_t] sum. *)
Definition dst_total (sizes : list Z) : Z := fold_left u64_add sizes 0.

Definition classify_multi (eps : list string) (st : MultiState)
    (ix : nat * (string * (list Z * list Z) * expected QueryResult)) : MultiState :=
  let '(i, (key, (buffers, sizes), query_result)) := ix in
  let fail e := MkMultiState (ms_results st ++ [Err e]) (ms_valid st) (ms_disk st)
                  (ms_undefined st) in
  match choose_replica eps query_result with
  | Err e => fail e
  | Ok (q, replica) =>
      let total_size := calculate_total_size replica in
      if dst_total sizes <? total_size then fail INVALID_PARAMS
      else
        let rs := ms_results st ++ [Ok (to_i64 total_size)] in
        if is_memory_replica replica || is_nof_replica replica then
          MkMultiState rs
            (ms_valid st ++ [MkValidKey key i (FilterQueryResult q replica)
                               (multi_slices buffers sizes) total_size]) (ms_disk st)
            (ms_undefined st || short_sizes buffers sizes)
        else
          MkMultiState rs (ms_valid st)
            (emplace key (MkMultiDiskKey key i q buffers sizes total_size
                            (is_local_disk_replica replica)) (ms_disk st))
            (ms_undefined st)
  end.

(** State of the first loop over [valid_local_disk_ops]; [None]: a size was read
    outside its vector. *)
Definition group_multi (acc : option (list (expected Z) * offload_map))
    (x : string * MultiDiskKeyInfo) : option (list (expected Z) * offload_map) :=
  match acc with
  | None => None
  | Some (results, m) =>
      let '(key, op) := x in
      if negb (mk_is_local_disk op) then acc
      else
        match List.find is_local_disk_replica (replicas (mk_query_result op)) with
        | None => Some (<[mk_index op := Err INVALID_REPLICA]> results, m)
        | Some replica =>
            if short_sizes (mk_buffers op) (mk_sizes op) then None
            else if dst_total (mk_sizes op) <? mk_total_size op
            then Some (<[mk_index op := Err INVALID_PARAMS]> results, m)
            else Some (results, add_offload (local_disk_endpoint replica) key
                                  (multi_slices (mk_buffers op) (mk_sizes op)) m)
        end
  end.

Definition multi_index_in (ops : gmap string MultiDiskKeyInfo) (key : string) : nat :=
  match ops !! key with Some op => mk_index op | None => O end.

Record MultiBatch := MkMultiBatch {
  mb_results : list (expected Z);
  mb_ops : list (MultiDiskKeyInfo * QueryResult);
  mb_slices : gmap string (list Slice);
  mb_handles : gmap string Z }.

Definition prepare_multi (st : MultiBatch) (x : string * MultiDiskKeyInfo) : rio MultiBatch :=
  let '(key, op) := x in
  let fail e := MkMultiBatch (<[mk_index op := Err e]> (mb_results st)) (mb_ops st) (mb_slices st)
                  (mb_handles st) in
  if mk_is_local_disk op then ret st
  else
    let! alloc_result := call (λ h, r_allocate h (mk_total_size op))
                           (RAllocate (mk_total_size op)) in
    match alloc_result with
    | None => ret (fail NO_AVAILABLE_HANDLE)
    | Some p =>
        match List.find is_disk_replica (replicas (mk_query_result op)) with
        | None => free_handle p ;;; ret (fail INVALID_REPLICA)
        | Some replica =>
            (match mb_handles st !! key with
             | Some _ => free_handle p
             | None => ret tt
             end) ;;;
            ret (MkMultiBatch (mb_results st)
                   (mb_ops st ++ [(op, FilterQueryResult (mk_query_result op) replica)])
                   (<[key := allocateSlices replica p]> (mb_slices st))
                   (emplace key p (mb_handles st)))
        end
    end.

(** [scatter_to_buffers], from [offset] on. *)
Fixpoint scatter_to_buffers (src total_size offset : Z) (dsts : list (Z * Z))
  : rio (expected unit) :=
  match dsts with
  | [] => ret (Ok tt)
  | (dst, size) :: dsts' =>
      if total_size <=? offset then ret (Ok tt)
      else
        let sz := Z.min size (u64_sub total_size offset) in
        let! r := scatter_host_to_maybe_device dst (u64_add src offset) sz in
        match r with
        | Err e => ret (Err e)
        | Ok _ => scatter_to_buffers src total_size (u64_add offset sz) dsts'
        end
  end.

Definition finish_multi (handles : gmap string Z) (results : list (expected Z))
    (x : MultiDiskKeyInfo * expected unit) : rio (list (expected Z)) :=
  let '(op, disk_result) := x in
  match disk_result with
  | Err e => ret (<[mk_index op := Err e]> results)
  | Ok _ =>
      let! r := scatter_to_buffers (default 0 (handles !! mk_key op)) (mk_total_size op) 0
                  (zip (mk_buffers op) (mk_sizes op)) in
      ret (match r with Err e => <[mk_index op := Err e]> results | Ok _ => results end)
  end.

(** File replicas of [ops]. *)
Definition read_multi_files (c : Client) (prefer_same_node : bool)
    (ops : gmap string MultiDiskKeyInfo) (results : list (expected Z))
  : rio (list (expected Z)) :=
  let! st := mfold prepare_multi (MkMultiBatch results [] ∅ ∅) (iteration _ ops) in
  let! results :=
    (if bool_decide (mb_ops st = []) then ret (mb_results st)
     else
       let! rs := on_client (BatchGet_query c (iteration _) (mk_key <$> (mb_ops st).*1)
                               (mb_ops st).*2 (mb_slices st) prefer_same_node) in
       mfold (finish_multi (mb_handles st)) (mb_results st) (zip (mb_ops st).*1 rs)) in
  mmap free_handle (iteration _ (mb_handles st)).*2 ;;;
  ret results.

(** Peer replicas first, then file replicas. *)
Definition read_multi_disk (c : Client) (prefer_same_node : bool)
    (ops : gmap string MultiDiskKeyInfo) (results : list (expected Z))
  : rio (option (list (expected Z))) :=
  if bool_decide (ops = ∅) then ret (Some results)
  else
    match fold_left group_multi (iteration _ ops) (Some (results, ∅)) with
    | None => ret None
    | Some (results, offload_objects) =>
        let! results := mfold (read_offload (multi_index_in ops)) results
                          (iteration _ offload_objects) in
        let! results := read_multi_files c prefer_same_node ops results in
        ret (Some results)
    end.

(** [None] stands for a read outside a vector of sizes. *)
Definition batch_get_into_multi_buffers_internal (rc : RealClient) (keys : list string)
    (all_buffers all_sizes : list (list Z)) (prefer_alloc_in_same_node : bool)
  : rio (option (list (expected Z))) :=
  let fail := Some (replicate (length keys) (Err INVALID_PARAMS)) in
  match client_ rc with
  | None => ret fail
  | Some c =>
      if negb (length keys =? length all_buffers)%nat || negb (length keys =? length all_sizes)%nat
      then ret fail
      else if bool_decide (keys = []) then ret (Some [])
      else
        let! query_results := on_client (BatchQuery keys) in
        let! eps := GetLocalEndpoints in
        let st := fold_left (classify_multi eps)
                    (indexed (zip (zip keys (zip all_buffers all_sizes)) query_results))
                    (MkMultiState [] [] ∅ false) in
        if ms_undefined st then ret None
        else if bool_decide (ms_valid st = []) && bool_decide (ms_disk st = ∅)
        then ret (Some (ms_results st))
        else
          let! results := read_valid c prefer_alloc_in_same_node (ms_valid st) (ms_results st) in
          read_multi_disk c prefer_alloc_in_same_node (ms_disk st) results
  end.

(** ** Dummy clients *)

Definition batch_get_into_dummy_helper (rc : RealClient) (keys : list string)
    (dummy_buffers sizes : list Z) (client_id : UUID) : rio (list (expected Z)) :=
  with_context rc client_id (replicate (length keys) (Err INVALID_PARAMS)) (λ context,
    match map_dummy_addrs_to_real_ptrs (mapped_shms context) dummy_buffers sizes with
    | Err e => ret (replicate (length keys) (Err e))
    | Ok buffers => batch_get_into_internal rc keys buffers sizes
    end).

Definition batch_get_into_multi_buffers_dummy_helper (rc : RealClient) (keys : list string)
    (dummy_all_buffers all_sizes : list (list Z)) (prefer_alloc_in_same_node : bool)
    (client_id : UUID) : rio (option (list (expected Z))) :=
  with_context rc client_id (Some (replicate (length keys) (Err INVALID_PARAMS))) (λ context,
    match map_dummy_nested_addrs_to_real_ptrs (mapped_shms context) dummy_all_buffers all_sizes
            keys with
    | Err e => ret (Some (replicate (length keys) (Err e)))
    | Ok real_all_buffers =>
        batch_get_into_multi_buffers_internal rc keys real_all_buffers all_sizes
          prefer_alloc_in_same_node
    end).

(** ** Writes from lists of buffers *)

Section Writes.
Context (DetermineReplicaWriteMode : ReplicateConfig → ReplicaWriteMode).
Context (toString : ErrorCode → string) (default_config : ReplicateConfig).

(** [batched_slices]; [None]: a row whose sizes do not match. *)
Definition batched_rows (all_buffers all_sizes : list (list Z)) : option (list (list Slice)) :=
  mapM (λ row : list Z * list Z,
    if negb (length row.1 =? length row.2)%nat then None
    else Some (multi_slices row.1 row.2)) (zip all_buffers all_sizes).

Definition batch_put_from_multi_buffers_internal (rc : RealClient) (keys : list string)
    (all_buffers all_sizes : list (list Z)) (config : ReplicateConfig)
  : rio (list (expected unit)) :=
  let fail := replicate (length keys) (Err INVALID_PARAMS) in
  match client_ rc with
  | None => ret fail
  | Some c =>
      if negb (length keys =? length all_buffers)%nat
         || negb (length all_buffers =? length all_sizes)%nat
      then ret fail
      else
        match batched_rows all_buffers all_sizes with
        | None => ret fail
        | Some batched_slices =>
            on_client (BatchPut DetermineReplicaWriteMode toString default_config c (iteration _)
                         keys batched_slices config)
        end
  end.

Definition batch_put_from_multi_buffers_dummy_helper (rc : RealClient) (keys : list string)
    (dummy_all_buffers all_sizes : list (list Z)) (config : ReplicateConfig) (client_id : UUID)
  : rio (list (expected unit)) :=
  with_context rc client_id (replicate (length keys) (Err INVALID_PARAMS)) (λ context,
    match map_dummy_nested_addrs_to_real_ptrs (mapped_shms context) dummy_all_buffers all_sizes
            keys with
    | Err e => ret (replicate (length keys) (Err e))
    | Ok real_all_buffers =>
        batch_put_from_multi_buffers_internal rc keys real_all_buffers all_sizes config
    end).

(** [toInt] is the number of an error code. *)
Definition put_from_with_metadata (toInt : ErrorCode → Z) (rc : RealClient) (key : ObjectKey)
    (buffer metadata_buffer size metadata_size : Z) (config : ReplicateConfig) : rio Z :=
  if prefer_alloc_in_same_node config then ret (-1)
  else
    match client_ rc with
    | None => ret (-1)
    | Some c =>
        if size =? 0 then ret 0
        else
          let! put_result :=
            on_client (Put DetermineReplicaWriteMode c key
                         (buffer_slices metadata_buffer metadata_size ++ buffer_slices buffer size)
                         config) in
          ret (match put_result with Err e => - toInt e | Ok _ => 0 end)
    end.
End Writes.
End Reads.
