(* ===== verification/RealGetSafe.v ===== *)
(** * Memory safety of the batched reads

    Every byte a batched read writes lies in a buffer of the caller or in a
    temporary buffer that is live at that moment, and all temporary buffers are
    freed: [batch_get_into] and [batch_get_into_multi_buffers], for requests that
    do not repeat a key. *)

From S2P Require Import Prelude CxxString StoreTypes ReplicaPolicy Samples PutPath BatchPut GetPath DummyMap RangedRead RangedPrepare RangedReadSpec RangedDelivery RealWrite RealGetInto.
From stdpp Require Import base strings list sets gmap fin_maps.
From Stdlib Require Import ZArith Lia.

#[local] Open Scope Z_scope.
#[local] Set Default Proof Using "Type".

(** ** Temporary buffers that outlive a block *)

Section Logic.
Context (R : Z * Z → Prop).

(** Like [safe], with the live buffers afterwards as part of the result. *)
Definition safe_to {A} (live : list (Z * Z)) (m : rio A) (Q : A → list (Z * Z) → Prop) : Prop :=
  ∀ h v evs, m h = (v, evs) → safe_trace R live evs ∧ Q v (live_after live evs).

Lemma safe_to_ret {A} live (a : A) (Q : A → list (Z * Z) → Prop) :
  Q a live → safe_to live (ret a) Q.
Proof. intros HQ h v evs [-> ->]%ret_inv. done. Qed.

Lemma safe_to_bind {A B} live (m : rio A) (k : A → rio B) Q Q' :
  safe_to live m Q → (∀ a live', Q a live' → safe_to live' (k a) Q') →
  safe_to live (bind m k) Q'.
Proof.
  intros Hm Hk h v evs (a & e1 & e2 & E1 & E2 & ->)%bind_inv.
  apply Hm in E1 as [S1 HQ]. apply (Hk _ _ HQ) in E2 as [S2 HQ'].
  split; [by apply safe_trace_app|]. unfold live_after in *. by rewrite fold_left_app.
Qed.

Lemma safe_to_weaken {A} live (m : rio A) (Q Q' : A → list (Z * Z) → Prop) :
  safe_to live m Q → (∀ a l, Q a l → Q' a l) → safe_to live m Q'.
Proof. intros Hm HQ h v evs E. apply Hm in E as [? ?]. auto. Qed.

Lemma safe_safe_to {A} live (m : rio A) Q :
  safe R live m Q → safe_to live m (λ a l, l = live ∧ Q a).
Proof. intros Hm h v evs E. apply Hm in E as (? & ? & ?). auto. Qed.

Lemma safe_to_safe {A} live (m : rio A) (Q : A → Prop) :
  safe_to live m (λ a l, l = live ∧ Q a) → safe R live m Q.
Proof. intros Hm h v evs E. apply Hm in E as (? & ? & ?). auto. Qed.

Lemma safe_to_mfold {S A} live (body : S → A → rio S) (I : list A → S → list (Z * Z) → Prop) l st :
  I [] st live →
  (∀ done x todo s lv, l = done ++ x :: todo → I done s lv →
     safe_to lv (body s x) (λ s' lv', I (done ++ [x]) s' lv')) →
  safe_to live (mfold body st l) (λ s lv, I l s lv).
Proof.
  intros Hst Hstep.
  assert (Hgen : ∀ todo done s lv, l = done ++ todo → I done s lv →
    safe_to lv (mfold body s todo) (λ s' lv', I l s' lv')).
  { induction todo as [|x todo IH]; intros done s lv Hl HI; cbn [mfold].
    - apply safe_to_ret. rewrite app_nil_r in Hl. by rewrite Hl.
    - eapply safe_to_bind; [by eapply Hstep|]. intros s' lv' HI'. cbn beta in HI'.
      apply (IH (done ++ [x])); [by rewrite <- app_assoc|done]. }
  by apply (Hgen l []).
Qed.

Lemma safe_to_allocate live (f : list real_event → option Z) n (Q : option Z → list (Z * Z) → Prop) :
  (∀ h, match f h with Some p => Q (Some p) ((p, n) :: live) | None => Q None live end) →
  safe_to live (call f (RAllocate n)) Q.
Proof.
  intros HQ h v evs [-> ->]%call_inv. specialize (HQ h).
  destruct (f h) as [p|]; cbn; (split; [by split_and!|done]).
Qed.

Lemma safe_to_free live p (Q : unit → list (Z * Z) → Prop) :
  Q tt (free_first p live) → safe_to live (free_handle p) Q.
Proof. intros HQ h v evs [-> ->]%call_inv. cbn. split; [by split_and!|done]. Qed.

(** Freeing the buffers of [hs], in any order. *)
Lemma free_first_mem p hs live :
  p ∈ hs.*1 → ∃ hs', free_first p (hs ++ live) = hs' ++ live ∧ hs.*1 ≡ₚ p :: hs'.*1.
Proof.
  induction hs as [|[q n] hs IH]; [by intros ?%elem_of_nil|]. cbn. intros Hp.
  destruct (Z.eqb_spec q p) as [->|Hne]; [by exists hs|].
  apply elem_of_cons in Hp as [->|Hp]; [done|]. apply IH in Hp as (hs' & -> & Hperm).
  exists ((q, n) :: hs'). split; [done|]. cbn. rewrite Hperm. apply perm_swap.
Qed.

Lemma safe_to_free_all hs live ps :
  ps ≡ₚ hs.*1 → safe_to (hs ++ live) (mmap free_handle ps) (λ _ l, l = live).
Proof.
  revert hs. induction ps as [|p ps IH]; intros hs Hperm; cbn [mmap].
  { apply safe_to_ret. apply Permutation_nil_l in Hperm. symmetry in Hperm.
    apply fmap_nil_inv in Hperm. by subst. }
  destruct (free_first_mem p hs live) as (hs' & Hfree & Hhs);
    [rewrite <- Hperm; by left|].
  eapply safe_to_bind; [by apply safe_to_free with (Q := λ _ l, l = hs' ++ live)|].
  intros [] l Hl. cbn beta in Hl. subst l. eapply safe_to_bind; [apply IH|].
  - apply (Permutation_cons_inv (a := p)). by rewrite Hperm, Hhs.
  - intros us l Hl. by apply safe_to_ret.
Qed.
End Logic.

(** ** What [BatchGet] of the store client writes *)

Section BatchGet.
Context `{!MasterClient, !TransferSubmitter, !HotCache, !StorageBackend, !Clock}.
Context (c : Client) (P : Z * Z → Prop).
Context (iteration : gmap string BatchGetOperation → list (string * BatchGetOperation)).
Context (iteration_perm : ∀ m, iteration m ≡ₚ map_to_list m).

(** The slices of the keys that have a complete replica are writable. *)
Definition batch_writable (slices : gmap string (list Slice)) (kqs : list (ObjectKey * QueryResult))
  : Prop :=
  ∀ key q ss r, (key, q) ∈ kqs → slices !! key = Some ss →
    FindFirstCompleteReplica (replicas q) = Some r → Forall (λ s, P (slice_range s)) ss.

Lemma client_safe_mmap {A B} (body : A → io B) l :
  (∀ x, x ∈ l → client_safe P (body x)) → client_safe P (mmap body l).
Proof.
  induction l as [|x l IH]; intros Hl; cbn [mmap]; [apply client_safe_ret|].
  apply client_safe_bind; [apply Hl; by left|]. intros y.
  apply client_safe_bind; [apply IH; intros z Hz; apply Hl; by right|].
  intros ys. apply client_safe_ret.
Qed.

Lemma client_safe_mfold {S A} (body : S → A → io S) l st :
  (∀ s x, x ∈ l → client_safe P (body s x)) → client_safe P (mfold body st l).
Proof.
  revert st. induction l as [|x l IH]; intros st Hl; cbn [mfold]; [apply client_safe_ret|].
  apply client_safe_bind; [apply Hl; by left|]. intros s.
  apply IH. intros s' z Hz. apply Hl. by right.
Qed.

Ltac quiet_run :=
  repeat (cbn [fst snd]; lazymatch goal with
    | |- ∀ _, _ => intro
    | |- client_safe _ (ret _) => apply client_safe_ret
    | |- client_safe _ (bind _ _) => apply client_safe_bind
    | |- client_safe _ (call _ _) => apply client_safe_call; intro; by constructor
    | |- client_safe _ (match ?x with _ => _ end) => destruct x
    end).

Lemma lookup_cache_quiet key r : client_safe P (lookup_cache c key r).
Proof. unfold lookup_cache, RedirectToHotCache, when, cache_do, cache_get. quiet_run. Qed.

Lemma release_cache_quiet key b : client_safe P (release_cache c key b).
Proof. unfold release_cache, when, cache_do. quiet_run. Qed.

Lemma future_get_quiet f : client_safe P (future_get f).
Proof. apply client_safe_call. intros. constructor. Qed.

Lemma submit_get_writes slices kqs i key q :
  batch_writable slices kqs → (key, q) ∈ kqs → client_safe P (submit_get c slices (i, (key, q))).
Proof.
  intros Hw Hin. unfold submit_get. destruct (slices !! key) as [ss|] eqn:Hss;
    [|apply client_safe_ret].
  destruct (FindFirstCompleteReplica (replicas q)) as [r|] eqn:Hr; [|apply client_safe_ret].
  apply client_safe_bind; [apply lookup_cache_quiet|]. intros lk.
  apply client_safe_bind.
  - apply client_safe_call. intros f. cbn. apply Forall_fmap. by eapply Hw.
  - intros [f|]; [apply client_safe_ret|]. apply client_safe_bind; [|intros; apply client_safe_ret].
    apply release_cache_quiet.
Qed.

Lemma wait_get_quiet slices rs p : client_safe P (wait_get c slices rs p).
Proof.
  unfold wait_get. apply client_safe_bind; [apply future_get_quiet|]. intros result.
  apply client_safe_bind; [apply release_cache_quiet|]. intros _.
  destruct (negb _); [apply client_safe_ret|].
  apply client_safe_bind; [|intros; apply client_safe_ret].
  destruct (slices !! pg_key p); [|apply client_safe_ret]. unfold when.
  destruct (has_hot_cache c); [apply promote_quiet|apply client_safe_ret].
Qed.

Lemma indexed_member {A} (l : list A) i x : (i, x) ∈ indexed l → x ∈ l.
Proof.
  intros [j Hj]%list_elem_of_lookup. rewrite lookup_indexed in Hj.
  destruct (l !! j) eqn:E; simplify_eq/=. by eapply list_elem_of_lookup_2.
Qed.

Lemma batch_get_parallel_writes keys qs slices :
  batch_writable slices (zip keys qs) → client_safe P (batch_get_parallel c keys qs slices).
Proof.
  intros Hw. unfold batch_get_parallel. apply client_safe_bind.
  { apply client_safe_mmap. intros [i [key q]] Hin. apply indexed_member in Hin.
    by eapply submit_get_writes. }
  intros submitted. apply client_safe_bind.
  { apply client_safe_mfold. intros. apply wait_get_quiet. }
  intros rs. apply client_safe_bind; [|intros; apply client_safe_ret].
  apply client_safe_call. intros. constructor.
Qed.

(** *** The same-node variant *)

Definition op_writable (op : BatchGetOperation) : Prop :=
  Forall (Forall (λ s, P (slice_range s))) (go_batched_slices op).

Definition group_writable (m : gmap string BatchGetOperation) : Prop :=
  ∀ seg op, m !! seg = Some op → op_writable op.

Lemma group_get_writes slices kqs st i key q h st' evs :
  batch_writable slices kqs → (key, q) ∈ kqs → group_writable st.2 →
  group_get c slices st (i, (key, q)) h = (st', evs) →
  Forall (λ e, Forall P (client_writes e)) evs ∧ group_writable st'.2.
Proof.
  intros Hw Hin Hst. destruct st as [results m]. unfold group_get.
  destruct (slices !! key) as [ss|] eqn:Hss; [|by intros [-> ->]%ret_inv].
  destruct (FindFirstCompleteReplica (replicas q)) as [r|] eqn:Hr; [|by intros [-> ->]%ret_inv].
  destruct (negb _); [by intros [-> ->]%ret_inv|].
  intros (lk & e1 & e2 & E1 & E2 & ->)%bind_inv. apply lookup_cache_quiet in E1.
  assert (Hns : ∀ seg op, op_writable op → group_writable
     (<[seg := MkGetOp (go_replicas op ++ [lk.1]) (go_batched_slices op ++ [ss])
                 (go_key_indexes op ++ [i]) (go_cache_used op ++ [lk.2]) (go_futures op)]> m)).
  { intros seg op Hop seg' op' [[<- <-]|[_ Hl]]%lookup_insert_Some; [|by eapply Hst].
    unfold op_writable. cbn. apply Forall_app. split; [done|]. constructor; [|done].
    by eapply Hw. }
  destruct (data lk.1); try (by apply ret_inv in E2 as [-> ->]; rewrite app_nil_r).
  destruct (size_ _ =? 0); apply ret_inv in E2 as [-> ->]; rewrite app_nil_r; [done|].
  split; [done|]. cbn [snd]. apply Hns.
  destruct (m !! _) as [op|] eqn:E; cbn; [by eapply Hst|constructor].
Qed.

Lemma group_gets_writes slices kqs l st h st' evs :
  batch_writable slices kqs → (∀ i kq, (i, kq) ∈ l → kq ∈ kqs) → group_writable st.2 →
  mfold (group_get c slices) st l h = (st', evs) →
  Forall (λ e, Forall P (client_writes e)) evs ∧ group_writable st'.2.
Proof.
  intros Hw. revert st h evs. induction l as [|[i [key q]] l IH]; intros st h evs Hl Hst; cbn [mfold].
  { by intros [-> ->]%ret_inv. }
  intros (s1 & e1 & e2 & E1 & E2 & ->)%bind_inv.
  eapply group_get_writes in E1 as [Hw1 Hs1]; [|done|eapply Hl; by left|done].
  apply IH in E2 as [Hw2 Hs2]; [|intros j kq Hj; eapply Hl; by right|done].
  split; [by apply Forall_app|done].
Qed.

Lemma fail_segment_quiet keys op rs x : client_safe P (fail_segment_key c keys op rs x).
Proof.
  destruct x as [idx index]. unfold fail_segment_key.
  apply client_safe_bind; [|intros; apply client_safe_ret].
  apply release_cache_quiet.
Qed.

Lemma submit_segment_writes keys acc seg op :
  op_writable op → client_safe P (submit_segment_read c keys acc (seg, op)).
Proof.
  intros Hop. destruct acc as [results ops]. unfold submit_segment_read. cbn [snd].
  apply client_safe_bind.
  - apply client_safe_call. intros f. cbn. apply Forall_fmap. unfold op_writable in Hop.
    by apply Forall_join.
  - intros [f|]; [apply client_safe_ret|]. apply client_safe_bind; [|intros; apply client_safe_ret].
    apply client_safe_mfold. intros. apply fail_segment_quiet.
Qed.

Lemma wait_segment_quiet keys rs op : client_safe P (wait_segment c keys rs op).
Proof.
  unfold wait_segment. destruct (go_futures op) as [|f fs]; [apply client_safe_ret|].
  apply client_safe_bind; [apply future_get_quiet|]. intros result.
  destruct (negb _); apply client_safe_mfold; [intros; apply fail_segment_quiet|].
  intros s [idx index] _. unfold complete_segment_key.
  apply client_safe_bind; [apply release_cache_quiet|]. intros _. apply client_safe_bind; [|intros; apply client_safe_ret].
  destruct (go_replicas op !! idx); [|apply client_safe_ret].
  destruct (go_batched_slices op !! idx); [apply promote_quiet|apply client_safe_ret].
Qed.

Lemma same_node_writes keys qs slices :
  batch_writable slices (zip keys qs) →
  client_safe P (BatchGetWhenPreferSameNode c iteration keys qs slices).
Proof using iteration_perm.
  intros Hw h v evs (grouped & e1 & e2 & E1 & E2 & ->)%bind_inv.
  eapply group_gets_writes in E1 as [Hw1 Hg]; [|exact Hw| |].
  2:{ intros i kq Hi. by apply indexed_member in Hi. }
  2:{ intros seg op Hl. cbn in Hl. by rewrite lookup_empty in Hl. }
  apply Forall_app. split; [done|]. revert E2. generalize (h ++ e1). intros h'. revert v e2.
  assert (Hrest : client_safe P (let! submitted := mfold (submit_segment_read c keys) (grouped.1, [])
                                  (iteration grouped.2) in
                                mfold (wait_segment c keys) submitted.1 submitted.2)).
  { apply client_safe_bind; [|intros; apply client_safe_mfold; intros; apply wait_segment_quiet].
    apply client_safe_mfold. intros acc [seg op] Hin. apply submit_segment_writes.
    rewrite iteration_perm in Hin. apply elem_of_map_to_list in Hin. by eapply Hg. }
  intros v e2 E2. by eapply Hrest.
Qed.

Lemma batch_get_query_writes keys qs slices prefer :
  batch_writable slices (zip keys qs) →
  client_safe P (BatchGet_query c iteration keys qs slices prefer).
Proof using iteration_perm.
  intros Hw. unfold BatchGet_query. destruct (negb _); [apply client_safe_ret|].
  destruct (negb _); [apply client_safe_ret|].
  destruct prefer; [by apply same_node_writes|by apply batch_get_parallel_writes].
Qed.
End BatchGet.

(** ** Choice of a file replica *)

(** When the best replica is a file, the first file of the list is it, or is
    not complete. *)
Lemma select_disk_first eps rs r r0 :
  SelectBestReplica rs eps = Some r → is_disk_replica r = true →
  List.find is_disk_replica rs = Some r0 → is_complete r0 = true → r0 = r.
Proof.
  intros Hbest Hd Hfind Hc. unfold SelectBestReplica in Hbest.
  assert (Hkind : is_memory_replica r = false ∧ is_nof_replica r = false ∧
                  is_local_disk_replica r = false).
  { unfold is_disk_replica, is_memory_replica, is_nof_replica, is_local_disk_replica in *.
    by destruct (data r). }
  destruct Hkind as (Hm & Hn & Hl).
  destruct (scan_memory eps rs None None) as [x|[m n]] eqn:E.
  { injection Hbest as ->. apply scan_memory_inl in E as (_ & _ & Hrank).
    destruct (rank_kind eps r) as (_ & _ & _ & Hk). rewrite (Hk Hd) in Hrank. done. }
  apply scan_memory_inr in E as (_ & -> & ->).
  destruct (List.find (usable is_memory_replica) rs) as [x|] eqn:Em.
  { injection Hbest as ->. apply usable_some in Em as (_ & _ & ?). congruence. }
  destruct (List.find (usable is_nof_replica) rs) as [x|] eqn:En.
  { injection Hbest as ->. apply usable_some in En as (_ & _ & ?). congruence. }
  rewrite better_disk_fold in Hbest. destruct (last _) as [x|] eqn:El.
  { injection Hbest as ->. apply last_Some_elem_of, list_elem_of_In, filter_In in El as [_ Hu].
    unfold usable in Hu. apply andb_true_iff in Hu as [_ ?]. congruence. }
  clear Em En El. revert Hbest Hfind. induction rs as [|x rs IH]; cbn [List.find]; [done|].
  assert (Hx : usable is_disk_replica x = is_complete x && is_disk_replica x) by done.
  rewrite Hx. clear Hx. destruct (is_disk_replica x) eqn:Ex.
  - intros Hb [= ->]. rewrite Hc in Hb. cbn in Hb. congruence.
  - rewrite andb_false_r. apply IH.
Qed.

Lemma fold_left_prefix {S A} (f : S → A → S) (I : list A → S → Prop) l st :
  I [] st → (∀ done x todo s, l = done ++ x :: todo → I done s → I (done ++ [x]) (f s x)) →
  I l (fold_left f l st).
Proof.
  intros Hst Hstep.
  assert (Hgen : ∀ todo done s, l = done ++ todo → I done s → I l (fold_left f todo s)).
  { induction todo as [|x todo IH]; intros done s Hl HI; cbn.
    - rewrite app_nil_r in Hl. by rewrite Hl.
    - apply (IH (done ++ [x])); [by rewrite <- app_assoc|]. by eapply Hstep. }
  by apply (Hgen l []).
Qed.

(** ** [batch_get_into] *)

Section Into.
Context `{!MasterClient, !TransferSubmitter, !HotCache, !StorageBackend, !Clock}.
Context `{!RealServices} {laws : RealServicesLaws}.
Context (iteration : ∀ A : Type, gmap string A → list (string * A)).
Context (iteration_perm : ∀ A (m : gmap string A), iteration A m ≡ₚ map_to_list m).
Context (R : Z * Z → Prop).
Context (R_inside : ∀ w r, inside w r → R r → R w).

Definition slices_ok (ss : list Slice) : Prop := Forall (λ s, R (slice_range s)) ss.

Lemma allocate_slices_ok r p : R (p, calculate_total_size r) → slices_ok (allocateSlices r p).
Proof using laws R_inside.
  intros HR. apply Forall_forall. intros s Hs. eapply R_inside; [|exact HR]. by apply slices_in.
Qed.

Definition disk_ok (eps : list string) (op : DiskKeyInfo) : Prop :=
  R (dk_dst_buffer op, dk_total_size op) ∧
  ∃ r, SelectBestReplica (replicas (dk_query_result op)) eps = Some r ∧
       is_disk_replica r = true ∧ dk_total_size op = calculate_total_size r.

Record into_ok (eps : list string) (keys : list string) (st : IntoState) : Prop := {
  ok_valid : Forall (λ op, slices_ok (vk_slices op)) (is_valid st);
  ok_local : ∀ key op, is_local_disk st !! key = Some op → slices_ok (vk_slices op);
  ok_disk : Forall (disk_ok eps) (is_disk st);
  ok_disk_keys : dk_key <$> is_disk st `sublist_of` keys }.

Lemma emplace_lookup {A} key (v : A) m k x :
  emplace key v m !! k = Some x → m !! k = Some x ∨ (k = key ∧ x = v).
Proof.
  unfold emplace. destruct (m !! key) eqn:E; [by left|].
  intros [[<- <-]|[_ ?]]%lookup_insert_Some; auto.
Qed.

Lemma classify_key_ok eps keys st i key buffer size q :
  (∀ w, inside w (buffer, size) → R w) → into_ok eps keys st →
  into_ok eps (keys ++ [key]) (classify_key eps st (i, (key, (buffer, size), q))).
Proof using laws R_inside.
  intros HR [Hv Hl Hd Hk]. unfold classify_key.
  assert (Hkeys : dk_key <$> is_disk st `sublist_of` keys ++ [key])
    by (by apply sublist_inserts_r).
  destruct (choose_replica eps q) as [[qr r]|e] eqn:Hch; [|by split].
  assert (Hbest : SelectBestReplica (replicas qr) eps = Some r).
  { unfold choose_replica in Hch. destruct q as [q|]; [|done]. case_bool_decide; [done|].
    destruct (SelectBestReplica _ _) eqn:E; simplify_eq. done. }
  destruct (size <? calculate_total_size r) eqn:Hsize; [by split|].
  assert (HRt : R (buffer, calculate_total_size r)) by (apply HR; unfold inside; cbn; lia).
  pose proof (allocate_slices_ok r buffer HRt) as Hss.
  destruct (data r) eqn:Hdata; split; cbn; try done.
  - apply Forall_app. split; [done|]. by constructor.
  - apply Forall_app. split; [done|]. by constructor.
  - apply Forall_app. split; [done|]. constructor; [|done]. split; [done|].
    exists r. split_and!; [done| |done]. unfold is_disk_replica. by rewrite Hdata.
  - rewrite fmap_app. by apply sublist_app.
  - intros k op [?|[_ ->]]%emplace_lookup; [by eapply Hl|done].
Qed.

Lemma classify_keys_ok eps keys buffers sizes qs rs :
  (∀ i b n w, buffers !! i = Some b → sizes !! i = Some n → inside w (b, n) → R w) →
  length keys = length buffers → length keys = length sizes →
  let l := indexed (zip (zip keys (zip buffers sizes)) qs) in
  into_ok eps ((λ ix, ix.2.1.1) <$> l) (fold_left (classify_key eps) l (MkIntoState rs [] ∅ [])).
Proof using laws R_inside.
  intros HR Hb Hs l.
  apply (fold_left_prefix _ (λ done st, into_ok eps ((λ ix, ix.2.1.1) <$> done) st)).
  { split; cbn; [constructor| |constructor|done]. intros k op Hop. by rewrite lookup_empty in Hop. }
  intros done [i [[key [b n]] q]] todo st Hl Hok. rewrite fmap_app. cbn.
  apply classify_key_ok; [|done]. intros w Hw.
  assert (Hi : l !! length done = Some (i, (key, (b, n), q))) by (by rewrite Hl, list_lookup_middle).
  unfold l in Hi. rewrite lookup_indexed, lookup_zip_with, lookup_zip_with, lookup_zip_with in Hi.
  destruct (keys !! _) eqn:E1; [|done]. destruct (buffers !! _) eqn:E2; [|done].
  destruct (sizes !! _) eqn:E3; [|done]. destruct (qs !! _); [|done]. simplify_eq/=.
  by eapply HR.
Qed.

Lemma zip_keys_nodup {B C} (keys : list string) (l : list B) (qs : list C) :
  NoDup keys → NoDup ((λ ix, ix.2.1.1) <$> indexed (zip (zip keys l) qs)).
Proof.
  intros Hnd. apply NoDup_alt. intros i j key Hi Hj. rewrite list_lookup_fmap, lookup_indexed in Hi, Hj.
  rewrite !lookup_zip_with in Hi, Hj.
  destruct (keys !! i) eqn:E1; [|done]. destruct (l !! i); [|done]. destruct (qs !! i); [|done].
  destruct (keys !! j) eqn:E2; [|done]. destruct (l !! j); [|done]. destruct (qs !! j); [|done].
  simplify_eq/=. by eapply NoDup_lookup.
Qed.

(** *** Memory replicas *)

Lemma batch_slices_lookup ops key ss :
  batch_slices ops !! key = Some ss → ∃ op, op ∈ ops ∧ vk_key op = key ∧ vk_slices op = ss.
Proof.
  apply (fold_left_prefix _ (λ (done : list ValidKeyInfo) (m : gmap string (list Slice)), m !! key = Some ss →
    ∃ op, op ∈ done ∧ vk_key op = key ∧ vk_slices op = ss)).
  - by rewrite lookup_empty.
  - intros done op todo m _ IH [[<- <-]|[_ Hm]]%lookup_insert_Some.
    + exists op. split; [|done]. apply elem_of_app. right. by left.
    + apply IH in Hm as (op' & ? & ?). exists op'. split; [|done]. apply elem_of_app. by left.
Qed.

Lemma read_valid_safe c prefer ops rs live :
  Forall (λ op, slices_ok (vk_slices op)) ops →
  safe R live (read_valid iteration c prefer ops rs) (λ _, True).
Proof using iteration_perm.
  intros Hops. unfold read_valid. case_bool_decide; [by apply safe_ret|].
  eapply safe_bind; [|intros; by apply safe_ret].
  eapply (on_client_quiet _ _ _ R); [|by left].
  apply batch_get_query_writes; [apply iteration_perm|].
  intros key q ss r _ Hss _. apply batch_slices_lookup in Hss as (op & Hop & _ & <-).
  by apply (proj1 (Forall_forall _ _) Hops).
Qed.

(** *** File replicas *)

Lemma elem_inside w b hs : b ∈ hs → inside w b → Exists (inside w) hs.
Proof. intros Hb Hw. apply Exists_exists. eauto. Qed.

Lemma find_complete_singleton q r r' :
  FindFirstCompleteReplica (replicas (FilterQueryResult q r)) = Some r' →
  r' = r ∧ is_complete r = true.
Proof.
  unfold FindFirstCompleteReplica. cbn. destruct (is_complete r) eqn:E; [|done]. by intros [= <-].
Qed.

(** Operations with temporary buffers: those in [hs] are held by the handles, and
    the slices of an operation with a complete replica lie in its buffer. *)
Section Batch.
Context {Op : Type} (key : Op → string) (size : Op → Z).

Record batch_ok (done : list Op) (ops : list (Op * QueryResult))
    (slices : gmap string (list Slice)) (handles : gmap string Z) (hs : list (Z * Z)) : Prop := {
  bo_handles : (map_to_list handles).*2 ≡ₚ hs.*1;
  bo_keys : ∀ k p, handles !! k = Some p → k ∈ key <$> done;
  bo_ops : ∀ oq, oq ∈ ops → (oq.1 ∈ done) ∧
     ∃ p, (handles !! key oq.1 = Some p) ∧ ((p, size oq.1) ∈ hs) ∧
          (∃ h, r_allocate h (size oq.1) = Some p);
  bo_slices : ∀ oq ss r, oq ∈ ops → slices !! key oq.1 = Some ss →
     FindFirstCompleteReplica (replicas oq.2) = Some r →
     Forall (λ s, Exists (inside (slice_range s)) hs) ss }.

Lemma batch_ok_nil : batch_ok [] [] ∅ ∅ [].
Proof.
  split.
  - by rewrite map_to_list_empty.
  - intros k p Hp. by rewrite lookup_empty in Hp.
  - intros oq Hoq. by apply elem_of_nil in Hoq.
  - intros oq ss r Hoq. by apply elem_of_nil in Hoq.
Qed.

Lemma batch_ok_skip done ops slices handles hs op :
  batch_ok done ops slices handles hs → batch_ok (done ++ [op]) ops slices handles hs.
Proof.
  intros [Hh Hk Ho Hs]. split; [done| | |done].
  - intros k p Hp. rewrite fmap_app. apply elem_of_app. left. by eapply Hk.
  - intros oq Hoq. destruct (Ho oq Hoq) as [Hd Hp]. split; [|done]. apply elem_of_app. by left.
Qed.

Lemma batch_ok_fresh done ops slices handles hs op :
  batch_ok done ops slices handles hs → key op ∉ key <$> done → handles !! key op = None.
Proof. intros [_ Hk _ _] Hnew. apply eq_None_not_Some. intros [x Hx]. by apply Hk in Hx. Qed.

Lemma batch_ok_add done ops slices handles hs op q r0 p h :
  batch_ok done ops slices handles hs → key op ∉ key <$> done →
  (is_complete r0 = true → size op = calculate_total_size r0) →
  r_allocate h (size op) = Some p →
  batch_ok (done ++ [op]) (ops ++ [(op, FilterQueryResult q r0)])
    (<[key op := allocateSlices r0 p]> slices) (<[key op := p]> handles) ((p, size op) :: hs).
Proof using laws.
  intros Hok Hnew Htot Halloc. pose proof (batch_ok_fresh _ _ _ _ _ _ Hok Hnew) as Hnone.
  pose proof (batch_ok_skip _ _ _ _ _ op Hok) as [_ Hk' _ _]. destruct Hok as [Hh Hk Ho Hs].
  assert (Hne : ∀ oq, oq ∈ ops → key op ≠ key oq.1).
  { intros oq Hoq Heq. apply Ho in Hoq as [Hd _]. apply Hnew. rewrite Heq.
    by apply list_elem_of_fmap_2. }
  split.
  - rewrite map_to_list_insert by done. cbn. by rewrite Hh.
  - intros k q' [[<- _]|[_ Hq]]%lookup_insert_Some; [|by eapply Hk'].
    rewrite fmap_app. apply elem_of_app. right. by left.
  - intros oq [Hoq|Hoq]%elem_of_app.
    + destruct (Ho oq Hoq) as (Hd & p' & Hp' & Hin & Hal). split; [apply elem_of_app; by left|].
      exists p'. rewrite lookup_insert_ne by (by apply Hne). split_and!; [done|by right|done].
    + apply list_elem_of_singleton in Hoq as ->. cbn. split; [apply elem_of_app; right; by left|].
      exists p. rewrite lookup_insert_eq. split_and!; [done|by left|by exists h].
  - intros oq ss r [Hoq|Hoq]%elem_of_app Hss Hr.
    + rewrite lookup_insert_ne in Hss by (by apply Hne).
      eapply Forall_impl; [by eapply Hs|]. intros s Hx. by right.
    + apply list_elem_of_singleton in Hoq as ->. cbn [fst snd] in Hss, Hr.
      rewrite lookup_insert_eq in Hss.
      injection Hss as <-. apply find_complete_singleton in Hr as [-> Hc].
      apply Forall_forall. intros s Hs'. left. rewrite Htot by done. by apply slices_in.
Qed.

Lemma batch_transfer_safe c done ops slices handles hs live0 prefer :
  batch_ok done ops slices handles hs →
  safe R (hs ++ live0) (on_client (BatchGet_query c (iteration _) (key <$> ops.*1) ops.*2 slices
                                     prefer)) (λ _, True).
Proof using iteration_perm.
  intros [_ _ _ Hs].
  eapply (on_client_quiet _ _ _ (λ w, Exists (inside w) (hs ++ live0))); [|by right].
  apply batch_get_query_writes; [apply iteration_perm|]. intros k q ss r Hin Hss Hr.
  assert (∃ oq, oq ∈ ops ∧ key oq.1 = k ∧ oq.2 = q) as ([op q'] & Hoq & <- & Heq).
  { rewrite <- list_fmap_compose in Hin. clear -Hin. induction ops as [|oq l IH];
      [by apply elem_of_nil in Hin|].
    cbn in Hin. apply elem_of_cons in Hin as [[= -> ->]|Hin].
    - exists oq. split; [by left|done].
    - apply IH in Hin as (oq' & ? & ?). exists oq'. split; [by right|done]. }
  cbn in Heq. subst q'. eapply Forall_impl; [by apply (Hs (op, q) ss r)|].
  intros s Hx. apply Exists_app. by left.
Qed.
End Batch.

Abbreviation disk_batch_ok done st hs :=
  (batch_ok dk_key dk_total_size done (db_ops st) (db_slices st) (db_handles st) hs).

Lemma prepare_disk_ok eps live0 done op st hs :
  disk_ok eps op → dk_key op ∉ dk_key <$> done → disk_batch_ok done st hs →
  safe_to R (hs ++ live0) (prepare_disk st op)
    (λ st' live, ∃ hs', live = hs' ++ live0 ∧ disk_batch_ok (done ++ [op]) st' hs').
Proof using laws.
  intros (Hdst & best & Hbest & Hbd & Htot) Hnew Hok. unfold prepare_disk.
  destruct (List.find is_disk_replica _) as [r0|] eqn:Hfind;
    [|apply safe_to_ret; exists hs; split; [done|by apply batch_ok_skip]].
  eapply safe_to_bind with (Q := λ o l, match o with
    | Some p => l = (p, dk_total_size op) :: hs ++ live0 ∧ ∃ h, r_allocate h (dk_total_size op) = Some p
    | None => l = hs ++ live0 end).
  { apply safe_to_allocate. intros h. destruct (r_allocate h _) eqn:E; [|done]. split; [done|]. eauto. }
  intros [p|] l; [intros (-> & h & Hp)|intros ->];
    [|apply safe_to_ret; exists hs; split; [done|by apply batch_ok_skip]].
  pose proof (batch_ok_fresh _ _ _ _ _ _ _ op Hok Hnew) as Hnone.
  rewrite Hnone. eapply safe_to_bind;
    [by apply safe_to_ret with (Q := λ _ l, l = (p, dk_total_size op) :: hs ++ live0)|].
  intros [] l Hl. cbn beta in Hl. subst l.
  apply safe_to_ret. exists ((p, dk_total_size op) :: hs). split; [done|].
  unfold emplace. rewrite Hnone. cbn. eapply batch_ok_add; [done|done| |exact Hp].
  intros Hc. by rewrite (select_disk_first _ _ _ _ Hbest Hbd Hfind Hc).
Qed.

Lemma Exists_app_l {A} (P : A → Prop) l k : Exists P l → Exists P (l ++ k).
Proof. intros HP. apply Exists_app. by left. Qed.

Lemma disk_finish_safe eps live0 ops st hs rs :
  Forall (disk_ok eps) ops → disk_batch_ok ops st hs →
  safe R (hs ++ live0) (mfold (finish_disk (db_handles st)) (db_results st) (zip (db_ops st).*1 rs))
    (λ _, True).
Proof.
  intros Hops [_ _ Ho _]. apply safe_mfold; [done|]. intros results [op r] Hin _.
  apply elem_of_zip_l, list_elem_of_fmap in Hin as (oq & -> & Hoq).
  destruct (Ho oq Hoq) as (Hd & p & Hp & Hlive & _). unfold finish_disk.
  destruct r as [u|e]; [|by apply safe_ret]. rewrite Hp. cbn [default].
  eapply safe_bind; [apply scatter_safe|intros; by apply safe_ret].
  - by apply (proj1 (Forall_forall _ _) Hops) in Hd as [? _].
  - apply Exists_app_l. eapply elem_inside; [exact Hlive|]. apply inside_refl.
Qed.

Lemma read_disk_safe c eps ops rs live0 :
  Forall (disk_ok eps) ops → NoDup (dk_key <$> ops) →
  safe R live0 (read_disk iteration c ops rs) (λ _, True).
Proof using laws iteration_perm.
  intros Hops Hnd. unfold read_disk. case_bool_decide; [by apply safe_ret|]. apply safe_to_safe.
  eapply safe_to_bind.
  { apply (safe_to_mfold _ _ _ (λ done st live, ∃ hs, live = hs ++ live0 ∧
             disk_batch_ok done st hs)).
    - exists []. split; [done|]. apply batch_ok_nil.
    - intros done op todo st live Hl (hs & -> & Hok). apply (prepare_disk_ok eps); [| |done].
      + apply (proj1 (Forall_forall _ _) Hops). rewrite Hl. apply elem_of_app. right. by left.
      + rewrite Hl, fmap_app in Hnd. apply NoDup_app in Hnd as (_ & Hdis & _). intros Hin.
        apply (Hdis _ Hin). by left. }
  intros st live (hs & -> & Hok). eapply safe_to_bind.
  { apply (safe_safe_to _ _ _ (λ _, True)). case_bool_decide; [by apply safe_ret|].
    eapply safe_bind; [by eapply batch_transfer_safe|]. intros brs _. by eapply disk_finish_safe. }
  intros results live [-> _]. eapply safe_to_bind; [apply safe_to_free_all|].
  - rewrite <- (bo_handles _ _ _ _ _ _ _ Hok). by rewrite iteration_perm.
  - intros us live Hlive. by apply safe_to_ret.
Qed.

(** *** Replicas of peers *)

Definition offload_ok_map (m : offload_map) : Prop :=
  ∀ ep objs key ss, m !! ep = Some objs → objs !! key = Some ss → slices_ok ss.

Lemma add_offload_ok ep key ss m :
  slices_ok ss → offload_ok_map m → offload_ok_map (add_offload ep key ss m).
Proof.
  intros Hss Hm ep' objs key' ss' Hl Hk. unfold add_offload in Hl.
  apply lookup_insert_Some in Hl as [[<- <-]|[_ Hl]]; [|by eapply Hm].
  apply emplace_lookup in Hk as [Hk|[_ ->]]; [|done].
  destruct (m !! ep) as [objs|] eqn:E; cbn in Hk; [by eapply Hm|by rewrite lookup_empty in Hk].
Qed.

Lemma offload_ok_empty : offload_ok_map ∅.
Proof. intros ep objs key ss Hl. by rewrite lookup_empty in Hl. Qed.

Lemma read_offloads_safe index rs m live :
  offload_ok_map m →
  safe R live (mfold (read_offload iteration index) rs (iteration _ m)) (λ _, True).
Proof using iteration_perm.
  intros Hm. apply safe_mfold; [done|]. intros results [ep objs] Hin _.
  rewrite iteration_perm in Hin. apply elem_of_map_to_list in Hin.
  unfold read_offload. cbn [fst snd]. eapply safe_bind; [|intros; by apply safe_ret].
  apply offload_safe. apply Forall_fmap, Forall_join, Forall_fmap, Forall_forall.
  intros [key ss] Hk. rewrite iteration_perm in Hk. apply elem_of_map_to_list in Hk. cbn.
  eapply Forall_impl; [by eapply Hm|]. by left.
Qed.

Lemma batch_query_safe keys live : safe R live (on_client (BatchQuery keys)) (λ _, True).
Proof.
  eapply (on_client_quiet _ _ _ (λ _, False)); [|done].
  unfold BatchQuery. apply client_safe_bind; [apply client_safe_call; intros; constructor|].
  intros t. apply client_safe_bind; [apply client_safe_call; intros; constructor|].
  intros r. destruct (negb _); apply client_safe_ret.
Qed.

Lemma batch_into_safe_from rc keys buffers sizes live :
  (∀ i b n w, buffers !! i = Some b → sizes !! i = Some n → inside w (b, n) → R w) → NoDup keys →
  safe R live (batch_get_into_internal iteration rc keys buffers sizes) (λ _, True).
Proof using laws iteration_perm R_inside.
  intros HR Hnd. unfold batch_get_into_internal. destruct (client_ rc) as [c|]; [|by apply safe_ret].
  destruct (negb _ || negb _) eqn:Hlen; [by apply safe_ret|].
  apply orb_false_iff in Hlen as [Hb Hs].
  assert (length keys = length buffers ∧ length keys = length sizes) as [Hb' Hs'].
  { destruct (Nat.eqb_spec (length keys) (length buffers)); [|done].
    destruct (Nat.eqb_spec (length keys) (length sizes)); [|done]. done. }
  clear Hb Hs. case_bool_decide; [by apply safe_ret|].
  eapply safe_bind with (Q := λ _, True); [apply batch_query_safe|].
  intros qs _. eapply safe_bind with (Q := λ _, True).
  { intros h v evs [= <- <-]. done. }
  intros eps _. set (st := fold_left _ _ _).
  destruct (classify_keys_ok eps keys buffers sizes qs (replicate (length keys) (Ok 0)) HR Hb' Hs')
    as [Hv Hl Hd Hk]. fold st in Hv, Hl, Hd, Hk.
  destruct (_ && _); [by apply safe_ret|].
  eapply safe_bind; [by apply read_valid_safe|]. intros rs1 _.
  eapply safe_bind.
  { apply (read_disk_safe c eps); [done|]. eapply sublist_NoDup; [|exact Hk].
    by apply zip_keys_nodup. }
  intros rs2 _. apply read_offloads_safe.
  apply (fold_left_prefix _ (λ _ m, offload_ok_map m)); [apply offload_ok_empty|].
  intros done [key op] todo m Hin Hm. unfold group_offload. cbn [fst snd].
  destruct (List.find _ _); [|done]. apply add_offload_ok; [|done].
  apply (Hl key). apply elem_of_map_to_list. rewrite <- iteration_perm, Hin.
  apply elem_of_app. right. by left.
Qed.

(** ** [batch_get_into_multi_buffers] *)

Definition row_ok (buffers sizes : list Z) : Prop :=
  Forall (λ bn, R bn ∧ in_u64 bn.2) (zip buffers sizes).

Definition multi_ok (eps : list string) (key : string) (op : MultiDiskKeyInfo) : Prop :=
  mk_key op = key ∧ row_ok (mk_buffers op) (mk_sizes op) ∧
  ∃ r, SelectBestReplica (replicas (mk_query_result op)) eps = Some r ∧
       mk_total_size op = calculate_total_size r ∧
       (mk_is_local_disk op = false → is_disk_replica r = true).

Lemma multi_slices_ok buffers sizes : row_ok buffers sizes → slices_ok (multi_slices buffers sizes).
Proof.
  unfold row_ok, slices_ok, multi_slices. revert sizes.
  induction buffers as [|b buffers IH]; intros [|n sizes]; cbn; intros Hrow; try constructor.
  - by apply Forall_cons in Hrow as [[? _] _].
  - apply Forall_cons in Hrow as [_ ?]. by apply IH.
Qed.

Lemma classify_multi_ok eps keys all_buffers all_sizes qs :
  (∀ i bs ns, all_buffers !! i = Some bs → all_sizes !! i = Some ns → row_ok bs ns) →
  let st := fold_left (classify_multi eps)
              (indexed (zip (zip keys (zip all_buffers all_sizes)) qs)) (MkMultiState [] [] ∅ false) in
  Forall (λ op, slices_ok (vk_slices op)) (ms_valid st) ∧
  ∀ key op, ms_disk st !! key = Some op → multi_ok eps key op.
Proof.
  intros HR. set (l := indexed _). cbn zeta.
  apply (fold_left_prefix _ (λ _ st, Forall (λ op, slices_ok (vk_slices op)) (ms_valid st) ∧
    ∀ key op, ms_disk st !! key = Some op → multi_ok eps key op)).
  { cbn. split; [constructor|]. intros key op Hop. by rewrite lookup_empty in Hop. }
  intros done [i [[key [bs ns]] q]] todo st Hl [Hv Hd].
  assert (Hrow : row_ok bs ns).
  { assert (Hi : l !! length done = Some (i, (key, (bs, ns), q))) by (by rewrite Hl, list_lookup_middle).
    unfold l in Hi. rewrite lookup_indexed, lookup_zip_with, lookup_zip_with, lookup_zip_with in Hi.
    destruct (keys !! _); [|done]. destruct (all_buffers !! _) eqn:E2; [|done].
    destruct (all_sizes !! _) eqn:E3; [|done]. destruct (qs !! _); [|done]. simplify_eq/=.
    by eapply HR. }
  unfold classify_multi. destruct (choose_replica eps q) as [[qr r]|e] eqn:Hch; [|done].
  assert (Hbest : SelectBestReplica (replicas qr) eps = Some r).
  { unfold choose_replica in Hch. destruct q as [q|]; [|done]. case_bool_decide; [done|].
    destruct (SelectBestReplica _ _) eqn:E; simplify_eq. done. }
  destruct (_ <? _); [done|]. destruct (is_memory_replica r || is_nof_replica r) eqn:Hk; cbn.
  - split; [|done]. apply Forall_app. split; [done|]. constructor; [|done]. by apply multi_slices_ok.
  - split; [done|]. intros k op [Hop|[-> ->]]%emplace_lookup; [by apply Hd|].
    split; [done|]. split; [done|]. exists r. split_and!; [done..|]. cbn. intros Hnl.
    unfold is_memory_replica, is_nof_replica, is_local_disk_replica, is_disk_replica in *.
    by destruct (data r).
Qed.

Abbreviation multi_batch_ok done st hs :=
  (batch_ok mk_key mk_total_size done (mb_ops st) (mb_slices st) (mb_handles st) hs).

Lemma prepare_multi_ok eps live0 done key op st hs :
  multi_ok eps key op → mk_key op ∉ mk_key <$> done → multi_batch_ok done st hs →
  safe_to R (hs ++ live0) (prepare_multi st (key, op))
    (λ st' live, ∃ hs', live = hs' ++ live0 ∧ multi_batch_ok (done ++ [op]) st' hs').
Proof using laws.
  intros (<- & _ & best & Hbest & Htot & Hbd) Hnew Hok. unfold prepare_multi.
  destruct (mk_is_local_disk op);
    [apply safe_to_ret; exists hs; split; [done|by apply batch_ok_skip]|].
  specialize (Hbd eq_refl).
  eapply safe_to_bind with (Q := λ o l, match o with
    | Some p => l = (p, mk_total_size op) :: hs ++ live0 ∧ ∃ h, r_allocate h (mk_total_size op) = Some p
    | None => l = hs ++ live0 end).
  { apply safe_to_allocate. intros h. destruct (r_allocate h _) eqn:E; [|done]. split; [done|]. eauto. }
  intros [p|] l; [intros (-> & h & Hp)|intros ->];
    [|apply safe_to_ret; exists hs; split; [done|by apply batch_ok_skip]].
  destruct (List.find is_disk_replica _) as [r0|] eqn:Hfind; cycle 1.
  { eapply safe_to_bind; [apply safe_to_free with (Q := λ _ l, l = hs ++ live0); cbn|].
    - by rewrite Z.eqb_refl.
    - intros [] l Hl. cbn beta in Hl. subst l. apply safe_to_ret. exists hs. split; [done|].
      by apply batch_ok_skip. }
  pose proof (batch_ok_fresh _ _ _ _ _ _ _ op Hok Hnew) as Hnone.
  rewrite Hnone. eapply safe_to_bind;
    [by apply safe_to_ret with (Q := λ _ l, l = (p, mk_total_size op) :: hs ++ live0)|].
  intros [] l Hl. cbn beta in Hl. subst l.
  apply safe_to_ret. exists ((p, mk_total_size op) :: hs). split; [done|].
  unfold emplace. rewrite Hnone. cbn. eapply batch_ok_add; [done|done| |exact Hp].
  intros Hc. by rewrite (select_disk_first _ _ _ _ Hbest Hbd Hfind Hc).
Qed.

(** The copies out of the temporary buffer stay inside it. *)
Lemma scatter_to_buffers_safe src total offset dsts live :
  0 ≤ src → src + total < u64_modulus → 0 ≤ offset ≤ total → (src, total) ∈ live →
  Forall (λ bn, R bn ∧ in_u64 bn.2) dsts →
  safe R live (scatter_to_buffers src total offset dsts) (λ _, True).
Proof using R_inside.
  intros Hsrc Hend. revert offset. induction dsts as [|[dst n] dsts IH];
    intros offset Hoff Hlive Hd; cbn [scatter_to_buffers]; [by apply safe_ret|].
  apply Forall_cons in Hd as [[HR Hn] Hd]. cbn in Hn. unfold in_u64 in Hn.
  destruct (total <=? offset) eqn:Ht; [by apply safe_ret|].
  rewrite u64_sub_small by lia.
  assert (Hadd : ∀ a b, 0 ≤ a → 0 ≤ b → a + b < u64_modulus → u64_add a b = a + b)
    by (intros a b ? ? ?; unfold u64_add, u64; apply Z.mod_small; lia).
  rewrite !Hadd by lia. eapply safe_bind.
  - apply scatter_safe.
    + eapply R_inside; [|exact HR]. unfold inside. cbn. lia.
    + eapply elem_inside; [exact Hlive|]. unfold inside. cbn. lia.
  - intros [u|e] _; [|by apply safe_ret]. apply IH; [lia|done|done].
Qed.

Lemma multi_finish_safe eps live0 ops st hs rs :
  (∀ op, op ∈ ops → multi_ok eps (mk_key op) op) → multi_batch_ok ops st hs →
  safe R (hs ++ live0) (mfold (finish_multi (mb_handles st)) (mb_results st) (zip (mb_ops st).*1 rs))
    (λ _, True).
Proof using laws R_inside.
  intros Hops [_ _ Ho _]. apply safe_mfold; [done|]. intros results [op r] Hin _.
  apply elem_of_zip_l, list_elem_of_fmap in Hin as (oq & -> & Hoq).
  destruct (Ho oq Hoq) as (Hd & p & Hp & Hlive & h & Halloc). unfold finish_multi.
  destruct r as [u|e]; [|by apply safe_ret]. rewrite Hp.
  apply Hops in Hd as (_ & Hrow & best & _ & Htot & _).
  pose proof (allocate_valid _ _ _ Halloc) as [Hp0 Hp1].
  pose proof (total_size_range best) as Hr. rewrite <- Htot in Hr. unfold in_u64 in Hr.
  change (default 0 (Some p)) with p.
  eapply safe_bind; [apply scatter_to_buffers_safe|intros; by apply safe_ret]; [lia|lia|lia| |done].
  apply elem_of_app. by left.
Qed.

Lemma iteration_values {A} (m : gmap string A) k x : (k, x) ∈ iteration A m ↔ m !! k = Some x.
Proof using iteration_perm. rewrite iteration_perm. apply elem_of_map_to_list. Qed.

Lemma multi_keys_nodup eps (ops : gmap string MultiDiskKeyInfo) :
  (∀ key op, ops !! key = Some op → multi_ok eps key op) →
  NoDup (mk_key <$> (iteration _ ops).*2).
Proof using iteration_perm.
  intros Hops. assert (Heq : mk_key <$> (iteration _ ops).*2 = (iteration _ ops).*1).
  { rewrite <- list_fmap_compose. apply list_fmap_ext. intros i [k op] Hi. cbn.
    apply list_elem_of_lookup_2, iteration_values in Hi. by apply Hops in Hi as [? _]. }
  rewrite Heq, iteration_perm. apply NoDup_fst_map_to_list.
Qed.

Lemma read_multi_files_safe c eps prefer ops rs live0 :
  (∀ key op, ops !! key = Some op → multi_ok eps key op) →
  safe R live0 (read_multi_files iteration c prefer ops rs) (λ _, True).
Proof using laws iteration_perm R_inside.
  intros Hops. pose proof (multi_keys_nodup _ _ Hops) as Hnd. unfold read_multi_files.
  apply safe_to_safe. eapply safe_to_bind.
  { apply (safe_to_mfold _ _ _ (λ done st live, ∃ hs, live = hs ++ live0 ∧
             multi_batch_ok done.*2 st hs)).
    - exists []. split; [done|]. apply batch_ok_nil.
    - intros done [key op] todo st live Hl (hs & -> & Hok). rewrite fmap_app. cbn.
      apply (prepare_multi_ok eps); [| |done].
      + apply Hops, iteration_values. rewrite Hl. apply elem_of_app. right. by left.
      + rewrite Hl, fmap_app, fmap_app in Hnd. apply NoDup_app in Hnd as (_ & Hdis & _). intros Hin.
        apply (Hdis _ Hin). by left. }
  intros st live (hs & -> & Hok). eapply safe_to_bind.
  { apply (safe_safe_to _ _ _ (λ _, True)). case_bool_decide; [by apply safe_ret|].
    eapply safe_bind; [by eapply batch_transfer_safe|]. intros brs _.
    eapply multi_finish_safe; [|exact Hok]. intros op ([k op'] & -> & Hin)%list_elem_of_fmap.
    apply iteration_values, Hops in Hin. cbn. destruct Hin as [<- Hin']. by split. }
  intros results live [-> _]. eapply safe_to_bind; [apply safe_to_free_all|].
  - rewrite <- (bo_handles _ _ _ _ _ _ _ Hok). by rewrite iteration_perm.
  - intros us live Hlive. by apply safe_to_ret.
Qed.

Lemma group_multi_ok eps (ops : gmap string MultiDiskKeyInfo) rs :
  (∀ key op, ops !! key = Some op → multi_ok eps key op) →
  match fold_left group_multi (iteration _ ops) (Some (rs, ∅)) with
  | Some (_, m) => offload_ok_map m
  | None => True
  end.
Proof using iteration_perm.
  intros Hops.
  apply (fold_left_prefix _ (λ _ acc, match acc with Some (_, m) => offload_ok_map m | None => True end));
    [apply offload_ok_empty|].
  intros before [key op] todo [[rs1 m]|] Hl Hm; [|done]. cbn [group_multi].
  assert (Hop : multi_ok eps key op).
  { apply Hops, iteration_values. rewrite Hl. apply elem_of_app. right. by left. }
  destruct (negb _); [done|]. destruct (List.find _ _); [|done].
  destruct (short_sizes _ _); [done|]. destruct (_ <? _); [done|].
  apply add_offload_ok; [|done]. apply multi_slices_ok. by destruct Hop as (_ & ? & _).
Qed.

Lemma batch_multi_safe_from rc keys all_buffers all_sizes prefer live :
  (∀ i bs ns, all_buffers !! i = Some bs → all_sizes !! i = Some ns → row_ok bs ns) →
  safe R live (batch_get_into_multi_buffers_internal iteration rc keys all_buffers all_sizes prefer)
    (λ _, True).
Proof using laws iteration_perm R_inside.
  intros HR. unfold batch_get_into_multi_buffers_internal.
  destruct (client_ rc) as [c|]; [|by apply safe_ret].
  destruct (negb _ || negb _); [by apply safe_ret|].
  case_bool_decide; [by apply safe_ret|].
  eapply safe_bind with (Q := λ _, True); [apply batch_query_safe|].
  intros qs _. eapply safe_bind with (Q := λ _, True).
  { intros h v evs [= <- <-]. done. }
  intros eps _. destruct (classify_multi_ok eps keys all_buffers all_sizes qs HR) as [Hv Hd].
  revert Hv Hd. set (st := fold_left _ _ _). intros Hv Hd.
  destruct (ms_undefined st); [by apply safe_ret|]. destruct (_ && _); [by apply safe_ret|].
  eapply safe_bind; [by apply read_valid_safe|]. intros rs1 _. unfold read_multi_disk.
  case_bool_decide; [by apply safe_ret|].
  pose proof (group_multi_ok eps (ms_disk st) rs1 Hd) as Hg.
  destruct (fold_left group_multi _ _) as [[rs2 m]|]; [|by apply safe_ret].
  eapply safe_bind; [by apply read_offloads_safe|]. intros rs3 _.
  eapply safe_bind; [by eapply read_multi_files_safe|]. intros rs4 _. by apply safe_ret.
Qed.
End Into.

Section Theorems.
Context `{!MasterClient, !TransferSubmitter, !HotCache, !StorageBackend, !Clock}.
Context `{!RealServices} {laws : RealServicesLaws}.
Context (iteration : ∀ A : Type, gmap string A → list (string * A)).
Context (iteration_perm : ∀ A (m : gmap string A), iteration A m ≡ₚ map_to_list m).

(** A range inside one of the given buffers. *)
Definition in_buffers (buffers sizes : list Z) (w : Z * Z) : Prop :=
  ∃ i b n, buffers !! i = Some b ∧ sizes !! i = Some n ∧ inside w (b, n).

(** C5: A [batch_get_into] that does not repeat a key is memory safe: every byte
    it writes lies in one of the caller's buffers or in a temporary buffer that is
    live at that moment, copies read from live temporary buffers only, and all
    temporary buffers are freed. *)
Theorem batch_get_into_safe rc keys buffers sizes h results evs :
  NoDup keys →
  batch_get_into_internal iteration rc keys buffers sizes h = (results, evs) →
  safe_trace (in_buffers buffers sizes) [] evs ∧ live_after [] evs = [].
Proof using laws iteration_perm.
  intros Hnd Hrun. eapply (batch_into_safe_from iteration iteration_perm) in Hrun as (? & ? & _);
    [done| | |done].
  - intros w r Hw (i & b & n & ? & ? & Hr). exists i, b, n. split_and!; [done..|].
    by eapply inside_trans.
  - intros i b n w Hb Hn Hw. by exists i, b, n.
Qed.

(** A [batch_get_into_multi_buffers] is memory safe, whatever keys it names:
    every byte it writes lies in one of the buffers given for a key or in a live
    temporary buffer, copies read inside live temporary buffers, and all of them
    are freed. *)
Theorem batch_get_into_multi_buffers_safe rc keys all_buffers all_sizes prefer h results evs :
  Forall (Forall in_u64) all_sizes →
  batch_get_into_multi_buffers_internal iteration rc keys all_buffers all_sizes prefer h =
    (results, evs) →
  safe_trace (λ w, ∃ i bs ns, all_buffers !! i = Some bs ∧ all_sizes !! i = Some ns ∧
                              in_buffers bs ns w) [] evs ∧ live_after [] evs = [].
Proof using laws iteration_perm.
  intros Hu Hrun. eapply (batch_multi_safe_from iteration iteration_perm) in Hrun as (? & ? & _);
    [done| |].
  - intros w r Hw (i & bs & ns & ? & ? & j & b & n & ? & ? & Hr). exists i, bs, ns.
    split_and!; [done..|]. exists j, b, n. split_and!; [done..|]. by eapply inside_trans.
  - intros i bs ns Hb Hn. apply Forall_lookup. intros j [b n] Hj.
    rewrite lookup_zip_with in Hj. destruct (bs !! j) eqn:E1; [|done].
    destruct (ns !! j) eqn:E2; [|done]. simplify_eq/=. split.
    + exists i, bs, ns. split_and!; [done..|]. exists j, b, n. split_and!; [done..|]. apply inside_refl.
    + apply (Forall_lookup_1 _ _ _ _ (Forall_lookup_1 _ _ _ _ Hu Hn) E2).
Qed.
End Theorems.

(** ** Concrete requests *)

(** Like [sample_real], with every buffer at an address of its own. *)
Definition bump_real : RealServices := {|
  r_allocate := λ h n, if bool_decide (0 ≤ n ≤ 4096 ∧ (length h < 1000)%nat)
                       then Some (1048576 + 4096 * Z.of_nat (length h)) else None;
  r_device_of := λ _, None;
  r_is_host := λ _, true;
  r_copy_h2d := λ _ _ _ _, true;
  r_offload_get := λ _ _ ks _, Ok (MkOffload 1 ((λ _, 0) <$> ks) "peer:1" 1000);
  r_offload_submit := λ _ _ _ _ _, Some 7;
  r_local_endpoints := λ _, [];
  r_storage_key := λ k, k;
  calculate_total_size := λ d, u64 (replica_total_size d);
  allocateSlices := λ d p, [MkSlice p (u64 (replica_total_size d))];
  split_into_slices := λ p n, [MkSlice p n];
  kMaxSliceSize := 16 |}.

#[export] Instance bump_real_laws : @RealServicesLaws bump_real.
Proof.
  split; cbn.
  - intros h n p. case_bool_decide as Hb; [|done]. intros [= <-]. unfold u64_modulus. lia.
  - intros d. apply u64_range.
  - intros d p s Hs. apply list_elem_of_singleton in Hs as ->. apply inside_refl.
Qed.

Abbreviation sample_into rs keys buffers sizes :=
  (@batch_get_into_internal (sample_master rs) (sample_submitter []) (sample_cache None)
     (sample_clock 0) bump_real (λ A, map_to_list) sample_real_client keys buffers sizes []).

Abbreviation sample_multi rs keys buffers sizes :=
  (@batch_get_into_multi_buffers_internal (sample_master rs) (sample_submitter []) (sample_cache None)
     (sample_clock 0) bump_real (λ A, map_to_list) sample_real_client keys buffers sizes false []).

Lemma batch_get_into_safe_witness :
  let run := sample_into [disk_object] ["a"; "b"] [8192; 12288] [64; 4] in
  run.1 = [Ok 8; Err INVALID_PARAMS] ∧ mem_writes <$> run.2 ≠ [] ∧
  safe_trace (in_buffers [8192; 12288] [64; 4]) [] run.2 ∧ live_after [] run.2 = [].
Proof.
  intros run. split; [by vm_compute|]. split; [by vm_compute|].
  apply (@batch_get_into_safe (sample_master [disk_object]) (sample_submitter []) (sample_cache None)
           (sample_clock 0) bump_real bump_real_laws (λ A, map_to_list) (λ A m, reflexivity _)
           sample_real_client ["a"; "b"] [8192; 12288] [64; 4] [] run.1 run.2).
  - repeat constructor; set_solver.
  - by vm_compute.
Defined.

Lemma batch_get_into_multi_buffers_safe_witness :
  let run := sample_multi [disk_object] ["a"; "a"] [[8192; 12288]; [16384]] [[3; 64]; [4]] in
  run.1 = Some [Ok 8; Err INVALID_PARAMS] ∧ live_after [] run.2 = [].
Proof.
  intros run. split; [by vm_compute|].
  apply (@batch_get_into_multi_buffers_safe (sample_master [disk_object]) (sample_submitter [])
           (sample_cache None) (sample_clock 0) bump_real bump_real_laws (λ A, map_to_list)
           (λ A m, reflexivity _) sample_real_client ["a"; "a"] [[8192; 12288]; [16384]]
           [[3; 64]; [4]] false [] run.1 run.2).
  - repeat constructor; done.
  - by vm_compute.
Defined.

(** A repeated key with a file replica: the second temporary buffer is freed at
    once, and the object is transferred into it. *)
Theorem repeated_file_key_writes_freed :
  let run := sample_into [disk_object] ["a"; "a"] [8192; 12288] [64; 64] in
  run.1 = [Ok 8; Ok 8] ∧ ¬ safe_trace (in_buffers [8192; 12288] [64; 64]) [] run.2.
Proof.
  cbn zeta. split; [by vm_compute|]. set (evs := snd _).
  assert (Hevs : ∃ e1 d f e2 p, evs = e1 ++ RClient (ETransfer (Submit d [MkSlice p 8] READ f)) :: e2 ∧
    live_after [] e1 = [(1056768, 8)] ∧ p = 1060864).
  { eexists (take 6 evs), _, _, (drop 7 evs), 1060864. split; [by vm_compute|]. by vm_compute. }
  clearbody evs. destruct Hevs as (e1 & d & f & e2 & p & -> & Hlive & ->).
  intros [_ Hs]%safe_trace_app. cbn [safe_trace mem_writes client_writes] in Hs.
  destruct Hs as (Hw & _). rewrite Hlive in Hw. cbn in Hw. apply Forall_cons in Hw as [Hw _].
  unfold slice_range, in_buffers, inside in Hw. cbn in Hw.
  destruct Hw as [(i & b & n & Hb & Hn & Hw)|Hw].
  - destruct i as [|[|i]]; cbn in Hb, Hn; simplify_eq; lia.
  - apply Exists_cons in Hw as [Hw|Hw]; [cbn in Hw; lia|]. by apply Exists_nil in Hw.
Qed.

(** A repeated key in memory or on a peer's SSD: both positions report success, and
    one of the two buffers is not written. *)
Theorem repeated_key_skips_buffer :
  let writes rs := concat (mem_writes <$> (sample_into rs ["a"; "a"] [8192; 12288] [64; 64]).2) in
  let results rs := (sample_into rs ["a"; "a"] [8192; 12288] [64; 64]).1 in
  let ssd := MkDescriptor COMPLETE (LocalDiskReplica "peer:1" 8) in
  (results [memory_at 100] = [Ok 8; Ok 8] ∧ writes [memory_at 100] = [(12288, 8); (12288, 8)]) ∧
  (results [ssd] = [Ok 8; Ok 8] ∧ writes [ssd] = [(8192, 8)]).
Proof. by vm_compute. Qed.

(** The peer is taken from the first SSD replica of the list, complete or not: the
    object is read from a replica that is still being written. *)
Theorem reads_incomplete_ssd_replica :
  let incomplete := MkDescriptor (OtherStatus 1) (LocalDiskReplica "peer:1" 8) in
  let complete := MkDescriptor COMPLETE (LocalDiskReplica "peer:2" 8) in
  let run := sample_into [incomplete; complete] ["a"] [8192] [64] in
  SelectBestReplica [incomplete; complete] [] = Some complete ∧ run.1 = [Ok 8] ∧
  omap (λ e, match e with ROffloadGet addr _ _ _ => Some addr | _ => None end) run.2 = ["peer:1"].
Proof. by vm_compute. Qed.
