(* ===== verification/RealGetSound.v ===== *)
(** * What a successful batched read means

    Every position of [batch_get_into] that reports a size had its whole object
    read into its buffer: from the chosen replica, by a transfer that completed,
    through a temporary buffer for files, or by a peer. *)

From S2P Require Import Prelude CxxString StoreTypes ReplicaPolicy Samples PutPath BatchPut GetPath GetSpec DummyMap RangedRead RangedPrepare RangedReadSpec RangedDelivery RealWrite RealGetInto RealGetSafe.
From stdpp Require Import base strings list sets gmap fin_maps.
From Stdlib Require Import ZArith Lia.

#[local] Open Scope Z_scope.
#[local] Set Default Proof Using "Type".

Section Sound.
Context `{!MasterClient, !TransferSubmitter, !HotCache, !StorageBackend, !Clock, !RealServices}.
Context (iteration : ∀ A : Type, gmap string A → list (string * A)).
Context (iteration_perm : ∀ A (m : gmap string A), iteration A m ≡ₚ map_to_list m).
Context (c : Client).

(** ** Evidence *)

(** [replica] (or its copy in the hot cache) was transferred into [slices], and
    the transfer completed. *)
Definition read_into (key : ObjectKey) (slices : list Slice) (replica : Descriptor)
    (evs : list real_event) : Prop :=
  ∃ d f before after, serves c (client_trace evs) key replica d ∧
    client_trace evs = before ++ ETransfer (Submit d slices READ (Some f)) :: after ∧
    ETransfer (FutureGet f OK) ∈ after.

(** A peer transferred [key] into [slices], perhaps with other keys. *)
Definition fetched_with (key : ObjectKey) (slices : list Slice) (evs : list real_event) : Prop :=
  ∃ addr keys pointers objects f,
    ROffloadSubmit addr keys pointers objects (Some f) ∈ evs ∧ (key, slices) ∈ objects ∧
    RClient (ETransfer (FutureGet f OK)) ∈ evs.

(** The whole object of [replica] arrived at [buffer]. *)
Definition arrived (key : ObjectKey) (buffer : Z) (replica : Descriptor) (evs : list real_event)
  : Prop :=
  match data replica with
  | LocalDiskReplica _ _ => fetched_with key (allocateSlices replica buffer) evs
  | DiskReplica _ _ =>
      ∃ tmp, RAllocate (calculate_total_size replica) (Some tmp) ∈ evs ∧
             read_into key (allocateSlices replica tmp) replica evs ∧
             copied buffer tmp (calculate_total_size replica) evs
  | _ => read_into key (allocateSlices replica buffer) replica evs
  end.

Lemma read_into_app key ss r e1 e e2 : read_into key ss r e → read_into key ss r (e1 ++ e ++ e2).
Proof.
  intros (d & f & before & after & Hs & He & Hf).
  exists d, f, (client_trace e1 ++ before), (after ++ client_trace e2).
  rewrite !client_trace_app, He. split_and!.
  - apply serves_app. by rewrite <- He.
  - by rewrite <- !app_assoc.
  - apply elem_of_app. by left.
Qed.

Lemma fetched_with_app key ss e1 e e2 : fetched_with key ss e → fetched_with key ss (e1 ++ e ++ e2).
Proof.
  intros (a & ks & p & o & f & H5 & H6 & H7). exists a, ks, p, o, f.
  rewrite !elem_of_app. auto.
Qed.

(** ** The phases only turn results into errors *)

(** [rs'] keeps the successes of [rs] at the positions that satisfy [P]. *)
Definition narrows (rs rs' : list (expected Z)) : Prop :=
  length rs' = length rs ∧ ∀ i n, rs' !! i = Some (Ok n) → rs !! i = Some (Ok n).

Lemma narrows_refl rs : narrows rs rs.
Proof. by split. Qed.

Lemma narrows_trans a b d : narrows a b → narrows b d → narrows a d.
Proof. intros [L1 H5] [L2 H6]. split; [congruence|]. auto. Qed.

Lemma narrows_insert rs i e : narrows rs (<[i := Err e]> rs).
Proof.
  split; [apply length_insert|]. intros j n Hj.
  destruct (decide (i = j)) as [->|Hne]; [|by rewrite list_lookup_insert_ne in Hj].
  destruct (decide (j < length rs)%nat) as [Hlt|Hge].
  - by rewrite list_lookup_insert_eq in Hj.
  - by rewrite list_insert_ge in Hj by lia.
Qed.

Lemma insert_err_ok (rs : list (expected Z)) i e j n :
  <[i := Err e]> rs !! j = Some (Ok n) → i ≠ j.
Proof.
  intros Hj ->. destruct (decide (j < length rs)%nat) as [Hlt|Hge].
  - by rewrite list_lookup_insert_eq in Hj.
  - rewrite list_insert_ge in Hj by lia. apply lookup_lt_Some in Hj. lia.
Qed.

Lemma merge_failures_narrows rs outs : narrows rs (merge_failures rs outs).
Proof.
  unfold merge_failures. revert rs. induction outs as [|[i [u|e]] outs IH]; intros rs; cbn.
  - apply narrows_refl.
  - apply IH.
  - eapply narrows_trans; [apply narrows_insert|apply IH].
Qed.

Lemma merge_failures_ok rs outs i n o :
  merge_failures rs outs !! i = Some (Ok n) → (i, o) ∈ outs → o = Ok tt.
Proof.
  unfold merge_failures. revert rs. induction outs as [|[j r] outs IH]; intros rs Hi Hin;
    [by apply elem_of_nil in Hin|].
  apply elem_of_cons in Hin as [[= <- <-]|Hin]; [|by eapply IH].
  cbn in Hi. destruct o as [[]|e]; [done|]. exfalso.
  apply (merge_failures_narrows _ outs) in Hi. by apply insert_err_ok in Hi.
Qed.

(** ** Memory replicas *)

Lemma batch_get_query_reads keys qs slices h rs evs :
  on_client (BatchGet_query c (iteration _) keys qs slices false) h = (rs, evs) →
  length qs = length keys →
  length rs = length keys ∧
  ∀ j, rs !! j = Some (Ok tt) → ∃ key q ss r,
    keys !! j = Some key ∧ qs !! j = Some q ∧ slices !! key = Some ss ∧
    FindFirstCompleteReplica (replicas q) = Some r ∧ read_into key ss r evs.
Proof.
  intros E Hlen. apply lift_inv in E as (evs' & E & ->). unfold BatchGet_query in E.
  destruct (negb (has_transfer_submitter c)).
  { apply ret_inv in E as [-> ->]. rewrite length_replicate. split; [done|].
    intros j Hj. by apply lookup_replicate in Hj as [? _]. }
  destruct (negb _).
  { apply ret_inv in E as [-> ->]. rewrite length_replicate. split; [done|].
    intros j Hj. by apply lookup_replicate in Hj as [? _]. }
  apply (batch_get_reads c) in E as [Hl Hok]; [|done]. split; [done|]. intros j Hj.
  apply Hok in Hj as (key & q & ss & r & d & f & before & after & t & Hk & Hq & Hss & Hr & Hs & He & Hf & _).
  exists key, q, ss, r. split_and!; [done..|]. unfold read_into. rewrite client_trace_lift.
  exists d, f, before, (after ++ [EClock (Now t)]). split_and!; [done|done|].
  apply elem_of_app. by left.
Qed.

(** A map built by assignments to distinct keys. *)
Lemma assigned_nodup {A B} (key : A → string) (val : A → B) l x :
  NoDup (key <$> l) → x ∈ l →
  fold_left (λ m x, <[key x := val x]> m) l (∅ : gmap string B) !! key x = Some (val x).
Proof.
  intros Hnd. revert x.
  apply (fold_left_prefix _ (λ (before : list A) (m : gmap string B),
    ∀ x, x ∈ before → m !! key x = Some (val x))).
  { intros x Hx. by apply elem_of_nil in Hx. }
  intros before x todo m Hl IH y [Hy|Hy]%elem_of_app.
  - rewrite lookup_insert_ne; [by apply IH|]. intros Heq.
    rewrite Hl, fmap_app, NoDup_app in Hnd. destruct Hnd as (_ & Hdis & _).
    apply (Hdis (key y)); [by apply list_elem_of_fmap_2|]. rewrite <- Heq. by left.
  - apply list_elem_of_singleton in Hy as ->. by rewrite lookup_insert_eq.
Qed.

Lemma batch_slices_nodup ops op :
  NoDup (vk_key <$> ops) → op ∈ ops → batch_slices ops !! vk_key op = Some (vk_slices op).
Proof. apply assigned_nodup. Qed.

Lemma read_valid_ok ops rs h rs' evs :
  read_valid iteration c false ops rs h = (rs', evs) → NoDup (vk_key <$> ops) →
  narrows rs rs' ∧
  ∀ op n, op ∈ ops → rs' !! vk_index op = Some (Ok n) →
    ∃ r, FindFirstCompleteReplica (replicas (vk_query_result op)) = Some r ∧
         read_into (vk_key op) (vk_slices op) r evs.
Proof.
  intros E Hnd. unfold read_valid in E. case_bool_decide as Hops.
  { apply ret_inv in E as [-> ->]. split; [apply narrows_refl|]. subst ops.
    intros op n Hop. by apply elem_of_nil in Hop. }
  apply bind_inv in E as (brs & e1 & e2 & E1 & [-> ->]%ret_inv & ->). rewrite app_nil_r.
  apply batch_get_query_reads in E1 as [Hl Hok]; [|by rewrite !length_fmap].
  rewrite length_fmap in Hl. split; [apply merge_failures_narrows|]. intros op n Hop Hi.
  apply list_elem_of_lookup in Hop as [j Hj].
  destruct (lookup_lt_is_Some_2 brs j) as [o Ho]; [rewrite Hl; by eapply lookup_lt_Some|].
  assert (o = Ok tt) as ->.
  { eapply merge_failures_ok; [exact Hi|]. apply list_elem_of_lookup. exists j.
    by rewrite lookup_zip_with, list_lookup_fmap, Hj, Ho. }
  apply Hok in Ho as (key & q & ss & r & Hk & Hq & Hss & Hr & Hread).
  rewrite list_lookup_fmap, Hj in Hk. rewrite list_lookup_fmap, Hj in Hq. simplify_eq/=.
  rewrite batch_slices_nodup in Hss; [|done|by eapply list_elem_of_lookup_2]. simplify_eq.
  by exists r.
Qed.

(** ** File replicas *)

Lemma mfold_prefix {S A} (body : S → A → rio S) (I : list A → S → list real_event → Prop) l st h st' evs :
  I [] st [] →
  (∀ before x todo s e h s' e', l = before ++ x :: todo → I before s e →
     body s x h = (s', e') → I (before ++ [x]) s' (e ++ e')) →
  mfold body st l h = (st', evs) → I l st' evs.
Proof.
  intros Hst Hstep.
  assert (Hgen : ∀ todo before s e h' evs', l = before ++ todo → I before s e →
    mfold body s todo h' = (st', evs') → I l st' (e ++ evs')).
  { induction todo as [|x todo IH]; intros before s e h' evs' Hl HI; cbn [mfold].
    - intros [-> ->]%ret_inv. rewrite app_nil_r in *. by subst.
    - intros (s1 & e1 & e2 & E1 & E2 & ->)%bind_inv. rewrite app_assoc.
      eapply (IH (before ++ [x])); [by rewrite <- app_assoc| |exact E2]. by eapply Hstep. }
  intros E. by apply (Hgen l [] st [] h evs).
Qed.

(** An operation with a temporary buffer of its own. *)
Definition staged (st : DiskBatch) (evs : list real_event) (op : DiskKeyInfo) : Prop :=
  ∃ r p, List.find is_disk_replica (replicas (dk_query_result op)) = Some r ∧
    (op, FilterQueryResult (dk_query_result op) r) ∈ db_ops st ∧
    db_slices st !! dk_key op = Some (allocateSlices r p) ∧
    db_handles st !! dk_key op = Some p ∧ RAllocate (dk_total_size op) (Some p) ∈ evs.

Record prepared_ok (rs : list (expected Z)) (before : list DiskKeyInfo) (st : DiskBatch)
    (evs : list real_event) : Prop := {
  pr_narrows : narrows rs (db_results st);
  pr_ops : ∀ oq, oq ∈ db_ops st → oq.1 ∈ before;
  pr_handles : ∀ key p, db_handles st !! key = Some p → key ∈ dk_key <$> before;
  pr_staged : ∀ op n, op ∈ before → db_results st !! dk_index op = Some (Ok n) → staged st evs op }.

Lemma staged_same st rs evs e op :
  staged st evs op →
  staged (MkDiskBatch rs (db_ops st) (db_slices st) (db_handles st)) (evs ++ e) op.
Proof.
  intros (r & p & ? & ? & ? & ? & ?). exists r, p. cbn. rewrite elem_of_app. auto 10.
Qed.

Lemma prepared_fail rs before st evs e op err :
  prepared_ok rs before st evs →
  prepared_ok rs (before ++ [op])
    (MkDiskBatch (<[dk_index op := Err err]> (db_results st)) (db_ops st) (db_slices st)
       (db_handles st)) (evs ++ e).
Proof.
  intros [Hn Ho Hh Hs]. split; cbn.
  - eapply narrows_trans; [exact Hn|apply narrows_insert].
  - intros oq Hoq. apply elem_of_app. left. by apply Ho.
  - intros key p Hp. rewrite fmap_app. apply elem_of_app. left. by eapply Hh.
  - intros op' n [Hop|Hop]%elem_of_app Hi.
    + apply staged_same, (Hs _ n); [done|]. by apply (narrows_insert _ (dk_index op) err).
    + apply list_elem_of_singleton in Hop as ->. by apply insert_err_ok in Hi.
Qed.

Lemma prepare_disk_prepared rs before op st h st' e evs :
  dk_key op ∉ dk_key <$> before → prepared_ok rs before st evs →
  prepare_disk st op h = (st', e) → prepared_ok rs (before ++ [op]) st' (evs ++ e).
Proof.
  intros Hnew Hok E. unfold prepare_disk in E.
  destruct (List.find is_disk_replica _) as [r|] eqn:Hfind;
    [|apply ret_inv in E as [-> ->]; by apply prepared_fail].
  apply bind_inv in E as (o & e1 & e2 & [-> ->]%call_inv & E & ->).
  destruct (r_allocate h (dk_total_size op)) as [p|];
    [|apply ret_inv in E as [-> ->]; by apply prepared_fail].
  destruct Hok as [Hn Ho Hh Hs].
  assert (Hnone : db_handles st !! dk_key op = None).
  { apply eq_None_not_Some. intros [x Hx]. by apply Hh in Hx. }
  rewrite Hnone in E. apply bind_inv in E as (u & e3 & e4 & [_ ->]%ret_inv & [-> ->]%ret_inv & ->).
  cbn [app]. unfold emplace. rewrite Hnone. split; cbn; [done| | |].
  - intros oq [Hoq|Hoq]%elem_of_app; apply elem_of_app; [left; by apply Ho|right].
    apply list_elem_of_singleton in Hoq as ->. by left.
  - intros key q Hq. rewrite fmap_app. apply elem_of_app.
    apply lookup_insert_Some in Hq as [[<- _]|[_ Hq]]; [right; by left|left; by eapply Hh].
  - intros op' n [Hop|Hop]%elem_of_app Hi.
    + destruct (Hs op' n Hop Hi) as (r' & p' & ? & ? & ? & ? & ?). exists r', p'. cbn.
      assert (dk_key op ≠ dk_key op').
      { intros Heq. apply Hnew. rewrite Heq. by apply list_elem_of_fmap_2. }
      rewrite !lookup_insert_ne by done. rewrite !elem_of_app. auto 10.
    + apply list_elem_of_singleton in Hop as ->. exists r, p. cbn. rewrite !lookup_insert_eq.
      rewrite !elem_of_app, !list_elem_of_singleton. auto 10.
Qed.

Lemma finish_disk_ok handles rs l h rs' evs :
  mfold (finish_disk handles) rs l h = (rs', evs) →
  narrows rs rs' ∧
  ∀ op o n, (op, o) ∈ l → rs' !! dk_index op = Some (Ok n) →
    o = Ok tt ∧ copied (dk_dst_buffer op) (default 0 (handles !! dk_key op)) (dk_total_size op) evs.
Proof.
  apply (mfold_prefix _ (λ before rs' evs, narrows rs rs' ∧
    ∀ op o n, (op, o) ∈ before → rs' !! dk_index op = Some (Ok n) →
      o = Ok tt ∧ copied (dk_dst_buffer op) (default 0 (handles !! dk_key op)) (dk_total_size op) evs)).
  { split; [apply narrows_refl|]. intros op o n Hin. by apply elem_of_nil in Hin. }
  intros before [op o] todo rs1 e h1 rs2 e' _ [Hn Hc] E.
  assert (Hlater : ∀ op' o' n, (op', o') ∈ before → rs1 !! dk_index op' = Some (Ok n) →
    o' = Ok tt ∧ copied (dk_dst_buffer op') (default 0 (handles !! dk_key op')) (dk_total_size op') (e ++ e')).
  { intros op' o' n Hin Hi. destruct (Hc op' o' n Hin Hi) as [-> ?]. split; [done|].
    by apply (copied_app _ _ _ [] e e'). }
  assert (Hfail : ∀ err, narrows rs (<[dk_index op := Err err]> rs1) ∧
    ∀ op' o' n, (op', o') ∈ before ++ [(op, o)] →
      <[dk_index op := Err err]> rs1 !! dk_index op' = Some (Ok n) →
      o' = Ok tt ∧ copied (dk_dst_buffer op') (default 0 (handles !! dk_key op')) (dk_total_size op') (e ++ e')).
  { intros err. split; [eapply narrows_trans; [exact Hn|apply narrows_insert]|].
    intros op' o' n [Hin|Hin]%elem_of_app Hi.
    - apply (Hlater _ _ n); [done|]. by apply (narrows_insert _ (dk_index op) err).
    - apply list_elem_of_singleton in Hin as [= -> ->]. by apply insert_err_ok in Hi. }
  unfold finish_disk in E. destruct o as [[]|err]; [|apply ret_inv in E as [-> _]; apply Hfail].
  apply bind_inv in E as (r & e1 & e2 & E1 & [-> ->]%ret_inv & ->). rewrite app_nil_r in *.
  destruct r as [u|err]; [|apply Hfail]. apply scatter_ok in E1. split; [done|].
  intros op' o' n [Hin|Hin]%elem_of_app Hi; [by eapply Hlater|].
  apply list_elem_of_singleton in Hin as [= -> ->]. split; [done|].
  pose proof (copied_app _ _ _ e e1 [] E1) as Hcp. by rewrite app_nil_r in Hcp.
Qed.

Lemma read_disk_ok ops rs h rs' evs :
  read_disk iteration c ops rs h = (rs', evs) → NoDup (dk_key <$> ops) →
  narrows rs rs' ∧
  ∀ op n, op ∈ ops → rs' !! dk_index op = Some (Ok n) →
    ∃ r tmp, List.find is_disk_replica (replicas (dk_query_result op)) = Some r ∧
      is_complete r = true ∧ RAllocate (dk_total_size op) (Some tmp) ∈ evs ∧
      read_into (dk_key op) (allocateSlices r tmp) r evs ∧
      copied (dk_dst_buffer op) tmp (dk_total_size op) evs.
Proof.
  intros E Hnd. unfold read_disk in E. case_bool_decide as Hops.
  { apply ret_inv in E as [-> ->]. split; [apply narrows_refl|]. subst ops.
    intros op n Hop. by apply elem_of_nil in Hop. }
  apply bind_inv in E as (st & e1 & e2 & E1 & E & ->).
  apply bind_inv in E as (rs2 & e3 & e4 & E2 & E & ->).
  apply bind_inv in E as (us & e5 & e6 & _ & [-> ->]%ret_inv & ->). rewrite app_nil_r.
  assert (Hprep : prepared_ok rs ops st e1).
  { eapply (mfold_prefix _ (prepared_ok rs)); [| |exact E1].
    - split; cbn; [apply narrows_refl| | |].
      + intros oq Hoq. by apply elem_of_nil in Hoq.
      + intros key p Hp. by rewrite lookup_empty in Hp.
      + intros op n Hop. by apply elem_of_nil in Hop.
    - intros before op todo s e h' s' e' Hl Hok Hrun. eapply prepare_disk_prepared; [|done|exact Hrun].
      rewrite Hl, fmap_app, NoDup_app in Hnd. destruct Hnd as (_ & Hdis & _). intros Hin.
      apply (Hdis _ Hin). by left. }
  destruct Hprep as [Hn _ _ Hs]. case_bool_decide as Hempty.
  { apply ret_inv in E2 as [-> ->]. split; [done|]. intros op n Hop Hi.
    apply (Hs op n) in Hi as (r & p & _ & Hin & _); [|done]. rewrite Hempty in Hin.
    by apply elem_of_nil in Hin. }
  apply bind_inv in E2 as (brs & e7 & e8 & E3 & E4 & ->).
  apply batch_get_query_reads in E3 as [Hl Hread]; [|by rewrite !length_fmap].
  apply finish_disk_ok in E4 as [Hn2 Hfin]. split; [by eapply narrows_trans|].
  intros op n Hop Hi. pose proof (proj2 Hn2 _ _ Hi) as Hi1.
  destruct (Hs op n Hop Hi1) as (r & p & Hfind & Hin & Hss & Hh & Halloc).
  apply list_elem_of_lookup in Hin as [j Hj].
  destruct (lookup_lt_is_Some_2 brs j) as [o Ho].
  { rewrite Hl, !length_fmap. by eapply lookup_lt_Some. }
  destruct (Hfin op o n) as [-> Hcopy]; [|done|].
  { apply list_elem_of_lookup. exists j. by rewrite lookup_zip_with, list_lookup_fmap, Hj, Ho. }
  apply Hread in Ho as (key & q & ss & r' & Hk & Hq & Hss' & Hr & Hinto).
  rewrite !list_lookup_fmap, Hj in Hk. rewrite list_lookup_fmap, Hj in Hq. simplify_eq/=.
  apply (find_complete_singleton (dk_query_result op)) in Hr as [-> Hc]. rewrite Hh in Hcopy. cbn in Hcopy.
  exists r, p. split_and!; [done|done| | |].
  - apply elem_of_app. by left.
  - rewrite <- app_assoc. by apply read_into_app.
  - rewrite <- app_assoc, (app_assoc e1). by apply copied_app.
Qed.

(** ** Replicas of peers *)

Lemma offload_with addr objects h u evs key ss :
  batch_get_into_offload_object_internal addr objects h = (Ok u, evs) → (key, ss) ∈ objects →
  fetched_with key ss evs.
Proof.
  unfold batch_get_into_offload_object_internal. intros E Hin.
  apply bind_inv in E as (t0 & ? & ? & E1 & E2 & ->).
  apply bind_inv in E2 as (resp & ? & ? & E3 & E4 & ->). apply call_inv in E3 as [_ ->].
  destruct resp as [resp|e]; [|by apply ret_inv in E4 as [? _]].
  destruct (negb _); [by apply ret_inv in E4 as [? _]|].
  apply bind_inv in E4 as (r & e5 & ? & E5 & E6 & ->).
  apply bind_inv in E6 as (t1 & ? & ? & E7 & E8 & ->).
  apply bind_inv in E8 as (? & ? & ? & E9 & E10 & ->).
  destruct r as [[]|e]; [|by apply ret_inv in E10 as [? _]].
  assert (Hf : fetched_with key ss e5).
  { unfold Client_BatchGetOffloadObject in E5.
    apply bind_inv in E5 as (fo & ? & ? & E11 & E12 & ->). apply call_inv in E11 as [_ ->].
    destruct fo as [f|]; [|by apply ret_inv in E12 as [? _]].
    apply bind_inv in E12 as (res & ? & ? & E13 & E14 & ->).
    apply lift_inv in E13 as (? & E13 & ->). apply call_inv in E13 as [_ ->].
    apply ret_inv in E14 as [E15 ->]. case_bool_decide as Hok; [|done]. subst res.
    exists (ol_transfer_engine_addr resp), objects.*1, (ol_pointers resp), objects, f.
    clear iteration_perm. set_solver. }
  rewrite app_assoc. by apply fetched_with_app.
Qed.

Lemma fail_keys_narrows rs (index : string → nat) e keys :
  narrows rs (fold_left (λ rs key, <[index key := Err e]> rs) keys rs).
Proof.
  revert rs. induction keys as [|k keys IH]; intros rs; cbn; [apply narrows_refl|].
  eapply narrows_trans; [apply narrows_insert|apply IH].
Qed.

Lemma fail_keys_ok (rs : list (expected Z)) (index : string → nat) e (keys : list string) key n :
  fold_left (λ rs key, <[index key := Err e]> rs) keys rs !! index key = Some (Ok n) →
  key ∉ keys.
Proof.
  revert rs. induction keys as [|k keys IH]; intros rs; cbn; [intros _; apply not_elem_of_nil|].
  intros Hi [->|Hin]%elem_of_cons; [|by apply IH in Hi].
  apply (fail_keys_narrows _ index e keys) in Hi. by apply insert_err_ok in Hi.
Qed.

Lemma read_offloads_ok index rs m h rs' evs :
  mfold (read_offload iteration index) rs (iteration _ m) h = (rs', evs) →
  narrows rs rs' ∧
  ∀ ep objs key ss n, m !! ep = Some objs → objs !! key = Some ss →
    rs' !! index key = Some (Ok n) → fetched_with key ss evs.
Proof using iteration_perm.
  intros E.
  assert (Hgoal : narrows rs rs' ∧ ∀ x key ss n, x ∈ iteration _ m → x.2 !! key = Some ss →
    rs' !! index key = Some (Ok n) → fetched_with key ss evs).
  { revert E. apply (mfold_prefix _ (λ before rs' evs, narrows rs rs' ∧ ∀ x key ss n,
      x ∈ before → x.2 !! key = Some ss → rs' !! index key = Some (Ok n) → fetched_with key ss evs)).
    { split; [apply narrows_refl|]. intros x key ss n Hx. by apply elem_of_nil in Hx. }
    intros before [ep objs] todo rs1 e h1 rs2 e' _ [Hn Hf] E.
    apply bind_inv in E as (r & e1 & e2 & E1 & [-> ->]%ret_inv & ->). rewrite app_nil_r.
    destruct r as [u|err].
    - split; [done|]. intros x key ss n [Hx|Hx]%elem_of_app Hss Hi.
      + pose proof (fetched_with_app _ _ [] e e1 (Hf _ _ _ _ Hx Hss Hi)). done.
      + apply list_elem_of_singleton in Hx as ->. cbn in Hss.
        eapply offload_with in E1; [|rewrite iteration_perm; by apply elem_of_map_to_list].
        pose proof (fetched_with_app _ _ e e1 [] E1) as Hfe. by rewrite app_nil_r in Hfe.
    - split; [eapply narrows_trans; [exact Hn|apply fail_keys_narrows]|].
      intros x key ss n [Hx|Hx]%elem_of_app Hss Hi.
      + apply (fail_keys_narrows rs1) in Hi.
        by pose proof (fetched_with_app _ _ [] e e1 (Hf _ _ _ _ Hx Hss Hi)).
      + apply list_elem_of_singleton in Hx as ->. cbn in Hss. apply fail_keys_ok in Hi.
        exfalso. apply Hi. apply list_elem_of_fmap. exists (key, ss). split; [done|].
        rewrite iteration_perm. by apply elem_of_map_to_list. }
  destruct Hgoal as [Hn Hf]. split; [done|]. intros ep objs key ss n Hep Hss Hi.
  apply (Hf (ep, objs) key ss n); [|done|done]. rewrite iteration_perm.
  by apply elem_of_map_to_list.
Qed.

(** ** Classification *)

Definition key_of (ix : nat * (string * (Z * Z) * expected QueryResult)) : string := ix.2.1.1.

(** Position [i] was accepted, and is recorded for the phase that reads it. *)
Definition accepted (eps : list string) (st : IntoState) (n : Z)
    (ix : nat * (string * (Z * Z) * expected QueryResult)) : Prop :=
  let '(i, (key, (buffer, size), q)) := ix in
  ∃ qr r, q = Ok qr ∧ SelectBestReplica (replicas qr) eps = Some r ∧
    calculate_total_size r ≤ size ∧ n = to_i64 (calculate_total_size r) ∧
    match data r with
    | LocalDiskReplica _ _ =>
        is_local_disk st !! key =
          Some (MkValidKey key i qr (allocateSlices r buffer) (calculate_total_size r))
    | DiskReplica _ _ => MkDiskKey key i qr buffer (calculate_total_size r) ∈ is_disk st
    | _ => MkValidKey key i (FilterQueryResult qr r) (allocateSlices r buffer)
             (calculate_total_size r) ∈ is_valid st
    end.

Record classified (eps : list string) (len : nat)
    (before : list (nat * (string * (Z * Z) * expected QueryResult))) (st : IntoState) : Prop := {
  cl_length : length (is_results st) = len;
  cl_valid : vk_key <$> is_valid st `sublist_of` key_of <$> before;
  cl_disk : dk_key <$> is_disk st `sublist_of` key_of <$> before;
  cl_local : ∀ key op, is_local_disk st !! key = Some op → key ∈ key_of <$> before;
  cl_accepted : ∀ ix n, ix ∈ before → is_results st !! ix.1 = Some (Ok n) → accepted eps st n ix }.

Lemma accepted_mono eps st st' n ix :
  (∀ op, op ∈ is_valid st → op ∈ is_valid st') → (∀ op, op ∈ is_disk st → op ∈ is_disk st') →
  (∀ key op, is_local_disk st !! key = Some op → is_local_disk st' !! key = Some op) →
  accepted eps st n ix → accepted eps st' n ix.
Proof.
  intros Hv Hd Hl. destruct ix as [i [[key [b sz]] q]].
  intros (qr & r & ? & ? & ? & ? & Hm). exists qr, r. split_and!; [done..|].
  destruct (data r); auto.
Qed.

Lemma classify_step eps len before ix st :
  key_of ix ∉ key_of <$> before → (∀ ix', ix' ∈ before → ix'.1 ≠ ix.1) →
  classified eps len before st → classified eps len (before ++ [ix]) (classify_key eps st ix).
Proof.
  intros Hkey Hidx [Hlen Hv Hd Hl Ha]. destruct ix as [i [[key [b sz]] q]]. cbn in Hidx.
  assert (Hsub : ∀ l, l `sublist_of` key_of <$> before → l `sublist_of` key_of <$> (before ++ [(i, (key, (b, sz), q))]))
    by (intros l Hsl; rewrite fmap_app; by apply sublist_inserts_r).
  assert (Hin : ∀ k, k ∈ key_of <$> before → k ∈ key_of <$> (before ++ [(i, (key, (b, sz), q))]))
    by (intros k Hk; rewrite fmap_app; apply elem_of_app; by left).
  assert (Hnew : key ∈ key_of <$> (before ++ [(i, (key, (b, sz), q))]))
    by (rewrite fmap_app; apply elem_of_app; right; by left).
  assert (Hold : ∀ x ix n, ix ∈ before → <[i := x]> (is_results st) !! ix.1 = Some (Ok n) →
                           accepted eps st n ix).
  { intros x ix n Hix Hn. apply Ha; [done|]. rewrite list_lookup_insert_ne in Hn; [done|].
    intros Heq. by apply (Hidx ix). }
  assert (Hself : ∀ (x : expected Z) n, <[i := x]> (is_results st) !! i = Some (Ok n) → x = Ok n).
  { intros x n Hn. destruct (decide (i < length (is_results st))%nat).
    - rewrite list_lookup_insert_eq in Hn by done. congruence.
    - rewrite list_insert_ge in Hn by lia. apply lookup_lt_Some in Hn. lia. }
  assert (Hfail : ∀ e, classified eps len (before ++ [(i, (key, (b, sz), q))])
    (MkIntoState (<[i := Err e]> (is_results st)) (is_valid st) (is_local_disk st) (is_disk st))).
  { intros e. split; cbn; [by rewrite length_insert|by apply Hsub|by apply Hsub| |].
    - intros k op Hop. by eapply Hin, Hl.
    - intros ix n [Hix|Hix]%elem_of_app Hn.
      + eapply accepted_mono; [..|by eapply Hold]; done.
      + apply list_elem_of_singleton in Hix as ->. by apply Hself in Hn. }
  unfold classify_key. unfold choose_replica. destruct q as [qr|e]; [|apply Hfail].
  case_bool_decide; [apply Hfail|].
  destruct (SelectBestReplica (replicas qr) eps) as [r|] eqn:Hbest; [|apply Hfail].
  destruct (sz <? calculate_total_size r) eqn:Hsz; [apply Hfail|].
  assert (Hnone : is_local_disk st !! key = None).
  { apply eq_None_not_Some. intros [x Hx]. by apply Hl in Hx. }
  assert (Hgen : ∀ st', is_results st' = <[i := Ok (to_i64 (calculate_total_size r))]> (is_results st) →
    (∀ op, op ∈ is_valid st → op ∈ is_valid st') → (∀ op, op ∈ is_disk st → op ∈ is_disk st') →
    (∀ key op, is_local_disk st !! key = Some op → is_local_disk st' !! key = Some op) →
    accepted eps st' (to_i64 (calculate_total_size r)) (i, (key, (b, sz), Ok qr)) →
    ∀ ix n, ix ∈ before ++ [(i, (key, (b, sz), Ok qr))] →
      is_results st' !! ix.1 = Some (Ok n) → accepted eps st' n ix).
  { intros st' Hr Hv' Hd' Hl' Hacc ix n [Hix|Hix]%elem_of_app Hn; rewrite Hr in Hn.
    - eapply accepted_mono; [exact Hv'|exact Hd'|exact Hl'|]. by eapply Hold.
    - apply list_elem_of_singleton in Hix as ->. apply Hself in Hn. by injection Hn as <-. }
  destruct (data r) eqn:Hdata;
    match goal with |- classified _ _ _ ?s => specialize (Hgen s eq_refl) end; cbn in Hgen;
    (split; cbn; [by rewrite length_insert|..]); try by apply Hsub.
  all: try (intros k op Hop; by eapply Hin, Hl).
  all: try (rewrite !fmap_app; by apply sublist_app).
  1-3: apply Hgen; try (intros op Hop; apply elem_of_app; by left); try done;
    exists qr, r; split_and!; [done|done|lia|done|]; rewrite Hdata; apply elem_of_app; right; by left.
  - intros k op [Hop|[-> _]]%emplace_lookup; [by eapply Hin, Hl|done].
  - apply Hgen; [done|done| |].
    + intros k op Hop. unfold emplace. rewrite Hnone, lookup_insert_ne; [done|]. intros <-. congruence.
    + exists qr, r. split_and!; [done|done|lia|done|]. rewrite Hdata. unfold emplace.
      by rewrite Hnone, lookup_insert_eq.
Qed.

(** The offload map holds the slices of every operation whose replicas name a peer. *)
Lemma group_offload_holds (ops : gmap string ValidKeyInfo) key op r :
  ops !! key = Some op → List.find is_local_disk_replica (replicas (vk_query_result op)) = Some r →
  ∃ objs, fold_left group_offload (iteration _ ops) ∅ !! local_disk_endpoint r = Some objs ∧
          objs !! key = Some (vk_slices op).
Proof using iteration_perm.
  intros Hop Hfind.
  assert (Hin : (key, op) ∈ iteration _ ops).
  { rewrite iteration_perm. by apply elem_of_map_to_list. }
  assert (Hnd : NoDup (iteration _ ops).*1).
  { rewrite iteration_perm. apply NoDup_fst_map_to_list. }
  revert Hin. set (l := iteration _ ops) in *.
  apply (fold_left_prefix group_offload (λ before m,
    (∀ ep objs k, m !! ep = Some objs → is_Some (objs !! k) → k ∈ before.*1) ∧
    ((key, op) ∈ before → ∃ objs, m !! local_disk_endpoint r = Some objs ∧
                                  objs !! key = Some (vk_slices op)))).
  { split; [|by intros ?%elem_of_nil]. intros ep objs k Hep. by rewrite lookup_empty in Hep. }
  intros before [k' op'] todo m Hl [Hkeys Hkey].
  assert (Hnew : k' ∉ before.*1).
  { rewrite Hl, fmap_app, NoDup_app in Hnd. destruct Hnd as (_ & Hdis & _). intros Hin.
    apply (Hdis _ Hin). by left. }
  assert (Hmono : ∀ k, k ∈ before.*1 → k ∈ (before ++ [(k', op')]).*1)
    by (intros k Hk; rewrite fmap_app; apply elem_of_app; by left).
  assert (Hfresh : ∀ ep, default ∅ (m !! ep) !! k' = None).
  { intros ep. apply eq_None_not_Some. intros [x Hx]. destruct (m !! ep) as [objs|] eqn:E; cbn in Hx;
      [|by rewrite lookup_empty in Hx]. apply Hnew. by eapply Hkeys. }
  unfold group_offload. cbn [fst snd].
  destruct (List.find is_local_disk_replica (replicas (vk_query_result op'))) as [r'|] eqn:Hf'.
  - unfold add_offload, emplace. rewrite Hfresh. split.
    + intros ep objs k [[<- <-]|[_ Hep]]%lookup_insert_Some Hk; [|by eapply Hmono, Hkeys].
      destruct Hk as [x [[<- _]|[_ Hk]]%lookup_insert_Some];
        [rewrite fmap_app; apply elem_of_app; right; by left|].
      destruct (m !! local_disk_endpoint r') as [objs|] eqn:E; cbn in Hk;
        [|by rewrite lookup_empty in Hk]. eapply Hmono, Hkeys; [exact E|by eexists].
    + intros [Hin|Hin]%elem_of_app.
      * destruct (Hkey Hin) as (objs & Hep & Hk).
        destruct (decide (local_disk_endpoint r' = local_disk_endpoint r)) as [Heq|Hne].
        -- rewrite Heq, lookup_insert_eq. eexists. split; [done|]. rewrite Hep. cbn.
           rewrite lookup_insert_ne; [done|]. intros ->. apply Hnew. apply list_elem_of_fmap.
           by exists (key, op).
        -- rewrite lookup_insert_ne by done. by exists objs.
      * apply list_elem_of_singleton in Hin as [= -> ->]. rewrite Hfind in Hf'. injection Hf' as ->.
        rewrite lookup_insert_eq. eexists. split; [done|]. by rewrite lookup_insert_eq.
  - split; [intros ep objs k Hep Hk; by eapply Hmono, Hkeys|].
    intros [Hin|Hin]%elem_of_app; [by apply Hkey|].
    apply list_elem_of_singleton in Hin as [= -> ->]. congruence.
Qed.

(** ** The whole request *)

Lemma batch_query_run keys h qs evs :
  on_client (BatchQuery keys) h = (qs, evs) →
  length qs = length keys ∧
  ∀ i q, qs !! i = Some (Ok q) → ∃ answers rl,
    EMaster (BatchGetReplicaList keys answers) ∈ client_trace evs ∧
    answers !! i = Some (Ok rl) ∧ replicas q = rl_replicas rl.
Proof.
  intros E. apply lift_inv in E as (evs' & E & ->). rewrite client_trace_lift.
  unfold BatchQuery in E. apply bind_inv in E as (t & ? & ? & [_ ->]%call_inv & E & ->).
  apply bind_inv in E as (resp & ? & ? & [_ ->]%call_inv & E & ->).
  destruct (Nat.eqb_spec (length resp) (length keys)) as [Hl|Hl]; cbn [negb] in E;
    apply ret_inv in E as [-> ->].
  - rewrite length_fmap. split; [done|]. intros i q Hq. rewrite list_lookup_fmap in Hq.
    destruct (resp !! i) as [[rl|e]|] eqn:Er; simplify_eq/=. exists resp, rl.
    split_and!; [|done|done]. clear. set_solver.
  - rewrite length_replicate. split; [done|]. intros i q Hq. by apply lookup_replicate in Hq as [? _].
Qed.

Lemma arrived_app key b r e1 e e2 : arrived key b r e → arrived key b r (e1 ++ e ++ e2).
Proof.
  unfold arrived. destruct (data r); try apply read_into_app; [|apply fetched_with_app].
  intros (tmp & Ha & Hr & Hc). exists tmp. split_and!; [rewrite !elem_of_app; auto| |].
  - by apply read_into_app.
  - by apply copied_app.
Qed.

Lemma find_member (p : Descriptor → bool) rs r : r ∈ rs → p r = true → is_Some (List.find p rs).
Proof.
  intros Hr Hp. destruct (List.find p rs) eqn:E; [done|].
  apply list_elem_of_In in Hr. pose proof (find_none _ _ E r Hr). congruence.
Qed.

(** From the classification on, a success means that the object arrived. *)
Lemma phases_arrive eps len l st h rs1 rs2 rs3 e1 e2 e3 h2 h3 ix n :
  classified eps len l st → NoDup (key_of <$> l) → ix ∈ l →
  read_valid iteration c false (is_valid st) (is_results st) h = (rs1, e1) →
  read_disk iteration c (is_disk st) rs1 h2 = (rs2, e2) →
  mfold (read_offload iteration (index_in (is_local_disk st))) rs2
    (iteration _ (fold_left group_offload (iteration _ (is_local_disk st)) ∅)) h3 = (rs3, e3) →
  rs3 !! ix.1 = Some (Ok n) →
  ∃ qr r, ix.2.2 = Ok qr ∧ SelectBestReplica (replicas qr) eps = Some r ∧
    calculate_total_size r ≤ ix.2.1.2.2 ∧ n = to_i64 (calculate_total_size r) ∧
    arrived ix.2.1.1 ix.2.1.2.1 r (e1 ++ e2 ++ e3).
Proof using iteration_perm.
  intros [Hlen Hv Hd Hl Ha] Hnd Hix E1 E2 E3 Hn.
  apply read_valid_ok in E1 as [N1 R1]; [|by eapply sublist_NoDup].
  apply read_disk_ok in E2 as [N2 R2]; [|by eapply sublist_NoDup].
  apply read_offloads_ok in E3 as [N3 R3].
  pose proof (proj2 N3 _ _ Hn) as Hn2. pose proof (proj2 N2 _ _ Hn2) as Hn1.
  pose proof (Ha ix n Hix (proj2 N1 _ _ Hn1)) as Hacc.
  destruct ix as [i [[key [b sz]] q]]. cbn in *.
  destruct Hacc as (qr & r & Hq & Hbest & Hsz & Hto & Hop). exists qr, r. split_and!; [done..|].
  pose proof (select_best_spec eps (replicas qr)) as Hspec. rewrite Hbest in Hspec.
  destruct Hspec as (Hin & Hc & _).
  assert (Hone : FindFirstCompleteReplica (replicas (FilterQueryResult qr r)) = Some r)
    by (unfold FindFirstCompleteReplica; cbn; by rewrite Hc).
  unfold arrived. destruct (data r) eqn:Hdata.
  - destruct (R1 _ _ Hop Hn1) as (r' & Hr' & Hread). cbn [vk_query_result vk_key vk_slices] in *.
    rewrite Hone in Hr'. injection Hr' as <-. by apply (read_into_app _ _ _ []).
  - destruct (R1 _ _ Hop Hn1) as (r' & Hr' & Hread). cbn [vk_query_result vk_key vk_slices] in *.
    rewrite Hone in Hr'. injection Hr' as <-. by apply (read_into_app _ _ _ []).
  - destruct (R2 _ _ Hop Hn2) as (r' & tmp & Hfind & Hc' & Hal & Hread & Hcopy). cbn in *.
    assert (r' = r) as ->.
    { eapply select_disk_first; [exact Hbest| |exact Hfind|done].
      unfold is_disk_replica. by rewrite Hdata. }
    exists tmp. split_and!; [rewrite !elem_of_app; auto|by apply read_into_app|by apply copied_app].
  - destruct (find_member is_local_disk_replica (replicas qr) r) as [r0 Hr0];
      [done|unfold is_local_disk_replica; by rewrite Hdata|].
    destruct (group_offload_holds _ _ _ r0 Hop Hr0) as (objs & Hep & Hk).
    rewrite app_assoc. rewrite <- (app_nil_r e3). apply fetched_with_app.
    eapply R3; [exact Hep|exact Hk|]. unfold index_in. rewrite Hop. exact Hn.
Qed.

Lemma classify_all eps (keys : list string) (bns : list (Z * Z)) (qs : list (expected QueryResult)) :
  NoDup keys →
  let l := indexed (zip (zip keys bns) qs) in
  classified eps (length keys) l
    (fold_left (classify_key eps) l (MkIntoState (replicate (length keys) (Ok 0)) [] ∅ [])).
Proof.
  intros Hnd l.
  apply (fold_left_prefix (classify_key eps) (λ before st, classified eps (length keys) before st)).
  - split; cbn; [apply length_replicate|apply sublist_nil_l|apply sublist_nil_l| |].
    + intros key op Hop. by rewrite lookup_empty in Hop.
    + intros ix m Hix. by apply elem_of_nil in Hix.
  - intros before ix todo s Hl Hok. apply classify_step; [| |done].
    + assert (Hndk : NoDup (key_of <$> l)) by (by apply zip_keys_nodup).
      rewrite Hl, fmap_app, NoDup_app in Hndk. destruct Hndk as (_ & Hdis & _). intros Hin.
      apply (Hdis _ Hin). by left.
    + intros ix' [j Hj]%list_elem_of_lookup Heq.
      assert (Hjx : l !! j = Some ix').
      { rewrite Hl, lookup_app_l; [done|]. by eapply lookup_lt_Some. }
      assert (Hx : l !! length before = Some ix) by (by rewrite Hl, list_lookup_middle).
      unfold l in Hjx, Hx. rewrite lookup_indexed in Hjx. rewrite lookup_indexed in Hx.
      destruct (zip (zip keys bns) qs !! j) eqn:Ej; [|done].
      destruct (zip (zip keys bns) qs !! length before) eqn:Eb; [|done].
      simplify_eq/=. apply lookup_lt_Some in Hj. lia.
Qed.

Lemma nothing_accepted eps st n ix :
  is_valid st = [] → is_local_disk st = ∅ → is_disk st = [] → ¬ accepted eps st n ix.
Proof.
  intros Hv Hl Hd. destruct ix as [i [[key [b sz]] q]].
  intros (qr & r & _ & _ & _ & _ & Hop). rewrite Hv, Hl, Hd in Hop. destruct (data r).
  - by apply elem_of_nil in Hop.
  - by apply elem_of_nil in Hop.
  - by apply elem_of_nil in Hop.
  - by rewrite lookup_empty in Hop.
Qed.
End Sound.

Section Whole.
Context `{!MasterClient, !TransferSubmitter, !HotCache, !StorageBackend, !Clock, !RealServices}.
Context (iteration : ∀ A : Type, gmap string A → list (string * A)).
Context (iteration_perm : ∀ A (m : gmap string A), iteration A m ≡ₚ map_to_list m).

(** C29: When no key is repeated, a position of [batch_get_into] that reports a size [n] had
    its whole object read into its buffer: the master answered with replicas, the best complete one
    of them fits the buffer and has size [n], and its bytes arrived, by a completed
    transfer into the buffer, through a temporary buffer, or from a peer. *)
Theorem batch_get_into_delivers rc c keys buffers sizes h results evs i n :
  client_ rc = Some c → NoDup keys →
  batch_get_into_internal iteration rc keys buffers sizes h = (results, evs) →
  results !! i = Some (Ok n) →
  ∃ key buffer size answers rl eps r,
    keys !! i = Some key ∧ buffers !! i = Some buffer ∧ sizes !! i = Some size ∧
    EMaster (BatchGetReplicaList keys answers) ∈ client_trace evs ∧
    answers !! i = Some (Ok rl) ∧ SelectBestReplica (rl_replicas rl) eps = Some r ∧
    is_complete r = true ∧ calculate_total_size r ≤ size ∧
    n = to_i64 (calculate_total_size r) ∧ arrived c key buffer r evs.
Proof using iteration_perm.
  intros Hc Hnd E Hi. unfold batch_get_into_internal in E. rewrite Hc in E.
  destruct (negb _ || negb _) eqn:Hlens.
  { apply ret_inv in E as [-> _]. by apply lookup_replicate in Hi as [? _]. }
  assert (length keys = length buffers ∧ length keys = length sizes) as [Hb Hs].
  { destruct (Nat.eqb_spec (length keys) (length buffers)); [|done].
    destruct (Nat.eqb_spec (length keys) (length sizes)); [|done]. done. }
  clear Hlens. case_bool_decide as Hk; [by apply ret_inv in E as [-> _]|].
  apply bind_inv in E as (qs & e1 & e2 & E1 & E & ->).
  apply batch_query_run in E1 as [Hlq Hqs].
  apply bind_inv in E as (eps & e3 & e4 & E2 & E & ->). injection E2 as <- <-. cbn [app].
  set (eps := r_local_endpoints _) in E.
  pose proof (classify_all eps keys (zip buffers sizes) qs Hnd) as Hcl. cbn zeta in Hcl.
  pose proof (zip_keys_nodup keys (zip buffers sizes) qs Hnd) as Hndk.
  revert E Hcl. set (st := fold_left _ _ _). intros E Hcl.
  assert (Hix : (i < length keys)%nat → ∃ key b sz q, keys !! i = Some key ∧ buffers !! i = Some b ∧
    sizes !! i = Some sz ∧ qs !! i = Some q ∧
    (i, (key, (b, sz), q)) ∈ indexed (zip (zip keys (zip buffers sizes)) qs)).
  { intros Hlt. destruct (lookup_lt_is_Some_2 keys i) as [key Ek]; [lia|].
    destruct (lookup_lt_is_Some_2 buffers i) as [b Eb]; [lia|].
    destruct (lookup_lt_is_Some_2 sizes i) as [sz Es]; [lia|].
    destruct (lookup_lt_is_Some_2 qs i) as [q Eq]; [lia|]. exists key, b, sz, q.
    split_and!; [done..|]. apply list_elem_of_lookup. exists i.
    by rewrite lookup_indexed, !lookup_zip_with, Ek, Eb, Es, Eq. }
  destruct (_ && _) eqn:Hempty.
  { apply ret_inv in E as [-> _]. apply andb_true_iff in Hempty as [He Hd].
    apply andb_true_iff in He as [Hv Hl]. apply bool_decide_eq_true in Hv, Hl, Hd.
    destruct Hix as (key & b & sz & q & _ & _ & _ & _ & Hin);
      [rewrite <- (cl_length _ _ _ _ Hcl); by eapply lookup_lt_Some|].
    exfalso. eapply (nothing_accepted eps st n); [done..|]. by apply (cl_accepted _ _ _ _ Hcl). }
  apply bind_inv in E as (rs1 & ea & ? & R1 & E & ->).
  apply bind_inv in E as (rs2 & eb & ec & R2 & R3 & ->).
  assert (Hlt : (i < length keys)%nat).
  { apply lookup_lt_Some in Hi. rewrite <- (cl_length _ _ _ _ Hcl).
    pose proof (read_valid_ok iteration c _ _ _ _ _ R1) as [[N1 _] _];
      [eapply sublist_NoDup; [exact Hndk|apply (cl_valid _ _ _ _ Hcl)]|].
    pose proof (read_disk_ok iteration c _ _ _ _ _ R2) as [[N2 _] _];
      [eapply sublist_NoDup; [exact Hndk|apply (cl_disk _ _ _ _ Hcl)]|].
    pose proof (read_offloads_ok iteration iteration_perm _ _ _ _ _ _ R3) as [[N3 _] _]. lia. }
  destruct (Hix Hlt) as (key & b & sz & q & Ek & Eb & Es & Eq & Hin).
  destruct (phases_arrive iteration iteration_perm c eps _ _ st _ _ _ _ _ _ _ _ _ _ n Hcl Hndk Hin
              R1 R2 R3 Hi) as (qr & r & Hq & Hbest & Hsz & Hto & Harr). cbn in Hq, Hsz, Harr. subst q.
  destruct (Hqs i qr Eq) as (answers & rl & Hm & Hrl & Hrep).
  pose proof (select_best_spec eps (replicas qr)) as Hspec. rewrite Hbest in Hspec.
  exists key, b, sz, answers, rl, eps, r. rewrite <- Hrep. split_and!; try done.
  - rewrite client_trace_app. apply elem_of_app. by left.
  - by destruct Hspec as (_ & ? & _).
  - rewrite <- (app_nil_r (ea ++ eb ++ ec)). by apply arrived_app.
Qed.
End Whole.

Lemma batch_get_into_delivers_witness :
  let run := sample_into [disk_object; memory_at 100] ["a"; "b"] [8192; 12288] [64; 4] in
  ∃ r, @arrived bump_real sample_client "a" 8192 r run.2 ∧ 8 = to_i64 (u64 (replica_total_size r)).
Proof.
  intros run.
  destruct (@batch_get_into_delivers (sample_master [disk_object; memory_at 100]) (sample_submitter [])
    (sample_cache None) (sample_clock 0) bump_real (λ A, map_to_list) (λ A m, reflexivity _)
    sample_real_client sample_client ["a"; "b"] [8192; 12288] [64; 4] [] run.1 run.2 0%nat 8)
    as (key & b & sz & answers & rl & eps & r & Hk & Hb & _ & _ & _ & _ & _ & _ & Hn & Harr).
  - done.
  - repeat constructor; set_solver.
  - by vm_compute.
  - by vm_compute.
  - cbn in Hk, Hb. simplify_eq. by exists r.
Defined.
