(* ===== verification/RealSegments.v ===== *)
(** * Segments of the real client ([mooncake-store/src/real_client.cpp])

    [mountSegment] maps a file range in chunks and mounts each chunk with the
    store client; [allocateAndMountSegment] does the same with allocated memory.
    A record per mounted chunk remembers the mapping until it is unmounted,
    gracefully cleaned up, or the client is torn down.  Files, mappings and the
    memory allocator are external; the segments of the store client are those of
    [Segments.v]. *)

From S2P Require Import Prelude CxxString StoreTypes ReplicaPolicy Segments.
From stdpp Require Import base strings list sets gmap fin_maps.
From Stdlib Require Import ZArith Lia.

#[local] Open Scope Z_scope.
#[local] Set Default Proof Using "Type".

(** ** Calls *)

Inductive map_event :=
| GSegment (e : seg_event)                            (* made by the store client *)
| GOpen (path : string) (fd : Z)
| GFstat (fd : Z) (st_size : option Z)
| GClose (fd rc : Z)
| GMmap (size fd offset : Z) (ptr : option Z)         (* None: MAP_FAILED *)
| GMunmap (ptr size rc : Z)
| GAllocate (size : Z) (protocol : string) (ptr : Z)  (* 0: nullptr *)
| GFreeMemory (protocol : string) (ptr : Z).

Abbreviation gio A := (comp map_event A).

Definition segment_event (e : map_event) : option seg_event :=
  match e with GSegment e => Some e | _ => None end.

Definition on_segments {A} (m : sio A) : gio A := lift_comp GSegment segment_event m.

Class MapServices := {
  g_open : list map_event → string → Z;
  g_fstat : list map_event → Z → option Z;
  g_close : list map_event → Z → Z;
  g_mmap : list map_event → Z → Z → Z → option Z;
  g_munmap : list map_event → Z → Z → Z;
  g_allocate : list map_event → Z → string → Z }.

(** ** State *)

Record MountedSegmentRecord := MkMounted { mmap_base : Z; mr_size : Z; mr_path : string }.
Record AllocatedSegmentRecord := MkAllocated { ar_base : Z; ar_size : Z; ar_protocol : string }.

Record RealSegments := MkRealSegments {
  rs_client : option Client;
  rs_segments : SegState;                      (* the segments of client_ *)
  mounted_segment_records_ : gmap string MountedSegmentRecord;
  allocated_segment_records_ : gmap string AllocatedSegmentRecord }.

Definition with_segments (s : RealSegments) (seg : SegState) : RealSegments :=
  MkRealSegments (rs_client s) seg (mounted_segment_records_ s) (allocated_segment_records_ s).
Definition with_mounted_records (s : RealSegments) m : RealSegments :=
  MkRealSegments (rs_client s) (rs_segments s) m (allocated_segment_records_ s).
Definition with_allocated_records (s : RealSegments) m : RealSegments :=
  MkRealSegments (rs_client s) (rs_segments s) (mounted_segment_records_ s) m.

(** State of the second loop of the unmount operations: segments, records,
    [to_cleanup], [first_error]. *)
Abbreviation unmount_state Rec := (SegState * gmap string Rec * list Rec * Z)%type.

Section Segments.
Context `{!SegmentServices, !MapServices}.
(** [globalConfig().max_mr_size], [sysconf(_SC_PAGESIZE)], [Slab::kSize] and the
    conversions of segment ids. *)
Context (max_mr_size page_size slab_size ERR_ADDRESS_NOT_REGISTERED : Z).
Context (UuidToString : UUID → string) (StringToUuid : string → option UUID).
(** The numeric value of an error code. *)
Context (error_int : ErrorCode → Z).

Definition munmap (ptr size : Z) : gio unit :=
  call (λ h, g_munmap h ptr size) (GMunmap ptr size) ;;; ret tt.
Definition free_memory (protocol : string) (ptr : Z) : gio unit :=
  call (λ _, tt) (λ _, GFreeMemory protocol ptr).
Definition close (fd : Z) : gio unit := call (λ h, g_close h fd) (GClose fd) ;;; ret tt.

(** Releases what a record describes, if it has an address. *)
Definition release_mounted (r : MountedSegmentRecord) : gio unit :=
  if mmap_base r =? 0 then ret tt else munmap (mmap_base r) (mr_size r).
Definition release_allocated (r : AllocatedSegmentRecord) : gio unit :=
  if ar_base r =? 0 then ret tt else free_memory (ar_protocol r) (ar_base r).

(** ** Mounting in chunks *)

Section Chunks.
Context {Rec : Type} (c : Client) (protocol location : string) (max_chunk : Z).
(** How a chunk at an offset is obtained, given back at once, and recorded. *)
Context (acquire : Z → Z → gio (option Z)) (give_back : Z → Z → gio unit) (mk : Z → Z → Rec).
Context (release : Rec → gio unit).

(** The [while (remaining > 0)] loop: what remains, and the mounted chunks. *)
Fixpoint mount_chunks (fuel : nat) (remaining offset : Z) (s : SegState)
  : gio (Z * list (string * Rec) * SegState) :=
  match fuel with
  | O => ret (remaining, [], s)
  | S fuel =>
      if remaining =? 0 then ret (remaining, [], s)
      else
        let chunk_size := Z.min remaining max_chunk in
        if chunk_size =? 0 then ret (remaining, [], s)
        else
          let! ptr := acquire offset chunk_size in
          match ptr with
          | None => ret (remaining, [], s)
          | Some p =>
              let! r := on_segments (MountSegmentAndGetId c max_mr_size p chunk_size protocol
                                       location s) in
              match r.1 with
              | Err _ => give_back p chunk_size ;;; ret (remaining, [], r.2)
              | Ok id =>
                  let! rest := mount_chunks fuel (remaining - chunk_size)
                                 (u64_add offset chunk_size) r.2 in
                  ret (rest.1.1, (UuidToString id, mk p chunk_size) :: rest.1.2, rest.2)
              end
          end
  end.

(** Undo one mounted chunk; the result of the unmount is not looked at. *)
Definition roll_back_chunk (s : SegState) (chunk : string * Rec) : gio SegState :=
  let! s := (match StringToUuid chunk.1 with
             | Some id =>
                 let! r := on_segments (UnmountSegmentById ERR_ADDRESS_NOT_REGISTERED id 0 false s) in
                 ret r.2
             | None => ret s
             end) in
  release chunk.2 ;;; ret s.
End Chunks.

(** Enough iterations for [size] bytes in chunks of [max_chunk]. *)
Definition chunk_fuel (size max_chunk : Z) : nat := S (Z.to_nat (size / max_chunk)).

Definition insert_records {Rec} (chunks : list (string * Rec)) (m : gmap string Rec)
  : gmap string Rec := fold_left (λ m chunk, <[chunk.1 := chunk.2]> m) chunks m.

(** Returns the status, what is written to [out_segment_ids] ([None]: it is left
    as it was) and the state. *)
Definition mountSegment (path : string) (offset size : Z) (protocol location : string)
    (s : RealSegments) : gio (Z * option (list string) * RealSegments) :=
  let fail := (-1, None, s) in
  match rs_client s with
  | None => ret fail
  | Some c =>
      if max_mr_size =? 0 then ret fail
      else if max_mr_size <? page_size then ret fail
      else
        let! fd := call (λ h, g_open h path) (GOpen path) in
        if fd <? 0 then ret fail
        else
          let! st := call (λ h, g_fstat h fd) (GFstat fd) in
          match st with
          | None => close fd ;;; ret fail
          | Some st_size =>
              if (st_size <? offset) || (u64_sub st_size offset <? size)
              then close fd ;;; ret fail
              else if negb (offset mod page_size =? 0) then close fd ;;; ret fail
              else
                let aligned_max_chunk := max_mr_size / page_size * page_size in
                let! m := mount_chunks c protocol location aligned_max_chunk
                            (λ off n, call (λ h, g_mmap h n fd off) (GMmap n fd off))
                            munmap (λ p n, MkMounted p n path)
                            (chunk_fuel size aligned_max_chunk) size offset (rs_segments s) in
                let '(remaining, chunks, seg) := m in
                close fd ;;;
                if 0 <? remaining then
                  let! seg := mfold (roll_back_chunk release_mounted) seg chunks in
                  ret (-1, Some [], with_segments s seg)
                else
                  ret (0, Some chunks.*1,
                       with_mounted_records (with_segments s seg)
                         (insert_records chunks (mounted_segment_records_ s)))
          end
  end.

Definition acquire_memory (protocol : string) (n : Z) : gio (option Z) :=
  let! ptr := call (λ h, g_allocate h n protocol) (GAllocate n protocol) in
  ret (if ptr =? 0 then None else Some ptr).

(** [aligned_max_chunk] and [aligned_total_size]; [None]: an error exit. *)
Definition allocation_plan (size : Z) : option (Z * Z) :=
  if max_mr_size =? 0 then None
  else if size =? 0 then None
  else if max_mr_size <? page_size then None
  else
    let aligned_max_chunk := max_mr_size / page_size * page_size in
    if aligned_max_chunk <? slab_size then None
    else if u64_sub u64_max (slab_size - 1) <? size then None
    else Some (aligned_max_chunk / slab_size * slab_size,
               (u64_add size (slab_size - 1)) / slab_size * slab_size).

(** The status, what is written to [out_segment_ids] and [out_allocated_size], and
    the state. *)
Definition allocateAndMountSegment (size : Z) (protocol location : string) (s : RealSegments)
  : gio (Z * option (list string) * option Z * RealSegments) :=
  let fail := (-1, None, None, s) in
  match rs_client s with
  | None => ret fail
  | Some c =>
      match allocation_plan size with
      | None => ret fail
      | Some (max_chunk, aligned_total_size) =>
          let! m := mount_chunks c protocol location max_chunk
                      (λ _ n, acquire_memory protocol n) (λ p _, free_memory protocol p)
                      (λ p n, MkAllocated p n protocol)
                      (chunk_fuel aligned_total_size max_chunk) aligned_total_size 0
                      (rs_segments s) in
          let '(remaining, chunks, seg) := m in
          if 0 <? remaining then
            let! seg := mfold (roll_back_chunk release_allocated) seg chunks in
            ret (-1, Some [], None, with_segments s seg)
          else
            ret (0, Some chunks.*1, Some aligned_total_size,
                 with_allocated_records (with_segments s seg)
                   (insert_records chunks (allocated_segment_records_ s)))
      end
  end.

(** ** Records *)

Definition ReleaseMountedSegmentRecord (segment_id : string) (s : RealSegments)
  : gio RealSegments :=
  match mounted_segment_records_ s !! segment_id with
  | None => ret s
  | Some record =>
      release_mounted record ;;;
      ret (with_mounted_records s (delete segment_id (mounted_segment_records_ s)))
  end.

Definition ReleaseAllocatedSegmentRecord (segment_id : string) (s : RealSegments)
  : gio RealSegments :=
  match allocated_segment_records_ s !! segment_id with
  | None => ret s
  | Some record =>
      release_allocated record ;;;
      ret (with_allocated_records s (delete segment_id (allocated_segment_records_ s)))
  end.

Definition ReleaseAllMountedSegmentRecords (s : RealSegments) : gio RealSegments :=
  mmap release_mounted (map_to_list (mounted_segment_records_ s)).*2 ;;;
  ret (with_mounted_records s ∅).

Definition ReleaseAllAllocatedSegmentRecords (s : RealSegments) : gio RealSegments :=
  mmap release_allocated (map_to_list (allocated_segment_records_ s)).*2 ;;;
  ret (with_allocated_records s ∅).

(** ** Unmounting *)

(** [to_unmount]: the valid ids that have a record, and [first_error]. *)
Definition select_unmount {Rec} (records : gmap string Rec) (segment_ids : list string)
  : list (string * UUID) * Z :=
  fold_left (λ acc segment_id,
      match StringToUuid segment_id with
      | None => (acc.1, if acc.2 =? 0 then -1 else acc.2)
      | Some id =>
          match records !! segment_id with
          | None => (acc.1, if acc.2 =? 0 then -1 else acc.2)
          | Some _ => (acc.1 ++ [(segment_id, id)], acc.2)
          end
      end) segment_ids ([], 0).

Definition unmount_entry {Rec} (grace_period_ms : Z) (st : unmount_state Rec)
    (entry : string * UUID) : gio (unmount_state Rec) :=
  let '(seg, records, to_cleanup, first_error) := st in
  let! r := on_segments (UnmountSegmentById ERR_ADDRESS_NOT_REGISTERED entry.2 grace_period_ms
                           (negb (grace_period_ms =? 0)) seg) in
  match r.1 with
  | Err e => ret (r.2, records, to_cleanup, if first_error =? 0 then error_int e else first_error)
  | Ok _ =>
      if grace_period_ms =? 0 then
        match records !! entry.1 with
        | Some record => ret (r.2, delete entry.1 records, to_cleanup ++ [record], first_error)
        | None => ret (r.2, records, to_cleanup, first_error)
        end
      else ret (r.2, records, to_cleanup, first_error)
  end.

Definition unmountSegment (segment_ids : list string) (grace_period_seconds : Z)
    (s : RealSegments) : gio (Z * RealSegments) :=
  match rs_client s with
  | None => ret (-1, s)
  | Some _ =>
      let grace_period_ms := u64 (grace_period_seconds * 1000) in
      let '(to_unmount, first_error) := select_unmount (mounted_segment_records_ s) segment_ids in
      let! st := mfold (unmount_entry grace_period_ms)
                   (rs_segments s, mounted_segment_records_ s, [], first_error) to_unmount in
      let '(seg, records, to_cleanup, first_error) := st in
      mmap release_mounted to_cleanup ;;;
      ret (first_error, with_mounted_records (with_segments s seg) records)
  end.

Definition unmountAndFreeSegment (segment_ids : list string) (grace_period_seconds : Z)
    (s : RealSegments) : gio (Z * RealSegments) :=
  match rs_client s with
  | None => ret (-1, s)
  | Some _ =>
      let grace_period_ms := u64 (grace_period_seconds * 1000) in
      let '(to_unmount, first_error) :=
        select_unmount (allocated_segment_records_ s) segment_ids in
      let! st := mfold (unmount_entry grace_period_ms)
                   (rs_segments s, allocated_segment_records_ s, [], first_error) to_unmount in
      let '(seg, records, to_cleanup, first_error) := st in
      mmap release_allocated to_cleanup ;;;
      ret (first_error, with_allocated_records (with_segments s seg) records)
  end.
End Segments.
