(* ===== verification/RealSegmentsSpec.v ===== *)
(** * What the segment operations of the real client guarantee

    Accounting of files, mappings and allocated memory over the life of the
    client, and the division of a request into chunks. *)

From S2P Require Import Prelude CxxString StoreTypes ReplicaPolicy Samples Accounting Segments RealSegments.
From stdpp Require Import base strings list sets gmap fin_maps.
From Stdlib Require Import ZArith Lia.

#[local] Open Scope Z_scope.
#[local] Set Default Proof Using "Type".

(** ** Resources *)

Inductive seg_res :=
| RFd (fd : Z)
| RMapping (ptr size : Z)
| RMemory (protocol : string) (ptr : Z).

#[export] Instance seg_res_eq_dec : EqDecision seg_res.
Proof. solve_decision. Defined.

#[export] Instance map_resources : Resources map_event seg_res := {|
  acquires e :=
    match e with
    | GOpen _ fd => if fd <? 0 then [] else [RFd fd]
    | GMmap n _ _ (Some p) => [RMapping p n]
    | GAllocate _ protocol p => if p =? 0 then [] else [RMemory protocol p]
    | _ => []
    end;
  release_of e :=
    match e with
    | GClose fd rc => Some (RFd fd, rc)
    | GMunmap p n rc => Some (RMapping p n, rc)
    | GFreeMemory protocol p => Some (RMemory protocol p, 0)
    | _ => None
    end |}.

Definition mounted_res (r : MountedSegmentRecord) : list seg_res :=
  if mmap_base r =? 0 then [] else [RMapping (mmap_base r) (mr_size r)].
Definition allocated_res (r : AllocatedSegmentRecord) : list seg_res :=
  if ar_base r =? 0 then [] else [RMemory (ar_protocol r) (ar_base r)].

Definition records_res {Rec} (res : Rec → list seg_res) (m : gmap string Rec) : list seg_res :=
  (map_to_list m).*2 ≫= res.

(** What the records of the client stand for. *)
Definition owned_memory (s : RealSegments) : list seg_res :=
  records_res mounted_res (mounted_segment_records_ s) ++
  records_res allocated_res (allocated_segment_records_ s).

(** ** Segment ids *)

Definition generated (h : list seg_event) : list UUID :=
  omap (λ e, match e with GenerateUuid id => Some id | _ => None end) h.
Definition generated_ids (h : list map_event) : list UUID := generated (omap segment_event h).

Lemma generated_ids_app h1 h2 : generated_ids (h1 ++ h2) = generated_ids h1 ++ generated_ids h2.
Proof. unfold generated_ids, generated. by rewrite !omap_app. Qed.

(** What the system promises: ids are new, their strings tell them apart, and
    a mapping is never placed at address zero. *)
Class SegmentLaws `{!SegmentServices, !MapServices} (UuidToString : UUID → string) : Prop := {
  uuid_fresh h : generate_uuid h ∉ generated h;
  uuid_string_inj : Inj (=) (=) UuidToString;
  mmap_nonnull h n fd off p : g_mmap h n fd off = Some p → p ≠ 0 }.

Section Spec.
Context `{!SegmentServices, !MapServices}.
Context (max_mr_size page_size slab_size ERR_ADDRESS_NOT_REGISTERED : Z).
Context (UuidToString : UUID → string) (StringToUuid : string → option UUID).
Context (error_int : ErrorCode → Z).
Context {laws : SegmentLaws UuidToString}.

(** *** Calls of the store client *)

Lemma on_segments_owns {A} l (m : sio A) : owns l (on_segments m) (λ _, l).
Proof.
  intros h v evs E. apply lift_inv in E as (evs' & _ & ->). intros r.
  unfold times. assert (Hn : ∀ f : map_event → list seg_res, (∀ e, f (GSegment e) = []) →
    ((GSegment <$> evs') ≫= f) = []).
  { intros f Hf. induction evs' as [|e evs' IH]; [done|]. cbn. by rewrite Hf, IH. }
  rewrite !Hn by done. rewrite count_nil. lia.
Qed.

Lemma on_segments_generated {A} (m : sio A) h v evs :
  on_segments m h = (v, evs) →
  ∃ evs', m (omap segment_event h) = (v, evs') ∧ generated_ids evs = generated evs'.
Proof.
  intros E. apply lift_inv in E as (evs' & E & ->). exists evs'. split; [done|].
  unfold generated_ids. f_equal. clear E. induction evs' as [|e evs' IH]; [done|].
  cbn. by rewrite IH.
Qed.

Lemma mount_generates c p n protocol location s h id s' evs :
  MountSegmentAndGetId c max_mr_size p n protocol location s h = ((Ok id, s'), evs) →
  (id ∉ generated h) ∧ (generated evs = [id]).
Proof using laws.
  unfold MountSegmentAndGetId. destruct (CheckRegisterMemoryParams max_mr_size p n);
    [|intros E; by apply ret_inv in E as [? _]].
  destruct (existsb _ _); [intros E; by apply ret_inv in E as [? _]|].
  intros E. apply bind_inv in E as (rc & ? & ? & E1 & E & ->). apply call_inv in E1 as [_ ->].
  destruct (negb _); [by apply ret_inv in E as [? _]|].
  apply bind_inv in E as (u & ? & ? & E1 & E & ->). apply call_inv in E1 as [-> ->].
  apply bind_inv in E as (mr & ? & ? & E1 & E & ->). apply call_inv in E1 as [_ ->].
  destruct mr as [|e]; [|by apply ret_inv in E as [? _]].
  apply bind_inv in E as (s2 & ? & ? & E1 & E & ->). apply ret_inv in E as [[= -> ->] ->].
  assert (Hg : generated x = []).
  { unfold EnsureStorageControlPlaneStarted in E1. destruct (storage_started _).
    - by apply ret_inv in E1 as [_ ->].
    - apply bind_inv in E1 as (? & ? & ? & E2 & E1 & ->). apply call_inv in E2 as [_ ->].
      by apply ret_inv in E1 as [_ ->]. }
  unfold generated in *. rewrite app_nil_r. cbn. rewrite Hg. split; [|done].
  intros Hin. apply (uuid_fresh (h ++ [TERegister p n location rc])).
  unfold generated. rewrite omap_app. cbn. rewrite app_nil_r. exact Hin.
Qed.

(** *** Chunks *)

Section Chunks.
Context {Rec : Type} (c : Client) (protocol location : string) (max_chunk : Z).
Context (acquire : Z → Z → gio (option Z)) (give_back : Z → Z → gio unit) (mk : Z → Z → Rec).
Context (release : Rec → gio unit) (res : Rec → list seg_res).
Context (acquire_owns : ∀ off n,
  owns [] (acquire off n) (λ o, match o with Some p => res (mk p n) | None => [] end)).
Context (acquire_some : ∀ off n, returns (acquire off n) (λ o, ∀ p, o = Some p → p ≠ 0)).
Context (acquire_quiet : ∀ off n h v evs, acquire off n h = (v, evs) → generated_ids evs = []).
Context (give_back_owns : ∀ p n, p ≠ 0 → owns (res (mk p n)) (give_back p n) (λ _, [])).
Context (release_owns : ∀ r, owns (res r) (release r) (λ _, [])).

Abbreviation chunks_loop := (mount_chunks max_mr_size UuidToString c protocol location max_chunk
                               acquire give_back mk).

Lemma mount_chunks_owns fuel remaining offset s :
  owns [] (chunks_loop fuel remaining offset s) (λ r, r.1.2.*2 ≫= res).
Proof using acquire_owns acquire_some give_back_owns.
  revert remaining offset s. induction fuel as [|fuel IH]; intros remaining offset s;
    cbn [mount_chunks]; [by apply owns_ret|].
  destruct (remaining =? 0); [by apply owns_ret|]. destruct (Z.min remaining max_chunk =? 0);
    [by apply owns_ret|].
  eapply owns_bind; [apply acquire_owns|apply acquire_some|]. intros [p|] Hp; cbn beta iota;
    [|by apply owns_ret]. specialize (Hp p eq_refl).
  eapply owns_seq; [apply on_segments_owns|]. intros [[id|e] s']; cbn [fst snd].
  - eapply owns_seq with (mid := λ rest, res (mk p (Z.min remaining max_chunk)) ++
                                          (rest.1.2.*2 ≫= res)).
    + eapply owns_pre; [apply owns_frame, IH|]. by rewrite app_nil_r.
    + intros rest. apply owns_ret. done.
  - eapply owns_seq; [by apply give_back_owns|]. intros u. by apply owns_ret.
Qed.

(** The ids of the mounted chunks are new. *)
Definition new_ids (h evs : list map_event) (keys : list string) : Prop :=
  ∃ ids, keys = UuidToString <$> ids ∧ NoDup ids ∧
         (∀ id, id ∈ ids → (id ∉ generated_ids h) ∧ (id ∈ generated_ids evs)).

Lemma new_ids_nil h evs : new_ids h evs [].
Proof. exists []. split_and!; [done|constructor|]. intros id Hid. by apply elem_of_nil in Hid. Qed.

Lemma mount_chunks_ids fuel remaining offset s h r evs :
  chunks_loop fuel remaining offset s h = (r, evs) → new_ids h evs r.1.2.*1.
Proof using laws acquire_quiet.
  revert remaining offset s h r evs.
  induction fuel as [|fuel IH]; intros remaining offset s h r evs; cbn [mount_chunks].
  { intros E. apply ret_inv in E as [-> ->]. apply new_ids_nil. }
  destruct (remaining =? 0); [intros E; apply ret_inv in E as [-> ->]; apply new_ids_nil|].
  destruct (Z.min remaining max_chunk =? 0);
    [intros E; apply ret_inv in E as [-> ->]; apply new_ids_nil|].
  intros E. apply bind_inv in E as (o & e1 & e2 & E1 & E & ->). apply acquire_quiet in E1.
  destruct o as [p|]; [|apply ret_inv in E as [-> ->]; apply new_ids_nil].
  apply bind_inv in E as ([[id|err] s'] & e3 & e4 & E2 & E & ->); cbn [fst snd] in E; cycle 1.
  { apply bind_inv in E as (? & ? & ? & _ & E & ->). apply ret_inv in E as [-> ->].
    apply new_ids_nil. }
  apply on_segments_generated in E2 as (e3' & E2 & Hg3).
  apply mount_generates in E2 as [Hfresh Hg]. rewrite Hg in Hg3.
  apply bind_inv in E as (rest & e5 & e6 & E3 & E & ->). apply ret_inv in E as [-> ->].
  apply IH in E3 as (ids & Hkeys & Hnd & Hids). exists (id :: ids). cbn [fst snd].
  change (generated_ids (h ++ e1)) with (generated (omap segment_event (h ++ e1))) in Hfresh.
  fold (generated_ids (h ++ e1)) in Hfresh. rewrite generated_ids_app, E1, app_nil_r in Hfresh.
  rewrite !generated_ids_app, E1, Hg3, app_nil_r in *. split_and!.
  - cbn. by rewrite Hkeys.
  - constructor; [|done]. intros Hin. apply Hids in Hin as [Hin _].
    apply Hin. rewrite !elem_of_app, list_elem_of_singleton. auto.
  - intros id' Hid'. rewrite !elem_of_app, list_elem_of_singleton.
    apply elem_of_cons in Hid' as [->|Hid']; [auto|].
    apply Hids in Hid' as [Hold Hnew]. rewrite !elem_of_app in Hold. auto.
Qed.

Lemma roll_back_owns s chunks :
  owns (chunks.*2 ≫= res)
    (mfold (roll_back_chunk ERR_ADDRESS_NOT_REGISTERED StringToUuid release) s chunks) (λ _, []).
Proof using release_owns.
  revert s. induction chunks as [|[key r] chunks IH]; intros s; cbn [mfold]; [by apply owns_ret|].
  cbn. apply owns_consume.
  - unfold roll_back_chunk. cbn [fst snd].
    apply owns_seq with (mid := λ _, res r).
    + destruct (StringToUuid key); [|by apply owns_ret].
      eapply owns_seq; [apply on_segments_owns|]. intros x. by apply owns_ret.
    + intros s'. eapply owns_seq; [apply release_owns|]. intros u. by apply owns_ret.
  - intros s'. apply IH.
Qed.
End Chunks.

(** *** Records *)

Section Records.
Context {Rec : Type} (res : Rec → list seg_res).

Lemma records_res_insert k r (m : gmap string Rec) :
  m !! k = None → records_res res (<[k := r]> m) ≡ₚ res r ++ records_res res m.
Proof. intros Hk. unfold records_res. by rewrite map_to_list_insert. Qed.

Lemma records_res_delete k r (m : gmap string Rec) :
  m !! k = Some r → records_res res m ≡ₚ res r ++ records_res res (delete k m).
Proof. intros Hk. unfold records_res. by rewrite <- (map_to_list_delete m k r). Qed.

Lemma insert_records_lookup chunks (m : gmap string Rec) k r :
  insert_records chunks m !! k = Some r → k ∈ chunks.*1 ∨ m !! k = Some r.
Proof.
  revert m. induction chunks as [|[k' r'] chunks IH]; intros m; cbn; [auto|].
  intros [Hk|Hk]%IH; [left; by right|]. apply lookup_insert_Some in Hk as [[<- _]|[_ Hk]]; auto.
  left. by left.
Qed.

Lemma insert_records_res chunks (m : gmap string Rec) :
  NoDup chunks.*1 → (∀ k, k ∈ chunks.*1 → m !! k = None) →
  records_res res (insert_records chunks m) ≡ₚ (chunks.*2 ≫= res) ++ records_res res m.
Proof.
  revert m. induction chunks as [|[k r] chunks IH]; intros m; [done|].
  cbn [fmap list_fmap fst snd]. intros [Hk Hnd]%NoDup_cons Hm.
  change (insert_records ((k, r) :: chunks) m) with (insert_records chunks (<[k := r]> m)).
  rewrite IH; [|done|].
  - rewrite records_res_insert by (apply Hm; by left). cbn. solve_Permutation.
  - intros k' Hk'. rewrite lookup_insert_ne by (intros ->; done). apply Hm. by right.
Qed.

(** Every record is for an id that was generated. *)
Definition known (h : list map_event) (m : gmap string Rec) : Prop :=
  ∀ k r, m !! k = Some r → ∃ id, k = UuidToString id ∧ id ∈ generated_ids h.

Lemma known_later h evs (m m' : gmap string Rec) :
  known h m → m' ⊆ m → known (h ++ evs) m'.
Proof.
  intros Hm Hsub k r Hk. eapply lookup_weaken in Hk; [|done]. apply Hm in Hk as (id & -> & Hid).
  exists id. split; [done|]. rewrite generated_ids_app. apply elem_of_app. by left.
Qed.

Lemma known_insert h evs keys (chunks : list (string * Rec)) m :
  new_ids h evs keys → keys = chunks.*1 → known h m → known (h ++ evs) (insert_records chunks m).
Proof.
  intros (ids & -> & _ & Hids) Hchunks Hm k r [Hk|Hk]%insert_records_lookup.
  - rewrite <- Hchunks in Hk. apply list_elem_of_fmap in Hk as (id & -> & Hid). exists id.
    split; [done|]. rewrite generated_ids_app. apply elem_of_app. right. by apply Hids.
  - by apply (known_later h evs m m Hm) in Hk.
Qed.

Lemma new_ids_disjoint h evs (chunks : list (string * Rec)) m :
  new_ids h evs chunks.*1 → known h m →
  NoDup chunks.*1 ∧ (∀ k, k ∈ chunks.*1 → m !! k = None).
Proof using laws.
  intros (ids & -> & Hnd & Hids) Hm. pose proof uuid_string_inj. split.
  - by apply (NoDup_fmap_2 _).
  - intros k (id & -> & Hid)%list_elem_of_fmap. apply eq_None_not_Some. intros [r Hr].
    apply Hm in Hr as (id' & Heq & Hid'). apply (inj UuidToString) in Heq as <-.
    by apply Hids in Hid as [? _].
Qed.
End Records.

(** *** The calls *)

Lemma open_owns path :
  owns [] (call (λ h, g_open h path) (GOpen path)) (λ fd, if fd <? 0 then [] else [RFd fd]).
Proof. owned_call. Qed.

Lemma close_owns fd : owns [RFd fd] (close fd) (λ _, []).
Proof. eapply owns_seq with (mid := λ rc, if rc =? 0 then [] else []); [|intros rc].
  - owned_call.
  - apply owns_ret. by destruct (rc =? 0).
Qed.

Lemma munmap_owns p n : owns [RMapping p n] (munmap p n) (λ _, []).
Proof. eapply owns_seq with (mid := λ rc, if rc =? 0 then [] else []); [|intros rc].
  - owned_call.
  - apply owns_ret. by destruct (rc =? 0).
Qed.

Lemma free_memory_owns protocol p : owns [RMemory protocol p] (free_memory protocol p) (λ _, []).
Proof. owned_call. Qed.

Lemma release_mounted_owns r : owns (mounted_res r) (release_mounted r) (λ _, []).
Proof.
  unfold mounted_res, release_mounted. destruct (mmap_base r =? 0); [by apply owns_ret|].
  apply munmap_owns.
Qed.

Lemma release_allocated_owns r : owns (allocated_res r) (release_allocated r) (λ _, []).
Proof.
  unfold allocated_res, release_allocated. destruct (ar_base r =? 0); [by apply owns_ret|].
  apply free_memory_owns.
Qed.

Lemma mmap_owns off n fd path :
  owns [] (call (λ h, g_mmap h n fd off) (GMmap n fd off))
    (λ o, match o with Some p => mounted_res (MkMounted p n path) | None => [] end).
Proof using laws.
  intros h v evs [-> ->]%call_inv. pose proof (mmap_nonnull h n fd off) as Hnz.
  destruct (g_mmap h n fd off) as [p|]; intros r; unfold times; cbn; [|lia].
  specialize (Hnz p eq_refl). unfold mounted_res. cbn.
  destruct (p =? 0) eqn:Hp; [lia|]. rewrite holds_nil. unfold holds. cbn. lia.
Qed.

Lemma acquire_memory_owns protocol n :
  owns [] (acquire_memory protocol n)
    (λ o, match o with Some p => allocated_res (MkAllocated p n protocol) | None => [] end).
Proof.
  eapply owns_seq with (mid := λ p, if p =? 0 then [] else [RMemory protocol p]); [owned_call|].
  intros p. apply owns_ret. unfold allocated_res. cbn.
  destruct (p =? 0) eqn:Hp; [done|]. cbn. by rewrite Hp.
Qed.

(** *** Mounting *)

Lemma quiet_call {A} (f : list map_event → A) (ev : A → map_event) h v evs :
  (∀ a, generated_ids [ev a] = []) → call f ev h = (v, evs) → generated_ids evs = [].
Proof. intros Hev [-> ->]%call_inv. apply Hev. Qed.

Lemma acquire_memory_quiet protocol n h v evs :
  acquire_memory protocol n h = (v, evs) → generated_ids evs = [].
Proof.
  intros (p & e1 & e2 & E1 & [_ ->]%ret_inv & ->)%bind_inv. rewrite app_nil_r.
  by eapply quiet_call in E1.
Qed.

Lemma acquire_memory_some protocol n :
  returns (acquire_memory protocol n) (λ o, ∀ p, o = Some p → p ≠ 0).
Proof.
  apply returns_bind. intros p. apply returns_ret. intros q. destruct (p =? 0) eqn:Hp; [done|].
  intros [= <-]. lia.
Qed.

Lemma mmap_some n fd off :
  returns (call (λ h, g_mmap h n fd off) (GMmap n fd off)) (λ o, ∀ p, o = Some p → p ≠ 0).
Proof using laws. intros h v evs [-> _]%call_inv p. apply mmap_nonnull. Qed.

Abbreviation mount_file :=
  (mountSegment max_mr_size page_size ERR_ADDRESS_NOT_REGISTERED UuidToString StringToUuid).
Abbreviation mount_memory :=
  (allocateAndMountSegment max_mr_size page_size slab_size ERR_ADDRESS_NOT_REGISTERED
     UuidToString StringToUuid).

Lemma owned_with_mounted s seg chunks h evs :
  new_ids h evs chunks.*1 → known h (mounted_segment_records_ s) →
  owned_memory s ++ (chunks.*2 ≫= mounted_res) ≡ₚ
  owned_memory (with_mounted_records (with_segments s seg)
                  (insert_records chunks (mounted_segment_records_ s))).
Proof using laws.
  intros Hnew Hk. destruct (new_ids_disjoint _ _ _ _ Hnew Hk) as [Hnd Hdis].
  unfold owned_memory at 2. cbn. rewrite insert_records_res by done.
  unfold owned_memory. solve_Permutation.
Qed.

Lemma owned_with_allocated s seg chunks h evs :
  new_ids h evs chunks.*1 → known h (allocated_segment_records_ s) →
  owned_memory s ++ (chunks.*2 ≫= allocated_res) ≡ₚ
  owned_memory (with_allocated_records (with_segments s seg)
                  (insert_records chunks (allocated_segment_records_ s))).
Proof using laws.
  intros Hnew Hk. destruct (new_ids_disjoint _ _ _ _ Hnew Hk) as [Hnd Hdis].
  unfold owned_memory at 2. cbn. rewrite insert_records_res by done.
  unfold owned_memory. solve_Permutation.
Qed.

Lemma mount_file_owns h path offset size protocol location s :
  known h (mounted_segment_records_ s) →
  owns_at h (owned_memory s) (mount_file path offset size protocol location s)
    (λ r, owned_memory r.2).
Proof using laws.
  intros Hk. unfold mountSegment. destruct (rs_client s) as [c|]; [|by apply owns_at_ret].
  destruct (max_mr_size =? 0); [by apply owns_at_ret|].
  destruct (max_mr_size <? page_size); [by apply owns_at_ret|].
  eapply owns_at_bind; [apply owns_framed, open_owns|]. intros fd e1 _. cbn beta.
  destruct (fd <? 0); [apply owns_at_ret; by rewrite app_nil_r|].
  assert (Hclose : owns (owned_memory s ++ [RFd fd]) (close fd) (λ _, owned_memory s))
    by apply owns_released, close_owns.
  eapply owns_at_bind with (mid := λ _, owned_memory s ++ [RFd fd]);
    [eapply owns_conseq; [apply (owns_framed (owned_memory s ++ [RFd fd])
                                  (call (λ h, g_fstat h fd) (GFstat fd)) (λ _, [])); neutral
                         |done|intros v; cbn beta; by rewrite app_nil_r]|].
  intros [st_size|] e2 _; cycle 1.
  { eapply owns_at_bind; [exact Hclose|]. intros u ev _. by apply owns_at_ret. }
  destruct (_ || _).
  { eapply owns_at_bind; [exact Hclose|]. intros u ev _. by apply owns_at_ret. }
  destruct (negb _).
  { eapply owns_at_bind; [exact Hclose|]. intros u ev _. by apply owns_at_ret. }
  eapply owns_at_bind.
  { apply owns_framed, (mount_chunks_owns _ _ _ _ _ _ _ mounted_res).
    - intros off n. apply mmap_owns.
    - intros off n. apply mmap_some.
    - intros p n Hp. unfold mounted_res. cbn. destruct (p =? 0) eqn:E; [lia|]. apply munmap_owns. }
  intros [[remaining chunks] seg] e3 Hrun. cbn [fst snd].
  eapply owns_at_bind with (mid := λ _, owned_memory s ++ (chunks.*2 ≫= mounted_res)).
  { eapply owns_pre; [apply owns_released, close_owns|]. solve_Permutation. }
  intros u e4 _. destruct (0 <? remaining).
  - eapply owns_at_bind; [apply owns_released, (roll_back_owns _ mounted_res release_mounted_owns)|].
    intros seg' e5 _. by apply owns_at_ret.
  - apply owns_at_ret. eapply owned_with_mounted.
    + eapply mount_chunks_ids in Hrun; [exact Hrun|]. intros off n h' v evs. by apply quiet_call.
    + rewrite <- app_assoc. by eapply known_later.
Qed.

Lemma mount_memory_owns h size protocol location s :
  known h (allocated_segment_records_ s) →
  owns_at h (owned_memory s) (mount_memory size protocol location s) (λ r, owned_memory r.2).
Proof using laws.
  intros Hk. unfold allocateAndMountSegment.
  destruct (rs_client s) as [c|]; [|by apply owns_at_ret].
  destruct (allocation_plan _ _ _ _) as [[max_chunk total]|]; [|by apply owns_at_ret].
  eapply owns_at_bind.
  { apply owns_framed, (mount_chunks_owns _ _ _ _ _ _ _ allocated_res).
    - intros off n. apply acquire_memory_owns.
    - intros off n. apply acquire_memory_some.
    - intros p n Hp. unfold allocated_res. cbn. destruct (p =? 0) eqn:E; [lia|].
      apply free_memory_owns. }
  intros [[remaining chunks] seg] e3 Hrun. cbn [fst snd]. destruct (0 <? remaining).
  - eapply owns_at_bind;
      [apply owns_released, (roll_back_owns _ allocated_res release_allocated_owns)|].
    intros seg' e5 _. by apply owns_at_ret.
  - apply owns_at_ret. eapply owned_with_allocated; [|exact Hk].
    eapply mount_chunks_ids in Hrun; [exact Hrun|]. intros off n h' v evs. apply acquire_memory_quiet.
Qed.

(** *** Unmounting *)

Section Unmount.
Context {Rec : Type} (res : Rec → list seg_res).
Abbreviation entry_loop := (unmount_entry (Rec := Rec) ERR_ADDRESS_NOT_REGISTERED error_int).

(** Records leave the map only for the list of what is cleaned up. *)
Definition cleaned (st st' : unmount_state Rec) : Prop :=
  (st'.1.1.2 ⊆ st.1.1.2) ∧
  (records_res res st'.1.1.2 ++ (st'.1.2 ≫= res) ≡ₚ records_res res st.1.1.2 ++ (st.1.2 ≫= res)).

Lemma unmount_entry_cleaned grace st entry : returns (entry_loop grace st entry) (cleaned st).
Proof.
  destruct st as [[[seg records] cleanup] err]. apply returns_bind. intros [[u|e] seg'];
    cbn [fst snd]; [|by apply returns_ret].
  destruct (grace =? 0); [|by apply returns_ret].
  destruct (records !! entry.1) as [r|] eqn:Hr; [|by apply returns_ret].
  apply returns_ret. split; cbn.
  - apply delete_subseteq.
  - rewrite (records_res_delete res _ _ _ Hr), bind_app. cbn. solve_Permutation.
Qed.

Lemma unmount_entries_cleaned grace st l : returns (mfold (entry_loop grace) st l) (cleaned st).
Proof.
  revert st. induction l as [|x l IH]; intros st; cbn [mfold]; [by apply returns_ret|].
  eapply returns_seq; [apply unmount_entry_cleaned|]. intros st1 [Hsub1 Hp1] h st2 evs Hrun.
  apply IH in Hrun as [Hsub2 Hp2]. split; [by etrans|]. by rewrite Hp2.
Qed.

Lemma unmount_entries_owns grace st entries l : owns l (mfold (entry_loop grace) st entries) (λ _, l).
Proof.
  revert st. induction entries as [|x entries IH]; intros st; cbn [mfold]; [by apply owns_ret|].
  eapply owns_seq; [|intros st'; apply IH]. destruct st as [[[seg records] cleanup] err].
  eapply owns_seq; [apply on_segments_owns|]. intros [[u|e] seg']; cbn [fst snd];
    [|by apply owns_ret].
  destruct (grace =? 0); [|by apply owns_ret]. by destruct (records !! x.1); apply owns_ret.
Qed.
End Unmount.

Abbreviation unmount_file :=
  (unmountSegment ERR_ADDRESS_NOT_REGISTERED StringToUuid error_int).
Abbreviation unmount_memory :=
  (unmountAndFreeSegment ERR_ADDRESS_NOT_REGISTERED StringToUuid error_int).

Lemma unmount_file_owns ids grace s :
  owns (owned_memory s) (unmount_file ids grace s) (λ r, owned_memory r.2).
Proof.
  unfold unmountSegment. destruct (rs_client s); [|by apply owns_ret].
  destruct (select_unmount _ _ ids) as [to_unmount err].
  eapply owns_bind; [apply unmount_entries_owns|apply (unmount_entries_cleaned mounted_res)|].
  intros [[[seg records] cleanup] err'] [_ Hp]. cbn in Hp. rewrite app_nil_r in Hp.
  eapply owns_seq with (mid := λ _, records_res mounted_res records ++
                                     records_res allocated_res (allocated_segment_records_ s)).
  - eapply owns_pre; [apply owns_released, (owns_mmap mounted_res), release_mounted_owns|].
    unfold owned_memory. rewrite <- Hp. solve_Permutation.
  - intros u. by apply owns_ret.
Qed.

Lemma unmount_memory_owns ids grace s :
  owns (owned_memory s) (unmount_memory ids grace s) (λ r, owned_memory r.2).
Proof.
  unfold unmountAndFreeSegment. destruct (rs_client s); [|by apply owns_ret].
  destruct (select_unmount _ _ ids) as [to_unmount err].
  eapply owns_bind; [apply unmount_entries_owns|apply (unmount_entries_cleaned allocated_res)|].
  intros [[[seg records] cleanup] err'] [_ Hp]. cbn in Hp. rewrite app_nil_r in Hp.
  eapply owns_seq with (mid := λ _, records_res mounted_res (mounted_segment_records_ s) ++
                                     records_res allocated_res records).
  - eapply owns_pre; [apply owns_released, (owns_mmap allocated_res), release_allocated_owns|].
    unfold owned_memory. rewrite <- Hp. solve_Permutation.
  - intros u. by apply owns_ret.
Qed.

Lemma release_mounted_record_owns id s :
  owns (owned_memory s) (ReleaseMountedSegmentRecord id s) owned_memory.
Proof.
  unfold ReleaseMountedSegmentRecord.
  destruct (mounted_segment_records_ s !! id) as [r|] eqn:Hr; [|by apply owns_ret].
  eapply owns_pre; [apply owns_consume; [apply release_mounted_owns|intros u]|].
  - by apply owns_ret.
  - unfold owned_memory. cbn. rewrite (records_res_delete _ _ _ _ Hr). solve_Permutation.
Qed.

Lemma release_allocated_record_owns id s :
  owns (owned_memory s) (ReleaseAllocatedSegmentRecord id s) owned_memory.
Proof.
  unfold ReleaseAllocatedSegmentRecord.
  destruct (allocated_segment_records_ s !! id) as [r|] eqn:Hr; [|by apply owns_ret].
  eapply owns_pre; [apply owns_consume; [apply release_allocated_owns|intros u]|].
  - by apply owns_ret.
  - unfold owned_memory. cbn. rewrite (records_res_delete _ _ _ _ Hr). solve_Permutation.
Qed.

(** Tear-down releases what is left. *)
Definition release_all (s : RealSegments) : gio RealSegments :=
  let! s := ReleaseAllMountedSegmentRecords s in ReleaseAllAllocatedSegmentRecords s.

Lemma release_all_owns s : owns (owned_memory s) (release_all s) (λ _, []).
Proof.
  apply owns_seq with
    (mid := λ s', records_res allocated_res (allocated_segment_records_ s')).
  - apply owns_consume; [apply (owns_mmap mounted_res), release_mounted_owns|].
    intros u. by apply owns_ret.
  - intros s'. eapply owns_seq; [apply (owns_mmap allocated_res), release_allocated_owns|].
    intros u. by apply owns_ret.
Qed.

(** *** The life of the client *)

(** Operations in any order; the cleanups are what the store client calls when
    a graceful unmount ends. *)
Inductive seg_op :=
| OpMount (path : string) (offset size : Z) (protocol location : string)
| OpUnmount (ids : list string) (grace_period_seconds : Z)
| OpAllocate (size : Z) (protocol location : string)
| OpFree (ids : list string) (grace_period_seconds : Z)
| OpCleanupMounted (id : string)
| OpCleanupAllocated (id : string).

Definition run_op (s : RealSegments) (op : seg_op) : gio RealSegments :=
  match op with
  | OpMount path offset size protocol location =>
      let! r := mount_file path offset size protocol location s in ret r.2
  | OpUnmount ids grace => let! r := unmount_file ids grace s in ret r.2
  | OpAllocate size protocol location =>
      let! r := mount_memory size protocol location s in ret r.2
  | OpFree ids grace => let! r := unmount_memory ids grace s in ret r.2
  | OpCleanupMounted id => ReleaseMountedSegmentRecord id s
  | OpCleanupAllocated id => ReleaseAllocatedSegmentRecord id s
  end.

Definition keys_known (h : list map_event) (s : RealSegments) : Prop :=
  known h (mounted_segment_records_ s) ∧ known h (allocated_segment_records_ s).

Lemma keys_known_later h evs s s' :
  keys_known h s → mounted_segment_records_ s' ⊆ mounted_segment_records_ s →
  allocated_segment_records_ s' ⊆ allocated_segment_records_ s → keys_known (h ++ evs) s'.
Proof. intros [Hm Ha] Hsm Hsa. split; by eapply known_later. Qed.

Lemma mount_file_known h path offset size protocol location s r evs :
  keys_known h s → mount_file path offset size protocol location s h = (r, evs) →
  keys_known (h ++ evs) r.2.
Proof using laws.
  intros Hk Hrun. assert (Hsame : r.2 = s → keys_known (h ++ evs) r.2)
    by (intros ->; by eapply keys_known_later).
  unfold mountSegment in Hrun. destruct (rs_client s) as [c|];
    [|apply ret_inv in Hrun as [-> ->]; by apply Hsame].
  destruct (max_mr_size =? 0); [apply ret_inv in Hrun as [-> ->]; by apply Hsame|].
  destruct (max_mr_size <? page_size); [apply ret_inv in Hrun as [-> ->]; by apply Hsame|].
  apply bind_inv in Hrun as (fd & e1 & e2 & _ & Hrun & ->).
  destruct (fd <? 0); [apply ret_inv in Hrun as [-> ->]; by apply Hsame|].
  apply bind_inv in Hrun as (st & e3 & e4 & _ & Hrun & ->).
  destruct st as [st_size|]; cycle 1.
  { apply bind_inv in Hrun as (? & ? & ? & _ & [-> ->]%ret_inv & ->). by apply Hsame. }
  destruct (_ || _);
    [apply bind_inv in Hrun as (? & ? & ? & _ & [-> ->]%ret_inv & ->); by apply Hsame|].
  destruct (negb _);
    [apply bind_inv in Hrun as (? & ? & ? & _ & [-> ->]%ret_inv & ->); by apply Hsame|].
  apply bind_inv in Hrun as ([[remaining chunks] seg] & e5 & e6 & Hloop & Hrun & ->).
  apply bind_inv in Hrun as (? & e7 & e8 & _ & Hrun & ->). destruct (0 <? remaining).
  - apply bind_inv in Hrun as (? & ? & ? & _ & [-> ->]%ret_inv & ->). by eapply keys_known_later.
  - apply ret_inv in Hrun as [-> ->]. rewrite app_nil_r. eapply mount_chunks_ids in Hloop;
      [|intros off n h' v evs; by apply quiet_call].
    destruct Hk as [Hm Ha]. split; [cbn|by eapply known_later].
    replace (h ++ e1 ++ e3 ++ e5 ++ e7) with ((((h ++ e1) ++ e3) ++ e5) ++ e7)
      by (by rewrite <- !app_assoc).
    eapply known_later; [|done]. eapply known_insert; [exact Hloop|done|].
    rewrite <- app_assoc. by eapply known_later.
Qed.

Lemma mount_memory_known h size protocol location s r evs :
  keys_known h s → mount_memory size protocol location s h = (r, evs) → keys_known (h ++ evs) r.2.
Proof using laws.
  intros Hk Hrun. unfold allocateAndMountSegment in Hrun. destruct (rs_client s) as [c|];
    [|apply ret_inv in Hrun as [-> ->]; by eapply keys_known_later].
  destruct (allocation_plan _ _ _ _) as [[max_chunk total]|];
    [|apply ret_inv in Hrun as [-> ->]; by eapply keys_known_later].
  apply bind_inv in Hrun as ([[remaining chunks] seg] & e5 & e6 & Hloop & Hrun & ->).
  destruct (0 <? remaining).
  - apply bind_inv in Hrun as (? & ? & ? & _ & [-> ->]%ret_inv & ->). by eapply keys_known_later.
  - apply ret_inv in Hrun as [-> ->]. rewrite app_nil_r. eapply mount_chunks_ids in Hloop;
      [|intros off n h' v evs; apply acquire_memory_quiet].
    destruct Hk as [Hm Ha]. split; [by eapply known_later|]. by eapply known_insert.
Qed.

Lemma unmount_file_known h ids grace s r evs :
  keys_known h s → unmount_file ids grace s h = (r, evs) → keys_known (h ++ evs) r.2.
Proof.
  intros Hk Hrun. unfold unmountSegment in Hrun.
  destruct (rs_client s); [|apply ret_inv in Hrun as [-> ->]; by eapply keys_known_later].
  destruct (select_unmount _ _ ids) as [to_unmount err].
  apply bind_inv in Hrun as ([[[seg records] cleanup] err'] & e1 & e2 & Hloop & Hrun & ->).
  apply (unmount_entries_cleaned mounted_res) in Hloop as [Hsub _].
  apply bind_inv in Hrun as (? & e3 & e4 & _ & [-> ->]%ret_inv & ->). by eapply keys_known_later.
Qed.

Lemma unmount_memory_known h ids grace s r evs :
  keys_known h s → unmount_memory ids grace s h = (r, evs) → keys_known (h ++ evs) r.2.
Proof.
  intros Hk Hrun. unfold unmountAndFreeSegment in Hrun.
  destruct (rs_client s); [|apply ret_inv in Hrun as [-> ->]; by eapply keys_known_later].
  destruct (select_unmount _ _ ids) as [to_unmount err].
  apply bind_inv in Hrun as ([[[seg records] cleanup] err'] & e1 & e2 & Hloop & Hrun & ->).
  apply (unmount_entries_cleaned allocated_res) in Hloop as [Hsub _].
  apply bind_inv in Hrun as (? & e3 & e4 & _ & [-> ->]%ret_inv & ->). by eapply keys_known_later.
Qed.

Lemma run_op_accounts h s op s' evs :
  keys_known h s → run_op s op h = (s', evs) →
  accounts (owned_memory s) evs (owned_memory s') ∧ keys_known (h ++ evs) s'.
Proof using laws.
  intros Hk. pose proof Hk as [Hm Ha]. destruct op; cbn [run_op].
  1-4: intros (r & e1 & e2 & Hrun & [-> ->]%ret_inv & ->)%bind_inv; rewrite app_nil_r.
  - split; [by eapply mount_file_owns|by eapply mount_file_known].
  - split; [by eapply unmount_file_owns|by eapply unmount_file_known].
  - split; [by eapply mount_memory_owns|by eapply mount_memory_known].
  - split; [by eapply unmount_memory_owns|by eapply unmount_memory_known].
  - intros Hrun. split; [by eapply release_mounted_record_owns|].
    unfold ReleaseMountedSegmentRecord in Hrun. destruct (_ !! _).
    + apply bind_inv in Hrun as (? & ? & ? & _ & [-> ->]%ret_inv & ->).
      eapply keys_known_later; [done|apply delete_subseteq|done].
    + apply ret_inv in Hrun as [-> ->]. by eapply keys_known_later.
  - intros Hrun. split; [by eapply release_allocated_record_owns|].
    unfold ReleaseAllocatedSegmentRecord in Hrun. destruct (_ !! _).
    + apply bind_inv in Hrun as (? & ? & ? & _ & [-> ->]%ret_inv & ->).
      eapply keys_known_later; [done|done|apply delete_subseteq].
    + apply ret_inv in Hrun as [-> ->]. by eapply keys_known_later.
Qed.

Lemma run_ops_accounts ops h s s' evs :
  keys_known h s → mfold run_op s ops h = (s', evs) →
  accounts (owned_memory s) evs (owned_memory s').
Proof using laws.
  revert h s evs. induction ops as [|op ops IH]; intros h s evs Hk; cbn [mfold].
  { intros [-> ->]%ret_inv. apply accounts_nil. }
  intros (s1 & e1 & e2 & Hop & Hrest & ->)%bind_inv.
  apply run_op_accounts in Hop as [Hacc Hk1]; [|done].
  eapply accounts_app; [exact Hacc|]. by eapply IH.
Qed.

(** C14: At every moment of the client's life the files are closed, and the
    mappings and the memory acquired and not given back are exactly those the
    records describe; releasing all records at tear-down gives back the rest.
    Only a failing [munmap] or [close] can lose one. *)
Theorem segment_memory_balanced ops h s s' evs :
  mounted_segment_records_ s = ∅ → allocated_segment_records_ s = ∅ →
  mfold run_op s ops h = (s', evs) →
  accounts [] evs (owned_memory s') ∧
  ∀ s'' evs', release_all s' (h ++ evs) = (s'', evs') → accounts [] (evs ++ evs') [].
Proof using laws.
  intros Hm Ha Hrun. assert (Hnone : owned_memory s = []) by (unfold owned_memory; by rewrite Hm, Ha).
  assert (Hacc : accounts [] evs (owned_memory s')).
  { rewrite <- Hnone. eapply run_ops_accounts; [|done].
    split; [rewrite Hm|rewrite Ha]; intros k r Hk; by rewrite lookup_empty in Hk. }
  split; [done|]. intros s'' evs' Hrel. eapply accounts_app; [done|]. by eapply release_all_owns.
Qed.
End Spec.
