(* ===== verification/RealChunks.v ===== *)
(** * How segment requests are divided into chunks

    [mountSegment] maps consecutive page-aligned pieces of the file, and
    [allocateAndMountSegment] allocates whole slabs; the fuel of the loop is
    enough; and what a failed roll back leaves behind. *)

From S2P Require Import Prelude CxxString StoreTypes ReplicaPolicy Samples Accounting Segments SegmentsSpec RealSegments RealSegmentsSpec.
From stdpp Require Import base strings list sets gmap fin_maps pretty.
From Stdlib Require Import ZArith Lia.

#[local] Open Scope Z_scope.
#[local] Set Default Proof Using "Type".

(** ** Consecutive spans *)

(** The spans follow each other from [from] to [to_], each of at least a byte. *)
Fixpoint tiles (from to_ : Z) (spans : list (Z * Z)) : Prop :=
  match spans with
  | [] => from = to_
  | (off, n) :: spans => off = from ∧ 0 < n ∧ tiles (from + n) to_ spans
  end.

(** Pieces the system handed out: of files, and of memory. *)
Definition file_pieces (evs : list map_event) : list (Z * Z) :=
  omap (λ e, match e with GMmap n _ off (Some _) => Some (off, n) | _ => None end) evs.
Definition memory_pieces (evs : list map_event) : list Z :=
  omap (λ e, match e with
             | GAllocate n _ p => if p =? 0 then None else Some n
             | _ => None
             end) evs.

Section Chunks.
Context `{!SegmentServices, !MapServices}.
Context (max_mr_size page_size slab_size ERR_ADDRESS_NOT_REGISTERED : Z).
Context (UuidToString : UUID → string) (StringToUuid : string → option UUID).

(** ** The loop *)

Section Loop.
Context {Rec X : Type} (c : Client) (protocol location : string) (max_chunk unit_size : Z).
Context (acquire : Z → Z → gio (option Z)) (give_back : Z → Z → gio unit) (mk : Z → Z → Rec).
Abbreviation chunks_loop := (mount_chunks max_mr_size UuidToString c protocol location max_chunk
                               acquire give_back mk).

(** More fuel than [chunk_fuel] changes nothing. *)
Lemma mount_chunks_fuel fuel fuel' remaining offset s h :
  0 < max_chunk → 0 ≤ remaining ≤ Z.of_nat fuel * max_chunk → (fuel ≤ fuel')%nat →
  chunks_loop fuel' remaining offset s h = chunks_loop fuel remaining offset s h.
Proof.
  intros Hmax. revert fuel' remaining offset s h.
  induction fuel as [|fuel IH]; intros fuel' remaining offset s h Hr Hf.
  { assert (remaining = 0) as -> by lia. by destruct fuel'. }
  destruct fuel' as [|fuel']; [lia|]. cbn [mount_chunks].
  destruct (remaining =? 0); [done|]. destruct (Z.min remaining max_chunk =? 0); [done|].
  unfold bind. destruct (acquire _ _ h) as [[p|] e1]; [|done].
  destruct (on_segments _ _) as [[[id|e] s'] e2]; [|done]. cbn [fst snd].
  rewrite (IH fuel'); [done|nia|lia].
Qed.

Lemma mount_chunks_remaining fuel remaining offset s h r evs :
  0 < max_chunk → 0 ≤ remaining → chunks_loop fuel remaining offset s h = (r, evs) →
  0 ≤ r.1.1.
Proof.
  intros Hmax. revert remaining offset s h r evs.
  induction fuel as [|fuel IH]; intros remaining offset s h r evs Hr; cbn [mount_chunks].
  { by intros [-> _]%ret_inv. }
  destruct (remaining =? 0); [by intros [-> _]%ret_inv|].
  destruct (Z.min remaining max_chunk =? 0); [by intros [-> _]%ret_inv|].
  intros (o & e1 & e2 & _ & E & ->)%bind_inv. destruct o as [p|]; [|by apply ret_inv in E as [-> _]].
  apply bind_inv in E as ([[id|err] s'] & e3 & e4 & _ & E & ->); cbn [fst snd] in E.
  - apply bind_inv in E as (rest & e5 & e6 & Hrest & [-> ->]%ret_inv & ->). cbn.
    apply IH in Hrest; [done|lia].
  - by apply bind_inv in E as (? & ? & ? & _ & [-> _]%ret_inv & _).
Qed.

(** What is seen of each acquired chunk. *)
Context (seen : list map_event → list X) (span : Z * Z → X).
Context (seen_app : ∀ e1 e2, seen (e1 ++ e2) = seen e1 ++ seen e2).
Context (seen_segments : ∀ e, seen [GSegment e] = []).
Context (seen_acquire : ∀ off n h p evs, acquire off n h = (Some p, evs) → seen evs = [span (off, n)]).

Lemma seen_nil : seen [] = [].
Proof using seen_app.
  pose proof (seen_app [] []) as H'. apply (f_equal length) in H'. rewrite length_app in H'.
  cbn in H'. destruct (seen []); [done|cbn in H'; lia].
Qed.

Lemma seen_on_segments {A} (m : sio A) h v evs : on_segments m h = (v, evs) → seen evs = [].
Proof using seen_app seen_segments.
  intros E. apply lift_inv in E as (evs' & _ & ->). induction evs' as [|e evs' IH].
  - apply seen_nil.
  - change (GSegment <$> e :: evs') with ([GSegment e] ++ (GSegment <$> evs')).
    by rewrite seen_app, seen_segments, IH.
Qed.

Definition piece_ok (sp : Z * Z) : Prop :=
  sp.1 mod unit_size = 0 ∧ 0 < sp.2 ≤ max_chunk.

Lemma mount_chunks_tiles fuel remaining offset s h r evs :
  0 < unit_size → 0 < max_chunk → max_chunk mod unit_size = 0 → offset mod unit_size = 0 →
  0 ≤ offset → 0 ≤ remaining → offset + remaining < u64_modulus →
  chunks_loop fuel remaining offset s h = (r, evs) → r.1.1 = 0 →
  ∃ spans, tiles offset (offset + remaining) spans ∧ Forall piece_ok spans ∧
           seen evs = span <$> spans ∧ length r.1.2 = length spans.
Proof using seen_app seen_segments seen_acquire.
  intros Hu Hmax Hmaxu. revert remaining offset s h r evs.
  induction fuel as [|fuel IH]; intros remaining offset s h r evs Hoff Ho Hr Hw; cbn [mount_chunks].
  { intros [-> ->]%ret_inv Hz. cbn in Hz. exists []. rewrite seen_nil. repeat split; [cbn; lia|constructor]. }
  destruct (remaining =? 0) eqn:E0.
  { intros [-> ->]%ret_inv ?. exists []. rewrite seen_nil. repeat split; [cbn; lia|constructor]. }
  destruct (Z.min remaining max_chunk =? 0) eqn:E1; [lia|].
  intros (o & e1 & e2 & Ha & E & ->)%bind_inv. destruct o as [p|];
    [|apply ret_inv in E as [-> ->]; cbn; lia].
  apply seen_acquire in Ha. apply bind_inv in E as (m & e3 & e4 & Hm & E & ->).
  apply seen_on_segments in Hm. destruct m as [[id|err] s']; cbn [fst snd] in E; cycle 1.
  { apply bind_inv in E as (? & ? & ? & _ & [-> ->]%ret_inv & ->). cbn. lia. }
  apply bind_inv in E as (rest & e5 & e6 & Hrest & [-> ->]%ret_inv & ->). cbn [fst snd]. intros Hz.
  assert (Hnext : u64_add offset (Z.min remaining max_chunk) = offset + Z.min remaining max_chunk)
    by (unfold u64_add, u64; apply Z.mod_small; unfold u64_modulus in *; lia).
  rewrite Hnext in Hrest.
  destruct (decide (remaining ≤ max_chunk)) as [Hlast|Hmore].
  - assert (rest = (0, [], s') ∧ e5 = []) as [-> ->].
    { rewrite Z.min_l, Z.sub_diag in Hrest by done. destruct fuel; by apply ret_inv in Hrest. }
    exists [(offset, remaining)]. rewrite Z.min_l in Ha by done.
    rewrite !seen_app, Ha, Hm, seen_nil. cbn. repeat split; [lia|by repeat constructor; cbn; lia].
  - rewrite Z.min_r in Hrest, Ha by lia.
    apply IH in Hrest as (spans & Ht & Hok & Hseen & Hlen); [| |lia|lia|lia|done].
    2:{ rewrite Z.add_mod, Hmaxu, Hoff by lia. by rewrite Z.mod_0_l by lia. }
    exists ((offset, max_chunk) :: spans). rewrite !seen_app, Ha, Hm, seen_nil, app_nil_r, Hseen.
    repeat split; [lia| |constructor; [split; cbn; [done|lia]|done]|cbn; by rewrite Hlen].
    by replace (offset + max_chunk + (remaining - max_chunk)) with (offset + remaining) in Ht by lia.
Qed.
End Loop.

Lemma file_pieces_app e1 e2 : file_pieces (e1 ++ e2) = file_pieces e1 ++ file_pieces e2.
Proof. apply omap_app. Qed.
Lemma memory_pieces_app e1 e2 : memory_pieces (e1 ++ e2) = memory_pieces e1 ++ memory_pieces e2.
Proof. apply omap_app. Qed.

Lemma close_pieces fd h u evs : close fd h = (u, evs) → file_pieces evs = [].
Proof. by intros (rc & e1 & e2 & [_ ->]%call_inv & [_ ->]%ret_inv & ->)%bind_inv. Qed.

Lemma aligned_down_mult n u : 0 < u → (n / u * u) mod u = 0.
Proof. intros Hu. by apply Z.mod_mul, Z.neq_sym, Z.lt_neq. Qed.

Lemma aligned_down_bounds n u : 0 < u → u ≤ n → 0 < n / u * u ≤ n.
Proof.
  intros Hu Hn. pose proof (Z.mul_div_le n u Hu).
  assert (0 < n / u) by (apply Z.div_str_pos; lia). nia.
Qed.

(** A successful [mountSegment] maps the requested range of the file and
    nothing else, in consecutive pieces that start on page boundaries and do not
    exceed [max_mr_size], and returns one segment id for each. *)
Theorem mount_tiles_file path offset size protocol location s h out s' evs :
  0 < page_size → 0 ≤ offset → 0 ≤ size →
  (∀ h fd n, g_fstat h fd = Some n → 0 ≤ n < u64_modulus) →
  mountSegment max_mr_size page_size ERR_ADDRESS_NOT_REGISTERED UuidToString StringToUuid
    path offset size protocol location s h = ((0, out, s'), evs) →
  ∃ ids, out = Some ids ∧ length ids = length (file_pieces evs) ∧
    tiles offset (offset + size) (file_pieces evs) ∧
    Forall (λ sp, sp.1 mod page_size = 0 ∧ 0 < sp.2 ≤ max_mr_size) (file_pieces evs).
Proof.
  intros Hps Hoff Hsize Hstat. unfold mountSegment.
  destruct (rs_client s) as [c|]; [|intros E; by apply ret_inv in E as [? _]].
  destruct (max_mr_size =? 0); [intros E; by apply ret_inv in E as [? _]|].
  destruct (max_mr_size <? page_size) eqn:Hmr; [intros E; by apply ret_inv in E as [? _]|].
  intros (fd & e1 & e2 & [-> ->]%call_inv & E & ->)%bind_inv.
  destruct (_ <? 0); [by apply ret_inv in E as [? _]|].
  apply bind_inv in E as (st & e3 & e4 & [Hst ->]%call_inv & E & ->).
  destruct st as [n|]; cycle 1.
  { by apply bind_inv in E as (? & ? & ? & _ & [? _]%ret_inv & _). }
  symmetry in Hst. apply Hstat in Hst.
  destruct (_ || _) eqn:Hrange; [by apply bind_inv in E as (? & ? & ? & _ & [? _]%ret_inv & _)|].
  destruct (negb _) eqn:Hal; [by apply bind_inv in E as (? & ? & ? & _ & [? _]%ret_inv & _)|].
  apply orb_false_iff in Hrange as [Hr1 Hr2]. unfold u64_sub, u64 in Hr2.
  rewrite Z.mod_small in Hr2 by (unfold u64_modulus in *; lia).
  apply bind_inv in E as ([[remaining chunks] seg] & e5 & e6 & Hloop & E & ->).
  apply bind_inv in E as (u & e7 & e8 & Hclose & E & ->). apply close_pieces in Hclose.
  destruct (0 <? remaining) eqn:Hrem;
    [by apply bind_inv in E as (? & ? & ? & _ & [? _]%ret_inv & _)|].
  apply ret_inv in E as [[= -> _] ->]. exists chunks.*1. split; [done|].
  destruct (aligned_down_bounds max_mr_size page_size Hps) as [Hc1 Hc2]; [lia|].
  pose proof Hloop as Hrem0. apply mount_chunks_remaining in Hrem0; [|done|done].
  cbn in Hrem0. assert (remaining = 0) as -> by lia.
  eapply (mount_chunks_tiles c protocol location _ page_size _ _ _ file_pieces id) in Hloop
    as (spans & Ht & Hok & Hseen & Hlen); try done; try lia.
  - rewrite !file_pieces_app, Hclose, Hseen. cbn. rewrite list_fmap_id, !app_nil_r.
    cbn in Hlen. rewrite length_fmap, Hlen. split_and!; [done|done|].
    eapply Forall_impl; [exact Hok|]. intros sp [? ?]. split; [done|lia].
  - apply file_pieces_app.
  - intros off m h' p evs [_ ->]%call_inv. done.
  - by apply aligned_down_mult.
Qed.

(** ** Slabs *)

Definition total (l : list Z) : Z := foldr Z.add 0 l.

Lemma tiles_total from to_ spans : tiles from to_ spans → from + total spans.*2 = to_.
Proof.
  unfold total. revert from. induction spans as [|[off n] spans IH]; intros from; cbn; [lia|].
  intros (_ & _ & Ht). apply IH in Ht. lia.
Qed.

Lemma tiles_multiples u from to_ spans :
  0 < u → to_ mod u = 0 → tiles from to_ spans → Forall (λ sp, sp.1 mod u = 0) spans →
  Forall (λ n, n mod u = 0) spans.*2.
Proof.
  intros Hu Hto. revert from. induction spans as [|[off n] spans IH]; intros from Ht Hok;
    [constructor|]. destruct Ht as (-> & Hn & Ht). apply Forall_cons in Hok as [Hfrom Hok].
  cbn in *. constructor; [|by eapply IH].
  assert (Hnext : (from + n) mod u = 0).
  { destruct spans as [|[off n'] spans]; [by cbn in Ht; subst|]. destruct Ht as [-> _].
    by apply Forall_cons in Hok as [? _]. }
  rewrite <- (Z.add_simpl_l from n), Zminus_mod, Hnext, Hfrom. apply Z.mod_0_l. lia.
Qed.

(** The plan rounds the request up, and the chunk size down, to whole slabs. *)
Lemma allocation_plan_bounds size max_chunk aligned :
  0 < page_size → 0 < slab_size < u64_modulus → 0 ≤ size < u64_modulus →
  allocation_plan max_mr_size page_size slab_size size = Some (max_chunk, aligned) →
  (size ≤ aligned < size + slab_size ∧ aligned mod slab_size = 0 ∧ aligned < u64_modulus) ∧
  (0 < max_chunk ≤ max_mr_size ∧ max_chunk mod slab_size = 0).
Proof.
  intros Hps Hslab Hsize. unfold allocation_plan. destruct (max_mr_size =? 0); [done|].
  destruct (size =? 0); [done|]. destruct (max_mr_size <? page_size) eqn:Hmr; [done|].
  destruct (_ <? slab_size) eqn:Hc; [done|]. destruct (u64_sub _ _ <? size) eqn:Hover; [done|].
  intros [= <- <-]. unfold u64_sub, u64, u64_max in Hover.
  rewrite Z.mod_small in Hover by lia. unfold u64_add, u64. rewrite Z.mod_small by lia.
  destruct (aligned_down_bounds max_mr_size page_size) as [? ?]; [lia..|].
  destruct (aligned_down_bounds (max_mr_size / page_size * page_size) slab_size) as [? ?]; [lia..|].
  pose proof (Z.div_mod (size + (slab_size - 1)) slab_size ltac:(lia)) as Hdiv.
  pose proof (Z.mod_pos_bound (size + (slab_size - 1)) slab_size ltac:(lia)).
  split_and!; [lia|lia|apply aligned_down_mult; lia|lia|lia|lia|apply aligned_down_mult; lia].
Qed.

(** A successful [allocateAndMountSegment] reports the request rounded up to
    whole slabs, without overflow, and has allocated exactly that much memory, in
    chunks of whole slabs of at most [max_mr_size], one segment id for each. *)
Theorem allocate_whole_slabs size protocol location s h out reported s' evs :
  0 < page_size → 0 < slab_size < u64_modulus → 0 ≤ size < u64_modulus →
  allocateAndMountSegment max_mr_size page_size slab_size ERR_ADDRESS_NOT_REGISTERED UuidToString
    StringToUuid size protocol location s h = ((0, out, reported, s'), evs) →
  ∃ ids aligned, out = Some ids ∧ reported = Some aligned ∧
    (size ≤ aligned < size + slab_size ∧ aligned mod slab_size = 0 ∧ aligned < u64_modulus) ∧
    length ids = length (memory_pieces evs) ∧ total (memory_pieces evs) = aligned ∧
    Forall (λ n, n mod slab_size = 0 ∧ 0 < n ≤ max_mr_size) (memory_pieces evs).
Proof.
  intros Hps Hslab Hsize. unfold allocateAndMountSegment.
  destruct (rs_client s) as [c|]; [|intros E; by apply ret_inv in E as [? _]].
  destruct (allocation_plan _ _ _ _) as [[max_chunk aligned]|] eqn:Hplan;
    [|intros E; by apply ret_inv in E as [? _]].
  apply allocation_plan_bounds in Hplan as [Htotal [Hmax Hmult]]; [|done..].
  intros ([[remaining chunks] seg] & e5 & e6 & Hloop & E & ->)%bind_inv.
  destruct (0 <? remaining) eqn:Hrem;
    [by apply bind_inv in E as (? & ? & ? & _ & [? _]%ret_inv & _)|].
  apply ret_inv in E as [[= -> -> _] ->]. exists chunks.*1, aligned.
  do 3 (split; [done|]).
  pose proof Hloop as Hrem0. apply mount_chunks_remaining in Hrem0; [|lia..].
  cbn in Hrem0. assert (remaining = 0) as -> by lia.
  eapply (mount_chunks_tiles c protocol location _ slab_size _ _ _ memory_pieces snd) in Hloop
    as (spans & Ht & Hok & Hseen & Hlen); try done; try lia.
  - rewrite app_nil_r, Hseen, !length_fmap. cbn in Hlen.
    pose proof (tiles_total _ _ _ Ht). split_and!; [done|lia|]. apply Forall_and. split.
    + eapply tiles_multiples; [lia| |exact Ht|]; [tauto|].
      eapply Forall_impl; [exact Hok|]. by intros sp [? _].
    + apply Forall_fmap. eapply Forall_impl; [exact Hok|]. intros sp [_ ?]. cbn. lia.
  - apply memory_pieces_app.
  - intros off n h' p evs (q & e1 & e2 & [-> ->]%call_inv & [Hq ->]%ret_inv & ->)%bind_inv.
    cbn. by destruct (_ =? 0).
Qed.
End Chunks.

(** ** Witnesses *)

(** A master that accepts [accepted] mounts, and unmounts when [unmounts] holds. *)
Definition counting_segments (accepted : nat) (unmounts : bool) : SegmentServices := {|
  te_register := λ _ _ _ _, 0;
  te_unregister := λ _ _, 0;
  generate_uuid := λ h, (0, 1 + foldr Z.max 0 (generated h).*2);
  m_mount := λ h _, if bool_decide (length (generated h) ≤ accepted)%nat then Ok tt
                    else Err NO_AVAILABLE_HANDLE;
  m_unmount := λ _ _, if unmounts then Ok tt else Err RPC_FAIL;
  m_graceful_unmount := λ _ _ _, Ok tt;
  m_query_status := λ _ _, Err SEGMENT_NOT_FOUND;
  spdk_init_env := λ _, true;
  spdk_dmabuf_enabled := λ _, true;
  spdk_register := λ _ _ _, 0 |}.

(** A file of 40960 bytes, mapped (and memory allocated) at increasing addresses. *)
Definition sample_maps : MapServices := {|
  g_open := λ _ _, 5;
  g_fstat := λ _ _, Some 40960;
  g_close := λ _ _, 0;
  g_mmap := λ h _ _ _, Some (1048576 * Z.of_nat (S (length h)));
  g_munmap := λ _ _ _, 0;
  g_allocate := λ h _ _, 1048576 * Z.of_nat (S (length h)) |}.

Definition uuid_string (id : UUID) : string := pretty (encode id).
Definition string_uuid (s : string) : option UUID :=
  snd <$> list_find (λ id, uuid_string id = s) [(0, 1); (0, 2); (0, 3); (0, 4); (0, 5)].

Lemma counting_laws accepted unmounts :
  @SegmentLaws (counting_segments accepted unmounts) sample_maps uuid_string.
Proof.
  split.
  - intros h Hin. cbn in Hin. assert (Hmax : ∀ l : list UUID, ∀ id, id ∈ l → id.2 ≤ foldr Z.max 0 l.*2).
    { intros l id. induction l as [|x l IH]; [by intros ?%elem_of_nil|].
      intros [->|Hid]%elem_of_cons; cbn; [lia|]. apply IH in Hid. lia. }
    apply Hmax in Hin. cbn in Hin. lia.
  - intros a b Hab. unfold uuid_string in Hab. apply (inj pretty) in Hab. by apply (inj encode) in Hab.
  - intros h n fd off p [= <-]. lia.
Qed.

Definition fresh_client : RealSegments :=
  MkRealSegments (Some sample_client) initial_segments ∅ ∅.

Lemma mount_tiles_file_witness :
  let run := @mountSegment (counting_segments 9 true) sample_maps 10000 4096 (-1) uuid_string
               string_uuid "/data" 4096 20000 "tcp" "cpu:0" fresh_client [] in
  run.1.1.1 = 0 ∧ file_pieces run.2 = [(4096, 8192); (12288, 8192); (20480, 3616)] ∧
  tiles 4096 24096 (file_pieces run.2).
Proof.
  set (run := @mountSegment _ _ _ _ _ _ _ _ _ _ _ _ _ _).
  assert (Hrun : run = ((0, run.1.1.2, run.1.2), run.2)) by (by vm_compute).
  split; [by vm_compute|]. split; [by vm_compute|].
  destruct (@mount_tiles_file (counting_segments 9 true) sample_maps 10000 4096 (-1) uuid_string
              string_uuid "/data" 4096 20000 "tcp" "cpu:0" fresh_client [] run.1.1.2 run.1.2 run.2)
    as (ids & _ & _ & Ht & _); [lia|lia|lia| |exact Hrun|exact Ht].
  intros h fd n [= <-]. unfold u64_modulus. lia.
Defined.

Lemma allocate_whole_slabs_witness :
  let run := @allocateAndMountSegment (counting_segments 9 true) sample_maps 200000 4096 65536 (-1)
               uuid_string string_uuid 300000 "tcp" "cpu:0" fresh_client [] in
  run.1.1.1.1 = 0 ∧ memory_pieces run.2 = [196608; 131072] ∧
  ∃ aligned, run.1.1.2 = Some aligned ∧ total (memory_pieces run.2) = aligned.
Proof.
  set (run := @allocateAndMountSegment _ _ _ _ _ _ _ _ _ _ _ _ _).
  assert (Hrun : run = ((0, run.1.1.1.2, run.1.1.2, run.1.2), run.2)) by (by vm_compute).
  split; [by vm_compute|]. split; [by vm_compute|].
  destruct (@allocate_whole_slabs (counting_segments 9 true) sample_maps 200000 4096 65536 (-1)
              uuid_string string_uuid 300000 "tcp" "cpu:0" fresh_client [] run.1.1.1.2 run.1.1.2
              run.1.2 run.2) as (ids & aligned & _ & Hrep & _ & _ & Htotal & _);
    [lia|unfold u64_modulus; lia|unfold u64_modulus; lia|exact Hrun|].
  exists aligned. by split.
Defined.

(** Mount a file in three chunks and allocate two; unmount the first chunk, free
    the other memory gracefully, and run one of its callbacks. *)
Definition sample_ops : list seg_op :=
  [OpMount "/data" 4096 20000 "tcp" "cpu:0"; OpAllocate 20000 "tcp" "cpu:0";
   OpUnmount [uuid_string (0, 1); "unknown"] 0;
   OpFree [uuid_string (0, 4); uuid_string (0, 5)] 3;
   OpCleanupAllocated (uuid_string (0, 4))].

Lemma segment_memory_balanced_witness :
  let run := mfold (@run_op (counting_segments 9 true) sample_maps 10000 4096 4096 (-1) uuid_string
                      string_uuid (λ _, -800)) fresh_client sample_ops [] in
  length (owned_memory run.1) = 4%nat ∧ accounts [] run.2 (owned_memory run.1).
Proof.
  set (run := mfold _ _ _ _). split; [by vm_compute|].
  pose proof (counting_laws 9 true) as Hlaws.
  pose proof (@segment_memory_balanced (counting_segments 9 true) sample_maps 10000 4096 4096 (-1)
                uuid_string string_uuid (λ _, -800) Hlaws sample_ops [] fresh_client run.1 run.2
                eq_refl eq_refl (surjective_pairing run)) as [Hacc _].
  exact Hacc.
Defined.

(** Roll back ignores the result of the unmount: when the master refuses a
    later chunk and then the unmount of an earlier one, the earlier chunk's memory
    is unmapped while its segment stays mounted, and no record of it is left. *)
Theorem rollback_unmaps_mounted :
  let run := @mountSegment (counting_segments 1 false) sample_maps 10000 4096 (-1) uuid_string
               string_uuid "/data" 4096 20000 "tcp" "cpu:0" fresh_client [] in
  run.1.1.1 = -1 ∧ mounted_segment_records_ run.1.2 = ∅ ∧
  ∃ segment, mounted_segments_ (rs_segments run.1.2) !! (0, 1) = Some segment ∧
             GMunmap (seg_base segment) (seg_size segment) 0 ∈ run.2.
Proof.
  cbn zeta. split; [by vm_compute|]. split; [by vm_compute|]. eexists.
  split; [by vm_compute|]. apply list_elem_of_In. vm_compute. tauto.
Qed.
