(* ===== verification/RealShm.v ===== *)
(** * Shared memory of dummy clients ([mooncake-store/src/real_client.cpp])

    A dummy client sends file descriptors of its shared memory over the IPC
    socket; [map_shm_internal_with_device] maps them and registers them with the
    transfer engine.  They are taken down one by one, with the client, when the
    client stops sending pings, or when the real client is torn down.  The build
    without Ascend support is modelled; files, mappings and the allocator of a
    local buffer are external. *)

From S2P Require Import Prelude CxxString StoreTypes ReplicaPolicy Segments DummyMap RangedRead RealSegments.
From stdpp Require Import base strings list sets gmap fin_maps.
From Stdlib Require Import ZArith Lia.

#[local] Open Scope Z_scope.
#[local] Set Default Proof Using "Type".

Abbreviation shm_contexts := (gmap UUID ShmContext).

Definition empty_context : ShmContext := MkShmContext [] None ∅.

(** [std::hex] of a 64-bit number. *)
Definition hex_digit (d : Z) : Ascii.ascii :=
  Ascii.ascii_of_nat (Z.to_nat (if d <? 10 then 48 + d else 87 + d)).

Fixpoint hex_aux (fuel : nat) (n : Z) (acc : string) : string :=
  match fuel with
  | O => acc
  | S fuel =>
      let acc := String (hex_digit (n mod 16)) acc in
      if n <? 16 then acc else hex_aux fuel (n / 16) acc
  end.

Definition hex (n : Z) : string := hex_aux 16 n "".

Definition MOONCAKE_SHM_NAME : string := "mooncake_shm".

Definition shm_name_of (client_id : UUID) (dummy_base : Z) : string :=
  MOONCAKE_SHM_NAME +:+ "_" +:+ to_string client_id.1 +:+ "_" +:+ to_string client_id.2 +:+ "_0x"
    +:+ hex dummy_base.

Section Shm.
Context `{!SegmentServices, !MapServices}.
(** The store client (the code uses [client_] without a check) and its settings. *)
Context (c : Client) (max_mr_size : Z) (GPU_PREFIX kWildcardLocation : string).
(** [ClientBufferAllocator::create(ptr, size, protocol)] *)
Context (create_allocator : Z → Z → Allocator).

Definition register_memory (addr size : Z) : gio (expected unit) :=
  on_segments (RegisterLocalMemory c max_mr_size GPU_PREFIX addr size kWildcardLocation).
Definition unregister_memory (addr : Z) : gio (expected unit) :=
  on_segments (unregisterLocalMemory c addr).

Definition has_base (dummy_base : Z) (shm : MappedShm) : bool :=
  dummy_base_addr shm =? dummy_base.

(** ** Mapping *)

Definition map_shm_internal_with_device (fd dummy_base size : Z) (is_local_buffer : bool)
    (client_id : UUID) (ctxs : shm_contexts) : gio (expected unit * shm_contexts) :=
  if existsb (has_base dummy_base) (mapped_shms (default empty_context (ctxs !! client_id)))
  then (if 0 <=? fd then close fd else ret tt) ;;; ret (Ok tt, ctxs)
  else if fd <? 0 then ret (Err INVALID_PARAMS, ctxs)
  else
    let! ptr := call (λ h, g_mmap h size fd 0) (GMmap size fd 0) in
    match ptr with
    | None => close fd ;;; ret (Err INTERNAL_ERROR, ctxs)
    | Some p =>
        close fd ;;;
        let shm := MkShm (shm_name_of client_id dummy_base) (u64_sub p dummy_base) p size
                     dummy_base in
        (* [shm_contexts_[client_id]] creates the context *)
        let context := default empty_context (ctxs !! client_id) in
        let ctxs := <[client_id := context]> ctxs in
        let! registered := (if 0 <? size then register_memory p size else ret (Ok tt)) in
        match registered with
        | Err e => munmap p size ;;; ret (Err e, ctxs)
        | Ok _ =>
            match is_local_buffer, client_buffer_allocator context with
            | true, Some _ => munmap p size ;;; ret (Err OBJECT_ALREADY_EXISTS, ctxs)
            | true, None =>
                ret (Ok tt, <[client_id := MkShmContext (mapped_shms context ++ [shm])
                                (Some (create_allocator p size)) (active_handles context)]> ctxs)
            | false, a =>
                ret (Ok tt, <[client_id := MkShmContext (mapped_shms context ++ [shm]) a
                                (active_handles context)]> ctxs)
            end
        end
    end.

Definition map_shm_internal := map_shm_internal_with_device.

Definition is_shm_mapped_internal (dummy_base : Z) (client_id : UUID) (ctxs : shm_contexts) : bool :=
  match ctxs !! client_id with
  | None => false
  | Some context => existsb (has_base dummy_base) (mapped_shms context)
  end.

(** ** Taking mappings down *)

(** The loop of [unmap_shm_internal]; [false]: ended by a failed unregistration. *)
Fixpoint unmap_all (shms : list MappedShm) : gio bool :=
  match shms with
  | [] => ret true
  | shm :: shms' =>
      if shm_buffer shm =? 0 then unmap_all shms'
      else
        let! rc := unregister_memory (shm_buffer shm) in
        munmap (shm_buffer shm) (shm_size shm) ;;;
        match rc with
        | Err _ => ret false
        | Ok _ => unmap_all shms'
        end
  end.

Definition unmap_shm_internal (client_id : UUID) (ctxs : shm_contexts)
  : gio (expected unit * shm_contexts) :=
  match ctxs !! client_id with
  | None => ret (Err INVALID_PARAMS, ctxs)
  | Some context =>
      let! ok := unmap_all (mapped_shms context) in
      ret (if ok then Ok tt else Err INTERNAL_ERROR, delete client_id ctxs)
  end.

(** One region of [ascend_unmap_shm_internal]: a failed unregistration is logged. *)
Definition unmap_posix (shm : MappedShm) : gio unit :=
  if shm_buffer shm =? 0 then ret tt
  else
    (if 0 <? shm_size shm then unregister_memory (shm_buffer shm) ;;; ret tt else ret tt) ;;;
    munmap (shm_buffer shm) (shm_size shm).

Definition ascend_unmap_shm_internal (client_id : UUID) (ctxs : shm_contexts)
  : gio (expected unit * shm_contexts) :=
  match ctxs !! client_id with
  | None => ret (Err INVALID_PARAMS, ctxs)
  | Some context =>
      mmap unmap_posix (mapped_shms context) ;;;
      ret (Ok tt, delete client_id ctxs)
  end.

(** The first mapping with the address, and the others. *)
Fixpoint split_shm (dummy_base : Z) (shms : list MappedShm) : option (MappedShm * list MappedShm) :=
  match shms with
  | [] => None
  | shm :: shms' =>
      if has_base dummy_base shm then Some (shm, shms')
      else match split_shm dummy_base shms' with
           | Some (x, rest) => Some (x, shm :: rest)
           | None => None
           end
  end.

Definition unregister_shm_buffer_internal (dummy_base : Z) (client_id : UUID) (ctxs : shm_contexts)
  : gio (expected unit * shm_contexts) :=
  match ctxs !! client_id with
  | None => ret (Err INVALID_PARAMS, ctxs)
  | Some context =>
      match split_shm dummy_base (mapped_shms context) with
      | None => ret (Err INVALID_PARAMS, ctxs)
      | Some (shm, rest) =>
          let removed := <[client_id := MkShmContext rest (client_buffer_allocator context)
                                          (active_handles context)]> ctxs in
          if shm_buffer shm =? 0 then ret (Ok tt, removed)
          else
            let! rc := unregister_memory (shm_buffer shm) in
            match rc with
            | Err _ => ret (Err INTERNAL_ERROR, ctxs)
            | Ok _ => munmap (shm_buffer shm) (shm_size shm) ;;; ret (Ok tt, removed)
            end
      end
  end.

(** The shared memory part of [tearDownAll_internal]: no unregistration. *)
Definition teardown_shm (shm : MappedShm) : gio unit :=
  if shm_buffer shm =? 0 then ret tt else munmap (shm_buffer shm) (shm_size shm).

Definition teardown_shms (ctxs : shm_contexts) : gio shm_contexts :=
  mmap (λ context, mmap teardown_shm (mapped_shms context)) (map_to_list ctxs).*2 ;;;
  ret ∅.

(** ** Requests over the IPC socket *)

Record ShmRegisterRequest := MkShmRegister {
  req_client_id : UUID;
  req_dummy_base_addr : Z;
  req_shm_size : Z;
  req_is_local_buffer : bool }.

(** [fd] and [req] were received by [ipc_recv_fd]; the status that is sent, if any. *)
Definition handle_ipc_shm_register (fd : Z) (req : ShmRegisterRequest) (ctxs : shm_contexts)
  : gio (option Z * shm_contexts) :=
  if fd <? 0 then ret (None, ctxs)
  else
    let! r := map_shm_internal_with_device fd (req_dummy_base_addr req) (req_shm_size req)
                (req_is_local_buffer req) (req_client_id req) ctxs in
    ret (Some (match r.1 with Ok _ => 0 | Err _ => -1 end), r.2).

(** [hot_segment]: descriptor and size of the hot cache's shared memory, if it is
    enabled and has one.  The response: status, size and the descriptor sent. *)
Definition handle_ipc_shm_fd_request (client_id : UUID) (is_hot_cache_segment : bool)
    (hot_segment : option (Z * Z)) (ctxs : shm_contexts) : Z * Z * option Z :=
  match ctxs !! client_id with
  | None => (-1, 0, None)
  | Some _ =>
      if negb is_hot_cache_segment then (-1, 0, None)
      else
        match hot_segment with
        | None => (-1, 0, None)
        | Some (fd, size) => if fd <? 0 then (-1, 0, None) else (0, size, Some fd)
        end
  end.

(** ** Pings *)

(** [queue]: [dummy_client_ping_queue_] of the given capacity; the client's view
    version and health are passed in. *)
Definition ping (capacity : nat) (queue : list UUID) (has_client healthy : bool) (view_version : Z)
    (client_id : UUID) : expected (Z * bool) * list UUID :=
  if negb has_client then (Err INTERNAL_ERROR, queue)
  else if (capacity <=? length queue)%nat then (Err INTERNAL_ERROR, queue)
  else (Ok (view_version, healthy), queue ++ [client_id]).

(** [client_ttl] after the queue was emptied. *)
Definition refresh_ttl (now live_ttl : Z) (queue : list UUID) (ttl : gmap UUID Z) : gmap UUID Z :=
  fold_left (λ m id, <[id := now + live_ttl]> m) queue ttl.

(** Clients whose time is over, in the iteration order of [client_ttl]. *)
Definition expired_clients (now : Z) (ttl : gmap UUID Z) : list UUID :=
  (filter (λ kt : UUID * Z, kt.2 < now) (map_to_list ttl)).*1.

(** One iteration of [dummy_client_monitor_func]. *)
Definition monitor_iteration (ascend_agent_mode : bool) (live_ttl now : Z) (queue : list UUID)
    (st : gmap UUID Z * shm_contexts) : gio (gmap UUID Z * shm_contexts) :=
  let ttl := refresh_ttl now live_ttl queue st.1 in
  let! ctxs := mfold (λ ctxs id,
                 let! r := (if ascend_agent_mode then ascend_unmap_shm_internal id ctxs
                            else unmap_shm_internal id ctxs) in
                 ret r.2) st.2 (expired_clients now ttl) in
  ret (filter (λ kt : UUID * Z, ¬ kt.2 < now) ttl, ctxs).
End Shm.

(** ** Buffers of the caller *)

Section Buffers.
Context `{!SegmentServices}.
Context (max_mr_size : Z) (GPU_PREFIX kWildcardLocation : string).
(** [gpu_staging::IsDevicePointer] with the device, in a build with GPU support. *)
Context (device_of : Z → option Z).

Definition resolve_register_buffer_location (buffer : Z) : string :=
  match device_of buffer with
  | Some device_id => if 0 <=? device_id then GPU_PREFIX +:+ to_string device_id
                      else kWildcardLocation
  | None => kWildcardLocation
  end.

(** [registered_buffer_sizes_[buffer] = size] *)
Fixpoint set_registered (buffer size : Z) (buffers : list (Z * Z)) : list (Z * Z) :=
  match buffers with
  | [] => [(buffer, size)]
  | (b, n) :: buffers' =>
      if b =? buffer then (b, size) :: buffers' else (b, n) :: set_registered buffer size buffers'
  end.

Definition with_registered (rc : RealClient) (buffers : list (Z * Z)) : RealClient :=
  MkRealClient (client_ rc) buffers (local_buffer_region_ rc) (client_buffer_allocator_ rc)
    (shm_contexts_ rc).

Definition register_buffer_internal (rc : RealClient) (buffer size : Z)
  : sio (expected unit * RealClient) :=
  match client_ rc with
  | None => ret (Err INVALID_PARAMS, rc)
  | Some c =>
      let! result := RegisterLocalMemory c max_mr_size GPU_PREFIX buffer size
                       (resolve_register_buffer_location buffer) in
      match result with
      | Err e => ret (Err e, rc)
      | Ok _ => ret (Ok tt, with_registered rc (set_registered buffer size
                                                  (registered_buffer_sizes_ rc)))
      end
  end.

Definition unregister_buffer_internal (rc : RealClient) (buffer : Z)
  : sio (expected unit * RealClient) :=
  match client_ rc with
  | None => ret (Err INVALID_PARAMS, rc)
  | Some c =>
      let! result := unregisterLocalMemory c buffer in
      match result with
      | Err e => ret (Err e, rc)
      | Ok _ => ret (Ok tt, with_registered rc (List.filter (λ bn, negb (bn.1 =? buffer))
                                                  (registered_buffer_sizes_ rc)))
      end
  end.

Definition register_spdk_gpu_buffer_internal (rc : RealClient) (buffer size : Z)
  : sio (expected unit) :=
  match client_ rc with
  | None => ret (Err INVALID_PARAMS)
  | Some c => RegisterSpdkGpuMemory c buffer size
  end.

Definition unregister_spdk_gpu_buffer_internal (rc : RealClient) (buffer : Z)
  : sio (expected unit) :=
  match client_ rc with
  | None => ret (Err INVALID_PARAMS)
  | Some c => UnregisterSpdkGpuMemory c buffer
  end.
End Buffers.
