(* ===== verification/RealShmSpec.v ===== *)
(** * What the shared memory of dummy clients guarantees

    Accounting of descriptors and mappings over any sequence of requests, the
    shape of the contexts, translation after mapping, the monitor's decisions, and
    registered buffers. *)

From S2P Require Import Prelude CxxString StoreTypes ReplicaPolicy Samples Accounting Segments SegmentsSpec DummyMap RangedRead RangedPrepare RangedReadSpec RealSegments RealSegmentsSpec RealChunks RealShm.
From stdpp Require Import base strings list sets gmap fin_maps.
From Stdlib Require Import ZArith Lia.

#[local] Open Scope Z_scope.
#[local] Set Default Proof Using "Type".

(** ** Mappings of the contexts *)

Definition shm_mapping (s : MappedShm) : list seg_res :=
  if shm_buffer s =? 0 then [] else [RMapping (shm_buffer s) (shm_size s)].
Definition context_res (context : ShmContext) : list seg_res := mapped_shms context ≫= shm_mapping.
Definition shm_res (ctxs : shm_contexts) : list seg_res := (map_to_list ctxs).*2 ≫= context_res.

(** A descriptor that was received, if it is one. *)
Definition received (fd : Z) : list seg_res := if fd <? 0 then [] else [RFd fd].

Lemma shm_res_insert id context ctxs :
  shm_res (<[id := context]> ctxs) ≡ₚ context_res context ++ shm_res (delete id ctxs).
Proof.
  rewrite <- insert_delete_eq. unfold shm_res. rewrite map_to_list_insert by apply lookup_delete_eq.
  done.
Qed.

Lemma shm_res_split id ctxs :
  shm_res ctxs ≡ₚ context_res (default empty_context (ctxs !! id)) ++ shm_res (delete id ctxs).
Proof.
  destruct (ctxs !! id) as [context|] eqn:E; cbn.
  - rewrite <- (insert_id ctxs id context E) at 1. apply shm_res_insert.
  - by rewrite delete_id.
Qed.

Lemma split_shm_perm base shms x rest :
  split_shm base shms = Some (x, rest) → shms ≡ₚ x :: rest.
Proof.
  revert rest. induction shms as [|s shms IH]; intros rest; cbn; [done|].
  destruct (has_base base s); [by intros [= -> ->]|].
  destruct (split_shm base shms) as [[y l]|]; [|done]. intros [= -> <-].
  rewrite (IH l eq_refl). apply perm_swap.
Qed.

Section Spec.
Context `{!SegmentServices, !MapServices}.
Context (c : Client) (max_mr_size : Z) (GPU_PREFIX kWildcardLocation : string).
Context (create_allocator : Z → Z → Allocator).
(** A mapping is never placed at address zero. *)
Context (mmap_placed : ∀ h n fd off p, g_mmap h n fd off = Some p → p ≠ 0).

Abbreviation map_shm :=
  (map_shm_internal_with_device c max_mr_size GPU_PREFIX kWildcardLocation create_allocator).

Lemma shm_mmap_owns n fd l :
  owns l (call (λ h, g_mmap h n fd 0) (GMmap n fd 0))
    (λ o, l ++ match o with Some p => [RMapping p n] | None => [] end).
Proof. apply owns_framed. owned_call. Qed.

Lemma context_insert_same id context ctxs :
  context_res context ≡ₚ context_res (default empty_context (ctxs !! id)) →
  shm_res (<[id := context]> ctxs) ≡ₚ shm_res ctxs.
Proof. intros Hc. by rewrite shm_res_insert, (shm_res_split id ctxs), Hc. Qed.

Lemma context_append id shm a handles ctxs :
  shm_buffer shm ≠ 0 →
  shm_res (<[id := MkShmContext (mapped_shms (default empty_context (ctxs !! id)) ++ [shm]) a handles]> ctxs)
    ≡ₚ RMapping (shm_buffer shm) (shm_size shm) :: shm_res ctxs.
Proof.
  intros Hp. rewrite shm_res_insert, (shm_res_split id ctxs). unfold context_res at 1. cbn.
  rewrite bind_app. cbn. unfold shm_mapping at 2. destruct (shm_buffer shm =? 0) eqn:E; [lia|].
  fold (context_res (default empty_context (ctxs !! id))). solve_Permutation.
Qed.

(** Every descriptor received is closed, and a mapping is recorded or undone. *)
Lemma map_shm_owns fd base size is_local id ctxs :
  owns (shm_res ctxs ++ received fd) (map_shm fd base size is_local id ctxs) (λ r, shm_res r.2).
Proof using mmap_placed.
  unfold map_shm_internal_with_device, received. destruct (existsb _ _).
  { destruct (Z.ltb_spec fd 0).
    - rewrite (proj2 (Z.leb_gt 0 fd)) by done. rewrite app_nil_r.
      eapply owns_seq; [by apply (owns_ret tt _ (λ _, shm_res ctxs))|]. intros u. by apply owns_ret.
    - rewrite (proj2 (Z.leb_le 0 fd)) by done.
      eapply owns_seq; [apply owns_released, close_owns|]. intros u. by apply owns_ret. }
  destruct (fd <? 0); [apply owns_ret; by rewrite app_nil_r|].
  eapply owns_bind with (P := λ o, ∀ p, o = Some p → p ≠ 0).
  { apply shm_mmap_owns. }
  { intros h v evs [-> _]%call_inv p. apply mmap_placed. }
  intros [p|] Hp; cbn beta iota; cycle 1.
  { rewrite app_nil_r. eapply owns_seq; [apply owns_released, close_owns|].
    intros u. by apply owns_ret. }
  specialize (Hp p eq_refl).
  eapply owns_seq with (mid := λ _, shm_res ctxs ++ [RMapping p size]).
  { eapply owns_pre; [apply owns_released, close_owns|]. solve_Permutation. }
  intros _. cbn zeta. set (context := default empty_context (ctxs !! id)).
  assert (Hsame : shm_res (<[id := context]> ctxs) ≡ₚ shm_res ctxs) by (by apply context_insert_same).
  eapply owns_seq with (mid := λ _, shm_res ctxs ++ [RMapping p size]).
  { destruct (0 <? size); [apply on_segments_owns|by apply owns_ret]. }
  intros [u|e].
  - assert (Hadd : ∀ a, shm_res ctxs ++ [RMapping p size] ≡ₚ
      shm_res (<[id := MkShmContext (mapped_shms context ++
        [MkShm (shm_name_of id base) (u64_sub p base) p size base]) a (active_handles context)]>
        (<[id := context]> ctxs))).
    { intros a. rewrite insert_insert_eq. unfold context. rewrite context_append by done. cbn.
      solve_Permutation. }
    destruct is_local; [|apply owns_ret; apply Hadd].
    destruct (client_buffer_allocator context); [|apply owns_ret; apply Hadd].
    eapply owns_seq; [apply owns_released, munmap_owns|]. intros u'. apply owns_ret. cbn. by rewrite Hsame.
  - eapply owns_seq; [apply owns_released, munmap_owns|]. intros u'. apply owns_ret. cbn. by rewrite Hsame.
Qed.

Lemma unmap_posix_owns shm : owns (shm_mapping shm) (unmap_posix c shm) (λ _, []).
Proof.
  unfold shm_mapping, unmap_posix. destruct (shm_buffer shm =? 0); [by apply owns_ret|].
  eapply owns_seq with (mid := λ _, [RMapping (shm_buffer shm) (shm_size shm)]);
    [|intros; apply munmap_owns].
  destruct (0 <? shm_size shm); [|by apply owns_ret].
  eapply owns_seq; [apply on_segments_owns|]. intros. by apply owns_ret.
Qed.

Lemma agent_unmap_owns id ctxs :
  owns (shm_res ctxs) (ascend_unmap_shm_internal c id ctxs) (λ r, shm_res r.2).
Proof.
  unfold ascend_unmap_shm_internal. pose proof (shm_res_split id ctxs) as Hs.
  destruct (ctxs !! id) as [context|]; [|by apply owns_ret]. cbn in Hs.
  eapply owns_pre; [|symmetry; exact Hs]. apply owns_consume.
  - apply (owns_mmap shm_mapping), unmap_posix_owns.
  - intros us. by apply owns_ret.
Qed.

Lemma unregister_shm_owns base id ctxs :
  owns (shm_res ctxs) (unregister_shm_buffer_internal c base id ctxs) (λ r, shm_res r.2).
Proof.
  unfold unregister_shm_buffer_internal. pose proof (shm_res_split id ctxs) as Hs.
  destruct (ctxs !! id) as [context|] eqn:Hid; [|by apply owns_ret]. cbn in Hs.
  destruct (split_shm base (mapped_shms context)) as [[shm rest]|] eqn:Hsp; [|by apply owns_ret].
  apply split_shm_perm in Hsp.
  assert (Hres : shm_res ctxs ≡ₚ shm_mapping shm ++
    shm_res (<[id := MkShmContext rest (client_buffer_allocator context) (active_handles context)]> ctxs)).
  { rewrite Hs, shm_res_insert. unfold context_res. cbn. rewrite Hsp. cbn. by rewrite app_assoc. }
  unfold shm_mapping in Hres. destruct (shm_buffer shm =? 0); [by apply owns_ret|].
  eapply owns_seq; [apply on_segments_owns|]. intros [u|e]; [|by apply owns_ret].
  eapply owns_pre; [|symmetry; exact Hres].
  apply owns_consume; [apply munmap_owns|]. intros u'. by apply owns_ret.
Qed.

Lemma unmap_all_accounts shms h ok evs :
  unmap_all c shms h = (ok, evs) → ok = true → accounts (shms ≫= shm_mapping) evs [].
Proof.
  revert h evs. induction shms as [|shm shms IH]; intros h evs; cbn [unmap_all].
  { intros [-> ->]%ret_inv _. apply accounts_nil. }
  change ((shm :: shms) ≫= shm_mapping) with (shm_mapping shm ++ (shms ≫= shm_mapping)).
  unfold shm_mapping at 1. destruct (shm_buffer shm =? 0); [apply IH|].
  intros (rc & e1 & e2 & E1 & E & ->)%bind_inv Hok.
  apply bind_inv in E as (u & e3 & e4 & E2 & E & ->).
  destruct rc as [u'|e]; [|apply ret_inv in E as [-> ->]; done].
  eapply accounts_app; [by eapply on_segments_owns in E1|]. eapply accounts_app; [|by eapply IH].
  apply munmap_owns in E2. apply (accounts_frame (shms ≫= shm_mapping)) in E2.
  rewrite app_nil_r in E2. eapply accounts_proper; [| |reflexivity|exact E2]; [|done].
  solve_Permutation.
Qed.

(** A client that is unmapped without an internal error gives everything back. *)
Lemma unmap_shm_accounts id ctxs h r ctxs' evs :
  unmap_shm_internal c id ctxs h = ((r, ctxs'), evs) → r ≠ Err INTERNAL_ERROR →
  accounts (shm_res ctxs) evs (shm_res ctxs').
Proof.
  unfold unmap_shm_internal. pose proof (shm_res_split id ctxs) as Hs.
  destruct (ctxs !! id) as [context|];
    [|intros [[= -> ->] ->]%ret_inv _; apply accounts_nil]. cbn in Hs.
  intros (ok & e1 & e2 & E & [[= -> ->] ->]%ret_inv & ->)%bind_inv Hr. rewrite app_nil_r.
  destruct ok; [|done]. apply unmap_all_accounts in E; [|done].
  apply (accounts_frame (shm_res (delete id ctxs))) in E. rewrite app_nil_r in E.
  eapply accounts_proper; [|reflexivity|reflexivity|exact E]. rewrite Hs. unfold context_res.
  solve_Permutation.
Qed.

Lemma teardown_owns ctxs : owns (shm_res ctxs) (teardown_shms ctxs) (λ r, shm_res r).
Proof.
  unfold teardown_shms. eapply owns_seq with (mid := λ _, []).
  - apply (owns_mmap context_res). intros context. apply (owns_mmap shm_mapping). intros shm.
    unfold shm_mapping, teardown_shm. destruct (shm_buffer shm =? 0); [by apply owns_ret|].
    apply munmap_owns.
  - intros us. by apply owns_ret.
Qed.

(** ** The life of the contexts *)

(** Requests in any order; [fds] are the descriptors received. *)
Inductive shm_life : list Z → list map_event → shm_contexts → Prop :=
| life_start : shm_life [] [] ∅
| life_register ctxs fds evs fd req h st ctxs' e :
    shm_life fds evs ctxs →
    handle_ipc_shm_register c max_mr_size GPU_PREFIX kWildcardLocation create_allocator fd req ctxs h
      = ((st, ctxs'), e) →
    shm_life (fds ++ [fd]) (evs ++ e) ctxs'
| life_unregister ctxs fds evs base id h r ctxs' e :
    shm_life fds evs ctxs →
    unregister_shm_buffer_internal c base id ctxs h = ((r, ctxs'), e) →
    shm_life fds (evs ++ e) ctxs'
| life_unmap ctxs fds evs id h r ctxs' e :
    shm_life fds evs ctxs →
    unmap_shm_internal c id ctxs h = ((r, ctxs'), e) → r ≠ Err INTERNAL_ERROR →
    shm_life fds (evs ++ e) ctxs'
| life_agent_unmap ctxs fds evs id h r ctxs' e :
    shm_life fds evs ctxs →
    ascend_unmap_shm_internal c id ctxs h = ((r, ctxs'), e) →
    shm_life fds (evs ++ e) ctxs'
| life_teardown ctxs fds evs h ctxs' e :
    shm_life fds evs ctxs →
    teardown_shms ctxs h = (ctxs', e) →
    shm_life fds (evs ++ e) ctxs'.

(** C15: Over any sequence of requests of dummy clients every descriptor received is
    closed, and the mappings made and not undone are exactly those the contexts
    record, so that tear-down leaves none; only a failing [munmap] or [close], or
    the end of a client whose memory cannot be unregistered, can lose one. *)
Theorem shared_memory_balanced fds evs ctxs :
  shm_life fds evs ctxs → accounts (fds ≫= received) evs (shm_res ctxs).
Proof using mmap_placed.
  induction 1 as [|ctxs fds evs fd req h st ctxs' e _ IH E
                  |ctxs fds evs base id h r ctxs' e _ IH E
                  |ctxs fds evs id h r ctxs' e _ IH E Hr
                  |ctxs fds evs id h r ctxs' e _ IH E
                  |ctxs fds evs h ctxs' e _ IH E].
  - apply accounts_nil.
  - rewrite bind_app. cbn. rewrite app_nil_r.
    apply (accounts_frame (received fd)) in IH.
    eapply accounts_app; [eapply accounts_proper; [|reflexivity|reflexivity|exact IH];
                          apply Permutation_app_comm|].
    unfold handle_ipc_shm_register in E. destruct (fd <? 0) eqn:Hfd.
    { apply ret_inv in E as [[= -> ->] ->]. unfold received. rewrite Hfd. apply accounts_nil. }
    apply bind_inv in E as (r & e1 & e2 & E & [[= -> ->] ->]%ret_inv & ->). rewrite app_nil_r.
    apply map_shm_owns in E. eapply accounts_proper; [|reflexivity|reflexivity|exact E].
    apply Permutation_app_comm.
  - eapply accounts_app; [exact IH|]. by apply unregister_shm_owns in E.
  - eapply accounts_app; [exact IH|]. by eapply unmap_shm_accounts.
  - eapply accounts_app; [exact IH|]. by apply agent_unmap_owns in E.
  - eapply accounts_app; [exact IH|]. by apply teardown_owns in E.
Qed.

(** ** Shape of the contexts *)

(** What the system and the clients promise: mappings and the clients' ranges lie
    in the address space. *)
Context (mmap_range : ∀ h n fd off p, g_mmap h n fd off = Some p → 0 ≤ p ∧ p + n < u64_modulus).

Definition context_wf (context : ShmContext) : Prop :=
  Forall wf_shm (mapped_shms context) ∧ NoDup (dummy_base_addr <$> mapped_shms context).

Definition contexts_wf (ctxs : shm_contexts) : Prop := map_Forall (λ _ context, context_wf context) ctxs.

Lemma default_wf id ctxs : contexts_wf ctxs → context_wf (default empty_context (ctxs !! id)).
Proof.
  intros Hw. destruct (ctxs !! id) eqn:E; cbn; [by eapply Hw|]. split; constructor.
Qed.

Lemma no_base base shms :
  existsb (has_base base) shms = false → base ∉ dummy_base_addr <$> shms.
Proof.
  intros E (shm & -> & Hin)%list_elem_of_fmap. apply list_elem_of_In in Hin.
  assert (existsb (has_base (dummy_base_addr shm)) shms = true); [|congruence].
  apply existsb_exists. exists shm. split; [done|]. unfold has_base. apply Z.eqb_refl.
Qed.

Lemma map_shm_run fd base size is_local id ctxs h ctxs' evs :
  map_shm fd base size is_local id ctxs h = ((Ok tt, ctxs'), evs) →
  (ctxs' = ctxs ∧ existsb (has_base base) (mapped_shms (default empty_context (ctxs !! id))) = true) ∨
  (existsb (has_base base) (mapped_shms (default empty_context (ctxs !! id))) = false ∧
   ∃ h' p a, g_mmap h' size fd 0 = Some p ∧
     ctxs' = <[id := MkShmContext (mapped_shms (default empty_context (ctxs !! id)) ++
                [MkShm (shm_name_of id base) (u64_sub p base) p size base]) a
                (active_handles (default empty_context (ctxs !! id)))]> ctxs).
Proof.
  unfold map_shm_internal_with_device. destruct (existsb _ _) eqn:Hex.
  { intros (u & e1 & e2 & _ & [[= ->] ->]%ret_inv & ->)%bind_inv. by left. }
  destruct (fd <? 0); [by intros [? _]%ret_inv|].
  intros (o & e1 & e2 & [-> ->]%call_inv & E & ->)%bind_inv.
  destruct (g_mmap h size fd 0) as [p|] eqn:Hmm;
    [|by apply bind_inv in E as (? & ? & ? & _ & [? _]%ret_inv & _)].
  apply bind_inv in E as (u & e3 & e4 & _ & E & ->).
  apply bind_inv in E as (rg & e5 & e6 & _ & E & ->). destruct rg as [u'|e];
    [|by apply bind_inv in E as (? & ? & ? & _ & [? _]%ret_inv & _)].
  right. split; [done|]. exists h, p.
  destruct is_local; [destruct (client_buffer_allocator _) eqn:Ha;
    [by apply bind_inv in E as (? & ? & ? & _ & [? _]%ret_inv & _)|]|];
    apply ret_inv in E as [[= ->] ->]; eexists; (split; [done|]); by rewrite insert_insert_eq.
Qed.

(** C40: Mapping keeps the contexts well formed, for requests whose range lies in the
    address space: every mapping has the offset between its two bases, and no
    client has two mappings at one of its addresses. *)
Theorem mapping_keeps_contexts_wf fd base size is_local id ctxs h r ctxs' evs :
  contexts_wf ctxs → 0 ≤ base → 0 ≤ size → base + size < u64_modulus →
  map_shm fd base size is_local id ctxs h = ((r, ctxs'), evs) → contexts_wf ctxs'.
Proof using mmap_range.
  intros Hwf Hb Hs He E. pose proof (default_wf id ctxs Hwf) as Hd.
  destruct r as [[]|e].
  - apply map_shm_run in E as [[-> _]|(Hex & h' & p & a & Hp & ->)]; [done|].
    apply map_Forall_insert_2; [|done]. destruct Hd as [Hf Hn]. split; cbn.
    + apply Forall_app. split; [done|]. constructor; [|constructor].
      apply mmap_range in Hp as [? ?]. by repeat split.
    + rewrite fmap_app. cbn. apply NoDup_app. split_and!; [done| |apply NoDup_singleton].
      intros b Hin Hb'. apply list_elem_of_singleton in Hb' as ->. by apply no_base in Hex.
  - assert (Hsame : ctxs' = ctxs ∨ ctxs' = <[id := default empty_context (ctxs !! id)]> ctxs).
    { unfold map_shm_internal_with_device in E. destruct (existsb _ _);
        [by apply bind_inv in E as (? & ? & ? & _ & [? _]%ret_inv & _)|].
      destruct (fd <? 0); [apply ret_inv in E as [[= _ ->] _]; by left|].
      apply bind_inv in E as (o & e1 & e2 & [-> ->]%call_inv & E & ->).
      destruct (g_mmap h size fd 0) as [p|];
        [|apply bind_inv in E as (? & ? & ? & _ & [[= _ ->] _]%ret_inv & _); by left].
      apply bind_inv in E as (u & e3 & e4 & _ & E & ->).
      apply bind_inv in E as (rg & e5 & e6 & _ & E & ->). destruct rg as [u'|e'];
        [|apply bind_inv in E as (? & ? & ? & _ & [[= _ ->] _]%ret_inv & _); by right].
      destruct is_local; [destruct (client_buffer_allocator _);
        [apply bind_inv in E as (? & ? & ? & _ & [[= _ ->] _]%ret_inv & _); by right|]|];
        by apply ret_inv in E as [? _]. }
    destruct Hsame as [->| ->]; [done|]. by apply map_Forall_insert_2.
Qed.

(** After a dummy client's memory was mapped, every range of it that overlaps no
    other mapping of the client is translated to the same offset of the new
    mapping. *)
Theorem mapped_range_translates fd base size is_local id ctxs h ctxs' evs addr n :
  contexts_wf ctxs → 0 ≤ base → base + size < u64_modulus →
  is_shm_mapped_internal base id ctxs = false →
  map_shm fd base size is_local id ctxs h = ((Ok tt, ctxs'), evs) →
  base ≤ addr → 0 ≤ n → addr + n ≤ base + size →
  Forall (λ s, ¬ holds_range s addr n) (mapped_shms (default empty_context (ctxs !! id))) →
  ∃ p context, ctxs' !! id = Some context ∧
    (map_dummy_buffer_to_real (mapped_shms context) addr n None).1 = Some (p + (addr - base)) ∧
    p ≠ 0 ∧ is_shm_mapped_internal base id ctxs' = true.
Proof using mmap_range mmap_placed.
  intros Hwf Hb He Hnot E Haddr Hn Hend Hother.
  apply map_shm_run in E as [[_ Hex]|(Hex & h' & p & a & Hp & ->)].
  { unfold is_shm_mapped_internal in Hnot. destruct (ctxs !! id); cbn in Hex; congruence. }
  pose proof (mmap_placed _ _ _ _ _ Hp) as Hnz. apply mmap_range in Hp as [Hp0 Hp1].
  pose proof (default_wf id ctxs Hwf) as [Hshms _].
  set (shm := MkShm (shm_name_of id base) (u64_sub p base) p size base).
  assert (Hshm : wf_shm shm) by (repeat split; cbn; lia).
  exists p. eexists. rewrite lookup_insert_eq. split; [done|]. cbn [mapped_shms].
  unfold is_shm_mapped_internal. rewrite lookup_insert_eq. cbn [mapped_shms].
  split_and!; [|done|].
  - unfold map_dummy_buffer_to_real. fold shm.
    assert (Hscan : ∀ shms, Forall wf_shm shms → Forall (λ s, ¬ holds_range s addr n) shms →
      scan_shms (shms ++ [shm]) addr 0 n = Some (shm, rebase shm (addr + 0))).
    { intros shms Hw Ho. induction shms as [|s shms IH]; cbn [scan_shms app].
      - rewrite map_range_exact by (first [done|unfold in_u64, u64_modulus in *; lia]).
        rewrite bool_decide_true; [done|]. unfold holds_range. cbn. lia.
      - apply Forall_cons in Hw as [Hs Hw]. apply Forall_cons in Ho as [Hso Ho].
        rewrite map_range_exact by (first [done|unfold in_u64, u64_modulus in *; lia]).
        rewrite bool_decide_false by (rewrite Z.add_0_r; tauto). by apply IH. }
    rewrite Hscan by done. cbn. unfold rebase. cbn. f_equal. lia.
  - apply existsb_exists. exists shm. split; [apply in_or_app; right; by left|].
    unfold has_base. apply Z.eqb_refl.
Qed.
End Spec.

(** ** The monitor *)

Section Monitor.
Context `{!SegmentServices, !MapServices}.
Context (c : Client).

Lemma refresh_ttl_lookup now live queue ttl id :
  refresh_ttl now live queue ttl !! id =
    if bool_decide (id ∈ queue) then Some (now + live) else ttl !! id.
Proof.
  unfold refresh_ttl. revert ttl. induction queue as [|x queue IH]; intros ttl; cbn; [done|].
  rewrite IH. repeat case_bool_decide; try set_solver.
  - destruct (decide (x = id)) as [->|Hne]; [by rewrite lookup_insert_eq|]. set_solver.
  - rewrite lookup_insert_ne; [done|]. set_solver.
Qed.

Lemma elem_of_expired now ttl id :
  id ∈ expired_clients now ttl ↔ ∃ t, ttl !! id = Some t ∧ t < now.
Proof.
  unfold expired_clients. rewrite list_elem_of_fmap. split.
  - intros ([id' t] & -> & [Ht Hin]%list_elem_of_filter). exists t. cbn in *.
    by apply elem_of_map_to_list in Hin.
  - intros (t & Hl & Ht). exists (id, t). split; [done|]. apply list_elem_of_filter.
    split; [done|]. by apply elem_of_map_to_list.
Qed.

Lemma unmap_deletes (agent : bool) id ctxs h r evs :
  (if agent then ascend_unmap_shm_internal c id ctxs else unmap_shm_internal c id ctxs) h = (r, evs) →
  r.2 = delete id ctxs.
Proof.
  destruct agent; unfold ascend_unmap_shm_internal, unmap_shm_internal;
    (destruct (ctxs !! id) as [context|] eqn:E;
      [|intros [-> _]%ret_inv; cbn; by rewrite delete_id]);
    by intros (? & ? & ? & _ & [-> _]%ret_inv & _)%bind_inv.
Qed.

Lemma unmaps_delete (agent : bool) ids ctxs h ctxs' evs :
  mfold (λ ctxs id,
     let! r := (if agent then ascend_unmap_shm_internal c id ctxs
                else unmap_shm_internal c id ctxs) in ret r.2) ctxs ids h = (ctxs', evs) →
  ∀ id, ctxs' !! id = if bool_decide (id ∈ ids) then None else ctxs !! id.
Proof.
  revert ctxs h evs. induction ids as [|x ids IH]; intros ctxs h evs; cbn [mfold].
  { by intros [-> _]%ret_inv. }
  intros (ctxs1 & e1 & e2 & E1 & E2 & ->)%bind_inv id.
  apply bind_inv in E1 as (r & ? & ? & E1 & [-> _]%ret_inv & _). apply unmap_deletes in E1.
  rewrite (IH _ _ _ E2), E1. destruct (decide (x = id)) as [->|Hne].
  - rewrite lookup_delete_eq. rewrite (bool_decide_true (id ∈ id :: ids)) by (by left).
    by case_bool_decide.
  - rewrite lookup_delete_ne by done. repeat case_bool_decide; try done; set_solver.
Qed.

(** One round of the monitor: a client that sent a ping keeps its memory and is
    given a new deadline, one whose deadline has passed is forgotten and its
    context removed, and all others are left alone. *)
Theorem monitor_exact agent live now queue ttl ctxs h ttl' ctxs' evs id :
  0 ≤ live →
  monitor_iteration c agent live now queue (ttl, ctxs) h = ((ttl', ctxs'), evs) →
  if bool_decide (id ∈ queue)
  then ttl' !! id = Some (now + live) ∧ ctxs' !! id = ctxs !! id
  else match ttl !! id with
       | Some t => if bool_decide (t < now) then ttl' !! id = None ∧ ctxs' !! id = None
                   else ttl' !! id = Some t ∧ ctxs' !! id = ctxs !! id
       | None => ttl' !! id = None ∧ ctxs' !! id = ctxs !! id
       end.
Proof.
  intros Hlive E. unfold monitor_iteration in E. cbn [fst snd] in E.
  apply bind_inv in E as (ctxs1 & e1 & e2 & E & [[= -> ->] ->]%ret_inv & ->).
  pose proof (unmaps_delete _ _ _ _ _ _ E id) as Hc.
  assert (Ht : ∀ o, refresh_ttl now live queue ttl !! id = o →
    filter (λ kt : UUID * Z, ¬ kt.2 < now) (refresh_ttl now live queue ttl) !! id =
      match o with Some t => if bool_decide (t < now) then None else Some t | None => None end).
  { intros o <-. destruct (refresh_ttl now live queue ttl !! id) as [t|] eqn:El.
    - destruct (decide (t < now)) as [Hlt|Hlt].
      + rewrite bool_decide_true by done. apply map_lookup_filter_None. right. intros t' Ht'.
        rewrite El in Ht'. injection Ht' as <-. cbn. tauto.
      + rewrite bool_decide_false by done. apply map_lookup_filter_Some. by split.
    - apply map_lookup_filter_None. by left. }
  specialize (Ht _ eq_refl). rewrite Hc, Ht, refresh_ttl_lookup.
  assert (He : (id ∈ expired_clients now (refresh_ttl now live queue ttl)) ↔
               ∃ t, (refresh_ttl now live queue ttl !! id = Some t) ∧ t < now) by apply elem_of_expired.
  rewrite refresh_ttl_lookup in He. clear Hc Ht E.
  destruct (decide (id ∈ queue)) as [Hq|Hq];
    [rewrite (bool_decide_true (id ∈ queue)) in * by done
    |rewrite (bool_decide_false (id ∈ queue)) in * by done].
  - rewrite (bool_decide_false (_ < now)) by lia. rewrite bool_decide_false; [done|].
    intros (t & [= <-] & ?)%He. lia.
  - destruct (ttl !! id) as [t|] eqn:El.
    + destruct (decide (t < now)) as [Hlt|Hlt].
      * rewrite (bool_decide_true (t < now)) by done. rewrite bool_decide_true; [done|].
        apply He. by exists t.
      * rewrite (bool_decide_false (t < now)) by done. rewrite bool_decide_false; [done|].
        intros (t' & [= <-] & ?)%He. lia.
    + rewrite bool_decide_false; [done|]. intros (t & ? & _)%He. done.
Qed.
End Monitor.

(** ** Registered buffers *)

Section Buffers.
Context `{!SegmentServices}.
Context (max_mr_size : Z) (GPU_PREFIX kWildcardLocation : string) (device_of : Z → option Z).

Lemma set_registered_find buffer size bs a :
  valid_buffer buffer size → buffer ≤ a < buffer + size →
  Forall (λ bn, valid_buffer bn.1 bn.2 ∧ (bn.1 ≠ buffer → ¬ (bn.1 ≤ a < bn.1 + bn.2))) bs →
  find_registered (set_registered buffer size bs) a = Some (MkRegion buffer size (a - buffer)).
Proof.
  unfold valid_buffer. intros Hv Ha. induction 1 as [|[b n] bs [Hb Hn] _ IH]; cbn.
  - rewrite (proj2 (Z.ltb_ge a buffer)) by lia. rewrite u64_sub_small by lia.
    by rewrite (proj2 (Z.ltb_lt (a - buffer) size)) by lia.
  - cbn in Hb, Hn. destruct (Z.eqb_spec b buffer) as [->|Hne]; cbn.
    + rewrite (proj2 (Z.ltb_ge a buffer)) by lia. rewrite u64_sub_small by lia.
      by rewrite (proj2 (Z.ltb_lt (a - buffer) size)) by lia.
    + specialize (Hn Hne). destruct (Z.ltb_spec a b); [done|]. rewrite u64_sub_small by lia.
      by rewrite (proj2 (Z.ltb_ge (a - b) n)) by lia.
Qed.

Lemma set_registered_valid buffer size bs :
  valid_buffer buffer size → Forall (λ bn, valid_buffer bn.1 bn.2) bs →
  Forall (λ bn, valid_buffer bn.1 bn.2) (set_registered buffer size bs).
Proof.
  intros Hv. induction 1 as [|[b n] bs Hb Hbs IH]; cbn; [constructor; [done|constructor]|].
  destruct (Z.eqb_spec b buffer) as [->|]; constructor; done.
Qed.

Lemma unregistered_find buffer bs a :
  Forall (λ bn, valid_buffer bn.1 bn.2 ∧ (bn.1 ≠ buffer → ¬ (bn.1 ≤ a < bn.1 + bn.2))) bs →
  a < u64_modulus →
  find_registered (List.filter (λ bn, negb (bn.1 =? buffer)) bs) a = None.
Proof.
  intros Hbs Ha. induction Hbs as [|[b n] bs [Hb Hn] _ IH]; cbn; [done|]. cbn in Hb, Hn.
  destruct (Z.eqb_spec b buffer) as [->|Hne]; cbn; [done|]. unfold valid_buffer in Hb.
  specialize (Hn Hne). destruct (Z.ltb_spec a b); [done|]. rewrite u64_sub_small by lia.
  by rewrite (proj2 (Z.ltb_ge (a - b) n)) by lia.
Qed.

(** A registered buffer resolves to itself until it is unregistered: after a
    successful registration every address of it is writable at its offset, and
    after a successful unregistration it is not found any more. *)
Theorem register_resolve_roundtrip rc b n a h rc1 evs1 rc2 evs2 :
  wf_real_client rc → valid_buffer b n → b ≤ a < b + n → local_buffer_region_ rc = None →
  Forall (λ bn, bn.1 ≠ b → ¬ (bn.1 ≤ a < bn.1 + bn.2)) (registered_buffer_sizes_ rc) →
  register_buffer_internal max_mr_size GPU_PREFIX kWildcardLocation device_of rc b n h =
    ((Ok tt, rc1), evs1) →
  unregister_buffer_internal rc1 b (h ++ evs1) = ((Ok tt, rc2), evs2) →
  resolve_writable_buffer_region rc1 a = Some (MkRegion b n (a - b)) ∧ wf_real_client rc1 ∧
  resolve_writable_buffer_region rc2 a = None.
Proof.
  intros [Hreg Hloc] Hv Ha Hnone Hother E1 E2. unfold register_buffer_internal in E1.
  destruct (client_ rc) as [c|] eqn:Hc; [|by apply ret_inv in E1 as [? _]].
  apply bind_inv in E1 as (r & ? & ? & _ & E1 & _). destruct r; [|by apply ret_inv in E1 as [? _]].
  apply ret_inv in E1 as [[= ->] _].
  unfold unregister_buffer_internal in E2. cbn [client_ with_registered] in E2. rewrite Hc in E2.
  apply bind_inv in E2 as (r & ? & ? & _ & E2 & _). destruct r; [|by apply ret_inv in E2 as [? _]].
  apply ret_inv in E2 as [[= ->] _].
  assert (Hall : Forall (λ bn, valid_buffer bn.1 bn.2 ∧ (bn.1 ≠ b → ¬ (bn.1 ≤ a < bn.1 + bn.2)))
                   (registered_buffer_sizes_ rc)) by (by apply Forall_and).
  unfold resolve_writable_buffer_region. cbn. rewrite Hnone.
  rewrite set_registered_find by done. split_and!; [done| |].
  - split; [by apply set_registered_valid|]. cbn. by rewrite Hnone.
  - rewrite unregistered_find; [done| |unfold valid_buffer in Hv; lia].
    assert (Hset : ∀ bs, Forall (λ bn, valid_buffer bn.1 bn.2 ∧ (bn.1 ≠ b → ¬ (bn.1 ≤ a < bn.1 + bn.2))) bs →
      Forall (λ bn, valid_buffer bn.1 bn.2 ∧ (bn.1 ≠ b → ¬ (bn.1 ≤ a < bn.1 + bn.2)))
        (set_registered b n bs)).
    { induction 1 as [|[b' n'] bs Hb Hbs IH]; cbn; [constructor; [done|constructor]|].
      destruct (Z.eqb_spec b' b) as [->|]; constructor; try done. }
    by apply Hset.
Qed.
End Buffers.

(** ** Concrete requests *)

(** Mappings of up to 64 KiB, at increasing addresses. *)
Definition shm_maps : MapServices := {|
  g_open := λ _ _, 5;
  g_fstat := λ _ _, None;
  g_close := λ _ _, 0;
  g_mmap := λ h n _ _, if bool_decide (0 ≤ n ≤ 65536 ∧ (length h < 1000)%nat)
                       then Some (1048576 * Z.of_nat (S (length h))) else None;
  g_munmap := λ _ _ _, 0;
  g_allocate := λ _ _ _, 0 |}.

Lemma shm_maps_placed h n fd off p : @g_mmap shm_maps h n fd off = Some p → p ≠ 0.
Proof. cbn. case_bool_decide; [|done]. intros [= <-]. lia. Qed.

Lemma shm_maps_range h n fd off p :
  @g_mmap shm_maps h n fd off = Some p → 0 ≤ p ∧ p + n < u64_modulus.
Proof. cbn. case_bool_decide as Hb; [|done]. intros [= <-]. unfold u64_modulus. lia. Qed.

(** A transfer engine that unregisters nothing. *)
Definition stuck_segments : SegmentServices := {|
  te_register := λ _ _ _ _, 0;
  te_unregister := λ _ _, -1;
  generate_uuid := λ _, (0, 0);
  m_mount := λ _ _, Ok tt;
  m_unmount := λ _ _, Ok tt;
  m_graceful_unmount := λ _ _ _, Ok tt;
  m_query_status := λ _ _, Err SEGMENT_NOT_FOUND;
  spdk_init_env := λ _, true;
  spdk_dmabuf_enabled := λ _, true;
  spdk_register := λ _ _ _, 0 |}.

Abbreviation sample_map_shm seg fd base size is_local ctxs :=
  (@map_shm_internal_with_device seg shm_maps sample_client 65536 "cuda:" "*" (λ _ _ _ _, None)
     fd base size is_local (1, 1) ctxs []).

Definition first_contexts : shm_contexts :=
  (sample_map_shm (counting_segments 0 true) 7 4096 8192 true ∅).1.2.

Lemma shared_memory_balanced_witness :
  ∃ evs ctxs, @shm_life (counting_segments 0 true) shm_maps sample_client 65536 "cuda:" "*"
    (λ _ _ _ _, None) [7] evs ctxs ∧
    accounts [RFd 7] evs (shm_res ctxs) ∧ shm_res ctxs = [RMapping 1048576 8192].
Proof.
  eexists _, _. split.
  - eapply (life_register _ _ _ _ _ ∅ [] [] 7 (MkShmRegister (1, 1) 4096 8192 true) []);
      [apply life_start|by vm_compute].
  - split; [|by vm_compute].
    apply (@shared_memory_balanced (counting_segments 0 true) shm_maps sample_client 65536 "cuda:" "*"
             (λ _ _ _ _, None) shm_maps_placed [7]).
    eapply (life_register _ _ _ _ _ ∅ [] [] 7 (MkShmRegister (1, 1) 4096 8192 true) []);
      [apply life_start|by vm_compute].
Defined.

Lemma mapping_keeps_contexts_wf_witness : contexts_wf first_contexts.
Proof.
  apply (@mapping_keeps_contexts_wf (counting_segments 0 true) shm_maps sample_client 65536 "cuda:" "*"
           (λ _ _ _ _, None) shm_maps_range 7 4096 8192 true (1, 1) ∅ []
           (Ok tt) first_contexts (sample_map_shm (counting_segments 0 true) 7 4096 8192 true ∅).2).
  - apply map_Forall_empty.
  - lia.
  - lia.
  - unfold u64_modulus. lia.
  - by vm_compute.
Defined.

Lemma mapped_range_translates_witness :
  ∃ p context, first_contexts !! (1, 1) = Some context ∧
    (map_dummy_buffer_to_real (mapped_shms context) 5000 100 None).1 = Some (p + 904).
Proof.
  destruct (@mapped_range_translates (counting_segments 0 true) shm_maps sample_client 65536 "cuda:"
    "*" (λ _ _ _ _, None) shm_maps_placed shm_maps_range 7 4096 8192 true (1, 1) ∅ [] first_contexts
    (sample_map_shm (counting_segments 0 true) 7 4096 8192 true ∅).2 5000 100)
    as (p & context & Hc & Ht & _).
  - apply map_Forall_empty.
  - lia.
  - unfold u64_modulus. lia.
  - by vm_compute.
  - by vm_compute.
  - lia.
  - lia.
  - lia.
  - constructor.
  - exists p, context. split; [done|]. exact Ht.
Defined.

Lemma monitor_exact_witness :
  let run := @monitor_iteration (counting_segments 0 true) shm_maps sample_client false 10 100 [(2, 2)]
               ({[ (1, 1) := 50; (2, 2) := 60 ]}, first_contexts) [] in
  run.1.1 !! (1, 1) = None ∧ run.1.2 !! (1, 1) = None.
Proof.
  intros run.
  pose proof (@monitor_exact (counting_segments 0 true) shm_maps sample_client false 10 100 [(2, 2)]
    {[ (1, 1) := 50; (2, 2) := 60 ]} first_contexts [] run.1.1 run.1.2 run.2 (1, 1)) as H.
  assert (Hrun : @monitor_iteration (counting_segments 0 true) shm_maps sample_client false 10 100
    [(2, 2)] ({[ (1, 1) := 50; (2, 2) := 60 ]}, first_contexts) [] = ((run.1.1, run.1.2), run.2))
    by (by vm_compute).
  specialize (H ltac:(lia) Hrun). by vm_compute in H.
Defined.

Lemma register_resolve_roundtrip_witness :
  let rc := MkRealClient (Some sample_client) [] None None ∅ in
  let run := @register_buffer_internal (counting_segments 0 true) 65536 "cuda:" "*" (λ _, None) rc
               8192 64 [] in
  resolve_writable_buffer_region run.1.2 8200 = Some (MkRegion 8192 64 8).
Proof.
  intros rc run.
  pose (run2 := @unregister_buffer_internal (counting_segments 0 true) run.1.2 8192 ([] ++ run.2)).
  destruct (@register_resolve_roundtrip (counting_segments 0 true) 65536 "cuda:" "*" (λ _, None) rc
    8192 64 8200 [] run.1.2 run.2 run2.1.2 run2.2) as [Hr _].
  - split; [constructor|done].
  - unfold valid_buffer, u64_modulus. lia.
  - lia.
  - done.
  - constructor.
  - by vm_compute.
  - by vm_compute.
  - exact Hr.
Defined.

(** When the memory of a client cannot be unregistered, [unmap_shm_internal] unmaps
    that one mapping, forgets the client, and leaves its other mappings in place
    with nothing recording them. *)
Theorem failed_unmap_leaks :
  let shms := [MkShm "a" 0 4096 64 4096; MkShm "b" 0 8192 64 8192] in
  let run := @unmap_shm_internal stuck_segments shm_maps sample_client (1, 1)
               {[ (1, 1) := MkShmContext shms None ∅ ]} [] in
  run.1 = (Err INTERNAL_ERROR, ∅) ∧
  omap (λ e, match e with GMunmap p n _ => Some (p, n) | _ => None end) run.2 = [(4096, 64)].
Proof. by vm_compute. Qed.

(** A second local buffer is refused after it was registered: it is unmapped and
    stays registered with the transfer engine. *)
Theorem refused_local_buffer_stays_registered :
  let run := sample_map_shm (counting_segments 0 true) 8 65536 4096 true first_contexts in
  run.1 = (Err OBJECT_ALREADY_EXISTS, first_contexts) ∧
  run.2 = [GMmap 4096 8 0 (Some 1048576); GClose 8 0;
           GSegment (TERegister 1048576 4096 "*" 0); GMunmap 1048576 4096 0].
Proof. by vm_compute. Qed.
