(* ===== verification/RealBuffers.v ===== *)
(** * Buffers handed out to callers ([mooncake-store/src/real_client.cpp])

    [get_buffer] reads an object into a buffer of the client's allocator and
    returns a handle that owns it.  A dummy client gets the address of such a
    buffer in its own address space and keeps it until it releases it; blocks of
    the hot cache are handed out by their offset in the shared cache.  The
    queries for replicas and for existence are here too. *)

From S2P Require Import Prelude CxxString StoreTypes ReplicaPolicy Samples PutPath BatchPut GetPath DummyMap RangedRead RealWrite RealGetInto.
From stdpp Require Import base strings list sets gmap.
From Stdlib Require Import ZArith Lia.

#[local] Open Scope Z_scope.
#[local] Set Default Proof Using "Type".

(** A key read from a memory, NoF or file replica. *)
Record KeyOp := MkKeyOp {
  ko_index : nat;
  ko_key : string;
  ko_query_result : QueryResult;
  ko_handle : BufferHandle;
  ko_slices : list Slice }.

(** A key read from a replica on the SSD of a peer. *)
Record DiskKeyOp := MkDiskKeyOp {
  do_index : nat;
  do_key : string;
  do_query_result : QueryResult;
  do_handle : BufferHandle;
  do_total_size : Z }.

(** The mapping of a real address, and the address the dummy client sees. *)
Fixpoint dummy_address (shms : list MappedShm) (real_addr : Z) : option Z :=
  match shms with
  | [] => None
  | shm :: shms' =>
      let shm_start := shm_buffer shm in
      let shm_end := u64_add shm_start (shm_size shm) in
      if (shm_start <=? real_addr) && (real_addr <? shm_end)
      then Some (u64_sub real_addr (shm_addr_offset shm))
      else dummy_address shms' real_addr
  end.

Definition with_handles (context : ShmContext) (hs : gmap Z BufferHandle) : ShmContext :=
  MkShmContext (mapped_shms context) (client_buffer_allocator context) hs.

Section Buffers.
Context `{!MasterClient, !TransferSubmitter, !HotCache, !StorageBackend, !Clock, !RealServices}.
Context (iteration : ∀ A : Type, gmap string A → list (string * A)).

(** ** [get_buffer] *)

(** The read into the allocated buffer. *)
Definition fill_buffer (c : Client) (key : ObjectKey) (q : QueryResult) (replica : Descriptor)
    (total_length p : Z) : rio (expected unit) :=
  match data replica with
  | LocalDiskReplica endpoint _ =>
      batch_get_into_offload_object_internal endpoint [(key, [MkSlice p total_length])]
  | _ => on_client (Get_query c key (FilterQueryResult q replica) (allocateSlices replica p))
  end.

Definition get_buffer_internal (rc : RealClient) (key : ObjectKey) (allocator : option Allocator)
  : rio (option BufferHandle) :=
  match client_ rc, allocator with
  | Some c, Some allocate =>
      let! query_result := on_client (Query key) in
      let! eps := GetLocalEndpoints in
      match choose_replica eps query_result with
      | Err _ => ret None
      | Ok (q, replica) =>
          let total_length := calculate_total_size replica in
          if total_length =? 0 then ret None
          else
            let! alloc_result := call (λ h, allocate h total_length) (RAllocate total_length) in
            match alloc_result with
            | None => ret None
            | Some p =>
                let! r := fill_buffer c key q replica total_length p in
                match r with
                | Err _ => free_handle p ;;; ret None
                | Ok _ => ret (Some (p, total_length))
                end
            end
      end
  | _, _ => ret None
  end.

Definition get_buffer (rc : RealClient) (key : ObjectKey) : rio (option BufferHandle) :=
  get_buffer_internal rc key (client_buffer_allocator_ rc).

(** ** [batch_get_buffer] *)

(** One iteration of the loop that queries lead to operations. *)
Definition prepare_buffer (eps : list string) (allocate : Allocator)
    (st : list KeyOp * list DiskKeyOp) (ix : nat * (string * expected QueryResult))
  : rio (list KeyOp * list DiskKeyOp) :=
  let '(i, (key, query_result)) := ix in
  match choose_replica eps query_result with
  | Err _ => ret st
  | Ok (q, replica) =>
      let total_size := calculate_total_size replica in
      if total_size =? 0 then ret st
      else
        let! alloc_result := call (λ h, allocate h total_size) (RAllocate total_size) in
        match alloc_result with
        | None => ret st
        | Some p =>
            if is_local_disk_replica replica
            then ret (st.1, st.2 ++ [MkDiskKeyOp i key (FilterQueryResult q replica)
                                       (p, total_size) total_size])
            else ret (st.1 ++ [MkKeyOp i key (FilterQueryResult q replica) (p, total_size)
                                 (allocateSlices replica p)], st.2)
        end
  end.

(** A result of the batch read: the handle moves to [final_results], or stays in
    its operation (the second component). *)
Definition deliver_key (st : list (option BufferHandle) * list BufferHandle)
    (x : KeyOp * expected unit) : list (option BufferHandle) * list BufferHandle :=
  match x.2 with
  | Ok _ => (<[ko_index x.1 := Some (ko_handle x.1)]> st.1, st.2)
  | Err _ => (st.1, st.2 ++ [ko_handle x.1])
  end.

(** Memory, NoF and file replicas. *)
Definition read_key_ops (c : Client) (ops : list KeyOp) (results : list (option BufferHandle))
  : rio (list (option BufferHandle) * list BufferHandle) :=
  if bool_decide (ops = []) then ret (results, [])
  else
    let slices := fold_left (λ m op, <[ko_key op := ko_slices op]> m) ops ∅ in
    let! rs := on_client (BatchGet_query c (iteration _) (ko_key <$> ops) (ko_query_result <$> ops)
                            slices false) in
    ret (fold_left deliver_key (zip ops rs) (results, [])).

(** [offload_objects] and [disk_key_to_idx]. *)
Definition group_disk_op (st : offload_map * gmap string nat) (x : nat * DiskKeyOp)
  : offload_map * gmap string nat :=
  let '(idx, op) := x in
  match List.find is_local_disk_replica (replicas (do_query_result op)) with
  | None => st
  | Some replica =>
      (add_offload (local_disk_endpoint replica) (do_key op)
         [MkSlice (do_handle op).1 (do_total_size op)] st.1,
       <[do_key op := idx]> st.2)
  end.

(** What a handle that was moved away still shows as pointer and size. *)
Context (moved_from : BufferHandle).

(** [final_results], and the handles that are still in [disk_ops]. *)
Abbreviation disk_results := (list (option BufferHandle) * list (option BufferHandle))%type.

(** A key of a successful read: the handle moves from its operation to the
    result, and a handle the result held before is destroyed. *)
Definition deliver_disk_key (ops : list DiskKeyOp) (key_to_idx : gmap string nat)
    (st : disk_results) (key : string) : rio disk_results :=
  match key_to_idx !! key with
  | None => ret st
  | Some idx =>
      match ops !! idx with
      | None => ret st
      | Some op =>
          (match st.1 !! do_index op with
           | Some (Some old) => free_handle old.1
           | _ => ret tt
           end) ;;;
          let handle := match st.2 !! idx with Some (Some h) => h | _ => moved_from end in
          ret (<[do_index op := Some handle]> st.1, <[idx := None]> st.2)
      end
  end.

Definition read_disk_endpoint (ops : list DiskKeyOp) (key_to_idx : gmap string nat)
    (st : disk_results) (x : string * gmap string (list Slice)) : rio disk_results :=
  let objects := iteration _ x.2 in
  if bool_decide (objects = []) then ret st
  else
    let! read_result := batch_get_into_offload_object_internal x.1 objects in
    match read_result with
    | Err _ => ret st
    | Ok _ => mfold (deliver_disk_key ops key_to_idx) st objects.*1
    end.

Definition read_disk_ops (ops : list DiskKeyOp) (results : list (option BufferHandle))
  : rio disk_results :=
  if bool_decide (ops = []) then ret (results, [])
  else
    let '(offload_objects, key_to_idx) := fold_left group_disk_op (indexed ops) (∅, ∅) in
    mfold (read_disk_endpoint ops key_to_idx) (results, Some ∘ do_handle <$> ops)
      (iteration _ offload_objects).

Definition batch_get_buffer_internal (rc : RealClient) (keys : list string)
    (allocator : option Allocator) : rio (list (option BufferHandle)) :=
  let none := replicate (length keys) None in
  match client_ rc with
  | None => ret none
  | Some c =>
      if bool_decide (keys = []) then ret none
      else
        let! query_results := on_client (BatchQuery keys) in
        let! eps := GetLocalEndpoints in
        (* set-up creates [client_buffer_allocator_] together with [client_] *)
        let allocate := match allocator with
                        | Some a => a
                        | None => default (λ _ _, None) (client_buffer_allocator_ rc)
                        end in
        let! ops := mfold (prepare_buffer eps allocate) ([], [])
                      (indexed (zip keys query_results)) in
        let! memory := read_key_ops c ops.1 none in
        let! disk := read_disk_ops ops.2 memory.1 in
        (* disk_ops and valid_ops go out of scope *)
        mmap (λ h, free_handle h.1) (omap id disk.2) ;;;
        mmap (λ h, free_handle h.1) memory.2 ;;;
        ret disk.1
  end.

Definition batch_get_buffer (rc : RealClient) (keys : list string)
  : rio (list (option BufferHandle)) := batch_get_buffer_internal rc keys None.

(** ** Blocks of the hot cache *)

(** [HotCache::GetBlockOffset] of an address; [SIZE_MAX] when it is outside. *)
Context (GetBlockOffset : Z → Z).

(** [client_ && client_->IsHotCacheEnabled()] *)
Definition hot_cache_enabled (rc : RealClient) : bool :=
  match client_ rc with Some c => has_hot_cache c | None => false end.

Definition acquire_hot_key (key : ObjectKey) : rio (expected (Z * Z)) :=
  let! blk := on_client (cache_get key) in
  match blk with
  | None => ret (Err OBJECT_NOT_FOUND)
  | Some blk =>
      let offset := GetBlockOffset (hot_addr blk) in
      if offset =? u64_max
      then on_client (cache_do (ReleaseHotKey key)) ;;; ret (Err INTERNAL_ERROR)
      else ret (Ok (offset, hot_size blk))
  end.

Definition acquire_hot_cache (rc : RealClient) (key : ObjectKey) : rio (expected (Z * Z)) :=
  if negb (hot_cache_enabled rc) then ret (Err INVALID_PARAMS) else acquire_hot_key key.

Definition release_hot_cache (rc : RealClient) (key : ObjectKey) : rio (expected unit) :=
  if negb (hot_cache_enabled rc) then ret (Err INVALID_PARAMS)
  else on_client (cache_do (ReleaseHotKey key)) ;;; ret (Ok tt).

Definition batch_acquire_hot_cache (rc : RealClient) (keys : list ObjectKey)
  : rio (list (expected (Z * Z))) :=
  if negb (hot_cache_enabled rc) then ret (replicate (length keys) (Err INVALID_PARAMS))
  else mmap acquire_hot_key keys.

Definition batch_release_hot_cache (rc : RealClient) (keys : list ObjectKey)
  : rio (expected unit) :=
  if negb (hot_cache_enabled rc) then ret (Err INVALID_PARAMS)
  else mmap (λ key, on_client (cache_do (ReleaseHotKey key))) keys ;;; ret (Ok tt).

(** ** Buffers of dummy clients *)

Abbreviation contexts := (gmap UUID ShmContext).

(** [context.active_handles[dummy_addr] = handle]: a handle that was there is
    destroyed. *)
Definition keep_handle (hs : gmap Z BufferHandle) (dummy_addr : Z) (handle : BufferHandle)
  : rio (gmap Z BufferHandle) :=
  (match hs !! dummy_addr with Some old => free_handle old.1 | None => ret tt end) ;;;
  ret (<[dummy_addr := handle]> hs).

(** Hand [handle] to the dummy client, or destroy it. *)
Definition publish_handle (context : ShmContext) (handle : BufferHandle)
  : rio (expected (Z * Z) * ShmContext) :=
  match dummy_address (mapped_shms context) handle.1 with
  | Some dummy_addr =>
      let! hs := keep_handle (active_handles context) dummy_addr handle in
      ret (Ok (dummy_addr, handle.2), with_handles context hs)
  | None => free_handle handle.1 ;;; ret (Err INTERNAL_ERROR, context)
  end.

Definition acquire_buffer_dummy (rc : RealClient) (key : ObjectKey) (client_id : UUID)
    (ctxs : contexts) : rio (expected (Z * Z) * contexts) :=
  match ctxs !! client_id with
  | None => ret (Err INVALID_PARAMS, ctxs)
  | Some context =>
      let! buffer_handle := get_buffer_internal rc key (client_buffer_allocator context) in
      match buffer_handle with
      | None => ret (Err OBJECT_NOT_FOUND, ctxs)
      | Some handle =>
          let! r := publish_handle context handle in
          ret (r.1, <[client_id := r.2]> ctxs)
      end
  end.

Definition release_buffer_dummy (dummy_addr : Z) (client_id : UUID) (ctxs : contexts)
  : rio (expected unit * contexts) :=
  match ctxs !! client_id with
  | None => ret (Err INVALID_PARAMS, ctxs)
  | Some context =>
      (match active_handles context !! dummy_addr with
       | Some handle => free_handle handle.1
       | None => ret tt
       end) ;;;
      ret (Ok tt, <[client_id := with_handles context (delete dummy_addr (active_handles context))]>
                    ctxs)
  end.

(** [shm_contexts_.erase] when a client is unmapped: its handles are destroyed. *)
Definition erase_context (client_id : UUID) (ctxs : contexts) : rio contexts :=
  match ctxs !! client_id with
  | None => ret ctxs
  | Some context =>
      mmap (λ h, free_handle h.1) (map_to_list (active_handles context)).*2 ;;;
      ret (delete client_id ctxs)
  end.

(** One position of [batch_acquire_buffer_dummy]. *)
Definition publish_result (context : ShmContext) (handle : option BufferHandle)
  : rio (ShmContext * expected (Z * Z)) :=
  match handle with
  | None => ret (context, Err OBJECT_NOT_FOUND)
  | Some handle =>
      let! r := publish_handle context handle in ret (r.2, r.1)
  end.

(** The part after the lock is taken again. *)
Definition publish_handles (client_id : UUID) (handles : list (option BufferHandle))
    (ctxs : contexts) : rio (list (expected (Z * Z)) * contexts) :=
  match ctxs !! client_id with
  | None =>
      mmap (λ h, free_handle h.1) (omap id handles) ;;;
      ret (replicate (length handles) (Err INVALID_PARAMS), ctxs)
  | Some context =>
      let! r := mscan publish_result context handles in
      ret (r.2, <[client_id := r.1]> ctxs)
  end.

(** [interfere] is what other threads do to the contexts while the lock is
    released for the reads. *)
Definition batch_acquire_buffer_dummy (rc : RealClient) (keys : list ObjectKey) (client_id : UUID)
    (interfere : contexts → contexts) (ctxs : contexts)
  : rio (list (expected (Z * Z)) * contexts) :=
  match ctxs !! client_id with
  | None => ret (replicate (length keys) (Err INVALID_PARAMS), ctxs)
  | Some context =>
      let! handles := batch_get_buffer_internal rc keys (client_buffer_allocator context) in
      publish_handles client_id handles (interfere ctxs)
  end.

(** ** Queries *)

Definition get_replica_desc (key : ObjectKey) : rio (list Descriptor) :=
  let! query_result := on_client (Query key) in
  ret (match query_result with Ok q => replicas q | Err _ => [] end).

Definition batch_get_replica_desc (keys : list ObjectKey)
  : rio (gmap string (list Descriptor)) :=
  let! query_results := on_client (BatchQuery keys) in
  ret (if negb (length query_results =? length keys)%nat then ∅
       else fold_left (λ m kq, match kq.2 with
                               | Ok q => <[kq.1 := replicas q]> m
                               | Err _ => m
                               end) (zip keys query_results) ∅).

(** ** Query results for dummy clients

    A [CachedQueryResultResponse] is the response of the master with the time the
    lease still has. *)

Definition remaining_lease_ttl_ms (query_result : QueryResult) (now : Z) : Z :=
  if IsLeaseExpired query_result now then 0 else u64 (lease_timeout query_result - now).

Definition to_cached_query_result_response (query_result : expected QueryResult) (now : Z)
  : expected GetReplicaListResponse :=
  match query_result with
  | Err e => Err e
  | Ok q =>
      if IsLeaseExpired q now then Err OBJECT_NOT_FOUND
      else Ok (MkReplicaList (replicas q) (remaining_lease_ttl_ms q now))
  end.

Definition from_cached_query_result_response (cached_result : expected GetReplicaListResponse)
    (now : Z) : expected QueryResult :=
  result_map (λ r, MkQueryResult (rl_replicas r) (now + lease_ttl_ms r)) cached_result.

Definition batch_get_query_results (rc : RealClient) (keys : list ObjectKey)
  : rio (list (expected GetReplicaListResponse)) :=
  match client_ rc with
  | None => ret (replicate (length keys) (Err INVALID_PARAMS))
  | Some _ =>
      let! query_results := on_client (BatchQuery keys) in
      if negb (length query_results =? length keys)%nat
      then ret (replicate (length keys) (Err RPC_FAIL))
      else
        let! now := on_client clock_now in
        ret ((λ q, to_cached_query_result_response q now) <$> query_results)
  end.

(** ** Requests of peers for objects on this client's SSD

    [file_storage_->BatchGet], with the address and the time the answer names. *)

Definition batch_get_offload_object
    (BatchGet : list string → list Z → rio (expected (Z * list Z)))
    (endpoint : string) (gc_ttl_ms : Z) (keys : list string) (sizes : list Z)
  : rio (expected OffloadResponse) :=
  let! result := BatchGet keys sizes in
  ret (result_map (λ r, MkOffload r.1 r.2 endpoint gc_ttl_ms) result).

Definition release_offload_buffer (ReleaseBuffer : Z → rio bool) (has_file_storage : bool)
    (batch_id : Z) : rio bool :=
  if negb has_file_storage then ret false else ReleaseBuffer batch_id.
End Buffers.

(** ** Existence of objects *)

Section Existence.
(** [master_client_.ExistKey] and [BatchExistKey]. *)
Context (ExistKey : ObjectKey → rio (expected bool)).
Context (BatchExistKey : list ObjectKey → rio (list (expected bool))).
Context (toInt : ErrorCode → Z).

Definition IsExist (key : ObjectKey) : rio (expected bool) := ExistKey key.

Definition BatchIsExist (keys : list ObjectKey) : rio (list (expected bool)) :=
  let! response := BatchExistKey keys in
  ret (if negb (length response =? length keys)%nat
       then replicate (length keys) (Err RPC_FAIL) else response).

Definition isExist_internal (rc : RealClient) (key : ObjectKey) : rio (expected bool) :=
  match client_ rc with None => ret (Err INVALID_PARAMS) | Some _ => IsExist key end.

Definition batchIsExist_internal (rc : RealClient) (keys : list ObjectKey)
  : rio (list (expected bool)) :=
  match client_ rc with
  | None => ret (replicate (length keys) (Err INVALID_PARAMS))
  | Some _ => if bool_decide (keys = []) then ret [] else BatchIsExist keys
  end.

(** 1, 0, or the number of the error. *)
Definition exist_code (r : expected bool) : Z :=
  match r with Ok b => if b then 1 else 0 | Err e => toInt e end.

Definition isExist (rc : RealClient) (key : ObjectKey) : rio Z :=
  let! result := isExist_internal rc key in ret (exist_code result).

Definition batchIsExist (rc : RealClient) (keys : list ObjectKey) : rio (list Z) :=
  let! results := batchIsExist_internal rc keys in ret (exist_code <$> results).
End Existence.
