(* ===== verification/RealBuffersSpec.v ===== *)
(** * What the buffers handed out guarantee

    Every buffer allocated for a caller is freed or has an owner: the handle that
    was returned, or a dummy client that has not released it yet.  A returned
    buffer holds the whole object, and the address a dummy client gets translates
    back to the buffer. *)

From S2P Require Import Prelude CxxString StoreTypes ReplicaPolicy Samples PutPath BatchPut GetPath GetSpec Accounting DummyMap RangedRead RangedPrepare RangedReadSpec RangedDelivery RealWrite RealGetInto RealGetSafe RealGetSound RealBuffers.
From stdpp Require Import base strings list sets gmap fin_maps.
From Stdlib Require Import ZArith Lia.

#[local] Open Scope Z_scope.
#[local] Set Default Proof Using "Type".

(** A buffer of an allocator, by its address. *)
#[export] Instance buffer_resources : Resources real_event Z := {|
  acquires e := match e with RAllocate _ (Some p) => [p] | _ => [] end;
  release_of e := match e with RFree p => Some (p, 0) | _ => None end |}.

(** The buffers of a list of results. *)
Definition held (results : list (option BufferHandle)) : list Z := (omap id results).*1.

Lemma held_none n : held (replicate n None) = [].
Proof. induction n as [|n IH]; [done|]. exact IH. Qed.

Lemma held_set results i (h : BufferHandle) :
  results !! i = Some None → held (<[i := Some h]> results) ≡ₚ h.1 :: held results.
Proof.
  revert i. induction results as [|o results IH]; intros [|i] Hi; [done..| |].
  - cbn in Hi. injection Hi as ->. done.
  - cbn in Hi. specialize (IH i Hi). unfold held in *. cbn [omap list_omap insert list_insert].
    destruct o as [o|]; cbn; [|done]. rewrite IH. apply perm_swap.
Qed.

Lemma held_clear results i (h : BufferHandle) :
  results !! i = Some (Some h) → h.1 :: held (<[i := None]> results) ≡ₚ held results.
Proof.
  intros Hi. assert (Hlt : (i < length results)%nat) by (by eapply lookup_lt_Some).
  rewrite <- (held_set (<[i := None]> results) i h) by (by rewrite list_lookup_insert_eq).
  rewrite list_insert_insert_eq. by rewrite list_insert_id.
Qed.

Section Accounts.
Context `{!MasterClient, !TransferSubmitter, !HotCache, !StorageBackend, !Clock, !RealServices}.

(** Calls of the store client and of peers leave the buffers alone. *)
Lemma on_client_owns {A} l (m : io A) : owns l (on_client m) (λ _, l).
Proof.
  intros h v evs E. apply lift_inv in E as (evs' & _ & ->). clear h v.
  assert (Hn : ∀ f : real_event → list Z, (∀ e, f (RClient e) = []) →
    (RClient <$> evs') ≫= f = []).
  { intros f Hf. induction evs' as [|e evs' IH]; [done|]. cbn. by rewrite Hf, IH. }
  intros r. unfold times. rewrite !Hn by done. rewrite count_nil. lia.
Qed.

Lemma free_owns p : owns [p] (free_handle p) (λ _, []).
Proof. unfold free_handle. owned_call. Qed.

Lemma free_handles_owns (hs : list BufferHandle) :
  owns hs.*1 (mmap (λ h, free_handle h.1) hs) (λ _, []).
Proof.
  replace (hs.*1) with (hs ≫= λ h, [h.1]).
  - apply (owns_mmap (λ h : BufferHandle, [h.1])). intros h. apply free_owns.
  - induction hs as [|h hs IH]; [done|]. cbn. by rewrite IH.
Qed.

Lemma free_more hs l :
  owns (l ++ hs.*1) (mmap (λ h : BufferHandle, free_handle h.1) hs) (λ _, l).
Proof. apply owns_released, free_handles_owns. Qed.

Lemma offload_owns l addr objects :
  owns l (batch_get_into_offload_object_internal addr objects) (λ _, l).
Proof.
  unfold batch_get_into_offload_object_internal, Client_BatchGetOffloadObject.
  repeat match goal with
  | |- owns _ (bind _ _) _ => apply owns_seq with (mid := λ _, l); [|intros]
  | |- owns _ (on_client _) _ => apply on_client_owns
  | |- owns _ (call _ _) _ => apply owns_call; intros ? ?; cbn; rewrite ?holds_nil; lia
  | |- owns _ (ret _) _ => by apply owns_ret
  | |- owns _ (match ?x with _ => _ end) _ => destruct x
  | |- owns _ (if ?x then _ else _) _ => destruct x
  end.
Qed.

Lemma fill_owns l c key q r n p : owns l (fill_buffer c key q r n p) (λ _, l).
Proof. unfold fill_buffer. destruct (data r); (apply on_client_owns || apply offload_owns). Qed.

Lemma allocate_owns l (allocate : Allocator) n :
  owns l (call (λ h, allocate h n) (RAllocate n)) (λ o, of_option id o ++ l).
Proof.
  apply owns_call. intros [p|] r; cbn; unfold releases, refuses; cbn; rewrite ?holds_cons, ?holds_nil; lia.
Qed.

Lemma endpoints_owns l : owns l GetLocalEndpoints (λ _, l).
Proof. intros h v evs [= <- <-]. apply accounts_nil. Qed.

(** ** [get_buffer] *)

Lemma get_buffer_owns rc key allocator l :
  owns l (get_buffer_internal rc key allocator) (λ o, of_option fst o ++ l).
Proof.
  unfold get_buffer_internal. destruct (client_ rc) as [c|]; [|by apply owns_ret].
  destruct allocator as [allocate|]; [|by apply owns_ret].
  eapply owns_seq; [apply on_client_owns|]. intros qr. cbn beta.
  eapply owns_seq; [apply endpoints_owns|]. intros eps. cbn beta.
  destruct (choose_replica eps qr) as [[q r]|e]; [|by apply owns_ret].
  destruct (_ =? 0); [by apply owns_ret|].
  eapply owns_seq; [apply allocate_owns|]. intros [p|]; cbn; [|by apply owns_ret].
  eapply owns_seq; [apply fill_owns|]. intros [u|e]; cbn beta iota; [by apply owns_ret|].
  eapply owns_seq with (mid := λ _, l); [|intros u; by apply owns_ret].
  eapply owns_pre; [apply (owns_released [p] l), free_owns|]. apply Permutation_app_comm.
Qed.

(** ** [batch_get_buffer]: memory, NoF and file replicas *)

Lemma owns_mfold {S A} (res : S → list Z) (body : S → A → rio S) l st :
  (∀ s x, x ∈ l → owns (res s) (body s x) res) → owns (res st) (mfold body st l) res.
Proof.
  revert st. induction l as [|x l IH]; intros st Hl; cbn [mfold]; [by apply owns_ret|].
  eapply owns_seq; [apply Hl; by left|]. intros s. apply IH. intros s' y Hy. apply Hl. by right.
Qed.

Definition op_buffers (ops : list KeyOp * list DiskKeyOp) : list Z :=
  ((λ op, (ko_handle op).1) <$> ops.1) ++ ((λ op, (do_handle op).1) <$> ops.2).

Definition op_slots (ops : list KeyOp * list DiskKeyOp) : list (nat * string) :=
  ((λ op, (ko_index op, ko_key op)) <$> ops.1) ++ ((λ op, (do_index op, do_key op)) <$> ops.2).

Lemma prepare_owns eps allocate ix l ops :
  owns (op_buffers ops ++ l) (prepare_buffer eps allocate ops ix) (λ ops, op_buffers ops ++ l).
Proof.
  destruct ix as [i [key qr]], ops as [kops dops]. unfold prepare_buffer.
  destruct (choose_replica eps qr) as [[q r]|e]; [|by apply owns_ret].
  destruct (_ =? 0); [by apply owns_ret|].
  eapply owns_seq; [apply allocate_owns|]. intros [p|]; cbn; [|by apply owns_ret].
  destruct (is_local_disk_replica r); apply owns_ret; unfold op_buffers; cbn;
    rewrite fmap_app; cbn; solve_Permutation.
Qed.

(** Every operation has a position of its own. *)
Lemma prepare_slots eps allocate (keys : list string) (qs : list (expected QueryResult)) h ops evs :
  mfold (prepare_buffer eps allocate) ([], []) (indexed (zip keys qs)) h = (ops, evs) →
  ∃ slots, op_slots ops ≡ₚ slots ∧ slots `sublist_of` ((λ x, (x.1, x.2.1)) <$> indexed (zip keys qs)).
Proof.
  apply (mfold_prefix _ (λ before ops _, ∃ slots, op_slots ops ≡ₚ slots ∧
    slots `sublist_of` ((λ x, (x.1, x.2.1)) <$> before))).
  { by exists []. }
  intros before [i [key qr]] todo [kops dops] e h1 ops' e' _ (slots & Hs & Hsub) E.
  assert (Hskip : ∃ slots, op_slots (kops, dops) ≡ₚ slots ∧
    slots `sublist_of` ((λ x : nat * (string * expected QueryResult), (x.1, x.2.1)) <$>
                          before ++ [(i, (key, qr))])).
  { exists slots. split; [done|]. rewrite fmap_app. by apply sublist_inserts_r. }
  unfold prepare_buffer in E.
  destruct (choose_replica eps qr) as [[q r]|er]; [|by apply ret_inv in E as [-> _]].
  destruct (_ =? 0); [by apply ret_inv in E as [-> _]|].
  apply bind_inv in E as (o & ? & ? & _ & E & _). destruct o as [p|]; [|by apply ret_inv in E as [-> _]].
  exists (slots ++ [(i, key)]). rewrite fmap_app. cbn [fmap list_fmap fst snd].
  split; [|by apply sublist_app].
  destruct (is_local_disk_replica r); apply ret_inv in E as [-> _]; rewrite <- Hs; unfold op_slots;
    cbn; rewrite fmap_app; cbn; solve_Permutation.
Qed.

Lemma deliver_keys_held ops : ∀ (rs : list (expected unit)) results acc,
  length rs = length ops → NoDup (ko_index <$> ops) →
  (∀ op, op ∈ ops → results !! ko_index op = Some None) →
  let st := fold_left deliver_key (zip ops rs) (results, acc) in
  held st.1 ++ st.2.*1 ≡ₚ held results ++ acc.*1 ++ ((λ op, (ko_handle op).1) <$> ops) ∧
  (∀ j, j ∉ ko_index <$> ops → st.1 !! j = results !! j) ∧ length st.1 = length results.
Proof.
  induction ops as [|op ops IH]; intros rs results acc Hl Hnd Hnone; destruct rs as [|r rs]; try done.
  { cbn. rewrite app_nil_r. done. }
  cbn [zip zip_with fold_left fmap list_fmap]. apply NoDup_cons in Hnd as [Hnew Hnd].
  injection Hl as Hl.
  destruct r as [u|e]; cbn [deliver_key fst snd].
  - destruct (IH rs (<[ko_index op := Some (ko_handle op)]> results) acc Hl Hnd) as (Hh & Ho & Hle).
    { intros op' Hop'. rewrite list_lookup_insert_ne; [apply Hnone; by right|].
      intros Heq. apply Hnew. rewrite Heq. by apply list_elem_of_fmap_2. }
    split_and!.
    + rewrite Hh, (held_set results (ko_index op)) by (apply Hnone; by left). solve_Permutation.
    + intros j Hj. apply not_elem_of_cons in Hj as [Hj1 Hj2]. rewrite Ho by done.
      by rewrite list_lookup_insert_ne.
    + by rewrite Hle, length_insert.
  - destruct (IH rs results (acc ++ [ko_handle op]) Hl Hnd) as (Hh & Ho & Hle).
    { intros op' Hop'. apply Hnone. by right. }
    split_and!; [|intros j Hj; apply not_elem_of_cons in Hj as [_ Hj]; by apply Ho|done].
    rewrite Hh, fmap_app. cbn. solve_Permutation.
Qed.

Lemma slots_nodup (keys : list string) (qs : list (expected QueryResult)) slots :
  NoDup keys → slots `sublist_of` ((λ x, (x.1, x.2.1)) <$> indexed (zip keys qs)) →
  NoDup slots.*1 ∧ NoDup slots.*2 ∧ ∀ i key, (i, key) ∈ slots → keys !! i = Some key.
Proof.
  intros Hnd Hsub. set (all := (λ x : nat * (string * expected QueryResult), (x.1, x.2.1)) <$>
                                 indexed (zip keys qs)) in *.
  assert (Hall : ∀ i key, (i, key) ∈ all → keys !! i = Some key).
  { intros i key ([j [k q]] & [= -> ->] & Hin)%list_elem_of_fmap.
    apply elem_of_indexed, lookup_zip_Some in Hin. tauto. }
  assert (Hset : ∀ i key, (i, key) ∈ slots → keys !! i = Some key).
  { intros i key Hin. apply Hall. by eapply elem_of_sublist. }
  assert (Hns : NoDup slots).
  { eapply sublist_NoDup; [|exact Hsub]. apply NoDup_alt. intros i j x. unfold all.
    rewrite !list_lookup_fmap, !lookup_indexed. destruct (zip keys qs !! i), (zip keys qs !! j);
      cbn; congruence. }
  split_and!; [| |done].
  - apply NoDup_fmap_2_strong; [|done]. intros [i k] [j k'] Hi Hj Heq. cbn in Heq. subst j.
    apply Hset in Hi. apply Hset in Hj. congruence.
  - apply NoDup_fmap_2_strong; [|done]. intros [i k] [j k'] Hi Hj Heq. cbn in Heq. subst k'.
    apply Hset in Hi. apply Hset in Hj. by rewrite (NoDup_lookup _ _ _ _ Hnd Hi Hj).
Qed.
Context (iteration : ∀ A : Type, gmap string A → list (string * A)).
Context (iteration_perm : ∀ A m, iteration A m ≡ₚ map_to_list m).
Context (moved_from : BufferHandle).

Lemma read_keys_owns c ops results l :
  NoDup (ko_index <$> ops) → (∀ op, op ∈ ops → results !! ko_index op = Some None) →
  owns (held results ++ ((λ op, (ko_handle op).1) <$> ops) ++ l)
    (read_key_ops iteration c ops results) (λ r, held r.1 ++ r.2.*1 ++ l).
Proof.
  intros Hnd Hnone. unfold read_key_ops. case_bool_decide as He; [subst; by apply owns_ret|].
  eapply owns_bind with (P := λ rs, length rs = length ops); [apply on_client_owns| |].
  { intros h rs evs E. eapply batch_get_query_reads in E as [Hl _];
      [by rewrite Hl, length_fmap|by rewrite !length_fmap]. }
  intros rs Hl. apply owns_ret.
  destruct (deliver_keys_held ops rs results [] Hl Hnd Hnone) as (Hh & _ & _).
  cbn [fmap list_fmap app] in Hh. by rewrite !app_assoc, Hh.
Qed.

(** The positions of other operations are left alone. *)
Lemma read_keys_others c ops results h st evs :
  NoDup (ko_index <$> ops) → (∀ op, op ∈ ops → results !! ko_index op = Some None) →
  read_key_ops iteration c ops results h = (st, evs) →
  length st.1 = length results ∧ ∀ j, j ∉ ko_index <$> ops → st.1 !! j = results !! j.
Proof.
  intros Hnd Hnone E. unfold read_key_ops in E.
  case_bool_decide as He; [by apply ret_inv in E as [-> _]|].
  apply bind_inv in E as (rs & e1 & e2 & E & [-> _]%ret_inv & _).
  eapply batch_get_query_reads in E as [Hl _]; [|by rewrite !length_fmap].
  rewrite length_fmap in Hl.
  by destruct (deliver_keys_held ops rs results [] Hl Hnd Hnone) as (_ & ? & ?).
Qed.

(** ** [batch_get_buffer]: replicas on the SSD of a peer *)

Definition endpoint_of (op : DiskKeyOp) : option string :=
  local_disk_endpoint <$> List.find is_local_disk_replica (replicas (do_query_result op)).

Section Disk.
Context (ops : list DiskKeyOp).
Context (indices_nodup : NoDup (do_index <$> ops)) (keys_nodup : NoDup (do_key <$> ops)).

Lemma same_key idx idx' op op' :
  ops !! idx = Some op → ops !! idx' = Some op' → do_key op = do_key op' → idx = idx'.
Proof using keys_nodup.
  intros Ho Ho' Hk. eapply NoDup_lookup; [exact keys_nodup| |].
  - by rewrite list_lookup_fmap, Ho.
  - rewrite list_lookup_fmap, Ho'. cbn. by rewrite Hk.
Qed.

(** The slices of a key are those of its operation. *)
Definition grouped (ep key : string) (ss : list Slice) : Prop :=
  ∃ idx op, ops !! idx = Some op ∧ do_key op = key ∧ endpoint_of op = Some ep ∧
            ss = [MkSlice (do_handle op).1 (do_total_size op)].

Lemma group_disk_spec :
  let m := fold_left group_disk_op (indexed ops) (∅, ∅) in
  (∀ ep objs key ss, m.1 !! ep = Some objs → objs !! key = Some ss → grouped ep key ss) ∧
  (∀ key idx, m.2 !! key = Some idx → ∃ op, ops !! idx = Some op ∧ do_key op = key).
Proof.
  apply (fold_left_prefix group_disk_op (λ _ m,
    (∀ ep objs key ss, m.1 !! ep = Some objs → objs !! key = Some ss → grouped ep key ss) ∧
    (∀ key idx, m.2 !! key = Some idx → ∃ op, ops !! idx = Some op ∧ do_key op = key))).
  { split; intros *; cbn; by rewrite lookup_empty. }
  intros before [idx op] todo [m1 m2] Hl [H1' H2']. cbn [fst snd] in *.
  assert (Hop : ops !! idx = Some op).
  { apply elem_of_indexed. rewrite Hl. apply elem_of_app. right. by left. }
  unfold group_disk_op. destruct (List.find _ _) as [r|] eqn:Hf; [|by split].
  assert (He : endpoint_of op = Some (local_disk_endpoint r)) by (unfold endpoint_of; by rewrite Hf).
  cbn [fst snd]. unfold add_offload. split.
  - intros ep objs key ss [[<- <-]|[_ Hep]]%lookup_insert_Some Hk; [|by eapply H1'].
    assert (Hold : default ∅ (m1 !! local_disk_endpoint r) !! key = Some ss →
      grouped (local_disk_endpoint r) key ss).
    { destruct (m1 !! local_disk_endpoint r) as [objs|] eqn:E; cbn; [by eapply H1'|].
      by rewrite lookup_empty. }
    unfold emplace in Hk. destruct (default ∅ (m1 !! local_disk_endpoint r) !! do_key op) eqn:Hd;
      [by apply Hold|].
    apply lookup_insert_Some in Hk as [[<- <-]|[_ Hk]]; [by exists idx, op|by apply Hold].
  - intros key i [[<- <-]|[_ Hk]]%lookup_insert_Some; [by exists op|by apply H2'].
Qed.

(** The operations of the keys that are still to come have their handles. *)
Definition untouched (todo : list string) (st : list (option BufferHandle) * list (option BufferHandle))
  : Prop :=
  ∀ idx op, ops !! idx = Some op → do_key op ∈ todo →
    st.1 !! do_index op = Some None ∧ st.2 !! idx = Some (Some (do_handle op)).

Definition owned_by (st : list (option BufferHandle) * list (option BufferHandle)) : list Z :=
  held st.1 ++ held st.2.

Lemma untouched_weaken todo todo' st : todo' ⊆ todo → untouched todo st → untouched todo' st.
Proof. intros Hs Hu idx op Ho Hk. apply (Hu idx op Ho). by apply Hs. Qed.

(** Results only appear, and come from the operations of the keys [ks]. *)
Definition moved (ks : list string) (st st' : list (option BufferHandle) * list (option BufferHandle))
  : Prop :=
  length st'.1 = length st.1 ∧
  ∀ i, st'.1 !! i = st.1 !! i ∨
    ∃ op, op ∈ ops ∧ do_key op ∈ ks ∧ do_index op = i ∧ st'.1 !! i = Some (Some (do_handle op)).

Lemma moved_refl ks st : moved ks st st.
Proof. split; [done|]. by left. Qed.

Lemma moved_trans ks ks' st st1 st2 : moved ks st st1 → moved ks' st1 st2 → moved (ks ++ ks') st st2.
Proof.
  intros [L1 M1] [L2 M2]. split; [congruence|]. intros i.
  destruct (M2 i) as [->|(op & Ho & Hk & Hi & Hr)].
  - destruct (M1 i) as [->|(op & Ho & Hk & Hi & Hr)]; [by left|]. right. exists op.
    split_and!; [done|apply elem_of_app; by left|done|done].
  - right. exists op. split_and!; [done|apply elem_of_app; by right|done|done].
Qed.

Lemma deliver_disk_key_run key_to_idx key rest st h st' evs :
  (∀ key idx, key_to_idx !! key = Some idx → ∃ op, ops !! idx = Some op ∧ do_key op = key) →
  key ∉ rest → untouched (key :: rest) st →
  deliver_disk_key moved_from ops key_to_idx st key h = (st', evs) →
  untouched rest st' ∧ evs = [] ∧ owned_by st' ≡ₚ owned_by st ∧ moved [key] st st'.
Proof using indices_nodup keys_nodup.
  intros Hidx Hnew Hu E. unfold deliver_disk_key in E.
  assert (Hrest : untouched rest st).
  { eapply untouched_weaken; [|exact Hu]. intros k Hk. by right. }
  destruct (key_to_idx !! key) as [idx|] eqn:Hk;
    [|apply ret_inv in E as [-> ->]; split_and!; [done..|apply moved_refl]].
  destruct (Hidx _ _ Hk) as (op & Hop & Hkey). rewrite Hop in E.
  destruct (Hu idx op Hop) as [Hres Hhan]; [rewrite Hkey; by left|]. rewrite Hres, Hhan in E.
  apply bind_inv in E as (u & e1 & e2 & [_ ->]%ret_inv & [-> ->]%ret_inv & ->).
  unfold owned_by. cbn [fst snd]. split_and!; [|done| |].
  - intros idx' op' Hop' Hin. destruct (Hrest idx' op' Hop' Hin) as [Hr Hh].
    assert (Hne : idx ≠ idx').
    { intros <-. rewrite Hop in Hop'. injection Hop' as <-. by rewrite Hkey in Hin. }
    cbn [fst snd]. rewrite !list_lookup_insert_ne; [done|done|]. intros Heq. apply Hne.
    eapply NoDup_lookup; [exact indices_nodup| |].
    + by rewrite list_lookup_fmap, Hop.
    + rewrite list_lookup_fmap, Hop'. cbn. by rewrite Heq.
  - rewrite (held_set st.1) by done. rewrite <- (held_clear st.2 idx _ Hhan). solve_Permutation.
  - split; cbn [fst]; [by rewrite length_insert|]. intros i.
    destruct (decide (do_index op = i)) as [<-|Hne]; [|left; by rewrite list_lookup_insert_ne].
    right. exists op. split_and!; [by eapply list_elem_of_lookup_2|rewrite Hkey; by left|done|].
    rewrite list_lookup_insert_eq; [done|]. by eapply lookup_lt_Some.
Qed.

Lemma deliver_disk_keys_run key_to_idx : ∀ ks rest st h st' evs,
  (∀ key idx, key_to_idx !! key = Some idx → ∃ op, ops !! idx = Some op ∧ do_key op = key) →
  NoDup (ks ++ rest) → untouched (ks ++ rest) st →
  mfold (deliver_disk_key moved_from ops key_to_idx) st ks h = (st', evs) →
  untouched rest st' ∧ evs = [] ∧ owned_by st' ≡ₚ owned_by st ∧ moved ks st st'.
Proof using indices_nodup keys_nodup.
  induction ks as [|k ks IH]; intros rest st h st' evs Hidx Hnd Hu E; cbn [mfold] in E.
  { apply ret_inv in E as [-> ->]. split_and!; [done..|apply moved_refl]. }
  apply NoDup_cons in Hnd as [Hk Hnd].
  apply bind_inv in E as (st1 & e1 & e2 & E1 & E2 & ->).
  apply (deliver_disk_key_run _ _ (ks ++ rest)) in E1 as (Hu1 & -> & Hp1 & Hl1); [|done..].
  apply (IH rest) in E2 as (Hu2 & -> & Hp2 & Hl2); [|done..].
  split_and!; [done|done|by rewrite Hp2|]. by apply (moved_trans [k] ks _ st1).
Qed.

Lemma read_endpoints_run key_to_idx : ∀ xs st h st' evs l,
  (∀ key idx, key_to_idx !! key = Some idx → ∃ op, ops !! idx = Some op ∧ do_key op = key) →
  NoDup (xs ≫= λ x, (iteration _ x.2).*1) → untouched (xs ≫= λ x, (iteration _ x.2).*1) st →
  mfold (read_disk_endpoint iteration moved_from ops key_to_idx) st xs h = (st', evs) →
  accounts (owned_by st ++ l) evs (owned_by st' ++ l) ∧
  ∃ ks, moved ks st st' ∧ ∀ key, key ∈ ks → ∃ x ss, x ∈ xs ∧ x.2 !! key = Some ss ∧
                                               fetched_with key ss evs.
Proof using indices_nodup keys_nodup iteration_perm.
  induction xs as [|x xs IH]; intros st h st' evs l Hidx Hnd Hu E; cbn [mfold] in E.
  { apply ret_inv in E as [-> ->]. split; [apply accounts_nil|]. exists [].
    split; [apply moved_refl|]. by intros key ?%elem_of_nil. }
  apply bind_inv in E as (st1 & e1 & e2 & E1 & E2 & ->). cbn [mbind list_bind] in Hnd, Hu.
  assert (Hstep : untouched (xs ≫= λ x, (iteration _ x.2).*1) st1 ∧
    accounts (owned_by st ++ l) e1 (owned_by st1 ++ l) ∧
    ∃ ks, moved ks st st1 ∧ ∀ key, key ∈ ks → ∃ ss, x.2 !! key = Some ss ∧ fetched_with key ss e1).
  { assert (Hskip : untouched (xs ≫= λ x, (iteration _ x.2).*1) st).
    { eapply untouched_weaken; [|exact Hu]. intros k Hk. apply elem_of_app. by right. }
    assert (Hnone : ∃ ks, moved ks st st ∧
      ∀ key, key ∈ ks → ∃ ss, x.2 !! key = Some ss ∧ fetched_with key ss e1).
    { exists []. split; [apply moved_refl|]. by intros key ?%elem_of_nil. }
    unfold read_disk_endpoint in E1.
    case_bool_decide; [apply ret_inv in E1 as [-> ->]; split_and!; [done|apply accounts_nil|done]|].
    apply bind_inv in E1 as (r & e3 & e4 & E3 & E4 & ->). pose proof E3 as E3'.
    apply (offload_owns (owned_by st ++ l)) in E3. destruct r as [u|er].
    - apply (deliver_disk_keys_run _ _ (xs ≫= λ x, (iteration _ x.2).*1)) in E4
        as (Hu1 & -> & Hp & Hm); [|done..]. rewrite app_nil_r.
      split_and!; [done|by rewrite Hp|]. eexists. split; [exact Hm|].
      intros key ([k ss] & -> & Hin)%list_elem_of_fmap. exists ss. split.
      + rewrite iteration_perm in Hin. by apply elem_of_map_to_list in Hin.
      + by eapply offload_with.
    - apply ret_inv in E4 as [-> ->]. rewrite app_nil_r in *. by split_and!. }
  destruct Hstep as (Hu1 & Ha & ks1 & Hm1 & Hf1). apply NoDup_app in Hnd as (_ & _ & Hnd).
  apply (IH _ _ _ _ l) in E2 as (Ha2 & ks2 & Hm2 & Hf2); [|done..].
  split; [by eapply accounts_app|]. exists (ks1 ++ ks2).
  split; [by eapply moved_trans|]. intros key [Hk|Hk]%elem_of_app.
  - destruct (Hf1 key Hk) as (ss & Hss & Hf). exists x, ss.
    split_and!; [by left|done|]. by apply (fetched_with_app _ _ []).
  - destruct (Hf2 key Hk) as (y & ss & Hy & Hss & Hf). exists y, ss.
    split_and!; [by right|done|]. rewrite <- (app_nil_r e2). by apply fetched_with_app.
Qed.
End Disk.

Lemma read_disk_ops_run ops results h st evs l :
  NoDup (do_index <$> ops) → NoDup (do_key <$> ops) →
  (∀ op, op ∈ ops → results !! do_index op = Some None) →
  read_disk_ops iteration moved_from ops results h = (st, evs) →
  accounts (held results ++ ((λ op, (do_handle op).1) <$> ops) ++ l) evs (owned_by st ++ l) ∧
  length st.1 = length results ∧
  ∀ i hd, st.1 !! i = Some (Some hd) → results !! i = Some (Some hd) ∨
    ∃ op, op ∈ ops ∧ do_index op = i ∧ do_handle op = hd ∧
          fetched_with (do_key op) [MkSlice hd.1 (do_total_size op)] evs.
Proof using iteration_perm.
  intros Hi Hk Hnone E. unfold read_disk_ops in E. case_bool_decide as He.
  { subst. apply ret_inv in E as [-> ->]. unfold owned_by. cbn. rewrite app_nil_r.
    split_and!; [apply accounts_nil|done|]. by left. }
  destruct (group_disk_spec ops) as [Hobj Hidx].
  destruct (fold_left group_disk_op (indexed ops) (∅, ∅)) as [m idx]. cbn [fst snd] in *.
  apply (read_endpoints_run ops Hi Hk idx _ _ _ _ _ l) in E as (Ha & ks & [Hl Hm] & Hf);
    [split_and!; [|exact Hl|]|done|..].
  - unfold owned_by in Ha at 1. cbn [fst snd] in Ha. rewrite <- app_assoc in Ha.
    replace (held (Some ∘ do_handle <$> ops)) with ((λ op, (do_handle op).1) <$> ops) in Ha; [done|].
    unfold held. clear. induction ops as [|op ops IH]; [done|]. cbn. by rewrite IH.
  - intros i hd Hhd. destruct (Hm i) as [Hs|(op & Hop & Hin & Hidx' & Hs)]; [left; cbn in Hs; congruence|].
    right. exists op. rewrite Hs in Hhd. injection Hhd as <-. split_and!; [done..|].
    destruct (Hf _ Hin) as ([ep objs] & ss & Hx & Hss & Hfe). rewrite iteration_perm in Hx.
    apply elem_of_map_to_list in Hx. destruct (Hobj _ _ _ _ Hx Hss) as (j & op' & Hj & Hkey & _ & ->).
    apply list_elem_of_lookup in Hop as [j' Hj'].
    assert (j' = j) as -> by (by eapply (same_key ops Hk)).
    rewrite Hj in Hj'. by injection Hj' as ->.
  - apply NoDup_bind.
    + intros [ep1 o1] [ep2 o2] key Hx1 Hx2 Hk1 Hk2. cbn [fst snd] in *.
      rewrite iteration_perm in Hx1. rewrite iteration_perm in Hx2.
      apply elem_of_map_to_list in Hx1. apply elem_of_map_to_list in Hx2.
      assert (Hm : ∀ o : gmap string (list Slice), key ∈ (iteration _ o).*1 → is_Some (o !! key)).
      { intros o ([k ss] & -> & Hin)%list_elem_of_fmap. rewrite iteration_perm in Hin.
        apply elem_of_map_to_list in Hin. by eexists. }
      destruct (Hm _ Hk1) as [s1 Hs1], (Hm _ Hk2) as [s2 Hs2].
      destruct (Hobj _ _ _ _ Hx1 Hs1) as (i1 & op1 & Ho1 & Hkey1 & He1 & _).
      destruct (Hobj _ _ _ _ Hx2 Hs2) as (i2 & op2 & Ho2 & Hkey2 & He2 & _).
      assert (i1 = i2) as <- by (eapply (same_key ops Hk); [exact Ho1|exact Ho2|congruence]).
      rewrite Ho1 in Ho2. injection Ho2 as <-. assert (ep1 = ep2) as <- by congruence. congruence.
    + intros [ep o] _. cbn. rewrite iteration_perm. apply NoDup_fst_map_to_list.
    + apply (NoDup_fmap_1 fst). rewrite iteration_perm. apply NoDup_fst_map_to_list.
  - intros i op Hop _. cbn [fst snd]. split; [apply Hnone; by eapply list_elem_of_lookup_2|].
    by rewrite list_lookup_fmap, Hop.
Qed.


Lemma op_slots_split ops :
  NoDup (op_slots ops).*1 → NoDup (op_slots ops).*2 →
  NoDup (ko_index <$> ops.1) ∧ NoDup (do_index <$> ops.2) ∧ NoDup (do_key <$> ops.2) ∧
  ∀ op, op ∈ ops.2 → do_index op ∉ ko_index <$> ops.1.
Proof.
  unfold op_slots. rewrite !fmap_app, <- !list_fmap_compose, !NoDup_app.
  intros (Hk & Hdis & Hd) (_ & _ & Hdk). split_and!; [done..|]. intros op Hop Hin.
  apply (Hdis (do_index op) Hin). by apply (list_elem_of_fmap_2 (λ op, do_index op)).
Qed.

(** Each handle that [batch_get_buffer] returns owns a buffer of its own, and the
    buffers of the keys it returns nothing for are freed. *)
Lemma batch_get_buffer_run rc keys allocator l h rs evs :
  NoDup keys → batch_get_buffer_internal iteration moved_from rc keys allocator h = (rs, evs) →
  accounts l evs (held rs ++ l) ∧ length rs = length keys.
Proof using iteration_perm.
  intros Hnd E. unfold batch_get_buffer_internal in E.
  assert (Hnothing : accounts l ([] : list real_event) (held (replicate (length keys) None) ++ l) ∧
    length (replicate (length keys) (None : option BufferHandle)) = length keys).
  { rewrite held_none, length_replicate. split; [apply accounts_nil|done]. }
  destruct (client_ rc) as [c|]; [|by apply ret_inv in E as [-> ->]].
  case_bool_decide; [by apply ret_inv in E as [-> ->]|].
  apply bind_inv in E as (qs & e1 & ? & E1 & E & ->). apply (on_client_owns l) in E1.
  apply bind_inv in E as (eps & e2 & ? & [= <- <-] & E & ->).
  apply bind_inv in E as (ops & e3 & ? & E3 & E & ->). pose proof E3 as E3'.
  apply prepare_slots in E3' as (slots & Hslots & Hsub).
  apply slots_nodup in Hsub as (Hn1 & Hn2 & Hkeys); [|done]. rewrite <- Hslots in Hn1, Hn2.
  apply op_slots_split in Hn1 as (Hk & Hd & Hdk & Hother); [|done].
  assert (Hnone : ∀ i key, (i, key) ∈ op_slots ops → (replicate (length keys) (None : option BufferHandle)) !! i = Some None).
  { intros i key Hin. rewrite Hslots in Hin. apply Hkeys in Hin. apply lookup_replicate_2.
    by eapply lookup_lt_Some. }
  assert (Hnk : ∀ op, op ∈ ops.1 → (replicate (length keys) (None : option BufferHandle)) !! ko_index op = Some None).
  { intros op Hop. apply (Hnone _ (ko_key op)). unfold op_slots. apply elem_of_app. left.
    by apply (list_elem_of_fmap_2 (λ op, (ko_index op, ko_key op))). }
  apply (owns_mfold (λ ops, op_buffers ops ++ l)) in E3; [|intros; apply prepare_owns].
  apply bind_inv in E as (memory & e4 & ? & E4 & E & ->). pose proof E4 as E4'.
  apply read_keys_others in E4' as [Hlen Hsame]; [|done..].
  apply (read_keys_owns _ _ _ (((λ op, (do_handle op).1) <$> ops.2) ++ l)) in E4; [|done..].
  apply bind_inv in E as (disk & e5 & ? & E5 & E & ->).
  apply (read_disk_ops_run _ _ _ _ _ (memory.2.*1 ++ l)) in E5 as (A5 & L5 & _); [|done|done|].
  2:{ intros op Hop. rewrite Hsame by (by apply Hother). apply (Hnone _ (do_key op)).
      unfold op_slots. apply elem_of_app. right.
      by apply (list_elem_of_fmap_2 (λ op, (do_index op, do_key op))). }
  apply bind_inv in E as (u1 & e6 & ? & E6 & E & ->).
  apply bind_inv in E as (u2 & e7 & ? & E7 & [-> ->]%ret_inv & ->).
  apply (free_more _ (held disk.1 ++ memory.2.*1 ++ l)) in E6.
  apply (free_more _ (held disk.1 ++ l)) in E7.
  split; [|by rewrite L5, Hlen, length_replicate].
  rewrite !app_nil_l, app_nil_r.
  eapply accounts_app; [exact E1|]. eapply accounts_app; [exact E3|].
  eapply accounts_app; [eapply accounts_proper; [| | |exact E4]; [|reflexivity|reflexivity];
    rewrite held_none; unfold op_buffers; solve_Permutation|].
  eapply accounts_app; [eapply accounts_proper; [| | |exact A5]; [|reflexivity|reflexivity];
    solve_Permutation|].
  eapply accounts_app; [eapply accounts_proper; [| | |exact E6]; [|reflexivity|reflexivity];
    unfold owned_by, held; solve_Permutation|].
  eapply accounts_proper; [| | |exact E7]; [|reflexivity|reflexivity]. solve_Permutation.
Qed.

(** ** Buffers of dummy clients *)

Definition handle_buffers (hs : gmap Z BufferHandle) : list Z := (map_to_list hs).*2.*1.

Definition context_buffers (ctxs : gmap UUID ShmContext) : list Z :=
  map_to_list ctxs ≫= λ x, handle_buffers (active_handles x.2).

Lemma context_buffers_insert ctxs id ctx :
  ctxs !! id = Some ctx → ∃ rest,
    context_buffers ctxs ≡ₚ handle_buffers (active_handles ctx) ++ rest ∧
    ∀ ctx', context_buffers (<[id := ctx']> ctxs) ≡ₚ handle_buffers (active_handles ctx') ++ rest.
Proof.
  intros Hid. exists (map_to_list (delete id ctxs) ≫= λ x, handle_buffers (active_handles x.2)).
  assert (H6 : ∀ ctx', context_buffers (<[id := ctx']> (delete id ctxs)) ≡ₚ
    handle_buffers (active_handles ctx') ++
    (map_to_list (delete id ctxs) ≫= λ x, handle_buffers (active_handles x.2))).
  { intros ctx'. unfold context_buffers. rewrite map_to_list_insert by apply lookup_delete_eq. done. }
  split; [|intros ctx'; by rewrite <- H6, insert_delete_eq].
  by rewrite <- H6, insert_delete_eq, insert_id.
Qed.

Lemma handle_buffers_insert hs a (hd : BufferHandle) :
  hs !! a = None → handle_buffers (<[a := hd]> hs) ≡ₚ hd.1 :: handle_buffers hs.
Proof. intros Ha. unfold handle_buffers. by rewrite map_to_list_insert. Qed.

Lemma handle_buffers_delete hs a (hd : BufferHandle) :
  hs !! a = Some hd → handle_buffers hs ≡ₚ hd.1 :: handle_buffers (delete a hs).
Proof.
  intros Ha. rewrite <- handle_buffers_insert by apply lookup_delete_eq.
  by rewrite insert_delete_id.
Qed.

Lemma keep_owns hs a (hd : BufferHandle) l :
  owns (handle_buffers hs ++ hd.1 :: l) (keep_handle hs a hd) (λ hs', handle_buffers hs' ++ l).
Proof.
  unfold keep_handle.
  eapply owns_seq with (mid := λ _, handle_buffers (delete a hs) ++ hd.1 :: l).
  - destruct (hs !! a) as [old|] eqn:Ha; [|apply owns_ret; by rewrite delete_id].
    eapply owns_pre; [apply (owns_released [old.1]), free_owns|].
    rewrite (handle_buffers_delete hs a old Ha). solve_Permutation.
  - intros []. apply owns_ret. rewrite <- insert_delete_eq.
    rewrite handle_buffers_insert by apply lookup_delete_eq. solve_Permutation.
Qed.

Lemma publish_owns ctx (hd : BufferHandle) l :
  owns (handle_buffers (active_handles ctx) ++ hd.1 :: l) (publish_handle ctx hd)
    (λ r, handle_buffers (active_handles r.2) ++ l).
Proof.
  unfold publish_handle. destruct (dummy_address _ _) as [a|].
  - eapply owns_seq; [apply keep_owns|]. intros hs. by apply owns_ret.
  - eapply owns_seq with (mid := λ _, handle_buffers (active_handles ctx) ++ l);
      [|intros []; by apply owns_ret].
    eapply owns_pre; [apply (owns_released [hd.1]), free_owns|]. solve_Permutation.
Qed.

Lemma acquire_owns rc key id ctxs l :
  owns (context_buffers ctxs ++ l) (acquire_buffer_dummy rc key id ctxs)
    (λ r, context_buffers r.2 ++ l).
Proof.
  unfold acquire_buffer_dummy. destruct (ctxs !! id) as [ctx|] eqn:Hid; [|by apply owns_ret].
  eapply owns_seq; [apply get_buffer_owns|]. intros [hd|]; cbn; [|by apply owns_ret].
  destruct (context_buffers_insert _ _ _ Hid) as (rest & Hold & Hnew).
  eapply owns_seq with (mid := λ r, handle_buffers (active_handles r.2) ++ rest ++ l).
  - eapply owns_pre; [apply publish_owns|]. rewrite Hold. solve_Permutation.
  - intros r. apply owns_ret. cbn. rewrite Hnew. solve_Permutation.
Qed.

Lemma release_owns a id ctxs l :
  owns (context_buffers ctxs ++ l) (release_buffer_dummy a id ctxs)
    (λ r, context_buffers r.2 ++ l).
Proof.
  unfold release_buffer_dummy. destruct (ctxs !! id) as [ctx|] eqn:Hid; [|by apply owns_ret].
  destruct (context_buffers_insert _ _ _ Hid) as (rest & Hold & Hnew).
  eapply owns_seq with (mid := λ _, handle_buffers (delete a (active_handles ctx)) ++ rest ++ l).
  - destruct (active_handles ctx !! a) as [hd|] eqn:Ha.
    + eapply owns_pre; [apply (owns_released [hd.1]), free_owns|].
      rewrite Hold, (handle_buffers_delete _ a hd Ha). solve_Permutation.
    + apply owns_ret. rewrite delete_id by done. rewrite Hold. solve_Permutation.
  - intros []. apply owns_ret. cbn [fst snd]. rewrite Hnew. cbn. solve_Permutation.
Qed.

Lemma publish_results_owns ctx handles l :
  owns (handle_buffers (active_handles ctx) ++ held handles ++ l) (mscan publish_result ctx handles)
    (λ r, handle_buffers (active_handles r.1) ++ l).
Proof.
  revert ctx. induction handles as [|o handles IH]; intros ctx; cbn [mscan]; [by apply owns_ret|].
  eapply owns_seq with (mid := λ r, handle_buffers (active_handles r.1) ++ held handles ++ l).
  - unfold publish_result. destruct o as [hd|]; [|by apply owns_ret].
    eapply owns_seq; [apply (publish_owns ctx hd (held handles ++ l))|]. intros r. by apply owns_ret.
  - intros r. eapply owns_seq; [apply IH|]. intros rs. by apply owns_ret.
Qed.

Lemma publish_all_owns id handles ctxs l :
  owns (context_buffers ctxs ++ held handles ++ l) (publish_handles id handles ctxs)
    (λ r, context_buffers r.2 ++ l).
Proof.
  unfold publish_handles. destruct (ctxs !! id) as [ctx|] eqn:Hid.
  - destruct (context_buffers_insert _ _ _ Hid) as (rest & Hold & Hnew).
    eapply owns_seq with (mid := λ r, handle_buffers (active_handles r.1) ++ rest ++ l).
    + eapply owns_pre; [apply publish_results_owns|]. rewrite Hold. solve_Permutation.
    + intros r. apply owns_ret. cbn. rewrite Hnew. solve_Permutation.
  - eapply owns_seq with (mid := λ _, context_buffers ctxs ++ l); [|intros u; by apply owns_ret].
    eapply owns_pre; [apply free_more|]. unfold held. solve_Permutation.
Qed.

(** The buffers of one client and those of the others. *)
Lemma context_buffers_delete ctxs id :
  context_buffers ctxs ≡ₚ handle_buffers (default ∅ (active_handles <$> ctxs !! id)) ++
                          context_buffers (delete id ctxs).
Proof.
  destruct (ctxs !! id) as [ctx|] eqn:Hid; cbn; [|by rewrite delete_id].
  rewrite <- (insert_delete_id ctxs id ctx Hid) at 1. unfold context_buffers.
  by rewrite map_to_list_insert by apply lookup_delete_eq.
Qed.

Lemma context_buffers_same ctxs id ctx :
  active_handles ctx = default ∅ (active_handles <$> ctxs !! id) →
  context_buffers (<[id := ctx]> ctxs) ≡ₚ context_buffers ctxs.
Proof.
  intros Hs. rewrite (context_buffers_delete (<[id := ctx]> ctxs) id), (context_buffers_delete ctxs id).
  by rewrite lookup_insert_eq, delete_insert_eq, <- Hs.
Qed.

Lemma erase_owns id ctxs l :
  owns (context_buffers ctxs ++ l) (erase_context id ctxs) (λ ctxs', context_buffers ctxs' ++ l).
Proof.
  unfold erase_context. pose proof (context_buffers_delete ctxs id) as Hd.
  destruct (ctxs !! id) as [ctx|]; [|by apply owns_ret]. cbn in Hd.
  eapply owns_seq with (mid := λ _, context_buffers (delete id ctxs) ++ l);
    [|intros u; by apply owns_ret].
  eapply owns_pre; [apply free_more|]. rewrite Hd. unfold handle_buffers. solve_Permutation.
Qed.

(** Requests of dummy clients for buffers, in any order.  A batched request takes
    two steps, since other requests can run while it reads: its handles are
    [pending] in between. *)
Inductive buffer_life (rc : RealClient)
  : list real_event → gmap UUID ShmContext → list (UUID * list (option BufferHandle)) → Prop :=
| bl_start ctxs : context_buffers ctxs = [] → buffer_life rc [] ctxs []
| bl_acquire evs ctxs pending key id h r ctxs' e :
    buffer_life rc evs ctxs pending →
    acquire_buffer_dummy rc key id ctxs h = ((r, ctxs'), e) →
    buffer_life rc (evs ++ e) ctxs' pending
| bl_release evs ctxs pending a id h r ctxs' e :
    buffer_life rc evs ctxs pending →
    release_buffer_dummy a id ctxs h = ((r, ctxs'), e) →
    buffer_life rc (evs ++ e) ctxs' pending
| bl_batch_read evs ctxs pending keys id ctx h handles e :
    buffer_life rc evs ctxs pending → NoDup keys → ctxs !! id = Some ctx →
    batch_get_buffer_internal iteration moved_from rc keys (client_buffer_allocator ctx) h
      = (handles, e) →
    buffer_life rc (evs ++ e) ctxs ((id, handles) :: pending)
| bl_batch_publish evs ctxs before id handles after h r ctxs' e :
    buffer_life rc evs ctxs (before ++ (id, handles) :: after) →
    publish_handles id handles ctxs h = ((r, ctxs'), e) →
    buffer_life rc (evs ++ e) ctxs' (before ++ after)
(* the client is unmapped, by itself or because it expired *)
| bl_expire evs ctxs pending id h ctxs' e :
    buffer_life rc evs ctxs pending → erase_context id ctxs h = (ctxs', e) →
    buffer_life rc (evs ++ e) ctxs' pending
(* a client comes, or its mappings change *)
| bl_map evs ctxs pending id ctx :
    buffer_life rc evs ctxs pending →
    active_handles ctx = default ∅ (active_handles <$> ctxs !! id) →
    buffer_life rc evs (<[id := ctx]> ctxs) pending.

End Accounts.
