(* ===== verification/RealBuffersSound.v ===== *)
(** * What the buffers handed out contain

    A handle that [get_buffer] or [batch_get_buffer] returns holds the whole object,
    and the address a dummy client is given translates back to the buffer. *)

From S2P Require Import Prelude CxxString StoreTypes ReplicaPolicy Samples PutPath BatchPut GetPath GetSpec Accounting DummyMap RangedRead RangedPrepare RangedReadSpec RangedDelivery RealWrite RealGetInto RealGetSafe RealGetSound RealBuffers RealBuffersSpec.
From stdpp Require Import base strings list sets gmap fin_maps.
From Stdlib Require Import ZArith Lia.

#[local] Open Scope Z_scope.
#[local] Set Default Proof Using "Type".

Section Sound.
Context `{!MasterClient, !TransferSubmitter, !HotCache, !StorageBackend, !Clock, !RealServices}.

(** The object of [replica] was read into the buffer at [p]. *)
Definition filled (c : Client) (key : ObjectKey) (p : Z) (replica : Descriptor)
    (evs : list real_event) : Prop :=
  if is_local_disk_replica replica
  then fetched_with key [MkSlice p (calculate_total_size replica)] evs
  else read_into c key (allocateSlices replica p) replica evs.

Lemma filled_app c key p r e1 e e2 : filled c key p r e → filled c key p r (e1 ++ e ++ e2).
Proof.
  unfold filled. destruct (is_local_disk_replica r); [apply fetched_with_app|apply read_into_app].
Qed.

Context (iteration : ∀ A : Type, gmap string A → list (string * A)).
Context (iteration_perm : ∀ A (m : gmap string A), iteration A m ≡ₚ map_to_list m).
Context (moved_from : BufferHandle).

(** ** The operations of a batch *)

(** What a slot was allocated for: the best replica of its answer. *)
Definition planned (eps : list string) (l : list (nat * (string * expected QueryResult)))
    (evs : list real_event) (i : nat) (key : string) (qr : QueryResult) (hd : BufferHandle)
    (r : Descriptor) : Prop :=
  ∃ q, (i, (key, Ok q)) ∈ l ∧ SelectBestReplica (replicas q) eps = Some r ∧
       qr = FilterQueryResult q r ∧ hd.2 = calculate_total_size r ∧ RAllocate hd.2 (Some hd.1) ∈ evs.

Definition key_planned eps l evs (op : KeyOp) : Prop :=
  ∃ r, planned eps l evs (ko_index op) (ko_key op) (ko_query_result op) (ko_handle op) r ∧
       is_local_disk_replica r = false ∧ ko_slices op = allocateSlices r (ko_handle op).1.

Definition disk_planned eps l evs (op : DiskKeyOp) : Prop :=
  ∃ r, planned eps l evs (do_index op) (do_key op) (do_query_result op) (do_handle op) r ∧
       is_local_disk_replica r = true ∧ do_total_size op = calculate_total_size r.

Lemma planned_mono eps l evs x e i key qr hd r :
  planned eps l evs i key qr hd r → planned eps (l ++ [x]) (evs ++ e) i key qr hd r.
Proof.
  intros (q & Hin & Hb & Hq & Hn & Ha). exists q. rewrite !elem_of_app. auto 6.
Qed.

Lemma prepare_plans eps allocate l h ops evs :
  mfold (prepare_buffer eps allocate) ([], []) l h = (ops, evs) →
  Forall (key_planned eps l evs) ops.1 ∧ Forall (disk_planned eps l evs) ops.2.
Proof.
  apply (mfold_prefix _ (λ before ops evs,
    Forall (key_planned eps before evs) ops.1 ∧ Forall (disk_planned eps before evs) ops.2)).
  { by split; constructor. }
  intros before [i [key qr]] todo [kops dops] e h1 ops' e' _ [Hk Hd] E. cbn [fst snd] in *.
  assert (Hk' : ∀ e', Forall (key_planned eps (before ++ [(i, (key, qr))]) (e ++ e')) kops).
  { intros e''. eapply Forall_impl; [exact Hk|]. intros op (r & Hp & Hr). exists r.
    split; [by apply planned_mono|done]. }
  assert (Hd' : ∀ e', Forall (disk_planned eps (before ++ [(i, (key, qr))]) (e ++ e')) dops).
  { intros e''. eapply Forall_impl; [exact Hd|]. intros op (r & Hp & Hr). exists r.
    split; [by apply planned_mono|done]. }
  unfold prepare_buffer in E.
  destruct (choose_replica eps qr) as [[q r]|er] eqn:Hc; [|by apply ret_inv in E as [-> ->]].
  destruct (_ =? 0); [by apply ret_inv in E as [-> ->]|].
  apply bind_inv in E as (o & e3 & e4 & [_ ->]%call_inv & E & ->).
  destruct o as [p|]; [|by apply ret_inv in E as [-> ->]].
  assert (Hnew : planned eps (before ++ [(i, (key, qr))]) (e ++ [RAllocate (calculate_total_size r) (Some p)] ++ e4)
    i key (FilterQueryResult q r) (p, calculate_total_size r) r).
  { unfold choose_replica in Hc. destruct qr as [q'|]; [|done].
    case_bool_decide; [done|]. destruct (SelectBestReplica (replicas q') eps) as [r'|] eqn:Hb; [|done].
    injection Hc as -> ->. exists q. split_and!; [|done..|].
    - apply elem_of_app. right. by left.
    - apply elem_of_app. right. by left. }
  destruct (is_local_disk_replica r) eqn:Hr; apply ret_inv in E as [-> ->]; cbn [fst snd];
    (split; [try apply Hk'|try apply Hd']); apply Forall_app; split; auto;
    constructor; [|constructor| |constructor]; exists r; split_and!; try done.
Qed.

(** ** The reads *)

Lemma deliver_from l st i hd :
  (fold_left deliver_key l st).1 !! i = Some (Some hd) →
  st.1 !! i = Some (Some hd) ∨ ∃ op, (op, Ok tt) ∈ l ∧ ko_index op = i ∧ ko_handle op = hd.
Proof.
  revert st. induction l as [|[op r] l IH]; intros st Hs; [by left|]. cbn [fold_left] in Hs.
  apply IH in Hs as [Hs|(op' & Hin & Hop)]; [|right; exists op'; split; [by right|done]].
  destruct r as [[]|e]; [|by left]. cbn in Hs.
  destruct (decide (ko_index op = i)) as [<-|Hne]; [|rewrite list_lookup_insert_ne in Hs by done; by left].
  destruct (decide (ko_index op < length st.1)%nat).
  - rewrite list_lookup_insert_eq in Hs by done. injection Hs as Hs. right. exists op.
    split; [by left|done].
  - rewrite list_insert_ge in Hs by lia. by left.
Qed.

Lemma read_keys_ok c ops n h st evs :
  read_key_ops iteration c ops (replicate n None) h = (st, evs) → NoDup (ko_key <$> ops) →
  ∀ i hd, st.1 !! i = Some (Some hd) → ∃ op r, op ∈ ops ∧ ko_index op = i ∧ ko_handle op = hd ∧
    FindFirstCompleteReplica (replicas (ko_query_result op)) = Some r ∧
    read_into c (ko_key op) (ko_slices op) r evs.
Proof.
  intros E Hnd i hd Hi. unfold read_key_ops in E. case_bool_decide.
  { apply ret_inv in E as [-> _]. cbn in Hi. by apply lookup_replicate in Hi as [? _]. }
  apply bind_inv in E as (rs & e1 & e2 & E & [-> ->]%ret_inv & ->). rewrite app_nil_r.
  eapply batch_get_query_reads in E as [Hl Hok]; [|by rewrite !length_fmap].
  apply deliver_from in Hi as [Hs|(op & Hin & <- & <-)]; [by apply lookup_replicate in Hs as [? _]|].
  apply list_elem_of_lookup in Hin as [j Hj]. apply lookup_zip_Some in Hj as [Hop Hr].
  apply Hok in Hr as (key & q & ss & r & Hk & Hq & Hss & Hr & Hread).
  rewrite list_lookup_fmap, Hop in Hk. rewrite list_lookup_fmap, Hop in Hq. simplify_eq/=.
  assert (Hin : op ∈ ops) by (by eapply list_elem_of_lookup_2).
  exists op, r. split_and!; [done..|].
  rewrite (assigned_nodup ko_key ko_slices) in Hss by done. by simplify_eq.
Qed.

(** ** The whole request *)

Lemma op_keys_nodup ops :
  NoDup (op_slots ops).*2 → NoDup (ko_key <$> ops.1).
Proof.
  unfold op_slots. rewrite fmap_app, <- !list_fmap_compose, NoDup_app. by intros (? & _ & _).
Qed.

(** A handle that [batch_get_buffer] returns for a key of its own is the buffer
    allocated for that key, of exactly the size of the object, and it holds the
    object: the best complete replica the master reported was transferred into it,
    or its owner sent it. *)
Theorem batch_get_buffer_delivers rc c keys allocator h rs evs i p n :
  client_ rc = Some c → NoDup keys →
  batch_get_buffer_internal iteration moved_from rc keys allocator h = (rs, evs) →
  rs !! i = Some (Some (p, n)) →
  ∃ key answers rl eps r, keys !! i = Some key ∧
    EMaster (BatchGetReplicaList keys answers) ∈ client_trace evs ∧
    answers !! i = Some (Ok rl) ∧ SelectBestReplica (rl_replicas rl) eps = Some r ∧
    is_complete r = true ∧ n = calculate_total_size r ∧ RAllocate n (Some p) ∈ evs ∧
    filled c key p r evs.
Proof using iteration_perm.
  intros Hc Hnd E Hi. unfold batch_get_buffer_internal in E. rewrite Hc in E.
  case_bool_decide; [apply ret_inv in E as [-> _]; by apply lookup_replicate in Hi as [? _]|].
  apply bind_inv in E as (qs & e1 & ? & E1 & E & ->). apply batch_query_run in E1 as [Hlq Hqs].
  apply bind_inv in E as (eps & e2 & ? & [= <- <-] & E & ->). set (eps := r_local_endpoints _) in E.
  apply bind_inv in E as (ops & e3 & ? & E3 & E & ->). pose proof E3 as E3'.
  apply prepare_slots in E3' as (slots & Hslots & Hsub).
  apply slots_nodup in Hsub as (Hn1 & Hn2 & Hkeys); [|done]. rewrite <- Hslots in Hn1, Hn2.
  pose proof (op_keys_nodup _ Hn2) as Hkk.
  apply op_slots_split in Hn1 as (Hk & Hd & Hdk & Hother); [|done].
  apply prepare_plans in E3 as [Pk Pd]. rewrite Forall_forall in Pk. rewrite Forall_forall in Pd.
  assert (Hnone : ∀ i key, (i, key) ∈ op_slots ops →
    (replicate (length keys) (None : option BufferHandle)) !! i = Some None).
  { intros j key Hin. rewrite Hslots in Hin. apply Hkeys in Hin. apply lookup_replicate_2.
    by eapply lookup_lt_Some. }
  apply bind_inv in E as (memory & e4 & ? & E4 & E & ->). pose proof E4 as E4'.
  apply read_keys_others in E4' as [Hlen Hsame]; [|done|].
  2:{ intros op Hop. apply (Hnone _ (ko_key op)). unfold op_slots. apply elem_of_app. left.
      by apply (list_elem_of_fmap_2 (λ op, (ko_index op, ko_key op))). }
  pose proof (read_keys_ok _ _ _ _ _ _ E4 Hkk) as Hread.
  apply bind_inv in E as (disk & e5 & ? & E5 & E & ->).
  apply (read_disk_ops_run iteration iteration_perm _ _ _ _ _ _ []) in E5 as (_ & _ & Hdisk); [|done|done|].
  2:{ intros op Hop. rewrite Hsame by (by apply Hother). apply (Hnone _ (do_key op)).
      unfold op_slots. apply elem_of_app. right.
      by apply (list_elem_of_fmap_2 (λ op, (do_index op, do_key op))). }
  apply bind_inv in E as (u1 & e6 & ? & _ & E & ->).
  apply bind_inv in E as (u2 & e7 & ? & _ & [-> ->]%ret_inv & ->). cbn [app].
  assert (Hplan : ∃ key r q, planned eps (indexed (zip keys qs)) e3 i key q (p, n) r ∧
    filled c key p r (e4 ++ e5)).
  { destruct (Hdisk i _ Hi) as [Hm|(op & Hop & <- & Hhd & Hf)].
    - destruct (Hread i _ Hm) as (op & r & Hop & <- & Hhd & Hfind & Hr).
      destruct (Pk op Hop) as (r' & Hp & Hloc & Hss). exists (ko_key op), r', (ko_query_result op).
      rewrite Hhd in Hp. split; [done|]. unfold filled. rewrite Hloc. rewrite Hss, Hhd in Hr.
      destruct Hp as (q & _ & _ & Hq & _). rewrite Hq in Hfind. unfold FindFirstCompleteReplica in Hfind.
      cbn in Hfind. destruct (is_complete r'); [|done]. injection Hfind as <-.
      by apply (read_into_app _ _ _ _ []).
    - destruct (Pd op Hop) as (r' & Hp & Hloc & Hss). exists (do_key op), r', (do_query_result op).
      rewrite Hhd in Hp. split; [done|]. unfold filled. rewrite Hloc, <- Hss.
      rewrite <- (app_nil_r e5). by apply fetched_with_app. }
  destruct Hplan as (key & r & q' & (q & Hin & Hbest & _ & Hn & Hal) & Hfill). cbn in Hn, Hal.
  apply elem_of_indexed, lookup_zip_Some in Hin as [Hkey Hq].
  destruct (Hqs i q Hq) as (answers & rl & Hm & Hrl & Hrep).
  pose proof (select_best_spec eps (replicas q)) as Hspec. rewrite Hbest in Hspec.
  exists key, answers, rl, eps, r. rewrite <- Hrep. split_and!; try done.
  - rewrite client_trace_app. apply elem_of_app. by left.
  - by destruct Hspec as (_ & ? & _).
  - rewrite !elem_of_app. auto.
  - rewrite (app_assoc e1 e3), (app_assoc e4 e5). by apply filled_app.
Qed.

(** ** [get_buffer] *)

Lemma query_answer key h q evs :
  on_client (Query key) h = (Ok q, evs) →
  ∃ rl, EMaster (GetReplicaList key (Ok rl)) ∈ client_trace evs ∧ replicas q = rl_replicas rl.
Proof.
  intros E. apply lift_inv in E as (evs' & E & ->). rewrite client_trace_lift.
  unfold Query in E. apply bind_inv in E as (t & ? & ? & [_ ->]%call_inv & E & ->).
  apply bind_inv in E as (resp & ? & ? & [_ ->]%call_inv & E & ->).
  destruct resp as [rl|e]; [|by apply ret_inv in E as [? _]].
  apply ret_inv in E as [[= ->] ->]. exists rl. split; [|done].
  cbn. right. by left.
Qed.

(** The object of [replica] was read into the buffer at [p] by one request. *)
Definition filled_alone (c : Client) (key : ObjectKey) (p : Z) (replica : Descriptor)
    (evs : list real_event) : Prop :=
  if is_local_disk_replica replica
  then fetched key [MkSlice p (calculate_total_size replica)] evs
  else got c key (allocateSlices replica p) replica evs.

Lemma get_buffer_run rc c key allocator h p n evs :
  client_ rc = Some c → get_buffer_internal rc key allocator h = (Some (p, n), evs) →
  ∃ rl eps r allocate h', allocator = Some allocate ∧ allocate h' n = Some p ∧ n ≠ 0 ∧
    EMaster (GetReplicaList key (Ok rl)) ∈ client_trace evs ∧
    SelectBestReplica (rl_replicas rl) eps = Some r ∧ is_complete r = true ∧
    n = calculate_total_size r ∧ filled_alone c key p r evs.
Proof.
  intros Hc E. unfold get_buffer_internal in E. rewrite Hc in E.
  destruct allocator as [allocate|]; [|by apply ret_inv in E as [? _]].
  apply bind_inv in E as (qr & e1 & ? & E1 & E & ->).
  apply bind_inv in E as (eps & e2 & ? & [= <- <-] & E & ->). set (eps := r_local_endpoints _) in E.
  unfold choose_replica in E. destruct qr as [q|e]; [|by apply ret_inv in E as [? _]].
  case_bool_decide; [by apply ret_inv in E as [? _]|].
  destruct (SelectBestReplica (replicas q) eps) as [r|] eqn:Hb; [|by apply ret_inv in E as [? _]].
  destruct (Z.eqb_spec (calculate_total_size r) 0) as [|Hn]; [by apply ret_inv in E as [? _]|].
  apply bind_inv in E as (o & e3 & e4 & [Ho ->]%call_inv & E & ->).
  destruct o as [p'|]; [|by apply ret_inv in E as [? _]].
  apply bind_inv in E as (res & e5 & e6 & E5 & E & ->).
  destruct res as [u|e]; [|by apply bind_inv in E as (? & ? & ? & _ & [? _]%ret_inv & _)].
  apply ret_inv in E as [[= -> ->] ->].
  apply query_answer in E1 as (rl & Hm & Hrl).
  pose proof (select_best_spec eps (replicas q)) as Hspec. rewrite Hb in Hspec.
  destruct Hspec as (_ & Hcomp & _).
  eexists rl, eps, r, allocate, _. split_and!; [done|symmetry; exact Ho|done| |by rewrite <- Hrl|done|done|].
  - rewrite client_trace_app. apply elem_of_app. by left.
  - rewrite app_nil_l, (app_assoc e1). unfold filled_alone, fill_buffer in *.
    destruct (data r) eqn:Hd; unfold is_local_disk_replica; rewrite Hd.
    1-3: apply got_app; by eapply get_ok.
    apply fetched_app. by eapply offload_ok.
Qed.

(** ** Addresses of dummy clients *)

Definition real_disjoint (s t : MappedShm) : Prop :=
  shm_buffer s + shm_size s ≤ shm_buffer t ∨ shm_buffer t + shm_size t ≤ shm_buffer s.

(** The allocator hands out memory of the mappings. *)
Definition inside_mappings (shms : list MappedShm) (allocate : Allocator) : Prop :=
  ∀ h n p, allocate h n = Some p →
    ∃ s, s ∈ shms ∧ shm_buffer s ≤ p ∧ p + n ≤ shm_buffer s + shm_size s.

Lemma dummy_address_spec all shms s p a n :
  (∀ t, t ∈ shms → t ∈ all) → Forall wf_shm all →
  (∀ s t, s ∈ all → t ∈ all → s = t ∨ real_disjoint s t) →
  s ∈ all → shm_buffer s ≤ p → p + n ≤ shm_buffer s + shm_size s → 0 < n →
  dummy_address shms p = Some a → a = dummy_base_addr s + (p - shm_buffer s).
Proof.
  intros Hin Hwf Hdis Hs Hp1 Hp2 Hn. rewrite Forall_forall in Hwf.
  induction shms as [|t shms IH]; [done|]. cbn. destruct (Hwf t) as (? & ? & ? & ? & ? & Ho); [apply Hin; by left|].
  rewrite u64_add_small by lia. destruct (_ && _) eqn:E.
  - bool_to_prop. intros [= <-]. assert (s = t) as <-.
    { destruct (Hdis s t) as [|[|]]; [done|apply Hin; by left|done|lia|lia]. }
    rewrite Ho. unfold u64_sub, u64. rewrite Zminus_mod_idemp_r, Z.mod_small; lia.
  - intros Ha. apply IH; [|done]. intros t' Ht'. apply Hin. by right.
Qed.

(** What [acquire_buffer_dummy] tells a dummy client is true: the address it
    returns translates back to a buffer of the client that holds the whole object,
    and the buffer stays registered under that address until it is released. *)
Theorem acquired_buffer_readable rc c key id ctxs ctx h a n ctxs' evs :
  client_ rc = Some c → ctxs !! id = Some ctx → Forall wf_shm (mapped_shms ctx) →
  (∀ s t, s ∈ mapped_shms ctx → t ∈ mapped_shms ctx → s = t ∨ disjoint_shm s t) →
  (∀ s t, s ∈ mapped_shms ctx → t ∈ mapped_shms ctx → s = t ∨ real_disjoint s t) →
  (∀ allocate, client_buffer_allocator ctx = Some allocate →
     inside_mappings (mapped_shms ctx) allocate) →
  (∀ r, 0 ≤ calculate_total_size r) →
  acquire_buffer_dummy rc key id ctxs h = ((Ok (a, n), ctxs'), evs) →
  ∃ p ctx' rl eps r, ctxs' !! id = Some ctx' ∧ active_handles ctx' !! a = Some (p, n) ∧
    map_dummy_buffer_range_to_real (mapped_shms ctx') a 0 n = Some p ∧
    EMaster (GetReplicaList key (Ok rl)) ∈ client_trace evs ∧
    SelectBestReplica (rl_replicas rl) eps = Some r ∧ n = calculate_total_size r ∧
    filled_alone c key p r evs.
Proof.
  intros Hc Hctx Hwf Hdd Hrd Hin Hpos E. unfold acquire_buffer_dummy in E. rewrite Hctx in E.
  apply bind_inv in E as (o & e1 & e2 & E1 & E & ->).
  destruct o as [[p n']|]; [|by apply ret_inv in E as [? _]].
  apply bind_inv in E as ([r1 ctx'] & e3 & e4 & E3 & [[= <- ->] ->]%ret_inv & ->). cbn [fst snd] in *.
  unfold publish_handle in E3. cbn [fst snd] in E3.
  destruct (dummy_address _ _) as [a'|] eqn:Ha;
    [|by apply bind_inv in E3 as (? & ? & ? & _ & [? _]%ret_inv & _)].
  apply bind_inv in E3 as (hs & e5 & e6 & E5 & [[= -> -> ->] ->]%ret_inv & ->).
  assert (hs !! a' = Some (p, n')) as Hhs.
  { unfold keep_handle in E5. apply bind_inv in E5 as (? & ? & ? & _ & [-> _]%ret_inv & _).
    apply lookup_insert_eq. }
  apply (get_buffer_run rc c) in E1
    as (rl & eps & r & allocate & h' & Hall & Hal & Hn & Hm & Hb & Hcomp & Hsz & Hfill); [|done].
  destruct (Hin _ Hall _ _ _ Hal) as (s & Hs & Hp1 & Hp2).
  assert (Hn0 : 0 < n') by (specialize (Hpos r); lia).
  apply (dummy_address_spec _ _ s p a' n' (λ t Ht, Ht)) in Ha; [|done..].
  pose proof (wf_in _ Hwf _ Hs) as (? & ? & ? & ? & ? & _).
  exists p, (with_handles ctx hs), rl, eps, r. split_and!; try done.
  - apply lookup_insert_eq.
  - cbn [mapped_shms with_handles]. unfold map_dummy_buffer_range_to_real.
    pose proof (scan_spec _ Hwf (mapped_shms ctx) a' 0 n' (reflexivity _)) as Hscan.
    unfold in_u64 in Hscan. specialize (Hscan ltac:(lia) ltac:(lia) ltac:(lia)). rewrite Z.add_0_r in Hscan.
    assert (Hh : holds_range s a' n') by (unfold holds_range; lia).
    destruct (scan_shms _ _ _ _) as [[t real]|]; cbn.
    + destruct Hscan as (Ht & _ & Hht & ->). f_equal.
      rewrite <- (holds_unique _ Hdd s t a' n') by done. unfold rebase. lia.
    + by destruct (Hscan s Hs (proj1 Hh)).
  - rewrite client_trace_app. apply elem_of_app. by left.
  - unfold filled_alone in *. destruct (is_local_disk_replica r);
      [by apply (fetched_app _ _ [] e1)|by apply (got_app _ _ _ _ [] e1)].
Qed.
End Sound.

(** ** Query results sent to dummy clients *)

(** The lease a dummy client computes is the lease of the master, later by the time
    between the two clock readings. *)
Theorem cached_lease_shifts q sent received :
  in_u64 (lease_timeout q - sent) → IsLeaseExpired q sent = false →
  from_cached_query_result_response (to_cached_query_result_response (Ok q) sent) received =
    Ok (MkQueryResult (replicas q) (lease_timeout q + (received - sent))).
Proof.
  intros Hr He. unfold to_cached_query_result_response, remaining_lease_ttl_ms. rewrite He. cbn.
  rewrite u64_small by exact Hr. do 2 f_equal. lia.
Qed.

(** ** Concrete requests *)

(** Buffers of a dummy client lie in its mapping of 64 KiB at 1 MiB. *)
Definition shm_allocator : Allocator := λ h n,
  if (0 <=? n) && (n <=? 64) && (Z.of_nat (length h) <? 1000)
  then Some (1048576 + 64 * Z.of_nat (length h)) else None.

Definition buffer_context : ShmContext :=
  MkShmContext [MkShm "a" (u64_sub 1048576 4096) 1048576 65536 4096] (Some shm_allocator) ∅.

Definition buffer_contexts : gmap UUID ShmContext := {[ (1, 1) := buffer_context ]}.

Abbreviation sample_acquire rs ctxs h :=
  (@acquire_buffer_dummy (sample_master rs) (sample_submitter []) (sample_cache None)
     (sample_clock 0) bump_real sample_real_client "k" (1, 1) ctxs h).

Abbreviation sample_batch rs keys :=
  (@batch_get_buffer_internal (sample_master rs) (sample_submitter []) (sample_cache None)
     (sample_clock 0) bump_real (λ A, map_to_list) (0, 0) sample_real_client keys
     (Some shm_allocator) []).

Lemma acquired_buffer_readable_witness :
  let run := sample_acquire [memory_at 100] buffer_contexts [] in
  run.1.1 = Ok (4224, 8) ∧
  ∃ p ctx', run.1.2 !! (1, 1) = Some ctx' ∧ active_handles ctx' !! 4224 = Some (p, 8) ∧
    map_dummy_buffer_range_to_real (mapped_shms ctx') 4224 0 8 = Some p.
Proof.
  intros run. assert (Hr : run.1.1 = Ok (4224, 8)) by (by vm_compute). split; [done|].
  destruct (@acquired_buffer_readable (sample_master [memory_at 100]) (sample_submitter [])
    (sample_cache None) (sample_clock 0) bump_real sample_real_client sample_client "k" (1, 1)
    buffer_contexts buffer_context [] 4224 8 run.1.2 run.2)
    as (p & ctx' & rl & eps & r & H1 & H2 & H3 & _).
  - done.
  - done.
  - constructor; [|constructor]. unfold wf_shm, u64_modulus. cbn. split_and!; try lia.
  - intros s t Hs Ht. apply list_elem_of_singleton in Hs, Ht. left. congruence.
  - intros s t Hs Ht. apply list_elem_of_singleton in Hs, Ht. left. congruence.
  - intros allocate [= <-] h n p. unfold shm_allocator. destruct (_ && _) eqn:E; [|done].
    bool_to_prop. intros [= <-]. eexists. split; [by left|]. cbn. lia.
  - intros r. apply u64_range.
  - rewrite <- Hr. by rewrite <- !surjective_pairing.
  - exists p, ctx'. split_and!; assumption.
Defined.


Lemma batch_get_buffer_delivers_witness :
  let run := sample_batch [memory_at 100] ["a"; "b"] in
  run.1 = [Some (1048704, 8); Some (1048768, 8)] ∧
  ∃ r, @filled bump_real sample_client "b" 1048768 r run.2.
Proof.
  intros run. split; [by vm_compute|].
  destruct (@batch_get_buffer_delivers (sample_master [memory_at 100]) (sample_submitter [])
    (sample_cache None) (sample_clock 0) bump_real (λ A, map_to_list) (λ A m, reflexivity _) (0, 0)
    sample_real_client sample_client ["a"; "b"] (Some shm_allocator) [] run.1 run.2 1 1048768 8)
    as (key & answers & rl & eps & r & Hk & _ & _ & _ & _ & _ & _ & Hf).
  - done.
  - repeat constructor; set_solver.
  - by vm_compute.
  - by vm_compute.
  - exists r. by injection Hk as <-.
Defined.

(** A repeated key: [batch_get_buffer] returns a handle to a buffer that nothing was
    read into.  In memory it is the first position's, with an SSD replica the last
    position's, and the first position gets nothing although its buffer was read. *)
Theorem repeated_key_unread_buffer :
  let ssd := MkDescriptor COMPLETE (LocalDiskReplica "peer:1" 8) in
  let writes rs := concat (mem_writes <$> (sample_batch rs ["a"; "a"]).2) in
  ((sample_batch [memory_at 100] ["a"; "a"]).1 = [Some (1048704, 8); Some (1048768, 8)] ∧
   writes [memory_at 100] = [(1048768, 8); (1048768, 8)]) ∧
  ((sample_batch [ssd] ["a"; "a"]).1 = [None; Some (1048768, 8)] ∧ writes [ssd] = [(1048704, 8)]).
Proof. by vm_compute. Qed.
