(* ===== verification/DummyRpc.v ===== *)
(** * Requests of the dummy client ([mooncake-store/src/dummy_client.cpp])

    A dummy client lives in another process and sends every operation to its real
    client.  A request can fail before it is sent, before the real client serves it,
    or on the way back: in all three cases the dummy client reports [RPC_FAIL].
    Here are the request helpers, the operations on objects, the metrics, and the
    buffers of [get_buffer], which are blocks of the shared hot cache or buffers of
    the real client in shared memory. *)

From S2P Require Import Prelude CxxString StoreTypes ReplicaPolicy Samples PutPath BatchPut GetPath DummyMap RangedRead RealWrite RealGetInto RealBuffers.
From stdpp Require Import base strings list sets gmap.
From Stdlib Require Import ZArith Lia.

#[local] Open Scope Z_scope.
#[local] Set Default Proof Using "Type".

(** ** Sums for the metrics *)

Definition sum_sizes (sizes : list Z) : Z := fold_left u64_add sizes 0.

Definition sum_value_sizes (values : list string) : Z :=
  fold_left (λ total v, u64_add total (Z.of_nat (String.length v))) values 0.

Definition sum_successful_sizes (results sizes : list Z) : Z :=
  fold_left (λ total rs, if rs.1 =? 0 then u64_add total rs.2 else total) (zip results sizes) 0.

Definition sum_successful_nested_sizes (results : list Z) (nested_sizes : list (list Z)) : Z :=
  fold_left (λ total rs, if rs.1 =? 0 then u64_add total (sum_sizes rs.2) else total)
    (zip results nested_sizes) 0.

Definition sum_positive_results (results : list Z) : Z :=
  fold_left (λ total result, if 0 <? result then u64_add total (u64 result) else total) results 0.

Definition sum_positive_ranges (results : list (list (list Z))) : Z :=
  fold_left (λ total key_rows,
    fold_left (λ total row, u64_add total (sum_positive_results row)) key_rows total) results 0.

(** A 64-bit number stored in an [int]. *)
Definition int32 (x : Z) : Z := let r := x mod 2 ^ 32 in if r <? 2 ^ 31 then r else r - 2 ^ 32.

(** ** Requests *)

(** What becomes of a request. *)
Inductive rpc_outcome :=
| NotSent       (* send_request has no connection *)
| NotServed     (* lost before the real client handles it *)
| ReplyLost     (* handled, but the answer does not arrive *)
| Answered.

Inductive TransferOperationKind := kRead | kWrite.

Inductive dummy_event (E : Type) :=
| DServer (e : E)                                    (* a call the real client makes *)
| DRpc (o : rpc_outcome)
| DObserve (kind : TransferOperationKind) (op_name : string) (bytes : Z) (batch : bool)
| DNow (now : Z).                                    (* steady_clock::now of this process *)
Arguments DServer {E} e.
Arguments DRpc {E} o.
Arguments DObserve {E} kind op_name bytes batch.
Arguments DNow {E} now.

Definition server_event {E} (e : dummy_event E) : option E :=
  match e with DServer e => Some e | _ => None end.

Class RpcTransport (E : Type) := {
  rpc_outcome_of : list (dummy_event E) → rpc_outcome;
  dummy_time : list (dummy_event E) → Z }.

Section Rpc.
Context {E : Type} `{!RpcTransport E}.
Abbreviation dio A := (comp (dummy_event E) A).
Context (toInt : ErrorCode → Z).

Definition on_server {A} (m : comp E A) : dio A := lift_comp DServer server_event m.

(** The answer of the service method, whatever its type; [st] is the state of the
    real client, which changes when the request is served. *)
Definition send_request {A S} (m : S → comp E (A * S)) (st : S) : dio (expected A * S) :=
  let! o := call rpc_outcome_of DRpc in
  match o with
  | NotSent | NotServed => ret (Err RPC_FAIL, st)
  | ReplyLost => let! r := on_server (m st) in ret (Err RPC_FAIL, r.2)
  | Answered => let! r := on_server (m st) in ret (Ok r.1, r.2)
  end.

Definition flatten_expected {A} (r : expected (expected A)) : expected A :=
  match r with Ok r => r | Err e => Err e end.

(** [connected]: [connected_], not looked at by the methods of
    [can_invoke_when_disconnected]. *)
Definition invoke_rpc {A S} (connected : bool) (m : S → comp E (expected A * S)) (st : S)
  : dio (expected A * S) :=
  if negb connected then ret (Err RPC_FAIL, st)
  else let! r := send_request m st in ret (flatten_expected r.1, r.2).

(** The result of a method, or [fail]. *)
Definition invoke_rpc_or {A S} (connected : bool) (fail : A) (m : S → comp E (A * S)) (st : S)
  : dio (A * S) :=
  if negb connected then ret (fail, st)
  else let! r := send_request m st in ret (match r.1 with Ok a => a | Err _ => fail end, r.2).

Definition invoke_batch_rpc {A S} (connected : bool) (input_size : nat)
    (m : S → comp E (list (expected A) * S)) (st : S) : dio (list (expected A) * S) :=
  invoke_rpc_or connected (replicate input_size (Err RPC_FAIL)) m st.

(** Methods that leave the state of the real client alone. *)
Definition reading {A S} (m : comp E A) : S → comp E (A * S) :=
  λ st, let! r := m in ret (r, st).

Definition to_py_ret (r : expected unit) : Z := match r with Ok _ => 0 | Err e => toInt e end.
Definition to_py_size (r : expected Z) : Z := match r with Ok n => n | Err e => toInt e end.

(** [metrics_] exists from the constructor on. *)
Definition ObserveTransferMetric (kind : TransferOperationKind) (op_name : string) (bytes : Z)
    (batch : bool) : dio unit := call (λ _, tt) (λ _, DObserve kind op_name bytes batch).

Definition invoke_observed_void_rpc (connected : bool) (kind : TransferOperationKind)
    (op_name : string) (bytes : Z) (batch : bool) (m : comp E (expected unit)) : dio Z :=
  let! result := invoke_rpc connected (reading m) tt in
  (match result.1 with
   | Ok _ => ObserveTransferMetric kind op_name bytes batch
   | Err _ => ret tt
   end) ;;;
  ret (to_py_ret result.1).

(** [if (bytes > 0) ObserveTransferMetric(...)] *)
Definition observe_bytes (kind : TransferOperationKind) (op_name : string) (bytes : Z) : dio unit :=
  if 0 <? bytes then ObserveTransferMetric kind op_name bytes true else ret tt.

Definition convert_ranged_read_results (internal_results : list (list (list (expected Z))))
  : list (list (list Z)) :=
  (λ key_rows : list (list (expected Z)),
     (λ row : list (expected Z), to_py_size <$> row) <$> key_rows) <$> internal_results.

Definition build_ranged_read_error_results (buffer_count : nat) (all_keys : list (list string))
    (all_dst_offsets : list (list (list Z))) (error : ErrorCode) : list (list (list Z)) :=
  build_ranged_read_results_like buffer_count all_keys all_dst_offsets (toInt error).
End Rpc.

Abbreviation dio E A := (comp (dummy_event E) A).

(** ** Objects *)

Section Objects.
Context `{!MasterClient, !TransferSubmitter, !HotCache, !StorageBackend, !Clock, !RealServices}.
Context `{!RpcTransport real_event}.
Context (iteration : ∀ A : Type, gmap string A → list (string * A)).
Context (toInt : ErrorCode → Z).
(** The real client, the connection and the identity of this client. *)
Context (rc : RealClient) (connected : bool) (client_id : UUID).
Context (DetermineReplicaWriteMode : ReplicateConfig → ReplicaWriteMode).
Context (toString : ErrorCode → string) (default_config : ReplicateConfig).

(** A request that leaves the real client's contexts alone, and a batch of them. *)
Definition ask {A} (m : rio (expected A)) : dio real_event (expected A) :=
  let! r := invoke_rpc connected (reading m) tt in ret r.1.
Definition ask_batch {A} (input_size : nat) (m : rio (list (expected A)))
  : dio real_event (list (expected A)) :=
  let! r := invoke_batch_rpc connected input_size (reading m) tt in ret r.1.

(** *** Writes *)

Definition value_size (value : string) : Z := Z.of_nat (String.length value).

Definition put (key : ObjectKey) (value : string) (config : ReplicateConfig) : dio real_event Z :=
  invoke_observed_void_rpc toInt connected kWrite "put" (value_size value) false
    (put_dummy_helper DetermineReplicaWriteMode rc key value config client_id).

Definition put_batch (keys values : list string) (config : ReplicateConfig) : dio real_event Z :=
  invoke_observed_void_rpc toInt connected kWrite "put_batch" (sum_value_sizes values) true
    (put_batch_dummy_helper DetermineReplicaWriteMode toString default_config (iteration _) rc keys
       values config client_id).

Definition put_parts (key : ObjectKey) (values : list string) (config : ReplicateConfig)
  : dio real_event Z :=
  invoke_observed_void_rpc toInt connected kWrite "put_parts" (sum_value_sizes values) false
    (put_parts_dummy_helper DetermineReplicaWriteMode rc key values config client_id).

Definition upsert (key : ObjectKey) (value : string) (config : ReplicateConfig) : dio real_event Z :=
  invoke_observed_void_rpc toInt connected kWrite "upsert" (value_size value) false
    (upsert_dummy_helper rc key value config client_id).

Definition upsert_from (key : ObjectKey) (buffer size : Z) (config : ReplicateConfig)
  : dio real_event Z :=
  invoke_observed_void_rpc toInt connected kWrite "upsert_from" size false
    (upsert_from_dummy_helper rc key buffer size config client_id).

Definition upsert_parts (key : ObjectKey) (values : list string) (config : ReplicateConfig)
  : dio real_event Z :=
  invoke_observed_void_rpc toInt connected kWrite "upsert_parts" (sum_value_sizes values) false
    (upsert_parts_dummy_helper rc key values config client_id).

Definition upsert_batch (keys values : list string) (config : ReplicateConfig) : dio real_event Z :=
  invoke_observed_void_rpc toInt connected kWrite "upsert_batch" (sum_value_sizes values) true
    (upsert_batch_dummy_helper toString rc keys values config client_id).

(** The helper can read past the end of [sizes]: then the result is not defined. *)
Definition batch_upsert_from (keys : list string) (buffers sizes : list Z) (config : ReplicateConfig)
  : dio real_event (option (list Z)) :=
  let! r := invoke_rpc_or connected (Some (replicate (length keys) (Err RPC_FAIL)))
              (reading (batch_upsert_from_dummy_helper toString rc keys buffers sizes config
                          client_id)) tt in
  match r.1 with
  | None => ret None
  | Some internal_results =>
      let results := to_py_ret toInt <$> internal_results in
      observe_bytes kWrite "batch_upsert_from" (sum_successful_sizes results sizes) ;;;
      ret (Some results)
  end.

Definition batch_put_from (keys : list string) (buffers sizes : list Z) (config : ReplicateConfig)
  : dio real_event (list Z) :=
  let! internal_results := ask_batch (length keys)
      (batch_put_from_dummy_helper DetermineReplicaWriteMode toString default_config (iteration _)
         rc keys buffers sizes config client_id) in
  let results := to_py_ret toInt <$> internal_results in
  observe_bytes kWrite "batch_put_from" (sum_successful_sizes results sizes) ;;;
  ret results.

Definition batch_put_from_multi_buffers (keys : list string) (all_buffers all_sizes : list (list Z))
    (config : ReplicateConfig) : dio real_event (list Z) :=
  let! internal_results := ask_batch (length keys)
      (batch_put_from_multi_buffers_dummy_helper iteration DetermineReplicaWriteMode toString
         default_config rc keys all_buffers all_sizes config client_id) in
  let results := to_py_ret toInt <$> internal_results in
  observe_bytes kWrite "batch_put_from_multi_buffers"
    (sum_successful_nested_sizes results all_sizes) ;;;
  ret results.

(** Not implemented for dummy clients. *)
Definition put_from (key : ObjectKey) (buffer size : Z) (config : ReplicateConfig) : Z := -1.
Definition put_from_with_metadata (key : ObjectKey) (buffer metadata_buffer size metadata_size : Z)
    (config : ReplicateConfig) : Z := -1.

(** *** Removal and queries *)

Definition remove (key : ObjectKey) (force : bool) : dio real_event Z :=
  let! r := ask (remove_internal rc key force) in ret (to_py_ret toInt r).

Definition removeByRegex (str : string) (force : bool) : dio real_event Z :=
  let! r := ask (removeByRegex_internal rc str force) in ret (to_py_size toInt r).

Definition removeAll (force : bool) : dio real_event Z :=
  let! r := ask (removeAll_internal rc force) in ret (to_py_size toInt r).

Definition batchRemove (keys : list string) (force : bool) : dio real_event (list Z) :=
  let! rs := ask_batch (length keys) (batchRemove_internal rc keys force) in
  ret (to_py_ret toInt <$> rs).

Definition getSize (key : ObjectKey) : dio real_event Z :=
  let! r := ask (getSize_internal rc key) in ret (to_py_size toInt r).

Context (ExistKey : ObjectKey → rio (expected bool)).
Context (BatchExistKey : list ObjectKey → rio (list (expected bool))).

Definition isExist (key : ObjectKey) : dio real_event Z :=
  let! r := ask (isExist_internal ExistKey rc key) in ret (exist_code toInt r).

(** Unlike the real client, every error is -1. *)
Definition batchIsExist (keys : list string) : dio real_event (list Z) :=
  let! rs := ask_batch (length keys) (batchIsExist_internal BatchExistKey rc keys) in
  ret ((λ r : expected bool, match r with Ok b => if b then 1 else 0 | Err _ => -1 end) <$> rs).

Definition get_replica_desc (key : ObjectKey) : dio real_event (list Descriptor) :=
  let! r := invoke_rpc_or connected [] (reading (RealBuffers.get_replica_desc key)) tt in
  ret r.1.

Definition batch_get_replica_desc (keys : list string)
  : dio real_event (gmap string (list Descriptor)) :=
  let! r := invoke_rpc_or connected ∅ (reading (RealBuffers.batch_get_replica_desc keys)) tt in
  ret r.1.

Definition batch_replica_clear (keys : list string) (segment_name : string) : list string := [].
Definition get_hostname : string := "".

Definition read_time : dio real_event Z := call dummy_time DNow.

Definition batch_query (keys : list string) : dio real_event (list (expected QueryResult)) :=
  let! cached_results := ask (let! r := batch_get_query_results rc keys in ret (Ok r)) in
  match cached_results with
  | Err e => ret (replicate (length keys) (Err e))
  | Ok cached_results =>
      if negb (length cached_results =? length keys)%nat
      then ret (replicate (length keys) (Err RPC_FAIL))
      else
        let! now := read_time in
        ret ((λ cached, from_cached_query_result_response cached now) <$> cached_results)
  end.

(** *** Reads into registered buffers *)

Definition get_into (key : ObjectKey) (buffer size : Z) : dio real_event Z :=
  let! result := ask (let! r := get_into_range_shm_helper rc key buffer 0 0 size client_id in
                      ret (Ok r)) in
  match result with
  | Err e => ret (toInt e)
  | Ok r =>
      let bytes_read := to_py_size toInt r in
      (if 0 <=? bytes_read
       then ObserveTransferMetric kRead "get_into" (u64 bytes_read) false else ret tt) ;;;
      ret bytes_read
  end.

(** The cache in its iteration order; [None] is the null pointer. *)
Definition build_cached_query_results_from_query_result_cache
    (query_result_cache : option (list (string * expected QueryResult)))
  : dio real_event (list (string * expected GetReplicaListResponse)) :=
  match query_result_cache with
  | None => ret []
  | Some cache =>
      let! now := read_time in
      ret (omap (λ kq : string * expected QueryResult,
             match kq.2 with
             | Ok q => if IsLeaseExpired q now then None
                       else Some (kq.1, to_cached_query_result_response (Ok q) now)
             | Err e => Some (kq.1, to_cached_query_result_response (Err e) now)
             end) cache)
  end.

Definition get_into_ranges (req : RangedRequest)
    (query_result_cache : option (list (string * expected QueryResult)))
  : dio real_event (list (list (list Z))) :=
  let! cached := build_cached_query_results_from_query_result_cache query_result_cache in
  let! internal_results := ask (let! r := get_into_ranges_shm_helper rc req cached client_id in
                                ret (Ok r)) in
  match internal_results with
  | Err e => ret (build_ranged_read_error_results toInt (length (q_buffers req)) (q_keys req)
                    (q_dst_offsets req) e)
  | Ok internal_results =>
      let results := convert_ranged_read_results toInt internal_results in
      observe_bytes kRead "get_into_ranges" (sum_positive_ranges results) ;;;
      ret results
  end.

Definition batch_get_into (keys : list string) (buffers sizes : list Z) : dio real_event (list Z) :=
  let! internal_results := ask_batch (length keys)
      (batch_get_into_dummy_helper iteration rc keys buffers sizes client_id) in
  let results := to_py_size toInt <$> internal_results in
  observe_bytes kRead "batch_get_into" (sum_positive_results results) ;;;
  ret results.

(** Not defined when the helper reads past the end of an argument.  The results
    are [int]s, the sizes are not. *)
Definition batch_get_into_multi_buffers (keys : list string) (all_buffers all_sizes : list (list Z))
    (prefer_same_node : bool) : dio real_event (option (list Z)) :=
  let! r := invoke_rpc_or connected (Some (replicate (length keys) (Err RPC_FAIL)))
              (reading (batch_get_into_multi_buffers_dummy_helper iteration rc keys all_buffers
                          all_sizes prefer_same_node client_id)) tt in
  match r.1 with
  | None => ret None
  | Some internal_results =>
      let results := int32 ∘ to_py_size toInt <$> internal_results in
      observe_bytes kRead "batch_get_into_multi_buffers" (sum_positive_results results) ;;;
      ret (Some results)
  end.

(** *** Tasks

    The methods of the real client pass the request on to the master. *)

Definition create_copy_task (method : ObjectKey → list string → rio (expected UUID))
    (key : ObjectKey) (targets : list string) : dio real_event (expected UUID) :=
  ask (method key targets).

Definition create_move_task (method : ObjectKey → string → string → rio (expected UUID))
    (key : ObjectKey) (source target : string) : dio real_event (expected UUID) :=
  ask (method key source target).

Definition query_task {R} (method : UUID → rio (expected R)) (task_id : UUID)
  : dio real_event (expected R) := ask (method task_id).
End Objects.
