(* ===== verification/DummyBuffers.v ===== *)
(** * Buffers of a dummy client ([mooncake-store/src/dummy_client.cpp])

    [get_buffer] of a dummy client returns a block of the hot cache, which the real
    client shares with it, or a buffer of the real client in the dummy client's own
    shared memory.  The handle carries what gives the block or the buffer back. *)

From S2P Require Import Prelude CxxString StoreTypes ReplicaPolicy Samples PutPath BatchPut GetPath DummyMap RangedRead RealWrite RealGetInto RealBuffers DummyRpc.
From stdpp Require Import base strings list sets gmap.
From Stdlib Require Import ZArith Lia.

#[local] Open Scope Z_scope.
#[local] Set Default Proof Using "Type".

(** What the handle's destructor asks the real client for. *)
Inductive release_action :=
| ReleaseBlock (key : string)
| ReleaseAddress (dummy_addr : Z).

Record DummyHandle := MkHandle {
  dh_ptr : Z;
  dh_size : Z;
  dh_release : release_action }.

Section Buffers.
Context `{!MasterClient, !TransferSubmitter, !HotCache, !StorageBackend, !Clock, !RealServices}.
Context `{!RpcTransport real_event}.
Context (iteration : ∀ A : Type, gmap string A → list (string * A)).
Context (moved_from : BufferHandle) (GetBlockOffset : Z → Z).
Context (rc : RealClient) (client_id : UUID).
(** What other requests do to the contexts during a batched one. *)
Context (interfere : gmap UUID ShmContext → gmap UUID ShmContext).

Abbreviation contexts := (gmap UUID ShmContext).

(** [connected_]; [hot_cache_base_] and [hot_cache_size_], if the cache is mapped. *)
Context (connected : bool) (hot : option (Z * Z)).

Definition is_hot_cache_ptr (p : Z) : bool :=
  match hot with
  | None => false
  | Some (base, size) => (base <=? p) && (p <? u64_add base size)
  end.

(** An answer of the hot cache: [None] when it is outside of the mapping. *)
Definition block_handle (base size : Z) (key : string) (r : Z * Z) : option DummyHandle :=
  let '(offset, n) := r in
  if size <? u64_add offset n then None
  else Some (MkHandle (u64_add base offset) n (ReleaseBlock key)).

Definition address_handle (r : Z * Z) : DummyHandle := MkHandle r.1 r.2 (ReleaseAddress r.1).

(** The allocator-backed buffer. *)
Definition fallback_buffer (key : ObjectKey) (ctxs : contexts)
  : dio real_event (option DummyHandle * contexts) :=
  let! r := invoke_rpc connected (acquire_buffer_dummy rc key client_id) ctxs in
  match r.1 with
  | Err _ => ret (None, r.2)
  | Ok answer =>
      ObserveTransferMetric kRead "get_buffer" answer.2 false ;;;
      ret (Some (address_handle answer), r.2)
  end.

(** The block of the hot cache: [None] when there is none to be had, and the
    handle otherwise. *)
Definition hot_buffer (key : ObjectKey) : dio real_event (option (option DummyHandle)) :=
  match hot with
  | None => ret None
  | Some (base, size) =>
      let! r := ask connected (acquire_hot_cache GetBlockOffset rc key) in
      match r with
      | Err _ => ret None
      | Ok answer =>
          match block_handle base size key answer with
          | None => ret (Some None)
          | Some handle =>
              ObserveTransferMetric kRead "get_buffer" answer.2 false ;;;
              ret (Some (Some handle))
          end
      end
  end.

Definition get_buffer (key : ObjectKey) (ctxs : contexts)
  : dio real_event (option DummyHandle * contexts) :=
  let! r := hot_buffer key in
  match r with
  | None => fallback_buffer key ctxs
  | Some handle => ret (handle, ctxs)
  end.

(** The destructor of a handle. *)
Definition release_handle (handle : DummyHandle) (ctxs : contexts) : dio real_event contexts :=
  match dh_release handle with
  | ReleaseBlock key =>
      let! r := invoke_rpc connected (reading (release_hot_cache rc key)) ctxs in ret r.2
  | ReleaseAddress dummy_addr =>
      let! r := invoke_rpc connected (release_buffer_dummy dummy_addr client_id) ctxs in ret r.2
  end.

(** ** [batch_get_buffer] *)

(** Phase 1: the handles of the hot cache; a position without one is a miss. *)
Definition acquire_hot_blocks (keys : list string) : dio real_event (list (option DummyHandle)) :=
  match hot with
  | None => ret (replicate (length keys) None)
  | Some (base, size) =>
      let! hot_results := ask_batch connected (length keys)
                            (batch_acquire_hot_cache GetBlockOffset rc keys) in
      ret ((λ kr : string * expected (Z * Z),
              match kr.2 with Ok answer => block_handle base size kr.1 answer | Err _ => None end)
             <$> zip keys hot_results)
  end.

Definition miss_indices (results : list (option DummyHandle)) : list nat :=
  omap (λ ih : nat * option DummyHandle,
          match ih.2 with Some _ => None | None => Some ih.1 end) (indexed results).

(** Phase 2: one answer. *)
Definition place_result (results : list (option DummyHandle)) (x : nat * expected (Z * Z))
  : list (option DummyHandle) :=
  match x.2 with
  | Err _ => results
  | Ok answer => <[x.1 := Some (address_handle answer)]> results
  end.

Definition handles_bytes (results : list (option DummyHandle)) : Z :=
  fold_left (λ total h, match h with Some h => u64_add total (dh_size h) | None => total end)
    results 0.

Definition batch_get_buffer (keys : list string) (ctxs : contexts)
  : dio real_event (list (option DummyHandle) * contexts) :=
  if bool_decide (keys = []) then ret ([], ctxs)
  else
    let! results := acquire_hot_blocks keys in
    let misses := miss_indices results in
    if bool_decide (misses = []) then ret (results, ctxs)
    else
      let miss_keys := omap (λ i, keys !! i) misses in
      let! alloc_results := invoke_batch_rpc connected (length miss_keys)
          (batch_acquire_buffer_dummy iteration moved_from rc miss_keys client_id interfere) ctxs in
      let results := fold_left place_result (zip misses alloc_results.1) results in
      observe_bytes kRead "batch_get_buffer" (handles_bytes results) ;;;
      ret (results, alloc_results.2)
  .
End Buffers.
