(* ===== verification/DummyBuffersSpec.v ===== *)
(** * What the requests and buffers of a dummy client guarantee

    A request is served at most once, and only a served one changes anything.  A
    handle of [get_buffer] is a block inside the mapped hot cache, or an address
    that the real client translates to a buffer with the whole object; a block
    stays pinned as long as the dummy client has its handle. *)

From S2P Require Import Prelude CxxString StoreTypes ReplicaPolicy Samples PutPath BatchPut GetPath GetSpec Accounting DummyMap RangedRead RangedPrepare RangedReadSpec RangedDelivery RealWrite RealGetInto RealGetSafe RealGetSound RealBuffers RealBuffersSpec RealBuffersSound DummyRpc DummyBuffers.
From stdpp Require Import base strings list sets gmap fin_maps.
From Stdlib Require Import ZArith Lia.

#[local] Open Scope Z_scope.
#[local] Set Default Proof Using "Type".

(** ** Requests *)

(** What the real client did. *)
Definition server_trace {E} (evs : list (dummy_event E)) : list E := omap server_event evs.

Lemma server_trace_app {E} (e1 e2 : list (dummy_event E)) :
  server_trace (e1 ++ e2) = server_trace e1 ++ server_trace e2.
Proof. apply omap_app. Qed.

Lemma server_trace_served {E} (evs : list E) : server_trace (DServer <$> evs) = evs.
Proof. unfold server_trace. induction evs as [|e evs IH]; cbn; [done|]. by f_equal. Qed.

Definition unserved {E} (connected : bool) (evs : list (dummy_event E)) : Prop :=
  connected = false ∨ DRpc NotSent ∈ evs ∨ DRpc NotServed ∈ evs.

(** The request was not served, or it was served once and its answer arrived or
    got lost. *)
Definition request_run {E A S} (connected : bool) (fail : A) (m : S → comp E (A * S)) (st : S)
    (r : A) (st' : S) (evs : list (dummy_event E)) : Prop :=
  (r = fail ∧ st' = st ∧ server_trace evs = [] ∧ unserved connected evs) ∨
  (connected = true ∧ ∃ h r', m st h = ((r', st'), server_trace evs) ∧
     (r = r' ∧ DRpc Answered ∈ evs ∨ r = fail ∧ DRpc ReplyLost ∈ evs)).

Section Requests.
Context {E : Type} `{!RpcTransport E}.

Lemma send_request_run {A S} (m : S → comp E (A * S)) st h r st' evs :
  send_request m st h = ((r, st'), evs) →
  (r = Err RPC_FAIL ∧ st' = st ∧ server_trace evs = [] ∧ unserved true evs) ∨
  ∃ h r', m st h = ((r', st'), server_trace evs) ∧
    (r = Ok r' ∧ DRpc Answered ∈ evs ∨ r = Err RPC_FAIL ∧ DRpc ReplyLost ∈ evs).
Proof.
  intros R. unfold send_request in R.
  apply bind_inv in R as (o & e1 & e2 & [_ ->]%call_inv & R & ->). destruct o.
  1,2: apply ret_inv in R as [[= -> ->] ->]; left; split_and!; [done..|];
    right; first [by left; left|by right; left].
  all: apply bind_inv in R as ([r' s'] & e3 & e4 & R & [[= -> ->] ->]%ret_inv & ->);
    apply lift_inv in R as (e & R & ->); right; eexists _, r';
    (split; [rewrite app_nil_r, server_trace_app, server_trace_served; exact R|]);
    first [by left; split; [done|left]|by right; split; [done|left]].
Qed.

Lemma invoke_rpc_or_run {A S} connected (fail : A) (m : S → comp E (A * S)) st h r st' evs :
  invoke_rpc_or connected fail m st h = ((r, st'), evs) →
  request_run connected fail m st r st' evs.
Proof.
  intros R. unfold invoke_rpc_or in R. destruct connected; cbn in R;
    [|by apply ret_inv in R as [[= -> ->] ->]; left; split_and!; [..|left]].
  apply bind_inv in R as ([r' s'] & e1 & e2 & R & [[= -> ->] ->]%ret_inv & ->). rewrite app_nil_r.
  apply send_request_run in R as [(-> & -> & Ht & Hu)|(h' & r2 & R & Ha)]; [by left|].
  right. split; [done|]. exists h', r2. split; [done|].
  destruct Ha as [[-> ?]|[-> ?]]; [by left|by right].
Qed.

Lemma invoke_rpc_run {A S} connected (m : S → comp E (expected A * S)) st h r st' evs :
  invoke_rpc connected m st h = ((r, st'), evs) →
  request_run connected (Err RPC_FAIL) m st r st' evs.
Proof.
  intros R. apply (invoke_rpc_or_run connected (Err RPC_FAIL) m st h r st' evs).
  unfold invoke_rpc, invoke_rpc_or in *. destruct connected; cbn in *; [|done].
  apply bind_inv in R as ([r' s'] & e1 & e2 & R & [[= -> ->] ->]%ret_inv & ->).
  unfold bind. rewrite R. cbn.
  by apply send_request_run in R as [(-> & _)|(? & ? & _ & [[-> _]|[-> _]])].
Qed.

(** A request to the real client is served at most once: it was not served, the
    state of the real client is unchanged and the caller gets [RPC_FAIL], in every
    position of a batch; or the method ran exactly once from that state, which it
    needs a connection for, and the caller gets its answer, or [RPC_FAIL] when the
    answer was lost. *)
Theorem request_at_most_once {A S} connected n (m : S → comp E (expected A * S))
    (mb : S → comp E (list (expected A) * S)) st h :
  (∀ r st' evs, invoke_rpc connected m st h = ((r, st'), evs) →
     request_run connected (Err RPC_FAIL) m st r st' evs) ∧
  (∀ rs st' evs, invoke_batch_rpc connected n mb st h = ((rs, st'), evs) →
     request_run connected (replicate n (Err RPC_FAIL)) mb st rs st' evs).
Proof.
  split; intros r st' evs R; [by eapply invoke_rpc_run|by eapply invoke_rpc_or_run].
Qed.

Lemma reading_run {A S} (m : comp E A) (st : S) h r st' evs :
  reading m st h = ((r, st'), evs) → m h = (r, evs) ∧ st' = st.
Proof.
  intros R. apply bind_inv in R as (a & e1 & e2 & R & [[= -> ->] ->]%ret_inv & ->).
  by rewrite app_nil_r.
Qed.
End Requests.

(** ** Handles *)

Section Handles.
Context `{!MasterClient, !TransferSubmitter, !HotCache, !StorageBackend, !Clock, !RealServices}.
Context `{!RpcTransport real_event}.
Context (GetBlockOffset : Z → Z) (rc : RealClient) (client_id : UUID).
Context (connected : bool) (hot : option (Z * Z)).

Lemma ask_run {A} (m : rio (expected A)) h r evs :
  ask connected m h = (r, evs) →
  (r = Err RPC_FAIL ∧ server_trace evs = [] ∧ unserved connected evs) ∨
  (connected = true ∧ ∃ h r', m h = (r', server_trace evs) ∧
     (r = r' ∧ DRpc Answered ∈ evs ∨ r = Err RPC_FAIL ∧ DRpc ReplyLost ∈ evs)).
Proof.
  intros R. apply bind_inv in R as ([r' []] & e1 & e2 & R & [-> ->]%ret_inv & ->).
  rewrite app_nil_r. apply invoke_rpc_run in R as [(-> & _ & Ht & Hu)|(Hc & h' & r2 & R & Ha)]; [by left|].
  apply reading_run in R as [R _]. right. eauto.
Qed.

(** The answer of the hot cache. *)
Lemma acquire_hot_run key h r evs :
  acquire_hot_cache GetBlockOffset rc key h = (r, evs) →
  match r with
  | Ok (offset, n) => hot_cache_enabled rc = true ∧ ∃ blk h',
      h_get h' key = Some blk ∧ evs = [RClient (ECache (GetHotKey key (Some blk)))] ∧
      offset = GetBlockOffset (hot_addr blk) ∧ n = hot_size blk ∧ offset ≠ u64_max
  | Err _ => True
  end.
Proof.
  intros R. destruct r as [[offset n]|e]; [|done]. unfold acquire_hot_cache, acquire_hot_key in R.
  destruct (hot_cache_enabled rc); [|by apply ret_inv in R as [? _]]. split; [done|]. cbn [negb] in R.
  apply bind_inv in R as (blk & e1 & e2 & R1 & R & ->).
  apply lift_inv in R1 as (e1' & [Hg ->]%call_inv & ->).
  destruct blk as [blk|]; [|by apply ret_inv in R as [? _]].
  destruct (Z.eqb_spec (GetBlockOffset (hot_addr blk)) u64_max);
    [by apply bind_inv in R as (? & ? & ? & _ & [? _]%ret_inv & _)|].
  apply ret_inv in R as [[= -> ->] ->]. exists blk. eexists. split_and!; try done; eauto.
Qed.

(** The part of the mapping a block handle stands for. *)
Definition inside_cache (base size : Z) (hd : DummyHandle) : Prop :=
  base ≤ dh_ptr hd ∧ dh_ptr hd + dh_size hd ≤ base + size.

Lemma hot_buffer_run key h o evs :
  hot_buffer GetBlockOffset rc connected hot key h = (o, evs) →
  match o with
  | Some (Some hd) => ∃ base size blk h', hot = Some (base, size) ∧ h_get h' key = Some blk ∧
      block_handle base size key (GetBlockOffset (hot_addr blk), hot_size blk) = Some hd ∧
      GetBlockOffset (hot_addr blk) ≠ u64_max ∧
      RClient (ECache (GetHotKey key (Some blk))) ∈ server_trace evs
  | _ => True
  end.
Proof.
  intros R. destruct o as [[hd|]|]; [|done..]. unfold hot_buffer in R.
  destruct hot as [[base size]|]; [|by apply ret_inv in R as [? _]].
  apply bind_inv in R as (r & e1 & e2 & R1 & R & ->). destruct r as [[offset n]|e];
    [|by apply ret_inv in R as [? _]].
  destruct (block_handle _ _ _ _) as [hd'|] eqn:Hb; [|by apply ret_inv in R as [? _]].
  apply bind_inv in R as ([] & e3 & e4 & _ & [[= ->] ->]%ret_inv & ->).
  apply ask_run in R1 as [[? _]|(_ & h' & r' & R1 & [[<- _]|[? _]])]; [done| |done].
  apply acquire_hot_run in R1 as (_ & blk & h2 & Hg & Ht & -> & -> & Hmax).
  exists base, size, blk, h2. split_and!; try done.
  rewrite server_trace_app, Ht. apply elem_of_app. left. by left.
Qed.

Lemma fallback_run key ctxs h hd ctxs' evs :
  fallback_buffer rc client_id connected key ctxs h = ((Some hd, ctxs'), evs) →
  ∃ h' a n, hd = address_handle (a, n) ∧
    acquire_buffer_dummy rc key client_id ctxs h' = ((Ok (a, n), ctxs'), server_trace evs).
Proof.
  intros R. apply bind_inv in R as ([r s] & e1 & e2 & R1 & R & ->). cbn [fst snd] in R.
  destruct r as [[a n]|e]; [|by apply ret_inv in R as [? _]].
  apply bind_inv in R as ([] & e3 & e4 & [_ ->]%call_inv & [[= -> ->] ->]%ret_inv & ->).
  apply invoke_rpc_run in R1 as [(? & _)|(_ & h' & r' & R1 & [[<- _]|[? _]])]; [done| |done].
  exists h', a, n. split; [done|]. by rewrite server_trace_app, app_nil_r.
Qed.

(** The cache is mapped inside of the address space, and a block it has lies in the cache
    unless [GetBlockOffset] says that its address does not. *)
Context (cache_range : ∀ base size, hot = Some (base, size) → 0 ≤ base ∧ base + size < u64_modulus).
Context (block_range : ∀ h key blk, h_get h key = Some blk →
  0 ≤ hot_size blk ∧
  (GetBlockOffset (hot_addr blk) = u64_max ∨
   0 ≤ GetBlockOffset (hot_addr blk) ∧
   GetBlockOffset (hot_addr blk) + hot_size blk < u64_modulus)).

(** C27: What [get_buffer] hands a dummy client can be read there: a block of the hot
    cache that was pinned for the key and lies inside of the mapped cache, also if the
    block's address is outside of the shared cache (then it is not handed out); or an
    address of the client's shared memory that the real client translates to a buffer into
    which the whole object was read, and which it records as one of the client's buffers.
    The client's mappings are well formed and overlap in neither process, its allocator
    allocates inside of them, and sizes are not negative. *)
Theorem dummy_buffer_holds_object c ctx key ctxs h hd ctxs' evs :
  client_ rc = Some c → ctxs !! client_id = Some ctx → Forall wf_shm (mapped_shms ctx) →
  (∀ s t, s ∈ mapped_shms ctx → t ∈ mapped_shms ctx → s = t ∨ disjoint_shm s t) →
  (∀ s t, s ∈ mapped_shms ctx → t ∈ mapped_shms ctx → s = t ∨ real_disjoint s t) →
  (∀ allocate, client_buffer_allocator ctx = Some allocate →
     inside_mappings (mapped_shms ctx) allocate) →
  (∀ r, 0 ≤ calculate_total_size r) →
  get_buffer GetBlockOffset rc client_id connected hot key ctxs h = ((Some hd, ctxs'), evs) →
  match dh_release hd with
  | ReleaseBlock k => k = key ∧ ctxs' = ctxs ∧ ∃ base size blk,
      hot = Some (base, size) ∧ inside_cache base size hd ∧
      dh_ptr hd = base + GetBlockOffset (hot_addr blk) ∧ dh_size hd = hot_size blk ∧
      ECache (GetHotKey key (Some blk)) ∈ client_trace (server_trace evs)
  | ReleaseAddress a => a = dh_ptr hd ∧ ∃ p ctx' rl eps r,
      ctxs' !! client_id = Some ctx' ∧ active_handles ctx' !! a = Some (p, dh_size hd) ∧
      map_dummy_buffer_range_to_real (mapped_shms ctx') a 0 (dh_size hd) = Some p ∧
      EMaster (GetReplicaList key (Ok rl)) ∈ client_trace (server_trace evs) ∧
      SelectBestReplica (rl_replicas rl) eps = Some r ∧ dh_size hd = calculate_total_size r ∧
      filled_alone c key p r (server_trace evs)
  end.
Proof using block_range cache_range.
  intros Hc Hctx Hwf Hdd Hrd Hin Hpos R. unfold get_buffer in R.
  apply bind_inv in R as (o & e1 & e2 & R1 & R & ->). rewrite server_trace_app, client_trace_app.
  destruct o as [o|].
  - apply ret_inv in R as [[= <- ->] ->]. apply hot_buffer_run in R1
      as (base & size & blk & h' & Hh & Hg & Hb & Hmax & Hev).
    destruct (cache_range _ _ Hh) as [? ?].
    destruct (block_range _ _ _ Hg) as (? & [?|[? ?]]); [done|].
    unfold block_handle in Hb. rewrite u64_add_small in Hb by lia.
    destruct (Z.ltb_spec size (GetBlockOffset (hot_addr blk) + hot_size blk)); [done|].
    injection Hb as <-. cbn. split_and!; [done..|].
    exists base, size, blk. unfold inside_cache. cbn. rewrite u64_add_small by lia.
    split_and!; try lia; try done. rewrite app_nil_r.
    apply list_elem_of_omap. eexists. split; [exact Hev|done].
  - apply fallback_run in R as (h' & a & n & -> & R). cbn. split; [done|].
    apply (acquired_buffer_readable rc c key client_id ctxs ctx) in R
      as (p & ctx' & rl & eps & r & ? & ? & ? & ? & ? & ? & Hf); [|done..].
    exists p, ctx', rl, eps, r. split_and!; try done.
    + apply elem_of_app. by right.
    + unfold filled_alone in *. rewrite <- (app_nil_r (server_trace e2)).
      destruct (is_local_disk_replica r); [by apply fetched_app|by apply got_app].
Qed.
End Handles.

(** ** Pins of the hot cache *)

#[export] Instance pin_resources : Resources real_event string := {|
  acquires e := match e with RClient (ECache (GetHotKey k (Some _))) => [k] | _ => [] end;
  release_of e := match e with RClient (ECache (ReleaseHotKey k)) => Some (k, 0) | _ => None end |}.

Definition block_key (hd : DummyHandle) : option string :=
  match dh_release hd with ReleaseBlock k => Some k | ReleaseAddress _ => None end.

(** The keys pinned for a list of handles. *)
Definition pins_of (hds : list DummyHandle) : list string := omap block_key hds.

(** Every request was answered. *)
Definition all_answered (evs : list (dummy_event real_event)) : Prop :=
  ∀ o, DRpc o ∈ evs → o = Answered.

Lemma answered_served evs : all_answered evs → ¬ unserved true evs.
Proof. intros Ha [?|[H|H]]; [done|by apply Ha in H..]. Qed.

Lemma all_answered_app e1 e2 : all_answered (e1 ++ e2) → all_answered e1 ∧ all_answered e2.
Proof. intros Ha. split; intros o Ho; apply Ha, elem_of_app; auto. Qed.

Section Pins.
Context `{!HotCache, !RpcTransport real_event}.
Context (GetBlockOffset : Z → Z) (rc : RealClient) (client_id : UUID).
Context (connected : bool) (hot : option (Z * Z)).

Definition pinned (key : string) (r : expected (Z * Z)) : list string :=
  match r with Ok _ => [key] | Err _ => [] end.

Lemma acquire_key_pins key : owns [] (acquire_hot_key GetBlockOffset key) (pinned key).
Proof.
  unfold acquire_hot_key.
  apply owns_seq with (mid := λ blk, match blk with Some _ => [key] | None => [] end).
  - change (on_client (cache_get key)) with (call (λ h, h_get (omap client_event h) key)
      (λ r, RClient (ECache (GetHotKey key r)))).
    apply owns_call. intros [blk|] k; cbn; rewrite ?holds_nil; lia.
  - intros [blk|]; [|by apply owns_ret]. destruct (_ =? _); [|by apply owns_ret].
    apply owns_seq with (mid := λ _, []); [|intros _; by apply owns_ret].
    change (on_client (cache_do (ReleaseHotKey key))) with
      (call (λ _ : list real_event, tt) (λ _, RClient (ECache (ReleaseHotKey key)))). owned_call.
Qed.

Lemma acquire_keys_pins keys :
  owns [] (mmap (acquire_hot_key GetBlockOffset) keys) (λ rs, zip keys rs ≫= λ x, pinned x.1 x.2).
Proof.
  induction keys as [|key keys IH]; [by apply owns_ret|]. cbn [mmap].
  apply owns_seq with (mid := pinned key); [apply acquire_key_pins|]. intros r.
  eapply owns_seq; [exact (owns_framed (pinned key r) _ _ IH)|]. intros rs. by apply owns_ret.
Qed.

Lemma release_key_pins key : hot_cache_enabled rc = true →
  owns [key] (release_hot_cache rc key) (λ _, []).
Proof.
  intros He. unfold release_hot_cache. rewrite He. cbn [negb].
  apply owns_seq with (mid := λ _, []); [|intros _; by apply owns_ret].
  change (on_client (cache_do (ReleaseHotKey key))) with
    (call (λ _ : list real_event, tt) (λ _, RClient (ECache (ReleaseHotKey key)))). owned_call.
Qed.
(** Blocks lie inside of the mapped cache, with the addition of the code. *)
Definition fits : Prop := ∀ base size h key blk, hot = Some (base, size) →
  h_get h key = Some blk → u64_add (GetBlockOffset (hot_addr blk)) (hot_size blk) ≤ size.

Definition in_cache (base size : Z) (r : Z * Z) : Prop := u64_add r.1 r.2 ≤ size.

Lemma block_handle_pin base size key r :
  match block_handle base size key r with
  | Some hd => block_key hd = Some key
  | None => ¬ in_cache base size r
  end.
Proof.
  unfold block_handle, in_cache. destruct r as [offset n]. cbn.
  by destruct (Z.ltb_spec size (u64_add offset n)) as [?|?]; [lia|].
Qed.

Definition answer_fits (r : expected (Z * Z)) : Prop :=
  ∀ base size a, hot = Some (base, size) → r = Ok a → in_cache base size a.

Lemma acquire_key_fits key h r evs :
  fits → acquire_hot_key GetBlockOffset key h = (r, evs) → answer_fits r.
Proof.
  intros Hf R base size [offset n] Hh ->. unfold acquire_hot_key in R.
  apply bind_inv in R as (blk & e1 & e2 & R1 & R & ->).
  apply lift_inv in R1 as (e1' & [Hg ->]%call_inv & ->).
  destruct blk as [blk|]; [|by apply ret_inv in R as [? _]].
  destruct (_ =? _); [by apply bind_inv in R as (? & ? & ? & _ & [? _]%ret_inv & _)|].
  apply ret_inv in R as [[= -> ->] ->]. by eapply Hf.
Qed.

(** Handles and pins of a list of answers. *)
Lemma block_handles_pins base size : ∀ keys (rs : list (expected (Z * Z))), ∃ leaked,
  (zip keys rs ≫= λ x, pinned x.1 x.2) ≡ₚ
    pins_of (omap id ((λ kr : string * expected (Z * Z),
      match kr.2 with Ok answer => block_handle base size kr.1 answer | Err _ => None end)
        <$> zip keys rs)) ++ leaked ∧
  (hot = Some (base, size) → Forall answer_fits rs → leaked = []).
Proof.
  induction keys as [|key keys IH]; intros [|r rs]; [by exists []..|].
  destruct (IH rs) as (leaked & IHp & IHl). cbn [zip zip_with mbind list_bind fmap list_fmap fst snd].
  destruct r as [a|e]; cbn [pinned omap list_omap id].
  - pose proof (block_handle_pin base size key a) as Hb. destruct (block_handle _ _ _ _) as [hd|].
    + exists leaked. split; [|intros Hh [_ Hrs]%Forall_cons_1; auto].
      unfold pins_of. cbn [omap list_omap]. rewrite Hb. cbn. by apply perm_skip.
    + exists (key :: leaked). split; [cbn; rewrite IHp; solve_Permutation|].
      intros Hh [Hr _]%Forall_cons_1. by destruct Hb; apply (Hr _ _ _ Hh).
  - exists leaked. split; [done|]. intros Hh [_ Hrs]%Forall_cons_1. auto.
Qed.

Context (enabled : hot_cache_enabled rc = true).

Lemma hot_buffer_pins key h o evs :
  hot_buffer GetBlockOffset rc connected hot key h = (o, evs) → ∃ leaked,
  accounts [] (server_trace evs) (pins_of (option_list (mjoin o)) ++ leaked) ∧
  (all_answered evs → fits → leaked = []).
Proof using enabled.
  intros R. unfold hot_buffer in R. destruct hot as [[base size]|] eqn:Hh;
    [|apply ret_inv in R as [-> ->]; exists []; split; [apply accounts_nil|done]].
  apply bind_inv in R as (r & e1 & e2 & R1 & R & ->).
  apply ask_run in R1 as [(-> & Ht & _)|(_ & h' & r' & R1 & Ha)].
  { apply ret_inv in R as [-> ->]. exists []. rewrite app_nil_r, Ht.
    split; [apply accounts_nil|done]. }
  unfold acquire_hot_cache in R1. rewrite enabled in R1. cbn [negb] in R1.
  pose proof (acquire_key_pins _ _ _ _ R1) as Hp. destruct Ha as [[-> _]|[-> Hl]].
  - destruct r' as [a|e]; [|apply ret_inv in R as [-> ->]; exists []; by rewrite app_nil_r].
    pose proof (block_handle_pin base size key a) as Hb. destruct (block_handle _ _ _ _) as [hd|].
    + apply bind_inv in R as ([] & e3 & e4 & [_ ->]%call_inv & [-> ->]%ret_inv & ->). exists [].
      rewrite server_trace_app. cbn. rewrite !app_nil_r, Hb. by split.
    + apply ret_inv in R as [-> ->]. exists [key]. rewrite app_nil_r. split; [done|].
      intros _ Hf. destruct Hb. by eapply (acquire_key_fits key _ (Ok a) _ Hf R1).
  - apply ret_inv in R as [-> ->]. exists (pinned key r'). rewrite app_nil_r. split; [done|].
    intros Hans. by apply Hans in Hl.
Qed.
Lemma ask_batch_run {A} n (m : rio (list (expected A))) h rs evs :
  ask_batch connected n m h = (rs, evs) →
  (rs = replicate n (Err RPC_FAIL) ∧ server_trace evs = []) ∨
  ∃ h rs', m h = (rs', server_trace evs) ∧
     (rs = rs' ∨ rs = replicate n (Err RPC_FAIL) ∧ DRpc ReplyLost ∈ evs).
Proof.
  intros R. apply bind_inv in R as ([r' []] & e1 & e2 & R & [-> ->]%ret_inv & ->).
  rewrite app_nil_r. apply invoke_rpc_or_run in R as [(-> & _ & Ht & _)|(_ & h' & r2 & R & Ha)];
    [by left|].
  apply reading_run in R as [R _]. right. exists h', r2. split; [done|]. naive_solver.
Qed.

(** No block for positions without an answer. *)
Lemma failed_blocks base size keys n :
  omap id ((λ kr : string * expected (Z * Z),
    match kr.2 with Ok answer => block_handle base size kr.1 answer | Err _ => None end)
      <$> zip keys (replicate n (Err RPC_FAIL))) = [].
Proof. revert n. induction keys as [|k keys IH]; intros [|n]; cbn; [done..|]. apply IH. Qed.

Lemma hot_blocks_pins keys h rs evs :
  acquire_hot_blocks GetBlockOffset rc connected hot keys h = (rs, evs) → ∃ leaked,
  accounts [] (server_trace evs) (pins_of (omap id rs) ++ leaked) ∧
  (all_answered evs → fits → leaked = []).
Proof using enabled.
  intros R. unfold acquire_hot_blocks in R. destruct hot as [[base size]|] eqn:Hh.
  2: { apply ret_inv in R as [-> ->]. exists []. split; [|done].
       assert (omap id (replicate (length keys) (@None DummyHandle)) = []) as ->
         by (induction (length keys); done). apply accounts_nil. }
  apply bind_inv in R as (r & e1 & e2 & R1 & [-> ->]%ret_inv & ->). rewrite app_nil_r.
  apply ask_batch_run in R1 as [[-> Ht]|(h' & rs' & R1 & Ha)].
  { exists []. rewrite Ht, failed_blocks. split; [apply accounts_nil|done]. }
  unfold batch_acquire_hot_cache in R1. rewrite enabled in R1. cbn [negb] in R1.
  pose proof (acquire_keys_pins _ _ _ _ R1) as Hp. destruct Ha as [->|[-> Hl]].
  - destruct (block_handles_pins base size keys rs') as (leaked & Hk & Hf). exists leaked.
    rewrite Hk in Hp. split; [done|]. intros _ Hfit. apply Hf; [done|].
    apply (mmap_outcome _ (λ _ r _, answer_fits r)) in R1.
    + apply Forall_forall. intros x Hx. eapply Forall2_Forall_r in R1; [|].
      * rewrite Forall_forall in R1. exact (R1 x Hx).
      * apply Forall_true. intros k r (e & _ & Hr). exact Hr.
    + intros. by eapply acquire_key_fits.
  - eexists. rewrite failed_blocks. split; [exact Hp|]. intros Hans. by apply Hans in Hl.
Qed.

Lemma release_handle_pins hd k ctxs h ctxs' evs :
  block_key hd = Some k → release_handle rc client_id connected hd ctxs h = (ctxs', evs) →
  ∃ leaked, accounts [k] (server_trace evs) leaked ∧
    (connected = true → all_answered evs → leaked = []).
Proof using enabled.
  unfold block_key. intros Hk R. unfold release_handle in R. destruct (dh_release hd) as [k'|]; [|done].
  injection Hk as ->. apply bind_inv in R as ([r s] & e1 & e2 & R & [-> ->]%ret_inv & ->).
  rewrite app_nil_r. apply invoke_rpc_run in R as [(_ & _ & Ht & Hu)|(_ & h' & r2 & R & _)].
  - exists [k]. rewrite Ht. split; [apply accounts_nil|]. intros -> Ha. by apply answered_served in Hu.
  - apply reading_run in R as [R _]. exists []. split; [|done]. by eapply release_key_pins.
Qed.

(** The blocks a dummy client gets and gives back, in any order. *)
Inductive hot_session : list (dummy_event real_event) → list DummyHandle → Prop :=
| hs_start : hot_session [] []
| hs_get evs hds key h o e :
    hot_session evs hds → hot_buffer GetBlockOffset rc connected hot key h = (o, e) →
    hot_session (evs ++ e) (option_list (mjoin o) ++ hds)
| hs_batch evs hds keys h rs e :
    hot_session evs hds → acquire_hot_blocks GetBlockOffset rc connected hot keys h = (rs, e) →
    hot_session (evs ++ e) (omap id rs ++ hds)
| hs_release evs before hd after k ctxs h ctxs' e :
    hot_session evs (before ++ hd :: after) → block_key hd = Some k →
    release_handle rc client_id connected hd ctxs h = (ctxs', e) →
    hot_session (evs ++ e) (before ++ after).

Lemma pins_of_app l1 l2 : pins_of (l1 ++ l2) = pins_of l1 ++ pins_of l2.
Proof. apply omap_app. Qed.

(** New handles and new leaks on top of old ones. *)
Lemma pins_step (evs e : list (dummy_event real_event)) hds new leaked more :
  accounts [] (server_trace evs) (pins_of hds ++ leaked) →
  accounts [] (server_trace e) (pins_of new ++ more) →
  accounts [] (server_trace (evs ++ e)) (pins_of (new ++ hds) ++ leaked ++ more).
Proof.
  intros H1 H2. rewrite server_trace_app. eapply accounts_app; [exact H1|].
  apply (accounts_frame (pins_of hds ++ leaked)) in H2. rewrite app_nil_r in H2.
  eapply accounts_proper; [| | |exact H2]; [reflexivity|reflexivity|].
  rewrite pins_of_app. solve_Permutation.
Qed.

(** A block of the hot cache stays pinned for as long as the dummy client has a
    handle to it, whatever requests fail or get lost; and when every request is
    answered and the blocks lie inside of the mapping, exactly the blocks with a
    handle are pinned: giving back every handle leaves no pin. *)
Theorem hot_handles_stay_pinned evs hds : hot_session evs hds → ∃ leaked,
  accounts [] (server_trace evs) (pins_of hds ++ leaked) ∧
  (connected = true → all_answered evs → fits → leaked = []).
Proof using enabled.
  induction 1 as [|evs hds key h o e _ (leaked & IH & IHl) R|evs hds keys h rs e _ (leaked & IH & IHl) R
                  |evs before hd after k ctxs h ctxs' e _ (leaked & IH & IHl) Hk R].
  - exists []. split; [apply accounts_nil|done].
  - apply hot_buffer_pins in R as (more & Hm & Hf). exists (leaked ++ more).
    split; [by apply pins_step|]. intros Hc [H1 H2]%all_answered_app Hfit.
    by rewrite IHl, Hf.
  - apply hot_blocks_pins in R as (more & Hm & Hf). exists (leaked ++ more).
    split; [by apply pins_step|]. intros Hc [H1 H2]%all_answered_app Hfit.
    by rewrite IHl, Hf.
  - apply (release_handle_pins _ _ _ _ _ _ Hk) in R as (more & Hm & Hf). exists (leaked ++ more).
    split; [|intros Hc [H1 H2]%all_answered_app Hfit; by rewrite IHl, Hf].
    rewrite server_trace_app. eapply accounts_app; [exact IH|].
    apply (accounts_frame (pins_of (before ++ after) ++ leaked)) in Hm.
    eapply accounts_proper; [| | |exact Hm]; [|reflexivity|].
    + rewrite !pins_of_app. unfold pins_of at 2. cbn [omap list_omap]. rewrite Hk. solve_Permutation.
    + solve_Permutation.
Qed.
End Pins.

(** ** Concrete requests *)

(** Every request has the same fate. *)
Definition sample_rpc (o : rpc_outcome) : RpcTransport real_event :=
  {| rpc_outcome_of := λ _, o; dummy_time := λ _, 0 |}.

(** The cache starts at 1000 in the real client and at 4 MiB in the dummy client. *)
Definition sample_offset (a : Z) : Z := a - 1000.
Definition sample_hot : option (Z * Z) := Some (4194304, 64).

Abbreviation sample_dummy_get rpc block :=
  (@get_buffer (sample_master [memory_at 100]) (sample_submitter []) (sample_cache block)
     (sample_clock 0) bump_real (sample_rpc rpc) sample_offset sample_real_client (1, 1) true
     sample_hot "k" buffer_contexts []).

Lemma request_at_most_once_witness :
  let run := @invoke_rpc real_event (sample_rpc ReplyLost) _ _ true
    (@acquire_buffer_dummy (sample_master [memory_at 100]) (sample_submitter []) (sample_cache None)
       (sample_clock 0) bump_real sample_real_client "k" (1, 1)) buffer_contexts [] in
  run.1.1 = Err RPC_FAIL ∧ context_buffers run.1.2 = [1048704] ∧
  request_run true (Err RPC_FAIL)
    (@acquire_buffer_dummy (sample_master [memory_at 100]) (sample_submitter []) (sample_cache None)
       (sample_clock 0) bump_real sample_real_client "k" (1, 1)) buffer_contexts run.1.1 run.1.2 run.2.
Proof.
  intros run. split; [by vm_compute|]. split; [by vm_compute|].
  apply (proj1 (@request_at_most_once real_event (sample_rpc ReplyLost) _ _ true 1
    (@acquire_buffer_dummy (sample_master [memory_at 100]) (sample_submitter []) (sample_cache None)
       (sample_clock 0) bump_real sample_real_client "k" (1, 1)) (λ st, ret ([], st))
    buffer_contexts [])).
  by rewrite <- !surjective_pairing.
Defined.

Lemma buffer_context_wf : Forall wf_shm (mapped_shms buffer_context).
Proof. constructor; [|constructor]. unfold wf_shm, u64_modulus. cbn. split_and!; lia. Qed.

Lemma buffer_context_one (P : MappedShm → MappedShm → Prop) s t :
  s ∈ mapped_shms buffer_context → t ∈ mapped_shms buffer_context → s = t ∨ P s t.
Proof. intros Hs Ht. apply list_elem_of_singleton in Hs, Ht. left. congruence. Qed.

Lemma buffer_context_inside allocate :
  client_buffer_allocator buffer_context = Some allocate →
  inside_mappings (mapped_shms buffer_context) allocate.
Proof.
  intros [= <-] h n p. unfold shm_allocator. destruct (_ && _) eqn:E; [|done].
  bool_to_prop. intros [= <-]. eexists. split; [by left|]. cbn. lia.
Qed.

Lemma sample_hot_range base size : sample_hot = Some (base, size) → 0 ≤ base ∧ base + size < u64_modulus.
Proof. intros [= <- <-]. unfold u64_modulus. lia. Qed.

(** A buffer of the real client, and a block of the hot cache. *)
Lemma dummy_buffer_holds_object_witness :
  (let run := sample_dummy_get Answered None in
   run.1.1 = Some (MkHandle 4288 8 (ReleaseAddress 4288)) ∧
   ∃ p ctx', run.1.2 !! (1, 1) = Some ctx' ∧ active_handles ctx' !! 4288 = Some (p, 8) ∧
     map_dummy_buffer_range_to_real (mapped_shms ctx') 4288 0 8 = Some p) ∧
  (let run := sample_dummy_get Answered (Some (MkHotBlock 1016 8)) in
   run.1.1 = Some (MkHandle 4194320 8 (ReleaseBlock "k")) ∧
   ∃ base size, sample_hot = Some (base, size) ∧
     inside_cache base size (MkHandle 4194320 8 (ReleaseBlock "k"))).
Proof.
  split; intros run.
  - assert (Hr : run.1.1 = Some (MkHandle 4288 8 (ReleaseAddress 4288))) by (by vm_compute).
    split; [done|].
    destruct (@dummy_buffer_holds_object (sample_master [memory_at 100]) (sample_submitter [])
      (sample_cache None) (sample_clock 0) bump_real (sample_rpc Answered) sample_offset
      sample_real_client (1, 1) true sample_hot sample_hot_range ltac:(by intros h key blk [=])
      sample_client buffer_context "k" buffer_contexts [] (MkHandle 4288 8 (ReleaseAddress 4288))
      run.1.2 run.2 eq_refl eq_refl buffer_context_wf (buffer_context_one disjoint_shm)
      (buffer_context_one real_disjoint) buffer_context_inside ltac:(intros r; apply u64_range))
      as (_ & p & ctx' & rl & eps & r & H1 & H2 & H3 & _).
    + rewrite <- Hr. by rewrite <- !surjective_pairing.
    + exists p, ctx'. split_and!; assumption.
  - assert (Hr : run.1.1 = Some (MkHandle 4194320 8 (ReleaseBlock "k"))) by (by vm_compute).
    split; [done|].
    destruct (@dummy_buffer_holds_object (sample_master [memory_at 100]) (sample_submitter [])
      (sample_cache (Some (MkHotBlock 1016 8))) (sample_clock 0) bump_real (sample_rpc Answered)
      sample_offset sample_real_client (1, 1) true sample_hot sample_hot_range
      ltac:(intros h key blk [= <-]; vm_compute; intuition congruence)
      sample_client buffer_context "k" buffer_contexts [] (MkHandle 4194320 8 (ReleaseBlock "k"))
      run.1.2 run.2 eq_refl eq_refl buffer_context_wf (buffer_context_one disjoint_shm)
      (buffer_context_one real_disjoint) buffer_context_inside ltac:(intros r; apply u64_range))
      as (_ & _ & base & size & blk & H1 & H2 & _).
    + rewrite <- Hr. by rewrite <- !surjective_pairing.
    + exists base, size. split; assumption.
Defined.

Lemma hot_handles_stay_pinned_witness :
  let run := @hot_buffer (sample_cache (Some (MkHotBlock 1016 8))) (sample_rpc Answered)
    sample_offset sample_real_client true sample_hot "k" [] in
  run.1 = Some (Some (MkHandle 4194320 8 (ReleaseBlock "k"))) ∧
  accounts [] (server_trace run.2) ["k"].
Proof.
  intros run. split; [by vm_compute|].
  destruct (@hot_handles_stay_pinned (sample_cache (Some (MkHotBlock 1016 8))) (sample_rpc Answered)
    sample_offset sample_real_client (1, 1) true sample_hot ltac:(done) run.2
    [MkHandle 4194320 8 (ReleaseBlock "k")]) as (leaked & Ha & Hl).
  - eapply (hs_get _ _ _ _ _ [] [] "k" [] run.1); [constructor|by rewrite <- surjective_pairing].
  - rewrite Hl in Ha; [exact Ha|done| |].
    + intros o. vm_compute. intros Ho. repeat apply elem_of_cons in Ho as [[=]|Ho]; [done|].
      by apply elem_of_nil in Ho.
    + intros base size h key blk [= <- <-] [= <-]. vm_compute. done.
Defined.

Lemma one_pin key blk : accounts [] [RClient (ECache (GetHotKey key (Some blk)))] [key].
Proof. intros k. unfold times, holds. cbn [mbind list_bind acquires releases refuses release_of pin_resources app]. unfold releases, refuses. cbn. lia. Qed.

(** A block outside of the mapping: [get_buffer] returns nothing, and the block stays
    pinned; likewise when the answer is lost. *)
Theorem unusable_block_stays_pinned :
  (let run := sample_dummy_get Answered (Some (MkHotBlock 1060 8)) in
   run.1.1 = None ∧ accounts [] (server_trace run.2) ["k"]) ∧
  (let run := @hot_buffer (sample_cache (Some (MkHotBlock 1016 8))) (sample_rpc ReplyLost)
     sample_offset sample_real_client true sample_hot "k" [] in
   run.1 = None ∧ accounts [] (server_trace run.2) ["k"]).
Proof.
  split; intros run; (split; [by vm_compute|]);
    [exact (one_pin "k" (MkHotBlock 1060 8))|exact (one_pin "k" (MkHotBlock 1016 8))].
Qed.
