(* ===== verification/DummyClient.v ===== *)
(** * Connection and shared memory of the dummy client
      ([mooncake-store/src/dummy_client.cpp])

    A dummy client shares its memory with the real client over an IPC socket, and
    pings it over RPC.  When a ping fails it registers all its segments again and
    goes on once the real client answers.  The build without Ascend support is
    modelled; the socket, the mapping of the hot cache and [ShmHelper] are external,
    and the real client's side is [RealShm]. *)

From S2P Require Import Prelude CxxString StoreTypes ReplicaPolicy Segments DummyMap RangedRead RealSegments RealShm DummyRpc.
From stdpp Require Import base strings list sets gmap fin_maps.
From Stdlib Require Import ZArith Lia.

#[local] Open Scope Z_scope.
#[local] Set Default Proof Using "Type".

(** ** State *)

(** A segment of [ShmHelper]. *)
Record ShmSegment := MkSegment {
  base_addr : Z;
  seg_size : Z;
  seg_fd : Z;
  registered : bool;
  is_local : bool }.

Definition set_registered_flag (b : bool) (s : ShmSegment) : ShmSegment :=
  MkSegment (base_addr s) (seg_size s) (seg_fd s) b (is_local s).

Inductive ping_mode := Pinging | Reconnecting.

Record DummyClient := MkDummy {
  client_id_ : UUID;
  client_addr_param_ : string;
  ipc_socket_path_ : string;
  shms : list ShmSegment;                  (* of shm_helper_ *)
  hot_cache : option (Z * Z);              (* hot_cache_base_ and hot_cache_size_ *)
  hot_cache_fd_ : Z;
  connected_ : bool;
  ping_running_ : bool;
  last_ping_healthy_ : bool;
  mode : ping_mode }.                      (* the loop the ping thread is in *)

(** The constructor; [segments]: what [ShmHelper::getInstance], which all clients of
    the process share, has already. *)
Definition new_dummy (id : UUID) (segments : list ShmSegment) : DummyClient :=
  MkDummy id "" "" segments None (-1) false false false Pinging.

Definition with_shms (d : DummyClient) (l : list ShmSegment) : DummyClient :=
  MkDummy (client_id_ d) (client_addr_param_ d) (ipc_socket_path_ d) l (hot_cache d)
    (hot_cache_fd_ d) (connected_ d) (ping_running_ d) (last_ping_healthy_ d) (mode d).
Definition with_hot (d : DummyClient) (hot : option (Z * Z)) (fd : Z) : DummyClient :=
  MkDummy (client_id_ d) (client_addr_param_ d) (ipc_socket_path_ d) (shms d) hot fd
    (connected_ d) (ping_running_ d) (last_ping_healthy_ d) (mode d).
Definition with_addr (d : DummyClient) (addr : string) (connected : bool) : DummyClient :=
  MkDummy (client_id_ d) addr (ipc_socket_path_ d) (shms d) (hot_cache d) (hot_cache_fd_ d)
    connected (ping_running_ d) (last_ping_healthy_ d) (mode d).
Definition with_path (d : DummyClient) (path : string) : DummyClient :=
  MkDummy (client_id_ d) (client_addr_param_ d) path (shms d) (hot_cache d) (hot_cache_fd_ d)
    (connected_ d) (ping_running_ d) (last_ping_healthy_ d) (mode d).
Definition with_ping (d : DummyClient) (connected running healthy : bool) (m : ping_mode)
  : DummyClient :=
  MkDummy (client_id_ d) (client_addr_param_ d) (ipc_socket_path_ d) (shms d) (hot_cache d)
    (hot_cache_fd_ d) connected running healthy m.

(** What the real client keeps for its dummy clients. *)
Record RealPeer := MkPeer {
  peer_contexts : shm_contexts;
  peer_pings : list UUID }.                (* dummy_client_ping_queue_ *)

Definition with_contexts (s : RealPeer) (ctxs : shm_contexts) : RealPeer :=
  MkPeer ctxs (peer_pings s).

(** ** External calls *)

(** What becomes of a request sent over the IPC socket. *)
Inductive ipc_outcome :=
| IpcUnserved (recv_rc : Z)                (* nobody handles it; what recv returns *)
| IpcReplyLost (server_fd recv_rc : Z)     (* handled, without an answer *)
| IpcServed (server_fd : Z).               (* handled and answered *)

Inductive peer_event :=
| PRpc (e : dummy_event map_event)         (* RPC, and calls of the real client *)
| PSocket (fd : Z)                         (* negative: failed, and so on *)
| PConnect (sock rc : Z)
| PSend (sock rc : Z)
| PSendFd (sock fd rc : Z)
| PIpc (sock : Z) (o : ipc_outcome)
| PRecvFd (sock fd : Z)
| PClose (fd : Z)
| PMmap (size fd : Z) (p : option Z)
| PMunmap (p size : Z)
| PAllocate (size : Z) (seg : option (Z * Z * Z))  (* ShmHelper::allocate; None: exception *)
| PFree (base : Z).                        (* ShmHelper::free *)

Abbreviation pio A := (comp peer_event A).

Definition rpc_event (e : peer_event) : option (dummy_event map_event) :=
  match e with PRpc e => Some e | _ => None end.

Definition on_rpc {A} (m : dio map_event A) : pio A := lift_comp PRpc rpc_event m.
Definition on_real {A} (m : gio A) : pio A := on_rpc (on_server m).

Class DummyServices := {
  p_socket : list peer_event → Z;
  p_connect : list peer_event → Z → Z;
  p_send : list peer_event → Z → Z;
  p_send_fd : list peer_event → Z → Z → Z;
  p_ipc : list peer_event → Z → ipc_outcome;
  p_recv_fd : list peer_event → Z → Z;
  p_mmap : list peer_event → Z → Z → option Z;
  p_allocate : list peer_event → Z → option (Z * Z * Z) }.

Section Dummy.
Context `{!SegmentServices, !MapServices, !RpcTransport map_event, !DummyServices}.
(** The real client. *)
Context (c : Client) (max_mr_size : Z) (GPU_PREFIX kWildcardLocation : string).
Context (create_allocator : Z → Z → Allocator).
Context (hot_segment : option (Z * Z)) (ping_capacity : nat) (real_healthy : bool) (view_version : Z).
(** [ShmHelper::get_shm]: the segment of an address, by its position. *)
Context (get_shm : list ShmSegment → Z → option nat).
(** The page size when [ShmHelper] uses huge pages, and [align_up]. *)
Context (hugepage : option Z) (align_up : Z → Z → Z).
Context (toInt : ErrorCode → Z).

(** The segment [get_shm] points to, with its position; [None]: a null pointer. *)
Definition segment_of (l : list ShmSegment) (a : Z) : option (nat * ShmSegment) :=
  i ← get_shm l a; shm ← l !! i; Some (i, shm).

Definition close (fd : Z) : pio unit := call (λ _, tt) (λ _, PClose fd).
Definition free (base : Z) : pio unit := call (λ _, tt) (λ _, PFree base).

(** ** Requests over the IPC socket *)

(** [sizeof(addr.sun_path) - 2] *)
Definition max_ipc_path : nat := 106.

(** The real client handles the registration. *)
Definition serve_register (server_fd : Z) (id : UUID) (shm : ShmSegment) (is_local : bool)
    (s : RealPeer) : pio (option Z * RealPeer) :=
  let! r := on_real (handle_ipc_shm_register c max_mr_size GPU_PREFIX kWildcardLocation
                       create_allocator server_fd
                       (MkShmRegister id (base_addr shm) (seg_size shm) is_local)
                       (peer_contexts s)) in
  ret (r.1, with_contexts s r.2).

(** [recv]: the status that arrived, or what [recv] returned without one. *)
Definition exchange_register (sock : Z) (id : UUID) (shm : ShmSegment) (is_local : bool)
    (s : RealPeer) : pio ((Z + Z) * RealPeer) :=
  let! o := call (λ h, p_ipc h sock) (PIpc sock) in
  match o with
  | IpcUnserved rc => ret (inr rc, s)
  | IpcReplyLost server_fd rc =>
      let! r := serve_register server_fd id shm is_local s in ret (inr rc, r.2)
  | IpcServed server_fd =>
      let! r := serve_register server_fd id shm is_local s in
      (* without a status the socket is closed: recv returns 0 *)
      ret (match r.1 with Some status => inl status | None => inr 0 end, r.2)
  end.

Definition register_shm_via_ipc (d : DummyClient) (shm : ShmSegment) (is_local : bool) (s : RealPeer)
  : pio (Z * RealPeer) :=
  if seg_fd shm <? 0 then ret (-1, s)
  else
    let! sock := call p_socket PSocket in
    if sock <? 0 then ret (-1, s)
    else if (max_ipc_path <? String.length (ipc_socket_path_ d))%nat
    then close sock ;;; ret (-1, s)
    else
      let! rc := call (λ h, p_connect h sock) (PConnect sock) in
      if rc <? 0 then close sock ;;; ret (-1, s)
      else
        let! rc := call (λ h, p_send h sock) (PSend sock) in
        if rc <? 0 then close sock ;;; ret (-1, s)
        else
          let! rc := call (λ h, p_send_fd h sock (seg_fd shm)) (PSendFd sock (seg_fd shm)) in
          if rc <? 0 then close sock ;;; ret (-1, s)
          else
            let! r := exchange_register sock (client_id_ d) shm is_local s in
            (* [status] is -1 before recv *)
            let status := match r.1 with inl status => status | inr _ => -1 end in
            close sock ;;;
            ret (if match r.1 with inr rc => rc <? 0 | inl _ => false end then -1
                 else if negb (status =? 0) then -1 else 0, r.2).

(** The descriptor and the response: status and size. *)
Definition exchange_hot_cache (sock : Z) (id : UUID) (s : RealPeer) : pio (Z * (Z * Z)) :=
  let! o := call (λ h, p_ipc h sock) (PIpc sock) in
  let response := match o with
                  | IpcServed _ => Some (handle_ipc_shm_fd_request id true hot_segment
                                           (peer_contexts s))
                  | _ => None
                  end in
  match response with
  | Some (status, size, Some _) =>
      let! fd := call (λ h, p_recv_fd h sock) (PRecvFd sock) in ret (fd, (status, size))
  | Some (status, size, None) => ret (-1, (status, size))
  | None => ret (-1, (-1, 0))
  end.

Definition request_hot_cache_fd (d : DummyClient) (s : RealPeer) : pio (Z * DummyClient) :=
  let! sock := call p_socket PSocket in
  if sock <? 0 then ret (-1, d)
  else
    let! rc := call (λ h, p_connect h sock) (PConnect sock) in
    if rc <? 0 then close sock ;;; ret (-1, d)
    else
      let! rc := call (λ h, p_send h sock) (PSend sock) in
      if rc <? 0 then close sock ;;; ret (-1, d)
      else
        let! rc := call (λ h, p_send h sock) (PSend sock) in
        if rc <? 0 then close sock ;;; ret (-1, d)
        else
          let! r := exchange_hot_cache sock (client_id_ d) s in
          let '(fd, (status, size)) := r in
          close sock ;;;
          if (fd <? 0) || negb (status =? 0)
          then (if 0 <=? fd then close fd else ret tt) ;;; ret (-1, d)
          else
            let! base := call (λ h, p_mmap h size fd) (PMmap size fd) in
            match base with
            | None => close fd ;;; ret (-1, d)
            | Some base => ret (0, with_hot d (Some (base, size)) fd)
            end.

(** ** RPC *)

(** The methods of [can_invoke_when_disconnected] are sent in any case. *)
Definition connect (d : DummyClient) (server_address : string) (s : RealPeer)
  : pio (option ErrorCode * DummyClient) :=
  let! result := on_rpc (invoke_rpc true (reading (ret (Ok tt))) s) in
  ret (match result.1 with
       | Err e => (Some e, with_addr d server_address (connected_ d))
       | Ok _ => (None, with_addr d server_address true)
       end).

Definition serve_ping (id : UUID) (s : RealPeer) : gio (expected (Z * bool) * RealPeer) :=
  let r := ping ping_capacity (peer_pings s) true real_healthy view_version id in
  ret (r.1, MkPeer (peer_contexts s) r.2).

(** [has_value() && client_status == OK] *)
Definition ping_ok (d : DummyClient) (s : RealPeer) : pio (bool * RealPeer) :=
  let! r := on_rpc (invoke_rpc true (serve_ping (client_id_ d)) s) in
  ret (match r.1 with Ok (_, healthy) => healthy | Err _ => false end, r.2).

Definition over_contexts {A} (m : shm_contexts → gio (A * shm_contexts)) (s : RealPeer)
  : gio (A * RealPeer) :=
  let! r := m (peer_contexts s) in ret (r.1, with_contexts s r.2).

Definition unregister_shm (d : DummyClient) (s : RealPeer) : pio (Z * RealPeer) :=
  let! r := on_rpc (invoke_rpc (connected_ d)
                      (over_contexts (unmap_shm_internal c (client_id_ d))) s) in
  ret (to_py_ret toInt r.1, r.2).

(** ** Set-up *)

(** [shm->registered = true; shm->is_local = true] *)
Definition mark_local (s : ShmSegment) : ShmSegment :=
  MkSegment (base_addr s) (seg_size s) (seg_fd s) true true.

(** The new segment is at the end of the list. *)
Definition allocate (d : DummyClient) (size : Z) : pio (option Z * DummyClient) :=
  let! seg := call (λ h, p_allocate h size) (PAllocate size) in
  ret (match seg with
       | None => (None, d)
       | Some (base, n, fd) =>
           (Some base, with_shms d (shms d ++ [MkSegment base n fd false false]))
       end).

Definition free_segment (d : DummyClient) (base : Z) : pio DummyClient :=
  free base ;;;
  ret (with_shms d (List.filter (λ s, negb (base_addr s =? base)) (shms d))).

Definition alloc_from_mem_pool (d : DummyClient) (size : Z) : pio (Z * DummyClient) :=
  let! r := allocate d size in ret (default 0 r.1, r.2).

(** The local buffer of [setup_dummy]; [false]: set-up fails. *)
Definition setup_local_buffer (d : DummyClient) (local_buffer_size : Z) (s : RealPeer)
  : pio (bool * DummyClient * RealPeer) :=
  let! r := allocate d local_buffer_size in
  match r.1 with
  | None => ret (false, r.2, s)
  | Some base =>
      let d := r.2 in
      match segment_of (shms d) base with
      | None => let! d := free_segment d base in ret (false, d, s)
      | Some (i, shm) =>
          let! r := register_shm_via_ipc d shm true s in
          if negb (r.1 =? 0)
          then let! d := free_segment d (base_addr shm) in ret (false, d, r.2)
          else
            let d := with_shms d (<[i := mark_local shm]> (shms d)) in
            (* best effort *)
            let! hot := request_hot_cache_fd d r.2 in
            ret (true, hot.2, r.2)
      end
  end.

Definition setup_dummy (d : DummyClient) (local_buffer_size : Z)
    (server_address ipc_socket_path : string) (s : RealPeer) : pio (Z * DummyClient * RealPeer) :=
  let! r := connect d server_address s in
  match r.1 with
  | Some _ => ret (-1, r.2, s)
  | None =>
      let d := with_path r.2 ipc_socket_path in
      let! l := (if 0 <? local_buffer_size then setup_local_buffer d local_buffer_size s
                 else ret (true, d, s)) in
      let '(ok, d, s) := l in
      if negb ok then ret (-1, d, s)
      else ret (0, with_ping d (connected_ d) true (last_ping_healthy_ d) Pinging, s)
  end.

Definition tearDownAll (d : DummyClient) (s : RealPeer) : pio (Z * DummyClient * RealPeer) :=
  let! r := unregister_shm d s in
  (match hot_cache d with
   | Some (base, size) => call (λ _, tt) (λ _, PMunmap base size)
   | None => ret tt
   end) ;;;
  (if 0 <=? hot_cache_fd_ d then close (hot_cache_fd_ d) else ret tt) ;;;
  ret (0, with_ping (with_hot d None (-1)) false false false Pinging, r.2).

(** ** Buffers *)

Definition register_buffer (d : DummyClient) (buffer size : Z) (s : RealPeer)
  : pio (Z * DummyClient * RealPeer) :=
  if buffer =? 0 then ret (-1, d, s)
  else
    match segment_of (shms d) buffer with
    | None => ret (-1, d, s)
    | Some (i, shm) =>
        let size := match hugepage with Some page => align_up size page | None => size end in
        if negb (buffer =? base_addr shm) || negb (size =? seg_size shm) then ret (-1, d, s)
        else if registered shm then ret (0, d, s)
        else
          let! r := register_shm_via_ipc d shm (is_local shm) s in
          if negb (r.1 =? 0) then ret (-1, d, r.2)
          else ret (0, with_shms d (<[i := set_registered_flag true shm]> (shms d)), r.2)
    end.

Definition unregister_buffer (d : DummyClient) (buffer : Z) (s : RealPeer)
  : pio (Z * DummyClient * RealPeer) :=
  if buffer =? 0 then ret (-1, d, s)
  else
    match segment_of (shms d) buffer with
    | None => ret (-1, d, s)
    | Some (i, shm) =>
        if negb (registered shm) then ret (-1, d, s)
        else if negb (buffer =? base_addr shm) then ret (-1, d, s)
        else
          let! r := on_rpc (invoke_rpc (connected_ d)
                      (over_contexts (unregister_shm_buffer_internal c buffer (client_id_ d))) s) in
          ret (to_py_ret toInt r.1,
               match r.1 with
               | Ok _ => with_shms d (<[i := set_registered_flag false shm]> (shms d))
               | Err _ => d
               end, r.2)
    end.

Definition register_spdk_gpu_buffer (buffer size : Z) : Z := -1.
Definition unregister_spdk_gpu_buffer (buffer : Z) : Z := -1.

(** ** The ping thread *)

(** Register the segments again; [false] at the first failure. *)
Fixpoint reregister (d : DummyClient) (segments : list ShmSegment) (s : RealPeer)
  : pio (bool * RealPeer) :=
  match segments with
  | [] => ret (true, s)
  | shm :: segments' =>
      if negb (registered shm) then reregister d segments' s
      else
        let! r := register_shm_via_ipc d shm (is_local shm) s in
        if negb (r.1 =? 0) then ret (false, r.2) else reregister d segments' r.2
  end.

(** One turn of the outer loop: with [max_ping_fail_count] 1 the first failure
    starts the reconnection. *)
Definition ping_turn (d : DummyClient) (s : RealPeer) : pio (DummyClient * RealPeer) :=
  let! r := ping_ok d s in
  if r.1 then ret (with_ping d (connected_ d) (ping_running_ d) true Pinging, r.2)
  else ret (with_ping d false (ping_running_ d) false Reconnecting, r.2).

(** One turn of the reconnection loop. *)
Definition reconnect_turn (d : DummyClient) (s : RealPeer) : pio (DummyClient * RealPeer) :=
  let! all_registered := reregister d (shms d) s in
  if negb all_registered.1 then ret (d, all_registered.2)
  else
    let! check_rpc := ping_ok d all_registered.2 in
    if check_rpc.1
    then ret (with_ping d true (ping_running_ d) (last_ping_healthy_ d) Pinging, check_rpc.2)
    else ret (d, check_rpc.2).

(** The thread does nothing once [ping_running_] is false. *)
Definition ping_thread_turn (d : DummyClient) (s : RealPeer) : pio (DummyClient * RealPeer) :=
  if negb (ping_running_ d) then ret (d, s)
  else match mode d with
       | Pinging => ping_turn d s
       | Reconnecting => reconnect_turn d s
       end.
End Dummy.

Inductive HealthCheckStatus := HC_HEALTHY | HC_NOT_INITIALIZED | HC_MASTER_UNREACHABLE.

Definition health_check (d : DummyClient) : HealthCheckStatus :=
  if negb (ping_running_ d) then HC_NOT_INITIALIZED
  else if negb (connected_ d) then HC_MASTER_UNREACHABLE
  else if negb (last_ping_healthy_ d) then HC_MASTER_UNREACHABLE
  else HC_HEALTHY.
