(* ===== verification/DummyClientSpec.v ===== *)
(** * What the connection of a dummy client guarantees

    Every segment the dummy client takes for registered is mapped by the real
    client, from set-up on and again after each reconnection; sockets, received
    descriptors and the mapping of the hot cache are given back. *)

From S2P Require Import Prelude CxxString StoreTypes ReplicaPolicy Samples Segments SegmentsSpec Accounting DummyMap RangedRead RealSegments RealSegmentsSpec RealShm RealShmSpec DummyRpc DummyBuffersSpec DummyClient.
From stdpp Require Import base strings list sets gmap fin_maps.
From Stdlib Require Import ZArith Lia.

#[local] Open Scope Z_scope.
#[local] Set Default Proof Using "Type".

(** ** Mappings at the real client *)

Definition mapped_for (id : UUID) (ctxs : shm_contexts) (base : Z) : Prop :=
  is_shm_mapped_internal base id ctxs = true.

Lemma mapped_default id ctxs base :
  mapped_for id ctxs base ↔
  existsb (has_base base) (mapped_shms (default empty_context (ctxs !! id))) = true.
Proof. unfold mapped_for, is_shm_mapped_internal. by destruct (ctxs !! id). Qed.

Section Server.
Context `{!SegmentServices, !MapServices}.
Context (c : Client) (max_mr_size : Z) (GPU_PREFIX kWildcardLocation : string).
Context (create_allocator : Z → Z → Allocator).

Abbreviation map_shm :=
  (map_shm_internal_with_device c max_mr_size GPU_PREFIX kWildcardLocation create_allocator).

(** A mapping request keeps the mappings that are there. *)
Lemma map_shm_keeps fd base size is_local id ctxs h r ctxs' evs :
  map_shm fd base size is_local id ctxs h = ((r, ctxs'), evs) →
  ∀ id' b, mapped_for id' ctxs b → mapped_for id' ctxs' b.
Proof.
  intros R id' b Hb.
  assert (Hins : ∀ context, (∀ b, existsb (has_base b) (mapped_shms (default empty_context (ctxs !! id)))
                               = true → existsb (has_base b) (mapped_shms context) = true) →
            mapped_for id' (<[id := context]> ctxs) b).
  { intros context Hc. apply mapped_default. destruct (decide (id' = id)) as [->|Hne].
    - rewrite lookup_insert_eq. cbn. by apply Hc, mapped_default.
    - rewrite lookup_insert_ne by done. by apply mapped_default. }
  unfold map_shm_internal_with_device in R. destruct (existsb _ _) eqn:Hex.
  { by apply bind_inv in R as (u & e1 & e2 & _ & [[= -> ->] ->]%ret_inv & ->). }
  destruct (fd <? 0); [by apply ret_inv in R as [[= -> ->] _]|].
  apply bind_inv in R as (o & e1 & e2 & _ & R & ->).
  destruct o as [p|]; [|by apply bind_inv in R as (? & ? & ? & _ & [[= -> ->] _]%ret_inv & _)].
  apply bind_inv in R as (u & e3 & e4 & _ & R & ->).
  apply bind_inv in R as (rg & e5 & e6 & _ & R & ->). destruct rg as [u'|e].
  - destruct is_local; [destruct (client_buffer_allocator _) eqn:Ha|].
    + apply bind_inv in R as (? & ? & ? & _ & [[= -> ->] _]%ret_inv & _). by apply Hins.
    + apply ret_inv in R as [[= -> ->] ->]. rewrite insert_insert_eq. apply Hins. cbn.
      intros b' Hb'. by rewrite existsb_app, Hb'.
    + apply ret_inv in R as [[= -> ->] ->]. rewrite insert_insert_eq. apply Hins. cbn.
      intros b' Hb'. by rewrite existsb_app, Hb'.
  - apply bind_inv in R as (? & ? & ? & _ & [[= -> ->] _]%ret_inv & _). by apply Hins.
Qed.

Lemma map_shm_maps fd base size is_local id ctxs h ctxs' evs :
  map_shm fd base size is_local id ctxs h = ((Ok tt, ctxs'), evs) → mapped_for id ctxs' base.
Proof.
  intros R. apply map_shm_run in R as [[-> Hex]|(_ & h' & p & a & _ & ->)].
  - by apply mapped_default.
  - apply mapped_default. rewrite lookup_insert_eq. cbn. rewrite existsb_app. cbn.
    unfold has_base at 2. cbn. rewrite Z.eqb_refl. apply orb_true_r.
Qed.

Lemma handle_register_run fd req ctxs h status ctxs' evs :
  handle_ipc_shm_register c max_mr_size GPU_PREFIX kWildcardLocation create_allocator fd req ctxs h
    = ((status, ctxs'), evs) →
  (∀ id b, mapped_for id ctxs b → mapped_for id ctxs' b) ∧
  (status = Some 0 → mapped_for (req_client_id req) ctxs' (req_dummy_base_addr req)).
Proof.
  intros R. unfold handle_ipc_shm_register in R.
  destruct (fd <? 0); [by apply ret_inv in R as [[= -> ->] _]|].
  apply bind_inv in R as ([r s] & e1 & e2 & R & [[= -> ->] ->]%ret_inv & ->).
  split; [by eapply map_shm_keeps|]. destruct r as [[]|e]; [|done]. intros _. by eapply map_shm_maps.
Qed.

(** Unregistering one address keeps the others. *)
Lemma split_shm_others base shms x rest b :
  split_shm base shms = Some (x, rest) → b ≠ base →
  existsb (has_base b) rest = existsb (has_base b) shms.
Proof.
  intros Hs Hne. revert rest Hs. induction shms as [|s shms IH]; intros rest Hs; [done|]. cbn in Hs.
  destruct (has_base base s) eqn:Hb.
  - injection Hs as -> ->. cbn. unfold has_base in *. apply Z.eqb_eq in Hb.
    destruct (Z.eqb_spec (dummy_base_addr x) b); [congruence|done].
  - destruct (split_shm base shms) as [[y r]|]; [|done]. injection Hs as -> <-. cbn. by rewrite (IH r).
Qed.

Lemma unregister_shm_keeps base id ctxs h r ctxs' evs :
  unregister_shm_buffer_internal c base id ctxs h = ((r, ctxs'), evs) →
  (∀ b, b ≠ base → mapped_for id ctxs b → mapped_for id ctxs' b) ∧
  (∀ e, r = Err e → ctxs' = ctxs).
Proof.
  intros R. unfold unregister_shm_buffer_internal in R.
  destruct (ctxs !! id) as [context|] eqn:Hid; [|by apply ret_inv in R as [[= -> ->] _]].
  destruct (split_shm _ _) as [[x rest]|] eqn:Hs; [|by apply ret_inv in R as [[= -> ->] _]].
  assert (Hrm : ∀ b, b ≠ base → mapped_for id ctxs b →
    mapped_for id (<[id := MkShmContext rest (client_buffer_allocator context)
                             (active_handles context)]> ctxs) b).
  { intros b Hb. rewrite !mapped_default, lookup_insert_eq, Hid. cbn.
    by rewrite (split_shm_others _ _ _ _ _ Hs Hb). }
  destruct (_ =? _); [by apply ret_inv in R as [[= -> ->] _]|].
  apply bind_inv in R as (rc & e1 & e2 & _ & R & _). destruct rc;
    [|by apply ret_inv in R as [[= -> ->] _]].
  by apply bind_inv in R as (? & ? & ? & _ & [[= -> ->] _]%ret_inv & _).
Qed.
End Server.

(** ** Segments of the dummy client *)

Section Client.
Context `{!SegmentServices, !MapServices, !RpcTransport map_event, !DummyServices}.
Context (c : Client) (max_mr_size : Z) (GPU_PREFIX kWildcardLocation : string).
Context (create_allocator : Z → Z → Allocator).
Context (hot_segment : option (Z * Z)) (ping_capacity : nat).
Context (get_shm : list ShmSegment → Z → option nat).
Context (hugepage : option Z) (align_up : Z → Z → Z) (toInt : ErrorCode → Z).

Abbreviation register_ipc :=
  (register_shm_via_ipc c max_mr_size GPU_PREFIX kWildcardLocation create_allocator).

(** The mappings of [s] are still there in [s']. *)
Definition keeps_mappings (s s' : RealPeer) : Prop :=
  ∀ id b, mapped_for id (peer_contexts s) b → mapped_for id (peer_contexts s') b.

Definition seg_mapped (id : UUID) (s : RealPeer) (shm : ShmSegment) : Prop :=
  registered shm = true → mapped_for id (peer_contexts s) (base_addr shm).

#[local] Instance keeps_refl : Reflexive keeps_mappings.
Proof. by intros s id b. Qed.

Lemma keeps_trans s1 s2 s3 : keeps_mappings s1 s2 → keeps_mappings s2 s3 → keeps_mappings s1 s3.
Proof. unfold keeps_mappings. eauto. Qed.

Lemma seg_mapped_keeps id s s' l :
  keeps_mappings s s' → Forall (seg_mapped id s) l → Forall (seg_mapped id s') l.
Proof. intros Hk Hl. eapply Forall_impl; [exact Hl|]. intros shm Hm Hr. by apply Hk, Hm. Qed.

Lemma exchange_run sock id shm is_local s h r s' evs :
  exchange_register c max_mr_size GPU_PREFIX kWildcardLocation create_allocator sock id shm is_local
    s h = ((r, s'), evs) →
  keeps_mappings s s' ∧ (r = inl 0 → mapped_for id (peer_contexts s') (base_addr shm)).
Proof.
  intros R. apply bind_inv in R as (o & e1 & e2 & _ & R & ->).
  assert (Hserve : ∀ fd h r evs, serve_register c max_mr_size GPU_PREFIX kWildcardLocation
      create_allocator fd id shm is_local s h = (r, evs) →
    keeps_mappings s r.2 ∧ (r.1 = Some 0 → mapped_for id (peer_contexts r.2) (base_addr shm))).
  { clear. intros fd h r evs R.
    apply bind_inv in R as ([st ctxs] & e1 & e2 & R & [-> ->]%ret_inv & ->).
    apply lift_inv in R as (e & R & _). apply lift_inv in R as (e' & R & _).
    apply handle_register_run in R as [Hk Hm]. split; [exact Hk|exact Hm]. }
  destruct o; [apply ret_inv in R as [[= -> ->] _]; by split|..];
    apply bind_inv in R as ([st s2] & e3 & e4 & [Hk Hm]%Hserve & [[= -> ->] _]%ret_inv & _).
  - by split.
  - split; [done|]. intros Hs. apply Hm. cbn in *. destruct st; [|done]. by injection Hs as ->.
Qed.

Lemma register_ipc_run d shm is_local s h r s' evs :
  register_ipc d shm is_local s h = ((r, s'), evs) →
  keeps_mappings s s' ∧
  (r = 0 → mapped_for (client_id_ d) (peer_contexts s') (base_addr shm)).
Proof.
  intros R. unfold register_shm_via_ipc in R.
  assert (Hret : ∀ sock h evs, (close sock ;;; ret (-1, s)) h = ((r, s'), evs) →
    keeps_mappings s s' ∧ (r = 0 → mapped_for (client_id_ d) (peer_contexts s') (base_addr shm))).
  { clear. intros sock h evs (? & ? & ? & _ & [[= -> ->] _]%ret_inv & _)%bind_inv. by split. }
  destruct (seg_fd shm <? 0); [apply ret_inv in R as [[= -> ->] _]; by split|].
  apply bind_inv in R as (sock & e1 & e2 & _ & R & _).
  destruct (sock <? 0); [apply ret_inv in R as [[= -> ->] _]; by split|].
  destruct (_ <? _)%nat; [by eapply Hret|].
  do 3 (apply bind_inv in R as (rc & ? & ? & _ & R & _); destruct (rc <? 0); [by eapply Hret|];
        clear rc).
  apply bind_inv in R as ([st s2] & e3 & e4 & [Hk Hm]%exchange_run & R & _).
  apply bind_inv in R as (? & ? & ? & _ & [[= -> ->] _]%ret_inv & _). cbn [fst snd]. split; [done|].
  intros Hz. apply Hm. destruct st as [st|rc]; cbn in Hz.
  - destruct (Z.eqb_spec st 0) as [->|]; done.
  - by destruct (rc <? 0).
Qed.

Lemma ping_ok_run healthy view d s h b s' evs :
  ping_ok ping_capacity healthy view d s h = ((b, s'), evs) → peer_contexts s' = peer_contexts s.
Proof.
  intros R. apply bind_inv in R as ([r s2] & e1 & e2 & R & [[= _ ->] _]%ret_inv & _).
  apply lift_inv in R as (e & R & _). cbn.
  apply invoke_rpc_run in R as [(_ & -> & _)|(_ & h' & r' & R & _)]; [done|].
  by apply ret_inv in R as [[= _ ->] _].
Qed.

Lemma reregister_run d segments : ∀ s h ok s' evs,
  reregister c max_mr_size GPU_PREFIX kWildcardLocation create_allocator d segments s h
    = ((ok, s'), evs) →
  keeps_mappings s s' ∧ (ok = true → Forall (seg_mapped (client_id_ d) s') segments).
Proof.
  induction segments as [|shm segments IH]; intros s h ok s' evs R; cbn in R.
  { apply ret_inv in R as [[= -> ->] _]. split; [done|]. constructor. }
  destruct (registered shm) eqn:Hr; cbn in R.
  - apply bind_inv in R as ([r s2] & e1 & e2 & [Hk Hm]%register_ipc_run & R & _). cbn in R.
    destruct (Z.eqb_spec r 0) as [->|]; cbn in R; [|by apply ret_inv in R as [[= -> ->] _]].
    apply IH in R as [Hk2 Hm2]. split; [by eapply keeps_trans|]. intros Hok.
    constructor; [|by apply Hm2]. intros _. apply Hk2. auto.
  - apply IH in R as [Hk Hm]. split; [done|]. intros Hok. constructor; [|by apply Hm].
    intros ?. congruence.
Qed.
Lemma segment_of_Some l a i shm : segment_of get_shm l a = Some (i, shm) → l !! i = Some shm.
Proof.
  unfold segment_of. intros (j & _ & (x & Hx & [= -> ->])%bind_Some)%bind_Some. done.
Qed.

(** [ShmHelper] places segments apart from the ones that are there. *)
Definition fresh_segments (d : DummyClient) (evs : list peer_event) : Prop :=
  ∀ n base k fd, PAllocate n (Some (base, k, fd)) ∈ evs → base ∉ base_addr <$> shms d.

(** The operations of a dummy client after a successful set-up, its ping thread, and
    what happens at the real client, in any order.  The last component says whether
    the real client may lack mappings of segments that count as registered: it was
    restarted, the client's time was over, or the answer to an unregistration was
    lost since the last (re)connection, or the process had registered segments under
    another client before.  An operation runs without the real client losing mappings
    during it. *)
Inductive dummy_run : DummyClient → RealPeer → bool → Prop :=
| run_setup id l n addr path s h d s' e :
    NoDup (base_addr <$> l) → fresh_segments (new_dummy id l) e →
    setup_dummy c max_mr_size GPU_PREFIX kWildcardLocation create_allocator hot_segment get_shm
      (new_dummy id l) n addr path s h = ((0, d, s'), e) →
    dummy_run d s' (existsb registered l)
| run_turn healthy view d s lost h d' s' e :
    dummy_run d s lost →
    ping_thread_turn c max_mr_size GPU_PREFIX kWildcardLocation create_allocator ping_capacity
      healthy view d s h = ((d', s'), e) →
    dummy_run d' s' (match mode d, mode d' with Reconnecting, Pinging => false | _, _ => lost end)
| run_register d s lost buffer size h r d' s' e :
    dummy_run d s lost →
    register_buffer c max_mr_size GPU_PREFIX kWildcardLocation create_allocator get_shm hugepage
      align_up d buffer size s h = ((r, d', s'), e) →
    dummy_run d' s' lost
| run_unregister d s lost lost' buffer h r d' s' e :
    dummy_run d s lost →
    unregister_buffer c get_shm toInt d buffer s h = ((r, d', s'), e) →
    (lost' = false → lost = false ∧ PRpc (DRpc ReplyLost) ∉ e) →
    dummy_run d' s' lost'
| run_alloc d s lost size h base d' e :
    dummy_run d s lost → base ∉ base_addr <$> shms d →
    alloc_from_mem_pool d size h = ((base, d'), e) → dummy_run d' s lost
| run_others d s lost s' :
    dummy_run d s lost →
    peer_contexts s' !! client_id_ d = peer_contexts s !! client_id_ d → dummy_run d s' lost
| run_lost d s lost s' : dummy_run d s lost → dummy_run d s' true.

Definition segments_inv (d : DummyClient) (s : RealPeer) (lost : bool) : Prop :=
  NoDup (base_addr <$> shms d) ∧
  (lost = false → Forall (seg_mapped (client_id_ d) s) (shms d)).

Lemma bases_insert (l : list ShmSegment) i shm shm' :
  l !! i = Some shm → base_addr shm' = base_addr shm →
  base_addr <$> <[i := shm']> l = base_addr <$> l.
Proof.
  intros Hi Hb. rewrite list_fmap_insert, Hb. apply list_insert_id. by rewrite list_lookup_fmap, Hi.
Qed.

Lemma request_hot_segments d s h r d' evs :
  request_hot_cache_fd hot_segment d s h = ((r, d'), evs) →
  shms d' = shms d ∧ client_id_ d' = client_id_ d.
Proof.
  intros R. unfold request_hot_cache_fd in R.
  assert (Hret : ∀ sock h evs, (close sock ;;; ret (-1, d)) h = ((r, d'), evs) →
    shms d' = shms d ∧ client_id_ d' = client_id_ d).
  { clear. by intros sock h evs (? & ? & ? & _ & [[= -> ->] _]%ret_inv & _)%bind_inv. }
  apply bind_inv in R as (sock & e1 & e2 & _ & R & _).
  destruct (sock <? 0); [by apply ret_inv in R as [[= -> ->] _]|].
  do 3 (apply bind_inv in R as (rc & ? & ? & _ & R & _); destruct (rc <? 0); [by eapply Hret|];
        clear rc).
  apply bind_inv in R as ([fd [status size]] & e3 & e4 & _ & R & _).
  apply bind_inv in R as (? & ? & ? & _ & R & _).
  destruct (_ || _); [by apply bind_inv in R as (? & ? & ? & _ & [[= -> ->] _]%ret_inv & _)|].
  apply bind_inv in R as (base & ? & ? & _ & R & _). destruct base as [base|]; [|by eapply Hret].
  by apply ret_inv in R as [[= -> ->] _].
Qed.

(** Segments that are not registered need no mapping. *)
Lemma unregistered_mapped id s l : existsb registered l = false → Forall (seg_mapped id s) l.
Proof.
  induction l as [|x l IH]; [constructor|]. cbn. intros [Hx Hl]%orb_false_iff.
  constructor; [|by apply IH]. intros Hr. congruence.
Qed.

Lemma allocate_bases d n h r d' evs :
  NoDup (base_addr <$> shms d) → fresh_segments d evs → allocate d n h = ((r, d'), evs) →
  NoDup (base_addr <$> shms d') ∧ existsb registered (shms d') = existsb registered (shms d) ∧
  client_id_ d' = client_id_ d ∧ (∀ base, r = Some base → base ∈ base_addr <$> shms d').
Proof.
  intros Hnd Hfresh R.
  apply bind_inv in R as (seg & ? & ? & [_ ->]%call_inv & [Hr ->]%ret_inv & ->).
  destruct seg as [[[base k] fd]|]; injection Hr as -> ->; [|done].
  assert (base ∉ base_addr <$> shms d) by (eapply Hfresh; by left). cbn.
  rewrite fmap_app, existsb_app. cbn. rewrite orb_false_r. split_and!; [|done|done|].
  - apply NoDup_app. split_and!; [done| |repeat constructor; set_solver].
    intros y Hy Hy2. by apply list_elem_of_singleton in Hy2 as ->.
  - intros base' [= <-]. rewrite elem_of_app. right. by left.
Qed.

Lemma setup_buffer_run d n s h ok d' s' evs :
  setup_local_buffer c max_mr_size GPU_PREFIX kWildcardLocation create_allocator hot_segment get_shm
    d n s h = ((ok, d', s'), evs) →
  NoDup (base_addr <$> shms d) → fresh_segments d evs → ok = true →
  segments_inv d' s' (existsb registered (shms d)).
Proof.
  intros R Hnd Hfresh Hok. apply bind_inv in R as ([o d1] & e1 & e2 & R1 & R & ->). cbn [fst snd] in R.
  apply allocate_bases in R1 as (Hnd1 & Hreg & _ & _); [|done|];
    [|intros m base k fd Ha; eapply Hfresh, elem_of_app; by left].
  destruct o as [base|]; [|by apply ret_inv in R as [[= -> -> ->] _]].
  destruct (segment_of _ _ _) as [[i shm]|] eqn:Hi;
    [|by apply bind_inv in R as (? & ? & ? & _ & [[= -> -> ->] _]%ret_inv & _)].
  apply segment_of_Some in Hi.
  apply bind_inv in R as ([r s2] & e3 & e4 & [Hk Hm]%register_ipc_run & R & _). cbn [fst snd] in R.
  destruct (Z.eqb_spec r 0) as [->|]; cbn [negb] in R;
    [|by apply bind_inv in R as (? & ? & ? & _ & [[= -> -> ->] _]%ret_inv & _)].
  apply bind_inv in R as ([hr d2] & e5 & e6 & [Hsh Hid]%request_hot_segments
    & [[= -> -> ->] _]%ret_inv & _).
  unfold segments_inv. cbn [snd]. rewrite Hsh, Hid. cbn [shms with_shms client_id_]. split.
  - by rewrite (bases_insert _ _ _ _ Hi).
  - intros Hl. rewrite <- Hreg in Hl. apply Forall_insert; [by apply unregistered_mapped|].
    intros _. by apply Hm.
Qed.

Lemma setup_segments id l n addr path s h d s' evs :
  NoDup (base_addr <$> l) → fresh_segments (new_dummy id l) evs →
  setup_dummy c max_mr_size GPU_PREFIX kWildcardLocation create_allocator hot_segment get_shm
    (new_dummy id l) n addr path s h = ((0, d, s'), evs) → segments_inv d s' (existsb registered l).
Proof.
  intros Hnd Hfresh R. apply bind_inv in R as ([err d1] & e1 & e2 & R1 & R & ->). cbn [fst snd] in R.
  assert (Hl : shms (with_path d1 path) = l).
  { apply bind_inv in R1 as ([r s1] & ? & ? & _ & [Hr _]%ret_inv & _). cbn in Hr.
    by destruct r; injection Hr as -> ->. }
  destruct err; [by apply ret_inv in R as [[= ? ? ?] _]|].
  apply bind_inv in R as ([[ok d2] s2] & e3 & e4 & R2 & R & ->).
  destruct ok; cbn [negb] in R; [|by apply ret_inv in R as [? _]].
  apply ret_inv in R as [[= -> ->] _]. rewrite <- Hl in *. destruct (0 <? n).
  - apply (setup_buffer_run _ _ _ _ _ _ _ _ R2 Hnd); [|done].
    intros m base k fd Ha. eapply (Hfresh m base k fd). rewrite !elem_of_app. auto.
  - apply ret_inv in R2 as [[= -> ->] _]. split; [done|]. apply unregistered_mapped.
Qed.

Lemma turn_segments healthy view d s lost h d' s' evs :
  ping_thread_turn c max_mr_size GPU_PREFIX kWildcardLocation create_allocator ping_capacity
    healthy view d s h = ((d', s'), evs) →
  segments_inv d s lost →
  segments_inv d' s' (match mode d, mode d' with Reconnecting, Pinging => false | _, _ => lost end).
Proof.
  intros R [Hnd Hm]. unfold ping_thread_turn in R.
  destruct (ping_running_ d); cbn [negb] in R;
    [|apply ret_inv in R as [[= -> ->] _]; split; [done|by destruct (mode d)]].
  destruct (mode d) eqn:Hmode.
  - apply bind_inv in R as ([b s2] & e1 & e2 & Hp%ping_ok_run & R & _). cbn [fst snd] in R.
    assert (segments_inv d s2 lost) as [_ Hm2].
    { split; [done|]. intros Hl. eapply seg_mapped_keeps; [|by apply Hm]. intros id b'. by rewrite Hp. }
    by destruct b; apply ret_inv in R as [[= -> ->] _].
  - apply bind_inv in R as ([ok s2] & e1 & e2 & [Hk Hre]%reregister_run & R & _). cbn [fst snd] in R.
    destruct ok; cbn [negb] in R.
    + apply bind_inv in R as ([b s3] & e3 & e4 & Hp%ping_ok_run & R & _). cbn [fst snd] in R.
      assert (Forall (seg_mapped (client_id_ d) s3) (shms d)).
      { eapply seg_mapped_keeps; [|by apply Hre]. intros id b'. by rewrite Hp. }
      destruct b; apply ret_inv in R as [[= -> ->] _]; [done|]. rewrite Hmode. by split.
    + apply ret_inv in R as [[= -> ->] _]. rewrite Hmode. split; [done|].
      intros Hl. eapply seg_mapped_keeps; [done|]. by apply Hm.
Qed.

Lemma register_segments d s lost buffer size h r d' s' evs :
  register_buffer c max_mr_size GPU_PREFIX kWildcardLocation create_allocator get_shm hugepage
    align_up d buffer size s h = ((r, d', s'), evs) →
  segments_inv d s lost → segments_inv d' s' lost.
Proof.
  intros R [Hnd Hm]. unfold register_buffer in R.
  destruct (buffer =? 0); [by apply ret_inv in R as [[= -> -> ->] _]|].
  destruct (segment_of _ _ _) as [[i shm]|] eqn:Hso; [|by apply ret_inv in R as [[= -> -> ->] _]].
  apply segment_of_Some in Hso as Hi.
  destruct (_ || _); [by apply ret_inv in R as [[= -> -> ->] _]|].
  destruct (registered shm); [by apply ret_inv in R as [[= -> -> ->] _]|].
  apply bind_inv in R as ([rc s2] & e1 & e2 & [Hk Hs]%register_ipc_run & R & _). cbn [fst snd] in R.
  assert (Hm2 : lost = false → Forall (seg_mapped (client_id_ d) s2) (shms d)).
  { intros Hl. eapply seg_mapped_keeps; [done|]. by apply Hm. }
  destruct (Z.eqb_spec rc 0) as [->|]; cbn [negb] in R; apply ret_inv in R as [[= -> -> ->] _];
    [|by split]. split; cbn [shms with_shms client_id_].
  - by rewrite (bases_insert _ _ _ _ Hi).
  - intros Hl. apply Forall_insert; [by apply Hm2|]. intros _. by apply Hs.
Qed.

Lemma unregister_segments d s lost buffer h r d' s' evs :
  unregister_buffer c get_shm toInt d buffer s h = ((r, d', s'), evs) →
  PRpc (DRpc ReplyLost) ∉ evs → segments_inv d s lost → segments_inv d' s' lost.
Proof.
  intros R Hrl [Hnd Hm]. unfold unregister_buffer in R.
  destruct (buffer =? 0); [by apply ret_inv in R as [[= -> -> ->] _]|].
  destruct (segment_of _ _ _) as [[i shm]|] eqn:Hso; [|by apply ret_inv in R as [[= -> -> ->] _]].
  apply segment_of_Some in Hso as Hi.
  destruct (registered shm); [|by apply ret_inv in R as [[= -> -> ->] _]]. cbn [negb] in R.
  destruct (Z.eqb_spec buffer (base_addr shm)) as [->|]; [|by apply ret_inv in R as [[= -> -> ->] _]].
  apply bind_inv in R as ([rc s2] & e1 & e2 & R & [[= -> -> ->] ->]%ret_inv & ->). cbn [fst snd].
  apply lift_inv in R as (e & R & ->). rewrite app_nil_r in Hrl.
  apply invoke_rpc_run in R as [(-> & -> & _)|(_ & h' & r' & R & Ha)]; [by split|].
  destruct Ha as [[-> _]|[_ Hl]]; [|by destruct Hrl; apply list_elem_of_fmap_2].
  apply bind_inv in R as ([r2 ctxs] & e3 & e4 & [Hk He]%unregister_shm_keeps & [[= -> ->] _]%ret_inv & _).
  cbn [fst snd]. destruct r2 as [[]|err].
  - split; cbn [shms with_shms client_id_ peer_contexts with_contexts].
    + by rewrite (bases_insert _ _ _ _ Hi).
    + intros Hlost. specialize (Hm Hlost). apply Forall_forall. intros x Hx Hxr. apply Hk.
      * intros Heq. apply list_elem_of_lookup in Hx as [j Hj]. destruct (decide (i = j)) as [->|Hij].
        -- rewrite list_lookup_insert_eq in Hj by (by eapply lookup_lt_Some). by injection Hj as <-.
        -- rewrite list_lookup_insert_ne in Hj by done. destruct Hij.
           apply (NoDup_lookup _ _ _ (base_addr shm) Hnd); rewrite list_lookup_fmap;
             [by rewrite Hi|rewrite Hj; cbn; by f_equal].
      * apply list_elem_of_lookup in Hx as [j Hj]. destruct (decide (i = j)) as [->|Hij].
        -- rewrite list_lookup_insert_eq in Hj by (by eapply lookup_lt_Some). by injection Hj as <-.
        -- rewrite list_lookup_insert_ne in Hj by done. rewrite Forall_forall in Hm.
           apply Hm; [by eapply list_elem_of_lookup_2|done].
  - rewrite (He err eq_refl). split; [done|]. intros Hl. eapply seg_mapped_keeps; [|by apply Hm]. by intros id b.
Qed.
Lemma run_segments d s lost : dummy_run d s lost → segments_inv d s lost.
Proof.
  induction 1 as [id l n addr path s h d s' e Hnd Hfresh R|healthy view d s lost h d' s' e _ IH R
    |d s lost buffer size h r d' s' e _ IH R|d s lost lost' buffer h r d' s' e _ IH R Hl
    |d s lost size h base d' e _ IH Hb R|d s lost s' _ IH Hc|d s lost s' _ IH].
  - by eapply setup_segments.
  - by eapply turn_segments.
  - by eapply register_segments.
  - destruct lost'.
    + split; [|done]. destruct IH as [Hnd _]. clear Hl. unfold unregister_buffer in R.
      destruct (buffer =? 0); [by apply ret_inv in R as [[= -> -> ->] _]|].
      destruct (segment_of _ _ _) as [[i shm]|] eqn:Hso; [|by apply ret_inv in R as [[= -> -> ->] _]].
      apply segment_of_Some in Hso as Hi.
      destruct (negb _); [by apply ret_inv in R as [[= -> -> ->] _]|].
      destruct (negb _); [by apply ret_inv in R as [[= -> -> ->] _]|].
      apply bind_inv in R as ([rc s2] & e1 & e2 & _ & [[= -> -> ->] ->]%ret_inv & _). cbn.
      destruct rc; [cbn; by rewrite (bases_insert _ _ _ _ Hi)|done].
    + destruct (Hl eq_refl) as [-> Hrl]. by eapply unregister_segments.
  - apply bind_inv in R as ([o d1] & e1 & e2 & R & [[= -> ->] _]%ret_inv & _).
    apply bind_inv in R as (seg & ? & ? & _ & [Hr _]%ret_inv & _). destruct IH as [Hnd Hm].
    destruct seg as [[[b n] fd]|]; injection Hr as -> ->; [|done]. cbn in *. split; cbn.
    + rewrite fmap_app. apply NoDup_app. split_and!; [done| |repeat constructor; set_solver].
      intros y Hy Hy2. apply list_elem_of_singleton in Hy2 as ->. done.
    + intros Hl. apply Forall_app. split; [by apply Hm|]. by repeat constructor.
  - destruct IH as [Hnd Hm]. split; [done|]. intros Hl. specialize (Hm Hl).
    eapply Forall_impl; [exact Hm|]. intros shm Hsm Hr. apply mapped_default. rewrite Hc.
    by apply mapped_default, Hsm.
  - by destruct IH.
Qed.

(** C26: As long as the real client keeps what was registered, every segment a dummy
    client takes for registered is mapped there: from set-up on, through pings,
    reconnections, registrations and unregistrations in any order; and each time the
    client reconnects this holds again, whatever the real client had lost and
    whatever segments the process had registered under an earlier client. *)
Theorem registered_segments_mapped d s shm :
  dummy_run d s false → shm ∈ shms d → registered shm = true →
  is_shm_mapped_internal (base_addr shm) (client_id_ d) (peer_contexts s) = true.
Proof.
  intros [_ Hm]%run_segments Hin Hr. specialize (Hm eq_refl). rewrite Forall_forall in Hm.
  by apply Hm.
Qed.

(** *** Reconnection to a real client that kept the mappings *)

(** From the history [h0] on, sockets work and the real client answers; before it
    anything may have failed. *)
Context (h0 : list peer_event).
Context (sockets_work : ∀ h sock, h0 `prefix_of` h →
  0 ≤ p_socket h ∧ 0 ≤ p_connect h sock ∧ 0 ≤ p_send h sock).
Context (fds_sent : ∀ h sock fd, h0 `prefix_of` h → 0 ≤ p_send_fd h sock fd).
Context (ipc_served : ∀ h sock, h0 `prefix_of` h → ∃ fd, p_ipc h sock = IpcServed fd ∧ 0 ≤ fd).
Context (rpc_answered : ∀ h, h0 `prefix_of` h → rpc_outcome_of (omap rpc_event h) = Answered).

Lemma value_of_lift {E1 E2 A} (inj : E1 → E2) prj (m : comp E1 A) h :
  value_of (lift_comp inj prj m) h = value_of m (omap prj h).
Proof. unfold value_of, lift_comp. by destruct (m _). Qed.

Lemma exchange_again sock id shm is_local s h :
  h0 `prefix_of` h → mapped_for id (peer_contexts s) (base_addr shm) →
  value_of (exchange_register c max_mr_size GPU_PREFIX kWildcardLocation create_allocator sock id
              shm is_local s) h = (inl 0, s).
Proof using ipc_served.
  intros Hh Hm%mapped_default. unfold exchange_register. rewrite value_of_bind.
  destruct (ipc_served h sock Hh) as (fd & Hipc & Hfd). unfold value_of at 2. cbn [call fst].
  rewrite Hipc, value_of_bind. unfold serve_register. rewrite value_of_bind.
  unfold on_real, on_rpc, on_server. rewrite !value_of_lift. unfold handle_ipc_shm_register.
  rewrite (proj2 (Z.ltb_ge fd 0)) by done. rewrite value_of_bind.
  unfold map_shm_internal_with_device. cbn [req_client_id req_dummy_base_addr]. rewrite Hm.
  rewrite value_of_bind. by destruct s.
Qed.

Lemma register_again d shm is_local s h :
  h0 `prefix_of` h →
  0 ≤ seg_fd shm → (String.length (ipc_socket_path_ d) ≤ max_ipc_path)%nat →
  mapped_for (client_id_ d) (peer_contexts s) (base_addr shm) →
  value_of (register_ipc d shm is_local s) h = (0, s).
Proof using sockets_work fds_sent ipc_served.
  intros Hh Hfd Hpath Hm. unfold register_shm_via_ipc.
  assert (Hge : ∀ x, 0 ≤ x → (x <? 0) = false) by (intros x Hx; by apply Z.ltb_ge).
  rewrite (Hge _ Hfd), value_of_bind, (Hge (value_of _ _)) by (by apply (sockets_work _ 0)).
  rewrite (proj2 (Nat.ltb_ge _ _) Hpath).
  do 2 rewrite value_of_bind, (Hge (value_of _ _)) by (apply sockets_work; auto using prefix_app_r).
  rewrite value_of_bind, (Hge (value_of _ _)) by (apply fds_sent; auto using prefix_app_r).
  rewrite value_of_bind.
  match goal with |- context [value_of (exchange_register _ _ _ _ _ ?sk _ _ _ _) ?hh] =>
    assert (value_of (exchange_register c max_mr_size GPU_PREFIX kWildcardLocation create_allocator
              sk (client_id_ d) shm is_local s) hh = (inl 0, s)) as -> end; [|done].
  apply exchange_again; auto using prefix_app_r.
Qed.

Lemma send_answered {A S} (m : S → gio (A * S)) st h :
  rpc_outcome_of h = Answered →
  value_of (send_request m st) h =
    (Ok (value_of (m st) (omap server_event (h ++ [DRpc Answered]))).1,
     (value_of (m st) (omap server_event (h ++ [DRpc Answered]))).2).
Proof.
  intros Ha. unfold send_request. rewrite value_of_bind.
  replace (value_of (call rpc_outcome_of DRpc) h) with Answered by done.
  replace (emitted (call rpc_outcome_of DRpc) h) with [@DRpc map_event Answered]
    by (cbn; by rewrite Ha).
  rewrite value_of_bind. unfold on_server. by rewrite value_of_lift.
Qed.

Lemma ping_again view d s h :
  h0 `prefix_of` h → (length (peer_pings s) < ping_capacity)%nat →
  value_of (ping_ok ping_capacity true view d s) h =
    (true, MkPeer (peer_contexts s) (peer_pings s ++ [client_id_ d])).
Proof using rpc_answered.
  intros Hh Hq. unfold ping_ok. rewrite value_of_bind.
  assert (value_of (on_rpc (invoke_rpc true (serve_ping ping_capacity true view (client_id_ d)) s)) h =
    (Ok (view, true), MkPeer (peer_contexts s) (peer_pings s ++ [client_id_ d]))) as ->; [|done].
  unfold on_rpc. rewrite value_of_lift. unfold invoke_rpc. cbn [negb]. rewrite value_of_bind.
  rewrite send_answered by (by apply rpc_answered). unfold serve_ping, ping.
  cbn [negb]. by rewrite (proj2 (Nat.leb_gt _ _) Hq).
Qed.

Lemma reregister_again d segments s h :
  h0 `prefix_of` h →
  (String.length (ipc_socket_path_ d) ≤ max_ipc_path)%nat →
  Forall (λ shm, 0 ≤ seg_fd shm) segments → Forall (seg_mapped (client_id_ d) s) segments →
  value_of (reregister c max_mr_size GPU_PREFIX kWildcardLocation create_allocator d segments s) h
    = (true, s).
Proof using sockets_work fds_sent ipc_served.
  intros Hh Hp. revert h Hh. induction segments as [|shm segments IH]; intros h Hh Hfd Hm; [done|].
  apply Forall_cons in Hfd as [Hf Hfd], Hm as [Hs Hm]. cbn. destruct (registered shm) eqn:Hr; cbn;
    [|by apply IH].
  rewrite value_of_bind, register_again by (try done; by apply Hs).
  apply IH; auto using prefix_app_r.
Qed.

(** C31: A failed ping costs one turn of the reconnection loop, not more, when the real
    client still has the mappings and from then on answers again, whatever failed
    before: the next turn registers every segment again without changing anything at
    the real client, and the client is connected. *)
Theorem reconnects_after_failed_ping view d s lost :
  dummy_run d s lost → lost = false → ping_running_ d = true → mode d = Reconnecting →
  Forall (λ shm, 0 ≤ seg_fd shm) (shms d) →
  (String.length (ipc_socket_path_ d) ≤ max_ipc_path)%nat →
  (length (peer_pings s) < ping_capacity)%nat →
  let turn := value_of (ping_thread_turn c max_mr_size GPU_PREFIX kWildcardLocation create_allocator
                ping_capacity true view d s) h0 in
  connected_ turn.1 = true ∧ mode turn.1 = Pinging ∧
  peer_contexts turn.2 = peer_contexts s ∧ shms turn.1 = shms d.
Proof using sockets_work fds_sent ipc_served rpc_answered.
  intros [_ Hm]%run_segments Hl Hrun Hmode Hfd Hpath Hq. unfold ping_thread_turn. rewrite Hrun, Hmode.
  cbn [negb]. unfold reconnect_turn. rewrite value_of_bind, reregister_again by auto. cbn [fst snd negb].
  by rewrite value_of_bind, ping_again by auto using prefix_app_r.
Qed.
End Client.
