(* ===== verification/DummyResources.v ===== *)
(** * Descriptors, mappings and segments of a dummy client

    Every socket is closed, and the descriptor and the mapping of the hot cache are
    kept by the client until it is torn down; segments of a set-up that fails are
    freed.  The end of the file has the concrete runs. *)

From S2P Require Import Prelude CxxString StoreTypes ReplicaPolicy Samples Segments SegmentsSpec Accounting DummyMap RangedRead RealSegments RealSegmentsSpec RealChunks RealShm RealShmSpec DummyRpc DummyBuffersSpec DummyClient DummyClientSpec.
From stdpp Require Import base strings list sets gmap fin_maps.
From Stdlib Require Import ZArith Lia.

#[local] Open Scope Z_scope.
#[local] Set Default Proof Using "Type".

Inductive dummy_res :=
| DFd (fd : Z)
| DMapping (p size : Z)
| DShm (base : Z).

#[export] Instance dummy_res_eq : EqDecision dummy_res.
Proof. solve_decision. Defined.

(** A call that returns a descriptor returns none when it fails. *)
Definition valid_fd (fd : Z) : list dummy_res := if 0 <=? fd then [DFd fd] else [].

#[export] Instance peer_resources : Resources peer_event dummy_res := {|
  acquires e := match e with
    | PSocket fd | PRecvFd _ fd => valid_fd fd
    | PMmap size _ (Some p) => [DMapping p size]
    | PAllocate _ (Some (base, _, _)) => [DShm base]
    | _ => []
    end;
  release_of e := match e with
    | PClose fd => Some (DFd fd, 0)
    | PMunmap p size => Some (DMapping p size, 0)
    | PFree base => Some (DShm base, 0)
    | _ => None
    end |}.

Definition hot_res (d : DummyClient) : list dummy_res :=
  match hot_cache d with Some (p, size) => [DMapping p size] | None => [] end
    ++ valid_fd (hot_cache_fd_ d).

Definition seg_res_of (l : list ShmSegment) : list dummy_res := (λ s, DShm (base_addr s)) <$> l.

Definition client_res (d : DummyClient) : list dummy_res := hot_res d ++ seg_res_of (shms d).

Section Resources.
Context `{!SegmentServices, !MapServices, !RpcTransport map_event, !DummyServices}.
Context (c : Client) (max_mr_size : Z) (GPU_PREFIX kWildcardLocation : string).
Context (create_allocator : Z → Z → Allocator).
Context (hot_segment : option (Z * Z)) (ping_capacity : nat).
Context (get_shm : list ShmSegment → Z → option nat).
Context (hugepage : option Z) (align_up : Z → Z → Z) (toInt : ErrorCode → Z).

Lemma rpc_owns {A} (l : list dummy_res) (m : dio map_event A) : owns l (on_rpc m) (λ _, l).
Proof.
  intros h v evs R. apply lift_inv in R as (evs' & _ & ->). clear h v.
  assert (Hn : ∀ f : peer_event → list dummy_res, (∀ e, f (PRpc e) = []) → (PRpc <$> evs') ≫= f = []).
  { intros f Hf. induction evs' as [|e evs' IH]; [done|]. cbn. by rewrite Hf, IH. }
  intros r. unfold times. rewrite !Hn by done. rewrite count_nil. lia.
Qed.

Lemma sock_close_owns fd l : owns (DFd fd :: l) (DummyClient.close fd) (λ _, l).
Proof. unfold DummyClient.close. owned_call. Qed.

Lemma shm_free_owns base l : owns (DShm base :: l) (free base) (λ _, l).
Proof. unfold free. owned_call. Qed.

(** Close the socket and give up. *)
Lemma close_ret_owns {A} fd l (a : A) post :
  l ≡ₚ post a → owns (DFd fd :: l) (DummyClient.close fd ;;; ret a) post.
Proof. intros Hl. eapply owns_seq; [apply sock_close_owns|]. intros u. by apply owns_ret. Qed.

Lemma socket_owns {A} (k : Z → pio A) l post :
  (∀ sock, 0 ≤ sock → owns (DFd sock :: l) (k sock) post) →
  (∀ sock, sock < 0 → owns l (k sock) post) →
  owns l (bind (call p_socket PSocket) k) post.
Proof.
  intros Hpos Hneg.
  apply owns_bind with (mid := λ sock, valid_fd sock ++ l) (P := λ _, True); [|done|].
  - apply owns_call. intros sock r. cbn. unfold releases, refuses. cbn.
    rewrite holds_app, holds_nil. lia.
  - intros sock _. unfold valid_fd. destruct (Z.leb_spec 0 sock); [by apply Hpos|by apply Hneg].
Qed.

(** A call on the socket whose failure ends the request. *)
Lemma step_owns {A} (f : list peer_event → Z) (ev : Z → peer_event) (k : pio A) sock l (a : A) post :
  (∀ rc, acquires (ev rc) = [] ∧ release_of (ev rc) = None) →
  l ≡ₚ post a → owns (DFd sock :: l) k post →
  owns (DFd sock :: l)
    (bind (call f ev) (λ rc, if rc <? 0 then DummyClient.close sock ;;; ret a else k)) post.
Proof.
  intros Hev Hl Hk. apply owns_seq with (mid := λ _, DFd sock :: l).
  - apply owns_call. intros rc r. unfold releases, refuses. destruct (Hev rc) as [-> ->].
    rewrite holds_nil. lia.
  - intros rc. destruct (rc <? 0); [|done]. by apply close_ret_owns.
Qed.

Lemma register_ipc_owns d shm is_local s :
  owns [] (register_shm_via_ipc c max_mr_size GPU_PREFIX kWildcardLocation create_allocator d shm
             is_local s) (λ _, []).
Proof.
  unfold register_shm_via_ipc. destruct (_ <? 0); [by apply owns_ret|].
  apply socket_owns; intros sock Hs.
  2: { destruct (Z.ltb_spec sock 0); [by apply owns_ret|lia]. }
  destruct (Z.ltb_spec sock 0); [lia|]. destruct (_ <? _)%nat; [by apply close_ret_owns|].
  do 3 (apply step_owns; [done|done|]).
  apply owns_seq with (mid := λ _, [DFd sock]); [|intros r; by apply close_ret_owns].
  unfold exchange_register. apply owns_seq with (mid := λ _, [DFd sock]).
  { neutral. }
  intros o. destruct o; [by apply owns_ret|..];
    (apply owns_seq with (mid := λ _, [DFd sock]);
       [apply owns_seq with (mid := λ _, [DFd sock]); [apply rpc_owns|]|]);
    intros r; by apply owns_ret.
Qed.

Lemma exchange_hot_owns sock id s l :
  owns l (exchange_hot_cache hot_segment sock id s) (λ r, valid_fd r.1 ++ l).
Proof.
  unfold exchange_hot_cache. apply owns_seq with (mid := λ _, l); [neutral|].
  intros o. destruct (match o with IpcServed _ => _ | _ => _ end) as [[[status size] [fd|]]|];
    [|by apply owns_ret..].
  apply owns_seq with (mid := λ fd, valid_fd fd ++ l); [|intros fd'; by apply owns_ret].
  apply owns_call. intros fd' r. cbn. unfold releases, refuses. cbn.
  rewrite holds_app, holds_nil. lia.
Qed.
(** The descriptor and the mapping are the client's, on top of its segments. *)
Lemma request_hot_owns d s :
  hot_cache d = None → hot_cache_fd_ d < 0 →
  owns (client_res d) (request_hot_cache_fd hot_segment d s) (λ r, client_res r.2).
Proof.
  intros Hh Hf. assert (Hfd : valid_fd (hot_cache_fd_ d) = []).
  { unfold valid_fd. by destruct (Z.leb_spec 0 (hot_cache_fd_ d)); [lia|]. }
  unfold request_hot_cache_fd. apply socket_owns; intros sock Hs.
  2: { destruct (Z.ltb_spec sock 0); [by apply owns_ret|lia]. }
  destruct (Z.ltb_spec sock 0); [lia|]. do 3 (apply step_owns; [done|done|]).
  apply owns_seq with (mid := λ r, DFd sock :: valid_fd r.1 ++ client_res d).
  { eapply owns_conseq; [apply (exchange_hot_owns _ _ _ (DFd sock :: client_res d))|done|].
    intros r. solve_Permutation. }
  intros [fd [status size]]. cbn [fst]. eapply owns_seq; [apply sock_close_owns|]. intros u. cbn beta.
  unfold valid_fd. destruct (Z.leb_spec 0 fd) as [Hfd0|Hfd0]; destruct (Z.ltb_spec fd 0); try lia;
    cbn [orb app]; cbv iota.
  - destruct (negb (status =? 0)); [by apply close_ret_owns|].
    apply owns_seq with (mid := λ o, match o with Some p => [DMapping p size] | None => [] end
                                       ++ DFd fd :: client_res d).
    + apply owns_call. intros [p|] r; cbn; unfold releases, refuses; cbn;
        rewrite ?holds_cons, ?holds_nil; lia.
    + intros [p|]; [|by apply close_ret_owns]. apply owns_ret.
      unfold client_res, hot_res. cbn [hot_cache hot_cache_fd_ with_hot snd shms]. rewrite Hh, Hfd.
      unfold valid_fd. by destruct (Z.leb_spec 0 fd); [|lia].
  - apply owns_seq with (mid := λ _, client_res d); [by apply owns_ret|]. intros u'. by apply owns_ret.
Qed.

Lemma filter_absent l base :
  base ∉ base_addr <$> l → List.filter (λ s, negb (base_addr s =? base)) l = l.
Proof.
  induction l as [|y l IH]; [done|]. intros Hx. cbn. destruct (Z.eqb_spec (base_addr y) base) as [<-|].
  - destruct Hx. by left.
  - cbn. f_equal. apply IH. intros Hin. apply Hx. by right.
Qed.

Lemma seg_res_without l base :
  NoDup (base_addr <$> l) → base ∈ base_addr <$> l →
  seg_res_of l ≡ₚ DShm base :: seg_res_of (List.filter (λ s, negb (base_addr s =? base)) l).
Proof.
  induction l as [|x l IH]; intros Hnd Hin; [by apply elem_of_nil in Hin|].
  apply NoDup_cons in Hnd as [Hx Hnd]. cbn. destruct (Z.eqb_spec (base_addr x) base) as [Heq|Hne]; cbn.
  - rewrite Heq in *. by rewrite filter_absent.
  - rewrite IH; [apply perm_swap|done|]. apply elem_of_cons in Hin as [->|Hin]; [done|done].
Qed.

Lemma free_segment_owns d base :
  NoDup (base_addr <$> shms d) → base ∈ base_addr <$> shms d →
  owns (client_res d) (free_segment d base) client_res.
Proof.
  intros Hnd Hin. unfold free_segment.
  apply owns_seq with (mid := λ _, hot_res d ++
    seg_res_of (List.filter (λ s, negb (base_addr s =? base)) (shms d))).
  - eapply owns_pre; [|unfold client_res; rewrite (seg_res_without _ _ Hnd Hin); apply Permutation_middle].
    apply shm_free_owns.
  - intros u. by apply owns_ret.
Qed.

Lemma segment_allocate_owns d size :
  owns (client_res d) (allocate d size) (λ r, client_res r.2).
Proof.
  unfold allocate. apply owns_seq with (mid := λ seg, match seg with
    | Some (base, _, _) => [DShm base] | None => [] end ++ client_res d).
  - apply owns_call. intros [[[base n] fd]|] r; cbn; unfold releases, refuses; cbn;
      rewrite ?holds_cons, ?holds_nil; lia.
  - intros [[[base n] fd]|]; apply owns_ret; [|done]. unfold client_res, seg_res_of. cbn.
    rewrite fmap_app. solve_Permutation.
Qed.

(** Segments are changed in place: their addresses stay. *)
Lemma client_res_insert d i shm shm' :
  shms d !! i = Some shm → base_addr shm' = base_addr shm →
  client_res (with_shms d (<[i := shm']> (shms d))) = client_res d.
Proof.
  intros Hi Hb. unfold client_res, hot_res, seg_res_of. cbn. f_equal.
  rewrite list_fmap_insert. apply list_insert_id. rewrite list_lookup_fmap, Hi. cbn. by rewrite Hb.
Qed.
(** What a step of the client does to its resources. *)
Definition balanced (d : DummyClient) (evs : list peer_event) (d' : DummyClient) : Prop :=
  accounts (client_res d) evs (client_res d') ∧ NoDup (base_addr <$> shms d').

Lemma balanced_refl d : NoDup (base_addr <$> shms d) → balanced d [] d.
Proof. intros Hnd. split; [apply accounts_nil|done]. Qed.

Lemma balanced_app d1 e1 d2 e2 d3 : balanced d1 e1 d2 → balanced d2 e2 d3 → balanced d1 (e1 ++ e2) d3.
Proof. intros [Ha _] [Hb ?]. split; [by eapply accounts_app|done]. Qed.

Lemma balanced_neutral d evs : NoDup (base_addr <$> shms d) → accounts [] evs [] → balanced d evs d.
Proof.
  intros Hnd Ha. split; [|done]. apply (accounts_frame (client_res d)) in Ha.
  by rewrite app_nil_r in Ha.
Qed.

Lemma allocate_balanced d n h r d' evs :
  NoDup (base_addr <$> shms d) → fresh_segments d evs → allocate d n h = ((r, d'), evs) →
  balanced d evs d' ∧
  (∀ base, r = Some base → base ∈ base_addr <$> shms d' ∧
     hot_cache d' = hot_cache d ∧ hot_cache_fd_ d' = hot_cache_fd_ d).
Proof.
  intros Hnd Hfresh R. pose proof (segment_allocate_owns d n h _ _ R) as Ha.
  pose proof R as (Hnd' & _ & _ & Hin)%allocate_bases; [|done|done]. split; [by split|].
  intros base ->. split; [by apply Hin|].
  apply bind_inv in R as (seg & ? & ? & _ & [Hr _]%ret_inv & _).
  by destruct seg as [[[? ?] ?]|]; injection Hr as ? ->.
Qed.

Lemma free_balanced d base h d' evs :
  NoDup (base_addr <$> shms d) → base ∈ base_addr <$> shms d →
  free_segment d base h = (d', evs) → balanced d evs d'.
Proof.
  intros Hnd Hin R. split; [by eapply free_segment_owns|].
  apply bind_inv in R as (u & ? & ? & _ & [-> _]%ret_inv & _). cbn. clear -Hnd.
  induction (shms d) as [|x l IH]; [constructor|]. cbn in *. apply NoDup_cons in Hnd as [Hx Hnd].
  destruct (negb _); [|by apply IH]. cbn. constructor; [|by apply IH].
  intros (y & Hy & Hin)%list_elem_of_fmap. apply list_elem_of_In, filter_In in Hin as [Hin _].
  apply Hx. rewrite Hy. by apply list_elem_of_fmap_2, list_elem_of_In.
Qed.

Lemma insert_balanced d i shm shm' :
  NoDup (base_addr <$> shms d) → shms d !! i = Some shm → base_addr shm' = base_addr shm →
  balanced d [] (with_shms d (<[i := shm']> (shms d))).
Proof.
  intros Hnd Hi Hb. split.
  - rewrite (client_res_insert _ _ _ _ Hi Hb). apply accounts_nil.
  - cbn. by rewrite (bases_insert _ _ _ _ Hi Hb).
Qed.

(** Without a hot cache, as after construction and after a tear-down. *)
Definition no_hot_cache (d : DummyClient) : Prop := hot_cache d = None ∧ hot_cache_fd_ d < 0.

Lemma setup_buffer_balanced d n s h ok d' s' evs :
  (ok = true → no_hot_cache d) → NoDup (base_addr <$> shms d) → fresh_segments d evs →
  setup_local_buffer c max_mr_size GPU_PREFIX kWildcardLocation create_allocator hot_segment get_shm
    d n s h = ((ok, d', s'), evs) → balanced d evs d'.
Proof.
  intros Hhot Hnd Hfresh R. apply bind_inv in R as ([o d1] & e1 & e2 & R1 & R & ->). cbn [fst snd] in R.
  apply allocate_balanced in R1 as [Hb1 Hin]; [|done|];
    [|intros m base k fd Ha; eapply Hfresh, elem_of_app; by left].
  eapply balanced_app; [exact Hb1|]. destruct Hb1 as [_ Hnd1]. clear Hfresh.
  destruct o as [base|]; [|apply ret_inv in R as [[= -> -> ->] ->]; by apply balanced_refl].
  destruct (Hin base eq_refl) as (Hbase & Hh1 & Hf1).
  destruct (segment_of _ _ _) as [[i shm]|] eqn:Hi; [apply segment_of_Some in Hi|].
  2: { apply bind_inv in R as (d2 & e3 & e4 & R & [[= -> -> ->] ->]%ret_inv & ->). rewrite app_nil_r.
       by eapply free_balanced. }
  apply bind_inv in R as ([r s2] & e3 & e4 & R1 & R & ->). cbn [fst snd] in R.
  eapply balanced_app; [apply balanced_neutral; [done|by eapply register_ipc_owns]|].
  destruct (negb (r =? 0)).
  - apply bind_inv in R as (d2 & e5 & e6 & R & [[= -> -> ->] ->]%ret_inv & ->). rewrite app_nil_r.
    eapply free_balanced; [done| |done]. apply list_elem_of_fmap_2. by eapply list_elem_of_lookup_2.
  - apply bind_inv in R as ([hr d2] & e5 & e6 & R & [[= -> -> ->] ->]%ret_inv & ->). rewrite app_nil_r.
    cbn [snd]. pose proof R as [Hsh _]%request_hot_segments.
    eapply (balanced_app _ []); [by apply (insert_balanced d1 i shm (mark_local shm))|].
    split; [|rewrite Hsh; cbn; by rewrite (bases_insert _ _ _ _ Hi)].
    destruct (Hhot eq_refl) as [Hh Hf]. apply request_hot_owns in R; [exact R|cbn; by rewrite Hh1|cbn; lia].
Qed.
(** The life of a dummy client in a process that has the segments [l].  A set-up that
    succeeds finds no hot cache: the ping thread of an earlier one has to be joined by
    a tear-down, or starting another ends the process. *)
Inductive dummy_life (l : list ShmSegment) : list peer_event → DummyClient → Prop :=
| dl_new id : NoDup (base_addr <$> l) → dummy_life l [] (new_dummy id l)
| dl_setup evs d n addr path s h r d' s' e :
    dummy_life l evs d → (r = 0 → no_hot_cache d) → fresh_segments d e →
    setup_dummy c max_mr_size GPU_PREFIX kWildcardLocation create_allocator hot_segment get_shm
      d n addr path s h = ((r, d', s'), e) → dummy_life l (evs ++ e) d'
| dl_turn healthy view evs d s h d' s' e :
    dummy_life l evs d →
    ping_thread_turn c max_mr_size GPU_PREFIX kWildcardLocation create_allocator ping_capacity
      healthy view d s h = ((d', s'), e) → dummy_life l (evs ++ e) d'
| dl_register evs d buffer size s h r d' s' e :
    dummy_life l evs d →
    register_buffer c max_mr_size GPU_PREFIX kWildcardLocation create_allocator get_shm hugepage
      align_up d buffer size s h = ((r, d', s'), e) → dummy_life l (evs ++ e) d'
| dl_unregister evs d buffer s h r d' s' e :
    dummy_life l evs d →
    unregister_buffer c get_shm toInt d buffer s h = ((r, d', s'), e) → dummy_life l (evs ++ e) d'
| dl_alloc evs d size h r d' e :
    dummy_life l evs d → fresh_segments d e →
    alloc_from_mem_pool d size h = ((r, d'), e) → dummy_life l (evs ++ e) d'
| dl_teardown evs d s h r d' s' e :
    dummy_life l evs d → tearDownAll c toInt d s h = ((r, d', s'), e) → dummy_life l (evs ++ e) d'.

(** Flags do not count as resources. *)
Lemma balanced_flags d evs d' d'' :
  balanced d evs d' → client_res d'' = client_res d' → shms d'' = shms d' → balanced d evs d''.
Proof. intros [Ha Hnd] Hr Hs. split; [by rewrite Hr|by rewrite Hs]. Qed.

Lemma rpc_neutral {A} (m : dio map_event A) h v evs :
  on_rpc m h = (v, evs) → accounts ([] : list dummy_res) evs [].
Proof. apply (rpc_owns []). Qed.

Lemma setup_balanced d n addr path s h r d' s' evs :
  (r = 0 → no_hot_cache d) → NoDup (base_addr <$> shms d) → fresh_segments d evs →
  setup_dummy c max_mr_size GPU_PREFIX kWildcardLocation create_allocator hot_segment get_shm
    d n addr path s h = ((r, d', s'), evs) → balanced d evs d'.
Proof.
  intros Hhot Hnd Hfresh R. apply bind_inv in R as ([err d1] & e1 & e2 & R1 & R & ->). cbn [fst snd] in R.
  assert (balanced d e1 d1 ∧ shms d1 = shms d ∧ hot_cache d1 = hot_cache d ∧
          hot_cache_fd_ d1 = hot_cache_fd_ d) as (Hb1 & Hs1 & Hh1 & Hf1).
  { apply bind_inv in R1 as ([rr s1] & e & e' & R1 & [Hr ->]%ret_inv & ->). rewrite app_nil_r.
    apply rpc_neutral in R1. apply (balanced_neutral _ _ Hnd) in R1.
    destruct rr; injection Hr as -> ->; (split; [by eapply balanced_flags|done]). }
  destruct err; [apply ret_inv in R as [[= -> -> ->] ->]; by rewrite app_nil_r|].
  eapply balanced_app; [exact Hb1|]. destruct Hb1 as [_ Hnd1].
  apply bind_inv in R as ([[ok d2] s2] & e3 & e4 & R2 & R & ->).
  assert (Hb : balanced (with_path d1 path) e3 d2).
  { destruct (0 <? n); [|apply ret_inv in R2 as [[= -> -> ->] ->]; by apply balanced_refl].
    eapply setup_buffer_balanced; [..|exact R2]; [|done|].
    { intros ->. apply ret_inv in R as [[= -> -> ->] _]. destruct (Hhot eq_refl) as [Hh Hf].
      split; cbn; [by rewrite Hh1|lia]. }
    intros m base k fd Ha. cbn. rewrite Hs1. eapply Hfresh. rewrite !elem_of_app. eauto. }
  destruct (negb ok); apply ret_inv in R as [[= -> -> ->] ->]; rewrite app_nil_r; [exact Hb|].
  by eapply balanced_flags.
Qed.
Lemma ping_neutral healthy view d s h v evs :
  ping_ok ping_capacity healthy view d s h = (v, evs) → accounts ([] : list dummy_res) evs [].
Proof.
  intros (r & e1 & e2 & R & [_ ->]%ret_inv & ->)%bind_inv. rewrite app_nil_r. by eapply rpc_neutral.
Qed.

Lemma reregister_owns d segments : ∀ s,
  owns [] (reregister c max_mr_size GPU_PREFIX kWildcardLocation create_allocator d segments s)
    (λ _, []).
Proof.
  induction segments as [|shm segments IH]; intros s; cbn; [by apply owns_ret|].
  destruct (negb (registered shm)); [apply IH|].
  eapply owns_seq; [apply register_ipc_owns|]. intros r. cbn beta.
  destruct (negb _); [by apply owns_ret|apply IH].
Qed.

Lemma turn_balanced healthy view d s h d' s' evs :
  NoDup (base_addr <$> shms d) →
  ping_thread_turn c max_mr_size GPU_PREFIX kWildcardLocation create_allocator ping_capacity
    healthy view d s h = ((d', s'), evs) → balanced d evs d'.
Proof.
  intros Hnd R. unfold ping_thread_turn in R.
  destruct (negb _); [apply ret_inv in R as [[= -> ->] ->]; by apply balanced_refl|].
  destruct (mode d).
  - apply bind_inv in R as ([b s2] & e1 & e2 & Ha%ping_neutral & R & ->). cbn [fst snd] in R.
    destruct b; apply ret_inv in R as [[= -> ->] ->]; rewrite app_nil_r;
      (eapply balanced_flags; [by apply balanced_neutral|done|done]).
  - apply bind_inv in R as ([ok s2] & e1 & e2 & Ha%reregister_owns & R & ->). cbn [fst snd] in R.
    eapply balanced_app; [by apply balanced_neutral|].
    destruct (negb ok); [apply ret_inv in R as [[= -> ->] ->]; by apply balanced_refl|].
    apply bind_inv in R as ([b s3] & e3 & e4 & Hp%ping_neutral & R & ->). cbn [fst snd] in R.
    destruct b; apply ret_inv in R as [[= -> ->] ->]; rewrite app_nil_r;
      (eapply balanced_flags; [by apply balanced_neutral|done|done]).
Qed.

Lemma register_balanced d buffer size s h r d' s' evs :
  NoDup (base_addr <$> shms d) →
  register_buffer c max_mr_size GPU_PREFIX kWildcardLocation create_allocator get_shm hugepage
    align_up d buffer size s h = ((r, d', s'), evs) → balanced d evs d'.
Proof.
  intros Hnd R. unfold register_buffer in R. pose proof (balanced_refl d Hnd) as Hrefl.
  destruct (buffer =? 0); [by apply ret_inv in R as [[= -> -> ->] ->]|].
  destruct (segment_of _ _ _) as [[i shm]|] eqn:Hi; [|by apply ret_inv in R as [[= -> -> ->] ->]].
  apply segment_of_Some in Hi.
  destruct (_ || _); [by apply ret_inv in R as [[= -> -> ->] ->]|].
  destruct (registered shm); [by apply ret_inv in R as [[= -> -> ->] ->]|].
  apply bind_inv in R as ([rc s2] & e1 & e2 & Ha%register_ipc_owns & R & ->). cbn [fst snd] in R.
  eapply balanced_app; [by apply balanced_neutral|].
  destruct (negb (rc =? 0)); apply ret_inv in R as [[= -> -> ->] ->]; [done|].
  by eapply insert_balanced.
Qed.

Lemma unregister_balanced d buffer s h r d' s' evs :
  NoDup (base_addr <$> shms d) →
  unregister_buffer c get_shm toInt d buffer s h = ((r, d', s'), evs) → balanced d evs d'.
Proof.
  intros Hnd R. unfold unregister_buffer in R. pose proof (balanced_refl d Hnd) as Hrefl.
  destruct (buffer =? 0); [by apply ret_inv in R as [[= -> -> ->] ->]|].
  destruct (segment_of _ _ _) as [[i shm]|] eqn:Hi; [|by apply ret_inv in R as [[= -> -> ->] ->]].
  apply segment_of_Some in Hi.
  do 2 (destruct (negb _); [by apply ret_inv in R as [[= -> -> ->] ->]|]).
  apply bind_inv in R as ([rc s2] & e1 & e2 & Ha%rpc_neutral & [[= -> -> ->] ->]%ret_inv & ->).
  eapply balanced_app; [by apply balanced_neutral|]. cbn [fst snd].
  destruct rc; [by eapply insert_balanced|done].
Qed.

Lemma teardown_balanced d s h r d' s' evs :
  NoDup (base_addr <$> shms d) → tearDownAll c toInt d s h = ((r, d', s'), evs) →
  balanced d evs d' ∧ hot_res d' = [].
Proof.
  intros Hnd R. unfold tearDownAll in R.
  apply bind_inv in R as ([ur s2] & e1 & e2 & R1 & R & ->). cbn [snd] in R.
  apply bind_inv in R1 as (ur' & ? & ? & Ha%rpc_neutral & [_ ->]%ret_inv & ->). rewrite app_nil_r.
  assert (Hown : owns (client_res d)
    ((match hot_cache d with
      | Some (base, size) => call (λ _ : list peer_event, tt) (λ _, PMunmap base size)
      | None => ret tt
      end) ;;; (if 0 <=? hot_cache_fd_ d then DummyClient.close (hot_cache_fd_ d) else ret tt) ;;;
      ret (0, with_ping (with_hot d None (-1)) false false false Pinging, s2))
    (λ r, client_res r.1.2)).
  { unfold client_res at 1, hot_res, valid_fd. set (segs := seg_res_of (shms d)).
    apply owns_seq with (mid := λ _, valid_fd (hot_cache_fd_ d) ++ segs).
    - unfold valid_fd. destruct (hot_cache d) as [[p size]|]; [|by apply owns_ret]. cbn [app].
      destruct (0 <=? _); cbn [app]; owned_call.
    - intros u. apply owns_seq with (mid := λ _, segs); [|intros u'; by apply owns_ret].
      unfold valid_fd. destruct (0 <=? _); cbn [app]; [apply sock_close_owns|by apply owns_ret]. }
  pose proof (Hown _ _ _ R) as Hacc.
  apply bind_inv in R as (? & ? & ? & _ & R & _). apply bind_inv in R as (? & ? & ? & _ & R & _).
  apply ret_inv in R as [[= -> -> ->] _]. split; [|done].
  eapply balanced_app; [by apply balanced_neutral|]. by split.
Qed.

(** [ShmHelper] finds a new segment by its address. *)
Definition finds_new (d : DummyClient) (evs : list peer_event) : Prop :=
  ∀ n base k fd i shm, PAllocate n (Some (base, k, fd)) ∈ evs →
    segment_of get_shm (shms d ++ [MkSegment base k fd false false]) base = Some (i, shm) →
    base_addr shm = base.

Lemma free_new d base k fd h d' evs :
  base ∉ base_addr <$> shms d →
  free_segment (with_shms d (shms d ++ [MkSegment base k fd false false])) base h = (d', evs) →
  shms d' = shms d.
Proof.
  intros Hb R. apply bind_inv in R as (? & ? & ? & _ & [-> _]%ret_inv & _). cbn.
  rewrite List.filter_app, filter_absent by done. cbn. by rewrite Z.eqb_refl, app_nil_r.
Qed.

Lemma setup_buffer_failed d n s h d' s' evs :
  fresh_segments d evs → finds_new d evs →
  setup_local_buffer c max_mr_size GPU_PREFIX kWildcardLocation create_allocator hot_segment get_shm
    d n s h = ((false, d', s'), evs) → shms d' = shms d.
Proof.
  intros Hfresh Hfinds R. apply bind_inv in R as ([o d1] & e1 & e2 & R1 & R & ->). cbn [fst snd] in R.
  apply bind_inv in R1 as (seg & e3 & e4 & [_ ->]%call_inv & [Hr ->]%ret_inv & ->).
  destruct seg as [[[base k] fd]|]; injection Hr as -> ->; [|by apply ret_inv in R as [[= -> ->] _]].
  assert (Hb : base ∉ base_addr <$> shms d) by (eapply (Hfresh n); by left).
  destruct (segment_of _ _ _) as [[i shm]|] eqn:Hi.
  - apply (Hfinds n) in Hi; [|by left].
    apply bind_inv in R as ([r s2] & e3 & e5 & _ & R & _). cbn [fst snd] in R.
    destruct (negb (r =? 0)).
    + rewrite Hi in R. apply bind_inv in R as (d2 & e6 & e7 & R & [[= -> ->] _]%ret_inv & _).
      by eapply free_new.
    + by apply bind_inv in R as (? & ? & ? & _ & [[= ?] _]%ret_inv & _).
  - apply bind_inv in R as (d2 & e6 & e7 & R & [[= -> ->] _]%ret_inv & _). by eapply free_new.
Qed.

Lemma setup_failed d n addr path s h r d' s' evs :
  fresh_segments d evs → finds_new d evs →
  setup_dummy c max_mr_size GPU_PREFIX kWildcardLocation create_allocator hot_segment get_shm
    d n addr path s h = ((r, d', s'), evs) → r ≠ 0 → shms d' = shms d.
Proof.
  intros Hfresh Hfinds R Hr. apply bind_inv in R as ([err d1] & e1 & e2 & R1 & R & ->). cbn [fst snd] in R.
  assert (Hs1 : shms d1 = shms d).
  { apply bind_inv in R1 as ([rr s1] & ? & ? & _ & [Hx _]%ret_inv & _). cbn in Hx.
    by destruct rr; injection Hx as -> ->. }
  destruct err; [by apply ret_inv in R as [[= -> -> ->] _]|].
  apply bind_inv in R as ([[ok d2] s2] & e3 & e4 & R2 & R & ->).
  destruct ok; apply ret_inv in R as [[= -> -> ->] ->]; [done|].
  destruct (0 <? n); [|by apply ret_inv in R2 as [? _]].
  apply setup_buffer_failed in R2; [by rewrite R2|..].
  - intros m base k fd Ha. cbn. rewrite Hs1. eapply (Hfresh m base k fd). rewrite !elem_of_app. auto.
  - intros m base k fd i shm Ha. cbn. rewrite Hs1. eapply (Hfinds m base k fd). rewrite !elem_of_app. auto.
Qed.

(** C30: Whatever fails, a dummy client holds exactly the descriptor and the mapping of
    the hot cache it uses, and the segments the process has: sockets are closed on
    every path and nothing is closed twice.  A set-up that fails leaves the segments
    as they were, the one it made is freed; and after the client is torn down nothing
    of the hot cache is left.  A client is set up again only after it was torn down
    or its set-up failed. *)
Theorem dummy_resources_balanced l evs d :
  dummy_life l evs d →
  accounts (seg_res_of l) evs (client_res d) ∧
  (∀ n addr path s h r d' s' e, fresh_segments d e → finds_new d e →
     setup_dummy c max_mr_size GPU_PREFIX kWildcardLocation create_allocator hot_segment get_shm
       d n addr path s h = ((r, d', s'), e) → r ≠ 0 →
     shms d' = shms d ∧ accounts (client_res d) e (client_res d')) ∧
  (∀ s h r d' s' e, tearDownAll c toInt d s h = ((r, d', s'), e) →
     accounts (seg_res_of l) (evs ++ e) (seg_res_of (shms d))).
Proof.
  intros Hlife. assert (Hb : balanced (new_dummy (client_id_ d) l) evs d).
  { induction Hlife as [id Hl|evs d n addr path s h r d' s' e _ IH Hh Hfr R
      |healthy view evs d s h d' s' e _ IH R|evs d buffer size s h r d' s' e _ IH R
      |evs d buffer s h r d' s' e _ IH R|evs d size h r d' e _ IH Hfr R|evs d s h r d' s' e _ IH R].
    all: try (destruct IH as [IHa IHn]; eapply balanced_app; [by split|]).
    - split; [apply accounts_nil|done].
    - by eapply setup_balanced.
    - by eapply turn_balanced.
    - by eapply register_balanced.
    - by eapply unregister_balanced.
    - apply bind_inv in R as ([o d1] & e1 & e2 & R & [[= -> ->] ->]%ret_inv & ->). rewrite app_nil_r in *.
      by eapply allocate_balanced.
    - by eapply teardown_balanced. }
  destruct Hb as [Ha Hnd]. split_and!; [done|..].
  { intros n addr path s h r d' s' e Hfr Hfi R Hr. split; [by eapply setup_failed|].
    apply setup_balanced in R as [? _]; [done|done|done|done]. }
  intros s h r d' s' e R. pose proof R as [[Ht _] Hhot]%teardown_balanced; [|done].
  replace (seg_res_of (shms d)) with (client_res d').
  - eapply accounts_app; [exact Ha|done].
  - unfold client_res. rewrite Hhot. cbn. apply bind_inv in R as (? & ? & ? & _ & R & _).
    apply bind_inv in R as (? & ? & ? & _ & R & _). apply bind_inv in R as (? & ? & ? & _ & R & _).
    by apply ret_inv in R as [[= -> -> ->] _].
Qed.
End Resources.

(** ** Concrete runs *)

Definition sample_map_rpc (o : rpc_outcome) : RpcTransport map_event :=
  {| rpc_outcome_of := λ _, o; dummy_time := λ _, 0 |}.

Definition sample_sockets : DummyServices := {|
  p_socket := λ _, 3;
  p_connect := λ _ _, 0;
  p_send := λ _ _, 4;
  p_send_fd := λ _ _ _, 4;
  p_ipc := λ _ _, IpcServed 7;
  p_recv_fd := λ _ _, 9;
  p_mmap := λ _ _ _, Some 4194304;
  p_allocate := λ _ n, Some (65536, n, 11) |}.

Definition find_shm (l : list ShmSegment) (a : Z) : option nat :=
  fst <$> List.find (λ x : nat * ShmSegment,
    (base_addr x.2 <=? a) && (a <? base_addr x.2 + seg_size x.2)) (indexed l).

Abbreviation sample_setup rpc :=
  (@setup_dummy (counting_segments 0 true) shm_maps rpc sample_sockets
     sample_client 65536 "cuda:" "*" (λ _ _ _ _, None) (Some (12, 4096)) find_shm
     (new_dummy (1, 1) []) 8192 "real:1" "ipc" (MkPeer ∅ []) []).
Definition set_up_client : DummyClient := (sample_setup (sample_map_rpc Answered)).1.1.2.
Definition set_up_peer : RealPeer := (sample_setup (sample_map_rpc Answered)).1.2.
Definition set_up_events : list peer_event := (sample_setup (sample_map_rpc Answered)).2.

Definition requests_sent (h : list (dummy_event map_event)) : nat :=
  length (List.filter (λ e, match e with DRpc _ => true | _ => false end) h).

(** The second request over RPC is lost. *)
Definition second_lost : RpcTransport map_event := {|
  rpc_outcome_of h := if (requests_sent h =? 1)%nat then NotServed else Answered;
  dummy_time := λ _, 0 |}.

Abbreviation turn_after rpc h healthy d s :=
  (@ping_thread_turn (counting_segments 0 true) shm_maps rpc sample_sockets
     sample_client 65536 "cuda:" "*" (λ _ _ _ _, None) 8 healthy 0 d s h).
Abbreviation sample_turn healthy d s := (turn_after (sample_map_rpc Answered) [] healthy d s).

Abbreviation sample_run rpc d s lost :=
  (@dummy_run (counting_segments 0 true) shm_maps rpc sample_sockets
     sample_client 65536 "cuda:" "*" (λ _ _ _ _, None) (Some (12, 4096)) 8 find_shm None
     (λ n _, n) (λ _, -1) d s lost).

(** A set-up that returns 0 with its parts named. *)
Lemma set_up_parts rpc :
  (sample_setup rpc).1.1.1 = 0 →
  sample_setup rpc = ((0, (sample_setup rpc).1.1.2, (sample_setup rpc).1.2), (sample_setup rpc).2).
Proof. intros H. rewrite <- H. by rewrite <- !surjective_pairing. Qed.

Lemma set_up_run rpc :
  (sample_setup rpc).1.1.1 = 0 →
  sample_run rpc (sample_setup rpc).1.1.2 (sample_setup rpc).1.2 false.
Proof.
  intros H%set_up_parts.
  refine (run_setup _ _ _ _ _ _ _ _ _ _ _ (1, 1) [] _ _ _ _ _ _ _ _ _ _ H); [constructor|].
  by intros ? ? ? ? ? ?%elem_of_nil.
Qed.

Lemma registered_segments_mapped_witness :
  shms set_up_client = [MkSegment 65536 8192 11 true true] ∧
  is_shm_mapped_internal 65536 (1, 1) (peer_contexts set_up_peer) = true.
Proof.
  split; [by vm_compute|].
  apply (@registered_segments_mapped (counting_segments 0 true) shm_maps (sample_map_rpc Answered)
    sample_sockets sample_client 65536 "cuda:" "*" (λ _ _ _ _, None) (Some (12, 4096)) 8 find_shm
    None (λ n _, n) (λ _, -1) set_up_client set_up_peer (MkSegment 65536 8192 11 true true)
    (set_up_run (sample_map_rpc Answered) eq_refl)).
  - vm_compute. by left.
  - done.
Defined.

(** The client whose ping was not answered. *)
Definition failed_turn : DummyClient * RealPeer :=
  let up := sample_setup second_lost in (turn_after second_lost up.2 true up.1.1.2 up.1.2).1.
Definition failed_events : list peer_event :=
  let up := sample_setup second_lost in up.2 ++ (turn_after second_lost up.2 true up.1.1.2 up.1.2).2.

Lemma failed_run : sample_run second_lost failed_turn.1 failed_turn.2 false.
Proof.
  refine (run_turn _ _ _ _ _ _ _ _ _ _ _ true 0 _ _ false _ failed_turn.1 failed_turn.2 _
            (set_up_run second_lost eq_refl) _).
  rewrite <- !surjective_pairing. unfold failed_turn. cbv zeta. apply surjective_pairing.
Qed.

Lemma reconnects_after_failed_ping_witness :
  connected_ failed_turn.1 = false ∧ PRpc (DRpc NotServed) ∈ failed_events ∧
  connected_ (value_of (@ping_thread_turn (counting_segments 0 true) shm_maps second_lost
    sample_sockets sample_client 65536 "cuda:" "*" (λ _ _ _ _, None) 8 true 0 failed_turn.1
    failed_turn.2) failed_events).1 = true.
Proof.
  split_and!; [by vm_compute|apply list_elem_of_In; vm_compute; tauto|].
  apply (@reconnects_after_failed_ping (counting_segments 0 true) shm_maps second_lost
    sample_sockets sample_client 65536 "cuda:" "*" (λ _ _ _ _, None) (Some (12, 4096)) 8 find_shm
    None (λ n _, n) (λ _, -1)) with (lost := false).
  - done.
  - done.
  - intros h sock _. by exists 7.
  - intros h [h' ->]. rewrite omap_app. cbn [rpc_outcome_of second_lost]. unfold requests_sent.
    rewrite List.filter_app, length_app.
    change (length (List.filter _ (omap rpc_event failed_events)))
      with (requests_sent (omap rpc_event failed_events)).
    assert (requests_sent (omap rpc_event failed_events) = 2%nat) as -> by (by vm_compute). done.
  - exact failed_run.
  - done.
  - by vm_compute.
  - by vm_compute.
  - vm_compute. by repeat constructor.
  - vm_compute. lia.
  - vm_compute. lia.
Defined.

Abbreviation sample_life sockets evs d :=
  (@dummy_life (counting_segments 0 true) shm_maps (sample_map_rpc Answered) sockets
    sample_client 65536 "cuda:" "*" (λ _ _ _ _, None) (Some (12, 4096)) 8 find_shm None
    (λ n _, n) (λ _, -1) [] evs d).

Lemma set_up_life : sample_life sample_sockets ([] ++ set_up_events) set_up_client.
Proof.
  refine (dl_setup _ _ _ _ _ _ _ _ _ _ _ _ _ _ _ _ _ _ _ _ _ _ _ (dl_new _ _ _ _ _ _ _ _ _ _ _ _ (1, 1) _)
            _ _ (set_up_parts (sample_map_rpc Answered) eq_refl)); [constructor|done|].
  by intros ? ? ? ? ? ?%elem_of_nil.
Qed.

(** Sockets that can not be connected. *)
Definition deaf_sockets : DummyServices := {|
  p_socket := λ _, 3; p_connect := λ _ _, -1; p_send := λ _ _, 4; p_send_fd := λ _ _ _, 4;
  p_ipc := λ _ _, IpcServed 7; p_recv_fd := λ _ _, 9; p_mmap := λ _ _ _, None;
  p_allocate := λ _ n, Some (65536, n, 11) |}.

Lemma dummy_resources_balanced_witness :
  accounts [] ([] ++ set_up_events) [DMapping 4194304 4096; DFd 9; DShm 65536] ∧
  let failed := @setup_dummy (counting_segments 0 true) shm_maps (sample_map_rpc Answered)
    deaf_sockets sample_client 65536 "cuda:" "*" (λ _ _ _ _, None) (Some (12, 4096)) find_shm
    (new_dummy (1, 1) []) 8192 "real:1" "ipc" (MkPeer ∅ []) [] in
  failed.1.1.1 = -1 ∧ shms failed.1.1.2 = [].
Proof.
  split.
  - destruct (@dummy_resources_balanced (counting_segments 0 true) shm_maps (sample_map_rpc Answered)
      sample_sockets sample_client 65536 "cuda:" "*" (λ _ _ _ _, None) (Some (12, 4096)) 8 find_shm
      None (λ n _, n) (λ _, -1) [] ([] ++ set_up_events) set_up_client set_up_life) as [H _].
    assert (Hr : client_res set_up_client = [DMapping 4194304 4096; DFd 9; DShm 65536])
      by (by vm_compute). by rewrite Hr in H.
  - split; [by vm_compute|].
    destruct (@dummy_resources_balanced (counting_segments 0 true) shm_maps (sample_map_rpc Answered)
      deaf_sockets sample_client 65536 "cuda:" "*" (λ _ _ _ _, None) (Some (12, 4096)) 8 find_shm
      None (λ n _, n) (λ _, -1) [] [] (new_dummy (1, 1) [])
      (dl_new _ _ _ _ _ _ _ _ _ _ _ [] (1, 1) NoDup_nil_2)) as (_ & H & _).
    eapply H; [| |rewrite <- !surjective_pairing; reflexivity|by vm_compute].
    + by intros ? ? ? ? ? ?%elem_of_nil.
    + intros n base k fd i shm Hin. vm_compute in Hin. cbn.
      unfold segment_of, find_shm. cbn. destruct (_ && _); [|done]. by intros [= <- <-].
Defined.

(** A turn of the ping thread, a successful reconnection included, leaves the mapped
    hot cache alone: after a restart of the real client it is the old one's. *)
Theorem reconnection_keeps_hot_cache healthy d s d' s' e :
  sample_turn healthy d s = ((d', s'), e) → hot_cache d' = hot_cache d.
Proof.
  unfold ping_thread_turn. destruct (negb _); [by intros [[= -> ->] _]%ret_inv|].
  destruct (mode d); intros (r & ? & ? & _ & R & _)%bind_inv.
  - by destruct r.1; apply ret_inv in R as [[= -> ->] _].
  - destruct (negb _); [by apply ret_inv in R as [[= -> ->] _]|].
    apply bind_inv in R as (b & ? & ? & _ & R & _). by destruct b.1; apply ret_inv in R as [[= -> ->] _].
Qed.

(** A client whose time was over: its mappings are gone, its next ping is answered
    with OK, and it stays connected and healthy without registering again. *)
Theorem expired_client_looks_healthy :
  let turn := (sample_turn true set_up_client (MkPeer ∅ [])).1 in
  health_check turn.1 = HC_HEALTHY ∧ mode turn.1 = Pinging ∧
  is_shm_mapped_internal 65536 (1, 1) (peer_contexts turn.2) = false.
Proof. by vm_compute. Qed.

(** The answer to an unregistration is lost: the segment is not mapped any more, but
    the client takes it for registered, so that registering it again does nothing
    and unregistering it fails. *)
Theorem lost_unregistration_sticks :
  let unreg rpc := @unregister_buffer (counting_segments 0 true) shm_maps (sample_map_rpc rpc)
    sample_client find_shm (λ _, -1) in
  let first := (unreg ReplyLost set_up_client 65536 set_up_peer []).1 in
  let again := (@register_buffer (counting_segments 0 true) shm_maps sample_sockets
    sample_client 65536 "cuda:" "*" (λ _ _ _ _, None) find_shm None (λ n _, n)
    first.1.2 65536 8192 first.2 []).1 in
  first.1.1 = -1 ∧ again.1.1 = 0 ∧
  is_shm_mapped_internal 65536 (1, 1) (peer_contexts again.2) = false ∧
  (unreg Answered again.1.2 65536 again.2 []).1.1.1 = -1.
Proof. by vm_compute. Qed.

(** Flags of a torn-down client stay with the process: a client set up after it takes
    its segment for registered, and registering it does nothing, although the real
    client maps it for nobody. *)
Theorem later_client_not_registered :
  let down := (@tearDownAll (counting_segments 0 true) shm_maps (sample_map_rpc Answered)
    sample_client (λ _, -1) set_up_client set_up_peer []).1 in
  let next := (@setup_dummy (counting_segments 0 true) shm_maps (sample_map_rpc Answered)
    sample_sockets sample_client 65536 "cuda:" "*" (λ _ _ _ _, None) (Some (12, 4096)) find_shm
    (new_dummy (2, 2) (shms down.1.2)) 0 "real:1" "ipc" down.2 []).1 in
  let again := (@register_buffer (counting_segments 0 true) shm_maps sample_sockets
    sample_client 65536 "cuda:" "*" (λ _ _ _ _, None) find_shm None (λ n _, n)
    next.1.2 65536 8192 next.2 []).1 in
  next.1.1 = 0 ∧ again.1.1 = 0 ∧ peer_contexts again.2 !! (2, 2) = None.
Proof. by vm_compute. Qed.
