(* ===== verification/RealSetup.v ===== *)
(** * Set-up and tear-down of the real client ([mooncake-store/src/real_client.cpp])

    Set-up creates the store client, on a port it binds itself if the host name has
    none, registers the local buffer, allocates and mounts the global segment in
    pieces of at most [max_mr_size], and starts the servers.  Tear-down destroys the
    store client before it frees the memory that was mounted.  The build without
    Ascend support is modelled; [Client::Create], the memory allocators, the port
    binder and the servers are external. *)

From S2P Require Import Prelude CxxString MemoryLocation StoreTypes ReplicaPolicy Segments DummyMap RangedRead RealSegments RealShm.
From stdpp Require Import base strings list sets gmap fin_maps.
From Stdlib Require Import ZArith Lia.

#[local] Open Scope Z_scope.
#[local] Set Default Proof Using "Type".

(** ** Events and services *)

(** Where the memory of a segment comes from, and what a deleter does with it. *)
Inductive alloc_source :=
| NumaMapping (page_size : Z) (nodes : list Z)   (* allocate_buffer_numa_segments *)
| HugeMapping                                    (* allocate_buffer_mmap_memory *)
| AllocatorMemory (protocol : string).           (* allocate_buffer_allocator_memory *)

Inductive deleter :=
| FreeProtocol (protocol : string)               (* free_memory(protocol, ptr) *)
| FreeUb (size : Z)                              (* free_memory of "ub" *)
| FreeMapping (size : Z)                         (* free_buffer_mmap_memory(ptr, size) *)
| FreePlain.                                     (* free(ptr) *)

Inductive setup_event :=
| UMap (e : map_event)                           (* the store client, files and mappings *)
| USpdkEnv (ok : bool)
| UBind (port : Z)                               (* AutoPortBinder; negative: failed *)
| UUnbind (port : Z)
| UCreate (hostname : string) (c : option Client)
| UDestroy                                       (* the last reference to the client is gone *)
| UNewAllocator (size base : Z)                  (* ClientBufferAllocator::create *)
| UFreeAllocator (base : Z)
| UAlloc (src : alloc_source) (size ptr : Z)     (* 0: nullptr *)
| UFree (d : deleter) (ptr : Z)
| UStartIpc (rc : Z)
| UStartOffload (port : option Z)
| UInitStorage (r : expected unit)
| UStartHttp (rc : Z)
| UStopServers.                                  (* IPC, monitor and HTTP threads *)

Abbreviation uio A := (comp setup_event A).

Definition map_event_of (e : setup_event) : option map_event :=
  match e with UMap e => Some e | _ => None end.

Definition on_map {A} (m : gio A) : uio A := lift_comp UMap map_event_of m.
Definition on_client_segments {A} (m : sio A) : uio A := on_map (on_segments m).

Class SetupServices := {
  u_spdk_env : list setup_event → bool;
  u_bind : list setup_event → Z;
  u_create : list setup_event → string → option Client;
  u_new_allocator : list setup_event → Z → Z;
  u_alloc : list setup_event → alloc_source → Z → Z;
  u_start_ipc : list setup_event → Z;
  u_start_offload : list setup_event → option Z;
  u_init_storage : list setup_event → expected unit;
  u_start_http : list setup_event → Z }.

(** ** State *)

(** [file_storage_] with the store client it was made with: the one of [client_], or one
    that [client_] refers to no more. *)
Inductive file_storage :=
| NoStorage
| StorageOfClient
| StorageOfOld (segments : SegState).

Record SetupState := MkSetup {
  su_protocol : string;
  su_local_hostname : string;
  su_local_rpc_addr : string;
  su_ipc_socket_path : string;
  su_segments : RealSegments;                    (* client_, its segments, the records *)
  su_port : option Z;                            (* port_binder_ *)
  su_allocator : option (Z * Z);                 (* client_buffer_allocator_: base and size *)
  su_region : option (Z * Z);                    (* local_buffer_region_ *)
  su_ptrs : list (Z * deleter);                  (* segment_ptrs_ with hugepage_ and ub_ ones *)
  su_ascend_ptrs : list (Z * deleter);           (* ascend_segment_ptrs_ *)
  su_contexts : shm_contexts;
  su_storage : file_storage;                     (* file_storage_ *)
  su_requester : bool;                           (* client_requester_ *)
  su_closed : bool }.

Definition no_segments : SegState := MkSegState ∅ ∅ ∅ false [].

Definition new_real : SetupState :=
  MkSetup "" "" "" "" (MkRealSegments None no_segments ∅ ∅) None None None [] [] ∅ NoStorage false false.

Definition su_names (p h r i : string) (s : SetupState) : SetupState :=
  MkSetup p h r i (su_segments s) (su_port s) (su_allocator s) (su_region s) (su_ptrs s)
    (su_ascend_ptrs s) (su_contexts s) (su_storage s) (su_requester s) (su_closed s).
Definition su_set_segments (x : RealSegments) (s : SetupState) : SetupState :=
  MkSetup (su_protocol s) (su_local_hostname s) (su_local_rpc_addr s) (su_ipc_socket_path s) x
    (su_port s) (su_allocator s) (su_region s) (su_ptrs s) (su_ascend_ptrs s) (su_contexts s)
    (su_storage s) (su_requester s) (su_closed s).
Definition su_set_port (x : option Z) (s : SetupState) : SetupState :=
  MkSetup (su_protocol s) (su_local_hostname s) (su_local_rpc_addr s) (su_ipc_socket_path s)
    (su_segments s) x (su_allocator s) (su_region s) (su_ptrs s) (su_ascend_ptrs s)
    (su_contexts s) (su_storage s) (su_requester s) (su_closed s).
Definition su_set_buffer (a r : option (Z * Z)) (s : SetupState) : SetupState :=
  MkSetup (su_protocol s) (su_local_hostname s) (su_local_rpc_addr s) (su_ipc_socket_path s)
    (su_segments s) (su_port s) a r (su_ptrs s) (su_ascend_ptrs s) (su_contexts s) (su_storage s)
    (su_requester s) (su_closed s).
Definition su_set_ptrs (x y : list (Z * deleter)) (s : SetupState) : SetupState :=
  MkSetup (su_protocol s) (su_local_hostname s) (su_local_rpc_addr s) (su_ipc_socket_path s)
    (su_segments s) (su_port s) (su_allocator s) (su_region s) x y (su_contexts s) (su_storage s)
    (su_requester s) (su_closed s).
Definition su_set_services (storage : file_storage) (requester : bool) (s : SetupState) : SetupState :=
  MkSetup (su_protocol s) (su_local_hostname s) (su_local_rpc_addr s) (su_ipc_socket_path s)
    (su_segments s) (su_port s) (su_allocator s) (su_region s) (su_ptrs s) (su_ascend_ptrs s)
    (su_contexts s) storage requester (su_closed s).
Definition su_set_contexts (x : shm_contexts) (closed : bool) (s : SetupState) : SetupState :=
  MkSetup (su_protocol s) (su_local_hostname s) (su_local_rpc_addr s) (su_ipc_socket_path s)
    (su_segments s) (su_port s) (su_allocator s) (su_region s) (su_ptrs s) (su_ascend_ptrs s)
    x (su_storage s) (su_requester s) closed.

(** ** NUMA nodes with a NIC ([client_service.cpp]) *)

(** [std::set<int>::insert] *)
Fixpoint insert_node (x : Z) (l : list Z) : list Z :=
  match l with
  | [] => [x]
  | y :: l' => if x <? y then x :: l else if x =? y then l else y :: insert_node x l'
  end.

(** [matrix]: the entries of the local topology with their preferred devices, if there
    is one.  [None]: [std::stoi] throws. *)
Definition GetNicNumaNodes (matrix : option (list (string * list string))) : option (list Z) :=
  match matrix with
  | None => Some []
  | Some entries =>
      fold_left (λ acc entry,
        match acc with
        | None => None
        | Some nodes =>
            if negb (starts_with "cpu:" entry.1) || bool_decide (entry.2 = []) then Some nodes
            else match stoi (str_drop 4 entry.1) with
                 | Some node => Some (insert_node node nodes)
                 | None => None
                 end
        end) entries (Some [])
  end.

(** ** Configurations *)

Section Config.
(** [try_string_to_byte_size] and the constants of other files. *)
Context (try_string_to_byte_size : string → option Z).
Context (MIN_SEGMENT_SIZE MAX_SEGMENT_SIZE DEFAULT_GLOBAL DEFAULT_LOCAL : Z).
Context (HOSTNAME METADATA GLOBAL_SIZE LOCAL_SIZE PROTOCOL IPC_PATH DEFAULT_PROTOCOL : string).

Abbreviation ConfigDict := (gmap string string).

Definition get_config (config : ConfigDict) (key default_value : string) : string :=
  default default_value (config !! key).

Definition get_config_size (config : ConfigDict) (key : string) (default_value : Z) : option Z :=
  match config !! key with
  | None => Some default_value
  | Some v => try_string_to_byte_size v
  end.

Definition validate_size (value : Z) : bool :=
  negb ((negb (value =? 0) && (value <? MIN_SEGMENT_SIZE)) || (MAX_SEGMENT_SIZE <? value)).

(** What set-up is called with. *)
Record SetupArgs := MkArgs {
  arg_hostname : string;
  arg_global_size : Z;
  arg_local_size : Z;
  arg_protocol : string;
  arg_ipc_path : string;
  arg_ssd_offload : bool }.

Definition config_args (config : ConfigDict) : expected SetupArgs :=
  let local_hostname := get_config config HOSTNAME "" in
  let metadata_server := get_config config METADATA "" in
  if String.eqb local_hostname "" then Err INVALID_PARAMS
  else if String.eqb metadata_server "" then Err INVALID_PARAMS
  else
    match get_config_size config GLOBAL_SIZE DEFAULT_GLOBAL with
    | None => Err INVALID_PARAMS
    | Some global_segment_size =>
        match get_config_size config LOCAL_SIZE DEFAULT_LOCAL with
        | None => Err INVALID_PARAMS
        | Some local_buffer_size =>
            let protocol := get_config config PROTOCOL DEFAULT_PROTOCOL in
            if negb (validate_size global_segment_size) || negb (validate_size local_buffer_size)
            then Err INVALID_PARAMS
            else if negb (String.eqb protocol "tcp") && negb (String.eqb protocol "rdma")
            then Err INVALID_PARAMS
            else
              let ssd := str_tolower (get_config config "enable_ssd_offload" "false") in
              Ok (MkArgs local_hostname global_segment_size local_buffer_size protocol
                    (get_config config IPC_PATH "")
                    (String.eqb ssd "true" || String.eqb ssd "1"))
        end
    end.
End Config.

Section Setup.
Context `{!SegmentServices, !MapServices, !SetupServices}.
(** Settings: [globalConfig().max_mr_size], [getpagesize()], the huge page size, GPU
    and wildcard locations, and [ERR_ADDRESS_NOT_REGISTERED]. *)
Context (max_mr_size page_size hugepage_size ERR_ADDRESS_NOT_REGISTERED : Z).
Context (GPU_PREFIX kWildcardLocation : string).
(** The build and the environment: [USE_NOF], [MC_STORE_USE_HUGEPAGE], the number of
    attempts, [MC_CXL_DEV_SIZE], the base of the CXL device, the topology, the HTTP
    server flag. *)
Context (use_nof use_hugepage : bool) (max_retries : Z) (cxl_env : option string) (cxl_base : Z).
Context (numa_nodes : list Z) (enable_http_server : bool).
(** Helpers of other files: host names and [align_up]. *)
Context (hasExplicitPort : string → bool) (getHostNameWithoutPort : string → string).
Context (buildHostNameWithPort : string → Z → string) (align_up : Z → Z → Z).
(** Whether [FileStorage] holds a reference to its store client. *)
Context (storage_keeps_client : bool).

(** ** The store client *)

Definition destroy_client (seg : RealSegments) : uio RealSegments :=
  match rs_client seg with
  | None => ret seg
  | Some c =>
      let! s := on_client_segments (destroy_segments ERR_ADDRESS_NOT_REGISTERED (rs_segments seg)) in
      call (λ _, tt) (λ _, UDestroy) ;;;
      ret (MkRealSegments None s (mounted_segment_records_ seg) (allocated_segment_records_ seg))
  end.

(** [port_binder_.reset()] *)
Definition unbind (s : SetupState) : uio SetupState :=
  match su_port s with
  | None => ret s
  | Some port => call (λ _, tt) (λ _, UUnbind port) ;;; ret (su_set_port None s)
  end.

(** [file_storage_] shares the store client with [client_]. *)
Definition shared_client (s : SetupState) : bool :=
  match su_storage s with StorageOfClient => storage_keeps_client | _ => false end.

Definition client_ptr (o : option Client) (s : SetupState) : SetupState :=
  su_set_segments (MkRealSegments o no_segments (mounted_segment_records_ (su_segments s))
                     (allocated_segment_records_ (su_segments s))) s.

(** [client_.reset()]: the client is destroyed unless [file_storage_] refers to it. *)
Definition reset_client (s : SetupState) : uio SetupState :=
  match rs_client (su_segments s) with
  | None => ret s
  | Some _ =>
      if shared_client s
      then ret (client_ptr None (su_set_services (StorageOfOld (rs_segments (su_segments s)))
                                   (su_requester s) s))
      else let! seg := destroy_client (su_segments s) in ret (su_set_segments seg s)
  end.

(** [file_storage_.reset()]: a store client only it referred to is destroyed. *)
Definition drop_storage (s : SetupState) : uio SetupState :=
  let s' := su_set_services NoStorage (su_requester s) s in
  match su_storage s with
  | StorageOfOld segments =>
      on_client_segments (destroy_segments ERR_ADDRESS_NOT_REGISTERED segments) ;;;
      call (λ _, tt) (λ _, UDestroy) ;;;
      ret s'
  | _ => ret s'
  end.

(** [client_ = *client_opt] *)
Definition set_client (c : Client) (s : SetupState) : uio SetupState :=
  let! s := reset_client s in ret (client_ptr (Some c) s).

Definition create (hostname : string) : uio (option Client) :=
  call (λ h, u_create h hostname) (UCreate hostname).

(** The attempts with ports of its own. *)
Fixpoint try_ports (retries : nat) (hostname : string) (local_rpc_port : Z) (s : SetupState)
  : uio (bool * SetupState) :=
  match retries with
  | O => ret (false, s)
  | S retries =>
      (* the assignment destroys a binder that was there *)
      let! port := call u_bind UBind in
      let! s := unbind s in
      if port <? 0 then try_ports retries hostname local_rpc_port s
      else
        let s := su_set_port (Some port) s in
        let s := su_names (su_protocol s) (buildHostNameWithPort hostname port)
                   (buildHostNameWithPort hostname local_rpc_port) (su_ipc_socket_path s) s in
        let! client_opt := create (su_local_hostname s) in
        match client_opt with
        | Some c => let! s := set_client c s in ret (true, s)
        | None => let! s := unbind s in try_ports retries hostname local_rpc_port s
        end
  end.

Definition create_client (hostname : string) (local_rpc_port : Z) (s : SetupState)
  : uio (expected unit * SetupState) :=
  if hasExplicitPort hostname
  then
    let s := su_names (su_protocol s) hostname
               (buildHostNameWithPort (getHostNameWithoutPort hostname) local_rpc_port)
               (su_ipc_socket_path s) s in
    let! client_opt := create hostname in
    match client_opt with
    | None => ret (Err INVALID_PARAMS, s)
    | Some c => let! s := set_client c s in ret (Ok tt, s)
    end
  else
    let! r := try_ports (Z.to_nat max_retries) hostname local_rpc_port s in
    ret (if r.1 then Ok tt else Err INTERNAL_ERROR, r.2).

(** ** The local buffer *)

Definition free_allocator (s : SetupState) : uio unit :=
  match su_allocator s with
  | Some (base, _) => call (λ _, tt) (λ _, UFreeAllocator base)
  | None => ret tt
  end.

Definition setup_local_buffer (c : Client) (local_buffer_size : Z) (s : SetupState)
  : uio (expected unit * SetupState) :=
  let! base := call (λ h, u_new_allocator h local_buffer_size) (UNewAllocator local_buffer_size) in
  free_allocator s ;;;
  let s := su_set_buffer (Some (base, local_buffer_size)) (su_region s) s in
  if (0 <? local_buffer_size) && negb (String.eqb (su_protocol s) "cxl")
  then
    let! result := on_client_segments (RegisterLocalMemory c max_mr_size GPU_PREFIX base
                                         local_buffer_size kWildcardLocation) in
    match result with
    | Err e => ret (Err e, s)
    | Ok _ => ret (Ok tt, su_set_buffer (su_allocator s) (Some (base, local_buffer_size)) s)
    end
  else ret (Ok tt, s).

(** ** The global segment *)

Definition should_use_hugepage (protocol : string) : bool :=
  use_hugepage && negb (String.eqb protocol "ubshmem").

(** Nodes to spread over: only with RDMA, and more than one. *)
Definition seg_numa_nodes (protocol : string) : list Z :=
  if String.eqb protocol "rdma" && (1 <? length numa_nodes)%nat then numa_nodes else [].

(** Source, mapped size and location of a segment. *)
Definition segment_plan (protocol : string) (segment_size : Z) : alloc_source * Z * string :=
  let nodes := seg_numa_nodes protocol in
  if negb (bool_decide (nodes = [])) then
    let page_sz := if should_use_hugepage protocol then hugepage_size else page_size in
    (NumaMapping page_sz nodes, align_up segment_size (page_sz * Z.of_nat (length nodes)),
     buildSegmentsLocation page_sz nodes)
  else if should_use_hugepage protocol
  then (HugeMapping, align_up segment_size hugepage_size, kWildcardLocation)
  else (AllocatorMemory protocol, segment_size, kWildcardLocation).

(** The vector the pointer goes to, with its deleter. *)
Definition track_segment (protocol : string) (ptr mapped_size : Z) (s : SetupState) : SetupState :=
  if String.eqb protocol "ascend" || String.eqb protocol "ubshmem"
  then su_set_ptrs (su_ptrs s) (su_ascend_ptrs s ++ [(ptr, FreeProtocol protocol)]) s
  else if String.eqb protocol "ub"
  then su_set_ptrs (su_ptrs s ++ [(ptr, FreeUb mapped_size)]) (su_ascend_ptrs s) s
  else if negb (bool_decide (seg_numa_nodes protocol = [])) || should_use_hugepage protocol
  then su_set_ptrs (su_ptrs s ++ [(ptr, FreeMapping mapped_size)]) (su_ascend_ptrs s) s
  else su_set_ptrs (su_ptrs s ++ [(ptr, FreePlain)]) (su_ascend_ptrs s) s.

(** [client_->MountSegment] *)
Definition mount (c : Client) (ptr size : Z) (protocol location : string) (s : SetupState)
  : uio (expected unit * SetupState) :=
  let! r := on_client_segments (MountSegment c max_mr_size ptr size protocol location
                                  (rs_segments (su_segments s))) in
  ret (r.1, su_set_segments (with_segments (su_segments s) r.2) s).

(** The loop over the global segment; [None]: not finished within the fuel. *)
Fixpoint mount_global (fuel : nat) (c : Client) (global_segment_size : Z) (s : SetupState)
  : uio (option (expected unit) * SetupState) :=
  match fuel with
  | O => ret (None, s)
  | S fuel =>
      if global_segment_size <=? 0 then ret (Some (Ok tt), s)
      else
        let segment_size := Z.min global_segment_size max_mr_size in
        let '(src, mapped_size, location) := segment_plan (su_protocol s) segment_size in
        let! ptr := call (λ h, u_alloc h src mapped_size) (UAlloc src mapped_size) in
        if ptr =? 0 then ret (Some (Err INVALID_PARAMS), s)
        else
          let! r := mount c ptr mapped_size (su_protocol s) location
                      (track_segment (su_protocol s) ptr mapped_size s) in
          match r.1 with
          | Err e => ret (Some (Err e), r.2)
          | Ok _ => mount_global fuel c (global_segment_size - segment_size) r.2
          end
  end.

Definition global_fuel (global_segment_size : Z) : nat :=
  S (S (Z.to_nat (global_segment_size / max_mr_size))).

(** The CXL device; [None]: [LOG(FATAL)] ends the process. *)
Definition mount_cxl (c : Client) (s : SetupState) : uio (option (expected unit) * SetupState) :=
  match cxl_env with
  | None => ret (None, s)
  | Some env =>
      let r := strtoull env in
      let cxl_dev_size := if converted r && String.eqb (rest r) "" then parsed r else 0 in
      let! m := mount c cxl_base cxl_dev_size (su_protocol s) kWildcardLocation s in
      ret (Some m.1, m.2)
  end.

(** ** The servers *)

(** [file_storage_ = std::make_shared<FileStorage>(.., client_, ..)] and its [Init]. *)
Definition init_storage (s : SetupState) : uio (expected unit * SetupState) :=
  let! s := drop_storage s in
  let! init := call u_init_storage UInitStorage in
  ret (init, su_set_services StorageOfClient (su_requester s) s).

(** [offload_port]: a server of its own for offloaded objects is started. *)
Definition start_services (enable_ssd_offload start_offload_rpc_server : bool) (s : SetupState)
  : uio (expected unit * SetupState) :=
  let! ipc := (if String.eqb (su_ipc_socket_path s) "" then ret 0
               else call u_start_ipc UStartIpc) in
  if negb (ipc =? 0) then ret (Err INTERNAL_ERROR, s)
  else
    let! offload := (if enable_ssd_offload && start_offload_rpc_server
                     then let! port := call u_start_offload UStartOffload in ret (Some port)
                     else ret None) in
    match offload with
    | Some None => ret (Err INTERNAL_ERROR, s)
    | _ =>
        let s := match offload with
                 | Some (Some port) =>
                     su_names (su_protocol s) (su_local_hostname s)
                       (buildHostNameWithPort (getHostNameWithoutPort (su_local_hostname s)) port)
                       (su_ipc_socket_path s) s
                 | _ => s
                 end in
        let! init := (if enable_ssd_offload then init_storage s else ret (Ok tt, s)) in
        match init.1 with
        | Err e => ret (Err e, init.2)
        | Ok _ =>
            (if enable_http_server then call u_start_http UStartHttp ;;; ret tt else ret tt) ;;;
            ret (Ok tt, su_set_services (su_storage init.2) true init.2)
        end
    end.

(** ** [setup_internal]; [None]: the process ended *)

Definition setup_internal (local_hostname : string) (global_segment_size local_buffer_size : Z)
    (protocol ipc_socket_path : string) (local_rpc_port : Z)
    (enable_ssd_offload start_offload_rpc_server : bool) (s : SetupState)
  : uio (option (expected unit) * SetupState) :=
  let s := su_names protocol (su_local_hostname s) (su_local_rpc_addr s) ipc_socket_path s in
  let! env := (if use_nof then call u_spdk_env USpdkEnv else ret true) in
  if negb env then ret (Some (Err INTERNAL_ERROR), s)
  else if String.eqb local_hostname "" then ret (Some (Err INVALID_PARAMS), s)
  else
    let! r := create_client local_hostname local_rpc_port s in
    match r.1, rs_client (su_segments r.2) with
    | Ok _, Some c =>
        let! b := setup_local_buffer c local_buffer_size r.2 in
        match b.1 with
        | Err e => ret (Some (Err e), b.2)
        | Ok _ =>
            let! m := (if String.eqb protocol "cxl" then mount_cxl c b.2
                       else mount_global (global_fuel global_segment_size) c global_segment_size b.2) in
            match m.1 with
            | Some (Ok _) =>
                let! v := start_services enable_ssd_offload start_offload_rpc_server m.2 in
                ret (Some v.1, v.2)
            | other => ret (other, m.2)
            end
        end
    | Err e, _ => ret (Some (Err e), r.2)
    | Ok _, None => ret (Some (Err INTERNAL_ERROR), r.2)
    end.

Definition initAll_internal (protocol : string) (mount_segment_size : Z) (s : SetupState)
  : uio (option (expected unit) * SetupState) :=
  match rs_client (su_segments s) with
  | Some _ => ret (Some (Err INVALID_PARAMS), s)
  | None => setup_internal "localhost:12345" mount_segment_size 1073741824 protocol "" 50052
              false false s
  end.

Definition setup_real (toInt : ErrorCode → Z) (local_hostname : string)
    (global_segment_size local_buffer_size : Z) (protocol ipc_socket_path : string)
    (enable_ssd_offload : bool) (s : SetupState) : uio (option Z * SetupState) :=
  let! r := setup_internal local_hostname global_segment_size local_buffer_size protocol
              ipc_socket_path 50052 enable_ssd_offload true s in
  ret (option_map (λ e : expected unit, match e with Ok _ => 0 | Err e => toInt e end) r.1, r.2).

(** Set-up from a configuration, once it is parsed. *)
Definition setup_config (args : expected SetupArgs) (s : SetupState)
  : uio (option (expected unit) * SetupState) :=
  match args with
  | Err e => ret (Some (Err e), s)
  | Ok a => setup_internal (arg_hostname a) (arg_global_size a) (arg_local_size a)
              (arg_protocol a) (arg_ipc_path a) 50052 (arg_ssd_offload a) true s
  end.

(** ** Tear-down *)

Definition run_deleter (x : Z * deleter) : uio unit :=
  match x.2 with
  | FreeMapping size | FreeUb size =>
      if 0 <? size then call (λ _, tt) (λ _, UFree x.2 x.1) else ret tt
  | _ => call (λ _, tt) (λ _, UFree x.2 x.1)
  end.

Definition tearDownAll_internal (s : SetupState) : uio (expected unit * SetupState) :=
  if su_closed s then ret (Ok tt, s)
  else
    let s := su_set_contexts (su_contexts s) true s in
    call (λ _, tt) (λ _, UStopServers) ;;;
    match rs_client (su_segments s) with
    | None => ret (Ok tt, s)
    | Some c =>
        let! s := (match su_allocator s with
                   | Some (base, size) =>
                       if (0 <? size) && negb (String.eqb (su_protocol s) "cxl")
                       then on_client_segments (unregisterLocalMemory c base) ;;;
                            ret (su_set_buffer (su_allocator s) None s)
                       else ret s
                   | None => ret s
                   end) in
        let! s := reset_client s in
        let! seg := on_map (let! seg := ReleaseAllMountedSegmentRecords (su_segments s) in
                            ReleaseAllAllocatedSegmentRecords seg) in
        let s := su_set_segments seg s in
        free_allocator s ;;;
        let s := su_set_buffer None (su_region s) s in
        let! s := unbind s in
        mmap run_deleter (su_ptrs s) ;;;
        let s := su_names "" "" (su_local_rpc_addr s) (su_ipc_socket_path s)
                   (su_set_ptrs [] (su_ascend_ptrs s) s) in
        let! ctxs := on_map (teardown_shms (su_contexts s)) in
        ret (Ok tt, su_set_contexts ctxs true s)
    end.

(** ** The destructor: tear-down, then the members *)

Definition destroy_real (s : SetupState) : uio SetupState :=
  let! r := tearDownAll_internal s in
  let s := r.2 in
  let! s := unbind s in
  mmap run_deleter (su_ascend_ptrs s) ;;;
  mmap run_deleter (su_ptrs s) ;;;
  free_allocator s ;;;
  (* file_storage_ and client_ are members of the base class *)
  let! s := drop_storage s in
  let! seg := destroy_client (su_segments s) in
  ret (su_set_segments seg (su_set_ptrs [] [] (su_set_buffer None None s))).
End Setup.

(** ** [health_check] *)

Definition real_health_check (s : SetupState) (ping_healthy : bool) : Z :=
  if su_closed s then 1
  else match rs_client (su_segments s) with
       | None => 1
       | Some _ => if negb ping_healthy then 2 else 0
       end.
