(* ===== verification/RealSetupSpec.v ===== *)
(** * What set-up and tear-down of the real client guarantee

    The whole global segment is mounted in pieces the transfer engine accepts, the
    loop over the segments ends.  Set-up from a configuration accepts only the sizes and
    protocols it documents. *)

From S2P Require Import Prelude CxxString MemoryLocation StoreTypes ReplicaPolicy Samples Accounting Segments SegmentsSpec DummyMap RangedRead RealSegments RealSegmentsSpec RealChunks RealShm RealShmSpec RealSetup.
From stdpp Require Import base strings list sets gmap fin_maps sorting.
From Stdlib Require Import ZArith Lia.

#[local] Open Scope Z_scope.
#[local] Set Default Proof Using "Type".

(** ** NUMA nodes *)

Lemma insert_node_elem x y l : y ∈ insert_node x l ↔ y = x ∨ y ∈ l.
Proof.
  induction l as [|z l IH]; cbn; [set_solver|].
  destruct (Z.ltb_spec x z); [set_solver|]. destruct (Z.eqb_spec x z) as [->|]; [set_solver|].
  rewrite !elem_of_cons, IH. tauto.
Qed.

Lemma insert_node_sorted x l : StronglySorted Z.lt l → StronglySorted Z.lt (insert_node x l).
Proof.
  induction 1 as [|z l Hs IH Hf]; cbn; [repeat constructor|].
  destruct (Z.ltb_spec x z).
  - constructor; [by constructor|]. constructor; [done|].
    eapply Forall_impl; [exact Hf|]. cbn. lia.
  - destruct (Z.eqb_spec x z) as [->|]; [by constructor|]. constructor; [done|].
    apply Forall_forall. intros y [->|Hy]%insert_node_elem; [lia|].
    rewrite Forall_forall in Hf. by apply Hf.
Qed.

(** The NUMA nodes of the entries with a preferred device. *)
Definition node_of (entry : string * list string) : option (option Z) :=
  if negb (starts_with "cpu:" entry.1) || bool_decide (entry.2 = []) then None
  else Some (stoi (str_drop 4 entry.1)).

Theorem nic_nodes_exact entries nodes :
  GetNicNumaNodes (Some entries) = Some nodes →
  StronglySorted Z.lt nodes ∧
  ∀ x, x ∈ nodes ↔ ∃ e, e ∈ entries ∧ node_of e = Some (Some x).
Proof.
  unfold GetNicNumaNodes.
  assert (Hgen : ∀ entries acc, StronglySorted Z.lt acc →
    fold_left (λ (acc : option (list Z)) (entry : string * list string),
      match acc with
      | None => None
      | Some nodes =>
          if negb (starts_with "cpu:" entry.1) || bool_decide (entry.2 = []) then Some nodes
          else match stoi (str_drop 4 entry.1) with
               | Some node => Some (insert_node node nodes)
               | None => None
               end
      end) entries (Some acc) = Some nodes →
    StronglySorted Z.lt nodes ∧
    ∀ x, x ∈ nodes ↔ x ∈ acc ∨ ∃ e, e ∈ entries ∧ node_of e = Some (Some x)).
  { clear entries. induction entries as [|e entries IH]; intros acc Hs Hf.
    { injection Hf as ->. split; [done|]. intros x. split; [by left|].
      intros [?|(e & He & _)]; [done|by apply elem_of_nil in He]. }
    cbn [fold_left] in Hf. destruct (negb _ || _) eqn:Hskip.
    - apply IH in Hf as [? Hx]; [|done]. split; [done|]. intros x. rewrite Hx.
      split; (intros [?|(e' & He & Hn)]; [by left|right]).
      + exists e'. split; [by right|done].
      + exists e'. apply elem_of_cons in He as [->|He]; [|by split].
        unfold node_of in Hn. by rewrite Hskip in Hn.
    - destruct (stoi _) as [n|] eqn:Hn.
      + apply IH in Hf as [? Hx]; [|by apply insert_node_sorted]. split; [done|]. intros x.
        rewrite Hx, insert_node_elem. split.
        * intros [[->|?]|(e' & He & Hne)]; [right|by left|right].
          -- exists e. split; [by left|]. unfold node_of. by rewrite Hskip, Hn.
          -- exists e'. split; [by right|done].
        * intros [?|(e' & He & Hne)]; [left; by right|]. apply elem_of_cons in He as [->|He].
          -- unfold node_of in Hne. rewrite Hskip, Hn in Hne. injection Hne as ->. left. by left.
          -- right. by exists e'.
      + exfalso. clear -Hf. induction entries as [|e' entries IH]; [done|]. by apply IH. }
  intros Hf. apply Hgen in Hf as [? Hx]; [|constructor]. split; [done|]. intros x. rewrite Hx.
  split; [intros [Hn|?]; [by apply elem_of_nil in Hn|done]|by right].
Qed.

(** ** Configurations *)

Section ConfigSpec.
Context (try_string_to_byte_size : string → option Z).
Context (MIN_SEGMENT_SIZE MAX_SEGMENT_SIZE DEFAULT_GLOBAL DEFAULT_LOCAL : Z).
Context (HOSTNAME METADATA GLOBAL_SIZE LOCAL_SIZE PROTOCOL IPC_PATH DEFAULT_PROTOCOL : string).

Abbreviation args_of := (config_args try_string_to_byte_size MIN_SEGMENT_SIZE MAX_SEGMENT_SIZE
  DEFAULT_GLOBAL DEFAULT_LOCAL HOSTNAME METADATA GLOBAL_SIZE LOCAL_SIZE PROTOCOL IPC_PATH
  DEFAULT_PROTOCOL).

Definition size_allowed (n : Z) : Prop := n = 0 ∨ MIN_SEGMENT_SIZE ≤ n ≤ MAX_SEGMENT_SIZE.

Lemma validate_size_spec n :
  0 < MIN_SEGMENT_SIZE ≤ MAX_SEGMENT_SIZE →
  validate_size MIN_SEGMENT_SIZE MAX_SEGMENT_SIZE n = true ↔ size_allowed n.
Proof.
  intros Hmin. unfold validate_size, size_allowed.
  destruct (Z.eqb_spec n 0), (Z.ltb_spec n MIN_SEGMENT_SIZE), (Z.ltb_spec MAX_SEGMENT_SIZE n);
    cbn; split; intros; try done; lia.
Qed.

(** An accepted configuration names a host and a supported protocol and has sizes that
    are zero or within the limits; every other one is an invalid parameter. *)
Theorem config_args_valid config :
  0 < MIN_SEGMENT_SIZE ≤ MAX_SEGMENT_SIZE →
  match args_of config with
  | Ok a => arg_hostname a ≠ "" ∧ size_allowed (arg_global_size a) ∧
            size_allowed (arg_local_size a) ∧ (arg_protocol a = "tcp" ∨ arg_protocol a = "rdma")
  | Err e => e = INVALID_PARAMS
  end.
Proof.
  intros Hmin. unfold config_args. cbv zeta.
  destruct (String.eqb_spec (get_config config HOSTNAME "") ""); [done|].
  destruct (String.eqb _ _); [done|].
  destruct (get_config_size _ config GLOBAL_SIZE _) as [g|]; [|done].
  destruct (get_config_size _ config LOCAL_SIZE _) as [l|]; [|done].
  destruct (validate_size _ _ g) eqn:Hg; [|done].
  destruct (validate_size _ _ l) eqn:Hl; [|done]. cbn [negb orb].
  apply validate_size_spec in Hg, Hl; [|done..].
  destruct (String.eqb_spec (get_config config PROTOCOL DEFAULT_PROTOCOL) "tcp"),
    (String.eqb_spec (get_config config PROTOCOL DEFAULT_PROTOCOL) "rdma"); cbn; auto.
Qed.
End ConfigSpec.

Section Spec.
Context `{!SegmentServices, !MapServices, !SetupServices}.
Context (max_mr_size page_size hugepage_size ERR_ADDRESS_NOT_REGISTERED : Z).
Context (GPU_PREFIX kWildcardLocation : string).
Context (use_nof use_hugepage : bool) (max_retries : Z) (cxl_env : option string) (cxl_base : Z).
Context (numa_nodes : list Z) (enable_http_server : bool).
Context (hasExplicitPort : string → bool) (getHostNameWithoutPort : string → string).
Context (buildHostNameWithPort : string → Z → string) (align_up : Z → Z → Z).
Context (storage_keeps_client : bool).

Abbreviation plan := (segment_plan page_size hugepage_size kWildcardLocation use_hugepage
                        numa_nodes align_up).
Abbreviation mount_all := (mount_global max_mr_size page_size hugepage_size kWildcardLocation
                             use_hugepage numa_nodes align_up).

(** ** The global segment *)

(** The segments the master accepted. *)
Definition accepted (e : setup_event) : option (Z * Z) :=
  match e with
  | UMap (GSegment (MasterMount seg (Ok _))) => Some (seg_base seg, seg_size seg)
  | _ => None
  end.

Definition mounted_pieces (evs : list setup_event) : list (Z * Z) := omap accepted evs.

(** The memory that was allocated for segments. *)
Definition allocated (e : setup_event) : option (Z * Z) :=
  match e with UAlloc _ size ptr => if ptr =? 0 then None else Some (ptr, size) | _ => None end.

Definition allocated_pieces (evs : list setup_event) : list (Z * Z) := omap allocated evs.

Lemma mounted_pieces_app e1 e2 : mounted_pieces (e1 ++ e2) = mounted_pieces e1 ++ mounted_pieces e2.
Proof. apply omap_app. Qed.
Lemma allocated_pieces_app e1 e2 :
  allocated_pieces (e1 ++ e2) = allocated_pieces e1 ++ allocated_pieces e2.
Proof. apply omap_app. Qed.

(** Events of the store client's segments. *)
Definition seg_accepted (e : seg_event) : option (Z * Z) :=
  match e with MasterMount seg (Ok _) => Some (seg_base seg, seg_size seg) | _ => None end.

Lemma lifted_pieces (evs : list seg_event) :
  mounted_pieces (UMap <$> (GSegment <$> evs)) = omap seg_accepted evs ∧
  allocated_pieces (UMap <$> (GSegment <$> evs)) = [].
Proof.
  unfold mounted_pieces, allocated_pieces. induction evs as [|e evs [IH1 IH2]]; [done|]. cbn.
  split; [|exact IH2]. destruct e as [| | |s [[]|?]| | | | | | | | | |]; cbn; by rewrite IH1.
Qed.

(** A successful mount is one accepted segment of a size the engine takes. *)
Lemma mount_segment_run c ptr size protocol location s h r s' evs :
  MountSegment c max_mr_size ptr size protocol location s h = ((r, s'), evs) →
  match r with
  | Ok _ => omap seg_accepted evs = [(ptr, size)] ∧ size ≠ 0 ∧ size ≤ max_mr_size
  | Err _ => omap seg_accepted evs = []
  end.
Proof.
  intros R. apply bind_inv in R as ([r1 s1] & e1 & e2 & R & [[= -> ->] ->]%ret_inv & ->).
  rewrite app_nil_r. unfold MountSegmentAndGetId, CheckRegisterMemoryParams in R. cbn [fst].
  destruct (ptr =? 0); [by apply ret_inv in R as [[= -> ->] ->]|].
  destruct (Z.eqb_spec size 0); [by apply ret_inv in R as [[= -> ->] ->]|].
  destruct (Z.ltb_spec max_mr_size size); [by apply ret_inv in R as [[= -> ->] ->]|].
  destruct (existsb _ _); [by apply ret_inv in R as [[= -> ->] ->]|].
  apply bind_inv in R as (rc & e3 & e4 & [_ ->]%call_inv & R & ->).
  destruct (negb _); [by apply ret_inv in R as [[= -> ->] ->]|].
  apply bind_inv in R as (id & e5 & e6 & [_ ->]%call_inv & R & ->).
  apply bind_inv in R as (m & e7 & e8 & [_ ->]%call_inv & R & ->).
  destruct m as [u|e]; [|by apply ret_inv in R as [[= -> ->] ->]].
  apply bind_inv in R as (s2 & e9 & e10 & R2 & [[= -> ->] ->]%ret_inv & ->). cbn.
  assert (omap seg_accepted e9 = []) as Hn.
  { unfold EnsureStorageControlPlaneStarted in R2.
    destruct (storage_started _); [by apply ret_inv in R2 as [_ ->]|].
    by apply bind_inv in R2 as (? & ? & ? & [_ ->]%call_inv & [_ ->]%ret_inv & ->). }
  rewrite app_nil_r. cbn in Hn. rewrite Hn. done.
Qed.

Lemma mount_piece_run c ptr size protocol location s h r s' evs :
  mount max_mr_size c ptr size protocol location s h = ((r, s'), evs) →
  allocated_pieces evs = [] ∧
  (∃ seg, s' = su_set_segments seg s) ∧
  match r with
  | Ok _ => mounted_pieces evs = [(ptr, size)] ∧ size ≠ 0 ∧ size ≤ max_mr_size
  | Err _ => mounted_pieces evs = []
  end.
Proof.
  intros R. apply bind_inv in R as ([r1 s1] & e1 & e2 & R & [[= -> ->] ->]%ret_inv & ->).
  rewrite app_nil_r. apply lift_inv in R as (e & R & ->). apply lift_inv in R as (e' & R & ->).
  destruct (lifted_pieces e') as [-> ->]. split_and!; [done|by eexists|].
  by apply mount_segment_run in R.
Qed.

(** What a piece of the global segment takes. *)
Definition piece_size (protocol : string) (n : Z) : Z := (plan protocol n).1.2.

(** The sizes the loop asks for. *)
Fixpoint chunks (fuel : nat) (g : Z) : list Z :=
  match fuel with
  | O => []
  | S fuel => if g <=? 0 then [] else Z.min g max_mr_size :: chunks fuel (g - Z.min g max_mr_size)
  end.

Lemma track_protocol protocol ptr n s :
  su_protocol (track_segment use_hugepage numa_nodes protocol ptr n s) = su_protocol s.
Proof.
  unfold track_segment. destruct (_ || _); [done|]. destruct (String.eqb _ _); [done|].
  by destruct (_ || _).
Qed.

Lemma mount_global_run fuel c : ∀ g s h r s' evs,
  mount_all fuel c g s h = ((r, s'), evs) → r = Some (Ok tt) →
  (mounted_pieces evs).*2 = piece_size (su_protocol s) <$> chunks fuel g ∧
  mounted_pieces evs = allocated_pieces evs ∧
  Forall (λ p, p.2 ≠ 0 ∧ p.2 ≤ max_mr_size) (mounted_pieces evs).
Proof.
  induction fuel as [|fuel IH]; intros g s h r s' evs R ->; cbn in R;
    [by apply ret_inv in R as [? _]|].
  cbn [chunks]. destruct (g <=? 0); [by apply ret_inv in R as [_ ->]|].
  destruct (plan (su_protocol s) (Z.min g max_mr_size)) as [[src mapped] location] eqn:Hp.
  apply bind_inv in R as (ptr & e1 & e2 & [_ ->]%call_inv & R & ->).
  destruct (ptr =? 0) eqn:Hz; [by apply ret_inv in R as [? _]|].
  apply bind_inv in R as ([rm sm] & e3 & e4 & Rm & R & ->). cbn [fst snd] in R.
  apply mount_piece_run in Rm as (Ha & (seg & ->) & Hm).
  destruct rm as [u|e]; [|by apply ret_inv in R as [? _]]. destruct Hm as (Hm & Hn & Hle).
  apply IH in R as (R1 & R2 & R3); [|done]. cbn [su_protocol su_set_segments] in R1.
  rewrite track_protocol in R1.
  rewrite !mounted_pieces_app, !allocated_pieces_app, Hm, Ha. cbn [mounted_pieces allocated_pieces].
  unfold mounted_pieces at 1 4, allocated_pieces at 1. cbn. rewrite Hz. cbn.
  split_and!.
  - f_equal; [|exact R1]. unfold piece_size. by rewrite Hp.
  - f_equal. exact R2.
  - constructor; [done|exact R3].
Qed.
Definition sum (l : list Z) : Z := foldr Z.add 0 l.

Context (max_pos : 0 < max_mr_size).

Lemma chunk_left n g :
  0 < g → 0 ≤ n → g ≤ (Z.succ n - 1) * max_mr_size → g - Z.min g max_mr_size ≤ (n - 1) * max_mr_size.
Proof using max_pos. intros Hg Hn Hf. assert (0 < n) by nia. destruct (Z.min_spec g max_mr_size); nia. Qed.

Lemma chunks_sum fuel g :
  0 ≤ g → g ≤ (Z.of_nat fuel - 1) * max_mr_size →
  sum (chunks fuel g) = g ∧ Forall (λ n, 0 < n ≤ max_mr_size) (chunks fuel g).
Proof using max_pos.
  revert g. induction fuel as [|fuel IH]; intros g Hg Hf; [lia|].
  rewrite Nat2Z.inj_succ in Hf. cbn.
  destruct (Z.leb_spec g 0); [split; [cbn; lia|constructor]|].
  destruct (IH (g - Z.min g max_mr_size)) as [Hs Ha]; [lia|apply chunk_left; [lia..|done]|]. split.
  - cbn. unfold sum in Hs. lia.
  - constructor; [lia|done].
Qed.

Lemma global_fuel_enough g :
  0 ≤ g → g ≤ (Z.of_nat (global_fuel max_mr_size g) - 1) * max_mr_size.
Proof using max_pos.
  intros Hg. unfold global_fuel. pose proof (Z.div_pos g max_mr_size Hg max_pos).
  pose proof (Z.mul_succ_div_gt g max_mr_size max_pos). rewrite !Nat2Z.inj_succ, Z2Nat.id by done. nia.
Qed.

Lemma mount_global_ends fuel c : ∀ g s h r s' evs,
  0 ≤ g → g ≤ (Z.of_nat fuel - 1) * max_mr_size →
  mount_all fuel c g s h = ((r, s'), evs) → r ≠ None.
Proof using max_pos.
  induction fuel as [|fuel IH]; intros g s h r s' evs Hg Hf R; [lia|].
  rewrite Nat2Z.inj_succ in Hf. cbn in R.
  destruct (Z.leb_spec g 0); [by apply ret_inv in R as [[= -> ->] _]|].
  destruct (plan (su_protocol s) (Z.min g max_mr_size)) as [[src mapped] location].
  apply bind_inv in R as (ptr & e1 & e2 & _ & R & _).
  destruct (ptr =? 0); [by apply ret_inv in R as [[= -> ->] _]|].
  apply bind_inv in R as ([rm sm] & e3 & e4 & _ & R & _). cbn [fst snd] in R.
  destruct rm; [|by apply ret_inv in R as [[= -> ->] _]].
  eapply IH in R; [done|lia|apply chunk_left; [lia..|done]].
Qed.

(** No segment is mounted and no memory allocated for one. *)
Definition quiet (evs : list setup_event) : Prop := mounted_pieces evs = [] ∧ allocated_pieces evs = [].

Lemma quiet_app e1 e2 : quiet e1 → quiet e2 → quiet (e1 ++ e2).
Proof. unfold quiet. rewrite mounted_pieces_app, allocated_pieces_app. by intros [-> ->] [-> ->]. Qed.

Lemma quiet_nil : quiet [].
Proof. done. Qed.

Lemma unbind_quiet s h s' evs :
  unbind s h = (s', evs) → quiet evs ∧ su_protocol s' = su_protocol s ∧ su_segments s' = su_segments s.
Proof.
  intros R. unfold unbind in R. destruct (su_port s); [|by apply ret_inv in R as [-> ->]].
  by apply bind_inv in R as (? & ? & ? & [_ ->]%call_inv & [-> ->]%ret_inv & ->).
Qed.

Lemma set_client_quiet c s h s' evs :
  rs_client (su_segments s) = None →
  set_client ERR_ADDRESS_NOT_REGISTERED storage_keeps_client c s h = (s', evs) →
  evs = [] ∧ su_protocol s' = su_protocol s ∧ rs_client (su_segments s') = Some c.
Proof.
  intros Hn R. apply bind_inv in R as (seg & e1 & e2 & R & [-> ->]%ret_inv & ->).
  unfold reset_client in R. rewrite Hn in R. by apply ret_inv in R as [-> ->].
Qed.

Lemma try_ports_quiet retries host port : ∀ s h r s' evs,
  rs_client (su_segments s) = None →
  try_ports ERR_ADDRESS_NOT_REGISTERED buildHostNameWithPort storage_keeps_client retries host port s h
    = ((r, s'), evs) →
  quiet evs ∧ su_protocol s' = su_protocol s ∧
  (r = true → ∃ c, rs_client (su_segments s') = Some c).
Proof.
  induction retries as [|retries IH]; intros s h r s' evs Hn R; cbn [try_ports] in R;
    [by apply ret_inv in R as [[= -> ->] ->]|].
  apply bind_inv in R as (p & e1 & e2 & [_ ->]%call_inv & R & ->).
  apply bind_inv in R as (s1 & e3 & e4 & (Hq1 & Hp1 & Hs1)%unbind_quiet & R & ->).
  destruct (p <? 0).
  { apply IH in R as (Hq & Hp & Hc); [|by rewrite Hs1]. split_and!; [|by rewrite Hp, Hp1|done].
    apply (quiet_app [_]); [done|]. by apply quiet_app. }
  apply bind_inv in R as (o & e5 & e6 & [_ ->]%call_inv & R & ->).
  assert (Hpre : ∀ e, quiet e → quiet ([UBind p] ++ e3 ++ [UCreate (buildHostNameWithPort host p) o] ++ e)).
  { intros e He. apply (quiet_app [_]); [done|]. apply quiet_app; [done|]. by apply (quiet_app [_]). }
  destruct o as [c|].
  - apply bind_inv in R as (s2 & e7 & e8 & (-> & Hp & Hc)%set_client_quiet & [[= -> ->] ->]%ret_inv & ->);
      [|by rewrite <- Hs1 in Hn].
    split_and!; [by apply Hpre|by rewrite Hp|by eexists].
  - apply bind_inv in R as (s2 & e7 & e8 & (Hq2 & Hp2 & Hs2)%unbind_quiet & R & ->).
    apply IH in R as (Hq & Hp & Hc); [|rewrite Hs2; cbn; by rewrite Hs1].
    split_and!; [apply Hpre; by apply quiet_app|by rewrite Hp, Hp2|done].
Qed.

Lemma create_client_quiet host port s h r s' evs :
  rs_client (su_segments s) = None →
  create_client ERR_ADDRESS_NOT_REGISTERED max_retries hasExplicitPort getHostNameWithoutPort
    buildHostNameWithPort storage_keeps_client host port s h = ((r, s'), evs) →
  quiet evs ∧ su_protocol s' = su_protocol s.
Proof.
  intros Hn R. unfold create_client in R. destruct (hasExplicitPort host).
  - apply bind_inv in R as (o & e1 & e2 & [_ ->]%call_inv & R & ->). destruct o as [c|];
      [|by apply ret_inv in R as [[= -> ->] ->]].
    by apply bind_inv in R as (s2 & e7 & e8 & (-> & Hp & Hc)%set_client_quiet & [[= -> ->] ->]%ret_inv & ->).
  - apply bind_inv in R as ([ok s2] & e1 & e2 & (Hq & Hp & _)%try_ports_quiet & [[= -> ->] ->]%ret_inv & ->);
      [|done]. by rewrite app_nil_r.
Qed.
Lemma register_quiet c addr n loc h r evs :
  RegisterLocalMemory c max_mr_size GPU_PREFIX addr n loc h = (r, evs) → omap seg_accepted evs = [].
Proof.
  intros R. unfold RegisterLocalMemory in R.
  destruct (CheckRegisterMemoryParams _ _ _); [|by apply ret_inv in R as [_ ->]].
  apply bind_inv in R as (rc & ? & ? & [_ ->]%call_inv & R & ->).
  destruct (negb _); [by apply ret_inv in R as [_ ->]|].
  destruct (_ && _); [|by apply ret_inv in R as [_ ->]].
  apply bind_inv in R as (env & ? & ? & [_ ->]%call_inv & R & ->). destruct (negb _).
  { by apply bind_inv in R as (? & ? & ? & [_ ->]%call_inv & [_ ->]%ret_inv & ->). }
  apply bind_inv in R as (src & ? & ? & [_ ->]%call_inv & R & ->).
  destruct (negb _); [|by apply ret_inv in R as [_ ->]].
  apply bind_inv in R as (? & ? & ? & [_ ->]%call_inv & R & ->).
  by apply bind_inv in R as (? & ? & ? & [_ ->]%call_inv & [_ ->]%ret_inv & ->).
Qed.

Lemma local_buffer_quiet c n s h r s' evs :
  RealSetup.setup_local_buffer max_mr_size GPU_PREFIX kWildcardLocation c n s h = ((r, s'), evs) →
  quiet evs ∧ su_protocol s' = su_protocol s.
Proof.
  intros R. apply bind_inv in R as (base & ? & e2 & [_ ->]%call_inv & R & ->).
  apply bind_inv in R as (u & e3 & e4 & Rf & R & ->).
  assert (quiet e3) as Hq.
  { unfold free_allocator in Rf. destruct (su_allocator s) as [[b k]|];
      [by apply call_inv in Rf as [_ ->]|by apply ret_inv in Rf as [_ ->]]. }
  assert (quiet e4 ∧ su_protocol s' = su_protocol s) as [Hq4 Hp].
  { cbv zeta in R. destruct (_ && _); [|by apply ret_inv in R as [[= -> ->] ->]].
    apply bind_inv in R as (rr & e5 & e6 & R & R2 & ->).
    apply lift_inv in R as (e & R & ->). apply lift_inv in R as (e' & R & ->).
    apply register_quiet in R. destruct (lifted_pieces e') as [Hl1 Hl2]. rewrite R in Hl1.
    destruct rr; apply ret_inv in R2 as [[= -> ->] ->]; (split; [|done]); by rewrite app_nil_r. }
  split; [|done]. apply (quiet_app [_]); [done|]. by apply quiet_app.
Qed.

Lemma calls_quiet {A B} (f : A → list seg_event → B) (ev : A → B → seg_event) l : ∀ h v evs,
  mmap (λ x, call (f x) (ev x)) l h = (v, evs) → (∀ x y, seg_accepted (ev x y) = None) →
  omap seg_accepted evs = [].
Proof.
  induction l as [|x l IH]; intros h v evs R Hn; cbn [mmap] in R; [by apply ret_inv in R as [_ ->]|].
  apply bind_inv in R as (y & e1 & e2 & [_ ->]%call_inv & R & ->).
  apply bind_inv in R as (ys & e3 & e4 & R & [_ ->]%ret_inv & ->). cbn. rewrite Hn, app_nil_r.
  by eapply IH.
Qed.

Lemma destroy_mounted_quiet l : ∀ s h s' evs,
  mfold (destroy_mounted ERR_ADDRESS_NOT_REGISTERED) s l h = (s', evs) → omap seg_accepted evs = [].
Proof.
  induction l as [|[id seg] l IH]; intros s h s' evs R; cbn [mfold] in R;
    [by apply ret_inv in R as [_ ->]|].
  apply bind_inv in R as (s1 & e1 & e2 & R1 & R%IH & ->). rewrite omap_app, R, app_nil_r.
  apply bind_inv in R1 as ([r s2] & e3 & e4 & R1 & [_ ->]%ret_inv & ->). rewrite app_nil_r.
  unfold UnmountSegment in R1.
  destruct (List.find _ _) as [[id' seg']|]; [|by apply ret_inv in R1 as [_ ->]].
  apply bind_inv in R1 as (ur & ? & e5 & [_ ->]%call_inv & R1 & ->). cbn.
  destruct ur; [|by apply ret_inv in R1 as [_ ->]].
  apply bind_inv in R1 as (rc & ? & e6 & [_ ->]%call_inv & R1 & ->). cbn.
  by destruct (_ && _); apply ret_inv in R1 as [_ ->].
Qed.

(** Destroying a store client mounts nothing. *)
Lemma destroy_segments_quiet s h s' evs :
  destroy_segments ERR_ADDRESS_NOT_REGISTERED s h = (s', evs) → omap seg_accepted evs = [].
Proof.
  intros R. apply bind_inv in R as (s1 & e1 & e2 & R1 & R & ->).
  apply bind_inv in R as (v & e3 & e4 & R3 & R & ->).
  apply bind_inv in R as (w & e5 & e6 & R5 & [_ ->]%ret_inv & ->).
  apply destroy_mounted_quiet in R1. rewrite !omap_app, R1.
  rewrite (calls_quiet _ _ _ _ _ _ R3), (calls_quiet _ _ _ _ _ _ R5) by done. done.
Qed.

Lemma drop_storage_quiet s h s' evs :
  drop_storage ERR_ADDRESS_NOT_REGISTERED s h = (s', evs) → quiet evs.
Proof.
  intros R. unfold drop_storage in R. destruct (su_storage s) as [| |seg];
    [by apply ret_inv in R as [_ ->]..|].
  apply bind_inv in R as (sg & e1 & e2 & R1 & R & ->).
  apply lift_inv in R1 as (e & R1 & ->). apply lift_inv in R1 as (e' & R1 & ->).
  apply destroy_segments_quiet in R1. destruct (lifted_pieces e') as [Hl1 Hl2]. rewrite R1 in Hl1.
  apply quiet_app; [done|].
  by apply bind_inv in R as (? & ? & ? & [_ ->]%call_inv & [_ ->]%ret_inv & ->).
Qed.

Lemma init_storage_quiet s h r s' evs :
  init_storage ERR_ADDRESS_NOT_REGISTERED s h = ((r, s'), evs) → quiet evs.
Proof.
  intros R. apply bind_inv in R as (s1 & e1 & e2 & R1%drop_storage_quiet & R & ->).
  apply quiet_app; [done|].
  by apply bind_inv in R as (? & ? & ? & [_ ->]%call_inv & [_ ->]%ret_inv & ->).
Qed.

Lemma services_quiet ssd offload s h r s' evs :
  start_services ERR_ADDRESS_NOT_REGISTERED enable_http_server getHostNameWithoutPort
    buildHostNameWithPort ssd offload s h = ((r, s'), evs) → quiet evs.
Proof.
  intros R. apply bind_inv in R as (ipc & e1 & e2 & R1 & R & ->).
  assert (quiet e1) as H1'.
  { destruct (String.eqb _ _); [by apply ret_inv in R1 as [_ ->]|by apply call_inv in R1 as [_ ->]]. }
  apply quiet_app; [done|]. destruct (negb _); [by apply ret_inv in R as [_ ->]|].
  apply bind_inv in R as (o & e3 & e4 & R3 & R & ->).
  assert (quiet e3) as H3'.
  { destruct (_ && _); [|by apply ret_inv in R3 as [_ ->]].
    by apply bind_inv in R3 as (? & ? & ? & [_ ->]%call_inv & [_ ->]%ret_inv & ->). }
  apply quiet_app; [done|].
  assert (Hend : ∀ (st : SetupState) h r s' evs,
    (let! init := (if ssd then init_storage ERR_ADDRESS_NOT_REGISTERED st else ret (Ok tt, st)) in
     match init.1 with
     | Err e => ret (Err e, init.2)
     | Ok _ =>
         (if enable_http_server then call u_start_http UStartHttp ;;; ret tt else ret tt) ;;;
         ret (Ok tt, su_set_services (su_storage init.2) true init.2)
     end) h = ((r, s'), evs) → quiet evs).
  { clear. intros st h r s' evs R. apply bind_inv in R as ([init st'] & e1 & e2 & R1 & R & ->).
    apply quiet_app; [destruct ssd; [by apply init_storage_quiet in R1|by apply ret_inv in R1 as [_ ->]]|].
    cbn [fst snd] in R. destruct init; [|by apply ret_inv in R as [_ ->]].
    apply bind_inv in R as (u & e3 & e4 & R3 & [_ ->]%ret_inv & ->). rewrite app_nil_r.
    destruct enable_http_server; [|by apply ret_inv in R3 as [_ ->]].
    by apply bind_inv in R3 as (? & ? & ? & [_ ->]%call_inv & [_ ->]%ret_inv & ->). }
  destruct o as [[port|]|]; [by eapply Hend in R|by apply ret_inv in R as [_ ->]|by eapply Hend in R].
Qed.

Context (pages_pos : 0 < page_size ∧ 0 < hugepage_size).
Context (align_ge : ∀ n a, 0 < a → n ≤ align_up n a).

Lemma piece_ge protocol n : n ≤ piece_size protocol n.
Proof using align_ge pages_pos.
  unfold piece_size, segment_plan. destruct (seg_numa_nodes _ _) as [|x l]; cbn.
  - destruct (should_use_hugepage _ _); [apply align_ge; lia|done].
  - apply align_ge. destruct (should_use_hugepage _ _); lia.
Qed.

Lemma piece_exact protocol n :
  seg_numa_nodes numa_nodes protocol = [] → should_use_hugepage use_hugepage protocol = false →
  piece_size protocol n = n.
Proof. intros Hn Hh. unfold piece_size, segment_plan. rewrite Hn, Hh. done. Qed.

Lemma sum_ge (f : Z → Z) l : (∀ n, n ≤ f n) → sum l ≤ sum (f <$> l).
Proof. intros Hf. unfold sum. induction l as [|x l IH]; cbn; [lia|]. specialize (Hf x). lia. Qed.

(** C24: Set-up, with a protocol other than [cxl], of a client that is not set up always
    ends, and when it succeeds the master has accepted the whole global segment: pieces no
    larger than [max_mr_size] that add up to at least the size asked for, exactly to it when
    segments are not rounded up to NUMA or huge pages, and each piece is memory that was
    allocated for it, in the same order. The limit [max_mr_size] and the page sizes are
    positive, and [align_up] does not round down. ([cxl] mounts the device as one segment.)
    *)
Theorem setup_mounts_whole_segment host g n protocol ipc port ssd offload s h r s' evs :
  rs_client (su_segments s) = None → protocol ≠ "cxl" → 0 ≤ g →
  setup_internal max_mr_size page_size hugepage_size ERR_ADDRESS_NOT_REGISTERED GPU_PREFIX
    kWildcardLocation use_nof use_hugepage max_retries cxl_env cxl_base numa_nodes
    enable_http_server hasExplicitPort getHostNameWithoutPort buildHostNameWithPort align_up
    storage_keeps_client host g n protocol ipc port ssd offload s h = ((r, s'), evs) →
  r ≠ None ∧
  (r = Some (Ok tt) →
   let pieces := mounted_pieces evs in
   g ≤ sum pieces.*2 ∧ pieces = allocated_pieces evs ∧
   Forall (λ p, p.2 ≠ 0 ∧ p.2 ≤ max_mr_size) pieces ∧
   (seg_numa_nodes numa_nodes protocol = [] → should_use_hugepage use_hugepage protocol = false →
    sum pieces.*2 = g)).
Proof using max_pos pages_pos align_ge.
  intros Hn Hcxl Hg R. unfold setup_internal in R.
  set (s0 := su_names _ _ _ _ s) in R.
  apply bind_inv in R as (env & e1 & e2 & R1 & R & ->).
  assert (quiet e1) as Hq1.
  { destruct use_nof; [by apply call_inv in R1 as [_ ->]|by apply ret_inv in R1 as [_ ->]]. }
  destruct (negb env); [by apply ret_inv in R as [[= -> ->] _]|].
  destruct (String.eqb _ _); [by apply ret_inv in R as [[= -> ->] _]|].
  apply bind_inv in R as ([rc sc] & e3 & e4 & [Hq3 Hp3]%create_client_quiet & R & ->); [|done].
  cbn [fst snd] in R. destruct rc as [u|e]; [|by apply ret_inv in R as [[= -> ->] _]].
  destruct (rs_client (su_segments sc)) as [c|]; [|by apply ret_inv in R as [[= -> ->] _]].
  apply bind_inv in R as ([rb sb] & e5 & e6 & [Hq5 Hp5]%local_buffer_quiet & R & ->). cbn [fst snd] in R.
  destruct rb as [u'|e]; [|by apply ret_inv in R as [[= -> ->] _]].
  apply bind_inv in R as ([rm sm] & e7 & e8 & Rm & R & ->). cbn [fst snd] in R.
  destruct (String.eqb_spec protocol "cxl"); [done|].
  pose proof (mount_global_ends _ _ _ _ _ _ _ _ Hg (global_fuel_enough g Hg) Rm) as Hend.
  destruct rm as [[[]|e]|]; [|by apply ret_inv in R as [[= -> ->] _]|done].
  apply bind_inv in R as ([rv sv] & e9 & e10 & Hq9%services_quiet & [[= -> ->] ->]%ret_inv & ->).
  split; [done|]. intros _. cbn [fst snd] in *.
  apply mount_global_run in Rm as (M1 & M2 & M3); [|done].
  assert (mounted_pieces (e1 ++ e3 ++ e5 ++ e7 ++ e9 ++ []) = mounted_pieces e7) as ->.
  { rewrite !mounted_pieces_app, (proj1 Hq1), (proj1 Hq3), (proj1 Hq5), (proj1 Hq9). cbn.
    by rewrite app_nil_r. }
  assert (allocated_pieces (e1 ++ e3 ++ e5 ++ e7 ++ e9 ++ []) = allocated_pieces e7) as ->.
  { rewrite !allocated_pieces_app, (proj2 Hq1), (proj2 Hq3), (proj2 Hq5), (proj2 Hq9). cbn.
    by rewrite app_nil_r. }
  destruct (chunks_sum _ g Hg (global_fuel_enough g Hg)) as [Hsum _]. rewrite M1.
  split_and!; [|done|done|].
  - apply Z.le_trans with (sum (chunks (global_fuel max_mr_size g) g)); [by rewrite Hsum|]. apply sum_ge. intros k. apply piece_ge.
  - intros Hnn Hhp. etrans; [|exact Hsum]. f_equal. etrans; [|apply list_fmap_id].
    apply list_fmap_ext. intros i k _. rewrite Hp5, Hp3. by apply piece_exact.
Qed.
End Spec.
