(* ===== verification/RealTeardown.v ===== *)
(** * Tear-down of the real client: everything is given back, in the right order

    Ports, the local buffer, the memory of the segments and the store client itself
    are resources of the real client; the destructor gives all of them back, and
    memory only after the store client has unmounted it. *)

From S2P Require Import Prelude CxxString MemoryLocation StoreTypes ReplicaPolicy Samples Accounting Segments SegmentsSpec DummyMap RangedRead RealSegments RealSegmentsSpec RealChunks RealShm RealShmSpec RealSetup RealSetupSpec.
From stdpp Require Import base strings list sets gmap fin_maps.
From Stdlib Require Import ZArith Lia.

#[local] Open Scope Z_scope.
#[local] Set Default Proof Using "Type".

Inductive setup_res :=
| SPort (port : Z)
| SBuffer (base : Z)
| SMem (ptr : Z)
| SClient.

#[export] Instance setup_res_eq : EqDecision setup_res.
Proof. solve_decision. Defined.

#[export] Instance setup_resources : Resources setup_event setup_res := {|
  acquires e := match e with
    | UBind port => if port <? 0 then [] else [SPort port]
    | UCreate _ (Some _) => [SClient]
    | UNewAllocator _ base => [SBuffer base]
    | UAlloc _ _ ptr => if ptr =? 0 then [] else [SMem ptr]
    | _ => []
    end;
  release_of e := match e with
    | UUnbind port => Some (SPort port, 0)
    | UDestroy => Some (SClient, 0)
    | UFreeAllocator base => Some (SBuffer base, 0)
    | UFree _ ptr => Some (SMem ptr, 0)
    | _ => None
    end |}.

Definition ptr_res (l : list (Z * deleter)) : list setup_res := SMem <$> l.*1.
Definition client_held (seg : RealSegments) : list setup_res := of_option (λ _, SClient) (rs_client seg).

(** A store client only the file storage refers to. *)
Definition storage_held (s : SetupState) : list setup_res :=
  match su_storage s with StorageOfOld _ => [SClient] | _ => [] end.

Definition held_res (s : SetupState) : list setup_res :=
  of_option SPort (su_port s) ++ of_option (λ a, SBuffer a.1) (su_allocator s) ++
  client_held (su_segments s) ++ ptr_res (su_ptrs s) ++ ptr_res (su_ascend_ptrs s) ++
  storage_held s.

(** The deleter frees the memory. *)
Definition deleter_frees (d : deleter) : Prop :=
  match d with FreeMapping n | FreeUb n => 0 < n | _ => True end.

Definition ptrs_ok (s : SetupState) : Prop :=
  Forall (λ x, deleter_frees x.2) (su_ptrs s) ∧ Forall (λ x, deleter_frees x.2) (su_ascend_ptrs s).

Section Teardown.
Context `{!SegmentServices, !MapServices, !SetupServices}.
Context (max_mr_size page_size hugepage_size ERR_ADDRESS_NOT_REGISTERED : Z).
Context (GPU_PREFIX kWildcardLocation : string).
Context (use_nof use_hugepage : bool) (max_retries : Z) (cxl_env : option string) (cxl_base : Z).
Context (numa_nodes : list Z) (enable_http_server : bool).
Context (hasExplicitPort : string → bool) (getHostNameWithoutPort : string → string).
Context (buildHostNameWithPort : string → Z → string) (align_up : Z → Z → Z).
Context (storage_keeps_client : bool).

Lemma on_map_owns {A} (l : list setup_res) (m : gio A) : owns l (on_map m) (λ _, l).
Proof.
  intros h v evs R. apply lift_inv in R as (evs' & _ & ->). clear h v.
  assert (Hn : ∀ f : setup_event → list setup_res, (∀ e, f (UMap e) = []) → (UMap <$> evs') ≫= f = []).
  { intros f Hf. induction evs' as [|e evs' IH]; [done|]. cbn. by rewrite Hf, IH. }
  intros r. unfold times. rewrite !Hn by done. rewrite count_nil. lia.
Qed.

Lemma destroy_client_owns seg l :
  owns (client_held seg ++ l) (destroy_client ERR_ADDRESS_NOT_REGISTERED seg) (λ _, l).
Proof.
  unfold destroy_client, client_held. destruct (rs_client seg) as [c|]; cbn; [|by apply owns_ret].
  apply owns_seq with (mid := λ _, SClient :: l); [apply on_map_owns|]. intros s.
  apply owns_seq with (mid := λ _, l); [owned_call|]. intros u. by apply owns_ret.
Qed.

Lemma unbind_owns s : owns (held_res s) (unbind s) held_res.
Proof.
  unfold unbind. destruct (su_port s) as [p|] eqn:Hp; [|by apply owns_ret].
  unfold held_res at 1. rewrite Hp. cbn [of_option app].
  set (l := of_option (λ a, SBuffer a.1) (su_allocator s) ++ _).
  apply owns_seq with (mid := λ _, l); [owned_call|]. intros u. by apply owns_ret.
Qed.

Abbreviation reset := (reset_client ERR_ADDRESS_NOT_REGISTERED storage_keeps_client).

(** The client is destroyed, or it is left to the file storage. *)
Lemma reset_client_owns s : owns (held_res s) (reset s) held_res.
Proof.
  unfold reset_client. destruct (rs_client (su_segments s)) as [c|] eqn:Hc; [|by apply owns_ret].
  unfold shared_client. destruct (su_storage s) eqn:Hst, storage_keeps_client;
    try (apply owns_ret; unfold held_res, storage_held, client_held; cbn; rewrite Hc, Hst; cbn;
         solve_Permutation).
  all: set (l := of_option SPort (su_port s) ++ of_option (λ a, SBuffer a.1) (su_allocator s) ++
            ptr_res (su_ptrs s) ++ ptr_res (su_ascend_ptrs s) ++ storage_held s).
  all: apply owns_bind with (mid := λ _, l) (P := λ seg, rs_client seg = None);
    [eapply owns_pre; [apply (destroy_client_owns _ l)|]; unfold l, held_res; solve_Permutation
    |unfold destroy_client; rewrite Hc; frame_run
    |intros seg Hn; apply owns_ret; unfold held_res, client_held; cbn; by rewrite Hn].
Qed.

Lemma reset_client_none s : returns (reset s) (λ s', rs_client (su_segments s') = None).
Proof.
  unfold reset_client. destruct (rs_client (su_segments s)) as [c|] eqn:Hc; [|by apply returns_ret].
  destruct (shared_client _ _); [by apply returns_ret|].
  apply returns_seq with (P := λ seg, rs_client seg = None); [unfold destroy_client; rewrite Hc; frame_run|].
  intros seg Hn. by apply returns_ret.
Qed.

(** The new client takes the place of the old one. *)
Lemma set_client_owns c s :
  owns (SClient :: held_res s) (set_client ERR_ADDRESS_NOT_REGISTERED storage_keeps_client c s) held_res.
Proof.
  unfold set_client. apply owns_bind with (mid := λ s', [SClient] ++ held_res s')
    (P := λ s', rs_client (su_segments s') = None).
  - apply (owns_frame [SClient]). apply reset_client_owns.
  - apply reset_client_none.
  - intros s' Hn. apply owns_ret. unfold held_res, client_held. cbn. rewrite Hn. cbn. solve_Permutation.
Qed.

Lemma new_client_owns host l :
  owns l (create host) (λ o, of_option (λ _, SClient) o ++ l).
Proof.
  apply owns_call. intros o r. cbn. unfold releases, refuses.
  destruct o; cbn; rewrite ?holds_cons, ?holds_nil; lia.
Qed.

Lemma try_ports_owns retries host port : ∀ s,
  owns (held_res s)
    (try_ports ERR_ADDRESS_NOT_REGISTERED buildHostNameWithPort storage_keeps_client retries host port s)
    (λ r, held_res r.2).
Proof.
  induction retries as [|retries IH]; intros s; cbn [try_ports]; [by apply owns_ret|].
  apply owns_seq with (mid := λ p, (if p <? 0 then [] else [SPort p]) ++ held_res s).
  { apply owns_call. intros p r. cbn. unfold releases, refuses. cbn. rewrite holds_app, holds_nil. lia. }
  intros p. apply owns_bind with (mid := λ s', (if p <? 0 then [] else [SPort p]) ++ held_res s')
    (P := λ s', su_port s' = None).
  { apply owns_frame. apply unbind_owns. }
  { intros h v evs R. unfold unbind in R. destruct (su_port s) eqn:Hp.
    - by apply bind_inv in R as (? & ? & ? & _ & [-> _]%ret_inv & _).
    - by apply ret_inv in R as [-> _]. }
  intros s1 Hs1. destruct (p <? 0); [apply IH|]. cbv zeta. set (s2 := su_names _ _ _ _ _).
  assert (Hs2 : SPort p :: held_res s1 ≡ₚ held_res s2).
  { unfold held_res. cbn. by rewrite Hs1. }
  apply owns_seq with (mid := λ o, of_option (λ _, SClient) o ++ held_res s2).
  { eapply owns_pre; [apply new_client_owns|symmetry; exact Hs2]. }
  intros [c|]; cbn [of_option app].
  - eapply owns_seq; [apply set_client_owns|]. intros s3. by apply owns_ret.
  - eapply owns_seq; [apply unbind_owns|]. intros s3. apply IH.
Qed.

Lemma create_client_owns host port s :
  owns (held_res s)
    (create_client ERR_ADDRESS_NOT_REGISTERED max_retries hasExplicitPort getHostNameWithoutPort
       buildHostNameWithPort storage_keeps_client host port s) (λ r, held_res r.2).
Proof.
  unfold create_client. destruct (hasExplicitPort host).
  - cbv zeta. set (s2 := su_names _ _ _ _ s). change (held_res s) with (held_res s2).
    eapply owns_seq; [apply new_client_owns|].
    intros [c|]; cbn [of_option app]; [|by apply owns_ret].
    eapply owns_seq; [apply set_client_owns|]. intros s3. by apply owns_ret.
  - eapply owns_seq; [apply try_ports_owns|]. intros r. by apply owns_ret.
Qed.

(** ** The local buffer and the global segment *)

Definition buffer_res (s : SetupState) : list setup_res :=
  of_option (λ a, SBuffer a.1) (su_allocator s).

Lemma free_allocator_owns s l : owns (buffer_res s ++ l) (free_allocator s) (λ _, l).
Proof.
  unfold buffer_res, free_allocator. destruct (su_allocator s) as [[base n]|]; [|by apply owns_ret].
  cbn [of_option app fst]. owned_call.
Qed.

Lemma local_buffer_owns c n s :
  owns (held_res s)
    (RealSetup.setup_local_buffer max_mr_size GPU_PREFIX kWildcardLocation c n s)
    (λ r, held_res r.2).
Proof.
  unfold RealSetup.setup_local_buffer.
  apply owns_seq with (mid := λ base, SBuffer base :: held_res s).
  { set (l := held_res s). owned_call. }
  intros base.
  set (k := SBuffer base :: of_option SPort (su_port s) ++ client_held (su_segments s) ++
            ptr_res (su_ptrs s) ++ ptr_res (su_ascend_ptrs s) ++ storage_held s).
  apply owns_seq with (mid := λ _, k).
  { eapply owns_pre; [apply (free_allocator_owns s k)|]. unfold k, buffer_res, held_res.
    solve_Permutation. }
  intros u. cbv zeta. set (s1 := su_set_buffer _ _ s).
  assert (Hk : k ≡ₚ held_res s1) by (unfold k, held_res; cbn; solve_Permutation).
  eapply owns_pre; [|symmetry; exact Hk]. destruct (_ && _); [|by apply owns_ret].
  eapply owns_seq; [apply on_map_owns|]. intros [v|e]; by apply owns_ret.
Qed.

Abbreviation track := (track_segment use_hugepage numa_nodes).

Lemma track_held protocol ptr n s : held_res (track protocol ptr n s) ≡ₚ SMem ptr :: held_res s.
Proof.
  unfold track_segment, held_res, ptr_res.
  destruct (_ || _); [|destruct (String.eqb _ _); [|destruct (_ || _)]]; cbn;
    rewrite !fmap_app; cbn; solve_Permutation.
Qed.

Lemma mount_owns c ptr n protocol location s :
  owns (held_res s) (mount max_mr_size c ptr n protocol location s) (λ r, held_res r.2).
Proof.
  unfold mount. eapply owns_seq; [apply on_map_owns|]. intros r. by apply owns_ret.
Qed.

Abbreviation mount_all := (mount_global max_mr_size page_size hugepage_size kWildcardLocation
                             use_hugepage numa_nodes align_up).

Lemma mount_global_owns c fuel : ∀ g s,
  owns (held_res s) (mount_all fuel c g s) (λ r, held_res r.2).
Proof.
  induction fuel as [|fuel IH]; intros g s; cbn [mount_global]; [by apply owns_ret|].
  destruct (g <=? 0); [by apply owns_ret|].
  destruct (segment_plan _ _ _ _ _ _ _ _) as [[src mapped] location].
  apply owns_seq with (mid := λ ptr, (if ptr =? 0 then [] else [SMem ptr]) ++ held_res s).
  { apply owns_call. intros ptr r. cbn. unfold releases, refuses. cbn.
    rewrite holds_app, holds_nil. lia. }
  intros ptr. destruct (ptr =? 0); [by apply owns_ret|].
  apply owns_seq with (mid := λ r, held_res r.2).
  { eapply owns_pre; [apply mount_owns|]. apply track_held. }
  intros [rm sm]. cbn [fst snd]. destruct rm; [apply IH|by apply owns_ret].
Qed.

Lemma mount_cxl_owns c s :
  owns (held_res s) (mount_cxl max_mr_size kWildcardLocation cxl_env cxl_base c s)
    (λ r, held_res r.2).
Proof.
  unfold mount_cxl. destruct cxl_env as [e|]; [|by apply owns_ret]. cbv zeta.
  eapply owns_seq; [apply mount_owns|]. intros m. by apply owns_ret.
Qed.

(** The storage goes, with a store client only it referred to. *)
Lemma drop_storage_owns s l :
  owns (storage_held s ++ l) (drop_storage ERR_ADDRESS_NOT_REGISTERED s) (λ _, l).
Proof.
  unfold drop_storage, storage_held. destruct (su_storage s) as [| |seg]; [by apply owns_ret..|].
  apply owns_seq with (mid := λ _, SClient :: l); [apply on_map_owns|]. intros x.
  apply owns_seq with (mid := λ _, l); [owned_call|]. intros u. by apply owns_ret.
Qed.

Lemma drop_storage_run s :
  returns (drop_storage ERR_ADDRESS_NOT_REGISTERED s)
    (λ s', s' = su_set_services NoStorage (su_requester s) s).
Proof. unfold drop_storage. destruct (su_storage s); frame_run. Qed.

Lemma init_storage_owns s :
  owns (held_res s) (init_storage ERR_ADDRESS_NOT_REGISTERED s) (λ r, held_res r.2).
Proof.
  unfold init_storage. set (s0 := su_set_services StorageOfClient (su_requester s) s).
  apply owns_bind with (mid := λ _, held_res s0)
    (P := λ s', s' = su_set_services NoStorage (su_requester s) s).
  - eapply owns_pre; [apply (drop_storage_owns s (held_res s0))|]. unfold held_res, s0. cbn.
    change (storage_held (su_set_services _ _ _)) with (@nil setup_res). solve_Permutation.
  - apply drop_storage_run.
  - intros s' ->. set (l := held_res s0). apply owns_seq with (mid := λ _, l); [owned_call|].
    intros r. by apply owns_ret.
Qed.

Lemma start_services_owns ssd offload s :
  owns (held_res s)
    (start_services ERR_ADDRESS_NOT_REGISTERED enable_http_server getHostNameWithoutPort
       buildHostNameWithPort ssd offload s) (λ r, held_res r.2).
Proof.
  assert (Hc : ∀ {A} (f : list setup_event → A) ev l,
    (∀ v, acquires (ev v) = [] ∧ release_of (ev v) = None) → owns l (call f ev) (λ _, l)).
  { intros A f ev l Hv. apply owns_call. intros v r. destruct (Hv v) as [Ha Hr].
    unfold releases, refuses. rewrite Ha, Hr, holds_nil. lia. }
  unfold start_services. apply owns_seq with (mid := λ _, held_res s).
  { destruct (String.eqb _ _); [by apply owns_ret|by apply Hc]. }
  intros ipc. destruct (negb _); [by apply owns_ret|].
  apply owns_seq with (mid := λ _, held_res s).
  { destruct (_ && _); [|by apply owns_ret].
    eapply owns_seq; [by apply Hc|]. intros p. by apply owns_ret. }
  intros o.
  assert (Hend : ∀ st : SetupState, owns (held_res st)
    (let! init := (if ssd then init_storage ERR_ADDRESS_NOT_REGISTERED st else ret (Ok tt, st)) in
     match init.1 with
     | Err e => ret (Err e, init.2)
     | Ok _ =>
         (if enable_http_server then call u_start_http UStartHttp ;;; ret tt else ret tt) ;;;
         ret (Ok tt, su_set_services (su_storage init.2) true init.2)
     end) (λ r, held_res r.2)).
  { intros st. apply owns_seq with (mid := λ r : expected unit * SetupState, held_res r.2).
    { destruct ssd; [apply init_storage_owns|by apply owns_ret]. }
    intros [init st']. cbn [fst snd]. destruct init; [|by apply owns_ret].
    apply owns_seq with (mid := λ _, held_res st').
    { destruct enable_http_server; [|by apply owns_ret].
      eapply owns_seq; [by apply Hc|]. intros v. by apply owns_ret. }
    intros v. by apply owns_ret. }
  destruct o as [[port|]|]; [exact (Hend (su_names _ _ _ _ s))|by apply owns_ret|apply Hend].
Qed.

Abbreviation run_setup := (setup_internal max_mr_size page_size hugepage_size
  ERR_ADDRESS_NOT_REGISTERED GPU_PREFIX kWildcardLocation use_nof use_hugepage max_retries cxl_env
  cxl_base numa_nodes enable_http_server hasExplicitPort getHostNameWithoutPort
  buildHostNameWithPort align_up storage_keeps_client).

Lemma setup_owns host g n protocol ipc port ssd offload s :
  owns (held_res s) (run_setup host g n protocol ipc port ssd offload s) (λ r, held_res r.2).
Proof.
  unfold setup_internal. cbv zeta. set (s0 := su_names _ _ _ _ s).
  change (held_res s) with (held_res s0).
  apply owns_seq with (mid := λ _, held_res s0).
  { destruct use_nof; [set (l := held_res s0); owned_call|by apply owns_ret]. }
  intros env. destruct (negb env); [by apply owns_ret|].
  destruct (String.eqb _ _); [by apply owns_ret|].
  eapply owns_seq; [apply create_client_owns|]. intros [rc sc]. cbn [fst snd].
  destruct rc as [u|e]; [|by apply owns_ret].
  destruct (rs_client (su_segments sc)) as [c|]; [|by apply owns_ret].
  eapply owns_seq; [apply local_buffer_owns|]. intros [rb sb]. cbn [fst snd].
  destruct rb as [v|e]; [|by apply owns_ret].
  apply owns_seq with (mid := λ r, held_res r.2).
  { destruct (String.eqb _ _); [apply mount_cxl_owns|apply mount_global_owns]. }
  intros [rm sm]. cbn [fst snd]. destruct rm as [[w|e]|]; [|by apply owns_ret..].
  eapply owns_seq; [apply start_services_owns|]. intros r. by apply owns_ret.
Qed.

(** ** Every deleter frees its memory *)

Definition same_ptrs (s s' : SetupState) : Prop :=
  su_ptrs s' = su_ptrs s ∧ su_ascend_ptrs s' = su_ascend_ptrs s.

Lemma same_ptrs_ok s s' : same_ptrs s s' → ptrs_ok s → ptrs_ok s'.
Proof. by intros [E1 E2]; unfold ptrs_ok; rewrite E1, E2. Qed.

Lemma unbind_ptrs s : returns (unbind s) (same_ptrs s).
Proof. unfold unbind. frame_run. Qed.

Lemma reset_client_ptrs s : returns (reset s) (same_ptrs s).
Proof. unfold reset_client. frame_run. Qed.

Lemma set_client_ptrs c s : returns (set_client ERR_ADDRESS_NOT_REGISTERED storage_keeps_client c s) (same_ptrs s).
Proof.
  unfold set_client. eapply returns_seq; [apply reset_client_ptrs|]. intros s' Hs. by apply returns_ret.
Qed.

Lemma same_ptrs_trans s1 s2 s3 : same_ptrs s1 s2 → same_ptrs s2 s3 → same_ptrs s1 s3.
Proof. intros [E1 E2] [E3 E4]. split; congruence. Qed.

Lemma returns_weaken {A} (m : uio A) (P Q : A → Prop) : (∀ a, P a → Q a) → returns m P → returns m Q.
Proof. intros HPQ Hm h v evs R. eapply HPQ, Hm, R. Qed.

Lemma try_ports_ptrs retries host port : ∀ s,
  returns (try_ports ERR_ADDRESS_NOT_REGISTERED buildHostNameWithPort storage_keeps_client retries host
             port s) (λ r, same_ptrs s r.2).
Proof.
  induction retries as [|retries IH]; intros s; cbn [try_ports]; [by apply returns_ret|].
  apply returns_bind. intros p. eapply returns_seq; [apply unbind_ptrs|]. intros s1 Hs1.
  destruct (p <? 0).
  { eapply returns_weaken; [|apply IH]. intros r. by apply same_ptrs_trans. }
  cbv zeta. apply returns_bind. intros [c|].
  - eapply returns_seq; [apply set_client_ptrs|]. intros s2 Hs2. apply returns_ret.
    by eapply same_ptrs_trans in Hs2; [|exact Hs1].
  - eapply returns_seq; [apply unbind_ptrs|]. intros s2 Hs2.
    eapply returns_weaken; [|apply IH]. intros r. apply same_ptrs_trans.
    by eapply same_ptrs_trans in Hs2; [|exact Hs1].
Qed.

Lemma create_client_ptrs host port s :
  returns (create_client ERR_ADDRESS_NOT_REGISTERED max_retries hasExplicitPort
             getHostNameWithoutPort buildHostNameWithPort storage_keeps_client host port s)
    (λ r, same_ptrs s r.2).
Proof.
  unfold create_client. destruct (hasExplicitPort host).
  - cbv zeta. apply returns_bind. intros [c|]; [|by apply returns_ret].
    eapply returns_seq; [apply set_client_ptrs|]. intros s1 Hs1. by apply returns_ret.
  - eapply returns_seq; [apply try_ports_ptrs|]. intros r Hr. by apply returns_ret.
Qed.

Lemma local_buffer_ptrs c n s :
  returns (RealSetup.setup_local_buffer max_mr_size GPU_PREFIX kWildcardLocation c n s)
    (λ r, same_ptrs s r.2).
Proof. unfold RealSetup.setup_local_buffer. cbv zeta. frame_run. Qed.

Lemma mount_ptrs c ptr n protocol location s :
  returns (mount max_mr_size c ptr n protocol location s) (λ r, same_ptrs s r.2).
Proof. unfold mount. frame_run. Qed.

Lemma init_storage_ptrs s :
  returns (init_storage ERR_ADDRESS_NOT_REGISTERED s) (λ r, same_ptrs s r.2).
Proof.
  unfold init_storage. eapply returns_seq; [apply drop_storage_run|]. intros s' ->.
  apply returns_bind. intros r. by apply returns_ret.
Qed.

Lemma start_services_ptrs ssd offload s :
  returns (start_services ERR_ADDRESS_NOT_REGISTERED enable_http_server getHostNameWithoutPort
             buildHostNameWithPort ssd offload s) (λ r, same_ptrs s r.2).
Proof.
  unfold start_services. apply returns_bind. intros ipc. destruct (negb _); [by apply returns_ret|].
  apply returns_bind. intros o.
  destruct o as [[port|]|]; [|by apply returns_ret|];
    (apply returns_seq with (P := λ r : expected unit * SetupState, same_ptrs s r.2);
     [destruct ssd; [eapply returns_weaken; [|apply init_storage_ptrs]; intros r Hr; exact Hr
                    |by apply returns_ret]|intros [r s'] Hs; cbn [fst snd];
      frame_run]).
Qed.

Context (max_pos : 0 < max_mr_size) (pages_pos : 0 < page_size ∧ 0 < hugepage_size).
Context (align_ge : ∀ n a, 0 < a → n ≤ align_up n a).

Lemma track_ok protocol ptr n s : 0 < n → ptrs_ok s → ptrs_ok (track protocol ptr n s).
Proof.
  intros Hn [Hp Ha].
  assert (Hadd : ∀ d l, deleter_frees d → Forall (λ x : Z * deleter, deleter_frees x.2) l →
    Forall (λ x : Z * deleter, deleter_frees x.2) (l ++ [(ptr, d)])).
  { intros d l Hd Hl. apply Forall_app. split; [done|]. by constructor. }
  unfold track_segment, ptrs_ok.
  destruct (_ || _); [|destruct (String.eqb _ _); [|destruct (_ || _)]]; cbn;
    split; first [done|by apply Hadd].
Qed.

Lemma plan_size protocol n :
  n ≤ (segment_plan page_size hugepage_size kWildcardLocation use_hugepage numa_nodes align_up
         protocol n).1.2.
Proof using pages_pos align_ge. by apply piece_ge. Qed.

Lemma mount_global_ok c fuel : ∀ g s, ptrs_ok s →
  returns (mount_all fuel c g s) (λ r, ptrs_ok r.2).
Proof using max_pos pages_pos align_ge.
  induction fuel as [|fuel IH]; intros g s Hok; cbn [mount_global]; [by apply returns_ret|].
  destruct (Z.leb_spec g 0); [by apply returns_ret|].
  pose proof (plan_size (su_protocol s) (Z.min g max_mr_size)) as Hp.
  destruct (segment_plan _ _ _ _ _ _ _ _) as [[src mapped] location]. cbn in Hp.
  apply returns_bind. intros ptr. destruct (ptr =? 0); [by apply returns_ret|].
  eapply returns_seq; [apply mount_ptrs|]. intros [rm sm] Hs. cbn [fst snd] in *.
  assert (ptrs_ok sm) by (eapply same_ptrs_ok; [exact Hs|]; apply track_ok; [lia|done]).
  destruct rm; [by apply IH|by apply returns_ret].
Qed.

Lemma setup_ok host g n protocol ipc port ssd offload s :
  ptrs_ok s → returns (run_setup host g n protocol ipc port ssd offload s) (λ r, ptrs_ok r.2).
Proof using max_pos pages_pos align_ge.
  intros Hok. unfold setup_internal. cbv zeta. set (s0 := su_names _ _ _ _ s).
  apply returns_bind. intros env. destruct (negb env); [by apply returns_ret|].
  destruct (String.eqb _ _); [by apply returns_ret|].
  eapply returns_seq; [apply create_client_ptrs|]. intros [rc sc] Hc. cbn [fst snd] in *.
  apply same_ptrs_ok in Hc; [|done].
  destruct rc as [u|e]; [|by apply returns_ret].
  destruct (rs_client (su_segments sc)) as [c|]; [|by apply returns_ret].
  eapply returns_seq; [apply local_buffer_ptrs|]. intros [rb sb] Hb. cbn [fst snd] in *.
  apply same_ptrs_ok in Hb; [|done].
  destruct rb as [v|e]; [|by apply returns_ret].
  apply returns_seq with (P := λ r, ptrs_ok r.2).
  { destruct (String.eqb _ _); [|by apply mount_global_ok].
    unfold mount_cxl. destruct cxl_env; [|by apply returns_ret]. cbv zeta.
    eapply returns_seq; [apply mount_ptrs|]. intros r Hr. apply returns_ret.
    exact (same_ptrs_ok _ _ Hr Hb). }
  intros [rm sm] Hm. cbn [fst snd] in *. destruct rm as [[w|e]|]; [|by apply returns_ret..].
  eapply returns_seq; [apply start_services_ptrs|]. intros r Hr. apply returns_ret.
  exact (same_ptrs_ok _ _ Hr Hm).
Qed.

(** ** Tear-down *)

Lemma run_deleters_owns l k :
  Forall (λ x, deleter_frees x.2) l → owns (ptr_res l ++ k) (mmap run_deleter l) (λ _, k).
Proof.
  induction 1 as [|[ptr d] l Hd _ IH]; [by apply owns_ret|].
  change (ptr_res ((ptr, d) :: l) ++ k) with (SMem ptr :: ptr_res l ++ k).
  cbn [mmap]. set (m := ptr_res l ++ k) in *. apply owns_seq with (mid := λ _, m).
  - unfold run_deleter. cbn [fst snd]. cbn in Hd.
    destruct d as [protocol|n|n|]; cbv iota; try (rewrite (proj2 (Z.ltb_lt 0 n) Hd)); owned_call.
  - intros u. eapply owns_seq; [exact IH|]. intros us. by apply owns_ret.
Qed.

Lemma release_records_client s :
  returns (on_map (let! seg := ReleaseAllMountedSegmentRecords s in
                   ReleaseAllAllocatedSegmentRecords seg)) (λ seg, rs_client seg = rs_client s).
Proof.
  intros h v evs R. apply lift_inv in R as (e & R & _).
  apply bind_inv in R as (s1 & e1 & e2 & R1 & R & _).
  apply bind_inv in R1 as (? & ? & ? & _ & [-> _]%ret_inv & _).
  by apply bind_inv in R as (? & ? & ? & _ & [-> _]%ret_inv & _).
Qed.

(** What tear-down frees after the store client. *)
Lemma free_rest_owns s : ptrs_ok s →
  owns (held_res s)
    (free_allocator s ;;;
     let s := su_set_buffer None (su_region s) s in
     let! s := unbind s in
     mmap run_deleter (su_ptrs s) ;;;
     let s := su_names "" "" (su_local_rpc_addr s) (su_ipc_socket_path s)
                (su_set_ptrs [] (su_ascend_ptrs s) s) in
     let! ctxs := on_map (teardown_shms (su_contexts s)) in
     ret (Ok tt : expected unit, su_set_contexts ctxs true s)) (λ r, held_res r.2).
Proof.
  intros [Hp _]. set (s1 := su_set_buffer None (su_region s) s).
  apply owns_seq with (mid := λ _, held_res s1).
  { eapply owns_pre; [apply (free_allocator_owns s (held_res s1))|].
    unfold s1, buffer_res, held_res. cbn. solve_Permutation. }
  intros _. cbv zeta. change (su_ptrs s) with (su_ptrs s1) in Hp.
  eapply owns_bind; [apply unbind_owns|apply unbind_ptrs|]. intros s2 [E1 E2].
  rewrite <- E1 in Hp. set (s3 := su_set_ptrs [] (su_ascend_ptrs s2) s2).
  apply owns_seq with (mid := λ _, held_res s3).
  { eapply owns_pre; [apply (run_deleters_owns _ (held_res s3) Hp)|].
    unfold s3, held_res. cbn. solve_Permutation. }
  intros _. eapply owns_seq; [apply on_map_owns|]. intros ctxs. by apply owns_ret.
Qed.

Abbreviation tear_down := (tearDownAll_internal ERR_ADDRESS_NOT_REGISTERED storage_keeps_client).

Lemma tear_down_owns s : ptrs_ok s → owns (held_res s) (tear_down s) (λ r, held_res r.2).
Proof.
  intros Hok. unfold tearDownAll_internal. destruct (su_closed s); [by apply owns_ret|].
  cbv zeta. set (s1 := su_set_contexts _ _ s). change (held_res s) with (held_res s1).
  change (ptrs_ok s) with (ptrs_ok s1) in Hok.
  apply owns_seq with (mid := λ _, held_res s1); [set (l := held_res s1); owned_call|]. intros _.
  destruct (rs_client (su_segments s1)) as [c|]; [|by apply owns_ret].
  apply owns_bind with (mid := held_res) (P := same_ptrs s1).
  { destruct (su_allocator s1) as [[base n]|] eqn:E; [|by apply owns_ret].
    destruct (_ && _); [|by apply owns_ret].
    eapply owns_seq; [apply on_map_owns|]. intros x. apply owns_ret.
    unfold held_res. cbn [su_allocator su_set_buffer]. by rewrite E. }
  { frame_run. }
  intros s2 H2'. eapply owns_bind; [apply reset_client_owns|apply reset_client_ptrs|].
  intros s3 H3'. eapply owns_bind; [apply on_map_owns|apply release_records_client|].
  intros seg Hseg. set (s4 := su_set_segments seg s3).
  assert (held_res s3 = held_res s4) as ->.
  { unfold held_res, client_held. cbn. by rewrite Hseg. }
  apply free_rest_owns. apply (same_ptrs_ok s1); [|done].
  exact (same_ptrs_trans _ _ _ H2' H3').
Qed.

Lemma tear_down_ok s : ptrs_ok s → returns (tear_down s) (λ r, ptrs_ok r.2).
Proof.
  intros Hok. unfold tearDownAll_internal. destruct (su_closed s); [by apply returns_ret|].
  cbv zeta. set (s1 := su_set_contexts _ _ s).
  apply returns_bind. intros _. destruct (rs_client (su_segments s1)); [|by apply returns_ret].
  apply returns_seq with (P := same_ptrs s1); [frame_run|]. intros s2 H2'.
  eapply returns_seq; [apply reset_client_ptrs|]. intros s3 H3'.
  apply returns_bind. intros seg. apply returns_bind. intros _.
  eapply returns_seq; [apply unbind_ptrs|]. intros s4 H4'.
  apply returns_bind. intros _. apply returns_bind. intros ctxs. apply returns_ret.
  pose proof (same_ptrs_trans _ _ _ (same_ptrs_trans _ _ _ H2' H3') H4') as [_ E].
  unfold ptrs_ok. cbn. rewrite E. split; [done|apply Hok].
Qed.

Lemma destroy_real_owns s : ptrs_ok s →
  owns (held_res s) (destroy_real ERR_ADDRESS_NOT_REGISTERED storage_keeps_client s) (λ _, []).
Proof.
  intros Hok. unfold destroy_real.
  eapply owns_bind; [by apply tear_down_owns|by apply tear_down_ok|]. intros [r s1] Hok1. cbv zeta.
  cbn [fst snd] in *. eapply owns_bind with (P := λ s', same_ptrs s1 s' ∧ su_port s' = None);
    [apply unbind_owns| |].
  { unfold unbind. destruct (su_port s1) eqn:E; frame_run. }
  intros s2 [Hs Hport]. destruct (same_ptrs_ok _ _ Hs Hok1) as [Hp Ha].
  apply owns_seq with (mid := λ _, buffer_res s2 ++ storage_held s2 ++ client_held (su_segments s2) ++
                                   ptr_res (su_ptrs s2)).
  { eapply owns_pre; [apply run_deleters_owns; exact Ha|]. unfold held_res, buffer_res.
    rewrite Hport. cbn. solve_Permutation. }
  intros _. apply owns_seq with (mid := λ _, buffer_res s2 ++ storage_held s2 ++ client_held (su_segments s2)).
  { eapply owns_pre; [apply run_deleters_owns; exact Hp|]. solve_Permutation. }
  intros _. eapply owns_seq; [apply free_allocator_owns|]. intros x. cbn beta.
  eapply owns_bind; [apply drop_storage_owns|apply drop_storage_run|]. intros s3 ->.
  rewrite <- (app_nil_r (client_held _)).
  eapply owns_seq; [apply destroy_client_owns|]. intros seg. by apply owns_ret.
Qed.

(** ** The life of a real client *)

Inductive real_life : SetupState → list setup_event → Prop :=
| life_new : real_life new_real []
| life_setup s h host g n protocol ipc port ssd offload r s' evs :
    real_life s h → run_setup host g n protocol ipc port ssd offload s h = ((r, s'), evs) →
    real_life s' (h ++ evs)
| life_tear_down s h r s' evs :
    real_life s h → tear_down s h = ((r, s'), evs) → real_life s' (h ++ evs)
(* operations on segments, their records and shared memory *)
| life_operation s h seg ctxs evs :
    real_life s h → rs_client seg = rs_client (su_segments s) →
    real_life (su_set_contexts ctxs (su_closed s) (su_set_segments seg s)) (h ++ (UMap <$> evs)).

Lemma map_accounts l evs : accounts l (UMap <$> evs : list setup_event) (l : list setup_res).
Proof. by apply (on_map_owns l (λ _, (tt, evs)) [] tt). Qed.

Lemma real_life_accounts s h :
  real_life s h → accounts [] h (held_res s) ∧ ptrs_ok s.
Proof using max_pos pages_pos align_ge.
  induction 1 as [|s h host g n protocol ipc port ssd offload r s' evs _ [IH1 IH2] R
                 |s h r s' evs _ [IH1 IH2] R|s h seg ctxs evs _ [IH1 IH2] Hc].
  - split; [apply accounts_nil|done].
  - split; [|exact (setup_ok _ _ _ _ _ _ _ _ _ IH2 _ _ _ R)].
    eapply accounts_app; [exact IH1|]. exact (setup_owns _ _ _ _ _ _ _ _ _ _ _ _ R).
  - split; [|exact (tear_down_ok _ IH2 _ _ _ R)].
    eapply accounts_app; [exact IH1|]. exact (tear_down_owns _ IH2 _ _ _ R).
  - split; [|done]. eapply accounts_app; [exact IH1|].
    replace (held_res (su_set_contexts _ _ _)) with (held_res s); [apply map_accounts|].
    unfold held_res, client_held. cbn. by rewrite Hc.
Qed.

Lemma nothing_refused (evs : list setup_event) r : times refuses evs r = 0%nat.
Proof.
  unfold times. replace (evs ≫= refuses) with (@nil setup_res); [done|].
  induction evs as [|e evs IH]; [done|]. cbn. rewrite <- IH. by destruct e.
Qed.

End Teardown.
