(* ===== verification/RealTeardownOrder.v ===== *)
(** * The order of tear-down: segments are unmounted before their memory is freed

    The destructor of the real client destroys the store client, which unmounts every
    segment, before any memory is freed.  Two ways around it exist in the code and are
    shown by runs: a file storage that still refers to the store client, and a client
    that is set up again after it was closed. *)

From S2P Require Import Prelude CxxString MemoryLocation StoreTypes ReplicaPolicy Samples Accounting Segments SegmentsSpec DummyMap RangedRead RealSegments RealSegmentsSpec RealChunks RealShm RealShmSpec RealSetup RealSetupSpec RealTeardown.
From stdpp Require Import base strings list sets gmap fin_maps.
From Stdlib Require Import ZArith Lia.

#[local] Open Scope Z_scope.
#[local] Set Default Proof Using "Type".

(** Memory goes back to the system. *)
Definition frees (e : setup_event) : bool :=
  match e with
  | UFree _ _ | UFreeAllocator _ | UMap (GMunmap _ _ _) | UMap (GFreeMemory _ _) => true
  | _ => false
  end.

Abbreviation client_event e := (UMap (GSegment e)).

(** The master was asked to unmount the segment, and once it agreed the memory was
    handed back by the transfer engine. *)
Definition asked (id : UUID) (seg : Segment) (evs : list seg_event) : Prop :=
  ∃ r, MasterUnmount id r ∈ evs ∧ (r = Ok tt → ∃ rc, TEUnregister (seg_base seg) rc ∈ evs).

Lemma segment_asked_mono id seg evs evs' : evs ⊆ evs' → asked id seg evs → asked id seg evs'.
Proof. intros Hs (r & Hr & Hok). exists r. split; [by apply Hs|]. intros E. destruct (Hok E). eauto. Qed.

Section Order.
Context `{!SegmentServices, !MapServices, !SetupServices}.
Context (ERR_ADDRESS_NOT_REGISTERED : Z) (storage_keeps_client : bool).

Lemma unmount_asks s id seg h r s' evs :
  seg_inv s → mounted_segments_ s !! id = Some seg →
  UnmountSegment ERR_ADDRESS_NOT_REGISTERED (seg_base seg) (seg_size seg) s h = ((r, s'), evs) →
  asked id seg evs ∧ (s' = s ∨ s' = with_mounted (delete id (mounted_segments_ s)) s).
Proof.
  intros Hinv Hm R. unfold UnmountSegment in R.
  destruct (List.find _ _) as [[id' seg']|] eqn:Hf.
  - apply List.find_some in Hf as [Hin He]. apply list_elem_of_In in Hin.
    pose proof (is_segment_unique s id seg _ Hinv Hm Hin He) as [= -> ->].
    split; [|by apply unmount_impl_run in R]. destruct (inv_ids s Hinv id seg Hm) as (Hid & _).
    unfold UnmountSegmentImpl in R. rewrite Hid in R.
    apply bind_inv in R as (ur & ? & e2 & [_ ->]%call_inv & R & ->). exists ur.
    split; [by left|]. intros ->.
    apply bind_inv in R as (rc & ? & e3 & [_ ->]%call_inv & _ & ->). exists rc. right. by left.
  - exfalso. assert (Hin : In (id, seg) (map_to_list (mounted_segments_ s)))
      by (apply list_elem_of_In; by apply elem_of_map_to_list).
    apply (List.find_none _ _ Hf) in Hin. unfold is_segment in Hin. cbn in Hin.
    by rewrite !Z.eqb_refl in Hin.
Qed.

Lemma destroy_mounted_asks l : ∀ s h s' evs,
  mfold (destroy_mounted ERR_ADDRESS_NOT_REGISTERED) s l h = (s', evs) →
  seg_inv s → NoDup l.*1 → (∀ id seg, (id, seg) ∈ l → mounted_segments_ s !! id = Some seg) →
  ∀ id seg, (id, seg) ∈ l → asked id seg evs.
Proof.
  induction l as [|[id0 seg0] l IH]; intros s h s' evs R Hinv Hnd Hl id seg Hin;
    [by apply elem_of_nil in Hin|].
  cbn [mfold] in R. apply bind_inv in R as (s1 & e1 & e2 & R1 & R2 & ->).
  apply bind_inv in R1 as ([r s2] & e3 & e4 & R1 & [-> ->]%ret_inv & ->). cbn [fst snd] in *.
  apply NoDup_cons in Hnd as [Hni Hnd].
  apply (unmount_asks s id0 seg0) in R1 as [Ha Hs]; [|done|apply Hl; by left].
  rewrite app_nil_r. apply elem_of_cons in Hin as [[= -> ->]|Hin].
  { eapply segment_asked_mono; [|exact Ha]. intros e He. apply elem_of_app. by left. }
  eapply segment_asked_mono; [|eapply (IH _ _ _ _ R2); [|done| |exact Hin]].
  - intros e He. apply elem_of_app. by right.
  - destruct Hs as [->| ->]; [done|by apply seg_inv_delete].
  - intros id' seg' Hin'. assert (Hm : mounted_segments_ s !! id' = Some seg') by (apply Hl; by right).
    destruct Hs as [->| ->]; [done|]. cbn. rewrite lookup_delete_ne; [done|]. intros ->. apply Hni.
    apply list_elem_of_fmap. by exists (id', seg').
Qed.

Lemma mmap_calls {A} (f : A → list seg_event → Z) (ev : A → Z → seg_event) l : ∀ h v evs,
  mmap (λ x, call (f x) (ev x)) l h = (v, evs) → ∀ x, x ∈ l → ∃ rc, ev x rc ∈ evs.
Proof.
  induction l as [|y l IH]; intros h v evs R x Hx; [by apply elem_of_nil in Hx|].
  cbn [mmap] in R. apply bind_inv in R as (rc & e1 & e2 & [_ ->]%call_inv & R & ->).
  apply bind_inv in R as (ys & e3 & e4 & R & [_ ->]%ret_inv & ->).
  apply elem_of_cons in Hx as [->|Hx]; [exists rc; by left|].
  destruct (IH _ _ _ R x Hx) as [rc' Hrc]. exists rc'. right. apply elem_of_app. by left.
Qed.

(** Destroying the store client asks for every mounted segment, and unregisters the
    memory of every segment that is being unmounted. *)
Lemma destroy_segments_asks s h s' evs :
  seg_inv s → destroy_segments ERR_ADDRESS_NOT_REGISTERED s h = (s', evs) →
  (∀ id seg, mounted_segments_ s !! id = Some seg → asked id seg evs) ∧
  (∀ id seg, gracefully_unmounting_segments_ s !! id = Some seg →
     ∃ rc, TEUnregister (seg_base seg) rc ∈ evs).
Proof.
  intros Hinv R. apply bind_inv in R as (s1 & e1 & e2 & R1 & R & ->).
  apply bind_inv in R as (v & e3 & e4 & R3 & _ & ->). split.
  - intros id seg Hm. eapply segment_asked_mono; [|eapply (destroy_mounted_asks _ _ _ _ _ R1)].
    + intros e He. apply elem_of_app. by left.
    + destruct Hinv as [Hi Hd Ha Hc Ht]. split; cbn; try done.
    + apply NoDup_fst_map_to_list.
    + intros id' seg' Hin. by apply elem_of_map_to_list in Hin.
    + by apply elem_of_map_to_list.
  - intros id seg Hg. apply elem_of_map_to_list in Hg.
    destruct (mmap_calls _ _ _ _ _ _ R3 _ Hg) as [rc Hrc].
    exists rc. apply elem_of_app. right. apply elem_of_app. by left.
Qed.

Lemma client_events_keep (evs : list seg_event) :
  Forall (λ e, frees e = false) ((UMap <$> (GSegment <$> evs)) : list setup_event).
Proof. rewrite <- list_fmap_compose. by apply Forall_fmap, Forall_true. Qed.

(** C16: The destructor of a real client that was not closed destroys the store client
    before any memory is freed, provided no file storage keeps the store client alive:
    before that point the master was asked to unmount every mounted segment, the
    transfer engine handed back the memory of each one the master released and of
    every segment that was already being unmounted, and neither segment memory, nor
    the local buffer, nor a mapping was given back to the system. *)
Theorem teardown_unmounts_first s c h s' evs :
  su_closed s = false → rs_client (su_segments s) = Some c →
  shared_client storage_keeps_client s = false →
  seg_inv (rs_segments (su_segments s)) →
  destroy_real ERR_ADDRESS_NOT_REGISTERED storage_keeps_client s h = (s', evs) →
  ∃ e1 es e2, evs = (e1 ++ (UMap <$> (GSegment <$> es))) ++ UDestroy :: e2 ∧
    Forall (λ e, frees e = false) (e1 ++ (UMap <$> (GSegment <$> es))) ∧
    (∀ id seg, mounted_segments_ (rs_segments (su_segments s)) !! id = Some seg → asked id seg es) ∧
    (∀ id seg, gracefully_unmounting_segments_ (rs_segments (su_segments s)) !! id = Some seg →
       ∃ rc, TEUnregister (seg_base seg) rc ∈ es).
Proof.
  intros Hc Hcl Hst Hinv R.
  apply bind_inv in R as (r & t1 & t2 & R & _ & ->).
  unfold tearDownAll_internal in R. rewrite Hc in R. cbv zeta in R.
  apply bind_inv in R as (? & ? & t3 & [_ ->]%call_inv & R & ->).
  set (s1 := su_set_contexts _ _ s) in R.
  change (su_segments s1) with (su_segments s) in R. rewrite Hcl in R.
  apply bind_inv in R as (s2 & t4 & t5 & R4 & R & ->).
  assert (∃ es, t4 = UMap <$> (GSegment <$> es)) as [es4 ->].
  { destruct (su_allocator s1) as [[base n]|]; [|apply ret_inv in R4 as [_ ->]; by exists []].
    destruct ((0 <? n) && negb (String.eqb (su_protocol s1) "cxl")); [|apply ret_inv in R4 as [_ ->]; by exists []].
    apply bind_inv in R4 as (? & ? & ? & R4 & [_ ->]%ret_inv & ->).
    apply lift_inv in R4 as (e & R4 & ->). apply lift_inv in R4 as (e' & R4 & ->).
    exists e'. by rewrite app_nil_r. }
  assert (su_segments s2 = su_segments s ∧ shared_client storage_keeps_client s2
    = shared_client storage_keeps_client s) as [Hseg2 Hst2].
  { destruct (su_allocator s1) as [[base n]|]; [|by apply ret_inv in R4 as [-> _]].
    destruct ((0 <? n) && negb (String.eqb (su_protocol s1) "cxl")); [|by apply ret_inv in R4 as [-> _]].
    by apply bind_inv in R4 as (? & ? & ? & _ & [-> _]%ret_inv & _). }
  apply bind_inv in R as (s3 & t6 & t7 & R6 & R & ->).
  unfold reset_client in R6. rewrite Hseg2, Hcl, Hst2, Hst in R6.
  apply bind_inv in R6 as (seg & t8 & t9 & R8 & [-> ->]%ret_inv & ->).
  unfold destroy_client in R8. rewrite Hcl in R8.
  apply bind_inv in R8 as (sg & t10 & t11 & R10 & R8 & ->).
  apply bind_inv in R8 as (? & ? & ? & [_ ->]%call_inv & [-> ->]%ret_inv & ->).
  apply lift_inv in R10 as (e & R10 & ->). apply lift_inv in R10 as (es & R10 & ->).
  apply destroy_segments_asks in R10 as [Hm Hg]; [|done].
  exists ([UStopServers] ++ (UMap <$> (GSegment <$> es4))), es, (t7 ++ t2). split_and!; [|..]; try done.
  - rewrite <- !app_assoc. by repeat (cbn; f_equal).
  - apply Forall_app. split; [constructor; [done|]|]; apply client_events_keep.
Qed.
End Order.

(** ** Runs *)

(** Memory of a segment that the master still has is freed. *)
Fixpoint freed_while_mounted (mounted : list (UUID * Z)) (evs : list setup_event) : bool :=
  match evs with
  | [] => false
  | client_event (MasterMount seg (Ok _)) :: evs =>
      freed_while_mounted ((seg_id seg, seg_base seg) :: mounted) evs
  | client_event (MasterUnmount id (Ok _)) :: evs =>
      freed_while_mounted (filter (λ m, m.1 ≠ id) mounted) evs
  | UFree _ ptr :: evs =>
      bool_decide (ptr ∈ mounted.*2) || freed_while_mounted mounted evs
  | _ :: evs => freed_while_mounted mounted evs
  end.

(** Rounding up to a multiple. *)
Definition sample_align (n a : Z) : Z := (n + a - 1) / a * a.

Lemma sample_align_ge n a : 0 < a → n ≤ sample_align n a.
Proof. intros Ha. unfold sample_align. pose proof (Z.mul_div_le (n + a - 1) a Ha).
  pose proof (Z.mod_pos_bound (n + a - 1) a Ha). pose proof (Z.div_mod (n + a - 1) a). nia. Qed.

Definition sample_setup : SetupServices := {|
  u_spdk_env := λ _, true;
  u_bind := λ h, 12000 + Z.of_nat (length h);
  u_create := λ _ _, Some sample_client;
  u_new_allocator := λ _ _, 1048576;
  u_alloc := λ h _ _, 1073741824 * Z.of_nat (S (length h));
  u_start_ipc := λ _, 0;
  u_start_offload := λ _, Some 9000;
  u_init_storage := λ _, Ok tt;
  u_start_http := λ _, 0 |}.

(** Set-up of a client with a port of its own and a segment of 100000 bytes in pieces of
    at most 65536. *)
Abbreviation sample_run keeps max_mr hugepage use_hugepage nodes protocol global ssd :=
  (@setup_internal (counting_segments 9 true) sample_setup max_mr 4096 hugepage (-1) "cuda:"
     "*" false use_hugepage 3 None 0 nodes false (λ _, false) (λ h, h) (λ h _, h) sample_align
     keeps "host-a" global 4096 protocol "" 50052 ssd true).

Abbreviation plain_run keeps ssd := (sample_run keeps 65536 65536 false [] "tcp" 100000 ssd).
Abbreviation sample_tear_down keeps :=
  (@tearDownAll_internal (counting_segments 9 true) shm_maps (-1) keeps).
Abbreviation sample_destroy keeps :=
  (@destroy_real (counting_segments 9 true) shm_maps (-1) keeps).

Definition up_events (keeps ssd : bool) : list setup_event := (plain_run keeps ssd new_real []).2.
Definition up_state (keeps ssd : bool) : SetupState := (plain_run keeps ssd new_real []).1.2.

Lemma up_result keeps ssd :
  plain_run keeps ssd new_real [] = ((Some (Ok tt), up_state keeps ssd), up_events keeps ssd).
Proof.
  assert (Hr : (plain_run keeps ssd new_real []).1.1 = Some (Ok tt)) by (destruct keeps, ssd; by vm_compute).
  unfold up_state, up_events. rewrite <- Hr. by rewrite <- !surjective_pairing.
Qed.

Lemma setup_mounts_whole_segment_witness :
  sum (mounted_pieces (up_events false false)).*2 = 100000 ∧
  mounted_pieces (up_events false false) = allocated_pieces (up_events false false).
Proof.
  destruct (@setup_mounts_whole_segment (counting_segments 9 true) sample_setup 65536 4096
    65536 (-1) "cuda:" "*" false false 3 None 0 [] false (λ _, false) (λ h, h) (λ h _, h)
    sample_align false eq_refl (conj eq_refl eq_refl) sample_align_ge "host-a" 100000 4096 "tcp" "" 50052
    false true new_real [] (Some (Ok tt)) (up_state false false) (up_events false false)) as [_ Hok].
  - done.
  - done.
  - lia.
  - exact (up_result false false).
  - destruct (Hok eq_refl) as (_ & Heq & _ & Hsum). split; [by apply Hsum|done].
Defined.

Definition down_events (keeps ssd : bool) : list setup_event :=
  (sample_destroy keeps (up_state keeps ssd) (up_events keeps ssd)).2.
Definition down_state (keeps ssd : bool) : SetupState :=
  (sample_destroy keeps (up_state keeps ssd) (up_events keeps ssd)).1.

Lemma down_result keeps ssd :
  sample_destroy keeps (up_state keeps ssd) (up_events keeps ssd) = (down_state keeps ssd, down_events keeps ssd).
Proof. apply surjective_pairing. Qed.

Lemma up_life :
  @real_life (counting_segments 9 true) shm_maps sample_setup 65536 4096 65536 (-1) "cuda:" "*"
    false false 3 None 0 [] false (λ _, false) (λ h, h) (λ h _, h) sample_align false
    (up_state false false) (up_events false false).
Proof.
  rewrite <- (app_nil_l (up_events false false)).
  refine (life_setup _ _ _ _ _ _ _ _ _ _ _ _ _ _ _ _ _ _ new_real [] "host-a" 100000 4096 "tcp" ""
    50052 false true (Some (Ok tt)) (up_state false false) (up_events false false) _ _).
  - apply life_new.
  - exact (up_result false false).
Qed.


Definition one_up : SetupState :=
  MkSetup "tcp" "host-a:1" "" "" (MkRealSegments (Some sample_client) one_mounted ∅ ∅) None None
    None [(4096, FreePlain)] [] ∅ NoStorage false false.

Lemma teardown_unmounts_first_witness :
  ∃ e1 es e2,
    (sample_destroy false one_up []).2 = (e1 ++ (UMap <$> (GSegment <$> es))) ++ UDestroy :: e2 ∧
    Forall (λ e, frees e = false) (e1 ++ (UMap <$> (GSegment <$> es))) ∧
    asked (1, 7) one_segment es.
Proof.
  destruct (@teardown_unmounts_first (counting_segments 9 true) shm_maps (-1) false one_up
    sample_client [] (sample_destroy false one_up []).1 (sample_destroy false one_up []).2)
    as (e1 & es & e2 & He & Hf & Hm & _).
  - done.
  - done.
  - done.
  - exact one_mounted_inv.
  - apply surjective_pairing.
  - exists e1, es, e2. split_and!; [exact He|exact Hf|]. by apply Hm.
Defined.

(** The memory of segments is freed while the master still has them when the file storage
    keeps the store client alive: [tearDownAll_internal] resets [client_] but not
    [file_storage_] before the segment memory is freed.  Without the reference it is not. *)
Theorem storage_outlives_segments :
  freed_while_mounted [] (up_events true true ++ down_events true true) = true ∧
  freed_while_mounted [] (up_events false true ++ down_events false true) = false.
Proof. split; by vm_compute. Qed.

(** Set-up after [close] and destruction: [closed_] stays set, so the destructor tears
    nothing down and frees the memory of segments that are still mounted. *)
Theorem reopened_client_not_torn_down :
  let r1 := sample_tear_down false (up_state false false) (up_events false false) in
  let h1 := up_events false false ++ r1.2 in
  let r2 := plain_run false false r1.1.2 h1 in
  let h2 := h1 ++ r2.2 in
  r2.1.1 = Some (Ok tt) ∧ freed_while_mounted [] h2 = false ∧
  freed_while_mounted [] (h2 ++ (sample_destroy false r2.1.2 h2).2) = true.
Proof. by vm_compute. Qed.

(** Pieces are cut to [max_mr_size] before they are rounded up to NUMA nodes, so a piece
    can exceed the limit again: set-up that succeeds without the nodes fails with them. *)
Theorem rounded_piece_refused :
  (sample_run false 12288 65536 false [] "rdma" 12288 false new_real []).1.1 = Some (Ok tt) ∧
  (sample_run false 12288 65536 false [0; 1] "rdma" 12288 false new_real []).1.1
    = Some (Err INVALID_PARAMS).
Proof. split; by vm_compute. Qed.

(** With huge pages, memory that was mapped for the protocol [ascend] is released with
    [free_memory]. *)
Theorem mapped_memory_freed_as_protocol :
  let r := sample_run false 65536 65536 true [] "ascend" 65536 false new_real [] in
  ∃ ptr, UAlloc HugeMapping 65536 ptr ∈ r.2 ∧
    UFree (FreeProtocol "ascend") ptr ∈ (sample_destroy false r.1.2 r.2).2.
Proof.
  cbv zeta. exists 5368709120. split; apply list_elem_of_In; vm_compute; tauto.
Qed.
