(* ===== verification/StorePy.v ===== *)
(** * The Python wrapper of the clients ([mooncake-integration/store/store_py.cpp])

    Tensors are stored as their metadata followed by their payload, whole or split into
    one object per rank.  The wrapper checks its arguments, takes the tensors apart with
    calls into Python, writes and reads through the client it holds, and turns buffers
    into tensors again.  Python, the clients, and the helpers of the headers that are not
    part of the sources (metadata, shards, [batch_write_tensor_impl], manifests) are
    external. *)

From S2P Require Import Prelude CxxString StoreTypes.
From stdpp Require Import base strings list sets gmap.
From Stdlib Require Import ZArith Lia.

#[local] Open Scope Z_scope.
#[local] Set Default Proof Using "Type".

(** ** Data *)

Record TensorMetadata := MkMetadata {
  dtype : Z; ndim : Z; dims : list Z; data_offset : Z; data_bytes : Z }.

(** A zeroed structure. *)
Definition no_metadata : TensorMetadata := MkMetadata 0 0 [] 0 0.

Record PyTensorInfo := MkInfo { data_ptr : Z; tensor_size : Z; metadata : TensorMetadata }.

Definition no_info : PyTensorInfo := MkInfo 0 0 no_metadata.

(** What Python says of an object: the name of its class, and, unless it raises, its
    contiguous memory, element count and size, its dtype ([None]: unknown) and shape. *)
Record PyObject := MkPyObject {
  class_name : string;
  raises : bool;
  py_data_ptr : Z; py_numel : Z; py_element_size : Z;
  py_dtype : option Z; py_shape : list Z }.

Definition is_none (t : PyObject) : bool := String.eqb (class_name t) "NoneType".

(** A tensor made from a buffer. *)
Record Tensor := MkTensor { t_dtype : Z; t_shape : list Z; t_payload : list Z }.

Record PyConfig := MkPyConfig {
  base_config : ReplicateConfig;
  preferred_segments : list string;
  group_ids : option (list string) }.

Definition with_group_ids (g : option (list string)) (c : PyConfig) : PyConfig :=
  MkPyConfig (base_config c) (preferred_segments c) g.

(** [store_], [use_dummy_client_] and whether [store_->client_] is set. *)
Record Wrapper := MkWrapper { store_ : bool; use_dummy_client_ : bool; store_client : bool }.

(** ** Calls *)

Inductive py_event :=
| YPutParts (key : string) (parts : list (list Z)) (c : PyConfig) (rc : Z)
| YUpsertParts (key : string) (parts : list (list Z)) (c : PyConfig) (rc : Z)
| YPutFrom (key : string) (ptr size : Z) (c : PyConfig) (rc : Z)
| YUpsertFrom (key : string) (ptr size : Z) (c : PyConfig) (rc : Z)
| YBatchPutFrom (keys : list string) (ptrs sizes : list Z) (c : PyConfig) (rcs : list Z)
| YBatchUpsertFrom (keys : list string) (ptrs sizes : list Z) (c : PyConfig) (rcs : list Z)
| YBatchWrite (keys : list string) (infos : list PyTensorInfo) (c : PyConfig) (rcs : list Z)
| YGetBuffer (key : string) (r : option (list Z))
| YBatchGetBuffer (keys : list string) (r : list (option (list Z)))
| YGetInto (key : string) (ptr size rc : Z)
| YBatchGetInto (keys : list string) (ptrs sizes rcs : list Z)
| YAllocate (size : Z) (ptr : option Z)
| YCopy (dst : Z) (bytes : list Z)
| YFreeBuffer (ptr : Z)
| YNew (size ptr : Z)                                (* new char[size] *)
| YDelete (ptr : Z)                                  (* delete[] *)
| YArray (owned : bool) (ptr : Z) (ok : bool)        (* array_creators; false: raised *)
| YDropArray (owned : bool) (ptr : Z)                (* the array is collected *)
| YPython (what : string) (ok : bool)                (* a call that may raise *)
| YLoad (file : string) (r : option (list (string * PyObject))).

Abbreviation yio A := (comp py_event A).

Class PyServices := {
  y_put_parts : list py_event → string → list (list Z) → PyConfig → Z;
  y_upsert_parts : list py_event → string → list (list Z) → PyConfig → Z;
  y_put_from : list py_event → string → Z → Z → PyConfig → Z;
  y_upsert_from : list py_event → string → Z → Z → PyConfig → Z;
  y_batch_put_from : list py_event → list string → list Z → list Z → PyConfig → list Z;
  y_batch_upsert_from : list py_event → list string → list Z → list Z → PyConfig → list Z;
  y_batch_write : list py_event → list string → list PyTensorInfo → PyConfig → list Z;
  y_get_buffer : list py_event → string → option (list Z);
  y_batch_get_buffer : list py_event → list string → list (option (list Z));
  y_get_into : list py_event → string → Z → Z → Z;
  y_batch_get_into : list py_event → list string → list Z → list Z → list Z;
  y_allocate : list py_event → Z → option Z;
  y_new : list py_event → Z → Z;
  y_array : list py_event → bool;
  y_python : list py_event → string → bool;
  y_load : list py_event → string → option (list (string * PyObject)) }.

(** [base_key + "_tp_" + std::to_string(rank)] *)
Definition get_tp_key_name (base_key : string) (rank : Z) : string :=
  (base_key ++ "_tp_" ++ to_string rank)%string.

Definition ranks (tp_size : Z) : list Z := seqZ 0 tp_size.

Section Wrapper.
Context `{!PyServices}.
(** Constants and helpers of headers: [static_cast<int>] of error codes, the size of
    [TensorMetadata] and its bytes, the largest number of dimensions and of dtypes. *)
Context (to_py_ret : ErrorCode → Z) (sizeof_metadata kMaxTensorDims NR_DTYPES array_creators : Z).
Context (ValidateTensorMetadata : TensorMetadata → Z → bool).
Context (ParseTensorMetadata : list Z → option (Z * Z)).   (* data_offset, data_bytes *)
Context (encode : TensorMetadata → list Z) (decode : list Z → TensorMetadata).
Context (build_full_tensor_metadata : PyObject → Z → Z → option TensorMetadata).
(** Outer [None]: raises; inner: no shards. *)
Context (build_tp_shard_infos : PyObject → Z → Z → option (option (list PyTensorInfo))).
(** The bytes at an address. *)
Context (memory : Z → Z → list Z).
Context (no_config : PyConfig).                            (* ReplicateConfig{} *)

Definition invalid : Z := to_py_ret INVALID_PARAMS.

Definition is_client_initialized (w : Wrapper) : bool :=
  store_ w && (use_dummy_client_ w || store_client w).

Definition tensors_supported (w : Wrapper) : bool :=
  is_client_initialized w && negb (use_dummy_client_ w).

(** ** Tensors and their metadata *)

Definition valid (info : PyTensorInfo) : bool :=
  if (data_ptr info =? 0) && negb (tensor_size info =? 0) then false
  else
    let m := metadata info in
    let validated := MkMetadata (dtype m) (ndim m) (dims m) (data_offset m) (tensor_size info) in
    if NR_DTYPES <=? dtype validated then false
    else if (ndim validated <? 0) || (kMaxTensorDims <? ndim validated) then false
    else if negb (forallb (λ d, 0 <=? d) (take (Z.to_nat (ndim validated)) (dims validated)))
    then false
    else ValidateTensorMetadata validated (u64_add (data_offset validated) (tensor_size info)).

Definition extract_tensor_info (t : PyObject) : PyTensorInfo :=
  if negb (contains (class_name t) "Tensor") then no_info
  else if raises t then no_info
  else
    let size := u64 (py_numel t * py_element_size t) in
    match py_dtype t with
    | None => no_info
    | Some d =>
        if kMaxTensorDims <? Z.of_nat (length (py_shape t)) then no_info
        else match build_full_tensor_metadata t d size with
             | Some m => MkInfo (py_data_ptr t) size m
             | None => no_info
             end
    end.

Definition tensor_shape_tuple (m : TensorMetadata) : list Z := take (Z.to_nat (ndim m)) (dims m).

Definition append_tensor_payload_span (values : list (list Z)) (ptr size : Z) : list (list Z) :=
  if size =? 0 then values else values ++ [memory ptr size].

(** ** Buffers to tensors *)

Inductive buffer_source :=
| FromHandle (bytes : list Z)                        (* BufferHandle *)
| FromUser (ptr length : Z)                          (* usr_buffer, data_length *)
| FromNothing.

Definition delete_export (owned : bool) (ptr : Z) : yio unit :=
  if owned then call (λ _, tt) (λ _, YDelete ptr) else ret tt.

(** A call into Python inside the try block. *)
Definition python (what : string) : yio bool := call (λ h, y_python h what) (YPython what).

(** The dtypes that numpy does not have: BFLOAT16, FLOAT16 and the FLOAT8 ones. *)
Context (needs_view : Z → bool).

(** The steps after the array was made: true unless one raises. *)
Definition convert_array (d n : Z) : yio bool :=
  let! ok := (if 0 <? n then python "reshape" else ret true) in
  if negb ok then ret false
  else
    let! ok := python "from_numpy" in
    if negb ok then ret false
    else if needs_view d then python "view" else ret true.

(** The try block, for memory at [ptr] that holds [bytes]. *)
Definition make_tensor (owned : bool) (ptr : Z) (bytes : list Z) (m : TensorMetadata)
    (offset size : Z) : yio (option Tensor) :=
  let payload := take (Z.to_nat size) (drop (Z.to_nat offset) bytes) in
  if size =? 0 then
    (* false: the dtype is none, or the call raises *)
    let! dtype_known := python "tensor_dtype_to_torch_dtype" in
    if negb dtype_known then delete_export owned ptr ;;; ret None
    else
      let! ok := python "empty" in
      delete_export owned ptr ;;;
      ret (if ok then Some (MkTensor (dtype m) (tensor_shape_tuple m) []) else None)
  else
    let! ok := call y_array (YArray owned ptr) in
    if negb ok then delete_export owned ptr ;;; ret None
    else
      let! ok := convert_array (dtype m) (ndim m) in
      if ok then ret (Some (MkTensor (dtype m) (tensor_shape_tuple m) payload))
      else
        (* unwinding drops the array; the handler deletes the memory *)
        call (λ _, tt) (λ _, YDropArray owned ptr) ;;;
        delete_export owned ptr ;;;
        ret None.

Definition parse_and_make (owned : bool) (ptr : Z) (bytes : list Z) : yio (option Tensor) :=
  let m := decode (take (Z.to_nat sizeof_metadata) bytes) in
  let fail := delete_export owned ptr ;;; ret None in
  match ParseTensorMetadata bytes with
  | None => fail
  | Some (offset, size) =>
      if (ndim m <? 0) || (kMaxTensorDims <? ndim m) then fail
      else if dtype m =? -1 then fail
      else if (dtype m <? 0) || (array_creators <=? dtype m) then fail
      else make_tensor owned ptr bytes m offset size
  end.

Definition buffer_to_tensor (src : buffer_source) : yio (option Tensor) :=
  match src with
  | FromNothing => ret None
  | FromHandle bytes =>
      if Z.of_nat (length bytes) <? sizeof_metadata then ret None
      else
        let! ptr := call (λ h, y_new h (Z.of_nat (length bytes))) (YNew (Z.of_nat (length bytes))) in
        parse_and_make true ptr bytes
  | FromUser ptr data_length =>
      if data_length <? 0 then ret None
      else if data_length <? sizeof_metadata then ret None
      else parse_and_make false ptr (memory ptr data_length)
  end.

Definition handle_source (r : option (list Z)) : buffer_source :=
  match r with Some bytes => FromHandle bytes | None => FromNothing end.

Definition user_source (ptr length : Z) : buffer_source :=
  if ptr =? 0 then FromNothing else FromUser ptr length.

(** ** Reading *)

(** A failure is an empty string. *)
Definition get (w : Wrapper) (key : string) : yio (list Z) :=
  if negb (is_client_initialized w) then ret []
  else
    let! handle := call (λ h, y_get_buffer h key) (YGetBuffer key) in
    ret (default [] handle).

Definition get_batch (w : Wrapper) (keys : list string) : yio (list (list Z)) :=
  if negb (is_client_initialized w) then ret [[]]
  else
    let! batch_data := call (λ h, y_batch_get_buffer h keys) (YBatchGetBuffer keys) in
    ret (if bool_decide (batch_data = []) then [[]] else default [] <$> batch_data).

Definition get_tensor (w : Wrapper) (key : string) : yio (option Tensor) :=
  if negb (is_client_initialized w) then ret None
  else
    let! handle := call (λ h, y_get_buffer h key) (YGetBuffer key) in
    buffer_to_tensor (handle_source handle).

Definition batch_get_tensor (w : Wrapper) (keys : list string) : yio (list (option Tensor)) :=
  if negb (is_client_initialized w) then ret (const None <$> keys)
  else
    let! handles := call (λ h, y_batch_get_buffer h keys) (YBatchGetBuffer keys) in
    mmap (λ handle, buffer_to_tensor (handle_source handle)) handles.

Definition get_tensor_with_tp (w : Wrapper) (key : string) (tp_rank tp_size : Z)
  : yio (option Tensor) :=
  if tp_size <=? 1 then get_tensor w key else get_tensor w (get_tp_key_name key tp_rank).

Definition batch_get_tensor_with_tp (w : Wrapper) (base_keys : list string) (tp_rank tp_size : Z)
  : yio (list (option Tensor)) :=
  if tp_size <=? 1 then batch_get_tensor w base_keys
  else batch_get_tensor w ((λ key, get_tp_key_name key tp_rank) <$> base_keys).

Definition get_tensor_into (w : Wrapper) (key : string) (buffer_ptr size : Z)
  : yio (option Tensor) :=
  if negb (tensors_supported w) then ret None
  else
    let! total_length := call (λ h, y_get_into h key buffer_ptr size) (YGetInto key buffer_ptr size) in
    buffer_to_tensor (user_source buffer_ptr total_length).

Definition get_tensor_with_tp_into (w : Wrapper) (key : string) (buffer_ptr size tp_rank tp_size : Z)
  : yio (option Tensor) :=
  if negb (tensors_supported w) then ret None
  else if tp_size <=? 1 then get_tensor_into w key buffer_ptr size
  else get_tensor_into w (get_tp_key_name key tp_rank) buffer_ptr size.

(** An element of the list is a tensor, None, or an error number. *)
Inductive into_result := IntoTensor (t : option Tensor) | IntoError (rc : Z).

Definition same_lengths {A} (keys : list A) (ptrs sizes : list Z) : bool :=
  (length keys =? length ptrs)%nat && (length keys =? length sizes)%nat.

Definition batch_get_tensor_into (w : Wrapper) (keys : list string) (buffer_ptrs sizes : list Z)
  : yio (list into_result) :=
  if negb (tensors_supported w) then ret (const (IntoError invalid) <$> keys)
  else
    let! total_lengths := call (λ h, y_batch_get_into h keys buffer_ptrs sizes)
                            (YBatchGetInto keys buffer_ptrs sizes) in
    if negb (same_lengths keys buffer_ptrs sizes) then ret (const (IntoError invalid) <$> keys)
    else
      mmap (λ x : Z * Z, let! t := buffer_to_tensor (user_source x.1 x.2) in ret (IntoTensor t))
        (zip buffer_ptrs total_lengths).

Definition batch_get_tensor_with_tp_into (w : Wrapper) (base_keys : list string)
    (buffer_ptrs sizes : list Z) (tp_rank tp_size : Z) : yio (list into_result) :=
  if negb (tensors_supported w) then ret (const (IntoTensor None) <$> base_keys)
  else if tp_size <=? 1 then batch_get_tensor_into w base_keys buffer_ptrs sizes
  else batch_get_tensor_into w ((λ key, get_tp_key_name key tp_rank) <$> base_keys) buffer_ptrs sizes.

(** ** Writing one tensor *)

Definition put_parts (key : string) (values : list (list Z)) (c : PyConfig) : yio Z :=
  call (λ h, y_put_parts h key values c) (YPutParts key values c).
Definition upsert_parts (key : string) (values : list (list Z)) (c : PyConfig) : yio Z :=
  call (λ h, y_upsert_parts h key values c) (YUpsertParts key values c).

(** The first part is [n] bytes of the metadata. *)
Definition tensor_parts (info : PyTensorInfo) (n : Z) : list (list Z) :=
  append_tensor_payload_span [take (Z.to_nat n) (encode (metadata info))] (data_ptr info)
    (tensor_size info).

Definition put_tensor_impl (key : string) (t : PyObject) (c : PyConfig) : yio Z :=
  let info := extract_tensor_info t in
  if negb (valid info) then ret invalid
  else put_parts key (tensor_parts info sizeof_metadata) c.

Definition put_tensor (w : Wrapper) (key : string) (t : PyObject) : yio Z :=
  if negb (tensors_supported w) then ret invalid else put_tensor_impl key t no_config.

Definition put_tensor_info_impl (key : string) (info : PyTensorInfo) (c : PyConfig) : yio Z :=
  if negb (valid info) then ret invalid
  else put_parts key (tensor_parts info (data_offset (metadata info))) c.

Definition upsert_tensor_info_impl (key : string) (info : PyTensorInfo) (c : PyConfig) : yio Z :=
  if negb (valid info) then ret invalid
  else upsert_parts key (tensor_parts info (data_offset (metadata info))) c.

Definition upsert_tensor_impl (key : string) (t : PyObject) (c : PyConfig) : yio Z :=
  let info := extract_tensor_info t in
  if negb (valid info) then ret invalid
  else upsert_parts key (tensor_parts info sizeof_metadata) c.

Definition upsert_tensor (w : Wrapper) (key : string) (t : PyObject) : yio Z :=
  if negb (tensors_supported w) then ret invalid else upsert_tensor_impl key t no_config.

(** ** Configurations of batches *)

(** [at]: [None] throws [std::out_of_range]. *)
Definition MakeIndexedConfig (c : PyConfig) (original_indices : list nat) : option PyConfig :=
  match group_ids c with
  | None => Some c
  | Some ids => g ← mapM (λ i, ids !! i) original_indices; Some (with_group_ids (Some g) c)
  end.

Definition MakeRepeatedIndexedConfig (c : PyConfig) (original_indices : list nat) (repeat_count : Z)
  : option PyConfig :=
  match group_ids c with
  | None => Some c
  | Some ids =>
      g ← mapM (λ i, ids !! i) original_indices;
      Some (with_group_ids (Some (g ≫= λ id, replicate (Z.to_nat repeat_count) id)) c)
  end.

(** The error results, if the group ids do not fit. *)
Definition ValidateGroupIdsForBatchConfig (c : PyConfig) (key_count : nat) : list Z :=
  match group_ids c with
  | Some ids => if negb (length ids =? key_count)%nat then replicate key_count invalid else []
  | None => []
  end.

Definition validate_replicate_config (c : PyConfig) : Z :=
  if negb (bool_decide (preferred_segments c = [])) &&
     negb (Z.of_nat (length (preferred_segments c)) =? replica_num (base_config c))
  then invalid else 0.

(** ** Writing several tensors *)

Definition batch_put_tensor_infos_impl (keys : list string) (infos : list PyTensorInfo)
    (c : PyConfig) : yio (list Z) :=
  call (λ h, y_batch_write h keys infos c) (YBatchWrite keys infos c).

Definition batch_put_tensor_impl (keys : list string) (tensors : list PyObject) (c : PyConfig)
  : yio (list Z) :=
  batch_put_tensor_infos_impl keys (extract_tensor_info <$> tensors) c.

Definition batch_put_tensor (w : Wrapper) (keys : list string) (tensors : list PyObject)
  : yio (list Z) :=
  if negb (tensors_supported w) then ret (const invalid <$> keys)
  else if negb (length keys =? length tensors)%nat || bool_decide (keys = [])
  then ret (const invalid <$> keys)
  else batch_put_tensor_impl keys tensors no_config.

(** ** Shards, one object per rank *)

(** The first result that is not zero. *)
Fixpoint first_nonzero (results : list Z) : Z :=
  match results with
  | [] => 0
  | r :: rest => if negb (r =? 0) then r else first_nonzero rest
  end.

Definition put_tensor_with_tp_impl (key : string) (t : PyObject) (c : PyConfig)
    (tp_size split_dim : Z) : yio Z :=
  let tp_keys := get_tp_key_name key <$> ranks tp_size in
  match build_tp_shard_infos t tp_size split_dim with
  | None | Some None => ret invalid
  | Some (Some infos) =>
      let! results := batch_put_tensor_infos_impl tp_keys infos c in
      ret (first_nonzero results)
  end.

Definition put_tensor_with_tp (w : Wrapper) (key : string) (t : PyObject) (tp_size split_dim : Z)
  : yio Z :=
  if negb (tensors_supported w) then ret invalid
  else if tp_size <=? 1 then put_tensor w key t
  else put_tensor_with_tp_impl key t no_config tp_size split_dim.

(** A tensor of the batch: [None] raises; an index with its shards, or nothing.  (The
    test of the shape tuple never fails: it tests the handle, not the elements.) *)
Definition plan_shards (tp_size split_dim : Z) (i : nat) (key : string) (t : PyObject)
  : option (option (nat * list (string * PyTensorInfo))) :=
  if is_none t then Some None
  else if raises t then None
  else
    match build_tp_shard_infos t tp_size split_dim with
    | None => None
    | Some None => Some None
    | Some (Some infos) => Some (Some (i, zip (get_tp_key_name key <$> ranks tp_size) infos))
    end.

(** The loop over the batch; [None]: it raised. *)
Fixpoint plan_batch (tp_size split_dim : Z) (i : nat) (batch : list (string * PyObject))
  : option (list (nat * list (string * PyTensorInfo))) :=
  match batch with
  | [] => Some []
  | (key, t) :: batch =>
      o ← plan_shards tp_size split_dim i key t;
      rest ← plan_batch tp_size split_dim (S i) batch;
      Some (match o with Some p => p :: rest | None => rest end)
  end.

(** The results of the shards, in groups of [tp_size]. *)
Fixpoint collect_shards (tp_size : nat) (indices : list nat) (chunk_results final : list Z)
  : list Z :=
  match indices with
  | [] => final
  | i :: indices =>
      collect_shards tp_size indices (drop tp_size chunk_results)
        (<[i := first_nonzero (take tp_size chunk_results)]> final)
  end.

Definition batch_put_tensor_with_tp_impl (base_keys : list string) (tensors : list PyObject)
    (c : PyConfig) (tp_size split_dim : Z) : yio (list Z) :=
  let final_results := const invalid <$> base_keys in
  let group_ids_error := ValidateGroupIdsForBatchConfig c (length base_keys) in
  if negb (bool_decide (group_ids_error = [])) then ret group_ids_error
  else
    match plan_batch tp_size split_dim 0 (zip base_keys tensors) with
    | None => ret final_results
    | Some plan =>
        let shards := plan ≫= snd in
        if bool_decide (shards = []) then ret final_results
        else
          match MakeRepeatedIndexedConfig c plan.*1 tp_size with
          | None => ret final_results
          | Some chunk_config =>
              let! chunk_results := batch_put_tensor_infos_impl shards.*1 shards.*2 chunk_config in
              ret (collect_shards (Z.to_nat tp_size) plan.*1 chunk_results final_results)
          end
    end.

Definition batch_put_tensor_with_tp (w : Wrapper) (base_keys : list string)
    (tensors : list PyObject) (tp_size split_dim : Z) : yio (list Z) :=
  if tp_size <=? 1 then batch_put_tensor w base_keys tensors
  else if negb (tensors_supported w) then ret (const invalid <$> base_keys)
  else if negb (length base_keys =? length tensors)%nat || bool_decide (base_keys = [])
  then ret (const invalid <$> base_keys)
  else batch_put_tensor_with_tp_impl base_keys tensors no_config tp_size split_dim.

(** Shards one after the other, until one fails. *)
Fixpoint upsert_shards (key : string) (c : PyConfig) (shards : list (Z * PyTensorInfo)) : yio Z :=
  match shards with
  | [] => ret 0
  | (rank, info) :: shards =>
      let! rc := upsert_tensor_info_impl (get_tp_key_name key rank) info c in
      if negb (rc =? 0) then ret rc else upsert_shards key c shards
  end.

Definition upsert_tensor_with_tp_impl (key : string) (t : PyObject) (c : PyConfig)
    (tp_size split_dim : Z) : yio Z :=
  match build_tp_shard_infos t tp_size split_dim with
  | None | Some None => ret invalid
  | Some (Some infos) => upsert_shards key c (zip (ranks tp_size) infos)
  end.

(** ** Writing from buffers with the layout metadata, payload *)

(** The checks of one buffer. *)
Definition buffer_ok (ptr size : Z) : bool :=
  negb (ptr =? 0) && negb (size <? sizeof_metadata) &&
  match ParseTensorMetadata (memory ptr size) with Some _ => true | None => false end.

Definition put_tensor_from (w : Wrapper) (key : string) (buffer_ptr size : Z) : yio Z :=
  if negb (tensors_supported w) || negb (buffer_ok buffer_ptr size) then ret invalid
  else call (λ h, y_put_from h key buffer_ptr size no_config) (YPutFrom key buffer_ptr size no_config).

Definition upsert_tensor_from (w : Wrapper) (key : string) (buffer_ptr size : Z) : yio Z :=
  if negb (tensors_supported w) || negb (buffer_ok buffer_ptr size) then ret invalid
  else call (λ h, y_upsert_from h key buffer_ptr size no_config)
         (YUpsertFrom key buffer_ptr size no_config).

(** The checks that the batched variants share; [None]: go on. *)
Definition check_tensor_buffers (w : Wrapper) (keys : list string) (ptrs sizes : list Z)
  : option (list Z) :=
  if negb (tensors_supported w) then Some (const invalid <$> keys)
  else if bool_decide (keys = []) then Some []
  else if negb (same_lengths keys ptrs sizes) then Some (const invalid <$> keys)
  else if negb (forallb (λ x, buffer_ok x.1 x.2) (zip ptrs sizes)) then Some (const invalid <$> keys)
  else None.

Definition batch_put_tensor_from (w : Wrapper) (keys : list string) (ptrs sizes : list Z)
  : yio (list Z) :=
  match check_tensor_buffers w keys ptrs sizes with
  | Some errors => ret errors
  | None => call (λ h, y_batch_put_from h keys ptrs sizes no_config)
              (YBatchPutFrom keys ptrs sizes no_config)
  end.

Definition batch_upsert_tensor_from (w : Wrapper) (keys : list string) (ptrs sizes : list Z)
  : yio (list Z) :=
  match check_tensor_buffers w keys ptrs sizes with
  | Some errors => ret errors
  | None => call (λ h, y_batch_upsert_from h keys ptrs sizes no_config)
              (YBatchUpsertFrom keys ptrs sizes no_config)
  end.

(** ** Shards of a tensor in a buffer *)

(** What Python says of a tensor made from a buffer. *)
Context (as_object : Tensor → PyObject).

Definition put_tensor_with_tp_from (w : Wrapper) (key : string)
    (buffer_ptr size tp_size split_dim : Z) : yio Z :=
  if negb (tensors_supported w) then ret invalid
  else if buffer_ptr =? 0 then ret invalid
  else if size <? sizeof_metadata then ret invalid
  else if tp_size <=? 1 then put_tensor_from w key buffer_ptr size
  else
    let! t := buffer_to_tensor (user_source buffer_ptr size) in
    match t with
    | None => ret invalid
    | Some t => put_tensor_with_tp_impl key (as_object t) no_config tp_size split_dim
    end.

(** The buffers that hold a tensor, with their indices. *)
Fixpoint decode_buffers (i : nat) (batch : list (string * (Z * Z)))
  : yio (list (nat * (string * PyObject))) :=
  match batch with
  | [] => ret []
  | (key, (ptr, size)) :: batch =>
      let! t := (if (ptr =? 0) || (size <? sizeof_metadata) then ret None
                 else buffer_to_tensor (user_source ptr size)) in
      let! rest := decode_buffers (S i) batch in
      ret (match t with Some t => (i, (key, as_object t)) :: rest | None => rest end)
  end.

Definition put_results (indices : list nat) (op_results results : list Z) : list Z :=
  fold_left (λ acc x, <[x.1 := x.2]> acc) (zip indices op_results) results.

Definition batch_put_tensor_with_tp_from (w : Wrapper) (base_keys : list string)
    (ptrs sizes : list Z) (tp_size split_dim : Z) : yio (list Z) :=
  if negb (tensors_supported w) then ret (const invalid <$> base_keys)
  else if tp_size <=? 1 then batch_put_tensor_from w base_keys ptrs sizes
  else if negb (same_lengths base_keys ptrs sizes) || bool_decide (base_keys = [])
  then ret (const invalid <$> base_keys)
  else
    let! decoded := decode_buffers 0 (zip base_keys (zip ptrs sizes)) in
    let final_results := imap (λ i _, if bool_decide (i ∈ decoded.*1) then 0 else invalid) base_keys in
    if bool_decide (decoded = []) then ret final_results
    else
      let! op_results := batch_put_tensor_with_tp_impl (decoded.*2).*1 (decoded.*2).*2 no_config
                           tp_size split_dim in
      ret (put_results decoded.*1 op_results final_results).

(** ** Upserting several tensors through temporary buffers *)

(** A buffer for a valid tensor: its index, key, address and size, and the results. *)
Record staged := MkStaged { st_index : nat; st_key : string; st_ptr : Z; st_size : Z }.

Definition stage (i : nat) (key : string) (info : PyTensorInfo) (results : list Z)
  : yio (option staged * list Z) :=
  if negb (valid info) then ret (None, <[i := invalid]> results)
  else
    let total_size := u64_add sizeof_metadata (tensor_size info) in
    let! buffer := call (λ h, y_allocate h total_size) (YAllocate total_size) in
    match buffer with
    | None => ret (None, <[i := invalid]> results)
    | Some dst =>
        call (λ _, tt) (λ _, YCopy dst (take (Z.to_nat sizeof_metadata) (encode (metadata info)))) ;;;
        (if 0 <? tensor_size info
         then call (λ _, tt) (λ _, YCopy (dst + sizeof_metadata)
                                     (memory (data_ptr info) (tensor_size info)))
         else ret tt) ;;;
        ret (Some (MkStaged i key dst total_size), results)
    end.

Fixpoint stage_all (i : nat) (batch : list (string * PyTensorInfo)) (results : list Z)
  : yio (list staged * list Z) :=
  match batch with
  | [] => ret ([], results)
  | (key, info) :: batch =>
      let! r := stage i key info results in
      let! rest := stage_all (S i) batch r.2 in
      ret (match r.1 with Some b => b :: rest.1 | None => rest.1 end, rest.2)
  end.

(** [None]: an exception. *)
Definition batch_upsert_tensor_impl (keys : list string) (tensors : list PyObject) (c : PyConfig)
  : yio (option (list Z)) :=
  let group_ids_error := ValidateGroupIdsForBatchConfig c (length keys) in
  if negb (bool_decide (group_ids_error = [])) then ret (Some group_ids_error)
  else
    let infos := extract_tensor_info <$> tensors in
    let! s := stage_all 0 (zip keys infos) (const 0 <$> keys) in
    let '(buffers, results) := s in
    let! out :=
      (if bool_decide (buffers = []) then ret (Some results)
       else
         match MakeIndexedConfig c (st_index <$> buffers) with
         | None => ret None
         | Some write_config =>
             let! op_results := call (λ h, y_batch_upsert_from h (st_key <$> buffers)
                                             (st_ptr <$> buffers) (st_size <$> buffers) write_config)
                                  (YBatchUpsertFrom (st_key <$> buffers) (st_ptr <$> buffers)
                                     (st_size <$> buffers) write_config) in
             ret (Some (put_results (st_index <$> buffers) op_results results))
         end) in
    (* temp_allocations *)
    mmap (λ b, call (λ _, tt) (λ _, YFreeBuffer (st_ptr b))) buffers ;;;
    ret out.

Definition batch_upsert_tensor (w : Wrapper) (keys : list string) (tensors : list PyObject)
  : yio (option (list Z)) :=
  if negb (tensors_supported w) then ret (Some (const invalid <$> keys))
  else if negb (length keys =? length tensors)%nat || bool_decide (keys = [])
  then ret (Some (const invalid <$> keys))
  else batch_upsert_tensor_impl keys tensors no_config.

(** ** Publishing with a configuration *)

Definition pub_tensor (w : Wrapper) (key : string) (t : PyObject) (c : PyConfig) : yio Z :=
  if negb (tensors_supported w) then ret invalid
  else if negb (validate_replicate_config c =? 0) then ret (validate_replicate_config c)
  else put_tensor_impl key t c.

Definition upsert_pub_tensor (w : Wrapper) (key : string) (t : PyObject) (c : PyConfig) : yio Z :=
  if negb (tensors_supported w) then ret invalid
  else if negb (validate_replicate_config c =? 0) then ret (validate_replicate_config c)
  else upsert_tensor_impl key t c.

Definition pub_tensor_with_tp (w : Wrapper) (key : string) (t : PyObject) (c : PyConfig)
    (tp_size split_dim : Z) : yio Z :=
  if negb (tensors_supported w) then ret invalid
  else if negb (validate_replicate_config c =? 0) then ret (validate_replicate_config c)
  else if tp_size <=? 1 then pub_tensor w key t c
  else put_tensor_with_tp_impl key t c tp_size split_dim.

(** The checks of the batched variants; [None]: go on. *)
Definition check_batch (w : Wrapper) (keys : list string) (tensors : list PyObject) (c : PyConfig)
  : option (list Z) :=
  if negb (tensors_supported w) then Some (const invalid <$> keys)
  else if negb (length keys =? length tensors)%nat || bool_decide (keys = [])
  then Some (const invalid <$> keys)
  else if negb (validate_replicate_config c =? 0) then Some (const invalid <$> keys)
  else None.

Definition batch_pub_tensor (w : Wrapper) (keys : list string) (tensors : list PyObject)
    (c : PyConfig) : yio (list Z) :=
  match check_batch w keys tensors c with
  | Some errors => ret errors
  | None => batch_put_tensor_impl keys tensors c
  end.

Definition batch_upsert_pub_tensor (w : Wrapper) (keys : list string) (tensors : list PyObject)
    (c : PyConfig) : yio (option (list Z)) :=
  match check_batch w keys tensors c with
  | Some errors => ret (Some errors)
  | None => batch_upsert_tensor_impl keys tensors c
  end.

Definition batch_pub_tensor_with_tp (w : Wrapper) (keys : list string) (tensors : list PyObject)
    (c : PyConfig) (tp_size split_dim : Z) : yio (list Z) :=
  if tp_size <=? 1 then batch_pub_tensor w keys tensors c
  else
    match check_batch w keys tensors c with
    | Some errors => ret errors
    | None => batch_put_tensor_with_tp_impl keys tensors c tp_size split_dim
    end.

(** ** Safetensor files *)

Context (FILE_NOT_FOUND : ErrorCode).

Definition save_tensor_to_safetensor (w : Wrapper) (key : string) : yio Z :=
  if negb (tensors_supported w) then ret invalid
  else
    let! tensor := get_tensor w key in
    match tensor with
    | None => ret (to_py_ret FILE_NOT_FOUND)
    | Some _ => let! ok := python "save_file" in ret (if ok then 0 else invalid)
    end.

(** The entry with the key, else the first one. *)
Definition select_entry (key : option string) (loaded : list (string * PyObject))
  : option PyObject :=
  let first := snd <$> head loaded in
  match key with
  | None => first
  | Some k => match List.find (λ e, String.eqb e.1 k) loaded with
              | Some e => Some e.2
              | None => first
              end
  end.

Definition load_tensor_from_safetensor (w : Wrapper) (key : option string) (file_name : string)
  : yio (option PyObject) :=
  if negb (tensors_supported w) then ret None
  else
    let! loaded := call (λ h, y_load h file_name) (YLoad file_name) in
    match loaded ≫= select_entry key with
    | None => ret None
    | Some tensor =>
        let! rc := put_tensor w (default file_name key) tensor in
        ret (if negb (rc =? 0) then None else Some tensor)
    end.

(** ** Writable regions *)

(** [region]: what the real client knows about the pointer: offset and size. *)
Definition resolve_wrapper_region (has_real_client : bool) (w : Wrapper) (region : option (Z * Z)) (size : Z)
  : option (Z * Z) :=
  if use_dummy_client_ w || negb has_real_client then None
  else
    match region with
    | None => None
    | Some (offset, region_size) =>
        if region_size <? u64_add offset size then None else Some (offset, region_size)
    end.
End Wrapper.
