(* ===== verification/StorePySpec.v ===== *)
(** * What the Python wrapper guarantees

    Names of shards never collide, a tensor that is stored and read again is the same
    tensor, the results of a batch of sharded tensors belong to their keys, and temporary
    buffers are given back.  Runs show where memory is freed twice and where a size check
    wraps around. *)

From S2P Require Import Prelude CxxString StoreTypes Accounting StorePy.
From stdpp Require Import base strings list sets gmap.
From Stdlib Require Import ZArith Lia Ascii.

#[local] Open Scope Z_scope.
#[local] Set Default Proof Using "Type".

(** ** Names of shards *)

(** Before and after the last underscore. *)
Fixpoint split_last_bar (s : string) : option (string * string) :=
  match s with
  | EmptyString => None
  | String c s' =>
      match split_last_bar s' with
      | Some (l, r) => Some (String c l, r)
      | None => if Ascii.eqb c "_" then Some (EmptyString, s') else None
      end
  end.

Lemma split_last_bar_none s : str_forall number_char s = true → split_last_bar s = None.
Proof.
  induction s as [|c s IH]; [done|]. cbn. intros [Hc Hs]%andb_true_iff. rewrite (IH Hs).
  by destruct (Ascii.eqb_spec c "_") as [->|].
Qed.

Lemma app_cons c a s : (String c a ++ s = String c (a ++ s))%string.
Proof. reflexivity. Qed.

Lemma app_empty s : (EmptyString ++ s = s)%string.
Proof. reflexivity. Qed.

Lemma split_last_bar_app a b :
  split_last_bar b = None → split_last_bar (a ++ String "_" b)%string = Some (a, b).
Proof.
  intros Hb. induction a as [|c a IH]; rewrite ?app_empty, ?app_cons; cbn; [by rewrite Hb|].
  by rewrite IH.
Qed.

Lemma string_app_length a b : String.length (a ++ b)%string = (String.length a + String.length b)%nat.
Proof. induction a as [|c a IH]; [done|]. rewrite app_cons. cbn. by rewrite IH. Qed.

Lemma string_app_inj a b s : (a ++ s = b ++ s)%string → a = b.
Proof.
  revert b. induction a as [|c a IH]; intros [|d b]; rewrite ?app_empty, ?app_cons; intros E; [done|..].
  - apply (f_equal String.length) in E. cbn in E. rewrite string_app_length in E. lia.
  - apply (f_equal String.length) in E. cbn in E. rewrite string_app_length in E. lia.
  - injection E as -> E. f_equal. by apply IH.
Qed.

Lemma to_string_inj m n : 0 ≤ m → 0 ≤ n → to_string m = to_string n → m = n.
Proof.
  intros Hm Hn E. apply span_to_string in Hm, Hn. rewrite E, Hn in Hm. by injection Hm.
Qed.

Lemma tp_key_shape b r : get_tp_key_name b r = ((b ++ "_tp") ++ String "_" (to_string r))%string.
Proof.
  unfold get_tp_key_name. induction b as [|c b IH]; [done|].
  change (String c (b ++ "_tp_" ++ to_string r) =
          String c ((b ++ "_tp") ++ String "_" (to_string r)))%string. by rewrite IH.
Qed.

(** The name of a shard determines its key and rank: shards of different keys, and of
    different ranks, are different objects. *)
Theorem tp_key_names_distinct b1 r1 b2 r2 :
  0 ≤ r1 → 0 ≤ r2 → get_tp_key_name b1 r1 = get_tp_key_name b2 r2 → b1 = b2 ∧ r1 = r2.
Proof.
  intros H1 H2 E. rewrite !tp_key_shape in E. apply (f_equal split_last_bar) in E.
  rewrite !split_last_bar_app in E by (apply split_last_bar_none, to_string_number_chars).
  injection E as Eb Er. split; [by apply string_app_inj in Eb|by apply to_string_inj in Er].
Qed.

(** ** Storing a tensor and reading it again *)

Section RoundTrip.
Context `{!PyServices}.
Context (to_py_ret : ErrorCode → Z) (sizeof_metadata kMaxTensorDims NR_DTYPES array_creators : Z).
Context (ValidateTensorMetadata : TensorMetadata → Z → bool).
Context (ParseTensorMetadata : list Z → option (Z * Z)).
Context (encode : TensorMetadata → list Z) (decode : list Z → TensorMetadata).
Context (build_full_tensor_metadata : PyObject → Z → Z → option TensorMetadata).
Context (memory : Z → Z → list Z) (no_config : PyConfig) (needs_view : Z → bool).

(** What the metadata helpers, which are not part of the sources, promise. *)
Record metadata_laws : Prop := {
  law_length m : Z.of_nat (length (encode m)) = sizeof_metadata;
  law_decode t d size m : build_full_tensor_metadata t d size = Some m → decode (encode m) = m;
  law_parse m data :
    ValidateTensorMetadata m (u64_add (data_offset m) (data_bytes m)) = true →
    data_offset m = sizeof_metadata → Z.of_nat (length data) = data_bytes m →
    ParseTensorMetadata (encode m ++ data) = Some (data_offset m, data_bytes m);
  law_zero n : ValidateTensorMetadata no_metadata n = false;
  law_build t d size m : build_full_tensor_metadata t d size = Some m →
    0 ≤ d ∧ dtype m = d ∧ tensor_shape_tuple m = py_shape t ∧ data_offset m = sizeof_metadata ∧
    data_bytes m = size;
  law_memory p n : 0 ≤ n → Z.of_nat (length (memory p n)) = n;
  law_creators : NR_DTYPES ≤ array_creators }.

Context (laws : metadata_laws).

Abbreviation extract := (extract_tensor_info kMaxTensorDims build_full_tensor_metadata).
Abbreviation is_valid := (valid kMaxTensorDims NR_DTYPES ValidateTensorMetadata).
Definition payload_size (t : PyObject) : Z := u64 (py_numel t * py_element_size t).

Lemma no_info_invalid : is_valid no_info = false.
Proof using laws.
  unfold valid, no_info. cbn. destruct (_ <=? 0); [done|]. destruct (kMaxTensorDims <? 0); [done|].
  cbn. apply (law_zero laws).
Qed.

Lemma extract_valid t :
  is_valid (extract t) = true →
  ∃ d m, py_dtype t = Some d ∧ build_full_tensor_metadata t d (payload_size t) = Some m ∧
    extract t = MkInfo (py_data_ptr t) (payload_size t) m.
Proof using laws.
  unfold extract_tensor_info. destruct (negb _); [by rewrite no_info_invalid|].
  destruct (raises t); [by rewrite no_info_invalid|].
  destruct (py_dtype t) as [d|]; [|by rewrite no_info_invalid].
  destruct (_ <? _); [by rewrite no_info_invalid|]. fold (payload_size t).
  destruct (build_full_tensor_metadata t d (payload_size t)) as [m|] eqn:Hb;
    [|by rewrite no_info_invalid]. by eexists _, _.
Qed.

(** What the checks establish for metadata that was built for the tensor. *)
Lemma valid_built t d m :
  build_full_tensor_metadata t d (payload_size t) = Some m →
  is_valid (MkInfo (py_data_ptr t) (payload_size t) m) = true →
  dtype m < NR_DTYPES ∧ 0 ≤ ndim m ≤ kMaxTensorDims ∧
  ValidateTensorMetadata m (u64_add (data_offset m) (data_bytes m)) = true.
Proof using laws.
  intros Hb Hv. destruct (law_build laws _ _ _ _ Hb) as (_ & _ & _ & _ & Hbytes).
  unfold valid in Hv. cbn [data_ptr tensor_size metadata] in Hv. cbv zeta in Hv.
  destruct (_ && _); [done|]. cbn [dtype ndim dims data_offset] in Hv.
  destruct (Z.leb_spec NR_DTYPES (dtype m)); [done|].
  destruct (Z.ltb_spec (ndim m) 0); [done|]. destruct (Z.ltb_spec kMaxTensorDims (ndim m)); [done|].
  cbn [orb] in Hv. destruct (negb _); [done|]. rewrite <- Hbytes in Hv.
  split_and!; [done|lia|lia|]. by destruct m.
Qed.

Abbreviation to_tensor := (buffer_to_tensor sizeof_metadata kMaxTensorDims array_creators
                             ParseTensorMetadata decode memory needs_view).

(** Python raises nothing, and torch has every dtype. *)
Definition python_well : Prop := (∀ h s, y_python h s = true) ∧ (∀ h, y_array h = true).

Lemma convert_well d n h : python_well → (convert_array needs_view d n h).1 = true.
Proof.
  intros [Hp _]. unfold convert_array, python.
  destruct (0 <? n), (needs_view d); cbn; rewrite ?Hp; cbn; rewrite ?Hp; cbn; by rewrite ?Hp.
Qed.

Lemma make_tensor_well owned ptr bytes m offset size h :
  python_well →
  (make_tensor needs_view owned ptr bytes m offset size h).1 =
  Some (MkTensor (dtype m) (tensor_shape_tuple m)
          (if size =? 0 then [] else take (Z.to_nat size) (drop (Z.to_nat offset) bytes))).
Proof.
  intros Hw. destruct (make_tensor _ _ _ _ _ _ _ _) as [r evs] eqn:R. cbn.
  unfold make_tensor in R. destruct (size =? 0).
  - apply bind_inv in R as (known & ? & ? & [-> _]%call_inv & R & _). rewrite (proj1 Hw) in R. cbn [negb] in R.
    apply bind_inv in R as (ok & ? & ? & [-> _]%call_inv & R & _).
    apply bind_inv in R as (? & ? & ? & _ & [-> _]%ret_inv & _). by rewrite (proj1 Hw).
  - apply bind_inv in R as (ok & ? & ? & [-> _]%call_inv & R & _). rewrite (proj2 Hw) in R. cbn in R.
    apply bind_inv in R as (ok & ? & ? & R2 & R & _).
    match type of R2 with convert_array _ _ _ ?h' = _ =>
      pose proof (convert_well (dtype m) (ndim m) h' Hw) as Hok end.
    rewrite R2 in Hok. cbn in Hok. subst ok. by apply ret_inv in R as [-> _].
Qed.

(** The bytes of valid metadata and its payload are read as the tensor. *)
Lemma to_tensor_encoded m data h :
  python_well → decode (encode m) = m → 0 ≤ dtype m < NR_DTYPES → 0 ≤ ndim m ≤ kMaxTensorDims →
  ValidateTensorMetadata m (u64_add (data_offset m) (data_bytes m)) = true →
  data_offset m = sizeof_metadata → Z.of_nat (length data) = data_bytes m →
  (to_tensor (FromHandle (encode m ++ data)) h).1 =
  Some (MkTensor (dtype m) (tensor_shape_tuple m) data).
Proof using laws.
  intros Hw Hdec Hd Hn Hv Ho Hlen. pose proof (law_length laws m) as Hl.
  unfold buffer_to_tensor. destruct (Z.ltb_spec (Z.of_nat (length (encode m ++ data))) sizeof_metadata).
  { rewrite length_app in *. lia. }
  destruct (bind _ _ h) as [r evs] eqn:R. cbn.
  apply bind_inv in R as (ptr & e1 & e2 & _ & R & _).
  unfold parse_and_make in R. rewrite (law_parse laws m data) in R by done.
  rewrite take_app_length' in R by lia. rewrite Hdec in R. cbv zeta in R.
  destruct (Z.ltb_spec (ndim m) 0); [lia|]. destruct (Z.ltb_spec kMaxTensorDims (ndim m)); [lia|].
  destruct (Z.eqb_spec (dtype m) (-1)); [lia|]. destruct (Z.ltb_spec (dtype m) 0); [lia|].
  pose proof (law_creators laws). destruct (Z.leb_spec array_creators (dtype m)); [lia|].
  cbn [orb] in R. apply (f_equal fst) in R. rewrite make_tensor_well in R by done. cbn in R. subst r.
  f_equal. f_equal. rewrite drop_app_length' by lia. destruct (Z.eqb_spec (data_bytes m) 0).
  - destruct data; [done|cbn in *; lia].
  - rewrite take_ge by lia. done.
Qed.

Abbreviation store_tensor := (put_tensor to_py_ret sizeof_metadata kMaxTensorDims NR_DTYPES
  ValidateTensorMetadata encode build_full_tensor_metadata memory no_config).
Abbreviation load_tensor := (get_tensor sizeof_metadata kMaxTensorDims array_creators
  ParseTensorMetadata decode memory needs_view).

Lemma u64_nonneg x : 0 ≤ u64 x.
Proof. unfold u64. apply Z.mod_pos_bound. done. Qed.

Lemma stored_bytes m p n :
  0 ≤ n → concat (append_tensor_payload_span memory
                    [take (Z.to_nat sizeof_metadata) (encode m)] p n) = encode m ++ memory p n.
Proof using laws.
  intros Hn. pose proof (law_length laws m) as Hl. pose proof (law_memory laws p n Hn) as Hm.
  rewrite take_ge by lia. unfold append_tensor_payload_span. destruct (Z.eqb_spec n 0) as [->|]; cbn.
  - destruct (memory p 0); [done|cbn in Hm; lia].
  - by rewrite app_nil_r.
Qed.

(** C37: A tensor that [put_tensor] stored and [get_tensor] reads is the same tensor: what
    is written is its metadata and its payload in one [put_parts], and a buffer with these
    bytes becomes a tensor of the same dtype, shape and payload, an empty one included,
    unless Python raises or torch lacks the dtype. *)
Theorem tensor_roundtrip w key t h evs :
  tensors_supported w = true → to_py_ret INVALID_PARAMS ≠ 0 → python_well →
  store_tensor w key t h = (0, evs) →
  ∃ parts d, evs = [YPutParts key parts no_config 0] ∧ py_dtype t = Some d ∧
    ∀ h', y_get_buffer h' key = Some (concat parts) →
      (load_tensor w key h').1 =
      Some (MkTensor d (py_shape t) (memory (py_data_ptr t) (payload_size t))).
Proof using laws.
  intros Hw Hinv Hpy R. unfold put_tensor, put_tensor_impl in R. rewrite Hw in R. cbn [negb] in R.
  cbv zeta in R. destruct (is_valid (extract t)) eqn:Hv; [|by apply ret_inv in R as [? _]].
  cbn [negb] in R. destruct (extract_valid t Hv) as (d & m & Hd & Hb & He). rewrite He in Hv, R.
  destruct (valid_built t d m Hb Hv) as (Hdt & Hn & Hval).
  destruct (law_build laws _ _ _ _ Hb) as (Hm0 & Hm1 & Hm2 & Hm3 & Hm4).
  pose proof (u64_nonneg (py_numel t * py_element_size t)) as Hs. fold (payload_size t) in Hs.
  apply call_inv in R as [Hrc ->]. eexists _, d. split_and!; [done|done|].
  intros h' Hget. unfold get_tensor. unfold tensors_supported in Hw.
  apply andb_true_iff in Hw as [Hw _]. rewrite Hw. cbn [negb].
  destruct (bind _ _ h') as [r evs] eqn:R. apply bind_inv in R as (o & e1 & e2 & [-> _]%call_inv & R & _).
  rewrite Hget in R. cbn [handle_source] in R. unfold tensor_parts in R.
  cbn [metadata data_ptr tensor_size] in R.
  rewrite stored_bytes in R by done. apply (f_equal fst) in R.
  rewrite to_tensor_encoded in R;
    [cbn in *; by rewrite <- R, Hm1, Hm2|done|by eapply (law_decode laws)| | |done|done|].
  - by rewrite Hm1 in *.
  - done.
  - rewrite Hm4. by apply (law_memory laws).
Qed.
End RoundTrip.

(** ** Batches of shards *)

Lemma first_nonzero_zero rs : first_nonzero rs = 0 ↔ Forall (λ r, r = 0) rs.
Proof.
  induction rs as [|r rs IH]; cbn; [by split|]. rewrite Forall_cons, <- IH.
  destruct (Z.eqb_spec r 0) as [->|]; cbn; [tauto|]. split; [done|by intros [? _]].
Qed.

Lemma collect_length n indices : ∀ rs final,
  length (collect_shards n indices rs final) = length final.
Proof.
  induction indices as [|i indices IH]; intros rs final; [done|]. cbn. by rewrite IH, length_insert.
Qed.

Lemma collect_other n indices : ∀ rs final i,
  i ∉ indices → collect_shards n indices rs final !! i = final !! i.
Proof.
  induction indices as [|j indices IH]; intros rs final i Hi; [done|]. cbn.
  rewrite IH by set_solver. apply list_lookup_insert_ne. set_solver.
Qed.

(** The group of results at position [k] decides the result of the [k]-th index. *)
Lemma collect_at n indices : ∀ rs final k i,
  NoDup indices → indices !! k = Some i → (i < length final)%nat →
  collect_shards n indices rs final !! i =
  Some (first_nonzero (take n (drop (k * n) rs))).
Proof.
  induction indices as [|j indices IH]; intros rs final [|k] i Hnd Hk Hi; [done..| |].
  - injection Hk as ->. apply NoDup_cons in Hnd as [Hni _]. cbn.
    rewrite collect_other by done. by apply list_lookup_insert_eq.
  - apply NoDup_cons in Hnd as [_ Hnd]. cbn [collect_shards].
    rewrite IH with (k := k); [|done|done|by rewrite length_insert].
    by rewrite drop_drop.
Qed.

Section Shards.
Context `{!PyServices}.
Context (to_py_ret : ErrorCode → Z).
Context (build_tp_shard_infos : PyObject → Z → Z → option (option (list PyTensorInfo))).
Context (tp_size split_dim : Z) (tp_pos : 0 < tp_size).
(** A tensor that can be split has one shard per rank, and a batched write has one result
    per key. *)
Context (shard_count : ∀ t infos,
  build_tp_shard_infos t tp_size split_dim = Some (Some infos) → Z.of_nat (length infos) = tp_size).
Context (result_count : ∀ h keys infos c, length (y_batch_write h keys infos c) = length keys).

Abbreviation n := (Z.to_nat tp_size).
Abbreviation plan_of := (plan_batch build_tp_shard_infos tp_size split_dim).

(** An entry of the plan: the shards of the tensor at its index. *)
Definition planned (batch : list (string * PyObject)) (start : nat)
    (p : nat * list (string * PyTensorInfo)) : Prop :=
  ∃ key t infos, batch !! (p.1 - start)%nat = Some (key, t) ∧ (start ≤ p.1)%nat ∧
    build_tp_shard_infos t tp_size split_dim = Some (Some infos) ∧
    p.2 = zip (get_tp_key_name key <$> ranks tp_size) infos ∧ length p.2 = n.

Lemma ranks_length : length (ranks tp_size) = n.
Proof. unfold ranks. by rewrite length_seqZ. Qed.

Lemma plan_spec batch : ∀ start plan,
  plan_of start batch = Some plan →
  Forall (planned batch start) plan ∧ NoDup plan.*1 ∧
  (∀ i, i ∈ plan.*1 → (start ≤ i < start + length batch)%nat).
Proof using shard_count tp_pos.
  induction batch as [|[key t] batch IH]; intros start plan Hp; cbn in Hp.
  { injection Hp as <-. split_and!; [done|constructor|]. intros i Hi. by apply elem_of_nil in Hi. }
  destruct (plan_shards _ _ _ _ _ _) as [o|] eqn:Ho; [|done]. cbn in Hp.
  destruct (plan_of (S start) batch) as [rest|] eqn:Hr; [|done]. cbn in Hp.
  destruct (IH _ _ Hr) as (Hf & Hnd & Hb).
  assert (Hf' : Forall (planned ((key, t) :: batch) start) rest).
  { eapply Forall_impl; [exact Hf|]. intros [i sh] (k & t' & infos & Hl & Hle & Hrest).
    exists k, t', infos. cbn in *. replace (i - start)%nat with (S (i - S start)) by lia.
    split; [done|]. split; [lia|done]. }
  assert (Hb' : ∀ i, i ∈ rest.*1 → (start ≤ i < start + length ((key, t) :: batch))%nat).
  { intros i Hi. specialize (Hb i Hi). cbn. lia. }
  destruct o as [p|]; injection Hp as <-; [|done].
  unfold plan_shards in Ho. destruct (is_none t); [done|]. destruct (raises t); [done|].
  destruct (build_tp_shard_infos t tp_size split_dim) as [[infos|]|] eqn:Hbuild; [|done..].
  injection Ho as <-. split_and!.
  - constructor; [|done]. exists key, t, infos. cbn. rewrite Nat.sub_diag.
    split_and!; [done|done|done|done|].
    rewrite length_zip_with, length_fmap, ranks_length. specialize (shard_count _ _ Hbuild). lia.
  - cbn. constructor; [|done]. intros Hin. apply Hb in Hin. lia.
  - intros i. cbn. intros [->|Hi]%elem_of_cons; [lia|by apply Hb'].
Qed.

(** The shards of the [k]-th planned tensor, among all of them. *)
Lemma shards_at plan batch k p j x :
  Forall (planned batch 0) plan → plan !! k = Some p → p.2 !! j = Some x →
  (plan ≫= snd) !! (k * n + j)%nat = Some x.
Proof using tp_pos.
  revert k. induction plan as [|q plan IH]; intros [|k] Hf Hk Hj; [done..| |];
    apply Forall_cons in Hf as [Hq Hf]; cbn in Hk.
  - injection Hk as ->. cbn. rewrite lookup_app_l; [done|]. by apply lookup_lt_Some in Hj.
  - cbn. destruct Hq as (? & ? & ? & _ & _ & _ & _ & Hlen).
    rewrite lookup_app_r by lia. rewrite Hlen. replace (n + k * n + j - n)%nat with (k * n + j)%nat by lia.
    by apply IH.
Qed.

(** The same for the group ids. *)
Lemma repeated_at (g : list string) : ∀ k j id,
  g !! k = Some id → (j < n)%nat → (g ≫= λ id, replicate n id) !! (k * n + j)%nat = Some id.
Proof using tp_pos.
  induction g as [|id' g IH]; intros [|k] j id Hk Hj; [done..| |].
  - injection Hk as ->. cbn. rewrite lookup_app_l; [by apply lookup_replicate_2|].
    by rewrite length_replicate.
  - cbn. rewrite lookup_app_r by (rewrite length_replicate; lia). rewrite length_replicate.
    replace (n + k * n + j - n)%nat with (k * n + j)%nat by lia. by apply IH.
Qed.

(** What a zero in the collected results means for the tensor at index [i]. *)
Lemma collected_zero plan batch rcs final i :
  Forall (planned batch 0) plan → NoDup plan.*1 → (∀ j, j ∈ plan.*1 → (j < length final)%nat) →
  final !! i ≠ Some 0 → length rcs = length (plan ≫= snd) →
  collect_shards n plan.*1 rcs final !! i = Some 0 →
  ∃ k p, plan !! k = Some p ∧ p.1 = i ∧ ∀ j, (j < n)%nat → rcs !! (k * n + j)%nat = Some 0.
Proof using tp_pos.
  intros Hf Hnd Hb Hfin Hlen Hz. destruct (decide (i ∈ plan.*1)) as [Hi|Hi].
  2: { rewrite collect_other in Hz by done. done. }
  pose proof Hi as Hlt%Hb. apply list_elem_of_lookup in Hi as [k Hk].
  rewrite (collect_at _ _ _ _ k i) in Hz by done. injection Hz as Hz%first_nonzero_zero.
  rewrite list_lookup_fmap in Hk. destruct (plan !! k) as [p|] eqn:Hp; [|done].
  injection Hk as Hk. exists k, p. split_and!; [done|done|]. intros j Hj.
  destruct (proj1 (Forall_lookup _ _) Hf k p Hp) as (? & ? & ? & _ & _ & _ & _ & Hpl).
  destruct (p.2 !! j) as [sh|] eqn:Hx; [|apply lookup_ge_None in Hx; lia].
  pose proof (shards_at _ _ _ _ _ _ Hf Hp Hx) as Hs. apply lookup_lt_Some in Hs. rewrite <- Hlen in Hs.
  destruct (rcs !! (k * n + j)%nat) as [rc|] eqn:Hrc; [|apply lookup_ge_None in Hrc; lia].
  f_equal. rewrite Forall_lookup in Hz. apply (Hz j).
  rewrite lookup_take_lt by done. by rewrite lookup_drop.
Qed.

(** The group ids of the shards are those of their tensor. *)
Lemma repeated_config c (plan : list (nat * list (string * PyTensorInfo))) cfg ids k p j :
  MakeRepeatedIndexedConfig c plan.*1 tp_size = Some cfg → group_ids c = Some ids →
  plan !! k = Some p → (j < n)%nat →
  ∃ g, group_ids cfg = Some g ∧ g !! (k * n + j)%nat = ids !! p.1.
Proof using tp_pos.
  intros Hc Hids Hk Hj. unfold MakeRepeatedIndexedConfig in Hc. rewrite Hids in Hc.
  destruct (mapM _ _) as [g|] eqn:Hg; [|done]. injection Hc as <-. apply mapM_Some in Hg.
  assert (Hpk : plan.*1 !! k = Some p.1) by (by rewrite list_lookup_fmap, Hk).
  destruct (Forall2_lookup_l _ _ _ _ _ Hg Hpk) as (id & Hgk & Hid).
  eexists. split; [done|]. rewrite Hid. by apply repeated_at.
Qed.

(** A tensor of a sharded batch is reported as stored only if each of its shards was:
    the result list has one entry per key, and a zero at a key means that the batched write
    was given every shard of the tensor at that position under the name of its rank, with
    the group of the key, and answered zero for each of them. *)
Theorem tp_batch_results_sound keys tensors c h rs evs :
  to_py_ret INVALID_PARAMS ≠ 0 → length keys = length tensors →
  batch_put_tensor_with_tp_impl to_py_ret build_tp_shard_infos keys tensors c tp_size split_dim h
    = (rs, evs) →
  length rs = length keys ∧
  ∀ i key t, keys !! i = Some key → tensors !! i = Some t → rs !! i = Some 0 →
  ∃ infos ks written cfg rcs,
    build_tp_shard_infos t tp_size split_dim = Some (Some infos) ∧
    evs = [YBatchWrite ks written cfg rcs] ∧
    ∀ r, 0 ≤ r < tp_size → ∃ j info,
      infos !! Z.to_nat r = Some info ∧ ks !! j = Some (get_tp_key_name key r) ∧
      written !! j = Some info ∧ rcs !! j = Some 0 ∧
      ∀ ids, group_ids c = Some ids → ∃ g, group_ids cfg = Some g ∧ g !! j = ids !! i.
Proof using shard_count result_count tp_pos.
  intros Hinv Hlen R. unfold batch_put_tensor_with_tp_impl in R. cbv zeta in R.
  set (bad := const (invalid to_py_ret) <$> keys) in R.
  assert (Hbad : ∀ i, bad !! i ≠ Some 0).
  { intros i Hi. apply list_lookup_fmap_Some in Hi as (x & Hi & _). by apply Hinv. }
  assert (Hdone : (bad, @nil py_event) = (rs, evs) → length rs = length keys ∧
    ∀ (P : nat → string → PyObject → Prop) i key t, keys !! i = Some key → tensors !! i = Some t →
      rs !! i = Some 0 → P i key t).
  { intros [= <- <-]. split; [apply length_fmap|]. intros P i ? ? _ _ Hi. by destruct (Hbad i). }
  destruct (bool_decide_reflect (ValidateGroupIdsForBatchConfig to_py_ret c (length keys) = []))
    as [_|He]; cbn [negb] in R.
  2: { apply ret_inv in R as [-> ->]. unfold ValidateGroupIdsForBatchConfig in *.
       destruct (group_ids c) as [ids|]; [|done]. destruct (negb _); [|done].
       split; [apply length_replicate|]. intros i ? ? _ _ [Hi _]%lookup_replicate. by destruct Hinv. }
  destruct (plan_of 0 (zip keys tensors)) as [plan|] eqn:Hp; [|by destruct (Hdone R) as [? Hd]; split; [|apply Hd]].
  destruct (bool_decide _); [by destruct (Hdone R) as [? Hd]; split; [|apply Hd]|].
  destruct (MakeRepeatedIndexedConfig c plan.*1 tp_size) as [cfg|] eqn:Hc;
    [|by destruct (Hdone R) as [? Hd]; split; [|apply Hd]].
  apply bind_inv in R as (rcs & e1 & e2 & R1 & [-> ->]%ret_inv & ->).
  apply call_inv in R1 as [Hrcs ->]. rewrite app_nil_r.
  destruct (plan_spec _ _ _ Hp) as (Hf & Hnd & Hb).
  split; [rewrite collect_length; apply length_fmap|]. intros i key t Hkey Ht Hz.
  apply (collected_zero _ _ _ _ _ Hf Hnd) in Hz as (k & p & Hk & <- & Hrc); [|..].
  2: { intros j [_ Hj]%Hb. unfold bad. rewrite length_fmap. cbn in Hj.
       rewrite length_zip_with in Hj. lia. }
  2: by apply Hbad.
  2: by rewrite Hrcs, result_count, length_fmap.
  destruct (proj1 (Forall_lookup _ _) Hf k p Hk) as (key' & t' & infos & Hz & _ & Hbuild & Hsh & Hpl).
  rewrite Nat.sub_0_r in Hz. apply lookup_zip_with_Some in Hz as (? & ? & [= -> ->] & Hz1 & Hz2).
  rewrite Hkey in Hz1. injection Hz1 as <-. rewrite Ht in Hz2. injection Hz2 as <-.
  eexists infos, _, _, cfg, rcs. split; [done|]. split; [done|]. intros r Hr.
  destruct (infos !! Z.to_nat r) as [info|] eqn:Hinfo.
  2: { apply lookup_ge_None in Hinfo. specialize (shard_count _ _ Hbuild). lia. }
  assert (Hx : p.2 !! Z.to_nat r = Some (get_tp_key_name key r, info)).
  { rewrite Hsh. apply lookup_zip_with_Some. eexists _, _. split; [done|]. split; [|done].
    rewrite list_lookup_fmap. unfold ranks. rewrite lookup_seqZ_lt by lia. cbn. do 2 f_equal. lia. }
  pose proof (shards_at _ _ _ _ _ _ Hf Hk Hx) as Hs.
  exists (k * n + Z.to_nat r)%nat, info. rewrite !list_lookup_fmap, Hs.
  split_and!; [done|done|done|apply Hrc; lia|].
  intros ids Hids. eapply repeated_config; [done|done|done|lia].
Qed.
End Shards.

(** ** Temporary buffers *)

Inductive py_res := PBuffer (ptr : Z) | PExport (ptr : Z).

#[export] Instance py_res_eq : EqDecision py_res.
Proof. solve_decision. Defined.

#[export] Instance py_resources : Resources py_event py_res := {|
  acquires e := match e with
    | YAllocate _ (Some ptr) => [PBuffer ptr]
    | YNew _ ptr => [PExport ptr]
    | _ => []
    end;
  release_of e := match e with
    | YFreeBuffer ptr => Some (PBuffer ptr, 0)
    | YDelete ptr | YDropArray true ptr => Some (PExport ptr, 0)
    | _ => None
    end |}.

Section Buffers.
Context `{!PyServices}.
Context (to_py_ret : ErrorCode → Z) (sizeof_metadata kMaxTensorDims NR_DTYPES : Z).
Context (ValidateTensorMetadata : TensorMetadata → Z → bool).
Context (encode : TensorMetadata → list Z).
Context (build_full_tensor_metadata : PyObject → Z → Z → option TensorMetadata).
Context (memory : Z → Z → list Z).

Definition staged_res (b : staged) : py_res := PBuffer (st_ptr b).

Lemma stage_owns i key info results l :
  owns l (stage to_py_ret sizeof_metadata kMaxTensorDims NR_DTYPES ValidateTensorMetadata encode
            memory i key info results) (λ r, of_option staged_res r.1 ++ l).
Proof.
  unfold stage. destruct (negb _); [by apply owns_ret|]. cbv zeta.
  apply owns_seq with (mid := λ o, of_option PBuffer o ++ l).
  { apply owns_call. intros o r. unfold releases, refuses.
    destruct o; cbn; rewrite ?holds_cons, ?holds_nil; lia. }
  intros [dst|]; [|by apply owns_ret].
  cbn [of_option app]. set (k := PBuffer dst :: l).
  apply owns_seq with (mid := λ _, k); [owned_call|]. intros u.
  apply owns_seq with (mid := λ _, k); [destruct (_ <? _); [owned_call|by apply owns_ret]|].
  intros u'. by apply owns_ret.
Qed.

Lemma stage_all_owns batch : ∀ i results l,
  owns l (stage_all to_py_ret sizeof_metadata kMaxTensorDims NR_DTYPES ValidateTensorMetadata encode
            memory i batch results) (λ r, (staged_res <$> r.1) ++ l).
Proof.
  induction batch as [|[key info] batch IH]; intros i results l; cbn [stage_all];
    [by apply owns_ret|].
  eapply owns_seq; [apply stage_owns|]. intros [o rs]. cbn [fst snd].
  eapply owns_seq; [apply IH|]. intros [bs rs']. apply owns_ret. cbn [fst snd].
  destruct o; cbn; [|done]. by rewrite <- Permutation_middle.
Qed.

Lemma free_all_owns bs :
  owns (staged_res <$> bs) (mmap (λ b, call (λ _, tt) (λ _, YFreeBuffer (st_ptr b))) bs) (λ _, []).
Proof.
  induction bs as [|b bs IH]; cbn [mmap]; [by apply owns_ret|]. cbn.
  set (k := staged_res <$> bs) in *. unfold staged_res at 1.
  apply owns_seq with (mid := λ _, k); [owned_call|]. intros u.
  eapply owns_seq; [exact IH|]. intros us. by apply owns_ret.
Qed.

(** The temporary buffers of an upsert of several tensors are given back exactly once,
    whatever fails. *)
Theorem upsert_buffers_balanced keys tensors c :
  owns [] (batch_upsert_tensor_impl to_py_ret sizeof_metadata kMaxTensorDims NR_DTYPES
             ValidateTensorMetadata encode build_full_tensor_metadata memory keys tensors c)
    (λ _, []).
Proof.
  unfold batch_upsert_tensor_impl. cbv zeta. destruct (negb _); [by apply owns_ret|].
  eapply owns_seq; [apply (stage_all_owns _ _ _ [])|]. intros [buffers results].
  rewrite app_nil_r. cbn [fst]. set (k := staged_res <$> buffers).
  apply owns_seq with (mid := λ _, k).
  - destruct (bool_decide _); [by apply owns_ret|].
    destruct (MakeIndexedConfig _ _) as [cfg|]; [|by apply owns_ret].
    apply owns_seq with (mid := λ _, k); [owned_call|]. intros rs. by apply owns_ret.
  - intros out. eapply owns_seq; [apply free_all_owns|]. intros us. by apply owns_ret.
Qed.
End Buffers.

(** ** Runs *)

(** Metadata of five numbers, then four dimensions. *)
Definition sample_encode (m : TensorMetadata) : list Z :=
  [77; dtype m; ndim m; data_offset m; data_bytes m] ++ take 4 (dims m ++ [0; 0; 0; 0]).

Definition sample_decode (l : list Z) : TensorMetadata :=
  match l with
  | [77; d; n; o; b; d1; d2; d3; d4] => MkMetadata d n [d1; d2; d3; d4] o b
  | _ => no_metadata
  end.

Definition sample_build (t : PyObject) (d size : Z) : option TensorMetadata :=
  if (0 <=? d) && (length (py_shape t) <=? 4)%nat
  then Some (MkMetadata d (Z.of_nat (length (py_shape t))) (take 4 (py_shape t ++ [0; 0; 0; 0])) 9 size)
  else None.

Definition sample_memory (p n : Z) : list Z := seqZ p n.

(** A store that holds one object and a Python that raises at [bad]. *)
Definition sample_py (object : option (list Z)) (bad : option string) : PyServices := {|
  y_put_parts := λ _ _ _ _, 0;
  y_upsert_parts := λ _ _ _ _, 0;
  y_put_from := λ _ _ _ _ _, 0;
  y_upsert_from := λ _ _ _ _ _, 0;
  y_batch_put_from := λ _ keys _ _ _, const 0 <$> keys;
  y_batch_upsert_from := λ _ keys _ _ _, const 0 <$> keys;
  y_batch_write := λ _ keys _ _, const 0 <$> keys;
  y_get_buffer := λ _ _, object;
  y_batch_get_buffer := λ _ keys, const object <$> keys;
  y_get_into := λ _ _ _ n, n;
  y_batch_get_into := λ _ _ _ ns, ns;
  y_allocate := λ h _, Some (4096 * Z.of_nat (S (length h)));
  y_new := λ h _, 8192 * Z.of_nat (S (length h));
  y_array := λ _, true;
  y_python := λ _ what, negb (bool_decide (bad = Some what));
  y_load := λ _ _, None |}.

Definition sample_validate (m : TensorMetadata) (total : Z) : bool :=
  (data_offset m =? 9) && (total =? 9 + data_bytes m).

Definition sample_parse (l : list Z) : option (Z * Z) :=
  match l with
  | 77 :: _ :: _ :: o :: b :: _ => Some (o, b)
  | _ => None
  end.

Definition sample_ret (e : ErrorCode) : Z := match e with OK => 0 | _ => -1 end.

Definition sample_config : PyConfig := MkPyConfig (MkConfig 1 0 "" false) [] None.

(** A two by three tensor of bytes. *)
Definition sample_tensor : PyObject := MkPyObject "Tensor" false 500 6 1 (Some 2) [2; 3].

Lemma sample_laws :
  metadata_laws 9 8 8 sample_validate sample_parse sample_encode sample_decode sample_build
    sample_memory.
Proof.
  split; try done.
  - intros m. unfold sample_encode. rewrite length_app, length_take, length_app.
    cbn [length]. lia.
  - intros t d size m. unfold sample_build. destruct (_ && _) eqn:E; [|done]. intros [= <-].
    destruct (py_shape t) as [|? [|? [|? [|? [|? ?]]]]]; by cbn in *.
  - intros t d size m. unfold sample_build. destruct (_ && _) eqn:E; [|done]. intros [= <-].
    apply andb_true_iff in E as [Hd Hl]. apply Z.leb_le in Hd. split; [done|]. split; [done|].
    split; [|done]. unfold tensor_shape_tuple. cbn.
    destruct (py_shape t) as [|? [|? [|? [|? [|? ?]]]]]; by cbn in *.
  - intros p n Hn. unfold sample_memory. rewrite length_seqZ. lia.
Qed.

Definition stored_object : list Z := [77; 2; 2; 9; 6; 2; 3; 0; 0; 500; 501; 502; 503; 504; 505].

Abbreviation sample_put w t h :=
  (@put_tensor (sample_py (Some stored_object) None) sample_ret 9 8 8 sample_validate sample_encode
     sample_build sample_memory sample_config w "k" t h).

Definition real_wrapper : Wrapper := MkWrapper true false true.

Lemma tensor_roundtrip_witness :
  ∃ d, py_dtype sample_tensor = Some d ∧
    (@get_tensor (sample_py (Some stored_object) None) 9 8 8 sample_parse sample_decode sample_memory
       (λ _, false) real_wrapper "k" []).1 =
    Some (MkTensor d [2; 3] [500; 501; 502; 503; 504; 505]).
Proof.
  destruct (@tensor_roundtrip (sample_py (Some stored_object) None) sample_ret 9 8 8 8 sample_validate
    sample_parse sample_encode sample_decode sample_build sample_memory sample_config (λ _, false)
    sample_laws real_wrapper "k" sample_tensor [] (sample_put real_wrapper sample_tensor []).2)
    as (parts & d & Hev & Hd & Hget).
  - done.
  - done.
  - by split.
  - by vm_compute.
  - exists d. split; [exact Hd|]. apply Hget. injection Hev as <-. by vm_compute.
Defined.

(** Two tensors, one of which is not there, in two shards each. *)
Definition sample_shards (t : PyObject) (tp split : Z) : option (option (list PyTensorInfo)) :=
  Some (Some ((λ r, MkInfo (500 + r) 3 no_metadata) <$> seqZ 0 tp)).

Definition none_object : PyObject := MkPyObject "NoneType" false 0 0 0 None [].

Abbreviation sample_batch :=
  (@batch_put_tensor_with_tp_impl (sample_py None None) sample_ret sample_shards ["a"; "b"]
     [none_object; sample_tensor] sample_config 2 0 []).

Lemma tp_batch_results_sound_witness :
  ∃ infos ks written cfg rcs,
    sample_batch.2 = [YBatchWrite ks written cfg rcs] ∧
    sample_shards sample_tensor 2 0 = Some (Some infos) ∧
    ∃ j info, infos !! 1%nat = Some info ∧ ks !! j = Some "b_tp_1" ∧ written !! j = Some info ∧
      rcs !! j = Some 0.
Proof.
  destruct (@tp_batch_results_sound (sample_py None None) sample_ret sample_shards 2 0) with
    (keys := ["a"; "b"]) (tensors := [none_object; sample_tensor]) (c := sample_config)
    (h := @nil py_event) (rs := sample_batch.1) (evs := sample_batch.2) as [_ Hz].
  - lia.
  - intros t infos [= <-]. done.
  - intros h ks infos c. apply length_fmap.
  - done.
  - done.
  - apply surjective_pairing.
  - destruct (Hz 1%nat "b" sample_tensor) as (infos & ks & written & cfg & rcs & Hb & Hev & Hr);
      [done|done|by vm_compute|].
    destruct (Hr 1) as (j & info & H1 & H2 & H3 & H4 & _); [lia|].
    exists infos, ks, written, cfg, rcs. split; [exact Hev|]. split; [exact Hb|].
    exists j, info. done.
Defined.

(** When a step after the array was made raises, the array frees the memory it owns and the
    handler deletes it again. *)
Theorem tensor_memory_freed_twice :
  let evs := (@buffer_to_tensor (sample_py None (Some "reshape")) 9 8 8 sample_parse sample_decode
                sample_memory (λ _, false) (FromHandle stored_object) []).2 in
  ∃ ptr, times acquires evs (PExport ptr) = 1%nat ∧ times releases evs (PExport ptr) = 2%nat.
Proof. exists 8192. by vm_compute. Qed.

(** The sum of offset and size wraps around: a size near 2^64 passes for a small region. *)
Theorem region_check_wraps :
  resolve_wrapper_region true real_wrapper (Some (16, 64)) (u64_max - 8) = Some (16, 64).
Proof. by vm_compute. Qed.
