(* ===== verification/RealServers.v ===== *)
(** * The servers of the real client ([mooncake-store/src/real_client.cpp])

    The IPC thread accepts connections of dummy clients on an abstract socket, reads the
    type of the request and passes it on; the monitor thread watches the pings; the
    HTTP server reports health and metrics.  Sockets, the scheduling of the threads and the
    HTTP library are external.  The IPC thread runs interleaved with the thread that calls
    [stop_ipc_server], whose events are part of the history, and with the threads that
    change the contexts; [accept] and the receive calls may block. *)

From S2P Require Import Prelude CxxString StoreTypes ReplicaPolicy Accounting Segments SegmentsSpec DummyMap RangedRead RealSegments RealSegmentsSpec RealChunks RealShm RealShmSpec RealSetup.
From stdpp Require Import base strings list sets gmap fin_maps.
From Stdlib Require Import ZArith Lia.

#[local] Open Scope Z_scope.
#[local] Set Default Proof Using "Type".

(** ** The abstract address *)

(** [sizeof(addr.sun_path) - 2] characters are copied behind the leading zero byte. *)
Definition sun_path_chars : nat := 106.

(** [strncpy] of a string without zero bytes, into a zeroed array. *)
Fixpoint str_take (n : nat) (s : string) : string :=
  match n, s with
  | S n, String x s => String x (str_take n s)
  | _, _ => ""
  end.

(** The bytes after the zero byte and the length given to [bind] and [connect]:
    [sizeof(sa_family_t) + strlen(&addr.sun_path[1]) + 1]. *)
Definition server_address (path : string) : string * Z :=
  let name := str_take sun_path_chars path in
  (name, 2 + Z.of_nat (String.length name) + 1).

(** The dummy client computes the length from the whole path. *)
Definition dummy_address (path : string) : string * Z :=
  (str_take sun_path_chars path, 2 + 1 + Z.of_nat (String.length path)).

(** ** Events *)

(** [IpcRequestType] *)
Definition IPC_SHM_REGISTER : Z := 0.
Definition IPC_SHM_FD_REQUEST : Z := 1.

Inductive ipc_event :=
| IMap (e : map_event)                                 (* descriptors, mappings, the client *)
| ISocket (sock : Z)
| IBind (sock : Z) (addr : string * Z) (rc : Z)
| IListen (sock backlog rc : Z)
| IConnect (sock : Z) (addr : string * Z)
| IRunning (running : bool)                            (* a load of ipc_running_ *)
| ISetRunning (running : bool)
| IStopped                                             (* stop_ipc_server returned *)
| IAccept (server client : Z)
| IAcceptBlocks (server : Z)                           (* no connection waits *)
| IRecvBlocks (sock : Z)                               (* nothing comes, and no timeout *)
| ITimeout (sock seconds : Z)                          (* SO_RCVTIMEO *)
| IRecvType (sock : Z) (req_type : option Z)           (* None: not all of it came *)
| IRecvRegister (sock fd : Z) (req : ShmRegisterRequest)
| IRecvFdRequest (sock : Z) (req : option (UUID * bool))
| IHotSegment (seg : option (Z * Z))
| ISendStatus (sock status : Z)
| ISendResponse (sock status size : Z) (fd : option Z)
| IClose (sock : Z)
| IThread (name : string)                              (* a thread is started *)
| IJoin (name : string).

Abbreviation iio A := (comp ipc_event A).

Definition ipc_map_event (e : ipc_event) : option map_event :=
  match e with IMap e => Some e | _ => None end.

Definition ipc_map {A} (m : gio A) : iio A := lift_comp IMap ipc_map_event m.

Class IpcServices := {
  i_socket : list ipc_event → Z;
  i_bind : list ipc_event → Z → string * Z → Z;
  i_listen : list ipc_event → Z → Z;
  i_accept : list ipc_event → Z → option Z;             (* None: it blocks *)
  i_recv_blocks : list ipc_event → Z → bool;
  i_recv_type : list ipc_event → Z → option Z;
  i_recv_register : list ipc_event → Z → Z * ShmRegisterRequest;
  i_recv_fd_request : list ipc_event → Z → option (UUID * bool);
  i_hot_segment : list ipc_event → option (Z * Z) }.

(** ** The other threads *)

(** What they do to [shm_contexts_] while the IPC thread does not hold
    [dummy_client_mutex_]: requests of dummy clients, expiry, tear-down, and requests for
    buffers, which change the handles of a client. *)
Inductive other_op :=
| OUnregister (dummy_base : Z) (client_id : UUID)
| OUnmap (client_id : UUID)
| OAgentUnmap (client_id : UUID)
| OHandles (client_id : UUID) (handles : gmap Z BufferHandle)
| OTeardown.

(** [ipc_running_], which [start_ipc_server] sets before it starts the thread. *)
Fixpoint ipc_running (evs : list ipc_event) (on : bool) : bool :=
  match evs with
  | [] => on
  | ISetRunning b :: evs => ipc_running evs b
  | _ :: evs => ipc_running evs on
  end.

Definition has_event (P : ipc_event → bool) (h : list ipc_event) : bool := existsb P h.
Definition is_clear (e : ipc_event) : bool := match e with ISetRunning b => negb b | _ => false end.
Definition is_stopped (e : ipc_event) : bool := match e with IStopped => true | _ => false end.

Section Ipc.
Context `{!SegmentServices, !MapServices, !IpcServices}.
Context (c : Client) (max_mr_size : Z) (GPU_PREFIX kWildcardLocation : string).
Context (create_allocator : Z → Z → Allocator).
(** The scheduler: what the other threads do next to the contexts, and how many steps (of
    its two) the stopping thread takes next. *)
Context (others : list ipc_event → list other_op) (stop_turns : list ipc_event → nat).

Definition tell {A} (x : A) (ev : A → ipc_event) : iio A := call (λ _, x) ev.

Definition close_sock (sock : Z) : iio unit := tell tt (λ _, IClose sock).

Definition other_step (ctxs : shm_contexts) (op : other_op) : gio shm_contexts :=
  match op with
  | OUnregister base id => let! r := unregister_shm_buffer_internal c base id ctxs in ret r.2
  | OUnmap id => let! r := unmap_shm_internal c id ctxs in ret r.2
  | OAgentUnmap id => let! r := ascend_unmap_shm_internal c id ctxs in ret r.2
  | OHandles id handles =>
      ret (alter (λ x, MkShmContext (mapped_shms x) (client_buffer_allocator x) handles) id ctxs)
  | OTeardown => teardown_shms ctxs
  end.

Definition run_others (ctxs : shm_contexts) : iio shm_contexts :=
  λ h, ipc_map (mfold other_step ctxs (others h)) h.

(** ** Starting and stopping *)

Definition start_ipc_server : iio Z :=
  tell tt (λ _, ISetRunning true) ;;;
  tell tt (λ _, IThread "ipc") ;;;
  ret 0.

(** The connection that wakes [accept]. *)
Definition wake_server (path : string) : iio unit :=
  if String.eqb path "" then ret tt
  else
    let! sock := call i_socket ISocket in
    if 0 <=? sock then
      tell tt (λ _, IConnect sock (server_address path)) ;;;
      close_sock sock
    else ret tt.

Definition clear_running : iio unit := tell tt (λ _, ISetRunning false).

Definition stop_ipc_server (path : string) : iio Z :=
  clear_running ;;;
  wake_server path ;;;
  ret 0.

(** The next step of the thread that calls [stop_ipc_server]. *)
Definition stop_step (path : string) : iio unit := λ h,
  (if has_event is_stopped h then ret tt
   else if has_event is_clear h then wake_server path ;;; tell tt (λ _, IStopped)
   else clear_running) h.

Fixpoint stop_steps (path : string) (n : nat) : iio unit :=
  match n with
  | O => ret tt
  | S n => stop_step path ;;; stop_steps path n
  end.

(** The stopping thread may run here. *)
Definition stop_turn (path : string) : iio unit := λ h, stop_steps path (stop_turns h) h.

(** ** Calls of the IPC thread *)

Definition running (path : string) : iio bool :=
  stop_turn path ;;; call (λ h, ipc_running h true) IRunning.

(** When no connection waits the stopping thread runs to its end before [accept] may
    return; [None]: it never returns. *)
Definition accept_conn (path : string) (server_sock : Z) : iio (option Z) :=
  stop_turn path ;;;
  (λ h, match i_accept h server_sock with
        | Some sock => tell (Some sock) (λ _, IAccept server_sock sock) h
        | None =>
            (tell tt (λ _, IAcceptBlocks server_sock) ;;;
             stop_steps path 2 ;;;
             (λ h, match i_accept h server_sock with
                   | Some sock => tell (Some sock) (λ _, IAccept server_sock sock) h
                   | None => ret None h
                   end)) h
        end).

(** A receive call: [None] when it never returns. *)
Definition receive {A} (sock : Z) (m : iio A) : iio (option A) := λ h,
  (if i_recv_blocks h sock then tell None (λ _, IRecvBlocks sock)
   else let! x := m in ret (Some x)) h.

(** ** The handlers, from [recvmsg] to [send]; [None]: a receive call blocks *)

Definition serve_shm_register (sock : Z) (ctxs : shm_contexts) : iio (option shm_contexts) :=
  let! r := receive sock (call (λ h, i_recv_register h sock) (λ r, IRecvRegister sock r.1 r.2)) in
  match r with
  | None => ret None
  | Some r =>
      let! ctxs := run_others ctxs in
      let! s := ipc_map (handle_ipc_shm_register c max_mr_size GPU_PREFIX kWildcardLocation
                           create_allocator r.1 r.2 ctxs) in
      match s.1 with
      | None => ret (Some s.2)
      | Some status => tell tt (λ _, ISendStatus sock status) ;;; ret (Some s.2)
      end
  end.

Definition serve_shm_fd_request (sock : Z) (ctxs : shm_contexts) : iio (option shm_contexts) :=
  let! req := receive sock (call (λ h, i_recv_fd_request h sock) (IRecvFdRequest sock)) in
  match req with
  | None => ret None
  | Some None => ret (Some ctxs)
  | Some (Some (client_id, is_hot_cache_segment)) =>
      let! ctxs := run_others ctxs in
      (* the hot cache is asked only for a known client and its segment type *)
      let! seg := (if bool_decide (is_Some (ctxs !! client_id)) && is_hot_cache_segment
                   then call i_hot_segment IHotSegment else ret None) in
      let '(status, size, fd) :=
        handle_ipc_shm_fd_request client_id is_hot_cache_segment seg ctxs in
      tell tt (λ _, ISendResponse sock status size fd) ;;; ret (Some ctxs)
  end.

Definition serve_request (sock req_type : Z) (ctxs : shm_contexts) : iio (option shm_contexts) :=
  if req_type =? IPC_SHM_REGISTER then serve_shm_register sock ctxs
  else if req_type =? IPC_SHM_FD_REQUEST then serve_shm_fd_request sock ctxs
  else ret (Some ctxs).

(** ** The loop *)

(** How it stands: it has ended, it waits for ever holding a connection or none, or it
    still runs when the fuel is used up. *)
Inductive loop_state :=
| Ended
| Blocked (client_sock : option Z)
| Running.

Fixpoint ipc_loop (fuel : nat) (path : string) (server_sock : Z) (ctxs : shm_contexts)
  : iio (loop_state * shm_contexts) :=
  match fuel with
  | O => ret (Running, ctxs)
  | S fuel =>
      let! on := running path in
      if negb on then ret (Ended, ctxs)
      else
        let! accepted := accept_conn path server_sock in
        match accepted with
        | None => ret (Blocked None, ctxs)
        | Some client_sock =>
            if client_sock <? 0 then
              running path ;;;                         (* only for the log *)
              ipc_loop fuel path server_sock ctxs
            else
              let! on := running path in
              if negb on then close_sock client_sock ;;; ret (Ended, ctxs)
              else
                tell tt (λ _, ITimeout client_sock 5) ;;;
                let! req_type := receive client_sock
                  (call (λ h, i_recv_type h client_sock) (IRecvType client_sock)) in
                match req_type with
                | None => ret (Blocked (Some client_sock), ctxs)
                | Some None =>
                    close_sock client_sock ;;; ipc_loop fuel path server_sock ctxs
                | Some (Some t) =>
                    let! served := serve_request client_sock t ctxs in
                    match served with
                    | None => ret (Blocked (Some client_sock), ctxs)
                    | Some ctxs =>
                        close_sock client_sock ;;;
                        ipc_loop fuel path server_sock ctxs
                    end
                end
        end
  end.

(** The state of the thread, the socket it still listens on, and the contexts. *)
Definition ipc_server_func (fuel : nat) (path : string) (ctxs : shm_contexts)
  : iio (loop_state * option Z * shm_contexts) :=
  let! server_sock := call i_socket ISocket in
  if server_sock <? 0 then ret (Ended, None, ctxs)
  else
    let! rc := call (λ h, i_bind h server_sock (server_address path))
                 (IBind server_sock (server_address path)) in
    if rc <? 0 then close_sock server_sock ;;; ret (Ended, None, ctxs)
    else
      let! rc := call (λ h, i_listen h server_sock) (IListen server_sock 5) in
      if rc <? 0 then close_sock server_sock ;;; ret (Ended, None, ctxs)
      else
        let! r := ipc_loop fuel path server_sock ctxs in
        match r.1 with
        | Ended => close_sock server_sock ;;; ret (Ended, None, r.2)
        | s => ret (s, Some server_sock, r.2)
        end.

(** The monitor thread: whether it is joinable.  A thread that was started is. *)
Definition start_dummy_client_monitor : iio (Z * bool) :=
  tell tt (λ _, ISetRunning true) ;;;
  tell tt (λ _, IThread "monitor") ;;;
  ret (0, true).

Definition stop_dummy_client_monitor (joinable : bool) : iio bool :=
  tell tt (λ _, ISetRunning false) ;;;
  if joinable then tell false (λ _, IJoin "monitor") else ret false.
End Ipc.

(** ** The HTTP status server *)

Record response := MkResponse { http_status : Z; content_type : option string; body : string }.

Definition HC_HEALTHY : Z := 0.
Definition HC_NOT_INITIALIZED : Z := 1.
Definition HC_MASTER_UNREACHABLE : Z := 2.

Definition status_ok : Z := 200.
Definition status_service_unavailable : Z := 503.

Definition quote : string := String (Ascii.ascii_of_nat 34) "".
Definition quoted (s : string) : string := quote +:+ s +:+ quote.

Definition health_status_str (code : Z) : string :=
  if code =? HC_HEALTHY then "healthy"
  else if code =? HC_NOT_INITIALIZED then "not_initialized"
  else if code =? HC_MASTER_UNREACHABLE then "master_unreachable"
  else "unknown".

Definition get_health (code : Z) : response :=
  MkResponse (if code =? HC_HEALTHY then status_ok else status_service_unavailable)
    (Some "application/json")
    ("{" +:+ quoted "status" +:+ ":" +:+ quoted (health_status_str code) +:+ "," +:+ quoted "code"
       +:+ ":" +:+ to_string code +:+ "}").

(** [/metrics] and [/metrics/summary]; [result]: what the store client serializes. *)
Definition get_metrics_with (type : string) (has_client : bool) (result : expected string)
  : response :=
  if negb has_client then MkResponse status_service_unavailable None "client not initialized"
  else match result with
       | Err _ => MkResponse status_service_unavailable None "metrics not available"
       | Ok text => MkResponse status_ok (Some type) text
       end.

Definition get_metrics := get_metrics_with "text/plain; version=0.0.4".
Definition get_metrics_summary := get_metrics_with "text/plain".

(** What a request gets from a server over the client's current state. *)
Definition http_get (s : SetupState) (ping_healthy : bool) (metrics summary : expected string)
    (path : string) : option response :=
  let has_client := bool_decide (is_Some (rs_client (su_segments s))) in
  if String.eqb path "/health" then Some (get_health (real_health_check s ping_healthy))
  else if String.eqb path "/metrics" then Some (get_metrics has_client metrics)
  else if String.eqb path "/metrics/summary" then Some (get_metrics_summary has_client summary)
  else None.

(** [http_server_]: whether there is one.  [failed]: [async_start] has a result already. *)
Definition start_http_server (failed : bool) : Z * bool :=
  if failed then (-1, false) else (0, true).

Definition stop_http_server (http_server_ : bool) : bool * bool :=   (* stopped, afterwards *)
  if http_server_ then (true, false) else (false, false).
