(* ===== verification/RealServersSpec.v ===== *)
(** * What the servers of the real client guarantee

    The IPC server gives back every socket, descriptor and mapping it does not record,
    whatever its peers send; it ends when it is stopped, because the connection of
    [stop_ipc_server] wakes it; server and dummy client agree on the address.  The HTTP server reports the state that set-up and tear-down leave. *)

From S2P Require Import Prelude CxxString StoreTypes ReplicaPolicy Samples Accounting Segments SegmentsSpec DummyMap RangedRead RealSegments RealSegmentsSpec RealChunks RealShm RealShmSpec RealSetup RealServers.
From stdpp Require Import base strings list sets gmap fin_maps.
From Stdlib Require Import ZArith Lia.

#[local] Open Scope Z_scope.
#[local] Set Default Proof Using "Type".

(** ** The address *)

Lemma str_take_length n s : String.length (str_take n s) = Nat.min n (String.length s).
Proof. revert s. induction n as [|n IH]; intros [|x s]; cbn; [done..|]. by rewrite IH. Qed.

Lemma addresses_agree path :
  dummy_address path = server_address path ↔ (String.length path ≤ sun_path_chars)%nat.
Proof.
  unfold dummy_address, server_address. cbv zeta. rewrite str_take_length. split.
  - intros H%(f_equal snd). cbn [snd] in H. lia.
  - intros H. f_equal. lia.
Qed.

(** ** Sockets, descriptors and mappings *)

Inductive ipc_res :=
| RSock (sock : Z)
| RMap (r : seg_res).

#[export] Instance ipc_res_eq : EqDecision ipc_res.
Proof. solve_decision. Defined.

Definition sock_res (sock : Z) : list ipc_res := if sock <? 0 then [] else [RSock sock].

#[export] Instance ipc_resources : Resources ipc_event ipc_res := {|
  acquires e := match e with
    | IMap e => RMap <$> acquires e
    | ISocket sock | IAccept _ sock => sock_res sock
    | IRecvRegister _ fd _ => RMap <$> received fd
    | _ => []
    end;
  release_of e := match e with
    | IMap e => option_map (λ x, (RMap x.1, x.2)) (release_of e)
    | IClose sock => Some (RSock sock, 0)
    | _ => None
    end |}.

#[export] Instance RMap_inj : Inj (=) (=) RMap.
Proof. by intros x y [= ->]. Qed.

Lemma count_RMap_sock l sock : holds (RMap <$> l) (RSock sock) = 0%nat.
Proof. by apply holds_other. Qed.

Lemma map_refuses e : refuses (IMap e) = RMap <$> refuses e.
Proof. by apply refuses_inj. Qed.

(** What a program does with files and mappings, it does inside the server. *)
Lemma ipc_map_owns {A} pre (m : gio A) post l :
  owns pre m post → owns (l ++ (RMap <$> pre)) (ipc_map m) (λ v, l ++ (RMap <$> post v)).
Proof.
  apply lift_owns; [apply _|by intros e|by intros e|]. intros [sock|r]; [by right|left; by exists r].
Qed.

(** A program that may lose what is lossable does so inside the server. *)
Lemma ipc_map_owns_but {A} pre (m : gio A) post l (F : map_event → Prop) (F' : ipc_event → Prop) :
  (∀ e, F e → F' (IMap e)) →
  owns_but (λ r, ∃ p n, r = RMapping p n) F pre m post →
  owns_but (λ r, ∃ p n, r = RMap (RMapping p n)) F' (l ++ (RMap <$> pre)) (ipc_map m)
    (λ v, l ++ (RMap <$> post v)).
Proof.
  intros HF. eapply lift_owns_but; [apply _|by intros e|by intros e| | |exact HF].
  - intros [sock|r]; [by right|left; by exists r].
  - intros x (p & n & ->). by exists p, n.
Qed.

(** ** The flag *)

(** How often [ipc_running_] was read. *)
Definition is_load (e : ipc_event) : bool := match e with IRunning _ => true | _ => false end.
Definition loads (h : list ipc_event) : nat := length (List.filter is_load h).

Lemma loads_app h1 h2 : loads (h1 ++ h2) = (loads h1 + loads h2)%nat.
Proof. unfold loads. by rewrite List.filter_app, length_app. Qed.

Lemma has_event_app P h1 h2 : has_event P (h1 ++ h2) = has_event P h1 || has_event P h2.
Proof. apply existsb_app. Qed.

(** The flag is cleared once and for all: nothing of what runs here sets it again. *)
Definition is_set (e : ipc_event) : bool := match e with ISetRunning b => b | _ => false end.

Lemma running_cleared h on :
  has_event is_set h = false → has_event is_clear h = true → ipc_running h on = false.
Proof.
  revert on. induction h as [|e h IH]; intros on Hs Hc; [done|]. cbn in Hs, Hc.
  apply orb_false_iff in Hs as [He Hs]. destruct e; cbn in *; try by apply IH. subst.
  cbn. destruct (has_event is_clear h) eqn:E; [by apply IH|].
  clear -E Hs. induction h as [|e h IH]; [done|]. cbn in E, Hs.
  apply orb_false_iff in E as [E1 E], Hs as [H1 Hs]. destruct e; cbn in *; try by apply IH.
  by destruct running.
Qed.

(** Events that neither touch the flag nor end the stopping thread. *)
Definition calm (e : ipc_event) : bool := match e with ISetRunning _ | IStopped => false | _ => true end.

Lemma calm_events (P : ipc_event → bool) evs :
  (∀ e, calm e = true → P e = false) → Forall (λ e, calm e = true) evs → has_event P evs = false.
Proof.
  intros HP. unfold has_event. induction 1 as [|e evs He _ IH]; [done|]. cbn. by rewrite HP, IH.
Qed.

(** The socket is bound to the address and listens. *)
Definition listens (sock : Z) (addr : string * Z) (h : list ipc_event) : Prop :=
  ∃ rc1 rc2, IBind sock addr rc1 ∈ h ∧ 0 ≤ rc1 ∧ IListen sock 5 rc2 ∈ h ∧ 0 ≤ rc2.

(** The history of a loop that listens: the flag is not set again, and the stopping thread
    clears it before it is done. *)
Definition listening (path : string) (sock : Z) (h : list ipc_event) : Prop :=
  listens sock (server_address path) h ∧ has_event is_set h = false ∧
  (has_event is_stopped h = true → has_event is_clear h = true).

(** The connection of the stopping thread waits to be accepted. *)
Definition pending (path : string) (sock : Z) (h : list ipc_event) : Prop :=
  ∃ h1 s h2, h = h1 ++ IConnect s (server_address path) :: h2 ∧
    listens sock (server_address path) h1 ∧ ∀ x y, IAccept x y ∉ h2.

Lemma listens_later sock addr h evs : listens sock addr h → listens sock addr (h ++ evs).
Proof. intros (rc1 & rc2 & ? & ? & ? & ?). exists rc1, rc2. set_solver. Qed.

Lemma listening_later path sock h evs :
  listening path sock h → Forall (λ e, calm e = true) evs → listening path sock (h ++ evs).
Proof.
  intros (Hl & Hs & Hc) Hcalm. unfold listening. rewrite !has_event_app.
  rewrite !(calm_events _ evs) by (done || by intros []).
  rewrite !orb_false_r. split; [by apply listens_later|done].
Qed.

Lemma pending_later path sock h evs :
  pending path sock h → (∀ x y, IAccept x y ∉ evs) → pending path sock (h ++ evs).
Proof.
  intros (h1 & s & h2 & -> & Hl & Hn) Hevs. exists h1, s, (h2 ++ evs).
  rewrite <- app_assoc. split_and!; [done|done|]. intros x y. specialize (Hn x y).
  specialize (Hevs x y). set_solver.
Qed.

Section Spec.
Context `{!SegmentServices, !MapServices, !IpcServices}.
Context (c : Client) (max_mr_size : Z) (GPU_PREFIX kWildcardLocation : string).
Context (create_allocator : Z → Z → Allocator).
Context (others : list ipc_event → list other_op) (stop_turns : list ipc_event → nat).
(** A mapping is never placed at address zero. *)
Context (mmap_placed : ∀ h n fd off p, g_mmap h n fd off = Some p → p ≠ 0).

(** The mappings of the contexts, as the server's resources. *)
Definition ctx_res (ctxs : shm_contexts) : list ipc_res := RMap <$> shm_res ctxs.

(** A mapping is lost only after the transfer engine refused to unregister memory. *)
Definition is_mapping (r : ipc_res) : Prop := ∃ p n, r = RMap (RMapping p n).
Definition map_refused (e : map_event) : Prop := ∃ p rc, e = GSegment (TEUnregister p rc) ∧ rc ≠ 0.
Definition unregister_refused (e : ipc_event) : Prop := ∃ e', e = IMap e' ∧ map_refused e'.

Abbreviation owned := (owns_but is_mapping unregister_refused).
Abbreviation loop := (ipc_loop c max_mr_size GPU_PREFIX kWildcardLocation create_allocator
                        others stop_turns).
Abbreviation server := (ipc_server_func c max_mr_size GPU_PREFIX kWildcardLocation
                          create_allocator others stop_turns).
Abbreviation register := (serve_shm_register c max_mr_size GPU_PREFIX kWildcardLocation
                            create_allocator others).

(** A call that has nothing to do with resources. *)
Lemma neutral_owns {A} (f : list ipc_event → A) ev (l : list ipc_res) :
  (∀ v, acquires (ev v) = [] ∧ release_of (ev v) = None) → owns l (call f ev) (λ _, l).
Proof.
  intros Hv. apply owns_call. intros v r. destruct (Hv v) as [Ha Hr].
  unfold releases, refuses. rewrite Ha, Hr, holds_nil. lia.
Qed.

Lemma server_socket_owns (f : list ipc_event → Z) (ev : Z → ipc_event) l :
  (∀ v, acquires (ev v) = sock_res v ∧ release_of (ev v) = None) →
  owns l (call f ev) (λ v, sock_res v ++ l).
Proof.
  intros Hv. apply owns_call. intros v r. destruct (Hv v) as [Ha Hr].
  unfold releases, refuses. rewrite Ha, Hr, holds_app, holds_nil. lia.
Qed.

Lemma close_sock_owns sock l : owns (RSock sock :: l) (close_sock sock) (λ _, l).
Proof. unfold close_sock, tell. owned_call. Qed.

(** ** The other threads *)

Lemma wake_owns path l : owns l (wake_server path) (λ _, l).
Proof.
  unfold wake_server. destruct (String.eqb path ""); [by apply owns_ret|].
  eapply owns_seq; [by apply server_socket_owns|]. intros sock. unfold sock_res. cbn beta.
  destruct (Z.ltb_spec sock 0), (Z.leb_spec 0 sock); try lia; [by apply owns_ret|].
  eapply owns_seq; [by apply neutral_owns|]. intros u. apply close_sock_owns.
Qed.

Lemma stop_step_owns path l : owns l (stop_step path) (λ _, l).
Proof.
  apply (owns_chosen (λ h, if has_event is_stopped h then ret tt
    else if has_event is_clear h then wake_server path ;;; tell tt (λ _, IStopped)
    else clear_running)). intros h.
  destruct (has_event is_stopped h); [by apply owns_ret|].
  destruct (has_event is_clear h); [|by apply neutral_owns].
  eapply owns_seq; [apply wake_owns|]. intros u. by apply neutral_owns.
Qed.

Lemma stop_steps_owns path n l : owns l (stop_steps path n) (λ _, l).
Proof.
  induction n as [|n IH]; [by apply owns_ret|]. eapply owns_seq; [apply stop_step_owns|done].
Qed.

Lemma stop_turn_owns path l : owns l (stop_turn stop_turns path) (λ _, l).
Proof. apply (owns_chosen (λ h, stop_steps path (stop_turns h))). intros h. apply stop_steps_owns. Qed.

Lemma running_owns path l : owns l (running stop_turns path) (λ _, l).
Proof.
  unfold running. eapply owns_seq; [apply stop_turn_owns|]. intros u. by apply neutral_owns.
Qed.

Definition accepted_res (o : option Z) : list ipc_res :=
  match o with Some sock => sock_res sock | None => [] end.

Lemma accepted_owns server_sock sock l :
  owns l (tell (Some sock) (λ _, IAccept server_sock sock)) (λ o, accepted_res o ++ l).
Proof.
  intros h v evs [-> ->]%call_inv. cbn [accepted_res].
  apply (server_socket_owns (λ _, sock) (IAccept server_sock) l (λ v, conj eq_refl eq_refl) h). done.
Qed.

Lemma accept_conn_owns path server_sock l :
  owns l (accept_conn stop_turns path server_sock) (λ o, accepted_res o ++ l).
Proof.
  unfold accept_conn. eapply owns_seq; [apply stop_turn_owns|]. intros u.
  intros h v evs R. destruct (i_accept h server_sock) as [sock|].
  { revert R. by apply accepted_owns. }
  revert R. refine (owns_seq _ _ l (λ _, l) (λ o, accepted_res o ++ l) _ _ h v evs);
    [by apply neutral_owns|]. intros u1.
  eapply owns_seq; [apply stop_steps_owns|]. intros u2 h' v' evs' R.
  destruct (i_accept h' server_sock) as [sock|]; [revert R; by apply accepted_owns|].
  apply ret_inv in R as [-> ->]. apply accounts_nil.
Qed.

(** What the other threads do to the contexts: only a client whose memory cannot be
    unregistered loses mappings. *)
Definition loses_mapping (r : seg_res) : Prop := ∃ p n, r = RMapping p n.
Abbreviation maps_owned := (owns_but loses_mapping map_refused).

Lemma unregister_refuses p h e evs :
  unregister_memory c p h = (Err e, evs) → Exists map_refused evs.
Proof.
  intros (evs' & R & ->)%lift_inv. unfold unregisterLocalMemory in R.
  apply bind_inv in R as (rc & e1 & e2 & [_ ->]%call_inv & R & ->).
  destruct (Z.eqb_spec rc 0); cbn [negb] in R.
  - by apply bind_inv in R as (? & ? & ? & _ & [? _]%ret_inv & _).
  - constructor. by exists p, rc.
Qed.

Lemma mappings_lossable shms : Forall loses_mapping (shms ≫= shm_mapping).
Proof.
  induction shms as [|shm shms IH]; [constructor|]. cbn. apply Forall_app. split; [|done].
  unfold shm_mapping. destruct (_ =? 0); repeat constructor. by eexists _, _.
Qed.

Lemma unmap_all_loses shms :
  maps_owned (shms ≫= shm_mapping) (unmap_all c shms) (λ _, []).
Proof.
  induction shms as [|shm shms IH]; [by apply owns_owns_but, owns_ret|]. cbn [unmap_all].
  change ((shm :: shms) ≫= shm_mapping) with (shm_mapping shm ++ (shms ≫= shm_mapping)).
  unfold shm_mapping at 1. destruct (shm_buffer shm =? 0); [exact IH|].
  intros h v evs (rc & e1 & e2 & E1 & E & ->)%bind_inv.
  apply bind_inv in E as (u & e3 & e4 & E2 & E & ->).
  assert (Hm : accounts ([RMapping (shm_buffer shm) (shm_size shm)] ++ (shms ≫= shm_mapping))
    (e1 ++ e3) (shms ≫= shm_mapping)).
  { eapply accounts_app; [by eapply on_segments_owns in E1|]. apply munmap_owns in E2.
    apply (accounts_frame (shms ≫= shm_mapping)) in E2. rewrite app_nil_r in E2.
    eapply accounts_proper; [| |reflexivity|exact E2]; [|done]. solve_Permutation. }
  rewrite app_assoc. destruct rc as [u'|e].
  - destruct (IH _ _ _ E) as (lost & Ha & Hl). exists lost. split; [by eapply accounts_app|].
    rewrite <- (app_nil_l lost). by apply loses_app; [apply loses_nil|].
  - apply ret_inv in E as [-> ->]. exists (shms ≫= shm_mapping). rewrite !app_nil_r.
    split; [done|]. split; [apply mappings_lossable|right]. apply Exists_app. left.
    by eapply unregister_refuses.
Qed.

Lemma unmap_shm_loses id ctxs :
  maps_owned (shm_res ctxs) (unmap_shm_internal c id ctxs) (λ r, shm_res r.2).
Proof.
  unfold unmap_shm_internal. pose proof (shm_res_split id ctxs) as Hs.
  destruct (ctxs !! id) as [context|]; [|by apply owns_owns_but, owns_ret]. cbn in Hs.
  eapply owns_but_pre; [|symmetry; rewrite Hs; apply Permutation_app_comm].
  eapply owns_but_seq; [apply owns_but_frame, unmap_all_loses|]. intros ok. cbn beta.
  apply owns_owns_but, owns_ret. by rewrite app_nil_r.
Qed.

Lemma handles_res id handles ctxs :
  shm_res (alter (λ x, MkShmContext (mapped_shms x) (client_buffer_allocator x) handles) id ctxs)
    ≡ₚ shm_res ctxs.
Proof.
  destruct (ctxs !! id) as [x|] eqn:E;
    [|rewrite alter_id; [done|]; intros y Hy; by rewrite E in Hy].
  rewrite <- (insert_id ctxs id x E) at 1. rewrite alter_insert_eq, shm_res_insert.
  rewrite (shm_res_split id ctxs), E. done.
Qed.

Lemma other_step_owns ctxs op : maps_owned (shm_res ctxs) (other_step c ctxs op) shm_res.
Proof.
  assert (Hret : ∀ r : expected unit * shm_contexts, maps_owned (shm_res r.2) (ret r.2) shm_res).
  { intros r. by apply owns_owns_but, owns_ret. }
  destruct op; cbn [other_step].
  - eapply owns_but_seq; [apply owns_owns_but, unregister_shm_owns|exact Hret].
  - eapply owns_but_seq; [apply unmap_shm_loses|exact Hret].
  - eapply owns_but_seq; [apply owns_owns_but, agent_unmap_owns|exact Hret].
  - apply owns_owns_but, owns_ret. symmetry. apply handles_res.
  - apply owns_owns_but, teardown_owns.
Qed.

Lemma run_others_owns ctxs l :
  owned (l ++ ctx_res ctxs) (run_others c others ctxs) (λ ctxs', l ++ ctx_res ctxs').
Proof.
  intros h v evs. unfold run_others.
  apply (ipc_map_owns_but (shm_res ctxs) _ shm_res l map_refused unregister_refused).
  - intros e He. by exists e.
  - apply owns_but_mfold. apply other_step_owns.
Qed.

(** ** The handlers and the loop *)

Lemma handle_register_owns fd req ctxs :
  owns (shm_res ctxs ++ received fd)
    (handle_ipc_shm_register c max_mr_size GPU_PREFIX kWildcardLocation create_allocator fd req ctxs)
    (λ r, shm_res r.2).
Proof using mmap_placed.
  unfold handle_ipc_shm_register, received at 1. destruct (fd <? 0) eqn:E.
  { apply owns_ret. by rewrite app_nil_r. }
  replace [RFd fd] with (received fd) by (unfold received; by rewrite E).
  eapply owns_seq; [by apply map_shm_owns|]. intros r. by apply owns_ret.
Qed.

(** A receive call that returns does what it does; one that blocks does nothing. *)
Lemma receive_owns {A} sock (m : iio A) pre (post : A → list ipc_res) :
  owns pre m post →
  owns pre (receive sock m) (λ o, match o with Some x => post x | None => pre end).
Proof.
  intros Hm. apply (owns_chosen (λ h, if i_recv_blocks h sock then tell None (λ _, IRecvBlocks sock)
    else let! x := m in ret (Some x))). intros h. destruct (i_recv_blocks h sock).
  - intros h' v evs [-> ->]%call_inv.
    by apply (neutral_owns (λ _, tt) (λ _, IRecvBlocks sock) pre (λ _, conj eq_refl eq_refl) h' tt).
  - eapply owns_seq; [exact Hm|]. intros x. by apply owns_ret.
Qed.

(** What is held when a handler returns, or blocks. *)
Definition served_res (ctxs : shm_contexts) (l : list ipc_res) (o : option shm_contexts) : list ipc_res :=
  l ++ ctx_res (default ctxs o).

Lemma serve_register_owns sock ctxs l :
  owned (l ++ ctx_res ctxs) (register sock ctxs) (served_res ctxs l).
Proof using mmap_placed.
  unfold serve_shm_register. eapply owns_but_seq.
  { apply owns_owns_but, (receive_owns sock _ _
      (λ r, (l ++ (RMap <$> received r.1)) ++ ctx_res ctxs)).
    apply owns_call. intros r x. cbn. unfold releases, refuses. cbn.
    rewrite !holds_app, holds_nil. lia. }
  intros [r|]; [|by apply owns_owns_but, owns_ret]. cbn beta iota.
  eapply owns_but_seq; [apply run_others_owns|]. intros ctxs1.
  eapply (owns_but_seq _ _ _ _ _ (λ s, l ++ ctx_res s.2)).
  { apply owns_owns_but. eapply owns_pre; [apply ipc_map_owns, handle_register_owns|].
    unfold ctx_res. rewrite fmap_app. solve_Permutation. }
  intros [st ctxs2]. cbn [fst snd]. apply owns_owns_but.
  destruct st as [status|]; [|by apply owns_ret].
  eapply owns_seq; [by apply neutral_owns|]. intros u. by apply owns_ret.
Qed.

Lemma fd_request_owns sock ctxs l :
  owned (l ++ ctx_res ctxs) (serve_shm_fd_request c others sock ctxs) (served_res ctxs l).
Proof.
  unfold serve_shm_fd_request. eapply owns_but_seq.
  { apply owns_owns_but, (receive_owns sock _ _ (λ _, l ++ ctx_res ctxs)). by apply neutral_owns. }
  intros [[[id hot]|]|]; [|by apply owns_owns_but, owns_ret..]. cbn beta iota.
  eapply owns_but_seq; [apply run_others_owns|]. intros ctxs1. apply owns_owns_but.
  apply owns_seq with (mid := λ _, l ++ ctx_res ctxs1).
  { destruct (_ && _); [by apply neutral_owns|by apply owns_ret]. }
  intros seg. destruct (handle_ipc_shm_fd_request _ _ _ _) as [[status size] fd].
  eapply owns_seq; [by apply neutral_owns|]. intros u. by apply owns_ret.
Qed.

Lemma serve_request_owns sock t ctxs l :
  owned (l ++ ctx_res ctxs)
    (serve_request c max_mr_size GPU_PREFIX kWildcardLocation create_allocator
       others sock t ctxs) (served_res ctxs l).
Proof using mmap_placed.
  unfold serve_request. destruct (t =? _); [apply serve_register_owns|].
  destruct (t =? _); [apply fd_request_owns|by apply owns_owns_but, owns_ret].
Qed.

(** The connection a blocked thread holds. *)
Definition blocked_res (s : loop_state) : list ipc_res :=
  match s with Blocked (Some sock) => [RSock sock] | _ => [] end.

Lemma loop_owns path server_sock fuel : ∀ ctxs l,
  owned (l ++ ctx_res ctxs) (loop fuel path server_sock ctxs)
    (λ r, blocked_res r.1 ++ l ++ ctx_res r.2).
Proof using mmap_placed.
  assert (Hclose : ∀ sock l, owned (RSock sock :: l) (close_sock sock) (λ _, l)).
  { intros sock l. apply owns_owns_but, close_sock_owns. }
  induction fuel as [|fuel IH]; intros ctxs l; cbn [ipc_loop]; [by apply owns_owns_but, owns_ret|].
  eapply owns_but_seq; [apply owns_owns_but, running_owns|]. intros on.
  destruct (negb on); [by apply owns_owns_but, owns_ret|].
  eapply owns_but_seq; [apply owns_owns_but, accept_conn_owns|]. intros [sock|]; cbn beta;
    [|by apply owns_owns_but, owns_ret].
  cbn [accepted_res]. unfold sock_res. destruct (sock <? 0); cbn [app].
  { eapply owns_but_seq; [apply owns_owns_but, running_owns|]. intros u. apply IH. }
  eapply owns_but_seq; [apply owns_owns_but, running_owns|]. intros on2. destruct (negb on2).
  { eapply owns_but_seq; [apply Hclose|]. intros u. by apply owns_owns_but, owns_ret. }
  eapply owns_but_seq; [by apply owns_owns_but, neutral_owns|]. intros u.
  eapply owns_but_seq.
  { apply owns_owns_but, (receive_owns sock _ _ (λ _, RSock sock :: l ++ ctx_res ctxs)).
    by apply neutral_owns. }
  intros [[t|]|]; cbn beta iota; [| |by apply owns_owns_but, owns_ret].
  - eapply owns_but_seq; [apply (serve_request_owns sock t ctxs (RSock sock :: l))|].
    unfold served_res. intros [ctxs1|]; cbn [default app]; [|by apply owns_owns_but, owns_ret].
    eapply owns_but_seq; [apply Hclose|]. intros u'. apply IH.
  - eapply owns_but_seq; [apply Hclose|]. intros u'. apply IH.
Qed.

(** What the server still holds: its socket and a connection, while the loop has not ended. *)
Lemma server_owns fuel path ctxs :
  owned (ctx_res ctxs) (server fuel path ctxs)
    (λ r, blocked_res r.1.1 ++ of_option RSock r.1.2 ++ ctx_res r.2).
Proof using mmap_placed.
  assert (Hclose : ∀ sock ctxs', owned (RSock sock :: ctx_res ctxs')
    (close_sock sock ;;; ret (Ended, None, ctxs'))
    (λ r : loop_state * option Z * shm_contexts,
       blocked_res r.1.1 ++ of_option RSock r.1.2 ++ ctx_res r.2)).
  { intros sock ctxs'. apply owns_owns_but. eapply owns_seq; [apply close_sock_owns|].
    intros u. by apply owns_ret. }
  unfold ipc_server_func. eapply owns_but_seq; [by apply owns_owns_but, server_socket_owns|]. intros sock.
  unfold sock_res. cbn beta. destruct (sock <? 0); [by apply owns_owns_but, owns_ret|]. cbn [app].
  eapply owns_but_seq; [by apply owns_owns_but, neutral_owns|]. intros rc.
  destruct (rc <? 0); [apply Hclose|].
  eapply owns_but_seq; [by apply owns_owns_but, neutral_owns|]. intros rc2.
  destruct (rc2 <? 0); [apply Hclose|].
  eapply owns_but_seq; [apply (loop_owns path sock fuel ctxs [RSock sock])|]. intros [ended ctxs1].
  cbn [fst snd app]. destruct ended; [apply Hclose|by apply owns_owns_but, owns_ret..].
Qed.

(** ** The server ends *)

(** What the system promises.  A connection to the address a socket listens on wakes the
    [accept] that waits on it; a receive call with a timeout returns; there is a socket for
    the thread that stops the server. *)
Context (accept_wakes : ∀ h1 s addr h2 sock,
  listens sock addr h1 → (∀ x y, IAccept x y ∉ h2) →
  i_accept (h1 ++ IConnect s addr :: h2) sock ≠ None).
Context (recv_times_out : ∀ h1 sock n h2,
  (∀ x, IAccept x sock ∉ h2) → i_recv_blocks (h1 ++ ITimeout sock n :: h2) sock = false).
Context (stop_socket : ∀ h, has_event is_clear h = true → 0 ≤ i_socket h).

(** A step of the stopping thread makes progress. *)
Lemma stop_step_run path sock h u evs :
  path ≠ "" → listening path sock h → stop_step path h = (u, evs) →
  listening path sock (h ++ evs) ∧
  ((has_event is_stopped h = true → pending path sock h) →
   has_event is_stopped (h ++ evs) = true → pending path sock (h ++ evs)) ∧
  has_event is_clear (h ++ evs) = true ∧
  (has_event is_clear h = true → has_event is_stopped (h ++ evs) = true) ∧ loads evs = 0%nat.
Proof using All.
  intros Hp Hl R. unfold stop_step in R. pose proof Hl as (Hli & Hs & Hc).
  destruct (has_event is_stopped h) eqn:Es.
  { apply ret_inv in R as [_ ->]. rewrite app_nil_r. rewrite Es. auto. }
  destruct (has_event is_clear h) eqn:Ec.
  - apply bind_inv in R as (u1 & e1 & e2 & R & [_ ->]%call_inv & ->). unfold wake_server in R.
    destruct (String.eqb_spec path ""); [done|].
    apply bind_inv in R as (s & e3 & e4 & [-> ->]%call_inv & R & ->).
    rewrite (proj2 (Z.leb_le _ _)) in R by (by apply stop_socket).
    apply bind_inv in R as (u2 & e5 & e6 & [_ ->]%call_inv & [_ ->]%call_inv & ->).
    unfold listening. rewrite !has_event_app, Ec, Hs. cbn. rewrite !orb_true_r.
    split_and!; try done; [by apply listens_later|]. intros _ _.
    exists (h ++ [ISocket (i_socket h)]), (i_socket h), [IClose (i_socket h); IStopped].
    rewrite <- app_assoc. cbn. split_and!; [done|by apply listens_later|].
    intros x y Hin. set_solver.
  - apply call_inv in R as [_ ->]. unfold listening. rewrite !has_event_app, Es, Hs. cbn.
    rewrite !orb_true_r. split_and!; try done. by apply listens_later.
Qed.

Lemma stop_steps_run path sock n : ∀ h u evs,
  path ≠ "" → listening path sock h → stop_steps path n h = (u, evs) →
  listening path sock (h ++ evs) ∧
  ((has_event is_stopped h = true → pending path sock h) →
   has_event is_stopped (h ++ evs) = true → pending path sock (h ++ evs)) ∧
  ((0 < n)%nat → has_event is_clear (h ++ evs) = true) ∧
  ((1 < n)%nat → has_event is_stopped (h ++ evs) = true) ∧ loads evs = 0%nat.
Proof using All.
  induction n as [|n IH]; intros h u evs Hp Hl R; cbn [stop_steps] in R.
  { apply ret_inv in R as [_ ->]. rewrite app_nil_r. split_and!; [done|auto|lia|lia|done]. }
  apply bind_inv in R as (u1 & e1 & e2 & R1 & R2 & ->).
  destruct (stop_step_run _ _ _ _ _ Hp Hl R1) as (Hl1 & Hp1 & Hc1 & _ & L1).
  destruct (IH _ _ _ Hp Hl1 R2) as (Hl2 & Hp2 & Hc2 & Hs2 & L2).
  rewrite app_assoc, loads_app, L1, L2. split_and!; [done|auto| | |done].
  - intros _. rewrite has_event_app, Hc1. done.
  - intros Hn. destruct n as [|n]; [lia|]. cbn [stop_steps] in R2.
    apply bind_inv in R2 as (u2 & e3 & e4 & R3 & R4 & ->).
    destruct (stop_step_run _ _ _ _ _ Hp Hl1 R3) as (_ & _ & _ & Hs3 & _).
    rewrite app_assoc, has_event_app, (Hs3 Hc1). done.
Qed.

Lemma running_run path sock h on evs :
  path ≠ "" → listening path sock h → running stop_turns path h = (on, evs) →
  listening path sock (h ++ evs) ∧ loads (h ++ evs) = S (loads h) ∧
  (on = true → has_event is_clear (h ++ evs) = false) ∧
  ((0 < stop_turns h)%nat ∨ has_event is_clear h = true → on = false).
Proof using All.
  intros Hp Hl R. apply bind_inv in R as (u & e1 & e2 & R1 & [-> ->]%call_inv & ->).
  destruct (stop_steps_run _ sock _ _ _ _ Hp Hl R1) as (Hl1 & _ & Hc1 & _ & L1).
  pose proof Hl1 as (_ & Hs1 & _). rewrite app_assoc. split_and!.
  - apply listening_later; [done|]. by repeat constructor.
  - rewrite !loads_app, L1. cbn. lia.
  - intros Hon. rewrite has_event_app. cbn. rewrite orb_false_r. apply not_true_iff_false.
    intros Hc. by rewrite running_cleared in Hon.
  - intros Hc. apply running_cleared; [done|]. destruct Hc as [Hc|Hc]; [auto|].
    by rewrite has_event_app, Hc.
Qed.

(** After the flag was read [accept] returns, and if it had to wait the flag is cleared. *)
Lemma accept_run path sock h o evs :
  path ≠ "" → listening path sock h → has_event is_clear h = false →
  accept_conn stop_turns path sock h = (o, evs) →
  is_Some o ∧ listening path sock (h ++ evs) ∧ loads evs = 0%nat.
Proof using All.
  intros Hp Hl Hc R. apply bind_inv in R as (u & e1 & e2 & R1 & R & ->).
  assert (Hns : has_event is_stopped h = true → pending path sock h).
  { intros Hs. destruct Hl as (_ & _ & Hsc). by rewrite Hsc in Hc. }
  destruct (stop_steps_run _ sock _ _ _ _ Hp Hl R1) as (Hl1 & Hp1 & _ & _ & L1).
  specialize (Hp1 Hns). rewrite app_assoc, loads_app, L1.
  assert (Hacc : ∀ h x e, listening path sock h →
    tell (Some x) (λ _, IAccept sock x) h = (o, e) →
    is_Some o ∧ listening path sock (h ++ e) ∧ loads e = 0%nat).
  { intros h' x e Hl' [-> ->]%call_inv. split_and!; [by eexists| |done].
    apply listening_later; [done|]. by repeat constructor. }
  destruct (i_accept (h ++ e1) sock) as [x|]; [by eapply Hacc|].
  apply bind_inv in R as (u1 & e3 & e4 & [_ ->]%call_inv & R & ->).
  apply bind_inv in R as (u2 & e5 & e6 & R2 & R & ->).
  assert (Hl2 : listening path sock ((h ++ e1) ++ [IAcceptBlocks sock])).
  { apply listening_later; [done|]. by repeat constructor. }
  destruct (stop_steps_run _ sock _ _ _ _ Hp Hl2 R2) as (Hl3 & Hp3 & _ & Hs3 & L3).
  destruct Hp3 as (h1 & s & h2 & Hh & Hli & Hna).
  { rewrite has_event_app. cbn. rewrite orb_false_r. intros Hs.
    apply pending_later; [auto|]. intros x y Hin. set_solver. }
  { apply Hs3. lia. }
  rewrite !app_assoc, !loads_app, L3. cbn [loads List.filter is_load length Nat.add].
  rewrite Hh in R. destruct (i_accept _ sock) as [x|] eqn:E.
  - apply Hacc in R; [|by rewrite <- Hh]. by rewrite <- !Hh in R.
  - by destruct (accept_wakes h1 s (server_address path) h2 sock Hli Hna).
Qed.

(** A receive call on a connection with a timeout returns. *)
Lemma receive_run {A} (m : iio A) h1 n h2 sock o evs :
  (∀ x, IAccept x sock ∉ h2) →
  receive sock m (h1 ++ ITimeout sock n :: h2) = (o, evs) →
  ∃ x, o = Some x ∧ m (h1 ++ ITimeout sock n :: h2) = (x, evs).
Proof using All.
  intros Hn R. unfold receive in R. rewrite recv_times_out in R by done.
  apply bind_inv in R as (x & e1 & e2 & R & [-> ->]%ret_inv & ->). exists x. by rewrite app_nil_r.
Qed.

(** What the handlers do is calm, and they do not block. *)
Lemma run_others_calm ctxs h v evs :
  run_others c others ctxs h = (v, evs) → Forall (λ e, calm e = true) evs.
Proof. intros (evs' & _ & ->)%lift_inv. by apply Forall_fmap, Forall_true. Qed.

Lemma serve_run sock t ctxs h1 n h2 o evs :
  (∀ x, IAccept x sock ∉ h2) →
  serve_request c max_mr_size GPU_PREFIX kWildcardLocation create_allocator others sock t ctxs
    (h1 ++ ITimeout sock n :: h2) = (o, evs) →
  is_Some o ∧ Forall (λ e, calm e = true) evs.
Proof using All.
  intros Hn. unfold serve_request. destruct (t =? _); [|destruct (t =? _)].
  - intros (r & e1 & e2 & R & R2 & ->)%bind_inv.
    apply receive_run in R as (x & -> & [_ ->]%call_inv); [|done].
    apply bind_inv in R2 as (ctxs1 & e3 & e4 & R%run_others_calm & R2 & ->).
    apply bind_inv in R2 as (s & e5 & e6 & (e & _ & ->)%lift_inv & R2 & ->).
    assert (Hc : Forall (λ e, calm e = true) (IMap <$> e)) by (by apply Forall_fmap, Forall_true).
    destruct s.1; [apply bind_inv in R2 as (? & ? & ? & [_ ->]%call_inv & R2 & ->)|];
      apply ret_inv in R2 as [-> ->]; (split; [by eexists|]); rewrite !Forall_app;
      split_and!; by repeat constructor.
  - intros (r & e1 & e2 & R & R2 & ->)%bind_inv.
    apply receive_run in R as (x & -> & [_ ->]%call_inv); [|done].
    destruct x as [[id hot]|];
      [|apply ret_inv in R2 as [-> ->]; split; [by eexists|by repeat constructor]].
    apply bind_inv in R2 as (ctxs1 & e3 & e4 & R%run_others_calm & R2 & ->).
    apply bind_inv in R2 as (seg & e5 & e6 & R3 & R2 & ->).
    assert (Hc : Forall (λ e, calm e = true) e5).
    { destruct (_ && _); [apply call_inv in R3 as [_ ->]|apply ret_inv in R3 as [_ ->]];
        by repeat constructor. }
    destruct (handle_ipc_shm_fd_request _ _ _ _) as [[status size] fd].
    apply bind_inv in R2 as (? & ? & ? & [_ ->]%call_inv & [-> ->]%ret_inv & ->).
    split; [by eexists|]. rewrite !Forall_app. split_and!; by repeat constructor.
  - intros [-> ->]%ret_inv. split; [by eexists|constructor].
Qed.

Lemma loop_ends n path sock fuel :
  path ≠ "" → (∀ h, (n ≤ loads h)%nat → (0 < stop_turns h)%nat) → ∀ h ctxs r evs,
  listening path sock h → (n < loads h + fuel)%nat → (0 < fuel)%nat →
  loop fuel path sock ctxs h = (r, evs) → r.1 = Ended.
Proof using All.
  intros Hp Hstop. induction fuel as [|fuel IH]; intros h ctxs r evs Hl Hn Hpos R; [lia|].
  cbn [ipc_loop] in R. apply bind_inv in R as (on & e1 & e2 & R1 & R & ->).
  destruct (running_run _ sock _ _ _ Hp Hl R1) as (Hl1 & L1 & Hon & Hoff).
  destruct on; cbn [negb] in R; [|by apply ret_inv in R as [-> _]].
  assert (loads h < n)%nat as Hlt.
  { apply Nat.nle_gt. intros Hle%Hstop. by specialize (Hoff (or_introl Hle)). }
  assert (next : ∀ h' ctxs' e, listening path sock h' → (loads (h ++ e1) ≤ loads h')%nat →
    loop fuel path sock ctxs' h' = (r, e) → r.1 = Ended).
  { intros h' ctxs' e Hl' Hh. apply IH; [done|lia..]. }
  apply bind_inv in R as (o & e3 & e4 & R2 & R & ->).
  destruct (accept_run _ _ _ _ _ Hp Hl1 (Hon eq_refl) R2) as ([client ->] & Hl2 & L2).
  destruct (client <? 0).
  { apply bind_inv in R as (u & e5 & e6 & R3 & R & ->).
    destruct (running_run _ sock _ _ _ Hp Hl2 R3) as (Hl3 & L3 & _).
    eapply next; [exact Hl3| |exact R]. rewrite L3, (loads_app _ e3). lia. }
  apply bind_inv in R as (on2 & e5 & e6 & R3 & R & ->).
  destruct (running_run _ sock _ _ _ Hp Hl2 R3) as (Hl3 & L3 & _). destruct (negb on2).
  { by apply bind_inv in R as (? & ? & ? & _ & [-> _]%ret_inv & _). }
  apply bind_inv in R as (u & e7 & e8 & [_ ->]%call_inv & R & ->).
  apply bind_inv in R as (t & e9 & e10 & R4 & R & ->).
  apply receive_run in R4 as (t' & -> & [_ ->]%call_inv); [|intros x; set_solver].
  assert (Hl4 : listening path sock (((((h ++ e1) ++ e3) ++ e5) ++ [ITimeout client 5]) ++
    [IRecvType client t'])).
  { do 2 (apply listening_later; [|by repeat constructor]). done. }
  assert (Hle : ∀ e, (loads (h ++ e1) ≤ loads ((((((h ++ e1) ++ e3) ++ e5) ++ [ITimeout client 5]) ++
    [IRecvType client t']) ++ e))%nat) by (intros e; rewrite !loads_app; lia).
  destruct t' as [t|].
  - apply bind_inv in R as (o & e11 & e12 & R5 & R & ->).
    rewrite <- app_assoc in R5.
    apply serve_run in R5 as [[ctxs1 ->] Hc]; [|intros x; set_solver].
    apply bind_inv in R as (u' & e13 & e14 & [_ ->]%call_inv & R & ->).
    eapply next; [| |exact R]; [|rewrite <- app_assoc; apply Hle].
    apply listening_later; [|by repeat constructor]. by apply listening_later.
  - apply bind_inv in R as (u' & e11 & e12 & [_ ->]%call_inv & R & ->).
    eapply next; [| |exact R]; [|apply Hle]. apply listening_later; [done|by repeat constructor].
Qed.

Lemma server_ends n fuel path ctxs r evs :
  path ≠ "" → (∀ h, (n ≤ loads h)%nat → (0 < stop_turns h)%nat) → (n < fuel)%nat →
  server fuel path ctxs [] = (r, evs) → r.1 = (Ended, None).
Proof using All.
  intros Hp Hstop Hf R. unfold ipc_server_func in R.
  apply bind_inv in R as (sock & e1 & e2 & [_ ->]%call_inv & R & ->). destruct (sock <? 0).
  { by apply ret_inv in R as [-> _]. }
  assert (Hclose : ∀ ctxs' h' e, (close_sock sock ;;; ret (Ended, None, ctxs')) h' = (r, e) →
    r.1 = (Ended, None)).
  { intros ctxs' h' e R'. by apply bind_inv in R' as (? & ? & ? & _ & [-> _]%ret_inv & _). }
  apply bind_inv in R as (rc & e3 & e4 & [_ ->]%call_inv & R & ->).
  destruct (Z.ltb_spec rc 0); [by eapply Hclose|].
  apply bind_inv in R as (rc2 & e5 & e6 & [_ ->]%call_inv & R & ->).
  destruct (Z.ltb_spec rc2 0); [by eapply Hclose|].
  apply bind_inv in R as (rl & e7 & e8 & Rl & R & ->).
  apply (loop_ends n) in Rl; [|done..| |cbn; lia|lia].
  - rewrite Rl in R. by eapply Hclose.
  - split; [|done]. exists rc, rc2. set_solver.
Qed.

(** C18: When [stop_ipc_server] is called - its steps coming at any points between those of
    the IPC thread, within some number of rounds or while [accept] waits - the thread ends,
    whatever its peers send and whatever the other threads do to the contexts: because a
    connection wakes [accept] and received data is waited for with a timeout (there must be
    a socket left to make the connection with).  Then every socket that was created or
    accepted has been closed exactly as often, and every descriptor and mapping received is
    closed, unmapped or recorded in the contexts, except that mappings may be lost (and only
    mappings) when another thread unmaps a client whose memory the transfer engine refuses
    to unregister. *)
Theorem ipc_server_ends_clean n fuel path ctxs r evs :
  path ≠ "" → (∀ h, (n ≤ loads h)%nat → (0 < stop_turns h)%nat) → (n < fuel)%nat →
  server fuel path ctxs [] = (r, evs) →
  r.1 = (Ended, None) ∧
  (∀ sock, times acquires evs (RSock sock) = times releases evs (RSock sock)) ∧
  ∃ lost, accounts (ctx_res ctxs) evs (lost ++ ctx_res r.2) ∧ Forall is_mapping lost ∧
    (lost = [] ∨ Exists unregister_refused evs).
Proof using All.
  intros Hp Hstop Hf R. pose proof (server_ends _ _ _ _ _ _ Hp Hstop Hf R) as Hend.
  destruct (server_owns _ _ _ _ _ _ R) as (lost & Ha & Hl & Hex).
  rewrite Hend in Ha. cbn [blocked_res fst snd of_option app] in Ha.
  split; [done|]. split; [|by exists lost]. intros sock. specialize (Ha (RSock sock)).
  unfold ctx_res in Ha. rewrite holds_app, !count_RMap_sock in Ha.
  assert (holds lost (RSock sock) = 0%nat) as Hz.
  { clear -Hl. induction Hl as [|x lost (p & n & ->) _ IH]; [done|]. by rewrite holds_cons, IH. }
  enough (times refuses evs (RSock sock) = 0%nat) by lia.
  clear. induction evs as [|e evs IH]; [done|].
  change (times refuses ([e] ++ evs) (RSock sock) = 0%nat). rewrite times_app, IH.
  unfold times. cbn [mbind list_bind]. rewrite app_nil_r, Nat.add_0_r.
  destruct e; try done. rewrite map_refuses. apply count_RMap_sock.
Qed.
End Spec.

(** ** Health and metrics *)

Lemma health_ok_iff code : http_status (get_health code) = status_ok ↔ code = HC_HEALTHY.
Proof. unfold get_health. cbn. destruct (Z.eqb_spec code HC_HEALTHY); naive_solver. Qed.

Lemma real_health_ok s ping_healthy :
  real_health_check s ping_healthy = HC_HEALTHY ↔
  su_closed s = false ∧ is_Some (rs_client (su_segments s)) ∧ ping_healthy = true.
Proof.
  unfold real_health_check. destruct (su_closed s); [naive_solver|].
  destruct (rs_client (su_segments s)); [|split; [done|by intros (_ & [x Hx] & _)]].
  destruct ping_healthy; naive_solver.
Qed.

Lemma tear_down_closes `{!SegmentServices, !MapServices} err keeps s h r evs :
  tearDownAll_internal err keeps s h = (r, evs) → su_closed r.2 = true.
Proof.
  intros R. unfold tearDownAll_internal in R. destruct (su_closed s) eqn:E.
  { by apply ret_inv in R as [-> _]. }
  cbv zeta in R. apply bind_inv in R as (u & e1 & e2 & _ & R & ->).
  destruct (rs_client _) as [c|]; [|by apply ret_inv in R as [-> _]].
  repeat (apply bind_inv in R as (? & ? & ? & _ & R & ->)).
  by apply ret_inv in R as [-> _].
Qed.

(** The health endpoint answers 200 exactly when the client is open, has a store
    client and its last ping succeeded, and 503 otherwise; after a tear-down it always
    reports that the client is not initialized, and a request for metrics is answered
    with the serialized metrics exactly when there is a store client that has some. *)
Theorem http_reports_state `{!SegmentServices, !MapServices} s ping_healthy m sm :
  (∃ resp, http_get s ping_healthy m sm "/health" = Some resp ∧
    http_status resp ∈ [status_ok; status_service_unavailable] ∧
    (http_status resp = status_ok ↔
       su_closed s = false ∧ is_Some (rs_client (su_segments s)) ∧ ping_healthy = true)) ∧
  (∀ err keeps h r evs, tearDownAll_internal err keeps s h = (r, evs) →
    http_get r.2 ping_healthy m sm "/health" = Some (get_health HC_NOT_INITIALIZED)) ∧
  (∀ text, (∃ resp, http_get s ping_healthy m sm "/metrics" = Some resp ∧
     http_status resp = status_ok ∧ body resp = text) ↔
     is_Some (rs_client (su_segments s)) ∧ m = Ok text).
Proof.
  split; [|split; [|intros text; split]].
  - eexists. split; [done|]. split; [|by rewrite health_ok_iff, real_health_ok].
    unfold get_health. cbn [http_status]. destruct (_ =? _); set_solver.
  - intros err keeps h r evs R. cbn. unfold real_health_check.
    by rewrite (tear_down_closes _ _ _ _ _ _ R).
  - intros (resp & [= <-] & Hs & Hb). revert Hs Hb. unfold get_metrics, get_metrics_with.
    destruct (bool_decide_reflect (is_Some (rs_client (su_segments s)))); [|done].
    destruct m; cbn; naive_solver.
  - intros [Hc ->]. eexists. split; [done|]. unfold get_metrics, get_metrics_with.
    by rewrite (bool_decide_eq_true_2 _ Hc).
Qed.

(** ** A session: one registration, then the server waits and is stopped *)

Definition is_connect (e : ipc_event) : bool := match e with IConnect _ _ => true | _ => false end.
Definition is_accept (e : ipc_event) : bool := match e with IAccept _ _ => true | _ => false end.
Definition times_out (sock : Z) (e : ipc_event) : bool :=
  match e with ITimeout s _ => s =? sock | _ => false end.

(** One client comes by itself; [stop_sock] is the socket of the stopping thread. *)
Definition sample_ipc (stop_sock : Z) : IpcServices := {|
  i_socket h := if has_event is_clear h then stop_sock else 3;
  i_bind _ _ _ := 0;
  i_listen _ _ := 0;
  i_accept h _ := if negb (has_event is_accept h) then Some 5
                  else if has_event is_connect h then Some 6 else None;
  i_recv_blocks h sock := negb (has_event (times_out sock) h);
  i_recv_type _ _ := Some IPC_SHM_REGISTER;
  i_recv_register _ _ := (7, MkShmRegister (1, 1) 4096 8192 true);
  i_recv_fd_request _ _ := None;
  i_hot_segment _ := None |}.

(** The stopping thread comes late. *)
Definition late_stop (h : list ipc_event) : nat := if (loads h <? 10)%nat then 0 else 1.

Abbreviation sample_server stop_sock :=
  (@ipc_server_func (counting_segments 0 true) shm_maps (sample_ipc stop_sock)
    sample_client 65536 "cuda:" "*" (λ _ _ _ _, None) (λ _, []) late_stop 11 "@mooncake.sock" ∅ []).

Lemma sample_accept_wakes stop_sock h1 s addr h2 sock :
  @i_accept (sample_ipc stop_sock) (h1 ++ IConnect s addr :: h2) sock ≠ None.
Proof.
  cbn. destruct (negb _); [done|]. rewrite has_event_app. cbn. by rewrite orb_true_r.
Qed.

Lemma sample_recv_returns stop_sock h1 sock n h2 :
  @i_recv_blocks (sample_ipc stop_sock) (h1 ++ ITimeout sock n :: h2) sock = false.
Proof. cbn. rewrite has_event_app. cbn. by rewrite Z.eqb_refl, orb_true_r. Qed.

(** Without a socket to connect with, [accept] is not woken and the thread never ends. *)
Example stop_without_socket_blocks :
  (sample_server (-1)).1.1 = (Blocked None, Some 3) ∧
  has_event is_stopped (sample_server (-1)).2 = true.
Proof. by vm_compute. Qed.

Lemma ipc_server_ends_clean_witness :
  (sample_server 4).1.1 = (Ended, None) ∧
  times acquires (sample_server 4).2 (RSock 5) = 1%nat ∧
  times releases (sample_server 4).2 (RSock 5) = 1%nat ∧
  has_event is_connect (sample_server 4).2 = true ∧
  shm_res (sample_server 4).1.2 = [RMapping 1048576 8192].
Proof.
  destruct (@ipc_server_ends_clean (counting_segments 0 true) shm_maps (sample_ipc 4) sample_client
    65536 "cuda:" "*" (λ _ _ _ _, None) (λ _, []) late_stop shm_maps_placed
    (λ h1 s addr h2 sock _ _, sample_accept_wakes 4 h1 s addr h2 sock)
    (λ h1 sock n h2 _, sample_recv_returns 4 h1 sock n h2)
    (λ h Hc, ltac:(cbn; rewrite Hc; lia)) 10 11 "@mooncake.sock" ∅
    (sample_server 4).1 (sample_server 4).2) as (Hend & Hsock & _).
  - done.
  - intros h Hh. unfold late_stop. rewrite (proj2 (Nat.ltb_ge _ _)) by exact Hh. lia.
  - lia.
  - apply surjective_pairing.
  - split; [exact Hend|]. rewrite <- (Hsock 5). clear. split_and!; vm_compute; reflexivity.
Defined.
