(* ===== verification/PyProcess.v ===== *)
(** * Clients of a Python process ([store_py.cpp], [ResourceTracker] of [real_client.cpp])

    A wrapper object holds shared pointers to its client: [store_], and [real_client_] for
    a real one; capsules hold further references.  The [ResourceTracker] keeps weak pointers
    to all clients and tears them down when the process exits or gets a signal.  A client is
    destroyed when its last reference goes.  The real clients are those of [RealSetup]; of a
    dummy client only set-up, tear-down and destruction are recorded ([DummyClient] models
    them). *)

From S2P Require Import Prelude CxxString StoreTypes ReplicaPolicy Segments DummyMap RangedRead RealSegments RealShm RealSetup.
From stdpp Require Import base strings list sets gmap fin_maps.
From Stdlib Require Import ZArith Lia.

#[local] Open Scope Z_scope.
#[local] Set Default Proof Using "Type".

(** ** State *)

Inductive client_obj :=
| RealObj (s : SetupState)
| DummyObj.

Definition is_real (o : client_obj) : bool := match o with RealObj _ => true | DummyObj => false end.

(** [MooncakeStorePyWrapper] *)
Record PyWrapper := MkPyWrapper {
  pw_store : option nat;                     (* store_ *)
  pw_real : option nat;                      (* real_client_ *)
  pw_use_dummy : bool }.                     (* use_dummy_client_ *)

Definition new_wrapper : PyWrapper := MkPyWrapper None None false.

Record Process := MkProcess {
  heap : gmap nat client_obj;                (* clients that are alive *)
  next_id : nat;
  wrappers : gmap nat PyWrapper;
  capsules : list nat;                       (* references held by capsules *)
  instances_ : list nat;                     (* weak pointers of the ResourceTracker *)
  cleaned_ : bool }.

Definition new_process : Process := MkProcess ∅ 0 ∅ [] [] false.

Definition set_heap (x : gmap nat client_obj) (p : Process) : Process :=
  MkProcess x (next_id p) (wrappers p) (capsules p) (instances_ p) (cleaned_ p).
Definition set_wrapper (w : nat) (x : PyWrapper) (p : Process) : Process :=
  MkProcess (heap p) (next_id p) (<[w := x]> (wrappers p)) (capsules p) (instances_ p) (cleaned_ p).
Definition set_capsules (x : list nat) (p : Process) : Process :=
  MkProcess (heap p) (next_id p) (wrappers p) x (instances_ p) (cleaned_ p).

Definition refs_of (w : PyWrapper) : list nat :=
  option_list (pw_store w) ++ option_list (pw_real w).

(** The strong references to clients. *)
Definition roots (p : Process) : list nat :=
  ((map_to_list (wrappers p)).*2 ≫= refs_of) ++ capsules p.

(** ** Events *)

Inductive proc_event :=
| KReal (id : nat) (e : setup_event)
| KDummySetup (id : nat) (rc : Z)
| KDummyTearDown (id : nat) (rc : Z)
| KCreate (id : nat) (real : bool)           (* the constructor *)
| KDestroy (id : nat).                       (* the destructor has run *)

Abbreviation kio A := (comp proc_event A).

Definition real_event (id : nat) (e : proc_event) : option setup_event :=
  match e with KReal i e => if decide (i = id) then Some e else None | _ => None end.

Definition on_real {A} (id : nat) (m : uio A) : kio A := lift_comp (KReal id) (real_event id) m.

Class DummyLifecycle := {
  k_dummy_setup : list proc_event → nat → Z;
  k_dummy_tear_down : list proc_event → nat → Z }.

Section Process.
Context `{!SegmentServices, !MapServices, !SetupServices, !DummyLifecycle}.
Context (ERR_ADDRESS_NOT_REGISTERED : Z) (storage_keeps_client : bool) (toInt : ErrorCode → Z).

Abbreviation tear_down := (tearDownAll_internal ERR_ADDRESS_NOT_REGISTERED storage_keeps_client).

(** [tl::expected<void>] as Python sees it. *)
Definition py_ret (r : expected unit) : Z := match r with Ok _ => 0 | Err e => toInt e end.

(** ** Reference counts *)

Definition destroy_obj (id : nat) (o : client_obj) : kio unit :=
  match o with
  | RealObj s =>
      on_real id (destroy_real ERR_ADDRESS_NOT_REGISTERED storage_keeps_client s) ;;; ret tt
  | DummyObj => ret tt
  end ;;;
  call (λ _, tt) (λ _, KDestroy id).

(** A reference to [id] is gone. *)
Definition release_ref (id : nat) (p : Process) : kio Process :=
  if bool_decide (id ∈ roots p) then ret p
  else match heap p !! id with
       | Some o => destroy_obj id o ;;; ret (set_heap (delete id (heap p)) p)
       | None => ret p
       end.

Definition release_refs (ids : list nat) (p : Process) : kio Process :=
  mfold (λ p id, release_ref id p) p ids.

(** Assignment to a member: the new value is there before the old one is released. *)
Definition assign_store (w : nat) (x : option nat) (dummy : bool) (p : Process) : kio Process :=
  let old := default new_wrapper (wrappers p !! w) in
  release_refs (option_list (pw_store old)) (set_wrapper w (MkPyWrapper x (pw_real old) dummy) p).

Definition assign_real (w : nat) (x : option nat) (p : Process) : kio Process :=
  let old := default new_wrapper (wrappers p !! w) in
  release_refs (option_list (pw_real old))
    (set_wrapper w (MkPyWrapper (pw_store old) x (pw_use_dummy old)) p).

(** [ResourceTracker::registerInstance] *)
Definition registerInstance (id : nat) (p : Process) : Process :=
  MkProcess (heap p) (next_id p) (wrappers p) (capsules p) (instances_ p ++ [id]) (cleaned_ p).

(** A new client on the heap. *)
Definition with_new (o : client_obj) (p : Process) : Process :=
  MkProcess (<[next_id p := o]> (heap p)) (S (next_id p)) (wrappers p) (capsules p) (instances_ p)
    (cleaned_ p).

Definition allocate (o : client_obj) (p : Process) : kio (nat * Process) :=
  call (λ _, tt) (λ _, KCreate (next_id p) (is_real o)) ;;; ret (next_id p, with_new o p).

(** [RealClient::create] *)
Definition create_real (p : Process) : kio (nat * Process) :=
  let! r := allocate (RealObj new_real) p in ret (r.1, registerInstance r.1 r.2).

Definition init_real_client (w : nat) (p : Process) : kio (nat * Process) :=
  let! r := create_real p in
  let! p := assign_store w (Some r.1) false r.2 in
  let! p := assign_real w (Some r.1) p in
  ret (r.1, registerInstance r.1 p).

(** Run an operation of a real client; nothing happens to another object. *)
Definition with_real {A} (id : nat) (m : SetupState → uio (A * SetupState)) (p : Process)
  : kio (option A * Process) :=
  match heap p !! id with
  | Some (RealObj s) =>
      let! r := on_real id (m s) in
      ret (Some r.1, set_heap (<[id := RealObj r.2]> (heap p)) p)
  | _ => ret (None, p)
  end.

(** ** The methods that change which client a wrapper holds *)

(** Both overloads of [setup]: [run] is the real client's set-up with their arguments;
    it returns [None] when the process ended. *)
Definition setup (w : nat) (run : SetupState → uio (option (expected unit) * SetupState))
    (p : Process) : kio (option Z * Process) :=
  let! r := init_real_client w p in
  let! s := with_real r.1 run r.2 in
  ret (option_map py_ret (mjoin s.1), s.2).

Definition setup_dummy (w : nat) (p : Process) : kio (Z * Process) :=
  let! r := allocate DummyObj p in
  let! p := assign_store w (Some r.1) true r.2 in
  let! p := assign_real w None p in
  let p := registerInstance r.1 p in
  let! rc := call (λ h, k_dummy_setup h r.1) (KDummySetup r.1) in
  ret (rc, p).

(** [init_all]: [run] is [initAll_internal] with the arguments of the call; a dummy client
    refuses.  [None]: the process ended, also because there was no client. *)
Definition init_all (w : nat) (run : SetupState → uio (option (expected unit) * SetupState))
    (p : Process) : kio (option Z * Process) :=
  match pw_store (default new_wrapper (wrappers p !! w)) with
  | None => ret (None, p)
  | Some id =>
      match heap p !! id with
      | Some DummyObj => ret (Some (-1), p)
      | _ => let! s := with_real id run p in ret (option_map py_ret (mjoin s.1), s.2)
      end
  end.

Definition tearDownAll (id : nat) (p : Process) : kio (Z * Process) :=
  match heap p !! id with
  | Some (RealObj s) =>
      let! r := on_real id (tear_down s) in
      ret (py_ret r.1, set_heap (<[id := RealObj r.2]> (heap p)) p)
  | Some DummyObj =>
      let! rc := call (λ h, k_dummy_tear_down h id) (KDummyTearDown id) in
      ret (rc, p)
  | None => ret (0, p)
  end.

(** [real_client_] keeps its reference. *)
Definition close (w : nat) (p : Process) : kio (Z * Process) :=
  let self := default new_wrapper (wrappers p !! w) in
  match pw_store self with
  | None => ret (0, p)
  | Some id =>
      let! r := tearDownAll id p in
      let! p := assign_store w None (pw_use_dummy self) r.2 in
      ret (r.1, p)
  end.

(** The destructor of the wrapper. *)
Definition drop_wrapper (w : nat) (p : Process) : kio Process :=
  let old := default new_wrapper (wrappers p !! w) in
  release_refs (option_list (pw_real old) ++ option_list (pw_store old))
    (MkProcess (heap p) (next_id p) (delete w (wrappers p)) (capsules p) (instances_ p) (cleaned_ p)).

(** [_get_pyclient_capsule], and the end of a capsule. *)
Definition make_pyclient_capsule (w : nat) (p : Process) : Process :=
  match pw_store (default new_wrapper (wrappers p !! w)) with
  | None => p
  | Some id => set_capsules (id :: capsules p) p
  end.

Definition drop_capsule (i : nat) (p : Process) : kio Process :=
  release_refs (option_list (capsules p !! i)) (set_capsules (delete i (capsules p)) p).

(** [ResourceTracker::cleanupAllResources], from the exit handler or the signal thread. *)
Definition cleanupAllResources (p : Process) : kio Process :=
  if cleaned_ p then ret p
  else
    mfold (λ p id, let! r := tearDownAll id p in ret r.2)
      (MkProcess (heap p) (next_id p) (wrappers p) (capsules p) (instances_ p) true) (instances_ p).
End Process.

(** [ResourceTracker::ResourceTracker]: the signal thread is started unless Python runs. *)
Definition starts_signal_thread (python_loaded : bool) : bool := negb python_loaded.

(** ** The signal thread: what a signal it waited for makes it do *)

Inductive signal_action :=
| WaitAgain                                  (* the loop goes on *)
| EndThread                                  (* asked to stop *)
| CleanAndRaise (sig : Z)                    (* clean up, default action, raise *)
| CleanAndExit.                              (* the signal cannot be unblocked: _exit *)

Definition SIGUSR1 : Z := 10.

Definition on_signal (sigwait_rc sig : Z) (stop_requested unblocked : bool) : signal_action :=
  if negb (sigwait_rc =? 0) then WaitAgain
  else if sig =? SIGUSR1 then (if stop_requested then EndThread else WaitAgain)
  else if unblocked then CleanAndRaise sig
  else CleanAndExit.

(** The first actions of the thread, until it ends. *)
Fixpoint signal_loop (waits : list (Z * Z * bool * bool)) : option signal_action :=
  match waits with
  | [] => None
  | (rc, sig, stop, unblocked) :: waits' =>
      match on_signal rc sig stop unblocked with
      | WaitAgain => signal_loop waits'
      | a => Some a
      end
  end.
