(* ===== verification/PyProcessSpec.v ===== *)
(** * What the reference counts and the tracker guarantee

    Over any sequence of operations of a Python process: a client lives exactly as long as
    it is referenced, each real client goes through a life of [RealTeardown] and has given
    back its resources when it is destroyed, and the tracker closes every client once. *)

From S2P Require Import Prelude CxxString StoreTypes ReplicaPolicy Samples Accounting Segments SegmentsSpec DummyMap RangedRead RealSegments RealSegmentsSpec RealChunks RealShm RealShmSpec RealSetup RealSetupSpec RealTeardown RealTeardownOrder RealServersSpec PyProcess.
From stdpp Require Import base strings list sets gmap fin_maps.
From Stdlib Require Import ZArith Lia.

#[local] Open Scope Z_scope.
#[local] Set Default Proof Using "Type".

(** ** The events of one client *)

Definition real_log (id : nat) (h : list proc_event) : list setup_event := omap (real_event id) h.

Lemma real_log_app id h1 h2 : real_log id (h1 ++ h2) = real_log id h1 ++ real_log id h2.
Proof. apply omap_app. Qed.

Lemma real_log_real id i evs :
  real_log id (KReal i <$> evs) = if decide (i = id) then evs else [].
Proof.
  induction evs as [|e evs IH]; cbn; [by case_decide|]. unfold real_log in IH. rewrite IH.
  by case_decide.
Qed.

(** The construction and the destruction of a client. *)
Inductive obj_step := Created (real : bool) | Destroyed.

Definition obj_event (id : nat) (e : proc_event) : option obj_step :=
  match e with
  | KCreate i real => if decide (i = id) then Some (Created real) else None
  | KDestroy i => if decide (i = id) then Some Destroyed else None
  | _ => None
  end.

Definition obj_log (id : nat) (h : list proc_event) : list obj_step := omap (obj_event id) h.

Lemma obj_log_app id h1 h2 : obj_log id (h1 ++ h2) = obj_log id h1 ++ obj_log id h2.
Proof. apply omap_app. Qed.

Lemma obj_log_real id i evs : obj_log id (KReal i <$> evs) = [].
Proof. unfold obj_log. by induction evs. Qed.

Lemma on_real_run {A} id (m : uio A) h v evs :
  on_real id m h = (v, evs) →
  ∃ es, m (real_log id h) = (v, es) ∧ evs = KReal id <$> es.
Proof. apply lift_inv. Qed.

(** ** Roots *)

Lemma elem_of_option_list {A} (x : A) (o : option A) : x ∈ option_list o ↔ o = Some x.
Proof. destruct o; cbn; [rewrite list_elem_of_singleton|rewrite elem_of_nil]; naive_solver. Qed.

Lemma elem_of_refs id x : id ∈ refs_of x ↔ pw_store x = Some id ∨ pw_real x = Some id.
Proof. unfold refs_of. by rewrite elem_of_app, !elem_of_option_list. Qed.

Lemma elem_of_roots p id :
  id ∈ roots p ↔ (∃ w x, wrappers p !! w = Some x ∧ id ∈ refs_of x) ∨ id ∈ capsules p.
Proof.
  unfold roots. rewrite elem_of_app, list_elem_of_bind. f_equiv. split.
  - intros (x & Hx & Hin). apply list_elem_of_fmap in Hin as ([w y] & -> & Hin).
    apply elem_of_map_to_list in Hin. by exists w, y.
  - intros (w & x & Hw & Hx). exists x. split; [done|]. apply list_elem_of_fmap.
    exists (w, x). split; [done|]. by apply elem_of_map_to_list.
Qed.

Lemma delete_beyond {A} (l : list A) i : l !! i = None → delete i l = l.
Proof. revert i. induction l as [|x l IH]; intros [|i] Hi; [done..|]. cbn. f_equal. by apply IH. Qed.

Section Spec.
Context `{!SegmentServices, !MapServices, !SetupServices, !DummyLifecycle}.
Context (max_mr_size page_size hugepage_size ERR_ADDRESS_NOT_REGISTERED : Z).
Context (GPU_PREFIX kWildcardLocation : string).
Context (use_nof use_hugepage : bool) (max_retries : Z) (cxl_env : option string) (cxl_base : Z).
Context (numa_nodes : list Z) (enable_http_server : bool).
Context (hasExplicitPort : string → bool) (getHostNameWithoutPort : string → string).
Context (buildHostNameWithPort : string → Z → string) (align_up : Z → Z → Z).
Context (storage_keeps_client : bool) (toInt : ErrorCode → Z).
Context (max_pos : 0 < max_mr_size) (pages_pos : 0 < page_size ∧ 0 < hugepage_size).
Context (align_ge : ∀ n a, 0 < a → n ≤ align_up n a).

Abbreviation life := (real_life max_mr_size page_size hugepage_size ERR_ADDRESS_NOT_REGISTERED
  GPU_PREFIX kWildcardLocation use_nof use_hugepage max_retries cxl_env cxl_base numa_nodes
  enable_http_server hasExplicitPort getHostNameWithoutPort buildHostNameWithPort align_up
  storage_keeps_client).
Abbreviation run_setup := (setup_internal max_mr_size page_size hugepage_size
  ERR_ADDRESS_NOT_REGISTERED GPU_PREFIX kWildcardLocation use_nof use_hugepage max_retries cxl_env
  cxl_base numa_nodes enable_http_server hasExplicitPort getHostNameWithoutPort
  buildHostNameWithPort align_up storage_keeps_client).
Abbreviation destroy := (destroy_obj ERR_ADDRESS_NOT_REGISTERED storage_keeps_client).
Abbreviation release := (release_ref ERR_ADDRESS_NOT_REGISTERED storage_keeps_client).
Abbreviation releases_of := (release_refs ERR_ADDRESS_NOT_REGISTERED storage_keeps_client).
Abbreviation tear_down_client := (tearDownAll ERR_ADDRESS_NOT_REGISTERED storage_keeps_client toInt).

(** Everything the calls acquired, they released. *)
Definition settled (evs : list setup_event) : Prop :=
  ∀ r : setup_res, times acquires evs r = times releases evs r.

(** ** The invariant; [D]: clients whose last reference may just have gone *)

Record inv_with (D : list nat) (p : Process) (h : list proc_event) : Prop := {
  inv_live : ∀ id, id ∈ roots p → is_Some (heap p !! id);
  inv_rooted : ∀ id o, heap p !! id = Some o → id ∈ roots p ∨ id ∈ D;
  inv_fresh : ∀ id o, heap p !! id = Some o → (id < next_id p)%nat;
  inv_unborn : ∀ id, (next_id p ≤ id)%nat → real_log id h = [] ∧ obj_log id h = [];
  inv_alive : ∀ id o, heap p !! id = Some o → obj_log id h = [Created (is_real o)];
  inv_dead : ∀ id, (id < next_id p)%nat → heap p !! id = None →
    ∃ real, obj_log id h = [Created real; Destroyed];
  inv_life : ∀ id s, heap p !! id = Some (RealObj s) → life s (real_log id h);
  inv_settled : ∀ id, heap p !! id = None → settled (real_log id h);
  inv_dummy : ∀ id, heap p !! id = Some DummyObj → real_log id h = [] }.

Abbreviation inv := (inv_with []).

Lemma settled_nil : settled [].
Proof. done. Qed.

Lemma destroyed_settled s log s' es :
  life s log → destroy_real ERR_ADDRESS_NOT_REGISTERED storage_keeps_client s log = (s', es) →
  settled (log ++ es).
Proof using max_pos pages_pos align_ge.
  intros Hl R r. apply real_life_accounts in Hl as [Ha Hok]; [|done..].
  pose proof (accounts_app _ _ _ _ _ Ha (destroy_real_owns _ _ s Hok _ _ _ R) r) as Hr.
  rewrite nothing_refused, !holds_nil in Hr. lia.
Qed.

(** The events of destroying a client. *)
Lemma destroy_obj_run id o h u evs :
  destroy id o h = (u, evs) →
  (∀ i, i ≠ id → real_log i (h ++ evs) = real_log i h ∧ obj_log i (h ++ evs) = obj_log i h) ∧
  (∀ s, o = RealObj s → life s (real_log id h) → settled (real_log id (h ++ evs))) ∧
  (o = DummyObj → real_log id (h ++ evs) = real_log id h) ∧
  obj_log id (h ++ evs) = obj_log id h ++ [Destroyed].
Proof using max_pos pages_pos align_ge.
  intros R. apply bind_inv in R as (v & e1 & e2 & R1 & [_ ->]%call_inv & ->).
  assert (Hdone : ∀ i, real_log i [KDestroy id] = [] ∧
    obj_log i [KDestroy id] = if decide (id = i) then [Destroyed] else []).
  { intros i. split; [done|]. unfold obj_log. cbn. by case_decide. }
  assert (∃ es, e1 = KReal id <$> es ∧
    match o with
    | RealObj s => ∃ s', destroy_real ERR_ADDRESS_NOT_REGISTERED storage_keeps_client s (real_log id h) = (s', es)
    | DummyObj => es = []
    end) as (es & -> & He).
  { destruct o as [s|]; [|apply ret_inv in R1 as [_ ->]; by exists []].
    apply bind_inv in R1 as (s' & ? & ? & (es & R1 & ->)%on_real_run & [_ ->]%ret_inv & ->).
    rewrite app_nil_r. exists es. split; [done|]. by exists s'. }
  split_and!.
  - intros i Hi. rewrite !real_log_app, !obj_log_app, real_log_real, obj_log_real,
      (proj1 (Hdone i)), (proj2 (Hdone i)), !decide_False by done. by rewrite !app_nil_r.
  - intros s -> Hl. destruct He as [s' R]. rewrite !real_log_app, real_log_real, decide_True,
      (proj1 (Hdone id)), app_nil_r by done. by eapply destroyed_settled.
  - intros ->. rewrite !real_log_app, He, (proj1 (Hdone id)). cbn. by rewrite app_nil_r.
  - by rewrite !obj_log_app, obj_log_real, (proj2 (Hdone id)), decide_True.
Qed.

(** Everything but the heap, from which clients may be gone. *)
Record same_refs (p p' : Process) : Prop := {
  same_wrappers : wrappers p' = wrappers p;
  same_capsules : capsules p' = capsules p;
  same_instances : instances_ p' = instances_ p;
  same_next : next_id p' = next_id p;
  same_cleaned : cleaned_ p' = cleaned_ p;
  same_heap : heap p' ⊆ heap p }.

Lemma same_refs_refl p : same_refs p p.
Proof. by split. Qed.

Lemma same_refs_trans p1 p2 p3 : same_refs p1 p2 → same_refs p2 p3 → same_refs p1 p3.
Proof. intros [? ? ? ? ? ?] [? ? ? ? ? ?]. split; [congruence..|by etrans]. Qed.

Lemma same_roots p p' : same_refs p p' → roots p' = roots p.
Proof. intros [E1 E2 _ _ _ _]. unfold roots. by rewrite E1, E2. Qed.

Lemma release_inv id D p h p' evs :
  inv_with (id :: D) p h → release id p h = (p', evs) →
  inv_with D p' (h ++ evs) ∧ same_refs p p'.
Proof using max_pos pages_pos align_ge.
  intros I R. unfold release_ref in R. destruct (bool_decide_reflect (id ∈ roots p)) as [Hr|Hr].
  { apply ret_inv in R as [-> ->]. rewrite app_nil_r. split; [|apply same_refs_refl].
    split; try apply I. intros i o Hi.
    destruct (inv_rooted _ _ _ I i o Hi) as [|[->|]%elem_of_cons]; auto. }
  destruct (heap p !! id) as [o|] eqn:Ho; cycle 1.
  { apply ret_inv in R as [-> ->]. rewrite app_nil_r. split; [|apply same_refs_refl].
    split; try apply I. intros i o Hi.
    destruct (inv_rooted _ _ _ I i o Hi) as [|[->|]%elem_of_cons]; auto. congruence. }
  apply bind_inv in R as (u & e1 & e2 & (Hother & Hreal & Hdummy & Hend)%destroy_obj_run & [-> ->]%ret_inv & ->).
  rewrite app_nil_r. split; [|split; try done; cbn; apply delete_subseteq].
  assert (Hne : ∀ i x, delete id (heap p) !! i = Some x → i ≠ id ∧ heap p !! i = Some x).
  { intros i x. rewrite lookup_delete_Some. naive_solver. }
  split; cbn.
  - intros i Hi. rewrite lookup_delete_ne; [by apply I|]. by intros <-.
  - intros i x [Hi Hx]%Hne. destruct (inv_rooted _ _ _ I i x Hx) as [|[->|]%elem_of_cons]; auto. done.
  - intros i x [_ Hx]%Hne. by eapply I.
  - intros i Hi. destruct (Hother i) as [-> ->]; [|by apply I]. intros ->.
    apply (inv_fresh _ _ _ I) in Ho. lia.
  - intros i x [Hi Hx]%Hne. rewrite (proj2 (Hother i Hi)). by apply I.
  - intros i Hi Hx. destruct (decide (i = id)) as [->|Hne'].
    + exists (is_real o). by rewrite Hend, (inv_alive _ _ _ I id o Ho).
    + rewrite lookup_delete_ne in Hx by done. rewrite (proj2 (Hother i Hne')). by apply I.
  - intros i s [Hi Hx]%Hne. rewrite (proj1 (Hother i Hi)). by apply I.
  - intros i Hi. destruct (decide (i = id)) as [->|Hne'].
    + destruct o as [s|]; [by eapply Hreal; [|apply I]|].
      rewrite Hdummy by done. by rewrite (inv_dummy _ _ _ I).
    + rewrite lookup_delete_ne in Hi by done. rewrite (proj1 (Hother i Hne')). by apply I.
  - intros i [Hi Hx]%Hne. rewrite (proj1 (Hother i Hi)). by eapply inv_dummy.
Qed.

Lemma releases_inv ids D : ∀ p h p' evs,
  inv_with (ids ++ D) p h → releases_of ids p h = (p', evs) →
  inv_with D p' (h ++ evs) ∧ same_refs p p'.
Proof using max_pos pages_pos align_ge.
  induction ids as [|id ids IH]; intros p h p' evs I R.
  { unfold release_refs in R. cbn [mfold] in R. apply ret_inv in R as [-> ->]. rewrite app_nil_r. split; [exact I|apply same_refs_refl]. }
  apply bind_inv in R as (p1 & e1 & e2 & R1 & R & ->).
  apply release_inv with (D := ids ++ D) in R1 as [I1 S1]; [|done].
  apply IH in R as [I2 S2]; [|done]. rewrite app_assoc. split; [done|].
  by eapply same_refs_trans.
Qed.

(** ** Replacing the references of a wrapper *)

Lemma refs_rooted p w x id : wrappers p !! w = Some x → id ∈ refs_of x → id ∈ roots p.
Proof. intros Hw Hi. apply elem_of_roots. left. by exists w, x. Qed.

Lemma wrapper_rooted p w id : id ∈ refs_of (default new_wrapper (wrappers p !! w)) → id ∈ roots p.
Proof.
  destruct (wrappers p !! w) as [x|] eqn:E; [by apply refs_rooted with (w := w)|].
  by intros Hid%elem_of_nil.
Qed.

(** The new references are live ones; what the wrapper held may have lost its last. *)
Lemma set_wrapper_inv w x lost D p h :
  inv_with D p h →
  (∀ id, id ∈ refs_of x → is_Some (heap p !! id)) →
  (∀ id, id ∈ refs_of (default new_wrapper (wrappers p !! w)) → id ∈ refs_of x ∨ id ∈ lost) →
  (∀ id, id ∈ D → id ∈ refs_of x ∨ id ∈ lost) →
  inv_with lost (set_wrapper w x p) h.
Proof.
  intros I Hx Hold HD. split; try apply I; cbn.
  - intros id Hid. apply elem_of_roots in Hid as [(v & y & Hv & Hid)|Hid]; cbn in *.
    + apply lookup_insert_Some in Hv as [[-> <-]|[Hv Hy]]; [by apply Hx|].
      apply (inv_live _ _ _ I). by eapply refs_rooted.
    + apply (inv_live _ _ _ I). apply elem_of_roots. by right.
  - intros id o Ho.
    assert (Hnew : id ∈ refs_of x → id ∈ roots (set_wrapper w x p)).
    { intros Hid. apply elem_of_roots. left. exists w, x. cbn. by rewrite lookup_insert_eq. }
    destruct (inv_rooted _ _ _ I id o Ho) as [Hid|Hid].
    + apply elem_of_roots in Hid as [(v & y & Hv & Hid)|Hid].
      * destruct (decide (v = w)) as [->|Hne].
        -- destruct (Hold id) as [|]; [by rewrite Hv|auto..].
        -- left. apply elem_of_roots. left. exists v, y. cbn. by rewrite lookup_insert_ne.
      * left. apply elem_of_roots. by right.
    + destruct (HD id Hid); auto.
Qed.

Lemma assign_store_inv w x dummy D p h p' evs :
  inv_with D p h → (∀ id, x = Some id → is_Some (heap p !! id)) → (∀ id, id ∈ D → x = Some id) →
  assign_store ERR_ADDRESS_NOT_REGISTERED storage_keeps_client w x dummy p h = (p', evs) →
  inv p' (h ++ evs) ∧
  same_refs (set_wrapper w (MkPyWrapper x (pw_real (default new_wrapper (wrappers p !! w))) dummy) p) p'.
Proof using max_pos pages_pos align_ge.
  intros I Hx HD R. unfold assign_store in R. set (old := default new_wrapper _) in *.
  eapply releases_inv with (D := []); [|exact R]. rewrite app_nil_r. apply set_wrapper_inv with (D := D); [done|..].
  - intros id. rewrite elem_of_refs. cbn. intros [->|Hid]; [by apply Hx|].
    apply (inv_live _ _ _ I). eapply wrapper_rooted, elem_of_refs. right. exact Hid.
  - intros id. rewrite !elem_of_refs, elem_of_option_list. cbn. naive_solver.
  - intros id Hid%HD. left. apply elem_of_refs. by left.
Qed.

Lemma assign_real_inv w x p h p' evs :
  inv p h → (∀ id, x = Some id → is_Some (heap p !! id)) →
  assign_real ERR_ADDRESS_NOT_REGISTERED storage_keeps_client w x p h = (p', evs) →
  inv p' (h ++ evs) ∧
  same_refs (set_wrapper w (MkPyWrapper (pw_store (default new_wrapper (wrappers p !! w))) x
                              (pw_use_dummy (default new_wrapper (wrappers p !! w)))) p) p'.
Proof using max_pos pages_pos align_ge.
  intros I Hx R. unfold assign_real in R. set (old := default new_wrapper _) in *.
  eapply releases_inv with (D := []); [|exact R]. rewrite app_nil_r. apply set_wrapper_inv with (D := []); [done|..].
  - intros id. rewrite elem_of_refs. cbn. intros [Hid| ->]; [|by apply Hx].
    apply (inv_live _ _ _ I). eapply wrapper_rooted, elem_of_refs. left. exact Hid.
  - intros id. rewrite !elem_of_refs, elem_of_option_list. cbn. naive_solver.
  - intros id Hid. by apply elem_of_nil in Hid.
Qed.

(** ** The invariant between operations *)

Definition tracked (p : Process) : Prop := ∀ id, is_Some (heap p !! id) → id ∈ instances_ p.

(** The kind of client a wrapper says it has. *)
Definition wrapper_ok (p : Process) (x : PyWrapper) : Prop :=
  (∀ id, pw_real x = Some id → ∃ s, heap p !! id = Some (RealObj s)) ∧
  (∀ id, pw_store x = Some id →
     if pw_use_dummy x then heap p !! id = Some DummyObj ∧ pw_real x = None
     else pw_real x = Some id).

Definition wrappers_ok (p : Process) : Prop := ∀ w x, wrappers p !! w = Some x → wrapper_ok p x.

Record proc_inv (p : Process) (h : list proc_event) : Prop := {
  pi_inv : inv p h;
  pi_tracked : tracked p;
  pi_wrappers : wrappers_ok p }.

(** What is referenced survives. *)
Lemma survives p p' h id o :
  same_refs p p' → inv p' h → heap p !! id = Some o → id ∈ roots p → heap p' !! id = Some o.
Proof.
  intros S I Ho Hr. destruct (inv_live _ _ _ I id) as [o' Ho'].
  { by rewrite (same_roots _ _ S). }
  pose proof (lookup_weaken _ _ _ _ Ho' (same_heap _ _ S)) as E. congruence.
Qed.

(** A wrapper of the result keeps its kind of client. *)
Lemma wrapper_ok_survives p p' h w x :
  same_refs p p' → inv p' h → wrappers p !! w = Some x → wrapper_ok p x → wrapper_ok p' x.
Proof.
  intros S I Hw [Hr Hs].
  assert (Hroot : ∀ id, pw_store x = Some id ∨ pw_real x = Some id → id ∈ roots p).
  { intros id Hid. eapply refs_rooted; [done|]. by apply elem_of_refs. }
  split; intros id Hid.
  - destruct (Hr id Hid) as [s Ho]. exists s. eapply survives; [done..|]. apply Hroot. by right.
  - specialize (Hs id Hid). destruct (pw_use_dummy x); [|done]. destruct Hs as [Ho Hn].
    split; [|done]. eapply survives; [done..|]. apply Hroot. by left.
Qed.

Lemma tracked_survives p p' : same_refs p p' → tracked p → tracked p'.
Proof.
  intros S T id [o Ho]. rewrite (same_instances _ _ S). apply T. exists o.
  exact (lookup_weaken _ _ _ _ Ho (same_heap _ _ S)).
Qed.

(** ** Creating a client *)

Lemma allocate_inv o p h :
  inv p h → (o = RealObj new_real ∨ o = DummyObj) →
  inv_with [next_id p] (with_new o p) (h ++ [KCreate (next_id p) (is_real o)]).
Proof.
  intros I Ho.
  assert (Hlog : ∀ i, real_log i (h ++ [KCreate (next_id p) (is_real o)]) = real_log i h).
  { intros i. rewrite real_log_app. apply app_nil_r. }
  assert (Hobj : ∀ i, obj_log i (h ++ [KCreate (next_id p) (is_real o)])
    = obj_log i h ++ if decide (next_id p = i) then [Created (is_real o)] else []).
  { intros i. rewrite obj_log_app. unfold obj_log at 2. cbn. by case_decide. }
  assert (Hnew : heap p !! next_id p = None).
  { destruct (heap p !! next_id p) eqn:E; [|done]. apply (inv_fresh _ _ _ I) in E. lia. }
  split; cbn.
  - intros id Hid. apply (inv_live _ _ _ I) in Hid as [x Hx].
    destruct (decide (id = next_id p)) as [->|Hne]; [congruence|].
    rewrite lookup_insert_ne by done. by exists x.
  - intros id x Hx. apply lookup_insert_Some in Hx as [[<- _]|[_ Hx]].
    + right. by left.
    + apply (inv_rooted _ _ _ I) in Hx as [|Hx]; [by left|by apply elem_of_nil in Hx].
  - intros id x Hx. apply lookup_insert_Some in Hx as [[<- _]|[_ Hx]]; [lia|].
    apply (inv_fresh _ _ _ I) in Hx. lia.
  - intros id Hid. rewrite Hlog, Hobj, decide_False, app_nil_r by lia. apply (inv_unborn _ _ _ I). lia.
  - intros id x Hx. rewrite Hobj. apply lookup_insert_Some in Hx as [[<- <-]|[Hne Hx]].
    + rewrite decide_True by done. by rewrite (proj2 (inv_unborn _ _ _ I _ (le_n _))).
    + rewrite decide_False, app_nil_r by done. by apply (inv_alive _ _ _ I).
  - intros id Hid [Hx Hne]%lookup_insert_None. rewrite Hobj, decide_False, app_nil_r by done.
    apply (inv_dead _ _ _ I); [|done]. lia.
  - intros id s Hx. rewrite Hlog. apply lookup_insert_Some in Hx as [[<- E]|[_ Hx]]; [|by apply I].
    rewrite (proj1 (inv_unborn _ _ _ I _ (le_n _))). destruct Ho as [->| ->]; [|done].
    injection E as <-. apply life_new.
  - intros id [Hx _]%lookup_insert_None. rewrite Hlog. by apply (inv_settled _ _ _ I).
  - intros id Hx. rewrite Hlog. apply lookup_insert_Some in Hx as [[<- E]|[_ Hx]]; [|by eapply inv_dummy].
    by apply (inv_unborn _ _ _ I).
Qed.

(** Events of dummy clients do not matter either. *)
Lemma inv_log D p h h' :
  (∀ i, real_log i h' = real_log i h ∧ obj_log i h' = obj_log i h) → inv_with D p h → inv_with D p h'.
Proof.
  intros Hl I. split; try apply I; intros i; destruct (Hl i) as [E1 E2]; rewrite ?E1, ?E2.
  - apply (inv_unborn _ _ _ I).
  - apply (inv_alive _ _ _ I).
  - apply (inv_dead _ _ _ I).
  - apply (inv_life _ _ _ I).
  - apply (inv_settled _ _ _ I).
  - apply (inv_dummy _ _ _ I).
Qed.

(** The tracker does not matter for the rest. *)
Lemma register_inv D p h id : inv_with D p h → inv_with D (registerInstance id p) h.
Proof. intros I. split; apply I. Qed.

Lemma tracked_new o p :
  tracked p → ∀ id, is_Some (heap (with_new o p) !! id) → id ∈ instances_ p ∨ id = next_id p.
Proof.
  intros T id. cbn. destruct (decide (id = next_id p)) as [->|Hne]; [by right|].
  rewrite lookup_insert_ne by done. left. by apply T.
Qed.

(** The other wrappers keep what they have. *)
Lemma wrapper_ok_allocated o p0 p h v x :
  proc_inv p0 h → heap p = heap (with_new o p0) → wrappers p0 !! v = Some x → wrapper_ok p x.
Proof.
  intros PI Hheap Hv. destruct (pi_wrappers _ _ PI v x Hv) as [Hr Hs].
  assert (Hkeep : ∀ i y, heap p0 !! i = Some y → heap p !! i = Some y).
  { intros i y Hi. rewrite Hheap. cbn. rewrite lookup_insert_ne; [done|].
    intros <-. apply (inv_fresh _ _ _ (pi_inv _ _ PI)) in Hi. by apply Nat.lt_irrefl in Hi. }
  split; intros i Hi; [destruct (Hr i Hi) as [s0 Hs0]; eauto|].
  specialize (Hs i Hi). destruct (pw_use_dummy x); [|done]. destruct Hs as [Hd Hn].
  split; [by apply Hkeep|done].
Qed.

(** A new client that takes the place of what wrapper [w] had. *)
Lemma install_inv o w dummy real p0 p hp h p1 h1 e1 p2 e2 :
  let id := next_id p0 in
  (o = RealObj new_real ∧ dummy = false ∧ real = Some id ∨
   o = DummyObj ∧ dummy = true ∧ real = None) →
  proc_inv p0 hp → heap p = heap (with_new o p0) → wrappers p = wrappers p0 →
  inv_with [id] p h →
  assign_store ERR_ADDRESS_NOT_REGISTERED storage_keeps_client w (Some id) dummy p h = (p1, e1) →
  h1 = h ++ e1 →
  assign_real ERR_ADDRESS_NOT_REGISTERED storage_keeps_client w real p1 h1 = (p2, e2) →
  inv p2 (h1 ++ e2) ∧ heap p2 !! id = Some o ∧ instances_ p2 = instances_ p ∧
  cleaned_ p2 = cleaned_ p ∧ wrappers_ok p2 ∧ heap p2 ⊆ heap p ∧
  wrappers p2 !! w = Some (MkPyWrapper (Some id) real dummy).
Proof using max_pos pages_pos align_ge.
  intros id Ho PI Hheap Hwr I R1 -> R2.
  assert (Hid : heap p !! id = Some o) by (rewrite Hheap; cbn; apply lookup_insert_eq).
  apply assign_store_inv with (D := [id]) in R1 as [I1 S1]; [|done|naive_solver|].
  2: { intros i Hi%list_elem_of_singleton. by subst. }
  set (w1 := MkPyWrapper _ _ _) in S1.
  assert (Hw1 : wrappers p1 !! w = Some w1).
  { rewrite (same_wrappers _ _ S1). cbn. apply lookup_insert_eq. }
  assert (Hid1 : heap p1 !! id = Some o).
  { eapply survives; [done..|]. eapply refs_rooted; [cbn; apply lookup_insert_eq|].
    apply elem_of_refs. by left. }
  apply assign_real_inv in R2 as [I2 S2]; [|done|].
  2: { intros i. destruct Ho as [(_ & _ & ->)|(_ & _ & ->)]; [|done]. intros [= <-]. by exists o. }
  rewrite Hw1 in S2. cbn in S2. set (w2 := MkPyWrapper _ _ _) in S2.
  assert (Hw2 : wrappers p2 !! w = Some w2).
  { rewrite (same_wrappers _ _ S2). cbn. apply lookup_insert_eq. }
  assert (Hid2 : heap p2 !! id = Some o).
  { eapply survives; [done..|]. eapply refs_rooted; [cbn; apply lookup_insert_eq|].
    apply elem_of_refs. by left. }
  split_and!; [done|done|..|done].
  - rewrite (same_instances _ _ S2). exact (same_instances _ _ S1).
  - rewrite (same_cleaned _ _ S2). exact (same_cleaned _ _ S1).
  - intros v x Hv. rewrite (same_wrappers _ _ S2) in Hv. cbn in Hv.
    apply lookup_insert_Some in Hv as [[<- <-]|[Hne Hv]].
    + destruct Ho as [(-> & -> & ->)|(-> & -> & ->)]; split; cbn; naive_solver.
    + pose proof Hv as Hv1. rewrite (same_wrappers _ _ S1) in Hv1. cbn in Hv1.
      rewrite lookup_insert_ne, Hwr in Hv1 by done.
      pose proof (wrapper_ok_allocated _ _ _ _ _ _ PI Hheap Hv1) as Hok.
      eapply wrapper_ok_survives with (p := set_wrapper w w2 p1); [exact S2|exact I2| |].
      { cbn. by rewrite lookup_insert_ne. }
      change (wrapper_ok p1 x).
      eapply (wrapper_ok_survives (set_wrapper w w1 p)); [exact S1|exact I1| |exact Hok].
      cbn. rewrite lookup_insert_ne by done. by rewrite Hwr.
  - etrans; [exact (same_heap _ _ S2)|exact (same_heap _ _ S1)].
Qed.

Lemma installed_tracked o p0 p2 :
  tracked p0 → heap p2 ⊆ heap (with_new o p0) → instances_ p0 ⊆ instances_ p2 →
  next_id p0 ∈ instances_ p2 → tracked p2.
Proof.
  intros T Hh Hi Hn id [x Hx]. destruct (tracked_new o p0 T id) as [Hid| ->]; [|by apply Hi|done].
  exists x. exact (lookup_weaken _ _ _ _ Hx Hh).
Qed.

Lemma init_real_client_inv w p h id p' evs :
  proc_inv p h →
  init_real_client ERR_ADDRESS_NOT_REGISTERED storage_keeps_client w p h = ((id, p'), evs) →
  proc_inv p' (h ++ evs) ∧ heap p' !! id = Some (RealObj new_real) ∧ cleaned_ p' = cleaned_ p.
Proof using max_pos pages_pos align_ge.
  intros PI R. apply bind_inv in R as (r & e0 & e & R0 & R & ->).
  apply bind_inv in R0 as (r0 & e5 & e6 & R0 & [-> ->]%ret_inv & ->).
  apply bind_inv in R0 as (u & ? & ? & [_ ->]%call_inv & [-> ->]%ret_inv & ->). cbn [fst snd app is_real] in *.
  set (h0 := h ++ [KCreate (next_id p) true]). rewrite (cons_middle _ h e), app_assoc. fold h0. fold h0 in R.
  set (p0 := registerInstance _ _) in R.
  apply bind_inv in R as (p1 & e1 & e2 & R1 & R & ->).
  apply bind_inv in R as (p2 & e3 & e4 & R2 & [[= -> ->] ->]%ret_inv & ->).
  pose proof (install_inv (RealObj new_real) w false (Some (next_id p)) p p0 h h0 p1 (h0 ++ e1) e1 p2 e3
    (or_introl (conj eq_refl (conj eq_refl eq_refl))) PI eq_refl eq_refl) as Hi.
  destruct Hi as (I2 & Hid & Hinst & Hcl & Hw & Hsub & _); [|done..|].
  { apply register_inv, (allocate_inv (RealObj new_real)); [apply PI|by left]. }
  rewrite app_nil_r, (app_assoc h0). split; [|done]. split; [by apply register_inv| |exact Hw].
  eapply installed_tracked; [apply PI|exact Hsub|..]; cbn; rewrite Hinst; cbn.
  - intros i Hin. rewrite !elem_of_app. auto.
  - rewrite elem_of_app. right. by left.
Qed.

Lemma setup_dummy_inv w p h rc p' evs :
  proc_inv p h →
  setup_dummy ERR_ADDRESS_NOT_REGISTERED storage_keeps_client w p h = ((rc, p'), evs) →
  proc_inv p' (h ++ evs) ∧ cleaned_ p' = cleaned_ p.
Proof using max_pos pages_pos align_ge.
  intros PI R. apply bind_inv in R as (r & e0 & e & R0 & R & ->).
  apply bind_inv in R0 as (u & ? & ? & [_ ->]%call_inv & [-> ->]%ret_inv & ->). cbn [fst snd app is_real] in *.
  set (h0 := h ++ [KCreate (next_id p) false]). rewrite (cons_middle _ h e), app_assoc. fold h0. fold h0 in R.
  set (p0 := with_new _ _) in R.
  apply bind_inv in R as (p1 & e1 & e2 & R1 & R & ->).
  apply bind_inv in R as (p2 & e3 & e4 & R2 & R & ->).
  apply bind_inv in R as (x & e5 & e6 & [-> ->]%call_inv & [[= -> ->] ->]%ret_inv & ->).
  pose proof (install_inv DummyObj w true None p p0 h h0 p1 (h0 ++ e1) e1 p2 e3
    (or_intror (conj eq_refl (conj eq_refl eq_refl))) PI eq_refl eq_refl) as Hi.
  destruct Hi as (I2 & Hid & Hinst & Hcl & Hw & Hsub & _); [|done..|].
  { apply (allocate_inv DummyObj); [apply PI|by right]. }
  rewrite app_nil_r, (app_assoc h0), (app_assoc (h0 ++ e1)).
  split; [|exact Hcl]. split; [| |exact Hw].
  - apply register_inv. eapply inv_log; [|exact I2]. intros i. rewrite real_log_app, obj_log_app. cbn.
    by rewrite !app_nil_r.
  - eapply (installed_tracked DummyObj); [apply PI|exact Hsub|..]; cbn; rewrite Hinst; cbn.
    + intros i Hin. rewrite elem_of_app. auto.
    + rewrite elem_of_app. right. by left.
Qed.

(** ** Operations of a client *)

(** A real client goes on with its life. *)
Lemma update_real_inv id s s' es p h :
  proc_inv p h → heap p !! id = Some (RealObj s) → life s' (real_log id h ++ es) →
  proc_inv (set_heap (<[id := RealObj s']> (heap p)) p) (h ++ (KReal id <$> es)).
Proof.
  intros [I T W] Hid Hl.
  assert (Hlog : ∀ i, i ≠ id → real_log i (h ++ (KReal id <$> es)) = real_log i h).
  { intros i Hi. rewrite real_log_app, real_log_real, decide_False by done. by rewrite app_nil_r. }
  assert (Hobj : ∀ i, obj_log i (h ++ (KReal id <$> es)) = obj_log i h).
  { intros i. rewrite obj_log_app, obj_log_real. apply app_nil_r. }
  assert (Hsome : ∀ i, is_Some (<[id := RealObj s']> (heap p) !! i) ↔ is_Some (heap p !! i)).
  { intros i. destruct (decide (i = id)) as [->|Hne];
      [rewrite lookup_insert_eq, Hid; split; by eexists|by rewrite lookup_insert_ne]. }
  assert (Hdummy : ∀ i, <[id := RealObj s']> (heap p) !! i = Some DummyObj ↔ heap p !! i = Some DummyObj).
  { intros i. destruct (decide (i = id)) as [->|Hne];
      [rewrite lookup_insert_eq, Hid; split; discriminate|by rewrite lookup_insert_ne]. }
  split; cbn.
  - split; cbn.
    + intros i Hi. apply Hsome. by apply (inv_live _ _ _ I).
    + intros i o Ho. assert (is_Some (heap p !! i)) as [x Hx] by (apply Hsome; by exists o).
      exact (inv_rooted _ _ _ I i x Hx).
    + intros i o Ho. assert (is_Some (heap p !! i)) as [x Hx] by (apply Hsome; by exists o).
      exact (inv_fresh _ _ _ I i x Hx).
    + intros i Hi. rewrite Hobj, Hlog; [by apply (inv_unborn _ _ _ I)|]. intros ->.
      apply (inv_fresh _ _ _ I) in Hid. exact (Nat.lt_irrefl _ (Nat.lt_le_trans _ _ _ Hid Hi)).
    + intros i o Ho. rewrite Hobj. apply lookup_insert_Some in Ho as [[<- <-]|[Hne Ho]].
      * exact (inv_alive _ _ _ I _ _ Hid).
      * by apply (inv_alive _ _ _ I).
    + intros i Hi [Hx _]%lookup_insert_None. rewrite Hobj. by apply (inv_dead _ _ _ I).
    + intros i x Hx. apply lookup_insert_Some in Hx as [[<- [= <-]]|[Hne Hx]].
      * by rewrite real_log_app, real_log_real, decide_True.
      * rewrite Hlog by done. by apply (inv_life _ _ _ I).
    + intros i [Hx Hne]%lookup_insert_None. rewrite Hlog by done. by apply (inv_settled _ _ _ I).
    + intros i Hx. pose proof Hx as Hx'. apply Hdummy in Hx'. rewrite Hlog; [by apply (inv_dummy _ _ _ I)|].
      intros ->. congruence.
  - intros i Hi. apply T. by apply Hsome.
  - intros w x Hw. destruct (W w x Hw) as [Hr Hs]. split; intros i Hi; cbn.
    + destruct (Hr i Hi) as [s0 Hs0]. destruct (decide (i = id)) as [->|Hne].
      * exists s'. by rewrite lookup_insert_eq.
      * exists s0. by rewrite lookup_insert_ne.
    + specialize (Hs i Hi). destruct (pw_use_dummy x); [|done]. by rewrite Hdummy.
Qed.

Lemma tear_down_client_inv id p h rc p' evs :
  proc_inv p h → tear_down_client id p h = ((rc, p'), evs) → proc_inv p' (h ++ evs).
Proof.
  intros PI R. unfold tearDownAll in R. destruct (heap p !! id) as [[s|]|] eqn:Hid.
  - apply bind_inv in R as ([r s'] & e1 & e2 & (es & R1 & ->)%on_real_run & [[= -> ->] ->]%ret_inv & ->).
    rewrite app_nil_r. eapply update_real_inv; [done..|]. eapply life_tear_down; [|exact R1].
    by apply (inv_life _ _ _ (pi_inv _ _ PI)).
  - apply bind_inv in R as (x & e1 & e2 & [-> ->]%call_inv & [[= -> ->] ->]%ret_inv & ->).
    split; [|apply PI..]. eapply inv_log; [|apply PI]. intros i. rewrite real_log_app, obj_log_app. cbn.
    by rewrite !app_nil_r.
  - apply ret_inv in R as [[= -> ->] ->]. by rewrite app_nil_r.
Qed.

Lemma with_real_inv {A} id (m : SetupState → uio (A * SetupState)) p h r p' evs :
  (∀ s log v s' es, life s log → m s log = ((v, s'), es) → life s' (log ++ es)) →
  proc_inv p h → with_real id m p h = ((r, p'), evs) → proc_inv p' (h ++ evs).
Proof.
  intros Hm PI R. unfold with_real in R. destruct (heap p !! id) as [[s|]|] eqn:Hid.
  - apply bind_inv in R as ([v s'] & e1 & e2 & (es & R1 & ->)%on_real_run & [[= -> ->] ->]%ret_inv & ->).
    rewrite app_nil_r. eapply update_real_inv; [done..|]. eapply Hm; [|exact R1].
    by apply (inv_life _ _ _ (pi_inv _ _ PI)).
  - apply ret_inv in R as [[= -> ->] ->]. by rewrite app_nil_r.
  - apply ret_inv in R as [[= -> ->] ->]. by rewrite app_nil_r.
Qed.

(** ** References given up *)

(** The same clients under other references. *)
Lemma reroot_inv D D' p p' h :
  inv_with D p h → heap p' = heap p → next_id p' = next_id p →
  (∀ id, id ∈ roots p' → is_Some (heap p !! id)) →
  (∀ id, id ∈ roots p ∨ id ∈ D → id ∈ roots p' ∨ id ∈ D') → inv_with D' p' h.
Proof.
  intros I Hh Hn Hlive Hroot. split; rewrite ?Hh, ?Hn; try apply I; [done|].
  intros id o Ho. apply Hroot. by apply (inv_rooted _ _ _ I id o).
Qed.

Lemma set_wrapper_ok w x p p' h h' :
  proc_inv p h → wrapper_ok p x → same_refs (set_wrapper w x p) p' → inv p' h' → proc_inv p' h'.
Proof.
  intros PI Hx S I. split; [done|eapply tracked_survives; [exact S|apply PI]|].
  intros v y Hv. rewrite (same_wrappers _ _ S) in Hv.
  eapply (wrapper_ok_survives (set_wrapper w x p)); [done|done|exact Hv|].
  cbn in Hv. apply lookup_insert_Some in Hv as [[_ <-]|[_ Hv]]; [done|].
  by apply (pi_wrappers _ _ PI v).
Qed.

Lemma default_ok p h w : proc_inv p h → wrapper_ok p (default new_wrapper (wrappers p !! w)).
Proof.
  intros PI. destruct (wrappers p !! w) as [x|] eqn:E; [by apply (pi_wrappers _ _ PI w)|by split].
Qed.

Lemma close_inv w p h rc p' evs :
  proc_inv p h →
  PyProcess.close ERR_ADDRESS_NOT_REGISTERED storage_keeps_client toInt w p h = ((rc, p'), evs) →
  proc_inv p' (h ++ evs).
Proof using max_pos pages_pos align_ge.
  intros PI R. unfold PyProcess.close in R. destruct (pw_store _) as [id|]; cycle 1.
  { apply ret_inv in R as [[= -> ->] ->]. by rewrite app_nil_r. }
  apply bind_inv in R as ([r1 p1] & e1 & e2 & R1%tear_down_client_inv & R & ->); [|done].
  apply bind_inv in R as (p2 & e3 & e4 & R2 & [[= -> ->] ->]%ret_inv & ->).
  apply assign_store_inv with (D := []) in R2 as [I2 S2]; [|apply R1|done|by intros i Hi%elem_of_nil].
  rewrite app_nil_r, app_assoc. eapply set_wrapper_ok; [exact R1| |exact S2|exact I2].
  destruct (default_ok _ _ w R1) as [Hr _]. split; [exact Hr|done].
Qed.

Lemma drop_wrapper_inv w p h p' evs :
  proc_inv p h →
  drop_wrapper ERR_ADDRESS_NOT_REGISTERED storage_keeps_client w p h = (p', evs) →
  proc_inv p' (h ++ evs).
Proof using max_pos pages_pos align_ge.
  intros PI R. unfold drop_wrapper in R. set (p0 := MkProcess _ _ _ _ _ _) in R.
  assert (Hroot : ∀ id, id ∈ roots p0 → id ∈ roots p).
  { intros id [(v & x & Hv & Hid)|Hid]%elem_of_roots; [|apply elem_of_roots; by right].
    cbn in Hv. apply lookup_delete_Some in Hv as [_ Hv]. by eapply refs_rooted. }
  apply releases_inv with (D := []) in R as [I S].
  - split; [done|eapply tracked_survives; [exact S|apply PI]|].
    intros v x Hv. rewrite (same_wrappers _ _ S) in Hv.
    eapply (wrapper_ok_survives p0); [done|done|exact Hv|]. cbn in Hv.
    apply lookup_delete_Some in Hv as [_ Hv]. by apply (pi_wrappers _ _ PI v).
  - eapply reroot_inv; [apply PI|done|done|..].
    + intros id Hid%Hroot. by apply (inv_live _ _ _ (pi_inv _ _ PI)).
    + intros id [[(v & x & Hv & Hid)|Hid]%elem_of_roots|Hid%elem_of_nil]; [|left; apply elem_of_roots; by right|done].
      destruct (decide (v = w)) as [->|Hne].
      * right. rewrite Hv. rewrite app_nil_r, elem_of_app, !elem_of_option_list. cbn.
        apply elem_of_refs in Hid as [|]; auto.
      * left. apply elem_of_roots. left. exists v, x. cbn. by rewrite lookup_delete_ne.
Qed.

Lemma capsule_inv w p h : proc_inv p h → proc_inv (make_pyclient_capsule w p) h.
Proof.
  intros PI. unfold make_pyclient_capsule. destruct (pw_store _) as [id|] eqn:E; [|done].
  split; [|apply PI..]. eapply reroot_inv; [apply PI|done|done|..].
  - intros i [Hi|[->|Hi]%elem_of_cons]%elem_of_roots; apply (inv_live _ _ _ (pi_inv _ _ PI)).
    + apply elem_of_roots. by left.
    + eapply wrapper_rooted, elem_of_refs. left. exact E.
    + apply elem_of_roots. by right.
  - intros i [[Hi|Hi]%elem_of_roots|Hi%elem_of_nil]; [left; apply elem_of_roots..|done]; [by left|].
    right. by apply elem_of_cons; right.
Qed.

Lemma drop_capsule_inv i p h p' evs :
  proc_inv p h →
  drop_capsule ERR_ADDRESS_NOT_REGISTERED storage_keeps_client i p h = (p', evs) →
  proc_inv p' (h ++ evs).
Proof using max_pos pages_pos align_ge.
  intros PI R. unfold drop_capsule in R. set (p0 := set_capsules _ p) in R.
  apply releases_inv with (D := []) in R as [I S].
  - split; [done|eapply tracked_survives; [exact S|apply PI]|].
    intros v x Hv. rewrite (same_wrappers _ _ S) in Hv.
    eapply (wrapper_ok_survives p0); [done|done|exact Hv|]. by apply (pi_wrappers _ _ PI v).
  - eapply reroot_inv; [apply PI|done|done|..].
    + intros id [Hid|Hid]%elem_of_roots; apply (inv_live _ _ _ (pi_inv _ _ PI)), elem_of_roots;
        [by left|right].
      exact (list_elem_of_delete_inv _ _ _ Hid).
    + intros id [[Hid|Hid]%elem_of_roots|Hid%elem_of_nil]; [left; apply elem_of_roots; by left| |done].
      destruct (capsules p !! i) as [x|] eqn:E; cycle 1.
      * left. apply elem_of_roots. right. cbn. by rewrite delete_beyond.
      * rewrite (delete_Permutation _ _ _ E) in Hid. apply elem_of_cons in Hid as [->|Hid].
        -- right. by left.
        -- left. apply elem_of_roots. by right.
Qed.

(** ** The tracker *)

(** What tear-down of one client does to the heap. *)
Lemma tear_down_client_run id p h rc p' evs :
  tear_down_client id p h = ((rc, p'), evs) →
  (∀ i, i ≠ id → heap p' !! i = heap p !! i) ∧ cleaned_ p' = cleaned_ p ∧ instances_ p' = instances_ p ∧
  match heap p !! id with
  | Some (RealObj _) => ∃ s', heap p' !! id = Some (RealObj s') ∧ su_closed s' = true
  | Some DummyObj => heap p' = heap p ∧ evs = [KDummyTearDown id rc]
  | None => p' = p ∧ evs = []
  end.
Proof.
  intros R. unfold tearDownAll in R. destruct (heap p !! id) as [[s|]|] eqn:Hid.
  - apply bind_inv in R as ([r s'] & e1 & e2 & (es & R1 & ->)%on_real_run & [[= -> ->] ->]%ret_inv & ->).
    apply tear_down_closes in R1. split_and!; [|done|done|].
    + intros i Hi. cbn. by rewrite lookup_insert_ne.
    + exists s'. cbn. by rewrite lookup_insert_eq.
  - by apply bind_inv in R as (x & e1 & e2 & [-> ->]%call_inv & [[= -> ->] ->]%ret_inv & ->).
  - by apply ret_inv in R as [[= -> ->] ->].
Qed.

Abbreviation clean_up_loop ids p :=
  (mfold (λ p id, let! r := tear_down_client id p in ret r.2) p ids).

Lemma kind_of_dummy p i : heap p !! i = Some DummyObj ↔ is_real <$> heap p !! i = Some false.
Proof. destruct (heap p !! i) as [[s|]|]; cbn; split; congruence. Qed.

Lemma kind_of_real p i : (∃ s, heap p !! i = Some (RealObj s)) ↔ is_real <$> heap p !! i = Some true.
Proof. destruct (heap p !! i) as [[s|]|]; cbn; split; try congruence; try by intros [? ?]. by exists s. Qed.

Lemma tear_down_kinds id p h rc p' evs :
  tear_down_client id p h = ((rc, p'), evs) →
  ∀ i, is_real <$> heap p' !! i = is_real <$> heap p !! i.
Proof.
  intros (Hother & _ & _ & Hid)%tear_down_client_run i.
  destruct (decide (i = id)) as [->|Hne]; [|by rewrite Hother].
  destruct (heap p !! id) as [[s|]|] eqn:E.
  - by destruct Hid as (s' & -> & _).
  - destruct Hid as [-> _]. by rewrite E.
  - destruct Hid as [-> _]. by rewrite E.
Qed.

(** Clients in [ids] or closed before are closed; a dummy client in [ids] is torn down. *)
Lemma clean_up_closes ids : ∀ p h p' evs,
  clean_up_loop ids p h = (p', evs) →
  cleaned_ p' = cleaned_ p ∧
  (∀ i, is_real <$> heap p' !! i = is_real <$> heap p !! i) ∧
  (∀ i s', heap p' !! i = Some (RealObj s') →
     i ∈ ids ∨ (∃ s, heap p !! i = Some (RealObj s) ∧ su_closed s = true) → su_closed s' = true) ∧
  (∀ i, heap p' !! i = Some DummyObj → i ∈ ids → ∃ rc, KDummyTearDown i rc ∈ evs).
Proof.
  induction ids as [|id ids IH]; intros p h p' evs R.
  { cbn [mfold] in R. apply ret_inv in R as [-> ->]. split_and!; [done|done| |].
    - intros i s' Hi [Hn%elem_of_nil|(s & Hs & Hc)]; [done|]. congruence.
    - by intros i _ Hn%elem_of_nil. }
  apply bind_inv in R as (p1 & e1 & e2 & R1 & R & ->).
  apply bind_inv in R1 as ([rc p2] & e3 & e4 & R1 & [-> ->]%ret_inv & ->).
  pose proof (tear_down_kinds _ _ _ _ _ _ R1) as Hk.
  apply tear_down_client_run in R1 as (Hother & Hcl & _ & Hid). rewrite app_nil_r.
  apply IH in R as (Hcl' & Hk' & Hclosed & Hdummy). cbn [snd] in *.
  split_and!; [congruence|by intros i; rewrite Hk'| |].
  - intros i s' Hi Hin. eapply Hclosed; [done|].
    destruct (decide (i = id)) as [->|Hne].
    + assert (Hr : ∃ s, heap p !! id = Some (RealObj s)).
      { apply kind_of_real. rewrite <- Hk, <- Hk'. by rewrite Hi. }
      destruct Hr as [s Hs]. rewrite Hs in Hid. by right.
    + destruct Hin as [[->|Hin]%elem_of_cons|Hin]; [done|by left|]. right. by rewrite Hother.
  - intros i Hi [->|Hin]%elem_of_cons.
    + assert (Hd : heap p !! id = Some DummyObj).
      { apply kind_of_dummy. rewrite <- Hk, <- Hk'. by apply kind_of_dummy. }
      rewrite Hd in Hid. destruct Hid as [_ ->]. exists rc. rewrite elem_of_app. left. by left.
    + destruct (Hdummy i Hi Hin) as [rc' Hrc]. exists rc'. rewrite elem_of_app. by right.
Qed.

Lemma clean_up_inv ids : ∀ p h p' evs,
  proc_inv p h → clean_up_loop ids p h = (p', evs) → proc_inv p' (h ++ evs).
Proof.
  induction ids as [|id ids IH]; intros p h p' evs PI R.
  { cbn [mfold] in R. apply ret_inv in R as [-> ->]. by rewrite app_nil_r. }
  apply bind_inv in R as (p1 & e1 & e2 & R1 & R & ->).
  apply bind_inv in R1 as ([rc p2] & e3 & e4 & R1 & [-> ->]%ret_inv & ->).
  apply tear_down_client_inv in R1; [|done]. rewrite app_nil_r, app_assoc in *.
  by apply IH in R.
Qed.

(** ** All processes *)

Abbreviation configured := (setup_config max_mr_size page_size hugepage_size
  ERR_ADDRESS_NOT_REGISTERED GPU_PREFIX kWildcardLocation use_nof use_hugepage max_retries cxl_env
  cxl_base numa_nodes enable_http_server hasExplicitPort getHostNameWithoutPort
  buildHostNameWithPort align_up storage_keeps_client).
Abbreviation initialised := (initAll_internal max_mr_size page_size hugepage_size
  ERR_ADDRESS_NOT_REGISTERED GPU_PREFIX kWildcardLocation use_nof use_hugepage max_retries cxl_env
  cxl_base numa_nodes enable_http_server hasExplicitPort getHostNameWithoutPort
  buildHostNameWithPort align_up storage_keeps_client).
Abbreviation clean_up := (cleanupAllResources ERR_ADDRESS_NOT_REGISTERED storage_keeps_client toInt).
Abbreviation close_wrapper := (PyProcess.close ERR_ADDRESS_NOT_REGISTERED storage_keeps_client toInt).

Inductive py_life : Process → list proc_event → Prop :=
| pl_start : py_life new_process []
| pl_wrapper w p h :
    py_life p h → wrappers p !! w = None → py_life (set_wrapper w new_wrapper p) h
| pl_setup w args p h r p' evs :
    py_life p h →
    setup ERR_ADDRESS_NOT_REGISTERED storage_keeps_client toInt w (configured args) p h = ((r, p'), evs) →
    py_life p' (h ++ evs)
| pl_setup_dummy w p h r p' evs :
    py_life p h →
    setup_dummy ERR_ADDRESS_NOT_REGISTERED storage_keeps_client w p h = ((r, p'), evs) →
    py_life p' (h ++ evs)
| pl_init_all w protocol size p h r p' evs :
    py_life p h →
    PyProcess.init_all toInt w (initialised protocol size) p h = ((r, p'), evs) →
    py_life p' (h ++ evs)
| pl_close w p h r p' evs :
    py_life p h → close_wrapper w p h = ((r, p'), evs) → py_life p' (h ++ evs)
| pl_drop_wrapper w p h p' evs :
    py_life p h →
    drop_wrapper ERR_ADDRESS_NOT_REGISTERED storage_keeps_client w p h = (p', evs) →
    py_life p' (h ++ evs)
| pl_capsule w p h : py_life p h → py_life (make_pyclient_capsule w p) h
| pl_drop_capsule i p h p' evs :
    py_life p h →
    drop_capsule ERR_ADDRESS_NOT_REGISTERED storage_keeps_client i p h = (p', evs) →
    py_life p' (h ++ evs)
| pl_clean_up p h p' evs :
    py_life p h → clean_up p h = (p', evs) → py_life p' (h ++ evs)
(* an operation on segments or shared memory of a real client *)
| pl_operation id s seg ctxs es p h :
    py_life p h → heap p !! id = Some (RealObj s) → rs_client seg = rs_client (su_segments s) →
    py_life (set_heap (<[id := RealObj (su_set_contexts ctxs (su_closed s) (su_set_segments seg s))]>
                         (heap p)) p) (h ++ (KReal id <$> (UMap <$> es))).

Lemma configured_life args s log v s' es :
  life s log → configured args s log = ((v, s'), es) → life s' (log ++ es).
Proof.
  intros Hl R. destruct args as [a|e]; cbn [setup_config] in R.
  - by eapply life_setup.
  - apply ret_inv in R as [[= -> ->] ->]. by rewrite app_nil_r.
Qed.

Lemma initialised_life protocol size s log v s' es :
  life s log → initialised protocol size s log = ((v, s'), es) → life s' (log ++ es).
Proof.
  intros Hl R. unfold initAll_internal in R. destruct (rs_client _).
  - apply ret_inv in R as [[= -> ->] ->]. by rewrite app_nil_r.
  - by eapply life_setup.
Qed.

Lemma start_inv : proc_inv new_process [].
Proof.
  assert (Hno : ∀ id o, heap new_process !! id = Some o → False).
  { intros id o Ho. cbn in Ho. by rewrite lookup_empty in Ho. }
  split; [split|..].
  - by intros id Hid%elem_of_nil.
  - by intros id o Ho%Hno.
  - by intros id o Ho%Hno.
  - by split.
  - by intros id o Ho%Hno.
  - intros id Hid. by apply Nat.nlt_0_r in Hid.
  - by intros id s Ho%Hno.
  - done.
  - by intros id Ho%Hno.
  - by intros id [o Ho%Hno].
  - intros w x Hw. cbn in Hw. by rewrite lookup_empty in Hw.
Qed.

Lemma py_life_inv p h : py_life p h → proc_inv p h.
Proof using max_pos pages_pos align_ge.
  induction 1 as [|w p h _ IH Hw|w args p h r p' evs _ IH R|w p h r p' evs _ IH R
    |w protocol size p h r p' evs _ IH R|w p h r p' evs _ IH R|w p h p' evs _ IH R|w p h _ IH|i p h p' evs _ IH R|p h p' evs _ IH R
    |id s seg ctxs es p h _ IH Hid Hc].
  - apply start_inv.
  - apply set_wrapper_ok with (w := w) (x := new_wrapper) (p := p) (h := h); [done|by split|apply same_refs_refl|].
    apply set_wrapper_inv with (D := []); [apply IH|..]; intros id Hid.
    + by apply elem_of_nil in Hid.
    + rewrite Hw in Hid. by apply elem_of_nil in Hid.
    + by apply elem_of_nil in Hid.
  - apply bind_inv in R as ([id p1] & e1 & e2 & R1 & R & ->).
    apply bind_inv in R as ([v p2] & e3 & e4 & R2 & [[= -> ->] ->]%ret_inv & ->).
    apply init_real_client_inv in R1 as (PI1 & _ & _); [|done]. rewrite app_nil_r, app_assoc.
    eapply with_real_inv; [|exact PI1|exact R2]. intros. by eapply configured_life.
  - by apply setup_dummy_inv in R as [PI _].
  - unfold PyProcess.init_all in R. destruct (pw_store _) as [id|]; cycle 1.
    { apply ret_inv in R as [[= -> ->] ->]. by rewrite app_nil_r. }
    assert (Hrun : ∀ v p1 e1, with_real id (initialised protocol size) p h = ((v, p1), e1) →
      proc_inv p1 (h ++ e1)).
    { intros v p1 e1. apply with_real_inv; [|done]. intros. by eapply initialised_life. }
    destruct (heap p !! id) as [[s|]|];
      [|apply ret_inv in R as [[= -> ->] ->]; by rewrite app_nil_r|].
    all: apply bind_inv in R as ([v p1] & e1 & e2 & R%Hrun & [[= -> ->] ->]%ret_inv & ->);
      by rewrite app_nil_r.
  - by apply close_inv in R.
  - by apply drop_wrapper_inv in R.
  - by apply capsule_inv.
  - by apply drop_capsule_inv in R.
  - unfold cleanupAllResources in R. destruct (cleaned_ p).
    { apply ret_inv in R as [-> ->]. by rewrite app_nil_r. }
    eapply clean_up_inv; [|exact R]. destruct IH as [I T W]. split; [|exact T|exact W].
    eapply reroot_inv; [exact I|done|done|..]; [apply I|]. intros i Hi. exact Hi.
  - eapply update_real_inv; [done..|]. apply life_operation; [|done].
    by apply (inv_life _ _ _ (pi_inv _ _ IH)).
Qed.


(** C20: When the process exits or is told to end for the first time, every client that is
    alive is torn down: each real one is closed, each dummy one was asked to tear down; a
    second clean-up, from the other handler, does nothing. *)
Theorem exit_closes_every_client p h p' evs :
  py_life p h → cleaned_ p = false → clean_up p h = (p', evs) →
  (∀ id s, heap p' !! id = Some (RealObj s) → su_closed s = true) ∧
  (∀ id, heap p' !! id = Some DummyObj → ∃ rc, KDummyTearDown id rc ∈ evs) ∧
  (∀ h', clean_up p' h' = (p', [])).
Proof using max_pos pages_pos align_ge.
  intros [I T W]%py_life_inv Hcl R. unfold cleanupAllResources in R. rewrite Hcl in R.
  apply clean_up_closes in R as (Hcl' & Hk & Hc & Hd). cbn in *.
  assert (Htr : ∀ id, is_Some (is_real <$> heap p' !! id) → id ∈ instances_ p).
  { intros id Hid. apply T. rewrite Hk in Hid. by apply fmap_is_Some in Hid. }
  split_and!.
  - intros id s Hid. eapply Hc; [done|]. left. apply Htr. rewrite Hid. by eexists.
  - intros id Hid. apply Hd; [done|]. apply Htr. rewrite Hid. by eexists.
  - intros h'. unfold cleanupAllResources. by rewrite Hcl'.
Qed.

(** [close] forgets [store_] but not [real_client_]: the client object, torn down, stays
    until the wrapper is collected or set up again. *)
Theorem close_keeps_the_client w x id p h rc p' evs :
  py_life p h → wrappers p !! w = Some x → pw_real x = Some id →
  close_wrapper w p h = ((rc, p'), evs) → is_Some (heap p' !! id).
Proof using max_pos pages_pos align_ge.
  intros PI%py_life_inv Hw Hr R. pose proof (close_inv _ _ _ _ _ _ PI R) as PI'.
  apply (inv_live _ _ _ (pi_inv _ _ PI')). unfold PyProcess.close in R. rewrite Hw in R. cbn in R.
  destruct (pw_store x) as [i|]; cycle 1.
  { apply ret_inv in R as [[= -> ->] ->]. eapply refs_rooted; [exact Hw|]. apply elem_of_refs. by right. }
  apply bind_inv in R as ([r1 p1] & e1 & e2 & R1 & R & ->).
  assert (Hw1 : wrappers p1 !! w = Some x).
  { unfold tearDownAll in R1. destruct (heap p !! i) as [[s|]|].
    - by apply bind_inv in R1 as (? & ? & ? & _ & [[= -> ->] _]%ret_inv & _).
    - by apply bind_inv in R1 as (? & ? & ? & _ & [[= -> ->] _]%ret_inv & _).
    - by apply ret_inv in R1 as [[= -> ->] _]. }
  apply tear_down_client_inv in R1; [|done].
  apply bind_inv in R as (p2 & e3 & e4 & R2 & [[= -> ->] ->]%ret_inv & ->).
  apply assign_store_inv with (D := []) in R2 as [_ S2]; [|apply R1|done|by intros j Hj%elem_of_nil].
  cbn [snd] in S2. rewrite Hw1 in S2. cbn [default pw_real] in S2. rewrite (same_roots _ _ S2).
  eapply refs_rooted; [cbn; apply lookup_insert_eq|]. apply elem_of_refs. by right.
Qed.
End Spec.

(** ** A process: one wrapper is set up with a real client, another with a dummy client,
    the first wrapper is collected, and the process exits *)

Module Sample.
#[local] Instance seg_services : SegmentServices := counting_segments 9 true.
#[local] Instance map_services : MapServices := shm_maps.
#[local] Instance setup_services : SetupServices := sample_setup.
#[local] Instance dummy_services : DummyLifecycle :=
  {| k_dummy_setup _ _ := 0; k_dummy_tear_down _ _ := 0 |}.

Abbreviation process_life :=
  (py_life 65536 4096 65536 (-1) "cuda:" "*" false false 3 None 0 [] false (λ _, false) (λ h, h)
     (λ h _, h) sample_align false (λ _, -1)).
Abbreviation sample_config :=
  (setup_config 65536 4096 65536 (-1) "cuda:" "*" false false 3 None 0 [] false (λ _, false)
     (λ h, h) (λ h _, h) sample_align false (Ok (MkArgs "host-a" 100000 4096 "tcp" "" false))).

Definition p0 : Process := set_wrapper 1 new_wrapper (set_wrapper 0 new_wrapper new_process).
Abbreviation run1 := (setup (-1) false (λ _, -1) 0 sample_config p0 []).
Definition p1 : Process := run1.1.2.
Definition h1 : list proc_event := [] ++ run1.2.
Abbreviation run2 := (setup_dummy (-1) false 1 p1 h1).
Definition p2 : Process := run2.1.2.
Definition h2 : list proc_event := h1 ++ run2.2.
Abbreviation run3 := (drop_wrapper (-1) false 0 p2 h2).
Definition p3 : Process := run3.1.
Definition h3 : list proc_event := h2 ++ run3.2.

Lemma life1 : process_life p1 h1.
Proof.
  eapply (pl_setup _ _ _ _ _ _ _ _ _ _ _ _ _ _ _ _ _ _ _ 0 _ p0 [] run1.1.1); [|unfold p1].
  - apply pl_wrapper; [apply pl_wrapper; [apply pl_start|done]|done].
  - by rewrite <- !surjective_pairing.
Qed.

Lemma life2 : process_life p2 h2.
Proof.
  eapply (pl_setup_dummy _ _ _ _ _ _ _ _ _ _ _ _ _ _ _ _ _ _ _ 1 p1 h1 run2.1.1); [apply life1|].
  unfold p2. by rewrite <- !surjective_pairing.
Qed.

Lemma life3 : process_life p3 h3.
Proof.
  eapply (pl_drop_wrapper _ _ _ _ _ _ _ _ _ _ _ _ _ _ _ _ _ _ _ 0 p2 h2); [apply life2|].
  unfold p3. apply surjective_pairing.
Qed.

Lemma first_dropped : 0%nat ∉ roots p3.
Proof.
  assert (Hroots : roots p3 = [1%nat]) by (vm_compute; reflexivity). rewrite Hroots.
  by intros H%list_elem_of_singleton.
Qed.


Lemma exit_closes_every_client_witness :
  let r := cleanupAllResources (-1) false (λ _, -1) p2 h2 in
  (∃ s, heap r.1 !! 0%nat = Some (RealObj s) ∧ su_closed s = true) ∧
  ∃ rc, KDummyTearDown 1 rc ∈ r.2.
Proof.
  intros r.
  destruct (exit_closes_every_client 65536 4096 65536 (-1) "cuda:" "*" false false 3 None 0 [] false
    (λ _, false) (λ h, h) (λ h _, h) sample_align false (λ _, -1) eq_refl (conj eq_refl eq_refl)
    sample_align_ge p2 h2 r.1 r.2 life2) as (Hreal & Hdummy & _).
  - by vm_compute.
  - apply surjective_pairing.
  - split; [|apply Hdummy; by vm_compute].
    assert (Hk : is_real <$> heap r.1 !! 0%nat = Some true) by (by vm_compute).
    apply kind_of_real in Hk as [s Hs]. exists s. split; [done|]. exact (Hreal _ _ Hs).
Defined.
End Sample.
