(* ===== verification/Bindings.v ===== *)
(** * The Python bindings ([PYBIND11_MODULE] of [mooncake-integration/store/store_py.cpp])

    Each method of [MooncakeDistributedStore] that is a lambda of the module, and the
    segment methods of the wrapper: its guards, the Python buffers it requests, where it
    gives up the interpreter lock (the GIL) and the call it makes on the client.  The
    client's answers, Python's buffers and NUMA are external.  A method called through a
    null [store_] crashes. *)

From S2P Require Import Prelude CxxString StoreTypes StorePy.
From stdpp Require Import base strings list sets gmap fin_maps.
From Stdlib Require Import ZArith Lia.

#[local] Open Scope Z_scope.
#[local] Set Default Proof Using "Type".

(** ** Data *)

(** What a call from Python ends with. *)
Inductive py_result (A : Type) : Type :=
| Returned (a : A)
| Raised (message : string)
| Crashed.                                   (* a null pointer was used *)
Arguments Returned {A} a.
Arguments Raised {A} message.
Arguments Crashed {A}.

(** An object with the buffer protocol as [request] describes it: the number of items, the
    size of one, the dimensions, and the memory from its pointer on.  [pb_ok]: false if the
    request raises. *)
Record PyBuffer := MkPyBuffer {
  pb_ok : bool; pb_size : Z; pb_itemsize : Z; pb_ndim : Z; pb_memory : list Z }.

(** [std::span<const char>(info.ptr, info.size)] *)
Definition span_of (b : PyBuffer) : list Z := take (Z.to_nat (pb_size b)) (pb_memory b).

(** All the bytes of the object. *)
Definition bytes_of (b : PyBuffer) : list Z :=
  take (Z.to_nat (pb_size b * pb_itemsize b)) (pb_memory b).

Record QueryTaskResponse := MkQueryTask {
  qt_id : Z * Z; qt_type : Z; qt_status : Z; qt_created : Z; qt_updated : Z; qt_client : Z * Z;
  qt_message : string }.

(** [reinterpret_cast<void *>] of every address. *)
Definition CastAddrs2Ptrs (all_buffer_ptrs : list (list Z)) : list (list Z) :=
  map (map (λ ptr : Z, ptr)) all_buffer_ptrs.

(** The virtual methods of [PyClient] that the bindings call, with what they return; the
    last ones are those of [RealClient]. *)
Inductive store_call : Type → Type :=
| CInitAll (protocol device : string) (size : Z) : store_call Z
| CAllocFromMemPool (size : Z) : store_call Z
| CGetBuffer (key : string) : store_call (option Z)
| CBatchGetBuffer (keys : list string) : store_call (list (option Z))
| CRemove (key : string) (force : bool) : store_call Z
| CRemoveByRegex (pattern : string) (force : bool) : store_call Z
| CRemoveAll (force : bool) : store_call Z
| CBatchRemove (keys : list string) (force : bool) : store_call (list Z)
| CIsExist (key : string) : store_call Z
| CBatchIsExist (keys : list string) : store_call (list Z)
| CHealthCheck : store_call Z
| CGetSize (key : string) : store_call Z
| CUpsertFrom (key : string) (buffer size : Z) (c : PyConfig) : store_call Z
| CBatchUpsertFrom (keys : list string) (buffers sizes : list Z) (c : PyConfig) : store_call (list Z)
| CUpsert (key : string) (value : list Z) (c : PyConfig) : store_call Z
| CUpsertParts (key : string) (values : list (list Z)) (c : PyConfig) : store_call Z
| CUpsertBatch (keys : list string) (values : list (list Z)) (c : PyConfig) : store_call Z
| CRegisterBuffer (buffer size : Z) : store_call Z
| CUnregisterBuffer (buffer : Z) : store_call Z
| CRegisterSpdkGpuBuffer (buffer size : Z) : store_call Z
| CUnregisterSpdkGpuBuffer (buffer : Z) : store_call Z
| CGetInto (key : string) (buffer size : Z) : store_call Z
| CGetIntoRanges (buffers : list Z) (all_keys : list (list string))
    (all_dst_offsets all_src_offsets all_sizes : list (list (list Z)))
    : store_call (list (list (list Z)))
| CBatchGetInto (keys : list string) (buffers sizes : list Z) : store_call (list Z)
| CPutFrom (key : string) (buffer size : Z) (c : PyConfig) : store_call Z
| CPutFromWithMetadata (key : string) (buffer metadata_buffer size metadata_size : Z) (c : PyConfig)
    : store_call Z
| CBatchPutFrom (keys : list string) (buffers sizes : list Z) (c : PyConfig) : store_call (list Z)
| CPut (key : string) (value : list Z) (c : PyConfig) : store_call Z
| CPutParts (key : string) (values : list (list Z)) (c : PyConfig) : store_call Z
| CPutBatch (keys : list string) (values : list (list Z)) (c : PyConfig) : store_call Z
| CGetHostname : store_call string
| CBatchPutFromMultiBuffers (keys : list string) (buffers sizes : list (list Z)) (c : PyConfig)
    : store_call (list Z)
| CBatchGetIntoMultiBuffers (keys : list string) (buffers sizes : list (list Z)) (same_node : bool)
    : store_call (list Z)
| CGetReplicaDesc (key : string) : store_call (list Descriptor)
| CBatchGetReplicaDesc (keys : list string) : store_call (list (string * list Descriptor))
| CBatchReplicaClear (keys : list string) (segment_name : string) : store_call (list string)
| CCreateCopyTask (key : string) (targets : list string) : store_call (expected (Z * Z))
| CCreateMoveTask (key source target : string) : store_call (expected (Z * Z))
| CQueryTask (task_id : Z * Z) : store_call (expected QueryTaskResponse)
| CMountSegment (path : string) (offset size : Z) (protocol location : string)
    : store_call (Z * list string)
| CUnmountSegment (ids : list string) (grace_period_seconds : Z) : store_call Z
| CAllocateAndMountSegment (size : Z) (protocol location : string) : store_call (Z * list string * Z)
| CUnmountAndFreeSegment (ids : list string) (grace_period_seconds : Z) : store_call Z
| CGetOffloadRpcReadCount : store_call Z
| CTearDownAll : store_call Z.

(** ** Events *)

Inductive bind_event :=
| BGil (held : bool)                         (* the thread takes or gives up the GIL *)
| BStore {A : Type} (c : store_call A) (r : A)
| BRequest (b : PyBuffer)                    (* buf.request *)
| BReleaseInfo (b : PyBuffer)                (* ~buffer_info *)
| BPython (what : string)                    (* a Python object is made *)
| BNumaAvailable (rc : Z)
| BNumaMaxNode (n : Z)
| BNumaRun (node rc : Z)
| BNumaPolicy (strict node : Z).

Abbreviation bio A := (comp bind_event A).

Class BindServices := {
  b_store : list bind_event → ∀ A, store_call A → A;
  b_numa_available : list bind_event → Z;
  b_numa_max_node : list bind_event → Z;
  b_numa_run : list bind_event → Z → Z }.

Section Bindings.
Context `{!BindServices}.
Context (to_py_ret : ErrorCode → Z) (toInt : ErrorCode → Z).

(** ** Building blocks *)

Definition note (e : bind_event) : bio unit := call (λ _, tt) (λ _, e).

(** [py::gil_scoped_release] around the rest of its scope. *)
Definition released {A} (m : bio (py_result A)) : bio (py_result A) :=
  note (BGil false) ;;;
  let! r := m in
  match r with
  | Crashed => ret Crashed
  | _ => note (BGil true) ;;; ret r
  end.

(** [self.store_->method(...)] *)
Definition on_store {A} (w : Wrapper) (c : store_call A) : bio (py_result A) :=
  if store_ w
  then let! r := call (λ h, b_store h A c) (BStore c) in ret (Returned r)
  else ret Crashed.

(** A call without the GIL. *)
Definition on_store_released {A} (w : Wrapper) (c : store_call A) : bio (py_result A) :=
  released (on_store w c).

(** A call without the GIL, which is taken again ([gil_scoped_acquire]) for what follows, and
    given up and taken by the two destructors. *)
Definition reacquired {A B} (w : Wrapper) (c : store_call A) (k : A → bio B) : bio (py_result B) :=
  released (
    let! r := on_store w c in
    match r with
    | Crashed => ret Crashed
    | Raised m => ret (Raised m)
    | Returned a =>
        note (BGil true) ;;;
        let! b := k a in
        note (BGil false) ;;;
        ret (Returned b)
    end).

Definition guarded {A} (w : Wrapper) (refused : A) (m : bio (py_result A)) : bio (py_result A) :=
  if negb (is_client_initialized w) then ret (Returned refused) else m.

(** [dynamic_pointer_cast<RealClient>(store_)] *)
Definition is_real_store (w : Wrapper) : bool := store_ w && negb (use_dummy_client_ w).

(** The loop that requests the buffers; [checked]: only 1-dimensional bytes are accepted.
    The infos requested so far, and the message of the exception if one is thrown. *)
Fixpoint request_all (checked : bool) (bufs : list PyBuffer) : bio (list PyBuffer * option string) :=
  match bufs with
  | [] => ret ([], None)
  | b :: bufs' =>
      if negb (pb_ok b) then ret ([], Some "buffer request failed")
      else
        note (BRequest b) ;;;
        if checked && (negb (pb_ndim b =? 1) || negb (pb_itemsize b =? 1))
        then ret ([b], Some "parts must be 1-D bytes-like")
        else let! r := request_all checked bufs' in ret (b :: r.1, r.2)
  end.

Definition release_infos (infos : list PyBuffer) : bio unit :=
  mmap (λ b, note (BReleaseInfo b)) infos ;;; ret tt.

(** The infos are destroyed after the GIL is taken again, and when the stack unwinds. *)
Definition with_buffers {A} (checked : bool) (bufs : list PyBuffer)
    (k : list (list Z) → bio (py_result A)) : bio (py_result A) :=
  let! r := request_all checked bufs in
  match r.2 with
  | Some message => release_infos r.1 ;;; ret (Raised message)
  | None =>
      let! v := k (map span_of r.1) in
      match v with
      | Crashed => ret Crashed
      | _ => release_infos r.1 ;;; ret v
      end
  end.

Definition first_span (spans : list (list Z)) : list Z := default [] (head spans).

(** ** Methods of the store *)

Definition init_all (w : Wrapper) (protocol device : string) (size : Z) : bio (py_result Z) :=
  on_store w (CInitAll protocol device size).
Definition alloc_from_mem_pool (w : Wrapper) (size : Z) : bio (py_result Z) :=
  on_store_released w (CAllocFromMemPool size).
Definition get_offload_rpc_read_count (w : Wrapper) : bio (py_result Z) :=
  if is_real_store w then on_store w CGetOffloadRpcReadCount else ret (Returned 0).
(** [get] and [get_batch]: the bytes of the buffers that were found are copied with the GIL,
    the buffers are released without it.  The acquisition of [get_batch] while it still has
    the GIL changes nothing. *)
Definition py_get (w : Wrapper) (key : string) : bio (py_result (option Z)) :=
  note (BPython "bytes") ;;;
  guarded w None (reacquired w (CGetBuffer key) (λ handle,
    match handle with
    | Some _ => note (BPython "bytes") ;;; ret handle
    | None => ret None
    end)).
Definition py_get_batch (w : Wrapper) (keys : list string) : bio (py_result (list (option Z))) :=
  note (BPython "bytes") ;;;
  guarded w [None] (reacquired w (CBatchGetBuffer keys) (λ handles,
    match handles with
    | [] => ret [None]
    | _ => note (BPython "list") ;;; ret handles
    end)).
(** [close]: with the GIL; the references are those of [PyProcess.close]. *)
Definition py_close (w : Wrapper) : bio (py_result Z) :=
  if negb (store_ w) then ret (Returned 0) else on_store w CTearDownAll.
Definition get_buffer (w : Wrapper) (key : string) : bio (py_result (option Z)) :=
  on_store_released w (CGetBuffer key).
Definition batch_get_buffer (w : Wrapper) (keys : list string) : bio (py_result (list (option Z))) :=
  on_store_released w (CBatchGetBuffer keys).
Definition remove (w : Wrapper) (key : string) (force : bool) : bio (py_result Z) :=
  on_store_released w (CRemove key force).
Definition remove_by_regex (w : Wrapper) (pattern : string) (force : bool) : bio (py_result Z) :=
  on_store_released w (CRemoveByRegex pattern force).
Definition remove_all (w : Wrapper) (force : bool) : bio (py_result Z) :=
  on_store_released w (CRemoveAll force).
Definition batch_remove (w : Wrapper) (keys : list string) (force : bool) : bio (py_result (list Z)) :=
  on_store_released w (CBatchRemove keys force).
Definition is_exist (w : Wrapper) (key : string) : bio (py_result Z) :=
  on_store_released w (CIsExist key).
Definition batch_is_exist (w : Wrapper) (keys : list string) : bio (py_result (list Z)) :=
  on_store_released w (CBatchIsExist keys).
Definition py_health_check (w : Wrapper) : bio (py_result Z) :=
  if negb (store_ w) then ret (Returned 1) else on_store w CHealthCheck.
Definition get_size (w : Wrapper) (key : string) : bio (py_result Z) :=
  on_store_released w (CGetSize key).

Definition upsert_from (w : Wrapper) (key : string) (buffer_ptr size : Z) (c : PyConfig)
  : bio (py_result Z) :=
  guarded w (to_py_ret INVALID_PARAMS) (on_store_released w (CUpsertFrom key buffer_ptr size c)).
Definition batch_upsert_from (w : Wrapper) (keys : list string) (buffer_ptrs sizes : list Z)
    (c : PyConfig) : bio (py_result (list Z)) :=
  guarded w (map (λ _, to_py_ret INVALID_PARAMS) keys)
    (on_store_released w (CBatchUpsertFrom keys buffer_ptrs sizes c)).
Definition upsert (w : Wrapper) (key : string) (buf : PyBuffer) (c : PyConfig) : bio (py_result Z) :=
  guarded w (to_py_ret INVALID_PARAMS)
    (with_buffers false [buf] (λ spans, on_store_released w (CUpsert key (first_span spans) c))).
Definition upsert_parts (w : Wrapper) (key : string) (parts : list PyBuffer) (c : PyConfig)
  : bio (py_result Z) :=
  guarded w (to_py_ret INVALID_PARAMS)
    (with_buffers true parts (λ spans, on_store_released w (CUpsertParts key spans c))).
Definition upsert_batch (w : Wrapper) (keys : list string) (buffers : list PyBuffer) (c : PyConfig)
  : bio (py_result Z) :=
  guarded w (to_py_ret INVALID_PARAMS)
    (with_buffers false buffers (λ spans, on_store_released w (CUpsertBatch keys spans c))).

Definition register_buffer (w : Wrapper) (buffer_ptr size : Z) : bio (py_result Z) :=
  on_store_released w (CRegisterBuffer buffer_ptr size).
Definition unregister_buffer (w : Wrapper) (buffer_ptr : Z) : bio (py_result Z) :=
  on_store_released w (CUnregisterBuffer buffer_ptr).
Definition register_spdk_gpu_buffer (w : Wrapper) (buffer_ptr size : Z) : bio (py_result Z) :=
  on_store_released w (CRegisterSpdkGpuBuffer buffer_ptr size).
Definition unregister_spdk_gpu_buffer (w : Wrapper) (buffer_ptr : Z) : bio (py_result Z) :=
  on_store_released w (CUnregisterSpdkGpuBuffer buffer_ptr).

Definition get_into (w : Wrapper) (key : string) (buffer_ptr size : Z) : bio (py_result Z) :=
  on_store_released w (CGetInto key buffer_ptr size).
Definition get_into_ranges (w : Wrapper) (buffer_ptrs : list Z) (all_keys : list (list string))
    (all_dst_offsets all_src_offsets all_sizes : list (list (list Z)))
  : bio (py_result (list (list (list Z)))) :=
  on_store_released w (CGetIntoRanges buffer_ptrs all_keys all_dst_offsets all_src_offsets all_sizes).
Definition batch_get_into (w : Wrapper) (keys : list string) (buffer_ptrs sizes : list Z)
  : bio (py_result (list Z)) :=
  on_store_released w (CBatchGetInto keys buffer_ptrs sizes).

Definition put_from (w : Wrapper) (key : string) (buffer_ptr size : Z) (c : PyConfig)
  : bio (py_result Z) :=
  guarded w (to_py_ret INVALID_PARAMS) (on_store_released w (CPutFrom key buffer_ptr size c)).
Definition put_from_with_metadata (w : Wrapper) (key : string)
    (buffer_ptr metadata_buffer_ptr size metadata_size : Z) (c : PyConfig) : bio (py_result Z) :=
  guarded w (to_py_ret INVALID_PARAMS)
    (on_store_released w
       (CPutFromWithMetadata key buffer_ptr metadata_buffer_ptr size metadata_size c)).
Definition batch_put_from (w : Wrapper) (keys : list string) (buffer_ptrs sizes : list Z)
    (c : PyConfig) : bio (py_result (list Z)) :=
  on_store_released w (CBatchPutFrom keys buffer_ptrs sizes c).
Definition put (w : Wrapper) (key : string) (buf : PyBuffer) (c : PyConfig) : bio (py_result Z) :=
  with_buffers false [buf] (λ spans, on_store_released w (CPut key (first_span spans) c)).
Definition put_parts (w : Wrapper) (key : string) (parts : list PyBuffer) (c : PyConfig)
  : bio (py_result Z) :=
  with_buffers true parts (λ spans, on_store_released w (CPutParts key spans c)).
Definition put_batch (w : Wrapper) (keys : list string) (buffers : list PyBuffer) (c : PyConfig)
  : bio (py_result Z) :=
  with_buffers false buffers (λ spans, on_store_released w (CPutBatch keys spans c)).
Definition get_hostname (w : Wrapper) : bio (py_result string) := on_store w CGetHostname.

Definition batch_put_from_multi_buffers (w : Wrapper) (keys : list string)
    (all_buffer_ptrs all_sizes : list (list Z)) (c : PyConfig) : bio (py_result (list Z)) :=
  guarded w []
    (on_store_released w
       (CBatchPutFromMultiBuffers keys (CastAddrs2Ptrs all_buffer_ptrs) all_sizes c)).
Definition batch_get_into_multi_buffers (w : Wrapper) (keys : list string)
    (all_buffer_ptrs all_sizes : list (list Z)) (same_node : bool) : bio (py_result (list Z)) :=
  on_store_released w
    (CBatchGetIntoMultiBuffers keys (CastAddrs2Ptrs all_buffer_ptrs) all_sizes same_node).

Definition get_replica_desc (w : Wrapper) (key : string) : bio (py_result (list Descriptor)) :=
  on_store_released w (CGetReplicaDesc key).
Definition batch_get_replica_desc (w : Wrapper) (keys : list string)
  : bio (py_result (list (string * list Descriptor))) :=
  on_store_released w (CBatchGetReplicaDesc keys).
Definition batch_replica_clear (w : Wrapper) (keys : list string) (segment_name : string)
  : bio (py_result (list string)) :=
  guarded w [] (on_store_released w (CBatchReplicaClear keys segment_name)).

(** The tuple of a result. *)
Definition tuple_of {A B} (w : Wrapper) (c : store_call (expected A)) (value : A → B) (refused : B)
  : bio (py_result (B * Z)) :=
  reacquired w c (λ result,
    note (BPython "tuple") ;;;
    ret (match result with
         | Ok v => (value v, 0)
         | Err e => (refused, toInt e)
         end)).

Definition create_copy_task (w : Wrapper) (key : string) (targets : list string)
  : bio (py_result ((Z * Z) * Z)) :=
  tuple_of w (CCreateCopyTask key targets) (λ id, id) (0, 0).
Definition create_move_task (w : Wrapper) (key source target : string)
  : bio (py_result ((Z * Z) * Z)) :=
  tuple_of w (CCreateMoveTask key source target) (λ id, id) (0, 0).
Definition query_task (w : Wrapper) (task_id : Z * Z)
  : bio (py_result (option QueryTaskResponse * Z)) :=
  tuple_of w (CQueryTask task_id) Some None.

(** ** Segments: only with a real client *)

(** The dict is made first, then filled. *)
Definition mount_segment (w : Wrapper) (path : string) (size offset : Z) (protocol location : string)
  : bio (py_result (Z * list string)) :=
  note (BPython "dict") ;;;
  if negb (is_real_store w) then ret (Returned (-1, []))
  else
    let! r := on_store_released w (CMountSegment path offset size protocol location) in
    note (BPython "list") ;;;
    ret r.

Definition unmount_segment (w : Wrapper) (ids : list string) (grace_period_seconds : Z)
  : bio (py_result Z) :=
  if negb (is_real_store w) then ret (Returned (-1))
  else on_store_released w (CUnmountSegment ids grace_period_seconds).

Definition allocate_and_mount_segment (w : Wrapper) (size : Z) (protocol location : string)
  : bio (py_result (Z * list string * Z)) :=
  note (BPython "dict") ;;;
  if negb (is_real_store w) then ret (Returned (-1, [], 0))
  else
    let! r := on_store_released w (CAllocateAndMountSegment size protocol location) in
    note (BPython "list") ;;;
    ret r.

Definition unmount_and_free_segment (w : Wrapper) (ids : list string) (grace_period_seconds : Z)
  : bio (py_result Z) :=
  if negb (is_real_store w) then ret (Returned (-1))
  else on_store_released w (CUnmountAndFreeSegment ids grace_period_seconds).

(** ** Functions of the module *)

Definition bind_to_numa_node (node : Z) : bio (py_result unit) :=
  let! available := call b_numa_available BNumaAvailable in
  if available <? 0 then ret (Returned tt)
  else
    let! max_node := call b_numa_max_node BNumaMaxNode in
    (* an invalid node is only logged *)
    let! rc := call (λ h, b_numa_run h node) (BNumaRun node) in
    note (BNumaPolicy 0 node) ;;;
    ret (Returned tt).
End Bindings.

(** ** What Python sees of a handle and of a response *)

(** [def_buffer]: the pointer and the number of bytes. *)
Definition handle_buffer_info (ptr size : Z) : Z * Z := if 0 <? size then (ptr, size) else (0, 0).

Definition descriptor_repr (size buffer_address : Z) (transport_endpoint : string) : string :=
  "<Descriptor size=" +:+ to_string size +:+ " buffer_address=" +:+ to_string buffer_address
    +:+ " transport_endpoint=" +:+ transport_endpoint +:+ ">".

(** The IPC path of [setup_dummy]. *)
Definition dummy_socket_path (port : Z) : string :=
  "@mooncake_client_" +:+ to_string port +:+ ".sock".

(** [config[key] = value] for every item of the dictionary. *)
Definition config_of_dict (items : list (string * string)) : gmap string string :=
  fold_left (λ m kv, <[kv.1 := kv.2]> m) items ∅.

Inductive ReadTargetMode := AS_STORED | SHARD | FULL.

Definition read_target_mode_str (m : ReadTargetMode) : string :=
  match m with AS_STORED => "as_stored" | SHARD => "shard" | FULL => "full" end.

(** The setter; [parse]: [parse_read_target_mode]. *)
Definition set_read_target_mode (parse : string → option ReadTargetMode) (mode : string)
  : py_result ReadTargetMode :=
  match parse mode with
  | None => Raised "Unsupported ReadTarget mode"
  | Some m => Returned m
  end.
