(* ===== verification/BindingsSpec.v ===== *)
(** * What the Python bindings guarantee

    Every method takes the GIL back, touches Python objects only while it holds it, and
    releases every buffer it requested; which methods survive a store that was closed; and
    which bytes of a Python object reach the client. *)

From S2P Require Import Prelude CxxString StoreTypes Accounting StorePy Bindings.
From stdpp Require Import base strings list sets gmap fin_maps.
From Stdlib Require Import ZArith Lia.

#[local] Open Scope Z_scope.
#[local] Set Default Proof Using "Type".

(** ** The GIL *)

(** The thread's lock after the events, if Python was touched only with the lock and it was
    neither taken nor given up twice. *)
Fixpoint gil_run (held : bool) (evs : list bind_event) : option bool :=
  match evs with
  | [] => Some held
  | BGil b :: evs => if eqb b held then None else gil_run b evs
  | BRequest _ :: evs | BReleaseInfo _ :: evs | BPython _ :: evs =>
      if held then gil_run held evs else None
  | _ :: evs => gil_run held evs
  end.

Lemma gil_run_app held e1 e2 : gil_run held (e1 ++ e2) = gil_run held e1 ≫= λ b, gil_run b e2.
Proof.
  revert held. induction e1 as [|e e1 IH]; intros held; [done|]. cbn.
  destruct e; rewrite ?IH; try done; by destruct (eqb _ _) || destruct held; rewrite ?IH.
Qed.

(** Started with the lock in state [b], the program respects it and ends with [Q]. *)
Definition gil {A} (b : bool) (m : bio A) (Q : A → bool → Prop) : Prop :=
  ∀ h v evs, m h = (v, evs) → ∃ b', gil_run b evs = Some b' ∧ Q v b'.

Lemma gil_ret {A} b (a : A) (Q : A → bool → Prop) : Q a b → gil b (ret a) Q.
Proof. intros Hq h v evs [-> ->]%ret_inv. by exists b. Qed.

Lemma gil_bind {A B} b (m : bio A) (k : A → bio B) P Q :
  gil b m P → (∀ a b', P a b' → gil b' (k a) Q) → gil b (bind m k) Q.
Proof.
  intros Hm Hk h v evs (a & e1 & e2 & R1 & R2 & ->)%bind_inv.
  destruct (Hm _ _ _ R1) as (b1 & H1 & HP). destruct (Hk _ _ HP _ _ _ R2) as (b2 & H2 & HQ).
  exists b2. by rewrite gil_run_app, H1.
Qed.

Lemma gil_call {A} b (f : list bind_event → A) ev (Q : A → bool → Prop) b' :
  (∀ v, gil_run b [ev v] = Some b') → (∀ v, Q v b') → gil b (call f ev) Q.
Proof. intros Hev Hq h v evs [-> ->]%call_inv. by exists b'. Qed.

(** Unless it crashed, the method ends with the lock as it was. *)
Definition keeps_lock {A} (b : bool) (r : py_result A) (b' : bool) : Prop :=
  match r with Crashed => True | _ => b' = b end.

(** ** Requested buffers *)

#[export] Instance PyBuffer_eq_dec : EqDecision PyBuffer.
Proof. solve_decision. Defined.

#[export] Instance buffer_resources : Resources bind_event PyBuffer := {|
  acquires e := match e with BRequest b => [b] | _ => [] end;
  release_of e := match e with BReleaseInfo b => Some (b, 0) | _ => None end |}.

(** What is held after a call: after a crash there is nothing left to hold. *)
Definition balanced {A} (m : bio (py_result A)) : Prop :=
  ∀ h v evs, m h = (v, evs) → v ≠ Crashed → accounts [] evs ([] : list PyBuffer).

Section Spec.
Context `{!BindServices}.
Context (to_py_ret toInt : ErrorCode → Z).

Lemma released_gil {A} (m : bio (py_result A)) :
  gil false m (keeps_lock false) → gil true (released m) (keeps_lock true).
Proof.
  intros Hm. eapply gil_bind; [by apply (gil_call true _ _ (λ _ b, b = false) false)|].
  intros u b ->. eapply gil_bind; [exact Hm|]. intros [a|e|] b Hb; cbn in Hb; [subst..|by apply gil_ret].
  - eapply gil_bind; [by apply (gil_call false _ _ (λ _ b, b = true) true)|]. intros u' b ->. by apply gil_ret.
  - eapply gil_bind; [by apply (gil_call false _ _ (λ _ b, b = true) true)|]. intros u' b ->. by apply gil_ret.
Qed.

Lemma on_store_gil {A} b w (c : store_call A) : gil b (on_store w c) (keeps_lock b).
Proof.
  unfold on_store. destruct (store_ w); [|by apply gil_ret].
  eapply gil_bind; [by apply (gil_call b _ _ (λ _ b', b' = b) b)|]. intros r b' ->. by apply gil_ret.
Qed.

Lemma on_store_released_gil {A} w (c : store_call A) :
  gil true (on_store_released w c) (keeps_lock true).
Proof. apply released_gil, on_store_gil. Qed.

Lemma guarded_gil {A} w (a : A) m : gil true m (keeps_lock true) → gil true (guarded w a m) (keeps_lock true).
Proof. intros Hm. unfold guarded. destruct (negb _); [by apply gil_ret|done]. Qed.

Lemma request_all_gil checked bufs : gil true (request_all checked bufs) (λ _ b, b = true).
Proof.
  induction bufs as [|b bufs IH]; cbn [request_all]; [by apply gil_ret|].
  destruct (negb (pb_ok b)); [by apply gil_ret|].
  eapply gil_bind; [by apply (gil_call true _ _ (λ _ b, b = true) true)|]. intros u b' ->.
  destruct (_ && _); [by apply gil_ret|].
  eapply gil_bind; [exact IH|]. intros r b' ->. by apply gil_ret.
Qed.

Lemma release_infos_gil infos : gil true (release_infos infos) (λ _ b, b = true).
Proof.
  unfold release_infos. eapply gil_bind with (P := λ _ b, b = true); [|intros u b ->; by apply gil_ret].
  induction infos as [|i infos IH]; cbn [mmap]; [by apply gil_ret|].
  eapply gil_bind; [by apply (gil_call true _ _ (λ _ b, b = true) true)|]. intros u b ->.
  eapply gil_bind; [exact IH|]. intros us b ->. by apply gil_ret.
Qed.

Lemma with_buffers_gil {A} checked bufs (k : list (list Z) → bio (py_result A)) :
  (∀ spans, gil true (k spans) (keeps_lock true)) → gil true (with_buffers checked bufs k) (keeps_lock true).
Proof.
  intros Hk. eapply gil_bind; [apply request_all_gil|]. intros [infos [m|]] b ->; cbn [fst snd].
  - eapply gil_bind; [apply release_infos_gil|]. intros u b ->. by apply gil_ret.
  - eapply gil_bind; [apply Hk|]. intros [a|e|] b Hb; cbn in Hb; [subst..|by apply gil_ret].
    + eapply gil_bind; [apply release_infos_gil|]. intros u b ->. by apply gil_ret.
    + eapply gil_bind; [apply release_infos_gil|]. intros u b ->. by apply gil_ret.
Qed.

Lemma reacquired_gil {A B} w (c : store_call A) (k : A → bio B) :
  (∀ a, gil true (k a) (λ _ b, b = true)) → gil true (reacquired w c k) (keeps_lock true).
Proof.
  intros Hk. apply released_gil. eapply gil_bind; [apply on_store_gil|].
  intros [r|e|] b Hb; cbn in Hb; [subst|by apply gil_ret..].
  eapply gil_bind; [by apply (gil_call false _ _ (λ _ b, b = true) true)|]. intros u b ->.
  eapply gil_bind; [apply Hk|]. intros v b ->.
  eapply gil_bind; [by apply (gil_call true _ _ (λ _ b, b = false) false)|]. intros u2 b ->.
  by apply gil_ret.
Qed.

(** A Python object is made. *)
Lemma made_gil {B} what (v : B) : gil true (note (BPython what) ;;; ret v) (λ _ b, b = true).
Proof.
  eapply gil_bind; [by apply (gil_call true _ _ (λ _ b, b = true) true)|]. intros u b ->. by apply gil_ret.
Qed.

Lemma tuple_of_gil {A B} w (c : store_call (expected A)) (value : A → B) refused :
  gil true (tuple_of toInt w c value refused) (keeps_lock true).
Proof. apply reacquired_gil. intros r. apply made_gil. Qed.

Lemma python_gil {A} what (m : bio (py_result A)) :
  gil true m (keeps_lock true) → gil true (note (BPython what) ;;; m) (keeps_lock true).
Proof.
  intros Hm. eapply gil_bind; [by apply (gil_call true _ _ (λ _ b, b = true) true)|]. by intros u b ->.
Qed.

(** ** Balance *)

Lemma balanced_owns {A} (m : bio (py_result A)) (l : list PyBuffer) :
  owns l m (λ _, l) → balanced m.
Proof. intros Hm h v evs R _. specialize (Hm _ _ _ R). intros r. specialize (Hm r). rewrite !holds_nil. lia. Qed.

(** A call that is not about buffers. *)
Lemma quiet_owns {A} (f : list bind_event → A) ev (l : list PyBuffer) :
  (∀ v, acquires (ev v) = [] ∧ release_of (ev v) = None) → owns l (call f ev) (λ _, l).
Proof.
  intros Hv. apply owns_call. intros v r. destruct (Hv v) as [Ha Hr].
  unfold releases, refuses. rewrite Ha, Hr, holds_nil. lia.
Qed.

Lemma note_owns e (l : list PyBuffer) :
  acquires e = [] → release_of e = None → owns l (note e) (λ _, l).
Proof. intros Ha Hr. by apply quiet_owns. Qed.

Lemma on_store_owns {A} w (c : store_call A) (l : list PyBuffer) : owns l (on_store w c) (λ _, l).
Proof.
  unfold on_store. destruct (store_ w); [|by apply owns_ret].
  eapply owns_seq; [by apply quiet_owns|]. intros r. by apply owns_ret.
Qed.

Lemma released_owns {A} (m : bio (py_result A)) l : owns l m (λ _, l) → owns l (released m) (λ _, l).
Proof.
  intros Hm. unfold released. eapply owns_seq; [by apply note_owns|]. intros u.
  eapply owns_seq; [exact Hm|]. intros [a|e|]; [..|by apply owns_ret].
  - eapply owns_seq; [by apply note_owns|]. intros u'. by apply owns_ret.
  - eapply owns_seq; [by apply note_owns|]. intros u'. by apply owns_ret.
Qed.

Lemma request_all_owns checked bufs l :
  owns l (request_all checked bufs) (λ r, r.1 ++ l).
Proof.
  induction bufs as [|b bufs IH]; cbn [request_all]; [by apply owns_ret|].
  destruct (negb (pb_ok b)); [by apply owns_ret|].
  apply owns_seq with (mid := λ _, b :: l); [unfold note; owned_call|]. intros u.
  destruct (_ && _); [by apply owns_ret|].
  apply owns_seq with (mid := λ r, (r.1 ++ l) ++ [b]).
  - eapply owns_conseq; [apply (owns_frame [b]), IH|done|]. intros r. cbn beta. solve_Permutation.
  - intros r. apply owns_ret. cbn. solve_Permutation.
Qed.

Lemma release_infos_owns infos l : owns (infos ++ l) (release_infos infos) (λ _, l).
Proof.
  unfold release_infos. apply owns_seq with (mid := λ _, l); [|intros u; by apply owns_ret].
  induction infos as [|i infos IH]; cbn [mmap]; [by apply owns_ret|]. cbn [app].
  apply owns_seq with (mid := λ _, infos ++ l); [set (k := infos ++ l); unfold note; owned_call|]. intros u.
  eapply owns_seq; [exact IH|]. intros us. by apply owns_ret.
Qed.

Lemma with_buffers_balanced {A} checked bufs (k : list (list Z) → bio (py_result A)) :
  (∀ spans l, owns l (k spans) (λ _, l)) → balanced (with_buffers checked bufs k).
Proof.
  intros Hk h v evs R Hv. apply bind_inv in R as ([infos m] & e1 & e2 & R1 & R & ->).
  pose proof (request_all_owns checked bufs [] _ _ _ R1) as A1. cbn [fst snd] in *.
  rewrite app_nil_r in A1. eapply accounts_app; [exact A1|].
  assert (Hend : ∀ (x : py_result A) h' e, (release_infos infos ;;; ret x) h' = (v, e) → accounts infos e []).
  { intros x h' e R'. rewrite <- (app_nil_r infos).
    refine (owns_seq _ _ _ (λ _, []) (λ _, []) (release_infos_owns infos []) _ _ _ _ R').
    intros u. by apply owns_ret. }
  destruct m as [msg|]; [by eapply Hend|].
  apply bind_inv in R as (x & e3 & e4 & R2 & R & ->).
  eapply accounts_app; [exact (Hk _ infos _ _ _ R2)|].
  destruct x as [a|e|]; [by eapply Hend..|]. apply ret_inv in R as [-> _]. done.
Qed.

Lemma reacquired_owns {A B} w (c : store_call A) (k : A → bio B) (l : list PyBuffer) :
  (∀ a, owns l (k a) (λ _, l)) → owns l (reacquired w c k) (λ _, l).
Proof.
  intros Hk. apply released_owns. eapply owns_seq; [apply on_store_owns|].
  intros [r|e|]; [|by apply owns_ret..].
  eapply owns_seq; [by apply note_owns|]. intros u. eapply owns_seq; [apply Hk|]. intros v.
  eapply owns_seq; [by apply note_owns|]. intros u'. by apply owns_ret.
Qed.

Lemma made_owns {B} what (v : B) (l : list PyBuffer) :
  owns l (note (BPython what) ;;; ret v) (λ _, l).
Proof. eapply owns_seq; [by apply note_owns|]. intros u. by apply owns_ret. Qed.

Lemma tuple_of_owns {A B} w (c : store_call (expected A)) (value : A → B) refused l :
  owns l (tuple_of toInt w c value refused) (λ _, l).
Proof. apply reacquired_owns. intros r. apply made_owns. Qed.

Lemma guarded_balanced {A} w (a : A) m : balanced m → balanced (guarded w a m).
Proof.
  intros Hm. unfold guarded. destruct (negb _); [|done].
  apply (balanced_owns _ []). by apply owns_ret.
Qed.

Lemma store_released_balanced {A} w (c : store_call A) : balanced (on_store_released w c).
Proof. apply (balanced_owns _ []), released_owns, on_store_owns. Qed.

(** ** The methods; with [true], a method checks [store_] before it uses it *)

Inductive method (w : Wrapper) : bool → ∀ A : Type, bio (py_result A) → Prop :=
| m_init_all p d n : method w false _ (init_all w p d n)
| m_alloc_from_mem_pool n : method w false _ (alloc_from_mem_pool w n)
| m_get_offload_rpc_read_count : method w true _ (get_offload_rpc_read_count w)
| m_get key : method w true _ (py_get w key)
| m_get_batch keys : method w true _ (py_get_batch w keys)
| m_close : method w true _ (py_close w)
| m_get_buffer key : method w false _ (get_buffer w key)
| m_batch_get_buffer keys : method w false _ (batch_get_buffer w keys)
| m_remove key force : method w false _ (Bindings.remove w key force)
| m_remove_by_regex pattern force : method w false _ (remove_by_regex w pattern force)
| m_remove_all force : method w false _ (remove_all w force)
| m_batch_remove keys force : method w false _ (batch_remove w keys force)
| m_is_exist key : method w false _ (is_exist w key)
| m_batch_is_exist keys : method w false _ (batch_is_exist w keys)
| m_health_check : method w true _ (py_health_check w)
| m_get_size key : method w false _ (get_size w key)
| m_upsert_from key ptr n c : method w true _ (upsert_from to_py_ret w key ptr n c)
| m_batch_upsert_from keys ptrs ns c : method w true _ (batch_upsert_from to_py_ret w keys ptrs ns c)
| m_upsert key b c : method w true _ (upsert to_py_ret w key b c)
| m_upsert_parts key bs c : method w true _ (Bindings.upsert_parts to_py_ret w key bs c)
| m_upsert_batch keys bs c : method w true _ (upsert_batch to_py_ret w keys bs c)
| m_register_buffer ptr n : method w false _ (register_buffer w ptr n)
| m_unregister_buffer ptr : method w false _ (unregister_buffer w ptr)
| m_register_spdk ptr n : method w false _ (register_spdk_gpu_buffer w ptr n)
| m_unregister_spdk ptr : method w false _ (unregister_spdk_gpu_buffer w ptr)
| m_get_into key ptr n : method w false _ (get_into w key ptr n)
| m_get_into_ranges ptrs keys ds ss ns : method w false _ (get_into_ranges w ptrs keys ds ss ns)
| m_batch_get_into keys ptrs ns : method w false _ (batch_get_into w keys ptrs ns)
| m_put_from key ptr n c : method w true _ (put_from to_py_ret w key ptr n c)
| m_put_from_with_metadata key ptr mp n mn c :
    method w true _ (put_from_with_metadata to_py_ret w key ptr mp n mn c)
| m_batch_put_from keys ptrs ns c : method w false _ (batch_put_from w keys ptrs ns c)
| m_put key b c : method w false _ (put w key b c)
| m_put_parts key bs c : method w false _ (Bindings.put_parts w key bs c)
| m_put_batch keys bs c : method w false _ (put_batch w keys bs c)
| m_get_hostname : method w false _ (get_hostname w)
| m_batch_put_multi keys ptrs ns c : method w true _ (batch_put_from_multi_buffers w keys ptrs ns c)
| m_batch_get_multi keys ptrs ns b : method w false _ (batch_get_into_multi_buffers w keys ptrs ns b)
| m_get_replica_desc key : method w false _ (get_replica_desc w key)
| m_batch_get_replica_desc keys : method w false _ (batch_get_replica_desc w keys)
| m_batch_replica_clear keys seg : method w true _ (batch_replica_clear w keys seg)
| m_create_copy_task key targets : method w false _ (create_copy_task toInt w key targets)
| m_create_move_task key src dst : method w false _ (create_move_task toInt w key src dst)
| m_query_task id : method w false _ (query_task toInt w id)
| m_mount_segment path n o p l : method w true _ (mount_segment w path n o p l)
| m_unmount_segment ids g : method w true _ (unmount_segment w ids g)
| m_allocate_and_mount n p l : method w true _ (allocate_and_mount_segment w n p l)
| m_unmount_and_free ids g : method w true _ (unmount_and_free_segment w ids g).

Ltac unfold_method :=
  unfold init_all, alloc_from_mem_pool, get_offload_rpc_read_count, py_get, py_get_batch, py_close, get_buffer, batch_get_buffer,
    Bindings.remove, remove_by_regex, remove_all, batch_remove, is_exist, batch_is_exist, py_health_check,
    get_size, upsert_from, batch_upsert_from, upsert, Bindings.upsert_parts, upsert_batch,
    register_buffer, unregister_buffer, register_spdk_gpu_buffer, unregister_spdk_gpu_buffer,
    get_into, get_into_ranges, batch_get_into, put_from, put_from_with_metadata, batch_put_from, put,
    Bindings.put_parts, put_batch, get_hostname, batch_put_from_multi_buffers,
    batch_get_into_multi_buffers, get_replica_desc, batch_get_replica_desc, batch_replica_clear,
    create_copy_task, create_move_task, query_task, unmount_segment, unmount_and_free_segment,
    mount_segment, allocate_and_mount_segment.

(** The lock along the structure of a method. *)
Ltac lock :=
  match goal with
  | |- gil true (if ?b then _ else _) _ => destruct b; lock
  | |- gil true (ret _) _ => by apply gil_ret
  | |- gil true (on_store_released _ _) _ => apply on_store_released_gil
  | |- gil true (on_store _ _) _ => apply on_store_gil
  | |- gil true (guarded _ _ _) _ => apply guarded_gil; lock
  | |- gil true (with_buffers _ _ _) _ => apply with_buffers_gil; intros ?; lock
  | |- gil true (tuple_of _ _ _ _ _) _ => apply tuple_of_gil
  | |- gil true (reacquired _ _ _) _ => apply reacquired_gil; intros ?; case_match; first [apply made_gil|by apply gil_ret]
  | |- gil true (bind (note (BPython _)) _) _ => apply python_gil; lock
  end.

(** A list made after a call. *)
Lemma after_call_gil {A} (m : bio (py_result A)) what :
  gil true m (keeps_lock true) → returns m (λ r, r ≠ Crashed) →
  gil true (let! r := m in note (BPython what) ;;; ret r) (keeps_lock true).
Proof.
  intros Hm Hr h v evs R. pose proof R as R'. revert R.
  apply (gil_bind _ _ _ (λ r b, r ≠ Crashed ∧ b = true)).
  - intros h' r e R1. destruct (Hm _ _ _ R1) as (b & Hb & Hk). exists b. split; [done|].
    specialize (Hr _ _ _ R1). by destruct r.
  - intros r b [Hne ->]. eapply gil_bind; [by apply (gil_call true _ _ (λ _ b, b = true) true)|].
    intros u b ->. apply gil_ret. by destruct r.
Qed.

Lemma real_store_not_crashed {A} w (c : store_call A) :
  store_ w = true → returns (on_store_released w c) (λ r, r ≠ Crashed).
Proof.
  intros Hs. unfold on_store_released, released. apply returns_bind. intros u.
  apply returns_seq with (P := λ r, r ≠ Crashed).
  - unfold on_store. rewrite Hs. apply returns_bind. intros r. by apply returns_ret.
  - intros [a|e|] Hne; [..|done]; apply returns_bind; intros u'; by apply returns_ret.
Qed.

Lemma is_real_store_set w : is_real_store w = true → store_ w = true.
Proof. unfold is_real_store. by destruct (store_ w). Qed.

Lemma method_gil w checked A (m : bio (py_result A)) : method w checked A m → gil true m (keeps_lock true).
Proof.
  intros [];
    try (unfold_method; lock).
  - apply python_gil. destruct (is_real_store w) eqn:E; cbn; [|by apply gil_ret].
    apply after_call_gil; [apply on_store_released_gil|]. by apply real_store_not_crashed, is_real_store_set.
  - apply python_gil. destruct (is_real_store w) eqn:E; cbn; [|by apply gil_ret].
    apply after_call_gil; [apply on_store_released_gil|]. by apply real_store_not_crashed, is_real_store_set.
Qed.

(** ** Balance of all methods *)

Lemma python_owns {A} what (m : bio (py_result A)) (l : list PyBuffer) :
  owns l m (λ _, l) → owns l (note (BPython what) ;;; m) (λ _, l).
Proof. intros Hm. eapply owns_seq; [by apply note_owns|]. by intros u. Qed.

Lemma store_released_owns {A} w (c : store_call A) (l : list PyBuffer) :
  owns l (on_store_released w c) (λ _, l).
Proof. apply released_owns, on_store_owns. Qed.

Ltac book :=
  match goal with
  | |- balanced (if ?b then _ else _) => destruct b; book
  | |- balanced (guarded _ _ _) => apply guarded_balanced; book
  | |- balanced (with_buffers _ _ _) => apply with_buffers_balanced; intros; apply store_released_owns
  | |- balanced (tuple_of _ _ _ _ _) => apply (balanced_owns _ []), tuple_of_owns
  | |- balanced _ => apply (balanced_owns _ []); book
  | |- owns _ (if ?b then _ else _) _ => destruct b; book
  | |- owns _ (ret _) _ => by apply owns_ret
  | |- owns _ (on_store_released _ _) _ => apply store_released_owns
  | |- owns _ (on_store _ _) _ => apply on_store_owns
  | |- owns _ (guarded _ _ _) _ => unfold guarded; book
  | |- owns _ (reacquired _ _ _) _ => apply reacquired_owns; intros ?; case_match; first [apply made_owns|by apply owns_ret]
  | |- owns _ (bind (note (BPython _)) _) _ => apply python_owns; book
  | |- owns _ (bind _ _) _ => eapply owns_seq; [book|intros ?; book]
  end.

Lemma method_balanced w checked A (m : bio (py_result A)) : method w checked A m → balanced m.
Proof. intros []; unfold_method; book. Qed.

(** ** Null pointers *)

Lemma on_store_returned {A} w (c : store_call A) :
  store_ w = true → returns (on_store w c) (λ r, ∃ a, r = Returned a).
Proof. intros Hs. unfold on_store. rewrite Hs. apply returns_bind. intros r. apply returns_ret. by exists r. Qed.

Lemma on_store_crashes {A} w (c : store_call A) :
  store_ w = false → returns (on_store w c) (λ r, r = Crashed).
Proof. intros Hs. unfold on_store. rewrite Hs. by apply returns_ret. Qed.

Lemma reacquired_safe {A B} w (c : store_call A) (k : A → bio B) :
  store_ w = true → returns (reacquired w c k) (λ r, r ≠ Crashed).
Proof.
  intros Hs. unfold reacquired, released. apply returns_bind. intros u.
  apply returns_seq with (P := λ r, r ≠ Crashed).
  - eapply returns_seq; [by apply on_store_returned|]. intros r [a ->]. frame_run.
  - intros [a|e|] Hne; [..|done]; apply returns_bind; intros u'; by apply returns_ret.
Qed.

Lemma tuple_of_safe {A B} w (c : store_call (expected A)) (value : A → B) refused :
  store_ w = true → returns (tuple_of toInt w c value refused) (λ r, r ≠ Crashed).
Proof. apply reacquired_safe. Qed.

Lemma with_buffers_safe {A} checked bufs (k : list (list Z) → bio (py_result A)) :
  (∀ spans, returns (k spans) (λ r, r ≠ Crashed)) →
  returns (with_buffers checked bufs k) (λ r, r ≠ Crashed).
Proof.
  intros Hk. unfold with_buffers. apply returns_bind. intros [infos [m|]]; cbn [fst snd].
  - frame_run.
  - eapply returns_seq; [apply Hk|]. intros [a|e|] Hne; [..|done]; frame_run.
Qed.

Lemma initialized_has_store w : is_client_initialized w = true → store_ w = true.
Proof. unfold is_client_initialized. by destruct (store_ w). Qed.

Lemma guarded_safe {A} w (a : A) m :
  (store_ w = true → returns m (λ r, r ≠ Crashed)) → returns (guarded w a m) (λ r, r ≠ Crashed).
Proof.
  intros Hm. unfold guarded. destruct (is_client_initialized w) eqn:E; cbn; [|by apply returns_ret].
  by apply Hm, initialized_has_store.
Qed.

Lemma on_store_safe {A} w (c : store_call A) :
  store_ w = true → returns (on_store w c) (λ r, r ≠ Crashed).
Proof. intros Hs h v evs R. by destruct (on_store_returned _ _ Hs _ _ _ R) as [a ->]. Qed.

(** A method that ends in a result or an exception. *)
Ltac safe :=
  match goal with
  | |- returns (guarded _ _ _) _ => apply guarded_safe; intros ?; safe
  | |- returns (with_buffers _ _ _) _ => apply with_buffers_safe; intros ?; safe
  | |- returns (tuple_of _ _ _ _ _) _ => by apply tuple_of_safe
  | |- returns (reacquired _ _ _) _ => by apply reacquired_safe
  | |- returns (on_store_released _ _) _ => by apply real_store_not_crashed
  | |- returns (on_store _ _) _ => by apply on_store_safe
  | |- returns (ret _) _ => by apply returns_ret
  | |- returns (bind (note _) _) _ => apply returns_bind; intros ?; safe
  end.

Lemma method_safe w checked A (m : bio (py_result A)) :
  method w checked A m → checked = true ∨ store_ w = true → returns m (λ r, r ≠ Crashed).
Proof.
  intros [] Hs; unfold_method; try (destruct Hs as [Hs|Hs]; [done|]; safe); try (clear Hs; safe).
  - destruct (is_real_store w) eqn:E; [|by apply returns_ret]. by apply on_store_safe, is_real_store_set.
  - destruct (store_ w) eqn:E; [by apply on_store_safe|by apply returns_ret].
  - destruct (store_ w) eqn:E; [by apply on_store_safe|by apply returns_ret].
  - apply returns_bind. intros u. destruct (is_real_store w) eqn:E; cbn; [|by apply returns_ret].
    eapply returns_seq; [by apply real_store_not_crashed, is_real_store_set|]. intros r Hr. frame_run.
  - destruct (is_real_store w) eqn:E; cbn; [|by apply returns_ret].
    by apply real_store_not_crashed, is_real_store_set.
  - apply returns_bind. intros u. destruct (is_real_store w) eqn:E; cbn; [|by apply returns_ret].
    eapply returns_seq; [by apply real_store_not_crashed, is_real_store_set|]. intros r Hr. frame_run.
  - destruct (is_real_store w) eqn:E; cbn; [|by apply returns_ret].
    by apply real_store_not_crashed, is_real_store_set.
Qed.

(** A method that never gets a result. *)
Definition no_result {A} (r : py_result A) : Prop := ∀ a, r ≠ Returned a.

Lemma released_crashes {A} (m : bio (py_result A)) :
  returns m (λ r, r = Crashed) → returns (released m) (λ r, r = Crashed).
Proof.
  intros Hm. unfold released. apply returns_bind. intros u. eapply returns_seq; [exact Hm|].
  intros r ->. by apply returns_ret.
Qed.

Lemma crash_no_result {A} (m : bio (py_result A)) : returns m (λ r, r = Crashed) → returns m no_result.
Proof. intros Hm h v evs R a. by rewrite (Hm _ _ _ R). Qed.

Lemma with_buffers_no_result {A} checked bufs (k : list (list Z) → bio (py_result A)) :
  (∀ spans, returns (k spans) (λ r, r = Crashed)) → returns (with_buffers checked bufs k) no_result.
Proof.
  intros Hk. unfold with_buffers. apply returns_bind. intros [infos [m|]]; cbn [fst snd].
  - apply returns_bind. intros u. by apply returns_ret.
  - eapply returns_seq; [apply Hk|]. intros r ->. by apply returns_ret.
Qed.

Ltac crash :=
  match goal with
  | |- returns (with_buffers _ _ _) _ =>
      apply with_buffers_no_result; intros ?; by apply released_crashes, on_store_crashes
  | |- returns (on_store_released _ _) _ => by apply crash_no_result, released_crashes, on_store_crashes
  | |- returns (on_store _ _) _ => by apply crash_no_result, on_store_crashes
  | |- returns (tuple_of _ _ _ _ _) _ =>
      apply crash_no_result, released_crashes; eapply returns_seq; [by apply on_store_crashes|];
      intros r ->; by apply returns_ret
  end.

Lemma unchecked_crash w A (m : bio (py_result A)) :
  method w false A m → store_ w = false → returns m no_result.
Proof.
  intros Hm Hs. remember false as checked eqn:E. destruct Hm; try discriminate; unfold_method; crash.
Qed.

(** C21: Every method that the module forwards to a client (the methods of [method]: reading,
    writing, removing, registering, segments, tasks, [close]; set-up, the tensor methods and
    [bind_to_numa_node] are not of them) ends with the interpreter lock held
    unless the process crashes, has touched Python objects and buffers only while it held
    the lock, never took or gave it up twice, and has released every buffer it requested
    exactly once, also when an argument is refused half way. *)
Theorem bindings_keep_the_lock w checked A (m : bio (py_result A)) h r evs :
  method w checked A m → m h = (r, evs) →
  (∃ held, gil_run true evs = Some held ∧ (r ≠ Crashed → held = true)) ∧
  (r ≠ Crashed → ∀ b : PyBuffer, times acquires evs b = times releases evs b).
Proof.
  intros Hm R. split.
  - destruct (method_gil _ _ _ _ Hm _ _ _ R) as (b & Hb & Hk). exists b. split; [done|].
    intros Hne. by destruct r.
  - intros Hne b. pose proof (method_balanced _ _ _ _ Hm _ _ _ R Hne b) as Hb.
    rewrite !holds_nil in Hb. enough (times refuses evs b = 0%nat) by lia.
    unfold times. replace (evs ≫= refuses) with (@nil PyBuffer); [done|].
    clear. induction evs as [|e evs IH]; [done|]. cbn. rewrite <- IH. by destruct e.
Qed.

(** C34: A method that checks the store never uses a null pointer; one that does not
    never does while there is a store; and after [close], which drops the store, no call of
    such a method returns: it crashes the interpreter, or raises because of a buffer. *)
Theorem closed_store_calls w checked A (m : bio (py_result A)) h r evs :
  method w checked A m → m h = (r, evs) →
  (checked = true ∨ store_ w = true → r ≠ Crashed) ∧
  (checked = false → store_ w = false → ∀ a, r ≠ Returned a).
Proof.
  intros Hm R. split.
  - intros Hc. exact (method_safe _ _ _ _ Hm Hc _ _ _ R).
  - intros -> Hs. exact (unchecked_crash _ _ _ Hm Hs _ _ _ R).
Qed.
End Spec.

(** ** The bytes that reach the client *)

(** A buffer object of which [request] describes all the memory. *)
Definition whole_buffer (b : PyBuffer) : Prop :=
  pb_ok b = true ∧ 0 ≤ pb_size b ∧ 0 < pb_itemsize b ∧
  Z.of_nat (length (pb_memory b)) = pb_size b * pb_itemsize b.

Lemma span_exact_iff b :
  whole_buffer b → span_of b = bytes_of b ↔ pb_itemsize b = 1 ∨ pb_size b = 0.
Proof.
  intros (_ & Hs & Hi & Hl). unfold span_of, bytes_of. split.
  - intros E%(f_equal length). rewrite !length_take in E. nia.
  - intros [->| ->]; [by rewrite Z.mul_1_r|done].
Qed.

(** A one-dimensional buffer of bytes. *)
Definition byte_part (b : PyBuffer) : bool :=
  pb_ok b && ((pb_ndim b =? 1) && (pb_itemsize b =? 1)).

(** The values of the calls that store objects. *)
Definition stored_values (e : bind_event) : option (list (list Z)) :=
  match e with
  | BStore (CPut _ v _) _ | BStore (CUpsert _ v _) _ => Some [v]
  | BStore (CPutParts _ vs _) _ | BStore (CUpsertParts _ vs _) _
  | BStore (CPutBatch _ vs _) _ | BStore (CUpsertBatch _ vs _) _ => Some vs
  | _ => None
  end.

(** Events between the calls. *)
Definition no_call (e : bind_event) : Prop :=
  match e with BStore _ _ => False | _ => True end.

Lemma no_call_values evs : Forall no_call evs → omap stored_values evs = [].
Proof. induction 1 as [|e evs He _ IH]; [done|]. by destruct e. Qed.

Section Values.
Context `{!BindServices} (to_py_ret : ErrorCode → Z).

(** All buffers are requested, or an exception is thrown at the first that is not accepted. *)
Definition part_accepted (checked : bool) (b : PyBuffer) : bool :=
  if checked then byte_part b else pb_ok b.

Lemma requested checked bufs h r evs :
  request_all checked bufs h = (r, evs) →
  Forall no_call evs ∧
  if forallb (part_accepted checked) bufs then r = (bufs, None) else ∃ m, r.2 = Some m.
Proof.
  revert h r evs. induction bufs as [|b bufs IH]; intros h r evs R; cbn [request_all forallb] in *.
  { by apply ret_inv in R as [-> ->]. }
  unfold part_accepted at 1, byte_part. destruct (pb_ok b); cbn [negb andb] in *; cycle 1.
  { apply ret_inv in R as [-> ->]. split; [done|]. destruct checked; by eexists. }
  apply bind_inv in R as (u & e1 & e2 & [_ ->]%call_inv & R & ->).
  assert (Hb : (if checked then (pb_ndim b =? 1) && (pb_itemsize b =? 1) else true)
    = negb (checked && (negb (pb_ndim b =? 1) || negb (pb_itemsize b =? 1)))).
  { by destruct checked, (pb_ndim b =? 1), (pb_itemsize b =? 1). }
  rewrite Hb. destruct (checked && _); cbn [negb andb].
  { apply ret_inv in R as [-> ->]. split; [by repeat constructor|by eexists]. }
  apply bind_inv in R as ([infos msg] & e3 & e4 & [Hv Hr]%IH & [-> ->]%ret_inv & ->).
  split; [rewrite app_nil_r; by constructor|].
  destruct (forallb _ bufs); [by injection Hr as -> ->|exact Hr].
Qed.

Lemma released_infos_quiet infos h u evs :
  release_infos infos h = (u, evs) → Forall no_call evs.
Proof.
  intros R. apply bind_inv in R as (us & e1 & e2 & R & [_ ->]%ret_inv & ->). rewrite app_nil_r.
  revert h us e1 R. induction infos as [|i infos IH]; intros h us e1 R.
  { by apply ret_inv in R as [_ ->]. }
  apply bind_inv in R as (u1 & e3 & e4 & [_ ->]%call_inv & R & ->).
  apply bind_inv in R as (us1 & e5 & e6 & R%IH & [_ ->]%ret_inv & ->).
  rewrite app_nil_r. by constructor.
Qed.

(** A method that requests buffers and makes one call: the call is made with the spans of
    the buffers, and its answer is returned; or a buffer is not accepted, the method raises
    and makes no call. *)
Lemma with_buffers_call {A} w checked bufs (c : list (list Z) → store_call A) h r evs :
  store_ w = true →
  with_buffers checked bufs (λ spans, on_store_released w (c spans)) h = (r, evs) →
  if forallb (part_accepted checked) bufs
  then ∃ pre a post, evs = pre ++ BStore (c (map span_of bufs)) a :: post ∧ r = Returned a ∧
    a = b_store (h ++ pre) A (c (map span_of bufs)) ∧ Forall no_call pre ∧ Forall no_call post
  else Forall no_call evs ∧ ∃ m, r = Raised m.
Proof.
  intros Hs R. apply bind_inv in R as ([infos msg] & e1 & e2 & [He1 Hok]%requested & R & ->).
  cbn [fst snd] in *. destruct (forallb _ bufs); cycle 1.
  { destruct Hok as [m ->].
    apply bind_inv in R as (u & e3 & e4 & R%released_infos_quiet & [-> ->]%ret_inv & ->).
    rewrite app_nil_r. split; [by apply Forall_app|by exists m]. }
  injection Hok as -> ->.
  apply bind_inv in R as (v & e3 & e4 & R2 & R & ->).
  unfold on_store_released, released, on_store in R2. rewrite Hs in R2.
  apply bind_inv in R2 as (u & e5 & e6 & [_ ->]%call_inv & R2 & ->).
  apply bind_inv in R2 as (x & e7 & e8 & R2 & R3 & ->).
  apply bind_inv in R2 as (rc & e9 & e10 & [-> ->]%call_inv & [-> ->]%ret_inv & ->).
  apply bind_inv in R3 as (u2 & e11 & e12 & [_ ->]%call_inv & [-> ->]%ret_inv & ->).
  apply bind_inv in R as (u3 & e5 & e6 & R%released_infos_quiet & [-> ->]%ret_inv & ->).
  exists (e1 ++ [BGil false]), (b_store ((h ++ e1) ++ [BGil false]) A (c (map span_of bufs))), (BGil true :: e5).
  split_and!.
  - rewrite <- (app_assoc e1). cbn [app]. by rewrite app_nil_r.
  - reflexivity.
  - by rewrite app_assoc.
  - apply Forall_app. split; [done|by repeat constructor].
  - by constructor.
Qed.

Lemma with_buffers_has_store {A} w checked bufs (c : list (list Z) → store_call A) h a evs :
  with_buffers checked bufs (λ spans, on_store_released w (c spans)) h = (Returned a, evs) →
  store_ w = true.
Proof.
  intros R. apply bind_inv in R as ([infos [m|]] & e1 & e2 & _ & R & _); cbn [fst snd] in R.
  { by apply bind_inv in R as (? & ? & ? & _ & [? _]%ret_inv & _). }
  apply bind_inv in R as (v & e3 & e4 & R2 & R & _). destruct (store_ w) eqn:E; [done|].
  apply bind_inv in R2 as (? & ? & ? & _ & R2 & _). unfold on_store in R2. rewrite E in R2.
  apply bind_inv in R2 as (y & ? & ? & [-> _]%ret_inv & [-> _]%ret_inv & _).
  by apply ret_inv in R as [? _].
Qed.

Lemma byte_spans bufs : forallb byte_part bufs = true → map span_of bufs = map bytes_of bufs.
Proof.
  intros E. apply map_ext_in. intros x Hx. rewrite forallb_forall in E. specialize (E x Hx).
  unfold byte_part in E. apply andb_true_iff in E as [_ [_ E%Z.eqb_eq]%andb_true_iff].
  unfold span_of, bytes_of. by rewrite E, Z.mul_1_r.
Qed.

(** A call made with the spans of the buffers passes on exactly those. *)
Lemma with_buffers_values w checked bufs (c : list (list Z) → store_call Z) f h r evs :
  store_ w = true →
  (∀ spans rc, stored_values (BStore (c spans) rc) = Some (f spans)) →
  with_buffers checked bufs (λ spans, on_store_released w (c spans)) h = (r, evs) →
  if forallb (part_accepted checked) bufs
  then omap stored_values evs = [f (map span_of bufs)]
  else omap stored_values evs = [] ∧ ∃ m, r = Raised m.
Proof.
  intros Hs Hc R. apply with_buffers_call in R; [|done]. destruct (forallb _ bufs); cycle 1.
  { destruct R as [Hq Hm]. split; [by apply no_call_values|done]. }
  destruct R as (pre & a & post & -> & _ & _ & Hpre & Hpost).
  rewrite omap_app, (no_call_values pre) by done.
  cbn [app]. change (omap stored_values (BStore (c (map span_of bufs)) a :: post))
    with (match stored_values (BStore (c (map span_of bufs)) a) with
          | Some y => y :: omap stored_values post | None => omap stored_values post end).
  by rewrite Hc, no_call_values.
Qed.

(** What a call with parts stores: all the bytes of the parts, if they are accepted. *)
Definition parts_stored (bufs : list PyBuffer) (r : py_result Z) (evs : list bind_event) : Prop :=
  if forallb byte_part bufs then omap stored_values evs = [map bytes_of bufs]
  else omap stored_values evs = [] ∧ ∃ m, r = Raised m.

Lemma parts_call_stored w bufs (c : list (list Z) → store_call Z) h r evs :
  store_ w = true →
  (∀ spans rc, stored_values (BStore (c spans) rc) = Some spans) →
  with_buffers true bufs (λ spans, on_store_released w (c spans)) h = (r, evs) →
  parts_stored bufs r evs.
Proof.
  intros Hs Hc R. apply (with_buffers_values w true bufs c (λ vs, vs)) in R; [|done..].
  unfold parts_stored. change (part_accepted true) with byte_part in R.
  destruct (forallb byte_part bufs) eqn:E; [|done]. by rewrite R, byte_spans.
Qed.

End Values.

(** ** Examples *)

Definition sample_bindings : BindServices := {|
  b_store _ A c := match c in store_call A return A with
    | CInitAll _ _ _ => 0 | CAllocFromMemPool _ => 4096
    | CGetBuffer _ => Some 4096 | CBatchGetBuffer keys => map (λ _, Some 4096) keys
    | CRemove _ _ => 0 | CRemoveByRegex _ _ => 1 | CRemoveAll _ => 2
    | CBatchRemove keys _ => map (λ _, 0) keys | CIsExist _ => 1
    | CBatchIsExist keys => map (λ _, 1) keys | CHealthCheck => 0 | CGetSize _ => 8
    | CUpsertFrom _ _ _ _ => 0 | CBatchUpsertFrom keys _ _ _ => map (λ _, 0) keys
    | CUpsert _ _ _ => 0 | CUpsertParts _ _ _ => 0 | CUpsertBatch _ _ _ => 0
    | CRegisterBuffer _ _ => 0 | CUnregisterBuffer _ => 0
    | CRegisterSpdkGpuBuffer _ _ => 0 | CUnregisterSpdkGpuBuffer _ => 0
    | CGetInto _ _ n => n | CGetIntoRanges _ _ _ _ ns => ns
    | CBatchGetInto _ _ ns => ns | CPutFrom _ _ _ _ => 0 | CPutFromWithMetadata _ _ _ _ _ _ => 0
    | CBatchPutFrom keys _ _ _ => map (λ _, 0) keys | CPut _ _ _ => 0 | CPutParts _ _ _ => 0
    | CPutBatch _ _ _ => 0 | CGetHostname => "host"
    | CBatchPutFromMultiBuffers keys _ _ _ => map (λ _, 0) keys
    | CBatchGetIntoMultiBuffers keys _ _ _ => map (λ _, 0) keys
    | CGetReplicaDesc _ => [] | CBatchGetReplicaDesc _ => [] | CBatchReplicaClear keys _ => keys
    | CCreateCopyTask _ _ => Ok (1, 2) | CCreateMoveTask _ _ _ => Ok (1, 2)
    | CQueryTask _ => Err INVALID_PARAMS
    | CMountSegment _ _ _ _ _ => (0, ["1-2"]) | CUnmountSegment _ _ => 0
    | CAllocateAndMountSegment n _ _ => (0, ["1-2"], n) | CUnmountAndFreeSegment _ _ => 0
    | CGetOffloadRpcReadCount => 0 | CTearDownAll => 0
    end;
  b_numa_available _ := 0;
  b_numa_max_node _ := 1;
  b_numa_run _ _ := 0 |}.

Definition open_store : Wrapper := MkWrapper true false true.
Definition closed_store : Wrapper := MkWrapper false false false.
Definition plain_config : PyConfig := MkPyConfig (MkConfig 1 0 "" false) [] None.

(** Two items of four bytes. *)
Definition wide_buffer : PyBuffer := MkPyBuffer true 2 4 1 [1; 2; 3; 4; 5; 6; 7; 8].
Definition byte_buffer : PyBuffer := MkPyBuffer true 3 1 1 [7; 8; 9].


Lemma bindings_keep_the_lock_witness :
  times acquires (@Bindings.put_parts sample_bindings open_store "k" [byte_buffer; wide_buffer] plain_config []).2 byte_buffer
  = times releases (@Bindings.put_parts sample_bindings open_store "k" [byte_buffer; wide_buffer] plain_config []).2 byte_buffer.
Proof.
  pose (run := @Bindings.put_parts sample_bindings open_store "k" [byte_buffer; wide_buffer] plain_config []).
  destruct (@bindings_keep_the_lock sample_bindings (λ _, -1) (λ _, -1) open_store false Z
    (@Bindings.put_parts sample_bindings open_store "k" [byte_buffer; wide_buffer] plain_config) []
    run.1 run.2) as [_ Hb].
  - apply m_put_parts.
  - apply surjective_pairing.
  - apply Hb. by vm_compute.
Defined.

Lemma closed_store_calls_witness :
  (@is_exist sample_bindings closed_store "k" []).1 = Crashed ∧
  (@py_health_check sample_bindings closed_store []).1 ≠ Crashed.
Proof.
  destruct (@closed_store_calls sample_bindings (λ _, -1) (λ _, -1) closed_store true Z
    (@py_health_check sample_bindings closed_store) []
    (@py_health_check sample_bindings closed_store []).1
    (@py_health_check sample_bindings closed_store []).2) as [Hc _].
  - apply m_health_check.
  - apply surjective_pairing.
  - split; [by vm_compute|]. apply Hc. by left.
Defined.

(** An invalid NUMA node is bound to all the same. *)
Theorem invalid_numa_node_bound :
  BNumaPolicy 0 7 ∈ (@bind_to_numa_node sample_bindings 7 []).2.
Proof. apply list_elem_of_In. vm_compute. tauto. Qed.
