(* ===== verification/RealPublic.v ===== *)
(** * The methods of the real client that Python calls ([mooncake-store/src/real_client.cpp])

    They run the internal operation under a timer, report the bytes that moved, and turn its
    result into the numbers Python sees.  [execute_timed_operation] and the metrics are
    external; the bytes that are reported are computed here.  [store_program] gives, for
    every call of the bindings that is modelled, the program of the real client. *)

From S2P Require Import Prelude CxxString StoreTypes ReplicaPolicy Samples PutPath BatchPut GetPath DummyMap RangedRead RealWrite RealGetInto RealBuffers DummyRpc StorePy Bindings.
From stdpp Require Import base strings list sets gmap.
From Stdlib Require Import ZArith Lia.

#[local] Open Scope Z_scope.
#[local] Set Default Proof Using "Type".

(** What [ObserveTransferOperation] is told. *)
Record observation := MkObservation {
  ob_kind : TransferOperationKind; ob_name : string; ob_bytes : Z }.

(** [client_->ObserveTransferOperation(...)]; [None]: [client_] is null. *)
Definition observe (rc : RealClient) (kind : TransferOperationKind) (name : string) (bytes : Z)
  : option observation :=
  match client_ rc with
  | Some _ => Some (MkObservation kind name bytes)
  | None => None
  end.

(** [sum_buffer_handle_sizes]; [None]: a null handle. *)
Definition sum_buffer_handle_sizes (sizes : list (option Z)) : Z :=
  fold_left (λ total size, match size with Some n => u64_add total n | None => total end) sizes 0.

Section Public.
Context `{!MasterClient, !TransferSubmitter, !HotCache, !StorageBackend, !Clock, !RealServices}.
Context (iteration : ∀ A : Type, gmap string A → list (string * A)).
Context (DetermineReplicaWriteMode : ReplicateConfig → ReplicaWriteMode).
Context (toString : ErrorCode → string) (default_config : ReplicateConfig).
Context (toInt : ErrorCode → Z).
Context (ExistKey : ObjectKey → rio (expected bool)).
Context (BatchExistKey : list ObjectKey → rio (list (expected bool))).
(** The operation, whether its result counts as a success, and what is then observed. *)
Context (execute_timed_operation : ∀ A : Type, rio A → (A → bool) → (A → option observation) → rio A).
Context (rc : RealClient) (alloc : option Allocator).

Definition timed_write (name : string) (bytes : Z) (op : rio (expected unit)) : rio Z :=
  let! result := execute_timed_operation _ op has_value (λ _, observe rc kWrite name bytes) in
  ret (to_py_ret toInt result).

Definition put (key : ObjectKey) (value : string) (config : ReplicateConfig) : rio Z :=
  timed_write "put" (size_bytes value) (put_internal DetermineReplicaWriteMode rc key value config alloc).

Definition put_batch (keys values : list string) (config : ReplicateConfig) : rio Z :=
  timed_write "put_batch" (sum_value_sizes values)
    (put_batch_internal DetermineReplicaWriteMode toString default_config (iteration _) rc keys values
       config alloc).

Definition put_parts (key : ObjectKey) (values : list string) (config : ReplicateConfig) : rio Z :=
  timed_write "put_parts" (sum_value_sizes values)
    (put_parts_internal DetermineReplicaWriteMode rc key values config alloc).

Definition upsert (key : ObjectKey) (value : string) (config : ReplicateConfig) : rio Z :=
  timed_write "upsert" (size_bytes value) (upsert_internal rc key value config alloc).

Definition upsert_parts (key : ObjectKey) (values : list string) (config : ReplicateConfig) : rio Z :=
  timed_write "upsert_parts" (sum_value_sizes values)
    (upsert_parts_internal rc key values config alloc).

Definition upsert_batch (keys values : list string) (config : ReplicateConfig) : rio Z :=
  timed_write "upsert_batch" (sum_value_sizes values)
    (upsert_batch_internal toString rc keys values config alloc).

Definition put_from (key : ObjectKey) (buffer size : Z) (config : ReplicateConfig) : rio Z :=
  timed_write "put_from" size (put_from_internal DetermineReplicaWriteMode rc key buffer size config).

Definition upsert_from (key : ObjectKey) (buffer size : Z) (config : ReplicateConfig) : rio Z :=
  timed_write "upsert_from" size (upsert_from_internal rc key buffer size config).

(** Batches: observed whatever the results. *)
Definition timed_batch {A} (kind : TransferOperationKind) (name : string) (code : expected A → Z)
    (bytes : list Z → Z) (op : rio (list (expected A))) : rio (list Z) :=
  let! internal_results := execute_timed_operation _ op (λ _, true)
                             (λ rs, observe rc kind name (bytes (code <$> rs))) in
  ret (code <$> internal_results).

Definition batch_put_from (keys : list string) (buffers sizes : list Z) (config : ReplicateConfig)
  : rio (list Z) :=
  timed_batch kWrite "batch_put_from" (to_py_ret toInt) (λ rs, sum_successful_sizes rs sizes)
    (batch_put_from_internal DetermineReplicaWriteMode toString default_config (iteration _) rc keys
       buffers sizes config).

Definition batch_upsert_from (keys : list string) (buffers sizes : list Z) (config : ReplicateConfig)
  : rio (list Z) :=
  timed_batch kWrite "batch_upsert_from" (to_py_ret toInt) (λ rs, sum_successful_sizes rs sizes)
    (batch_upsert_from_internal toString rc keys buffers sizes config).

Definition batch_put_from_multi_buffers (keys : list string) (all_buffers sizes : list (list Z))
    (config : ReplicateConfig) : rio (list Z) :=
  timed_batch kWrite "batch_put_from_multi_buffers" (to_py_ret toInt)
    (λ rs, sum_successful_nested_sizes rs sizes)
    (batch_put_from_multi_buffers_internal iteration DetermineReplicaWriteMode toString
       default_config rc keys all_buffers sizes config).

Definition batch_get_into (keys : list string) (buffers sizes : list Z) : rio (list Z) :=
  timed_batch kRead "batch_get_into" (to_py_size toInt) sum_positive_results
    (batch_get_into_internal iteration rc keys buffers sizes).

(** The results are [int]s, the sizes are not; [None]: the operation read outside its
    arguments. *)
Definition batch_get_into_multi_buffers (keys : list string) (all_buffers all_sizes : list (list Z))
    (prefer_alloc_in_same_node : bool) : rio (option (list Z)) :=
  let! internal_results :=
    execute_timed_operation _
      (batch_get_into_multi_buffers_internal iteration rc keys all_buffers all_sizes
         prefer_alloc_in_same_node) (λ _, true)
      (λ rs, observe rc kRead "batch_get_into_multi_buffers"
               (sum_positive_results (int32 ∘ to_py_size toInt <$> default [] rs))) in
  ret (option_map (fmap (int32 ∘ to_py_size toInt)) internal_results).

Definition get_into (key : ObjectKey) (buffer size : Z) : rio Z :=
  let! result := execute_timed_operation _ (get_into_range_internal rc key buffer 0 0 size true)
                   has_value (λ r, observe rc kRead "get_into"
                                     (u64 (match r with Ok n => n | Err _ => 0 end))) in
  ret (to_py_size toInt result).

Definition get_into_ranges (req : RangedRequest)
    (query_result_cache : option (list (string * expected QueryResult)))
  : rio (list (list (list Z))) :=
  execute_timed_operation _
    (let! rs := get_into_ranges_internal rc req None None query_result_cache in
     ret (convert_ranged_read_results toInt rs))
    (λ _, true) (λ rs, observe rc kRead "get_into_ranges" (sum_positive_ranges rs)).

Definition batch_query (keys : list string) : rio (list (expected QueryResult)) :=
  match client_ rc with
  | None => ret (replicate (length keys) (Err INVALID_PARAMS))
  | Some _ => on_client (BatchQuery keys)
  end.

(** ** Without a timer *)

Definition remove (key : ObjectKey) (force : bool) : rio Z :=
  let! r := remove_internal rc key force in ret (to_py_ret toInt r).
Definition removeByRegex (str : string) (force : bool) : rio Z :=
  let! r := removeByRegex_internal rc str force in ret (to_py_size toInt r).
Definition removeAll (force : bool) : rio Z :=
  let! r := removeAll_internal rc force in ret (to_py_size toInt r).
Definition batchRemove (keys : list string) (force : bool) : rio (list Z) :=
  let! rs := batchRemove_internal rc keys force in
  ret ((λ item : expected unit, match item with Ok _ => 0 | Err e => toInt e end) <$> rs).
Definition getSize (key : ObjectKey) : rio Z :=
  let! r := getSize_internal rc key in ret (to_py_size toInt r).

(** ** The programs behind the calls of the bindings *)

(** The bytes of a span. *)
Fixpoint string_of (l : list Z) : string :=
  match l with
  | [] => EmptyString
  | z :: l => String (Ascii.ascii_of_nat (Z.to_nat z)) (string_of l)
  end.

(** Calls that are not about objects: set-up, segments, buffers, tasks. *)
Context (other_program : ∀ A : Type, store_call A → rio A).

Definition store_program {A} (call : store_call A) : rio A :=
  match call in store_call A return rio A with
  | CPut key value c => put key (string_of value) (base_config c)
  | CPutParts key values c => put_parts key (string_of <$> values) (base_config c)
  | CPutBatch keys values c => put_batch keys (string_of <$> values) (base_config c)
  | CUpsert key value c => upsert key (string_of value) (base_config c)
  | CUpsertParts key values c => upsert_parts key (string_of <$> values) (base_config c)
  | CUpsertBatch keys values c => upsert_batch keys (string_of <$> values) (base_config c)
  | CPutFrom key buffer size c => put_from key buffer size (base_config c)
  | CUpsertFrom key buffer size c => upsert_from key buffer size (base_config c)
  | CPutFromWithMetadata key buffer metadata_buffer size metadata_size c =>
      RealGetInto.put_from_with_metadata DetermineReplicaWriteMode toInt rc key buffer metadata_buffer size
        metadata_size (base_config c)
  | CBatchPutFrom keys buffers sizes c => batch_put_from keys buffers sizes (base_config c)
  | CBatchUpsertFrom keys buffers sizes c => batch_upsert_from keys buffers sizes (base_config c)
  | CBatchPutFromMultiBuffers keys buffers sizes c =>
      batch_put_from_multi_buffers keys buffers sizes (base_config c)
  | CGetInto key buffer size => get_into key buffer size
  | CGetIntoRanges buffers keys dsts srcs sizes =>
      get_into_ranges (MkRequest buffers keys dsts srcs sizes) None
  | CBatchGetInto keys buffers sizes => batch_get_into keys buffers sizes
  | CBatchGetIntoMultiBuffers keys buffers sizes same_node =>
      let! r := batch_get_into_multi_buffers keys buffers sizes same_node in ret (default [] r)
  | CRemove key force => remove key force
  | CRemoveByRegex pattern force => removeByRegex pattern force
  | CRemoveAll force => removeAll force
  | CBatchRemove keys force => batchRemove keys force
  | CIsExist key => RealBuffers.isExist ExistKey toInt rc key
  | CBatchIsExist keys => RealBuffers.batchIsExist BatchExistKey toInt rc keys
  | CGetSize key => getSize key
  | CGetReplicaDesc key => RealBuffers.get_replica_desc key
  | other => other_program _ other
  end.

(** What the real client did while the bindings made their calls. *)
Fixpoint replay (done : list real_event) (evs : list bind_event) : list real_event :=
  match evs with
  | [] => done
  | BStore c _ :: evs => replay (done ++ emitted (store_program c) done) evs
  | _ :: evs => replay done evs
  end.

(** The bindings over this client: a call is answered by its program. *)
Definition linked (numa_available numa_max : Z) : BindServices := {|
  b_store h A c := value_of (store_program c) (replay [] h);
  b_numa_available _ := numa_available;
  b_numa_max_node _ := numa_max;
  b_numa_run _ _ := 0 |}.
End Public.
