(* ===== verification/RealPublicSpec.v ===== *)
(** * From Python to the replicas

    The bindings composed with the real client: a [put] from Python that returns 0 has
    written the bytes of the Python object to the replicas.  The timer around the
    operations is assumed to run them and to return their result. *)

From S2P Require Import Prelude CxxString StoreTypes ReplicaPolicy Samples PutPath BatchPut GetPath DummyMap RangedRead RangedReadSpec RealWrite RealWriteSpec RealGetInto RealBuffers DummyRpc StorePy Bindings BindingsSpec RealPublic.
From stdpp Require Import base strings list sets gmap.
From Stdlib Require Import ZArith Lia.

#[local] Open Scope Z_scope.
#[local] Set Default Proof Using "Type".

Section Link.
Context `{!MasterClient, !TransferSubmitter, !HotCache, !StorageBackend, !Clock, !RealServices}.
Context {laws : SliceLaws}.
Context (iteration : ∀ A : Type, gmap string A → list (string * A)).
Context (DetermineReplicaWriteMode : ReplicateConfig → ReplicaWriteMode).
Context (toString : ErrorCode → string) (default_config : ReplicateConfig).
Context (toInt : ErrorCode → Z).
Context (ExistKey : ObjectKey → rio (expected bool)).
Context (BatchExistKey : list ObjectKey → rio (list (expected bool))).
Context (execute_timed_operation :
  ∀ A : Type, rio A → (A → bool) → (A → option observation) → rio A).
Context (other_program : ∀ A : Type, store_call A → rio A).
Context (rc : RealClient) (alloc : option Allocator).
Context (numa_available numa_max : Z).

(** The codes of errors are not 0, the master sends no [OK] as an error, and the timer only
    adds a measurement. *)
Context (error_codes : ∀ e, e ≠ OK → toInt e ≠ 0) {master_errors : MasterErrors}.
Context (timer_runs : ∀ A op ok obs h, execute_timed_operation A op ok obs h = op h).

Abbreviation program := (store_program iteration DetermineReplicaWriteMode toString default_config
  toInt ExistKey BatchExistKey execute_timed_operation rc alloc other_program).
Abbreviation real_history := (replay iteration DetermineReplicaWriteMode toString default_config
  toInt ExistKey BatchExistKey execute_timed_operation rc alloc other_program []).
Abbreviation bound := (linked iteration DetermineReplicaWriteMode toString default_config
  toInt ExistKey BatchExistKey execute_timed_operation rc alloc other_program numa_available
  numa_max).

(** ** What the client did *)

Lemma replay_app acc evs1 evs2 :
  replay iteration DetermineReplicaWriteMode toString default_config toInt ExistKey BatchExistKey
    execute_timed_operation rc alloc other_program acc (evs1 ++ evs2) =
  replay iteration DetermineReplicaWriteMode toString default_config toInt ExistKey BatchExistKey
    execute_timed_operation rc alloc other_program
    (replay iteration DetermineReplicaWriteMode toString default_config toInt ExistKey BatchExistKey
       execute_timed_operation rc alloc other_program acc evs1) evs2.
Proof.
  revert acc. induction evs1 as [|e evs1 IH]; intros acc; [done|].
  destruct e; cbn [app replay]; apply IH.
Qed.

Lemma replay_quiet acc evs :
  Forall no_call evs →
  replay iteration DetermineReplicaWriteMode toString default_config toInt ExistKey BatchExistKey
    execute_timed_operation rc alloc other_program acc evs = acc.
Proof. induction 1 as [|e evs He _ IH]; [done|]. by destruct e. Qed.

(** One call between events that are not: the client's history grows by the call's run,
    whose value is the answer. *)
Lemma linked_call {A} (c : store_call A) pre a post h :
  Forall no_call pre → Forall no_call post → a = @b_store bound (h ++ pre) A c →
  ∃ evs, program c (real_history h) = (a, evs) ∧
         real_history (h ++ pre ++ BStore c a :: post) = real_history h ++ evs.
Proof.
  intros Hpre Hpost ->. exists (emitted (program c) (real_history h)).
  cbn [b_store linked]. rewrite !replay_app, (replay_quiet _ pre) by done.
  split; [apply surjective_pairing|]. cbn [replay]. by rewrite replay_quiet.
Qed.

(** A timed write that returns 0 is a successful write, if the write has proper errors. *)
Lemma timed_write_ok name n op h evs :
  timed_write toInt execute_timed_operation rc name n op h = (0, evs) →
  op h = (Ok tt, evs) ∨ op h = (Err OK, evs).
Proof using error_codes timer_runs.
  intros R. apply bind_inv in R as (r & e1 & e2 & R & [Hr ->]%ret_inv & ->).
  rewrite timer_runs in R. rewrite app_nil_r. destruct r as [[]|e]; [by left|right].
  destruct (decide (e = OK)) as [->|Hne]; [done|]. by destruct (error_codes e Hne).
Qed.

(** [Client::Put] was called on slices of a fresh buffer that held the value, [P] holds of
    the call, and the buffer was released. *)
Definition value_handed (value : string) (P : list Slice → list event → Prop)
    (evs : list real_event) : Prop :=
  ∃ before ss p e, evs = before ++ (RClient <$> e) ++ [RFree p] ∧
    tiles ss p (size_bytes value) ∧
    holds_value (mem_after (λ _, None) before) ss value ∧ P ss e.

(** The put wrote the value to the replicas. *)
Definition value_reached (client : Client) (key : ObjectKey) (config : ReplicateConfig)
    (value : string) : list real_event → Prop :=
  value_handed value (λ ss, put_written DetermineReplicaWriteMode key ss (put_config client config)).

(** The master had an object with this key, and nothing was written. *)
Definition value_refused (client : Client) (key : ObjectKey) (config : ReplicateConfig)
    (value : string) : list real_event → Prop :=
  value_handed value (λ ss, put_existed key ss (put_config client config)).

Lemma wrote_reached client key config value evs :
  wrote (λ ss, Put DetermineReplicaWriteMode client key ss config) value (Ok tt) evs →
  value_reached client key config value evs ∨ value_refused client key config value evs.
Proof.
  intros (before & ss & h & e & p & -> & [R|R]%put_ok_stored & Hv & Ht & _).
  - right. by exists before, ss, p, e.
  - left. by exists before, ss, p, e.
Qed.

Lemma wrote_no_ok_error client key config value evs :
  ¬ wrote (λ ss, Put DetermineReplicaWriteMode client key ss config) value (Err OK) evs.
Proof using master_errors.
  intros (before & ss & h & e & p & -> & R & _). by apply Put_error in R.
Qed.

Lemma put_reached key value config h evs :
  RealPublic.put DetermineReplicaWriteMode toInt execute_timed_operation rc alloc key value config h
    = (0, evs) →
  ∃ client, client_ rc = Some client ∧
    (value_reached client key config value evs ∨ value_refused client key config value evs).
Proof using laws error_codes timer_runs master_errors.
  intros [R|R]%timed_write_ok; apply put_stores_value in R.
  - destruct R as [[? _]|(client & Hc & Hw%wrote_reached)]; [done|by exists client].
  - destruct R as [[? _]|(client & Hc & Hw)]; [done|]. by apply wrote_no_ok_error in Hw.
Qed.

Lemma put_parts_reached key values config h evs :
  (∀ a, alloc = Some a → valid_allocator a) → size_bytes (joined values) < u64_modulus →
  RealPublic.put_parts DetermineReplicaWriteMode toInt execute_timed_operation rc alloc key values
    config h = (0, evs) →
  (joined values = "" ∧ evs = []) ∨
  ∃ client, client_ rc = Some client ∧
    (value_reached client key config (joined values) evs ∨
     value_refused client key config (joined values) evs).
Proof using laws error_codes timer_runs master_errors.
  intros Ha Hn [R|R]%timed_write_ok; apply put_parts_stores_value in R; try done.
  - destruct R as [[? _]|[(Hj & _ & ->)|(client & Hc & Hw%wrote_reached)]]; [done|by left|].
    right. by exists client.
  - destruct R as [[? _]|[(_ & ? & _)|(client & Hc & Hw)]]; [done..|].
    by apply wrote_no_ok_error in Hw.
Qed.


(** ** Sizes in an [int] *)

Lemma int32_exact n : 0 ≤ n < 2 ^ 32 → int32 n = n ↔ n < 2 ^ 31.
Proof.
  intros Hn. unfold int32. rewrite Z.mod_small by exact Hn. cbv zeta.
  destruct (Z.ltb_spec n (2 ^ 31)); split; lia.
Qed.

(** [batch_get_into_multi_buffers] returns the codes of the operation's results, in order;
    the size of an object that was read is its code only below 2 GiB, and a negative number
    (which reads as an error) from there to 4 GiB. *)
Theorem multi_buffer_sizes_narrowed keys bufs sizes same h rs evs i n :
  batch_get_into_multi_buffers_internal iteration rc keys bufs sizes same h = (Some rs, evs) →
  rs !! i = Some (Ok n) → 0 ≤ n < 2 ^ 32 →
  ∃ codes code,
    RealPublic.batch_get_into_multi_buffers iteration toInt execute_timed_operation rc keys bufs
      sizes same h = (Some codes, evs) ∧
    length codes = length rs ∧ codes !! i = Some code ∧
    (n < 2 ^ 31 → code = n) ∧ (2 ^ 31 ≤ n → code < 0).
Proof using timer_runs.
  intros R Hi Hn. exists (int32 ∘ to_py_size toInt <$> rs), (int32 n).
  split_and!.
  - unfold RealPublic.batch_get_into_multi_buffers. rewrite bind_run, timer_runs, R. cbn.
    by rewrite app_nil_r.
  - by rewrite length_fmap.
  - by rewrite list_lookup_fmap, Hi.
  - intros Hlt. by apply int32_exact.
  - intros Hge. unfold int32. rewrite Z.mod_small by exact Hn. cbv zeta.
    destruct (Z.ltb_spec n (2 ^ 31)); lia.
Qed.
End Link.

(** ** Examples *)

Definition eight_bytes : PyBuffer := MkPyBuffer true 8 1 1 [97; 98; 99; 100; 101; 102; 103; 104].
Definition two_replica_config : PyConfig := MkPyConfig sample_config [] None.

Definition plain_timer (A : Type) (op : rio A) (ok : A → bool) (obs : A → option observation)
  : rio A := op.

(** What the calls outside of the example would answer. *)
Definition no_program (A : Type) (c : store_call A) : rio A :=
  ret (@b_store sample_bindings [] A c).

(** Errors are sent as -1, [OK] as 0. *)
Definition sample_codes (e : ErrorCode) : Z := if bool_decide (e = OK) then 0 else -1.

Lemma sample_codes_errors e : e ≠ OK → sample_codes e ≠ 0.
Proof. intros He. unfold sample_codes. by rewrite bool_decide_false. Qed.

Lemma sample_master_errors rs : @MasterErrors (sample_master rs).
Proof. by split. Qed.

Definition sample_linked : BindServices :=
  @linked (sample_master two_replicas) (sample_submitter []) (sample_cache None) sample_storage
    (sample_clock 0) (sample_real []) (λ _, map_to_list) (λ _, ReliableMode 0) (λ _, "")
    sample_config sample_codes (λ _, ret (Ok true)) (λ keys, ret (map (λ _, Ok true) keys))
    plain_timer sample_real_client (Some top_allocator) no_program 0 1.

