(* ===== verification/Probe.v ===== *)
(** * The DMA-BUF probe ([tools/maca_dmabuf_rdma_probe.cpp])

    Exports a GPU allocation as a DMA-BUF and registers it with an RDMA device.  The MACA
    runtime, the verbs and the environment are external; what the tool prints is left
    out, its exit code is modelled. *)

From S2P Require Import Prelude CxxString StoreTypes ReplicaPolicy Accounting.
From stdpp Require Import base strings list sets.
From Stdlib Require Import Ascii ZArith Lia.

#[local] Open Scope Z_scope.
#[local] Set Default Proof Using "Type".

(** ** Environment *)

(** The value of a digit or letter; 36: neither. *)
Definition digit_of (c : Ascii.ascii) : Z :=
  let n := Z.of_nat (Ascii.nat_of_ascii c) in
  if (48 <=? n) && (n <=? 57) then n - 48
  else if (97 <=? n) && (n <=? 122) then n - 87
  else if (65 <=? n) && (n <=? 90) then n - 55 else 36.

Fixpoint span_base (base : Z) (s : string) (acc : Z) : Z * string :=
  match s with
  | String c s' => if digit_of c <? base then span_base base s' (acc * base + digit_of c) else (acc, s)
  | EmptyString => (acc, EmptyString)
  end.

(** The base that a number with base 0 is written in, and its digits. *)
Definition number_base (s : string) : Z * string :=
  match s with
  | String z r =>
      if Ascii.eqb z "0"%char then
        match r with
        | String x (String d _ as digits) =>
            if (Ascii.eqb x "x"%char || Ascii.eqb x "X"%char) && (digit_of d <? 16)
            then (16, digits) else (8, s)
        | _ => (8, s)
        end
      else (10, s)
  | EmptyString => (10, s)
  end.

(** [strtoull(s, &end, 0)]: [None] if nothing was converted. *)
Definition strtoull0 (s : string) : option Z :=
  let '(neg, body) := split_sign (skip_spaces s) in
  if starts_with_digit body then
    let '(base, digits) := number_base body in
    let n := (span_base base digits 0).1 in
    Some (if u64_max <? n then u64_max else if neg then u64 (- n) else n)
  else None.

(** [atoi]: what [strtol] returns, as an [int]. *)
Definition atoi (s : string) : Z := (parsed (strtol s) + 2 ^ 31) mod 2 ^ 32 - 2 ^ 31.

Section Environment.
Context (env : string → option string).

Definition ParseIntEnv (name : string) (default_value : Z) : Z :=
  match getenv_nonempty env name with
  | None => default_value
  | Some value => atoi value
  end.

Definition ParseSizeEnv (name : string) (default_value : Z) : Z :=
  match getenv_nonempty env name with
  | None => default_value
  | Some value => default default_value (strtoull0 value)
  end.

Definition GetEnvString (name : string) : string := default "" (env name).
End Environment.

(** ** External calls *)

Inductive probe_event :=
| PSetDevice (device rc : Z)
| PMalloc (size : Z) (r : Z * Z)                       (* code, pointer *)
| PMemset (ptr value size rc : Z)
| PFree (ptr rc : Z)
| PAddressRange (ptr : Z) (r : Z * (Z * Z))            (* code, base and size *)
| PExport (base size : Z) (r : Z * Z)                  (* code, descriptor *)
| PGetFd (fd flags : Z)                                (* fcntl(fd, F_GETFD) *)
| PClose (fd rc : Z)
| PDevices (r : option (Z * list (option string)))     (* the list and the names *)
| PFreeDevices (l : Z)
| POpen (index : nat) (r : option Z)
| PCloseDevice (context rc : Z)
| PAllocPd (context : Z) (r : option Z)
| PDeallocPd (pd rc : Z)
| PRegMr (pd offset size iova fd access : Z) (r : option Z)
| PDeregMr (mr rc : Z).

Abbreviation pio A := (comp probe_event A).

Class ProbeServices := {
  p_set_device : list probe_event → Z → Z;
  p_malloc : list probe_event → Z → Z * Z;
  p_memset : list probe_event → Z → Z;
  p_free : list probe_event → Z → Z;
  p_address_range : list probe_event → Z → Z * (Z * Z);
  p_export : list probe_event → Z → Z → Z * Z;
  p_get_fd : list probe_event → Z → Z;
  p_close : list probe_event → Z → Z;
  p_devices : list probe_event → option (Z * list (option string));
  p_open : list probe_event → nat → option Z;
  p_close_device : list probe_event → Z → Z;
  p_alloc_pd : list probe_event → Z → option Z;
  p_dealloc_pd : list probe_event → Z → Z;
  p_reg_mr : list probe_event → Z → option Z;
  p_dereg_mr : list probe_event → Z → Z;
  (* IBV_ACCESS_... *)
  p_access : Z }.

Section Probe.
Context `{!ProbeServices} (env : string → option string).

(** ** The steps *)

Definition mcSuccess : Z := 0.

Definition ProbeExport (ptr size : Z) : pio (Z * Z) :=        (* code, descriptor *)
  let! range := call (λ h, p_address_range h ptr) (PAddressRange ptr) in
  if negb (range.1 =? mcSuccess) then ret (1, -1)
  else
    let! exported := call (λ h, p_export h range.2.1 range.2.2) (PExport range.2.1 range.2.2) in
    if negb (exported.1 =? mcSuccess) then ret (2, exported.2)
    else
      let! flags := call (λ h, p_get_fd h exported.2) (PGetFd exported.2) in
      ret (if flags <? 0 then 3 else 0, exported.2).

(** The first device with the name. *)
Fixpoint select_device (device_name : string) (names : list (option string)) : option nat :=
  match names with
  | [] => None
  | name :: names =>
      if bool_decide (name = Some device_name) then Some 0%nat
      else S <$> select_device device_name names
  end.

Definition free_devices (l : Z) : pio unit := call (λ _, tt) (λ _, PFreeDevices l).

(** Registration with the selected device of the list [l]. *)
Definition probe_device (l : Z) (selected : nat) (ptr size dmabuf_fd : Z) : pio Z :=
  let! context := call (λ h, p_open h selected) (POpen selected) in
  match context with
  | None => free_devices l ;;; ret 12
  | Some context =>
      let! pd := call (λ h, p_alloc_pd h context) (PAllocPd context) in
      match pd with
      | None =>
          call (λ h, p_close_device h context) (PCloseDevice context) ;;;
          free_devices l ;;; ret 13
      | Some pd =>
          let! mr := call (λ h, p_reg_mr h pd) (PRegMr pd 0 size ptr dmabuf_fd p_access) in
          (match mr with
           | Some mr => call (λ h, p_dereg_mr h mr) (PDeregMr mr) ;;; ret tt
           | None => ret tt
           end) ;;;
          call (λ h, p_dealloc_pd h pd) (PDeallocPd pd) ;;;
          call (λ h, p_close_device h context) (PCloseDevice context) ;;;
          free_devices l ;;;
          ret (match mr with Some _ => 0 | None => 20 end)
      end
  end.

Definition ProbeRdma (ptr size dmabuf_fd : Z) : pio Z :=
  let device_name := GetEnvString env "MC_PROBE_RDMA_DEVICE" in
  if str_empty device_name then ret 0
  else
    let! devices := call p_devices PDevices in
    match devices with
    | None | Some (_, []) => ret 10
    | Some (l, names) =>
        match select_device device_name names with
        | None => free_devices l ;;; ret 11
        | Some selected => probe_device l selected ptr size dmabuf_fd
        end
    end.

Definition probe_exit (export_rc rdma_rc : Z) : Z :=
  if negb (export_rc =? 0) then 100 + export_rc
  else if negb (rdma_rc =? 0) then 150 + rdma_rc else 0.

Definition probe_main : pio Z :=
  let device_id := ParseIntEnv env "MC_PROBE_GPU_DEVICE" 0 in
  let size := ParseSizeEnv env "MC_PROBE_SIZE" (2 * 1024 * 1024) in
  let! rc := call (λ h, p_set_device h device_id) (PSetDevice device_id) in
  if negb (rc =? mcSuccess) then ret 1
  else
    let! allocated := call (λ h, p_malloc h size) (PMalloc size) in
    let ptr := allocated.2 in
    if negb (allocated.1 =? mcSuccess) || (ptr =? 0) then ret 2
    else
      let! rc := call (λ h, p_memset h ptr) (PMemset ptr 171 size) in
      if negb (rc =? mcSuccess) then call (λ h, p_free h ptr) (PFree ptr) ;;; ret 3
      else
        let! exported := ProbeExport ptr size in
        let! rdma_rc := (if exported.1 =? 0 then
                           let! rdma_rc := ProbeRdma ptr size exported.2 in
                           call (λ h, p_close h exported.2) (PClose exported.2) ;;;
                           ret rdma_rc
                         else ret 0) in
        call (λ h, p_free h ptr) (PFree ptr) ;;;
        ret (probe_exit exported.1 rdma_rc).
End Probe.

(** ** What the probe holds *)

Inductive probe_res :=
| PrMemory (ptr : Z) | PrFd (fd : Z) | PrDevices (l : Z) | PrContext (c : Z) | PrPd (pd : Z)
| PrMr (mr : Z).

#[export] Instance probe_res_eq : EqDecision probe_res.
Proof. solve_decision. Defined.

(** A descriptor is open if [fcntl] says so. *)
#[export] Instance probe_resources : Resources probe_event probe_res := {
  acquires e := match e with
    | PMalloc _ r => if negb (r.1 =? mcSuccess) || (r.2 =? 0) then [] else [PrMemory r.2]
    | PGetFd fd flags => if flags <? 0 then [] else [PrFd fd]
    | PDevices (Some (l, _)) => [PrDevices l]
    | POpen _ (Some c) => [PrContext c]
    | PAllocPd _ (Some pd) => [PrPd pd]
    | PRegMr _ _ _ _ _ _ (Some mr) => [PrMr mr]
    | _ => []
    end;
  release_of e := match e with
    | PFree ptr rc => Some (PrMemory ptr, rc)
    | PClose fd rc => Some (PrFd fd, rc)
    | PFreeDevices l => Some (PrDevices l, 0)
    | PCloseDevice c rc => Some (PrContext c, rc)
    | PDeallocPd pd rc => Some (PrPd pd, rc)
    | PDeregMr mr rc => Some (PrMr mr, rc)
    | _ => None
    end }.

Section Spec.
Context `{!ProbeServices} (env : string → option string).

(** A release call for the resource held last. *)
Lemma owns_release {A} (f : list probe_event → A) (ev : A → probe_event) r rc l :
  (∀ v, release_of (ev v) = Some (r, rc v) ∧ acquires (ev v) = []) →
  owns (r :: l) (call f ev) (λ _, l).
Proof.
  intros Hev. apply owns_call. intros v x. destruct (Hev v) as [Hr ->].
  unfold releases, refuses. rewrite Hr. rewrite !holds_cons, holds_nil.
  destruct (rc v =? 0); rewrite ?holds_cons, ?holds_nil; lia.
Qed.

(** An external call that may acquire something. *)
Lemma owns_acquire {A} (f : list probe_event → A) (ev : A → probe_event) l :
  (∀ v, release_of (ev v) = None) → owns l (call f ev) (λ v, acquires (ev v) ++ l).
Proof.
  intros Hev. apply owns_call. intros v x. unfold releases, refuses. rewrite Hev.
  rewrite holds_app, holds_nil. lia.
Qed.

Lemma acquire_run {A} (f : list probe_event → A) (ev : A → probe_event) l h v evs :
  call f ev h = (v, evs) → (∀ v, release_of (ev v) = None) → accounts l evs (acquires (ev v) ++ l).
Proof. intros R Hev. exact (owns_acquire f ev l Hev h v evs R). Qed.

Ltac acquire := eapply owns_seq; [apply owns_acquire; done|cbn beta].

Lemma free_devices_owns l : owns [PrDevices l] (free_devices l) (λ _, []).
Proof. apply owns_release with (rc := λ _, 0). by intros v. Qed.

(** With a list of devices at hand, everything is released. *)
Lemma opened_owns l ptr size fd selected :
  owns [PrDevices l] (probe_device l selected ptr size fd) (λ _, []).
Proof.
  assert (Hfree : ∀ z, owns [PrDevices l] (free_devices l ;;; ret z) (λ _ : Z, [])).
  { intros z. eapply owns_seq; [apply free_devices_owns|]. intros u. by apply owns_ret. }
  assert (Hclose : ∀ c z, owns [PrContext c; PrDevices l]
    (call (λ h, p_close_device h c) (PCloseDevice c) ;;; free_devices l ;;; ret z) (λ _ : Z, [])).
  { intros c z. eapply owns_seq; [apply owns_release with (rc := λ v, v); by intros v|].
    intros u. apply Hfree. }
  unfold probe_device. acquire. intros [c|]; [|apply Hfree]. acquire. intros [pd|]; [|apply Hclose].
  acquire. intros mr.
  apply owns_seq with (mid := λ _, [PrPd pd; PrContext c; PrDevices l]).
  - destruct mr as [mr|]; [|by apply owns_ret].
    eapply owns_seq; [apply owns_release with (rc := λ v, v); by intros v|].
    intros u. by apply owns_ret.
  - intros u. eapply owns_seq; [apply owns_release with (rc := λ v, v); by intros v|].
    intros u'. apply Hclose.
Qed.

(** What is left: at most the device list, when it is empty. *)
Definition left_over (code : Z) (evs : list probe_event) (left : list probe_res) : Prop :=
  left = [] ∨ ∃ l, left = [PrDevices l] ∧ PDevices (Some (l, [])) ∈ evs ∧ code = 10.

Lemma ProbeRdma_accounts ptr size fd h code evs :
  ProbeRdma env ptr size fd h = (code, evs) →
  ∃ left, accounts [] evs left ∧ left_over code evs left.
Proof.
  unfold ProbeRdma. destruct (str_empty _).
  { intros [-> ->]%ret_inv. exists []. split; [apply accounts_nil|by left]. }
  intros (d & e1 & e2 & R1 & R & ->)%bind_inv.
  assert (H1 := acquire_run _ _ [] _ _ _ R1 (λ _, eq_refl)).
  apply call_inv in R1 as [_ ->]. destruct d as [[l [|n names]]|]; cbn [acquires probe_resources app] in H1.
  - apply ret_inv in R as [-> ->]. exists [PrDevices l]. split; [exact H1|].
    right. exists l. split_and!; [done|by left|done].
  - exists []. split; [|by left]. eapply accounts_app; [exact H1|].
    destruct (select_device _ _) as [i|]; [by eapply opened_owns|].
    apply bind_inv in R as (u & e3 & e4 & R1 & [-> ->]%ret_inv & ->). rewrite app_nil_r.
    by eapply free_devices_owns.
  - apply ret_inv in R as [-> ->]. exists []. split; [exact H1|by left].
Qed.

Lemma ProbeExport_owns ptr size mem :
  owns mem (ProbeExport ptr size) (λ r, (if r.1 =? 0 then [PrFd r.2] else []) ++ mem).
Proof.
  unfold ProbeExport. acquire. intros range. cbn [acquires probe_resources app].
  destruct (negb _); [by apply owns_ret|].
  acquire. intros ex. cbn [acquires probe_resources app].
  destruct (negb _); [by apply owns_ret|].
  acquire. intros flags. cbn [acquires probe_resources]. apply owns_ret.
  by destruct (flags <? 0).
Qed.

(** The part of [main] with the exported memory. *)
Lemma probe_exported_accounts ptr size (exported : Z * Z) h rdma_rc evs :
  (if exported.1 =? 0 then
     let! rdma_rc := ProbeRdma env ptr size exported.2 in
     call (λ h, p_close h exported.2) (PClose exported.2) ;;; ret rdma_rc
   else ret 0) h = (rdma_rc, evs) →
  ∃ left, left_over rdma_rc evs left ∧ ((exported.1 =? 0) = false → rdma_rc = 0) ∧
    accounts ((if exported.1 =? 0 then [PrFd exported.2] else []) ++ [PrMemory ptr]) evs
      (PrMemory ptr :: left).
Proof.
  destruct (exported.1 =? 0); intros R.
  - apply bind_inv in R as (c & e1 & e2 & R1 & R & ->).
    apply bind_inv in R as (u & e3 & e4 & R2 & [-> ->]%ret_inv & ->). rewrite app_nil_r.
    apply ProbeRdma_accounts in R1 as (left & Ha & Hl). exists left. split_and!; [|done|].
    + destruct Hl as [->|(l & -> & Hin & ->)]; [by left|right]. exists l.
      split_and!; [done|by apply elem_of_app; left|done].
    + eapply accounts_app; [exact (accounts_frame [PrFd exported.2; PrMemory ptr] _ _ _ Ha)|].
      exact (owns_release (λ h, p_close h exported.2) (PClose exported.2) (PrFd exported.2) (λ v, v)
        _ (λ v, conj eq_refl eq_refl) _ _ _ R2).
  - apply ret_inv in R as [-> ->]. exists []. split_and!; [by left|done|]. apply accounts_nil.
Qed.

(** The probe releases what it acquires on every path: GPU memory, the exported
    descriptor, the device list, the device, its protection domain and the memory region
    (unless a release call itself fails).  The one exception is an empty device list, which
    is not freed; the exit code is then 160. *)
Theorem probe_balanced h code evs :
  probe_main env h = (code, evs) →
  ∃ left, accounts [] evs left ∧
    (left = [] ∨ ∃ l, left = [PrDevices l] ∧ PDevices (Some (l, [])) ∈ evs ∧ code = 160).
Proof.
  unfold probe_main. intros (rc & e1 & e2 & R1 & R & ->)%bind_inv.
  assert (H1 := acquire_run _ _ [] _ _ _ R1 (λ _, eq_refl)). cbn in H1. clear R1.
  destruct (negb _).
  { apply ret_inv in R as [-> ->]. exists []. rewrite app_nil_r. split; [exact H1|by left]. }
  apply bind_inv in R as ([arc ptr] & e3 & e4 & R2 & R & ->). cbn [fst snd] in R.
  assert (H2 := acquire_run _ _ [] _ _ _ R2 (λ _, eq_refl)). clear R2.
  cbn [acquires probe_resources fst snd] in H2.
  destruct (negb (arc =? mcSuccess) || (ptr =? 0)).
  { apply ret_inv in R as [-> ->]. exists []. rewrite app_nil_r.
    split; [exact (accounts_app _ _ _ _ _ H1 H2)|by left]. }
  apply bind_inv in R as (mrc & e5 & e6 & R3 & R & ->).
  assert (H3 := acquire_run _ _ [PrMemory ptr] _ _ _ R3 (λ _, eq_refl)). cbn in H3. clear R3.
  assert (Hpre := accounts_app _ _ _ _ _ (accounts_app _ _ _ _ _ H1 H2) H3). clear H1 H2 H3.
  assert (Hfree : ∀ l h' u e, call (λ h, p_free h ptr) (PFree ptr) h' = (u, e) →
    accounts (PrMemory ptr :: l) e l).
  { intros l h' u e Rf. exact (owns_release (λ h, p_free h ptr) (PFree ptr) (PrMemory ptr) (λ v, v) l
      (λ v, conj eq_refl eq_refl) _ _ _ Rf). }
  rewrite !(assoc_L (++)).
  destruct (negb _).
  { apply bind_inv in R as (u & e7 & e8 & R4%(Hfree []) & [-> ->]%ret_inv & ->). exists [].
    rewrite app_nil_r. split; [exact (accounts_app _ _ _ _ _ Hpre R4)|by left]. }
  apply bind_inv in R as (ex & e7 & e8 & R4%(ProbeExport_owns _ _ [PrMemory ptr]) & R & ->).
  apply bind_inv in R as (rr & e9 & e10 & R5 & R & ->).
  apply probe_exported_accounts in R5 as (left & Hl & Hz & R5).
  apply bind_inv in R as (u & e11 & e12 & R6%(Hfree left) & [-> ->]%ret_inv & ->).
  exists left. rewrite app_nil_r. split.
  - exact (accounts_app _ _ _ _ _ Hpre (accounts_app _ _ _ _ _ R4 (accounts_app _ _ _ _ _ R5 R6))).
  - destruct Hl as [->|(l & -> & Hin & ->)]; [by left|right]. exists l. split_and!; [done| |].
    + apply elem_of_app. right. apply elem_of_app. right. apply elem_of_app. by left.
    + unfold probe_exit. destruct (ex.1 =? 0); [done|]. by discriminate Hz.
Qed.

(** ** The exit code *)

(** The registration that was tried with the exported memory. *)
Definition registered (ptr size fd : Z) (evs : list probe_event) (mr : option Z) : Prop :=
  ∃ pd, PRegMr pd 0 size ptr fd p_access mr ∈ evs.

Lemma probe_device_code l selected ptr size fd h code evs :
  probe_device l selected ptr size fd h = (code, evs) →
  (code = 12 ∨ code = 13) ∨ (code = 20 ∧ registered ptr size fd evs None) ∨
  (code = 0 ∧ ∃ mr, registered ptr size fd evs (Some mr)).
Proof.
  unfold probe_device. intros (c & e1 & e2 & [_ ->]%call_inv & R & ->)%bind_inv.
  destruct c as [c|]; cycle 1.
  { apply bind_inv in R as (u & e3 & e4 & _ & [-> _]%ret_inv & ->). left. by left. }
  apply bind_inv in R as (pd & e3 & e4 & [_ ->]%call_inv & R & ->).
  destruct pd as [pd|]; cycle 1.
  { apply bind_inv in R as (u & e5 & e6 & _ & R & ->).
    apply bind_inv in R as (u' & e7 & e8 & _ & [-> _]%ret_inv & ->). left. by right. }
  apply bind_inv in R as (mr & e5 & e6 & [_ ->]%call_inv & R & ->).
  apply bind_inv in R as (u & e7 & e8 & _ & R & ->).
  apply bind_inv in R as (u1 & e9 & e10 & _ & R & ->).
  apply bind_inv in R as (u2 & e11 & e12 & _ & R & ->).
  apply bind_inv in R as (u3 & e13 & e14 & _ & [-> _]%ret_inv & ->).
  right. destruct mr as [mr|]; [right|left]; (split; [done|]); [exists mr|]; exists pd;
    apply list_elem_of_In; cbn; auto.
Qed.

Lemma ProbeRdma_code ptr size fd h code evs :
  ProbeRdma env ptr size fd h = (code, evs) →
  (code = 0 → GetEnvString env "MC_PROBE_RDMA_DEVICE" = "" ∨
              ∃ mr, registered ptr size fd evs (Some mr)) ∧
  (code = 20 → registered ptr size fd evs None) ∧ code ∈ [0; 10; 11; 12; 13; 20].
Proof.
  unfold ProbeRdma. destruct (str_empty _) eqn:E.
  { intros [-> ->]%ret_inv. split_and!; [|done|set_solver]. intros _. left.
    by destruct (GetEnvString env _). }
  intros (d & e1 & e2 & [_ ->]%call_inv & R & ->)%bind_inv.
  destruct d as [[l [|n names]]|];
    [apply ret_inv in R as [-> ->]; split_and!; [done..|set_solver]| |
     apply ret_inv in R as [-> ->]; split_and!; [done..|set_solver]].
  destruct (select_device _ _) as [i|]; cycle 1.
  { apply bind_inv in R as (u & e3 & e4 & _ & [-> _]%ret_inv & ->). split_and!; [done..|set_solver]. }
  assert (Hr : ∀ m, registered ptr size fd e2 m →
    registered ptr size fd ([PDevices (Some (l, n :: names))] ++ e2) m).
  { intros m [pd Hin]. exists pd. apply elem_of_app. by right. }
  apply probe_device_code in R as [[->| ->]|[[-> Hm]|[-> [mr Hm]]]].
  - split_and!; [done..|set_solver].
  - split_and!; [done..|set_solver].
  - split_and!; [done|by auto|set_solver].
  - split_and!; [|done|set_solver]. intros _. right. exists mr. by apply Hr.
Qed.

Lemma export_code ptr size h ex evs :
  ProbeExport ptr size h = (ex, evs) →
  (ex.1 = 0 ∧ ∃ flags, PGetFd ex.2 flags ∈ evs ∧ 0 ≤ flags) ∨ (ex.1 = 1 ∨ ex.1 = 2 ∨ ex.1 = 3).
Proof.
  unfold ProbeExport. intros (range & e1 & e2 & _ & R & ->)%bind_inv.
  destruct (negb _); [apply ret_inv in R as [-> _]; auto|].
  apply bind_inv in R as (x & e3 & e4 & _ & R & ->).
  destruct (negb _); [apply ret_inv in R as [-> _]; auto|].
  apply bind_inv in R as (flags & e5 & e6 & [_ ->]%call_inv & [-> ->]%ret_inv & ->).
  destruct (Z.ltb_spec flags 0); [auto|]. left. split; [done|]. exists flags.
  split; [set_solver|done].
Qed.

(** The exit code of the probe tells how far it came: 0 means that the memory was
    exported to an open descriptor and, if a device was named, that a memory region of
    exactly the probed size was registered for it; 170 means that the export worked and the
    registration was refused; 101 to 103 are failed exports, 160 to 163 failures to open
    the device. *)
Theorem probe_exit_code h code evs :
  probe_main env h = (code, evs) →
  let size := ParseSizeEnv env "MC_PROBE_SIZE" (2 * 1024 * 1024) in
  (code = 0 → ∃ ptr fd flags, ptr ≠ 0 ∧ PMalloc size (mcSuccess, ptr) ∈ evs ∧
     PGetFd fd flags ∈ evs ∧ 0 ≤ flags ∧
     (GetEnvString env "MC_PROBE_RDMA_DEVICE" = "" ∨
      ∃ mr, registered ptr size fd evs (Some mr))) ∧
  (code = 170 → ∃ ptr fd flags, PMalloc size (mcSuccess, ptr) ∈ evs ∧
     PGetFd fd flags ∈ evs ∧ 0 ≤ flags ∧ registered ptr size fd evs None) ∧
  code ∈ [0; 1; 2; 3; 101; 102; 103; 160; 161; 162; 163; 170].
Proof.
  intros R size. unfold probe_main in R. fold size in R.
  apply bind_inv in R as (rc & e1 & e2 & _ & R & ->).
  destruct (negb (rc =? mcSuccess)).
  { apply ret_inv in R as [-> ->]. split_and!; [done..|set_solver]. }
  apply bind_inv in R as ([arc ptr] & e3 & e4 & [_ ->]%call_inv & R & ->). cbn [fst snd] in R.
  destruct (negb (arc =? mcSuccess) || (ptr =? 0)) eqn:Em.
  { apply ret_inv in R as [-> ->]. split_and!; [done..|set_solver]. }
  apply orb_false_iff in Em as [Ea%negb_false_iff%Z.eqb_eq Ep%Z.eqb_neq]. subst arc.
  apply bind_inv in R as (mrc & e5 & e6 & _ & R & ->).
  destruct (negb (mrc =? mcSuccess)).
  { apply bind_inv in R as (u & e7 & e8 & _ & [-> _]%ret_inv & ->). split_and!; [done..|set_solver]. }
  apply bind_inv in R as (ex & e7 & e8 & Rx & R & ->).
  apply bind_inv in R as (rr & e9 & e10 & Rr & R & ->).
  apply bind_inv in R as (u & e11 & e12 & _ & [-> _]%ret_inv & ->).
  apply export_code in Rx as [(Hex & flags & Hin & Hf)|Hex]; cycle 1.
  { assert (Hrr : probe_exit ex.1 rr = 100 + ex.1).
    { unfold probe_exit. by destruct Hex as [->|[->| ->]]. }
    rewrite Hrr. destruct Hex as [->|[->| ->]]; (split_and!; [done..|set_solver]). }
  rewrite Hex in *. cbn in Rr. apply bind_inv in Rr as (c & e13 & e14 & Rr & R2 & ->).
  apply bind_inv in R2 as (u2 & e15 & e16 & _ & [-> _]%ret_inv & ->).
  apply ProbeRdma_code in Rr as (H0 & H20 & Hc).
  assert (Hreg : ∀ m, registered ptr size ex.2 e13 m → registered ptr size ex.2
    (e1 ++ [PMalloc size (mcSuccess, ptr)] ++ e5 ++ e7 ++ (e13 ++ e15 ++ e16) ++ e11 ++ e12) m).
  { intros m [pd Hp]. exists pd. set_solver. }
  split_and!.
  - intros Hz. exists ptr, ex.2, flags. split_and!; [done|set_solver|set_solver|done|].
    destruct H0 as [He|[mr Hm]]; [|by left|right; exists mr; by apply Hreg].
    clear -Hz Hc. set_unfold. unfold probe_exit in Hz. naive_solver.
  - intros Hz. exists ptr, ex.2, flags. split_and!; [set_solver|set_solver|done|]. apply Hreg, H20.
    clear -Hz Hc. set_unfold. unfold probe_exit in Hz. naive_solver.
  - clear -Hc. set_unfold. unfold probe_exit. naive_solver.
Qed.
End Spec.

(** ** Examples *)

Definition probe_env (device : string) (name : string) : option string :=
  if bool_decide (name = "MC_PROBE_RDMA_DEVICE") then Some device
  else if bool_decide (name = "MC_PROBE_SIZE") then Some "0x10000" else None.

(** An allocation at 4096 and the given devices; a region for the second protection domain
    is refused. *)
Definition sample_probe (names : list (option string)) : ProbeServices := {|
  p_set_device _ _ := 0; p_malloc _ _ := (0, 4096); p_memset _ _ := 0; p_free _ _ := 0;
  p_address_range _ p := (0, (p, 65536)); p_export _ _ _ := (0, 7); p_get_fd _ _ := 1;
  p_close _ _ := 0; p_devices _ := Some (100, names); p_open _ i := Some (Z.of_nat i + 200);
  p_close_device _ _ := 0; p_alloc_pd _ c := Some (c + 100); p_dealloc_pd _ _ := 0;
  p_reg_mr _ pd := if pd =? 300 then Some 400 else None; p_dereg_mr _ _ := 0; p_access := 7 |}.

Abbreviation sample_devices := ([Some "mlx5_0"; None; Some "mlx5_1"]).

Definition sample_probe_run (device : string) :=
  @probe_main (sample_probe sample_devices) (probe_env device) [].

Lemma probe_balanced_witness :
  ∃ left, accounts [] (sample_probe_run "mlx5_1").2 left ∧ left = [].
Proof.
  destruct (@probe_balanced (sample_probe sample_devices) (probe_env "mlx5_1") [] 170
    (sample_probe_run "mlx5_1").2) as (left & Ha & Hl); [by vm_compute|].
  exists left. split; [exact Ha|]. destruct Hl as [Hl|(l & _ & _ & Hc)]; [exact Hl|discriminate].
Defined.

Lemma probe_exit_code_witness :
  (sample_probe_run "mlx5_0").1 = 0 ∧
  ∃ ptr fd mr, @registered (sample_probe sample_devices) ptr 65536 fd
                 (sample_probe_run "mlx5_0").2 (Some mr).
Proof.
  split; [by vm_compute|].
  destruct (@probe_exit_code (sample_probe sample_devices) (probe_env "mlx5_0") [] 0
    (sample_probe_run "mlx5_0").2) as (H0 & _ & _); [by vm_compute|].
  destruct (H0 eq_refl) as (ptr & fd & flags & _ & _ & _ & _ & [He|[mr Hm]]); [discriminate He|].
  exists ptr, fd, mr. exact Hm.
Defined.

(** Without devices the list is not freed. *)
Theorem empty_device_list_leaks :
  (@probe_main (sample_probe []) (probe_env "mlx5_0") []).1 = 160 ∧
  PFreeDevices 100 ∉ (@probe_main (sample_probe []) (probe_env "mlx5_0") []).2.
Proof.
  split; [by vm_compute|]. intros Hin%list_elem_of_In. revert Hin. vm_compute.
  intuition discriminate.
Qed.
