(* ===== verification/Ascend.v ===== *)
(** * Shared memory in the Ascend build ([mooncake-store/src/real_client.cpp])

    With [USE_ASCEND_DIRECT] a dummy client shares device memory by IPC keys and fabric
    memory by shareable handles, besides the file descriptors of the other builds.  The
    real client imports, reserves and maps it, and takes it down with the client.  The
    Ascend runtime and the context manager are external. *)

From S2P Require Import Prelude CxxString StoreTypes ReplicaPolicy Segments DummyMap RangedRead RealSegments RealShm.
From stdpp Require Import base strings list sets gmap fin_maps.
From Stdlib Require Import ZArith Lia.

#[local] Open Scope Z_scope.
#[local] Set Default Proof Using "Type".

(** [is_ascend], [is_ipc] and the data of the kind. *)
Inductive region_kind :=
| PosixShm
| IpcShm (ipc_key_data : string)
| VmmShm (vmm_handle : Z).

Record AscendShm := MkAscendShm {
  as_shm : MappedShm; as_kind : region_kind; as_device_id : Z }.

(** The buffers handed out ([active_handles]) are those of [RealBuffers]. *)
Record AscendContext := MkAscendContext {
  as_shms : list AscendShm; as_allocator : option Allocator }.

Definition no_regions : AscendContext := MkAscendContext [] None.

Abbreviation ascend_contexts := (gmap UUID AscendContext).

Inductive ascend_event :=
| AMap (e : map_event)                               (* files, mappings, registrations *)
| ASetContext (device : Z) (ok : bool)
| AImport (handle_bytes : string) (r : option Z)
| AFreePhysical (handle rc : Z)
| AReserve (size : Z) (r : option Z)
| AReleaseAddress (va rc : Z)
| AMapMem (va size handle : Z) (ok : bool)
| AUnmapMem (va rc : Z)
| AIpcImport (key : string) (r : option Z)
| AIpcClose (key : string) (rc : Z).

Abbreviation aio A := (comp ascend_event A).

Definition ascend_map_event (e : ascend_event) : option map_event :=
  match e with AMap e => Some e | _ => None end.
Definition posix {A} (m : gio A) : aio A := lift_comp AMap ascend_map_event m.

Class AscendServices := {
  a_set_context : list ascend_event → Z → bool;
  a_import : list ascend_event → string → option Z;
  a_free_physical : list ascend_event → Z → Z;
  a_reserve : list ascend_event → Z → option Z;
  a_release : list ascend_event → Z → Z;
  a_map : list ascend_event → Z → Z → bool;
  a_unmap : list ascend_event → Z → Z;
  a_ipc_import : list ascend_event → string → option Z;
  a_ipc_close : list ascend_event → string → Z;
  (* sizeof(aclrtMemFabricHandle) *)
  a_fabric_handle_size : Z }.

Definition kInvalidPhysicalDeviceId : Z := -1.
Definition kIPCKeyLen : Z := 65.

Section Ascend.
Context `{!SegmentServices, !MapServices, !AscendServices}.
Context (max_mr_size : Z) (GPU_PREFIX kWildcardLocation : string).
Context (create_allocator : Z → Z → Allocator).
(** [globalConfig().ascend_agent_mode], [.ascend_use_fabric_mem], [this->protocol] *)
Context (agent_mode use_fabric : bool) (protocol : string).

Definition set_context (device : Z) : aio bool :=
  call (λ h, a_set_context h device) (ASetContext device).

Definition set_context_if_needed (device : Z) : aio (expected unit) :=
  if negb (bool_decide (protocol = "ascend")) || negb agent_mode then ret (Ok tt)
  else if device =? kInvalidPhysicalDeviceId then ret (Err INVALID_PARAMS)
  else let! ok := set_context device in ret (if ok then Ok tt else Err INVALID_PARAMS).

Definition free_physical (h : Z) : aio Z := call (λ hs, a_free_physical hs h) (AFreePhysical h).
Definition release_address (va : Z) : aio Z := call (λ hs, a_release hs va) (AReleaseAddress va).
Definition unmap_mem (va : Z) : aio Z := call (λ hs, a_unmap hs va) (AUnmapMem va).
Definition ipc_close (key : string) : aio Z := call (λ hs, a_ipc_close hs key) (AIpcClose key).

Definition region_base (dummy_base : Z) (r : AscendShm) : bool := has_base dummy_base (as_shm r).

Definition already_mapped (dummy_base : Z) (client_id : UUID) (ctxs : ascend_contexts) : bool :=
  existsb (region_base dummy_base) (as_shms (default no_regions (ctxs !! client_id))).

(** The end of every import: the allocator of a local buffer, and the new region;
    [undo] if there is a local buffer already. *)
Definition add_region (r : AscendShm) (is_local_buffer : bool) (undo : aio unit) (client_id : UUID)
    (ctxs : ascend_contexts) : aio (expected unit * ascend_contexts) :=
  let context := default no_regions (ctxs !! client_id) in
  match is_local_buffer, as_allocator context with
  | true, Some _ => undo ;;; ret (Err OBJECT_ALREADY_EXISTS, ctxs)
  | true, None =>
      ret (Ok tt, <[client_id := MkAscendContext (as_shms context ++ [r])
                      (Some (create_allocator (shm_buffer (as_shm r)) (shm_size (as_shm r))))]> ctxs)
  | false, a => ret (Ok tt, <[client_id := MkAscendContext (as_shms context ++ [r]) a]> ctxs)
  end.

(** [shm_contexts_[client_id]] *)
Definition with_context (client_id : UUID) (ctxs : ascend_contexts) : ascend_contexts :=
  <[client_id := default no_regions (ctxs !! client_id)]> ctxs.

(** ** Importing *)

(** [map_shm_internal_with_device] of this build. *)
Definition map_shm (c : Client) (fd dummy_base size : Z) (is_local_buffer : bool) (device : Z)
    (client_id : UUID) (ctxs : ascend_contexts) : aio (expected unit * ascend_contexts) :=
  if already_mapped dummy_base client_id ctxs
  then (if 0 <=? fd then posix (close fd) else ret tt) ;;; ret (Ok tt, ctxs)
  else if fd <? 0 then ret (Err INVALID_PARAMS, ctxs)
  else
    let! context_result := set_context_if_needed device in
    match context_result with
    | Err e => posix (close fd) ;;; ret (Err e, ctxs)
    | Ok _ =>
        let! ptr := posix (call (λ h, g_mmap h size fd 0) (GMmap size fd 0)) in
        match ptr with
        | None => posix (close fd) ;;; ret (Err INTERNAL_ERROR, ctxs)
        | Some p =>
            posix (close fd) ;;;
            let shm := MkShm (shm_name_of client_id dummy_base) (u64_sub p dummy_base) p size
                         dummy_base in
            let ctxs := with_context client_id ctxs in
            let! registered :=
              (if 0 <? size
               then posix (register_memory c max_mr_size GPU_PREFIX kWildcardLocation p size)
               else ret (Ok tt)) in
            match registered with
            | Err e => posix (munmap p size) ;;; ret (Err e, ctxs)
            | Ok _ => add_region (MkAscendShm shm PosixShm device) is_local_buffer
                        (posix (munmap p size)) client_id ctxs
            end
        end
    end.

Definition ascend_shm_internal (client : option Client) (dummy_base vmm_size : Z)
    (is_local_buffer : bool) (shareable_handle_bytes : string) (device : Z) (client_id : UUID)
    (ctxs : ascend_contexts) : aio (expected unit * ascend_contexts) :=
  match client with
  | None => ret (Err INVALID_PARAMS, ctxs)
  | Some _ =>
      if negb (Z.of_nat (String.length shareable_handle_bytes) =? a_fabric_handle_size)
      then ret (Err INVALID_PARAMS, ctxs)
      else
        let ctxs := with_context client_id ctxs in
        if already_mapped dummy_base client_id ctxs then ret (Ok tt, ctxs)
        else
          let! ok := set_context device in
          if negb ok then ret (Err INVALID_PARAMS, ctxs)
          else
            let! imported := call (λ h, a_import h shareable_handle_bytes)
                               (AImport shareable_handle_bytes) in
            match imported with
            | None => ret (Err INTERNAL_ERROR, ctxs)
            | Some imported_handle =>
                let! reserved := call (λ h, a_reserve h vmm_size) (AReserve vmm_size) in
                match reserved with
                | None => free_physical imported_handle ;;; ret (Err INTERNAL_ERROR, ctxs)
                | Some mapped_va =>
                    let! mapped := call (λ h, a_map h mapped_va imported_handle)
                                     (AMapMem mapped_va vmm_size imported_handle) in
                    if negb mapped then
                      release_address mapped_va ;;; free_physical imported_handle ;;;
                      ret (Err INTERNAL_ERROR, ctxs)
                    else
                      let shm := MkShm ("vmm_" +:+ to_string client_id.1 +:+ "_" +:+ to_string client_id.2)
                                   (u64_sub mapped_va dummy_base) mapped_va vmm_size dummy_base in
                      add_region (MkAscendShm shm (VmmShm imported_handle) device) is_local_buffer
                        (unmap_mem mapped_va ;;; release_address mapped_va ;;;
                         free_physical imported_handle ;;; ret tt) client_id ctxs
                end
            end
  end.

(** [client_->RegisterLocalMemory(va, size, "npu", false, true)] *)
Definition register_npu (c : Client) (va size : Z) : gio (expected unit) :=
  register_memory c max_mr_size GPU_PREFIX "npu" va size.

Definition ascend_ipc_shm_internal (client : option Client) (dummy_base mem_size : Z)
    (is_local_buffer : bool) (ipc_key_bytes : string) (device : Z) (client_id : UUID)
    (ctxs : ascend_contexts) : aio (expected unit * ascend_contexts) :=
  match client with
  | None => ret (Err INVALID_PARAMS, ctxs)
  | Some c =>
      if negb (Z.of_nat (String.length ipc_key_bytes) =? kIPCKeyLen)
      then ret (Err INVALID_PARAMS, ctxs)
      else
        let ctxs := with_context client_id ctxs in
        if already_mapped dummy_base client_id ctxs then ret (Ok tt, ctxs)
        else
          let! ok := set_context device in
          if negb ok then ret (Err INVALID_PARAMS, ctxs)
          else
            let! imported := call (λ h, a_ipc_import h ipc_key_bytes) (AIpcImport ipc_key_bytes) in
            match imported with
            | None => ret (Err INTERNAL_ERROR, ctxs)
            | Some mapped_va =>
                let! registered := (if use_fabric then ret (Ok tt)
                                    else posix (register_npu c mapped_va mem_size)) in
                match registered with
                | Err e => ipc_close ipc_key_bytes ;;; ret (Err e, ctxs)
                | Ok _ =>
                    let shm := MkShm ("ipc_" +:+ to_string client_id.1 +:+ "_" +:+ to_string client_id.2)
                                 (u64_sub mapped_va dummy_base) mapped_va mem_size dummy_base in
                    add_region (MkAscendShm shm (IpcShm ipc_key_bytes) device) is_local_buffer
                      (ipc_close ipc_key_bytes ;;; ret tt) client_id ctxs
                end
            end
  end.

(** ** Taking regions down *)

(** [unregisterLocalMemory] if there is a client and the region is not empty; a failure is
    logged. *)
Definition unregister_logged (client : option Client) (shm : MappedShm) : aio unit :=
  match client with
  | Some c => if 0 <? shm_size shm
              then posix (unregister_memory c (shm_buffer shm)) ;;; ret tt else ret tt
  | None => ret tt
  end.

Definition teardown_ascend_shm_buffer (client : option Client) (r : AscendShm) : aio unit :=
  set_context (as_device_id r) ;;;
  unregister_logged client (as_shm r) ;;;
  match as_kind r with
  | IpcShm key => if str_empty key then ret tt else ipc_close key ;;; ret tt
  | VmmShm handle =>
      unmap_mem (shm_buffer (as_shm r)) ;;;
      release_address (shm_buffer (as_shm r)) ;;;
      if handle =? 0 then ret tt else free_physical handle ;;; ret tt
  | PosixShm => ret tt
  end.

Definition unmap_region (shm : MappedShm) : aio unit := posix (munmap (shm_buffer shm) (shm_size shm)).

(** One region of [ascend_unmap_shm_internal]. *)
Definition unmap_one (client : option Client) (r : AscendShm) : aio unit :=
  if shm_buffer (as_shm r) =? 0 then ret tt
  else
    match as_kind r with
    | PosixShm =>
        let! context_result := set_context_if_needed (as_device_id r) in
        (match context_result with
         | Err _ => ret tt
         | Ok _ => unregister_logged client (as_shm r)
         end) ;;;
        unmap_region (as_shm r)
    | _ => teardown_ascend_shm_buffer client r
    end.

Definition ascend_unmap (client : option Client) (client_id : UUID) (ctxs : ascend_contexts)
  : aio (expected unit * ascend_contexts) :=
  match ctxs !! client_id with
  | None => ret (Err INVALID_PARAMS, ctxs)
  | Some context =>
      mmap (unmap_one client) (as_shms context) ;;; ret (Ok tt, delete client_id ctxs)
  end.

(** [unmap_shm_internal] of this build: every region is unmapped as if it were the mapping
    of a file, and the first failed unregistration ends the loop. *)
Fixpoint unmap_plainly (c : Client) (rs : list AscendShm) : aio bool :=
  match rs with
  | [] => ret true
  | r :: rs =>
      if shm_buffer (as_shm r) =? 0 then unmap_plainly c rs
      else
        let! rc := posix (unregister_memory c (shm_buffer (as_shm r))) in
        unmap_region (as_shm r) ;;;
        match rc with
        | Err _ => ret false
        | Ok _ => unmap_plainly c rs
        end
  end.

Definition plain_unmap (c : Client) (client_id : UUID) (ctxs : ascend_contexts)
  : aio (expected unit * ascend_contexts) :=
  match ctxs !! client_id with
  | None => ret (Err INVALID_PARAMS, ctxs)
  | Some context =>
      let! ok := unmap_plainly c (as_shms context) in
      ret (if ok then Ok tt else Err INTERNAL_ERROR, delete client_id ctxs)
  end.

(** What [dummy_client_monitor_func] does with an expired client. *)
Definition expire_client (c : Client) (client_id : UUID) (ctxs : ascend_contexts)
  : aio (expected unit * ascend_contexts) :=
  if agent_mode then ascend_unmap (Some c) client_id ctxs else plain_unmap c client_id ctxs.

Fixpoint split_region (dummy_base : Z) (rs : list AscendShm) : option (AscendShm * list AscendShm) :=
  match rs with
  | [] => None
  | r :: rs' =>
      if region_base dummy_base r then Some (r, rs')
      else match split_region dummy_base rs' with
           | Some (x, rest) => Some (x, r :: rest)
           | None => None
           end
  end.

(** [unregister_shm_buffer_internal] of this build. *)
Definition unregister_region (c : Client) (dummy_base : Z) (client_id : UUID)
    (ctxs : ascend_contexts) : aio (expected unit * ascend_contexts) :=
  match ctxs !! client_id with
  | None => ret (Err INVALID_PARAMS, ctxs)
  | Some context =>
      match split_region dummy_base (as_shms context) with
      | None => ret (Err INVALID_PARAMS, ctxs)
      | Some (r, rest) =>
          let removed := <[client_id := MkAscendContext rest (as_allocator context)]> ctxs in
          if shm_buffer (as_shm r) =? 0 then ret (Ok tt, removed)
          else
            match as_kind r with
            | PosixShm =>
                let! context_result := set_context_if_needed (as_device_id r) in
                match context_result with
                | Err e => ret (Err e, ctxs)
                | Ok _ =>
                    let! rc := posix (unregister_memory c (shm_buffer (as_shm r))) in
                    match rc with
                    | Err _ => ret (Err INTERNAL_ERROR, ctxs)
                    | Ok _ => unmap_region (as_shm r) ;;; ret (Ok tt, removed)
                    end
                end
            | _ => teardown_ascend_shm_buffer (Some c) r ;;; ret (Ok tt, removed)
            end
      end
  end.

(** The end of [tearDownAll_internal], where [client_] is null. *)
Definition teardown_region (r : AscendShm) : aio unit :=
  if shm_buffer (as_shm r) =? 0 then ret tt
  else
    match as_kind r with
    | PosixShm => unmap_region (as_shm r)
    | _ => teardown_ascend_shm_buffer None r
    end.

Definition teardown_regions (ctxs : ascend_contexts) : aio ascend_contexts :=
  mmap (λ context, mmap teardown_region (as_shms context)) (map_to_list ctxs).*2 ;;;
  ret ∅.
End Ascend.
