(* ===== verification/AscendSpec.v ===== *)
(** * What the Ascend build guarantees for shared memory

    Over any sequence of imports, unregistrations, expirations and the tear-down, every
    imported handle, reserved address, mapping and IPC import is given back or recorded. *)

From S2P Require Import Prelude CxxString StoreTypes ReplicaPolicy Samples Accounting Segments SegmentsSpec DummyMap RangedRead RealSegments RealSegmentsSpec RealChunks RealShm RealShmSpec Ascend.
From stdpp Require Import base strings list sets gmap fin_maps.
From Stdlib Require Import ZArith Lia.

#[local] Open Scope Z_scope.
#[local] Set Default Proof Using "Type".

(** ** Resources *)

Inductive ascend_res :=
| AsPosix (r : seg_res)
| AsHandle (h : Z)
| AsReserved (va : Z)
| AsMapped (va : Z)
| AsIpc (key : string).

#[export] Instance ascend_res_eq : EqDecision ascend_res.
Proof. solve_decision. Defined.

#[export] Instance ascend_resources : Resources ascend_event ascend_res := {|
  acquires e := match e with
    | AMap e => AsPosix <$> acquires e
    | AImport _ (Some h) => [AsHandle h]
    | AReserve _ (Some va) => [AsReserved va]
    | AMapMem va _ _ true => [AsMapped va]
    | AIpcImport key (Some _) => [AsIpc key]
    | _ => []
    end;
  release_of e := match e with
    | AMap e => option_map (λ x, (AsPosix x.1, x.2)) (release_of e)
    | AFreePhysical h rc => Some (AsHandle h, rc)
    | AReleaseAddress va rc => Some (AsReserved va, rc)
    | AUnmapMem va rc => Some (AsMapped va, rc)
    | AIpcClose key rc => Some (AsIpc key, rc)
    | _ => None
    end |}.

#[export] Instance AsPosix_inj : Inj (=) (=) AsPosix.
Proof. by intros x y [= ->]. Qed.

Lemma posix_owns {A} pre (m : gio A) post l :
  owns pre m post → owns (l ++ (AsPosix <$> pre)) (posix m) (λ v, l ++ (AsPosix <$> post v)).
Proof.
  apply lift_owns; [apply _|by intros e|by intros e|]. intros [r| | | |]; [left; by exists r|by right..].
Qed.

(** What a region holds. *)
Definition kind_res (r : AscendShm) : list ascend_res :=
  match as_kind r with
  | PosixShm => [AsPosix (RMapping (shm_buffer (as_shm r)) (shm_size (as_shm r)))]
  | IpcShm key => if str_empty key then [] else [AsIpc key]
  | VmmShm h => AsMapped (shm_buffer (as_shm r)) :: AsReserved (shm_buffer (as_shm r))
                  :: (if h =? 0 then [] else [AsHandle h])
  end.

Definition region_res (r : AscendShm) : list ascend_res :=
  if shm_buffer (as_shm r) =? 0 then [] else kind_res r.

Definition regions_res (context : AscendContext) : list ascend_res := as_shms context ≫= region_res.
Definition ascend_held (ctxs : ascend_contexts) : list ascend_res :=
  (map_to_list ctxs).*2 ≫= regions_res.

Lemma ascend_held_insert id context ctxs :
  ascend_held (<[id := context]> ctxs) ≡ₚ regions_res context ++ ascend_held (delete id ctxs).
Proof.
  rewrite <- insert_delete_eq. unfold ascend_held.
  rewrite map_to_list_insert by apply lookup_delete_eq. done.
Qed.

Lemma ascend_held_split id ctxs :
  ascend_held ctxs ≡ₚ regions_res (default no_regions (ctxs !! id)) ++ ascend_held (delete id ctxs).
Proof.
  destruct (ctxs !! id) as [context|] eqn:E; cbn.
  - rewrite <- (insert_id ctxs id context E) at 1. apply ascend_held_insert.
  - by rewrite delete_id.
Qed.

Lemma with_context_held id ctxs : ascend_held (with_context id ctxs) ≡ₚ ascend_held ctxs.
Proof. unfold with_context. by rewrite ascend_held_insert, (ascend_held_split id ctxs). Qed.

Lemma with_context_lookup id ctxs :
  default no_regions (with_context id ctxs !! id) = default no_regions (ctxs !! id).
Proof. unfold with_context. by rewrite lookup_insert_eq. Qed.

Lemma split_region_perm base rs x rest :
  split_region base rs = Some (x, rest) → rs ≡ₚ x :: rest.
Proof.
  revert rest. induction rs as [|r rs IH]; intros rest; cbn; [done|].
  destruct (region_base base r); [by intros [= -> ->]|].
  destruct (split_region base rs) as [[y l]|]; [|done]. intros [= -> <-].
  rewrite (IH l eq_refl). apply perm_swap.
Qed.

Section Spec.
Context `{!SegmentServices, !MapServices, !AscendServices}.
Context (max_mr_size : Z) (GPU_PREFIX kWildcardLocation : string).
Context (create_allocator : Z → Z → Allocator).
Context (agent_mode use_fabric : bool) (protocol : string).
(** Mappings, reservations and imports are not placed at address zero; handles are not
    null. *)
Context (mmap_placed : ∀ h n fd off p, g_mmap h n fd off = Some p → p ≠ 0).
Context (reserve_placed : ∀ h n va, a_reserve h n = Some va → va ≠ 0).
Context (ipc_placed : ∀ h key va, a_ipc_import h key = Some va → va ≠ 0).
Context (import_handle : ∀ h bytes x, a_import h bytes = Some x → x ≠ 0).

(** ** Single calls *)

Lemma silent_owns {A} (f : list ascend_event → A) ev (l : list ascend_res) :
  (∀ v, acquires (ev v) = [] ∧ release_of (ev v) = None) → owns l (call f ev) (λ _, l).
Proof.
  intros Hv. apply owns_call. intros v r. destruct (Hv v) as [Ha Hr].
  unfold releases, refuses. rewrite Ha, Hr, holds_nil. lia.
Qed.

Lemma give_back_owns (f : list ascend_event → Z) (ev : Z → ascend_event) x l :
  (∀ rc, acquires (ev rc) = [] ∧ release_of (ev rc) = Some (x, rc)) →
  owns (x :: l) (call f ev) (λ _, l).
Proof.
  intros Hv. apply owns_call. intros v r. destruct (Hv v) as [Ha Hr].
  unfold releases, refuses. rewrite Ha, Hr, holds_nil, holds_cons.
  destruct (v =? 0); rewrite ?holds_cons, ?holds_nil; lia.
Qed.

Lemma take_owns {A} (f : list ascend_event → A) ev (l : list ascend_res) :
  (∀ v, release_of (ev v) = None) → owns l (call f ev) (λ v, acquires (ev v) ++ l).
Proof.
  intros Hv. apply owns_call. intros v r. unfold releases, refuses.
  rewrite Hv, holds_app, holds_nil. lia.
Qed.

Lemma free_physical_owns x l : owns (AsHandle x :: l) (free_physical x) (λ _, l).
Proof. by apply give_back_owns. Qed.
Lemma release_address_owns va l : owns (AsReserved va :: l) (release_address va) (λ _, l).
Proof. by apply give_back_owns. Qed.
Lemma unmap_mem_owns va l : owns (AsMapped va :: l) (unmap_mem va) (λ _, l).
Proof. by apply give_back_owns. Qed.
Lemma ipc_close_owns key l : owns (AsIpc key :: l) (ipc_close key) (λ _, l).
Proof. by apply give_back_owns. Qed.

Lemma set_context_owns d l : owns l (set_context d) (λ _, l).
Proof. by apply silent_owns. Qed.

Lemma set_context_if_needed_owns d l :
  owns l (set_context_if_needed agent_mode protocol d) (λ _, l).
Proof.
  unfold set_context_if_needed. repeat case_match; try by apply owns_ret.
  eapply owns_seq; [apply set_context_owns|]. intros ok. by apply owns_ret.
Qed.

(** A part with files and mappings that gives back what it is given. *)
Lemma posix_released {A} pre (m : gio A) l :
  owns pre m (λ _, []) → owns ((AsPosix <$> pre) ++ l) (posix m) (λ _, l).
Proof.
  intros Hm. eapply owns_conseq; [exact (posix_owns pre m (λ _, []) l Hm)| |].
  - apply Permutation_app_comm.
  - intros v. cbn. by rewrite app_nil_r.
Qed.

Lemma posix_segments {A} (m : sio A) l : owns l (posix (on_segments m)) (λ _, l).
Proof.
  eapply owns_conseq; [exact (posix_owns [] _ (λ _, []) l (on_segments_owns [] m))| |].
  - cbn. by rewrite app_nil_r.
  - intros v. cbn. by rewrite app_nil_r.
Qed.

Lemma posix_close_owns fd l : owns (AsPosix (RFd fd) :: l) (posix (close fd)) (λ _, l).
Proof. exact (posix_released [RFd fd] _ l (close_owns fd)). Qed.

Lemma posix_munmap_owns p n l : owns (AsPosix (RMapping p n) :: l) (posix (munmap p n)) (λ _, l).
Proof. exact (posix_released [RMapping p n] _ l (munmap_owns p n)). Qed.

(** ** Importing *)

Lemma ascend_add_owns r is_local undo id ctxs :
  shm_buffer (as_shm r) ≠ 0 →
  (∀ l, owns (kind_res r ++ l) undo (λ _, l)) →
  owns (kind_res r ++ ascend_held ctxs) (add_region create_allocator r is_local undo id ctxs)
    (λ x, ascend_held x.2).
Proof.
  intros Hp Hundo. unfold add_region. set (context := default no_regions (ctxs !! id)).
  assert (Hadd : ∀ a, kind_res r ++ ascend_held ctxs ≡ₚ
    ascend_held (<[id := MkAscendContext (as_shms context ++ [r]) a]> ctxs)).
  { intros a. rewrite ascend_held_insert, (ascend_held_split id ctxs). unfold regions_res. cbn.
    rewrite bind_app. cbn. unfold region_res at 3. rewrite (proj2 (Z.eqb_neq _ _) Hp).
    fold context. solve_Permutation. }
  destruct is_local; [|apply owns_ret; apply Hadd].
  destruct (as_allocator context); [|apply owns_ret; apply Hadd].
  eapply owns_seq; [apply Hundo|]. intros u. by apply owns_ret.
Qed.

Abbreviation map_posix := (map_shm max_mr_size GPU_PREFIX kWildcardLocation create_allocator
                             agent_mode protocol).
Abbreviation import_vmm := (ascend_shm_internal create_allocator).
Abbreviation import_ipc := (ascend_ipc_shm_internal max_mr_size GPU_PREFIX create_allocator use_fabric).

Lemma posix_mmap_owns n fd l :
  owns l (posix (call (λ h, g_mmap h n fd 0) (GMmap n fd 0)))
    (λ o, match o with Some p => [AsPosix (RMapping p n)] | None => [] end ++ l).
Proof.
  eapply owns_conseq; [exact (posix_owns [] _ _ l (shm_mmap_owns n fd []))| |].
  - cbn. by rewrite app_nil_r.
  - intros [p|]; cbn; [apply Permutation_app_comm|by rewrite app_nil_r].
Qed.

Definition received_fd (fd : Z) : list ascend_res := if fd <? 0 then [] else [AsPosix (RFd fd)].

Lemma close_and_owns {A} fd (x : A) l post :
  l ≡ₚ post x → owns (AsPosix (RFd fd) :: l) (posix (close fd) ;;; ret x) post.
Proof. intros Hl. eapply owns_seq; [apply posix_close_owns|]. intros u. by apply owns_ret. Qed.

Lemma munmap_and_owns {A} p n (x : A) l post :
  l ≡ₚ post x → owns (AsPosix (RMapping p n) :: l) (posix (munmap p n) ;;; ret x) post.
Proof. intros Hl. eapply owns_seq; [apply posix_munmap_owns|]. intros u. by apply owns_ret. Qed.

Lemma map_posix_owns c fd base size is_local device id ctxs :
  owns (received_fd fd ++ ascend_held ctxs) (map_posix c fd base size is_local device id ctxs)
    (λ r, ascend_held r.2).
Proof using mmap_placed.
  unfold map_shm, received_fd. destruct (already_mapped _ _ _).
  { destruct (Z.ltb_spec fd 0).
    - rewrite (proj2 (Z.leb_gt 0 fd)) by done.
      eapply owns_seq; [by apply (owns_ret tt _ (λ _, ascend_held ctxs))|]. intros u. by apply owns_ret.
    - rewrite (proj2 (Z.leb_le 0 fd)) by done. by apply close_and_owns. }
  destruct (fd <? 0); [by apply owns_ret|]. cbn [app].
  eapply owns_seq; [apply set_context_if_needed_owns|]. intros [u|e]; [|by apply close_and_owns].
  eapply owns_bind with (P := λ o, ∀ p, o = Some p → p ≠ 0).
  { apply posix_mmap_owns. }
  { intros h v evs (evs' & [-> _]%call_inv & _)%lift_inv p. apply mmap_placed. }
  intros [p|] Hp; cbn beta iota; [|by apply close_and_owns].
  specialize (Hp p eq_refl). cbn [app].
  eapply owns_seq with (mid := λ _, AsPosix (RMapping p size) :: ascend_held ctxs).
  { eapply owns_pre; [apply posix_close_owns|]. apply perm_swap. }
  intros _. cbv zeta.
  eapply owns_pre with (pre := AsPosix (RMapping p size) :: ascend_held (with_context id ctxs));
    [|by rewrite with_context_held].
  eapply owns_seq with (mid := λ _, AsPosix (RMapping p size) :: ascend_held (with_context id ctxs)).
  { destruct (0 <? size); [apply posix_segments|by apply owns_ret]. }
  intros [u'|e]; [|by apply munmap_and_owns].
  apply (ascend_add_owns (MkAscendShm (MkShm _ _ p size base) PosixShm device)); [exact Hp|].
  intros l. apply posix_munmap_owns.
Qed.

(** Giving back an imported handle, alone or with its address. *)
Lemma undo_handle_owns {A} x (v : A) l post :
  l ≡ₚ post v → owns (AsHandle x :: l) (free_physical x ;;; ret v) post.
Proof. intros Hl. eapply owns_seq; [apply free_physical_owns|]. intros u. by apply owns_ret. Qed.

Lemma undo_address_owns {A} va x (v : A) l post :
  l ≡ₚ post v →
  owns (AsReserved va :: AsHandle x :: l) (release_address va ;;; free_physical x ;;; ret v) post.
Proof.
  intros Hl. eapply owns_seq; [apply release_address_owns|]. intros u. by apply undo_handle_owns.
Qed.

Lemma import_vmm_owns client base size is_local bytes device id ctxs :
  owns (ascend_held ctxs) (import_vmm client base size is_local bytes device id ctxs)
    (λ r, ascend_held r.2).
Proof using reserve_placed import_handle.
  unfold ascend_shm_internal. destruct client as [c|]; [|by apply owns_ret].
  destruct (negb _); [by apply owns_ret|]. cbv zeta.
  eapply owns_pre; [|apply (with_context_held id ctxs)]. set (ctxs' := with_context id ctxs).
  destruct (already_mapped _ _ _); [by apply owns_ret|].
  eapply owns_seq; [apply set_context_owns|]. intros ok. destruct (negb ok); [by apply owns_ret|].
  eapply owns_bind with (P := λ o, ∀ x, o = Some x → x ≠ 0).
  { by apply take_owns. }
  { intros h v evs [-> _]%call_inv x. apply import_handle. }
  intros [x|] Hx; cbn beta iota; [|by apply owns_ret]. specialize (Hx x eq_refl).
  eapply owns_bind with (P := λ o, ∀ va, o = Some va → va ≠ 0).
  { by apply take_owns. }
  { intros h v evs [-> _]%call_inv va. apply reserve_placed. }
  intros [va|] Hva; cbn beta iota; [|by apply undo_handle_owns]. specialize (Hva va eq_refl).
  eapply owns_seq; [by apply take_owns|].
  intros [|]; cbn [acquires ascend_resources app negb]; [|by apply undo_address_owns].
  eapply owns_pre;
    [apply (ascend_add_owns (MkAscendShm (MkShm _ _ va size base) (VmmShm x) device)); [exact Hva|]|].
  - intros l. unfold kind_res. cbn. rewrite (proj2 (Z.eqb_neq x 0) Hx).
    eapply owns_seq; [apply unmap_mem_owns|]. intros u. by apply undo_address_owns.
  - unfold kind_res. cbn. by rewrite (proj2 (Z.eqb_neq x 0) Hx).
Qed.

Lemma key_not_empty key : (Z.of_nat (String.length key) =? kIPCKeyLen) = true → str_empty key = false.
Proof. by destruct key. Qed.

Lemma import_ipc_owns client base size is_local key device id ctxs :
  owns (ascend_held ctxs) (import_ipc client base size is_local key device id ctxs)
    (λ r, ascend_held r.2).
Proof using ipc_placed.
  unfold ascend_ipc_shm_internal. destruct client as [c|]; [|by apply owns_ret].
  destruct (Z.of_nat (String.length key) =? kIPCKeyLen) eqn:Hk; [|by apply owns_ret].
  apply key_not_empty in Hk. cbn [negb]. cbv zeta.
  eapply owns_pre; [|apply (with_context_held id ctxs)]. set (ctxs' := with_context id ctxs).
  destruct (already_mapped _ _ _); [by apply owns_ret|].
  eapply owns_seq; [apply set_context_owns|]. intros ok. destruct (negb ok); [by apply owns_ret|].
  eapply owns_bind with (P := λ o, ∀ x, o = Some x → x ≠ 0).
  { by apply take_owns. }
  { intros h v evs [-> _]%call_inv x. apply ipc_placed. }
  intros [va|] Hva; cbn beta iota; [|by apply owns_ret]. specialize (Hva va eq_refl).
  eapply owns_seq with (mid := λ _, AsIpc key :: ascend_held ctxs').
  { destruct use_fabric; [by apply owns_ret|apply posix_segments]. }
  assert (Hundo : ∀ A (v : A) l post, l ≡ₚ post v → owns (AsIpc key :: l) (ipc_close key ;;; ret v) post).
  { intros A v l post Hl. eapply owns_seq; [apply ipc_close_owns|]. intros u. by apply owns_ret. }
  intros [u|e]; [|by apply Hundo].
  eapply owns_pre;
    [apply (ascend_add_owns (MkAscendShm (MkShm _ _ va size base) (IpcShm key) device)); [exact Hva|]|].
  - intros l. unfold kind_res. cbn. rewrite Hk. by apply Hundo.
  - unfold kind_res. cbn. by rewrite Hk.
Qed.

(** ** Taking regions down *)

Lemma unregister_logged_owns client shm l : owns l (unregister_logged client shm) (λ _, l).
Proof.
  unfold unregister_logged. destruct client as [c|]; [|by apply owns_ret].
  destruct (0 <? _); [|by apply owns_ret].
  eapply owns_seq; [apply posix_segments|]. intros u. by apply owns_ret.
Qed.

(** Not for a mapping of a file, which is not an Ascend region. *)
Lemma teardown_ascend_owns client r l :
  as_kind r ≠ PosixShm → owns (kind_res r ++ l) (teardown_ascend_shm_buffer client r) (λ _, l).
Proof.
  intros Hk. unfold teardown_ascend_shm_buffer.
  eapply owns_seq; [apply set_context_owns|]. intros ?; cbn beta.
  eapply owns_seq; [apply unregister_logged_owns|]. intros ?; cbn beta.
  unfold kind_res. destruct (as_kind r) as [|key|x]; [done|..].
  - destruct (str_empty key); [by apply owns_ret|].
    eapply owns_seq; [apply ipc_close_owns|]. intros u. by apply owns_ret.
  - eapply owns_seq; [apply unmap_mem_owns|]. intros ?; cbn beta.
    eapply owns_seq; [apply release_address_owns|]. intros ?; cbn beta.
    destruct (x =? 0); [by apply owns_ret|]. by apply undo_handle_owns.
Qed.

Lemma unmap_one_owns client r : owns (region_res r) (unmap_one agent_mode protocol client r) (λ _, []).
Proof.
  unfold region_res, unmap_one. destruct (shm_buffer (as_shm r) =? 0); [by apply owns_ret|].
  rewrite <- (app_nil_r (kind_res r)).
  destruct (as_kind r) eqn:Hk; [|apply teardown_ascend_owns; by rewrite Hk..].
  eapply owns_seq; [apply set_context_if_needed_owns|]. intros res.
  eapply owns_seq with (mid := λ _, kind_res r ++ []).
  { destruct res; [apply unregister_logged_owns|by apply owns_ret]. }
  intros _. unfold kind_res. rewrite Hk. apply posix_munmap_owns.
Qed.

Lemma teardown_region_owns r : owns (region_res r) (teardown_region r) (λ _, []).
Proof.
  unfold region_res, teardown_region. destruct (shm_buffer (as_shm r) =? 0); [by apply owns_ret|].
  rewrite <- (app_nil_r (kind_res r)).
  destruct (as_kind r) eqn:Hk; [|apply teardown_ascend_owns; by rewrite Hk..].
  unfold kind_res. rewrite Hk. apply posix_munmap_owns.
Qed.

Lemma ascend_unmap_owns client id ctxs :
  owns (ascend_held ctxs) (ascend_unmap agent_mode protocol client id ctxs) (λ r, ascend_held r.2).
Proof.
  unfold ascend_unmap. pose proof (ascend_held_split id ctxs) as Hs.
  destruct (ctxs !! id) as [context|]; [|by apply owns_ret]. cbn in Hs.
  eapply owns_pre; [|symmetry; exact Hs]. apply owns_consume.
  - apply (owns_mmap region_res), unmap_one_owns.
  - intros us. by apply owns_ret.
Qed.

Lemma unregister_region_owns c base id ctxs :
  owns (ascend_held ctxs) (unregister_region agent_mode protocol c base id ctxs)
    (λ r, ascend_held r.2).
Proof.
  unfold unregister_region. pose proof (ascend_held_split id ctxs) as Hs.
  destruct (ctxs !! id) as [context|]; [|by apply owns_ret]. cbn in Hs.
  destruct (split_region base (as_shms context)) as [[r rest]|] eqn:Hsp; [|by apply owns_ret].
  apply split_region_perm in Hsp.
  assert (Hres : ascend_held ctxs ≡ₚ region_res r ++
    ascend_held (<[id := MkAscendContext rest (as_allocator context)]> ctxs)).
  { rewrite Hs, ascend_held_insert. unfold regions_res. cbn. rewrite Hsp. cbn. by rewrite app_assoc. }
  unfold region_res in Hres. destruct (shm_buffer (as_shm r) =? 0); [by apply owns_ret|].
  cbv zeta. destruct (as_kind r) eqn:Hk; cycle 1.
  1,2: eapply owns_pre; [|symmetry; exact Hres];
    (eapply owns_seq; [apply teardown_ascend_owns; by rewrite Hk|]); intros u; by apply owns_ret.
  eapply owns_seq; [apply set_context_if_needed_owns|]. intros [u|e]; [|by apply owns_ret].
  eapply owns_seq; [apply posix_segments|]. intros [u'|e]; [|by apply owns_ret].
  eapply owns_pre; [|symmetry; exact Hres]. unfold kind_res. rewrite Hk. by apply munmap_and_owns.
Qed.

Lemma teardown_regions_owns ctxs :
  owns (ascend_held ctxs) (teardown_regions ctxs) (λ r, ascend_held r).
Proof.
  unfold teardown_regions. rewrite <- (app_nil_r (ascend_held ctxs)). apply owns_consume.
  - apply (owns_mmap regions_res). intros context. apply (owns_mmap region_res), teardown_region_owns.
  - intros us. by apply owns_ret.
Qed.

(** ** Any sequence of requests *)

(** One request, with the descriptor it brings. *)
Inductive ascend_request : list ascend_res → (ascend_contexts → aio ascend_contexts) → Prop :=
| rq_map c fd base size is_local device id :
    ascend_request (received_fd fd)
      (λ ctxs, let! r := map_posix c fd base size is_local device id ctxs in ret r.2)
| rq_vmm client base size is_local bytes device id :
    ascend_request [] (λ ctxs, let! r := import_vmm client base size is_local bytes device id ctxs in ret r.2)
| rq_ipc client base size is_local key device id :
    ascend_request [] (λ ctxs, let! r := import_ipc client base size is_local key device id ctxs in ret r.2)
| rq_unregister c base id :
    ascend_request [] (λ ctxs, let! r := unregister_region agent_mode protocol c base id ctxs in ret r.2)
| rq_expire c id :
    ascend_request [] (λ ctxs, let! r := expire_client agent_mode protocol c id ctxs in ret r.2)
| rq_teardown : ascend_request [] teardown_regions.

Lemma request_owns fds m ctxs :
  agent_mode = true → ascend_request fds m → owns (fds ++ ascend_held ctxs) (m ctxs) ascend_held.
Proof using mmap_placed reserve_placed ipc_placed import_handle.
  intros Hagent. destruct 1; cbn beta; [..|apply teardown_regions_owns];
    (eapply owns_seq; [first [apply map_posix_owns|apply import_vmm_owns|apply import_ipc_owns|
                              apply unregister_region_owns|
                              unfold expire_client; rewrite Hagent at 1; apply ascend_unmap_owns]|
                       intros r; by apply owns_ret]).
Qed.

(** The life of the contexts: descriptors received, events, contexts. *)
Inductive ascend_life : list ascend_res → list ascend_event → ascend_contexts → Prop :=
| al_start : ascend_life [] [] ∅
| al_request fds evs ctxs fd m ctxs' e :
    ascend_life fds evs ctxs → ascend_request fd m → m ctxs evs = (ctxs', e) →
    ascend_life (fds ++ fd) (evs ++ e) ctxs'.

(** C23: In the Ascend build with agent mode on, over any sequence of imports by descriptor,
    fabric handle or IPC key, unregistrations, expirations and tear-downs, every descriptor
    received is closed, and every imported handle, reserved address, mapping and IPC import
    is recorded in the contexts or has been given back, on the error paths too (unless a
    release call fails); after a tear-down nothing is left. With agent mode off the
    expiration of a client loses its handles and imports ([expired_handle_lost]). *)
Theorem ascend_memory_balanced fds evs ctxs :
  agent_mode = true → ascend_life fds evs ctxs →
  accounts fds evs (ascend_held ctxs) ∧
  ∀ h ctxs' e, teardown_regions ctxs h = (ctxs', e) → accounts fds (evs ++ e) [].
Proof using mmap_placed reserve_placed ipc_placed import_handle.
  intros Hagent Hlife.
  assert (Hacc : accounts fds evs (ascend_held ctxs)).
  { induction Hlife as [|fds evs ctxs fd m ctxs' e _ IH Hm R]; [apply accounts_nil|].
    apply accounts_app with (mid := fd ++ ascend_held ctxs).
    - rewrite (Permutation_app_comm fds). by apply accounts_frame.
    - exact (request_owns _ _ _ Hagent Hm _ _ _ R). }
  split; [done|]. intros h ctxs' e R. eapply accounts_app; [exact Hacc|].
  assert (ctxs' = ∅) as ->.
  { by apply bind_inv in R as (u & e1 & e2 & _ & [-> _]%ret_inv & _). }
  exact (teardown_regions_owns _ _ _ _ R).
Qed.
End Spec.

(** ** Concrete requests *)

(** A runtime that grants everything. *)
Definition sample_ascend : AscendServices := {|
  a_set_context _ _ := true; a_import _ _ := Some 900; a_free_physical _ _ := 0;
  a_reserve h _ := Some (1048576 * Z.of_nat (S (length h))); a_release _ _ := 0;
  a_map _ _ _ := true; a_unmap _ _ := 0;
  a_ipc_import h _ := Some (1048576 * Z.of_nat (S (length h))); a_ipc_close _ _ := 0;
  a_fabric_handle_size := 4 |}.

Definition sample_key : string := String.concat "" (replicate 65 "k").

Abbreviation sample_import_ipc base is_local ctxs h :=
  (@ascend_ipc_shm_internal (counting_segments 0 true) sample_ascend 65536 "cuda:" (λ _ _ _ _, None)
     false (Some sample_client) base 4096 is_local sample_key 0 (1, 1) ctxs h).

Definition vmm_run :=
  @ascend_shm_internal sample_ascend (λ _ _ _ _, None) (Some sample_client) 65536 8192 true "abcd" 0
    (1, 1) ∅ [].
Definition ipc_run := sample_import_ipc 131072 false vmm_run.1.2 vmm_run.2.

Lemma ascend_memory_balanced_witness :
  accounts [] (vmm_run.2 ++ ipc_run.2) (ascend_held ipc_run.1.2) ∧
  ascend_held ipc_run.1.2 = [AsMapped 3145728; AsReserved 3145728; AsHandle 900; AsIpc sample_key].
Proof.
  assert (Hlife : @ascend_life (counting_segments 0 true) shm_maps sample_ascend 65536 "cuda:" "*"
    (λ _ _ _ _, None) true false "ascend" (([] ++ []) ++ []) (([] ++ vmm_run.2) ++ ipc_run.2)
    ipc_run.1.2).
  { eapply al_request with (ctxs := vmm_run.1.2);
      [eapply al_request; [apply al_start| |]| |].
    - apply (rq_vmm _ _ _ _ _ _ _ (Some sample_client) 65536 8192 true "abcd" 0 (1, 1)).
    - vm_compute. reflexivity.
    - apply (rq_ipc _ _ _ _ _ _ _ (Some sample_client) 131072 4096 false sample_key 0 (1, 1)).
    - vm_compute. reflexivity. }
  split; [|by vm_compute].
  apply (@ascend_memory_balanced (counting_segments 0 true) shm_maps sample_ascend 65536 "cuda:" "*"
    (λ _ _ _ _, None) true false "ascend" shm_maps_placed
    ltac:(intros h n va; cbn; intros [= <-]; lia)
    ltac:(intros h key va; cbn; intros [= <-]; lia)
    ltac:(intros h bytes x; cbn; intros [= <-]; lia)
    [] (vmm_run.2 ++ ipc_run.2) ipc_run.1.2 eq_refl Hlife).
Defined.

(** A second local buffer shared by key is closed and stays registered with the transfer
    engine. *)
Theorem refused_ipc_buffer_stays_registered :
  let run := sample_import_ipc 131072 true vmm_run.1.2 vmm_run.2 in
  run.1.1 = Err OBJECT_ALREADY_EXISTS ∧
  run.2 = [ASetContext 0 true; AIpcImport sample_key (Some 6291456);
           AMap (GSegment (TERegister 6291456 4096 "npu" 0)); AIpcClose sample_key 0].
Proof. by vm_compute. Qed.

(** With agent mode off the monitor unmaps an expired client as if its regions were files:
    the imported handle, the reserved address and the mapping are forgotten without a call
    that gives them back, and [munmap] is called on an address of the Ascend runtime. *)
Theorem expired_handle_lost :
  let run := @expire_client (counting_segments 0 true) shm_maps sample_ascend false "ascend"
               sample_client (1, 1) vmm_run.1.2 vmm_run.2 in
  ascend_held vmm_run.1.2 = [AsMapped 3145728; AsReserved 3145728; AsHandle 900] ∧
  run.1 = (Ok tt, ∅) ∧
  run.2 = [AMap (GSegment (TEUnregister 3145728 0)); AMap (GSegment (SpdkUnregister 3145728));
           AMap (GMunmap 3145728 8192 0)].
Proof. by vm_compute. Qed.
