(* ===== verification/DummyAscend.v ===== *)
(** * Device memory of a dummy client ([mooncake-store/src/dummy_client.cpp], Ascend build)

    In agent mode the dummy client shares device memory with the real client by IPC keys
    and fabric memory by shareable handles, and keeps the device buffers to register them
    again after a reconnection; host memory goes over the IPC socket.  The real client's
    side is [Ascend]; the transport, the socket and the Ascend runtime of this process are
    external. *)

From S2P Require Import Prelude CxxString StoreTypes ReplicaPolicy Segments DummyMap RangedRead RealSegments RealShm DummyRpc DummyClient Ascend.
From stdpp Require Import base strings list sets gmap fin_maps.
From Stdlib Require Import ZArith Lia.

#[local] Open Scope Z_scope.
#[local] Set Default Proof Using "Type".

Inductive agent_event :=
| GReal (e : ascend_event)                             (* calls of the real client *)
| GAttributes (ptr : Z) (r : option bool)              (* None: failed; true: device memory *)
| GExportKey (ptr size : Z) (r : option string)
| GPhysical (ptr : Z) (r : option Z)
| GExportHandle (handle : Z) (r : option string)
| GSocket (sock : Z)                                   (* negative: failed, and so on *)
| GConnect (sock rc : Z)
| GSend (sock rc : Z)
| GSendFd (sock fd rc : Z)
| GIpc (sock : Z) (o : ipc_outcome)
| GClose (sock : Z).

Definition real_side (e : agent_event) : option ascend_event :=
  match e with GReal e => Some e | _ => None end.

Abbreviation tio A := (dio agent_event A).

Class AgentServices := {
  t_attributes : list (dummy_event agent_event) → Z → option bool;
  t_export_key : list (dummy_event agent_event) → Z → option string;
  t_physical : list (dummy_event agent_event) → Z → option Z;
  t_export_handle : list (dummy_event agent_event) → Z → option string;
  t_socket : list (dummy_event agent_event) → Z;
  t_connect : list (dummy_event agent_event) → Z → Z;
  t_send : list (dummy_event agent_event) → Z → Z;
  t_send_fd : list (dummy_event agent_event) → Z → Z → Z;
  t_ipc : list (dummy_event agent_event) → Z → ipc_outcome }.

Record Agent := MkAgent {
  ag_client_id : UUID;
  ag_device_id : Z;
  ag_socket_path : string;                             (* ipc_socket_path_ *)
  ag_connected : bool;
  registered_device_buffers_ : gmap Z Z }.

Definition with_buffers_of (a : Agent) (m : gmap Z Z) : Agent :=
  MkAgent (ag_client_id a) (ag_device_id a) (ag_socket_path a) (ag_connected a) m.

Section Agent.
Context `{!SegmentServices, !MapServices, !AscendServices, !RpcTransport agent_event, !AgentServices}.
(** The real client. *)
Context (client : Client) (max_mr_size : Z) (GPU_PREFIX kWildcardLocation : string).
Context (create_allocator : Z → Z → Allocator).
Context (agent_mode use_fabric : bool) (protocol : string).
Context (toInt : ErrorCode → Z).

Definition remote {A} (m : aio A) : comp agent_event A := lift_comp GReal real_side m.
Definition note_call {A} (f : list (dummy_event agent_event) → A) (ev : A → agent_event) : tio A :=
  call f (λ a, DServer (ev a)).

(** [can_invoke_when_disconnected]: the requests below that may be sent without a
    connection. *)
Inductive agent_method := MPing | MServiceReady | MIsShmMapped | MAscendShm | MAscendIpcShm
  | MUnregisterShm | MUnmapShm | MOther.

Definition can_invoke_when_disconnected (m : agent_method) : bool :=
  match m with
  | MPing | MServiceReady | MIsShmMapped | MAscendShm | MAscendIpcShm => true
  | _ => false
  end.

Definition request {A} (m : agent_method) (a : Agent)
    (p : ascend_contexts → aio (expected A * ascend_contexts)) (ctxs : ascend_contexts)
  : tio (expected A * ascend_contexts) :=
  invoke_rpc (can_invoke_when_disconnected m || ag_connected a) (λ s, remote (p s)) ctxs.

Definition is_shm_mapped (base : Z) (id : UUID) (ctxs : ascend_contexts)
  : aio (expected bool * ascend_contexts) :=
  ret (Ok (already_mapped base id ctxs), ctxs).

Definition to_int (r : expected unit) : Z := match r with Ok _ => 0 | Err e => toInt e end.

(** ** Registration over the IPC socket *)

(** [handle_ipc_shm_register] of the real client; the status that is sent, if any. *)
Definition serve_register (server_fd : Z) (a : Agent) (shm : ShmSegment) (is_local : bool)
    (ctxs : ascend_contexts) : tio (option Z * ascend_contexts) :=
  if server_fd <? 0 then ret (None, ctxs)
  else
    let! r := on_server (remote (map_shm max_mr_size GPU_PREFIX kWildcardLocation create_allocator
                 agent_mode protocol client server_fd (base_addr shm) (seg_size shm) is_local
                 (if agent_mode then ag_device_id a else kInvalidPhysicalDeviceId)
                 (ag_client_id a) ctxs)) in
    ret (Some (match r.1 with Ok _ => 0 | Err _ => -1 end), r.2).

(** [recv]: the status that arrived, or what [recv] returned without one. *)
Definition exchange_register (sock : Z) (a : Agent) (shm : ShmSegment) (is_local : bool)
    (ctxs : ascend_contexts) : tio ((Z + Z) * ascend_contexts) :=
  let! o := note_call (λ h, t_ipc h sock) (GIpc sock) in
  match o with
  | IpcUnserved rc => ret (inr rc, ctxs)
  | IpcReplyLost server_fd rc =>
      let! r := serve_register server_fd a shm is_local ctxs in ret (inr rc, r.2)
  | IpcServed server_fd =>
      let! r := serve_register server_fd a shm is_local ctxs in
      ret (match r.1 with Some status => inl status | None => inr 0 end, r.2)
  end.

Definition close_socket (sock : Z) : tio unit := note_call (λ _, tt) (λ _, GClose sock).

Definition register_shm_via_ipc (a : Agent) (shm : ShmSegment) (is_local : bool)
    (ctxs : ascend_contexts) : tio (Z * ascend_contexts) :=
  if seg_fd shm <? 0 then ret (-1, ctxs)
  else
    let! sock := note_call t_socket GSocket in
    if sock <? 0 then ret (-1, ctxs)
    else if (max_ipc_path <? String.length (ag_socket_path a))%nat
    then close_socket sock ;;; ret (-1, ctxs)
    else
      let! rc := note_call (λ h, t_connect h sock) (GConnect sock) in
      if rc <? 0 then close_socket sock ;;; ret (-1, ctxs)
      else
        let! rc := note_call (λ h, t_send h sock) (GSend sock) in
        if rc <? 0 then close_socket sock ;;; ret (-1, ctxs)
        else
          let! rc := note_call (λ h, t_send_fd h sock (seg_fd shm)) (GSendFd sock (seg_fd shm)) in
          if rc <? 0 then close_socket sock ;;; ret (-1, ctxs)
          else
            let! r := exchange_register sock a shm is_local ctxs in
            (* [status] is -1 before recv *)
            let status := match r.1 with inl status => status | inr _ => -1 end in
            close_socket sock ;;;
            ret (if match r.1 with inr rc => rc <? 0 | inl _ => false end then -1
                 else if negb (status =? 0) then -1 else 0, r.2).

(** ** Registration *)

Definition register_ascend_shm (a : Agent) (shm : ShmSegment) (is_local : bool)
    (ctxs : ascend_contexts) : tio (Z * ascend_contexts) :=
  let base := base_addr shm in
  let! mapped := request MIsShmMapped a (is_shm_mapped base (ag_client_id a)) ctxs in
  match mapped.1 with
  | Err _ => ret (-1, mapped.2)
  | Ok true => ret (0, mapped.2)
  | Ok false =>
      let! attributes := note_call (λ h, t_attributes h base) (GAttributes base) in
      match attributes with
      | None => ret (-1, mapped.2)
      | Some true =>
          let! key := note_call (λ h, t_export_key h base) (GExportKey base (seg_size shm)) in
          match key with
          | None => ret (-1, mapped.2)
          | Some ipc_key_bytes =>
              let! r := request MAscendIpcShm a
                          (ascend_ipc_shm_internal max_mr_size GPU_PREFIX create_allocator use_fabric
                             (Some client) base (seg_size shm) is_local ipc_key_bytes
                             (ag_device_id a) (ag_client_id a)) mapped.2 in
              ret (match r.1 with Ok _ => 0 | Err _ => -1 end, r.2)
          end
      | Some false =>
          if negb use_fabric then
            if seg_fd shm <? 0 then ret (-1, mapped.2)
            else register_shm_via_ipc a shm is_local mapped.2
          else
            let! handle := note_call (λ h, t_physical h base) (GPhysical base) in
            match handle with
            | None => ret (-1, mapped.2)
            | Some physical_handle =>
                let! exported := note_call (λ h, t_export_handle h physical_handle)
                                   (GExportHandle physical_handle) in
                match exported with
                | None => ret (-1, mapped.2)
                | Some handle_bytes =>
                    let! r := request MAscendShm a
                                (ascend_shm_internal create_allocator (Some client) base
                                   (seg_size shm) is_local handle_bytes (ag_device_id a)
                                   (ag_client_id a)) mapped.2 in
                    ret (match r.1 with Ok _ => 0 | Err _ => -1 end, r.2)
                end
            end
      end
  end.

(** A [ShmSegment] made on the spot; [default_fd]: the initial value of its [fd]. *)
Context (default_fd : Z).
Definition plain_segment (base size : Z) : ShmSegment := MkSegment base size default_fd false false.

(** ** Device buffers *)

Definition register_device_buffer_for_reconnect (buffer size : Z) (a : Agent) (ctxs : ascend_contexts)
  : tio (Z * (Agent * ascend_contexts)) :=
  if match registered_device_buffers_ a !! buffer with Some n => negb (n =? size) | None => false end
  then ret (-1, (a, ctxs))
  else
    let! r := register_ascend_shm a (plain_segment buffer size) false ctxs in
    ret (if negb (r.1 =? 0) then (-1, (a, r.2))
         else (0, (with_buffers_of a (<[buffer := size]> (registered_device_buffers_ a)), r.2))).

Definition unregister_device_buffer_for_reconnect (buffer : Z) (a : Agent) (ctxs : ascend_contexts)
  : tio (Z * (Agent * ascend_contexts)) :=
  match registered_device_buffers_ a !! buffer with
  | None => ret (-1, (a, ctxs))
  | Some _ =>
      let! r := request MUnregisterShm a
                  (unregister_region agent_mode protocol client buffer (ag_client_id a)) ctxs in
      ret (to_int r.1,
           (match r.1 with
            | Ok _ => with_buffers_of a (delete buffer (registered_device_buffers_ a))
            | Err _ => a
            end, r.2))
  end.

(** In the order of the [unordered_map]. *)
Definition get_registered_device_buffers (a : Agent) : list ShmSegment :=
  (λ bs, plain_segment bs.1 bs.2) <$> map_to_list (registered_device_buffers_ a).

(** The device part of [register_buffer] in agent mode; [None]: go on as for the other
    builds. *)
Definition register_buffer_agent (buffer size : Z) (a : Agent) (ctxs : ascend_contexts)
  : tio (option Z * (Agent * ascend_contexts)) :=
  let! attributes := note_call (λ h, t_attributes h buffer) (GAttributes buffer) in
  match attributes with
  | None => ret (Some (-1), (a, ctxs))
  | Some true =>
      let! r := register_device_buffer_for_reconnect buffer size a ctxs in ret (Some r.1, r.2)
  | Some false =>
      if use_fabric then
        let! r := register_ascend_shm a (plain_segment buffer size) false ctxs in
        ret (Some (if negb (r.1 =? 0) then -1 else 0), (a, r.2))
      else ret (None, (a, ctxs))
  end.

(** The same for [unregister_buffer]. *)
Definition unregister_buffer_agent (buffer : Z) (a : Agent) (ctxs : ascend_contexts)
  : tio (option Z * (Agent * ascend_contexts)) :=
  let! attributes := note_call (λ h, t_attributes h buffer) (GAttributes buffer) in
  match attributes with
  | Some true =>
      let! r := unregister_device_buffer_for_reconnect buffer a ctxs in ret (Some r.1, r.2)
  | _ => ret (None, (a, ctxs))
  end.

(** ** Reconnection *)

(** Registers segments until one fails. *)
Fixpoint register_each (a : Agent) (shms : list (ShmSegment * bool)) (ctxs : ascend_contexts)
  : tio (bool * ascend_contexts) :=
  match shms with
  | [] => ret (true, ctxs)
  | (shm, is_local) :: shms' =>
      let! r := register_ascend_shm a shm is_local ctxs in
      if negb (r.1 =? 0) then ret (false, r.2) else register_each a shms' r.2
  end.

(** One turn of the reconnection loop up to the ping: the registered segments of
    [ShmHelper], then the device buffers. *)
Definition reregister_agent (segments : list ShmSegment) (a : Agent) (ctxs : ascend_contexts)
  : tio (bool * ascend_contexts) :=
  let! all := register_each a ((λ s, (s, is_local s)) <$> List.filter registered segments) ctxs in
  if all.1
  then register_each a ((λ s, (s, false)) <$> get_registered_device_buffers a) all.2
  else ret all.

(** [tearDownAll]: the device buffers are forgotten. *)
Definition forget_device_buffers (a : Agent) : Agent := with_buffers_of a ∅.
End Agent.
