(* ===== verification/DummyAscendSpec.v ===== *)
(** * What a dummy client may rely on in the Ascend build

    A registration that succeeded is mapped by the real client, and nothing that was mapped
    gets lost by registering; after a reconnection every segment and every device buffer is
    mapped. *)

From S2P Require Import Prelude CxxString StoreTypes ReplicaPolicy Samples Accounting Segments SegmentsSpec DummyMap RangedRead RealSegments RealSegmentsSpec RealChunks RealShm RealShmSpec DummyRpc DummyClient Ascend AscendSpec DummyAscend.
From stdpp Require Import base strings list sets gmap fin_maps.
From Stdlib Require Import ZArith Lia.

#[local] Open Scope Z_scope.
#[local] Set Default Proof Using "Type".

(** Everything mapped for the client stays mapped. *)
Definition keeps (id : UUID) (ctxs ctxs' : ascend_contexts) : Prop :=
  ∀ base, already_mapped base id ctxs = true → already_mapped base id ctxs' = true.

#[export] Instance keeps_preorder id : PreOrder (keeps id).
Proof.
  split; [by intros ctxs base|]. intros c1 c2 c3 H1 H2 base Hb. by apply H2, H1.
Qed.

Lemma with_context_mapped base id ctxs :
  already_mapped base id (with_context id ctxs) = already_mapped base id ctxs.
Proof. unfold already_mapped. by rewrite with_context_lookup. Qed.

Lemma with_context_keeps id ctxs : keeps id ctxs (with_context id ctxs).
Proof. intros base. by rewrite with_context_mapped. Qed.

Section Spec.
Context `{!SegmentServices, !MapServices, !AscendServices, !RpcTransport agent_event, !AgentServices}.
Context (client : Client) (max_mr_size : Z) (GPU_PREFIX kWildcardLocation : string).
Context (create_allocator : Z → Z → Allocator).
Context (agent_mode use_fabric : bool) (protocol : string).
Context (default_fd : Z).

(** What is true of every import: a success is mapped, and nothing is lost. *)
Definition maps (id : UUID) (base : Z) (ctxs : ascend_contexts) (ok : bool) (ctxs' : ascend_contexts)
  : Prop :=
  keeps id ctxs ctxs' ∧ (ok = true → already_mapped base id ctxs' = true).

Definition succeeded {A} (r : expected A) : bool := match r with Ok _ => true | Err _ => false end.

Lemma add_region_maps r is_local undo id ctxs h v evs :
  add_region create_allocator r is_local undo id ctxs h = (v, evs) →
  maps id (dummy_base_addr (as_shm r)) ctxs (succeeded v.1) v.2.
Proof.
  unfold add_region. set (context := default no_regions (ctxs !! id)).
  assert (Hadd : ∀ a, maps id (dummy_base_addr (as_shm r)) ctxs true
    (<[id := MkAscendContext (as_shms context ++ [r]) a]> ctxs)).
  { intros a. unfold maps, keeps, already_mapped. rewrite lookup_insert_eq. cbn.
    split; [intros base Hb|intros _]; rewrite existsb_app.
    - fold context in Hb. by rewrite Hb.
    - cbn. unfold region_base, has_base. by rewrite Z.eqb_refl, orb_true_r. }
  destruct is_local; [destruct (as_allocator context)|]; intros R;
    [|apply ret_inv in R as [-> _]; apply Hadd..].
  apply bind_inv in R as (u & e1 & e2 & _ & [-> _]%ret_inv & ->). split; [|done].
  cbn. by intros base.
Qed.

Lemma refused_maps id base ctxs e :
  maps id base ctxs (succeeded (A := unit) (Err e)) ctxs.
Proof. split; [reflexivity|done]. Qed.

Lemma maps_context id base ctxs ok ctxs' :
  maps id base (with_context id ctxs) ok ctxs' → maps id base ctxs ok ctxs'.
Proof.
  intros [Hk Hm]. split; [|exact Hm]. etransitivity; [apply with_context_keeps|exact Hk].
Qed.

Lemma import_ipc_maps base size is_local key device id ctxs h v evs :
  ascend_ipc_shm_internal max_mr_size GPU_PREFIX create_allocator use_fabric (Some client) base size
    is_local key device id ctxs h = (v, evs) →
  maps id base ctxs (succeeded v.1) v.2.
Proof.
  unfold ascend_ipc_shm_internal. destruct (negb _).
  { intros [-> _]%ret_inv. apply refused_maps. }
  cbv zeta. intros R. apply maps_context. revert R. set (ctxs' := with_context id ctxs).
  destruct (already_mapped base id ctxs') eqn:Hm.
  { intros [-> _]%ret_inv. split; [reflexivity|done]. }
  intros (ok & e1 & e2 & _ & R & ->)%bind_inv.
  destruct (negb ok); [apply ret_inv in R as [-> _]; apply refused_maps|].
  apply bind_inv in R as (imported & e3 & e4 & _ & R & ->).
  destruct imported as [va|]; [|apply ret_inv in R as [-> _]; apply refused_maps].
  apply bind_inv in R as (reg & e5 & e6 & _ & R & ->).
  destruct reg as [u|e]; [by apply add_region_maps in R|].
  apply bind_inv in R as (u & e7 & e8 & _ & [-> _]%ret_inv & ->). apply refused_maps.
Qed.

Lemma import_vmm_maps base size is_local bytes device id ctxs h v evs :
  ascend_shm_internal create_allocator (Some client) base size is_local bytes device id ctxs h
    = (v, evs) →
  maps id base ctxs (succeeded v.1) v.2.
Proof.
  unfold ascend_shm_internal. destruct (negb _).
  { intros [-> _]%ret_inv. apply refused_maps. }
  cbv zeta. intros R. apply maps_context. revert R. set (ctxs' := with_context id ctxs).
  destruct (already_mapped base id ctxs') eqn:Hm.
  { intros [-> _]%ret_inv. split; [reflexivity|done]. }
  intros (ok & e1 & e2 & _ & R & ->)%bind_inv.
  destruct (negb ok); [apply ret_inv in R as [-> _]; apply refused_maps|].
  apply bind_inv in R as (imported & e3 & e4 & _ & R & ->).
  destruct imported as [x|]; [|apply ret_inv in R as [-> _]; apply refused_maps].
  apply bind_inv in R as (reserved & e5 & e6 & _ & R & ->).
  destruct reserved as [va|]; cycle 1.
  { apply bind_inv in R as (u & e7 & e8 & _ & [-> _]%ret_inv & ->). apply refused_maps. }
  apply bind_inv in R as (mapped & e7 & e8 & _ & R & ->).
  destruct mapped; cbn [negb] in R; [by apply add_region_maps in R|].
  apply bind_inv in R as (u & e9 & e10 & _ & R & ->).
  apply bind_inv in R as (u' & e11 & e12 & _ & [-> _]%ret_inv & ->). apply refused_maps.
Qed.

(** ** Requests *)

Lemma request_maps (m : agent_method) (a : Agent) (id : UUID) (base : Z) (p : ascend_contexts → aio (expected unit * ascend_contexts)) ctxs
    h r evs :
  (∀ h v evs, p ctxs h = (v, evs) → maps id base ctxs (succeeded v.1) v.2) →
  request m a p ctxs h = (r, evs) → maps id base ctxs (succeeded r.1) r.2.
Proof.
  intros Hp. unfold request, invoke_rpc. destruct (negb _).
  { intros [-> _]%ret_inv. apply refused_maps. }
  intros (s & e1 & e2 & R & [-> _]%ret_inv & ->)%bind_inv. unfold send_request in R.
  apply bind_inv in R as (o & e3 & e4 & _ & R & ->).
  assert (Hserved : ∀ x e (h' : list (dummy_event agent_event)),
    on_server (remote (p ctxs)) h' = (x, e) → maps id base ctxs (succeeded x.1) x.2).
  { intros x e h' (e5 & (e6 & Rp & _)%lift_inv & _)%lift_inv. exact (Hp _ _ _ Rp). }
  destruct o; [by apply ret_inv in R as [-> _]; apply refused_maps
              |by apply ret_inv in R as [-> _]; apply refused_maps|..];
    apply bind_inv in R as (x & e5 & e6 & Rx%Hserved & [-> _]%ret_inv & ->); [|exact Rx].
  split; [apply Rx|done].
Qed.

Lemma mapped_request (a : Agent) (base : Z) ctxs h r evs :
  request MIsShmMapped a (is_shm_mapped base (ag_client_id a)) ctxs h = (r, evs) →
  r.2 = ctxs ∧ (r.1 = Ok true → already_mapped base (ag_client_id a) ctxs = true).
Proof.
  unfold request, invoke_rpc. cbn [can_invoke_when_disconnected orb negb].
  intros (s & e1 & e2 & R & [-> _]%ret_inv & ->)%bind_inv. unfold send_request in R.
  apply bind_inv in R as (o & e3 & e4 & _ & R & ->).
  assert (Hserved : ∀ x e (h' : list (dummy_event agent_event)),
    on_server (remote (is_shm_mapped base (ag_client_id a) ctxs)) h' = (x, e) →
    x = (Ok (already_mapped base (ag_client_id a) ctxs), ctxs)).
  { intros x e h' (e5 & (e6 & Rp & _)%lift_inv & _)%lift_inv. by apply ret_inv in Rp as [-> _]. }
  destruct o; [by apply ret_inv in R as [-> _]|by apply ret_inv in R as [-> _]|..];
    apply bind_inv in R as (x & e5 & e6 & ->%Hserved & [-> _]%ret_inv & ->); [done|].
  split; [done|]. by intros [= ->].
Qed.

(** The mapping of a descriptor. *)
Lemma ascend_map_shm_maps fd base size is_local device id ctxs h v evs :
  map_shm max_mr_size GPU_PREFIX kWildcardLocation create_allocator agent_mode protocol client fd base
    size is_local device id ctxs h = (v, evs) →
  maps id base ctxs (succeeded v.1) v.2.
Proof.
  unfold map_shm. destruct (already_mapped base id ctxs) eqn:Hm.
  { intros (u & e1 & e2 & _ & [-> _]%ret_inv & _)%bind_inv. split; [reflexivity|done]. }
  destruct (fd <? 0); [intros [-> _]%ret_inv; apply refused_maps|].
  intros (ctx & e1 & e2 & _ & R & _)%bind_inv. destruct ctx as [u|e]; cycle 1.
  { apply bind_inv in R as (u & e3 & e4 & _ & [-> _]%ret_inv & _). apply refused_maps. }
  apply bind_inv in R as (ptr & e3 & e4 & _ & R & _). destruct ptr as [p|]; cycle 1.
  { apply bind_inv in R as (u' & e5 & e6 & _ & [-> _]%ret_inv & _). apply refused_maps. }
  apply bind_inv in R as (u' & e5 & e6 & _ & R & _). cbv zeta in R. apply maps_context.
  apply bind_inv in R as (reg & e7 & e8 & _ & R & _).
  destruct reg as [w|e]; [by apply add_region_maps in R|].
  apply bind_inv in R as (w & e9 & e10 & _ & [-> _]%ret_inv & _). apply refused_maps.
Qed.

Lemma serve_maps server_fd a shm is_local ctxs h r evs :
  DummyAscend.serve_register client max_mr_size GPU_PREFIX kWildcardLocation create_allocator agent_mode
    protocol server_fd a shm is_local ctxs h = (r, evs) →
  maps (ag_client_id a) (base_addr shm) ctxs (bool_decide (r.1 = Some 0)) r.2.
Proof.
  unfold DummyAscend.serve_register. destruct (server_fd <? 0).
  { intros [-> _]%ret_inv. split; [reflexivity|done]. }
  intros (x & e1 & e2 & (e3 & (e4 & R%ascend_map_shm_maps & _)%lift_inv & _)%lift_inv & [-> _]%ret_inv & _)%bind_inv.
  by destruct x as [[|] ?].
Qed.

(** Over the socket. *)
Lemma via_ipc_maps a shm is_local ctxs h r evs :
  DummyAscend.register_shm_via_ipc client max_mr_size GPU_PREFIX kWildcardLocation create_allocator
    agent_mode protocol a shm is_local ctxs h = (r, evs) →
  maps (ag_client_id a) (base_addr shm) ctxs (r.1 =? 0) r.2.
Proof.
  assert (Hno : maps (ag_client_id a) (base_addr shm) ctxs false ctxs) by (split; [reflexivity|done]).
  assert (Hclosed : ∀ sock h r evs, (close_socket sock ;;; ret (-1, ctxs)) h = (r, evs) →
    maps (ag_client_id a) (base_addr shm) ctxs (r.1 =? 0) r.2).
  { intros sock h' r' evs' (u & e1 & e2 & _ & [-> _]%ret_inv & _)%bind_inv. exact Hno. }
  unfold DummyAscend.register_shm_via_ipc. destruct (seg_fd shm <? 0); [by intros [-> _]%ret_inv|].
  intros (sock & e1 & e2 & _ & R & _)%bind_inv. destruct (sock <? 0); [by apply ret_inv in R as [-> _]|].
  destruct (_ <? _)%nat; [by eapply Hclosed|].
  apply bind_inv in R as (rc1 & e3 & e4 & _ & R & _). destruct (rc1 <? 0); [by eapply Hclosed|].
  apply bind_inv in R as (rc2 & e5 & e6 & _ & R & _). destruct (rc2 <? 0); [by eapply Hclosed|].
  apply bind_inv in R as (rc3 & e7 & e8 & _ & R & _). destruct (rc3 <? 0); [by eapply Hclosed|].
  apply bind_inv in R as (x & e9 & e10 & Rx & R & _).
  apply bind_inv in R as (u & e11 & e12 & _ & [-> _]%ret_inv & _). cbn [fst snd].
  apply bind_inv in Rx as (o & e13 & e14 & _ & Rx & _).
  destruct o as [rc|fd rc|fd].
  - apply ret_inv in Rx as [-> _]. cbn. by destruct (rc <? 0).
  - apply bind_inv in Rx as (y & e15 & e16 & [Hk _]%serve_maps & [-> _]%ret_inv & _). cbn.
    split; [done|by destruct (rc <? 0)].
  - apply bind_inv in Rx as (y & e15 & e16 & [Hk Hm]%serve_maps & [-> _]%ret_inv & _). cbn.
    split; [done|]. destruct (y.1) as [status|]; [|done]. destruct (Z.eqb_spec status 0) as [->|]; [|done].
    intros _. by apply Hm, bool_decide_eq_true_2.
Qed.

Abbreviation register_shm := (register_ascend_shm client max_mr_size GPU_PREFIX kWildcardLocation create_allocator
                                agent_mode use_fabric protocol).

Lemma register_ascend_maps a shm is_local ctxs h r evs :
  register_shm a shm is_local ctxs h = (r, evs) →
  maps (ag_client_id a) (base_addr shm) ctxs (r.1 =? 0) r.2.
Proof.
  unfold register_ascend_shm. intros (m & e1 & e2 & Rm%mapped_request & R & ->)%bind_inv.
  destruct m as [mr mc]. cbn [fst snd] in *. destruct Rm as [-> Hm].
  assert (Hno : maps (ag_client_id a) (base_addr shm) ctxs false ctxs) by (split; [reflexivity|done]).
  destruct mr as [[]|]; [by apply ret_inv in R as [-> _]; split; [reflexivity|intros _; apply Hm]| |
    by apply ret_inv in R as [-> _]].
  apply bind_inv in R as (attr & e3 & e4 & _ & R & ->).
  destruct attr as [[]|]; [..|by apply ret_inv in R as [-> _]].
  - apply bind_inv in R as (key & e5 & e6 & _ & R & ->).
    destruct key as [key|]; [|by apply ret_inv in R as [-> _]].
    apply bind_inv in R as (x & e7 & e8 & R & [-> _]%ret_inv & ->).
    eapply request_maps in R; [|intros; by eapply import_ipc_maps].
    by destruct x as [[|] ?].
  - destruct use_fabric; cbn [negb] in R; cycle 1.
    { destruct (seg_fd shm <? 0); [by apply ret_inv in R as [-> _]|]. by eapply via_ipc_maps. }
    apply bind_inv in R as (handle & e5 & e6 & _ & R & ->).
    destruct handle as [handle|]; [|by apply ret_inv in R as [-> _]].
    apply bind_inv in R as (bytes & e7 & e8 & _ & R & ->).
    destruct bytes as [bytes|]; [|by apply ret_inv in R as [-> _]].
    apply bind_inv in R as (x & e9 & e10 & R & [-> _]%ret_inv & ->).
    eapply request_maps in R; [|intros; by eapply import_vmm_maps].
    by destruct x as [[|] ?].
Qed.

(** ** Reconnection *)

Lemma register_each_maps a shms ctxs h r evs :
  register_each client max_mr_size GPU_PREFIX kWildcardLocation create_allocator agent_mode use_fabric
    protocol a shms ctxs h = (r, evs) →
  keeps (ag_client_id a) ctxs r.2 ∧
  (r.1 = true → Forall (λ s, already_mapped (base_addr s.1) (ag_client_id a) r.2 = true) shms).
Proof.
  revert ctxs h r evs. induction shms as [|[shm is_local] shms IH]; intros ctxs h r evs R;
    cbn [register_each] in R.
  { apply ret_inv in R as [-> _]. split; [reflexivity|by constructor]. }
  apply bind_inv in R as (x & e1 & e2 & [Hk Hm]%register_ascend_maps & R & ->).
  destruct (x.1 =? 0); cbn [negb] in R; cycle 1.
  { apply ret_inv in R as [-> _]. by split. }
  apply IH in R as [Hk2 Hf]. split; [by etransitivity|]. intros Hr.
  constructor; [|by apply Hf]. cbn. by apply Hk2, Hm.
Qed.

Abbreviation reconnect := (reregister_agent client max_mr_size GPU_PREFIX kWildcardLocation
  create_allocator agent_mode use_fabric protocol default_fd).

(** C32: In the agent mode of the Ascend build, a turn of the reconnection loop that reports
    success has every registered segment of the client, shared by key, fabric handle or over
    the socket, and every device buffer it keeps mapped at the real client, and lost nothing
    that was mapped before - whichever requests or answers were lost on the way. *)
Theorem reconnection_maps_device_buffers segments a ctxs h r evs :
  reconnect segments a ctxs h = (r, evs) → r.1 = true →
  keeps (ag_client_id a) ctxs r.2 ∧
  (∀ s, s ∈ segments → registered s = true →
        already_mapped (base_addr s) (ag_client_id a) r.2 = true) ∧
  ∀ buffer size, registered_device_buffers_ a !! buffer = Some size →
    already_mapped buffer (ag_client_id a) r.2 = true.
Proof.
  unfold reregister_agent. intros (all & e1 & e2 & [Hk1 Hf1]%register_each_maps & R & ->)%bind_inv Hr.
  destruct all as [[|] c1]; cbn [fst snd] in *; [|by apply ret_inv in R as [-> _]].
  apply register_each_maps in R as [Hk2 Hf2]. specialize (Hf1 eq_refl). specialize (Hf2 Hr).
  rewrite Forall_forall in Hf1, Hf2. split_and!; [by etransitivity|..].
  - intros s Hs Hreg. apply Hk2, (Hf1 (s, is_local s)). apply list_elem_of_fmap. exists s.
    split; [done|]. apply list_elem_of_In, filter_In. split; [by apply list_elem_of_In|done].
  - intros buffer size Hb. apply (Hf2 (plain_segment default_fd buffer size, false)).
    apply list_elem_of_fmap. exists (plain_segment default_fd buffer size). split; [done|].
    apply list_elem_of_fmap. exists (buffer, size). split; [done|]. by apply elem_of_map_to_list.
Qed.

(** A buffer of fabric memory is registered without being kept: it is not registered again
    after a reconnection, and its unregistration goes to the segments of [ShmHelper]. *)
Theorem fabric_buffer_not_kept buffer size a ctxs h r evs :
  (∀ h, t_attributes h buffer = Some false) →
  (register_buffer_agent client max_mr_size GPU_PREFIX kWildcardLocation create_allocator agent_mode
     use_fabric protocol default_fd buffer size a ctxs h = (r, evs) → r.2.1 = a) ∧
  (∀ toInt, unregister_buffer_agent client agent_mode protocol toInt buffer a ctxs h = (r, evs) →
     r = (None, (a, ctxs))).
Proof.
  intros Hhost. split.
  - intros (attr & e1 & e2 & [-> ->]%call_inv & R & ->)%bind_inv. rewrite Hhost in R.
    destruct use_fabric; [|by apply ret_inv in R as [-> _]].
    by apply bind_inv in R as (x & e3 & e4 & _ & [-> _]%ret_inv & ->).
  - intros toInt (attr & e1 & e2 & [-> ->]%call_inv & R & ->)%bind_inv. rewrite Hhost in R.
    by apply ret_inv in R as [-> _].
Qed.
End Spec.

(** ** Concrete requests *)

(** Device memory from 131072 on; keys can be exported. *)
Definition sample_agent : AgentServices := {|
  t_attributes _ ptr := Some (131072 <=? ptr);
  t_export_key _ _ := Some sample_key;
  t_physical _ ptr := Some ptr;
  t_export_handle _ _ := Some "abcd";
  t_socket _ := 40; t_connect _ _ := 0; t_send _ _ := 4; t_send_fd _ _ _ := 48;
  t_ipc _ _ := IpcServed 41 |}.

Definition answering_transport : RpcTransport agent_event := {|
  rpc_outcome_of _ := Answered; dummy_time _ := 0 |}.

Definition one_buffer : Agent := MkAgent (1, 1) 0 "@mooncake" true {[ 131072 := 4096 ]}.

(** A segment of host memory that goes over the socket, and a device buffer. *)
Definition reconnect_run :=
  @reregister_agent (counting_segments 0 true) shm_maps sample_ascend answering_transport sample_agent
    sample_client 65536 "cuda:" "*" (λ _ _ _ _, None) true false "ascend" (-1)
    [MkSegment 65536 8192 7 true true] one_buffer ∅ [].

Lemma reconnection_maps_device_buffers_witness :
  reconnect_run.1.1 = true ∧ already_mapped 65536 (1, 1) reconnect_run.1.2 = true ∧
  already_mapped 131072 (1, 1) reconnect_run.1.2 = true.
Proof.
  assert (Hok : reconnect_run.1.1 = true) by (vm_compute; reflexivity).
  split; [exact Hok|].
  destruct (@reconnection_maps_device_buffers (counting_segments 0 true) shm_maps sample_ascend
    answering_transport sample_agent sample_client 65536 "cuda:" "*" (λ _ _ _ _, None) true false
    "ascend" (-1) [MkSegment 65536 8192 7 true true] one_buffer ∅ [] reconnect_run.1
    reconnect_run.2 (surjective_pairing _) Hok) as (_ & Hs & Hb).
  split; [exact (Hs (MkSegment 65536 8192 7 true true) ltac:(by left) eq_refl)|].
  exact (Hb 131072 4096 eq_refl).
Defined.
