(* ===== verification/KernelProbe.v ===== *)
(** * Does the kernel support DMA-BUF peer access?
      ([rdma_context.cpp], [isKernelDmabufSupported], build with [USE_HIP_DMABUF])

    The configuration files of the kernel are read line by line until both options are
    found, then the symbol table.  Files, [uname] and the environment are external. *)

From S2P Require Import Prelude CxxString.
From stdpp Require Import base strings list sets.
From Stdlib Require Import ZArith Lia.

#[local] Open Scope Z_scope.
#[local] Set Default Proof Using "Type".

(** What was found so far of the two options. *)
Abbreviation found := (bool * bool)%type.

Definition both (f : found) : bool := f.1 && f.2.

(** One line: [if (!found[i] && line.find(needles[i]) != npos) found[i] = true]. *)
Definition scan_line (needles : string * string) (f : found) (line : string) : found :=
  (f.1 || contains line needles.1, f.2 || contains line needles.2).

(** The loop over the lines, left when both are found. *)
Fixpoint scan_lines (needles : string * string) (f : found) (lines : list string) : found :=
  match lines with
  | [] => f
  | line :: lines =>
      let f := scan_line needles f line in
      if both f then f else scan_lines needles f lines
  end.

(** *** What is found in lines *)

Definition in_lines (needle : string) (lines : list string) : Prop :=
  ∃ line, line ∈ lines ∧ contains line needle = true.

Lemma scan_line_found needles f line :
  ((scan_line needles f line).1 = true ↔ f.1 = true ∨ contains line needles.1 = true) ∧
  ((scan_line needles f line).2 = true ↔ f.2 = true ∨ contains line needles.2 = true).
Proof. unfold scan_line. cbn. by rewrite !orb_true_iff. Qed.

Lemma in_lines_cons needle line lines :
  in_lines needle (line :: lines) ↔ contains line needle = true ∨ in_lines needle lines.
Proof.
  split.
  - intros (l & [->|Hl]%elem_of_cons & Hc); [by left|right; by exists l].
  - intros [Hc|(l & Hl & Hc)]; [exists line|exists l]; (split; [|done]); [by left|by right].
Qed.

Lemma in_lines_nil needle : ¬ in_lines needle [].
Proof. intros (l & Hl%elem_of_nil & _). done. Qed.

(** Leaving the loop early changes nothing: a found option is really there, and if one is
    missing all lines were looked at. *)
Lemma scan_lines_found needles f lines :
  let f' := scan_lines needles f lines in
  (f'.1 = true → f.1 = true ∨ in_lines needles.1 lines) ∧
  (f'.2 = true → f.2 = true ∨ in_lines needles.2 lines) ∧
  (both f' = false → (f'.1 = true ↔ f.1 = true ∨ in_lines needles.1 lines) ∧
                     (f'.2 = true ↔ f.2 = true ∨ in_lines needles.2 lines)).
Proof.
  revert f. induction lines as [|line lines IH]; intros f; cbn [scan_lines].
  { pose proof (in_lines_nil needles.1). pose proof (in_lines_nil needles.2). tauto. }
  cbv zeta. destruct (scan_line_found needles f line) as [H1 H2].
  rewrite !in_lines_cons. destruct (both (scan_line needles f line)) eqn:Hb.
  - split_and!; [tauto..|]. by rewrite Hb.
  - destruct (IH (scan_line needles f line)) as (I1 & I2 & I3). split_and!; [tauto..|].
    intros Hf. specialize (I3 Hf). tauto.
Qed.

Section Probe.
(** The lines of a file that can be opened. *)
Context (read_file : string → option (list string)).

(** The loop over the files; names with [.gz] are skipped. *)
Fixpoint scan_files (needles : string * string) (f : found) (paths : list string) : found :=
  match paths with
  | [] => f
  | path :: paths =>
      match read_file path with
      | None => scan_files needles f paths
      | Some lines =>
          if contains path ".gz" then scan_files needles f paths
          else
            let f := scan_lines needles f lines in
            if both f then f else scan_files needles f paths
      end
  end.

Definition config_needles : string * string := ("CONFIG_PCI_P2PDMA=y", "CONFIG_DMABUF_MOVE_NOTIFY=y").
Definition symbol_needles : string * string := ("pci_p2pdma", "dma_buf_move_notify").

Definition config_candidates (release : string) : list string :=
  ["/proc/config.gz"; "/boot/config-" +:+ release; "/usr/src/linux-" +:+ release +:+ "/.config";
   "/usr/src/linux/.config"; "/usr/lib/modules/" +:+ release +:+ "/config";
   "/usr/lib/ostree-boot/config-" +:+ release; "/usr/lib/kernel/config-" +:+ release;
   "/usr/src/linux-headers-" +:+ release +:+ "/.config";
   "/lib/modules/" +:+ release +:+ "/build/.config"].

(** [disable]: MOONCAKE_DISABLE_HIP_DMABUF; [uname]: the release, if the call succeeds. *)
Definition isKernelDmabufSupported (disable uname : option string) : bool :=
  if match disable with Some v => negb (bool_decide (v = "0")) | None => false end then false
  else
    let release := default "" uname in
    let f := scan_files config_needles (false, false) (config_candidates release) in
    let f := if both f then f
             else match read_file "/proc/kallsyms" with
                  | None => f
                  | Some lines => scan_lines symbol_needles f lines
                  end in
    both f.

(** ** What is found *)

(** An option is set in a readable file that is not compressed. *)
Definition in_files (needle : string) (paths : list string) : Prop :=
  ∃ path lines, path ∈ paths ∧ contains path ".gz" = false ∧ read_file path = Some lines ∧
                in_lines needle lines.

Lemma in_files_cons needle path paths :
  in_files needle (path :: paths) ↔
  (∃ lines, contains path ".gz" = false ∧ read_file path = Some lines ∧ in_lines needle lines) ∨
  in_files needle paths.
Proof. unfold in_files. set_solver. Qed.

Lemma scan_files_found needles f paths :
  let f' := scan_files needles f paths in
  (f'.1 = true → f.1 = true ∨ in_files needles.1 paths) ∧
  (f'.2 = true → f.2 = true ∨ in_files needles.2 paths) ∧
  (both f' = false → (f'.1 = true ↔ f.1 = true ∨ in_files needles.1 paths) ∧
                     (f'.2 = true ↔ f.2 = true ∨ in_files needles.2 paths)).
Proof.
  revert f. induction paths as [|path paths IH]; intros f; cbn [scan_files].
  { unfold in_files. set_solver. }
  cbv zeta. rewrite !in_files_cons.
  destruct (read_file path) as [lines|] eqn:Hread; cycle 1.
  { destruct (IH f) as (I1 & I2 & I3). split_and!; [tauto..|]. intros Hf. specialize (I3 Hf).
    naive_solver. }
  destruct (contains path ".gz") eqn:Hgz.
  { destruct (IH f) as (I1 & I2 & I3). split_and!; [tauto..|]. intros Hf. specialize (I3 Hf).
    naive_solver. }
  assert (Hhere : ∀ needle, (∃ l, false = false ∧ Some lines = Some l ∧ in_lines needle l) ↔
    in_lines needle lines) by naive_solver.
  rewrite !Hhere. destruct (scan_lines_found needles f lines) as (L1 & L2 & L3).
  destruct (both (scan_lines needles f lines)) eqn:Hb.
  - split_and!; [tauto..|]. by rewrite Hb.
  - specialize (L3 eq_refl).
    destruct (IH (scan_lines needles f lines)) as (I1 & I2 & I3). split_and!; [tauto..|].
    intros Hf. specialize (I3 Hf). tauto.
Qed.

(** C35: The probe, which stops reading as soon as both options were seen, decides exactly
    this: DMA-BUF is not disabled, and each of the two options is set in some readable
    configuration file that is not compressed or its symbol is listed in /proc/kallsyms. *)
Theorem kernel_probe_exact disable uname :
  let release := default "" uname in
  let symbol needle := ∃ lines, read_file "/proc/kallsyms" = Some lines ∧ in_lines needle lines in
  isKernelDmabufSupported disable uname = true ↔
  (disable = None ∨ disable = Some "0") ∧
  (in_files config_needles.1 (config_candidates release) ∨ symbol symbol_needles.1) ∧
  (in_files config_needles.2 (config_candidates release) ∨ symbol symbol_needles.2).
Proof.
  intros release symbol. unfold isKernelDmabufSupported. fold release.
  destruct (match disable with Some v => _ | None => _ end) eqn:Hd.
  { split; [done|]. intros ([->| ->] & _); by vm_compute in Hd. }
  assert (Hdis : disable = None ∨ disable = Some "0").
  { destruct disable as [v|]; [right|by left]. apply negb_false_iff, bool_decide_eq_true in Hd.
    by rewrite Hd. }
  cbv zeta. destruct (scan_files_found config_needles (false, false) (config_candidates release))
    as (F1 & F2 & F3).
  set (f := scan_files config_needles (false, false) (config_candidates release)) in *.
  clearbody f. cbn [fst snd] in F1, F2, F3. assert (Hff : false ≠ true) by done.
  destruct (both f) eqn:Hb.
  { rewrite Hb. apply andb_true_iff in Hb as [H1 H2]. clear -Hdis F1 F2 H1 H2 Hff. tauto. }
  specialize (F3 eq_refl). destruct (read_file "/proc/kallsyms") as [lines|] eqn:Hk.
  - destruct (scan_lines_found symbol_needles f lines) as (L1 & L2 & L3).
    assert (Hsym : ∀ needle, symbol needle ↔ in_lines needle lines).
    { intros needle. unfold symbol. split; [by intros (l & [= <-] & Hl)|]. by exists lines. }
    rewrite !Hsym. destruct (both (scan_lines symbol_needles f lines)) eqn:Hs.
    + apply andb_true_iff in Hs as [H1 H2]. clear -Hdis F1 F2 F3 L1 L2 H1 H2 Hff. tauto.
    + specialize (L3 eq_refl). apply andb_false_iff in Hs. rewrite <- !not_true_iff_false in Hs.
      clear -F3 L3 Hs Hff. tauto.
  - assert (Hsym : ∀ needle, ¬ symbol needle) by (by intros needle (l & ? & _)).
    pose proof (Hsym symbol_needles.1). pose proof (Hsym symbol_needles.2).
    rewrite Hb. apply andb_false_iff in Hb. rewrite <- !not_true_iff_false in Hb.
    clear -F3 Hb H H0 Hff. tauto.
Qed.
End Probe.

(** ** Examples *)

Definition sample_files (path : string) : option (list string) :=
  if bool_decide (path = "/boot/config-6.8") then Some ["CONFIG_PCI=y"; "CONFIG_PCI_P2PDMA=y"]
  else if bool_decide (path = "/proc/kallsyms") then Some ["ffff0000 T dma_buf_move_notify"]
  else None.

Example kernel_probe_sample :
  isKernelDmabufSupported sample_files (Some "0") (Some "6.8") = true ∧
  isKernelDmabufSupported sample_files (Some "1") (Some "6.8") = false ∧
  isKernelDmabufSupported sample_files None (Some "6.9") = false.
Proof. vm_compute. auto. Qed.
