(* ===== verification/PeerReads.v ===== *)
(** * Reads from a peer's SSD, across the two processes ([real_client.cpp])

    [ClientRequester] sends the requests of a read to the peer that owns the objects: one
    that loads them into a batch of buffers, and one that releases the batch.  Here the
    oracle of [RangedRead] is linked to the owner: its answers are those of the owner's
    [FileStorage], in the state the requests so far have left it in.  The transport decides
    what becomes of a request. *)

From S2P Require Import Prelude CxxString StoreTypes ReplicaPolicy Samples PutPath BatchPut GetPath DummyMap RangedRead RangedReadSpec RealBuffers DummyRpc.
From stdpp Require Import base strings list sets gmap.
From Stdlib Require Import ZArith Lia.

#[local] Open Scope Z_scope.
#[local] Set Default Proof Using "Type".

(** The [FileStorage] of an owner: [BatchGet], [ReleaseBuffer] and the garbage collection of
    batches whose lease is over, at a time in milliseconds; [fs_live] are the batches it
    holds, [fs_lease] is when the lease of one ends. *)
Class FileStorage (S : Type) := {
  fs_batch_get : Z → list string → list Z → S → expected (Z * list Z) * S;
  fs_release : Z → S → bool * S;
  fs_collect : Z → S → S;
  fs_live : S → list Z;
  fs_lease : S → Z → Z;
  (* SegmentEndpoint and client_buffer_gc_ttl_ms of the owner *)
  fs_endpoint : S → string;
  fs_gc_ttl_ms : S → Z }.

(** The leases of batches that stay do not change. *)
Definition same_leases {S} `{!FileStorage S} (s s' : S) : Prop :=
  ∀ i, i ∈ fs_live s → i ∈ fs_live s' → fs_lease s' i = fs_lease s i.

(** A batch is new when it is made and has a lease of the time to live; it is gone when it is
    released, and collected only after its lease. *)
Class FileStorageLaws S `{!FileStorage S} : Prop := {
  batch_get_ok now keys sizes s id ptrs s' :
    fs_batch_get now keys sizes s = (Ok (id, ptrs), s') →
    fs_live s' ≡ₚ id :: fs_live s ∧ (id ∉ fs_live s) ∧
    now + fs_gc_ttl_ms s' ≤ fs_lease s' id ∧
    same_leases s s';
  batch_get_err now keys sizes s e s' :
    fs_batch_get now keys sizes s = (Err e, s') → fs_live s' ≡ₚ fs_live s ∧ same_leases s s';
  release_held id s : id ∈ fs_live s → fs_live s ≡ₚ id :: fs_live (fs_release id s).2;
  release_gone id s : id ∉ fs_live s → fs_live (fs_release id s).2 ≡ₚ fs_live s;
  release_leases id s : same_leases s (fs_release id s).2;
  collect_live now s : ∃ gone, fs_live s ≡ₚ gone ++ fs_live (fs_collect now s) ∧
    Forall (λ i, fs_lease s i ≤ now) gone;
  collect_leases now s : same_leases s (fs_collect now s) }.

(** The only element of a kind splits a list in one way. *)
Lemma unique_split {A} (P : A → Prop) a x b a' y b' :
  a ++ x :: b = a' ++ y :: b' → P x → Forall (λ z, ¬ P z) a' → Forall (λ z, ¬ P z) b' →
  a = a' ∧ x = y.
Proof.
  intros E HP Ha Hb. revert a' E Ha. induction a as [|z a IH]; intros [|z' a'] E Ha; cbn in E.
  - by injection E as -> _.
  - injection E as -> _. by apply Forall_cons in Ha as [? _].
  - injection E as <- <-. rewrite Forall_app, Forall_cons in Hb. by destruct Hb as (_ & ? & _).
  - injection E as -> E. apply Forall_cons in Ha as [_ Ha]. destruct (IH a' E Ha) as [-> ->]. done.
Qed.

Section Requester.
Context {S : Type} `{!FileStorage S}.

(** [RealClient::batch_get_offload_object] of the owner. *)
Definition owner_batch_get (now : Z) (keys : list string) (sizes : list Z) (s : S)
  : expected OffloadResponse * S :=
  let r := fs_batch_get now keys sizes s in
  (result_map (λ x, MkOffload x.1 x.2 (fs_endpoint r.2) (fs_gc_ttl_ms r.2)) r.1, r.2).

(** [ClientRequester::invoke_rpc] *)
Definition requester_invoke {A} (o : rpc_outcome) (m : S → A * S) (s : S) : expected A * S :=
  match o with
  | NotSent | NotServed => (Err RPC_FAIL, s)
  | ReplyLost => (Err RPC_FAIL, (m s).2)
  | Answered => let r := m s in (Ok r.1, r.2)
  end.

Definition requester_batch_get (o : rpc_outcome) (now : Z) (keys : list string) (sizes : list Z) (s : S)
  : expected OffloadResponse * S :=
  let r := requester_invoke o (owner_batch_get now keys sizes) s in (flatten_expected r.1, r.2).

(** The answer is only logged. *)
Definition requester_release (o : rpc_outcome) (batch_id : Z) (s : S) : S :=
  (requester_invoke o (fs_release batch_id) s).2.

(** ** The owners *)

Context `{!Clock}.

(** The time after the events; the clocks of the processes run at the same rate. *)
Definition moment (h : list real_event) : Z := c_now (omap client_event h).

(** What becomes of the request that follows the events. *)
Context (outcome : list real_event → rpc_outcome).

Abbreviation owners := (string → S).

Definition at_owner (addr : string) (s : S) (net : owners) : owners :=
  λ a, if bool_decide (a = addr) then s else net a.

(** Before each event the owners may collect batches. *)
Definition owner_step (before : list real_event) (net : owners) (e : real_event) : owners :=
  let net := λ a, fs_collect (moment before) (net a) in
  match e with
  | ROffloadGet addr keys sizes _ =>
      at_owner addr (requester_batch_get (outcome before) (moment before) keys sizes (net addr)).2 net
  | ROffloadRelease addr batch_id =>
      at_owner addr (requester_release (outcome before) batch_id (net addr)) net
  | _ => net
  end.

Fixpoint owners_after (before : list real_event) (net : owners) (evs : list real_event) : owners :=
  match evs with
  | [] => net
  | e :: evs => owners_after (before ++ [e]) (owner_step before net e) evs
  end.

Lemma owners_after_app before net e1 e2 :
  owners_after before net (e1 ++ e2) = owners_after (before ++ e1) (owners_after before net e1) e2.
Proof.
  revert before net. induction e1 as [|e e1 IH]; intros before net; cbn [app owners_after].
  - by rewrite app_nil_r.
  - by rewrite IH, <- app_assoc.
Qed.

(** Events that are no requests to an owner. *)
Definition no_request (e : real_event) : Prop :=
  match e with ROffloadGet _ _ _ _ | ROffloadRelease _ _ => False | _ => True end.

(** ** What a storage holds *)

Context `{!FileStorageLaws S}.

(** Held, with a lease that ends after [t]. *)
Definition held (s : S) (i t : Z) : Prop := i ∈ fs_live s ∧ t < fs_lease s i.

Lemma held_mono s s' i t :
  same_leases s s' → held s i t → i ∈ fs_live s' → held s' i t.
Proof. intros Hl [Hi Ht] Hi'. split; [done|]. by rewrite (Hl i). Qed.

Lemma collect_sub now s : fs_live (fs_collect now s) ⊆+ fs_live s.
Proof using FileStorageLaws0.
  destruct (collect_live now s) as (gone & -> & _). apply submseteq_inserts_l. done.
Qed.

Lemma collect_held now s i t : held s i t → now ≤ t → held (fs_collect now s) i t.
Proof using FileStorageLaws0.
  intros Hh Ht. apply (held_mono s); [apply collect_leases|done|].
  destruct (collect_live now s) as (gone & E & Hg). destruct Hh as [Hi Hl].
  rewrite E, elem_of_app in Hi. destruct Hi as [Hi|]; [|done].
  rewrite Forall_forall in Hg. specialize (Hg i Hi). cbn in Hg. lia.
Qed.

(** A request for a batch. *)
Lemma get_run o now keys sizes s :
  let r := requester_batch_get o now keys sizes s in
  match r.1 with
  | Ok x => fs_live r.2 ≡ₚ ol_batch_id x :: fs_live s ∧ (ol_batch_id x ∉ fs_live s) ∧
            now + ol_gc_ttl_ms x ≤ fs_lease r.2 (ol_batch_id x)
  | Err _ => fs_live r.2 ≡ₚ fs_live s ∨ (o = ReplyLost ∧ ∃ id, fs_live r.2 ≡ₚ id :: fs_live s)
  end ∧ ∀ i t, held s i t → held r.2 i t.
Proof using FileStorageLaws0.
  cbv zeta. unfold requester_batch_get, requester_invoke, owner_batch_get.
  destruct (fs_batch_get now keys sizes s) as [[[id ptrs]|e] s'] eqn:E;
    [apply batch_get_ok in E as (El & Hn & Ht & Hs)|apply batch_get_err in E as [El Hs]];
    destruct o; cbn; (split; [eauto|]); try (by intros); intros i t Hh;
    (apply (held_mono s); [done..|]); rewrite El; destruct Hh as [Hi _];
    rewrite ?elem_of_cons; auto.
Qed.

(** A release. *)
Lemma release_run o id s :
  let s' := requester_release o id s in
  (fs_live s' ⊆+ fs_live s) ∧
  (∀ l, fs_live s ⊆+ id :: l → fs_live s' ⊆+ l ∨ (o ∈ [NotSent; NotServed] ∧ s' = s)) ∧
  (∀ i t, i ≠ id → held s i t → held s' i t).
Proof using FileStorageLaws0.
  cbv zeta. unfold requester_release, requester_invoke.
  assert (Hrel : (fs_live (fs_release id s).2 ⊆+ fs_live s) ∧
    (∀ l, fs_live s ⊆+ id :: l → fs_live (fs_release id s).2 ⊆+ l) ∧
    (∀ i t, i ≠ id → held s i t → held (fs_release id s).2 i t)).
  { destruct (decide (id ∈ fs_live s)) as [Hi|Hi].
    - pose proof (release_held id s Hi) as E. split_and!.
      + rewrite E. by apply submseteq_cons.
      + intros l Hl. rewrite E in Hl. by apply submseteq_app_inv_l with (k := [id]) in Hl.
      + intros i t Hne [Hin Ht]. apply (held_mono s); [apply release_leases|done|].
        rewrite E, elem_of_cons in Hin. by destruct Hin.
    - pose proof (release_gone id s Hi) as E. split_and!.
      + by rewrite E.
      + intros l Hl. rewrite E. by apply submseteq_cons_r in Hl as [|(k & Ek & _)];
          [|exfalso; apply Hi; rewrite Ek; left].
      + intros i t _ [Hin Ht]. apply (held_mono s); [apply release_leases|done|]. by rewrite E. }
  destruct Hrel as (H1 & H2 & H3).
  destruct o; cbn; (split_and!; [done| |done]); intros l Hl;
    first [right; split; [by repeat constructor|done]|left; by apply H2].
Qed.

(** ** Linked reads *)

Context `{!MasterClient, !TransferSubmitter, !HotCache, !StorageBackend, !RealServices}.
Context (net : owners).

Definition owner_now (addr : string) (h : list real_event) : S :=
  fs_collect (moment h) (owners_after [] net h addr).

(** The answers come from the owners. *)
Context (linked : ∀ h addr keys sizes,
  r_offload_get h addr keys sizes =
  (requester_batch_get (outcome h) (moment h) keys sizes (owner_now addr h)).1).
(** Time passes, and a difference of times fits in 64 bits. *)
Context (time_passes : ∀ h e, moment h ≤ moment (h ++ [e])).
Context (time_bounded : ∀ h, 0 ≤ moment h < u64_modulus).

Lemma moment_mono h evs : moment h ≤ moment (h ++ evs).
Proof using time_passes.
  induction evs as [|e evs IH] using rev_ind; [by rewrite app_nil_r|].
  rewrite app_assoc. pose proof (time_passes (h ++ evs) e). lia.
Qed.

Lemma client_calls_quiet {A} (m : io A) h v evs :
  on_client m h = (v, evs) → Forall no_request evs.
Proof. intros (e & _ & ->)%lift_inv. by apply Forall_fmap, Forall_true. Qed.

(** Batches the owner holds after the events, and those held beyond a time. *)
Definition live_batches (addr : string) (evs : list real_event) : list Z :=
  fs_live (owners_after [] net evs addr).
Definition held_at (addr : string) (evs : list real_event) (i t : Z) : Prop :=
  held (owners_after [] net evs addr) i t.

Lemma after_snoc addr h e :
  owners_after [] net (h ++ [e]) addr = owner_step h (owners_after [] net h) e addr.
Proof. by rewrite owners_after_app. Qed.

Lemma quiet_step addr h e :
  no_request e → owners_after [] net (h ++ [e]) addr = owner_now addr h.
Proof. intros Hq. rewrite after_snoc. by destruct e. Qed.

(** Without requests the owner only collects. *)
Lemma quiet_live addr h evs :
  Forall no_request evs → live_batches addr (h ++ evs) ⊆+ live_batches addr h.
Proof using FileStorageLaws0.
  unfold live_batches. induction evs as [|e evs IH] using rev_ind; [by rewrite app_nil_r|].
  intros [Hq He]%Forall_app. rewrite app_assoc, quiet_step by (by inversion He).
  etrans; [apply collect_sub|by apply IH].
Qed.

Lemma quiet_held addr h evs i t :
  Forall no_request evs → held_at addr h i t →
  (∀ evs' e, evs = evs' ++ [e] → moment (h ++ evs') ≤ t) → held_at addr (h ++ evs) i t.
Proof using FileStorageLaws0 time_passes.
  unfold held_at. induction evs as [|e evs IH] using rev_ind; [by rewrite app_nil_r|].
  intros [Hq He]%Forall_app Hh Ht. rewrite app_assoc, quiet_step by (by inversion He).
  pose proof (Ht evs e eq_refl) as Hlast. apply collect_held; [|done]. apply IH; [done..|].
  intros evs' e' ->. etrans; [|exact Hlast]. rewrite app_assoc. apply time_passes.
Qed.

(** One request for a batch. *)
Lemma get_step addr keys sizes h resp :
  resp = r_offload_get h addr keys sizes →
  let h' := h ++ [ROffloadGet addr keys sizes resp] in
  match resp with
  | Ok x => (live_batches addr h' ⊆+ ol_batch_id x :: live_batches addr h) ∧
            (∀ t, t < moment h + ol_gc_ttl_ms x → held_at addr h' (ol_batch_id x) t) ∧
            (∀ i t, held_at addr h i t → moment h ≤ t → i ≠ ol_batch_id x)
  | Err _ => (live_batches addr h' ⊆+ live_batches addr h) ∨
             (outcome h = ReplyLost ∧ ∃ id, live_batches addr h' ⊆+ id :: live_batches addr h)
  end ∧ ∀ i t, held_at addr h i t → moment h ≤ t → held_at addr h' i t.
Proof using linked FileStorageLaws0.
  intros ->. rewrite linked. cbv zeta. unfold live_batches, held_at. rewrite !after_snoc.
  cbn [owner_step]. unfold at_owner. rewrite bool_decide_eq_true_2 by done.
  change (fs_collect (moment h) (owners_after [] net h addr)) with (owner_now addr h).
  destruct (get_run (outcome h) (moment h) keys sizes (owner_now addr h)) as [Hr Hh].
  pose proof (collect_sub (moment h) (owners_after [] net h addr)) as Hc. fold (owner_now addr h) in Hc.
  assert (Hnow : ∀ i t, held (owners_after [] net h addr) i t → moment h ≤ t → held (owner_now addr h) i t).
  { intros i t Hi Ht. by apply collect_held. }
  split; [|auto]. cbv zeta in Hr. destruct (requester_batch_get _ _ _ _ _).1 as [x|e].
  - destruct Hr as (El & Hn & Ht). split_and!.
    + rewrite El. by apply submseteq_skip.
    + intros t Htt. split; [rewrite El; by left|lia].
    + intros i t Hi Hit ->. by destruct (Hnow _ _ Hi Hit).
  - destruct Hr as [El|(Ho & id & El)]; [left; by rewrite El|right].
    split; [done|]. exists id. rewrite El. by apply submseteq_skip.
Qed.

(** One release. *)
Lemma release_step addr id l h :
  live_batches addr h ⊆+ id :: l →
  let h' := h ++ [ROffloadRelease addr id] in
  ((live_batches addr h' ⊆+ l) ∨
   (outcome h ∈ [NotSent; NotServed] ∧ live_batches addr h' ⊆+ id :: l)) ∧
  ∀ i t, i ≠ id → held_at addr h i t → moment h ≤ t → held_at addr h' i t.
Proof using FileStorageLaws0.
  intros Hl. cbv zeta. unfold live_batches, held_at in *. rewrite !after_snoc.
  cbn [owner_step]. unfold at_owner. rewrite bool_decide_eq_true_2 by done.
  pose proof (collect_sub (moment h) (owners_after [] net h addr)) as Hc.
  destruct (release_run (outcome h) id (fs_collect (moment h) (owners_after [] net h addr)))
    as (_ & Hl' & Hk). split.
  - destruct (Hl' l) as [|[Ho ->]]; [by etrans|by left|right]. split; [done|by etrans].
  - intros i t Hi Hh Ht. apply Hk; [done|]. by apply collect_held.
Qed.

Definition is_submit (e : real_event) : Prop :=
  match e with ROffloadSubmit _ _ _ _ _ => True | _ => False end.

Lemma on_client_no_submit {A} (m : io A) h v evs :
  on_client m h = (v, evs) → Forall (λ e, ¬ is_submit e) evs.
Proof. intros (e & _ & ->)%lift_inv. apply Forall_fmap, Forall_true. by intros x []. Qed.

(** The transfer: one submission, then calls of the store client. *)
Lemma transfer_run addr keys pointers objects h r evs :
  Client_BatchGetOffloadObject addr keys pointers objects h = (r, evs) →
  ∃ f e, evs = ROffloadSubmit addr keys pointers objects f :: e ∧
         Forall no_request e ∧ Forall (λ e, ¬ is_submit e) e.
Proof.
  unfold Client_BatchGetOffloadObject. intros (f & e1 & e2 & [_ ->]%call_inv & R & ->)%bind_inv.
  exists f, e2. split; [done|]. destruct f; [|apply ret_inv in R as [_ ->]; by split].
  apply bind_inv in R as (x & e3 & e4 & R & [_ ->]%ret_inv & ->). rewrite app_nil_r.
  split; [by eapply client_calls_quiet|by eapply on_client_no_submit].
Qed.

(** Why a batch can be left at its owner. *)
Definition batch_left (addr : string) (keys : list string) (h evs : list real_event) (id : Z) : Prop :=
  (* the answer with the batch was lost *)
  (∃ pre sizes e, evs = pre ++ [ROffloadGet addr (r_storage_key <$> keys) sizes (Err e)] ∧
     outcome (h ++ pre) = ReplyLost) ∨
  (* the answer has the wrong number of pointers *)
  (∃ resp sizes, ROffloadGet addr (r_storage_key <$> keys) sizes (Ok resp) ∈ evs ∧
     ol_batch_id resp = id ∧ length (ol_pointers resp) ≠ length keys) ∨
  (* the release did not arrive *)
  (∃ pre, evs = pre ++ [ROffloadRelease addr id] ∧ outcome (h ++ pre) ∈ [NotSent; NotServed]).

Abbreviation asked addr objects resp :=
  (ROffloadGet addr (r_storage_key <$> objects.*1) (total_slices <$> objects.*2) resp).

(** The course of a read: the request, and if the answer fits the transfer and the release. *)
Lemma peer_read_run addr objects h r evs :
  batch_get_into_offload_object_internal addr objects h = (r, evs) →
  ∃ c0 resp, let h0 := h ++ [RClient c0] in
    resp = r_offload_get h0 addr (r_storage_key <$> objects.*1) (total_slices <$> objects.*2) ∧
    ((evs = [RClient c0; asked addr objects resp] ∧
      (∀ x, resp = Ok x → length (ol_pointers x) ≠ length objects.*1) ∧ r ≠ Ok tt) ∨
     ∃ x f e c1, resp = Ok x ∧ Forall no_request e ∧ Forall (λ e, ¬ is_submit e) e ∧
       let read := asked addr objects (Ok x)
         :: ROffloadSubmit (ol_transfer_engine_addr x) objects.*1 (ol_pointers x) objects f :: e in
       evs = RClient c0 :: read ++ [RClient c1; ROffloadRelease addr (ol_batch_id x)] ∧
       (r = Ok tt → u64 (moment (h0 ++ read) - moment h) < ol_gc_ttl_ms x)).
Proof.
  unfold batch_get_into_offload_object_internal.
  intros (start & e0 & e1 & R0 & R & ->)%bind_inv.
  apply lift_inv in R0 as (e' & [Hstart ->]%call_inv & ->).
  apply bind_inv in R as (resp & e2 & e3 & [Hr ->]%call_inv & R & ->).
  exists (EClock (Now start)), resp. cbv zeta. split; [exact Hr|].
  destruct resp as [x|e]; [|apply ret_inv in R as [-> ->]; by left].
  destruct (length (ol_pointers x) =? length objects.*1)%nat eqn:Hlen; cbn [negb] in R; cycle 1.
  { apply ret_inv in R as [-> ->]. left. split_and!; [done| |done]. intros y [= <-]. by apply Nat.eqb_neq. }
  apply bind_inv in R as (result & e4 & e5 & (f & e6 & -> & Q6 & N6)%transfer_run & R & ->).
  apply bind_inv in R as (tend & e7 & e8 & R7 & R & ->).
  apply lift_inv in R7 as (e' & [Hend ->]%call_inv & ->).
  apply bind_inv in R as (u & e9 & e10 & [_ ->]%call_inv & R & ->).
  right. exists x, f, e6, (EClock (Now tend)). split_and!; [done..| |].
  - destruct result; apply ret_inv in R as [_ ->]; cbn; by rewrite <- ?app_assoc.
  - destruct result as [v|]; apply ret_inv in R as [-> _]; [|done]. intros Hok.
    destruct (Z.leb_spec (ol_gc_ttl_ms x) (u64 (tend - start))) as [|Hlt]; [done|].
    rewrite Hstart, Hend in Hlt. unfold moment.
    match goal with |- ?a < _ => match type of Hlt with ?b < _ => replace a with b; [exact Hlt|] end end.
    do 4 f_equal. cbn [fmap list_fmap app]. by rewrite <- !app_assoc.
Qed.

(** C22: A read from a peer's SSD gives back the batch of buffers it made the peer allocate,
    on every path: afterwards the owner holds nothing it did not hold before, unless the
    answer or the release was lost on the way, or the answer had the wrong number of
    pointers; and it still holds every batch of before whose lease is not over.  The owner
    collects batches whose lease is over at any time; if the read succeeds, it held the
    batch of the read from the submission of the transfer until its end.  (No other client
    sends requests to the owner meanwhile.) *)
Theorem peer_read_releases addr objects h r evs :
  batch_get_into_offload_object_internal addr objects h = (r, evs) →
  ((live_batches addr (h ++ evs) ⊆+ live_batches addr h) ∨
   ∃ id, (live_batches addr (h ++ evs) ⊆+ id :: live_batches addr h) ∧
         batch_left addr objects.*1 h evs id) ∧
  (∀ i, held_at addr h i (moment (h ++ evs)) → i ∈ live_batches addr (h ++ evs)) ∧
  (r = Ok tt → ∃ before x f transfer c,
     let get := asked addr objects (Ok x) in
     let submit := ROffloadSubmit (ol_transfer_engine_addr x) objects.*1 (ol_pointers x) objects f in
     evs = before ++ get :: submit :: transfer ++ [c; ROffloadRelease addr (ol_batch_id x)] ∧
     ∀ part, part `prefix_of` submit :: transfer →
       ol_batch_id x ∈ live_batches addr (h ++ before ++ get :: part)).
Proof using linked FileStorageLaws0 time_passes time_bounded.
  intros (c0 & resp & Hr & Hcase)%peer_read_run. cbv zeta in Hcase.
  set (h0 := h ++ [RClient c0]) in *.
  assert (Hq0 : Forall no_request [RClient c0]) by (by repeat constructor).
  pose proof (quiet_live addr h _ Hq0) as Hl0. fold h0 in Hl0.
  pose proof (get_step _ _ _ _ _ Hr) as Hget. cbv zeta in Hget. clear Hr.
  assert (Hh0 : ∀ i t, held_at addr h i t → moment h ≤ t → held_at addr h0 i t).
  { intros i t Hi Ht. apply quiet_held; [done..|]. intros [|? [|]] e' [=]; subst.
    by rewrite app_nil_r. }
  destruct Hcase as [(-> & Hlen & Hne)|(x & f & e & c1 & -> & Qe & Ne & -> & Hok)].
  - destruct Hget as [Hget Hheld]. change (h ++ [RClient c0; asked addr objects resp])
      with (h ++ [RClient c0] ++ [asked addr objects resp]). rewrite app_assoc. fold h0.
    split_and!; [|..|by intros].
    + destruct resp as [x|err].
      * destruct Hget as (Hl & _). right. exists (ol_batch_id x).
        split; [etrans; [exact Hl|by apply submseteq_skip]|]. right. left. eexists x, _.
        split_and!; [right; by left|done|by apply Hlen].
      * destruct Hget as [Hl|(Ho & id & Hl)]; [left; by etrans|right]. exists id.
        split; [etrans; [exact Hl|by apply submseteq_skip]|]. left.
        by eexists [RClient c0], _, err.
    + intros i Hi. apply (Hheld i (moment (h0 ++ [asked addr objects resp]))); [apply Hh0|]; [done|..].
      * etrans; [apply (moment_mono h [RClient c0])|]. apply moment_mono.
      * apply moment_mono.
  - destruct Hget as ((Hl1 & Hid & Hfresh) & Hheld).
    set (get := asked addr objects (Ok x)) in *. set (sub := ROffloadSubmit _ _ _ _ _) in *.
    set (h1 := h0 ++ [get]) in *. pose (quiet := sub :: e).
    assert (Hq : Forall no_request (quiet ++ [RClient c1])).
    { apply Forall_app. split; [by constructor|by repeat constructor]. }
    set (h2 := h1 ++ quiet ++ [RClient c1]).
    assert (Hl2 : live_batches addr h2 ⊆+ ol_batch_id x :: live_batches addr h).
    { etrans; [by apply quiet_live|]. etrans; [exact Hl1|]. by apply submseteq_skip. }
    assert (Eall : h ++ RClient c0 :: (get :: sub :: e) ++ [RClient c1; ROffloadRelease addr (ol_batch_id x)]
      = h2 ++ [ROffloadRelease addr (ol_batch_id x)]).
    { unfold h2, h1, h0, quiet. rewrite <- !app_assoc. done. }
    destruct (release_step addr _ _ _ Hl2) as [Hrel Hkeep]. split_and!.
    + rewrite Eall. destruct Hrel as [|[Ho Hl]]; [by left|right].
      exists (ol_batch_id x). split; [exact Hl|]. right. right.
      exists (RClient c0 :: (get :: sub :: e) ++ [RClient c1]).
      split; [cbn; by rewrite <- app_assoc|].
      replace (h ++ RClient c0 :: (get :: sub :: e) ++ [RClient c1]) with h2; [done|].
      unfold h2, h1, h0, quiet. rewrite <- !app_assoc. cbn. done.
    + rewrite Eall. intros i Hi. set (t := moment (h2 ++ _)) in *.
      assert (Hto2 : moment h2 ≤ t) by apply moment_mono.
      assert (Hto1 : moment h1 ≤ t) by (etrans; [apply moment_mono|exact Hto2]).
      assert (Hto0 : moment h0 ≤ t) by (etrans; [apply moment_mono|exact Hto1]).
      assert (Hto : moment h ≤ t) by (etrans; [apply moment_mono|exact Hto0]).
      specialize (Hh0 i t Hi Hto). apply (Hkeep i t); [by apply (Hfresh i t)| |done].
      apply quiet_held; [done|by apply Hheld|]. intros evs' e' E.
      etrans; [|exact Hto2]. unfold h2. rewrite E, app_assoc. apply time_passes.
    + intros Hr. specialize (Hok Hr). exists [RClient c0], x, f, e, (RClient c1).
      split; [done|]. intros part [rest Epart]. set (t := moment (h0 ++ get :: sub :: e)) in *.
      assert (Htlt : t < moment h0 + ol_gc_ttl_ms x).
      { pose proof (time_bounded h). pose proof (time_bounded (h0 ++ get :: sub :: e)) as Hb.
        fold t in Hb. pose proof (moment_mono h [RClient c0]) as Hm0. fold h0 in Hm0.
        pose proof (moment_mono h0 (get :: sub :: e)) as Hm. fold t in Hm.
        unfold u64 in Hok. rewrite Z.mod_small in Hok by lia. lia. }
      fold get. fold sub in Epart.
      replace (h ++ [RClient c0] ++ get :: part) with (h1 ++ part)
        by (unfold h1, h0; by rewrite <- !app_assoc).
      apply (quiet_held addr h1 part _ t).
      * eapply (Forall_app _ part rest). rewrite <- Epart. by constructor.
      * by apply Hid.
      * intros part' e' ->. unfold t.
        replace (h0 ++ get :: sub :: e) with ((h1 ++ part') ++ e' :: rest); [apply moment_mono|].
        unfold h1. rewrite Epart. rewrite <- !app_assoc. done.
Qed.
End Requester.

(** ** Examples *)

(** Batches with the ends of their leases; [short]: one pointer too few. *)
Definition sample_storage_of (short : bool) : FileStorage (gmap Z Z) := {|
  fs_batch_get now keys _ s :=
    let id := fresh (dom s) in
    (Ok (id, (λ _, 4096) <$> (if short then tail keys else keys)), <[id := now + 1000]> s);
  fs_release id s := (bool_decide (is_Some (s !! id)), delete id s);
  fs_collect now s := filter (λ x, ¬ x.2 ≤ now) s;
  fs_live s := (map_to_list s).*1;
  fs_lease s i := default 0 (s !! i);
  fs_endpoint _ := "peer:1";
  fs_gc_ttl_ms _ := 1000 |}.

Lemma elem_of_keys (s : gmap Z Z) i : i ∈ (map_to_list s).*1 ↔ is_Some (s !! i).
Proof.
  rewrite list_elem_of_fmap. split.
  - intros ([j t] & -> & Hj%elem_of_map_to_list). by exists t.
  - intros [t Hi%elem_of_map_to_list]. by exists (i, t).
Qed.

Lemma same_leases_lookup short (s s' : gmap Z Z) :
  (∀ i, is_Some (s !! i) → is_Some (s' !! i) → s' !! i = s !! i) →
  @same_leases _ (sample_storage_of short) s s'.
Proof. intros He i. cbn. rewrite !elem_of_keys. intros Hs Hs'. by rewrite He. Qed.

#[export] Instance sample_storage_laws short : @FileStorageLaws _ (sample_storage_of short).
Proof.
  split.
  - intros now keys sizes s id ptrs s'. cbn. intros [= <- <- <-].
    assert (Hn : s !! fresh (dom s) = None) by (apply not_elem_of_dom, is_fresh).
    split_and!.
    + by rewrite map_to_list_insert.
    + rewrite elem_of_keys, Hn. by intros [? ?].
    + rewrite lookup_insert_eq. cbn. lia.
    + apply same_leases_lookup. intros i [t Hi] _. rewrite lookup_insert_ne; congruence.
  - by intros now keys sizes s e s'.
  - intros id s [t Hi]%elem_of_keys. cbn. by rewrite <- (map_to_list_delete s id t Hi).
  - intros id s Hi. cbn in *. rewrite elem_of_keys in Hi. rewrite delete_id; [done|].
    by apply eq_None_not_Some.
  - intros id s. apply same_leases_lookup. intros i _ [t Hi]. cbn in *.
    by apply lookup_delete_Some in Hi as [Hne Hi]; rewrite lookup_delete_ne.
  - intros now s. cbn. exists (map_to_list (filter (λ x, x.2 ≤ now) s)).*1. split.
    + apply NoDup_Permutation; [apply NoDup_fst_map_to_list|apply NoDup_app; split_and!|].
      * apply NoDup_fst_map_to_list.
      * intros i [t Hi]%elem_of_keys [t' Hi']%elem_of_keys.
        apply map_lookup_filter_Some in Hi as [Hi Hle], Hi' as [Hi' Hn]. cbn in *. rewrite Hi in Hi'. injection Hi' as <-. by apply Hn.
      * apply NoDup_fst_map_to_list.
      * intros i. rewrite elem_of_app, !elem_of_keys. split.
        -- intros [t Hi]. destruct (decide (t ≤ now)); [left|right]; exists t;
             by apply map_lookup_filter_Some.
        -- intros [[t [Hi _]%map_lookup_filter_Some]|[t [Hi _]%map_lookup_filter_Some]]; by exists t.
    + apply Forall_forall. intros i [t Hi]%elem_of_keys.
      apply map_lookup_filter_Some in Hi as [Hi Hle]. rewrite Hi. exact Hle.
  - intros now s. apply same_leases_lookup. intros i _ [t Hi]. cbn in *. rewrite Hi.
    by apply map_lookup_filter_Some in Hi as [-> _].
Qed.

Definition no_batches (addr : string) : gmap Z Z := ∅.

Definition sample_peer (short : bool) : RealServices := {|
  r_allocate := @r_allocate (sample_real []); r_device_of := @r_device_of (sample_real []);
  r_is_host := @r_is_host (sample_real []); r_copy_h2d := @r_copy_h2d (sample_real []);
  r_offload_get h addr keys sizes :=
    (@requester_batch_get _ (sample_storage_of short) Answered (@moment (sample_clock 0) h) keys sizes
       (@owner_now _ (sample_storage_of short) (sample_clock 0) (λ _, Answered) no_batches addr h)).1;
  r_offload_submit := @r_offload_submit (sample_real []);
  r_local_endpoints := @r_local_endpoints (sample_real []);
  r_storage_key := @r_storage_key (sample_real []);
  calculate_total_size := @calculate_total_size (sample_real []);
  allocateSlices := @allocateSlices (sample_real []);
  split_into_slices := @split_into_slices (sample_real []);
  kMaxSliceSize := @kMaxSliceSize (sample_real []) |}.

Definition sample_peer_read (short : bool) :=
  @batch_get_into_offload_object_internal (sample_submitter []) (sample_clock 0) (sample_peer short)
    "peer:9" [("k", [MkSlice 8192 16])] [].

Abbreviation sample_batches short :=
  (@live_batches _ (sample_storage_of short) (sample_clock 0) (λ _, Answered) no_batches "peer:9").

(** An answer with the wrong number of pointers: the read fails, and its batch is not
    released. *)
Theorem mismatched_answer_keeps_batch :
  (sample_peer_read true).1 = Err INVALID_PARAMS ∧
  length (sample_batches true (sample_peer_read true).2) = 1%nat.
Proof. split; vm_compute; reflexivity. Qed.

Lemma peer_read_releases_witness :
  (sample_peer_read false).1 = Ok tt ∧
  (sample_batches false ([] ++ (sample_peer_read false).2) ⊆+ []) ∧
  ∃ before x post, (sample_peer_read false).2 =
    before ++ ROffloadGet "peer:9" ["k"] [16] (Ok x) :: post ∧
    ol_batch_id x ∈ sample_batches false
      ([] ++ before ++ [ROffloadGet "peer:9" ["k"] [16] (Ok x)]).
Proof.
  assert (Hr : (sample_peer_read false).1 = Ok tt) by (vm_compute; reflexivity).
  destruct (@peer_read_releases _ (sample_storage_of false) (sample_clock 0) (λ _, Answered)
    (sample_storage_laws false) (sample_submitter []) (sample_peer false) no_batches
    (λ _ _ _ _, eq_refl) (λ _ _, Z.le_refl 0) (λ _, conj (Z.le_refl 0) eq_refl)
    "peer:9" [("k", [MkSlice 8192 16])] [] (sample_peer_read false).1
    (sample_peer_read false).2 (surjective_pairing _)) as (Hl & _ & Hok).
  split; [exact Hr|]. split.
  - destruct Hl as [Hl|(id & Hl & _)]; [exact Hl|]. vm_compute. constructor.
  - destruct (Hok Hr) as (before & x & f & transfer & c & E & Hheld). exists before, x. eexists.
    split; [exact E|]. exact (Hheld [] (prefix_nil _)).
Defined.
